(* ===== verification/_CoqProject ===== *)
-Q . S2P
Prelude.v
Text.v
Net.v
Obfuscation.v
Protocol.v
UdpRelay.v
Sni.v
UserRule.v
Routing.v
RelayHealth.v
Chan.v
Mux.v
MuxTasks.v
MuxInv.v
MuxWire.v
MuxFlow.v
MuxIo.v
MuxPool.v
ServerPool.v
FakeDns.v
UdpServer.v
Relay.v
SafePath.v
Order.v
Share.v
Hub.v
Sync.v
Mirror.v
Transfer.v
Fallback.v
ClientUdp.v
ShareFiles.v
Agent.v
AgentRun.v
Tunnel.v
ServerConn.v
ServerMux.v
AcceptLoop.v
Packet.v
Engine.v
Session.v
DnsClient.v
Health.v
Journal.v
Presets.v
Delivery.v
EngineControl.v
ProxyConn.v
ImportGate.v
ImportJobs.v
Http.v
WebSession.v
WebSplice.v
WebFront.v
Expose.v
