(* ===== verification/Prelude.v ===== *)
(** * A verification library for xr-proxy

    xr-proxy carries the traffic of a router or a phone through an obfuscated
    tunnel to a server. A connection is classified (SNI parser, fake DNS, routing
    rules); a proxied one becomes a stream of a multiplexer, whose frames are
    obfuscated and sent over one of several TCP tunnels to one of several servers.
    This library models that path, crate xr-proto and the engine of xr-core, as
    executable functions on explicit state and proves what makes it correct.

    ** The parts and their files

    - [Prelude] (this file): machine integers and the width of [usize], panicking
      reads, [io::Error], tactics, hints and lemmas on lists and bytes.
    - [Text], [Net]: what the sources use of [str] and [std::net]: UTF-8, trimming,
      splitting, number and address parsers. Unicode case mapping is an interface
      ([UnicodeCase]) with an ASCII instance.
    - [Obfuscation]: obfuscation.rs. [Protocol]: protocol.rs, the frame codec and
      target addresses. [UdpRelay]: udp_relay.rs. [Sni]: sni.rs. [UserRule]:
      user_rule.rs with the routing records of config.rs. [Routing]: routing.rs.
    - [RelayHealth]: the outcome window of mux.rs. [Chan]: the bounded channels.
      [Mux]: an endpoint of mux.rs, its queues, streams, windows and handles; what
      the source shares through [Arc] is a cell of a heap. [MuxTasks]: dispatch,
      reader, writer, handshake, opening of a stream. [MuxIo]: [MuxStreamIo].
    - [MuxPool]: mux_pool.rs, the tunnels to one server behind a circuit breaker.
      [ServerPool]: server_pool.rs, failover and failback between servers.
    - [FakeDns]: xr-core/src/dns.rs.
    - The UDP relay: [ClientUdp], xr-client/src/udp_relay.rs, the tunnel ports of the
      devices and both loops of the router; [UdpServer], xr-server/src/udp_relay.rs,
      the flows of the server.
      [Relay]: xr-relay, the registry of agents and the registration handler.
      [SafePath]: xr-share/src/safepath.rs.
    - [Order]: byte order and the stable sort. [Share]: xr-proto/src/share.rs, the
      signed mandates, over interfaces for base64 and the signature scheme. [Hub]:
      the share, invite, registration and browser handlers of xr-hub/src/api with
      the tables in memory and on disk.
    - xr-core/src/sync.rs: [Sync], the diff, the selection and safe destinations;
      [Mirror], the hash index, scan, downloads and the round; [Transfer], the lock
      and cancel of a transfer, one step per atomic operation; [Fallback], the choice
      between direct addresses and relay and the check of the manifest.
    - xr-share: [ShareFiles], manifest.rs and meta.rs, the walk, the hash cache, the
      listing and the index of origins; [Agent], auth.rs and server.rs, the token of a
      request, the gates and the steps of a write; [AgentRun], many writes at once.

    - The server: [Tunnel], xr-proto/src/tunnel.rs with the single-stream relay of both
      ends; [ServerConn], handler.rs and fallback.rs of xr-server, the first frame and
      what a stranger sees; [ServerMux], mux_handler.rs, the accept loop of a session
      under the stream caps and the relay of a stream. [AcceptLoop],
      xr-proto/src/accept.rs.
    - The VPN engine of xr-core: [Packet], the packet helpers of engine.rs; [Engine], the
      queues of ip_stack.rs and the event loop, one turn of it a function, with the
      TCP/IP stack as a type class ([Smoltcp]) of which two laws are used; [Session],
      the relay task of a connection in session.rs; [DnsClient], its resolver; [Health],
      health.rs, the counters of stats.rs and the classes of errors; [Journal],
      journal.rs, the calls on its directory succeeding.

    ** How the code is modelled

    Integers are [Z], with the wrap-around written where the code can reach it.
    Bytes and strings are lists of [Z]. A fallible function returns [io_result];
    where it can also panic (an index or slice out of range) it returns an [option]
    of that, and a safety theorem shows that [None] does not happen. An [async]
    operation is a machine whose steps are the stretches between two [await]s; a
    stretch is one step. Time is an argument of the step that reads the clock, the
    answer of a socket the argument of the step that waits for it. Interleaving is
    a step relation over all machines that share a state ([mux_step], [link_step],
    [pool_step], [server_step], [dns_op], [udp_step], [client_step], [relay_step],
    [hub_step], [agent_step], [transfer_step], [side_step], [server_mux_step],
    [engine_step], [sess_step], [health_run]), cancellation and restarts included, and
    invariants are proved by induction on it. Third-party code is a parameter: smoltcp, the random
    generator, the GeoIP database, Unicode case mapping, signatures and base64,
    SHA-256, JSON.

    ** What the theorems show

    - Codec: frames, addresses and relay packets survive the wire between machines
      of any width that agree on the key; decoders neither panic nor read past
      their buffer on foreign bytes ([Protocol], [UdpRelay], [Obfuscation]).
    - Multiplexer: every reachable endpoint is well-formed ([MuxInv]); the reader
      dispatches exactly the frames the peer sent however they are cut, within its
      buffer, and the writer keeps the order of each queue ([MuxWire]); credit is
      conserved between two endpoints and a stream cannot deadlock ([MuxFlow]); the
      adapter is a byte queue and writes once, and both sides of the handshake
      agree ([MuxIo]).
    - Pools: no tunnel lives outside a slot and no slot lock leaks; calls end; the
      circuit breaker is armed and cleared as announced ([MuxPool]). The walk over
      the servers, its error report, the hold-down of failback over whole runs, the
      bounds of the flapping penalty ([ServerPool]).
    - Classification: the SNI parser, the fake resolver (names and addresses
      correspond, eviction of the least recently used only when the pool is full)
      and the rules (first match, CIDR prefixes, patterns of the editor).

    - Relays and shares: a datagram reaches the server's flow of its device and the
      answers reach that device ([ClientUdp]); flows of the UDP relay and the agents of
      the relay registry follow their connections ([UdpServer], [Relay]); paths stay inside a share
      ([SafePath]); a mandate is accepted exactly where it was signed for and cannot
      be turned into another ([Share]); in any run of the hub a one-time invite goes
      to one client, and whatever an agent or the relay accepts was registered,
      published or bound by its owner ([Hub]).
    - Mirror: the diff is exact and taking a path out of a selection loses nothing else
      ([Sync]); a download is all or nothing, the index never lies, a clean round leaves
      nothing to do ([Mirror]); a cancel hits its own transfer only ([Transfer]); ways
      are taken in order and a stranger cannot serve the manifest ([Fallback]).
    - Share agent: what is listed is served and can be mirrored ([ShareFiles]); refusals
      are ordered ([Agent]); in any interleaving a file is whole, its writer held a token
      of the hub, the hash cache is right between single writes, and the listing reaches
      its consumer as it was signed ([AgentRun]).
    - Server: the single-stream tunnel is two byte pipes ([Tunnel]); a stranger sees the
      fallback page and nothing else, and a session begins as the client asked
      ([ServerConn]); the caps on streams hold and no permit leaks, a relay queues
      its data and then one Close whose reason the client's health counts
      ([ServerMux]); a listener survives passing errors ([AcceptLoop]).

    Where the code differs from its comments the library says so with a theorem:
    [obfuscation_width], [handshake_ack_buffer],
    [relay_window_outlives_doc], [two_probers_at_once],
    [revocation_lost_on_failed_write], [cancel_lost_at_start],
    [late_cancel_overwrites], [resumed_unhashed_mix], [part_named_file_refetched],
    [uploads_race], [backslash_listed_not_served], [handshake_drops_greeting],
    [relay_buffer_short], [relay_ends_with_either], [direct_relay_lifetime],
    [packet_panics], [port_taken_over], [ended_relay_drops_download],
    [reopened_repeat_uncounted].

    ** Fuel and bounds

    Loops are structural or carry fuel that their callers set: the length of the
    buffer for the decoders (each turn consumes a byte), [send_fuel] for one poll of
    a send, the pool size for the search of a free address. The theorems that say
    that a function returns are proved for exactly that fuel. Bounds of the sources
    (queue sizes, windows, 255-byte names, 16-bit lengths) are their constants.

    ** What is not modelled

    Sockets, TLS, timers and the scheduler; logging; pages and routing of the HTTP
    services (of xr-hub the handlers above, of xr-share the routes above without import
    jobs and publications, of xr-web nothing), the installer, the Android bridge; the
    inside of the TCP/IP stack, start and stop of the engine. A multi-threaded scheduler can interleave inside a
    stretch between two [await]s; the models do not, [Transfer] apart. Next along the
    plan: the presets and the start of the engine in xr-core, the transparent proxy of xr-client, the
    storage migration of sync.rs, the import jobs of xr-share, sessions of xr-web. *)

From stdpp Require Export base decidable gmap list numbers strings option sorting.
From Stdlib Require Export ZArith Lia.

#[global] Open Scope Z_scope.

(** ** Machine integers

    A Rust [uN] is a [Z] in [0, 2^N); the wrap-around of the release build is
    written out where the source relies on it. *)

Definition u8 (z : Z) : Z := z mod 2 ^ 8.
Definition u16 (z : Z) : Z := z mod 2 ^ 16.
Definition u32 (z : Z) : Z := z mod 2 ^ 32.
Definition u64 (z : Z) : Z := z mod 2 ^ 64.

Definition U8_MAX : Z := 2 ^ 8 - 1.
Definition U16_MAX : Z := 2 ^ 16 - 1.
Definition U32_MAX : Z := 2 ^ 32 - 1.
Definition U64_MAX : Z := 2 ^ 64 - 1.
Definition I64_MAX : Z := 2 ^ 63 - 1.

(** The width of [usize] differs between the platforms the crates are built for
    (32 bits on the mips and arm routers, 64 on the VPS and on phones). *)
Class Arch := { usize_bits : Z; usize_bits_spec : usize_bits = 32 \/ usize_bits = 64 }.

Definition usize {AR : Arch} (z : Z) : Z := z mod 2 ^ usize_bits.

#[refine] Definition arch32 : Arch := {| usize_bits := 32 |}.
Proof. by left. Defined.
#[refine] Definition arch64 : Arch := {| usize_bits := 64 |}.
Proof. by right. Defined.

(** [saturating_add] and [saturating_sub] of an unsigned type whose largest
    value is [mx]. *)
Definition sat_add (mx a b : Z) : Z := Z.min mx (a + b).
Definition sat_sub (a b : Z) : Z := Z.max 0 (a - b).

(** ** Byte strings

    [Vec<u8>], [&[u8]] and [String]/[&str] (which are UTF-8 byte strings) are
    all [list Z] with every element a byte. *)

Abbreviation bytes := (list Z).

Definition is_byte (b : Z) : Prop := 0 <= b < 256.

#[global] Instance is_byte_dec b : Decision (is_byte b).
Proof. unfold is_byte. apply _. Defined.

Definition bytes_ok (l : bytes) : Prop := Forall is_byte l.

#[global] Instance bytes_ok_dec l : Decision (bytes_ok l).
Proof. unfold bytes_ok. apply _. Defined.

(** A source literal as the byte string it denotes. *)
Definition ascii_byte (a : Ascii.ascii) : Z := Z.of_N (Ascii.N_of_ascii a).

Fixpoint str (s : string) : bytes :=
  match s with
  | EmptyString => []
  | String a s' => ascii_byte a :: str s'
  end.

Definition ch (a : Ascii.ascii) : Z := ascii_byte a.

(** ** Lengths, indexing and slicing

    [zlen] is [len()]; [index] and [slice] are [l[i]] and [&l[a..b]], whose
    out-of-range panic is the outer [None] of the model. *)

Definition zlen {A} (l : list A) : Z := Z.of_nat (length l).

Definition index {A} (l : list A) (i : Z) : option A :=
  if decide (0 <= i) then l !! Z.to_nat i else None.

(** An index that the code keeps in range by construction. *)
Definition at_ (l : bytes) (i : Z) : Z := default 0 (index l i).

Definition slice {A} (l : list A) (a b : Z) : option (list A) :=
  if decide (0 <= a <= b /\ b <= zlen l)
  then Some (take (Z.to_nat (b - a)) (drop (Z.to_nat a) l))
  else None.

Definition ztake {A} (n : Z) (l : list A) : list A := take (Z.to_nat n) l.
Definition zdrop {A} (n : Z) (l : list A) : list A := drop (Z.to_nat n) l.

(** [usize] subtraction; an underflow is a panic. *)
Definition usub (a b : Z) : option Z := if decide (b <= a) then Some (a - b) else None.

(** ** Big-endian integers *)

Definition be16 (v : Z) : bytes := [(v / 2 ^ 8) mod 256; v mod 256].
Definition be32 (v : Z) : bytes :=
  [(v / 2 ^ 24) mod 256; (v / 2 ^ 16) mod 256; (v / 2 ^ 8) mod 256; v mod 256].
Definition be64 (v : Z) : bytes := be32 (v / 2 ^ 32) ++ be32 (v mod 2 ^ 32).
Definition from_be16 (a b : Z) : Z := a * 2 ^ 8 + b.
Definition from_be32 (a b c d : Z) : Z := a * 2 ^ 24 + b * 2 ^ 16 + c * 2 ^ 8 + d.

(** [n] bytes of [v], most significant first, and back ([Ipv6Addr::octets]). *)
Fixpoint to_be (n : nat) (v : Z) : bytes :=
  match n with
  | O => []
  | S n' => to_be n' (v / 256) ++ [v mod 256]
  end.

Definition of_be (l : bytes) : Z := foldl (fun acc b => acc * 256 + b) 0 l.

(** ** Errors

    [std::io::Error] as its kind and its message; [io_result] is
    [io::Result]. *)

Inductive ErrorKind :=
| InvalidData | InvalidInput | BrokenPipe | TimedOut | WouldBlock
| ConnectionReset | ConnectionAborted | ConnectionRefused | NotFound | PermissionDenied | OtherKind.

#[global] Instance ErrorKind_eq_dec : EqDecision ErrorKind.
Proof. solve_decision. Defined.

Record io_error := IoError { kind : ErrorKind; message : bytes }.

Inductive result (A E : Type) := Ok (a : A) | Err (e : E).
Arguments Ok {A E} _.
Arguments Err {A E} _.

Abbreviation io_result A := (result A io_error).

Definition io_err {A} (k : ErrorKind) (m : string) : io_result A := Err (IoError k (str m)).

Definition is_ok {A E} (r : result A E) : bool := match r with Ok _ => true | Err _ => false end.

Lemma Ok_inj {A E} (a b : A) : @Ok A E a = Ok b -> a = b.
Proof. congruence. Qed.

(** Sequencing a fallible step inside panicking code: the [?] operator. *)
Definition rbind {A B E} (r : option (result A E)) (k : A -> option (result B E)) :
    option (result B E) :=
  match r with
  | None => None
  | Some (Err e) => Some (Err e)
  | Some (Ok a) => k a
  end.

Declare Scope xr_scope.
#[global] Open Scope xr_scope.
Notation "x <-? e ;; k" := (rbind e (fun x => k))
  (at level 60, e at next level, right associativity) : xr_scope.

(** ** Tactics *)

(** Case analysis on the boolean comparisons and decisions of a goal, leaving
    the propositions they decide. *)
Ltac case_cmp :=
  match goal with
  | |- context [if ?b then _ else _] =>
      match b with
      | (?x <? ?y) => destruct (Z.ltb_spec x y)
      | (?x <=? ?y) => destruct (Z.leb_spec x y)
      | (?x =? ?y) => destruct (Z.eqb_spec x y)
      | decide _ => case_decide
      | _ => let E := fresh "E" in destruct b eqn:E
      end
  end.

(** Removes the trivial branches of a symbolic execution. *)
Ltac branch := repeat (case_cmp; try lia; try done).

(** Turns boolean hypotheses into propositions. *)
Ltac bool_props :=
  repeat match goal with
  | H : andb _ _ = true |- _ => apply andb_true_iff in H as [? ?]
  | H : andb _ _ = false |- _ => apply andb_false_iff in H
  | H : orb _ _ = true |- _ => apply orb_true_iff in H
  | H : orb _ _ = false |- _ => apply orb_false_iff in H as [? ?]
  | H : negb _ = true |- _ => apply negb_true_iff in H
  | H : negb _ = false |- _ => apply negb_false_iff in H
  | H : (_ <? _) = true |- _ => apply Z.ltb_lt in H
  | H : (_ <? _) = false |- _ => apply Z.ltb_ge in H
  | H : (_ <=? _) = true |- _ => apply Z.leb_le in H
  | H : (_ <=? _) = false |- _ => apply Z.leb_gt in H
  | H : (_ =? _) = true |- _ => apply Z.eqb_eq in H
  | H : (_ =? _) = false |- _ => apply Z.eqb_neq in H
  | H : bool_decide _ = true |- _ => apply bool_decide_eq_true in H
  | H : bool_decide _ = false |- _ => apply bool_decide_eq_false in H
  end.

(** Linear arithmetic with division and remainder by constants. *)
Ltac divmod := Z.div_mod_to_equations; lia.

(** A decidable fact about closed terms, by evaluation. *)
Ltac by_compute := apply (bool_decide_unpack _); vm_compute; exact I.

Create HintDb xr discriminated.

(** ** Lists with integer lengths *)

Section lists.
Context {A : Type}.
Implicit Types l k : list A.

Lemma zlen_nonneg l : 0 <= zlen l.
Proof. unfold zlen. lia. Qed.

Lemma zlen_nil : zlen (@nil A) = 0.
Proof. done. Qed.

Lemma zlen_cons x l : zlen (x :: l) = 1 + zlen l.
Proof. unfold zlen. simpl. lia. Qed.

Lemma zlen_app l k : zlen (l ++ k) = zlen l + zlen k.
Proof. unfold zlen. rewrite length_app. lia. Qed.

Lemma zlen_0_nil l : zlen l = 0 -> l = [].
Proof. unfold zlen. destruct l; simpl; [done | lia]. Qed.

Lemma zlen_take n l : 0 <= n <= zlen l -> zlen (ztake n l) = n.
Proof. unfold zlen, ztake. intros. rewrite length_take. lia. Qed.

Lemma zlen_drop n l : 0 <= n <= zlen l -> zlen (zdrop n l) = zlen l - n.
Proof. unfold zlen, zdrop. intros. rewrite length_drop. lia. Qed.

Lemma ztake_app n l k : zlen l = n -> ztake n (l ++ k) = l.
Proof. unfold ztake, zlen. intros <-. by rewrite Nat2Z.id, take_app_length. Qed.

Lemma zdrop_app n l k : zlen l = n -> zdrop n (l ++ k) = k.
Proof. unfold zdrop, zlen. intros <-. by rewrite Nat2Z.id, drop_app_length. Qed.

Lemma ztake_zdrop n l : ztake n l ++ zdrop n l = l.
Proof. apply take_drop. Qed.

Lemma ztake_ge n l : zlen l <= n -> ztake n l = l.
Proof. unfold ztake, zlen. intros. apply take_ge. lia. Qed.

Lemma zdrop_0 l : zdrop 0 l = l.
Proof. done. Qed.

Lemma zdrop_zdrop m n l : 0 <= m -> 0 <= n -> zdrop n (zdrop m l) = zdrop (m + n) l.
Proof. unfold zdrop. intros. rewrite drop_drop. f_equal. lia. Qed.

Lemma index_some l i : 0 <= i < zlen l -> exists x, index l i = Some x.
Proof.
  unfold index, zlen. intros. rewrite decide_True by lia.
  destruct (l !! Z.to_nat i) eqn:E; [eauto |]. apply lookup_ge_None in E. lia.
Qed.

Lemma index_in_range l i x : index l i = Some x -> 0 <= i < zlen l.
Proof.
  unfold index, zlen. case_decide; [| done]. intros H1%lookup_lt_Some. lia.
Qed.

Lemma index_app_l l k i : i < zlen l -> index (l ++ k) i = index l i.
Proof.
  unfold index, zlen. intros. case_decide; [| done]. apply lookup_app_l. lia.
Qed.

Lemma index_app_r l k i : zlen l <= i -> index (l ++ k) i = index k (i - zlen l).
Proof.
  unfold index, zlen. intros. rewrite !decide_True by lia.
  rewrite lookup_app_r by lia. f_equal. lia.
Qed.

Lemma index_mid l x k i : i = zlen l -> index (l ++ x :: k) i = Some x.
Proof.
  intros ->. rewrite index_app_r by lia. by rewrite Z.sub_diag.
Qed.

Lemma index_mid2 l x y k i : i = zlen l + 1 -> index (l ++ x :: y :: k) i = Some y.
Proof.
  intros ->. rewrite index_app_r by lia.
  by replace (zlen l + 1 - zlen l) with 1 by lia.
Qed.

Lemma index_Forall (P : A -> Prop) l i x : Forall P l -> index l i = Some x -> P x.
Proof.
  unfold index. case_decide; [| done]. intros Hl Hx. by eapply Forall_lookup_1.
Qed.

Lemma index_0 x l : index (x :: l) 0 = Some x.
Proof. done. Qed.

Lemma index_1 x y l : index (x :: y :: l) 1 = Some y.
Proof. done. Qed.

Lemma index_2 x y z l : index (x :: y :: z :: l) 2 = Some z.
Proof. done. Qed.

Lemma index_3 x y z w l : index (x :: y :: z :: w :: l) 3 = Some w.
Proof. done. Qed.

Lemma index_4 x y z w v l : index (x :: y :: z :: w :: v :: l) 4 = Some v.
Proof. done. Qed.

Lemma index_5 x y z w v u l : index (x :: y :: z :: w :: v :: u :: l) 5 = Some u.
Proof. done. Qed.

Lemma index_6 x y z w v u t l : index (x :: y :: z :: w :: v :: u :: t :: l) 6 = Some t.
Proof. done. Qed.

Lemma index_7 x y z w v u t s l : index (x :: y :: z :: w :: v :: u :: t :: s :: l) 7 = Some s.
Proof. done. Qed.

Lemma index_cons x l i : 0 < i -> index (x :: l) i = index l (i - 1).
Proof.
  intros. unfold index. rewrite !decide_True by lia.
  replace (Z.to_nat i) with (S (Z.to_nat (i - 1))) by lia. done.
Qed.

Lemma slice_some l a b :
  0 <= a <= b -> b <= zlen l -> slice l a b = Some (ztake (b - a) (zdrop a l)).
Proof. intros. unfold slice. rewrite decide_True by lia. done. Qed.

Lemma slice_inv l a b s :
  slice l a b = Some s ->
  0 <= a <= b /\ b <= zlen l /\ zlen s = b - a /\ s = ztake (b - a) (zdrop a l).
Proof.
  unfold slice. case_decide; [| done]. intros [= <-].
  split_and!; try lia; [| done].
  change (zlen (ztake (b - a) (zdrop a l)) = b - a).
  rewrite zlen_take; [lia |]. rewrite zlen_drop; lia.
Qed.

Lemma slice_app l1 l2 l3 a b :
  a = zlen l1 -> b = zlen l1 + zlen l2 -> slice (l1 ++ l2 ++ l3) a b = Some l2.
Proof.
  intros -> ->. pose proof (zlen_nonneg l1). pose proof (zlen_nonneg l2).
  pose proof (zlen_nonneg l3).
  rewrite slice_some by (rewrite ?zlen_app; lia).
  rewrite zdrop_app by done. by rewrite ztake_app by lia.
Qed.

Lemma slice_shift l1 l2 a b :
  0 <= a -> slice (l1 ++ l2) (zlen l1 + a) (zlen l1 + b) = slice l2 a b.
Proof.
  intros Ha. pose proof (zlen_nonneg l1). unfold slice. rewrite zlen_app.
  destruct (decide (0 <= a <= b /\ b <= zlen l2)).
  - rewrite decide_True by lia. do 2 f_equal; [lia |].
    unfold zlen in *. rewrite drop_app_ge by lia. f_equal. lia.
  - rewrite decide_False; [done |]. lia.
Qed.

Lemma slice_app_end l1 l2 a b :
  a = zlen l1 -> b = zlen l1 + zlen l2 -> slice (l1 ++ l2) a b = Some l2.
Proof.
  intros Ha Hb. rewrite <- (app_nil_r l2) at 1. by apply slice_app.
Qed.

Lemma slice_prefix l1 l2 a b : b <= zlen l1 -> slice (l1 ++ l2) a b = slice l1 a b.
Proof.
  intros Hb. unfold slice. rewrite zlen_app. pose proof (zlen_nonneg l2).
  case_decide; [| rewrite decide_False by lia; done].
  rewrite decide_True by lia. unfold zlen in *. rewrite drop_app_le by lia.
  rewrite take_app_le; [done |]. rewrite length_drop. lia.
Qed.

Lemma slice_Forall (P : A -> Prop) l a b s : Forall P l -> slice l a b = Some s -> Forall P s.
Proof.
  unfold slice. case_decide; [| done]. intros Hl [= <-].
  by apply Forall_take, Forall_drop.
Qed.

End lists.

Create Rewrite HintDb zlen.
#[export] Hint Rewrite @zlen_nil @zlen_cons @zlen_app : zlen.

Ltac zlen_simpl := autorewrite with zlen in *.
Ltac zlen_lia :=
  autorewrite with zlen in *;
  repeat match goal with |- context [@zlen ?A ?l] =>
    lazymatch goal with _ : 0 <= @zlen A l |- _ => fail | _ => pose proof (@zlen_nonneg A l) end end;
  repeat match goal with H : context [@zlen ?A ?l] |- _ =>
    lazymatch goal with _ : 0 <= @zlen A l |- _ => fail | _ => pose proof (@zlen_nonneg A l) end end;
  lia.

Lemma index_be32_0 v l : index (be32 v ++ l) 0 = Some ((v / 2 ^ 24) mod 256).
Proof. done. Qed.
Lemma index_be32_1 v l : index (be32 v ++ l) 1 = Some ((v / 2 ^ 16) mod 256).
Proof. done. Qed.
Lemma index_be32_2 v l : index (be32 v ++ l) 2 = Some ((v / 2 ^ 8) mod 256).
Proof. done. Qed.
Lemma index_be32_3 v l : index (be32 v ++ l) 3 = Some (v mod 256).
Proof. done. Qed.

(** Reads the first bytes of an explicit list. *)
Ltac read_heads :=
  rewrite ?index_be32_0, ?index_be32_1, ?index_be32_2, ?index_be32_3,
    ?index_0, ?index_1, ?index_2, ?index_3, ?index_4, ?index_5, ?index_6, ?index_7; cbn [mbind option_bind].

(** Reads an index that is in range. *)
Ltac step_index :=
  match goal with
  | |- context [mbind _ (index ?l ?i)] =>
      let x := fresh "b" in let E := fresh "Eb" in
      destruct (index_some l i) as [x E]; [zlen_lia | rewrite E; cbn [mbind option_bind]]
  end.

(** ** Bytes and big-endian integers *)

Lemma index_byte data i x : bytes_ok data -> index data i = Some x -> 0 <= x < 256.
Proof. intros H1 H2. by apply (index_Forall is_byte data i x). Qed.

(** Reads a byte at an index the guards keep in range, with its bounds. *)
Ltac step_byte :=
  match goal with
  | Hb : bytes_ok ?l |- context [mbind _ (index ?l ?i)] =>
      let x := fresh "b" in let E := fresh "Eb" in let R := fresh "Rb" in
      destruct (index_some l i) as [x E]; [zlen_lia | rewrite E; cbn [mbind option_bind];
        pose proof (index_byte _ _ _ Hb E) as R]
  end.

Lemma from_be16_byte_range a b : 0 <= a < 256 -> 0 <= b < 256 -> 0 <= from_be16 a b < 65536.
Proof. unfold from_be16. lia. Qed.

(** A field shifted above the bits of another one. *)
Lemma lor_shiftl_add a b k : 0 <= k -> 0 <= b < 2 ^ k -> Z.lor (Z.shiftl a k) b = a * 2 ^ k + b.
Proof.
  intros Hk Hb. rewrite Z.shiftl_mul_pow2 by done.
  assert (Hl : Z.land (a * 2 ^ k) b = 0).
  { apply Z.bits_inj'. intros i Hi. rewrite Z.land_spec, Z.bits_0.
    destruct (Z.ltb_spec i k).
    - by rewrite Z.mul_pow2_bits_low.
    - destruct (decide (b = 0)) as [-> | ?]; [by rewrite Z.bits_0, andb_false_r |].
      rewrite (Z.bits_above_log2 b), andb_false_r; [done | lia |].
      apply Z.log2_lt_pow2; [lia |]. eapply Z.lt_le_trans; [apply Hb |].
      by apply Z.pow_le_mono_r. }
  by rewrite <- Z.lxor_lor, <- Z.add_nocarry_lxor by done.
Qed.

Lemma usub_some a b : b <= a -> usub a b = Some (a - b).
Proof. intros. unfold usub. by rewrite decide_True. Qed.

Lemma be32_surj a b c d :
  is_byte a -> is_byte b -> is_byte c -> is_byte d -> be32 (from_be32 a b c d) = [a; b; c; d].
Proof.
  unfold is_byte, be32, from_be32. intros.
  change (2 ^ 24) with 16777216. change (2 ^ 16) with 65536. change (2 ^ 8) with 256.
  repeat f_equal; divmod.
Qed.

Lemma u8_byte z : is_byte (u8 z).
Proof. unfold u8, is_byte. divmod. Qed.

Lemma be16_bytes v : bytes_ok (be16 v).
Proof. unfold be16, bytes_ok, is_byte. repeat constructor; divmod. Qed.

Lemma be32_bytes v : bytes_ok (be32 v).
Proof. unfold be32, bytes_ok, is_byte. repeat constructor; divmod. Qed.

Lemma zlen_be16 v : zlen (be16 v) = 2.
Proof. done. Qed.

Lemma zlen_be32 v : zlen (be32 v) = 4.
Proof. done. Qed.

Lemma be16_roundtrip v :
  0 <= v < 2 ^ 16 -> from_be16 ((v / 2 ^ 8) mod 256) (v mod 256) = v.
Proof. unfold from_be16. intros. change (2 ^ 8) with 256. divmod. Qed.

Lemma be32_roundtrip v :
  0 <= v < 2 ^ 32 ->
  from_be32 ((v / 2 ^ 24) mod 256) ((v / 2 ^ 16) mod 256) ((v / 2 ^ 8) mod 256) (v mod 256) = v.
Proof.
  unfold from_be32. intros.
  change (2 ^ 24) with 16777216 in *. change (2 ^ 16) with 65536 in *.
  change (2 ^ 8) with 256 in *. change (2 ^ 32) with 4294967296 in *. divmod.
Qed.

Lemma from_be16_range a b : is_byte a -> is_byte b -> 0 <= from_be16 a b < 2 ^ 16.
Proof. unfold is_byte, from_be16. lia. Qed.

Lemma from_be32_range a b c d :
  is_byte a -> is_byte b -> is_byte c -> is_byte d -> 0 <= from_be32 a b c d < 2 ^ 32.
Proof. unfold is_byte, from_be32. lia. Qed.

Lemma to_be_length n v : length (to_be n v) = n.
Proof.
  revert v. induction n; intros; simpl; [done |]. rewrite length_app, IHn. simpl. lia.
Qed.

Lemma to_be_bytes n v : bytes_ok (to_be n v).
Proof.
  revert v. induction n; intros; simpl; [constructor |].
  apply Forall_app. split; [apply IHn |]. repeat constructor; divmod.
Qed.

Lemma of_be_snoc l b : of_be (l ++ [b]) = of_be l * 256 + b.
Proof. unfold of_be. by rewrite foldl_app. Qed.

Lemma of_to_be n v : 0 <= v < 256 ^ Z.of_nat n -> of_be (to_be n v) = v.
Proof.
  revert v. induction n as [| n IH]; intros v Hv.
  - change (256 ^ Z.of_nat 0) with 1 in Hv. assert (v = 0) as -> by lia. done.
  - replace (Z.of_nat (S n)) with (Z.succ (Z.of_nat n)) in Hv by lia.
    rewrite Z.pow_succ_r in Hv by lia. simpl. rewrite of_be_snoc, IH by divmod. divmod.
Qed.

Lemma of_be_bound l : bytes_ok l -> 0 <= of_be l < 256 ^ zlen l.
Proof.
  induction l as [| b l IH] using rev_ind; intros Hl; [done |].
  apply Forall_app in Hl as [Hl Hb]. inversion Hb as [| ? ? Hb' _]; subst.
  rewrite of_be_snoc. specialize (IH Hl). unfold is_byte in Hb'.
  replace (zlen (l ++ [b])) with (Z.succ (zlen l)).
  - rewrite Z.pow_succ_r by (unfold zlen; lia). lia.
  - unfold zlen. rewrite length_app. simpl. lia.
Qed.

#[export] Hint Resolve u8_byte to_be_bytes be16_bytes be32_bytes from_be16_range from_be32_range : xr.
#[export] Hint Rewrite zlen_be16 zlen_be32 : zlen.

Lemma bytes_ok_app l k : bytes_ok (l ++ k) <-> bytes_ok l /\ bytes_ok k.
Proof. unfold bytes_ok. apply Forall_app. Qed.

Lemma bytes_ok_cons b l : bytes_ok (b :: l) <-> is_byte b /\ bytes_ok l.
Proof. unfold bytes_ok. apply Forall_cons. Qed.

Lemma str_bytes s : bytes_ok (str s).
Proof.
  induction s as [| a s IH]; [constructor |].
  constructor; [| done]. unfold is_byte, ascii_byte.
  pose proof (Ascii.N_ascii_bounded a). lia.
Qed.

Lemma at_byte l i : bytes_ok l -> is_byte (at_ l i).
Proof.
  intros Hl. unfold at_. destruct (index l i) eqn:E; simpl.
  - by eapply index_Forall.
  - unfold is_byte. lia.
Qed.

(** The exclusive or of bytes is a byte. *)
Lemma lxor_bits (n a b : Z) :
  0 <= n -> 0 <= a < 2 ^ n -> 0 <= b < 2 ^ n -> 0 <= Z.lxor a b < 2 ^ n.
Proof.
  intros Hn Ha Hb. split; [apply Z.lxor_nonneg; lia |].
  destruct (decide (Z.lxor a b = 0)) as [-> | Hne]; [lia |].
  assert (0 <= Z.lxor a b) by (apply Z.lxor_nonneg; lia).
  apply Z.log2_lt_pow2; [lia |].
  eapply Z.le_lt_trans; [apply Z.log2_lxor; lia |].
  destruct (decide (n = 0)) as [-> | ].
  { assert (a = 0) by lia. assert (b = 0) by lia. subst. done. }
  apply Z.max_lub_lt.
  - destruct (decide (a = 0)) as [-> |]; [simpl; lia | apply Z.log2_lt_pow2; lia].
  - destruct (decide (b = 0)) as [-> |]; [simpl; lia | apply Z.log2_lt_pow2; lia].
Qed.

Lemma lxor_byte a b : is_byte a -> is_byte b -> is_byte (Z.lxor a b).
Proof. unfold is_byte. intros. apply (lxor_bits 8); lia. Qed.

Lemma lxor_cancel a b : Z.lxor (Z.lxor a b) b = a.
Proof. by rewrite Z.lxor_assoc, Z.lxor_nilpotent, Z.lxor_0_r. Qed.

#[export] Hint Resolve lxor_byte at_byte : xr.
