(* ===== verification/Text.v ===== *)
(** * Strings of the Rust standard library

    What the sources use of [str] and [String], on UTF-8 byte strings: UTF-8
    validation, [trim], ASCII case mapping, [split], [strip_prefix],
    [ends_with], [contains] and the [u32] parser. The full Unicode case mapping
    is an interface, [UnicodeCase], with the promise the sources rely on. *)

From S2P Require Import Prelude.

(** ** UTF-8 ([String::from_utf8]) *)

Definition in_rng (lo hi b : Z) : bool := (lo <=? b) && (b <=? hi).

Definition cont (b : Z) : bool := in_rng 0x80 0xBF b.

(** The second byte of a three-byte sequence starting with [b0]. *)
Definition second3 (b0 b1 : Z) : bool :=
  if b0 =? 0xE0 then in_rng 0xA0 0xBF b1
  else if b0 =? 0xED then in_rng 0x80 0x9F b1
  else in_rng 0xE1 0xEF b0 && cont b1.

(** The second byte of a four-byte sequence starting with [b0]. *)
Definition second4 (b0 b1 : Z) : bool :=
  if b0 =? 0xF0 then in_rng 0x90 0xBF b1
  else if b0 =? 0xF4 then in_rng 0x80 0x8F b1
  else in_rng 0xF1 0xF3 b0 && cont b1.

Fixpoint utf8_valid (l : bytes) : bool :=
  match l with
  | [] => true
  | b0 :: r0 =>
      if in_rng 0 0x7F b0 then utf8_valid r0 else
      match r0 with
      | [] => false
      | b1 :: r1 =>
          if in_rng 0xC2 0xDF b0 then cont b1 && utf8_valid r1 else
          match r1 with
          | [] => false
          | b2 :: r2 =>
              if in_rng 0xE0 0xEF b0 then second3 b0 b1 && cont b2 && utf8_valid r2 else
              match r2 with
              | [] => false
              | b3 :: r3 => second4 b0 b1 && cont b2 && cont b3 && utf8_valid r3
              end
          end
      end
  end.

Definition is_ascii (b : Z) : Prop := 0 <= b < 128.

Lemma utf8_valid_ascii l : Forall is_ascii l -> utf8_valid l = true.
Proof.
  induction 1 as [| b l Hb Hl IH]; [done |]. simpl. unfold in_rng, is_ascii in *.
  destruct (Z.leb_spec 0 b), (Z.leb_spec b 127); simpl; try lia. done.
Qed.

Lemma utf8_valid_app a b : utf8_valid a = true -> utf8_valid (a ++ b) = utf8_valid b.
Proof.
  remember (length a) as n eqn:En. revert a En. induction n as [n IH] using lt_wf_ind. intros a -> Ha.
  assert (IH' : forall r, (length r < length a)%nat -> utf8_valid r = true -> utf8_valid (r ++ b) = utf8_valid b) by (intros r Hr; by apply (IH _ Hr)).
  clear IH. destruct a as [| b0 r0]; [done |]. cbn [utf8_valid app length] in *.
  destruct (in_rng 0 127 b0); [by apply IH'; [lia |] |].
  destruct r0 as [| b1 r1]; [done |]. cbn [app length] in *.
  destruct (in_rng 194 223 b0); [apply andb_true_iff in Ha as [-> Ha]; by apply IH'; [lia |] |].
  destruct r1 as [| b2 r2]; [done |]. cbn [app length] in *.
  destruct (in_rng 224 239 b0); [apply andb_true_iff in Ha as [-> Ha]; by apply IH'; [lia |] |].
  destruct r2 as [| b3 r3]; [done |]. cbn [app length] in *.
  apply andb_true_iff in Ha as [-> Ha]. by apply IH'; [lia |].
Qed.

Lemma utf8_concat l : Forall (fun e => utf8_valid e = true) l -> utf8_valid (concat l) = true.
Proof. induction 1 as [| e l He _ IH]; [done |]. cbn [concat]. by rewrite utf8_valid_app. Qed.

(** [String::from_utf8]. *)
Definition from_utf8 (l : bytes) : option bytes := if utf8_valid l then Some l else None.

(** ** Case mapping *)

Definition ascii_lower (b : Z) : Z := if in_rng 65 90 b then b + 32 else b.
Definition ascii_upper (b : Z) : Z := if in_rng 97 122 b then b - 32 else b.
Definition to_ascii_lowercase (s : bytes) : bytes := map ascii_lower s.
Definition eq_ignore_ascii_case (s t : bytes) : bool :=
  bool_decide (to_ascii_lowercase s = to_ascii_lowercase t).

(** [str::to_lowercase] and [str::to_uppercase] follow the Unicode tables; on
    ASCII text they are the ASCII mappings. *)
Class UnicodeCase := {
  to_lowercase : bytes -> bytes;
  to_uppercase : bytes -> bytes;
  to_lowercase_ascii s : Forall is_ascii s -> to_lowercase s = map ascii_lower s;
  to_uppercase_ascii s : Forall is_ascii s -> to_uppercase s = map ascii_upper s
}.

(** The interface can be met: the mappings restricted to ASCII. *)
#[refine] Definition ascii_case : UnicodeCase :=
  {| to_lowercase := map ascii_lower; to_uppercase := map ascii_upper |}.
Proof. all: done. Defined.

(** ** Trimming

    [str::trim] removes the characters with the Unicode property White_Space:
    U+0009-000D, U+0020, U+0085, U+00A0, U+1680, U+2000-200A, U+2028, U+2029,
    U+202F, U+205F and U+3000. *)

Definition ws1 (b : Z) : bool := in_rng 9 13 b || (b =? 32).
Definition ws2 (b0 b1 : Z) : bool := (b0 =? 0xC2) && ((b1 =? 0x85) || (b1 =? 0xA0)).
Definition ws3 (b0 b1 b2 : Z) : bool :=
  ((b0 =? 0xE1) && (b1 =? 0x9A) && (b2 =? 0x80))
  || ((b0 =? 0xE2) && (b1 =? 0x80)
      && (in_rng 0x80 0x8A b2 || (b2 =? 0xA8) || (b2 =? 0xA9) || (b2 =? 0xAF)))
  || ((b0 =? 0xE2) && (b1 =? 0x81) && (b2 =? 0x9F))
  || ((b0 =? 0xE3) && (b1 =? 0x80) && (b2 =? 0x80)).

Fixpoint trim_start (l : bytes) : bytes :=
  match l with
  | [] => []
  | b0 :: r0 =>
      if ws1 b0 then trim_start r0 else
      match r0 with
      | [] => l
      | b1 :: r1 =>
          if ws2 b0 b1 then trim_start r1 else
          match r1 with
          | [] => l
          | b2 :: r2 => if ws3 b0 b1 b2 then trim_start r2 else l
          end
      end
  end.

(** The same on the reversed string: the last byte comes first. *)
Fixpoint trim_end_rev (l : bytes) : bytes :=
  match l with
  | [] => []
  | b0 :: r0 =>
      if ws1 b0 then trim_end_rev r0 else
      match r0 with
      | [] => l
      | b1 :: r1 =>
          if ws2 b1 b0 then trim_end_rev r1 else
          match r1 with
          | [] => l
          | b2 :: r2 => if ws3 b2 b1 b0 then trim_end_rev r2 else l
          end
      end
  end.

Definition trim_end (l : bytes) : bytes := rev (trim_end_rev (rev l)).
Definition trim (l : bytes) : bytes := trim_end (trim_start l).

(** Printable ASCII text without a space is its own trimming. *)
Definition is_graph (b : Z) : Prop := 32 < b < 128.

Lemma ws_graph b0 : is_graph b0 -> ws1 b0 = false /\ (forall b1, ws2 b0 b1 = false) /\
  (forall b1 b2, ws3 b0 b1 b2 = false) /\ (forall b1, ws2 b1 b0 = false) /\
  (forall b1 b2, ws3 b2 b1 b0 = false).
Proof.
  unfold is_graph, ws1, ws2, ws3, in_rng. intros. split_and!; intros; lia.
Qed.

Lemma trim_start_graph b l : is_graph b -> trim_start (b :: l) = b :: l.
Proof.
  intros Hb. destruct (ws_graph b Hb) as (E1 & E2 & E3 & _). simpl. rewrite E1.
  destruct l as [| b1 l]; [done |]. rewrite E2. destruct l as [| b2 l]; [done |]. by rewrite E3.
Qed.

Lemma trim_end_rev_graph b l : is_graph b -> trim_end_rev (b :: l) = b :: l.
Proof.
  intros Hb. destruct (ws_graph b Hb) as (E1 & _ & _ & E2 & E3). simpl. rewrite E1.
  destruct l as [| b1 l]; [done |]. rewrite E2. destruct l as [| b2 l]; [done |]. by rewrite E3.
Qed.

Lemma trim_graph l : Forall is_graph l -> trim l = l.
Proof.
  intros Hl. unfold trim, trim_end.
  assert (trim_start l = l) as ->.
  { destruct l as [| b l]; [done |]. inversion Hl; subst. by apply trim_start_graph. }
  assert (trim_end_rev (rev l) = rev l) as ->; [| apply rev_involutive].
  assert (Hr : Forall is_graph (rev l)).
  { apply Forall_forall. intros x Hx. rewrite Forall_forall in Hl. apply Hl.
    rewrite list_elem_of_In, <- in_rev, <- list_elem_of_In in *. done. }
  destruct (rev l) as [| b r]; [done |]. inversion Hr; subst. by apply trim_end_rev_graph.
Qed.

(** ** Prefixes, suffixes and substrings *)

Fixpoint strip_prefix (p l : bytes) : option bytes :=
  match p, l with
  | [], _ => Some l
  | a :: p', b :: l' => if a =? b then strip_prefix p' l' else None
  | _ :: _, [] => None
  end.

Definition strip_suffix (p l : bytes) : option bytes :=
  (@rev Z) <$> strip_prefix (rev p) (rev l).

Definition starts_with (p l : bytes) : bool :=
  match strip_prefix p l with Some _ => true | None => false end.

Definition ends_with (p l : bytes) : bool :=
  match strip_suffix p l with Some _ => true | None => false end.

(** [str::contains] with a string and with a character. *)
Fixpoint contains (p l : bytes) : bool :=
  starts_with p l || match l with [] => false | _ :: l' => contains p l' end.

Definition contains_char (c : Z) (l : bytes) : bool := existsb (Z.eqb c) l.

Lemma strip_prefix_spec p l r : strip_prefix p l = Some r <-> l = p ++ r.
Proof.
  revert l. induction p as [| a p IH]; intros l; simpl.
  - split; [intros [= ->]; done | intros ->; done].
  - destruct l as [| b l]; [done |]. destruct (Z.eqb_spec a b) as [-> | Hne].
    + rewrite IH. split; [intros ->; done | intros [= ->]; done].
    + split; [done | intros [= <- _]; done].
Qed.

Lemma strip_prefix_app p r : strip_prefix p (p ++ r) = Some r.
Proof. by apply strip_prefix_spec. Qed.

Lemma strip_suffix_spec p l r : strip_suffix p l = Some r <-> l = r ++ p.
Proof.
  unfold strip_suffix. rewrite fmap_Some. setoid_rewrite strip_prefix_spec. split.
  - intros (x & Hx & ->). apply (f_equal (@rev Z)) in Hx.
    by rewrite rev_involutive, rev_app_distr, rev_involutive in Hx.
  - intros ->. exists (rev r). by rewrite rev_app_distr, rev_involutive.
Qed.

Lemma starts_with_spec p l : starts_with p l = true <-> exists r, l = p ++ r.
Proof.
  unfold starts_with. destruct (strip_prefix p l) as [r |] eqn:E.
  - apply strip_prefix_spec in E. split; [eauto | done].
  - split; [done |]. intros [r ->]. by rewrite strip_prefix_app in E.
Qed.

Lemma ends_with_spec p l : ends_with p l = true <-> exists r, l = r ++ p.
Proof.
  unfold ends_with. destruct (strip_suffix p l) as [r |] eqn:E.
  - apply strip_suffix_spec in E. split; [eauto | done].
  - split; [done |]. intros [r ->].
    assert (strip_suffix p (r ++ p) = Some r) by (by apply strip_suffix_spec). congruence.
Qed.

Lemma contains_char_spec c l : contains_char c l = true <-> c ∈ l.
Proof.
  unfold contains_char. rewrite existsb_exists, list_elem_of_In. split.
  - intros (x & Hx & ->%Z.eqb_eq). done.
  - intros H. exists c. by rewrite Z.eqb_refl.
Qed.

Lemma contains_char_false c l : contains_char c l = false <-> c ∉ l.
Proof. rewrite <- contains_char_spec. by destruct (contains_char c l). Qed.

(** ** Splitting at an ASCII character *)

(** [s.split(c)]: never empty. *)
Fixpoint split (c : Z) (l : bytes) : list bytes :=
  match l with
  | [] => [[]]
  | b :: l' =>
      if b =? c then [] :: split c l' else
      match split c l' with
      | w :: ws => (b :: w) :: ws
      | [] => [[b]]
      end
  end.

(** [s.split_once(c)]. *)
Fixpoint split_once (c : Z) (l : bytes) : option (bytes * bytes) :=
  match l with
  | [] => None
  | b :: l' => if b =? c then Some ([], l') else
      match split_once c l' with
      | Some (x, y) => Some (b :: x, y)
      | None => None
      end
  end.

(** [parts.join(sep)]. *)
Fixpoint join (sep : bytes) (ws : list bytes) : bytes :=
  match ws with
  | [] => []
  | [w] => w
  | w :: ws' => w ++ sep ++ join sep ws'
  end.

Lemma split_nonempty c l : split c l <> [].
Proof. destruct l as [| b l]; simpl; [done |]. case_cmp; [done |]. by destruct (split c l). Qed.

Lemma join_split c l : join [c] (split c l) = l.
Proof.
  induction l as [| b l IH]; [done |]. simpl. pose proof (split_nonempty c l).
  destruct (Z.eqb_spec b c) as [-> |]; destruct (split c l) as [| w [| w' ws]]; simpl in *;
    by rewrite ?IH.
Qed.

Lemma split_no_sep c l w : w ∈ split c l -> c ∉ w.
Proof.
  revert w. induction l as [| b l IH]; intros w; simpl.
  - rewrite list_elem_of_singleton. intros ->. apply not_elem_of_nil.
  - destruct (Z.eqb_spec b c) as [-> |].
    + rewrite elem_of_cons. intros [-> | ?]; [apply not_elem_of_nil | auto].
    + destruct (split c l) as [| v vs] eqn:E.
      * by destruct (split_nonempty c l).
      * rewrite !elem_of_cons. intros [-> | Hw].
        -- rewrite not_elem_of_cons. split; [congruence |]. apply IH. by left.
        -- apply IH. by right.
Qed.

Lemma split_absent c l : c ∉ l -> split c l = [l].
Proof.
  induction l as [| b l IH]; [done |]. rewrite not_elem_of_cons. intros [? ?]. simpl.
  destruct (Z.eqb_spec b c); [congruence |]. by rewrite IH.
Qed.

Lemma split_app_sep c w l : c ∉ w -> split c (w ++ c :: l) = w :: split c l.
Proof.
  induction w as [| b w IH]; simpl; [by rewrite Z.eqb_refl |].
  rewrite not_elem_of_cons. intros [? ?].
  destruct (Z.eqb_spec b c); [congruence |]. by rewrite IH.
Qed.

Lemma split_once_spec c l x y : split_once c l = Some (x, y) -> l = x ++ c :: y /\ c ∉ x.
Proof.
  revert x y. induction l as [| b l IH]; intros x y; simpl; [done |].
  destruct (Z.eqb_spec b c) as [-> |].
  - intros [= <- <-]. split; [done | apply not_elem_of_nil].
  - destruct (split_once c l) as [[x' y'] |]; [| done]. intros [= <- <-].
    destruct (IH _ _ eq_refl) as [-> ?]. split; [done |]. rewrite not_elem_of_cons.
    split; [congruence | done].
Qed.

Lemma split_once_app c x y : c ∉ x -> split_once c (x ++ c :: y) = Some (x, y).
Proof.
  induction x as [| b x IH]; simpl; [by rewrite Z.eqb_refl |].
  rewrite not_elem_of_cons. intros [? ?]. destruct (Z.eqb_spec b c); [congruence |]. by rewrite IH.
Qed.

Lemma split_once_none c l : split_once c l = None <-> c ∉ l.
Proof.
  induction l as [| b l IH]; simpl; [split; [intros _; apply not_elem_of_nil | done] |].
  rewrite not_elem_of_cons. destruct (Z.eqb_spec b c) as [-> |]; [split; [done | tauto] |].
  destruct (split_once c l) as [[? ?] |]; split; try done.
  - intros [_ Hl]. by apply IH in Hl.
  - intros _. split; [congruence |]. by apply IH.
Qed.

(** ** Numbers *)

Definition digit10 (b : Z) : option Z := if in_rng 48 57 b then Some (b - 48) else None.

Definition digit16 (b : Z) : option Z :=
  if in_rng 48 57 b then Some (b - 48)
  else if in_rng 97 102 b then Some (b - 87)
  else if in_rng 65 70 b then Some (b - 55)
  else None.

(** The digits of [u32::from_str]: checked multiplication and addition. *)
Fixpoint parse_digits (acc : Z) (l : bytes) : option Z :=
  match l with
  | [] => Some acc
  | b :: l' =>
      match digit10 b with
      | None => None
      | Some d =>
          if U32_MAX <? acc * 10 then None
          else if U32_MAX <? acc * 10 + d then None
          else parse_digits (acc * 10 + d) l'
      end
  end.

(** [s.parse::<u32>()]: an optional [+], then at least one digit. *)
Definition parse_u32 (s : bytes) : option Z :=
  match s with
  | [] => None
  | b :: r => if b =? 43 then (match r with [] => None | _ => parse_digits 0 r end)
              else parse_digits 0 s
  end.

(** The same for [u64]. *)
Fixpoint parse_digits64 (acc : Z) (l : bytes) : option Z :=
  match l with
  | [] => Some acc
  | b :: l =>
      d ← digit10 b;
      if U64_MAX <? acc * 10 + d then None else parse_digits64 (acc * 10 + d) l
  end.

Definition parse_u64 (s : bytes) : option Z :=
  match s with
  | [] => None
  | b :: r => if b =? 43 then match r with [] => None | _ => parse_digits64 0 r end else parse_digits64 0 s
  end.

Lemma parse_digits_range acc l v :
  0 <= acc <= U32_MAX -> parse_digits acc l = Some v -> 0 <= v <= U32_MAX.
Proof.
  revert acc. induction l as [| b l IH]; intros acc Hacc; simpl; [by intros [= <-] |].
  unfold digit10, in_rng. destruct (Z.leb_spec 48 b), (Z.leb_spec b 57); simpl; try done.
  destruct (Z.ltb_spec U32_MAX (acc * 10)); [done |].
  destruct (Z.ltb_spec U32_MAX (acc * 10 + (b - 48))); [done |]. apply IH. lia.
Qed.

Lemma parse_u32_range s v : parse_u32 s = Some v -> 0 <= v <= U32_MAX.
Proof.
  unfold parse_u32. destruct s as [| b r]; [done |].
  assert (0 <= 0 <= U32_MAX) by (unfold U32_MAX; lia).
  case_cmp; [destruct r; [done |] |]; by apply parse_digits_range.
Qed.

(** [{}] of an unsigned number of at most 64 bits: twenty digits are enough. *)
Fixpoint dec_digits (fuel : nat) (n : Z) (acc : bytes) : bytes :=
  match fuel with
  | O => acc
  | S fuel =>
      let acc := (48 + n mod 10) :: acc in
      if n / 10 =? 0 then acc else dec_digits fuel (n / 10) acc
  end.

Definition show_dec (n : Z) : bytes := dec_digits 20 n [].

Example show_dec_max : show_dec (2 ^ 64 - 1) = str "18446744073709551615".
Proof. vm_compute. reflexivity. Qed.

(** ** Printed numbers and joined fields *)

Lemma dec_digits_acc fuel n acc : dec_digits fuel n acc = dec_digits fuel n [] ++ acc.
Proof.
  revert n acc. induction fuel as [| fuel IH]; intros n acc; [done |]. cbn [dec_digits]. case_cmp; [done |].
  rewrite IH, (IH _ [_]). by rewrite <- app_assoc.
Qed.

(** The number a string of digits denotes. *)
Definition dec_value (l : bytes) : Z := foldl (fun acc b => acc * 10 + (b - 48)) 0 l.

Lemma dec_digits_value fuel n : 0 <= n < 10 ^ Z.of_nat fuel -> dec_value (dec_digits fuel n []) = n.
Proof.
  revert n. induction fuel as [| fuel IH]; intros n Hn; [cbn in *; lia |].
  cbn [dec_digits]. rewrite Nat2Z.inj_succ, Z.pow_succ_r in Hn by lia. case_cmp.
  - cbn. pose proof (Z.div_mod n 10). lia.
  - rewrite dec_digits_acc. unfold dec_value in *. rewrite foldl_app, IH by (split; divmod). cbn.
    pose proof (Z.div_mod n 10). lia.
Qed.

Lemma dec_digits_range fuel n : Forall (fun b => 48 <= b <= 57) (dec_digits fuel n []).
Proof.
  revert n. induction fuel as [| fuel IH]; intros n; [constructor |]. cbn [dec_digits].
  assert (48 <= 48 + n mod 10 <= 57) by (pose proof (Z.mod_pos_bound n 10); lia).
  case_cmp; [by apply Forall_singleton |]. rewrite dec_digits_acc. apply Forall_app. split; [apply IH | by apply Forall_singleton].
Qed.

Lemma show_dec_inj n m : 0 <= n < 2 ^ 64 -> 0 <= m < 2 ^ 64 -> show_dec n = show_dec m -> n = m.
Proof.
  intros Hn Hm E. rewrite <- (dec_digits_value 20 n), <- (dec_digits_value 20 m) by lia. by f_equal.
Qed.

Lemma show_dec_digits n b : b ∈ show_dec n -> 48 <= b <= 57.
Proof. intros Hb. by apply (Forall_forall (fun b => 48 <= b <= 57) (show_dec n)); [apply dec_digits_range |]. Qed.

Lemma utf8_digits n : utf8_valid (show_dec n) = true.
Proof.
  apply utf8_valid_ascii. rewrite Forall_forall. intros b Hb%show_dec_digits. unfold is_ascii. lia.
Qed.

Lemma parse_digits64_value l : Forall (fun b => 48 <= b <= 57) l -> forall acc, 0 <= acc ->
  foldl (fun acc b => acc * 10 + (b - 48)) acc l <= U64_MAX ->
  parse_digits64 acc l = Some (foldl (fun acc b => acc * 10 + (b - 48)) acc l).
Proof.
  induction 1 as [| b l Hb Hl IH]; intros acc Ha Hm; [done |]. cbn [parse_digits64 foldl] in *.
  assert (Hge : forall l a, Forall (fun b => 48 <= b <= 57) l -> 0 <= a -> a <= foldl (fun acc b => acc * 10 + (b - 48)) a l).
  { intros k. induction k as [| c k IHk]; intros a Hk Ha'; cbn [foldl]; [lia |]. apply Forall_cons in Hk as [Hc Hk].
    etransitivity; [| apply IHk; [done | lia]]. lia. }
  pose proof (Hge l (acc * 10 + (b - 48)) Hl ltac:(lia)).
  unfold digit10, in_rng. rewrite (proj2 (Z.leb_le 48 b)), (proj2 (Z.leb_le b 57)) by lia. cbn [andb].
  cbn [mbind option_bind]. rewrite (proj2 (Z.ltb_ge _ _)) by lia. apply IH; lia.
Qed.

Lemma dec_digits_nonempty fuel n acc : (0 < fuel)%nat -> dec_digits fuel n acc <> [].
Proof.
  destruct fuel as [| fuel]; [lia |]. intros _. cbn [dec_digits]. case_cmp; [done |].
  rewrite dec_digits_acc. by destruct (dec_digits fuel (n / 10) []).
Qed.

Lemma parse_show n : 0 <= n <= U64_MAX -> parse_u64 (show_dec n) = Some n.
Proof.
  intros Hn. unfold U64_MAX in Hn.
  assert (Hd : Forall (fun b => 48 <= b <= 57) (show_dec n)) by (rewrite Forall_forall; intros b; apply show_dec_digits).
  assert (Hv : foldl (fun acc b => acc * 10 + (b - 48)) 0 (show_dec n) = n).
  { apply (dec_digits_value 20 n). change (10 ^ Z.of_nat 20) with 100000000000000000000. lia. }
  assert (Hp : parse_digits64 0 (show_dec n) = Some n).
  { rewrite parse_digits64_value by (done || (rewrite ?Hv; unfold U64_MAX; lia)). by rewrite Hv. }
  unfold parse_u64. destruct (show_dec n) as [| b r] eqn:E; [by apply (dec_digits_nonempty 20 n []) in E; [| lia] |].
  apply Forall_cons in Hd as [Hb _]. destruct (Z.eqb_spec b 43); [lia | done].
Qed.

Lemma join_cons sep w ws : ws <> [] -> join sep (w :: ws) = w ++ sep ++ join sep ws.
Proof. by destruct ws. Qed.

(** Text before the first separator. *)
Lemma app_sep_inj (c : Z) a x b y : c ∉ a -> c ∉ b -> a ++ c :: x = b ++ c :: y -> a = b /\ x = y.
Proof.
  revert b. induction a as [| u a IH]; intros b Ha Hb E; destruct b as [| v b]; simplify_eq/=; try done.
  - destruct Hb. by left.
  - destruct Ha. by left.
  - rewrite not_elem_of_cons in Ha, Hb. destruct (IH b) as [-> ->]; tauto.
Qed.

(** Joined fields can be told apart when one side has no separator in them. *)
Lemma split_length_app c w l : length (split c (w ++ c :: l)) = (length (split c w) + length (split c l))%nat.
Proof.
  induction w as [| b w IH]; cbn [app split].
  - by rewrite Z.eqb_refl.
  - case_cmp; [cbn; by rewrite IH |].
    pose proof (split_nonempty c w). pose proof (split_nonempty c (w ++ c :: l)).
    by destruct (split c (w ++ c :: l)), (split c w).
Qed.

Lemma split_length_join c ws : ws <> [] -> (length ws <= length (split c (join [c] ws)))%nat.
Proof.
  induction ws as [| w [| w' ws] IH]; intros Hne; [done | |].
  - cbn [join length]. pose proof (split_nonempty c w). destruct (split c w); [done | cbn; lia].
  - rewrite join_cons by done. cbn [app]. rewrite split_length_app. pose proof (split_nonempty c w).
    assert (length (w' :: ws) <= length (split c (join [c] (w' :: ws))))%nat by by apply IH.
    destruct (split c w); [done |]. cbn [length] in *. lia.
Qed.

Lemma split_one c w x : split c w = [x] -> c ∉ w.
Proof.
  intros E Hc. apply list_elem_of_split in Hc as (a & b & ->).
  pose proof (split_length_app c a b) as Hl. rewrite E in Hl. cbn in Hl.
  pose proof (split_nonempty c a). pose proof (split_nonempty c b). destruct (split c a), (split c b); try done. cbn in Hl. lia.
Qed.

Lemma split_join c ws : ws <> [] -> Forall (fun w => c ∉ w) ws -> split c (join [c] ws) = ws.
Proof.
  induction ws as [| w [| w' ws] IH]; intros Hne Hf; [done | |]; apply Forall_cons in Hf as [Hw Hf].
  - cbn [join]. by apply split_absent.
  - rewrite join_cons by done. cbn [app]. rewrite split_app_sep by done. by rewrite IH.
Qed.

Lemma join_fields_inj c fs gs :
  length fs = length gs -> Forall (fun w => c ∉ w) gs -> join [c] fs = join [c] gs -> fs = gs.
Proof.
  revert gs. induction fs as [| f fs IH]; intros [| g gs] Hl Hg E; try done. apply Forall_cons in Hg as [Hg Hgs].
  injection Hl as Hl. destruct fs as [| f' fs], gs as [| g' gs]; try done; [cbn [join] in E; by rewrite E |].
  assert (Hs : split c (join [c] (f :: f' :: fs)) = g :: g' :: gs)
    by (rewrite E; apply split_join; [done | by constructor]).
  rewrite !join_cons in E by done. rewrite join_cons in Hs by done. cbn [app] in E, Hs.
  pose proof (f_equal length Hs) as Hls. rewrite split_length_app in Hls.
  pose proof (split_length_join c (f' :: fs)) as Hj. specialize (Hj ltac:(done)). cbn [length] in Hls, Hj, Hl.
  pose proof (split_nonempty c f).
  assert (Hf : c ∉ f).
  { destruct (split c f) as [| x [| y zs]] eqn:Ef; [done | by eapply split_one | cbn [length] in Hls; lia]. }
  apply app_sep_inj in E as [-> E]; [| done | done]. f_equal. apply IH; [cbn; lia | done | done].
Qed.
