(* ===== verification/Net.v ===== *)
(** * Addresses of [std::net]

    [Ipv4Addr] and [Ipv6Addr] as their integer values, [SocketAddr], the
    address parsers of the standard library and the address classes the
    sources test. *)

From S2P Require Import Prelude Text.

(** [IpAddr]: a [u32] or a [u128]. *)
Inductive IpAddr := V4 (a : Z) | V6 (a : Z).

#[global] Instance IpAddr_eq_dec : EqDecision IpAddr.
Proof. solve_decision. Defined.

#[global] Instance IpAddr_countable : Countable IpAddr.
Proof.
  refine (inj_countable' (fun i => match i with V4 a => inl a | V6 a => inr a end)
            (fun s => match s with inl a => V4 a | inr a => V6 a end) _).
  by intros [].
Defined.

(** [SocketAddr]; the IPv6 form carries its flow label and scope. *)
Inductive SocketAddr :=
| SockV4 (ip port : Z)
| SockV6 (ip port flowinfo scope_id : Z).

#[global] Instance SocketAddr_eq_dec : EqDecision SocketAddr.
Proof. solve_decision. Defined.

#[global] Instance SocketAddr_countable : Countable SocketAddr.
Proof.
  refine (inj_countable'
    (fun s => match s with SockV4 a p => inl (a, p) | SockV6 a p f c => inr (a, p, f, c) end)
    (fun x => match x with inl (a, p) => SockV4 a p | inr (a, p, f, c) => SockV6 a p f c end) _).
  by intros [].
Defined.

Definition sock_port (s : SocketAddr) : Z :=
  match s with SockV4 _ p => p | SockV6 _ p _ _ => p end.

Definition v4_octets (ip : Z) : bytes := be32 ip.
Definition v6_octets (ip : Z) : bytes := to_be 16 ip.

Definition ip_ok (i : IpAddr) : Prop :=
  match i with V4 a => 0 <= a < 2 ^ 32 | V6 a => 0 <= a < 2 ^ 128 end.

Definition sock_ok (s : SocketAddr) : Prop :=
  match s with
  | SockV4 ip p => 0 <= ip < 2 ^ 32 /\ 0 <= p < 2 ^ 16
  | SockV6 ip p f sc => 0 <= ip < 2 ^ 128 /\ 0 <= p < 2 ^ 16 /\ 0 <= f < 2 ^ 32 /\ 0 <= sc < 2 ^ 32
  end.

(** ** Parsing

    A parser of the standard library reads a prefix of its input and, when it
    fails, leaves the input where it was. *)

Definition reader (A : Type) := bytes -> option (A * bytes).

Definition read_given_char (c : Z) : reader unit := fun l =>
  match l with b :: r => if b =? c then Some (tt, r) else None | [] => None end.

(** The digit loop of [read_number]: value, number of digits, rest; [None] when
    there are more than [max] digits. *)
Fixpoint scan_digits (digit : Z -> option Z) (radix max res cnt : Z) (l : bytes) :
    option (Z * Z * bytes) :=
  match l with
  | [] => Some (res, cnt, [])
  | b :: r =>
      match digit b with
      | None => Some (res, cnt, l)
      | Some d => if max <? cnt + 1 then None
                  else scan_digits digit radix max (res * radix + d) (cnt + 1) r
      end
  end.

Definition read_number (digit : Z -> option Z) (radix max : Z) (zero_prefix : bool) (tmax : Z) :
    reader Z := fun l =>
  let leading_zero := match l with b :: _ => b =? 48 | [] => false end in
  match scan_digits digit radix max 0 0 l with
  | None => None
  | Some (res, cnt, rest) =>
      if cnt =? 0 then None
      else if negb zero_prefix && leading_zero && (1 <? cnt) then None
      else if res <=? tmax then Some (res, rest) else None
  end.

Definition read_separator {A} (sep i : Z) (inner : reader A) : reader A := fun l =>
  if 0 <? i then
    match read_given_char sep l with Some (_, r) => inner r | None => None end
  else inner l.

Definition read_octet (i : Z) : reader Z :=
  read_separator 46 i (read_number digit10 10 3 false U8_MAX).

Definition read_ipv4_addr : reader Z := fun l =>
  '(a, l) ← read_octet 0 l; '(b, l) ← read_octet 1 l;
  '(c, l) ← read_octet 2 l; '(d, l) ← read_octet 3 l;
  Some (from_be32 a b c d, l).

(** [read_groups]: at most [n] groups, the first being number [i] of [limit]. *)
Fixpoint read_groups (n : nat) (limit i : Z) (l : bytes) : list Z * bool * bytes :=
  match n with
  | O => ([], false, l)
  | S n' =>
      match (if i <? limit - 1 then read_separator 58 i read_ipv4_addr l else None) with
      | Some (v4, rest) => ([v4 / 2 ^ 16; v4 mod 2 ^ 16], true, rest)
      | None =>
          match read_separator 58 i (read_number digit16 16 4 true U16_MAX) l with
          | None => ([], false, l)
          | Some (g, rest) =>
              let '(gs, f, r) := read_groups n' limit (i + 1) rest in (g :: gs, f, r)
          end
      end
  end.

Definition groups_value (gs : list Z) : Z := foldl (fun acc g => acc * 2 ^ 16 + g) 0 gs.

Definition read_ipv6_addr : reader Z := fun l =>
  let '(head, head_ipv4, l) := read_groups 8 8 0 l in
  if zlen head =? 8 then Some (groups_value head, l)
  else if (head_ipv4 : bool) then None
  else
    '(_, l) ← read_given_char 58 l; '(_, l) ← read_given_char 58 l;
    let limit := 8 - (zlen head + 1) in
    let '(tail, _, l) := read_groups (Z.to_nat limit) limit 0 l in
    Some (groups_value (head ++ replicate (Z.to_nat (8 - zlen head - zlen tail)) 0 ++ tail), l).

(** The whole input has to be consumed. *)
Definition parse_with {A} (p : reader A) (s : bytes) : option A :=
  match p s with Some (a, []) => Some a | _ => None end.

Definition parse_ipv4 (s : bytes) : option Z :=
  if 15 <? zlen s then None else parse_with read_ipv4_addr s.

Definition parse_ipv6 (s : bytes) : option Z := parse_with read_ipv6_addr s.

Definition read_ip_addr : reader IpAddr := fun l =>
  match read_ipv4_addr l with
  | Some (a, r) => Some (V4 a, r)
  | None => match read_ipv6_addr l with Some (a, r) => Some (V6 a, r) | None => None end
  end.

Definition parse_ip (s : bytes) : option IpAddr := parse_with read_ip_addr s.

(** ** Address classes *)

Definition v4_is_loopback (a : Z) : bool := a / 2 ^ 24 =? 127.
Definition v4_is_private (a : Z) : bool :=
  (a / 2 ^ 24 =? 10) || (a / 2 ^ 20 =? 0xAC1) || (a / 2 ^ 16 =? 0xC0A8).
Definition v4_is_link_local (a : Z) : bool := a / 2 ^ 16 =? 0xA9FE.
Definition v6_is_loopback (a : Z) : bool := a =? 1.
Definition v6_is_unspecified (a : Z) : bool := a =? 0.
Definition v6_segment0 (a : Z) : Z := a / 2 ^ 112.

(** ** Facts *)

Lemma scan_digits_bound digit radix max res cnt l v n r :
  0 < radix -> 0 <= res -> 0 <= cnt -> cnt <= max ->
  (forall b d, digit b = Some d -> 0 <= d < radix) ->
  scan_digits digit radix max res cnt l = Some (v, n, r) ->
  0 <= v /\ cnt <= n <= max.
Proof.
  intros Hr Hres Hcnt Hmax Hd. revert res cnt Hres Hcnt Hmax.
  induction l as [| b l IH]; intros res cnt Hres Hcnt Hmax; simpl.
  - intros [= <- <- <-]. lia.
  - destruct (digit b) as [d |] eqn:E; [| intros [= <- <- <-]; lia].
    specialize (Hd _ _ E). destruct (Z.ltb_spec max (cnt + 1)); [done |].
    intros H1. apply IH in H1; nia.
Qed.

Lemma digit10_range b d : digit10 b = Some d -> 0 <= d < 10.
Proof. unfold digit10, in_rng. case_match; [| done]. intros [= <-]. bool_props. lia. Qed.

Lemma digit16_range b d : digit16 b = Some d -> 0 <= d < 16.
Proof. unfold digit16, in_rng. repeat case_match; intros [= <-]; bool_props; lia. Qed.

Lemma read_number_range digit radix max zp tmax l v r :
  0 < radix -> 0 <= max -> (forall b d, digit b = Some d -> 0 <= d < radix) ->
  read_number digit radix max zp tmax l = Some (v, r) -> 0 <= v <= tmax.
Proof.
  intros Hr Hm Hd. unfold read_number.
  destruct (scan_digits digit radix max 0 0 l) as [[[res cnt] rest] |] eqn:E; [| done].
  apply scan_digits_bound in E; try lia; [| done].
  repeat case_cmp; intros [= <- <-]; lia.
Qed.

Lemma read_separator_inv {A} sep i (inner : reader A) l v r (P : A -> Prop) :
  (forall l v r, inner l = Some (v, r) -> P v) ->
  read_separator sep i inner l = Some (v, r) -> P v.
Proof.
  intros Hi. unfold read_separator. repeat case_match; naive_solver.
Qed.

Lemma read_octet_range i l v r : read_octet i l = Some (v, r) -> is_byte v.
Proof.
  unfold read_octet. apply read_separator_inv. clear. intros l v r H%read_number_range.
  - unfold is_byte, U8_MAX in *. lia.
  - lia.
  - lia.
  - apply digit10_range.
Qed.

Lemma read_ipv4_range l v r : read_ipv4_addr l = Some (v, r) -> 0 <= v < 2 ^ 32.
Proof.
  unfold read_ipv4_addr.
  destruct (read_octet 0 l) as [[a l1] |] eqn:E1; [simpl | done].
  destruct (read_octet 1 l1) as [[b l2] |] eqn:E2; [simpl | done].
  destruct (read_octet 2 l2) as [[c l3] |] eqn:E3; [simpl | done].
  destruct (read_octet 3 l3) as [[d l4] |] eqn:E4; [simpl | done].
  intros [= <- <-]. apply from_be32_range; by eapply read_octet_range.
Qed.

Definition is_group (g : Z) : Prop := 0 <= g < 2 ^ 16.

Lemma read_groups_ok n limit i l gs f r :
  read_groups n limit i l = (gs, f, r) ->
  Forall is_group gs /\ (limit = i + Z.of_nat n -> zlen gs <= Z.of_nat n).
Proof.
  revert i l gs f r. induction n as [| n IH]; intros i l gs f r; simpl.
  { intros [= <- <- <-]. split; [constructor | done]. }
  destruct (if i <? limit - 1 then _ else None) as [[v4 rest] |] eqn:E4.
  - intros [= <- <- <-]. destruct (Z.ltb_spec i (limit - 1)); [| done].
    apply (read_separator_inv _ _ _ _ _ _ (fun v => 0 <= v < 2 ^ 32)) in E4;
      [| intros ???; apply read_ipv4_range].
    split; [| intros; zlen_lia].
    unfold is_group. repeat constructor; divmod.
  - clear E4. destruct (read_separator 58 i _ l) as [[g rest] |] eqn:Eg.
    + destruct (read_groups n limit (i + 1) rest) as [[gs' f'] r'] eqn:Er.
      intros [= <- <- <-]. apply IH in Er as [Hf Hl]. split.
      * constructor; [| done].
        eapply (read_separator_inv _ _ _ _ _ _ is_group) in Eg; [done |].
        clear. intros l v r H%read_number_range; [| lia | lia | apply digit16_range].
        unfold is_group, U16_MAX in *. lia.
      * intros. rewrite zlen_cons. lia.
    + intros [= <- <- <-]. split; [constructor | intros; zlen_lia].
Qed.

Lemma groups_value_bound gs :
  Forall is_group gs -> 0 <= groups_value gs < 2 ^ (16 * zlen gs).
Proof.
  unfold groups_value. induction gs as [| g gs IH] using rev_ind; intros Hg; [done |].
  apply Forall_app in Hg as [Hgs Hg]. inversion Hg as [| ? ? Hx _]; subst.
  specialize (IH Hgs). rewrite foldl_app. simpl. unfold is_group in Hx.
  rewrite zlen_app. change (zlen [g]) with 1.
  replace (16 * (zlen gs + 1)) with (16 + 16 * zlen gs) by lia.
  rewrite Z.pow_add_r by zlen_lia. nia.
Qed.

Lemma read_ipv6_range l v r : read_ipv6_addr l = Some (v, r) -> 0 <= v < 2 ^ 128.
Proof.
  unfold read_ipv6_addr.
  destruct (read_groups 8 8 0 l) as [[head h4] l1] eqn:E1.
  apply read_groups_ok in E1 as [Hh Hl]. specialize (Hl eq_refl).
  destruct (Z.eqb_spec (zlen head) 8) as [E8 |].
  { intros [= <- <-]. apply groups_value_bound in Hh. by rewrite E8 in Hh. }
  destruct h4; [done |].
  destruct (read_given_char 58 l1) as [[u1 l2] |]; [simpl | done].
  destruct (read_given_char 58 l2) as [[u2 l3] |]; [simpl | done].
  destruct (read_groups _ _ 0 l3) as [[tail t4] l4] eqn:E2.
  apply read_groups_ok in E2 as [Ht Htl]. pose proof (zlen_nonneg head).
  intros [= <- <-]. rewrite Z2Nat.id in Htl by lia. specialize (Htl eq_refl).
  pose proof (zlen_nonneg tail).
  set (gs := head ++ _). assert (Hgs : Forall is_group gs).
  { unfold gs. rewrite !Forall_app. split_and!; try done.
    apply Forall_replicate. unfold is_group. lia. }
  apply groups_value_bound in Hgs.
  assert (zlen gs = 8) as E; [| by rewrite E in Hgs].
  unfold gs. rewrite !zlen_app. unfold zlen at 2. rewrite length_replicate. lia.
Qed.

Lemma parse_with_inv {A} (p : reader A) s a : parse_with p s = Some a -> p s = Some (a, []).
Proof. unfold parse_with. destruct (p s) as [[? []] |]; congruence. Qed.

Lemma parse_ipv4_range s v : parse_ipv4 s = Some v -> 0 <= v < 2 ^ 32.
Proof. unfold parse_ipv4. case_cmp; [done |]. intros Hp%parse_with_inv. by eapply read_ipv4_range. Qed.

Lemma parse_ipv6_range s v : parse_ipv6 s = Some v -> 0 <= v < 2 ^ 128.
Proof. intros H%parse_with_inv. by eapply read_ipv6_range. Qed.

Lemma parse_ip_ok s i : parse_ip s = Some i -> ip_ok i.
Proof.
  intros H%parse_with_inv. unfold read_ip_addr in H.
  destruct (read_ipv4_addr s) as [[a r] |] eqn:E4.
  - injection H as <- _. by eapply read_ipv4_range.
  - destruct (read_ipv6_addr s) as [[a r] |] eqn:E6; [| done].
    injection H as <- _. by eapply read_ipv6_range.
Qed.

Example parse_ipv4_ex : parse_ipv4 (str "198.18.0.1") = Some 0xC6120001.
Proof. reflexivity. Qed.
Example parse_ipv4_zero : parse_ipv4 (str "198.018.0.1") = None.
Proof. reflexivity. Qed.
Example parse_ipv6_ex : parse_ipv6 (str "2001:db8::1") = Some 0x20010db8000000000000000000000001.
Proof. reflexivity. Qed.
Example parse_ipv6_v4 : parse_ipv6 (str "::ffff:10.0.0.1") = Some 0xffff0a000001.
Proof. reflexivity. Qed.
