(* ===== verification/Obfuscation.v ===== *)
(** * The obfuscation engine (xr-proto/src/obfuscation.rs)

    [Obfuscator::new], [modifier] and [apply], with the machine width of
    [usize] as a parameter: the same key stream has to come out on the router
    (32-bit) and on the server (64-bit). *)

From S2P Require Import Prelude.

Inductive ModifierStrategy := PositionalXorRotate | RotatingSalt | SubstitutionTable.

Definition ModifierStrategy_from_str (s : bytes) : option ModifierStrategy :=
  if decide (s = str "positional_xor_rotate") then Some PositionalXorRotate
  else if decide (s = str "rotating_salt") then Some RotatingSalt
  else if decide (s = str "substitution_table") then Some SubstitutionTable
  else None.

Record Obfuscator := {
  key : bytes;
  salt : Z;
  strategy : ModifierStrategy;
  sub_table : bytes
}.

(** The loop of [new] that fills the 256 entries of the table, from entry [i]. *)
Fixpoint fill_sub_table (key : bytes) (n : nat) (i : Z) (state : Z) : bytes :=
  match n with
  | O => []
  | S n' =>
      let state := u32 (u32 (state * 1664525) + 1013904223) in
      let state := Z.lxor state (at_ key (i mod zlen key)) in
      u8 (Z.shiftr state 16) :: fill_sub_table key n' (i + 1) state
  end.

(** [Obfuscator::new]; [None] is the failed [assert!] on an empty key. *)
Definition Obfuscator_new (k : bytes) (s : Z) (m : ModifierStrategy) : option Obfuscator :=
  match k with
  | [] => None
  | _ => Some {| key := k; salt := s; strategy := m; sub_table := fill_sub_table k 256 0 s |}
  end.

(** [u32::rotate_left] for a rotation below 32. *)
Definition rotate_left32 (x k : Z) : Z :=
  u32 (Z.lor (Z.shiftl x k) (Z.shiftr x (32 - k))).

Definition modifier {AR : Arch} (o : Obfuscator) (i : Z) : Z :=
  match strategy o with
  | PositionalXorRotate => Z.land (u32 (u32 i * salt o)) 255
  | RotatingSalt => Z.land (rotate_left32 (salt o) (i mod 32)) 255
  | SubstitutionTable => at_ (sub_table o) (usize (i + salt o) mod 256)
  end.

(** The byte XORed into position [i] of a buffer obfuscated at [offset];
    [i + offset] is a [usize] addition. *)
Definition keystream {AR : Arch} (o : Obfuscator) (offset i : Z) : Z :=
  let pos := usize (i + offset) in
  Z.lxor (at_ (key o) (pos mod zlen (key o))) (modifier o pos).

Fixpoint apply_from {AR : Arch} (o : Obfuscator) (offset i : Z) (data : bytes) : bytes :=
  match data with
  | [] => []
  | b :: rest => Z.lxor b (keystream o offset i) :: apply_from o offset (i + 1) rest
  end.

Definition apply {AR : Arch} (o : Obfuscator) (data : bytes) (offset : Z) : bytes :=
  apply_from o offset 0 data.

(** ** The type invariant of an obfuscator *)

Definition obfuscator_wf (o : Obfuscator) : Prop :=
  bytes_ok (key o) /\ key o <> [] /\ 0 <= salt o < 2 ^ 32 /\
  bytes_ok (sub_table o) /\ zlen (sub_table o) = 256.

Lemma fill_sub_table_length k n i s : length (fill_sub_table k n i s) = n.
Proof. revert i s. induction n; intros; simpl; [done | by f_equal]. Qed.

Lemma fill_sub_table_bytes k n i s : bytes_ok (fill_sub_table k n i s).
Proof.
  revert i s. induction n as [| n IH]; intros; simpl; [constructor |].
  constructor; [apply u8_byte | apply IH].
Qed.

#[global] Arguments fill_sub_table : simpl never.

Lemma Obfuscator_new_wf k s m o :
  bytes_ok k -> 0 <= s < 2 ^ 32 -> Obfuscator_new k s m = Some o -> obfuscator_wf o.
Proof.
  unfold Obfuscator_new. intros Hk Hs Ho. destruct k as [| b k]; [done |].
  injection Ho as <-. unfold obfuscator_wf. cbn [key salt sub_table].
  split_and!; [exact Hk | discriminate | lia | lia | apply fill_sub_table_bytes |].
  unfold zlen. by rewrite fill_sub_table_length.
Qed.

Lemma land_255_byte z : is_byte (Z.land z 255).
Proof. unfold is_byte. change 255 with (Z.ones 8). rewrite Z.land_ones by lia. divmod. Qed.

#[export] Hint Resolve land_255_byte : xr.

Section apply.
Context {AR : Arch}.

Lemma modifier_byte o i : obfuscator_wf o -> is_byte (modifier o i).
Proof. intros (? & ? & ? & ? & ?). unfold modifier. destruct (strategy o); auto with xr. Qed.

Lemma keystream_byte o off i : obfuscator_wf o -> is_byte (keystream o off i).
Proof.
  intros Ho. apply lxor_byte; [| by apply modifier_byte].
  destruct Ho as [? _]. auto with xr.
Qed.

Lemma apply_from_length o off i d : length (apply_from o off i d) = length d.
Proof. revert i. induction d; intros; simpl; [done | by f_equal]. Qed.

Lemma zlen_apply o d off : zlen (apply o d off) = zlen d.
Proof. unfold zlen, apply. by rewrite apply_from_length. Qed.

Lemma apply_from_bytes o off i d :
  obfuscator_wf o -> bytes_ok d -> bytes_ok (apply_from o off i d).
Proof.
  intros Ho Hd. revert i. induction Hd as [| b d Hb Hd IH]; intros; simpl; [constructor |].
  constructor; [| apply IH]. apply lxor_byte; [done | by apply keystream_byte].
Qed.

Lemma apply_bytes o d off : obfuscator_wf o -> bytes_ok d -> bytes_ok (apply o d off).
Proof. apply apply_from_bytes. Qed.

Lemma apply_from_involutive o off i d :
  apply_from o off i (apply_from o off i d) = d.
Proof.
  revert i. induction d as [| b d IH]; intros; simpl; [done |].
  by rewrite lxor_cancel, IH.
Qed.

Lemma apply_involutive o d off : apply o (apply o d off) off = d.
Proof. apply apply_from_involutive. Qed.

Lemma apply_from_app o off i d1 d2 :
  apply_from o off i (d1 ++ d2) = apply_from o off i d1 ++ apply_from o off (i + zlen d1) d2.
Proof.
  revert i. induction d1 as [| b d1 IH]; intros; simpl; [by rewrite Z.add_0_r |].
  rewrite IH. do 3 f_equal. rewrite zlen_cons. lia.
Qed.

Lemma apply_from_shift o off i d : apply_from o off i d = apply_from o (off + i) 0 d.
Proof.
  assert (H : forall j, apply_from o off (i + j) d = apply_from o (off + i) j d).
  { induction d as [| b d IH]; intros j; simpl; [done |].
    rewrite <- Z.add_assoc, IH. f_equal. unfold keystream.
    replace (i + j + off) with (j + (off + i)) by lia. done. }
  specialize (H 0). by rewrite Z.add_0_r in H.
Qed.

(** A buffer may be obfuscated piecewise, each piece at its own offset. *)
Lemma apply_app o d1 d2 off :
  apply o (d1 ++ d2) off = apply o d1 off ++ apply o d2 (off + zlen d1).
Proof.
  unfold apply. rewrite apply_from_app. f_equal. by rewrite Z.add_0_l, apply_from_shift.
Qed.

End apply.

#[export] Hint Rewrite @zlen_apply : zlen.

(** ** Agreement between machine widths *)

(** Both widths are multiples of [2^32], so a position that wraps on a 32-bit
    machine differs from the 64-bit one by a multiple of [2^32]. *)
Lemma usize_mod (A : Arch) (m z : Z) : (m | 2 ^ 32) -> @usize A z mod m = z mod m.
Proof.
  intros Hm. unfold usize. apply Z.mod_mod_divide.
  destruct (@usize_bits_spec A) as [-> | ->]; [done |].
  etransitivity; [done |]. by exists (2 ^ 32).
Qed.

Lemma usize_small (A : Arch) z : 0 <= z < 2 ^ 32 -> @usize A z = z.
Proof.
  intros. unfold usize. apply Z.mod_small.
  destruct (@usize_bits_spec A) as [-> | ->]; lia.
Qed.

(** The modifier byte never depends on the width. *)
Lemma modifier_arch (A1 A2 : Arch) o z :
  @modifier A1 o (@usize A1 z) = @modifier A2 o (@usize A2 z).
Proof.
  assert (D256 : (256 | 2 ^ 32)) by (by exists (2 ^ 24)).
  assert (D32 : (32 | 2 ^ 32)) by (by exists (2 ^ 27)).
  unfold modifier, u32. destruct (strategy o).
  - by rewrite !(usize_mod _ (2 ^ 32)) by done.
  - by rewrite !(usize_mod _ 32) by done.
  - rewrite !(usize_mod _ 256) by done.
    by rewrite <- !(Z.add_mod_idemp_l (usize z)), !(usize_mod _ 256).
Qed.

(** The condition under which two machines derive the same key stream: the key
    length divides [2^32], or no position reaches [2^32]. *)
Definition width_safe (o : Obfuscator) (offset len : Z) : Prop :=
  (zlen (key o) | 2 ^ 32) \/ offset + len <= 2 ^ 32.

Lemma keystream_arch (A1 A2 : Arch) o off i :
  width_safe o off (i + 1) -> 0 <= off -> 0 <= i ->
  @keystream A1 o off i = @keystream A2 o off i.
Proof.
  intros Hw Hoff Hi. unfold keystream. rewrite (modifier_arch A1 A2). do 2 f_equal.
  destruct Hw as [Hd | Hs].
  - by rewrite !usize_mod by done.
  - by rewrite !usize_small by lia.
Qed.

Lemma apply_from_arch (A1 A2 : Arch) o off i d :
  width_safe o off (i + zlen d) -> 0 <= off -> 0 <= i ->
  @apply_from A1 o off i d = @apply_from A2 o off i d.
Proof.
  revert i. induction d as [| b d IH]; intros i Hw Hoff Hi; simpl; [done |].
  rewrite zlen_cons in Hw. pose proof (zlen_nonneg d). f_equal.
  - rewrite (keystream_arch A1 A2); try done.
    destruct Hw; [by left | right; lia].
  - apply IH; [| done | lia]. by replace (i + 1 + zlen d) with (i + (1 + zlen d)) by lia.
Qed.

Lemma apply_arch (A1 A2 : Arch) o d off :
  width_safe o off (zlen d) -> 0 <= off -> @apply A1 o d off = @apply A2 o d off.
Proof. intros. by apply apply_from_arch. Qed.

#[global] Arguments apply : simpl never.

(** Two peers agree on every buffer: same width, or a key length that divides
    [2^32] (a power of two). *)
Definition peers_agree (A1 A2 : Arch) (o : Obfuscator) : Prop :=
  A1 = A2 \/ (zlen (key o) | 2 ^ 32).

Lemma peers_agree_sym (A1 A2 : Arch) o : peers_agree A1 A2 o -> peers_agree A2 A1 o.
Proof. intros [-> | H]; [by left | by right]. Qed.

Lemma apply_peers (A1 A2 : Arch) o d off :
  peers_agree A1 A2 o -> 0 <= off -> @apply A1 o d off = @apply A2 o d off.
Proof. intros [-> | Hd] Hoff; [done |]. apply apply_arch; [by left | done]. Qed.

(** ** Claims *)

Definition ex_obf (k : bytes) : Obfuscator :=
  {| key := k; salt := 0xDEADBEEF; strategy := RotatingSalt; sub_table := fill_sub_table k 256 0 0 |}.

(** A 32-bit router and a 64-bit server obfuscate a buffer identically when the
    key length divides 2^32 or when no position of the buffer reaches 2^32.
    Without that condition they disagree: with a three-byte key and a nonce at the
    top of the [u32] range, the position wraps on the 32-bit machine only and the
    server cannot read the router's bytes. *)
Theorem obfuscation_width :
  (forall (o : Obfuscator) (data : bytes) (offset : Z),
     0 <= offset -> width_safe o offset (zlen data) -> @apply arch32 o data offset = @apply arch64 o data offset) /\
  (exists (o : Obfuscator) (data : bytes) (nonce : Z),
     obfuscator_wf o /\ 0 <= nonce < 2 ^ 32 /\
     @apply arch64 o (@apply arch32 o data nonce) nonce <> data).
Proof.
  split; [intros; by apply apply_arch |].
  destruct (Obfuscator_new [1; 2; 3] 0xDEADBEEF RotatingSalt) as [o |] eqn:E; [| done].
  exists o, [0; 0], (2 ^ 32 - 1). split_and!; try lia.
  - apply (Obfuscator_new_wf [1; 2; 3] 0xDEADBEEF RotatingSalt); [| lia | done].
    repeat constructor; unfold is_byte; lia.
  - injection E as <-. vm_compute. discriminate.
Qed.

Lemma obfuscation_width_witness :
  width_safe (ex_obf [1; 2; 3]) 7 2 /\
  @apply arch32 (ex_obf [1; 2; 3]) [10; 20] 7 = @apply arch64 (ex_obf [1; 2; 3]) [10; 20] 7.
Proof.
  assert (width_safe (ex_obf [1; 2; 3]) 7 2) by (right; lia).
  split; [done |]. apply obfuscation_width; [lia | done].
Defined.
