(* ===== verification/Protocol.v ===== *)
(** * The wire protocol (xr-proto/src/protocol.rs)

    Commands, mux payloads, target addresses and the frame codec. Decoders run
    on bytes of a foreign socket, so their indexing and slicing is modelled
    with its panic: the outer [None]. The random generator of [encode_frame]
    ([rand::thread_rng]) is a parameter. *)

From S2P Require Import Prelude Text Net Obfuscation.

Definition NONCE_LEN : Z := 4.
Definition HEADER_LEN : Z := 4.
Definition MAX_PAYLOAD_LEN : Z := U16_MAX.
Definition MAX_PADDING_LEN : Z := U8_MAX.
Definition MAX_DOMAIN_LEN : Z := U8_MAX.
Definition HEADER_MAGIC_MASK : Z := 0xE0.
Definition HEADER_MAGIC : Z := 0xA0.

Inductive Command :=
| Connect | Data | Close | ConnectAck | MuxInit | MuxInitAck | Ping | Pong | WindowUpdate.

#[global] Instance Command_eq_dec : EqDecision Command.
Proof. solve_decision. Defined.

(** [self as u8]: the discriminants of the enum. *)
Definition Command_discr (c : Command) : Z :=
  match c with
  | Connect => 1 | Data => 2 | Close => 3 | ConnectAck => 4 | MuxInit => 5
  | MuxInitAck => 6 | Ping => 7 | Pong => 8 | WindowUpdate => 9
  end.

Definition CLOSE_REASON_RESOLVE_FAIL : Z := 1.
Definition CLOSE_REASON_CONNECT_FAIL : Z := 2.
Definition CLOSE_REASON_AGENT_OFFLINE : Z := 3.
Definition CLOSE_REASON_RELAY_BUSY : Z := 4.
Definition CLOSE_REASON_STREAM_LIMIT : Z := 5.

Definition Command_from_byte (b : Z) : option Command :=
  if negb (Z.land b HEADER_MAGIC_MASK =? HEADER_MAGIC) then None else
  match Z.land b 0x1F with
  | 1 => Some Connect | 2 => Some Data | 3 => Some Close | 4 => Some ConnectAck
  | 5 => Some MuxInit | 6 => Some MuxInitAck | 7 => Some Ping | 8 => Some Pong
  | 9 => Some WindowUpdate | _ => None
  end.

Definition Command_to_byte (c : Command) : Z := Z.lor HEADER_MAGIC (Command_discr c).

(** ** Mux payloads *)

Definition encode_mux_payload (stream_id : Z) (data : bytes) : bytes := be32 stream_id ++ data.

Definition decode_mux_payload (payload : bytes) : option (io_result (Z * bytes)) :=
  if zlen payload <? 4 then Some (io_err InvalidData "mux payload too short for stream_id") else
  a ← index payload 0; b ← index payload 1; c ← index payload 2; d ← index payload 3;
  rest ← slice payload 4 (zlen payload);
  Some (Ok (from_be32 a b c d, rest)).

(** ** Target addresses *)

Inductive TargetAddr := TIp (s : SocketAddr) | TDomain (d : bytes) (port : Z).

Definition TargetAddr_encode (t : TargetAddr) : io_result bytes :=
  match t with
  | TIp (SockV4 ip port) => Ok ([0x01] ++ v4_octets ip ++ be16 port)
  | TIp (SockV6 ip port _ _) => Ok ([0x04] ++ v6_octets ip ++ be16 port)
  | TDomain domain port =>
      if MAX_DOMAIN_LEN <? zlen domain
      then io_err InvalidInput "domain too long for wire format"
      else Ok ([0x03] ++ [u8 (zlen domain)] ++ domain ++ be16 port)
  end.

Definition TargetAddr_decode (data : bytes) : option (io_result (TargetAddr * Z)) :=
  match data with
  | [] => Some (io_err InvalidData "empty address")
  | t :: _ =>
      if t =? 0x01 then
        if zlen data <? 7 then Some (io_err InvalidData "short IPv4") else
        a ← index data 1; b ← index data 2; c ← index data 3; d ← index data 4;
        p ← index data 5; q ← index data 6;
        Some (Ok (TIp (SockV4 (from_be32 a b c d) (from_be16 p q)), 7))
      else if t =? 0x04 then
        if zlen data <? 19 then Some (io_err InvalidData "short IPv6") else
        octets ← slice data 1 17;
        p ← index data 17; q ← index data 18;
        Some (Ok (TIp (SockV6 (of_be octets) (from_be16 p q) 0 0), 19))
      else if t =? 0x03 then
        if zlen data <? 2 then Some (io_err InvalidData "short domain") else
        dlen ← index data 1;
        let total := 2 + dlen + 2 in
        if zlen data <? total then Some (io_err InvalidData "short domain data") else
        name ← slice data 2 (2 + dlen);
        match from_utf8 name with
        | None => Some (io_err InvalidData "invalid domain")
        | Some domain =>
            p ← index data (2 + dlen); q ← index data (3 + dlen);
            Some (Ok (TDomain domain (from_be16 p q), total))
        end
      else Some (io_err InvalidData "unknown addr type")
  end.

(** ** Frames *)

Record Frame := { command : Command; payload : bytes }.

Record Codec := { obfuscator : Obfuscator; padding_min : Z; padding_max : Z }.

Definition Codec_new (o : Obfuscator) (pmin pmax : Z) : Codec :=
  {| obfuscator := o; padding_min := pmin; padding_max := pmax |}.

(** What [encode_frame] draws: a [u32], a value of an inclusive range, a
    filled buffer. *)
Record Rng := { rng_u32 : Z; rng_range : Z -> Z -> Z; rng_fill : Z -> bytes }.

Definition rng_ok (r : Rng) : Prop :=
  0 <= rng_u32 r < 2 ^ 32 /\
  (forall a b, a <= b -> a <= rng_range r a b <= b) /\
  (forall n, 0 <= n -> zlen (rng_fill r n) = n /\ bytes_ok (rng_fill r n)).

Definition encode_frame {AR : Arch} (c : Codec) (rng : Rng) (cmd : Command) (payload : bytes) :
    io_result bytes :=
  if MAX_PAYLOAD_LEN <? zlen payload then io_err InvalidInput "payload too large" else
  let nonce := rng_u32 rng in
  let padding_len :=
    if padding_min c <? padding_max c then rng_range rng (padding_min c) (padding_max c)
    else padding_min c in
  let payload_len := u16 (zlen payload) in
  let header := be16 payload_len ++ [padding_len] ++ [Command_to_byte cmd] in
  let header := apply (obfuscator c) header nonce in
  let padding := rng_fill rng padding_len in
  let payload_offset := u32 (nonce + (HEADER_LEN + padding_len)) in
  let obfs_payload := apply (obfuscator c) payload payload_offset in
  Ok (be32 nonce ++ header ++ padding ++ obfs_payload).

Definition decode_frame {AR : Arch} (c : Codec) (buf : bytes) :
    option (io_result (option (Frame * Z))) :=
  if zlen buf <? NONCE_LEN + HEADER_LEN then Some (Ok None) else
  n0 ← index buf 0; n1 ← index buf 1; n2 ← index buf 2; n3 ← index buf 3;
  let nonce := from_be32 n0 n1 n2 n3 in
  raw ← slice buf NONCE_LEN (NONCE_LEN + HEADER_LEN);
  let header := apply (obfuscator c) raw nonce in
  h0 ← index header 0; h1 ← index header 1; h2 ← index header 2; h3 ← index header 3;
  let payload_len := from_be16 h0 h1 in
  let padding_len := h2 in
  match Command_from_byte h3 with
  | None => Some (io_err InvalidData "invalid command/magic — wrong key?")
  | Some cmd =>
      if (MAX_PAYLOAD_LEN <? payload_len) || (255 <? padding_len)
      then Some (io_err InvalidData "bad frame header") else
      let total_len := NONCE_LEN + HEADER_LEN + padding_len + payload_len in
      if zlen buf <? total_len then Some (Ok None) else
      let payload_start := NONCE_LEN + HEADER_LEN + padding_len in
      body ← slice buf payload_start (payload_start + payload_len);
      let payload_offset := u32 (nonce + (HEADER_LEN + padding_len)) in
      let body := apply (obfuscator c) body payload_offset in
      Some (Ok (Some ({| command := cmd; payload := body |}, total_len)))
  end.

(** ** Facts about commands and payloads *)

Lemma Command_from_to_byte c : Command_from_byte (Command_to_byte c) = Some c.
Proof. by destruct c. Qed.

Lemma Command_to_byte_byte c : is_byte (Command_to_byte c).
Proof. destruct c; unfold is_byte; simpl; cbv; split; congruence. Qed.

#[export] Hint Resolve Command_to_byte_byte : xr.

Lemma decode_mux_payload_eq sid d :
  0 <= sid < 2 ^ 32 -> decode_mux_payload (encode_mux_payload sid d) = Some (Ok (sid, d)).
Proof.
  intros H. unfold decode_mux_payload, encode_mux_payload.
  case_cmp; [zlen_lia |]. rewrite (slice_app_end (be32 sid) d) by zlen_lia.
  read_heads. by rewrite be32_roundtrip.
Qed.

Lemma decode_mux_payload_total p :
  exists r, decode_mux_payload p = Some r.
Proof.
  unfold decode_mux_payload. case_cmp; [eauto |].
  repeat step_index. rewrite slice_some by zlen_lia. simpl. eauto.
Qed.

(** The two outcomes of [decode_mux_payload]. *)
Lemma decode_mux_payload_cases p :
  bytes_ok p ->
  (zlen p < 4 /\ exists e, decode_mux_payload p = Some (Err e)) \/
  (exists sid d, 0 <= sid < 2 ^ 32 /\ bytes_ok d /\ p = encode_mux_payload sid d /\
    decode_mux_payload p = Some (Ok (sid, d))).
Proof.
  intros Hp. destruct (decide (zlen p < 4)) as [Hs | Hl].
  { left. split; [done |]. unfold decode_mux_payload. case_cmp; [| lia]. by eexists. }
  right. destruct p as [| a [| b [| c [| d p]]]]; try (exfalso; zlen_lia).
  rewrite !bytes_ok_cons in Hp. destruct Hp as (Ha & Hb & Hc & Hd & Hp).
  assert (0 <= from_be32 a b c d < 2 ^ 32) by auto with xr.
  exists (from_be32 a b c d), p. split_and!; try lia; try done.
  - unfold encode_mux_payload. by rewrite be32_surj.
  - replace (a :: b :: c :: d :: p) with (encode_mux_payload (from_be32 a b c d) p)
      by (unfold encode_mux_payload; by rewrite be32_surj).
    by apply decode_mux_payload_eq.
Qed.

(** ** The frame codec *)

Definition codec_wf (c : Codec) : Prop :=
  obfuscator_wf (obfuscator c) /\ is_byte (padding_min c) /\ is_byte (padding_max c).

(** [decode_frame] on a buffer split into nonce, plain header and the rest. *)
Lemma decode_frame_parsed {AR : Arch} c nonce h0 h1 h2 h3 tail :
  0 <= nonce < 2 ^ 32 -> 0 <= h2 ->
  decode_frame c (be32 nonce ++ apply (obfuscator c) [h0; h1; h2; h3] nonce ++ tail) =
  match Command_from_byte h3 with
  | None => Some (io_err InvalidData "invalid command/magic — wrong key?")
  | Some cmd =>
      if (MAX_PAYLOAD_LEN <? from_be16 h0 h1) || (255 <? h2)
      then Some (io_err InvalidData "bad frame header") else
      if zlen tail <? h2 + from_be16 h0 h1 then Some (Ok None) else
      body ← slice tail h2 (h2 + from_be16 h0 h1);
      Some (Ok (Some ({| command := cmd;
        payload := apply (obfuscator c) body (u32 (nonce + (HEADER_LEN + h2))) |},
        8 + h2 + from_be16 h0 h1)))
  end.
Proof.
  intros Hn Hh2. unfold decode_frame. set (hd := apply _ _ nonce).
  assert (Hhd : zlen hd = 4) by (unfold hd; zlen_lia).
  unfold NONCE_LEN, HEADER_LEN. case_cmp; [zlen_lia |].
  rewrite (slice_app (be32 nonce) hd tail) by zlen_lia.
  assert (Hlen : zlen (be32 nonce ++ hd ++ tail) = 8 + zlen tail) by zlen_lia.
  read_heads. rewrite be32_roundtrip by done.
  assert (Hplain : apply (obfuscator c) hd nonce = [h0; h1; h2; h3]) by apply apply_involutive.
  rewrite Hplain. read_heads.
  destruct (Command_from_byte h3); [| done].
  destruct ((MAX_PAYLOAD_LEN <? from_be16 h0 h1) || (255 <? h2)) eqn:E; [done |].
  rewrite Hlen.
  destruct (Z.ltb_spec (8 + zlen tail) (4 + 4 + h2 + from_be16 h0 h1)),
    (Z.ltb_spec (zlen tail) (h2 + from_be16 h0 h1)); try lia; [done |].
  assert (H8 : zlen (be32 nonce ++ hd) = 8) by zlen_lia.
  replace (slice (be32 nonce ++ hd ++ tail) (4 + 4 + h2) (4 + 4 + h2 + from_be16 h0 h1))
    with (slice tail h2 (h2 + from_be16 h0 h1)).
  - destruct (slice tail _ _); reflexivity.
  - rewrite app_assoc, <- (slice_shift (be32 nonce ++ hd) tail), H8 by done. f_equal; lia.
Qed.

(** Every buffer of at least eight bytes has that shape. *)
Lemma frame_buf_form {AR : Arch} c buf :
  codec_wf c -> bytes_ok buf -> 8 <= zlen buf ->
  exists nonce h0 h1 h2 h3 tail,
    0 <= nonce < 2 ^ 32 /\ bytes_ok [h0; h1; h2; h3] /\ bytes_ok tail /\
    buf = be32 nonce ++ apply (obfuscator c) [h0; h1; h2; h3] nonce ++ tail.
Proof.
  intros (Ho & _) Hb Hl.
  destruct buf as [| n0 [| n1 [| n2 [| n3 [| x0 [| x1 [| x2 [| x3 tail]]]]]]]];
    try (exfalso; zlen_lia).
  rewrite !bytes_ok_cons in Hb. destruct Hb as (B0 & B1 & B2 & B3 & X0 & X1 & X2 & X3 & Ht).
  set (nonce := from_be32 n0 n1 n2 n3).
  assert (Hx : bytes_ok (apply (obfuscator c) [x0; x1; x2; x3] nonce)).
  { apply apply_bytes; [done |]. rewrite !bytes_ok_cons. split_and!; try done; constructor. }
  assert (Hz : length (apply (obfuscator c) [x0; x1; x2; x3] nonce) = 4%nat).
  { apply apply_from_length. }
  destruct (apply (obfuscator c) [x0; x1; x2; x3] nonce) as [| h0 [| h1 [| h2 [| h3 [| ]]]]] eqn:E;
    try discriminate Hz.
  exists nonce, h0, h1, h2, h3, tail. split_and!; try done.
  - unfold nonce. apply from_be32_range; done.
  - unfold nonce. apply from_be32_range; done.
  - rewrite <- E, apply_involutive. unfold nonce. by rewrite be32_surj.
Qed.

(** The layout [encode_frame] produces. *)
Lemma encode_frame_form {AR : Arch} c rng cmd p w :
  codec_wf c -> rng_ok rng -> encode_frame c rng cmd p = Ok w ->
  exists nonce pl padding,
    0 <= nonce < 2 ^ 32 /\ is_byte pl /\ zlen padding = pl /\ bytes_ok padding /\
    zlen p <= MAX_PAYLOAD_LEN /\
    w = be32 nonce ++
        apply (obfuscator c) (be16 (zlen p) ++ [pl] ++ [Command_to_byte cmd]) nonce ++
        padding ++ apply (obfuscator c) p (u32 (nonce + (HEADER_LEN + pl))).
Proof.
  intros (Ho & Hmin & Hmax) (Hn & Hr & Hf). unfold encode_frame.
  destruct (Z.ltb_spec MAX_PAYLOAD_LEN (zlen p)) as [| Hle]; [done |].
  set (pl := if padding_min c <? padding_max c then _ else _).
  assert (Hpl : is_byte pl).
  { unfold pl, is_byte in *. destruct (Z.ltb_spec (padding_min c) (padding_max c)); [| lia].
    specialize (Hr (padding_min c) (padding_max c)). lia. }
  assert (u16 (zlen p) = zlen p) as ->.
  { unfold u16. apply Z.mod_small. pose proof (zlen_nonneg p).
    unfold MAX_PAYLOAD_LEN, U16_MAX in Hle. lia. }
  intros <-%Ok_inj. unfold is_byte in Hpl. destruct (Hf pl) as [Hz Hb]; [lia |].
  exists (rng_u32 rng), pl, (rng_fill rng pl). split_and!; try done; lia.
Qed.

Lemma zlen_range_u16 (p : bytes) : zlen p <= MAX_PAYLOAD_LEN -> 0 <= zlen p < 2 ^ 16.
Proof. pose proof (zlen_nonneg p). unfold MAX_PAYLOAD_LEN, U16_MAX. lia. Qed.

(** Decoding a wire image followed by [rest], cut after [n] bytes. *)
Lemma decode_frame_header {AR : Arch} c nonce n pl cmd tail :
  0 <= nonce < 2 ^ 32 -> is_byte pl -> 0 <= n < 2 ^ 16 ->
  decode_frame c (be32 nonce ++
    apply (obfuscator c) (be16 n ++ [pl] ++ [Command_to_byte cmd]) nonce ++ tail) =
  if zlen tail <? pl + n then Some (Ok None) else
  body ← slice tail pl (pl + n);
  Some (Ok (Some ({| command := cmd;
    payload := apply (obfuscator c) body (u32 (nonce + (HEADER_LEN + pl))) |}, 8 + pl + n))).
Proof.
  intros Hn Hpl Hp. unfold is_byte in Hpl.
  unfold be16. cbn [app]. rewrite decode_frame_parsed by lia.
  rewrite Command_from_to_byte, be16_roundtrip by lia.
  unfold MAX_PAYLOAD_LEN, U16_MAX.
  destruct (Z.ltb_spec (2 ^ 16 - 1) n), (Z.ltb_spec 255 pl); try lia. done.
Qed.

Lemma decode_encode_frame (A1 A2 : Arch) c rng cmd p w rest :
  codec_wf c -> rng_ok rng -> peers_agree A1 A2 (obfuscator c) ->
  @encode_frame A1 c rng cmd p = Ok w ->
  @decode_frame A2 c (w ++ rest) = Some (Ok (Some ({| command := cmd; payload := p |}, zlen w))).
Proof.
  intros Hc Hr Hag Hw.
  apply encode_frame_form in Hw as (nonce & pl & padding & Hn & Hpl & Hpad & _ & Hle & ->); try done.
  rewrite !(apply_peers A1 A2) by (try done; unfold u32; divmod).
  rewrite <- !app_assoc, decode_frame_header by (try done; by apply zlen_range_u16).
  destruct (Z.ltb_spec (zlen (padding ++ apply (obfuscator c) p (u32 (nonce + (HEADER_LEN + pl))) ++ rest))
    (pl + zlen p)); [zlen_lia |].
  rewrite slice_app by zlen_lia. cbn [mbind option_bind].
  rewrite apply_involutive. do 4 f_equal. zlen_lia.
Qed.

(** A proper prefix of a wire image decodes to "need more data". *)
Lemma decode_frame_prefix (A1 A2 : Arch) c rng cmd p w1 w2 :
  codec_wf c -> rng_ok rng -> peers_agree A1 A2 (obfuscator c) ->
  @encode_frame A1 c rng cmd p = Ok (w1 ++ w2) -> w2 <> [] ->
  @decode_frame A2 c w1 = Some (Ok None).
Proof.
  intros Hc Hr Hag Hw Hne.
  assert (Hz : 0 < zlen w2) by (destruct w2; [done | zlen_lia]).
  apply encode_frame_form in Hw as (nonce & pl & padding & Hn & Hpl & Hpad & _ & Hle & Ew); try done.
  destruct (decide (zlen w1 < 8)) as [Hs | Hl].
  { unfold decode_frame, NONCE_LEN, HEADER_LEN. case_cmp; [done | lia]. }
  set (hd := apply (obfuscator c) (be16 (zlen p) ++ [pl] ++ [Command_to_byte cmd]) nonce) in *.
  assert (Hhd : zlen (be32 nonce ++ hd) = 8) by (unfold hd; zlen_lia).
  set (pb := apply (obfuscator c) p (u32 (nonce + (HEADER_LEN + pl)))) in *.
  assert (Hw1 : w1 = (be32 nonce ++ hd) ++ zdrop 8 w1).
  { rewrite <- (ztake_zdrop 8 w1) at 1. f_equal.
    apply (f_equal (ztake 8)) in Ew. rewrite app_assoc, (ztake_app 8 (_ ++ _)) in Ew by done.
    rewrite <- Ew. unfold ztake. rewrite take_app_le; [done |]. unfold zlen in *. lia. }
  rewrite Hw1, <- app_assoc. unfold hd. rewrite (apply_peers A1 A2) by (done || lia).
  rewrite decode_frame_header by (try done; by apply zlen_range_u16).
  destruct (Z.ltb_spec (zlen (zdrop 8 w1)) (pl + zlen p)) as [| Hge]; [done | exfalso].
  apply (f_equal zlen) in Ew. rewrite zlen_drop in Hge by lia. unfold pb in Ew. zlen_lia.
Qed.

Lemma decode_frame_total {AR : Arch} c buf :
  codec_wf c -> bytes_ok buf -> exists r, decode_frame c buf = Some r.
Proof.
  intros Hc Hb. destruct (decide (zlen buf < 8)) as [Hs | Hl].
  { exists (Ok None). unfold decode_frame, NONCE_LEN, HEADER_LEN. case_cmp; [done | lia]. }
  destruct (frame_buf_form c buf Hc Hb) as (nonce & h0 & h1 & h2 & h3 & tail & Hn & Hh & Ht & ->);
    [lia |].
  rewrite !bytes_ok_cons in Hh. destruct Hh as (H0 & H1 & H2 & H3 & _).
  pose proof (from_be16_range h0 h1 H0 H1). unfold is_byte in H2.
  rewrite decode_frame_parsed by lia.
  destruct (Command_from_byte h3); [| by eexists]. do 2 (case_cmp; [by eexists |]).
  rewrite slice_some by lia. by eexists.
Qed.

(** What a successful decode says about its buffer. *)
Lemma decode_frame_inv {AR : Arch} c buf f n :
  codec_wf c -> bytes_ok buf -> decode_frame c buf = Some (Ok (Some (f, n))) ->
  8 <= n <= zlen buf /\ n <= NONCE_LEN + HEADER_LEN + MAX_PADDING_LEN + MAX_PAYLOAD_LEN /\
  bytes_ok (payload f) /\
  forall ext, decode_frame c (buf ++ ext) = Some (Ok (Some (f, n))).
Proof.
  intros Hc Hb. destruct (decide (zlen buf < 8)) as [Hs | Hl].
  { unfold decode_frame, NONCE_LEN, HEADER_LEN. case_cmp; [done | lia]. }
  destruct (frame_buf_form c buf Hc Hb) as (nonce & h0 & h1 & h2 & h3 & tail & Hn & Hh & Ht & ->);
    [lia |].
  rewrite !bytes_ok_cons in Hh. destruct Hh as (H0 & H1 & H2 & H3 & _).
  pose proof (from_be16_range h0 h1 H0 H1). unfold is_byte in H2.
  rewrite decode_frame_parsed by lia.
  destruct (Command_from_byte h3) as [cmd |] eqn:Ec; [| done].
  destruct ((MAX_PAYLOAD_LEN <? from_be16 h0 h1) || (255 <? h2)) eqn:El; [done |].
  destruct (Z.ltb_spec (zlen tail) (h2 + from_be16 h0 h1)); [done |].
  destruct (slice tail h2 (h2 + from_be16 h0 h1)) as [body |] eqn:Eb; [| done].
  cbn [mbind option_bind]. intros [= <- <-].
  unfold NONCE_LEN, HEADER_LEN, MAX_PADDING_LEN, MAX_PAYLOAD_LEN, U16_MAX, U8_MAX in *.
  split_and!; try zlen_lia.
  - apply apply_bytes; [apply Hc |]. by eapply slice_Forall.
  - intros ext. rewrite <- !app_assoc, decode_frame_parsed by lia. rewrite Ec.
    unfold MAX_PAYLOAD_LEN, U16_MAX. rewrite El.
    destruct (Z.ltb_spec (zlen (tail ++ ext)) (h2 + from_be16 h0 h1)); [zlen_lia |].
    assert (slice (tail ++ ext) h2 (h2 + from_be16 h0 h1) = Some body) as ->; [| done].
    apply slice_inv in Eb as (? & ? & ? & ->). rewrite slice_some by zlen_lia. f_equal.
    unfold ztake, zdrop, zlen in *. rewrite drop_app_le by lia.
    rewrite take_app_le; [done |]. rewrite length_drop. lia.
Qed.

(** ** Frames on the wire *)

(** A frame and one of its encodings. *)
Definition encodes {AR : Arch} (c : Codec) (f : Frame) (w : bytes) : Prop :=
  exists rng, rng_ok rng /\ encode_frame c rng (command f) (payload f) = Ok w.

Lemma encodes_nonempty {AR : Arch} c f w : codec_wf c -> encodes c f w -> w <> [].
Proof.
  intros Hc (rng & Hr & Hw). apply encode_frame_form in Hw as (nonce & pl & pad & _ & _ & _ & _ & _ & ->); try done.
Qed.

(** A tail that needs more bytes: nothing, or a proper prefix of the next
    frame's encoding. *)
Definition partial (ws : list bytes) (tail : bytes) : Prop :=
  match ws with
  | [] => tail = []
  | w :: _ => exists more, w = tail ++ more /\ more <> []
  end.

(** Cutting a prefix of a concatenation at the last complete element. *)
Lemma prefix_cut (ws : list bytes) (l more : bytes) :
  Forall (fun w => w <> []) ws -> concat ws = l ++ more ->
  exists ws1 ws2 tail, ws = ws1 ++ ws2 /\ l = concat ws1 ++ tail /\ partial ws2 tail.
Proof.
  intros Hne. revert l. induction Hne as [| w ws Hw Hws IH]; intros l; simpl.
  - intros E. symmetry in E. apply app_eq_nil in E as [-> _]. by exists [], [], [].
  - intros E. destruct (decide (zlen w <= zlen l)) as [Hle | Hlt].
    + assert (l = w ++ zdrop (zlen w) l) as El.
      { rewrite <- (ztake_zdrop (zlen w) l) at 1. f_equal.
        assert (Ht : ztake (zlen w) (w ++ concat ws) = w) by (by apply ztake_app).
        rewrite E in Ht. unfold ztake, zlen in *. rewrite take_app_le in Ht by lia. done. }
      rewrite El in E. rewrite <- app_assoc in E. apply app_inv_head in E.
      destruct (IH _ E) as (ws1 & ws2 & tail & -> & Hl & Hp).
      exists (w :: ws1), ws2, tail. split_and!; [done | | done]. simpl. by rewrite <- app_assoc, <- Hl.
    + exists [], (w :: ws), l. split_and!; [done | done |]. simpl.
      exists (zdrop (zlen l) w). assert (Hl : ztake (zlen l) w = l).
      { assert (Ht : ztake (zlen l) (l ++ more) = l) by (by apply ztake_app).
        rewrite <- E in Ht. unfold ztake, zlen in *. rewrite take_app_le in Ht by lia. done. }
      split; [by rewrite <- Hl at 1; rewrite ztake_zdrop |].
      intros Hn. apply (f_equal zlen) in Hn. rewrite zlen_drop in Hn by zlen_lia. rewrite zlen_nil in Hn. lia.
Qed.

(** The length of an encoded frame. *)
Lemma encode_frame_length {AR : Arch} c rng cmd p w :
  codec_wf c -> rng_ok rng -> encode_frame c rng cmd p = Ok w ->
  zlen w <= 8 + Z.max (padding_min c) (padding_max c) + zlen p.
Proof.
  intros (_ & Hmin & Hmax) (_ & Hr & Hf). unfold encode_frame. case_cmp; [done |]. cbv zeta. intros <-%Ok_inj.
  set (pl := if padding_min c <? padding_max c then _ else _).
  assert (Hpl : 0 <= pl <= Z.max (padding_min c) (padding_max c)).
  { unfold pl. unfold is_byte in *. case_cmp; [| lia]. specialize (Hr (padding_min c) (padding_max c)). lia. }
  destruct (Hf pl) as [Hz _]; [lia |]. rewrite !zlen_app, !zlen_apply, Hz, zlen_be32, !zlen_app, zlen_be16.
  change (zlen [_]) with 1. change (zlen [Command_to_byte cmd]) with 1. lia.
Qed.

(** ** Target addresses *)

(** A target as the sources build it: bounded fields, a UTF-8 domain. *)
Definition target_ok (t : TargetAddr) : Prop :=
  match t with
  | TIp s => sock_ok s
  | TDomain d p => bytes_ok d /\ utf8_valid d = true /\ 0 <= p < 2 ^ 16
  end.

(** The wire form carries neither flow label nor scope of an IPv6 address. *)
Definition wire_target (t : TargetAddr) : TargetAddr :=
  match t with TIp (SockV6 ip p _ _) => TIp (SockV6 ip p 0 0) | _ => t end.

Lemma TargetAddr_decode_encode t w rest :
  target_ok t -> TargetAddr_encode t = Ok w ->
  TargetAddr_decode (w ++ rest) = Some (Ok (wire_target t, zlen w)).
Proof.
  destruct t as [[ip p | ip p fl sc] | d p]; unfold TargetAddr_encode, io_err.
  - intros [Hip Hp] <-%Ok_inj. unfold TargetAddr_decode, v4_octets, be32, be16. cbn [app].
    rewrite Z.eqb_refl.
    match goal with |- context [zlen ?l <? 7] => destruct (Z.ltb_spec (zlen l) 7) end; [zlen_lia |].
    read_heads. by rewrite be32_roundtrip, be16_roundtrip.
  - intros (Hip & Hp & _) <-%Ok_inj. unfold TargetAddr_decode, v6_octets, be16.
    assert (Hz : zlen (to_be 16 ip) = 16) by (unfold zlen; by rewrite to_be_length).
    rewrite <- !app_assoc. cbn [app]. change (0x04 =? 0x01) with false. rewrite Z.eqb_refl. cbv iota.
    match goal with |- context [zlen ?l <? 19] => destruct (Z.ltb_spec (zlen l) 19) end; [zlen_lia |].
    change (4 :: to_be 16 ip ++ ?l) with ([4] ++ to_be 16 ip ++ l).
    rewrite slice_app by zlen_lia. rewrite app_assoc.
    rewrite (index_mid _ _ _ 17), (index_mid2 _ _ _ _ 18) by zlen_lia.
    cbn [mbind option_bind]. rewrite of_to_be, be16_roundtrip by (done || lia).
    reflexivity.
  - intros (Hd & Hu & Hp). destruct (Z.ltb_spec MAX_DOMAIN_LEN (zlen d)) as [| Hle]; [done |].
    unfold MAX_DOMAIN_LEN, U8_MAX in Hle. pose proof (zlen_nonneg d).
    assert (u8 (zlen d) = zlen d) as -> by (apply Z.mod_small; lia).
    intros <-%Ok_inj. unfold TargetAddr_decode, be16. rewrite <- !app_assoc. cbn [app].
    change (0x03 =? 0x01) with false. change (0x03 =? 0x04) with false. rewrite Z.eqb_refl. cbv iota.
    rewrite index_1. cbn [mbind option_bind].
    do 2 (match goal with |- context [zlen ?l <? ?n] => destruct (Z.ltb_spec (zlen l) n) end;
      [zlen_lia |]).
    change (3 :: zlen d :: d ++ ?l) with ([3; zlen d] ++ d ++ l).
    rewrite slice_app by zlen_lia. cbn [mbind option_bind].
    unfold from_utf8. rewrite Hu, app_assoc.
    rewrite (index_mid _ _ _ (2 + zlen d)), (index_mid2 _ _ _ _ (3 + zlen d)) by zlen_lia.
    cbn [mbind option_bind]. rewrite be16_roundtrip by done. do 4 f_equal. zlen_lia.
Qed.

Lemma TargetAddr_decode_total data : bytes_ok data -> exists r, TargetAddr_decode data = Some r.
Proof.
  intros Hb. unfold TargetAddr_decode. destruct data as [| t l]; [by eexists |].
  set (data := t :: l) in *. repeat (case_cmp; try by eexists).
  - repeat step_index. by eexists.
  - rewrite slice_some by lia. cbn [mbind option_bind]. repeat step_index. by eexists.
  - step_index. assert (is_byte b) as [] by by eapply index_Forall.
    case_cmp; [by eexists |]. rewrite slice_some by lia. cbn [mbind option_bind].
    destruct (from_utf8 _); [| by eexists]. repeat step_index. by eexists.
Qed.

(** Everything [decode] accepts is a well-formed target of bounded size. *)
Lemma TargetAddr_decode_ok data t n :
  bytes_ok data -> TargetAddr_decode data = Some (Ok (t, n)) ->
  target_ok t /\ 0 < n <= zlen data /\
  (forall d p, t = TDomain d p -> zlen d <= MAX_DOMAIN_LEN).
Proof.
  intros Hb. unfold TargetAddr_decode. destruct data as [| t0 l]; [done |].
  set (data := t0 :: l) in *.
  assert (Hi : forall i x, index data i = Some x -> is_byte x) by (intros; by eapply index_Forall).
  case_cmp; [| case_cmp; [| case_cmp; [| done]]].
  - case_cmp; [done |].
    destruct (index data 1) eqn:E1, (index data 2) eqn:E2, (index data 3) eqn:E3,
      (index data 4) eqn:E4, (index data 5) eqn:E5, (index data 6) eqn:E6; try done.
    cbn [mbind option_bind]. intros [= <- <-]. split_and!; try lia; [| done].
    split; [apply from_be32_range | apply from_be16_range]; eauto.
  - case_cmp; [done |].
    destruct (slice data 1 17) as [o |] eqn:Eo; [| done].
    destruct (index data 17) eqn:E5, (index data 18) eqn:E6; try done.
    cbn [mbind option_bind]. intros [= <- <-]. split_and!; try lia; [| done].
    pose proof (slice_Forall _ _ _ _ _ Hb Eo) as Ho. apply slice_inv in Eo as (_ & _ & El & _).
    apply of_be_bound in Ho. rewrite El in Ho.
    split_and!; try lia; apply from_be16_range; eauto.
  - case_cmp; [done |]. destruct (index data 1) as [dl |] eqn:E1; [| done].
    cbn [mbind option_bind]. case_cmp; [done |].
    assert (Hdl : is_byte dl) by eauto. unfold is_byte in Hdl.
    destruct (slice data 2 (2 + dl)) as [nm |] eqn:En; [| done]. cbn [mbind option_bind].
    unfold from_utf8. destruct (utf8_valid nm) eqn:Eu; [| done].
    destruct (index data (2 + dl)) eqn:E5, (index data (3 + dl)) eqn:E6; try done.
    cbn [mbind option_bind]. intros [= <- <-].
    pose proof (slice_Forall _ _ _ _ _ Hb En) as Hnm. apply slice_inv in En as (_ & _ & El & _).
    split_and!; try lia.
    + split_and!; try done; apply from_be16_range; eauto.
    + intros d p [= <- <-]. unfold MAX_DOMAIN_LEN, U8_MAX. lia.
Qed.

(** ** Claims *)

(** A codec and a generator for the witnesses. *)
Definition ex_codec : Codec := Codec_new (ex_obf [7; 1; 250; 33]) 2 9.
Definition ex_rng : Rng :=
  {| rng_u32 := 0xFFFFFFFE; rng_range := fun a _ => a; rng_fill n := replicate (Z.to_nat n) 0x5A |}.

Lemma ex_codec_wf : codec_wf ex_codec.
Proof.
  split; [| unfold is_byte; simpl; lia].
  split_and!; try (simpl; lia); try done.
  - repeat constructor; unfold is_byte; lia.
  - apply fill_sub_table_bytes.
Qed.

Lemma ex_rng_ok : rng_ok ex_rng.
Proof.
  split_and!; simpl; try lia. intros n Hn. split.
  - unfold zlen. rewrite length_replicate. lia.
  - apply Forall_replicate. unfold is_byte. lia.
Qed.

(** C23: Whatever the random draws, the frame one peer encodes is the frame the other
    decodes, with the exact number of bytes consumed and whatever follows on
    the wire, also between a 32-bit and a 64-bit peer that agree on the key. *)
Theorem frame_roundtrip (A1 A2 : Arch) (c : Codec) (rng : Rng) (cmd : Command)
    (p w rest : bytes) :
  codec_wf c -> rng_ok rng -> peers_agree A1 A2 (obfuscator c) ->
  @encode_frame A1 c rng cmd p = Ok w ->
  @decode_frame A2 c (w ++ rest) = Some (Ok (Some ({| command := cmd; payload := p |}, zlen w))).
Proof. apply decode_encode_frame. Qed.

Lemma frame_roundtrip_witness :
  exists w, @encode_frame arch32 ex_codec ex_rng Data [1; 2; 3; 255] = Ok w /\
    @decode_frame arch64 ex_codec (w ++ [9; 9]) =
      Some (Ok (Some ({| command := Data; payload := [1; 2; 3; 255] |}, zlen w))).
Proof.
  destruct (@encode_frame arch32 ex_codec ex_rng Data [1; 2; 3; 255]) as [w | e] eqn:E;
    [| vm_compute in E; discriminate].
  exists w. split; [done |].
  apply (frame_roundtrip arch32 arch64 ex_codec ex_rng Data [1; 2; 3; 255] w [9; 9]);
    [apply ex_codec_wf | apply ex_rng_ok | right; by exists (2 ^ 30) | done].
Defined.

(** [encode_frame] refuses exactly the payloads above 65535 bytes, so a length
    never wraps into the 16-bit header field. *)
Theorem encode_frame_error_iff (AR : Arch) (c : Codec) (rng : Rng) (cmd : Command) (p : bytes) :
  (exists e, encode_frame c rng cmd p = Err e /\ kind e = InvalidInput) <-> 65535 < zlen p.
Proof.
  unfold encode_frame, io_err, MAX_PAYLOAD_LEN, U16_MAX.
  destruct (Z.ltb_spec (2 ^ 16 - 1) (zlen p)); split; try lia; try by eexists.
  intros (e & He & _). discriminate.
Qed.

(** [decode_frame] never panics on bytes from the network, and a frame it returns
    was complete: it lies inside the buffer, inside the largest legal frame, and
    later bytes do not change it. *)
Theorem decode_frame_safe (AR : Arch) (c : Codec) (buf : bytes) :
  codec_wf c -> bytes_ok buf ->
  exists r, decode_frame c buf = Some r /\
    forall f n, r = Ok (Some (f, n)) ->
      8 <= n <= zlen buf /\ n <= NONCE_LEN + HEADER_LEN + MAX_PADDING_LEN + MAX_PAYLOAD_LEN /\
      forall ext, decode_frame c (buf ++ ext) = Some r.
Proof.
  intros Hc Hb. destruct (decode_frame_total c buf Hc Hb) as [r Hr]. exists r. split; [done |].
  intros f n ->. apply decode_frame_inv in Hr as (? & ? & _ & ?); try done.
Qed.

Lemma decode_frame_safe_witness :
  exists r, @decode_frame arch64 ex_codec (replicate 20 0xA2) = Some r.
Proof.
  destruct (decode_frame_safe arch64 ex_codec (replicate 20 0xA2)) as (r & Hr & _);
    [apply ex_codec_wf | by_compute | by exists r].
Defined.

Lemma target_addr_roundtrip (t : TargetAddr) (rest : bytes) :
  target_ok t ->
  match TargetAddr_encode t with
  | Ok w => TargetAddr_decode (w ++ rest) = Some (Ok (wire_target t, zlen w))
  | Err e => kind e = InvalidInput /\ exists d p, t = TDomain d p /\ 255 < zlen d
  end.
Proof.
  intros Ht. destruct (TargetAddr_encode t) as [w | e] eqn:E.
  - by apply TargetAddr_decode_encode.
  - destruct t as [[] | d p]; simpl in E; try discriminate.
    destruct (Z.ltb_spec MAX_DOMAIN_LEN (zlen d)); [| discriminate].
    injection E as <-. split; [done |]. exists d, p. unfold MAX_DOMAIN_LEN, U8_MAX in *.
    split; [done | lia].
Qed.

Lemma target_addr_decode_safe (data : bytes) :
  bytes_ok data ->
  exists r, TargetAddr_decode data = Some r /\
    forall t n, r = Ok (t, n) ->
      target_ok t /\ 0 < n <= zlen data /\ is_ok (TargetAddr_encode t) = true.
Proof.
  intros Hb. destruct (TargetAddr_decode_total data Hb) as [r Hr]. exists r. split; [done |].
  intros t n ->. apply TargetAddr_decode_ok in Hr as (? & ? & Hd); [| done].
  split_and!; try done; try lia. destruct t as [[] | d p]; simpl; try done.
  specialize (Hd _ _ eq_refl). case_cmp; [lia | done].
Qed.

(** A target address survives the wire (an IPv6 one without its flow label and
    scope) with trailing bytes left alone, and encoding fails exactly on domains
    longer than 255 bytes, as an error value rather than a panic. Decoding foreign
    bytes never panics, and what it accepts is well-formed: a bounded address, or
    a UTF-8 domain that fits the one-byte length of Connect; the count consumed
    stays inside the input. *)
Theorem target_addr_codec :
  (forall (t : TargetAddr) (rest : bytes), target_ok t ->
     match TargetAddr_encode t with
     | Ok w => TargetAddr_decode (w ++ rest) = Some (Ok (wire_target t, zlen w))
     | Err e => kind e = InvalidInput /\ exists d p, t = TDomain d p /\ 255 < zlen d
     end) /\
  (forall data : bytes, bytes_ok data ->
     exists r, TargetAddr_decode data = Some r /\
       forall t n, r = Ok (t, n) -> target_ok t /\ 0 < n <= zlen data /\ is_ok (TargetAddr_encode t) = true).
Proof. split; [apply target_addr_roundtrip | apply target_addr_decode_safe]. Qed.

Lemma target_addr_codec_witness :
  TargetAddr_decode ((match TargetAddr_encode (TDomain (str "ya.ru") 443) with Ok w => w | Err _ => [] end)
    ++ [1]) = Some (Ok (TDomain (str "ya.ru") 443, 9)) /\
  exists r, TargetAddr_decode [3; 200; 1; 2] = Some r.
Proof.
  destruct target_addr_codec as [H1 H2]. split.
  - refine (H1 (TDomain (str "ya.ru") 443) [1] _). split_and!; [apply str_bytes | reflexivity | lia | lia].
  - destruct (H2 [3; 200; 1; 2]) as (r & Hr & _); [by_compute | by exists r].
Defined.
