(* ===== verification/UdpRelay.v ===== *)
(** * The UDP relay datagram format (xr-proto/src/udp_relay.rs)

    [encode_relay_packet], [decode_relay_packet] and [encode_keepalive]. The
    nonce drawn by the sender is a parameter; indexing panics are the outer
    [None] of the decoder. *)

From S2P Require Import Prelude Text Net Obfuscation.

Inductive RelayType := RData | RKeepalive | RBindPort.

#[global] Instance RelayType_eq_dec : EqDecision RelayType.
Proof. solve_decision. Defined.

Definition RelayType_discr (t : RelayType) : Z :=
  match t with RData => 0x01 | RKeepalive => 0x02 | RBindPort => 0x03 end.

Definition RelayType_from_byte (b : Z) : option RelayType :=
  match b with 0x01 => Some RData | 0x02 => Some RKeepalive | 0x03 => Some RBindPort | _ => None end.

Record RelayPacket := {
  relay_type : RelayType;
  dst : SocketAddr;
  src_port : Z;
  relay_payload : bytes
}.

Definition RELAY_NONCE_LEN : Z := 4.

(** The plain body: type, address, ports, length, payload. *)
Definition relay_body (p : RelayPacket) : bytes :=
  [RelayType_discr (relay_type p)] ++
  (match dst p with
   | SockV4 ip _ => [0x01] ++ v4_octets ip
   | SockV6 ip _ _ _ => [0x04] ++ v6_octets ip
   end) ++
  be16 (sock_port (dst p)) ++ be16 (src_port p) ++ be16 (u16 (zlen (relay_payload p))) ++
  relay_payload p.

Definition encode_relay_packet {AR : Arch} (o : Obfuscator) (nonce : Z) (p : RelayPacket) : bytes :=
  be32 nonce ++ apply o (relay_body p) nonce.

Definition keepalive_packet : RelayPacket :=
  {| relay_type := RKeepalive; dst := SockV4 0 0; src_port := 0; relay_payload := [] |}.

Definition encode_keepalive {AR : Arch} (o : Obfuscator) (nonce : Z) : bytes :=
  encode_relay_packet o nonce keepalive_packet.

(** The address part of [decode_relay_packet]: a panic, a rejection, or the
    length of the IP and the destination. *)
Definition decode_relay_dst (body : bytes) (addr_type : Z) : option (option (Z * SocketAddr)) :=
  if addr_type =? 0x01 then
    if zlen body <? 2 + 4 + 2 + 2 + 2 then Some None else
    a ← index body 2; b ← index body 3; c ← index body 4; d ← index body 5;
    p ← index body 6; q ← index body 7;
    Some (Some (4, SockV4 (from_be32 a b c d) (from_be16 p q)))
  else if addr_type =? 0x04 then
    if zlen body <? 2 + 16 + 2 + 2 + 2 then Some None else
    octets ← slice body 2 18;
    p ← index body 18; q ← index body 19;
    Some (Some (16, SockV6 (of_be octets) (from_be16 p q) 0 0))
  else Some None.

Definition decode_relay_packet {AR : Arch} (o : Obfuscator) (data : bytes) :
    option (option RelayPacket) :=
  if zlen data <? RELAY_NONCE_LEN + 2 then Some None else
  n0 ← index data 0; n1 ← index data 1; n2 ← index data 2; n3 ← index data 3;
  let nonce := from_be32 n0 n1 n2 n3 in
  raw ← slice data RELAY_NONCE_LEN (zlen data);
  let body := apply o raw nonce in
  if zlen body <? 2 then Some None else
  t ← index body 0;
  match RelayType_from_byte t with
  | None => Some None
  | Some rt =>
      addr_type ← index body 1;
      if decide (rt = RKeepalive) then Some (Some keepalive_packet) else
      r ← decode_relay_dst body addr_type;
      match r with
      | None => Some None
      | Some (dst_ip_len, d) =>
          let header_len := 2 + dst_ip_len + 2 in
          s0 ← index body header_len; s1 ← index body (header_len + 1);
          l0 ← index body (header_len + 2); l1 ← index body (header_len + 3);
          let payload_len := from_be16 l0 l1 in
          let payload_start := header_len + 4 in
          if zlen body <? payload_start + payload_len then Some None else
          payload ← slice body payload_start (payload_start + payload_len);
          Some (Some {| relay_type := rt; dst := d; src_port := from_be16 s0 s1;
                        relay_payload := payload |})
      end
  end.

(** ** Facts *)

Lemma decode_relay_form {AR : Arch} o nonce body :
  0 <= nonce < 2 ^ 32 -> 2 <= zlen body ->
  decode_relay_packet o (be32 nonce ++ apply o body nonce) =
  t ← index body 0;
  match RelayType_from_byte t with
  | None => Some None
  | Some rt =>
      addr_type ← index body 1;
      if decide (rt = RKeepalive) then Some (Some keepalive_packet) else
      r ← decode_relay_dst body addr_type;
      match r with
      | None => Some None
      | Some (dst_ip_len, d) =>
          let header_len := 2 + dst_ip_len + 2 in
          s0 ← index body header_len; s1 ← index body (header_len + 1);
          l0 ← index body (header_len + 2); l1 ← index body (header_len + 3);
          let payload_len := from_be16 l0 l1 in
          let payload_start := header_len + 4 in
          if zlen body <? payload_start + payload_len then Some None else
          payload ← slice body payload_start (payload_start + payload_len);
          Some (Some {| relay_type := rt; dst := d; src_port := from_be16 s0 s1;
                        relay_payload := payload |})
      end
  end.
Proof.
  intros Hn Hl. unfold decode_relay_packet, RELAY_NONCE_LEN.
  case_cmp; [zlen_lia |]. read_heads. rewrite be32_roundtrip by done.
  rewrite slice_app_end by zlen_lia. cbn [mbind option_bind]. rewrite apply_involutive.
  case_cmp; [lia | done].
Qed.

(** Any datagram long enough has that form. *)
Lemma relay_data_form {AR : Arch} o data :
  obfuscator_wf o -> bytes_ok data -> 6 <= zlen data ->
  exists nonce body, 0 <= nonce < 2 ^ 32 /\ bytes_ok body /\ zlen body = zlen data - 4 /\
    data = be32 nonce ++ apply o body nonce.
Proof.
  intros Ho Hb Hl. destruct data as [| n0 [| n1 [| n2 [| n3 raw]]]]; try (exfalso; zlen_lia).
  rewrite !bytes_ok_cons in Hb. destruct Hb as (B0 & B1 & B2 & B3 & Hr).
  exists (from_be32 n0 n1 n2 n3), (apply o raw (from_be32 n0 n1 n2 n3)).
  split_and!; try (apply from_be32_range; done).
  - by apply apply_bytes.
  - zlen_lia.
  - by rewrite apply_involutive, be32_surj.
Qed.

Definition packet_ok (p : RelayPacket) : Prop :=
  sock_ok (dst p) /\ 0 <= src_port p < 2 ^ 16 /\ bytes_ok (relay_payload p).

Lemma decode_relay_dst_cases body at_ :
  bytes_ok body -> 2 <= zlen body ->
  exists r, decode_relay_dst body at_ = Some r /\
    forall n d, r = Some (n, d) -> sock_ok d /\ 0 < n /\ 8 + n <= zlen body.
Proof.
  intros Hb Hl. unfold decode_relay_dst.
  assert (Hi : forall i x, index body i = Some x -> is_byte x) by (intros; by eapply index_Forall).
  case_cmp; [case_cmp; [by eexists |] | case_cmp; [case_cmp; [by eexists |] | by eexists]].
  - repeat step_index. eexists. split; [done |]. intros len dst' [= <- <-]. split_and!; try lia.
    split; [apply from_be32_range | apply from_be16_range]; eauto.
  - destruct (slice body 2 18) as [os |] eqn:Eo; [| rewrite slice_some in Eo by lia; done].
    cbn [mbind option_bind]. repeat step_index. eexists. split; [done |].
    intros len dst' [= <- <-]. split_and!; try lia.
    pose proof (slice_Forall _ _ _ _ _ Hb Eo) as Ho. apply slice_inv in Eo as (_ & _ & El & _).
    apply of_be_bound in Ho. rewrite El in Ho.
    split_and!; try lia; apply from_be16_range; eauto.
Qed.

Lemma decode_relay_total {AR : Arch} o data :
  obfuscator_wf o -> bytes_ok data ->
  exists r, decode_relay_packet o data = Some r /\ forall p, r = Some p -> packet_ok p.
Proof.
  intros Ho Hb. destruct (decide (zlen data < 6)).
  { exists None. split; [| done]. unfold decode_relay_packet, RELAY_NONCE_LEN.
    case_cmp; [done | lia]. }
  destruct (relay_data_form o data Ho Hb) as (nonce & body & Hn & Hbd & Hz & ->); [lia |].
  rewrite decode_relay_form by lia. step_index.
  assert (Hi : forall i x, index body i = Some x -> is_byte x) by (intros; by eapply index_Forall).
  destruct (RelayType_from_byte b) as [rt |]; [| by exists None]. step_index.
  case_decide.
  { eexists. split; [done |]. intros p [= <-]. split_and!; simpl; try lia. constructor. }
  destruct (decode_relay_dst_cases body b0 Hbd) as (r & -> & Hr); [lia |].
  cbn [mbind option_bind]. destruct r as [[iplen d] |]; [| by exists None].
  destruct (Hr _ _ eq_refl) as (Hd & Hn0 & Hn1). cbv zeta. do 4 step_index.
  pose proof (from_be16_range b3 b4 (Hi _ _ Eb3) (Hi _ _ Eb4)).
  case_cmp; [by exists None |].
  destruct (slice body _ _) as [pl |] eqn:Ep; [| rewrite slice_some in Ep by lia; done].
  cbn [mbind option_bind]. eexists. split; [done |]. intros p [= <-].
  split_and!; simpl; try done; try (apply from_be16_range; eauto). by eapply slice_Forall.
Qed.

(** What the wire keeps of a packet: a keepalive loses everything, an IPv6
    destination its flow label and scope. *)
Definition wire_packet (p : RelayPacket) : RelayPacket :=
  if decide (relay_type p = RKeepalive) then keepalive_packet else
  {| relay_type := relay_type p;
     dst := match dst p with SockV6 ip q _ _ => SockV6 ip q 0 0 | d => d end;
     src_port := src_port p; relay_payload := relay_payload p |}.

Lemma RelayType_from_discr t : RelayType_from_byte (RelayType_discr t) = Some t.
Proof. by destruct t. Qed.

(** The tail of the body after an address of [k] bytes in all. *)
Lemma relay_tail_read pre sp pl k :
  zlen pre = k -> 0 <= sp < 2 ^ 16 -> zlen pl < 2 ^ 16 ->
  let body := pre ++ be16 sp ++ be16 (zlen pl) ++ pl in
  exists s0 s1 l0 l1, index body k = Some s0 /\ index body (k + 1) = Some s1 /\
    index body (k + 2) = Some l0 /\ index body (k + 3) = Some l1 /\
    from_be16 s0 s1 = sp /\ from_be16 l0 l1 = zlen pl /\
    slice body (k + 4) (k + 4 + zlen pl) = Some pl /\ zlen body = k + 4 + zlen pl.
Proof.
  intros Hk Hs Hp body. pose proof (zlen_nonneg pl). pose proof (zlen_nonneg pre).
  exists ((sp / 2 ^ 8) mod 256), (sp mod 256), ((zlen pl / 2 ^ 8) mod 256), (zlen pl mod 256).
  unfold body, be16. cbn [app]. split_and!.
  - by apply index_mid.
  - apply index_mid2. lia.
  - change (pre ++ ?a :: ?b :: ?l) with (pre ++ [a; b] ++ l). rewrite app_assoc.
    apply index_mid. zlen_lia.
  - change (pre ++ ?a :: ?b :: ?l) with (pre ++ [a; b] ++ l). rewrite app_assoc.
    apply index_mid2. zlen_lia.
  - by apply be16_roundtrip.
  - by apply be16_roundtrip.
  - change (pre ++ ?a :: ?b :: ?c :: ?d :: ?l) with (pre ++ [a; b; c; d] ++ l). rewrite app_assoc.
    apply slice_app_end; zlen_lia.
  - zlen_lia.
Qed.

Lemma relay_roundtrip_aux (A1 A2 : Arch) o nonce p :
  peers_agree A1 A2 o -> 0 <= nonce < 2 ^ 32 -> packet_ok p -> zlen (relay_payload p) < 2 ^ 16 ->
  @decode_relay_packet A2 o (@encode_relay_packet A1 o nonce p) = Some (Some (wire_packet p)).
Proof.
  intros Hag Hn (Hd & Hsp & Hpl) Hlen. unfold encode_relay_packet.
  rewrite (apply_peers A1 A2) by (done || lia).
  unfold relay_body, wire_packet, u16. pose proof (zlen_nonneg (relay_payload p)).
  rewrite Z.mod_small by lia.
  rewrite decode_relay_form by (destruct (dst p); cbn [app]; zlen_lia).
  destruct p as [rt d sp pl]; cbn [relay_type dst src_port relay_payload] in *.
  cbn [app]. read_heads. rewrite RelayType_from_discr.
  destruct d as [ip q | ip q fl sc]; cbn [app sock_port].
  - destruct Hd as [Hip Hq].
    destruct (relay_tail_read ([RelayType_discr rt; 1] ++ v4_octets ip ++ be16 q) sp pl 8)
      as (s0 & s1 & l0 & l1 & E0 & E1 & E2 & E3 & Es & El & Esl & Ez); try done.
    set (pre := [RelayType_discr rt; 1] ++ v4_octets ip ++ be16 q) in *.
    change (RelayType_discr rt :: 1 :: v4_octets ip ++ be16 q ++ be16 sp ++ be16 (zlen pl) ++ pl)
      with (pre ++ be16 sp ++ be16 (zlen pl) ++ pl).
    set (body := pre ++ _) in *. rewrite index_1 || (change (index body 1) with (Some 1)).
    cbn [mbind option_bind]. case_decide; [done |].
    assert (decode_relay_dst body 1 = Some (Some (4, SockV4 ip q))) as ->.
    { unfold decode_relay_dst. rewrite Z.eqb_refl. case_cmp; [lia |].
      unfold body, pre, v4_octets, be32, be16. cbn [app]. read_heads.
      by rewrite be32_roundtrip, be16_roundtrip. }
    cbn [mbind option_bind]. cbv zeta. change (2 + 4 + 2) with 8.
    rewrite E0, E1, E2, E3. cbn [mbind option_bind]. rewrite El, Es.
    destruct (Z.ltb_spec (zlen body) (8 + 4 + zlen pl)); [lia |]. by rewrite Esl.
  - destruct Hd as (Hip & Hq & _).
    assert (Hz : zlen (to_be 16 ip) = 16) by (unfold zlen; by rewrite to_be_length).
    destruct (relay_tail_read ([RelayType_discr rt; 4] ++ v6_octets ip ++ be16 q) sp pl 20)
      as (s0 & s1 & l0 & l1 & E0 & E1 & E2 & E3 & Es & El & Esl & Ez); try done.
    set (pre := [RelayType_discr rt; 4] ++ v6_octets ip ++ be16 q) in *.
    change (RelayType_discr rt :: 4 :: v6_octets ip ++ be16 q ++ be16 sp ++ be16 (zlen pl) ++ pl)
      with (pre ++ be16 sp ++ be16 (zlen pl) ++ pl).
    set (body := pre ++ _) in *. change (index body 1) with (Some 4).
    cbn [mbind option_bind]. case_decide; [done |].
    assert (decode_relay_dst body 4 = Some (Some (16, SockV6 ip q 0 0))) as ->.
    { unfold decode_relay_dst. change (4 =? 1) with false. rewrite Z.eqb_refl.
      cbv iota. case_cmp; [lia |].
      assert (Eb : body = [RelayType_discr rt; 4] ++ to_be 16 ip ++ be16 q ++ be16 sp ++ be16 (zlen pl) ++ pl)
        by (unfold body, pre, v6_octets; by rewrite <- !app_assoc).
      rewrite Eb, slice_app, app_assoc by zlen_lia. change (be16 q ++ ?l) with
        ((q / 2 ^ 8) mod 256 :: q mod 256 :: l).
      rewrite (index_mid _ _ _ 18), (index_mid2 _ _ _ _ 19) by zlen_lia.
      cbn [mbind option_bind]. by rewrite of_to_be, be16_roundtrip. }
    cbn [mbind option_bind]. cbv zeta. change (2 + 16 + 2) with 20.
    rewrite E0, E1, E2, E3. cbn [mbind option_bind]. rewrite El, Es.
    destruct (Z.ltb_spec (zlen body) (20 + 4 + zlen pl)); [lia |]. by rewrite Esl.
Qed.

(** ** Claims *)

Lemma relay_packet_roundtrip (A1 A2 : Arch) (o : Obfuscator) (nonce : Z) (p : RelayPacket) :
  peers_agree A1 A2 o -> 0 <= nonce < 2 ^ 32 -> packet_ok p -> zlen (relay_payload p) <= 65535 ->
  @decode_relay_packet A2 o (@encode_relay_packet A1 o nonce p) = Some (Some (wire_packet p)).
Proof. intros. apply relay_roundtrip_aux; try done. lia. Qed.

Definition ex_packet : RelayPacket :=
  {| relay_type := RData; dst := SockV4 0x08080808 53; src_port := 4000; relay_payload := [1; 2; 3] |}.

(** A relay packet survives the datagram: what the server decodes is what the
    client encoded, for every nonce and both machine widths, as long as the
    payload fits the 16-bit length; a keepalive comes back as the empty
    keepalive, an IPv6 destination without flow label and scope. A datagram from
    the network never makes the decoder panic, and what it accepts has addresses
    and ports in range. *)
Theorem relay_packet_codec (o : Obfuscator) :
  (forall (A1 A2 : Arch) (nonce : Z) (p : RelayPacket),
     peers_agree A1 A2 o -> 0 <= nonce < 2 ^ 32 -> packet_ok p -> zlen (relay_payload p) <= 65535 ->
     @decode_relay_packet A2 o (@encode_relay_packet A1 o nonce p) = Some (Some (wire_packet p))) /\
  (forall (AR : Arch) (data : bytes), obfuscator_wf o -> bytes_ok data ->
     exists r, decode_relay_packet o data = Some r /\ forall p, r = Some p -> packet_ok p).
Proof. split; intros; [by apply relay_packet_roundtrip | by apply decode_relay_total]. Qed.

Lemma relay_packet_codec_witness :
  @decode_relay_packet arch64 (ex_obf [5; 6; 7]) (@encode_relay_packet arch64 (ex_obf [5; 6; 7]) 99 ex_packet)
  = Some (Some ex_packet) /\
  exists r, @decode_relay_packet arch64 (ex_obf [5; 6; 7]) [0; 0; 0; 0; 200; 13; 7] = Some r.
Proof.
  destruct (relay_packet_codec (ex_obf [5; 6; 7])) as [H1 H2]. split.
  - apply (H1 arch64 arch64 99 ex_packet); [by left | lia | | by_compute]. split_and!; simpl; try lia. by_compute.
  - destruct (H2 arch64 [0; 0; 0; 0; 200; 13; 7]) as (r & Hr & _); [| by_compute | by exists r].
    split_and!; try (simpl; lia); try done; [by_compute | apply fill_sub_table_bytes].
Defined.

(** The length field wraps for a payload above 65535 bytes: the encoder accepts it
    and the decoder returns a shortened payload (no datagram is that long, so
    the callers cannot reach it). *)
Theorem relay_length_wraps :
  exists p, zlen (relay_payload p) = 65536 + 3 /\
    match @decode_relay_packet arch64 (ex_obf [5; 6; 7])
            (@encode_relay_packet arch64 (ex_obf [5; 6; 7]) 0 p) with
    | Some (Some q) => zlen (relay_payload q) = 3
    | _ => False
    end.
Proof.
  exists {| relay_type := RData; dst := SockV4 0 0; src_port := 0;
            relay_payload := replicate (Z.to_nat (65536 + 3)) 0 |}.
  split; [vm_compute; reflexivity |]. vm_compute. reflexivity.
Qed.
