(* ===== verification/Sni.v ===== *)
(** * The SNI parser (xr-proto/src/sni.rs)

    The name a TLS client asks for, read from the first bytes of a connection.
    The outer [option] of every parser is the panic of an out-of-range read,
    the inner one is the function's own [Option]. *)

From S2P Require Import Prelude Text Protocol.

Definition TLS_RECORD_HEADER_LEN : Z := 5.
Definition MAX_CLIENT_HELLO : Z := TLS_RECORD_HEADER_LEN + 16384.

Definition client_hello_record_len (buf : bytes) : option (option Z) :=
  if negb (bool_decide (buf !! 0%nat = Some 0x16)) then Some None
  else if zlen buf <? TLS_RECORD_HEADER_LEN then Some (Some TLS_RECORD_HEADER_LEN)
  else
    b3 ← index buf 3; b4 ← index buf 4;
    let record_len := from_be16 b3 b4 in
    Some (Some (Z.min (TLS_RECORD_HEADER_LEN + record_len) MAX_CLIENT_HELLO)).

(** The loop over the server names; [fuel] bounds its iterations. *)
Fixpoint sni_names (fuel : nat) (data : bytes) (pos : Z) : option (option bytes) :=
  match fuel with
  | O => None
  | S fuel =>
      if pos + 3 <=? zlen data then
        name_type ← index data pos;
        l1 ← index data (pos + 1); l0 ← index data (pos + 2);
        let name_len := from_be16 l1 l0 in
        let pos := pos + 3 in
        if name_type =? 0 then
          if MAX_DOMAIN_LEN <? name_len then Some None
          else if pos + name_len <=? zlen data then
            name ← slice data pos (pos + name_len);
            Some (from_utf8 name)
          else sni_names fuel data (pos + name_len)
        else sni_names fuel data (pos + name_len)
      else Some None
  end.

Definition parse_sni_extension (data : bytes) : option (option bytes) :=
  if zlen data <? 5 then Some None
  else sni_names (S (length data)) data 2.

(** The loop over the extensions. *)
Fixpoint sni_extensions (fuel : nat) (ch : bytes) (pos ext_end : Z) : option (option bytes) :=
  match fuel with
  | O => None
  | S fuel =>
      if pos + 4 <=? ext_end then
        t1 ← index ch pos; t0 ← index ch (pos + 1);
        let ext_type := from_be16 t1 t0 in
        d1 ← index ch (pos + 2); d0 ← index ch (pos + 3);
        let ext_data_len := from_be16 d1 d0 in
        let pos := pos + 4 in
        if ext_type =? 0 then
          rest ← usub (zlen ch) pos;
          data ← slice ch pos (pos + Z.min ext_data_len rest);
          parse_sni_extension data
        else sni_extensions fuel ch (pos + ext_data_len) ext_end
      else Some None
  end.

(** The ClientHello body: the fields before the extensions are skipped. *)
Definition client_hello_sni (ch : bytes) : option (option bytes) :=
  if zlen ch <? 35 then Some None else
  let pos := 34 in
  session_id_len ← index ch pos;
  let pos := pos + (1 + session_id_len) in
  if zlen ch <? pos + 2 then Some None else
  c1 ← index ch pos; c0 ← index ch (pos + 1);
  let cs_len := from_be16 c1 c0 in
  let pos := pos + (2 + cs_len) in
  if zlen ch <? pos + 1 then Some None else
  cm_len ← index ch pos;
  let pos := pos + (1 + cm_len) in
  if zlen ch <? pos + 2 then Some None else
  e1 ← index ch pos; e0 ← index ch (pos + 1);
  let ext_len := from_be16 e1 e0 in
  let pos := pos + 2 in
  rest ← usub (zlen ch) pos;
  let ext_end := pos + Z.min ext_len rest in
  sni_extensions (S (length ch)) ch pos ext_end.

(** [((a as usize) << 16) | ((b as usize) << 8) | c as usize]. *)
Definition from_be24 (a b c : Z) : Z :=
  Z.lor (Z.lor (Z.shiftl a 16) (Z.shiftl b 8)) c.

Definition extract_sni (buf : bytes) : option (option bytes) :=
  if zlen buf <? 44 then Some None else
  content_type ← index buf 0;
  if negb (content_type =? 0x16) then Some None else
  b3 ← index buf 3; b4 ← index buf 4;
  let record_len := from_be16 b3 b4 in
  rest ← usub (zlen buf) 5;
  let record_end := 5 + Z.min record_len rest in
  hs ← slice buf 5 record_end;
  if zlen hs <? 4 then Some None else
  h0 ← index hs 0;
  if negb (h0 =? 0x01) then Some None else
  h1 ← index hs 1; h2 ← index hs 2; h3 ← index hs 3;
  let hs_len := from_be24 h1 h2 h3 in
  rest ← usub (zlen hs) 4;
  ch ← slice hs 4 (4 + Z.min hs_len rest);
  client_hello_sni ch.

(** ** Safety

    What an accepted name looks like: it can be the domain of a
    [TargetAddr]. *)

Definition name_ok (r : option bytes) : Prop :=
  forall name, r = Some name -> zlen name <= MAX_DOMAIN_LEN /\ utf8_valid name = true /\ bytes_ok name.

Lemma name_ok_none : name_ok None.
Proof. by intros ? [=]. Qed.

Lemma sni_names_total fuel data pos :
  bytes_ok data -> 0 <= pos -> (0 < fuel)%nat -> zlen data < pos + Z.of_nat fuel ->
  exists r, sni_names fuel data pos = Some r /\ name_ok r.
Proof.
  intros Hb. revert pos. induction fuel as [| fuel IH]; intros pos Hpos H0 Hf; [lia |]; cbn [sni_names].
  case_cmp; [| eauto using name_ok_none].
  do 3 step_byte. pose proof (from_be16_byte_range _ _ Rb0 Rb1). cbv zeta.
  case_cmp; [| apply IH; lia].
  case_cmp; [eauto using name_ok_none |].
  case_cmp; [| apply IH; lia].
  destruct (slice data (pos + 3) (pos + 3 + from_be16 b0 b1)) as [name |] eqn:Es;
    [| rewrite slice_some in Es by lia; done].
  cbn [mbind option_bind]. eexists. split; [done |]. unfold from_utf8, name_ok.
  intros nm. destruct (utf8_valid name) eqn:Eu; intros [= <-].
  apply slice_inv in Es as Hs. split_and!; [lia | done |]. by eapply slice_Forall.
Qed.

Lemma parse_sni_extension_total data :
  bytes_ok data -> exists r, parse_sni_extension data = Some r /\ name_ok r.
Proof.
  intros. unfold parse_sni_extension. case_cmp; [eauto using name_ok_none |].
  apply sni_names_total; [done | lia | lia | unfold zlen; lia].
Qed.

Lemma sni_extensions_total fuel ch pos ext_end :
  bytes_ok ch -> 0 <= pos -> ext_end <= zlen ch -> (0 < fuel)%nat -> zlen ch < pos + Z.of_nat fuel ->
  exists r, sni_extensions fuel ch pos ext_end = Some r /\ name_ok r.
Proof.
  intros Hb. revert pos. induction fuel as [| fuel IH]; intros pos Hpos He H0 Hf; [lia |].
  cbn [sni_extensions]. case_cmp; [| eauto using name_ok_none].
  do 4 step_byte. pose proof (from_be16_byte_range _ _ Rb1 Rb2). cbv zeta.
  case_cmp; [| apply IH; lia].
  rewrite usub_some by lia. cbn [mbind option_bind].
  rewrite slice_some by lia. cbn [mbind option_bind].
  by apply parse_sni_extension_total, Forall_take, Forall_drop.
Qed.

Lemma client_hello_sni_total ch :
  bytes_ok ch -> exists r, client_hello_sni ch = Some r /\ name_ok r.
Proof.
  intros Hb. unfold client_hello_sni. cbv zeta.
  case_cmp; [eauto using name_ok_none |]. step_byte.
  case_cmp; [eauto using name_ok_none |]. do 2 step_byte.
  pose proof (from_be16_byte_range _ _ Rb0 Rb1).
  case_cmp; [eauto using name_ok_none |]. step_byte.
  case_cmp; [eauto using name_ok_none |]. do 2 step_byte.
  pose proof (from_be16_byte_range _ _ Rb3 Rb4).
  rewrite usub_some by lia. cbn [mbind option_bind].
  apply sni_extensions_total; [done | lia | lia | lia | unfold zlen; lia].
Qed.

Lemma from_be24_nonneg a b c : 0 <= a < 256 -> 0 <= b < 256 -> 0 <= c < 256 -> 0 <= from_be24 a b c.
Proof.
  intros. unfold from_be24. rewrite !Z.lor_nonneg, !Z.shiftl_nonneg. lia.
Qed.

Lemma extract_sni_total buf :
  bytes_ok buf -> exists r, extract_sni buf = Some r /\ name_ok r.
Proof.
  intros Hb. unfold extract_sni. cbv zeta.
  case_cmp; [eauto using name_ok_none |]. step_byte.
  case_cmp; [eauto using name_ok_none |]. do 2 step_byte.
  pose proof (from_be16_byte_range _ _ Rb0 Rb1).
  rewrite usub_some by lia. cbn [mbind option_bind].
  destruct (slice buf 5 _) as [hs |] eqn:Es; [| rewrite slice_some in Es by lia; done].
  cbn [mbind option_bind]. assert (Hh : bytes_ok hs) by (by eapply slice_Forall).
  case_cmp; [eauto using name_ok_none |]. step_byte.
  case_cmp; [eauto using name_ok_none |]. do 3 step_byte.
  pose proof (from_be24_nonneg b3 b4 b5).
  rewrite usub_some by lia. cbn [mbind option_bind].
  destruct (slice hs 4 _) as [ch |] eqn:Ec; [| rewrite slice_some in Ec by lia; done].
  apply client_hello_sni_total. by eapply slice_Forall.
Qed.

(** ** The record length *)

Lemma client_hello_record_len_total buf :
  bytes_ok buf -> exists r, client_hello_record_len buf = Some r /\
    forall n, r = Some n -> TLS_RECORD_HEADER_LEN <= n <= MAX_CLIENT_HELLO.
Proof.
  intros Hb. unfold client_hello_record_len, MAX_CLIENT_HELLO, TLS_RECORD_HEADER_LEN.
  case_cmp; [by eexists |]. case_cmp.
  { eexists. split; [done |]. intros ? [= <-]. lia. }
  do 2 step_byte. pose proof (from_be16_byte_range _ _ Rb Rb0). cbv zeta.
  eexists. split; [done |]. intros ? [= <-]. lia.
Qed.

(** Bytes after the first record do not change the parse. *)
Lemma extract_sni_record buf more n :
  client_hello_record_len buf = Some (Some n) -> n < MAX_CLIENT_HELLO -> 44 <= zlen buf -> n <= zlen buf ->
  extract_sni (buf ++ more) = extract_sni buf.
Proof.
  unfold client_hello_record_len. intros H Hn Hl Hz.
  assert (H3 := index_app_l buf more 3). assert (H4 := index_app_l buf more 4).
  assert (H0' := index_app_l buf more 0).
  unfold TLS_RECORD_HEADER_LEN, MAX_CLIENT_HELLO in *.
  revert H. case_cmp; [done |]. case_cmp; [lia |].
  unfold extract_sni. rewrite zlen_app. pose proof (zlen_nonneg more).
  rewrite H0', H3, H4 by lia. destruct (Z.ltb_spec (zlen buf) 44); [lia |].
  destruct (Z.ltb_spec (zlen buf + zlen more) 44); [lia |].
  destruct (index buf 0), (index buf 3) as [b3 |], (index buf 4) as [b4 |]; try done.
  cbn [mbind option_bind]. case_cmp; [done |]. cbv zeta. intros [= <-].
  rewrite !usub_some by lia. cbn [mbind option_bind].
  assert (Hr : 5 + from_be16 b3 b4 <= zlen buf) by lia.
  replace (Z.min (from_be16 b3 b4) (zlen buf - 5)) with (from_be16 b3 b4) by lia.
  replace (Z.min (from_be16 b3 b4) (zlen buf + zlen more - 5)) with (from_be16 b3 b4) by lia.
  by rewrite slice_prefix by lia.
Qed.

(** ** A reference ClientHello

    The layout of the doc comment of the source, for the acceptance theorem:
    the extensions before the server name have other types. *)

Record ClientHello := {
  ch_version_random : bytes;
  ch_session_id : bytes;
  ch_cipher_suites : bytes;
  ch_compression : bytes;
  ch_before : list (Z * bytes);
  ch_host : bytes;
  ch_after : bytes
}.

Definition extension (e : Z * bytes) : bytes := be16 e.1 ++ be16 (zlen e.2) ++ e.2.

Definition server_name (host : bytes) : bytes :=
  be16 (zlen host + 3) ++ [0] ++ be16 (zlen host) ++ host.

Definition hello_extensions (c : ClientHello) : bytes :=
  concat (map extension (ch_before c)) ++ extension (0, server_name (ch_host c)) ++ ch_after c.

Definition hello_body (c : ClientHello) : bytes :=
  ch_version_random c
  ++ [zlen (ch_session_id c)] ++ ch_session_id c
  ++ be16 (zlen (ch_cipher_suites c)) ++ ch_cipher_suites c
  ++ [zlen (ch_compression c)] ++ ch_compression c
  ++ be16 (zlen (hello_extensions c)) ++ hello_extensions c.

Definition be24 (v : Z) : bytes := [(v / 2 ^ 16) mod 256; (v / 2 ^ 8) mod 256; v mod 256].

Definition hello_handshake (c : ClientHello) : bytes :=
  [0x01] ++ be24 (zlen (hello_body c)) ++ hello_body c.

Definition hello_record (c : ClientHello) : bytes :=
  [0x16; 0x03; 0x01] ++ be16 (zlen (hello_handshake c)) ++ hello_handshake c.

Definition hello_ok (c : ClientHello) : Prop :=
  zlen (ch_version_random c) = 34 /\ zlen (ch_session_id c) < 256 /\
  zlen (ch_cipher_suites c) < 2 ^ 16 /\ zlen (ch_compression c) < 256 /\
  Forall (fun e => 0 < e.1 < 2 ^ 16 /\ zlen e.2 < 2 ^ 16) (ch_before c) /\
  zlen (ch_host c) <= MAX_DOMAIN_LEN /\ utf8_valid (ch_host c) = true /\
  zlen (hello_handshake c) < 2 ^ 16.

(** A big-endian 16-bit field in the middle of a byte string. *)
Lemma read16 pre v post i :
  i = zlen pre -> 0 <= v < 2 ^ 16 ->
  exists a b, index (pre ++ be16 v ++ post) i = Some a /\
    index (pre ++ be16 v ++ post) (i + 1) = Some b /\ from_be16 a b = v.
Proof.
  intros -> Hv. exists ((v / 2 ^ 8) mod 256), (v mod 256).
  unfold be16. cbn [app]. rewrite index_mid, index_mid2 by done.
  split_and!; [done.. |]. by apply be16_roundtrip.
Qed.

Lemma zlen_server_name host : zlen (server_name host) = 5 + zlen host.
Proof. unfold server_name. zlen_simpl. rewrite ?zlen_be16. lia. Qed.

Lemma parse_server_name host :
  zlen host <= MAX_DOMAIN_LEN -> utf8_valid host = true ->
  parse_sni_extension (server_name host) = Some (Some host).
Proof.
  change MAX_DOMAIN_LEN with 255. intros Hl Hu. unfold parse_sni_extension.
  pose proof (zlen_server_name host) as Hz.
  pose proof (zlen_nonneg host). rewrite Hz.
  destruct (Z.ltb_spec (5 + zlen host) 5); [lia |]. cbn [sni_names]. rewrite Hz.
  destruct (Z.leb_spec (2 + 3) (5 + zlen host)); [| lia].
  destruct (read16 (be16 (zlen host + 3) ++ [0]) (zlen host) host 3) as (a & b & Ea & Eb & Ev);
    [done | lia |].
  rewrite <- app_assoc in Ea, Eb. fold (server_name host) in Ea, Eb.
  change (index (server_name host) 2) with (Some 0).
  change (2 + 1) with 3. change (2 + 2) with (3 + 1). change (2 + 3) with 5.
  rewrite Ea. cbn [mbind option_bind]. rewrite Eb.
  cbn [mbind option_bind]. rewrite Ev. cbv zeta. change (0 =? 0) with true. cbv iota. change MAX_DOMAIN_LEN with 255.
  destruct (Z.ltb_spec 255 (zlen host)); [lia |].
  destruct (Z.leb_spec (5 + zlen host) (5 + zlen host)); [| lia].
  unfold server_name. rewrite !app_assoc. rewrite slice_app_end by done.
  cbn [mbind option_bind]. unfold from_utf8. by rewrite Hu.
Qed.

Lemma zlen_extension e : zlen (extension e) = 4 + zlen e.2.
Proof. unfold extension. zlen_simpl. rewrite ?zlen_be16. lia. Qed.

(** One extension at the cursor. *)
Lemma extension_read pre e post i :
  i = zlen pre -> 0 <= e.1 < 2 ^ 16 -> zlen e.2 < 2 ^ 16 ->
  exists t1 t0 d1 d0, index (pre ++ extension e ++ post) i = Some t1 /\
    index (pre ++ extension e ++ post) (i + 1) = Some t0 /\
    index (pre ++ extension e ++ post) (i + 2) = Some d1 /\
    index (pre ++ extension e ++ post) (i + 3) = Some d0 /\
    from_be16 t1 t0 = e.1 /\ from_be16 d1 d0 = zlen e.2 /\
    slice (pre ++ extension e ++ post) (i + 4) (i + 4 + zlen e.2) = Some e.2.
Proof.
  intros Hi Ht Hd. pose proof (zlen_nonneg e.2). unfold extension.
  destruct (read16 pre e.1 (be16 (zlen e.2) ++ e.2 ++ post) i) as (t1 & t0 & E1 & E2 & Et); [done.. |].
  destruct (read16 (pre ++ be16 e.1) (zlen e.2) (e.2 ++ post) (i + 2)) as (d1 & d0 & E3 & E4 & Ed);
    [zlen_simpl; rewrite ?zlen_be16; lia | lia |].
  exists t1, t0, d1, d0. rewrite <- !app_assoc in *. replace (i + 2 + 1) with (i + 3) in E4 by lia.
  split_and!; try done.
  rewrite (app_assoc (be16 e.1)), (app_assoc pre). apply slice_app;
    zlen_simpl; rewrite ?zlen_be16; lia.
Qed.

Lemma sni_extensions_found fuel pre before host after :
  Forall (fun e => 0 < e.1 < 2 ^ 16 /\ zlen e.2 < 2 ^ 16) before ->
  zlen host <= MAX_DOMAIN_LEN -> utf8_valid host = true -> (length before < fuel)%nat ->
  let ch := pre ++ concat (map extension before) ++ extension (0, server_name host) ++ after in
  sni_extensions fuel ch (zlen pre) (zlen ch) = Some (Some host).
Proof.
  intros Hb Hl Hu. revert fuel pre. change MAX_DOMAIN_LEN with 255 in Hl.
  pose proof (zlen_server_name host) as Hz.
  induction Hb as [| e before [He Hel] Hb IH]; intros [| fuel] pre Hf; simpl in Hf; [lia | | lia |];
    cbn [map concat]; cbv zeta.
  - cbn [app]. destruct (extension_read pre (0, server_name host) after (zlen pre))
      as (t1 & t0 & d1 & d0 & E1 & E2 & E3 & E4 & Et & Ed & Es); cbn [fst snd] in *; [done | lia | lia |].
    set (ch := pre ++ _) in *. cbn [sni_extensions].
    assert (Hc : zlen ch = zlen pre + (4 + (5 + zlen host)) + zlen after)
      by (unfold ch; zlen_simpl; rewrite zlen_extension; cbn [snd]; lia).
    pose proof (zlen_nonneg pre). pose proof (zlen_nonneg after). pose proof (zlen_nonneg host).
    destruct (Z.leb_spec (zlen pre + 4) (zlen ch)); [| lia].
    rewrite E1, E2, E3, E4. cbn [mbind option_bind]. rewrite Et. change (0 =? 0) with true. cbv iota.
    rewrite usub_some, Ed by lia. cbn [mbind option_bind].
    rewrite Z.min_l by lia. rewrite Es. cbn [mbind option_bind]. by apply parse_server_name.
  - destruct (extension_read pre e (concat (map extension before) ++ extension (0, server_name host) ++ after)
      (zlen pre)) as (t1 & t0 & d1 & d0 & E1 & E2 & E3 & E4 & Et & Ed & Es); [done | lia | lia |].
    rewrite <- app_assoc. specialize (IH fuel (pre ++ extension e) ltac:(lia)).
    cbv zeta in IH. rewrite <- app_assoc in IH.
    set (ch := pre ++ extension e ++ _) in *. cbn [sni_extensions].
    assert (zlen pre + 4 <= zlen ch).
    { unfold ch. zlen_simpl. rewrite zlen_extension.
      pose proof (zlen_nonneg e.2). zlen_lia. }
    destruct (Z.leb_spec (zlen pre + 4) (zlen ch)); [| lia].
    rewrite E1, E2, E3, E4. cbn [mbind option_bind]. rewrite Et.
    destruct (Z.eqb_spec e.1 0); [lia |]. cbv zeta. rewrite Ed.
    replace (zlen pre + 4 + zlen e.2) with (zlen (pre ++ extension e)); [done |].
    zlen_simpl. rewrite zlen_extension. lia.
Qed.

Lemma zlen_be24 v : zlen (be24 v) = 3.
Proof. done. Qed.

Lemma be24_roundtrip v :
  0 <= v < 2 ^ 24 -> from_be24 ((v / 2 ^ 16) mod 256) ((v / 2 ^ 8) mod 256) (v mod 256) = v.
Proof.
  intros. unfold from_be24.
  rewrite <- (Z.shiftl_shiftl _ 8 8), <- Z.shiftl_lor by lia.
  rewrite !lor_shiftl_add by divmod.
  change (2 ^ 16) with 65536. change (2 ^ 8) with 256. divmod.
Qed.

(** The bytes of a hello before its extension block. *)
Definition hello_fixed (c : ClientHello) : bytes :=
  ch_version_random c ++ [zlen (ch_session_id c)] ++ ch_session_id c
  ++ be16 (zlen (ch_cipher_suites c)) ++ ch_cipher_suites c
  ++ [zlen (ch_compression c)] ++ ch_compression c.

Lemma hello_body_eq c :
  hello_body c = hello_fixed c ++ be16 (zlen (hello_extensions c)) ++ hello_extensions c.
Proof. unfold hello_body, hello_fixed. by rewrite <- !app_assoc. Qed.

Lemma zlen_hello_fixed c :
  zlen (ch_version_random c) = 34 ->
  zlen (hello_fixed c) = 34 + (1 + zlen (ch_session_id c)) + (2 + zlen (ch_cipher_suites c))
    + (1 + zlen (ch_compression c)).
Proof.
  intros H. unfold hello_fixed. rewrite !zlen_app, zlen_be16, H.
  change (zlen [_]) with 1. lia.
Qed.

Lemma hello_session_read c :
  zlen (ch_version_random c) = 34 -> index (hello_body c) 34 = Some (zlen (ch_session_id c)).
Proof. intros H. unfold hello_body. by apply (index_mid _ _ _ 34). Qed.

Lemma hello_compression_read c :
  zlen (ch_version_random c) = 34 ->
  index (hello_body c) (34 + (1 + zlen (ch_session_id c)) + (2 + zlen (ch_cipher_suites c)))
  = Some (zlen (ch_compression c)).
Proof.
  intros H.
  assert (hello_body c = (ch_version_random c ++ [zlen (ch_session_id c)] ++ ch_session_id c
    ++ be16 (zlen (ch_cipher_suites c)) ++ ch_cipher_suites c)
    ++ zlen (ch_compression c) :: (ch_compression c ++ be16 (zlen (hello_extensions c)) ++ hello_extensions c))
    as -> by (unfold hello_body; by rewrite <- !app_assoc).
  apply index_mid. rewrite !zlen_app, zlen_be16, H. change (zlen [_]) with 1. lia.
Qed.

Lemma before_length l : (length l <= length (concat (map extension l)))%nat.
Proof.
  induction l as [| e l IH]; [done |]. simpl. rewrite !length_app. simpl. lia.
Qed.

Lemma hello_body_sni c : hello_ok c -> client_hello_sni (hello_body c) = Some (Some (ch_host c)).
Proof.
  intros (H34 & Hsid & Hcs & Hcm & Hbef & Hhost & Hutf & Hlen).
  pose proof (hello_session_read c H34) as Hi1. pose proof (hello_compression_read c H34) as Hi2.
  pose proof (zlen_hello_fixed c H34) as Hfix.
  unfold hello_handshake in Hlen. rewrite !zlen_app, zlen_be24 in Hlen.
  set (sid := ch_session_id c) in *. set (cs := ch_cipher_suites c) in *.
  set (cm := ch_compression c) in *. set (ex := hello_extensions c) in *.
  assert (Hz : zlen (hello_body c) = zlen (hello_fixed c) + 2 + zlen ex)
    by (rewrite hello_body_eq, !zlen_app, zlen_be16; fold ex; lia).
  pose proof (zlen_nonneg sid). pose proof (zlen_nonneg cs).
  pose proof (zlen_nonneg cm). pose proof (zlen_nonneg ex). change (zlen [1]) with 1 in Hlen.
  destruct (read16 (ch_version_random c ++ [zlen sid] ++ sid) (zlen cs)
    (cs ++ [zlen cm] ++ cm ++ be16 (zlen ex) ++ ex) (34 + (1 + zlen sid)))
    as (c1 & c0 & Ec1 & Ec0 & Ec); [by rewrite !zlen_app, H34 | lia |].
  rewrite <- !app_assoc in Ec1, Ec0.
  change (ch_version_random c ++ _) with (hello_body c) in Ec1, Ec0.
  destruct (read16 (hello_fixed c) (zlen ex) ex (zlen (hello_fixed c)))
    as (e1 & e0 & Ee1 & Ee0 & Ee); [done | lia |].
  rewrite <- hello_body_eq in Ee1, Ee0. rewrite Hfix in Ee1, Ee0.
  unfold client_hello_sni. cbv zeta.
  case_cmp; [lia |]. rewrite Hi1. cbn [mbind option_bind].
  case_cmp; [lia |]. rewrite Ec1, Ec0. cbn [mbind option_bind]. rewrite Ec.
  case_cmp; [lia |]. rewrite Hi2. cbn [mbind option_bind].
  case_cmp; [lia |]. rewrite Ee1, Ee0. cbn [mbind option_bind]. rewrite Ee.
  rewrite usub_some by lia. cbn [mbind option_bind]. rewrite Z.min_l by lia.
  pose proof (sni_extensions_found (S (length (hello_body c)))
    (hello_fixed c ++ be16 (zlen ex)) (ch_before c) (ch_host c) (ch_after c) Hbef Hhost Hutf) as Hf.
  cbv zeta in Hf. rewrite <- app_assoc in Hf. fold (hello_extensions c) in Hf.
  fold ex in Hf. rewrite <- hello_body_eq, zlen_app, zlen_be16, Hz, Hfix in Hf. apply Hf.
  rewrite hello_body_eq. unfold hello_extensions. rewrite !length_app.
  pose proof (before_length (ch_before c)). lia.
Qed.

Lemma extract_hello c more :
  hello_ok c -> extract_sni (hello_record c ++ more) = Some (Some (ch_host c)).
Proof.
  intros Hc. pose proof (hello_body_sni c Hc) as Hsni.
  destruct Hc as (H34 & _ & _ & _ & _ & _ & _ & Hlen).
  pose proof (zlen_hello_fixed c H34) as Hfix.
  assert (Hb : 38 <= zlen (hello_body c)) by (rewrite hello_body_eq; zlen_lia).
  assert (Hh : zlen (hello_handshake c) = 4 + zlen (hello_body c))
    by (unfold hello_handshake; rewrite !zlen_app, zlen_be24; change (zlen [1]) with 1; lia).
  pose proof (zlen_nonneg more). unfold extract_sni, hello_record.
  rewrite !zlen_app, zlen_be16. change (zlen [22; 3; 1]) with 3.
  case_cmp; [lia |]. unfold be16. cbn [app]. read_heads. change (negb (22 =? 22)) with false.
  cbv iota zeta. rewrite be16_roundtrip by lia. rewrite usub_some by lia. cbn [mbind option_bind].
  rewrite Z.min_l by lia.
  change (22 :: 3 :: 1 :: ?a :: ?b :: ?l) with ([22; 3; 1; a; b] ++ l).
  rewrite slice_app by done. cbn [mbind option_bind]. case_cmp; [lia |].
  unfold hello_handshake, be24. cbn [app]. read_heads. change (negb (1 =? 1)) with false.
  cbv iota. rewrite be24_roundtrip by lia.
  change (1 :: ?a :: ?b :: ?d :: ?l) with ([1; a; b; d] ++ l).
  rewrite usub_some by zlen_lia. cbn [mbind option_bind].
  rewrite Z.min_l by zlen_lia. rewrite slice_app_end by done. done.
Qed.

(** ** Claims *)

Lemma encode_domain_ok name port :
  zlen name <= MAX_DOMAIN_LEN -> exists buf, TargetAddr_encode (TDomain name port) = Ok buf.
Proof.
  intros Hn. unfold TargetAddr_encode. case_cmp; [lia | by eexists].
Qed.

(** A non-empty beginning of a ClientHello tells how many bytes to wait for, and they are
    there exactly when the record is. *)
Lemma record_len_prefix c buf rest more :
  hello_ok c -> zlen (hello_handshake c) <= 16384 -> buf ++ rest = hello_record c ++ more -> 0 < zlen buf ->
  exists want, client_hello_record_len buf = Some (Some want) /\ 0 < want /\ (want <= zlen buf -> zlen (hello_record c) <= zlen buf) /\
    (zlen (hello_record c) <= zlen buf -> want <= zlen buf).
Proof.
  intros Hc Hmax E Hb. set (rec := hello_record c) in *. pose proof (zlen_nonneg (hello_handshake c)).
  assert (Hz : zlen rec = 5 + zlen (hello_handshake c)).
  { unfold rec, hello_record. rewrite !zlen_app, zlen_be16. change (zlen [22; 3; 1]) with 3. lia. }
  assert (Hpre : forall i, i < zlen buf -> i < zlen rec -> index buf i = index rec i).
  { intros i Hi Hr. rewrite <- (index_app_l buf rest), E, index_app_l by lia. done. }
  assert (H0 : buf !! 0%nat = Some 22).
  { pose proof (Hpre 0 ltac:(lia) ltac:(lia)) as H0. unfold index in H0. rewrite decide_True in H0 by lia. exact H0. }
  unfold client_hello_record_len. rewrite H0. rewrite bool_decide_eq_true_2 by done. cbn [negb].
  unfold TLS_RECORD_HEADER_LEN, MAX_CLIENT_HELLO. destruct (Z.ltb_spec (zlen buf) 5).
  - exists 5. split_and!; [done | lia | lia | lia].
  - rewrite (Hpre 3), (Hpre 4) by lia.
    assert (index rec 3 = Some ((zlen (hello_handshake c) / 2 ^ 8) mod 256) /\ index rec 4 = Some (zlen (hello_handshake c) mod 256)) as [-> ->]
      by done.
    cbn [mbind option_bind]. destruct Hc as (_ & _ & _ & _ & _ & _ & _ & Hlen).
    rewrite be16_roundtrip by lia. eexists. split; [reflexivity |]. unfold TLS_RECORD_HEADER_LEN. lia.
Qed.

Lemma record_whole c buf rest more :
  buf ++ rest = hello_record c ++ more -> zlen (hello_record c) <= zlen buf -> exists tail, buf = hello_record c ++ tail.
Proof.
  intros E H. exists (zdrop (zlen (hello_record c)) buf). rewrite <- (ztake_zdrop (zlen (hello_record c)) buf) at 1. f_equal.
  pose proof (f_equal (ztake (zlen (hello_record c))) E) as Et. unfold ztake in *.
  rewrite take_app_le, take_app_le in Et by (unfold zlen in *; lia).
  rewrite Et. apply take_ge. unfold zlen. lia.
Qed.

(** Whatever a client sends first, the SNI parser neither reads out of range nor
    loops: it returns, and a name it returns is valid UTF-8 and short enough to
    be the domain of a Connect frame. *)
Theorem extract_sni_safe (buf : bytes) (port : Z) :
  bytes_ok buf ->
  exists r, extract_sni buf = Some r /\
    forall name, r = Some name ->
      utf8_valid name = true /\ exists payload, TargetAddr_encode (TDomain name port) = Ok payload.
Proof.
  intros Hb. destruct (extract_sni_total buf Hb) as (r & Hr & Hok). exists r. split; [done |].
  intros name Hn. destruct (Hok name Hn) as (Hl & Hu & _). eauto using encode_domain_ok.
Qed.

Definition ex_hello : ClientHello := {|
  ch_version_random := 3 :: 3 :: replicate 32 7;
  ch_session_id := [1; 2; 3; 4];
  ch_cipher_suites := [0x13; 0x01; 0x13; 0x02];
  ch_compression := [0];
  ch_before := [(0x0a0a, []); (43, [2; 3; 4])];
  ch_host := str "example.com";
  ch_after := [0; 10; 0; 2; 0; 0] |}.

Lemma extract_sni_safe_witness :
  exists r, extract_sni (hello_record ex_hello) = Some r /\
    forall name, r = Some name ->
      utf8_valid name = true /\ exists payload, TargetAddr_encode (TDomain name 443) = Ok payload.
Proof. apply (extract_sni_safe (hello_record ex_hello) 443). by_compute. Defined.

(** On a ClientHello laid out as TLS prescribes, whatever its session id, cipher
    suites and earlier extensions, and whatever follows its record, the parser
    returns the host of the server-name extension. *)
Theorem extract_sni_finds_host (c : ClientHello) (more : bytes) :
  hello_ok c -> extract_sni (hello_record c ++ more) = Some (Some (ch_host c)).
Proof. apply extract_hello. Qed.

Lemma extract_sni_finds_host_witness :
  extract_sni (hello_record ex_hello ++ [23; 3; 3; 0; 1; 9]) = Some (Some (str "example.com")).
Proof.
  apply (extract_sni_finds_host ex_hello [23; 3; 3; 0; 1; 9]).
  split_and!; try by_compute.
Defined.

(** The number of bytes the proxy waits for stays between the record header and the
    cap, and once that many have arrived (below the cap) later bytes cannot
    change the name that is found. *)
Theorem client_hello_record_len_enough (buf : bytes) :
  bytes_ok buf ->
  exists r, client_hello_record_len buf = Some r /\
    forall n, r = Some n ->
      TLS_RECORD_HEADER_LEN <= n <= MAX_CLIENT_HELLO /\
      forall more, n < MAX_CLIENT_HELLO -> 44 <= zlen buf -> n <= zlen buf ->
        extract_sni (buf ++ more) = extract_sni buf.
Proof.
  intros Hb. destruct (client_hello_record_len_total buf Hb) as (r & Hr & Hrange).
  exists r. split; [done |]. intros n ->. split; [by apply Hrange |].
  intros more. by apply extract_sni_record.
Qed.

Lemma client_hello_record_len_enough_witness :
  extract_sni (hello_record ex_hello ++ [1; 2]) = extract_sni (hello_record ex_hello).
Proof.
  destruct (client_hello_record_len_enough (hello_record ex_hello)) as (r & Hr & Hn); [by_compute |].
  assert (Hv : client_hello_record_len (hello_record ex_hello) = Some (Some 95)) by by_compute.
  destruct (Hn 95) as [_ Hm]; [congruence |]. apply Hm; by_compute.
Defined.
