(* ===== verification/UserRule.v ===== *)
(** * User rules (xr-proto/src/user_rule.rs)

    Patterns of the rule editor: their normalisation, classification and the
    translation of a rule list into a routing configuration. *)

From S2P Require Import Prelude Text Net.

Inductive RuleKind := RDomain | RWildcard | RCidrV4 | RCidrV6.

#[global] Instance RuleKind_eq_dec : EqDecision RuleKind.
Proof. solve_decision. Defined.

Definition RuleKind_as_str (k : RuleKind) : bytes :=
  match k with
  | RDomain => str "domain"
  | RWildcard => str "wildcard"
  | RCidrV4 => str "cidr4"
  | RCidrV6 => str "cidr6"
  end.

(** [RulePatternError]: the text shown below the input field. *)
Record RulePatternError := { pattern_error : bytes }.

Definition pattern_err {A} (s : string) : result A RulePatternError := Err {| pattern_error := str s |}.

Record UserRule := { ur_action : bytes; ur_pattern : bytes }.

(** [RoutingRule] and [RoutingConfig] of xr-proto/src/config.rs. *)
Record RoutingRule := {
  rr_name : option bytes;
  rr_action : bytes;
  rr_domains : list bytes;
  rr_ip_ranges : list bytes;
  rr_geoip : list bytes
}.

Record RoutingConfig := { rc_default_action : bytes; rc_rules : list RoutingRule }.

Section user_rule.
Context {UC : UnicodeCase}.

Definition normalize_pattern (raw : bytes) : bytes :=
  let s := to_lowercase (trim raw) in
  if bool_decide (is_Some (parse_ipv4 s)) then s ++ str "/32"
  else if bool_decide (is_Some (parse_ipv6 s)) then s ++ str "/128"
  else s.

Definition is_ascii_digit (b : Z) : bool := in_rng 48 57 b.
Definition is_ascii_alphanumeric (b : Z) : bool :=
  in_rng 48 57 b || in_rng 65 90 b || in_rng 97 122 b.

Definition label_ok (label : bytes) : bool :=
  negb (zlen label =? 0) && (zlen label <=? 63)
  && negb (starts_with (str "-") label) && negb (ends_with (str "-") label)
  && forallb (fun c => is_ascii_alphanumeric c || (c =? 45)) label.

Definition is_valid_domain (s : bytes) : bool :=
  if negb (contains_char 46 s) || (253 <? zlen s) then false
  else if forallb (fun c => is_ascii_digit c || (c =? 46)) s then false
  else forallb label_ok (split 46 s).

Definition classify_pattern (pattern : bytes) : result RuleKind RulePatternError :=
  let s := trim pattern in
  if zlen s =? 0 then pattern_err "Введите домен или IP-диапазон"
  else if contains (str "://") s then pattern_err "Введите домен без схемы (https://) и пути"
  else if starts_with (str "[") s || ends_with (str "]") s then
    pattern_err "Введите IPv6 без квадратных скобок"
  else
  match split_once 47 s with
  | Some (ip, prefix) =>
      match parse_u32 prefix with
      | None => pattern_err "Некорректный формат"
      | Some prefix =>
          if bool_decide (is_Some (parse_ipv4 ip)) then
            if 32 <? prefix then pattern_err "Префикс IPv4 не больше /32" else Ok RCidrV4
          else if bool_decide (is_Some (parse_ipv6 ip)) then
            if 128 <? prefix then pattern_err "Префикс IPv6 не больше /128" else Ok RCidrV6
          else pattern_err "Некорректный формат"
      end
  | None =>
      if bool_decide (s = str "*") then Ok RWildcard else
      match strip_prefix (str "*.") s with
      | Some rest =>
          if is_valid_domain rest then Ok RWildcard else pattern_err "Некорректный формат"
      | None =>
          if contains_char 42 s then
            pattern_err "Подстановка допустима только в начале: *.example.com"
          else if is_valid_domain s then Ok RDomain
          else pattern_err "Некорректный формат"
      end
  end.

Definition user_rule_to_routing (r : UserRule) : option RoutingRule :=
  let pattern := normalize_pattern (ur_pattern r) in
  match classify_pattern pattern with
  | Ok RDomain | Ok RWildcard =>
      Some {| rr_name := None; rr_action := ur_action r; rr_domains := [pattern];
              rr_ip_ranges := []; rr_geoip := [] |}
  | Ok RCidrV4 | Ok RCidrV6 =>
      Some {| rr_name := None; rr_action := ur_action r; rr_domains := [];
              rr_ip_ranges := [pattern]; rr_geoip := [] |}
  | Err _ => None
  end.

Definition to_routing_config (rules : list UserRule) (default_action : bytes) : RoutingConfig :=
  {| rc_default_action := default_action; rc_rules := omap user_rule_to_routing rules |}.

End user_rule.

(** ** Normalised patterns *)

Lemma trim_start_idem l : trim_start (trim_start l) = trim_start l.
Proof.
  assert (H : forall n l, (length l <= n)%nat -> trim_start (trim_start l) = trim_start l);
    [| by apply (H (length l))].
  clear l. induction n as [| n IH]; intros l Hl.
  { destruct l; [done | simpl in Hl; lia]. }
  destruct l as [| b0 r0]; [done |]. simpl in Hl. cbn [trim_start].
  destruct (ws1 b0) eqn:E1; [apply IH; lia |].
  destruct r0 as [| b1 r1]; [cbn [trim_start]; by rewrite E1 |]. simpl in Hl.
  destruct (ws2 b0 b1) eqn:E2; [apply IH; lia |].
  destruct r1 as [| b2 r2]; [cbn [trim_start]; by rewrite E1, E2 |]. simpl in Hl.
  destruct (ws3 b0 b1 b2) eqn:E3; [apply IH; lia |]. cbn [trim_start]. by rewrite E1, E2, E3.
Qed.

Lemma trim_end_rev_idem l : trim_end_rev (trim_end_rev l) = trim_end_rev l.
Proof.
  assert (H : forall n l, (length l <= n)%nat -> trim_end_rev (trim_end_rev l) = trim_end_rev l);
    [| by apply (H (length l))].
  clear l. induction n as [| n IH]; intros l Hl.
  { destruct l; [done | simpl in Hl; lia]. }
  destruct l as [| b0 r0]; [done |]. simpl in Hl. cbn [trim_end_rev].
  destruct (ws1 b0) eqn:E1; [apply IH; lia |].
  destruct r0 as [| b1 r1]; [cbn [trim_end_rev]; by rewrite E1 |]. simpl in Hl.
  destruct (ws2 b1 b0) eqn:E2; [apply IH; lia |].
  destruct r1 as [| b2 r2]; [cbn [trim_end_rev]; by rewrite E1, E2 |]. simpl in Hl.
  destruct (ws3 b2 b1 b0) eqn:E3; [apply IH; lia |]. cbn [trim_end_rev]. by rewrite E1, E2, E3.
Qed.

(** Cutting the end of a string cannot expose a white-space character at its
    start. *)
Lemma trim_start_prefix l k : trim_start (l ++ k) = l ++ k -> trim_start l = l.
Proof.
  assert (Hlen : forall n l, (length l <= n)%nat -> (length (trim_start l) <= length l)%nat).
  { clear. induction n as [| n IH]; intros l Hl; [destruct l; simpl in *; [done | lia] |].
    destruct l as [| b0 r0]; [done |]. simpl in *.
    destruct (ws1 b0). { specialize (IH r0 ltac:(lia)). lia. }
    destruct r0 as [| b1 r1]; simpl in *; [lia |].
    destruct (ws2 b0 b1). { specialize (IH r1 ltac:(lia)). lia. }
    destruct r1 as [| b2 r2]; simpl in *; [lia |].
    destruct (ws3 b0 b1 b2). { specialize (IH r2 ltac:(lia)). lia. } simpl. lia. }
  assert (Hne : forall b l, trim_start l <> b :: l)
    by (intros b l' E; specialize (Hlen _ l' (le_n _)); rewrite E in Hlen; simpl in Hlen; lia).
  assert (Hne2 : forall b c l, trim_start l <> b :: c :: l)
    by (intros b c l' E; specialize (Hlen _ l' (le_n _)); rewrite E in Hlen; simpl in Hlen; lia).
  assert (Hne3 : forall b c d l, trim_start l <> b :: c :: d :: l)
    by (intros b c d l' E; specialize (Hlen _ l' (le_n _)); rewrite E in Hlen; simpl in Hlen; lia).
  destruct l as [| b0 l]; [done |]. cbn [app trim_start]. intros H.
  destruct (ws1 b0); [by destruct (Hne _ _ H) |].
  destruct l as [| b1 l]; [done |]. cbn [app] in H.
  destruct (ws2 b0 b1); [by destruct (Hne2 _ _ _ H) |].
  destruct l as [| b2 l]; [done |]. cbn [app] in H.
  destruct (ws3 b0 b1 b2); [by destruct (Hne3 _ _ _ _ H) | done].
Qed.

Lemma trim_end_rev_suffix l : exists p, l = p ++ trim_end_rev l.
Proof.
  assert (H : forall n l, (length l <= n)%nat -> exists p, l = p ++ trim_end_rev l);
    [| by apply (H (length l))].
  clear l. induction n as [| n IH]; intros l Hl.
  { destruct l; [by exists [] | simpl in Hl; lia]. }
  destruct l as [| b0 r0]; [by exists [] |]. simpl in Hl. cbn [trim_end_rev].
  destruct (ws1 b0). { destruct (IH r0) as [p Hp]; [lia |]. exists (b0 :: p). simpl. by rewrite <- Hp. }
  destruct r0 as [| b1 r1]; [by exists [] |]. simpl in Hl.
  destruct (ws2 b1 b0).
  { destruct (IH r1) as [p Hp]; [lia |]. exists (b0 :: b1 :: p). simpl. by rewrite <- Hp. }
  destruct r1 as [| b2 r2]; [by exists [] |]. simpl in Hl.
  destruct (ws3 b2 b1 b0); [| by exists []].
  destruct (IH r2) as [p Hp]; [lia |]. exists (b0 :: b1 :: b2 :: p). simpl. by rewrite <- Hp.
Qed.

Lemma trim_end_prefix l : exists p, l = trim_end l ++ p.
Proof.
  unfold trim_end. destruct (trim_end_rev_suffix (rev l)) as [p Hp]. exists (rev p).
  by rewrite <- rev_app_distr, <- Hp, rev_involutive.
Qed.

Lemma trim_idem l : trim (trim l) = trim l.
Proof.
  unfold trim. destruct (trim_end_prefix (trim_start l)) as [p Hp].
  rewrite (trim_start_prefix _ p); [| by rewrite <- Hp, trim_start_idem].
  unfold trim_end. by rewrite rev_involutive, trim_end_rev_idem.
Qed.

(** Lower-casing ASCII text keeps its white space. *)
Lemma ascii_no_ws b0 : is_ascii b0 ->
  (forall b1, ws2 b0 b1 = false) /\ (forall b1 b2, ws3 b0 b1 b2 = false).
Proof. unfold is_ascii, ws2, ws3. intros. split; intros; lia. Qed.

Lemma ws1_lower b : ws1 (ascii_lower b) = ws1 b.
Proof. unfold ws1, ascii_lower, in_rng. destruct (Z.leb_spec 65 b), (Z.leb_spec b 90); simpl; lia. Qed.

Lemma ascii_lower_ascii b : is_ascii b -> is_ascii (ascii_lower b).
Proof. unfold is_ascii, ascii_lower, in_rng. case_match; bool_props; lia. Qed.

Lemma trim_start_ascii b l :
  is_ascii b -> trim_start (b :: l) = if ws1 b then trim_start l else b :: l.
Proof.
  intros Hb. destruct (ascii_no_ws b Hb) as [E2 E3]. cbn [trim_start].
  destruct (ws1 b); [done |]. destruct l as [| b1 l]; [done |]. rewrite E2.
  destruct l; [done |]. by rewrite E3.
Qed.

Lemma trim_end_rev_ascii b l :
  Forall is_ascii (b :: l) -> trim_end_rev (b :: l) = if ws1 b then trim_end_rev l else b :: l.
Proof.
  intros Hl. inversion Hl as [| ? ? Hb Hl']; subst. cbn [trim_end_rev].
  destruct (ws1 b); [done |]. destruct l as [| b1 l]; [done |].
  inversion Hl' as [| ? ? Hb1 Hl'']; subst. destruct (ascii_no_ws b1 Hb1) as [-> _].
  destruct l as [| b2 l]; [done |]. inversion Hl''; subst. by destruct (ascii_no_ws b2) as [_ ->].
Qed.

Lemma trim_start_lower l :
  Forall is_ascii l -> trim_start (map ascii_lower l) = map ascii_lower (trim_start l).
Proof.
  induction 1 as [| b l Hb Hl IH]; [done |]. cbn [map].
  rewrite !trim_start_ascii, ws1_lower by auto using ascii_lower_ascii. by destruct (ws1 b).
Qed.

Lemma Forall_lower l : Forall is_ascii l -> Forall is_ascii (map ascii_lower l).
Proof. induction 1; simpl; constructor; auto using ascii_lower_ascii. Qed.

Lemma trim_end_rev_lower l :
  Forall is_ascii l -> trim_end_rev (map ascii_lower l) = map ascii_lower (trim_end_rev l).
Proof.
  induction 1 as [| b l Hb Hl IH]; [done |]. cbn [map].
  rewrite !trim_end_rev_ascii by (constructor; auto using ascii_lower_ascii, Forall_lower).
  rewrite ws1_lower.
  by destruct (ws1 b).
Qed.

Lemma trim_start_suffix_ascii l : Forall is_ascii l -> Forall is_ascii (trim_start l).
Proof.
  induction 1 as [| b l Hb Hl IH]; [constructor |]. rewrite trim_start_ascii by done.
  destruct (ws1 b); [done | by constructor].
Qed.

Lemma trim_lower l : Forall is_ascii l -> trim (map ascii_lower l) = map ascii_lower (trim l).
Proof.
  intros Hl. unfold trim, trim_end. rewrite trim_start_lower by done.
  rewrite <- map_rev, trim_end_rev_lower by (by apply List.Forall_rev, trim_start_suffix_ascii).
  by rewrite map_rev.
Qed.

Section normalized.
Context {UC : UnicodeCase}.

Lemma trim_start_nonempty l x :
  Forall is_ascii l -> l <> [] -> trim_start l = l -> trim_start (l ++ x) = l ++ x.
Proof.
  intros Hl Hne Ht. destruct l as [| b l]; [done |]. inversion Hl; subst. cbn [app].
  rewrite trim_start_ascii in * by done. destruct (ws1 b); [| done].
  destruct (trim_end_prefix l) as [p _]. exfalso.
  assert (length (trim_start l) <= length l)%nat as Hlen; [| rewrite Ht in Hlen; simpl in Hlen; lia].
  clear -H2. induction H2 as [| b l Hb Hl IH]; [done |]. rewrite trim_start_ascii by done.
  destruct (ws1 b); simpl; lia.
Qed.

Lemma trim_append l x b :
  Forall is_ascii l -> l <> [] -> trim l = l -> is_graph b -> trim (l ++ x ++ [b]) = l ++ x ++ [b].
Proof.
  intros Hl Hne Ht Hb. assert (Hs : trim_start l = l).
  { rewrite <- Ht at 1. unfold trim. destruct (trim_end_prefix (trim_start l)) as [p Hp].
    rewrite (trim_start_prefix _ p); [apply Ht |]. by rewrite <- Hp, trim_start_idem. }
  unfold trim, trim_end. rewrite trim_start_nonempty by done.
  rewrite !rev_app_distr. cbn [rev app]. rewrite trim_end_rev_graph by done.
  cbn [rev]. by rewrite rev_app_distr, !rev_involutive, app_assoc.
Qed.

Lemma trim_ascii l : Forall is_ascii l -> Forall is_ascii (trim l).
Proof.
  intros Hl. unfold trim. destruct (trim_end_prefix (trim_start l)) as [p Hp].
  apply trim_start_suffix_ascii in Hl. rewrite Hp in Hl. by apply Forall_app in Hl as [? _].
Qed.

Lemma lower_trim_ascii raw : Forall is_ascii raw ->
  Forall is_ascii (to_lowercase (trim raw)) /\ trim (to_lowercase (trim raw)) = to_lowercase (trim raw).
Proof.
  intros Hr%trim_ascii. rewrite to_lowercase_ascii by done. split; [by apply Forall_lower |].
  by rewrite trim_lower, trim_idem.
Qed.

(** A normalised pattern is trimmed, so [classify_pattern] and the matchers see
    the same text. *)
Lemma normalize_pattern_trimmed raw :
  Forall is_ascii raw -> trim (normalize_pattern raw) = normalize_pattern raw.
Proof.
  intros Hr. destruct (lower_trim_ascii raw Hr) as [Ha Ht]. unfold normalize_pattern. cbv zeta.
  case_bool_decide as E4.
  - apply (trim_append _ (str "/3") 50); [done | | done | unfold is_graph; lia].
    intros E. rewrite E in E4. by destruct E4.
  - case_bool_decide as E6; [| done].
    apply (trim_append _ (str "/12") 56); [done | | done | unfold is_graph; lia].
    intros E. rewrite E in E6. by destruct E6.
Qed.

End normalized.
