(* ===== verification/Routing.v ===== *)
(** * The routing engine (xr-proto/src/routing.rs)

    Compilation of a routing configuration and the decision for one
    connection. The GeoIP database is third-party code: an opened reader is a
    function from addresses to country codes, and opening one is a parameter
    of [Router_new]. *)

From S2P Require Import Prelude Text Net UserRule.

Inductive Action := Proxy | Direct | Block.

#[global] Instance Action_eq_dec : EqDecision Action.
Proof. solve_decision. Defined.

Definition Action_from_str (s : bytes) : Action :=
  if bool_decide (s = str "proxy") then Proxy
  else if bool_decide (s = str "block") then Block
  else Direct.

Definition on_server_down_from_str (s : bytes) : Action :=
  if bool_decide (to_ascii_lowercase (trim s) = str "direct") then Direct else Block.

Inductive CidrRange := CidrV4 (addr mask : Z) | CidrV6 (addr mask : Z).

(** [!0uN << (N - prefix_len)], and 0 for the empty prefix. *)
Definition prefix_mask (bits prefix_len : Z) : Z :=
  if prefix_len =? 0 then 0
  else Z.shiftl (2 ^ bits - 1) (bits - prefix_len) mod 2 ^ bits.

Definition CidrRange_parse (s : bytes) : option CidrRange :=
  '(ip_str, prefix_str) ← split_once 47 s;
  prefix_len ← parse_u32 prefix_str;
  match parse_ipv4 ip_str with
  | Some ip =>
      if 32 <? prefix_len then None
      else let mask := prefix_mask 32 prefix_len in Some (CidrV4 (Z.land ip mask) mask)
  | None =>
      match parse_ipv6 ip_str with
      | Some ip =>
          if 128 <? prefix_len then None
          else let mask := prefix_mask 128 prefix_len in Some (CidrV6 (Z.land ip mask) mask)
      | None => None
      end
  end.

Definition CidrRange_contains (c : CidrRange) (ip : IpAddr) : bool :=
  match c, ip with
  | CidrV4 addr mask, V4 v4 => Z.land v4 mask =? addr
  | CidrV6 addr mask, V6 v6 => Z.land v6 mask =? addr
  | _, _ => false
  end.

Record CompiledRule := {
  action : Action;
  exact_domains : list bytes;
  wildcard_suffixes : list bytes;
  ip_ranges : list CidrRange;
  geoip_codes : list bytes
}.

(** An opened GeoIP database: the ISO code of an address, when the record has
    one. *)
Definition GeoReader := IpAddr -> option bytes.

Record Router := {
  rules : list CompiledRule;
  default_action : Action;
  geoip_reader : option GeoReader
}.

Section routing.
Context {UC : UnicodeCase}.

(** The classification loop over the domains of a rule: exact names and
    suffixes in source order. *)
Fixpoint compile_domains (domains : list bytes) : list bytes * list bytes :=
  match domains with
  | [] => ([], [])
  | domain :: rest =>
      let '(exact, suffixes) := compile_domains rest in
      let d := normalize_pattern domain in
      match classify_pattern d with
      | Ok RWildcard => (exact, default [] (strip_prefix (str "*") d) :: suffixes)
      | Ok RDomain => (d :: exact, suffixes)
      | Ok RCidrV4 | Ok RCidrV6 => (exact, suffixes)
      | Err _ => (exact, suffixes)
      end
  end.

Definition compile_rule (rule : RoutingRule) : CompiledRule :=
  let '(exact, suffixes) := compile_domains (rr_domains rule) in
  {| action := Action_from_str (rr_action rule);
     exact_domains := exact;
     wildcard_suffixes := suffixes;
     ip_ranges := omap CidrRange_parse (rr_ip_ranges rule);
     geoip_codes := map to_uppercase (rr_geoip rule) |}.

Definition Router_new (open_readfile : bytes -> option GeoReader) (config : RoutingConfig) (geoip_path : option bytes) : Router :=
  {| rules := map compile_rule (rc_rules config);
     default_action := Action_from_str (rc_default_action config);
     geoip_reader := path ← geoip_path; open_readfile path |}.

Definition from_merged (open_readfile : bytes -> option GeoReader) (overrides preset : RoutingConfig)
    (geoip_path : option bytes) : Router :=
  {| rules := map compile_rule (rc_rules overrides ++ rc_rules preset);
     default_action := Action_from_str (rc_default_action overrides);
     geoip_reader := path ← geoip_path; open_readfile path |}.

Definition lookup_country (r : Router) (ip : IpAddr) : option bytes :=
  reader ← geoip_reader r; reader ip.

(** One suffix of the wildcard list. *)
Definition suffix_matches (hostname_lower suffix : bytes) : bool :=
  ends_with suffix hostname_lower
  || match strip_prefix (str ".") suffix with
     | Some base => bool_decide (hostname_lower = base)
     | None => false
     end.

Definition matches_domain (rule : CompiledRule) (hostname : bytes) : bool :=
  let hostname_lower := to_lowercase hostname in
  existsb (fun exact => bool_decide (hostname_lower = exact)) (exact_domains rule)
  || existsb (suffix_matches hostname_lower) (wildcard_suffixes rule).

Definition matches_geoip (r : Router) (rule : CompiledRule) (dest_ip : IpAddr) : bool :=
  if bool_decide (geoip_codes rule = []) then false
  else match lookup_country r dest_ip with
       | Some country => existsb (eq_ignore_ascii_case country) (geoip_codes rule)
       | None => false
       end.

Definition matches_rule (r : Router) (rule : CompiledRule) (sni : option bytes) (dest_ip : IpAddr) : bool :=
  (match sni with Some hostname => matches_domain rule hostname | None => false end)
  || existsb (fun cidr => CidrRange_contains cidr dest_ip) (ip_ranges rule)
  || matches_geoip r rule dest_ip.

Fixpoint resolve_rules (r : Router) (rs : list CompiledRule) (sni : option bytes) (dest_ip : IpAddr) : Action :=
  match rs with
  | [] => default_action r
  | rule :: rs' =>
      if matches_rule r rule sni dest_ip then action rule else resolve_rules r rs' sni dest_ip
  end.

Definition resolve (r : Router) (sni : option bytes) (dest_ip : IpAddr) : Action :=
  resolve_rules r (rules r) sni dest_ip.

(** ** Masks *)

Lemma prefix_mask_bits bits p i :
  0 <= p <= bits -> 0 <= i ->
  Z.testbit (prefix_mask bits p) i = (bits - p <=? i) && (i <? bits).
Proof.
  intros Hp Hi. unfold prefix_mask. destruct (Z.eqb_spec p 0) as [-> |].
  - rewrite Z.bits_0. lia.
  - destruct (Z.ltb_spec i bits).
    + rewrite Z.mod_pow2_bits_low, Z.shiftl_spec by lia.
      destruct (Z.leb_spec (bits - p) i); simpl.
      * replace (2 ^ bits - 1) with (Z.ones bits) by (rewrite Z.ones_equiv; lia).
        apply Z.ones_spec_low. lia.
      * apply Z.testbit_neg_r. lia.
    + rewrite Z.mod_pow2_bits_high by lia. lia.
Qed.

(** Masking with a prefix mask compares the leading bits. *)
Lemma masked_eq_iff bits p x y :
  0 <= p <= bits -> 0 <= x < 2 ^ bits -> 0 <= y < 2 ^ bits ->
  Z.land x (prefix_mask bits p) = Z.land y (prefix_mask bits p) <->
  x / 2 ^ (bits - p) = y / 2 ^ (bits - p).
Proof.
  intros Hp Hx Hy. rewrite <- !Z.shiftr_div_pow2 by lia.
  assert (Hhi : forall z i, 0 <= z < 2 ^ bits -> bits <= i -> Z.testbit z i = false).
  { intros z i Hz Hi. destruct (decide (z = 0)) as [-> |]; [apply Z.bits_0 |].
    apply Z.bits_above_log2; [lia |]. apply Z.lt_le_trans with bits; [| done].
    apply Z.log2_lt_pow2; lia. }
  split; intros H; apply Z.bits_inj'; intros i Hi.
  - rewrite !Z.shiftr_spec by lia. destruct (Z.ltb_spec (i + (bits - p)) bits).
    + apply (f_equal (fun z => Z.testbit z (i + (bits - p)))) in H.
      rewrite !Z.land_spec, prefix_mask_bits in H by lia.
      replace ((bits - p <=? i + (bits - p)) && (i + (bits - p) <? bits)) with true in H by lia.
      by rewrite !andb_true_r in H.
    + rewrite !Hhi by lia. done.
  - rewrite !Z.land_spec, prefix_mask_bits by lia.
    destruct (Z.leb_spec (bits - p) i); simpl; [| by rewrite !andb_false_r].
    apply (f_equal (fun z => Z.testbit z (i - (bits - p)))) in H.
    rewrite !Z.shiftr_spec in H by lia. replace (i - (bits - p) + (bits - p)) with i in H by lia.
    by rewrite H.
Qed.

Lemma CidrRange_contains_v4 ip p x :
  0 <= p <= 32 -> 0 <= ip < 2 ^ 32 -> 0 <= x < 2 ^ 32 ->
  CidrRange_contains (CidrV4 (Z.land ip (prefix_mask 32 p)) (prefix_mask 32 p)) (V4 x) = true <->
  x / 2 ^ (32 - p) = ip / 2 ^ (32 - p).
Proof. intros. cbn [CidrRange_contains]. rewrite Z.eqb_eq. by apply masked_eq_iff. Qed.

Lemma CidrRange_contains_v6 ip p x :
  0 <= p <= 128 -> 0 <= ip < 2 ^ 128 -> 0 <= x < 2 ^ 128 ->
  CidrRange_contains (CidrV6 (Z.land ip (prefix_mask 128 p)) (prefix_mask 128 p)) (V6 x) = true <->
  x / 2 ^ (128 - p) = ip / 2 ^ (128 - p).
Proof. intros. cbn [CidrRange_contains]. rewrite Z.eqb_eq. by apply masked_eq_iff. Qed.

(** ** First match *)

Lemma resolve_rules_skip r pre rs sni ip :
  Forall (fun rule => matches_rule r rule sni ip = false) pre ->
  resolve_rules r (pre ++ rs) sni ip = resolve_rules r rs sni ip.
Proof. induction 1 as [| rule pre H _ IH]; [done |]. simpl. by rewrite H. Qed.

Lemma resolve_rules_app r rs1 rs2 sni ip :
  resolve_rules r (rs1 ++ rs2) sni ip =
  if existsb (fun rule => matches_rule r rule sni ip) rs1
  then resolve_rules r rs1 sni ip else resolve_rules r rs2 sni ip.
Proof.
  induction rs1 as [| rule rs1 IH]; [done |]. simpl. by destruct (matches_rule r rule sni ip).
Qed.

(** Matching and the default depend on the reader and the default alone. *)
Lemma matches_rule_reader r1 r2 rule sni ip :
  geoip_reader r1 = geoip_reader r2 -> matches_rule r1 rule sni ip = matches_rule r2 rule sni ip.
Proof. intros E. unfold matches_rule, matches_geoip, lookup_country. by rewrite E. Qed.

Lemma resolve_rules_reader r1 r2 rs sni ip :
  geoip_reader r1 = geoip_reader r2 -> default_action r1 = default_action r2 ->
  resolve_rules r1 rs sni ip = resolve_rules r2 rs sni ip.
Proof.
  intros E Ed. induction rs as [| rule rs IH]; simpl; [done |].
  by rewrite (matches_rule_reader r1 r2), IH.
Qed.

(** ** Patterns *)

Lemma ascii_lower_idem b : ascii_lower (ascii_lower b) = ascii_lower b.
Proof.
  unfold ascii_lower, in_rng.
  destruct (Z.leb_spec 65 b), (Z.leb_spec b 90); simpl; branch.
Qed.

(** Normalising twice changes nothing for a pattern that is not an address. *)
Lemma normalize_pattern_idem raw :
  Forall is_ascii raw -> normalize_pattern raw = to_lowercase (trim raw) ->
  normalize_pattern (normalize_pattern raw) = normalize_pattern raw.
Proof.
  intros Hr E. destruct (lower_trim_ascii raw Hr) as [Ha Ht].
  assert (El : to_lowercase (trim (normalize_pattern raw)) = to_lowercase (trim raw)).
  { rewrite E, Ht. rewrite (to_lowercase_ascii (to_lowercase (trim raw))) by done.
    rewrite to_lowercase_ascii by (by apply trim_ascii). rewrite map_map.
    apply map_ext. apply ascii_lower_idem. }
  rewrite <- E in El. unfold normalize_pattern at 1. cbv zeta. rewrite El, E.
  revert E. unfold normalize_pattern. cbv zeta.
  case_bool_decide; [intros E; apply (f_equal length) in E; rewrite length_app in E; simpl in E; lia |].
  case_bool_decide; [intros E; apply (f_equal length) in E; rewrite length_app in E; simpl in E; lia |].
  done.
Qed.

(** An address pattern is never classified as a name. *)
Lemma split_once_app_some c x y : c ∈ y -> exists a b, split_once c (x ++ y) = Some (a, b).
Proof.
  intros Hy. destruct (split_once c (x ++ y)) as [[a b] |] eqn:E; [eauto |].
  apply split_once_none in E. destruct E. apply elem_of_app. by right.
Qed.

Lemma classify_slash raw x k :
  trim raw = x -> (47 : Z) ∈ x -> classify_pattern raw = Ok k -> k = RCidrV4 \/ k = RCidrV6.
Proof.
  intros E Hx. unfold classify_pattern. rewrite E. cbv zeta.
  do 3 (case_cmp; [done |]).
  destruct (split_once 47 x) as [[a b] |] eqn:Es; [| by apply split_once_none in Es].
  destruct (parse_u32 b); [| done]. repeat case_bool_decide; repeat case_cmp; naive_solver.
Qed.

Lemma normalize_name raw k :
  Forall is_ascii raw -> classify_pattern (normalize_pattern raw) = Ok k -> k = RDomain \/ k = RWildcard ->
  normalize_pattern raw = to_lowercase (trim raw).
Proof.
  intros Hr Hc Hk. pose proof (normalize_pattern_trimmed raw Hr) as Ht.
  destruct (decide (normalize_pattern raw = to_lowercase (trim raw))) as [| Hne]; [done |].
  exfalso. assert ((47 : Z) ∈ normalize_pattern raw) as Hs.
  { unfold normalize_pattern in *. cbv zeta in *.
    repeat case_bool_decide; [| | done]; apply elem_of_app; right; by left. }
  destruct (classify_slash _ _ _ Ht Hs Hc); destruct Hk; congruence.
Qed.

(** What the classifier accepts as a range, the range parser accepts. *)
Lemma classify_cidr_parses s k :
  classify_pattern s = Ok k -> k = RCidrV4 \/ k = RCidrV6 -> trim s = s ->
  exists c, CidrRange_parse s = Some c.
Proof.
  unfold classify_pattern, CidrRange_parse. intros Hc Hk Ht. rewrite Ht in Hc. revert Hc.
  cbv zeta. do 3 (case_cmp; [done |]).
  destruct (split_once 47 s) as [[a b] |].
  - cbn [mbind option_bind]. destruct (parse_u32 b) as [p |]; [| done]. cbn [mbind option_bind].
    destruct (parse_ipv4 a) as [ip |].
    + rewrite bool_decide_eq_true_2 by eauto. case_cmp; [done |]. eauto.
    + rewrite bool_decide_eq_false_2 by (by intros []).
      destruct (parse_ipv6 a) as [ip |].
      * rewrite bool_decide_eq_true_2 by eauto. case_cmp; [done |]. eauto.
      * rewrite bool_decide_eq_false_2 by (by intros []). done.
  - unfold pattern_err. repeat case_match; intros E'; destruct Hk; congruence.
Qed.

(** What a user rule with this pattern compiles to. *)
Definition compiled_as (k : RuleKind) (pattern : bytes) (c : CompiledRule) : Prop :=
  geoip_codes c = [] /\
  match k with
  | RDomain => exact_domains c = [pattern] /\ wildcard_suffixes c = [] /\ ip_ranges c = []
  | RWildcard => exact_domains c = [] /\ wildcard_suffixes c = [default [] (strip_prefix (str "*") pattern)] /\
      ip_ranges c = []
  | RCidrV4 | RCidrV6 => exact_domains c = [] /\ wildcard_suffixes c = [] /\
      exists range, CidrRange_parse pattern = Some range /\ ip_ranges c = [range]
  end.

Lemma user_rule_compiles r k :
  Forall is_ascii (ur_pattern r) -> classify_pattern (normalize_pattern (ur_pattern r)) = Ok k ->
  exists rr, user_rule_to_routing r = Some rr /\ action (compile_rule rr) = Action_from_str (ur_action r) /\
    compiled_as k (normalize_pattern (ur_pattern r)) (compile_rule rr).
Proof.
  intros Ha Hc. unfold user_rule_to_routing. rewrite Hc.
  pose proof (normalize_pattern_trimmed _ Ha) as Ht.
  assert (Hn : k = RDomain \/ k = RWildcard ->
    normalize_pattern (normalize_pattern (ur_pattern r)) = normalize_pattern (ur_pattern r)).
  { intros Hk. apply normalize_pattern_idem; [done |]. by eapply normalize_name. }
  destruct k; eexists; (split; [done |]); unfold compile_rule; cbn [rr_domains rr_ip_ranges rr_geoip rr_action];
    unfold compiled_as.
  - cbn [compile_domains]. rewrite Hn, Hc by auto. done.
  - cbn [compile_domains]. rewrite Hn, Hc by auto. done.
  - destruct (classify_cidr_parses _ _ Hc) as [c Ec]; [by left | done |].
    cbn [compile_domains omap list_omap]. rewrite Ec. split; [done |]. split; [done |]. eauto.
  - destruct (classify_cidr_parses _ _ Hc) as [c Ec]; [by right | done |].
    cbn [compile_domains omap list_omap]. rewrite Ec. split; [done |]. split; [done |]. eauto.
Qed.

End routing.

(** ** Wildcards *)

Lemma suffix_matches_spec h base :
  suffix_matches h (str "." ++ base) = true <-> h = base \/ exists sub, h = sub ++ str "." ++ base.
Proof.
  unfold suffix_matches. rewrite strip_prefix_app, orb_true_iff, ends_with_spec, bool_decide_eq_true.
  tauto.
Qed.

(** ** Claims *)

(** C24: The decision is the action of the first rule that matches, and the default
    action when none does; in a merged router an override that matches decides
    alone, and otherwise the preset decides with the override's default. *)
Theorem routing_first_match {UC : UnicodeCase} (open_readfile : bytes -> option GeoReader) :
  (forall r pre rule post sni ip,
     rules r = pre ++ rule :: post ->
     Forall (fun x => matches_rule r x sni ip = false) pre -> matches_rule r rule sni ip = true ->
     resolve r sni ip = action rule) /\
  (forall r sni ip,
     Forall (fun x => matches_rule r x sni ip = false) (rules r) -> resolve r sni ip = default_action r) /\
  (forall overrides preset geoip sni ip,
     let o := Router_new open_readfile overrides geoip in
     let p := Router_new open_readfile
                {| rc_default_action := rc_default_action overrides; rc_rules := rc_rules preset |} geoip in
     resolve (from_merged open_readfile overrides preset geoip) sni ip =
     if existsb (fun rule => matches_rule o rule sni ip) (rules o) then resolve o sni ip else resolve p sni ip).
Proof.
  split_and!.
  - intros r pre rule post sni ip E Hpre Hm. unfold resolve. rewrite E, resolve_rules_skip by done.
    simpl. by rewrite Hm.
  - intros r sni ip Hn. unfold resolve. rewrite <- (app_nil_r (rules r)).
    by rewrite resolve_rules_skip.
  - intros. unfold resolve, from_merged. cbn [rules]. rewrite map_app, resolve_rules_app.
    set (m := {| rules := _ |}).
    assert (Hb : forall l, existsb (fun rule => matches_rule m rule sni ip) l
                 = existsb (fun rule => matches_rule o rule sni ip) l).
    { induction l as [| x l IH]; [done |]. simpl. by rewrite IH, (matches_rule_reader m o). }
    rewrite Hb. change (rules o) with (map compile_rule (rc_rules overrides)).
    case_match; by apply resolve_rules_reader.
Qed.

Definition ex_rule (a : string) (d : list string) (i : list string) : RoutingRule :=
  {| rr_name := None; rr_action := str a; rr_domains := map str d; rr_ip_ranges := map str i; rr_geoip := [] |}.

Definition ex_router : Router :=
  @Router_new ascii_case (fun _ => None)
    {| rc_default_action := str "direct";
       rc_rules := [ex_rule "block" ["ads.example"] []; ex_rule "proxy" ["*.Google.com"] ["10.0.0.0/8"]] |} None.

Lemma routing_first_match_witness :
  @resolve ascii_case ex_router (Some (str "mail.google.COM")) (V4 1) = Proxy.
Proof.
  destruct (@routing_first_match ascii_case (fun _ => None)) as [H _].
  refine (H ex_router [@compile_rule ascii_case (ex_rule "block" ["ads.example"] [])]
            (@compile_rule ascii_case (ex_rule "proxy" ["*.Google.com"] ["10.0.0.0/8"])) [] _ _ _ _ _);
    [reflexivity | | reflexivity].
  constructor; [reflexivity | constructor].
Defined.

(** A CIDR range parsed from text contains exactly the addresses of its own family
    that share the leading [prefix] bits with its address. *)
Theorem cidr_contains_prefix (ip_str prefix_str : bytes) (prefix : Z) (c : CidrRange) (dest : IpAddr) :
  47 ∉ ip_str -> parse_u32 prefix_str = Some prefix ->
  CidrRange_parse (ip_str ++ 47 :: prefix_str) = Some c -> ip_ok dest ->
  CidrRange_contains c dest = true <->
  match dest with
  | V4 x => exists ip, parse_ipv4 ip_str = Some ip /\ prefix <= 32 /\
              x / 2 ^ (32 - prefix) = ip / 2 ^ (32 - prefix)
  | V6 x => exists ip, parse_ipv4 ip_str = None /\ parse_ipv6 ip_str = Some ip /\ prefix <= 128 /\
              x / 2 ^ (128 - prefix) = ip / 2 ^ (128 - prefix)
  end.
Proof.
  intros Hs Hp Hc Hd. unfold CidrRange_parse in Hc.
  rewrite split_once_app in Hc by done. cbn [mbind option_bind] in Hc.
  rewrite Hp in Hc. cbn [mbind option_bind] in Hc. apply parse_u32_range in Hp as Hr.
  destruct (parse_ipv4 ip_str) as [ip |] eqn:E4.
  - apply parse_ipv4_range in E4. revert Hc. case_cmp; [done |]. intros [= <-].
    destruct dest as [x | x]; [| split; [done | by intros (? & ? & _)]].
    rewrite CidrRange_contains_v4 by (simpl in Hd; lia).
    split; [intros; by exists ip | intros (? & [= <-] & _ & E); done].
  - destruct (parse_ipv6 ip_str) as [ip |] eqn:E6; [| done].
    apply parse_ipv6_range in E6. revert Hc. case_cmp; [done |]. intros [= <-].
    destruct dest as [x | x]; [split; [done | by intros (? & ? & _)] |].
    rewrite CidrRange_contains_v6 by (simpl in Hd; lia).
    split; [intros; by exists ip | intros (? & _ & [= <-] & _ & E); done].
Qed.

Lemma cidr_contains_prefix_witness :
  CidrRange_contains (CidrV4 0x0A000000 0xFF000000) (V4 0x0A010203) = true.
Proof.
  apply (cidr_contains_prefix (str "10.0.0.0") (str "8") 8 (CidrV4 0x0A000000 0xFF000000) (V4 0x0A010203));
    [by_compute | reflexivity | reflexivity | simpl; lia |].
  exists 0x0A000000. split_and!; [reflexivity | lia | reflexivity].
Defined.

(** A user rule whose (ASCII) pattern the editor accepts always reaches the router
    as one matcher of the announced kind with the rule's action, and one it
    rejects is dropped without touching the others; a compiled [*.base] suffix
    matches the base itself and the names below it, nothing else. *)
Theorem user_rules_compile {UC : UnicodeCase} :
  (forall r k, Forall is_ascii (ur_pattern r) -> classify_pattern (normalize_pattern (ur_pattern r)) = Ok k ->
     exists rr, user_rule_to_routing r = Some rr /\
       action (compile_rule rr) = Action_from_str (ur_action r) /\
       compiled_as k (normalize_pattern (ur_pattern r)) (compile_rule rr)) /\
  (forall l1 r l2 d e, classify_pattern (normalize_pattern (ur_pattern r)) = Err e ->
     to_routing_config (l1 ++ r :: l2) d = to_routing_config (l1 ++ l2) d) /\
  (forall h base, suffix_matches h (str "." ++ base) = true <->
     h = base \/ exists sub, h = sub ++ str "." ++ base).
Proof.
  split; [apply user_rule_compiles |]. split; [| apply suffix_matches_spec].
  intros l1 r l2 d e He. unfold to_routing_config. f_equal. rewrite !omap_app.
  cbn [omap list_omap]. unfold user_rule_to_routing at 2. by rewrite He.
Qed.

Lemma user_rules_compile_witness :
  exists rr, @user_rule_to_routing ascii_case {| ur_action := str "proxy"; ur_pattern := str " 1.2.3.4 " |} = Some rr.
Proof.
  destruct (@user_rules_compile ascii_case) as (H & _ & _).
  destruct (H {| ur_action := str "proxy"; ur_pattern := str " 1.2.3.4 " |} RCidrV4) as (rr & Hr & _);
    [| reflexivity | by exists rr].
  apply Forall_forall. intros x Hx. repeat (apply elem_of_cons in Hx as [-> | Hx]; [vm_compute; split; congruence |]).
  by apply not_elem_of_nil in Hx.
Defined.
