(* ===== verification/RelayHealth.v ===== *)
(** * Relay outcomes of one server (xr-proto/src/mux.rs, [RelayHealth])

    Successes and setup failures of streams in two time buckets. Instants and
    durations are integers in milliseconds; [now] is the clock the source reads
    and does not run backwards. *)

From S2P Require Import Prelude.

Definition RELAY_WINDOW : Z := 30 * 1000.
Definition RELAY_FAIL_MIN : Z := 5.

Record RelayBucket := {
  domain_ok : Z;
  total_ok : Z;
  resolve_fail : Z;
  connect_fail : Z
}.

Definition RelayBucket_default : RelayBucket :=
  {| domain_ok := 0; total_ok := 0; resolve_fail := 0; connect_fail := 0 |}.

Record RelayWindow := { cur_start : Z; cur : RelayBucket; prev : RelayBucket }.

(** [Instant::elapsed]: never negative. *)
Definition elapsed (now start : Z) : Z := Z.max 0 (now - start).

Definition rotate (now : Z) (w : RelayWindow) : RelayWindow :=
  let e := elapsed now (cur_start w) in
  if e <? RELAY_WINDOW then w
  else {| cur_start := now;
          cur := RelayBucket_default;
          prev := if e <? RELAY_WINDOW * 2 then cur w else RelayBucket_default |}.

Definition RelayHealth_new (now : Z) : RelayWindow :=
  {| cur_start := now; cur := RelayBucket_default; prev := RelayBucket_default |}.

Definition with_cur (w : RelayWindow) (b : RelayBucket) : RelayWindow :=
  {| cur_start := cur_start w; cur := b; prev := prev w |}.

Definition record_success (now : Z) (domain : bool) (w : RelayWindow) : RelayWindow :=
  let w := rotate now w in
  let b := cur w in
  with_cur w {| domain_ok := if domain then u32 (domain_ok b + 1) else domain_ok b;
                total_ok := u32 (total_ok b + 1);
                resolve_fail := resolve_fail b; connect_fail := connect_fail b |}.

Definition record_resolve_fail (now : Z) (w : RelayWindow) : RelayWindow :=
  let w := rotate now w in
  let b := cur w in
  with_cur w {| domain_ok := domain_ok b; total_ok := total_ok b;
                resolve_fail := u32 (resolve_fail b + 1); connect_fail := connect_fail b |}.

Definition record_connect_fail (now : Z) (w : RelayWindow) : RelayWindow :=
  let w := rotate now w in
  let b := cur w in
  with_cur w {| domain_ok := domain_ok b; total_ok := total_ok b;
                resolve_fail := resolve_fail b; connect_fail := u32 (connect_fail b + 1) |}.

(** The sums over both buckets. *)
Definition window_sums (w : RelayWindow) : RelayBucket :=
  {| domain_ok := u32 (domain_ok (cur w) + domain_ok (prev w));
     total_ok := u32 (total_ok (cur w) + total_ok (prev w));
     resolve_fail := u32 (resolve_fail (cur w) + resolve_fail (prev w));
     connect_fail := u32 (connect_fail (cur w) + connect_fail (prev w)) |}.

Definition bucket_degraded (b : RelayBucket) : bool :=
  ((RELAY_FAIL_MIN <=? resolve_fail b) && (domain_ok b <? resolve_fail b))
  || ((RELAY_FAIL_MIN <=? connect_fail b) && (total_ok b <? connect_fail b)).

Definition degraded (now : Z) (w : RelayWindow) : RelayWindow * bool :=
  let w := rotate now w in
  (w, bucket_degraded (window_sums w)).

Definition RelayHealth_reset (now : Z) (w : RelayWindow) : RelayWindow := RelayHealth_new now.

(** ** The events behind the counters *)

Inductive RelayEvent := EvSuccess (domain : bool) | EvResolveFail | EvConnectFail.

(** A call on the window, with the time it is made at. *)
Inductive RelayOp := OpRecord (e : RelayEvent) | OpDegraded | OpReset.

Definition relay_op (now : Z) (o : RelayOp) (w : RelayWindow) : RelayWindow :=
  match o with
  | OpRecord (EvSuccess d) => record_success now d w
  | OpRecord EvResolveFail => record_resolve_fail now w
  | OpRecord EvConnectFail => record_connect_fail now w
  | OpDegraded => (degraded now w).1
  | OpReset => RelayHealth_reset now w
  end.

(** The history since the last reset, newest first. *)
Abbreviation history := (list (Z * RelayEvent)).

Definition relay_history (now : Z) (o : RelayOp) (h : history) : history :=
  match o with
  | OpRecord e => (now, e) :: h
  | OpDegraded => h
  | OpReset => []
  end.

Fixpoint relay_run (t0 : Z) (ops : list (Z * RelayOp)) : RelayWindow * history :=
  match ops with
  | [] => (RelayHealth_new t0, [])
  | (t, o) :: ops' => let '(w, h) := relay_run t0 ops' in (relay_op t o w, relay_history t o h)
  end.

(** Exact counts of a list of events. *)
Definition ev_domain (e : Z * RelayEvent) : bool := match e.2 with EvSuccess d => d | _ => false end.
Definition ev_success (e : Z * RelayEvent) : bool := match e.2 with EvSuccess _ => true | _ => false end.
Definition ev_resolve (e : Z * RelayEvent) : bool := match e.2 with EvResolveFail => true | _ => false end.
Definition ev_connect (e : Z * RelayEvent) : bool := match e.2 with EvConnectFail => true | _ => false end.

Fixpoint count (p : Z * RelayEvent -> bool) (h : history) : Z :=
  match h with [] => 0 | e :: h' => (if p e then 1 else 0) + count p h' end.

Definition bucket_of (h : history) : RelayBucket :=
  {| domain_ok := u32 (count ev_domain h); total_ok := u32 (count ev_success h);
     resolve_fail := u32 (count ev_resolve h); connect_fail := u32 (count ev_connect h) |}.

Lemma count_app p h1 h2 : count p (h1 ++ h2) = count p h1 + count p h2.
Proof. induction h1 as [| e h IH]; simpl; [done | rewrite IH; lia]. Qed.

Lemma count_range p h : 0 <= count p h <= zlen h.
Proof.
  induction h as [| e h IH]; simpl; [done |]. rewrite zlen_cons. destruct (p e); lia.
Qed.

Lemma u32_add_l a b : u32 (u32 a + b) = u32 (a + b).
Proof. unfold u32. by rewrite Zplus_mod_idemp_l. Qed.

Lemma u32_add a b : u32 (u32 a + u32 b) = u32 (a + b).
Proof. unfold u32. by rewrite <- Zplus_mod. Qed.

(** The history is the events of the current bucket, then those of the previous
    one, then the forgotten ones. *)
Definition window_inv (now : Z) (w : RelayWindow) (h : history) : Prop :=
  cur_start w <= now /\
  exists hc hp ho, h = hc ++ hp ++ ho /\
    cur w = bucket_of hc /\ prev w = bucket_of hp /\
    Forall (fun e => cur_start w <= e.1 < cur_start w + RELAY_WINDOW /\ e.1 <= now) hc /\
    Forall (fun e => cur_start w - 2 * RELAY_WINDOW < e.1 <= cur_start w) hp /\
    Forall (fun e => e.1 <= cur_start w - RELAY_WINDOW) ho.

(** A bound on the times of a list of events from another one. *)
Ltac by_times F := eapply Forall_impl; [exact F |]; simpl; unfold RELAY_WINDOW in *; intros; lia.

Lemma window_inv_new now : window_inv now (RelayHealth_new now) [].
Proof. split; [simpl; lia |]. exists [], [], []. split_and!; done || constructor. Qed.

Lemma window_inv_mono t1 t2 w h : t1 <= t2 -> window_inv t1 w h -> window_inv t2 w h.
Proof.
  intros Ht (Hs & hc & hp & ho & -> & Hc & Hp & Fc & Fp & Fo). split; [lia |].
  exists hc, hp, ho. split_and!; try done. by_times Fc.
Qed.

(** Rotation keeps the invariant and leaves a fresh bucket. *)
Lemma rotate_inv now w h :
  window_inv now w h -> window_inv now (rotate now w) h /\ now - cur_start (rotate now w) < RELAY_WINDOW.
Proof.
  intros (Hs & hc & hp & ho & -> & Hc & Hp & Fc & Fp & Fo). unfold rotate, elapsed, RELAY_WINDOW in *.
  rewrite Z.max_r by lia. case_cmp.
  { split; [| done]. split; [done |]. exists hc, hp, ho. done. }
  cbn [cur_start]. split; [| lia]. split; [simpl; lia |]. cbn [cur_start cur prev]. case_cmp.
  - exists [], hc, (hp ++ ho). split_and!; try done; [| apply Forall_app; split].
    + by_times Fc.
    + by_times Fp.
    + by_times Fo.
  - exists [], [], (hc ++ hp ++ ho). split_and!; try done. rewrite !Forall_app. split_and!.
    + by_times Fc.
    + by_times Fp.
    + by_times Fo.
Qed.

(** Counting one event in the current bucket. *)
Lemma record_inv now e w h :
  window_inv now w h -> window_inv now (relay_op now (OpRecord e) w) ((now, e) :: h).
Proof.
  intros Hi. destruct (rotate_inv now w h Hi) as [(Hs & hc & hp & ho & -> & Hc & Hp & Fc & Fp & Fo) Hf].
  assert (Fc' : Forall (fun x => cur_start (rotate now w) <= x.1 < cur_start (rotate now w) + RELAY_WINDOW
    /\ x.1 <= now) ((now, e) :: hc)) by (constructor; [simpl; unfold RELAY_WINDOW in *; lia | done]).
  destruct e as [d | |]; cbn [relay_op]; unfold record_success, record_resolve_fail, record_connect_fail;
    (split; [done |]); cbn [with_cur cur_start cur prev]; eexists (_ :: hc), hp, ho;
    (split_and!; [done | | done | exact Fc' | done | done]);
    rewrite Hc; unfold bucket_of; cbn [count ev_domain ev_success ev_resolve ev_connect snd
      domain_ok total_ok resolve_fail connect_fail];
    rewrite ?u32_add_l, ?Z.add_0_l; f_equal; try (f_equal; lia).
  destruct d; f_equal; lia.
Qed.

Lemma relay_op_inv now o w h :
  window_inv now w h -> window_inv now (relay_op now o w) (relay_history now o h).
Proof.
  intros Hi. destruct o as [e | |].
  - by apply record_inv.
  - by apply rotate_inv.
  - apply window_inv_new.
Qed.

(** Times of a call sequence (newest first) do not decrease. *)
Fixpoint ordered (t0 : Z) (ops : list (Z * RelayOp)) : Prop :=
  match ops with
  | [] => True
  | (t, _) :: ops' => match ops' with [] => t0 <= t | (t', _) :: _ => t' <= t end /\ ordered t0 ops'
  end.

Definition last_time (t0 : Z) (ops : list (Z * RelayOp)) : Z :=
  match ops with [] => t0 | (t, _) :: _ => t end.

Lemma relay_run_inv t0 ops :
  ordered t0 ops -> window_inv (last_time t0 ops) (relay_run t0 ops).1 (relay_run t0 ops).2.
Proof.
  induction ops as [| [t o] ops IH]; [intros _; apply window_inv_new |].
  intros [Ht Ho]. specialize (IH Ho). cbn [relay_run last_time].
  destruct (relay_run t0 ops) as [w h]. cbn [fst snd] in *.
  apply relay_op_inv. eapply window_inv_mono; [| exact IH].
  destruct ops as [| [t' o'] ops']; done.
Qed.

(** The events newer than [t]. *)
Definition newer (t : Z) (h : history) : history := filter (fun e => t < e.1) h.

Lemma count_newer_all p t h : Forall (fun e => t < e.1) h -> count p (newer t h) = count p h.
Proof.
  unfold newer. induction 1 as [| e h He Hh IH]; [done |]. rewrite filter_cons_True by done. simpl. lia.
Qed.

Lemma count_newer_none p t h : Forall (fun e => e.1 <= t) h -> count p (newer t h) = 0.
Proof.
  unfold newer. induction 1 as [| e h He Hh IH]; [done |]. rewrite filter_cons_False by lia. done.
Qed.

Lemma count_newer_le p t h : count p (newer t h) <= count p h.
Proof.
  unfold newer. induction h as [| e h IH]; [done |]. rewrite filter_cons. case_decide; simpl; destruct (p e); lia.
Qed.

Lemma newer_app t h1 h2 : newer t (h1 ++ h2) = newer t h1 ++ newer t h2.
Proof. apply filter_app. Qed.

(** What the sums count lies between the events of the last window and those of
    the last three. *)
Lemma window_sums_bounds now w h p proj :
  window_inv now w h -> zlen h < 2 ^ 32 ->
  (forall l, proj (bucket_of l) = u32 (count p l)) ->
  (forall w, proj (window_sums w) = u32 (proj (cur w) + proj (prev w))) ->
  count p (newer (now - RELAY_WINDOW) h) <= proj (window_sums (rotate now w))
    <= count p (newer (now - 3 * RELAY_WINDOW) h).
Proof.
  intros Hi Hlen Hb Hs. destruct (rotate_inv now w h Hi) as [(Hle & hc & hp & ho & -> & Hc & Hp & Fc & Fp & Fo) Hf].
  rewrite Hs, Hc, Hp, !Hb, u32_add, !newer_app, !count_app.
  rewrite !zlen_app in Hlen. pose proof (count_range p hc). pose proof (count_range p hp).
  pose proof (count_range p ho). pose proof (zlen_nonneg ho).
  assert (u32 (count p hc + count p hp) = count p hc + count p hp) as ->
    by (unfold u32; apply Z.mod_small; lia).
  rewrite (count_newer_all p (now - 3 * RELAY_WINDOW) hc), (count_newer_all p (now - 3 * RELAY_WINDOW) hp).
  - rewrite (count_newer_none p (now - RELAY_WINDOW) ho).
    + pose proof (count_newer_le p (now - RELAY_WINDOW) hc). pose proof (count_newer_le p (now - RELAY_WINDOW) hp).
      pose proof (count_range p (newer (now - 3 * RELAY_WINDOW) ho)). lia.
    + by_times Fo.
  - by_times Fp.
  - by_times Fc.
Qed.

(** ** Claims *)

(** Over any sequence of calls, the counters the degradation test uses count every
    event of the last 30 seconds since the last reset and none older than 90. *)
Theorem relay_window_counts (t0 now : Z) (ops : list (Z * RelayOp)) :
  ordered t0 ((now, OpDegraded) :: ops) -> zlen ops < 2 ^ 32 ->
  let '(w, h) := relay_run t0 ops in
  let s := window_sums (rotate now w) in
  let lo := newer (now - RELAY_WINDOW) h in
  let hi := newer (now - 3 * RELAY_WINDOW) h in
  (degraded now w).2 = bucket_degraded s /\
  count ev_domain lo <= domain_ok s <= count ev_domain hi /\
  count ev_success lo <= total_ok s <= count ev_success hi /\
  count ev_resolve lo <= resolve_fail s <= count ev_resolve hi /\
  count ev_connect lo <= connect_fail s <= count ev_connect hi.
Proof.
  intros [Ht Ho] Hlen. pose proof (relay_run_inv t0 ops Ho) as Hi.
  assert (Hh : zlen (relay_run t0 ops).2 <= zlen ops).
  { clear. induction ops as [| [t o] ops IH]; [done |]. cbn [relay_run].
    destruct (relay_run t0 ops) as [w h]. cbn [snd] in *. rewrite zlen_cons.
    destruct o; cbn [relay_history]; rewrite ?zlen_cons, ?zlen_nil; zlen_lia. }
  destruct (relay_run t0 ops) as [w h]. cbn [fst snd] in *.
  apply (window_inv_mono _ now) in Hi; [| by destruct ops as [| [? ?] ?]].
  split; [done |]. split_and!; eapply window_sums_bounds; done || lia.
Qed.

Definition ex_relay_ops : list (Z * RelayOp) :=
  rev (map (fun i => (i, OpRecord EvResolveFail)) [0; 1; 2; 3; 4] ++ [(59000, OpDegraded)]).

Lemma relay_window_counts_witness :
  resolve_fail (window_sums (rotate 88000 (relay_run 0 ex_relay_ops).1)) <=
  count ev_resolve (newer (88000 - 3 * RELAY_WINDOW) (relay_run 0 ex_relay_ops).2).
Proof.
  apply (relay_window_counts 0 88000 ex_relay_ops).
  - cbn. lia.
  - vm_compute. reflexivity.
Defined.

(** Failures can stay in the picture for almost 90 seconds, longer than the 30 to 60
    that the two buckets are documented to keep: the buckets rotate lazily. *)
Theorem relay_window_outlives_doc :
  (degraded 88000 (relay_run 0 ex_relay_ops).1).2 = true /\
  newer (88000 - 2 * RELAY_WINDOW) (relay_run 0 ex_relay_ops).2 = [].
Proof. split; reflexivity. Qed.
