(* ===== verification/Chan.v ===== *)
(** * Bounded channels

    What the sources use of [tokio::sync::mpsc]: a FIFO of at most [cap]
    messages with a sending and a receiving side. The receiver is gone when it
    was dropped, the senders are gone when the last clone was dropped. *)

From S2P Require Import Prelude.

Record Chan (A : Type) := {
  queue : list A;
  cap : Z;
  rx_gone : bool;
  tx_gone : bool
}.
Arguments queue {A} _.
Arguments cap {A} _.
Arguments rx_gone {A} _.
Arguments tx_gone {A} _.

Inductive TrySend (A : Type) := Sent (c : Chan A) | Full | Closed.
Arguments Sent {A} _.
Arguments Full {A}.
Arguments Closed {A}.

Inductive Recv (A : Type) := Msg (m : A) (c : Chan A) | Ended | Pending.
Arguments Msg {A} _ _.
Arguments Ended {A}.
Arguments Pending {A}.

Section chan.
Context {A : Type}.
Implicit Types (c : Chan A) (m : A).

Definition channel (n : Z) : Chan A :=
  {| queue := []; cap := n; rx_gone := false; tx_gone := false |}.

Definition with_queue c (q : list A) : Chan A :=
  {| queue := q; cap := cap c; rx_gone := rx_gone c; tx_gone := tx_gone c |}.

(** [Sender::try_send]; a blocking [send] is the same step, retried while it
    reports [Full]. *)
Definition try_send c m : TrySend A :=
  if rx_gone c then Closed
  else if zlen (queue c) <? cap c then Sent (with_queue c (queue c ++ [m]))
  else Full.

(** One poll of [Receiver::recv]. *)
Definition poll_recv c : Recv A :=
  match queue c with
  | m :: q => Msg m (with_queue c q)
  | [] => if tx_gone c then Ended else Pending
  end.

Definition drop_tx c : Chan A :=
  {| queue := queue c; cap := cap c; rx_gone := rx_gone c; tx_gone := true |}.

(** Dropping the receiver discards what it did not take. *)
Definition drop_rx c : Chan A :=
  {| queue := []; cap := cap c; rx_gone := true; tx_gone := tx_gone c |}.

Definition chan_ok c : Prop := zlen (queue c) <= cap c.

Lemma try_send_sent c m c' :
  try_send c m = Sent c' ->
  c' = with_queue c (queue c ++ [m]) /\ rx_gone c = false /\ zlen (queue c) < cap c.
Proof.
  unfold try_send. destruct (rx_gone c); [done |]. case_cmp; [| done]. by intros [= <-].
Qed.

Lemma try_send_ok c m c' : chan_ok c -> try_send c m = Sent c' -> chan_ok c'.
Proof.
  unfold chan_ok. intros Hc (-> & _ & Hl)%try_send_sent. simpl. rewrite zlen_app.
  change (zlen [m]) with 1. lia.
Qed.

Lemma poll_recv_ok c m c' : chan_ok c -> poll_recv c = Msg m c' -> chan_ok c'.
Proof.
  unfold chan_ok, poll_recv. destruct (queue c) as [| x q] eqn:E; [by destruct (tx_gone c) |].
  intros Hc [= <- <-]. simpl. rewrite zlen_cons in Hc. lia.
Qed.

Lemma poll_recv_msg c m c' :
  poll_recv c = Msg m c' -> queue c = m :: queue c' /\ c' = with_queue c (queue c').
Proof.
  unfold poll_recv. destruct (queue c) as [| x q] eqn:E; [by destruct (tx_gone c) |].
  by intros [= <- <-].
Qed.

Lemma channel_ok n : 0 <= n -> chan_ok (channel n).
Proof. done. Qed.

End chan.
