(* ===== verification/Mux.v ===== *)
(** * The multiplexer (xr-proto/src/mux.rs)

    One endpoint of a multiplexed connection: its queues, its registered
    streams and the handles of the streams. What the source shares through
    [Arc] between a [StreamEntry] and the handles of its stream (the send
    window, the data channel, the close reason) is a cell of the endpoint,
    named by a number that both hold. An [async] operation is the step it
    takes when it is polled; a step that has to wait leaves the state as it
    was. *)

From S2P Require Import Prelude Protocol RelayHealth Chan.

(** ** Constants *)

Definition STREAM_CHANNEL_SIZE : Z := 1024.
Definition WRITER_CHANNEL_SIZE : Z := 2048.
Definition NEW_STREAM_CHANNEL_SIZE : Z := 1024.
Definition CTRL_CHANNEL_SIZE : Z := 1024.
Definition KEEPALIVE_INTERVAL : Z := 30 * 1000.
Definition MUX_MAX_LIFETIME : Z := 4 * 3600 * 1000.
Definition DEAD_LINK_TIMEOUT : Z := 75 * 1000.
Definition MUX_PROTOCOL_VERSION : Z := 1.
Definition MUX_FLAG_WINDOW : Z := 0x01.
Definition STREAM_RECV_WINDOW : Z := 1024 * 1024.
Definition WINDOW_UPDATE_THRESHOLD : Z := STREAM_RECV_WINDOW / 2.
Definition SEND_CHUNK_MAX : Z := MAX_PAYLOAD_LEN - 4.
Definition IO_WRITE_CHUNK : Z := 16 * 1024.

(** ** Capabilities *)

Record MuxCaps := { caps_window : bool }.

Definition MuxCaps_LOCAL : MuxCaps := {| caps_window := true |}.

Definition to_flags (c : MuxCaps) : Z := if caps_window c then MUX_FLAG_WINDOW else 0.

Definition from_flags (flags : Z) : MuxCaps :=
  {| caps_window := negb (Z.land flags MUX_FLAG_WINDOW =? 0) |}.

(** ** Outgoing frames and windows *)

Record OutFrame := { out_stream_id : Z; out_command : Command; out_payload : bytes }.

Record SendWindow := { credit : Z; window_closed : bool }.

Definition SendWindow_new (initial : Z) : SendWindow :=
  {| credit := initial; window_closed := false |}.

Definition mux_broken : io_error := IoError BrokenPipe (str "mux stream closed").

(** The compare-and-exchange loop ends with one atomic step. *)
Definition try_acquire (w : SendWindow) (want : Z) : io_result Z * SendWindow :=
  if window_closed w then (Err mux_broken, w)
  else if credit w <=? 0 then (Ok 0, w)
  else let take := Z.min (credit w) want in
       (Ok take, {| credit := credit w - take; window_closed := window_closed w |}).

(** [saturating_add] on an [i64]. *)
Definition SendWindow_add (w : SendWindow) (n : Z) : SendWindow :=
  {| credit := Z.min I64_MAX (credit w + n); window_closed := window_closed w |}.

Definition SendWindow_close (w : SendWindow) : SendWindow :=
  {| credit := credit w; window_closed := true |}.

(** ** The endpoint *)

(** What an entry shares with the handles of its stream. *)
Record Cell := { window : SendWindow; data_ch : Chan bytes; close_reason : Z }.

Record StreamEntry := { entry_cell : nat; got_data : bool; domain : bool }.

Record NewStream := { new_stream_id : Z; new_payload : bytes }.

Record Multiplexer := {
  writer_ch : Chan OutFrame;
  ctrl_ch : Chan OutFrame;
  streams : gmap Z StreamEntry;
  next_stream_id : Z;
  alive : bool;
  new_stream_ch : Chan NewStream;
  shutdown_permit : bool;
  caps : MuxCaps;
  cells : gmap nat Cell;
  next_cell : nat;
  relay_health : option RelayWindow
}.

Definition set_writer (m : Multiplexer) (c : Chan OutFrame) : Multiplexer :=
  {| writer_ch := c; ctrl_ch := ctrl_ch m; streams := streams m; next_stream_id := next_stream_id m;
     alive := alive m; new_stream_ch := new_stream_ch m; shutdown_permit := shutdown_permit m;
     caps := caps m; cells := cells m; next_cell := next_cell m; relay_health := relay_health m |}.

Definition set_ctrl (m : Multiplexer) (c : Chan OutFrame) : Multiplexer :=
  {| writer_ch := writer_ch m; ctrl_ch := c; streams := streams m; next_stream_id := next_stream_id m;
     alive := alive m; new_stream_ch := new_stream_ch m; shutdown_permit := shutdown_permit m;
     caps := caps m; cells := cells m; next_cell := next_cell m; relay_health := relay_health m |}.

Definition set_streams (m : Multiplexer) (s : gmap Z StreamEntry) : Multiplexer :=
  {| writer_ch := writer_ch m; ctrl_ch := ctrl_ch m; streams := s; next_stream_id := next_stream_id m;
     alive := alive m; new_stream_ch := new_stream_ch m; shutdown_permit := shutdown_permit m;
     caps := caps m; cells := cells m; next_cell := next_cell m; relay_health := relay_health m |}.

Definition set_cells (m : Multiplexer) (c : gmap nat Cell) : Multiplexer :=
  {| writer_ch := writer_ch m; ctrl_ch := ctrl_ch m; streams := streams m; next_stream_id := next_stream_id m;
     alive := alive m; new_stream_ch := new_stream_ch m; shutdown_permit := shutdown_permit m;
     caps := caps m; cells := c; next_cell := next_cell m; relay_health := relay_health m |}.

Definition set_alive (m : Multiplexer) (b : bool) : Multiplexer :=
  {| writer_ch := writer_ch m; ctrl_ch := ctrl_ch m; streams := streams m; next_stream_id := next_stream_id m;
     alive := b; new_stream_ch := new_stream_ch m; shutdown_permit := shutdown_permit m;
     caps := caps m; cells := cells m; next_cell := next_cell m; relay_health := relay_health m |}.

Definition set_new_stream (m : Multiplexer) (c : Chan NewStream) : Multiplexer :=
  {| writer_ch := writer_ch m; ctrl_ch := ctrl_ch m; streams := streams m; next_stream_id := next_stream_id m;
     alive := alive m; new_stream_ch := c; shutdown_permit := shutdown_permit m;
     caps := caps m; cells := cells m; next_cell := next_cell m; relay_health := relay_health m |}.

Definition set_permit (m : Multiplexer) (b : bool) : Multiplexer :=
  {| writer_ch := writer_ch m; ctrl_ch := ctrl_ch m; streams := streams m; next_stream_id := next_stream_id m;
     alive := alive m; new_stream_ch := new_stream_ch m; shutdown_permit := b;
     caps := caps m; cells := cells m; next_cell := next_cell m; relay_health := relay_health m |}.

Definition set_health (m : Multiplexer) (h : option RelayWindow) : Multiplexer :=
  {| writer_ch := writer_ch m; ctrl_ch := ctrl_ch m; streams := streams m; next_stream_id := next_stream_id m;
     alive := alive m; new_stream_ch := new_stream_ch m; shutdown_permit := shutdown_permit m;
     caps := caps m; cells := cells m; next_cell := next_cell m; relay_health := h |}.

(** Allocates the shared cell of a new stream, and the next stream id. *)
Definition alloc_cell (m : Multiplexer) (c : Cell) : Multiplexer :=
  {| writer_ch := writer_ch m; ctrl_ch := ctrl_ch m; streams := streams m; next_stream_id := next_stream_id m;
     alive := alive m; new_stream_ch := new_stream_ch m; shutdown_permit := shutdown_permit m;
     caps := caps m; cells := <[next_cell m := c]> (cells m); next_cell := S (next_cell m);
     relay_health := relay_health m |}.

Definition bump_stream_id (m : Multiplexer) : Multiplexer :=
  {| writer_ch := writer_ch m; ctrl_ch := ctrl_ch m; streams := streams m;
     next_stream_id := u32 (next_stream_id m + 2);
     alive := alive m; new_stream_ch := new_stream_ch m; shutdown_permit := shutdown_permit m;
     caps := caps m; cells := cells m; next_cell := next_cell m; relay_health := relay_health m |}.

Definition update_cell (m : Multiplexer) (i : nat) (f : Cell -> Cell) : Multiplexer :=
  set_cells m (alter f i (cells m)).

Definition new_inner (first_stream_id : Z) (health : option RelayWindow) (c : MuxCaps) : Multiplexer :=
  {| writer_ch := channel WRITER_CHANNEL_SIZE; ctrl_ch := channel CTRL_CHANNEL_SIZE;
     streams := ∅; next_stream_id := first_stream_id; alive := true;
     new_stream_ch := channel NEW_STREAM_CHANNEL_SIZE; shutdown_permit := false;
     caps := c; cells := ∅; next_cell := 0; relay_health := health |}.

Definition new_client (c : MuxCaps) : Multiplexer := new_inner 1 None c.
Definition new_client_tracked (health : RelayWindow) (c : MuxCaps) : Multiplexer := new_inner 1 (Some health) c.
Definition new_server (c : MuxCaps) : Multiplexer := new_inner 2 None c.

(** ** Dropping an entry

    [Drop for StreamEntry] closes the window; the entry's sender of the data
    channel goes with it. *)

Definition drop_entry_cell (c : Cell) : Cell :=
  {| window := SendWindow_close (window c); data_ch := drop_tx (data_ch c); close_reason := close_reason c |}.

Definition drop_entry (m : Multiplexer) (e : StreamEntry) : Multiplexer :=
  update_cell m (entry_cell e) drop_entry_cell.

Definition remove_stream (m : Multiplexer) (stream_id : Z) : Multiplexer :=
  match streams m !! stream_id with
  | None => m
  | Some e => drop_entry (set_streams m (delete stream_id (streams m))) e
  end.

(** [HashMap::insert]: an entry under the same id is dropped. *)
Definition insert_stream (m : Multiplexer) (stream_id : Z) (e : StreamEntry) : Multiplexer :=
  let m := remove_stream m stream_id in
  set_streams m (<[stream_id := e]> (streams m)).

(** [streams.clear()]. *)
Definition clear_streams (m : Multiplexer) : Multiplexer :=
  foldr (fun i m => remove_stream m i) m (map_to_list (streams m)).*1.

(** ** Credit back to the peer *)

Record RecvCredit := { rc_stream_id : Z; rc_pending : Z }.

Definition RecvCredit_frame (r : RecvCredit) : OutFrame :=
  {| out_stream_id := rc_stream_id r; out_command := WindowUpdate; out_payload := be32 (rc_pending r) |}.

Definition consumed (m : Multiplexer) (r : RecvCredit) (n : Z) : Multiplexer * RecvCredit :=
  let r := {| rc_stream_id := rc_stream_id r; rc_pending := sat_add U32_MAX (rc_pending r) (u32 n) |} in
  if rc_pending r <? WINDOW_UPDATE_THRESHOLD then (m, r) else
  let sent := {| rc_stream_id := rc_stream_id r; rc_pending := 0 |} in
  match try_send (ctrl_ch m) (RecvCredit_frame r) with
  | Sent c => (set_ctrl m c, sent)
  | _ =>
      match try_send (writer_ch m) (RecvCredit_frame r) with
      | Sent c => (set_writer m c, sent)
      | _ => (m, r)
      end
  end.

Definition consumed_opt (m : Multiplexer) (r : option RecvCredit) (n : Z) : Multiplexer * option RecvCredit :=
  match r with
  | None => (m, None)
  | Some r => let '(m, r) := consumed m r n in (m, Some r)
  end.

Definition new_send_window (m : Multiplexer) : SendWindow :=
  SendWindow_new (if caps_window (caps m) then STREAM_RECV_WINDOW else I64_MAX).

Definition new_recv_credit (m : Multiplexer) (stream_id : Z) : option RecvCredit :=
  if caps_window (caps m) then Some {| rc_stream_id := stream_id; rc_pending := 0 |} else None.

Definition new_cell (m : Multiplexer) : Cell :=
  {| window := new_send_window m; data_ch := channel STREAM_CHANNEL_SIZE; close_reason := 0 |}.

(** ** Stream handles *)

Record MuxStream := {
  ms_stream_id : Z;
  ms_cell : nat;
  (** the receiver was not taken by [split] or [into_io] *)
  ms_has_rx : bool;
  ms_closed : bool;
  ms_detached : bool;
  ms_recv_credit : option RecvCredit
}.

Record MuxReadHalf := { rh_cell : nat; rh_recv_credit : option RecvCredit }.

Record MuxWriteHalf := { wh_stream_id : Z; wh_cell : nat; wh_closed : bool }.

Definition register_stream (m : Multiplexer) (stream_id : Z) : Multiplexer * MuxStream :=
  let i := next_cell m in
  let m := alloc_cell m (new_cell m) in
  let m := insert_stream m stream_id {| entry_cell := i; got_data := false; domain := false |} in
  (m, {| ms_stream_id := stream_id; ms_cell := i; ms_has_rx := true; ms_closed := false;
         ms_detached := false; ms_recv_credit := new_recv_credit m stream_id |}).

Inductive Poll (A : Type) := Ready (a : A) | PollPending.
Arguments Ready {A} _.
Arguments PollPending {A}.

(** One poll of the receive loop shared by [MuxStream::recv] and
    [MuxReadHalf::recv]. *)
Definition recv_cell (m : Multiplexer) (i : nat) (r : option RecvCredit) :
    Multiplexer * option RecvCredit * Poll (option bytes) :=
  match cells m !! i with
  | None => (m, r, Ready None)
  | Some c =>
      match poll_recv (data_ch c) with
      | Pending => (m, r, PollPending)
      | Ended => (m, r, Ready None)
      | Msg data ch =>
          let m := update_cell m i (fun c => {| window := window c; data_ch := ch; close_reason := close_reason c |}) in
          let '(m, r) := consumed_opt m r (zlen data) in
          (m, r, Ready (Some data))
      end
  end.

Definition with_credit (s : MuxStream) (r : option RecvCredit) : MuxStream :=
  {| ms_stream_id := ms_stream_id s; ms_cell := ms_cell s; ms_has_rx := ms_has_rx s;
     ms_closed := ms_closed s; ms_detached := ms_detached s; ms_recv_credit := r |}.

Definition MuxStream_recv (m : Multiplexer) (s : MuxStream) : Multiplexer * MuxStream * Poll (option bytes) :=
  if ms_has_rx s then
    let '(m, r, p) := recv_cell m (ms_cell s) (ms_recv_credit s) in (m, with_credit s r, p)
  else (m, s, Ready None).

Definition MuxReadHalf_recv (m : Multiplexer) (h : MuxReadHalf) : Multiplexer * MuxReadHalf * Poll (option bytes) :=
  let '(m, r, p) := recv_cell m (rh_cell h) (rh_recv_credit h) in
  (m, {| rh_cell := rh_cell h; rh_recv_credit := r |}, p).

(** One poll of a queued [send] on the bulk or the control channel. *)
Definition writer_send (m : Multiplexer) (f : OutFrame) : Multiplexer * Poll (result unit unit) :=
  match try_send (writer_ch m) f with
  | Sent c => (set_writer m c, Ready (Ok tt))
  | Full => (m, PollPending)
  | Closed => (m, Ready (Err tt))
  end.

Definition ctrl_send (m : Multiplexer) (f : OutFrame) : Multiplexer * Poll (result unit unit) :=
  match try_send (ctrl_ch m) f with
  | Sent c => (set_ctrl m c, Ready (Ok tt))
  | Full => (m, PollPending)
  | Closed => (m, Ready (Err tt))
  end.

Definition data_frame (stream_id : Z) (p : bytes) : OutFrame :=
  {| out_stream_id := stream_id; out_command := Data; out_payload := p |}.

Definition close_frame (stream_id : Z) (p : bytes) : OutFrame :=
  {| out_stream_id := stream_id; out_command := Close; out_payload := p |}.

(** [SendWindow::acquire] in one poll: [Ok 0] of [try_acquire] waits. *)
Definition acquire_cell (m : Multiplexer) (i : nat) (want : Z) : Multiplexer * Poll (io_result Z) :=
  match cells m !! i with
  | None => (m, Ready (Err mux_broken))
  | Some c =>
      let '(r, w) := try_acquire (window c) want in
      let m := update_cell m i (fun c => {| window := w; data_ch := data_ch c; close_reason := close_reason c |}) in
      match r with
      | Ok 0 => (m, PollPending)
      | _ => (m, Ready r)
      end
  end.

(** Where a [send_data] call is: before its first poll, waiting for credit with
    [off] bytes sent, or holding a granted piece that waits for a queue slot. *)
Inductive SendState :=
| SendStart
| SendEmpty
| SendAcquire (off : Z)
| SendQueue (off n : Z).

Definition err_dead : io_error := IoError BrokenPipe (str "mux connection dead").
Definition err_writer : io_error := IoError BrokenPipe (str "mux writer closed").

(** One transition of [send_data]: the new state, and [Ready] when the call
    returns. *)
Definition send_data_step (m : Multiplexer) (i : nat) (stream_id : Z) (data : bytes) (s : SendState) :
    Multiplexer * SendState * Poll (option (io_result unit)) :=
  match s with
  | SendStart =>
      if negb (alive m) then (m, s, Ready (Some (Err err_dead)))
      else if zlen data =? 0 then (m, SendEmpty, Ready None)
      else (m, SendAcquire 0, Ready None)
  | SendEmpty =>
      match writer_send m (data_frame stream_id []) with
      | (m, Ready (Ok _)) => (m, s, Ready (Some (Ok tt)))
      | (m, Ready (Err _)) => (m, s, Ready (Some (Err err_writer)))
      | (m, PollPending) => (m, s, PollPending)
      end
  | SendAcquire off =>
      if off <? zlen data then
        match acquire_cell m i (Z.min (zlen data - off) SEND_CHUNK_MAX) with
        | (m, Ready (Ok n)) => (m, SendQueue off n, Ready None)
        | (m, Ready (Err e)) => (m, s, Ready (Some (Err e)))
        | (m, PollPending) => (m, s, PollPending)
        end
      else (m, s, Ready (Some (Ok tt)))
  | SendQueue off n =>
      match writer_send m (data_frame stream_id (ztake n (zdrop off data))) with
      | (m, Ready (Ok _)) => (m, SendAcquire (off + n), Ready None)
      | (m, Ready (Err _)) => (m, s, Ready (Some (Err err_writer)))
      | (m, PollPending) => (m, s, PollPending)
      end
  end.

(** A poll of [send_data]: transitions until it waits or returns. *)
Fixpoint send_data (fuel : nat) (m : Multiplexer) (i : nat) (stream_id : Z) (data : bytes) (s : SendState) :
    Multiplexer * SendState * Poll (io_result unit) :=
  match fuel with
  | O => (m, s, PollPending)
  | S fuel =>
      match send_data_step m i stream_id data s with
      | (m, s, Ready None) => send_data fuel m i stream_id data s
      | (m, s, Ready (Some r)) => (m, s, Ready r)
      | (m, s, PollPending) => (m, s, PollPending)
      end
  end.

(** The transitions of one call are at most two per byte and three more. *)
Definition send_fuel (data : bytes) : nat := 2 * length data + 4.

Definition MuxStream_send (m : Multiplexer) (s : MuxStream) (data : bytes) (st : SendState) :=
  send_data (send_fuel data) m (ms_cell s) (ms_stream_id s) data st.

Definition MuxWriteHalf_send (m : Multiplexer) (h : MuxWriteHalf) (data : bytes) (st : SendState) :=
  send_data (send_fuel data) m (wh_cell h) (wh_stream_id h) data st.

(** The first poll of [close]: the flag is set before the frame is queued; a
    full queue leaves the frame to be sent by later polls. *)
Definition MuxStream_close (m : Multiplexer) (s : MuxStream) : Multiplexer * MuxStream * Poll unit :=
  if ms_closed s then (m, s, Ready tt) else
  let s := {| ms_stream_id := ms_stream_id s; ms_cell := ms_cell s; ms_has_rx := ms_has_rx s;
              ms_closed := true; ms_detached := ms_detached s; ms_recv_credit := ms_recv_credit s |} in
  match writer_send m (close_frame (ms_stream_id s) []) with
  | (m, Ready _) => (m, s, Ready tt)
  | (m, PollPending) => (m, s, PollPending)
  end.

Definition close_with (m : Multiplexer) (h : MuxWriteHalf) (p : bytes) : Multiplexer * MuxWriteHalf * Poll unit :=
  if wh_closed h then (m, h, Ready tt) else
  let h := {| wh_stream_id := wh_stream_id h; wh_cell := wh_cell h; wh_closed := true |} in
  match writer_send m (close_frame (wh_stream_id h) p) with
  | (m, Ready _) => (m, h, Ready tt)
  | (m, PollPending) => (m, h, PollPending)
  end.

Definition MuxWriteHalf_close (m : Multiplexer) (h : MuxWriteHalf) := close_with m h [].

Definition MuxStream_close_reason (m : Multiplexer) (s : MuxStream) : option Z :=
  match cells m !! ms_cell s with
  | None => None
  | Some c => if close_reason c =? 0 then None else Some (close_reason c)
  end.

(** [split]; [None] is the panic on a stream whose receiver was taken. *)
Definition MuxStream_split (s : MuxStream) : option (MuxReadHalf * MuxWriteHalf) :=
  if ms_has_rx s then
    Some ({| rh_cell := ms_cell s; rh_recv_credit := ms_recv_credit s |},
          {| wh_stream_id := ms_stream_id s; wh_cell := ms_cell s; wh_closed := ms_closed s |})
  else None.

Definition close_on_drop (m : Multiplexer) (stream_id : Z) : Multiplexer :=
  match try_send (writer_ch m) (close_frame stream_id []) with
  | Sent c => set_writer m c
  | _ => m
  end.

Definition drop_receiver (m : Multiplexer) (i : nat) : Multiplexer :=
  update_cell m i (fun c => {| window := window c; data_ch := drop_rx (data_ch c); close_reason := close_reason c |}).

Definition MuxStream_drop (m : Multiplexer) (s : MuxStream) : Multiplexer :=
  let m := if ms_detached s then m
           else if negb (ms_closed s) && alive m then close_on_drop m (ms_stream_id s) else m in
  if ms_has_rx s then drop_receiver m (ms_cell s) else m.

Definition MuxReadHalf_drop (m : Multiplexer) (h : MuxReadHalf) : Multiplexer := drop_receiver m (rh_cell h).

Definition MuxWriteHalf_drop (m : Multiplexer) (h : MuxWriteHalf) : Multiplexer :=
  if negb (wh_closed h) && alive m then close_on_drop m (wh_stream_id h) else m.

(** ** Frames sent by the owner of the connection *)

(** One poll of [send_frame]; the two-second timeout only logs. *)
Definition send_frame (m : Multiplexer) (stream_id : Z) (c : Command) (p : bytes) :
    Multiplexer * Poll (io_result unit) :=
  match ctrl_send m {| out_stream_id := stream_id; out_command := c; out_payload := p |} with
  | (m, Ready (Ok _)) => (m, Ready (Ok tt))
  | (m, Ready (Err _)) => (m, Ready (Err err_writer))
  | (m, PollPending) => (m, PollPending)
  end.

Definition send_stream_close (m : Multiplexer) (stream_id : Z) (p : bytes) : Multiplexer * Poll (io_result unit) :=
  match writer_send m (close_frame stream_id p) with
  | (m, Ready (Ok _)) => (m, Ready (Ok tt))
  | (m, Ready (Err _)) => (m, Ready (Err err_writer))
  | (m, PollPending) => (m, PollPending)
  end.

Definition shutdown (m : Multiplexer) : Multiplexer := set_permit (set_alive m false) true.
