(* ===== verification/MuxTasks.v ===== *)
(** * The tasks of a multiplexer (xr-proto/src/mux.rs)

    The dispatch of a received frame, the reader and the writer task, the
    handshake and the opening of a stream. The outer [option] is the panic of
    an out-of-range read. *)

From S2P Require Import Prelude Obfuscation Protocol RelayHealth Chan Mux.

(** ** Dispatch *)

Definition health_record (now : Z) (m : Multiplexer) (e : RelayEvent) : Multiplexer :=
  match relay_health m with
  | None => m
  | Some w => set_health m (Some (relay_op now (OpRecord e) w))
  end.

Definition dispatch_ping (m : Multiplexer) (p : bytes) : Multiplexer :=
  match try_send (ctrl_ch m) {| out_stream_id := 0; out_command := Pong; out_payload := p |} with
  | Sent c => set_ctrl m c
  | _ => m
  end.

Definition dispatch_window_update (m : Multiplexer) (p : bytes) : option Multiplexer :=
  r ← decode_mux_payload p;
  match r with
  | Err _ => Some m
  | Ok (stream_id, inc) =>
      if 4 <=? zlen inc then
        i0 ← index inc 0; i1 ← index inc 1; i2 ← index inc 2; i3 ← index inc 3;
        let add := from_be32 i0 i1 i2 i3 in
        match streams m !! stream_id with
        | Some e => Some (update_cell m (entry_cell e) (fun c =>
            {| window := SendWindow_add (window c) add; data_ch := data_ch c; close_reason := close_reason c |}))
        | None => Some m
        end
      else Some m
  end.

(** The first Data frame of a stream counts as a relay success. *)
Definition mark_data (now : Z) (m : Multiplexer) (stream_id : Z) (e : StreamEntry) (c : Command) : Multiplexer :=
  if bool_decide (c = Data) && negb (got_data e) then
    health_record now
      (set_streams m (<[stream_id := {| entry_cell := entry_cell e; got_data := true; domain := domain e |}]> (streams m)))
      (EvSuccess (domain e))
  else m.

(** Puts a payload into the data channel of a cell; the flag says that the
    channel took it. *)
Definition push_data (m : Multiplexer) (i : nat) (d : bytes) : Multiplexer * bool :=
  match cells m !! i with
  | None => (m, false)
  | Some c =>
      match try_send (data_ch c) d with
      | Sent ch =>
          (update_cell m i (fun c => {| window := window c; data_ch := ch; close_reason := close_reason c |}), true)
      | _ => (m, false)
      end
  end.

Definition dispatch_data (now : Z) (m : Multiplexer) (c : Command) (p : bytes) : option Multiplexer :=
  r ← decode_mux_payload p;
  match r with
  | Err _ => Some m
  | Ok (stream_id, d) =>
      match streams m !! stream_id with
      | None => Some m
      | Some e =>
          let m := mark_data now m stream_id e c in
          let '(m, taken) := push_data m (entry_cell e) d in
          Some (if taken then m else remove_stream m stream_id)
      end
  end.

Definition set_reason (m : Multiplexer) (i : nat) (code : Z) : Multiplexer :=
  update_cell m i (fun c => {| window := window c; data_ch := data_ch c; close_reason := code |}).

Definition record_close_reason (now : Z) (m : Multiplexer) (code : Z) : Multiplexer :=
  if code =? CLOSE_REASON_RESOLVE_FAIL then health_record now m EvResolveFail
  else if code =? CLOSE_REASON_CONNECT_FAIL then health_record now m EvConnectFail
  else m.

(** The entry is removed first and dropped last, after its reason is
    published. *)
Definition dispatch_close (now : Z) (m : Multiplexer) (p : bytes) : option Multiplexer :=
  r ← decode_mux_payload p;
  match r with
  | Err _ => Some m
  | Ok (stream_id, reason) =>
      match streams m !! stream_id with
      | None => Some m
      | Some e =>
          let m := set_streams m (delete stream_id (streams m)) in
          let m := match reason with
                   | [] => m
                   | code :: _ => record_close_reason now (set_reason m (entry_cell e) code) code
                   end in
          Some (drop_entry m e)
      end
  end.

Definition dispatch_connect (m : Multiplexer) (p : bytes) : option Multiplexer :=
  r ← decode_mux_payload p;
  match r with
  | Err _ => Some m
  | Ok (stream_id, d) =>
      match streams m !! stream_id with
      | Some e => Some (push_data m (entry_cell e) d).1
      | None =>
          match try_send (new_stream_ch m) {| new_stream_id := stream_id; new_payload := d |} with
          | Sent c => Some (set_new_stream m c)
          | _ => Some m
          end
      end
  end.

Definition dispatch_frame (now : Z) (m : Multiplexer) (f : Frame) : option Multiplexer :=
  match command f with
  | Ping => Some (dispatch_ping m (payload f))
  | Pong => Some m
  | WindowUpdate => dispatch_window_update m (payload f)
  | Data | ConnectAck => dispatch_data now m (command f) (payload f)
  | Close => dispatch_close now m (payload f)
  | Connect => dispatch_connect m (payload f)
  | _ => Some m
  end.

(** ** Reader *)

Definition READ_BUFFER : Z := NONCE_LEN + HEADER_LEN + MAX_PADDING_LEN + MAX_PAYLOAD_LEN.

Record Reader := { filled : bytes; started : Z; last_recv : Z }.

Definition Reader_new (now : Z) : Reader := {| filled := []; started := now; last_recv := now |}.

(** How the task goes on: it reads on, or it ends with this result. *)
Inductive TaskStep := Continue | Stop (r : io_result unit).

Section tasks.
Context {AR : Arch}.

(** The loop over the complete frames of the buffer. *)
Fixpoint decode_all (fuel : nat) (codec : Codec) (now : Z) (m : Multiplexer) (buf : bytes) :
    option (Multiplexer * bytes * TaskStep) :=
  match fuel with
  | O => None
  | S fuel =>
      r ← decode_frame codec buf;
      match r with
      | Err e => Some (m, buf, Stop (Err e))
      | Ok None => Some (m, buf, Continue)
      | Ok (Some (f, consumed)) =>
          m ← dispatch_frame now m f;
          decode_all fuel codec now m (zdrop consumed buf)
      end
  end.

Definition lifetime_over (now : Z) (r : Reader) : bool := MUX_MAX_LIFETIME <=? elapsed now (started r).

Definition err_lifetime : io_error := IoError TimedOut (str "mux max lifetime reached").

(** A turn of the loop that starts at [top] and takes the [read] branch: [read]
    returned [chunk], never longer than the free part of the buffer, at [now]. *)
Definition reader_on_read (codec : Codec) (top now : Z) (m : Multiplexer) (r : Reader) (chunk : bytes) :
    option (Multiplexer * Reader * TaskStep) :=
  if lifetime_over top r then Some (m, r, Stop (Err err_lifetime))
  else if zlen chunk =? 0 then Some (m, r, Stop (Ok tt))
  else
    let buf := filled r ++ chunk in
    '(m, rest, st) ← decode_all (S (length buf)) codec now m buf;
    Some (m, {| filled := rest; started := started r; last_recv := now |}, st).

(** A turn that takes the keepalive branch at [now]; [ts] is the wall clock in
    milliseconds. *)
Definition reader_on_tick (top now ts : Z) (m : Multiplexer) (r : Reader) : Multiplexer * Reader * TaskStep :=
  if lifetime_over top r then (m, r, Stop (Err err_lifetime))
  else if DEAD_LINK_TIMEOUT <=? elapsed now (last_recv r) then
    (m, r, Stop (io_err TimedOut "mux dead link: no data within timeout"))
  else
    match try_send (ctrl_ch m) {| out_stream_id := 0; out_command := Ping; out_payload := be64 (u64 ts) |} with
    | Sent c => (set_ctrl m c, r, Continue)
    | Full => (m, r, Continue)
    | Closed => (m, r, Stop (io_err BrokenPipe "writer closed"))
    end.

(** What the task does when the reader ends: nothing is dispatched any more. *)
Definition reader_end (m : Multiplexer) : Multiplexer :=
  let m := set_new_stream m (drop_tx (new_stream_ch m)) in
  clear_streams (set_alive m false).

(** ** Writer *)

Inductive WriterStep :=
| WShutdown (m : Multiplexer)
| WFrame (f : OutFrame) (m : Multiplexer)
| WIdle
| WDrained.

(** One turn of the biased [select]: shutdown, then control, then bulk. *)
Definition writer_next (m : Multiplexer) : WriterStep :=
  if shutdown_permit m then WShutdown (set_permit m false) else
  match poll_recv (ctrl_ch m) with
  | Msg f c => WFrame f (set_ctrl m c)
  | ctrl =>
      match poll_recv (writer_ch m) with
      | Msg f c => WFrame f (set_writer m c)
      | Ended => match ctrl with Ended => WDrained | _ => WIdle end
      | Pending => WIdle
      end
  end.

(** Ping and Pong go without a stream id. *)
Definition writer_payload (f : OutFrame) : bytes :=
  match out_command f with
  | Ping | Pong => out_payload f
  | _ => encode_mux_payload (out_stream_id f) (out_payload f)
  end.

Definition writer_wire (codec : Codec) (rng : Rng) (f : OutFrame) : io_result bytes :=
  encode_frame codec rng (out_command f) (writer_payload f).

(** The task is over: the write side is shut down and both queues lose their
    receiver. *)
Definition writer_end (m : Multiplexer) : Multiplexer :=
  let m := set_ctrl m (drop_rx (ctrl_ch m)) in
  let m := set_writer m (drop_rx (writer_ch m)) in
  set_alive m false.

(** ** Handshake *)

Definition handshake_init : Frame :=
  {| command := MuxInit; payload := [MUX_PROTOCOL_VERSION; to_flags MuxCaps_LOCAL] |}.

(** The client's verdict on the first frame of the server. *)
Definition handshake_ack (f : Frame) : option (option MuxCaps) :=
  if negb (bool_decide (command f = MuxInitAck)) then Some None
  else if 2 <=? zlen (payload f) then
    status ← index (payload f) 1;
    if status =? 0 then
      let flags := default 0 (payload f !! 2%nat) in
      Some (Some (from_flags (Z.land flags (to_flags MuxCaps_LOCAL))))
    else Some None
  else Some None.

Definition HANDSHAKE_BUFFER : Z := 256.

(** One successful read of the client's loop; [None] inside means that more
    bytes are awaited. *)
Definition mux_handshake_client (codec : Codec) (buf chunk : bytes) :
    option (io_result (bytes + option MuxCaps)) :=
  if zlen chunk =? 0 then Some (io_err ConnectionReset "server closed during mux init") else
  let buf := buf ++ chunk in
  r ← decode_frame codec buf;
  match r with
  | Err e => Some (Err e)
  | Ok None => Some (Ok (inl buf))
  | Ok (Some (f, _)) => v ← handshake_ack f; Some (Ok (inr v))
  end.

(** The frame the server answers with, if any, and what it returns. *)
Definition mux_handshake_server (init_frame : Frame) : option Frame * option MuxCaps :=
  if negb (bool_decide (command init_frame = MuxInit)) then (None, None) else
  let version := default 0 (payload init_frame !! 0%nat) in
  if negb (version =? MUX_PROTOCOL_VERSION) then
    (Some {| command := MuxInitAck; payload := [version; 1] |}, None)
  else
    let peer_flags := default 0 (payload init_frame !! 1%nat) in
    let c := from_flags (Z.land peer_flags (to_flags MuxCaps_LOCAL)) in
    (Some {| command := MuxInitAck; payload := [MUX_PROTOCOL_VERSION; 0; to_flags c] |}, Some c).

End tasks.

(** ** Opening a stream *)

Record OpenState := { open_id : Z; open_cell : nat; open_payload : bytes }.

(** Up to the registration; [lock_free] says that the lock of the stream map was
    taken in time. *)
Definition open_begin (m : Multiplexer) (target : TargetAddr) (lock_free : bool) :
    Multiplexer * io_result OpenState :=
  if negb (alive m) then (m, Err err_dead) else
  match TargetAddr_encode target with
  | Err e => (m, Err e)
  | Ok connect_payload =>
      let stream_id := next_stream_id m in
      let m := bump_stream_id m in
      if negb lock_free then (m, io_err WouldBlock "mux streams lock wedged") else
      let i := next_cell m in
      let m := alloc_cell m (new_cell m) in
      let is_domain := match target with TDomain _ _ => true | _ => false end in
      let m := insert_stream m stream_id {| entry_cell := i; got_data := false; domain := is_domain |} in
      (m, Ok {| open_id := stream_id; open_cell := i; open_payload := connect_payload |})
  end.

(** The guard drops the registration, and the receiver goes with the future. *)
Definition open_abort (m : Multiplexer) (o : OpenState) : Multiplexer :=
  drop_receiver (remove_stream m (open_id o)) (open_cell o).

(** A poll while Connect is being queued; [late] says that the step timed out. *)
Definition open_connect (m : Multiplexer) (o : OpenState) (late : bool) : Multiplexer * Poll (io_result unit) :=
  match send_frame m (open_id o) Connect (open_payload o) with
  | (m, Ready (Ok _)) => (m, Ready (Ok tt))
  | (m, Ready (Err e)) => (open_abort m o, Ready (Err e))
  | (m, PollPending) =>
      if late then (open_abort m o, Ready (io_err WouldBlock "mux send_frame(Connect) wedged"))
      else (m, PollPending)
  end.

(** A poll while the answer is awaited. *)
Definition open_wait (m : Multiplexer) (o : OpenState) (late : bool) : Multiplexer * Poll (io_result MuxStream) :=
  match recv_cell m (open_cell o) None with
  | (m, _, Ready (Some _)) =>
      (m, Ready (Ok {| ms_stream_id := open_id o; ms_cell := open_cell o; ms_has_rx := true; ms_closed := false;
                       ms_detached := false; ms_recv_credit := new_recv_credit m (open_id o) |}))
  | (m, _, Ready None) => (open_abort m o, Ready (io_err BrokenPipe "mux connection died during open"))
  | (m, _, PollPending) =>
      if late then (open_abort m o, Ready (io_err TimedOut "mux connect ack timeout")) else (m, PollPending)
  end.
