(* ===== verification/MuxInv.v ===== *)
(** * The invariant of a multiplexer endpoint

    Bounded queues, one open cell per registered stream, and released cells for
    all others, kept by every operation of xr-proto/src/mux.rs. *)

From S2P Require Import Prelude Protocol RelayHealth Chan Mux MuxTasks.

Definition cell_open (c : Cell) : Prop := window_closed (window c) = false /\ tx_gone (data_ch c) = false.

(** Nobody waits on a released cell: senders fail, receivers see the end. *)
Definition cell_released (c : Cell) : Prop := window_closed (window c) = true /\ tx_gone (data_ch c) = true.

Definition chan_wf {A} (n : Z) (c : Chan A) : Prop := chan_ok c /\ cap c = n.

Definition owned (m : Multiplexer) (i : nat) : Prop :=
  exists sid e, streams m !! sid = Some e /\ entry_cell e = i.

Record mux_wf (m : Multiplexer) : Prop := {
  wf_writer : chan_wf WRITER_CHANNEL_SIZE (writer_ch m);
  wf_ctrl : chan_wf CTRL_CHANNEL_SIZE (ctrl_ch m);
  wf_new : chan_wf NEW_STREAM_CHANNEL_SIZE (new_stream_ch m);
  wf_entry : forall sid e, streams m !! sid = Some e -> exists c, cells m !! entry_cell e = Some c;
  wf_inj : forall s1 s2 e1 e2, streams m !! s1 = Some e1 -> streams m !! s2 = Some e2 ->
    entry_cell e1 = entry_cell e2 -> s1 = s2;
  wf_fresh : forall i c, cells m !! i = Some c -> (i < next_cell m)%nat;
  wf_data : forall i c, cells m !! i = Some c -> chan_wf STREAM_CHANNEL_SIZE (data_ch c);
  wf_open : forall i c, cells m !! i = Some c -> owned m i -> cell_open c;
  wf_released : forall i c, cells m !! i = Some c -> ~ owned m i -> cell_released c
}.

Lemma try_send_wf {A} n (c : Chan A) x c' : chan_wf n c -> try_send c x = Sent c' -> chan_wf n c'.
Proof.
  intros [Hok Hc] Hs. split; [by eapply try_send_ok |]. by apply try_send_sent in Hs as (-> & _ & _).
Qed.

Lemma poll_recv_wf {A} n (c : Chan A) x c' : chan_wf n c -> poll_recv c = Msg x c' -> chan_wf n c'.
Proof.
  intros [Hok Hc] Hs. split; [by eapply poll_recv_ok |]. by apply poll_recv_msg in Hs as [_ ->].
Qed.

Lemma drop_rx_wf {A} n (c : Chan A) : 0 <= n -> chan_wf n c -> chan_wf n (drop_rx c).
Proof. intros Hn [Hok Hc]. split; [| done]. unfold chan_ok, drop_rx. simpl. rewrite zlen_nil. lia. Qed.

(** ** Endpoints that differ in queues and flags only *)

Lemma wf_same m m' :
  mux_wf m -> streams m' = streams m -> cells m' = cells m -> next_cell m' = next_cell m ->
  chan_wf WRITER_CHANNEL_SIZE (writer_ch m') -> chan_wf CTRL_CHANNEL_SIZE (ctrl_ch m') ->
  chan_wf NEW_STREAM_CHANNEL_SIZE (new_stream_ch m') -> mux_wf m'.
Proof.
  intros [] Es Ec En Hw Hc Hn. constructor; try done; unfold owned in *; rewrite ?Es, ?Ec, ?En; done.
Qed.

Lemma set_writer_wf m c : mux_wf m -> chan_wf WRITER_CHANNEL_SIZE c -> mux_wf (set_writer m c).
Proof. intros Hm Hc. eapply wf_same; [exact Hm | done.. | |]; apply Hm. Qed.

Lemma set_ctrl_wf m c : mux_wf m -> chan_wf CTRL_CHANNEL_SIZE c -> mux_wf (set_ctrl m c).
Proof. intros Hm Hc. eapply wf_same; [exact Hm | done.. | | |]; try done; apply Hm. Qed.

Lemma set_new_stream_wf m c : mux_wf m -> chan_wf NEW_STREAM_CHANNEL_SIZE c -> mux_wf (set_new_stream m c).
Proof. intros Hm Hc. eapply wf_same; [exact Hm | done.. | | |]; try done; apply Hm. Qed.

Lemma set_health_wf m h : mux_wf m -> mux_wf (set_health m h).
Proof. intros Hm. eapply wf_same; [exact Hm | done.. | | |]; apply Hm. Qed.

Lemma set_alive_wf m b : mux_wf m -> mux_wf (set_alive m b).
Proof. intros Hm. eapply wf_same; [exact Hm | done.. | | |]; apply Hm. Qed.

Lemma set_permit_wf m b : mux_wf m -> mux_wf (set_permit m b).
Proof. intros Hm. eapply wf_same; [exact Hm | done.. | | |]; apply Hm. Qed.

Lemma bump_stream_id_wf m : mux_wf m -> mux_wf (bump_stream_id m).
Proof. intros Hm. eapply wf_same; [exact Hm | done.. | | |]; apply Hm. Qed.

(** ** Cells *)

(** An update that neither closes nor reopens a cell. *)
Definition cell_keeps (f : Cell -> Cell) (c : Cell) : Prop :=
  window_closed (window (f c)) = window_closed (window c) /\
  tx_gone (data_ch (f c)) = tx_gone (data_ch c) /\
  (chan_wf STREAM_CHANNEL_SIZE (data_ch c) -> chan_wf STREAM_CHANNEL_SIZE (data_ch (f c))).

Lemma lookup_update_cell m i f j c :
  cells (update_cell m i f) !! j = Some c <->
  exists c0, cells m !! j = Some c0 /\ c = if decide (i = j) then f c0 else c0.
Proof.
  unfold update_cell. cbn [cells set_cells]. case_decide as E.
  - subst. by rewrite lookup_alter_eq, fmap_Some.
  - rewrite lookup_alter_ne by done. split; [eauto | by intros (c0 & ? & ->)].
Qed.

Lemma update_cell_wf m i f :
  mux_wf m -> (forall c, cells m !! i = Some c -> cell_keeps f c) -> mux_wf (update_cell m i f).
Proof.
  intros Hm Hf. constructor; try apply Hm.
  - intros sid e He. destruct (wf_entry m Hm sid e He) as [c Hc].
    exists (if decide (i = entry_cell e) then f c else c). apply lookup_update_cell. eauto.
  - intros j c (c0 & H0 & _)%lookup_update_cell. by apply (wf_fresh m Hm j c0).
  - intros j c (c0 & H0 & ->)%lookup_update_cell. apply (wf_data m Hm) in H0 as Hd.
    case_decide; subst; [by apply (Hf c0) | done].
  - intros j c (c0 & H0 & ->)%lookup_update_cell Ho. destruct (wf_open m Hm j c0 H0 Ho) as [H1 H2].
    case_decide; subst; [| done]. destruct (Hf c0 H0) as (E1 & E2 & _). split; congruence.
  - intros j c (c0 & H0 & ->)%lookup_update_cell Ho. destruct (wf_released m Hm j c0 H0 Ho) as [H1 H2].
    case_decide; subst; [| done]. destruct (Hf c0 H0) as (E1 & E2 & _). split; congruence.
Qed.

(** ** Entries *)

Lemma unregister_wf m sid e f :
  mux_wf m -> streams m !! sid = Some e ->
  (forall c, cells m !! entry_cell e = Some c -> cell_released (f c) /\
     chan_wf STREAM_CHANNEL_SIZE (data_ch (f c))) ->
  mux_wf (update_cell (set_streams m (delete sid (streams m))) (entry_cell e) f).
Proof.
  intros Hm He Hf. set (m1 := set_streams m (delete sid (streams m))).
  assert (Hsub : forall s x, streams m1 !! s = Some x -> s <> sid /\ streams m !! s = Some x).
  { intros s x. unfold m1. cbn [streams set_streams]. rewrite lookup_delete_Some. intros [? ?]. split; congruence. }
  assert (Howned : forall j, j <> entry_cell e -> owned m j -> owned m1 j).
  { intros j Hj (s & x & Hs & Hx). exists s, x. split; [| done]. unfold m1. cbn [streams set_streams].
    rewrite lookup_delete_ne; [done |]. intros <-. congruence. }
  assert (Hnot : ~ owned m1 (entry_cell e)).
  { intros (s & x & Hs & Hx). apply Hsub in Hs as [Hne Hs]. apply Hne. by eapply wf_inj. }
  constructor; try apply Hm.
  - intros s x Hs. apply Hsub in Hs as [Hne Hs]. destruct (wf_entry m Hm s x Hs) as [c Hc].
    exists c. apply lookup_update_cell. exists c. split; [done |]. case_decide; [| done].
    exfalso. apply Hne. by eapply wf_inj.
  - intros s1 s2 e1 e2 [_ H1]%Hsub [_ H2]%Hsub. by eapply wf_inj.
  - intros j c (c0 & H0 & _)%lookup_update_cell. by apply (wf_fresh m Hm j c0).
  - intros j c (c0 & H0 & ->)%lookup_update_cell. case_decide; subst; [by apply Hf | by eapply (wf_data m)].
  - intros j c (c0 & H0 & ->)%lookup_update_cell Ho. case_decide; subst; [done |].
    eapply (wf_open m); [done | done |]. destruct Ho as (s & x & Hs & Hx). exists s, x.
    split; [| done]. by apply Hsub.
  - intros j c (c0 & H0 & ->)%lookup_update_cell Ho. case_decide; subst; [by apply Hf |].
    eapply (wf_released m); [done | done |]. intros Hm'. by apply Ho, Howned.
Qed.

Lemma remove_stream_wf m sid : mux_wf m -> mux_wf (remove_stream m sid).
Proof.
  intros Hm. unfold remove_stream. destruct (streams m !! sid) as [e |] eqn:He; [| done].
  apply unregister_wf; try done. intros c Hc. split; [done |]. by apply (wf_data m Hm) in Hc.
Qed.

Lemma remove_stream_gone m sid : streams (remove_stream m sid) !! sid = None.
Proof.
  unfold remove_stream. destruct (streams m !! sid) eqn:E; [| done]. cbn. apply lookup_delete_eq.
Qed.

Lemma remove_stream_sub m sid s e :
  streams (remove_stream m sid) !! s = Some e -> streams m !! s = Some e /\ s <> sid.
Proof.
  unfold remove_stream. destruct (streams m !! sid) eqn:E.
  - cbn. rewrite lookup_delete_Some. intros [? ?]. split; congruence.
  - intros Hs. split; [done | congruence].
Qed.

Lemma remove_stream_next m sid : next_cell (remove_stream m sid) = next_cell m.
Proof. unfold remove_stream. by destruct (streams m !! sid). Qed.

Lemma remove_stream_cell m sid i : is_Some (cells (remove_stream m sid) !! i) <-> is_Some (cells m !! i).
Proof.
  unfold remove_stream. destruct (streams m !! sid) as [e |]; [| done].
  unfold drop_entry, update_cell. cbn [cells set_cells set_streams].
  destruct (decide (entry_cell e = i)) as [<- |].
  - by rewrite lookup_alter_eq, fmap_is_Some.
  - by rewrite lookup_alter_ne.
Qed.

(** Registering an absent stream under a freshly allocated cell. *)
Lemma add_fresh_wf m m' sid e c :
  mux_wf m -> streams m !! sid = None -> entry_cell e = next_cell m -> cell_open c ->
  chan_wf STREAM_CHANNEL_SIZE (data_ch c) ->
  streams m' = <[sid := e]> (streams m) -> cells m' = <[next_cell m := c]> (cells m) ->
  next_cell m' = S (next_cell m) ->
  writer_ch m' = writer_ch m -> ctrl_ch m' = ctrl_ch m -> new_stream_ch m' = new_stream_ch m -> mux_wf m'.
Proof.
  intros Hm Hn Hi Ho Hd Es Ec En Ew Et Eb.
  assert (Hne : forall s x, streams m !! s = Some x -> entry_cell x <> next_cell m).
  { intros s x Hx E. destruct (wf_entry m Hm s x Hx) as [c0 H0]. apply (wf_fresh m Hm) in H0. lia. }
  assert (How : forall j, owned m' j <-> owned m j \/ j = next_cell m).
  { intros j. unfold owned. rewrite Es. split.
    - intros (s & x & Hs & Hj). apply lookup_insert_Some in Hs as [[-> ->] | [? Hs]];
        [right; congruence | left; eauto].
    - intros [(s & x & Hs & Hj) | ->]; [exists s, x | exists sid, e]; (split; [| done]).
      + rewrite lookup_insert_ne; [done |]. congruence.
      + apply lookup_insert_eq. }
  assert (Hfr : cells m !! next_cell m = None).
  { destruct (cells m !! next_cell m) eqn:E; [| done]. apply (wf_fresh m Hm) in E. lia. }
  constructor; rewrite ?Ew, ?Et, ?Eb, ?En; try apply Hm.
  - intros s x. rewrite Es, Ec. intros [[-> ->] | [? Hs]]%lookup_insert_Some.
    + exists c. rewrite Hi. apply lookup_insert_eq.
    + destruct (wf_entry m Hm s x Hs) as [c0 H0]. exists c0. rewrite lookup_insert_ne; [done |].
      intros E. by apply (Hne s x Hs).
  - intros s1 s2 e1 e2. rewrite Es.
    intros [[-> ->] | [? H1]]%lookup_insert_Some [[-> ->] | [? H2]]%lookup_insert_Some E; try done.
    + destruct (Hne s2 e2 H2). congruence.
    + destruct (Hne s1 e1 H1). congruence.
    + by eapply (wf_inj m).
  - intros j c0. rewrite Ec. intros [[<- _] | [? H0]]%lookup_insert_Some; [lia |].
    apply (wf_fresh m Hm) in H0. lia.
  - intros j c0. rewrite Ec. intros [[<- <-] | [? H0]]%lookup_insert_Some; [done |]. by eapply (wf_data m).
  - intros j c0. rewrite Ec, How. intros [[<- <-] | [? H0]]%lookup_insert_Some; [done |].
    intros [Hj | ->]; [by eapply (wf_open m) | done].
  - intros j c0. rewrite Ec, How. intros [[<- <-] | [? H0]]%lookup_insert_Some; [tauto |].
    intros Hj. eapply (wf_released m); [done | done | tauto].
Qed.

Lemma alloc_remove_streams m c sid : streams (remove_stream (alloc_cell m c) sid) = streams (remove_stream m sid).
Proof. unfold remove_stream. cbn [streams alloc_cell]. by destruct (streams m !! sid). Qed.

Lemma alloc_remove_cells m c sid :
  mux_wf m -> cells (remove_stream (alloc_cell m c) sid) = <[next_cell m := c]> (cells (remove_stream m sid)).
Proof.
  intros Hm. unfold remove_stream. cbn [streams alloc_cell]. destruct (streams m !! sid) as [e |] eqn:E; [| done].
  unfold drop_entry, update_cell. cbn [cells set_cells set_streams alloc_cell].
  destruct (wf_entry m Hm sid e E) as [c0 H0]. apply (wf_fresh m Hm) in H0.
  apply alter_insert_ne. lia.
Qed.

Lemma register_fresh_wf m sid e c :
  mux_wf m -> entry_cell e = next_cell m -> cell_open c -> chan_wf STREAM_CHANNEL_SIZE (data_ch c) ->
  mux_wf (insert_stream (alloc_cell m c) sid e).
Proof.
  intros Hm Hi Ho Hd. pose proof (remove_stream_wf m sid Hm) as Hr.
  pose proof (remove_stream_next m sid) as Hn.
  eapply (add_fresh_wf (remove_stream m sid) _ sid e c); try done; unfold insert_stream; cbn [streams cells set_streams].
  - apply remove_stream_gone.
  - by rewrite Hn.
  - by rewrite alloc_remove_streams.
  - by rewrite Hn, alloc_remove_cells.
  - rewrite Hn. unfold remove_stream. cbn. by destruct (streams m !! sid).
  - unfold remove_stream. cbn. by destruct (streams m !! sid).
  - unfold remove_stream. cbn. by destruct (streams m !! sid).
  - unfold remove_stream. cbn. by destruct (streams m !! sid).
Qed.

(** ** Every operation keeps the invariant *)

Create HintDb mux discriminated.
#[export] Hint Resolve set_writer_wf set_ctrl_wf set_new_stream_wf set_health_wf set_alive_wf set_permit_wf
  bump_stream_id_wf remove_stream_wf try_send_wf poll_recv_wf wf_writer wf_ctrl wf_new : mux.

Lemma new_inner_wf i h c : mux_wf (new_inner i h c).
Proof.
  constructor; cbn; try (split; [by apply channel_ok | done]); try done.
Qed.

Lemma new_cell_open m : cell_open (new_cell m) /\ chan_wf STREAM_CHANNEL_SIZE (data_ch (new_cell m)).
Proof. done. Qed.

Lemma register_stream_wf m sid : mux_wf m -> mux_wf (register_stream m sid).1.
Proof. intros Hm. by apply register_fresh_wf. Qed.

Lemma consumed_wf m r n : mux_wf m -> mux_wf (consumed m r n).1.
Proof.
  intros Hm. unfold consumed. cbv zeta. case_cmp; [done |].
  destruct (try_send (ctrl_ch m) _) eqn:E1; cbn [fst]; eauto with mux;
    destruct (try_send (writer_ch m) _) eqn:E2; cbn [fst]; eauto with mux.
Qed.

Lemma consumed_opt_wf m r n : mux_wf m -> mux_wf (consumed_opt m r n).1.
Proof.
  intros Hm. unfold consumed_opt. destruct r as [r |]; [| done].
  pose proof (consumed_wf m r n Hm). by destruct (consumed m r n).
Qed.

Lemma recv_cell_wf m i r : mux_wf m -> mux_wf (recv_cell m i r).1.1.
Proof.
  intros Hm. unfold recv_cell. destruct (cells m !! i) as [c |] eqn:Ec; [| done].
  destruct (poll_recv (data_ch c)) as [d ch | |] eqn:Ep; [| done..].
  set (m1 := update_cell _ _ _). assert (H1 : mux_wf m1).
  { apply update_cell_wf; [done |]. intros c' Hc'. assert (c' = c) as -> by congruence.
    assert (Et : tx_gone ch = tx_gone (data_ch c)) by (apply poll_recv_msg in Ep as [_ ->]; done).
    split_and!; [done | exact Et |]. intros Hw. by apply (poll_recv_wf _ _ _ _ Hw) in Ep. }
  pose proof (consumed_opt_wf m1 r (zlen d) H1). by destruct (consumed_opt m1 r (zlen d)).
Qed.

Lemma writer_send_wf m f : mux_wf m -> mux_wf (writer_send m f).1.
Proof. intros Hm. unfold writer_send. destruct (try_send _ _) eqn:E; cbn [fst]; eauto with mux. Qed.

Lemma ctrl_send_wf m f : mux_wf m -> mux_wf (ctrl_send m f).1.
Proof. intros Hm. unfold ctrl_send. destruct (try_send _ _) eqn:E; cbn [fst]; eauto with mux. Qed.

Lemma try_acquire_closed w n : window_closed (try_acquire w n).2 = window_closed w.
Proof. unfold try_acquire. by repeat case_cmp. Qed.

Lemma acquire_cell_wf m i n : mux_wf m -> mux_wf (acquire_cell m i n).1.
Proof.
  intros Hm. unfold acquire_cell. destruct (cells m !! i) as [c |] eqn:Ec; [| done].
  pose proof (try_acquire_closed (window c) n) as Hw.
  destruct (try_acquire (window c) n) as [r w]. cbn [snd] in Hw.
  set (m1 := update_cell _ _ _). assert (H1 : mux_wf m1).
  { apply update_cell_wf; [done |]. intros c' Hc'. assert (c' = c) as -> by congruence. done. }
  by destruct r as [[] |].
Qed.

Lemma send_data_step_wf m i sid d s : mux_wf m -> mux_wf (send_data_step m i sid d s).1.1.
Proof.
  intros Hm. destruct s as [| | off | off n]; cbn [send_data_step].
  - by repeat case_cmp.
  - pose proof (writer_send_wf m (data_frame sid []) Hm). by destruct (writer_send _ _) as [? [[] |]].
  - case_cmp; [| done]. pose proof (acquire_cell_wf m i (Z.min (zlen d - off) SEND_CHUNK_MAX) Hm).
    by destruct (acquire_cell _ _ _) as [? [[] |]].
  - pose proof (writer_send_wf m (data_frame sid (ztake n (zdrop off d))) Hm).
    by destruct (writer_send _ _) as [? [[] |]].
Qed.

Lemma send_data_wf fuel m i sid d s : mux_wf m -> mux_wf (send_data fuel m i sid d s).1.1.
Proof.
  revert m s. induction fuel as [| fuel IH]; intros m s Hm; [done |]. cbn [send_data].
  pose proof (send_data_step_wf m i sid d s Hm). destruct (send_data_step _ _ _ _ _) as [[m' s'] [[r |] |]]; auto.
Qed.

Lemma close_on_drop_wf m sid : mux_wf m -> mux_wf (close_on_drop m sid).
Proof. intros Hm. unfold close_on_drop. destruct (try_send _ _) eqn:E; eauto with mux. Qed.

Lemma drop_receiver_wf m i : mux_wf m -> mux_wf (drop_receiver m i).
Proof.
  intros Hm. apply update_cell_wf; [done |]. intros c Hc. split_and!; try done.
  by apply drop_rx_wf.
Qed.

#[export] Hint Resolve new_inner_wf register_stream_wf consumed_wf recv_cell_wf writer_send_wf ctrl_send_wf
  acquire_cell_wf send_data_wf close_on_drop_wf drop_receiver_wf : mux.

(** ** Dispatch *)

Lemma health_record_wf now m e : mux_wf m -> mux_wf (health_record now m e).
Proof. intros Hm. unfold health_record. destruct (relay_health m); eauto with mux. Qed.

(** Replacing an entry by one with the same cell. *)
Lemma reentry_wf m sid e e' :
  mux_wf m -> streams m !! sid = Some e -> entry_cell e' = entry_cell e ->
  mux_wf (set_streams m (<[sid := e']> (streams m))).
Proof.
  intros Hm He Hc.
  assert (Hl : forall s x, streams (set_streams m (<[sid := e']> (streams m))) !! s = Some x ->
    exists y, streams m !! s = Some y /\ entry_cell y = entry_cell x).
  { intros s x. cbn. intros [[-> ->] | [? ?]]%lookup_insert_Some; eauto. }
  assert (Ho : forall j, owned (set_streams m (<[sid := e']> (streams m))) j <-> owned m j).
  { intros j. split.
    - intros (s & x & (y & Hy & <-)%Hl & <-). by exists s, y.
    - intros (s & x & Hs & <-). destruct (decide (s = sid)) as [-> |].
      + exists sid, e'. split; [apply lookup_insert_eq | congruence].
      + exists s, x. split; [| done]. cbn. by rewrite lookup_insert_ne. }
  constructor; try apply Hm.
  - intros s x (y & Hy & <-)%Hl. by apply (wf_entry m Hm s).
  - intros s1 s2 e1 e2 (y1 & Hy1 & <-)%Hl (y2 & Hy2 & <-)%Hl. by eapply (wf_inj m).
  - intros j c. rewrite Ho. by apply (wf_open m Hm).
  - intros j c. rewrite Ho. by apply (wf_released m Hm).
Qed.

Lemma mark_data_wf now m sid e c : mux_wf m -> streams m !! sid = Some e -> mux_wf (mark_data now m sid e c).
Proof.
  intros Hm He. unfold mark_data. case_cmp; [| done]. apply health_record_wf. by eapply reentry_wf.
Qed.

Lemma push_data_wf m i d : mux_wf m -> mux_wf (push_data m i d).1.
Proof.
  intros Hm. unfold push_data. destruct (cells m !! i) as [c |] eqn:Ec; [| done].
  destruct (try_send (data_ch c) d) as [ch | |] eqn:Es; [| done..].
  apply update_cell_wf; [done |]. intros c' Hc'. assert (c' = c) as -> by congruence.
  assert (Et : tx_gone ch = tx_gone (data_ch c)) by (apply try_send_sent in Es as (-> & _); done).
  split_and!; [done | exact Et |]. intros Hw. by apply (try_send_wf _ _ _ _ Hw) in Es.
Qed.

Lemma record_close_reason_same now m code :
  streams (record_close_reason now m code) = streams m /\ cells (record_close_reason now m code) = cells m /\
  next_cell (record_close_reason now m code) = next_cell m /\ writer_ch (record_close_reason now m code) = writer_ch m /\
  ctrl_ch (record_close_reason now m code) = ctrl_ch m /\ new_stream_ch (record_close_reason now m code) = new_stream_ch m.
Proof.
  unfold record_close_reason, health_record. repeat case_cmp; destruct (relay_health m); done.
Qed.

Lemma decode_mux_payload_some p : exists r, decode_mux_payload p = Some r.
Proof. apply decode_mux_payload_total. Qed.

Lemma dispatch_window_update_wf m p :
  mux_wf m -> exists m', dispatch_window_update m p = Some m' /\ mux_wf m'.
Proof.
  intros Hm. unfold dispatch_window_update. destruct (decode_mux_payload_some p) as [r ->].
  cbn [mbind option_bind]. destruct r as [[sid inc] | e]; [| eauto].
  case_cmp; [| eauto]. do 4 step_index. destruct (streams m !! sid) as [e |]; [| eauto].
  eexists. split; [done |]. apply update_cell_wf; [done |]. by intros c Hc.
Qed.

Lemma dispatch_data_wf now m c p :
  mux_wf m -> exists m', dispatch_data now m c p = Some m' /\ mux_wf m'.
Proof.
  intros Hm. unfold dispatch_data. destruct (decode_mux_payload_some p) as [r ->].
  cbn [mbind option_bind]. destruct r as [[sid d] | e]; [| eauto].
  destruct (streams m !! sid) as [e |] eqn:He; [| eauto].
  pose proof (push_data_wf _ (entry_cell e) d (mark_data_wf now m sid e c Hm He)) as Hp.
  destruct (push_data _ _ _) as [m1 taken]. eexists. split; [done |].
  destruct taken; [done | by apply remove_stream_wf].
Qed.

Lemma dispatch_close_wf now m p :
  mux_wf m -> exists m', dispatch_close now m p = Some m' /\ mux_wf m'.
Proof.
  intros Hm. unfold dispatch_close. destruct (decode_mux_payload_some p) as [r ->].
  cbn [mbind option_bind]. destruct r as [[sid reason] | e]; [| eauto].
  destruct (streams m !! sid) as [e |] eqn:He; [| eauto]. eexists. split; [done |].
  assert (Hd : forall c, cells m !! entry_cell e = Some c -> chan_wf STREAM_CHANNEL_SIZE (data_ch c))
    by (intros c; apply (wf_data m Hm)).
  destruct reason as [| code reason].
  - apply unregister_wf; try done. intros c Hc. split; [done | exact (Hd c Hc)].
  - set (m1 := set_reason _ _ code).
    destruct (record_close_reason_same now m1 code) as (Es & Ec & En & Ew & Et & Eb).
    eapply (wf_same (drop_entry m1 e)); try done;
      unfold drop_entry, update_cell; cbn [streams cells next_cell set_cells writer_ch ctrl_ch new_stream_ch];
      rewrite ?Es, ?Ec, ?En, ?Ew, ?Et, ?Eb; try done; try apply Hm.
    eapply (wf_same (update_cell (set_streams m (delete sid (streams m))) (entry_cell e)
      (fun c => drop_entry_cell {| window := window c; data_ch := data_ch c; close_reason := code |})));
      try done; try apply Hm.
    + apply unregister_wf; try done. intros c Hc. split; [done | exact (Hd c Hc)].
    + unfold m1, set_reason, update_cell. cbn [cells set_cells set_streams].
      by rewrite alter_alter_eq.
Qed.

Lemma dispatch_connect_wf m p : mux_wf m -> exists m', dispatch_connect m p = Some m' /\ mux_wf m'.
Proof.
  intros Hm. unfold dispatch_connect. destruct (decode_mux_payload_some p) as [r ->].
  cbn [mbind option_bind]. destruct r as [[sid d] | e]; [| eauto].
  destruct (streams m !! sid) as [e |] eqn:He.
  - eexists. split; [done |]. by apply push_data_wf.
  - destruct (try_send _ _) eqn:E; eexists; (split; [done |]); eauto with mux.
Qed.

(** A received frame never panics and never blocks the reader: the dispatch is
    one step that returns a well-formed endpoint. *)
Lemma dispatch_frame_wf now m f : mux_wf m -> exists m', dispatch_frame now m f = Some m' /\ mux_wf m'.
Proof.
  intros Hm. unfold dispatch_frame.
  destruct (command f); eauto using dispatch_window_update_wf, dispatch_data_wf, dispatch_close_wf, dispatch_connect_wf.
  eexists. split; [done |]. unfold dispatch_ping. destruct (try_send _ _) eqn:E; eauto with mux.
Qed.

(** ** Tasks *)

Lemma clear_streams_wf m : mux_wf m -> mux_wf (clear_streams m).
Proof.
  intros Hm. unfold clear_streams. induction ((map_to_list (streams m)).*1) as [| i l IH]; [done |].
  simpl. by apply remove_stream_wf.
Qed.

Lemma foldr_remove_gone l m s e :
  streams (foldr (fun i m => remove_stream m i) m l) !! s = Some e -> streams m !! s = Some e /\ s ∉ l.
Proof.
  induction l as [| i l IH]; simpl; [intros H; split; [done | apply not_elem_of_nil] |].
  intros [Hs Hne]%remove_stream_sub. apply IH in Hs as [Hs Hl]. split; [done |].
  rewrite not_elem_of_cons. done.
Qed.

Lemma clear_streams_empty m : streams (clear_streams m) = ∅.
Proof.
  apply map_eq. intros s. rewrite lookup_empty. destruct (streams (clear_streams m) !! s) as [e |] eqn:E; [| done].
  apply foldr_remove_gone in E as [Hs Hn]. destruct Hn. apply list_elem_of_fmap.
  exists (s, e). split; [done |]. by apply elem_of_map_to_list.
Qed.

Lemma drop_tx_wf {A} n (c : Chan A) : chan_wf n c -> chan_wf n (drop_tx c).
Proof. done. Qed.

Lemma reader_end_wf m : mux_wf m -> mux_wf (reader_end m).
Proof.
  intros Hm. unfold reader_end. apply clear_streams_wf, set_alive_wf, set_new_stream_wf; [done |].
  apply drop_tx_wf, Hm.
Qed.

Lemma writer_end_wf m : mux_wf m -> mux_wf (writer_end m).
Proof.
  intros Hm. unfold writer_end. apply set_alive_wf, set_writer_wf; [apply set_ctrl_wf; [done |] |];
    apply drop_rx_wf; try done; apply Hm.
Qed.

Lemma reader_on_tick_wf top now ts m r : mux_wf m -> mux_wf (reader_on_tick top now ts m r).1.1.
Proof.
  intros Hm. unfold reader_on_tick. do 2 (case_cmp; [done |]).
  destruct (try_send _ _) eqn:Es; cbn [fst]; eauto with mux.
Qed.

Lemma writer_next_wf m : mux_wf m ->
  match writer_next m with WShutdown m' => mux_wf m' | WFrame _ m' => mux_wf m' | _ => True end.
Proof.
  intros Hm. unfold writer_next. destruct (shutdown_permit m); [by apply set_permit_wf |].
  destruct (poll_recv (ctrl_ch m)) eqn:Ec; [eauto with mux | |];
    (destruct (poll_recv (writer_ch m)) eqn:Ew; [eauto with mux | done..]).
Qed.

Lemma open_begin_wf m t b : mux_wf m -> mux_wf (open_begin m t b).1.
Proof.
  intros Hm. unfold open_begin. case_cmp; [done |]. destruct (TargetAddr_encode t); [| done].
  cbv zeta. case_cmp; [by apply bump_stream_id_wf |]. apply register_fresh_wf; try done.
  by apply bump_stream_id_wf.
Qed.

Lemma open_abort_wf m o : mux_wf m -> mux_wf (open_abort m o).
Proof. intros Hm. unfold open_abort. eauto with mux. Qed.

Lemma send_frame_wf m i c p : mux_wf m -> mux_wf (send_frame m i c p).1.
Proof.
  intros Hm. unfold send_frame. set (f := {| out_stream_id := _ |}).
  pose proof (ctrl_send_wf m f Hm). by destruct (ctrl_send m f) as [? [[] |]].
Qed.

Lemma open_connect_wf m o late : mux_wf m -> mux_wf (open_connect m o late).1.
Proof.
  intros Hm. unfold open_connect. pose proof (send_frame_wf m (open_id o) Connect (open_payload o) Hm).
  destruct (send_frame _ _ _ _) as [m' [[] |]]; try done; [by apply open_abort_wf |].
  destruct late; [by apply open_abort_wf | done].
Qed.

Lemma open_wait_wf m o late : mux_wf m -> mux_wf (open_wait m o late).1.
Proof.
  intros Hm. unfold open_wait. pose proof (recv_cell_wf m (open_cell o) None Hm).
  destruct (recv_cell _ _ _) as [[m' r] [[d |] |]]; try done; [by apply open_abort_wf |].
  destruct late; [by apply open_abort_wf | done].
Qed.

(** ** Reachable endpoints *)

(** One step of anything that touches an endpoint: its tasks, the owner of the
    connection, and the handles of its streams with arbitrary contents. *)
Inductive mux_step (m : Multiplexer) : Multiplexer -> Prop :=
| step_dispatch now f m' : dispatch_frame now m f = Some m' -> mux_step m m'
| step_tick top now ts r : mux_step m (reader_on_tick top now ts m r).1.1
| step_reader_end : mux_step m (reader_end m)
| step_write f m' : writer_next m = WFrame f m' -> mux_step m m'
| step_writer_shutdown m' : writer_next m = WShutdown m' -> mux_step m m'
| step_writer_end : mux_step m (writer_end m)
| step_register sid : mux_step m (register_stream m sid).1
| step_recv i r : mux_step m (recv_cell m i r).1.1
| step_send i sid d s : mux_step m (send_data_step m i sid d s).1.1
| step_writer_send f : mux_step m (writer_send m f).1
| step_send_frame sid c p : mux_step m (send_frame m sid c p).1
| step_close_on_drop sid : mux_step m (close_on_drop m sid)
| step_drop_receiver i : mux_step m (drop_receiver m i)
| step_open_begin t b : mux_step m (open_begin m t b).1
| step_open_connect o late : mux_step m (open_connect m o late).1
| step_open_wait o late : mux_step m (open_wait m o late).1
| step_shutdown : mux_step m (shutdown m).

Inductive mux_reachable : Multiplexer -> Prop :=
| reach_new i h c : mux_reachable (new_inner i h c)
| reach_step m m' : mux_reachable m -> mux_step m m' -> mux_reachable m'.

Lemma mux_step_wf m m' : mux_wf m -> mux_step m m' -> mux_wf m'.
Proof.
  intros Hm. destruct 1; eauto using reader_on_tick_wf, reader_end_wf, writer_end_wf, register_stream_wf,
    recv_cell_wf, send_data_step_wf, writer_send_wf, send_frame_wf, close_on_drop_wf, drop_receiver_wf,
    open_begin_wf, open_connect_wf, open_wait_wf.
  - destruct (dispatch_frame_wf now m f Hm) as (m1 & E & H1). congruence.
  - pose proof (writer_next_wf m Hm) as Hw. by rewrite H in Hw.
  - pose proof (writer_next_wf m Hm) as Hw. by rewrite H in Hw.
  - by apply set_permit_wf, set_alive_wf.
Qed.

Lemma mux_reachable_inv m : mux_reachable m -> mux_wf m.
Proof. induction 1; eauto using new_inner_wf, mux_step_wf. Qed.

(** ** The liveness flag only falls *)

Lemma alive_remove_stream m sid : alive (remove_stream m sid) = alive m.
Proof. unfold remove_stream. by destruct (streams m !! sid). Qed.

Lemma alive_clear_streams m : alive (clear_streams m) = alive m.
Proof. unfold clear_streams. generalize (map_to_list (streams m)).*1 as l. induction l as [| i l IH]; [done |]. cbn [foldr]. by rewrite alive_remove_stream. Qed.

Lemma alive_consumed_opt m r n : alive (consumed_opt m r n).1 = alive m.
Proof. unfold consumed_opt, consumed. destruct r; [| done]. cbv zeta. repeat case_match; simplify_eq; done. Qed.

Lemma alive_recv_cell m i r : alive (recv_cell m i r).1.1 = alive m.
Proof.
  unfold recv_cell. destruct (cells m !! i) as [c |]; [| done]. destruct (poll_recv _) as [d ch | |]; try done.
  cbv zeta. pose proof (alive_consumed_opt (update_cell m i (fun c => {| window := window c; data_ch := ch; close_reason := close_reason c |})) r (zlen d)) as H.
  destruct (consumed_opt _ _ _). exact H.
Qed.

Lemma alive_send_frame m sid c p : alive (send_frame m sid c p).1 = alive m.
Proof. unfold send_frame, ctrl_send. by destruct (try_send _ _). Qed.

Lemma alive_writer_send m f : alive (writer_send m f).1 = alive m.
Proof. unfold writer_send. by destruct (try_send _ _). Qed.


Lemma alive_health_record now m e : alive (health_record now m e) = alive m.
Proof. unfold health_record. by destruct (relay_health m). Qed.

Lemma alive_push_data m i d : alive (push_data m i d).1 = alive m.
Proof. unfold push_data. destruct (cells m !! i) as [c |]; [| done]. by destruct (try_send _ _). Qed.

Lemma alive_dispatch now m f m' : dispatch_frame now m f = Some m' -> alive m' = alive m.
Proof.
  unfold dispatch_frame, dispatch_ping, dispatch_window_update, dispatch_data, dispatch_close, dispatch_connect,
    mark_data, record_close_reason, mbind, option_bind.
  intros.
  repeat (case_match; simplify_eq/=; try done);
  repeat match goal with
    | H : push_data ?m ?i ?d = (?m', _) |- _ => pose proof (alive_push_data m i d); rewrite H in *; clear H
    end; simpl in *;
  rewrite ?alive_remove_stream, ?alive_push_data in *; try congruence; rewrite ?alive_health_record in *; try done.
Qed.

Lemma alive_open_abort m o : alive (open_abort m o) = alive m.
Proof. unfold open_abort, drop_receiver. apply alive_remove_stream. Qed.

Lemma alive_open_begin m t b : alive (open_begin m t b).1 = alive m.
Proof.
  unfold open_begin, insert_stream. destruct (negb (alive m)); [done |].
  destruct (TargetAddr_encode t) as [cp | e]; [| done]. cbv zeta. destruct (negb b); [done |]. cbn [fst alive set_streams].
  apply (alive_remove_stream (alloc_cell (bump_stream_id m) _)).
Qed.

Lemma alive_open_connect m o late : alive (open_connect m o late).1 = alive m.
Proof.
  unfold open_connect. pose proof (alive_send_frame m (open_id o) Connect (open_payload o)) as H.
  destruct (send_frame _ _ _ _) as [m1 [[u | e] |]]; cbn [fst] in *; try done; [by rewrite alive_open_abort |].
  destruct late; [by cbn [fst]; rewrite alive_open_abort | done].
Qed.

Lemma alive_open_wait m o late : alive (open_wait m o late).1 = alive m.
Proof.
  unfold open_wait. pose proof (alive_recv_cell m (open_cell o) None) as H.
  destruct (recv_cell _ _ _) as [[m1 r] [[d |] |]]; cbn [fst] in *; try done; [by rewrite alive_open_abort |].
  destruct late; [by cbn [fst]; rewrite alive_open_abort | done].
Qed.

Lemma alive_acquire_cell m i w : alive (acquire_cell m i w).1 = alive m.
Proof. unfold acquire_cell. repeat case_match; done. Qed.

Lemma alive_send_data_step m i sid d s : alive (send_data_step m i sid d s).1.1 = alive m.
Proof.
  unfold send_data_step. destruct s as [| | off | off n].
  - by repeat case_match.
  - pose proof (alive_writer_send m (data_frame sid [])) as H. by destruct (writer_send _ _) as [m1 [[u | e] |]].
  - case_match; [| done]. pose proof (alive_acquire_cell m i (Z.min (zlen d - off) SEND_CHUNK_MAX)) as Ha.
    by destruct (acquire_cell _ _ _) as [m1 [[u | e] |]].
  - pose proof (alive_writer_send m (data_frame sid (ztake n (zdrop off d)))) as H.
    by destruct (writer_send _ _) as [m1 [[u | e] |]].
Qed.

Lemma alive_writer_next m :
  match writer_next m with WShutdown m' | WFrame _ m' => alive m' = alive m | _ => True end.
Proof. unfold writer_next. destruct (shutdown_permit m); [done |]. by destruct (poll_recv (ctrl_ch m)), (poll_recv (writer_ch m)). Qed.

(** No step revives an endpoint. *)
Lemma mux_step_alive m m' : mux_step m m' -> alive m' = true -> alive m = true.
Proof.
  destruct 1; rewrite ?alive_recv_cell, ?alive_send_frame, ?alive_writer_send, ?alive_open_begin,
    ?alive_open_connect, ?alive_open_wait, ?alive_send_data_step; try done.
  - intros <-. symmetry. by eapply alive_dispatch.
  - unfold reader_on_tick. by repeat case_match.
  - unfold reader_end. by rewrite ?alive_clear_streams, ?alive_remove_stream.
  - pose proof (alive_writer_next m) as Hw. rewrite H in Hw. congruence.
  - pose proof (alive_writer_next m) as Hw. rewrite H in Hw. congruence.
  - unfold register_stream, insert_stream. cbn [fst alive set_streams]. by rewrite ?alive_clear_streams, ?alive_remove_stream.
  - unfold close_on_drop. by case_match.
Qed.

(** ** Removal of a stream *)

Lemma dispatch_close_registered now m sid reason e :
  0 <= sid < 2 ^ 32 -> streams m !! sid = Some e ->
  exists m', dispatch_close now m (encode_mux_payload sid reason) = Some m' /\
    streams m' = delete sid (streams m) /\
    (forall c, cells m !! entry_cell e = Some c -> exists c', cells m' !! entry_cell e = Some c' /\
       cell_released c' /\ close_reason c' = default (close_reason c) (head reason) /\
       queue (data_ch c') = queue (data_ch c)) /\
    (forall j, j <> entry_cell e -> cells m' !! j = cells m !! j).
Proof.
  intros Hs He. unfold dispatch_close. rewrite decode_mux_payload_eq by done. cbn [mbind option_bind].
  rewrite He. eexists. split; [done |]. destruct reason as [| code reason]; cbn [head default].
  - split; [done |]. unfold drop_entry, update_cell. cbn [cells set_cells set_streams]. split.
    + intros c Hc. rewrite lookup_alter_eq, Hc. simpl. eexists. done.
    + intros j Hj. by rewrite lookup_alter_ne.
  - set (m1 := set_reason _ _ code).
    destruct (record_close_reason_same now m1 code) as (Es & Ec & _).
    unfold drop_entry, update_cell. cbn [streams cells set_cells]. rewrite Es, Ec. split; [done |].
    unfold m1, set_reason, update_cell. cbn [cells set_cells set_streams]. split.
    + intros c Hc. rewrite !lookup_alter_eq, Hc. simpl. eexists. done.
    + intros j Hj. by rewrite !lookup_alter_ne.
Qed.

(** ** Claims *)

(** C5: Every reachable endpoint is well-formed: its queues are within their
    capacities, every registered stream has a cell of its own that is open, and
    the cells of all other streams are released; and in every such state any
    frame from the peer is dispatched in one step, without panic or wait. *)
Theorem mux_endpoint_invariant (m : Multiplexer) :
  mux_reachable m ->
  mux_wf m /\ forall now f, exists m', dispatch_frame now m f = Some m' /\ mux_wf m'.
Proof.
  intros Hm%mux_reachable_inv. split; [done |]. intros. by apply dispatch_frame_wf.
Qed.

Lemma mux_endpoint_invariant_witness :
  mux_wf (register_stream (new_server MuxCaps_LOCAL) 7).1.
Proof.
  apply (mux_endpoint_invariant (register_stream (new_server MuxCaps_LOCAL) 7).1).
  eapply reach_step; [apply (reach_new 2 None MuxCaps_LOCAL) | apply step_register].
Defined.

(** A stream that was removed, for whatever reason, cannot hang its handles: a
    sender waiting for credit gets the broken-pipe error, and a receiver is
    handed what had arrived and then the end of the stream. *)
Theorem mux_removed_stream_released (m : Multiplexer) (i : nat) (c : Cell) (want : Z) (r : option RecvCredit) :
  mux_reachable m -> cells m !! i = Some c -> ~ owned m i ->
  (acquire_cell m i want).2 = Ready (Err mux_broken) /\
  (recv_cell m i r).2 = Ready (head (queue (data_ch c))).
Proof.
  intros Hm%mux_reachable_inv Hc Ho. destruct (wf_released m Hm i c Hc Ho) as [Hw Ht].
  unfold acquire_cell, recv_cell, try_acquire, poll_recv. rewrite Hc, Hw, Ht. split; [done |].
  destruct (queue (data_ch c)) as [| d q]; [done |]. cbn [head].
  by destruct (consumed_opt _ _ _).
Qed.

Definition ex_open : Multiplexer := (register_stream (new_server MuxCaps_LOCAL) 7).1.

Definition ex_closed : Multiplexer :=
  default ex_open (dispatch_frame 0 ex_open {| command := Close; payload := encode_mux_payload 7 [2] |}).

Lemma mux_removed_stream_released_witness :
  (acquire_cell ex_closed 0 100).2 = Ready (Err mux_broken).
Proof.
  eapply (mux_removed_stream_released ex_closed 0 _ 100 None); [| reflexivity |].
  - eapply reach_step; [eapply reach_step; [apply (reach_new 2 None MuxCaps_LOCAL) |] |].
    + apply (step_register _ 7).
    + apply (step_dispatch _ 0 {| command := Close; payload := encode_mux_payload 7 [2] |}). reflexivity.
  - intros (sid & e & Hs & _). replace (streams ex_closed) with (∅ : gmap Z StreamEntry) in Hs by reflexivity.
    by rewrite lookup_empty in Hs.
Defined.

(** A Close from the peer removes exactly its stream, publishes the reason before the
    handles can see the end, keeps what had arrived, and a repeated Close
    changes nothing (in particular it is not counted again). *)
Theorem mux_close_once (now now' : Z) (m : Multiplexer) (sid : Z) (reason : bytes) (e : StreamEntry) (c : Cell) :
  0 <= sid < 2 ^ 32 -> streams m !! sid = Some e -> cells m !! entry_cell e = Some c ->
  let f := {| command := Close; payload := encode_mux_payload sid reason |} in
  exists m' c', dispatch_frame now m f = Some m' /\ streams m' = delete sid (streams m) /\
    cells m' !! entry_cell e = Some c' /\ cell_released c' /\
    close_reason c' = default (close_reason c) (head reason) /\ queue (data_ch c') = queue (data_ch c) /\
    (forall j, j <> entry_cell e -> cells m' !! j = cells m !! j) /\
    dispatch_frame now' m' f = Some m'.
Proof.
  intros Hs He Hc f. unfold dispatch_frame. cbn [command payload f].
  destruct (dispatch_close_registered now m sid reason e Hs He) as (m' & E & Est & Hcell & Hoth).
  destruct (Hcell c Hc) as (c' & Hc' & Hrel & Hre & Hq). exists m', c'. split_and!; try done.
  unfold dispatch_close. rewrite decode_mux_payload_eq by done. cbn [mbind option_bind].
  by rewrite Est, lookup_delete_eq.
Qed.

Lemma mux_close_once_witness :
  exists m' c', dispatch_frame 5 ex_open {| command := Close; payload := encode_mux_payload 7 [2] |} = Some m' /\
    cells m' !! 0%nat = Some c' /\ close_reason c' = 2.
Proof.
  destruct (mux_close_once 5 6 ex_open 7 [2] {| entry_cell := 0; got_data := false; domain := false |}
    (new_cell (new_server MuxCaps_LOCAL))) as (m' & c' & H1 & _ & H2 & _ & H3 & _);
    [lia | reflexivity | reflexivity | by exists m', c'].
Defined.
