(* ===== verification/MuxWire.v ===== *)
(** * The wire between two multiplexers

    The reader task on foreign bytes (it neither panics nor runs out of buffer),
    on the bytes a peer's writer produced in whatever pieces they arrive, and
    the order in which the writer task sends queued frames. *)

From S2P Require Import Prelude Obfuscation Protocol RelayHealth Chan Mux MuxTasks MuxInv.

(** ** Foreign bytes *)

(** A frame that is not complete yet is shorter than the read buffer. *)
Lemma decode_frame_incomplete {AR : Arch} c buf :
  codec_wf c -> bytes_ok buf -> decode_frame c buf = Some (Ok None) -> zlen buf < READ_BUFFER.
Proof.
  intros Hc Hb. unfold READ_BUFFER, NONCE_LEN, HEADER_LEN, MAX_PADDING_LEN, MAX_PAYLOAD_LEN, U16_MAX, U8_MAX.
  destruct (decide (zlen buf < 8)) as [Hs | Hl]; [lia |].
  destruct (frame_buf_form c buf Hc Hb) as (nonce & h0 & h1 & h2 & h3 & tail & Hn & Hh & Ht & ->); [lia |].
  rewrite !bytes_ok_cons in Hh. destruct Hh as (H0 & H1 & H2 & H3 & _).
  pose proof (from_be16_range h0 h1 H0 H1). unfold is_byte in H2. rewrite decode_frame_parsed by lia.
  destruct (Command_from_byte h3); [| done]. case_cmp; [done |].
  destruct (Z.ltb_spec (zlen tail) (h2 + from_be16 h0 h1)); [intros _; zlen_lia |].
  rewrite slice_some by lia. done.
Qed.

Lemma decode_all_total {AR : Arch} fuel c now m buf :
  codec_wf c -> bytes_ok buf -> mux_wf m -> (length buf < fuel)%nat ->
  exists m' rest st, decode_all fuel c now m buf = Some (m', rest, st) /\ mux_wf m' /\ bytes_ok rest /\
    (st = Continue -> zlen rest < READ_BUFFER).
Proof.
  intros Hc. revert m buf. induction fuel as [| fuel IH]; intros m buf Hb Hm Hf; [lia |].
  cbn [decode_all]. destruct (decode_frame_total c buf Hc Hb) as [r Hr]. rewrite Hr.
  cbn [mbind option_bind]. destruct r as [[[f n] |] | e].
  - destruct (decode_frame_inv c buf f n Hc Hb Hr) as (Hn & _ & _ & _).
    destruct (dispatch_frame_wf now m f Hm) as (m1 & -> & H1). cbn [mbind option_bind].
    apply IH; [by apply Forall_drop | done |]. unfold zdrop, zlen in *. rewrite length_drop. lia.
  - exists m, buf, Continue. split_and!; try done. intros _. by eapply decode_frame_incomplete.
  - by exists m, buf, (Stop (Err e)).
Qed.

(** ** Bytes from a peer *)

Fixpoint dispatch_seq (m : Multiplexer) (fs : list (Z * Frame)) : option Multiplexer :=
  match fs with
  | [] => Some m
  | (now, f) :: fs' => m' ← dispatch_frame now m f; dispatch_seq m' fs'
  end.

Lemma dispatch_seq_app m l1 l2 :
  dispatch_seq m (l1 ++ l2) = m' ← dispatch_seq m l1; dispatch_seq m' l2.
Proof.
  revert m. induction l1 as [| [now f] l1 IH]; intros m; [done |]. simpl.
  destruct (dispatch_frame now m f); simpl; [apply IH | done].
Qed.

Section peer.
Context (A1 A2 : Arch) (c : Codec) (Hc : codec_wf c) (Hag : peers_agree A1 A2 (obfuscator c)).

(** The decode loop on complete frames and a partial one. *)
Lemma decode_all_frames fuel now m fs ws ws2 tail :
  Forall2 (@encodes A1 c) fs ws -> Forall (fun w => exists f, @encodes A1 c f w) ws2 -> partial ws2 tail ->
  (length fs < fuel)%nat ->
  @decode_all A2 fuel c now m (concat ws ++ tail) =
  m' ← dispatch_seq m (map (pair now) fs); Some (m', tail, Continue).
Proof.
  intros Hfs Hws2 Hp. revert fuel m. induction Hfs as [| f w fs ws (rng & Hr & Hw) Hfs IH];
    intros [| fuel] m Hf; simpl in Hf; try lia; cbn [decode_all concat map dispatch_seq app].
  - assert (@decode_frame A2 c tail = Some (Ok None)) as ->; [| done].
    destruct ws2 as [| w2 ws2]; simpl in Hp.
    + by subst.
    + destruct Hp as (more & -> & Hne). inversion Hws2 as [| ? ? (f & rng & Hr & Hw) _]; subst.
      by eapply (decode_frame_prefix A1 A2).
  - rewrite <- app_assoc, (decode_encode_frame A1 A2 c rng (command f) (payload f) w) by done.
    cbn [mbind option_bind]. replace {| command := command f; payload := payload f |} with f by by destruct f.
    destruct (dispatch_frame now m f) as [m1 |]; [| done]. cbn [mbind option_bind].
    rewrite zdrop_app by done. apply IH. lia.
Qed.

(** A run of the reader over successive reads: when each turn of the loop began,
    when its read returned, and the bytes. *)
Fixpoint read_run (m : Multiplexer) (r : Reader) (reads : list (Z * Z * bytes)) :
    option (Multiplexer * Reader * TaskStep) :=
  match reads with
  | [] => Some (m, r, Continue)
  | (top, now, chunk) :: reads' =>
      '(m, r, st) ← @reader_on_read A2 c top now m r chunk;
      match st with
      | Continue => read_run m r reads'
      | Stop e => Some (m, r, Stop e)
      end
  end.

Lemma read_run_frames reads m r fs ws :
  Forall2 (@encodes A1 c) fs ws -> partial ws (filled r) ->
  concat ws = filled r ++ concat reads.*2 ->
  Forall (fun x => x.2 <> [] /\ lifetime_over x.1.1 r = false) reads -> mux_wf m ->
  exists nows m' r', length nows = length fs /\ Forall (fun t => t ∈ map (fun x => x.1.2) reads) nows /\
    dispatch_seq m (zip nows fs) = Some m' /\
    read_run m r reads = Some (m', r', Continue) /\ filled r' = [].
Proof.
  revert m r fs ws. induction reads as [| [[top now] chunk] reads IH]; intros m r fs ws Hfs Hp Hcat Hr Hm.
  - simpl in Hcat. rewrite app_nil_r in Hcat.
    destruct Hfs as [| f w fs ws Hf Hfs].
    + exists [], m, r. split_and!; done.
    + exfalso. simpl in *. destruct Hp as (more & -> & Hne). rewrite <- app_assoc in Hcat.
      apply (f_equal zlen) in Hcat. rewrite !zlen_app in Hcat.
      destruct more; [done |]. zlen_lia.
  - inversion Hr as [| ? ? [Hne Hlt] Hr']; subst. cbn [fst snd] in *. cbn [fmap list_fmap concat snd] in Hcat.
    assert (Hws : Forall (fun w => w <> []) ws).
    { clear -Hfs Hc. induction Hfs; constructor; [by eapply encodes_nonempty | done]. }
    rewrite app_assoc in Hcat.
    destruct (prefix_cut ws (filled r ++ chunk) (concat reads.*2)) as (ws1 & ws2 & tail & -> & Hbuf & Htail); [done | done |].
    apply Forall2_app_inv_r in Hfs as (fs1 & fs2 & Hf1 & Hf2 & ->).
    cbn [read_run]. unfold reader_on_read. rewrite Hlt.
    destruct (Z.eqb_spec (zlen chunk) 0) as [E0 |]; [by apply zlen_0_nil in E0 |]. rewrite Hbuf.
    rewrite (decode_all_frames _ now m fs1 ws1 ws2 tail); [| done | | done |].
    + assert (Hseq : exists m1, dispatch_seq m (map (pair now) fs1) = Some m1 /\ mux_wf m1).
      { clear -Hm. revert m Hm. induction fs1 as [| f fs1 IH]; intros m Hm; [eauto |]. simpl.
        destruct (dispatch_frame_wf now m f Hm) as (m1 & -> & H1). by apply IH. }
      destruct Hseq as (m1 & Hseq & Hm1). rewrite Hseq. cbn [mbind option_bind].
      destruct (IH m1 {| filled := tail; started := started r; last_recv := now |} fs2 ws2)
        as (nows & m' & r' & Hl & Hn & Hd & Hrun & Hfill); try done.
      { rewrite concat_app, Hbuf, <- app_assoc in Hcat. by apply app_inv_head in Hcat. }
      exists (replicate (length fs1) now ++ nows), m', r'. split_and!; try done.
      * rewrite !length_app, length_replicate. lia.
      * apply Forall_app. split; [apply Forall_replicate; by left |].
        eapply Forall_impl; [exact Hn |]. intros t Ht. by right.
      * rewrite zip_with_app by (by rewrite length_replicate). rewrite dispatch_seq_app.
        assert (zip (replicate (length fs1) now) fs1 = map (pair now) fs1) as ->.
        { clear. induction fs1; simpl; congruence. }
        rewrite Hseq. done.
    + clear -Hf2. induction Hf2; constructor; eauto.
    + rewrite <- Hbuf, Hbuf, length_app.
      assert (length fs1 <= length (concat ws1))%nat; [| lia].
      clear -Hf1 Hc. induction Hf1 as [| f w fs ws Hf _ IH]; [done |]. simpl. rewrite length_app.
      assert (Hw := encodes_nonempty c f w Hc Hf). destruct w; [done |]. simpl. lia.
Qed.

End peer.

(** ** The writer's order *)

(** What happens at the queues of a writer: a frame is accepted by one of them,
    or one turn of the writer takes a frame. *)
Inductive WEvent := EnqBulk (f : OutFrame) | EnqCtrl (f : OutFrame) | WroteBulk (f : OutFrame) | WroteCtrl (f : OutFrame).

Inductive writer_trace : Multiplexer -> list WEvent -> Multiplexer -> Prop :=
| wt_nil m : writer_trace m [] m
| wt_bulk m f m1 tr m2 :
    writer_send m f = (m1, Ready (Ok tt)) -> writer_trace m1 tr m2 -> writer_trace m (EnqBulk f :: tr) m2
| wt_ctrl m f m1 tr m2 :
    ctrl_send m f = (m1, Ready (Ok tt)) -> writer_trace m1 tr m2 -> writer_trace m (EnqCtrl f :: tr) m2
| wt_write m f m1 tr m2 :
    writer_next m = WFrame f m1 -> writer_trace m1 tr m2 ->
    writer_trace m ((if bool_decide (queue (ctrl_ch m) = []) then WroteBulk f else WroteCtrl f) :: tr) m2.

Definition bulk_in (e : WEvent) : option OutFrame := match e with EnqBulk f => Some f | _ => None end.
Definition ctrl_in (e : WEvent) : option OutFrame := match e with EnqCtrl f => Some f | _ => None end.
Definition bulk_out (e : WEvent) : option OutFrame := match e with WroteBulk f => Some f | _ => None end.
Definition ctrl_out (e : WEvent) : option OutFrame := match e with WroteCtrl f => Some f | _ => None end.

(** The frame a turn takes is the head of the control queue, or of the bulk
    queue when the control queue is empty. *)
Lemma writer_next_head m f m1 :
  writer_next m = WFrame f m1 ->
  (queue (ctrl_ch m) = f :: queue (ctrl_ch m1) /\ writer_ch m1 = writer_ch m) \/
  (queue (ctrl_ch m) = [] /\ queue (writer_ch m) = f :: queue (writer_ch m1) /\ ctrl_ch m1 = ctrl_ch m).
Proof.
  unfold writer_next. destruct (shutdown_permit m); [done |]. unfold poll_recv.
  destruct (queue (ctrl_ch m)) as [| g q] eqn:Eq.
  - destruct (tx_gone (ctrl_ch m)); destruct (queue (writer_ch m)) as [| g q] eqn:Ew;
      try (destruct (tx_gone (writer_ch m)); done); intros [= <- <-]; right; done.
  - intros [= <- <-]. by left.
Qed.

Lemma writer_send_queue m f m1 :
  writer_send m f = (m1, Ready (Ok tt)) ->
  queue (writer_ch m1) = queue (writer_ch m) ++ [f] /\ ctrl_ch m1 = ctrl_ch m.
Proof.
  unfold writer_send. destruct (try_send _ _) eqn:E; [| done..]. intros [= <-].
  apply try_send_sent in E as (-> & _). done.
Qed.

Lemma ctrl_send_queue m f m1 :
  ctrl_send m f = (m1, Ready (Ok tt)) ->
  queue (ctrl_ch m1) = queue (ctrl_ch m) ++ [f] /\ writer_ch m1 = writer_ch m.
Proof.
  unfold ctrl_send. destruct (try_send _ _) eqn:E; [| done..]. intros [= <-].
  apply try_send_sent in E as (-> & _). done.
Qed.

Lemma writer_trace_fifo m tr m' :
  writer_trace m tr m' ->
  queue (writer_ch m) ++ omap bulk_in tr = omap bulk_out tr ++ queue (writer_ch m') /\
  queue (ctrl_ch m) ++ omap ctrl_in tr = omap ctrl_out tr ++ queue (ctrl_ch m').
Proof.
  induction 1 as [m | m f m1 tr m2 Hs Ht [IH1 IH2] | m f m1 tr m2 Hs Ht [IH1 IH2] | m f m1 tr m2 Hs Ht [IH1 IH2]].
  - simpl. by rewrite !app_nil_r.
  - apply writer_send_queue in Hs as [Eq Ec]. cbn. rewrite <- IH1, <- IH2, Eq, Ec, <- app_assoc. done.
  - apply ctrl_send_queue in Hs as [Eq Ec]. cbn. rewrite <- IH1, <- IH2, Eq, Ec, <- app_assoc. done.
  - apply writer_next_head in Hs as [[Eq Ew] | (Eq & Ew & Ec)].
    + rewrite bool_decide_eq_false_2 by (by rewrite Eq). cbn. rewrite Eq, <- Ew. split; [done |].
      cbn. by rewrite IH2.
    + rewrite bool_decide_eq_true_2 by done. cbn. rewrite Ew, <- Ec. cbn. by rewrite IH1.
Qed.

(** ** Claims *)

(** C4: On any bytes from the network the reader task neither panics nor stalls: each read
    ends with the task stopped or with free room in the buffer, so that a read
    of zero bytes always means the end of the connection. *)
Theorem reader_buffer_suffices (AR : Arch) (c : Codec) (top now : Z) (m : Multiplexer) (r : Reader) (chunk : bytes) :
  codec_wf c -> mux_wf m -> bytes_ok (filled r) -> bytes_ok chunk -> zlen (filled r) < READ_BUFFER ->
  exists m' r' st, reader_on_read c top now m r chunk = Some (m', r', st) /\ mux_wf m' /\ bytes_ok (filled r') /\
    (st = Continue -> 0 < READ_BUFFER - zlen (filled r')).
Proof.
  intros Hc Hm Hf Hb Hl. unfold reader_on_read.
  case_cmp; [exists m, r, (Stop (Err err_lifetime)); split_and!; try done; intros; lia |].
  case_cmp; [exists m, r, (Stop (Ok tt)); split_and!; try done; intros; lia |].
  destruct (decode_all_total (S (length (filled r ++ chunk))) c now m (filled r ++ chunk))
    as (m' & rest & st & Hd & Hm' & Hb' & Hz); [done | by apply Forall_app | done | lia |].
  rewrite Hd. cbn [mbind option_bind]. eexists _, _, _. split_and!; try done. simpl. intros Hst.
  specialize (Hz Hst). lia.
Qed.

Lemma reader_buffer_suffices_witness :
  exists m' r' st, @reader_on_read arch64 ex_codec 0 0 (new_server MuxCaps_LOCAL) (Reader_new 0) [1; 2; 3] = Some (m', r', st) /\
    (st = Continue -> 0 < READ_BUFFER - zlen (filled r')).
Proof.
  destruct (reader_buffer_suffices arch64 ex_codec 0 0 (new_server MuxCaps_LOCAL) (Reader_new 0) [1; 2; 3])
    as (m' & r' & st & H1 & _ & _ & H2).
  - apply ex_codec_wf.
  - apply new_inner_wf.
  - constructor.
  - by_compute.
  - by_compute.
  - by exists m', r', st.
Defined.

(** C3: However the network cuts the stream of a peer's frames into reads, the reader
    dispatches exactly those frames, each once and in order, and ends with an
    empty buffer; the peers may have different machine widths. *)
Theorem reader_reassembles (A1 A2 : Arch) (c : Codec) (m : Multiplexer) (start : Z)
    (fs : list Frame) (ws : list bytes) (reads : list (Z * Z * bytes)) :
  codec_wf c -> peers_agree A1 A2 (obfuscator c) -> mux_wf m ->
  Forall2 (@encodes A1 c) fs ws -> concat reads.*2 = concat ws ->
  Forall (fun x => x.2 <> [] /\ lifetime_over x.1.1 (Reader_new start) = false) reads ->
  exists nows m' r', length nows = length fs /\ Forall (fun t => t ∈ map (fun x => x.1.2) reads) nows /\
    dispatch_seq m (zip nows fs) = Some m' /\
    read_run A2 c m (Reader_new start) reads = Some (m', r', Continue) /\ filled r' = [].
Proof.
  intros Hc Hag Hm Hfs Hcat Hr. eapply (read_run_frames A1 A2 c Hc Hag reads m (Reader_new start)); try done.
  destruct Hfs as [| f w fs ws Hf _]; [done |]. simpl. exists w. split; [done |].
  exact (@encodes_nonempty A1 c f w Hc Hf).
Qed.

Definition ex_ping : Frame := {| command := Ping; payload := [1; 2] |}.

Definition ex_wire : bytes :=
  match @encode_frame arch64 ex_codec ex_rng Ping [1; 2] with Ok w => w | Err _ => [] end.

Lemma reader_reassembles_witness :
  exists m' r', read_run arch64 ex_codec (new_server MuxCaps_LOCAL) (Reader_new 0)
    [(0, 1, ztake 3 ex_wire); (1, 2, zdrop 3 ex_wire)] = Some (m', r', Continue) /\ filled r' = [].
Proof.
  destruct (reader_reassembles arch64 arch64 ex_codec (new_server MuxCaps_LOCAL) 0 [ex_ping] [ex_wire]
    [(0, 1, ztake 3 ex_wire); (1, 2, zdrop 3 ex_wire)]) as (nows & m' & r' & _ & _ & _ & H1 & H2).
  - apply ex_codec_wf.
  - by left.
  - apply new_inner_wf.
  - repeat constructor. exists ex_rng. split; [apply ex_rng_ok | vm_compute; reflexivity].
  - cbn. rewrite !app_nil_r. apply ztake_zdrop.
  - repeat constructor; vm_compute; done.
  - by exists m', r'.
Defined.

(** The writer sends the frames of each queue exactly in the order they were accepted,
    so a stream's Close, which goes through the bulk queue like its Data, never
    overtakes them; and it takes a bulk frame only when no control frame is
    waiting. *)
Theorem writer_order (m m' : Multiplexer) (tr : list WEvent) :
  writer_trace m tr m' ->
  queue (writer_ch m) ++ omap bulk_in tr = omap bulk_out tr ++ queue (writer_ch m') /\
  queue (ctrl_ch m) ++ omap ctrl_in tr = omap ctrl_out tr ++ queue (ctrl_ch m') /\
  (forall f m1, writer_next m' = WFrame f m1 -> queue (ctrl_ch m') <> [] ->
     queue (ctrl_ch m') = f :: queue (ctrl_ch m1) /\ writer_ch m1 = writer_ch m').
Proof.
  intros Ht. destruct (writer_trace_fifo m tr m' Ht) as [H1 H2]. split_and!; try done.
  intros f m1 [? | (? & _)]%writer_next_head Hne; [done | done].
Qed.

Lemma writer_order_witness :
  exists m3, writer_trace (new_client MuxCaps_LOCAL)
    [EnqBulk (data_frame 1 [7]); EnqCtrl (close_frame 3 []); WroteCtrl (close_frame 3 [])] m3 /\
    queue (writer_ch m3) = [data_frame 1 [7]].
Proof.
  set (m1 := (writer_send (new_client MuxCaps_LOCAL) (data_frame 1 [7])).1).
  set (m2 := (ctrl_send m1 (close_frame 3 [])).1).
  set (m3 := match writer_next m2 with WFrame _ m => m | _ => m2 end).
  assert (Ht : writer_trace (new_client MuxCaps_LOCAL)
    [EnqBulk (data_frame 1 [7]); EnqCtrl (close_frame 3 []); WroteCtrl (close_frame 3 [])] m3).
  { apply (wt_bulk _ _ m1); [reflexivity |]. apply (wt_ctrl _ _ m2); [reflexivity |].
    apply (wt_write m2 (close_frame 3 []) m3); [reflexivity | constructor]. }
  exists m3. destruct (writer_order _ _ _ Ht) as (H1 & _ & _). split; [done |].
  symmetry. exact H1.
Defined.
