(* ===== verification/MuxFlow.v ===== *)
(** * Flow control between two multiplexers

    One direction of one stream, from the endpoint [near] that sends on it to
    the endpoint [far] that receives, over two FIFO wires. Everything the two
    endpoints do for this direction is an operation of [Mux] or [MuxTasks];
    whatever else happens at them (other streams, the reverse direction,
    keepalives) is a step of the environment that keeps off this direction's
    state. *)

From S2P Require Import Prelude Protocol RelayHealth Chan Mux MuxTasks MuxInv MuxWire.

(** The frame the peer's reader decodes from what the writer sent. *)
Definition wire_frame (f : OutFrame) : Frame := {| command := out_command f; payload := writer_payload f |}.

Fixpoint sum_map {A} (g : A -> Z) (l : list A) : Z :=
  match l with [] => 0 | x :: l' => g x + sum_map g l' end.

Lemma sum_map_app {A} (g : A -> Z) l k : sum_map g (l ++ k) = sum_map g l + sum_map g k.
Proof. induction l as [| x l IH]; simpl; [done | rewrite IH; lia]. Qed.

Definition sid_ok (f : OutFrame) : Prop := 0 <= out_stream_id f < 2 ^ 32.

Section flow.
Context (sid : Z) (Hsid : 0 <= sid < 2 ^ 32).

(** Bytes a frame puts into the stream's channel at the receiver. *)
Definition data_bytes (f : OutFrame) : Z :=
  if (out_stream_id f =? sid) && (bool_decide (out_command f = Data) || bool_decide (out_command f = ConnectAck)
        || bool_decide (out_command f = Connect))
  then zlen (out_payload f) else 0.

(** Credit a frame returns for the stream. *)
Definition credit_bytes (f : OutFrame) : Z :=
  if (out_stream_id f =? sid) && bool_decide (out_command f = WindowUpdate) && (4 <=? zlen (out_payload f))
  then of_be (take 4 (out_payload f)) else 0.

Definition queued (g : OutFrame -> Z) (m : Multiplexer) : Z :=
  sum_map g (queue (ctrl_ch m)) + sum_map g (queue (writer_ch m)).

(** A frame of the queues and wires of a link: the stream is open already, so
    no Connect for it carries an address. *)
Definition flow_frame (f : OutFrame) : Prop :=
  sid_ok f /\ (out_command f = Connect -> data_bytes f = 0) /\ 0 <= credit_bytes f.

Definition frames_ok (m : Multiplexer) : Prop :=
  Forall flow_frame (queue (ctrl_ch m)) /\ Forall flow_frame (queue (writer_ch m)).

(** The credit left in a cell, and the bytes waiting in its channel. *)
Definition cell_credit (m : Multiplexer) (i : nat) : Z :=
  match cells m !! i with Some c => credit (window c) | None => 0 end.

Definition cell_bytes (m : Multiplexer) (i : nat) : Z :=
  match cells m !! i with Some c => sum_map zlen (queue (data_ch c)) | None => 0 end.

(** Cell [i] belongs to the stream and to no other. *)
Definition bound_to (i : nat) (m : Multiplexer) : Prop :=
  forall s e, streams m !! s = Some e -> (entry_cell e = i <-> s = sid).

Definition registered (m : Multiplexer) : Prop := is_Some (streams m !! sid).

(** A step that may add frames to the queues, none of which counts for [g]. *)
Definition adds_frames (g : OutFrame -> Z) (m m' : Multiplexer) : Prop :=
  exists fc fw, queue (ctrl_ch m') = queue (ctrl_ch m) ++ fc /\ queue (writer_ch m') = queue (writer_ch m) ++ fw /\
    Forall (fun f => g f = 0 /\ flow_frame f) (fc ++ fw).

(** What any other activity at an endpoint leaves alone: the binding of the
    cell, the number [v] read off it, and the stream's frames. *)
Definition keeps_off (g : OutFrame -> Z) (v : Multiplexer -> Z) (i : nat) (m m' : Multiplexer) : Prop :=
  mux_wf m' /\ bound_to i m' /\ v m' = v m /\ (registered m' -> registered m) /\ adds_frames g m m'.

Record Link := {
  near : Multiplexer;
  far : Multiplexer;
  wire : list OutFrame;
  back : list OutFrame;
  (** the send call in progress, and the receiver's unreturned credit *)
  sdata : bytes;
  sstate : SendState;
  pending : Z
}.

Context (i j : nat).

Definition held (s : SendState) : Z := match s with SendQueue _ n => n | _ => 0 end.

Definition total (l : Link) : Z :=
  cell_credit (near l) i + held (sstate l) + queued data_bytes (near l) + sum_map data_bytes (wire l)
  + cell_bytes (far l) j + pending l + queued credit_bytes (far l) + sum_map credit_bytes (back l).

(** One step of the link. The flag of a step says that it may lose bytes or
    credit for good: a send call is dropped half-way, the receiver is dropped,
    or a task of an endpoint ends. *)
Inductive link_step (l : Link) : bool -> Link -> Prop :=
| ls_send m s p :
    send_data_step (near l) i sid (sdata l) (sstate l) = (m, s, p) ->
    link_step l false {| near := m; far := far l; wire := wire l; back := back l; sdata := sdata l;
                         sstate := s; pending := pending l |}
| ls_send_new d :
    (* the previous call returned *)
    held (sstate l) = 0 ->
    link_step l false {| near := near l; far := far l; wire := wire l; back := back l; sdata := d;
                         sstate := SendStart; pending := pending l |}
| ls_send_cancel d :
    link_step l true {| near := near l; far := far l; wire := wire l; back := back l; sdata := d;
                        sstate := SendStart; pending := pending l |}
| ls_near_write f m :
    writer_next (near l) = WFrame f m ->
    link_step l false {| near := m; far := far l; wire := wire l ++ [f]; back := back l; sdata := sdata l;
                         sstate := sstate l; pending := pending l |}
| ls_far_write f m :
    writer_next (far l) = WFrame f m ->
    link_step l false {| near := near l; far := m; wire := wire l; back := back l ++ [f]; sdata := sdata l;
                         sstate := sstate l; pending := pending l |}
| ls_far_read now f w m :
    wire l = f :: w -> dispatch_frame now (far l) (wire_frame f) = Some m ->
    link_step l false {| near := near l; far := m; wire := w; back := back l; sdata := sdata l;
                         sstate := sstate l; pending := pending l |}
| ls_near_read now f w m :
    back l = f :: w -> dispatch_frame now (near l) (wire_frame f) = Some m ->
    link_step l false {| near := m; far := far l; wire := wire l; back := w; sdata := sdata l;
                         sstate := sstate l; pending := pending l |}
| ls_recv m r p :
    recv_cell (far l) j (Some {| rc_stream_id := sid; rc_pending := pending l |}) = (m, Some r, p) ->
    link_step l false {| near := near l; far := m; wire := wire l; back := back l; sdata := sdata l;
                         sstate := sstate l; pending := rc_pending r |}
| ls_near_other m :
    keeps_off data_bytes (fun m => cell_credit m i) i (near l) m ->
    link_step l false {| near := m; far := far l; wire := wire l; back := back l; sdata := sdata l;
                         sstate := sstate l; pending := pending l |}
| ls_far_other m :
    keeps_off credit_bytes (fun m => cell_bytes m j) j (far l) m ->
    link_step l false {| near := near l; far := m; wire := wire l; back := back l; sdata := sdata l;
                         sstate := sstate l; pending := pending l |}
| ls_drop_receiver :
    link_step l true {| near := near l; far := drop_receiver (far l) j; wire := wire l; back := back l;
                        sdata := sdata l; sstate := sstate l; pending := pending l |}
| ls_near_writer_end :
    link_step l true {| near := writer_end (near l); far := far l; wire := wire l; back := back l;
                        sdata := sdata l; sstate := sstate l; pending := pending l |}
| ls_far_writer_end :
    link_step l true {| near := near l; far := writer_end (far l); wire := wire l; back := back l;
                        sdata := sdata l; sstate := sstate l; pending := pending l |}
| ls_near_reader_end :
    link_step l true {| near := reader_end (near l); far := far l; wire := wire l; back := back l;
                        sdata := sdata l; sstate := sstate l; pending := pending l |}
| ls_far_reader_end :
    link_step l true {| near := near l; far := reader_end (far l); wire := wire l; back := back l;
                        sdata := sdata l; sstate := sstate l; pending := pending l |}.

(** A run; the flag tells whether some step could lose anything. *)
Inductive link_run (l0 : Link) : bool -> Link -> Prop :=
| lr_refl : link_run l0 false l0
| lr_step b l b' l' : link_run l0 b l -> link_step l b' l' -> link_run l0 (b || b') l'.

(** ** Effects of the operations on the accounts *)

(** No stream appears or changes its cell. *)
Definition shrinks (m m' : Multiplexer) : Prop :=
  forall s e', streams m' !! s = Some e' -> exists e, streams m !! s = Some e /\ entry_cell e = entry_cell e'.

Lemma shrinks_same m m' : streams m' = streams m -> shrinks m m'.
Proof. intros E s e. rewrite E. eauto. Qed.

Lemma shrinks_bound k m m' : shrinks m m' -> bound_to k m -> bound_to k m'.
Proof. intros Hs Hb s e' (e & He & <-)%Hs. by apply Hb. Qed.

Lemma shrinks_registered m m' : shrinks m m' -> registered m' -> registered m.
Proof. intros Hs [e' (e & He & _)%Hs]. by exists e. Qed.

(** The accounts of all cells, and both queues, are as before. *)
Definition same_accounts (m m' : Multiplexer) : Prop :=
  (forall k, cell_credit m' k = cell_credit m k) /\ (forall k, cell_bytes m' k = cell_bytes m k) /\
  ctrl_ch m' = ctrl_ch m /\ writer_ch m' = writer_ch m.

Lemma update_cell_credit m k f k' :
  (forall c, credit (window (f c)) = credit (window c)) -> cell_credit (update_cell m k f) k' = cell_credit m k'.
Proof.
  intros Hf. unfold cell_credit, update_cell. cbn [cells set_cells]. destruct (decide (k = k')) as [-> |].
  - rewrite lookup_alter_eq. destruct (cells m !! k'); simpl; [apply Hf | done].
  - by rewrite lookup_alter_ne.
Qed.

Lemma update_cell_bytes m k f k' :
  (forall c, queue (data_ch (f c)) = queue (data_ch c)) -> cell_bytes (update_cell m k f) k' = cell_bytes m k'.
Proof.
  intros Hf. unfold cell_bytes, update_cell. cbn [cells set_cells]. destruct (decide (k = k')) as [-> |].
  - rewrite lookup_alter_eq. destruct (cells m !! k'); simpl; [by rewrite Hf | done].
  - by rewrite lookup_alter_ne.
Qed.

Lemma remove_stream_effect m s : shrinks m (remove_stream m s) /\ same_accounts m (remove_stream m s).
Proof.
  split.
  - intros s' e' [He _]%remove_stream_sub. eauto.
  - unfold remove_stream. destruct (streams m !! s); [| done].
    split_and!; [intros k | intros k | done | done].
    + by refine (update_cell_credit (set_streams m _) _ _ k _).
    + by refine (update_cell_bytes (set_streams m _) _ _ k _).
Qed.

Lemma clear_streams_effect m : same_accounts m (clear_streams m).
Proof.
  unfold clear_streams. induction ((map_to_list (streams m)).*1) as [| s l IH]; [done |]. simpl.
  destruct (remove_stream_effect (foldr (fun i m => remove_stream m i) m l) s) as [_ (H1 & H2 & H3 & H4)].
  destruct IH as (I1 & I2 & I3 & I4).
  split_and!; [intros k; by rewrite H1 | intros k; by rewrite H2 | congruence | congruence].
Qed.

Lemma health_record_effect now m e : streams (health_record now m e) = streams m /\ cells (health_record now m e) = cells m /\
  ctrl_ch (health_record now m e) = ctrl_ch m /\ writer_ch (health_record now m e) = writer_ch m.
Proof. unfold health_record. by destruct (relay_health m). Qed.

Lemma mark_data_effect now m s e c :
  streams m !! s = Some e ->
  shrinks m (mark_data now m s e c) /\ cells (mark_data now m s e c) = cells m /\
  ctrl_ch (mark_data now m s e c) = ctrl_ch m /\ writer_ch (mark_data now m s e c) = writer_ch m /\
  is_Some (streams (mark_data now m s e c) !! s).
Proof.
  intros He. unfold mark_data. case_cmp; [| split_and!; try done; by apply shrinks_same].
  set (m1 := set_streams _ _).
  destruct (health_record_effect now m1 (EvSuccess (domain e))) as (Es & Ec & Ect & Ew). split_and!; try done.
  - intros s' e'. rewrite Es. cbn. intros [[<- <-] | [? ?]]%lookup_insert_Some; eauto.
  - rewrite Es. cbn. rewrite lookup_insert_eq. by eexists.
Qed.

(** A payload enters one channel, or nothing happens. *)
Lemma push_data_effect m k d m' taken :
  push_data m k d = (m', taken) ->
  streams m' = streams m /\ ctrl_ch m' = ctrl_ch m /\ writer_ch m' = writer_ch m /\
  (forall k', cell_credit m' k' = cell_credit m k') /\
  (forall k', cell_bytes m' k' = cell_bytes m k' + if taken && bool_decide (k = k') then zlen d else 0).
Proof.
  unfold push_data. destruct (cells m !! k) as [c |] eqn:Ec;
    [| intros [= <- <-]; split_and!; try done; intros; simpl; lia].
  destruct (try_send (data_ch c) d) as [ch | |] eqn:Es;
    intros [= <- <-]; (split_and!; try done); try (intros; simpl; lia).
  - intros k'. by apply update_cell_credit.
  - intros k'. apply try_send_sent in Es as (-> & _). unfold cell_bytes, update_cell. cbn [cells set_cells].
    case_bool_decide; subst; simpl.
    + rewrite lookup_alter_eq, Ec. simpl. rewrite sum_map_app. simpl. lia.
    + rewrite lookup_alter_ne by done. lia.
Qed.

(** What receiving frame [f] does to the accounts of the stream's cell [k]. *)
Record receives (f : OutFrame) (k : nat) (m m' : Multiplexer) : Prop := {
  rv_shrinks : shrinks m m';
  rv_writer : writer_ch m' = writer_ch m;
  rv_ctrl : exists fc, queue (ctrl_ch m') = queue (ctrl_ch m) ++ fc /\
    Forall (fun g => out_command g = Pong /\ out_stream_id g = 0) fc;
  rv_bytes : (cell_bytes m' k = cell_bytes m k /\ (registered m' -> data_bytes f = 0)) \/
    cell_bytes m' k = cell_bytes m k + data_bytes f;
  rv_credit : (cell_credit m' k = cell_credit m k /\ (registered m' -> credit_bytes f = 0)) \/
    cell_credit m' k = Z.min I64_MAX (cell_credit m k + credit_bytes f)
}.

Lemma data_bytes_other f : out_stream_id f <> sid -> data_bytes f = 0.
Proof. intros H. unfold data_bytes. by destruct (Z.eqb_spec (out_stream_id f) sid). Qed.

Lemma credit_bytes_other f : out_stream_id f <> sid -> credit_bytes f = 0.
Proof. intros H. unfold credit_bytes. by destruct (Z.eqb_spec (out_stream_id f) sid). Qed.

Lemma data_bytes_cmd f : out_command f <> Data -> out_command f <> ConnectAck -> out_command f <> Connect ->
  data_bytes f = 0.
Proof.
  intros. unfold data_bytes. rewrite !bool_decide_eq_false_2 by done. by rewrite andb_false_r.
Qed.

Lemma credit_bytes_cmd f : out_command f <> WindowUpdate -> credit_bytes f = 0.
Proof. intros. unfold credit_bytes. rewrite bool_decide_eq_false_2 by done. by rewrite andb_false_r. Qed.

(** A received frame that leaves cells and streams alone. *)
Lemma receives_none f k m : data_bytes f = 0 -> credit_bytes f = 0 -> receives f k m m.
Proof.
  intros Hd Hc. constructor; [by apply shrinks_same | done | exists []; by rewrite app_nil_r | by left | by left].
Qed.

Lemma decode_mux_payload_wire f : sid_ok f ->
  decode_mux_payload (encode_mux_payload (out_stream_id f) (out_payload f))
  = Some (Ok (out_stream_id f, out_payload f)).
Proof. apply decode_mux_payload_eq. Qed.

Lemma dispatch_window_update_receives m f m' k :
  mux_wf m -> flow_frame f -> bound_to k m -> out_command f = WindowUpdate ->
  dispatch_window_update m (encode_mux_payload (out_stream_id f) (out_payload f)) = Some m' -> receives f k m m'.
Proof.
  intros Hm (Hok & _ & _) Hb Hcmd. unfold dispatch_window_update. rewrite decode_mux_payload_wire by done.
  cbn [mbind option_bind].
  assert (Hd : data_bytes f = 0) by (apply data_bytes_cmd; congruence).
  destruct (Z.leb_spec 4 (zlen (out_payload f))) as [H4 | H4].
  2:{ intros [= <-]. apply receives_none; [done |]. unfold credit_bytes.
      destruct (Z.leb_spec 4 (zlen (out_payload f))); [lia | by rewrite andb_false_r]. }
  destruct (out_payload f) as [| b0 [| b1 [| b2 [| b3 rest]]]] eqn:Ep; try (exfalso; zlen_lia). read_heads.
  destruct (streams m !! out_stream_id f) as [e |] eqn:He.
  2:{ intros [= <-]. constructor; [by apply shrinks_same | done | exists []; by rewrite app_nil_r | by left |].
      left. split; [done |]. intros [e He']. apply credit_bytes_other. congruence. }
  intros [= <-]. constructor; [by apply shrinks_same | done | exists []; by rewrite app_nil_r | left; split; [| done] |].
  - by refine (update_cell_bytes m _ _ k _).
  - destruct (decide (out_stream_id f = sid)) as [Es | Es].
    + assert (entry_cell e = k) as -> by (by apply (Hb _ _ He)). right.
      destruct (wf_entry m Hm _ _ He) as [c Hc]. assert (entry_cell e = k) as E by (by apply (Hb _ _ He)).
      rewrite E in Hc. unfold cell_credit, update_cell. cbn [cells set_cells].
      rewrite lookup_alter_eq, Hc. simpl. unfold credit_bytes. rewrite Ep.
      rewrite (bool_decide_eq_true_2 _ Hcmd), Es, Z.eqb_refl. destruct (Z.leb_spec 4 (zlen (b0 :: b1 :: b2 :: b3 :: rest))); [| lia].
      unfold of_be, from_be32. simpl. f_equal. lia.
    + left. split; [| intros _; by apply credit_bytes_other].
      assert (entry_cell e <> k) by (intros E; by apply Es, (Hb _ _ He)).
      unfold cell_credit, update_cell. cbn [cells set_cells]. by rewrite lookup_alter_ne.
Qed.

Lemma dispatch_data_receives now m f m' k :
  mux_wf m -> flow_frame f -> bound_to k m -> out_command f = Data \/ out_command f = ConnectAck ->
  dispatch_data now m (out_command f) (encode_mux_payload (out_stream_id f) (out_payload f)) = Some m' ->
  receives f k m m'.
Proof.
  intros Hm (Hok & _ & _) Hb Hcmd. unfold dispatch_data. rewrite decode_mux_payload_wire by done.
  cbn [mbind option_bind].
  assert (Hcr : credit_bytes f = 0) by (apply credit_bytes_cmd; destruct Hcmd; congruence).
  destruct (streams m !! out_stream_id f) as [e |] eqn:He.
  2:{ intros [= <-]. constructor; [by apply shrinks_same | done | exists []; by rewrite app_nil_r | | by left].
      left. split; [done |]. intros [e He']. apply data_bytes_other. congruence. }
  destruct (mark_data_effect now m _ e (out_command f) He) as (M1 & M2 & M3 & M4 & M5).
  destruct (push_data _ _ _) as [m1 taken] eqn:Ep.
  apply push_data_effect in Ep as (P1 & P2 & P3 & P4 & P5).
  assert (Hcred : forall k', cell_credit m1 k' = cell_credit m k')
    by (intros k'; rewrite P4; unfold cell_credit; by rewrite M2).
  assert (Hbyt : cell_bytes m1 k = cell_bytes m k + if taken then data_bytes f else 0).
  { rewrite P5. unfold cell_bytes at 1. rewrite M2. fold (cell_bytes m k). f_equal. destruct taken; [| done].
    unfold data_bytes. case_bool_decide as E; cbn [andb].
    - assert (out_stream_id f = sid) as -> by (by apply (Hb _ _ He)). rewrite Z.eqb_refl.
      destruct Hcmd as [-> | ->]; done.
    - destruct (Z.eqb_spec (out_stream_id f) sid) as [E' |]; [| done].
      destruct E. by apply (Hb _ _ He). }
  assert (Hsh : shrinks m m1) by (intros s' e'; rewrite P1; apply M1).
  intros [= <-]. destruct taken.
  - constructor; [done | congruence | exists []; rewrite app_nil_r, P2, M3; done | by right | by left].
  - destruct (remove_stream_effect m1 (out_stream_id f)) as [R1 (R2 & R3 & R4 & R5)].
    constructor; [| congruence | exists []; rewrite app_nil_r, R4, P2, M3; done | | left; by rewrite R2].
    + intros s' e' (e1 & H1 & <-)%R1. by apply Hsh.
    + left. split; [rewrite R3, Hbyt; lia |]. intros [e' Hr]. apply data_bytes_other. intros E.
      rewrite <- E, remove_stream_gone in Hr. done.
Qed.

Lemma dispatch_close_receives now m f m' k :
  flow_frame f -> out_command f = Close ->
  dispatch_close now m (encode_mux_payload (out_stream_id f) (out_payload f)) = Some m' -> receives f k m m'.
Proof.
  intros (Hok & _ & _) Hcmd. unfold dispatch_close. rewrite decode_mux_payload_wire by done. cbn [mbind option_bind].
  assert (Hd : data_bytes f = 0) by (apply data_bytes_cmd; congruence).
  assert (Hcr : credit_bytes f = 0) by (apply credit_bytes_cmd; congruence).
  destruct (streams m !! out_stream_id f) as [e |] eqn:He; [| intros [= <-]; by apply receives_none].
  assert (Hsh : forall m1 : Multiplexer, streams m1 = delete (out_stream_id f) (streams m) -> shrinks m m1).
  { intros m1 E s' e'. rewrite E. intros [? ?]%lookup_delete_Some. eauto. }
  intros [= <-]. destruct (out_payload f) as [| code rest].
  - constructor; [by apply Hsh | done | exists []; by rewrite app_nil_r | left | left]; (split; [| done]).
    + by refine (update_cell_bytes (set_streams m _) _ _ k _).
    + by refine (update_cell_credit (set_streams m _) _ _ k _).
  - set (m1 := set_reason _ _ code).
    destruct (record_close_reason_same now m1 code) as (Es & Ec & _ & Ew & Ect & _).
    constructor.
    + apply Hsh. unfold drop_entry, update_cell. cbn [streams set_cells]. by rewrite Es.
    + done.
    + exists []. rewrite app_nil_r. unfold drop_entry, update_cell. cbn [ctrl_ch set_cells]. by rewrite Ect.
    + left. split; [| done]. unfold drop_entry. rewrite update_cell_bytes by done.
      unfold cell_bytes at 1. rewrite Ec. fold (cell_bytes m1 k).
      by refine (update_cell_bytes (set_streams m _) _ _ k _).
    + left. split; [| done]. unfold drop_entry. rewrite update_cell_credit by done.
      unfold cell_credit at 1. rewrite Ec. fold (cell_credit m1 k).
      by refine (update_cell_credit (set_streams m _) _ _ k _).
Qed.

Lemma dispatch_connect_receives m f m' k :
  flow_frame f -> bound_to k m -> out_command f = Connect ->
  dispatch_connect m (encode_mux_payload (out_stream_id f) (out_payload f)) = Some m' -> receives f k m m'.
Proof.
  intros (Hok & Hcon & _) Hb Hcmd. unfold dispatch_connect. rewrite decode_mux_payload_wire by done.
  cbn [mbind option_bind]. specialize (Hcon Hcmd).
  assert (Hcr : credit_bytes f = 0) by (apply credit_bytes_cmd; congruence).
  destruct (streams m !! out_stream_id f) as [e |] eqn:He.
  - destruct (push_data m (entry_cell e) (out_payload f)) as [m1 taken] eqn:Ep.
    apply push_data_effect in Ep as (P1 & P2 & P3 & P4 & P5). cbn [fst]. intros [= <-].
    constructor; [by apply shrinks_same | done | exists []; by rewrite app_nil_r, P2 | | left; by rewrite P4].
    left. split; [| done]. rewrite P5. destruct taken; [| simpl; lia]. cbn [andb].
    case_bool_decide as E; [| lia]. assert (Es : out_stream_id f = sid) by (by apply (Hb _ _ He)).
    revert Hcon. unfold data_bytes. rewrite Es, Z.eqb_refl, Hcmd. simpl. lia.
  - destruct (try_send _ _); intros [= <-]; try (by apply receives_none).
    constructor; [by apply shrinks_same | done | exists []; by rewrite app_nil_r | by left | by left].
Qed.

Lemma dispatch_receives now m f m' k :
  mux_wf m -> flow_frame f -> bound_to k m -> dispatch_frame now m (wire_frame f) = Some m' -> receives f k m m'.
Proof.
  intros Hm Hf Hb. unfold dispatch_frame, wire_frame, writer_payload. cbn [command payload].
  destruct (out_command f) eqn:Hcmd.
  all: try (intros [= <-]; apply receives_none; [apply data_bytes_cmd | apply credit_bytes_cmd]; congruence).
  - by apply dispatch_connect_receives.
  - rewrite <- Hcmd. apply dispatch_data_receives; auto.
  - by apply dispatch_close_receives.
  - rewrite <- Hcmd. apply dispatch_data_receives; auto.
  - intros [= <-]. assert (Hd : data_bytes f = 0) by (apply data_bytes_cmd; congruence).
    assert (Hcr : credit_bytes f = 0) by (apply credit_bytes_cmd; congruence).
    unfold dispatch_ping. destruct (try_send _ _) as [c | |] eqn:Es; try (by apply receives_none).
    constructor; [by apply shrinks_same | done | | by left | by left].
    apply try_send_sent in Es as (-> & _). eexists [_]. split; [done |]. by repeat constructor.
  - by apply dispatch_window_update_receives.
Qed.


(** ** The receiver's side *)

Lemma credit_bytes_frame r :
  rc_stream_id r = sid -> 0 <= rc_pending r < 2 ^ 32 -> credit_bytes (RecvCredit_frame r) = rc_pending r.
Proof.
  intros Hr Hp. unfold credit_bytes, RecvCredit_frame. cbn [out_stream_id out_command out_payload].
  rewrite Hr, Z.eqb_refl. cbn [andb]. rewrite bool_decide_eq_true_2 by done. rewrite zlen_be32.
  change (true && (4 <=? 4)) with true. cbv iota.
  etransitivity; [| exact (be32_roundtrip (rc_pending r) Hp)].
  unfold from_be32, of_be, be32. cbn [take foldl]. lia.
Qed.

Lemma flow_frame_credit r :
  rc_stream_id r = sid -> 0 <= rc_pending r < 2 ^ 32 -> flow_frame (RecvCredit_frame r).
Proof.
  intros Hr Hp. split; [unfold sid_ok; cbn [RecvCredit_frame out_stream_id]; lia |].
  split; [done |]. rewrite credit_bytes_frame by done. lia.
Qed.

Lemma queued_ctrl g m c f : queue c = queue (ctrl_ch m) ++ [f] -> queued g (set_ctrl m c) = queued g m + g f.
Proof. intros E. unfold queued. cbn. rewrite E, sum_map_app. simpl. lia. Qed.

Lemma queued_writer g m c f : queue c = queue (writer_ch m) ++ [f] -> queued g (set_writer m c) = queued g m + g f.
Proof. intros E. unfold queued. cbn. rewrite E, sum_map_app. simpl. lia. Qed.

Lemma frames_ok_ctrl m c f : queue c = queue (ctrl_ch m) ++ [f] -> flow_frame f -> frames_ok m -> frames_ok (set_ctrl m c).
Proof. intros E Hf [H1 H2]. split; [| done]. cbn. rewrite E. apply Forall_app. split; [done | by apply Forall_singleton]. Qed.

Lemma frames_ok_writer m c f : queue c = queue (writer_ch m) ++ [f] -> flow_frame f -> frames_ok m -> frames_ok (set_writer m c).
Proof. intros E Hf [H1 H2]. split; [done |]. cbn. rewrite E. apply Forall_app. split; [done | by apply Forall_singleton]. Qed.

(** Consumed bytes become pending credit or a queued WindowUpdate. *)
Lemma consumed_effect m r n m' r' :
  rc_stream_id r = sid -> 0 <= rc_pending r -> 0 <= n -> rc_pending r + n < 2 ^ 32 -> frames_ok m ->
  consumed m r n = (m', r') ->
  streams m' = streams m /\ cells m' = cells m /\ frames_ok m' /\ rc_stream_id r' = sid /\ 0 <= rc_pending r' /\
  queued credit_bytes m' + rc_pending r' = queued credit_bytes m + rc_pending r + n.
Proof.
  intros Hs Hp Hn Hb Hf. unfold consumed. cbv zeta. cbn [rc_stream_id rc_pending].
  assert (sat_add U32_MAX (rc_pending r) (u32 n) = rc_pending r + n) as ->.
  { unfold sat_add, u32, U32_MAX. rewrite Z.mod_small by lia. lia. }
  set (r1 := {| rc_stream_id := rc_stream_id r; rc_pending := rc_pending r + n |}).
  assert (Hc : credit_bytes (RecvCredit_frame r1) = rc_pending r + n) by (apply credit_bytes_frame; [done | simpl; lia]).
  assert (Hff : flow_frame (RecvCredit_frame r1)) by (apply flow_frame_credit; [done | simpl; lia]).
  case_cmp; [intros [= <- <-]; simpl; split_and!; try done; lia |].
  destruct (try_send (ctrl_ch m) _) as [c | |] eqn:E1.
  { intros [= <- <-]. apply try_send_sent in E1 as (-> & _ & _). simpl. split_and!; try done; [by eapply frames_ok_ctrl |].
    rewrite (queued_ctrl _ _ _ (RecvCredit_frame r1)) by done. lia. }
  all: (destruct (try_send (writer_ch m) _) as [c | |] eqn:E2;
    [ intros [= <- <-]; apply try_send_sent in E2 as (-> & _ & _); simpl; split_and!; try done;
        [by eapply frames_ok_writer | rewrite (queued_writer _ _ _ (RecvCredit_frame r1)) by done; lia]
    | intros [= <- <-]; simpl; split_and!; try done; lia.. ]).
Qed.

Lemma sum_map_nonneg {A} (g : A -> Z) l : Forall (fun x => 0 <= g x) l -> 0 <= sum_map g l.
Proof. induction 1; simpl; lia. Qed.

Lemma cell_bytes_nonneg m k : 0 <= cell_bytes m k.
Proof.
  unfold cell_bytes. destruct (cells m !! k); [| done]. apply sum_map_nonneg, Forall_true. intros; apply zlen_nonneg.
Qed.

Lemma data_bytes_nonneg f : 0 <= data_bytes f.
Proof. unfold data_bytes. case_match; [apply zlen_nonneg | done]. Qed.

Lemma sum_data_nonneg l : 0 <= sum_map data_bytes l.
Proof. apply sum_map_nonneg, Forall_true. intros; apply data_bytes_nonneg. Qed.

Lemma sum_credit_nonneg l : Forall flow_frame l -> 0 <= sum_map credit_bytes l.
Proof. intros H. apply sum_map_nonneg. eapply Forall_impl; [exact H |]. intros f (_ & _ & ?). done. Qed.

Lemma recv_effect m pend m' r p :
  0 <= pend -> pend + cell_bytes m j < 2 ^ 32 -> frames_ok m ->
  recv_cell m j (Some {| rc_stream_id := sid; rc_pending := pend |}) = (m', Some r, p) ->
  streams m' = streams m /\ frames_ok m' /\ rc_stream_id r = sid /\ 0 <= rc_pending r /\
  cell_bytes m' j + queued credit_bytes m' + rc_pending r = cell_bytes m j + queued credit_bytes m + pend.
Proof.
  intros Hp Hb Hf. unfold recv_cell. destruct (cells m !! j) as [c |] eqn:Ec;
    [| intros [= <- <- <-]; split_and!; try done; simpl; lia].
  destruct (poll_recv (data_ch c)) as [d ch | |] eqn:Er;
    [| intros [= <- <- <-]; split_and!; try done; simpl; lia..].
  apply poll_recv_msg in Er as [Eq Ech]. set (m1 := update_cell _ _ _). cbn [consumed_opt].
  assert (Hd : cell_bytes m j = zlen d + cell_bytes m1 j).
  { unfold cell_bytes, m1, update_cell. cbn [cells set_cells]. rewrite lookup_alter_eq, Ec. simpl. rewrite Eq. done. }
  pose proof (zlen_nonneg d). pose proof (cell_bytes_nonneg m1 j).
  destruct (consumed m1 _ (zlen d)) as [m2 r2] eqn:Econ. intros [= <- <- <-].
  apply consumed_effect in Econ as (C1 & C2 & C3 & C4 & C5 & C6); try done; try (simpl; lia).
  split_and!; try done. unfold cell_bytes at 1. rewrite C2. fold (cell_bytes m1 j). simpl in C6.
  assert (queued credit_bytes m1 = queued credit_bytes m) by done. lia.
Qed.

(** ** The sender's side *)

Definition send_ok (data : bytes) (s : SendState) : Prop :=
  match s with
  | SendAcquire off => 0 <= off <= zlen data
  | SendQueue off n => 0 <= off /\ 0 < n /\ off + n <= zlen data
  | _ => True
  end.

Lemma acquire_effect m want m' p :
  0 < want -> 0 <= cell_credit m i -> acquire_cell m i want = (m', p) ->
  streams m' = streams m /\ ctrl_ch m' = ctrl_ch m /\ writer_ch m' = writer_ch m /\ 0 <= cell_credit m' i /\
  match p with
  | Ready (Ok n) => 0 < n <= want /\ cell_credit m' i + n = cell_credit m i
  | _ => cell_credit m' i = cell_credit m i
  end.
Proof.
  intros Hw Hc. unfold acquire_cell. unfold cell_credit in Hc. destruct (cells m !! i) as [c |] eqn:Ec;
    [| intros [= <- <-]; unfold cell_credit; by rewrite Ec].
  assert (Hu : forall w, cell_credit (update_cell m i (fun c => {| window := w; data_ch := data_ch c;
    close_reason := close_reason c |})) i = credit w).
  { intros w. unfold cell_credit, update_cell. cbn [cells set_cells]. by rewrite lookup_alter_eq, Ec. }
  assert (Hm : cell_credit m i = credit (window c)) by (unfold cell_credit; by rewrite Ec).
  unfold try_acquire. destruct (window_closed (window c)); [intros [= <- <-]; by rewrite Hu, Hm |].
  case_cmp; [intros [= <- <-]; by rewrite Hu, Hm |]. cbv zeta.
  destruct (Z.min (credit (window c)) want) as [| n | n] eqn:En; try lia.
  intros [= <- <-]. rewrite Hu, Hm. cbn [credit]. split_and!; try done; lia.
Qed.

Lemma writer_send_effect m f m' p :
  writer_send m f = (m', p) ->
  streams m' = streams m /\ cells m' = cells m /\
  match p with
  | Ready (Ok _) => queued data_bytes m' = queued data_bytes m + data_bytes f /\ (flow_frame f -> frames_ok m -> frames_ok m')
  | _ => m' = m
  end.
Proof.
  unfold writer_send. destruct (try_send (writer_ch m) f) as [c | |] eqn:E; intros [= <- <-]; [| done..].
  apply try_send_sent in E as (-> & _). split_and!; try done; [by apply queued_writer |].
  intros. by eapply frames_ok_writer.
Qed.

Lemma data_frame_bytes d : data_bytes (data_frame sid d) = zlen d /\ flow_frame (data_frame sid d).
Proof.
  split.
  - unfold data_bytes. cbn. by rewrite Z.eqb_refl.
  - split_and!; [done | done |]. by rewrite credit_bytes_cmd.
Qed.

(** A transition of [send_data] moves credit to the piece in hand and the piece
    to the queue. *)
Lemma send_effect m data s m' s' p :
  send_ok data s -> 0 <= cell_credit m i -> frames_ok m -> send_data_step m i sid data s = (m', s', p) ->
  streams m' = streams m /\ frames_ok m' /\ send_ok data s' /\ 0 <= cell_credit m' i /\
  cell_credit m' i + held s' + queued data_bytes m' = cell_credit m i + held s + queued data_bytes m.
Proof.
  intros Hs Hc Hf. destruct s as [| | off | off n]; cbn [send_data_step].
  - repeat case_cmp; intros [= <- <- <-]; split_and!; try done; simpl; zlen_lia.
  - destruct (writer_send m (data_frame sid [])) as [m1 q] eqn:E. apply writer_send_effect in E as (E1 & E2 & E3).
    destruct (data_frame_bytes []) as [Hd Hff].
    destruct q as [[u | u] |]; intros [= <- <- <-]; unfold cell_credit; rewrite ?E2; fold (cell_credit m i).
    + destruct E3 as [E3 E4]. change (zlen []) with 0 in Hd. rewrite E3, Hd. split_and!; auto. simpl. lia.
    + subst m1. done.
    + subst m1. done.
  - simpl in Hs. case_cmp; [| intros [= <- <- <-]; done].
    destruct (acquire_cell m i _) as [m1 q] eqn:E. apply acquire_effect in E as (E1 & E2 & E3 & E4 & E5);
      [| unfold SEND_CHUNK_MAX, MAX_PAYLOAD_LEN, U16_MAX; lia | done].
    assert (Hf1 : frames_ok m1) by (unfold frames_ok; by rewrite E2, E3).
    assert (Hq : queued data_bytes m1 = queued data_bytes m) by (unfold queued; by rewrite E2, E3).
    destruct q as [[n | u] |]; intros [= <- <- <-]; split_and!; try done; simpl; lia.
  - destruct Hs as (Ho & Hn & Hle). set (d := ztake n (zdrop off data)).
    assert (Hz : zlen d = n) by (unfold d; rewrite zlen_take; [done |]; rewrite zlen_drop; lia).
    destruct (writer_send m (data_frame sid d)) as [m1 q] eqn:E. apply writer_send_effect in E as (E1 & E2 & E3).
    destruct (data_frame_bytes d) as [Hd Hff].
    destruct q as [[u | u] |]; intros [= <- <- <-]; unfold cell_credit; rewrite ?E2; fold (cell_credit m i).
    + destruct E3 as [E3 E4]. rewrite E3, Hd, Hz. split_and!; auto; simpl; lia.
    + subst m1. done.
    + subst m1. done.
Qed.


(** ** The invariant of a link *)

Record link_inv (b : bool) (l : Link) : Prop := {
  li_near_wf : mux_wf (near l);
  li_far_wf : mux_wf (far l);
  li_near_bound : bound_to i (near l);
  li_far_bound : bound_to j (far l);
  li_near_frames : frames_ok (near l);
  li_far_frames : frames_ok (far l);
  li_wire : Forall flow_frame (wire l);
  li_back : Forall flow_frame (back l);
  li_send : send_ok (sdata l) (sstate l);
  li_credit : 0 <= cell_credit (near l) i;
  li_pending : 0 <= pending l;
  li_total : total l <= STREAM_RECV_WINDOW;
  li_exact : b = false -> registered (near l) -> registered (far l) -> total l = STREAM_RECV_WINDOW
}.

Lemma held_nonneg d s : send_ok d s -> 0 <= held s.
Proof. destruct s; simpl; lia. Qed.

Lemma queued_data_nonneg m : 0 <= queued data_bytes m.
Proof. unfold queued. pose proof (sum_data_nonneg (queue (ctrl_ch m))). pose proof (sum_data_nonneg (queue (writer_ch m))). lia. Qed.

Lemma queued_credit_nonneg m : frames_ok m -> 0 <= queued credit_bytes m.
Proof. intros [H1 H2]. unfold queued. apply sum_credit_nonneg in H1, H2. lia. Qed.

(** No account is negative, so each is bounded by the window. *)
Lemma accounts_nonneg b l : link_inv b l ->
  0 <= cell_credit (near l) i /\ 0 <= held (sstate l) /\ 0 <= queued data_bytes (near l) /\
  0 <= sum_map data_bytes (wire l) /\ 0 <= cell_bytes (far l) j /\ 0 <= pending l /\
  0 <= queued credit_bytes (far l) /\ 0 <= sum_map credit_bytes (back l).
Proof.
  intros []. split_and!; eauto using held_nonneg, queued_data_nonneg, sum_data_nonneg, cell_bytes_nonneg,
    queued_credit_nonneg, sum_credit_nonneg.
Qed.

Lemma queued_adds g m m' :
  adds_frames g m m' -> queued g m' = queued g m /\ (frames_ok m -> frames_ok m').
Proof.
  intros (fc & fw & Ec & Ew & [Hc Hw]%Forall_app).
  assert (Hz : forall l, Forall (fun f => g f = 0 /\ flow_frame f) l -> sum_map g l = 0).
  { induction 1 as [| f l [Hf _] _ IH]; simpl; lia. }
  assert (Hok : forall l, Forall (fun f => g f = 0 /\ flow_frame f) l -> Forall flow_frame l).
  { intros l Hl. eapply Forall_impl; [exact Hl |]. by intros f [_ ?]. }
  unfold queued, frames_ok. rewrite Ec, Ew, !sum_map_app, (Hz fc), (Hz fw) by done. split; [lia |].
  intros [H1 H2]. rewrite !Forall_app. auto.
Qed.

(** A turn of the writer moves the frame it takes out of the queues. *)
Lemma writer_next_effect m f m' :
  writer_next m = WFrame f m' -> frames_ok m ->
  streams m' = streams m /\ cells m' = cells m /\ flow_frame f /\ frames_ok m' /\
  forall g, queued g m' + g f = queued g m.
Proof.
  intros Hw [Hc Hb]. assert (Hsc : streams m' = streams m /\ cells m' = cells m).
  { revert Hw. unfold writer_next. repeat case_match; intros; simplify_eq; done. }
  destruct Hsc as [Es Ec]. split; [done |]. split; [done |].
  apply writer_next_head in Hw as [[Eq Ew] | (Eq & Ew & Ect)]; unfold frames_ok, queued.
  - rewrite Ew. rewrite Eq in Hc. inversion Hc; subst. split_and!; try done.
    intros g. rewrite Eq. simpl. lia.
  - rewrite Ect. rewrite Ew in Hb. inversion Hb; subst. split_and!; try done.
    intros g. rewrite Ew. simpl. lia.
Qed.

(** What receiving a frame does to the queues. *)
Lemma receives_frames f k m m' : receives f k m m' -> frames_ok m ->
  frames_ok m' /\ queued data_bytes m' = queued data_bytes m /\ queued credit_bytes m' = queued credit_bytes m.
Proof.
  intros [_ Ew (fc & Ec & Hp) _ _] [H1 H2].
  assert (Hz : Forall flow_frame fc /\ sum_map data_bytes fc = 0 /\ sum_map credit_bytes fc = 0).
  { clear -Hp. induction Hp as [| g fc [Hg Hs] _ (I1 & I2 & I3)]; [done |].
    assert (Hd : data_bytes g = 0) by (apply data_bytes_cmd; congruence).
    assert (Hcr : credit_bytes g = 0) by (apply credit_bytes_cmd; congruence).
    split_and!; [constructor; [| done] | simpl; lia | simpl; lia].
    split; [unfold sid_ok; lia | split; [done | lia]]. }
  destruct Hz as (Z1 & Z2 & Z3). unfold frames_ok, queued. rewrite Ec, Ew, !sum_map_app, Forall_app. split_and!; try done; lia.
Qed.

Lemma same_cells_credit m m' k : cells m' = cells m -> cell_credit m' k = cell_credit m k.
Proof. intros E. unfold cell_credit. by rewrite E. Qed.

Lemma same_cells_bytes m m' k : cells m' = cells m -> cell_bytes m' k = cell_bytes m k.
Proof. intros E. unfold cell_bytes. by rewrite E. Qed.

Lemma same_streams_registered m m' : streams m' = streams m -> registered m' <-> registered m.
Proof. intros E. unfold registered. by rewrite E. Qed.

Lemma same_streams_bound k m m' : streams m' = streams m -> bound_to k m -> bound_to k m'.
Proof. intros E. apply shrinks_bound. by apply shrinks_same. Qed.


Ltac link_fields := cbn [near far wire back sdata sstate pending] in *.

Lemma inv_send b l m s p :
  link_inv b l -> send_data_step (near l) i sid (sdata l) (sstate l) = (m, s, p) ->
  link_inv b {| near := m; far := far l; wire := wire l; back := back l; sdata := sdata l; sstate := s; pending := pending l |}.
Proof.
  intros Hi E. pose proof (send_data_step_wf (near l) i sid (sdata l) (sstate l) (li_near_wf _ _ Hi)) as Hw.
  rewrite E in Hw. apply send_effect in E as (Es & Ef & Eo & Ec & Et); [| apply Hi..].
  destruct Hi. unfold total in *. constructor; link_fields; try done.
  - by eapply same_streams_bound.
  - unfold total. link_fields. lia.
  - intros Hb Hr Hr'. unfold total. link_fields. rewrite <- (li_exact0 Hb); [lia | | done].
    by apply (same_streams_registered (near l)) in Hr.
Qed.

Lemma inv_near_write b l f m :
  link_inv b l -> writer_next (near l) = WFrame f m ->
  link_inv b {| near := m; far := far l; wire := wire l ++ [f]; back := back l; sdata := sdata l; sstate := sstate l; pending := pending l |}.
Proof.
  intros Hi E. pose proof (writer_next_wf (near l) (li_near_wf _ _ Hi)) as Hw. rewrite E in Hw.
  apply writer_next_effect in E as (Es & Ec & Ef & Eo & Eq); [| apply Hi]. specialize (Eq data_bytes).
  pose proof (same_cells_credit _ _ i Ec) as Hc.
  destruct Hi. unfold total in *. constructor; link_fields; try done.
  - by eapply same_streams_bound.
  - apply Forall_app. by split; [| apply Forall_singleton].
  - by rewrite Hc.
  - unfold total. link_fields. rewrite sum_map_app. simpl. lia.
  - intros Hb Hr Hr'. unfold total. link_fields. rewrite sum_map_app. simpl.
    rewrite <- (li_exact0 Hb); [lia | | done]. by apply (same_streams_registered (near l)) in Hr.
Qed.

Lemma inv_far_write b l f m :
  link_inv b l -> writer_next (far l) = WFrame f m ->
  link_inv b {| near := near l; far := m; wire := wire l; back := back l ++ [f]; sdata := sdata l; sstate := sstate l; pending := pending l |}.
Proof.
  intros Hi E. pose proof (writer_next_wf (far l) (li_far_wf _ _ Hi)) as Hw. rewrite E in Hw.
  apply writer_next_effect in E as (Es & Ec & Ef & Eo & Eq); [| apply Hi]. specialize (Eq credit_bytes).
  pose proof (same_cells_bytes _ _ j Ec) as Hc.
  destruct Hi. unfold total in *. constructor; link_fields; try done.
  - by eapply same_streams_bound.
  - apply Forall_app. by split; [| apply Forall_singleton].
  - unfold total. link_fields. rewrite sum_map_app. simpl. lia.
  - intros Hb Hr Hr'. unfold total. link_fields. rewrite sum_map_app. simpl.
    rewrite <- (li_exact0 Hb); [lia | done |]. by apply (same_streams_registered (far l)) in Hr'.
Qed.

Lemma inv_far_read b l now f w m :
  link_inv b l -> wire l = f :: w -> dispatch_frame now (far l) (wire_frame f) = Some m ->
  link_inv b {| near := near l; far := m; wire := w; back := back l; sdata := sdata l; sstate := sstate l; pending := pending l |}.
Proof.
  intros Hi Ew E. destruct (dispatch_frame_wf now (far l) (wire_frame f) (li_far_wf _ _ Hi)) as (m1 & E1 & Hw).
  assert (m1 = m) as -> by congruence. pose proof (li_wire _ _ Hi) as Hwire. rewrite Ew in Hwire.
  inversion Hwire as [| ? ? Hf Hrest]; subst.
  pose proof (dispatch_receives now (far l) f m j (li_far_wf _ _ Hi) Hf (li_far_bound _ _ Hi) E) as Hr.
  destruct (receives_frames f j (far l) m Hr (li_far_frames _ _ Hi)) as (Hfr & _ & Hq).
  pose proof (data_bytes_nonneg f). pose proof (rv_shrinks _ _ _ _ Hr) as Hsh. pose proof (rv_bytes _ _ _ _ Hr) as Hby.
  destruct Hi. unfold total in *. rewrite Ew in *. simpl in *. constructor; link_fields; try done.
  - by eapply shrinks_bound.
  - unfold total. link_fields. destruct Hby as [[? _] | ?]; lia.
  - intros Hb Hr1 Hr2. unfold total. link_fields.
    rewrite <- (li_exact0 Hb Hr1) by (by eapply shrinks_registered).
    destruct Hby as [[? Hz] | ?]; [specialize (Hz Hr2) |]; lia.
Qed.

Lemma inv_near_read b l now f w m :
  link_inv b l -> back l = f :: w -> dispatch_frame now (near l) (wire_frame f) = Some m ->
  link_inv b {| near := m; far := far l; wire := wire l; back := w; sdata := sdata l; sstate := sstate l; pending := pending l |}.
Proof.
  intros Hi Ew E. destruct (dispatch_frame_wf now (near l) (wire_frame f) (li_near_wf _ _ Hi)) as (m1 & E1 & Hw).
  assert (m1 = m) as -> by congruence. pose proof (li_back _ _ Hi) as Hback. rewrite Ew in Hback.
  inversion Hback as [| ? ? Hf Hrest]; subst.
  pose proof (dispatch_receives now (near l) f m i (li_near_wf _ _ Hi) Hf (li_near_bound _ _ Hi) E) as Hr.
  destruct (receives_frames f i (near l) m Hr (li_near_frames _ _ Hi)) as (Hfr & Hq & _).
  pose proof (accounts_nonneg _ _ Hi) as (N1 & N2 & N3 & N4 & N5 & N6 & N7 & _).
  assert (Hcf : 0 <= credit_bytes f) by apply Hf.
  pose proof (sum_credit_nonneg w Hrest) as Hwn.
  pose proof (rv_shrinks _ _ _ _ Hr) as Hsh. pose proof (rv_credit _ _ _ _ Hr) as Hcr.
  destruct Hi. unfold total in *. rewrite Ew in *. simpl in *.
  unfold I64_MAX, STREAM_RECV_WINDOW in *. constructor; link_fields; try done.
  - by eapply shrinks_bound.
  - destruct Hcr as [[? _] | ?]; lia.
  - unfold total, STREAM_RECV_WINDOW. link_fields. destruct Hcr as [[? _] | ?]; lia.
  - intros Hb Hr1 Hr2. unfold total, STREAM_RECV_WINDOW. link_fields.
    assert (Hreg : registered (near l)) by (by eapply shrinks_registered).
    specialize (li_exact0 Hb Hreg Hr2). destruct Hcr as [[? Hz] | ?]; [specialize (Hz Hr1) |]; lia.
Qed.

Lemma inv_recv b l m r p :
  link_inv b l -> recv_cell (far l) j (Some {| rc_stream_id := sid; rc_pending := pending l |}) = (m, Some r, p) ->
  link_inv b {| near := near l; far := m; wire := wire l; back := back l; sdata := sdata l; sstate := sstate l; pending := rc_pending r |}.
Proof.
  intros Hi E. pose proof (recv_cell_wf (far l) j (Some {| rc_stream_id := sid; rc_pending := pending l |}) (li_far_wf _ _ Hi)) as Hw.
  rewrite E in Hw. cbn [fst] in Hw.
  pose proof (accounts_nonneg _ _ Hi) as (N1 & N2 & N3 & N4 & N5 & N6 & N7 & N8).
  pose proof (li_total _ _ Hi) as Ht. unfold total, STREAM_RECV_WINDOW in Ht.
  apply recv_effect in E as (Es & Ef & Ers & Ep & Et); [| done | lia | apply Hi].
  destruct Hi. unfold total in *. constructor; link_fields; try done.
  - by eapply same_streams_bound.
  - unfold total. link_fields. lia.
  - intros Hb Hr1 Hr2. unfold total. link_fields.
    rewrite <- (li_exact0 Hb Hr1); [lia |]. by apply (same_streams_registered (far l)) in Hr2.
Qed.

Lemma inv_near_other b l m :
  link_inv b l -> keeps_off data_bytes (fun m => cell_credit m i) i (near l) m ->
  link_inv b {| near := m; far := far l; wire := wire l; back := back l; sdata := sdata l; sstate := sstate l; pending := pending l |}.
Proof.
  intros Hi (Hw & Hb & Hv & Hr & Ha). cbn beta in Hv. apply queued_adds in Ha as [Hq Hf].
  destruct Hi. unfold total in *. constructor; link_fields; try done; auto.
  - by rewrite Hv.
  - unfold total. link_fields. lia.
  - intros Hb' Hr1 Hr2. unfold total. link_fields. rewrite <- (li_exact0 Hb' (Hr Hr1) Hr2). lia.
Qed.

Lemma inv_far_other b l m :
  link_inv b l -> keeps_off credit_bytes (fun m => cell_bytes m j) j (far l) m ->
  link_inv b {| near := near l; far := m; wire := wire l; back := back l; sdata := sdata l; sstate := sstate l; pending := pending l |}.
Proof.
  intros Hi (Hw & Hb & Hv & Hr & Ha). cbn beta in Hv. apply queued_adds in Ha as [Hq Hf].
  destruct Hi. unfold total in *. constructor; link_fields; try done; auto.
  - unfold total. link_fields. lia.
  - intros Hb' Hr1 Hr2. unfold total. link_fields. rewrite <- (li_exact0 Hb' Hr1 (Hr Hr2)). lia.
Qed.


(** ** Steps that lose something *)

Lemma drop_receiver_bytes m : cell_bytes (drop_receiver m j) j = 0.
Proof.
  unfold cell_bytes, drop_receiver, update_cell. cbn [cells set_cells]. rewrite lookup_alter_eq. by destruct (cells m !! j).
Qed.

Lemma writer_end_effect m : streams (writer_end m) = streams m /\ cells (writer_end m) = cells m /\
  frames_ok (writer_end m) /\ forall g, queued g (writer_end m) = 0.
Proof. split_and!; done || constructor. Qed.

Lemma reader_end_effect m : streams (reader_end m) = ∅ /\
  (forall k, cell_credit (reader_end m) k = cell_credit m k) /\ (forall k, cell_bytes (reader_end m) k = cell_bytes m k) /\
  ctrl_ch (reader_end m) = ctrl_ch m /\ writer_ch (reader_end m) = writer_ch m.
Proof.
  unfold reader_end. split; [apply clear_streams_empty |].
  destruct (clear_streams_effect (set_alive (set_new_stream m (drop_tx (new_stream_ch m))) false)) as (H1 & H2 & H3 & H4).
  split_and!; done.
Qed.

Lemma bound_empty k m : streams m = ∅ -> bound_to k m.
Proof. intros E s e. by rewrite E, lookup_empty. Qed.

Lemma inv_lossy b l l' : link_inv b l -> link_step l true l' -> link_inv true l'.
Proof.
  intros Hi Hs. pose proof (accounts_nonneg _ _ Hi) as (N1 & N2 & N3 & N4 & N5 & N6 & N7 & N8).
  destruct Hi. unfold total in *. remember true as t eqn:Et.
  destruct Hs; try discriminate; constructor; link_fields; try done; unfold total; link_fields.
  - simpl. lia.
  - by apply drop_receiver_wf.
  - rewrite drop_receiver_bytes. change (queued credit_bytes (drop_receiver (far l) j)) with (queued credit_bytes (far l)). lia.
  - by apply writer_end_wf.
  - destruct (writer_end_effect (near l)) as (_ & Ec & _ & Eq). rewrite Eq, (same_cells_credit _ _ _ Ec). lia.
  - by apply writer_end_wf.
  - destruct (writer_end_effect (far l)) as (_ & Ec & _ & Eq). rewrite Eq, (same_cells_bytes _ _ _ Ec). lia.
  - by apply reader_end_wf.
  - apply bound_empty, reader_end_effect.
  - unfold frames_ok. destruct (reader_end_effect (near l)) as (_ & _ & _ & -> & ->). done.
  - destruct (reader_end_effect (near l)) as (_ & -> & _). done.
  - unfold queued in *. destruct (reader_end_effect (near l)) as (_ & -> & _ & -> & ->). lia.
  - by apply reader_end_wf.
  - apply bound_empty, reader_end_effect.
  - unfold frames_ok. destruct (reader_end_effect (far l)) as (_ & _ & _ & -> & ->). done.
  - unfold queued in *. destruct (reader_end_effect (far l)) as (_ & _ & -> & -> & ->). lia.
Qed.

Lemma link_step_inv b l b' l' : link_inv b l -> link_step l b' l' -> link_inv (b || b') l'.
Proof.
  intros Hi Hs. destruct b'; [rewrite orb_true_r; by eapply inv_lossy |]. rewrite orb_false_r.
  remember false as t eqn:Et. destruct Hs; try discriminate.
  - by eapply inv_send.
  - destruct Hi. constructor; link_fields; try done; unfold total in *; link_fields; simpl in *; try lia.
    intros Hb Hr1 Hr2. specialize (li_exact0 Hb Hr1 Hr2). lia.
  - by eapply inv_near_write.
  - by eapply inv_far_write.
  - by eapply inv_far_read.
  - by eapply inv_near_read.
  - by eapply inv_recv.
  - by apply inv_near_other.
  - by apply inv_far_other.
Qed.

Lemma link_run_inv l0 b l : link_inv false l0 -> link_run l0 b l -> link_inv b l.
Proof. intros H0. induction 1; [done | by eapply link_step_inv]. Qed.

End flow.

(** ** Opening a stream on both sides *)

Section opened.
Context (sid : Z) (Hsid : 0 <= sid < 2 ^ 32).

(** Frames that do not concern the stream yet. *)
Definition unrelated (f : OutFrame) : Prop :=
  flow_frame sid f /\ data_bytes sid f = 0 /\ credit_bytes sid f = 0.

Definition ready_to_open (m : Multiplexer) : Prop :=
  mux_wf m /\ caps_window (caps m) = true /\
  Forall unrelated (queue (ctrl_ch m)) /\ Forall unrelated (queue (writer_ch m)).

Lemma register_streams m s :
  streams (register_stream m s).1
  = <[s := {| entry_cell := next_cell m; got_data := false; domain := false |}]> (streams (remove_stream m s)).
Proof. unfold register_stream, insert_stream. cbn [fst streams set_streams]. by rewrite alloc_remove_streams. Qed.

Lemma register_cells m s :
  mux_wf m -> cells (register_stream m s).1 = <[next_cell m := new_cell m]> (cells (remove_stream m s)).
Proof. intros Hm. unfold register_stream, insert_stream. cbn [fst cells set_streams]. by rewrite alloc_remove_cells. Qed.

Lemma register_queues m s : ctrl_ch (register_stream m s).1 = ctrl_ch m /\ writer_ch (register_stream m s).1 = writer_ch m.
Proof.
  unfold register_stream, insert_stream, remove_stream. cbn. by destruct (streams m !! s).
Qed.

Lemma register_bound m : mux_wf m -> bound_to sid (next_cell m) (register_stream m sid).1.
Proof.
  intros Hm s e. rewrite register_streams. intros [[<- <-] | [Hne Hs]]%lookup_insert_Some; [done |].
  apply remove_stream_sub in Hs as [Hs _]. destruct (wf_entry m Hm s e Hs) as [c Hc]. apply (wf_fresh m Hm) in Hc.
  split; [lia | congruence].
Qed.

Lemma register_accounts m : mux_wf m -> caps_window (caps m) = true ->
  cell_credit (register_stream m sid).1 (next_cell m) = STREAM_RECV_WINDOW /\
  cell_bytes (register_stream m sid).1 (next_cell m) = 0.
Proof.
  intros Hm Hc. unfold cell_credit, cell_bytes. rewrite register_cells, lookup_insert_eq by done.
  unfold new_cell, new_send_window. by rewrite Hc.
Qed.

Lemma unrelated_sums l : Forall unrelated l ->
  Forall (flow_frame sid) l /\ sum_map (data_bytes sid) l = 0 /\ sum_map (credit_bytes sid) l = 0.
Proof.
  induction 1 as [| f l (Hf & Hd & Hc) _ (I1 & I2 & I3)]; [done |].
  split_and!; [by constructor | simpl; lia | simpl; lia].
Qed.

(** The stream is registered on both endpoints; the wires carry what they
    carried before. *)
Definition link_open (mA mB : Multiplexer) (w b : list OutFrame) (d : bytes) : Link :=
  {| near := (register_stream mA sid).1; far := (register_stream mB sid).1; wire := w; back := b;
     sdata := d; sstate := SendStart; pending := 0 |}.

Lemma link_open_inv mA mB w b d :
  ready_to_open mA -> ready_to_open mB -> Forall unrelated w -> Forall unrelated b ->
  link_inv sid (next_cell mA) (next_cell mB) false (link_open mA mB w b d).
Proof.
  intros (HA & CA & QA1 & QA2) (HB & CB & QB1 & QB2) Hw Hb.
  destruct (register_accounts mA HA CA) as [A1 _]. destruct (register_accounts mB HB CB) as [_ B2].
  destruct (register_queues mA sid) as [AC AW]. destruct (register_queues mB sid) as [BC BW].
  apply unrelated_sums in QA1 as (? & ? & ?), QA2 as (? & ? & ?), QB1 as (? & ? & ?), QB2 as (? & ? & ?),
    Hw as (? & ? & ?), Hb as (? & ? & ?).
  assert (Ht : total sid (next_cell mA) (next_cell mB) (link_open mA mB w b d) = STREAM_RECV_WINDOW).
  { unfold total, queued, link_open. cbn [near far wire back sstate pending held].
    rewrite A1, B2, AC, AW, BC, BW. lia. }
  constructor; unfold frames_ok; cbn [near far wire back sdata sstate pending link_open];
    rewrite ?AC, ?AW, ?BC, ?BW, ?A1; try done;
    try (by apply register_stream_wf); try (by apply register_bound).
  by rewrite Ht.
Qed.

End opened.

(** ** Other activity at an endpoint *)

Section other.
Context (sid : Z) (k : nat) (g : OutFrame -> Z) (v : Multiplexer -> Z).
Context (Hv : forall m m', cells m' !! k = cells m !! k -> v m' = v m).

(** Queueing any frame that is not the stream's. *)
Lemma writer_send_keeps_off m f :
  mux_wf m -> bound_to sid k m -> g f = 0 -> flow_frame sid f -> keeps_off sid g v k m (writer_send m f).1.
Proof.
  intros Hm Hb Hg Hf. split_and!; [by apply writer_send_wf | | | |]; unfold writer_send;
    destruct (try_send (writer_ch m) f) as [c | |] eqn:E; cbn [fst]; try done; try (by apply Hv);
    try (exists [], []; rewrite !app_nil_r; done).
  apply try_send_sent in E as (-> & _). exists [], [f]. rewrite app_nil_r. split_and!; try done. by apply Forall_singleton.
Qed.

Lemma ctrl_send_keeps_off m f :
  mux_wf m -> bound_to sid k m -> g f = 0 -> flow_frame sid f -> keeps_off sid g v k m (ctrl_send m f).1.
Proof.
  intros Hm Hb Hg Hf. split_and!; [by apply ctrl_send_wf | | | |]; unfold ctrl_send;
    destruct (try_send (ctrl_ch m) f) as [c | |] eqn:E; cbn [fst]; try done; try (by apply Hv);
    try (exists [], []; rewrite !app_nil_r; done).
  apply try_send_sent in E as (-> & _). exists [f], []. rewrite !app_nil_r. split_and!; try done. by apply Forall_singleton.
Qed.

(** Registering another stream. *)
Lemma register_keeps_off m s :
  mux_wf m -> bound_to sid k m -> is_Some (streams m !! sid) -> s <> sid -> keeps_off sid g v k m (register_stream m s).1.
Proof.
  intros Hm Hb [e He] Hs. assert (Hk : entry_cell e = k) by (by apply (Hb _ _ He)).
  destruct (wf_entry m Hm _ _ He) as [c Hc]. rewrite Hk in Hc. apply (wf_fresh m Hm) in Hc as Hlt.
  destruct (register_queues m s) as [Ec Ew]. split_and!.
  - by apply register_stream_wf.
  - intros s' e'. rewrite register_streams. intros [[<- <-] | [Hne Hx]]%lookup_insert_Some.
    + cbn [entry_cell]. split; [lia | done].
    + apply remove_stream_sub in Hx as [Hx _]. by apply Hb.
  - apply Hv. rewrite register_cells, lookup_insert_ne by (done || lia). unfold remove_stream.
    destruct (streams m !! s) as [e' |] eqn:E'; [| done]. unfold drop_entry, update_cell.
    cbn [cells set_cells set_streams]. rewrite lookup_alter_ne; [done |].
    intros E. apply Hs. by apply (Hb _ _ E').
  - intros _. by exists e.
  - exists [], []. rewrite !app_nil_r, Ec, Ew. done.
Qed.

End other.

(** ** Claims *)

(** C1: Flow control conserves the window: over any interleaving of sends, writer turns,
    deliveries, reads and unrelated traffic, the sender's credit plus the bytes
    and credits in transit plus what the receiver holds never exceed 1 MiB,
    whatever is lost; in a run without losses they are exactly 1 MiB as long as
    both ends keep the stream. In particular a slow reader costs at most 1 MiB. *)
Theorem flow_window_conserved (sid : Z) (mA mB : Multiplexer) (w b : list OutFrame) (d : bytes) (lossy : bool) (l : Link) :
  0 <= sid < 2 ^ 32 -> ready_to_open sid mA -> ready_to_open sid mB ->
  Forall (unrelated sid) w -> Forall (unrelated sid) b ->
  link_run sid (next_cell mA) (next_cell mB) (link_open sid mA mB w b d) lossy l ->
  total sid (next_cell mA) (next_cell mB) l <= STREAM_RECV_WINDOW /\
  cell_bytes (far l) (next_cell mB) <= STREAM_RECV_WINDOW /\
  (lossy = false -> registered sid (near l) -> registered sid (far l) ->
     total sid (next_cell mA) (next_cell mB) l = STREAM_RECV_WINDOW).
Proof.
  intros Hs HA HB Hw Hb Hrun.
  assert (Hi : link_inv sid (next_cell mA) (next_cell mB) lossy l)
    by (apply (link_run_inv sid Hs _ _ (link_open sid mA mB w b d)); [by apply link_open_inv | done]).
  pose proof (accounts_nonneg _ _ _ _ _ Hi) as (N1 & N2 & N3 & N4 & N5 & N6 & N7 & N8).
  pose proof (li_total _ _ _ _ _ Hi) as Ht. split; [done |]. split; [unfold total in Ht; lia | apply Hi].
Qed.

Lemma ready_new i h : forall sid, ready_to_open sid (new_inner i h MuxCaps_LOCAL).
Proof. intros sid. split_and!; [apply new_inner_wf | done | constructor | constructor]. Qed.

Definition ex_link : Link :=
  link_open 7 (new_client MuxCaps_LOCAL) (new_server MuxCaps_LOCAL) [] [] [1; 2; 3].

(** The link after the first transition of its send call. *)
Definition ex_link1 : Link :=
  let st := send_data_step (near ex_link) 0 7 (sdata ex_link) (sstate ex_link) in
  {| near := st.1.1; far := far ex_link; wire := wire ex_link; back := back ex_link; sdata := sdata ex_link;
     sstate := st.1.2; pending := pending ex_link |}.

Lemma ex_link_run : link_run 7 0 0 ex_link false ex_link1.
Proof.
  apply (lr_step 7 0 0 ex_link false ex_link false ex_link1); [constructor |]. eapply ls_send. reflexivity.
Qed.

Lemma flow_window_conserved_witness : cell_bytes (far ex_link1) 0 <= STREAM_RECV_WINDOW.
Proof.
  apply (flow_window_conserved 7 (new_client MuxCaps_LOCAL) (new_server MuxCaps_LOCAL) [] [] [1; 2; 3] false ex_link1);
    [lia | apply ready_new | apply ready_new | constructor | constructor | apply ex_link_run].
Defined.

(** C2: Flow control does not deadlock: in a run without losses where both ends keep the
    stream, the sender has credit or a granted piece in hand, or bytes or
    credits of the stream are under way or unread, or the receiver sits on at
    least half a window; and a read leaves it sitting on that much only when
    both of its outgoing queues refuse the frame. *)
Theorem flow_no_deadlock (sid : Z) (mA mB : Multiplexer) (w b : list OutFrame) (d : bytes) (l : Link) :
  0 <= sid < 2 ^ 32 -> ready_to_open sid mA -> ready_to_open sid mB ->
  Forall (unrelated sid) w -> Forall (unrelated sid) b ->
  link_run sid (next_cell mA) (next_cell mB) (link_open sid mA mB w b d) false l ->
  registered sid (near l) -> registered sid (far l) ->
  (0 < cell_credit (near l) (next_cell mA) \/ 0 < held (sstate l) \/
   0 < queued (data_bytes sid) (near l) + sum_map (data_bytes sid) (wire l) + cell_bytes (far l) (next_cell mB)
       + queued (credit_bytes sid) (far l) + sum_map (credit_bytes sid) (back l)
   \/ WINDOW_UPDATE_THRESHOLD <= pending l) /\
  (forall m r p m' r',
     consumed m r p = (m', r') -> WINDOW_UPDATE_THRESHOLD <= rc_pending r' ->
     (forall f, try_send (ctrl_ch m) f = Full \/ try_send (ctrl_ch m) f = Closed) /\
     (forall f, try_send (writer_ch m) f = Full \/ try_send (writer_ch m) f = Closed)).
Proof.
  intros Hs HA HB Hw Hb Hrun Hr1 Hr2.
  assert (Hi : link_inv sid (next_cell mA) (next_cell mB) false l)
    by (apply (link_run_inv sid Hs _ _ (link_open sid mA mB w b d)); [by apply link_open_inv | done]).
  pose proof (accounts_nonneg _ _ _ _ _ Hi) as (N1 & N2 & N3 & N4 & N5 & N6 & N7 & N8).
  pose proof (li_exact _ _ _ _ _ Hi eq_refl Hr1 Hr2) as Ht. unfold total in Ht.
  change WINDOW_UPDATE_THRESHOLD with 524288. unfold STREAM_RECV_WINDOW in Ht. split; [lia |].
  intros m r p m' r'. unfold consumed. cbv zeta. change WINDOW_UPDATE_THRESHOLD with 524288.
  case_cmp; [intros [= <- <-]; lia |].
  assert (Hsame : forall (c : Chan OutFrame) f f', try_send c f = Full \/ try_send c f = Closed ->
    try_send c f' = Full \/ try_send c f' = Closed).
  { intros c f f'. unfold try_send. destruct (rx_gone c); [auto |]. case_cmp; [by intros [] | auto]. }
  destruct (try_send (ctrl_ch m) _) as [c | |] eqn:E1; [intros [= <- <-]; simpl; lia | |];
    (destruct (try_send (writer_ch m) _) as [c | |] eqn:E2; [intros [= <- <-]; simpl; lia | |]);
    intros [= <- <-] _; split; intros f; eapply Hsame; eauto.
Qed.

Lemma flow_no_deadlock_witness :
  (0 < cell_credit (near ex_link1) 0 \/ 0 < held (sstate ex_link1) \/
   0 < queued (data_bytes 7) (near ex_link1) + sum_map (data_bytes 7) (wire ex_link1) + cell_bytes (far ex_link1) 0
       + queued (credit_bytes 7) (far ex_link1) + sum_map (credit_bytes 7) (back ex_link1))
  \/ WINDOW_UPDATE_THRESHOLD <= pending ex_link1.
Proof.
  destruct (flow_no_deadlock 7 (new_client MuxCaps_LOCAL) (new_server MuxCaps_LOCAL) [] [] [1; 2; 3] ex_link1)
    as [H _]; [lia | apply ready_new | apply ready_new | constructor | constructor | apply ex_link_run
              | by eexists | by eexists |].
  tauto.
Defined.
