(* ===== verification/MuxIo.v ===== *)
(** * Sending and the byte-stream adapter (xr-proto/src/mux.rs)

    [send_data] as a whole, [MuxStreamIo] with its [AsyncRead] and [AsyncWrite]
    operations, and the agreement of the handshake. *)

From S2P Require Import Prelude Obfuscation Protocol RelayHealth Chan Mux MuxTasks MuxInv MuxFlow.

(** ** The adapter *)

(** The stored future of a write: it still waits for credit, or for a slot. *)
Inductive WriteFut := FutAcquire (p : bytes) | FutSend (p : bytes).

Record MuxStreamIo := {
  io_stream_id : Z;
  io_cell : nat;
  io_recv_credit : option RecvCredit;
  read_buf : bytes;
  read_pos : Z;
  write_fut : option WriteFut;
  close_fut : bool;
  io_closed : bool
}.

(** [into_io]; [None] is the panic on a stream whose receiver was taken. *)
Definition into_io (s : MuxStream) : option MuxStreamIo :=
  if ms_has_rx s then
    Some {| io_stream_id := ms_stream_id s; io_cell := ms_cell s; io_recv_credit := ms_recv_credit s;
            read_buf := []; read_pos := 0; write_fut := None; close_fut := false; io_closed := ms_closed s |}
  else None.

Definition io_set_read (io : MuxStreamIo) (b : bytes) (pos : Z) (r : option RecvCredit) : MuxStreamIo :=
  {| io_stream_id := io_stream_id io; io_cell := io_cell io; io_recv_credit := r; read_buf := b; read_pos := pos;
     write_fut := write_fut io; close_fut := close_fut io; io_closed := io_closed io |}.

Definition io_set_fut (io : MuxStreamIo) (f : option WriteFut) : MuxStreamIo :=
  {| io_stream_id := io_stream_id io; io_cell := io_cell io; io_recv_credit := io_recv_credit io;
     read_buf := read_buf io; read_pos := read_pos io; write_fut := f; close_fut := close_fut io; io_closed := io_closed io |}.

Definition io_set_close (io : MuxStreamIo) (fut closed : bool) : MuxStreamIo :=
  {| io_stream_id := io_stream_id io; io_cell := io_cell io; io_recv_credit := io_recv_credit io;
     read_buf := read_buf io; read_pos := read_pos io; write_fut := write_fut io; close_fut := fut; io_closed := closed |}.

(** The receive loop of [poll_read]: empty payloads are skipped. *)
Fixpoint read_loop (fuel : nat) (m : Multiplexer) (io : MuxStreamIo) (remaining : Z) :
    Multiplexer * MuxStreamIo * Poll bytes :=
  match fuel with
  | O => (m, io, PollPending)
  | S fuel =>
      match recv_cell m (io_cell io) (io_recv_credit io) with
      | (m, r, Ready (Some data)) =>
          if zlen data =? 0 then read_loop fuel m (io_set_read io (read_buf io) (read_pos io) r) remaining
          else
            let n := Z.min (zlen data) remaining in
            if n <? zlen data then (m, io_set_read io data n r, Ready (ztake n data))
            else (m, io_set_read io (read_buf io) (read_pos io) r, Ready (ztake n data))
      | (m, r, Ready None) => (m, io_set_read io (read_buf io) (read_pos io) r, Ready [])
      | (m, r, PollPending) => (m, io_set_read io (read_buf io) (read_pos io) r, PollPending)
      end
  end.

Definition queue_len (m : Multiplexer) (i : nat) : nat :=
  match cells m !! i with Some c => length (queue (data_ch c)) | None => 0 end.

(** The bytes put into the caller's buffer, which has [remaining] free. *)
Definition poll_read (m : Multiplexer) (io : MuxStreamIo) (remaining : Z) : Multiplexer * MuxStreamIo * Poll bytes :=
  if remaining =? 0 then (m, io, Ready [])
  else if read_pos io <? zlen (read_buf io) then
    let n := Z.min (zlen (read_buf io) - read_pos io) remaining in
    let out := ztake n (zdrop (read_pos io) (read_buf io)) in
    let pos := read_pos io + n in
    if zlen (read_buf io) <=? pos then (m, io_set_read io [] 0 (io_recv_credit io), Ready out)
    else (m, io_set_read io (read_buf io) pos (io_recv_credit io), Ready out)
  else read_loop (S (queue_len m (io_cell io))) m io remaining.

(** One poll of the stored future. *)
Definition poll_fut (m : Multiplexer) (io : MuxStreamIo) (f : WriteFut) : Multiplexer * option WriteFut * Poll (result Z unit) :=
  let queue_piece m p :=
    match writer_send m (data_frame (io_stream_id io) p) with
    | (m, Ready (Ok _)) => (m, None, Ready (Ok (zlen p)))
    | (m, Ready (Err _)) => (m, None, Ready (Err tt))
    | (m, PollPending) => (m, Some (FutSend p), PollPending)
    end in
  match f with
  | FutAcquire p =>
      match acquire_cell m (io_cell io) (zlen p) with
      | (m, Ready (Ok granted)) => queue_piece m (ztake granted p)
      | (m, Ready (Err _)) => (m, None, Ready (Err tt))
      | (m, PollPending) => (m, Some f, PollPending)
      end
  | FutSend p => queue_piece m p
  end.

(** [None] is the panic of [expect] on an absent future. *)
Definition poll_stored_write (m : Multiplexer) (io : MuxStreamIo) :
    option (Multiplexer * MuxStreamIo * Poll (io_result Z)) :=
  f ← write_fut io;
  let '(m, f', p) := poll_fut m io f in
  let io := io_set_fut io f' in
  Some (m, io, match p with
               | Ready (Ok n) => Ready (Ok n)
               | Ready (Err _) => Ready (Err mux_broken)
               | PollPending => PollPending
               end).

Definition poll_write (m : Multiplexer) (io : MuxStreamIo) (buf : bytes) :
    option (Multiplexer * MuxStreamIo * Poll (io_result Z)) :=
  match write_fut io with
  | Some _ => poll_stored_write m io
  | None =>
      if negb (alive m) then Some (m, io, Ready (Err mux_broken))
      else if zlen buf =? 0 then Some (m, io, Ready (Ok 0))
      else
        let want := Z.min (zlen buf) IO_WRITE_CHUNK in
        match acquire_cell m (io_cell io) want with
        | (m, Ready (Err _)) => Some (m, io, Ready (Err mux_broken))
        | (m, PollPending) => poll_stored_write m (io_set_fut io (Some (FutAcquire (ztake want buf))))
        | (m, Ready (Ok n)) =>
            let frame := data_frame (io_stream_id io) (ztake n buf) in
            match try_send (writer_ch m) frame with
            | Sent c => Some (set_writer m c, io, Ready (Ok n))
            | Full => poll_stored_write m (io_set_fut io (Some (FutSend (ztake n buf))))
            | Closed => Some (m, io, Ready (Err mux_broken))
            end
        end
  end.

Definition poll_flush (m : Multiplexer) (io : MuxStreamIo) : option (Multiplexer * MuxStreamIo * Poll (io_result unit)) :=
  match write_fut io with
  | None => Some (m, io, Ready (Ok tt))
  | Some _ =>
      '(m, io, p) ← poll_stored_write m io;
      Some (m, io, match p with
                   | Ready (Ok _) => Ready (Ok tt)
                   | Ready (Err e) => Ready (Err e)
                   | PollPending => PollPending
                   end)
  end.

(** The part of [poll_shutdown] after a pending Data send has finished. *)
Definition shutdown_close (m : Multiplexer) (io : MuxStreamIo) : Multiplexer * MuxStreamIo * Poll (io_result unit) :=
  if io_closed io then (m, io, Ready (Ok tt)) else
  match writer_send m (close_frame (io_stream_id io) []) with
  | (m, Ready _) => (m, io_set_close io false true, Ready (Ok tt))
  | (m, PollPending) => (m, io_set_close io true false, PollPending)
  end.

Definition poll_shutdown (m : Multiplexer) (io : MuxStreamIo) : option (Multiplexer * MuxStreamIo * Poll (io_result unit)) :=
  match write_fut io with
  | None => Some (shutdown_close m io)
  | Some _ =>
      '(m, io, p) ← poll_stored_write m io;
      match p with
      | Ready (Ok _) => Some (shutdown_close m io)
      | Ready (Err e) => Some (m, io, Ready (Err e))
      | PollPending => Some (m, io, PollPending)
      end
  end.

Definition MuxStreamIo_drop (m : Multiplexer) (io : MuxStreamIo) : Multiplexer :=
  let m := if negb (io_closed io) && alive m then close_on_drop m (io_stream_id io) else m in
  drop_receiver m (io_cell io).

(** ** Reading is reading a byte queue *)

(** The bytes of the stream that arrived and were not handed out. *)
Definition unread (m : Multiplexer) (io : MuxStreamIo) : bytes :=
  zdrop (read_pos io) (read_buf io) ++
  match cells m !! io_cell io with Some c => concat (queue (data_ch c)) | None => [] end.

Definition io_ok (io : MuxStreamIo) : Prop := 0 <= read_pos io <= zlen (read_buf io).

(** The channel has no sender and no message left. *)
Definition at_end (m : Multiplexer) (io : MuxStreamIo) : Prop :=
  match cells m !! io_cell io with Some c => queue (data_ch c) = [] /\ tx_gone (data_ch c) = true | None => True end.

Lemma consumed_cells m r n : cells (consumed_opt m r n).1 = cells m.
Proof.
  unfold consumed_opt. destruct r as [r |]; [| done]. unfold consumed. cbv zeta.
  case_cmp; [done |]. destruct (try_send (ctrl_ch m) _); [done | |]; by destruct (try_send (writer_ch m) _).
Qed.

(** One receive: the head of the channel. *)
Lemma recv_cell_queue m i r m' r' p :
  recv_cell m i r = (m', r', p) ->
  match p with
  | Ready (Some d) => exists c c', cells m !! i = Some c /\ cells m' !! i = Some c' /\
      queue (data_ch c) = d :: queue (data_ch c') /\ tx_gone (data_ch c') = tx_gone (data_ch c)
  | Ready None => m' = m /\ match cells m !! i with Some c => queue (data_ch c) = [] /\ tx_gone (data_ch c) = true | None => True end
  | PollPending => m' = m /\ exists c, cells m !! i = Some c /\ queue (data_ch c) = [] /\ tx_gone (data_ch c) = false
  end.
Proof.
  unfold recv_cell. destruct (cells m !! i) as [c |] eqn:Ec; [| by intros [= <- <- <-]].
  unfold poll_recv. destruct (queue (data_ch c)) as [| d q] eqn:Eq.
  - destruct (tx_gone (data_ch c)) eqn:Et; intros [= <- <- <-]; [done |]. split; [done |]. by exists c.
  - set (m1 := update_cell _ _ _). pose proof (consumed_cells m1 r (zlen d)) as Hc.
    destruct (consumed_opt m1 r (zlen d)) as [m2 r2]. intros [= <- <- <-]. cbn [fst] in Hc.
    exists c. eexists. split; [done |]. rewrite Hc. unfold m1, update_cell. cbn [cells set_cells].
    rewrite lookup_alter_eq, Ec. simpl. done.
Qed.

Lemma read_loop_spec fuel m io remaining m' io' p :
  zdrop (read_pos io) (read_buf io) = [] -> io_ok io -> 0 < remaining -> (queue_len m (io_cell io) < fuel)%nat ->
  read_loop fuel m io remaining = (m', io', p) ->
  io_ok io' /\ io_cell io' = io_cell io /\
  match p with
  | Ready out => unread m io = out ++ unread m' io' /\ zlen out <= remaining /\ (out = [] -> at_end m' io')
  | PollPending => unread m io = unread m' io' /\ unread m io = []
  end.
Proof.
  revert m io. induction fuel as [| fuel IH]; intros m io Hd Hok Hr Hf; [lia |]. cbn [read_loop].
  destruct (recv_cell m (io_cell io) (io_recv_credit io)) as [[m1 r] q] eqn:E. apply recv_cell_queue in E.
  unfold unread. rewrite Hd. cbn [app]. destruct q as [[d |] |].
  - destruct E as (c & c' & Ec & Ec' & Eq & Et). rewrite Ec, Eq. cbn [concat].
    destruct (Z.eqb_spec (zlen d) 0) as [E0 | E0].
    + apply zlen_0_nil in E0 as ->. intros E. apply IH in E; [| done.. |].
      * unfold unread in E. cbn [io_set_read read_pos read_buf io_cell] in E. rewrite Hd, Ec' in E. exact E.
      * unfold queue_len in *. cbn [io_cell io_set_read]. rewrite Ec'. rewrite Ec, Eq in Hf. simpl in Hf. lia.
    + pose proof (zlen_nonneg d). cbv zeta. case_cmp; intros [= <- <- <-];
        cbn [io_set_read read_pos read_buf io_cell]; rewrite Ec'.
      * split; [unfold io_ok; cbn; lia |]. split; [done |].
        split; [by rewrite app_assoc, ztake_zdrop |]. split; [rewrite zlen_take; lia |].
        intros E1. apply (f_equal zlen) in E1. rewrite zlen_take, zlen_nil in E1; lia.
      * rewrite Z.min_l by lia. rewrite ztake_ge by lia. rewrite Hd. split; [done |]. split; [done |].
        split; [done |]. split; [lia |]. by intros ->.
  - destruct E as [-> E]. intros [= <- <- <-]. cbn [io_set_read read_pos read_buf io_cell]. rewrite Hd.
    split_and!; try done. unfold zlen. simpl. lia.
  - destruct E as [-> (c & Ec & Eq & _)]. intros [= <- <- <-]. cbn [io_set_read read_pos read_buf io_cell].
    rewrite Hd, Ec, Eq. done.
Qed.

Lemma poll_read_spec m io remaining m' io' p :
  io_ok io -> 0 < remaining -> poll_read m io remaining = (m', io', p) ->
  io_ok io' /\ io_cell io' = io_cell io /\
  match p with
  | Ready out => unread m io = out ++ unread m' io' /\ zlen out <= remaining /\ (out = [] -> at_end m' io')
  | PollPending => unread m io = unread m' io' /\ unread m io = []
  end.
Proof.
  intros Hok Hr. unfold poll_read. destruct (Z.eqb_spec remaining 0); [lia |]. unfold io_ok in Hok. case_cmp.
  - cbv zeta. set (n1 := Z.min _ _). assert (Hz : zlen (zdrop (read_pos io) (read_buf io)) = zlen (read_buf io) - read_pos io)
      by (apply zlen_drop; lia).
    assert (Hout : zlen (ztake n1 (zdrop (read_pos io) (read_buf io))) = n1) by (apply zlen_take; lia).
    assert (Hne : ztake n1 (zdrop (read_pos io) (read_buf io)) <> []).
    { intros E. rewrite E in Hout. rewrite zlen_nil in Hout. lia. }
    case_cmp; intros [= <- <- <-]; unfold io_ok, unread; cbn [io_set_read read_pos read_buf io_cell];
      (split_and!; try done; try lia); rewrite app_assoc; f_equal.
    + rewrite (ztake_ge n1) by lia. by rewrite app_nil_r.
    + rewrite <- zdrop_zdrop by lia. by rewrite ztake_zdrop.
  - apply read_loop_spec; try done; [| lia].
    unfold zdrop, zlen in *. apply drop_ge. lia.
Qed.

(** ** Writing hands over each byte once *)

Lemma acquire_grant m i want m' p :
  0 < want -> acquire_cell m i want = (m', p) ->
  writer_ch m' = writer_ch m /\ ctrl_ch m' = ctrl_ch m /\ alive m' = alive m /\
  match p with Ready (Ok n) => 0 < n <= want | _ => True end.
Proof.
  intros Hw. unfold acquire_cell. destruct (cells m !! i) as [c |]; [| by intros [= <- <-]].
  unfold try_acquire. destruct (window_closed (window c)); [by intros [= <- <-] |].
  case_cmp; [by intros [= <- <-] |]. cbv zeta.
  destruct (Z.min (credit (window c)) want) as [| n | n] eqn:En; try lia. intros [= <- <-]. split_and!; try done; lia.
Qed.

(** A stored future holds a non-empty prefix of the buffer it was made for. *)
Definition fut_of (buf : bytes) (f : WriteFut) : Prop :=
  exists n, 0 < n <= zlen buf /\ match f with FutAcquire p | FutSend p => p = ztake n buf end.

Definition io_fut_of (buf : bytes) (io : MuxStreamIo) : Prop :=
  match write_fut io with Some f => fut_of buf f | None => True end.

(** What a poll of a write of [buf] did: [n] bytes are queued as one frame, or
    nothing is. *)
Definition wrote (buf : bytes) (m : Multiplexer) (io : MuxStreamIo) (m' : Multiplexer) (io' : MuxStreamIo)
    (p : Poll (io_result Z)) : Prop :=
  io_stream_id io' = io_stream_id io /\ io_cell io' = io_cell io /\
  match p with
  | Ready (Ok n) => write_fut io' = None /\ 0 < n <= zlen buf /\
      queue (writer_ch m') = queue (writer_ch m) ++ [data_frame (io_stream_id io) (ztake n buf)]
  | Ready (Err e) => e = mux_broken /\ write_fut io' = None /\ queue (writer_ch m') = queue (writer_ch m)
  | PollPending => is_Some (write_fut io') /\ io_fut_of buf io' /\ queue (writer_ch m') = queue (writer_ch m)
  end.

Lemma queue_piece_spec buf m io m' f' (p : Poll (result Z unit)) n :
  0 < n <= zlen buf ->
  match writer_send m (data_frame (io_stream_id io) (ztake n buf)) with
  | (m, Ready (Ok _)) => (m, None, Ready (Ok (zlen (ztake n buf))))
  | (m, Ready (Err _)) => (m, None, Ready (Err tt))
  | (m, PollPending) => (m, Some (FutSend (ztake n buf)), PollPending)
  end = (m', f', p) ->
  match p with
  | Ready (Ok k) => f' = None /\ k = n /\
      queue (writer_ch m') = queue (writer_ch m) ++ [data_frame (io_stream_id io) (ztake n buf)]
  | Ready (Err _) => f' = None /\ queue (writer_ch m') = queue (writer_ch m)
  | PollPending => (exists g, f' = Some g /\ fut_of buf g) /\ queue (writer_ch m') = queue (writer_ch m)
  end.
Proof.
  intros Hn. unfold writer_send. destruct (try_send _ _) as [c | |] eqn:E; intros [= <- <- <-].
  - apply try_send_sent in E as (-> & _). split_and!; try done. apply zlen_take. lia.
  - split; [| done]. eexists. split; [done |]. by exists n.
  - done.
Qed.

Lemma poll_stored_write_spec buf m io r :
  is_Some (write_fut io) -> io_fut_of buf io -> poll_stored_write m io = Some r ->
  wrote buf m io r.1.1 r.1.2 r.2.
Proof.
  unfold poll_stored_write, io_fut_of. intros [f Ef]. rewrite Ef. intros (n & Hn & Hp). cbn [mbind option_bind].
  destruct (poll_fut m io f) as [[m1 f1] q] eqn:Eq. intros [= <-]. cbn [fst snd].
  assert (Hspec : match q with
    | Ready (Ok k) => f1 = None /\ 0 < k <= zlen buf /\
        queue (writer_ch m1) = queue (writer_ch m) ++ [data_frame (io_stream_id io) (ztake k buf)]
    | Ready (Err _) => f1 = None /\ queue (writer_ch m1) = queue (writer_ch m)
    | PollPending => (exists g, f1 = Some g /\ fut_of buf g) /\ queue (writer_ch m1) = queue (writer_ch m)
    end).
  { destruct f as [p | p]; subst p; unfold poll_fut in Eq.
    - assert (Hz : zlen (ztake n buf) = n) by (apply zlen_take; lia). rewrite Hz in Eq.
      destruct (acquire_cell m (io_cell io) n) as [m2 [[k | e] |]] eqn:Ea;
        apply acquire_grant in Ea as (Ew & _ & _ & Hk); try lia.
      + assert (Htt : ztake k (ztake n buf) = ztake k buf).
        { unfold ztake. rewrite take_take. f_equal. lia. }
        rewrite Htt in Eq. apply queue_piece_spec in Eq; [| lia]. rewrite Ew in Eq.
        destruct q as [[k' | ?] |]; [| done..]. destruct Eq as (-> & -> & Eq). split_and!; try done; lia.
      + injection Eq as <- <- <-. by rewrite Ew.
      + injection Eq as <- <- <-. rewrite Ew. split; [| done]. eexists. split; [done |]. by exists n.
    - apply queue_piece_spec in Eq; [| lia].
      destruct q as [[k' | ?] |]; [| done..]. destruct Eq as (-> & -> & Eq). split_and!; try done; lia. }
  split; [done |]. split; [done |]. destruct q as [[k | ?] |]; cbn [io_set_fut write_fut].
  - destruct Hspec as (-> & ? & ?). done.
  - destruct Hspec as (-> & ?). done.
  - destruct Hspec as ((g & -> & Hg) & ?). split_and!; [by eexists | done | done].
Qed.

Lemma poll_write_spec buf m io r :
  buf <> [] -> io_fut_of buf io -> poll_write m io buf = Some r -> wrote buf m io r.1.1 r.1.2 r.2.
Proof.
  intros Hne Hf. unfold poll_write. destruct (write_fut io) as [f |] eqn:Ef.
  { apply poll_stored_write_spec; [by eexists | done]. }
  assert (0 < zlen buf) by (destruct buf; [done | zlen_lia]).
  destruct (alive m); cbn [negb]; [| by intros [= <-]].
  destruct (Z.eqb_spec (zlen buf) 0); [lia |]. cbv zeta.
  set (want := Z.min (zlen buf) IO_WRITE_CHUNK). assert (Hw : 0 < want <= zlen buf) by (unfold want, IO_WRITE_CHUNK; lia).
  destruct (acquire_cell m (io_cell io) want) as [m1 [[n1 | e] |]] eqn:Ea;
    apply acquire_grant in Ea as (Ew & _ & _ & Hk); try lia.
  - destruct (try_send _ _) as [c | |] eqn:Es.
    + intros [= <-]. apply try_send_sent in Es as (-> & _). cbn. rewrite Ew. split_and!; try done; lia.
    + intros H0. apply (poll_stored_write_spec buf) in H0; [| by eexists | exists n1; split; [lia | done]].
      unfold wrote in *. by rewrite Ew in H0.
    + intros [= <-]. unfold wrote. cbn [fst snd]. by rewrite Ew.
  - intros [= <-]. unfold wrote. cbn [fst snd]. by rewrite Ew.
  - intros H0. apply (poll_stored_write_spec buf) in H0; [| by eexists | exists want; split; [lia | done]].
    unfold wrote in *. by rewrite Ew in H0.
Qed.

Lemma poll_stored_write_some m io : is_Some (write_fut io) -> exists r, poll_stored_write m io = Some r.
Proof.
  intros [f Ef]. unfold poll_stored_write. rewrite Ef. cbn [mbind option_bind].
  destruct (poll_fut m io f) as [[m1 f1] q]. by eexists.
Qed.

Lemma poll_write_some m io buf : exists r, poll_write m io buf = Some r.
Proof.
  unfold poll_write. destruct (write_fut io) eqn:Ef; [apply poll_stored_write_some; by eexists |].
  do 2 (case_cmp; [by eexists |]). cbv zeta.
  destruct (acquire_cell _ _ _) as [m1 [[k | e] |]]; [| by eexists | apply poll_stored_write_some; by eexists].
  destruct (try_send _ _); [by eexists | apply poll_stored_write_some; by eexists | by eexists].
Qed.

(** ** [send_data] as a whole *)

Definition sent_upto (s : SendState) : Z :=
  match s with SendAcquire off | SendQueue off _ => off | _ => 0 end.

(** The state of a call on [data]: a granted piece fits the codec. *)
Definition send_wf (data : bytes) (s : SendState) : Prop :=
  send_ok data s /\ match s with SendQueue _ n => n <= SEND_CHUNK_MAX | SendEmpty => data = [] | _ => True end.

(** The frames of a call: Data of the stream, short enough to be encoded. *)
Definition sends_data (sid : Z) (f : OutFrame) : Prop :=
  out_stream_id f = sid /\ out_command f = Data /\ zlen (out_payload f) <= SEND_CHUNK_MAX.

(** How many transitions a call can still make without waiting. *)
Definition send_measure (data : bytes) (s : SendState) : Z :=
  match s with
  | SendStart => 2 * zlen data + 3
  | SendEmpty => 1
  | SendAcquire off => 2 * (zlen data - off) + 2
  | SendQueue off _ => 2 * (zlen data - off) + 1
  end.

Lemma zdrop_split_take (data : bytes) a b c :
  0 <= a <= b -> b <= c -> c <= zlen data ->
  zdrop a (ztake c data) = zdrop a (ztake b data) ++ zdrop b (ztake c data).
Proof.
  intros Ha Hb Hc. rewrite <- (ztake_zdrop (b - a) (zdrop a (ztake c data))). f_equal.
  - unfold ztake, zdrop. rewrite <- skipn_firstn_comm || idtac.
    rewrite take_drop_commute, take_take. f_equal. f_equal. lia.
  - rewrite zdrop_zdrop by lia. f_equal. lia.
Qed.

Lemma ztake_zdrop_range (data : bytes) off n :
  0 <= off -> 0 <= n -> ztake n (zdrop off data) = zdrop off (ztake (off + n) data).
Proof.
  intros. unfold ztake, zdrop. rewrite take_drop_commute. f_equal. f_equal. lia.
Qed.

(** One transition: the frames it queues are the bytes it advances over. *)
Lemma send_step_spec m i sid data s m' s' p :
  send_wf data s -> send_data_step m i sid data s = (m', s', p) ->
  send_wf data s' /\
  (exists fs, queue (writer_ch m') = queue (writer_ch m) ++ fs /\ Forall (sends_data sid) fs /\
     concat (map out_payload fs) = zdrop (sent_upto s) (ztake (sent_upto s') data)) /\
  sent_upto s <= sent_upto s' <= zlen data /\
  match p with
  | Ready None => 0 <= send_measure data s' < send_measure data s
  | Ready (Some (Ok _)) => sent_upto s' = zlen data
  | _ => True
  end.
Proof.
  intros [Hok Hx]. assert (Hnil : forall k, zdrop k (ztake k data) = []).
  { intros k. unfold ztake, zdrop. apply drop_ge. rewrite length_take. lia. }
  pose proof (zlen_nonneg data) as Hlen.
  assert (Hidle : forall a, exists fs, queue (writer_ch m) = queue (writer_ch m) ++ fs /\ Forall (sends_data sid) fs /\
     concat (map out_payload fs) = zdrop a (ztake a data)).
  { intros a. exists []. rewrite app_nil_r, Hnil. done. }
  destruct s as [| | off | off n]; cbn [send_data_step sent_upto].
  - destruct (alive m); cbn [negb].
    + case_cmp; intros [= <- <- <-]; cbn [sent_upto send_measure]; (split; [split; simpl; try done |]).
      * by apply zlen_0_nil.
      * split_and!; try done; lia.
      * split_and!; try done; lia.
    + intros [= <- <- <-]. split_and!; try done; simpl; lia.
  - subst data. unfold writer_send. destruct (try_send _ _) as [c | |] eqn:E; intros [= <- <- <-];
      (split_and!; try done); cbn [sent_upto].
    apply try_send_sent in E as (-> & _). eexists [_]. split_and!; [done | | done]. apply Forall_singleton. done.
  - simpl in Hok. case_cmp; [| intros [= <- <- <-]; split_and!; try done; simpl; lia].
    destruct (acquire_cell m i _) as [m1 [[k | e] |]] eqn:Ea;
      (apply acquire_grant in Ea as (Ew & _ & _ & Hk); [| unfold SEND_CHUNK_MAX, MAX_PAYLOAD_LEN, U16_MAX; lia]);
      intros [= <- <- <-]; rewrite Ew; cbn [sent_upto send_measure]; (split_and!; try done; simpl; try lia).
    split; simpl; lia.
  - destruct Hok as (Ho & Hn & Hle). simpl in Hx. unfold writer_send.
    destruct (try_send _ _) as [c | |] eqn:E; intros [= <- <- <-]; cbn [sent_upto send_measure];
      try (split_and!; try done; simpl; lia).
    apply try_send_sent in E as (-> & _). split; [split; [simpl; lia | done] |]. split; [| split; lia].
    eexists [_]. split; [done |]. split.
    + apply Forall_singleton. split_and!; try done. cbn [data_frame out_payload].
      rewrite zlen_take; [done |]. rewrite zlen_drop; lia.
    + cbn [map concat data_frame out_payload]. rewrite app_nil_r. apply ztake_zdrop_range; lia.
Qed.

Lemma send_data_spec fuel m i sid data s m' s' p :
  send_wf data s -> send_data fuel m i sid data s = (m', s', p) ->
  send_wf data s' /\
  (exists fs, queue (writer_ch m') = queue (writer_ch m) ++ fs /\ Forall (sends_data sid) fs /\
     concat (map out_payload fs) = zdrop (sent_upto s) (ztake (sent_upto s') data)) /\
  sent_upto s <= sent_upto s' <= zlen data /\
  match p with
  | Ready (Ok _) => sent_upto s' = zlen data
  | Ready (Err _) => True
  | PollPending => send_measure data s < Z.of_nat fuel ->
      exists m1 s1, send_data_step m1 i sid data s1 = (m', s', PollPending)
  end.
Proof.
  revert m s. induction fuel as [| fuel IH]; intros m s Hw; cbn [send_data].
  - intros [= <- <- <-]. split; [done |]. split; [| split].
    + exists []. rewrite app_nil_r. split_and!; try done. unfold ztake, zdrop. symmetry. apply drop_ge. rewrite length_take. lia.
    + destruct Hw as [Hok _]. pose proof (zlen_nonneg data). destruct s; simpl in *; lia.
    + intros Hm. exfalso. destruct Hw as [Hok _]. pose proof (zlen_nonneg data). destruct s; simpl in *; lia.
  - destruct (send_data_step m i sid data s) as [[m1 s1] q] eqn:E.
    pose proof (send_step_spec m i sid data s m1 s1 q Hw E) as (Hw1 & (fs & Hq & Hfs & Hc) & Hr & Hp).
    destruct q as [[r |] |].
    + intros [= <- <- <-]. split; [done |]. split; [by exists fs |]. split; [done |]. by destruct r.
    + intros E2. destruct (IH m1 s1 Hw1 E2) as (Hw2 & (fs2 & Hq2 & Hfs2 & Hc2) & Hr2 & Hp2).
      split; [done |]. split; [| split; [lia |]].
      * exists (fs ++ fs2). rewrite Hq2, Hq, <- app_assoc. split_and!; [done | by apply Forall_app |].
        rewrite map_app, concat_app, Hc, Hc2. symmetry. apply zdrop_split_take; [| lia | lia].
        destruct Hw as [Hok _]. destruct s; simpl in *; lia.
      * destruct p as [[r | e] |]; [done | done |]. intros Hm. apply Hp2. lia.
    + intros [= <- <- <-]. split; [done |]. split; [by exists fs |]. split; [done |]. intros _. eauto.
Qed.

(** ** The handshake *)

Lemma from_to_flags c : from_flags (Z.land (to_flags c) (to_flags MuxCaps_LOCAL)) = c.
Proof. by destruct c as [[]]. Qed.

(** The client waits for more on a part of the ack and decides on all of it. *)
Lemma handshake_client_parts (A1 A2 : Arch) c rng f w1 w2 :
  codec_wf c -> rng_ok rng -> peers_agree A1 A2 (obfuscator c) ->
  @encode_frame A1 c rng (command f) (payload f) = Ok (w1 ++ w2) -> w1 <> [] -> w2 <> [] ->
  @mux_handshake_client A2 c [] w1 = Some (Ok (inl w1)) /\
  @mux_handshake_client A2 c w1 w2 = v ← handshake_ack f; Some (Ok (inr v)).
Proof.
  intros Hc Hr Hag Hw H1 H2. unfold mux_handshake_client.
  destruct (Z.eqb_spec (zlen w1) 0) as [E |]; [by apply zlen_0_nil in E |].
  destruct (Z.eqb_spec (zlen w2) 0) as [E |]; [by apply zlen_0_nil in E |]. cbn [app]. split.
  - by rewrite (decode_frame_prefix A1 A2 c rng (command f) (payload f) w1 w2).
  - rewrite <- (app_nil_r (w1 ++ w2)) at 1. rewrite (decode_encode_frame A1 A2 c rng (command f) (payload f)) by done.
    cbn [mbind option_bind]. by destruct f.
Qed.

(** ** Claims *)

(** One poll of a send queues, in order and as Data frames short enough for the codec,
    exactly the bytes it advances over; when it reports success all of the data
    is queued, and when it reports that it waits some transition of the loop
    really waits for credit or for a slot (the loop never runs out of steps). *)
Theorem send_data_queues_all (m m' : Multiplexer) (i : nat) (sid : Z) (data : bytes) (s s' : SendState) (p : Poll (io_result unit)) :
  send_wf data s -> send_data (send_fuel data) m i sid data s = (m', s', p) ->
  (exists fs, queue (writer_ch m') = queue (writer_ch m) ++ fs /\ Forall (sends_data sid) fs /\
     concat (map out_payload fs) = zdrop (sent_upto s) (ztake (sent_upto s') data)) /\
  match p with
  | Ready (Ok _) => sent_upto s' = zlen data
  | Ready (Err _) => True
  | PollPending => send_wf data s' /\ exists m1 s1, send_data_step m1 i sid data s1 = (m', s', PollPending)
  end.
Proof.
  intros Hw E. destruct (send_data_spec _ _ _ _ _ _ _ _ _ Hw E) as (Hw' & Hfs & Hr & Hp). split; [done |].
  destruct p as [[r | e] |]; [done | done |]. split; [done |]. apply Hp.
  unfold send_fuel. destruct Hw as [Hok _]. unfold zlen in *. destruct s; simpl in *; unfold zlen in *; lia.
Qed.

Lemma send_data_queues_all_witness :
  let r := send_data (send_fuel [1; 2; 3]) ex_open 0 7 [1; 2; 3] SendStart in
  exists fs, queue (writer_ch r.1.1) = queue (writer_ch ex_open) ++ fs /\ Forall (sends_data 7) fs /\
    concat (map out_payload fs) = zdrop 0 (ztake (sent_upto r.1.2) [1; 2; 3]).
Proof.
  intros r. apply (send_data_queues_all ex_open r.1.1 0 7 [1; 2; 3] SendStart r.1.2 r.2); done.
Defined.

(** The read side of the adapter is a byte queue: what a read hands out is the next
    part of what arrived, nothing lost, repeated or reordered, and an empty
    result (the end of the file) comes only after the peer closed and
    everything was handed out. *)
Theorem io_read_byte_queue (m m' : Multiplexer) (io io' : MuxStreamIo) (remaining : Z) (p : Poll bytes) :
  io_ok io -> 0 < remaining -> poll_read m io remaining = (m', io', p) ->
  io_ok io' /\
  match p with
  | Ready out => unread m io = out ++ unread m' io' /\ zlen out <= remaining /\ (out = [] -> at_end m' io')
  | PollPending => unread m io = unread m' io' /\ unread m io = []
  end.
Proof. intros Hok Hr E. destruct (poll_read_spec _ _ _ _ _ _ Hok Hr E) as (? & _ & ?). done. Qed.

Definition ex_io : MuxStreamIo :=
  {| io_stream_id := 7; io_cell := 0; io_recv_credit := None; read_buf := [9; 8; 7]; read_pos := 1;
     write_fut := None; close_fut := false; io_closed := false |}.

Lemma io_read_byte_queue_witness :
  unread ex_open ex_io = [8] ++ unread (poll_read ex_open ex_io 1).1.1 (poll_read ex_open ex_io 1).1.2.
Proof.
  apply (io_read_byte_queue ex_open (poll_read ex_open ex_io 1).1.1 ex_io (poll_read ex_open ex_io 1).1.2 1 (Ready [8]));
    [by_compute || (unfold io_ok; simpl; unfold zlen; simpl; lia) | lia | reflexivity].
Defined.

(** The write side of the adapter never panics and hands over each byte once: a write
    polled until it is ready, with the same buffer as its contract asks, has
    queued exactly one Data frame with the accepted prefix; a write that waits
    or fails has queued nothing. *)
Theorem io_write_once (m : Multiplexer) (io : MuxStreamIo) (buf : bytes) :
  buf <> [] -> io_fut_of buf io ->
  exists r, poll_write m io buf = Some r /\ wrote buf m io r.1.1 r.1.2 r.2.
Proof.
  intros Hne Hf. destruct (poll_write_some m io buf) as [r Hr]. exists r. split; [done |].
  by apply poll_write_spec.
Qed.

Lemma io_write_once_witness :
  exists r, poll_write ex_open ex_io [5; 6] = Some r /\ wrote [5; 6] ex_open ex_io r.1.1 r.1.2 r.2.
Proof. apply (io_write_once ex_open ex_io [5; 6]); done. Defined.

(** Client and server end the handshake with the same capabilities; a peer of an older
    version, whose frames lack the flag byte, switches the window off on both
    sides, and a version the server does not speak is refused. *)
Theorem handshake_agreement :
  (forall f ack c, mux_handshake_server f = (Some ack, Some c) -> handshake_ack ack = Some (Some c)) /\
  (forall ack c, mux_handshake_server handshake_init = (Some ack, Some c) -> caps_window c = true) /\
  (forall ack c, mux_handshake_server {| command := MuxInit; payload := [MUX_PROTOCOL_VERSION] |} = (Some ack, Some c) ->
     caps_window c = false) /\
  handshake_ack {| command := MuxInitAck; payload := [MUX_PROTOCOL_VERSION; 0] |} = Some (Some {| caps_window := false |}) /\
  (forall v rest, v <> MUX_PROTOCOL_VERSION ->
     mux_handshake_server {| command := MuxInit; payload := v :: rest |}
     = (Some {| command := MuxInitAck; payload := [v; 1] |}, None) /\
     handshake_ack {| command := MuxInitAck; payload := [v; 1] |} = Some None).
Proof.
  split_and!.
  - intros f ack c. unfold mux_handshake_server. do 2 (case_cmp; [done |]). cbv zeta. intros [= <- <-].
    unfold handshake_ack. cbn [command payload negb]. rewrite bool_decide_eq_true_2 by done. cbn.
    by rewrite from_to_flags.
  - by intros ack c [= <- <-].
  - by intros ack c [= <- <-].
  - done.
  - intros v rest Hv. unfold mux_handshake_server. cbn [command payload].
    rewrite bool_decide_eq_true_2 by done. change (default 0 ((v :: rest) !! 0%nat)) with v.
    destruct (Z.eqb_spec v MUX_PROTOCOL_VERSION); [done |]. split; reflexivity.
Qed.

Lemma handshake_agreement_witness :
  mux_handshake_server {| command := MuxInit; payload := [9] |} = (Some {| command := MuxInitAck; payload := [9; 1] |}, None).
Proof. destruct handshake_agreement as (_ & _ & _ & _ & H). apply (H 9 []). done. Defined.

Definition ex_ack : Frame := {| command := MuxInitAck; payload := [1; 0; 1] |}.

Definition ack_wire (c : Codec) : bytes :=
  match @encode_frame arch64 c ex_rng MuxInitAck [1; 0; 1] with Ok w => w | Err _ => [] end.

Definition padded_codec : Codec := Codec_new (ex_obf [7; 1; 250; 33]) 255 255.

(** With a padding of at most 245 bytes every ack of the server fits the client's
    256-byte buffer, and the client decides on it as on the frame that was sent,
    wherever the network cuts it. With more padding the ack can be longer than
    the buffer: the client fills it with an incomplete frame, its next read has no
    room and returns zero bytes, and it reports that the server closed the
    connection. *)
Theorem handshake_ack_buffer :
  (forall (A1 A2 : Arch) (c : Codec) (rng : Rng) (f : Frame) (w1 w2 : bytes),
     codec_wf c -> rng_ok rng -> peers_agree A1 A2 (obfuscator c) ->
     padding_min c <= 245 -> padding_max c <= 245 -> zlen (payload f) <= 3 ->
     @encode_frame A1 c rng (command f) (payload f) = Ok (w1 ++ w2) -> w1 <> [] -> w2 <> [] ->
     zlen (w1 ++ w2) <= HANDSHAKE_BUFFER /\
     @mux_handshake_client A2 c [] w1 = Some (Ok (inl w1)) /\
     @mux_handshake_client A2 c w1 w2 = v ← handshake_ack f; Some (Ok (inr v))) /\
  (zlen (ack_wire padded_codec) = 266 /\ HANDSHAKE_BUFFER < 266 /\
   @mux_handshake_client arch64 padded_codec [] (ztake HANDSHAKE_BUFFER (ack_wire padded_codec))
     = Some (Ok (inl (ztake HANDSHAKE_BUFFER (ack_wire padded_codec)))) /\
   HANDSHAKE_BUFFER - zlen (ztake HANDSHAKE_BUFFER (ack_wire padded_codec)) = 0 /\
   @mux_handshake_client arch64 padded_codec (ztake HANDSHAKE_BUFFER (ack_wire padded_codec)) []
     = Some (io_err ConnectionReset "server closed during mux init")).
Proof.
  split; [| split_and!; vm_compute; reflexivity].
  intros A1 A2 c rng f w1 w2 Hc Hr Hag Hmin Hmax Hp Hw H1 H2. split.
  - apply encode_frame_length in Hw; [| done..]. unfold HANDSHAKE_BUFFER. lia.
  - by eapply (handshake_client_parts A1 A2 c rng f).
Qed.

Lemma handshake_ack_buffer_witness :
  zlen (ztake 5 (ack_wire ex_codec) ++ zdrop 5 (ack_wire ex_codec)) <= HANDSHAKE_BUFFER.
Proof.
  destruct handshake_ack_buffer as [H _].
  apply (H arch64 arch64 ex_codec ex_rng ex_ack);
    [apply ex_codec_wf | apply ex_rng_ok | by left | by_compute | by_compute | by_compute | | by_compute | by_compute].
  rewrite ztake_zdrop. vm_compute. reflexivity.
Defined.
