(* ===== verification/MuxPool.v ===== *)
(** * The connection pool (xr-proto/src/mux_pool.rs)

    N tunnels to one server behind a circuit breaker. Many calls of
    [open_stream] run at the same time on one pool: a call is a small machine
    whose steps are the stretches between two [await]s, and the pool is the
    state they share (the slots, their locks, the atomics, and the multiplexers
    behind the [Arc]s, kept in a heap). What the network answers is the
    argument of the step that waits for it; times are milliseconds since the
    pool was created. *)

From S2P Require Import Prelude Protocol RelayHealth Chan Mux MuxTasks MuxInv.

Definition DEFAULT_POOL_SIZE : Z := 4.
Definition MAX_CONSECUTIVE_TIMEOUTS : Z := 3.
Definition SERVER_DOWN_COOLDOWN : Z := 5 * 1000.
Definition PROBE_LEASE : Z := 15 * 1000.

Record MuxPool := {
  slots : list (option nat);
  locked : list bool;
  timeout_counters : list Z;
  next : Z;
  down_until_ms : Z;
  pool_health : RelayWindow;
  muxes : gmap nat Multiplexer;
  next_mux : nat
}.

Definition MuxPool_new (now size : Z) : MuxPool :=
  let size := if size =? 0 then DEFAULT_POOL_SIZE else size in
  let n := Z.to_nat size in
  {| slots := replicate n None; locked := replicate n false; timeout_counters := replicate n 0;
     next := 0; down_until_ms := 0; pool_health := RelayHealth_new now; muxes := ∅; next_mux := 0 |}.

Definition pool_size (p : MuxPool) : Z := zlen (slots p).

Definition set_breaker (p : MuxPool) (d : Z) : MuxPool :=
  {| slots := slots p; locked := locked p; timeout_counters := timeout_counters p; next := next p;
     down_until_ms := d; pool_health := pool_health p; muxes := muxes p; next_mux := next_mux p |}.

Definition set_slot (p : MuxPool) (i : nat) (s : option nat) : MuxPool :=
  {| slots := <[i := s]> (slots p); locked := locked p; timeout_counters := timeout_counters p; next := next p;
     down_until_ms := down_until_ms p; pool_health := pool_health p; muxes := muxes p; next_mux := next_mux p |}.

Definition set_lock (p : MuxPool) (i : nat) (b : bool) : MuxPool :=
  {| slots := slots p; locked := <[i := b]> (locked p); timeout_counters := timeout_counters p; next := next p;
     down_until_ms := down_until_ms p; pool_health := pool_health p; muxes := muxes p; next_mux := next_mux p |}.

Definition set_counter (p : MuxPool) (i : nat) (c : Z) : MuxPool :=
  {| slots := slots p; locked := locked p; timeout_counters := <[i := c]> (timeout_counters p); next := next p;
     down_until_ms := down_until_ms p; pool_health := pool_health p; muxes := muxes p; next_mux := next_mux p |}.

Definition set_next (p : MuxPool) (v : Z) : MuxPool :=
  {| slots := slots p; locked := locked p; timeout_counters := timeout_counters p; next := v;
     down_until_ms := down_until_ms p; pool_health := pool_health p; muxes := muxes p; next_mux := next_mux p |}.

Definition set_muxes (p : MuxPool) (h : gmap nat Multiplexer) (n : nat) : MuxPool :=
  {| slots := slots p; locked := locked p; timeout_counters := timeout_counters p; next := next p;
     down_until_ms := down_until_ms p; pool_health := pool_health p; muxes := h; next_mux := n |}.

Definition set_pool_health (p : MuxPool) (w : RelayWindow) : MuxPool :=
  {| slots := slots p; locked := locked p; timeout_counters := timeout_counters p; next := next p;
     down_until_ms := down_until_ms p; pool_health := w; muxes := muxes p; next_mux := next_mux p |}.

Definition is_server_down (now : Z) (p : MuxPool) : bool :=
  negb (down_until_ms p =? 0) && (now <? down_until_ms p).

Definition arm_breaker (now : Z) (p : MuxPool) : MuxPool := set_breaker p (u64 (now + SERVER_DOWN_COOLDOWN)).

Definition clear_breaker (p : MuxPool) : MuxPool := set_breaker p 0.

Definition relay_degraded (now : Z) (p : MuxPool) : MuxPool * bool :=
  let '(w, b) := degraded now (pool_health p) in (set_pool_health p w, b).

(** [old.shutdown()] on a multiplexer of the heap. *)
Definition shutdown_mux (p : MuxPool) (id : nat) : MuxPool :=
  set_muxes p (alter shutdown id (muxes p)) (next_mux p).

Definition mux_alive (p : MuxPool) (id : nat) : bool :=
  match muxes p !! id with Some m => alive m | None => false end.

(** [guard.take()] and the shutdown of what was in the slot. *)
Definition take_slot (p : MuxPool) (i : nat) : MuxPool :=
  match slots p !! i with
  | Some (Some id) => shutdown_mux (set_slot p i None) id
  | _ => p
  end.

(** [invalidate_slot] once the slot lock is free. *)
Definition invalidate_slot (p : MuxPool) (i : nat) : MuxPool := set_counter (take_slot p i) i 0.

(** The end of [recycle], and the whole of it when every lock is free. *)
Definition recycled (now : Z) (p : MuxPool) : MuxPool :=
  let p := clear_breaker p in
  set_pool_health p (RelayHealth_reset now (pool_health p)).

Definition recycle (now : Z) (p : MuxPool) : MuxPool :=
  recycled now (foldl invalidate_slot p (seq 0 (length (slots p)))).

(** ** The calls *)

(** What connect and handshake came to. *)
Inductive Connected :=
| ConnectErr (e : io_error)
| HandshakeErr (e : io_error)
| Rejected
| Accepted (c : MuxCaps).

Definition probe_fresh (p : MuxPool) (r : Connected) : MuxPool * io_result unit :=
  match r with
  | Accepted _ => (clear_breaker p, Ok tt)
  | Rejected => (p, io_err ConnectionRefused "probe: server rejected mux handshake")
  | ConnectErr e | HandshakeErr e => (p, Err e)
  end.

Definition err_cooldown : io_error := IoError OtherKind (str "mux pool: server in fail-open cooldown").
Definition err_wedged : io_error := IoError WouldBlock (str "mux slot lock wedged").
Definition err_no_slots : io_error := IoError OtherKind (str "no mux slots").

(** [acquire_or_connect] after the slot lock was taken: the slot's live
    multiplexer, an early error, or a connection to be made while the lock is
    held. *)
Inductive Acquired := HaveMux (id : nat) | AcquireErr (e : io_error) | MustConnect.

Definition acquire_locked (now : Z) (p : MuxPool) (i : nat) (bail_if_down : bool) : MuxPool * Acquired :=
  match slots p !! i with
  | Some (Some id) =>
      if mux_alive p id then (p, HaveMux id)
      else
        let p := set_counter (take_slot p i) i 0 in
        if bail_if_down && is_server_down now p then (p, AcquireErr err_cooldown) else (set_lock p i true, MustConnect)
  | _ => if bail_if_down && is_server_down now p then (p, AcquireErr err_cooldown) else (set_lock p i true, MustConnect)
  end.

(** The rest of it, when connect and handshake have answered; the lock goes. *)
Definition acquire_connected (p : MuxPool) (i : nat) (r : Connected) : MuxPool * (nat + io_error) :=
  let p := set_lock p i false in
  match r with
  | Accepted c =>
      let id := next_mux p in
      let p := set_muxes p (<[id := new_client_tracked (pool_health p) c]> (muxes p)) (S id) in
      (set_slot p i (Some id), inl id)
  | Rejected => (p, inr (IoError ConnectionRefused (str "server rejected mux handshake")))
  | ConnectErr e | HandshakeErr e => (p, inr e)
  end.

(** Where a call of [open_stream] is. *)
Inductive OpenPc :=
| PGate
| PElect (breaker : Z)
| PStart (am_prober : bool)
| PWalk (start i : Z) (am_prober : bool) (last_err : option io_error)
| PLock (start i : Z) (am_prober : bool) (last_err : option io_error)
| PConnecting (start i : Z) (am_prober : bool) (last_err : option io_error)
| POpening (start i : Z) (am_prober : bool) (last_err : option io_error) (mux : nat)
| PInvalidate (start i : Z) (am_prober : bool) (last_err : option io_error)
| PDone (r : io_result nat).

(** What a step waits for: the slot lock took too long, or the answer of the
    network, or of [mux_open_stream]. *)
Inductive Answer := Timely | LockLate | AnsConnect (r : Connected) | AnsOpen (r : io_result unit).

Section steps.
Context {AR : Arch}.

Definition slot_index (p : MuxPool) (start i : Z) : nat := Z.to_nat ((start + i) mod pool_size p).

Definition lock_free (p : MuxPool) (i : nat) : bool := negb (default true (locked p !! i)).

(** [mux_open_stream] answered on slot [idx]. *)
Definition open_answered (now : Z) (p : MuxPool) (start i : Z) (prober : bool) (mux : nat) (r : io_result unit) :
    MuxPool * OpenPc :=
  let idx := slot_index p start i in
  match r with
  | Ok _ => (clear_breaker (set_counter p idx 0), PDone (Ok mux))
  | Err e =>
      match kind e with
      | BrokenPipe => (p, PInvalidate start i prober (Some e))
      | TimedOut =>
          let prev := default 0 (timeout_counters p !! idx) in
          let p := set_counter p idx (u32 (prev + 1)) in
          if MAX_CONSECUTIVE_TIMEOUTS <=? u32 (prev + 1) then (p, PInvalidate start i prober (Some e))
          else (p, PWalk start (i + 1) prober (Some e))
      | _ => (p, PDone (Err e))
      end
  end.

(** One step of a call at time [now]; an answer that does not fit the state, or a
    lock that is taken, leaves everything as it is. *)
Definition open_step (now : Z) (a : Answer) (p : MuxPool) (pc : OpenPc) : MuxPool * OpenPc :=
  match pc with
  | PGate =>
      let breaker := down_until_ms p in
      if breaker =? 0 then (p, PStart false)
      else if now <? breaker then (p, PDone (Err err_cooldown))
      else (p, PElect breaker)
  | PElect breaker =>
      if down_until_ms p =? breaker then (set_breaker p (u64 (now + PROBE_LEASE)), PStart true)
      else (p, PDone (Err err_cooldown))
  | PStart prober =>
      (set_next p (usize (next p + 1)), PWalk (next p mod pool_size p) 0 prober None)
  | PWalk start i prober last =>
      if pool_size p <=? i then (arm_breaker now p, PDone (Err (default err_no_slots last)))
      else if negb prober && is_server_down now p then (p, PDone (Err err_cooldown))
      else (p, PLock start i prober last)
  | PLock start i prober last =>
      let idx := slot_index p start i in
      match a with
      | LockLate => (p, PWalk start (i + 1) prober (Some err_wedged))
      | Timely =>
          if lock_free p idx then
            match acquire_locked now p idx (negb prober) with
            | (p, HaveMux id) => (p, POpening start i prober last id)
            | (p, AcquireErr e) => (p, PWalk start (i + 1) prober (Some e))
            | (p, MustConnect) => (p, PConnecting start i prober last)
            end
          else (p, pc)
      | _ => (p, pc)
      end
  | PConnecting start i prober last =>
      match a with
      | AnsConnect r =>
          match acquire_connected p (slot_index p start i) r with
          | (p, inl id) => (p, POpening start i prober last id)
          | (p, inr e) => (p, PWalk start (i + 1) prober (Some e))
          end
      | _ => (p, pc)
      end
  | POpening start i prober last mux =>
      match a with
      | AnsOpen r => open_answered now p start i prober mux r
      | _ => (p, pc)
      end
  | PInvalidate start i prober last =>
      let idx := slot_index p start i in
      if lock_free p idx then (invalidate_slot p idx, PWalk start (i + 1) prober last) else (p, pc)
  | PDone r => (p, PDone r)
  end.

(** ** Warm-up

    All slots at once; [answers] lists them in the order they finish: the slot,
    whether its lock was late, and what the network answered. *)

Definition warm_begin (now : Z) (p : MuxPool) (i : nat) (late : bool) : MuxPool * option (io_result unit) :=
  if late then (p, Some (Err err_wedged)) else
  match acquire_locked now p i false with
  | (p, HaveMux _) => (p, Some (Ok tt))
  | (p, AcquireErr e) => (p, Some (Err e))
  | (p, MustConnect) => (p, None)
  end.

Definition warm_finish (p : MuxPool) (i : nat) (r : Connected) : MuxPool * io_result unit :=
  match acquire_connected p i r with
  | (p, inl _) => (p, Ok tt)
  | (p, inr e) => (p, Err e)
  end.

Definition warm_slot (now : Z) (p : MuxPool) (i : nat) (late : bool) (r : Connected) : MuxPool * io_result unit :=
  match warm_begin now p i late with
  | (p, Some res) => (p, res)
  | (p, None) => warm_finish p i r
  end.

Fixpoint warm_all (p : MuxPool) (answers : list (Z * nat * bool * Connected)) (any_ok : bool) (last_err : option io_error) :
    MuxPool * io_result unit :=
  match answers with
  | [] => (p, if any_ok then Ok tt else Err (default err_no_slots last_err))
  | (now, i, late, r) :: rest =>
      match warm_slot now p i late r with
      | (p, Ok _) => warm_all p rest true last_err
      | (p, Err e) => warm_all p rest any_ok (Some e)
      end
  end.

Definition warmup (p : MuxPool) (answers : list (Z * nat * bool * Connected)) := warm_all p answers false None.

(** ** The pool and everything that runs on it *)

(** A call of [open_stream], or the share of [warmup] on one slot, waiting for
    the slot lock or connecting under it. *)
Inductive Call := COpen (pc : OpenPc) | CWarm (i : nat) (connecting : bool).

Record PoolSys := { sys_pool : MuxPool; sys_calls : gmap nat Call }.

(** The slot whose lock a call holds over an [await]. *)
Definition call_holds (n : Z) (c : Call) : option nat :=
  match c with
  | COpen (PConnecting start i _ _) => Some (Z.to_nat ((start + i) mod n))
  | CWarm i true => Some i
  | _ => None
  end.

(** A dropped future releases the guard it holds. *)
Definition cancel_call (p : MuxPool) (c : Call) : MuxPool :=
  match call_holds (pool_size p) c with
  | Some i => set_lock p i false
  | None => p
  end.

Definition set_call (k : nat) (c : option Call) (cs : gmap nat Call) : gmap nat Call :=
  partial_alter (fun _ => c) k cs.

(** A tunnel makes a step of its own; its window of relay outcomes is the
    pool's. *)
Definition mux_moved (p : MuxPool) (id : nat) (m : Multiplexer) : MuxPool :=
  set_pool_health (set_muxes p (<[id := m]> (muxes p)) (next_mux p)) (default (pool_health p) (relay_health m)).

Inductive pool_step (s : PoolSys) : PoolSys -> Prop :=
| ps_call k :
    sys_calls s !! k = None ->
    pool_step s {| sys_pool := sys_pool s; sys_calls := set_call k (Some (COpen PGate)) (sys_calls s) |}
| ps_warm k i :
    sys_calls s !! k = None -> (i < length (slots (sys_pool s)))%nat ->
    pool_step s {| sys_pool := sys_pool s; sys_calls := set_call k (Some (CWarm i false)) (sys_calls s) |}
| ps_open k pc now a :
    sys_calls s !! k = Some (COpen pc) ->
    pool_step s {| sys_pool := (open_step now a (sys_pool s) pc).1;
                   sys_calls := set_call k (Some (COpen (open_step now a (sys_pool s) pc).2)) (sys_calls s) |}
| ps_warm_begin k i now late p r :
    sys_calls s !! k = Some (CWarm i false) -> late = true \/ lock_free (sys_pool s) i = true ->
    warm_begin now (sys_pool s) i late = (p, r) ->
    pool_step s {| sys_pool := p;
                   sys_calls := set_call k (match r with Some _ => None | None => Some (CWarm i true) end) (sys_calls s) |}
| ps_warm_finish k i r :
    sys_calls s !! k = Some (CWarm i true) ->
    pool_step s {| sys_pool := (warm_finish (sys_pool s) i r).1; sys_calls := set_call k None (sys_calls s) |}
| ps_cancel k c :
    sys_calls s !! k = Some c ->
    pool_step s {| sys_pool := cancel_call (sys_pool s) c; sys_calls := set_call k None (sys_calls s) |}
| ps_invalidate i :
    lock_free (sys_pool s) i = true ->
    pool_step s {| sys_pool := invalidate_slot (sys_pool s) i; sys_calls := sys_calls s |}
| ps_recycled now :
    pool_step s {| sys_pool := recycled now (sys_pool s); sys_calls := sys_calls s |}
| ps_probe r :
    pool_step s {| sys_pool := (probe_fresh (sys_pool s) r).1; sys_calls := sys_calls s |}
| ps_degraded now :
    pool_step s {| sys_pool := (relay_degraded now (sys_pool s)).1; sys_calls := sys_calls s |}
| ps_mux id m m' :
    muxes (sys_pool s) !! id = Some m -> mux_step (set_health m (Some (pool_health (sys_pool s)))) m' ->
    pool_step s {| sys_pool := mux_moved (sys_pool s) id m'; sys_calls := sys_calls s |}.

Inductive pool_reachable (now size : Z) : PoolSys -> Prop :=
| pr_new : pool_reachable now size {| sys_pool := MuxPool_new now size; sys_calls := ∅ |}
| pr_step s s' : pool_reachable now size s -> pool_step s s' -> pool_reachable now size s'.

(** ** One call ends, whatever the others do *)

(** A bound on the steps a call on [n] slots can still make. *)
Definition open_measure (n : Z) (pc : OpenPc) : Z :=
  match pc with
  | PGate => 5 * n + 4
  | PElect _ => 5 * n + 3
  | PStart _ => 5 * n + 2
  | PWalk _ i _ _ => 5 * (n - i) + 1
  | PLock _ i _ _ => 5 * (n - i)
  | PConnecting _ i _ _ => 5 * (n - i) - 1
  | POpening _ i _ _ _ => 5 * (n - i) - 2
  | PInvalidate _ i _ _ => 5 * (n - i) - 3
  | PDone _ => 0
  end.

Definition pc_ok (n : Z) (pc : OpenPc) : Prop :=
  match pc with
  | PWalk start i _ _ => 0 <= start < n /\ 0 <= i <= n
  | PLock start i _ _ | PConnecting start i _ _ | POpening start i _ _ _ | PInvalidate start i _ _ =>
      0 <= start < n /\ 0 <= i < n
  | _ => True
  end.

Lemma open_step_progress now a p pc n :
  0 < n -> pool_size p = n -> pc_ok n pc ->
  pc_ok n (open_step now a p pc).2 /\
  ((open_step now a p pc).2 = pc \/ 0 <= open_measure n (open_step now a p pc).2 < open_measure n pc).
Proof.
  intros Hn Hs Hok. destruct pc; cbn [open_step].
  - repeat case_cmp; cbn [snd pc_ok open_measure]; (split; [done | right; lia]).
  - case_cmp; cbn [snd pc_ok open_measure]; (split; [done | right; lia]).
  - cbn [snd pc_ok open_measure]. rewrite Hs. pose proof (Z.mod_pos_bound (next p) n). split; [lia | right; lia].
  - rewrite Hs. simpl in Hok. repeat case_cmp; cbn [snd pc_ok open_measure]; (split; [lia || done | right; lia]).
  - simpl in Hok. destruct a; try (split; [done | by left]).
    + case_cmp; [| split; [done | by left]].
      destruct (acquire_locked _ _ _ _) as [p1 [id | e |]]; cbn [snd pc_ok open_measure]; (split; [lia | right; lia]).
    + cbn [snd pc_ok open_measure]. split; [lia | right; lia].
  - simpl in Hok. destruct a; try (split; [done | by left]).
    destruct (acquire_connected _ _ _) as [p1 [id | e]]; cbn [snd pc_ok open_measure]; (split; [lia | right; lia]).
  - simpl in Hok. destruct a; try (split; [done | by left]). unfold open_answered. cbv zeta.
    destruct r as [u | e]; [cbn [snd pc_ok open_measure]; split; [done | right; lia] |].
    destruct (kind e); try case_cmp; cbn [snd pc_ok open_measure]; (split; [done || lia | right; lia]).
  - simpl in Hok. case_cmp; [| split; [done | by left]]. cbn [snd pc_ok open_measure]. split; [lia | right; lia].
  - cbn [snd]. split; [done | by left].
Qed.

(** The program counters of a call whose turns find the pool in the given
    states. *)
Fixpoint call_run (pc : OpenPc) (turns : list (Z * Answer * MuxPool)) : list OpenPc :=
  match turns with
  | [] => []
  | (now, a, p) :: turns' => let pc' := (open_step now a p pc).2 in pc' :: call_run pc' turns'
  end.

Definition pc_eqb_measure (n : Z) (a b : OpenPc) : bool := open_measure n a =? open_measure n b.

(** How many of the turns moved the call. *)
Fixpoint moves (n : Z) (pc : OpenPc) (pcs : list OpenPc) : Z :=
  match pcs with
  | [] => 0
  | pc' :: pcs' => (if pc_eqb_measure n pc pc' then 0 else 1) + moves n pc' pcs'
  end.

Lemma call_moves n turns pc :
  0 < n -> Forall (fun t => pool_size t.2 = n) turns -> pc_ok n pc -> 0 <= open_measure n pc ->
  moves n pc (call_run pc turns) <= open_measure n pc.
Proof.
  intros Hn Ht. revert pc. induction Ht as [| [[now a] p] turns Hp _ IH]; intros pc Hok Hm; [done |].
  cbn [call_run moves]. cbv zeta. cbn [snd] in Hp.
  destruct (open_step_progress now a p pc n Hn Hp Hok) as [Hok' Hprog].
  destruct Hprog as [E | Hlt].
  - rewrite E in *. unfold pc_eqb_measure. rewrite Z.eqb_refl. specialize (IH pc Hok Hm). lia.
  - specialize (IH _ Hok' ltac:(lia)). unfold pc_eqb_measure.
    destruct (Z.eqb_spec (open_measure n pc) (open_measure n (open_step now a p pc).2)); lia.
Qed.

(** ** No tunnel without a slot *)

Record pool_ok (n : nat) (p : MuxPool) : Prop := {
  ok_slots : length (slots p) = n;
  ok_locked : length (locked p) = n;
  ok_ids : forall i id, slots p !! i = Some (Some id) -> (id < next_mux p)%nat;
  ok_heap : forall id m, muxes p !! id = Some m -> (id < next_mux p)%nat;
  ok_alive : forall id m, muxes p !! id = Some m -> alive m = true -> exists i, slots p !! i = Some (Some id)
}.

Definition call_ok (n : nat) (c : Call) : Prop :=
  match c with
  | COpen pc => pc_ok (Z.of_nat n) pc
  | CWarm i _ => (i < n)%nat
  end.

Record calls_ok (n : nat) (p : MuxPool) (cs : gmap nat Call) : Prop := {
  co_ok : forall k c, cs !! k = Some c -> call_ok n c;
  co_hold : forall k c i, cs !! k = Some c -> call_holds (Z.of_nat n) c = Some i -> locked p !! i = Some true /\ slots p !! i = Some None;
  co_one : forall k1 k2 c1 c2 i, cs !! k1 = Some c1 -> cs !! k2 = Some c2 ->
    call_holds (Z.of_nat n) c1 = Some i -> call_holds (Z.of_nat n) c2 = Some i -> k1 = k2;
  co_leak : forall i, locked p !! i = Some true -> exists k c, cs !! k = Some c /\ call_holds (Z.of_nat n) c = Some i
}.

Lemma call_holds_lt n c i : (0 < n)%nat -> call_ok n c -> call_holds (Z.of_nat n) c = Some i -> (i < n)%nat.
Proof.
  intros Hn. destruct c as [[] | ? []]; simpl; try done; intros Hok [= <-]; [| done].
  pose proof (Z.mod_pos_bound (start + i0) (Z.of_nat n)). lia.
Qed.

(** The call under [k] goes on as [oc]; only the slots it held or takes up
    change. *)
Lemma calls_ok_move n p p' cs k oc :
  calls_ok n p cs ->
  (forall c, oc = Some c -> call_ok n c) ->
  (forall j, (cs !! k ≫= call_holds (Z.of_nat n)) <> Some j -> (oc ≫= call_holds (Z.of_nat n)) <> Some j ->
     locked p' !! j = locked p !! j /\ (slots p !! j = Some None -> slots p' !! j = Some None)) ->
  (forall j, (oc ≫= call_holds (Z.of_nat n)) = Some j ->
     locked p' !! j = Some true /\ slots p' !! j = Some None /\
     ((cs !! k ≫= call_holds (Z.of_nat n)) = Some j \/ locked p !! j <> Some true)) ->
  (forall j, (cs !! k ≫= call_holds (Z.of_nat n)) = Some j -> (oc ≫= call_holds (Z.of_nat n)) <> Some j -> locked p' !! j <> Some true) ->
  calls_ok n p' (set_call k oc cs).
Proof.
  intros [Hok Hhold Hone Hleak] Hoc Hframe Htake Hgive. unfold set_call.
  assert (Hother : forall k' c j, k' <> k -> cs !! k' = Some c -> call_holds (Z.of_nat n) c = Some j ->
    (cs !! k ≫= call_holds (Z.of_nat n)) <> Some j /\ (oc ≫= call_holds (Z.of_nat n)) <> Some j).
  { intros k' c j Hk Hc Hj. destruct (Hhold _ _ _ Hc Hj) as [Hl _].
    assert (H1 : (cs !! k ≫= call_holds (Z.of_nat n)) <> Some j).
    { intros (c' & E & E')%bind_Some. by destruct Hk; eapply Hone. }
    split; [done |]. intros E. destruct (Htake j E) as (_ & _ & [? | ?]); congruence. }
  assert (Hlook : forall k' c, partial_alter (fun _ => oc) k cs !! k' = Some c ->
    (k' = k /\ oc = Some c) \/ (k' <> k /\ cs !! k' = Some c)).
  { intros k' c. destruct (decide (k' = k)) as [-> | Hne]; [rewrite lookup_partial_alter_eq; auto |].
    rewrite lookup_partial_alter_ne by done; auto. }
  split.
  - intros k' c [[-> ->] | [_ ?]]%Hlook; eauto.
  - intros k' c i [[-> ->] | [Hne Hc]]%Hlook Hi.
    + destruct (Htake i) as (? & ? & _); auto.
    + destruct (Hother _ _ _ Hne Hc Hi) as [H1 H2]. destruct (Hframe i H1 H2) as [-> Hs].
      destruct (Hhold _ _ _ Hc Hi); auto.
  - intros k1 k2 c1 c2 i [[-> E1] | [Hn1 Hc1]]%Hlook [[-> E2] | [Hn2 Hc2]]%Hlook Hi1 Hi2; [done | | | by eapply Hone].
    + destruct (Hother _ _ _ Hn2 Hc2 Hi2) as [_ []]. by rewrite E1.
    + destruct (Hother _ _ _ Hn1 Hc1 Hi1) as [_ []]. by rewrite E2.
  - intros i Hl. destruct (decide ((oc ≫= call_holds (Z.of_nat n)) = Some i)) as [(c & -> & E)%bind_Some | Hno].
    { exists k, c. by rewrite lookup_partial_alter_eq. }
    destruct (decide ((cs !! k ≫= call_holds (Z.of_nat n)) = Some i)) as [E | Hno']; [by destruct (Hgive i E Hno) |].
    destruct (Hframe i Hno' Hno) as [E _]. rewrite E in Hl. destruct (Hleak i Hl) as (k' & c & Hc & Hi).
    exists k', c. split; [| done]. rewrite lookup_partial_alter_ne; [done |].
    intros <-. destruct Hno'. by rewrite Hc.
Qed.

(** Nothing is taken or given back. *)
Lemma calls_ok_stay n p p' cs k c c' :
  calls_ok n p cs -> cs !! k = Some c -> call_holds (Z.of_nat n) c' = call_holds (Z.of_nat n) c -> call_ok n c' ->
  locked p' = locked p -> (forall j, slots p !! j = Some None -> slots p' !! j = Some None) ->
  calls_ok n p' (set_call k (Some c') cs).
Proof.
  intros H Hc Hh Hok Hl Hs. eapply calls_ok_move; [done | | rewrite Hc; simpl; rewrite Hh ..].
  - by intros ? [= <-].
  - intros j _ _. rewrite Hl. auto.
  - intros j E. destruct (co_hold _ _ _ H _ _ _ Hc E). rewrite Hl. auto.
  - done.
Qed.

Lemma calls_ok_pool n p p' cs :
  calls_ok n p cs -> locked p' = locked p -> (forall j, slots p !! j = Some None -> slots p' !! j = Some None) ->
  calls_ok n p' cs.
Proof.
  intros [Hok Hhold Hone Hleak] Hl Hs. split; [done | | done | by rewrite Hl].
  intros k c i Hc Hi. rewrite Hl. destruct (Hhold _ _ _ Hc Hi). auto.
Qed.

Lemma pool_ok_same n p p' :
  slots p' = slots p -> locked p' = locked p -> muxes p' = muxes p -> next_mux p' = next_mux p ->
  pool_ok n p -> pool_ok n p'.
Proof. intros E1 E2 E3 E4 []. split; rewrite ?E1, ?E2, ?E3, ?E4; done. Qed.

Lemma pool_ok_lock n p i b : pool_ok n p -> pool_ok n (set_lock p i b).
Proof. intros []. split; try done. simpl. by rewrite length_insert. Qed.

Lemma slots_kept (l : list (option nat)) i j : l !! j = Some None -> <[i := None]> l !! j = Some None.
Proof.
  destruct (decide (j = i)) as [-> | Hne]; [| by rewrite list_lookup_insert_ne].
  intros Hj. apply list_lookup_insert_eq. by eapply lookup_lt_Some.
Qed.

Lemma take_slot_spec n p i :
  pool_ok n p -> (i < n)%nat ->
  pool_ok n (take_slot p i) /\ locked (take_slot p i) = locked p /\ slots (take_slot p i) = <[i := None]> (slots p).
Proof.
  intros H Hi. unfold take_slot. destruct H as [Hs Hl Hids Hheap Halive].
  destruct (slots p !! i) as [[id |] |] eqn:E.
  - split_and!; try done. split; simpl; [by rewrite length_insert | done | | |].
    + intros j id'. rewrite list_lookup_insert. case_decide; [done | apply Hids].
    + intros id' m. rewrite lookup_alter. case_decide; [subst; intros (m0 & E' & _)%fmap_Some; eauto | apply Hheap].
    + intros id' m. rewrite lookup_alter. case_decide; [by intros (m0 & _ & ->)%fmap_Some |].
      intros Hm Ha. destruct (Halive _ _ Hm Ha) as [j Hj]. exists j. rewrite list_lookup_insert_ne; congruence.
  - split_and!; [done | done |]. by rewrite list_insert_id.
  - apply lookup_ge_None in E. lia.
Qed.

Lemma invalidate_slot_spec n p i :
  pool_ok n p -> (i < n)%nat ->
  pool_ok n (invalidate_slot p i) /\ locked (invalidate_slot p i) = locked p /\
  slots (invalidate_slot p i) = <[i := None]> (slots p).
Proof.
  intros H Hi. destruct (take_slot_spec n p i H Hi) as (H1 & H2 & H3). split_and!; [| done | done].
  by eapply pool_ok_same; [.. | exact H1].
Qed.

Lemma acquire_locked_spec n now p i b p' a :
  pool_ok n p -> (i < n)%nat -> acquire_locked now p i b = (p', a) ->
  pool_ok n p' /\ (forall j, slots p !! j = Some None -> slots p' !! j = Some None) /\
  match a with
  | MustConnect => locked p' = <[i := true]> (locked p) /\ slots p' !! i = Some None
  | _ => locked p' = locked p
  end.
Proof.
  intros H Hi. unfold acquire_locked. destruct (invalidate_slot_spec n p i H Hi) as (H1 & H2 & H3).
  change (set_counter (take_slot p i) i 0) with (invalidate_slot p i).
  assert (Hnone : <[i := None]> (slots p) !! i = Some None) by (apply list_lookup_insert_eq; by rewrite (ok_slots n p H)).
  assert (Hkeep := slots_kept (slots p) i).
  destruct (slots p !! i) as [[id |] |] eqn:E.
  - destruct (mux_alive p id); [by intros [= <- <-] |]. case_cmp; intros [= <- <-].
    + rewrite H2, H3. auto.
    + split; [by apply pool_ok_lock |]. cbn [locked slots set_lock]. rewrite H2, H3. auto.
  - case_cmp; intros [= <- <-]; [done |]. split; [by apply pool_ok_lock | done].
  - apply lookup_ge_None in E. rewrite (ok_slots n p H) in E. lia.
Qed.

Lemma acquire_connected_spec n p i r p' x :
  pool_ok n p -> slots p !! i = Some None -> acquire_connected p i r = (p', x) ->
  pool_ok n p' /\ locked p' = <[i := false]> (locked p) /\ (forall j, j <> i -> slots p' !! j = slots p !! j).
Proof.
  intros H Hi. pose proof (pool_ok_lock n p i false H) as Hk. unfold acquire_connected.
  destruct r as [e | e | | c]; try by intros [= <- <-].
  intros [= <- <-]. split_and!; [| done | intros j Hj; simpl; by rewrite list_lookup_insert_ne].
  destruct Hk as [Hs Hl Hids Hheap Halive]. simpl in *.
  assert (Hlt : (i < length (slots p))%nat) by by eapply lookup_lt_Some.
  split; simpl; [by rewrite length_insert | done | | |].
  - intros j id. rewrite list_lookup_insert. case_decide; [intros [= <-]; lia |]. intros Hj%Hids. lia.
  - intros id m. rewrite lookup_insert. case_decide; [lia |]. intros Hm%Hheap. lia.
  - intros id m. rewrite lookup_insert. case_decide as Hid; [subst id; intros _ _; exists i; by apply list_lookup_insert_eq |].
    intros Hm Ha. destruct (Halive _ _ Hm Ha) as [j Hj]. exists j. rewrite list_lookup_insert_ne; congruence.
Qed.

Lemma mux_moved_ok n p id m m' :
  pool_ok n p -> muxes p !! id = Some m -> mux_step (set_health m (Some (pool_health p))) m' -> pool_ok n (mux_moved p id m').
Proof.
  intros [Hs Hl Hids Hheap Halive] Hm Hstep. split; simpl; [done | done | done | |].
  - intros id' m1. rewrite lookup_insert. case_decide; [subst; eauto | apply Hheap].
  - intros id' m1. rewrite lookup_insert. case_decide; [| apply Halive]. subst. intros [= <-] Ha.
    apply (Halive _ _ Hm). by apply (mux_step_alive _ _ Hstep).
Qed.

Definition sys_ok (n : nat) (p : MuxPool) (cs : gmap nat Call) : Prop := pool_ok n p /\ calls_ok n p cs.

Lemma sys_ok_stay n p p' cs k c c' :
  sys_ok n p cs -> cs !! k = Some c -> call_holds (Z.of_nat n) c' = call_holds (Z.of_nat n) c -> call_ok n c' ->
  slots p' = slots p -> locked p' = locked p -> muxes p' = muxes p -> next_mux p' = next_mux p ->
  sys_ok n p' (set_call k (Some c') cs).
Proof.
  intros [Hp Hc] Hk Hh Hok E1 E2 E3 E4. split; [by eapply pool_ok_same |].
  eapply calls_ok_stay; try done. by rewrite E1.
Qed.

(** The call takes the lock of slot [i]. *)
Lemma sys_ok_acquire n now p cs k c i b p' a oc :
  sys_ok n p cs -> cs !! k = Some c -> call_holds (Z.of_nat n) c = None -> (i < n)%nat -> lock_free p i = true ->
  acquire_locked now p i b = (p', a) ->
  (forall c', oc = Some c' -> call_ok n c') ->
  (oc ≫= call_holds (Z.of_nat n)) = match a with MustConnect => Some i | _ => None end ->
  sys_ok n p' (set_call k oc cs).
Proof.
  intros [Hp Hc] Hk Hh Hi Hfree Ha Hok Hoc. destruct (acquire_locked_spec n now p i b p' a Hp Hi Ha) as (Hp' & Hs & Hl).
  split; [done |]. eapply calls_ok_move; [done | done | rewrite Hk; cbn [mbind option_bind]; rewrite Hh, Hoc ..]; [| | done].
  - intros j _ Hj. split; [| apply Hs]. destruct a; [by rewrite Hl ..|]. destruct Hl as [-> _].
    apply list_lookup_insert_ne. congruence.
  - destruct a; [done | done |]. intros j [= <-]. destruct Hl as [-> Hn]. split_and!; [| done |].
    + apply list_lookup_insert_eq. by rewrite (ok_locked n p Hp).
    + right. intros E. unfold lock_free in Hfree. by rewrite E in Hfree.
Qed.

(** The call that connects on slot [i] ends that with [p'] and goes on as [oc]. *)
Lemma sys_ok_release n p cs k c i p' oc :
  sys_ok n p cs -> cs !! k = Some c -> call_holds (Z.of_nat n) c = Some i ->
  pool_ok n p' -> locked p' = <[i := false]> (locked p) -> (forall j, j <> i -> slots p' !! j = slots p !! j) ->
  (forall c', oc = Some c' -> call_ok n c') -> (oc ≫= call_holds (Z.of_nat n)) = None ->
  sys_ok n p' (set_call k oc cs).
Proof.
  intros [Hp Hc] Hk Hh Hp' Hl Hs Hok Hoc. split; [done |].
  eapply calls_ok_move; [done | done | rewrite Hk; cbn [mbind option_bind]; rewrite Hh, Hoc ..]; [| done |].
  - intros j Hj _. assert (j <> i) by congruence. rewrite Hl, Hs by done. by rewrite list_lookup_insert_ne.
  - intros j [= <-] _. rewrite Hl, list_lookup_insert. case_decide; [done |].
    intros E%lookup_lt_Some. tauto.
Qed.

Lemma slot_index_lt n p start i :
  (0 < n)%nat -> pool_size p = Z.of_nat n -> (slot_index p start i < n)%nat.
Proof. intros Hn Hs. unfold slot_index. rewrite Hs. pose proof (Z.mod_pos_bound (start + i) (Z.of_nat n)). lia. Qed.

Lemma pool_ok_size n p : pool_ok n p -> pool_size p = Z.of_nat n.
Proof. intros H. unfold pool_size, zlen. by rewrite (ok_slots n p H). Qed.

Lemma open_step_ok n now a p cs k pc :
  (0 < n)%nat -> sys_ok n p cs -> cs !! k = Some (COpen pc) ->
  sys_ok n (open_step now a p pc).1 (set_call k (Some (COpen (open_step now a p pc).2)) cs).
Proof.
  intros Hn Hsys Hk. pose proof Hsys as [Hp Hc]. pose proof (pool_ok_size n p Hp) as Hsz.
  assert (Hok := co_ok _ _ _ Hc _ _ Hk). cbn [call_ok] in Hok.
  destruct (open_step_progress now a p pc (Z.of_nat n) ltac:(lia) Hsz Hok) as [Hok' _].
  pose proof (fun st i => slot_index_lt n p st i Hn Hsz) as Hidx.
  assert (Hstay : forall p' c', call_ok n c' -> call_holds (Z.of_nat n) c' = call_holds (Z.of_nat n) (COpen pc) ->
    slots p' = slots p -> locked p' = locked p -> muxes p' = muxes p -> next_mux p' = next_mux p ->
    sys_ok n p' (set_call k (Some c') cs)) by (intros; by eapply sys_ok_stay).
  destruct pc; cbn [open_step] in *.
  1-4: repeat case_cmp; by apply Hstay.
  - destruct a; try by apply Hstay. destruct (lock_free p _) eqn:Hfree; [| by apply Hstay].
    destruct (acquire_locked _ _ _ _) as [p1 x] eqn:E.
    assert (Hp1 : forall c', call_ok n c' ->
      call_holds (Z.of_nat n) c' = match x with MustConnect => Some (slot_index p start i) | _ => None end ->
      sys_ok n p1 (set_call k (Some c') cs)).
    { intros c' Hc' Hh. eapply (sys_ok_acquire n now p cs k _ (slot_index p start i)); try done. by intros ? [= <-]. }
    destruct x; apply Hp1; try done. cbn [snd call_holds]. unfold slot_index. by rewrite Hsz.
  - destruct a; try by apply Hstay. destruct (acquire_connected _ _ _) as [p1 x] eqn:E.
    assert (Hh : call_holds (Z.of_nat n) (COpen (PConnecting start i am_prober last_err)) = Some (slot_index p start i))
      by (unfold slot_index; by rewrite Hsz).
    destruct (co_hold _ _ _ Hc _ _ _ Hk Hh) as [_ Hnone].
    destruct (acquire_connected_spec n p _ r p1 x Hp Hnone E) as (H1 & H2 & H3).
    assert (Hp1 : forall c', call_ok n c' -> call_holds (Z.of_nat n) c' = None -> sys_ok n p1 (set_call k (Some c') cs)).
    { intros c' Hc' Hn'. eapply (sys_ok_release n p cs k _ _ p1 _ Hsys Hk Hh); try done. by intros ? [= <-]. }
    destruct x; by apply Hp1.
  - destruct a; try by apply Hstay. unfold open_answered in *. destruct r as [u | e]; [by apply Hstay |].
    destruct (kind e); try case_cmp; by apply Hstay.
  - case_cmp; [| by apply Hstay]. destruct (invalidate_slot_spec n p _ Hp (Hidx start i)) as (H1 & H2 & H3).
    split; [done |]. eapply calls_ok_stay; try done. cbn [fst]. rewrite H3. intros j. apply slots_kept.
  - by apply Hstay.
Qed.

Lemma pool_step_ok n s s' :
  (0 < n)%nat -> sys_ok n (sys_pool s) (sys_calls s) -> pool_step s s' -> sys_ok n (sys_pool s') (sys_calls s').
Proof.
  intros Hn Hsys Hstep. pose proof Hsys as [Hp Hc]. pose proof (pool_ok_size n _ Hp) as Hsz.
  assert (Hpool : forall p', slots p' = slots (sys_pool s) -> locked p' = locked (sys_pool s) ->
    muxes p' = muxes (sys_pool s) -> next_mux p' = next_mux (sys_pool s) -> sys_ok n p' (sys_calls s)).
  { intros p' E1 E2 E3 E4. split; [by eapply pool_ok_same |]. eapply calls_ok_pool; [done | done |]. by rewrite E1. }
  assert (Hnew : forall k c, sys_calls s !! k = None -> call_ok n c -> call_holds (Z.of_nat n) c = None ->
    sys_ok n (sys_pool s) (set_call k (Some c) (sys_calls s))).
  { intros k c Hk Hok Hh. split; [done |].
    eapply calls_ok_move; [done | | rewrite Hk; cbn [mbind option_bind]; rewrite ?Hh ..]; try done. by intros ? [= <-]. }
  destruct Hstep as [k Hk | k i Hk Hi | k pc now a Hk | k i now late p r Hk Hl E | k i r Hk | k c Hk | i Hi | now | r | now
    | id m m' Hm Hst]; cbn [sys_pool sys_calls].
  - by apply Hnew.
  - apply Hnew; [done | | done]. by rewrite <- (ok_slots n _ Hp).
  - by apply open_step_ok.
  - assert (Hi : (i < n)%nat) by apply (co_ok _ _ _ Hc _ _ Hk). unfold warm_begin in E.
    assert (Hnone : sys_ok n (sys_pool s) (set_call k None (sys_calls s))).
    { split; [done |]. eapply calls_ok_move; [done | | rewrite Hk ..]; done. }
    destruct late; [by injection E as <- <- |]. destruct Hl as [? | Hfree]; [done |].
    destruct (acquire_locked _ _ _ _) as [p1 x] eqn:Ea.
    eapply (sys_ok_acquire n now (sys_pool s) _ k _ i); try done.
    + destruct x; injection E as <- <-; exact Ea.
    + destruct r; [done |]. by intros ? [= <-].
    + by destruct x; injection E as <- <-.
  - destruct (co_hold _ _ _ Hc _ _ i Hk) as [_ Hnone]; [done |]. unfold warm_finish.
    destruct (acquire_connected _ _ _) as [p1 x] eqn:E.
    destruct (acquire_connected_spec n _ _ r p1 x Hp Hnone E) as (H1 & H2 & H3).
    assert (Hp1 : sys_ok n p1 (set_call k None (sys_calls s)))
      by by eapply (sys_ok_release n _ _ k _ i p1 None Hsys Hk).
    by destruct x.
  - unfold cancel_call. rewrite Hsz. destruct (call_holds (Z.of_nat n) c) as [i |] eqn:Hh.
    + eapply (sys_ok_release n _ _ k c i _ None Hsys Hk); try done. by apply pool_ok_lock.
    + split; [done |]. eapply calls_ok_move; [done | | rewrite Hk; cbn [mbind option_bind]; rewrite ?Hh ..]; done.
  - destruct (decide (i < n)%nat) as [Hlt | Hge].
    + destruct (invalidate_slot_spec n _ i Hp Hlt) as (H1 & H2 & H3). split; [done |].
      eapply calls_ok_pool; [done | done |]. rewrite H3. intros j. apply slots_kept.
    + assert (locked (sys_pool s) !! i = None) as Hno by (apply lookup_ge_None; rewrite (ok_locked n _ Hp); lia).
      unfold lock_free in Hi. by rewrite Hno in Hi.
  - by apply Hpool.
  - destruct r; by apply Hpool.
  - unfold relay_degraded. destruct (degraded _ _). by apply Hpool.
  - split; [by eapply mux_moved_ok |]. by eapply calls_ok_pool.
Qed.

Lemma pool_reachable_ok now size s :
  0 <= size -> pool_reachable now size s ->
  sys_ok (Z.to_nat (if size =? 0 then DEFAULT_POOL_SIZE else size)) (sys_pool s) (sys_calls s).
Proof.
  intros Hsize. induction 1 as [| s s' _ IH Hstep].
  - cbn [sys_pool sys_calls]. split.
    + split; simpl; [by rewrite length_replicate | by rewrite length_replicate | | done | done].
      intros i id [E _]%lookup_replicate. done.
    + split; try done. simpl. intros i [E _]%lookup_replicate. done.
  - eapply pool_step_ok; [| done | done]. unfold DEFAULT_POOL_SIZE. case_cmp; lia.
Qed.

(** The live tunnels, and those of the slots. *)
Definition live_muxes (p : MuxPool) : gmap nat Multiplexer := filter (fun kv => alive kv.2 = true) (muxes p).

Lemma live_muxes_bound n p : pool_ok n p -> (size (live_muxes p) <= n)%nat.
Proof.
  intros H. rewrite <- length_map_to_list, <- (length_fmap (Some ∘ fst)), <- (ok_slots n p H).
  apply submseteq_length, NoDup_submseteq.
  { rewrite list_fmap_compose. apply NoDup_fmap; [by intros ?? [= ->] | apply NoDup_fst_map_to_list]. }
  intros x ([i m] & -> & Hm%elem_of_map_to_list)%list_elem_of_fmap.
  apply map_lookup_filter_Some in Hm as [Hm Ha]. destruct (ok_alive n p H _ _ Hm Ha) as [j Hj].
  by eapply list_elem_of_lookup_2.
Qed.

(** C6: in every state of the pool, whatever calls, warm-ups, recycles, probes,
    cancellations and deaths of tunnels interleave, a live multiplexer is in some
    slot, so there are never more live tunnels than slots (no ghost sessions);
    and a slot lock is taken exactly while one call connects under it, so no lock
    is leaked and no two calls connect one slot. *)
Theorem pool_no_ghost_tunnels now size0 s :
  0 <= size0 -> pool_reachable now size0 s ->
  (forall id m, muxes (sys_pool s) !! id = Some m -> alive m = true ->
     exists i, slots (sys_pool s) !! i = Some (Some id)) /\
  (size (live_muxes (sys_pool s)) <= Z.to_nat (if (size0 =? 0)%Z then DEFAULT_POOL_SIZE else size0))%nat /\
  (forall i, locked (sys_pool s) !! i = Some true <->
     exists k c, sys_calls s !! k = Some c /\ call_holds (pool_size (sys_pool s)) c = Some i) /\
  (forall k1 k2 c1 c2 i, sys_calls s !! k1 = Some c1 -> sys_calls s !! k2 = Some c2 ->
     call_holds (pool_size (sys_pool s)) c1 = Some i -> call_holds (pool_size (sys_pool s)) c2 = Some i -> k1 = k2).
Proof.
  intros Hsize Hr. destruct (pool_reachable_ok now size0 s Hsize Hr) as [Hp Hc].
  rewrite (pool_ok_size _ _ Hp). split_and!.
  - apply (ok_alive _ _ Hp).
  - by apply live_muxes_bound.
  - intros i. split; [apply (co_leak _ _ _ Hc) |]. intros (k & c & Hk & Hh). by apply (co_hold _ _ _ Hc _ _ _ Hk Hh).
  - apply (co_one _ _ _ Hc).
Qed.

(** What a call waits for: its slot lock, the network, or the multiplexer. *)
Definition call_waits (p : MuxPool) (pc : OpenPc) : bool :=
  match pc with
  | PInvalidate start i _ _ => negb (lock_free p (slot_index p start i))
  | PDone _ => true
  | _ => false
  end.

Lemma open_step_moves n now p pc :
  (0 < n)%Z -> pool_size p = n -> pc_ok n pc -> call_waits p pc = false ->
  exists a, open_measure n (open_step now a p pc).2 < open_measure n pc.
Proof.
  intros Hn Hs Hok Hw.
  pose proof (fun a => proj2 (open_step_progress now a p pc n Hn Hs Hok)) as Hprog.
  assert (exists a, (open_step now a p pc).2 <> pc) as [a Ha]; [| exists a; destruct (Hprog a); [done | lia]].
  destruct pc as [| b | pr | start i pr l | start i pr l | start i pr l | start i pr l m | start i pr l | r]; try done.
  - exists Timely. cbn [open_step]. by repeat case_cmp.
  - exists Timely. cbn [open_step]. by repeat case_cmp.
  - by exists Timely.
  - exists Timely. cbn [open_step]. by repeat case_cmp.
  - by exists LockLate.
  - by exists (AnsConnect Rejected).
  - by exists (AnsOpen (Ok tt)).
  - exists Timely. cbn [open_step call_waits] in *. by destruct (lock_free _ _).
Qed.

(** C8: a call of [open_stream] on [n] slots makes at most [5 n + 4] moves before
    it returns, whatever state the other calls leave the pool in at each of its
    turns; and until it returns some answer of what it waits for moves it on,
    except while the lock of a slot it invalidates is taken. *)
Theorem open_stream_terminates n turns :
  0 < n -> Forall (fun t => pool_size t.2 = n) turns ->
  moves n PGate (call_run PGate turns) <= 5 * n + 4 /\
  (forall now p pc, pool_size p = n -> pc ∈ call_run PGate turns -> call_waits p pc = false ->
     exists a, open_measure n (open_step now a p pc).2 < open_measure n pc).
Proof.
  intros Hn Ht. split; [by apply (call_moves n turns PGate Hn Ht); [| simpl; lia] |].
  intros now p pc Hs Hin Hw. apply (open_step_moves n now p pc Hn Hs); [| done].
  assert (Hall : Forall (pc_ok n) (call_run PGate turns)).
  { clear Hin. assert (H0 : pc_ok n PGate) by done. revert H0. generalize PGate as pc0.
    induction Ht as [| [[t a] q] turns Hq _ IH]; intros pc0 H0; cbn [call_run]; constructor;
      [| apply IH]; by apply (open_step_progress t a q pc0 n Hn Hq H0). }
  by eapply Forall_forall in Hall.
Qed.


(** A schedule: which call moves, when and with which answer; a new key starts a
    call. *)
Definition turn (s : PoolSys) (x : nat * Z * Answer) : PoolSys :=
  let '(k, now, a) := x in
  match sys_calls s !! k with
  | None => {| sys_pool := sys_pool s; sys_calls := set_call k (Some (COpen PGate)) (sys_calls s) |}
  | Some (COpen pc) =>
      {| sys_pool := (open_step now a (sys_pool s) pc).1;
         sys_calls := set_call k (Some (COpen (open_step now a (sys_pool s) pc).2)) (sys_calls s) |}
  | Some _ => s
  end.

Lemma turns_reachable now size s l : pool_reachable now size s -> pool_reachable now size (foldl turn s l).
Proof.
  revert s. induction l as [| [[k t] a] l IH]; intros s Hs; [done |]. cbn [foldl]. apply IH. unfold turn.
  destruct (sys_calls s !! k) as [[pc | i b] |] eqn:E; [| done |].
  - eapply pr_step; [done |]. by apply ps_open.
  - eapply pr_step; [done |]. by apply ps_call.
Qed.

End steps.

(** ** Witnesses *)

Definition ex_new : PoolSys := {| sys_pool := MuxPool_new 0 2; sys_calls := ∅ |}.
Definition ex_connected : PoolSys :=
  foldl (@turn arch64) ex_new
    (((fun a => (0%nat, 0, a)) <$> replicate 5 Timely) ++ [(0%nat, 100, AnsConnect (Accepted MuxCaps_LOCAL))]).

Lemma pool_no_ghost_tunnels_witness :
  size (live_muxes (sys_pool ex_connected)) = 1%nat /\ (size (live_muxes (sys_pool ex_connected)) <= 2)%nat.
Proof.
  split; [vm_compute; reflexivity |].
  apply (@pool_no_ghost_tunnels arch64 0 2 ex_connected); [lia |]. apply turns_reachable, pr_new.
Defined.

Lemma open_stream_terminates_witness :
  @moves 2 PGate (@call_run arch64 PGate (replicate 30 (0, LockLate, MuxPool_new 0 2))) <= 5 * 2 + 4.
Proof.
  apply (@open_stream_terminates arch64 2 (replicate 30 (0, LockLate, MuxPool_new 0 2))); [lia |].
  apply Forall_replicate. reflexivity.
Defined.


(** A schedule with two probers. *)
Definition ex_fail : Answer := AnsConnect (ConnectErr err_no_slots).

Definition ex_two_probers : PoolSys :=
  foldl (@turn arch64) ex_new
    ([(0%nat, 0, Timely); (0%nat, 0, Timely); (0%nat, 0, Timely); (0%nat, 0, Timely); (0%nat, 0, Timely);
      (0%nat, 0, ex_fail); (0%nat, 0, Timely); (0%nat, 0, Timely);
      (1%nat, 0, Timely); (1%nat, 0, Timely); (1%nat, 0, Timely); (1%nat, 0, Timely); (1%nat, 0, LockLate);
      (1%nat, 0, Timely); (1%nat, 0, Timely); (1%nat, 0, ex_fail); (1%nat, 0, Timely);
      (2%nat, 5000, Timely); (2%nat, 5000, Timely); (2%nat, 5000, Timely); (2%nat, 5000, Timely);
      (2%nat, 5000, Timely); (2%nat, 5000, Timely);
      (0%nat, 5100, ex_fail); (0%nat, 5100, Timely);
      (3%nat, 10100, Timely); (3%nat, 10100, Timely); (3%nat, 10100, Timely)]).

(** the election of one prober can fail. A walk that began before the breaker
    was armed ends after a prober was elected; its failure arms the breaker for
    the cooldown and so cuts the prober's lease short, and a second prober is
    elected while the first one still connects. *)
Theorem two_probers_at_once :
  @pool_reachable arch64 0 2 ex_two_probers /\
  sys_calls ex_two_probers !! 2%nat = Some (COpen (PConnecting 0 0 true None)) /\
  sys_calls ex_two_probers !! 3%nat = Some (COpen (PStart true)).
Proof. split; [apply turns_reachable, pr_new | split; vm_compute; reflexivity]. Qed.

(** An elected prober whose open ends with another kind of error leaves its lease
    standing: the pool refuses every call until the fifteen seconds are over. *)
Theorem prober_leaves_lease AR now p start i l mux msg :
  @open_step AR now (AnsOpen (io_err WouldBlock msg)) p (POpening start i true l mux) =
    (p, PDone (io_err WouldBlock msg)).
Proof. reflexivity. Qed.
