(* ===== verification/ServerPool.v ===== *)
(** * The pool of servers (xr-proto/src/server_pool.rs)

    Several servers by priority, the active one, failover, and failback with a
    hold-down and an anti-flapping penalty. Calls, warm-ups, the health task and
    the recycle run at the same time: each is a machine that steps between two
    [await]s, and what the awaited tunnel pool answered is the argument of the
    step. Times are milliseconds of one monotonic clock. *)

From S2P Require Import Prelude Text RelayHealth Chan Mux MuxPool.

Definition PROBE_TIMEOUT : Z := 10 * 1000.
Definition PER_SERVER_OPEN_TIMEOUT : Z := 5 * 1000.
Definition FAILBACK_FLAP_WINDOW : Z := 45 * 1000.
Definition FAILBACK_FLAP_CAP : Z := 6.
Definition FAILBACK_BACKOFF_MAX : Z := 1800 * 1000.

(** [Duration::MAX] in milliseconds. *)
Definition DURATION_MAX : Z := (2 ^ 64 - 1) * 1000 + 999.

Record PoolProfile := { warm_backups : bool; probe_interval : Z; failback_hold : Z }.

Definition PoolProfile_router : PoolProfile :=
  {| warm_backups := true; probe_interval := 15 * 1000; failback_hold := 60 * 1000 |}.
Definition PoolProfile_mobile : PoolProfile :=
  {| warm_backups := false; probe_interval := 60 * 1000; failback_hold := 60 * 1000 |}.

Inductive DownClass := Unknown.
Inductive HealthState := Up | Down (since : Z) (class : DownClass).

Record SlotState := {
  health : HealthState;
  up_since : option Z;
  became_active_at : option Z;
  flap_count : Z;
  failback_suppressed_until : option Z
}.

Definition SlotState_new : SlotState :=
  {| health := Up; up_since := None; became_active_at := None; flap_count := 0; failback_suppressed_until := None |}.

Definition mark_up (now : Z) (st : SlotState) : SlotState :=
  {| health := Up;
     up_since := match up_since st with None => Some now | s => s end;
     became_active_at := became_active_at st; flap_count := flap_count st;
     failback_suppressed_until := failback_suppressed_until st |}.

Definition mark_down (now : Z) (st : SlotState) : SlotState :=
  {| health := match health st with Down s c => Down s c | Up => Down now Unknown end;
     up_since := None;
     became_active_at := became_active_at st; flap_count := flap_count st;
     failback_suppressed_until := failback_suppressed_until st |}.

Definition is_down (st : SlotState) : bool := match health st with Down _ _ => true | Up => false end.

Definition up_for (now : Z) (st : SlotState) : option Z := elapsed now <$> up_since st.

Definition note_became_active (now : Z) (st : SlotState) : SlotState :=
  {| health := health st; up_since := up_since st; became_active_at := Some now; flap_count := flap_count st;
     failback_suppressed_until := failback_suppressed_until st |}.

Definition active_for (now : Z) (st : SlotState) : option Z := elapsed now <$> became_active_at st.

Definition failback_suppressed (now : Z) (st : SlotState) : bool :=
  match failback_suppressed_until st with Some t => now <? t | None => false end.

(** The shift [1u32 << flap_count] and the saturating product. *)
Definition flap_backoff (hold flaps : Z) : Z :=
  Z.min (Z.min (hold * u32 (Z.shiftl 1 flaps)) DURATION_MAX) FAILBACK_BACKOFF_MAX.

Definition penalize_flap (now hold : Z) (st : SlotState) : SlotState :=
  let flaps := Z.min (u32 (flap_count st + 1)) FAILBACK_FLAP_CAP in
  {| health := health st; up_since := up_since st; became_active_at := became_active_at st; flap_count := flaps;
     failback_suppressed_until := Some (now + flap_backoff hold flaps) |}.

Definition clear_flap (st : SlotState) : SlotState :=
  {| health := health st; up_since := up_since st; became_active_at := became_active_at st; flap_count := 0;
     failback_suppressed_until := None |}.

Definition SlotState_reset (st : SlotState) : SlotState := SlotState_new.

Record ServerSlot := { name : bytes; addr : bytes; pool : MuxPool; state : SlotState }.

Definition label (s : ServerSlot) : bytes := match name s with [] => addr s | n => n end.

Inductive SwitchReason := Failover | RelayDegraded | Failback | Warmup.

Definition reason_user (r : SwitchReason) : bytes :=
  match r with
  | Failover => str "сервер не ответил, перешёл на резерв"
  | RelayDegraded => str "через сервер не идёт трафик, перешёл на резерв"
  | Failback => str "основной сервер снова живой, вернулся на него"
  | Warmup => str "выбран сервер"
  end.

Definition servers_word (n : Z) : bytes :=
  if (11 <=? n mod 100) && (n mod 100 <=? 14) then str "серверов"
  else if n mod 10 =? 1 then str "сервер"
  else if (2 <=? n mod 10) && (n mod 10 <=? 4) then str "сервера"
  else str "серверов".

(** [events] is what the callback was given, in order. *)
Record ServerPool := {
  servers : list ServerSlot;
  active : nat;
  profile : PoolProfile;
  events : list bytes
}.

(** The constructor panics on an empty list. *)
Definition ServerPool_new (l : list (bytes * bytes * MuxPool)) (pr : PoolProfile) : option ServerPool :=
  match l with
  | [] => None
  | _ => Some {| servers := (fun '(n, a, p) => {| name := n; addr := a; pool := p; state := SlotState_new |}) <$> l;
                 active := 0; profile := pr; events := [] |}
  end.

Definition set_servers (p : ServerPool) (l : list ServerSlot) : ServerPool :=
  {| servers := l; active := active p; profile := profile p; events := events p |}.

Definition set_active (p : ServerPool) (i : nat) : ServerPool :=
  {| servers := servers p; active := i; profile := profile p; events := events p |}.

Definition emit (p : ServerPool) (user : bytes) : ServerPool :=
  {| servers := servers p; active := active p; profile := profile p; events := events p ++ [user] |}.

Definition with_state (f : SlotState -> SlotState) (s : ServerSlot) : ServerSlot :=
  {| name := name s; addr := addr s; pool := pool s; state := f (state s) |}.

Definition with_pool (f : MuxPool -> MuxPool) (s : ServerSlot) : ServerSlot :=
  {| name := name s; addr := addr s; pool := f (pool s); state := state s |}.

Definition on_state (p : ServerPool) (i : nat) (f : SlotState -> SlotState) : ServerPool :=
  set_servers p (alter (with_state f) i (servers p)).

Definition on_pool (p : ServerPool) (i : nat) (f : MuxPool -> MuxPool) : ServerPool :=
  set_servers p (alter (with_pool f) i (servers p)).

(** The state of a slot; [slot_label] its label. *)
Definition slot_state (p : ServerPool) (i : nat) : SlotState := from_option state SlotState_new (servers p !! i).
Definition slot_label (p : ServerPool) (i : nat) : bytes := from_option label [] (servers p !! i).

Definition active_index (p : ServerPool) : nat := Nat.min (active p) (length (servers p) - 1).

Definition is_backup_active (p : ServerPool) : bool := negb (active_index p =? 0)%nat.

Definition server_health (p : ServerPool) (i : nat) : option HealthState := (fun s => health (state s)) <$> servers p !! i.

Definition active_name (p : ServerPool) : bytes := slot_label p (active_index p).

Definition active_label (p : ServerPool) : bytes :=
  match servers p !! active_index p with
  | None => []
  | Some s => match name s with [] => addr s | n => n ++ str " (" ++ addr s ++ str ")" end
  end.

(** The compare-and-exchange with what its winner does. *)
Definition switch_active (now : Z) (p : ServerPool) (from to : nat) (r : SwitchReason) : ServerPool :=
  if (from =? to)%nat then p
  else if (active p =? from)%nat then
    let p := on_state (set_active p to) to (note_became_active now) in
    emit p (reason_user r ++ str ": " ++ slot_label p from ++ str " -> " ++ slot_label p to)
  else p.

Definition walk_order (n start : nat) : list nat :=
  start :: List.filter (fun i => negb (i =? start)%nat) (seq 0 n).

(** [sort_by_key] on the index: stable. *)
Fixpoint insert_failure (f : nat * io_error) (l : list (nat * io_error)) : list (nat * io_error) :=
  match l with
  | [] => [f]
  | g :: l' => if (f.1 <=? g.1)%nat then f :: l else g :: insert_failure f l'
  end.

Definition sort_failures (l : list (nat * io_error)) : list (nat * io_error) := foldr insert_failure [] l.

Definition pool_exhausted (p : ServerPool) (failures : list (nat * io_error)) : io_error :=
  match failures with
  | [] => IoError OtherKind (str "no servers in pool")
  | [(_, e)] => e
  | _ =>
      let failures := sort_failures failures in
      let k := match failures with (_, e) :: _ => kind e | [] => OtherKind end in
      let details := join (str ", ")
        ((fun '(i, e) => slot_label p i ++ str " (" ++ message e ++ str ")") <$> failures) in
      let n := zlen failures in
      IoError k (str "все " ++ show_dec n ++ str " " ++ servers_word n ++ str " недоступны: " ++ details)
  end.

(** ** The tasks *)

Definition err_open_timeout : io_error := IoError TimedOut (str "open timed out за 5s").

(** Where a task is: the awaited server is the head of the list, or the given
    index. *)
Inductive Task :=
| TOpen (start : nat) (rest : list nat) (failures : list (nat * io_error))
| TOpenDone (r : io_result nat)
| TWarmAll (rest : list nat) (best : option nat) (failures : list (nat * io_error))
| TWarmCold (start : nat) (rest : list nat) (failures : list (nat * io_error))
| TWarmDone (r : io_result unit)
| TTick
| TTickWarm (active i : nat)
| TProbe (active i : nat)
| TFailback
| TTickDone
| TRecycle (i : nat)
| TRecycleDone.

(** What a step waits for; [None] is the timeout of an open or a probe, and the
    failed join of a spawned warm-up. *)
Inductive Reply := RNone | ROpen (r : option (io_result nat)) | RUnit (r : option (io_result unit)).

(** The walk goes on to the next server, or the pool is exhausted. *)
Definition open_next (p : ServerPool) (start : nat) (rest : list nat) (failures : list (nat * io_error)) : Task :=
  match rest with
  | [] => TOpenDone (Err (pool_exhausted p failures))
  | _ => TOpen start rest failures
  end.

Definition open_start (p : ServerPool) : Task :=
  let start := active_index p in open_next p start (walk_order (length (servers p)) start) [].

Definition active_since (now : Z) (p : ServerPool) (i : nat) (test : Z -> bool) : bool :=
  match active_for now (slot_state p i) with Some d => test d | None => false end.

(** A server gave a stream. *)
Definition open_success (now : Z) (p : ServerPool) (start i : nat) : ServerPool :=
  let p := on_state p i (mark_up now) in
  if negb (i =? start)%nat then
    let p := if active_since now p start (fun d => d <? FAILBACK_FLAP_WINDOW)
             then on_state p start (penalize_flap now (failback_hold (profile p))) else p in
    switch_active now p start i Failover
  else if active_since now p start (fun d => FAILBACK_FLAP_WINDOW <=? d) then on_state p start clear_flap
  else p.

Definition open_reply (now : Z) (p : ServerPool) (start i : nat) (rest : list nat) (failures : list (nat * io_error))
    (r : option (io_result nat)) : ServerPool * Task :=
  match r with
  | Some (Ok stream) => (open_success now p start i, TOpenDone (Ok stream))
  | Some (Err e) =>
      if bool_decide (kind e = InvalidInput) then (p, TOpenDone (Err e))
      else
        let p := on_state p i (mark_down now) in
        (p, open_next p start rest (failures ++ [(i, e)]))
  | None =>
      let p := on_state p i (mark_down now) in
      (p, open_next p start rest (failures ++ [(i, err_open_timeout)]))
  end.

(** The end of the warm warm-up. *)
Definition warm_all_end (now : Z) (p : ServerPool) (best : option nat) (failures : list (nat * io_error)) :
    ServerPool * Task :=
  match best with
  | Some i => (switch_active now p (active p) i Warmup, TWarmDone (Ok tt))
  | None => (p, TWarmDone (Err (pool_exhausted p failures)))
  end.

Definition warm_all_next (now : Z) (p : ServerPool) (rest : list nat) (best : option nat)
    (failures : list (nat * io_error)) : ServerPool * Task :=
  match rest with
  | [] => warm_all_end now p best failures
  | _ => (p, TWarmAll rest best failures)
  end.

Definition warm_cold_next (p : ServerPool) (start : nat) (rest : list nat) (failures : list (nat * io_error)) : Task :=
  match rest with
  | [] => TWarmDone (Err (pool_exhausted p failures))
  | _ => TWarmCold start rest failures
  end.

Definition warmup_begin (p : ServerPool) : Task :=
  if warm_backups (profile p) then TWarmAll (seq 0 (length (servers p))) None []
  else let start := active_index p in warm_cold_next p start (walk_order (length (servers p)) start) [].

Definition relay_degradation_tick (now : Z) (p : ServerPool) : ServerPool :=
  let a := active_index p in
  if (length (servers p) <? 2)%nat then p else
  let '(sick, p) := match servers p !! a with
    | Some s => (snd (relay_degraded now (pool s)), on_pool p a (fun q => fst (relay_degraded now q)))
    | None => (false, p)
    end in
  if negb sick then p else
  match List.find (fun i => negb (is_down (slot_state p i))) (drop 1 (walk_order (length (servers p)) a)) with
  | None => p
  | Some to =>
      let p := on_state p a (mark_down now) in
      let p := if active_since now p a (fun d => d <? FAILBACK_FLAP_WINDOW)
               then on_state p a (penalize_flap now (failback_hold (profile p))) else p in
      let p := on_pool p a (fun q => set_pool_health q (RelayHealth_reset now (pool_health q))) in
      switch_active now p a to RelayDegraded
  end.

(** The first candidate that has been up for the hold-down and is not
    suppressed. *)
Definition failback_ready (now : Z) (p : ServerPool) (i : nat) : bool :=
  negb (failback_suppressed now (slot_state p i)) &&
  match up_for now (slot_state p i) with Some up => failback_hold (profile p) <=? up | None => false end.

Definition failback (now : Z) (p : ServerPool) : ServerPool :=
  let a := active_index p in
  match List.find (failback_ready now p) (seq 0 a) with
  | Some i => switch_active now p a i Failback
  | None => p
  end.

(** After the warm-ups of a tick the candidates before [a] are probed. *)
Definition probe_next (a i : nat) : Task := if (i <? a)%nat then TProbe a i else TFailback.

Definition tick_warm_next (p : ServerPool) (a i : nat) : Task :=
  if (i <? length (servers p))%nat then TTickWarm a i else probe_next a 0.

Definition recycle_end (p : ServerPool) : ServerPool :=
  let cur := active p in
  let p := set_active p 0 in
  if (cur =? 0)%nat then p
  else emit p (str "пул серверов пересобран после смены сети, снова работаю через " ++ slot_label p 0).

Definition recycle_next (p : ServerPool) (i : nat) : ServerPool * Task :=
  if (i <? length (servers p))%nat then (p, TRecycle i) else (recycle_end p, TRecycleDone).

(** One step of a task; a reply that does not fit leaves everything as it is. *)
Definition task_step (now : Z) (a : Reply) (p : ServerPool) (t : Task) : ServerPool * Task :=
  match t, a with
  | TOpen start (i :: rest) failures, ROpen r => open_reply now p start i rest failures r
  | TWarmAll (i :: rest) best failures, RUnit r =>
      match r with
      | None => warm_all_next now p rest best failures
      | Some (Ok _) =>
          warm_all_next now (on_state p i (mark_up now)) rest
            (Some (match best with None => i | Some b => Nat.min b i end)) failures
      | Some (Err e) => warm_all_next now (on_state p i (mark_down now)) rest best (failures ++ [(i, e)])
      end
  | TWarmCold start (i :: rest) failures, RUnit (Some r) =>
      match r with
      | Ok _ =>
          let p := on_state p i (mark_up now) in
          ((if negb (i =? start)%nat then switch_active now p start i Failover else p), TWarmDone (Ok tt))
      | Err e =>
          let p := on_state p i (mark_down now) in
          (p, warm_cold_next p start rest (failures ++ [(i, e)]))
      end
  | TTick, RNone =>
      let p := relay_degradation_tick now p in
      let a := active_index p in
      (p, if warm_backups (profile p) then tick_warm_next p a 0 else probe_next a 0)
  | TTickWarm a i, RUnit _ => (p, tick_warm_next p a (S i))
  | TProbe a i, RUnit r =>
      let p := on_state p i (match r with Some (Ok _) => mark_up now | _ => mark_down now end) in
      (p, probe_next a (S i))
  | TFailback, RNone => (failback now p, TTickDone)
  | TRecycle i, RNone =>
      recycle_next (on_state (on_pool p i (recycle now)) i SlotState_reset) (S i)
  | _, _ => (p, t)
  end.

(** ** Everything that runs on the pool *)

Record ServerSys := { sv_pool : ServerPool; sv_tasks : gmap nat Task }.

Definition set_task (k : nat) (t : option Task) (ts : gmap nat Task) : gmap nat Task := partial_alter (fun _ => t) k ts.

(** A task starts, moves on or is dropped, or a tunnel pool changes on its own. *)
Inductive server_step (now : Z) (s : ServerSys) : ServerSys -> Prop :=
| ss_open k :
    server_step now s {| sv_pool := sv_pool s; sv_tasks := set_task k (Some (open_start (sv_pool s))) (sv_tasks s) |}
| ss_warmup k :
    server_step now s {| sv_pool := sv_pool s; sv_tasks := set_task k (Some (warmup_begin (sv_pool s))) (sv_tasks s) |}
| ss_tick k :
    server_step now s {| sv_pool := sv_pool s; sv_tasks := set_task k (Some TTick) (sv_tasks s) |}
| ss_recycle k :
    server_step now s {| sv_pool := (recycle_next (sv_pool s) 0).1;
                         sv_tasks := set_task k (Some (recycle_next (sv_pool s) 0).2) (sv_tasks s) |}
| ss_task k t a :
    sv_tasks s !! k = Some t ->
    server_step now s {| sv_pool := (task_step now a (sv_pool s) t).1;
                         sv_tasks := set_task k (Some (task_step now a (sv_pool s) t).2) (sv_tasks s) |}
| ss_drop k :
    server_step now s {| sv_pool := sv_pool s; sv_tasks := set_task k None (sv_tasks s) |}
| ss_tunnels i q :
    server_step now s {| sv_pool := on_pool (sv_pool s) i (fun _ => q); sv_tasks := sv_tasks s |}.

(** A run from a fresh pool at time [t0], its latest state first. *)
Inductive server_run (t0 : Z) (p0 : ServerPool) : list (Z * ServerSys) -> Prop :=
| run_new : server_run t0 p0 [(t0, {| sv_pool := p0; sv_tasks := ∅ |})]
| run_step t s tr now s' :
    server_run t0 p0 ((t, s) :: tr) -> t <= now -> server_step now s s' -> server_run t0 p0 ((now, s') :: (t, s) :: tr).

(** ** How the slots evolve *)

Inductive SlotOp := OUp | ODown | OActive | OPenalty | OClear | OReset.

Definition slot_op (hold now : Z) (o : SlotOp) (st : SlotState) : SlotState :=
  match o with
  | OUp => mark_up now st
  | ODown => mark_down now st
  | OActive => note_became_active now st
  | OPenalty => penalize_flap now hold st
  | OClear => clear_flap st
  | OReset => SlotState_reset st
  end.

Definition slot_ops (hold now : Z) (ops : list SlotOp) (st : SlotState) : SlotState :=
  foldl (fun st o => slot_op hold now o st) st ops.

Record pool_evo (now : Z) (p p' : ServerPool) : Prop := {
  evo_len : length (servers p') = length (servers p);
  evo_profile : profile p' = profile p;
  evo_slots : forall i, exists ops, slot_state p' i = slot_ops (failback_hold (profile p)) now ops (slot_state p i)
}.

#[global] Instance pool_evo_preorder now : PreOrder (pool_evo now).
Proof.
  split.
  - intros p. split; [done | done |]. intros i. by exists [].
  - intros p q r [H1 H2 H3] [G1 G2 G3]. split; [congruence | congruence |]. intros i.
    destruct (H3 i) as [o1 E1], (G3 i) as [o2 E2]. exists (o1 ++ o2). unfold slot_ops in *.
    by rewrite foldl_app, <- E1, E2, H2.
Qed.

Lemma slot_state_on p i f j :
  slot_state (on_state p i f) j = f (slot_state p j) /\ i = j \/ slot_state (on_state p i f) j = slot_state p j.
Proof.
  unfold slot_state, on_state. simpl. destruct (decide (i = j)) as [-> | Hne].
  - rewrite list_lookup_alter_eq. destruct (servers p !! j); [by left | by right].
  - rewrite list_lookup_alter_ne by done. by right.
Qed.

Lemma slot_state_on_pool p i f j : slot_state (on_pool p i f) j = slot_state p j.
Proof.
  unfold slot_state, on_pool. simpl. destruct (decide (i = j)) as [-> | Hne].
  - rewrite list_lookup_alter_eq. by destruct (servers p !! j).
  - by rewrite list_lookup_alter_ne.
Qed.

Lemma evo_op now p i o : pool_evo now p (on_state p i (slot_op (failback_hold (profile p)) now o)).
Proof.
  split; [apply length_alter | done |]. intros j.
  destruct (slot_state_on p i (slot_op (failback_hold (profile p)) now o) j) as [[E _] | E]; [by exists [o] | by exists []].
Qed.

Lemma evo_mark_up now p i : pool_evo now p (on_state p i (mark_up now)).
Proof. apply (evo_op now p i OUp). Qed.

Lemma evo_mark_down now p i : pool_evo now p (on_state p i (mark_down now)).
Proof. apply (evo_op now p i ODown). Qed.

Lemma evo_reset now p i : pool_evo now p (on_state p i SlotState_reset).
Proof. apply (evo_op now p i OReset). Qed.

Lemma evo_penalty now p i hold :
  hold = failback_hold (profile p) -> pool_evo now p (on_state p i (penalize_flap now hold)).
Proof. intros ->. apply (evo_op now p i OPenalty). Qed.

Lemma evo_clear now p i : pool_evo now p (on_state p i clear_flap).
Proof. apply (evo_op now p i OClear). Qed.

Lemma evo_pool now p i f : pool_evo now p (on_pool p i f).
Proof. split; [apply length_alter | done |]. intros j. exists []. apply slot_state_on_pool. Qed.

Lemma evo_emit now p u : pool_evo now p (emit p u).
Proof. split; [done | done |]. intros j. by exists []. Qed.

Lemma evo_set_active now p i : pool_evo now p (set_active p i).
Proof. split; [done | done |]. intros j. by exists []. Qed.

Lemma evo_switch now p from to r : pool_evo now p (switch_active now p from to r).
Proof.
  unfold switch_active. case_cmp; [reflexivity |]. case_cmp; [| reflexivity].
  etrans; [apply evo_set_active |]. etrans; [apply (evo_op now _ to OActive) |]. apply evo_emit.
Qed.

(** Peels the operations off, the last one first. *)
Ltac evo :=
  repeat (cbn [fst snd];
    first [ reflexivity
          | (etrans; [| first [ apply evo_mark_up | apply evo_mark_down | apply evo_reset | apply evo_clear
                              | apply evo_switch | apply evo_pool | apply evo_emit | apply evo_set_active
                              | apply evo_penalty; reflexivity ]])
          | case_cmp | progress case_match ]).

Lemma evo_degradation now p : pool_evo now p (relay_degradation_tick now p).
Proof.
  unfold relay_degradation_tick. case_cmp; [reflexivity |].
  destruct (servers p !! active_index p) as [s |]; [| reflexivity].
  set (q := on_pool p _ _). assert (Hq : pool_evo now p q) by apply evo_pool. clearbody q.
  case_cmp; [done |]. destruct (List.find _ _) as [to |]; [| done]. etrans; [exact Hq |]. clear Hq. evo.
Qed.

Lemma evo_failback now p : pool_evo now p (failback now p).
Proof. unfold failback. destruct (List.find _ _); evo. Qed.

Lemma evo_recycle_next now p i : pool_evo now p (recycle_next p i).1.
Proof. unfold recycle_next, recycle_end. evo. Qed.

Lemma evo_warm_all_next now p rest best fl : pool_evo now p (warm_all_next now p rest best fl).1.
Proof. unfold warm_all_next, warm_all_end. destruct rest, best; evo. Qed.

Lemma evo_open_reply now p start i rest fl r : pool_evo now p (open_reply now p start i rest fl r).1.
Proof. unfold open_reply, open_success. destruct r as [[m | e] |]; evo. Qed.

Lemma evo_task now a p t : pool_evo now p (task_step now a p t).1.
Proof.
  destruct t as [start [| i rest] fl | r | [| i rest] best fl | start [| i rest] fl | r | | a0 i | a0 i | | | i |];
    destruct a as [| ro | ru]; try reflexivity; cbn [task_step].
  - apply evo_open_reply.
  - destruct ru as [[u | e] |].
    + etrans; [apply (evo_mark_up now p i) | apply evo_warm_all_next].
    + etrans; [apply (evo_mark_down now p i) | apply evo_warm_all_next].
    + apply evo_warm_all_next.
  - destruct ru as [[u | e] |]; evo.
  - apply evo_degradation.
  - cbn [fst]. destruct ru as [[u | e] |]; evo.
  - apply evo_failback.
  - etrans; [| apply evo_recycle_next]. etrans; [apply (evo_pool now p i) | apply evo_reset].
Qed.

Lemma evo_step now s s' : server_step now s s' -> pool_evo now (sv_pool s) (sv_pool s').
Proof.
  destruct 1; cbn [sv_pool]; try reflexivity; [apply evo_recycle_next | apply evo_task | apply evo_pool].
Qed.

(** ** The invariant *)

Record slot_ok (now : Z) (st : SlotState) : Prop := {
  so_flap : 0 <= flap_count st <= FAILBACK_FLAP_CAP;
  so_suppressed : forall t, failback_suppressed_until st = Some t -> t <= now + FAILBACK_BACKOFF_MAX;
  so_down : is_down st = true -> up_since st = None;
  so_up : forall u, up_since st = Some u -> u <= now
}.

Lemma slot_ok_later now now' st : now <= now' -> slot_ok now st -> slot_ok now' st.
Proof. intros Hle []. split; [done | | done |]; intros x Hx; [specialize (so_suppressed0 x Hx) | specialize (so_up0 x Hx)]; lia. Qed.

Lemma slot_op_ok hold now o st : slot_ok now st -> slot_ok now (slot_op hold now o st).
Proof.
  intros [H1 H2 H3 H4]. unfold FAILBACK_FLAP_CAP, FAILBACK_BACKOFF_MAX in *.
  destruct o; cbn [slot_op]; split; cbn [flap_count failback_suppressed_until up_since]; try done.
  - intros u. simpl. destruct (up_since st); [apply H4 |]. intros [= <-]. lia.
  - simpl. unfold FAILBACK_FLAP_CAP, u32. pose proof (Z.mod_pos_bound (flap_count st + 1) (2 ^ 32)). lia.
  - intros t. unfold penalize_flap. cbv zeta. cbn [failback_suppressed_until]. intros [= <-].
    unfold flap_backoff, FAILBACK_BACKOFF_MAX. lia.
Qed.

Lemma slot_ops_ok hold now ops st : slot_ok now st -> slot_ok now (slot_ops hold now ops st).
Proof. revert st. induction ops as [| o ops IH]; intros st Hst; [done |]. apply IH. by apply slot_op_ok. Qed.

Definition task_ok (n : nat) (t : Task) : Prop :=
  match t with
  | TOpen start rest _ | TWarmCold start rest _ => Forall (fun i => i < n)%nat rest
  | TWarmAll rest best _ => Forall (fun i => i < n)%nat rest /\ forall b, best = Some b -> (b < n)%nat
  | _ => True
  end.

Definition pool_inv (n : nat) (p : ServerPool) : Prop := length (servers p) = n /\ (active p < n)%nat.

Lemma active_switch now p from to r :
  active (switch_active now p from to r) = active p \/
  active (switch_active now p from to r) = to /\ active p = from.
Proof. unfold switch_active. repeat case_cmp; auto. right. apply Nat.eqb_eq in E0. auto. Qed.

Lemma switch_inv n now p from to r : (to < n)%nat -> pool_inv n p -> pool_inv n (switch_active now p from to r).
Proof.
  intros Hto [Hl Ha]. split; [by rewrite (evo_len _ _ _ (evo_switch now p from to r)) |].
  destruct (active_switch now p from to r) as [-> | [-> _]]; done.
Qed.

Lemma walk_order_lt n start : (start < n)%nat -> Forall (fun i => i < n)%nat (walk_order n start).
Proof.
  intros Hs. constructor; [done |]. apply Forall_forall. intros i Hi%list_elem_of_In%List.filter_In.
  destruct Hi as [Hi%List.in_seq _]. lia.
Qed.

Lemma on_state_inv n p i f : pool_inv n p -> pool_inv n (on_state p i f).
Proof. intros [Hl Ha]. split; [by rewrite <- Hl; apply length_alter | done]. Qed.

Lemma on_pool_inv n p i f : pool_inv n p -> pool_inv n (on_pool p i f).
Proof. intros [Hl Ha]. split; [by rewrite <- Hl; apply length_alter | done]. Qed.

Lemma active_index_inv n p : pool_inv n p -> active_index p = active p.
Proof. intros [Hl Ha]. unfold active_index. lia. Qed.

Lemma degradation_inv n now p : pool_inv n p -> pool_inv n (relay_degradation_tick now p).
Proof.
  intros H. unfold relay_degradation_tick. case_cmp; [done |].
  destruct (servers p !! active_index p) as [s |]; [| done]. set (q := on_pool p _ _).
  assert (Hq : pool_inv n q) by by apply on_pool_inv. clearbody q. case_cmp; [done |].
  destruct (List.find _ _) as [to |] eqn:Ef; [| done]. apply List.find_some in Ef as [Hin%list_elem_of_In _].
  assert (Hto : (to < n)%nat).
  { destruct H as [Hl Ha]. rewrite (proj1 Hq) in Hin.
    refine (proj1 (Forall_forall (fun i => i < n)%nat _) _ to Hin).
    apply Forall_drop, walk_order_lt. unfold active_index. lia. }
  apply switch_inv; [done |]. apply on_pool_inv. case_cmp; repeat apply on_state_inv; done.
Qed.

Lemma failback_inv n now p : pool_inv n p -> pool_inv n (failback now p).
Proof.
  intros H. unfold failback. destruct (List.find _ _) as [i |] eqn:E; [| done].
  apply List.find_some in E as [Hin%List.in_seq _]. apply switch_inv; [| done].
  rewrite (active_index_inv n p H) in Hin. destruct H. lia.
Qed.

Lemma recycle_next_inv n p i : pool_inv n p -> pool_inv n (recycle_next p i).1.
Proof. intros [Hl Ha]. unfold recycle_next, recycle_end. repeat case_cmp; split; simpl; done || lia. Qed.

Lemma open_next_ok n p start rest fl : Forall (fun i => i < n)%nat rest -> task_ok n (open_next p start rest fl).
Proof. by destruct rest. Qed.

Lemma warm_cold_next_ok n p start rest fl : Forall (fun i => i < n)%nat rest -> task_ok n (warm_cold_next p start rest fl).
Proof. by destruct rest. Qed.

Lemma tick_next_ok n p a i : task_ok n (tick_warm_next p a i) /\ task_ok n (probe_next a i).
Proof. unfold tick_warm_next, probe_next. split; repeat case_cmp; done. Qed.

Lemma open_reply_inv n now p start i rest fl r :
  pool_inv n p -> (i < n)%nat -> Forall (fun i => i < n)%nat rest ->
  pool_inv n (open_reply now p start i rest fl r).1 /\ task_ok n (open_reply now p start i rest fl r).2.
Proof.
  intros Hp Hi Hrest. unfold open_reply, open_success. destruct r as [[m | e] |].
  - split; [| done]. cbn [fst]. pose proof (on_state_inv n p i (mark_up now) Hp) as Hq.
    case_cmp; [apply switch_inv; [done |] |]; case_cmp; auto using on_state_inv.
  - case_cmp; [done |]. split; [by apply on_state_inv | by apply open_next_ok].
  - split; [by apply on_state_inv | by apply open_next_ok].
Qed.

Lemma warm_all_next_inv n now p rest best fl :
  pool_inv n p -> Forall (fun i => i < n)%nat rest -> (forall b, best = Some b -> (b < n)%nat) ->
  pool_inv n (warm_all_next now p rest best fl).1 /\ task_ok n (warm_all_next now p rest best fl).2.
Proof.
  intros Hp Hrest Hb. unfold warm_all_next, warm_all_end. destruct rest as [| i rest]; [| done].
  destruct best as [b |]; [| done]. split; [| done]. apply switch_inv; [by apply Hb | done].
Qed.

Lemma task_step_inv n now a p t :
  pool_inv n p -> task_ok n t -> pool_inv n (task_step now a p t).1 /\ task_ok n (task_step now a p t).2.
Proof.
  intros Hp Ht.
  destruct t as [start [| i rest] fl | r | [| i rest] best fl | start [| i rest] fl | r | | a0 i | a0 i | | | i |];
    destruct a as [| ro | ru]; try done; cbn [task_step] in *; cbn [task_ok] in Ht.
  - apply Forall_cons in Ht as [Hi Hrest]. by apply open_reply_inv.
  - destruct Ht as [[Hi Hrest]%Forall_cons Hb].
    destruct ru as [[u | e] |]; apply warm_all_next_inv; auto using on_state_inv.
    intros b [= <-]. destruct best as [b |]; [| done]. specialize (Hb b eq_refl). lia.
  - pose proof Ht as [Hi Hrest]%Forall_cons. destruct ru as [[u | e] |]; [| | done].
    + split; [| done]. pose proof (on_state_inv n p i (mark_up now) Hp). case_cmp; [by apply switch_inv | done].
    + split; [by apply on_state_inv | by apply warm_cold_next_ok].
  - split; [by apply degradation_inv |]. cbn [snd].
    case_cmp; apply (tick_next_ok n (relay_degradation_tick now p)).
  - split; [done |]. apply tick_next_ok.
  - split; [by apply on_state_inv |]. apply (tick_next_ok n p).
  - split; [by apply failback_inv | done].
  - split; [by apply recycle_next_inv, on_state_inv, on_pool_inv |]. unfold recycle_next. by case_cmp.
Qed.

Record sys_inv (n : nat) (now : Z) (s : ServerSys) : Prop := {
  si_pool : pool_inv n (sv_pool s);
  si_tasks : forall k t, sv_tasks s !! k = Some t -> task_ok n t;
  si_slots : forall i, slot_ok now (slot_state (sv_pool s) i)
}.

Lemma set_task_ok n k t ts :
  (forall k t, ts !! k = Some t -> task_ok n t) -> (forall t', t = Some t' -> task_ok n t') ->
  forall k' t', set_task k t ts !! k' = Some t' -> task_ok n t'.
Proof.
  intros Hts Ht k' t'. unfold set_task. destruct (decide (k' = k)) as [-> | Hne].
  - rewrite lookup_partial_alter_eq. auto.
  - rewrite lookup_partial_alter_ne by done. apply Hts.
Qed.

Lemma server_step_inv n t now s s' : t <= now -> sys_inv n t s -> server_step now s s' -> sys_inv n now s'.
Proof.
  intros Hle [Hp Hts Hs] Hstep.
  assert (Hslots : forall i, slot_ok now (slot_state (sv_pool s') i)).
  { intros i. destruct (evo_slots _ _ _ (evo_step now s s' Hstep) i) as [ops ->].
    apply slot_ops_ok. by eapply slot_ok_later. }
  assert (Hidx : (active_index (sv_pool s) < n)%nat) by (rewrite (active_index_inv n _ Hp); apply Hp).
  destruct Hstep as [k | k | k | k | k t0 a Hk | k | i q]; (split; [| | done]); cbn [sv_pool sv_tasks] in *; try done.
  - apply set_task_ok; [done |]. intros ? [= <-]. apply open_next_ok. rewrite (proj1 Hp). by apply walk_order_lt.
  - apply set_task_ok; [done |]. intros ? [= <-]. unfold warmup_begin. case_cmp.
    + split; [| done]. apply Forall_forall. intros i Hi%list_elem_of_In%List.in_seq. destruct Hp. lia.
    + apply warm_cold_next_ok. rewrite (proj1 Hp). by apply walk_order_lt.
  - apply set_task_ok; [done |]. by intros ? [= <-].
  - by apply recycle_next_inv.
  - apply set_task_ok; [done |]. intros ? [= <-]. unfold recycle_next. by case_cmp.
  - by apply task_step_inv; [| eapply Hts].
  - apply set_task_ok; [done |]. intros ? [= <-]. by apply task_step_inv; [| eapply Hts].
  - by apply set_task_ok.
  - by apply on_pool_inv.
Qed.

(** A fresh pool: somebody's [ServerPool_new]. *)
Definition fresh (p : ServerPool) : Prop := exists l pr, ServerPool_new l pr = Some p.

Lemma fresh_inv t0 p : fresh p -> sys_inv (length (servers p)) t0 {| sv_pool := p; sv_tasks := ∅ |}.
Proof.
  intros (l & pr & E).
  assert (Hn : l <> []) by (by intros ->).
  assert (Hp : p = {| servers := (fun '(n, a, p) => {| name := n; addr := a; pool := p; state := SlotState_new |}) <$> l;
                 active := 0; profile := pr; events := [] |}) by (unfold ServerPool_new in E; destruct l; congruence).
  subst p. split; cbn [sv_pool sv_tasks].
  - split; [done |]. cbn [servers active]. rewrite length_fmap. destruct l; [done |]. simpl. lia.
  - done.
  - intros i. unfold slot_state. cbn [servers]. rewrite list_lookup_fmap.
    assert (H0 : slot_ok t0 SlotState_new) by (split; try done; simpl; unfold FAILBACK_FLAP_CAP; lia).
    destruct (l !! i) as [[[nm ad] q] |]; exact H0.
Qed.

Lemma server_run_inv t0 p0 t s tr :
  fresh p0 -> server_run t0 p0 ((t, s) :: tr) -> sys_inv (length (servers p0)) t s.
Proof.
  intros Hf Hr. remember ((t, s) :: tr) as l eqn:El. revert t s tr El.
  induction Hr as [| t1 s1 tr1 now s' Hr IH Hle Hstep]; intros t s tr El; simplify_eq.
  - by apply fresh_inv.
  - eapply server_step_inv; [exact Hle | by eapply IH | done].
Qed.

(** ** Announcements *)

(** The active server changes only with one event for the journal. *)
Definition announced (p p' : ServerPool) : Prop :=
  active p' = active p /\ events p' = events p \/
  active p' <> active p /\ exists m, events p' = events p ++ [m].

Lemma announced_switch now p from to r : announced p (switch_active now p from to r).
Proof.
  unfold switch_active. destruct (Nat.eqb_spec from to); [by left |].
  destruct (Nat.eqb_spec (active p) from); [| by left]. right. split; [simpl; congruence |]. eexists. reflexivity.
Qed.

Lemma announced_after p q r : active q = active p -> events q = events p -> announced q r -> announced p r.
Proof. unfold announced. by intros -> ->. Qed.

Lemma announced_degradation now p : announced p (relay_degradation_tick now p).
Proof.
  unfold relay_degradation_tick. case_cmp; [by left |].
  destruct (servers p !! active_index p) as [s |]; [| by left]. case_cmp; [by left |].
  destruct (List.find _ _) as [to |]; [| by left]. eapply announced_after; [| | apply announced_switch]; by case_cmp.
Qed.

Lemma announced_recycle_next p i : announced p (recycle_next p i).1.
Proof.
  unfold recycle_next, recycle_end. case_cmp; [by left |]. destruct (Nat.eqb_spec (active p) 0) as [Ea | Ea].
  - left. split; [simpl; congruence | done].
  - right. split; [simpl; congruence |]. eexists. reflexivity.
Qed.

Lemma announced_task now a p t : announced p (task_step now a p t).1.
Proof.
  destruct t as [start [| i rest] fl | r | [| i rest] best fl | start [| i rest] fl | r | | a0 i | a0 i | | | i |];
    destruct a as [| ro | ru]; try (by left); cbn [task_step].
  - unfold open_reply, open_success. destruct ro as [[m | e] |]; [| case_cmp; by left | by left].
    cbn [fst]. case_cmp; [| case_cmp; by left]. eapply announced_after; [| | apply announced_switch]; by case_cmp.
  - assert (Hw : forall q best fl, announced q (warm_all_next now q rest best fl).1).
    { intros q b f. unfold warm_all_next, warm_all_end. destruct rest; [| by left].
      destruct b; [apply announced_switch | by left]. }
    destruct ru as [[u | e] |]; (eapply announced_after; [| | apply Hw]); done.
  - destruct ru as [[u | e] |]; [| by left | by left]. cbn [fst]. case_cmp; [| by left].
    by eapply announced_after; [| | apply announced_switch].
  - apply announced_degradation.
  - cbn [fst]. unfold failback. destruct (List.find _ _); [apply announced_switch | by left].
  - by eapply announced_after; [| | apply announced_recycle_next].
Qed.

Lemma announced_step now s s' : server_step now s s' -> announced (sv_pool s) (sv_pool s').
Proof. destruct 1; try (by left); [apply announced_recycle_next | apply announced_task]. Qed.

(** ** What [up_since] remembers *)

Lemma slot_ops_up hold now ops st u :
  up_since (slot_ops hold now ops st) = Some u -> u = now \/ up_since st = Some u.
Proof.
  revert st. induction ops as [| o ops IH]; intros st; [by right |]. cbn [slot_ops foldl].
  intros [-> | H]%IH; [by left |]. destruct o; simpl in H; auto; try done.
  destruct (up_since st); [by right |]. left. congruence.
Qed.

Lemma run_times t0 p0 t s tr : server_run t0 p0 ((t, s) :: tr) -> Forall (fun x => x.1 <= t) ((t, s) :: tr).
Proof.
  intros Hr. remember ((t, s) :: tr) as l eqn:El. revert t s tr El.
  induction Hr as [| t1 s1 tr1 now s' Hr IH Hle Hstep]; intros t s tr El; simplify_eq.
  - constructor; [simpl; lia | constructor].
  - constructor; [simpl; lia |]. eapply Forall_impl; [by eapply IH |]. simpl. lia.
Qed.

(** A slot that has been up since [u] was up in every later state of the run. *)
Lemma up_history t0 p0 t s tr i u :
  server_run t0 p0 ((t, s) :: tr) -> up_since (slot_state (sv_pool s) i) = Some u ->
  forall t' s', (t', s') ∈ (t, s) :: tr -> u < t' -> up_since (slot_state (sv_pool s') i) = Some u.
Proof.
  intros Hr. remember ((t, s) :: tr) as l eqn:El. revert t s tr El.
  induction Hr as [| t1 s1 tr1 now s2 Hr IH Hle Hstep]; intros t s tr El Hu t' s' Hin Hlt; simplify_eq.
  - apply list_elem_of_singleton in Hin. by simplify_eq.
  - apply elem_of_cons in Hin as [? | Hin]; [by simplify_eq |].
    destruct (evo_slots _ _ _ (evo_step _ _ _ Hstep) i) as [ops E]. rewrite E in Hu.
    destruct (slot_ops_up _ _ _ _ _ Hu) as [Eu | Hu'].
    + pose proof (run_times _ _ _ _ _ Hr) as Ht. rewrite Forall_forall in Ht. specialize (Ht _ Hin). simpl in Ht. lia.
    + by eapply IH.
Qed.

Lemma run_all_inv t0 p0 tr : fresh p0 -> server_run t0 p0 tr -> Forall (fun x => sys_inv (length (servers p0)) x.1 x.2) tr.
Proof.
  intros Hf. induction 1 as [| t s tr now s' Hr IH Hle Hstep].
  - constructor; [by apply fresh_inv | constructor].
  - constructor; [| done]. by eapply server_step_inv; [exact Hle | apply (Forall_inv IH) |].
Qed.

Lemma find_seq_least (f : nat -> bool) n a i :
  List.find f (seq a n) = Some i -> forall j, (a <= j < i)%nat -> f j = false.
Proof.
  revert a. induction n as [| n IH]; intros a; simpl; [done |]. destruct (f a) eqn:Ef; [intros [= <-]; lia |].
  intros Hi j Hj. destruct (decide (j = a)) as [-> |]; [done |]. apply (IH _ Hi). lia.
Qed.

(** in every run of the pool (open_stream calls, warm-ups, health ticks and
    recycles interleaved and dropped anywhere, tunnels changing on their own) the
    active index is a server of the list, a server held down has no up-time, the
    penalty counter stays within its cap and no failback is suppressed for more
    than half an hour; and the active server never changes without exactly one
    event for the journal. *)
Theorem server_pool_invariant t0 p0 t s tr :
  fresh p0 -> server_run t0 p0 ((t, s) :: tr) ->
  (active (sv_pool s) < length (servers p0))%nat /\ length (servers (sv_pool s)) = length (servers p0) /\
  (forall i, let st := slot_state (sv_pool s) i in
     0 <= flap_count st <= 6 /\ (is_down st = true -> up_since st = None) /\
     (forall x, failback_suppressed_until st = Some x -> x <= t + 1800 * 1000)) /\
  (forall now s', server_step now s s' ->
     active (sv_pool s') = active (sv_pool s) /\ events (sv_pool s') = events (sv_pool s) \/
     active (sv_pool s') <> active (sv_pool s) /\ exists m, events (sv_pool s') = events (sv_pool s) ++ [m]).
Proof.
  intros Hf Hr. destruct (server_run_inv _ _ _ _ _ Hf Hr) as [[Hl Ha] _ Hs]. split_and!; [done | done | |].
  - intros i. destruct (Hs i) as [H1 H2 H3 H4]. done.
  - intros now s'. apply announced_step.
Qed.

(** C9: the hold-down. When the health task takes the activity from server [a]
    back to [i], then [i] has a higher priority, it is not under a flapping
    penalty, it has been up since some [u] at least the hold-down ago, it was up
    in every state of the run after [u], and no server of a higher priority than
    [i] qualifies. *)
Theorem failback_needs_hold t0 p0 t s tr now :
  fresh p0 -> server_run t0 p0 ((t, s) :: tr) -> t <= now ->
  active (failback now (sv_pool s)) <> active (sv_pool s) ->
  let i := active (failback now (sv_pool s)) in
  (i < active (sv_pool s))%nat /\
  failback_suppressed now (slot_state (sv_pool s) i) = false /\
  (exists u, u + failback_hold (profile (sv_pool s)) <= now /\ u <= now /\
     forall t' s', (t', s') ∈ (t, s) :: tr -> u < t' -> health (slot_state (sv_pool s') i) = Up) /\
  (forall j, (j < i)%nat -> failback_ready now (sv_pool s) j = false).
Proof.
  intros Hf Hr Hle. destruct (server_run_inv _ _ _ _ _ Hf Hr) as [Hp _ Hs].
  unfold failback. rewrite (active_index_inv _ _ Hp).
  destruct (List.find _ _) as [i |] eqn:E; [| done].
  destruct (active_switch now (sv_pool s) (active (sv_pool s)) i Failback) as [-> | [-> _]]; [done |].
  intros Hne. cbv zeta. pose proof E as [Hin%List.in_seq Hready]%List.find_some.
  unfold failback_ready in Hready. apply andb_true_iff in Hready as [Hsup%negb_true_iff Hup].
  unfold up_for in Hup. destruct (up_since (slot_state (sv_pool s) i)) as [u |] eqn:Eu; [| done].
  cbn [fmap option_fmap option_map] in Hup. apply Z.leb_le in Hup. unfold elapsed in Hup.
  pose proof (so_up _ _ (Hs i) u Eu) as Hut.
  split_and!; [lia | done | |].
  - exists u. split_and!; [lia | lia |]. intros t' s' Hin' Hlt.
    pose proof (up_history _ _ _ _ _ _ _ Hr Eu t' s' Hin' Hlt) as Hu'.
    pose proof (run_all_inv _ _ _ Hf Hr) as Hall. rewrite Forall_forall in Hall.
    pose proof (so_down _ _ (si_slots _ _ _ (Hall _ Hin') i)) as Hdown. simpl in Hdown. rewrite Hu' in Hdown.
    unfold is_down in Hdown. destruct (health (slot_state (sv_pool s') i)); [done | by specialize (Hdown eq_refl)].
  - intros j Hj. apply (find_seq_least _ _ _ _ E). lia.
Qed.

(** ** One call on its own *)

Lemma slot_label_on_state p i f j : slot_label (on_state p i f) j = slot_label p j.
Proof.
  unfold slot_label, on_state. simpl. destruct (decide (i = j)) as [-> | Hne].
  - rewrite list_lookup_alter_eq. by destruct (servers p !! j).
  - by rewrite list_lookup_alter_ne.
Qed.

Lemma walk_order_perm n start : (start < n)%nat -> walk_order n start ≡ₚ seq 0 n.
Proof.
  intros Hs. apply NoDup_Permutation.
  - apply NoDup_ListNoDup. constructor; [intros [_ H]%List.filter_In; by rewrite Nat.eqb_refl in H |].
    apply List.NoDup_filter, List.seq_NoDup.
  - apply NoDup_ListNoDup, List.seq_NoDup.
  - intros x. unfold walk_order. rewrite elem_of_cons, !list_elem_of_In, List.filter_In, List.in_seq.
    destruct (Nat.eqb_spec x start); simpl; intuition (lia || congruence).
Qed.

Lemma insert_failure_perm f m : insert_failure f m ≡ₚ f :: m.
Proof.
  induction m as [| g m IH]; [done |]. cbn [insert_failure]. case_cmp; [done |].
  trans (g :: f :: m); [by apply Permutation_skip | apply Permutation_swap].
Qed.

Lemma sort_failures_perm l : sort_failures l ≡ₚ l.
Proof.
  induction l as [| f l IH]; [done |]. cbn [sort_failures foldr]. fold (sort_failures l).
  rewrite insert_failure_perm. by apply Permutation_skip.
Qed.

Definition failure_le (f g : nat * io_error) : Prop := (f.1 <= g.1)%nat.

Lemma sort_failures_sorted l : StronglySorted failure_le (sort_failures l).
Proof.
  induction l as [| f l IH]; [constructor |]. cbn [sort_failures foldr]. fold (sort_failures l).
  induction IH as [| g m Hm IH Hg]; [by repeat constructor |]. cbn [insert_failure].
  destruct (Nat.leb_spec f.1 g.1) as [Hle | Hlt].
  - constructor; [by constructor |]. constructor; [done |]. eapply Forall_impl; [exact Hg |].
    unfold failure_le in *. lia.
  - constructor; [done |]. rewrite insert_failure_perm. constructor; [unfold failure_le; lia | done].
Qed.

(** The replies of the servers to one call, with the times they come at. *)
Section open.
Context (rs : nat -> Z * option (io_result nat)).

Fixpoint open_run (fuel : nat) (p : ServerPool) (t : Task) : ServerPool * Task :=
  match fuel, t with
  | S fuel, TOpen _ (i :: _) _ =>
      let '(p, t) := task_step (rs i).1 (ROpen (rs i).2) p t in open_run fuel p t
  | _, _ => (p, t)
  end.

Definition open_stream (p : ServerPool) : ServerPool * Task := open_run (length (servers p)) p (open_start p).

(** The server is to blame: an error other than [InvalidInput], or no answer. *)
Definition failed (i : nat) : bool :=
  match (rs i).2 with
  | Some (Ok _) => false
  | Some (Err e) => negb (bool_decide (kind e = InvalidInput))
  | None => true
  end.

Definition failure (i : nat) : io_error :=
  match (rs i).2 with Some (Err e) => e | _ => err_open_timeout end.

Definition fail_all (p : ServerPool) (l : list nat) : ServerPool :=
  foldl (fun p i => on_state p i (mark_down (rs i).1)) p l.

Lemma open_run_failed k p start pre rest fl :
  Forall (fun i => failed i = true) pre ->
  open_run (length pre + k) p (open_next p start (pre ++ rest) fl) =
  open_run k (fail_all p pre) (open_next (fail_all p pre) start rest (fl ++ ((fun i => (i, failure i)) <$> pre))).
Proof.
  intros Hpre. revert p fl. induction Hpre as [| i pre Hi _ IH]; intros p fl; [by rewrite app_nil_r |].
  cbn [length Nat.add open_next app open_run task_step fail_all foldl].
  assert (E : open_reply (rs i).1 p start i (pre ++ rest) fl (rs i).2 =
    (on_state p i (mark_down (rs i).1),
     open_next (on_state p i (mark_down (rs i).1)) start (pre ++ rest) (fl ++ [(i, failure i)]))).
  { unfold open_reply, failed, failure in *. destruct ((rs i).2) as [[m | e] |]; [done | | done].
    apply negb_true_iff in Hi. by rewrite Hi. }
  rewrite E, IH. cbn [fmap list_fmap]. by rewrite <- app_assoc.
Qed.

Lemma fail_all_cons p i l : fail_all p (i :: l) = fail_all (on_state p i (mark_down (rs i).1)) l.
Proof. done. Qed.

Lemma fail_all_frame p l :
  active (fail_all p l) = active p /\ length (servers (fail_all p l)) = length (servers p) /\
  profile (fail_all p l) = profile p /\
  (forall j, slot_label (fail_all p l) j = slot_label p j) /\
  (forall j, j ∉ l -> slot_state (fail_all p l) j = slot_state p j).
Proof.
  revert p. induction l as [| i l IH]; intros p; [done |]. rewrite fail_all_cons.
  destruct (IH (on_state p i (mark_down (rs i).1))) as (H1 & H2 & H3 & H4 & H5). split_and!.
  - by rewrite H1.
  - rewrite H2. apply length_alter.
  - by rewrite H3.
  - intros j. rewrite H4. apply slot_label_on_state.
  - intros j Hj. rewrite not_elem_of_cons in Hj. destruct Hj as [Hij Hj]. rewrite H5 by done.
    destruct (slot_state_on p i (mark_down (rs i).1) j) as [[_ ->] | E]; done.
Qed.

Lemma fail_all_down p l j :
  j ∈ l -> (j < length (servers p))%nat -> is_down (slot_state (fail_all p l) j) = true.
Proof.
  assert (Hkeep : forall l p, is_down (slot_state p j) = true -> is_down (slot_state (fail_all p l) j) = true).
  { clear. intros l. induction l as [| i l IH]; intros p Hd; [done |]. rewrite fail_all_cons. apply IH.
    destruct (slot_state_on p i (mark_down (rs i).1) j) as [[-> _] | ->]; [| done].
    unfold is_down, mark_down in *. cbn [health] in *. by destruct (health (slot_state p j)). }
  revert p. induction l as [| i l IH]; intros p; [by intros ?%elem_of_nil |].
  intros [-> | Hin]%elem_of_cons Hlt; rewrite fail_all_cons.
  - apply Hkeep. unfold slot_state, on_state. simpl. rewrite list_lookup_alter_eq.
    destruct (lookup_lt_is_Some_2 _ _ Hlt) as [s ->]. simpl. unfold is_down. simpl. by destruct (health (state s)).
  - apply IH; [done |]. unfold on_state. simpl. by rewrite length_alter.
Qed.

Lemma sort_walk n start :
  (start < n)%nat ->
  sort_failures ((fun i => (i, failure i)) <$> walk_order n start) = (fun i => (i, failure i)) <$> seq 0 n.
Proof.
  intros Hs. eapply (StronglySorted_unique_strong failure_le).
  - intros x y Hx (j & -> & _)%list_elem_of_fmap. rewrite sort_failures_perm in Hx.
    apply list_elem_of_fmap in Hx as (i & -> & _). unfold failure_le. simpl. intros.
    by replace j with i by lia.
  - apply sort_failures_sorted.
  - clear. generalize 0%nat as a. induction n as [| n IH]; intros a; [constructor |]. cbn [seq fmap list_fmap].
    constructor; [apply IH |]. apply Forall_forall. intros x (i & -> & Hi%list_elem_of_In%List.in_seq)%list_elem_of_fmap.
    unfold failure_le. simpl. lia.
  - rewrite sort_failures_perm. by apply fmap_Permutation, walk_order_perm.
Qed.

(** The report on [n] servers, by priority. *)
Definition exhausted_report (p : ServerPool) (n : nat) : bytes :=
  str "все " ++ show_dec (Z.of_nat n) ++ str " " ++ servers_word (Z.of_nat n) ++ str " недоступны: " ++
  join (str ", ") ((fun i => slot_label p i ++ str " (" ++ message (failure i) ++ str ")") <$> seq 0 n).

Lemma exhausted_walk p n start :
  (2 <= n)%nat -> (start < n)%nat ->
  pool_exhausted p ((fun i => (i, failure i)) <$> walk_order n start) = IoError (kind (failure 0)) (exhausted_report p n).
Proof.
  intros Hn Hs. pose proof (sort_walk n start Hs) as E. revert E.
  assert (Hlen : (2 <= length ((fun i => (i, failure i)) <$> walk_order n start))%nat).
  { rewrite length_fmap. by rewrite (Permutation_length (walk_order_perm n start Hs)), length_seq. }
  unfold pool_exhausted. destruct (_ <$> walk_order n start) as [| [i1 e1] [| x l]]; simpl in Hlen; [lia | lia |].
  intros ->. destruct n as [| n]; [lia |]. unfold exhausted_report.
  assert (Ez : zlen ((fun i => (i, failure i)) <$> seq 0 (S n)) = Z.of_nat (S n))
    by (unfold zlen; by rewrite length_fmap, length_seq).
  rewrite Ez, <- list_fmap_compose. reflexivity.
Qed.

Lemma open_success_spec now p start i :
  active p = start -> (i < length (servers p))%nat ->
  active (open_success now p start i) = i /\ is_down (slot_state (open_success now p start i) i) = false /\
  (forall j, j <> i -> health (slot_state (open_success now p start i) j) = health (slot_state p j)) /\
  (forall j, j <> i -> j <> start -> slot_state (open_success now p start i) j = slot_state p j).
Proof.
  intros Ha Hi. unfold open_success. set (q := on_state p i (mark_up now)).
  assert (Hq : active q = start /\ is_down (slot_state q i) = false /\ (forall j, j <> i -> slot_state q j = slot_state p j)).
  { split_and!; [done | |].
    - unfold q, slot_state, on_state. simpl. rewrite list_lookup_alter_eq.
      by destruct (lookup_lt_is_Some_2 _ _ Hi) as [s ->].
    - intros j Hj. by destruct (slot_state_on p i (mark_up now) j) as [[_ ->] | E]. }
  clearbody q. destruct Hq as (Hqa & Hqd & Hqs).
  (* flags of the start server change nothing of the health *)
  assert (Hon : forall f, (forall st, health (f st) = health st) ->
    forall j, health (slot_state (on_state q start f) j) = health (slot_state q j) /\
              (j <> start -> slot_state (on_state q start f) j = slot_state q j)).
  { intros f Hf j. destruct (slot_state_on q start f j) as [[-> ->] | ->]; [| done]. by rewrite Hf. }
  assert (Hsw : forall r, active r = start -> start <> i ->
    active (switch_active now r start i Failover) = i /\
    (forall j, health (slot_state (switch_active now r start i Failover) j) = health (slot_state r j)) /\
    (forall j, j <> i -> slot_state (switch_active now r start i Failover) j = slot_state r j)).
  { intros r Hr Hne. unfold switch_active. rewrite (proj2 (Nat.eqb_neq start i) Hne), Hr, Nat.eqb_refl.
    assert (Hs : forall m, slot_state (emit (on_state (set_active r i) i (note_became_active now)) m) =
      slot_state (on_state r i (note_became_active now))) by done.
    split_and!; [done | |]; intros j; rewrite Hs;
      destruct (slot_state_on r i (note_became_active now) j) as [[-> ->] | ->]; done. }
  destruct (Nat.eqb_spec i start) as [-> | Hne]; cbn [negb].
  - case_cmp; [| by split_and!; [done | done | intros; by rewrite Hqs | intros; by apply Hqs]].
    split_and!; [done | | |].
    + unfold is_down. by rewrite (proj1 (Hon clear_flap ltac:(done) start)).
    + intros j Hj. by rewrite (proj1 (Hon clear_flap ltac:(done) j)), Hqs.
    + intros j Hj _. by rewrite (proj2 (Hon clear_flap ltac:(done) j) Hj), Hqs.
  - set (r := if active_since _ _ _ _ then _ else _).
    assert (Hr : active r = start /\ (forall j, health (slot_state r j) = health (slot_state q j)) /\
      (forall j, j <> start -> slot_state r j = slot_state q j)).
    { unfold r. case_cmp; [| done]. split_and!; [done | |]; intros j; by apply Hon. }
    clearbody r. destruct Hr as (Hra & Hrh & Hrs). destruct (Hsw r Hra ltac:(done)) as (H1 & H2 & H3).
    split_and!; [done | | |].
    + unfold is_down. by rewrite H2, Hrh.
    + intros j Hj. by rewrite H2, Hrh, Hqs.
    + intros j Hj Hjs. by rewrite H3, Hrs, Hqs.
Qed.

End open.


(** ** Witnesses *)

Definition ex_server (n a : string) : bytes * bytes * MuxPool := (str n, str a, MuxPool_new 0 1).

Definition ex_pool : ServerPool :=
  {| servers := (fun '(n, a, q) => {| name := n; addr := a; pool := q; state := SlotState_new |}) <$>
       [ex_server "de" "192.0.2.1:8443"; ex_server "" "192.0.2.2:8443"];
     active := 0; profile := PoolProfile_router; events := [] |}.

Lemma ex_pool_fresh : fresh ex_pool.
Proof. by exists [ex_server "de" "192.0.2.1:8443"; ex_server "" "192.0.2.2:8443"], PoolProfile_router. Qed.

(** The primary refuses, the backup serves. *)
Definition ex_replies (i : nat) : Z * option (io_result nat) :=
  match i with O => (100, Some (Err err_cooldown)) | _ => (200, Some (Ok 7%nat)) end.

Definition ex_replies_down (i : nat) : Z * option (io_result nat) :=
  match i with O => (100, Some (Err err_cooldown)) | _ => (5100, None) end.


(** A schedule of task starts and steps. *)
Inductive Event := StartOpen (k : nat) | StartTick (k : nat) | Go (k : nat) (a : Reply).

Definition event_step (now : Z) (s : ServerSys) (e : Event) : ServerSys :=
  match e with
  | StartOpen k => {| sv_pool := sv_pool s; sv_tasks := set_task k (Some (open_start (sv_pool s))) (sv_tasks s) |}
  | StartTick k => {| sv_pool := sv_pool s; sv_tasks := set_task k (Some TTick) (sv_tasks s) |}
  | Go k a =>
      match sv_tasks s !! k with
      | Some t => {| sv_pool := (task_step now a (sv_pool s) t).1;
                     sv_tasks := set_task k (Some (task_step now a (sv_pool s) t).2) (sv_tasks s) |}
      | None => {| sv_pool := sv_pool s; sv_tasks := set_task k None (sv_tasks s) |}
      end
  end.

Lemma event_step_ok now s e : server_step now s (event_step now s e).
Proof.
  destruct e; cbn [event_step]; try constructor.
  destruct (sv_tasks s !! k) eqn:E; [by constructor | constructor].
Qed.

(** The states before the last one, latest first, and the last one. *)
Fixpoint schedule (t : Z) (s : ServerSys) (tr : list (Z * ServerSys)) (l : list (Z * Event)) :
    list (Z * ServerSys) * (Z * ServerSys) :=
  match l with
  | [] => (tr, (t, s))
  | (dt, e) :: l' => schedule (t + dt) (event_step (t + dt) s e) ((t, s) :: tr) l'
  end.

Lemma schedule_run t0 p0 l t s tr :
  server_run t0 p0 ((t, s) :: tr) -> Forall (fun x => 0 <= x.1) l ->
  server_run t0 p0 ((schedule t s tr l).2 :: (schedule t s tr l).1).
Proof.
  intros Hr Hl. revert t s tr Hr. induction Hl as [| [dt e] l Hdt _ IH]; intros t s tr Hr; [done |].
  cbn [schedule]. apply IH. simpl in Hdt. constructor; [done | lia | apply event_step_ok].
Qed.

(** The primary fails and the backup takes over; then the primary answers the
    probes of two health ticks a minute apart. *)
Definition ex_schedule : list (Z * Event) :=
  [(0, StartOpen 0); (0, Go 0 (ROpen (Some (Err err_cooldown)))); (0, Go 0 (ROpen (Some (Ok 7%nat))));
   (15000, StartTick 1); (0, Go 1 RNone); (0, Go 1 (RUnit None)); (0, Go 1 (RUnit None));
   (0, Go 1 (RUnit (Some (Ok tt)))); (0, Go 1 RNone);
   (60000, StartTick 1); (0, Go 1 RNone); (0, Go 1 (RUnit None)); (0, Go 1 (RUnit None));
   (0, Go 1 (RUnit (Some (Ok tt))))].

Definition ex_run : list (Z * ServerSys) * (Z * ServerSys) :=
  schedule 0 {| sv_pool := ex_pool; sv_tasks := ∅ |} [] ex_schedule.

Lemma ex_run_ok : server_run 0 ex_pool ((ex_run.2.1, ex_run.2.2) :: ex_run.1).
Proof.
  rewrite <- surjective_pairing. apply schedule_run; [constructor |].
  repeat (constructor; [simpl; lia |]). constructor.
Qed.

Lemma server_pool_invariant_witness :
  (active (sv_pool ex_run.2.2) < 2)%nat /\ active (sv_pool ex_run.2.2) = 1%nat.
Proof.
  split; [| vm_compute; reflexivity].
  apply (server_pool_invariant 0 ex_pool ex_run.2.1 ex_run.2.2 ex_run.1 ex_pool_fresh ex_run_ok).
Defined.

Lemma failback_needs_hold_witness :
  active (failback 75000 (sv_pool ex_run.2.2)) = 0%nat /\ active (sv_pool ex_run.2.2) = 1%nat /\
  (exists u, u + 60000 <= 75000 /\ u <= 75000).
Proof.
  split_and!; [vm_compute; reflexivity | vm_compute; reflexivity |].
  destruct (failback_needs_hold 0 ex_pool ex_run.2.1 ex_run.2.2 ex_run.1 75000 ex_pool_fresh ex_run_ok)
    as (_ & _ & (u & H1 & H2 & _) & _).
  - vm_compute. discriminate.
  - vm_compute. discriminate.
  - exists u. split; [exact H1 | exact H2].
Defined.
