(* ===== verification/FakeDns.v ===== *)
(** * Fake DNS (xr-core/src/dns.rs)

    Names are given addresses of 198.18.0.0/15, and connections to such an address
    are turned back into the name. Both maps are behind one lock, so an operation
    is one step; [now] is the clock (in nanoseconds) while the lock is held. An
    address is its [u32] value. *)

From S2P Require Import Prelude Text Net Protocol RelayHealth.

Definition FAKE_IP_BASE : Z := 0xC6120000.
Definition FAKE_IP_MASK : Z := 0xFFFE0000.
Definition FAKE_IP_POOL_SIZE : Z := (U32_MAX - FAKE_IP_MASK) - 1.
Definition DEFAULT_TTL : Z := 3600 * 10 ^ 9.

Record Entry := { entry_domain : bytes; created : Z; last_used : Z }.

(** [stats] holds the warnings given to the journal, if there is one. *)
Record FakeDns := {
  domain_to_ip : gmap bytes Z;
  ip_to_entry : gmap Z Entry;
  next_offset : Z;
  pool_size : Z;
  uses : Z;
  exhaustion_reported : bool;
  ttl : Z;
  stats : option (list bytes)
}.

Definition clamp (v lo hi : Z) : Z := if v <? lo then lo else if hi <? v then hi else v.

Definition FakeDns_build (ttl0 size : Z) (st : option (list bytes)) : FakeDns :=
  {| domain_to_ip := ∅; ip_to_entry := ∅; next_offset := 1; pool_size := clamp size 1 FAKE_IP_POOL_SIZE;
     uses := 0; exhaustion_reported := false; ttl := ttl0; stats := st |}.

Definition FakeDns_new : FakeDns := FakeDns_build DEFAULT_TTL FAKE_IP_POOL_SIZE None.
Definition FakeDns_with_stats : FakeDns := FakeDns_build DEFAULT_TTL FAKE_IP_POOL_SIZE (Some []).
Definition FakeDns_with_ttl (t : Z) : FakeDns := FakeDns_build t FAKE_IP_POOL_SIZE None.

Definition set_maps (f : FakeDns) (d : gmap bytes Z) (i : gmap Z Entry) : FakeDns :=
  {| domain_to_ip := d; ip_to_entry := i; next_offset := next_offset f; pool_size := pool_size f; uses := uses f;
     exhaustion_reported := exhaustion_reported f; ttl := ttl f; stats := stats f |}.

Definition set_next_offset (f : FakeDns) (o : Z) : FakeDns :=
  {| domain_to_ip := domain_to_ip f; ip_to_entry := ip_to_entry f; next_offset := o; pool_size := pool_size f;
     uses := uses f; exhaustion_reported := exhaustion_reported f; ttl := ttl f; stats := stats f |}.

Definition bump_uses (f : FakeDns) : FakeDns :=
  {| domain_to_ip := domain_to_ip f; ip_to_entry := ip_to_entry f; next_offset := next_offset f;
     pool_size := pool_size f; uses := u64 (uses f + 1); exhaustion_reported := exhaustion_reported f;
     ttl := ttl f; stats := stats f |}.

Definition set_reported (f : FakeDns) (b : bool) : FakeDns :=
  {| domain_to_ip := domain_to_ip f; ip_to_entry := ip_to_entry f; next_offset := next_offset f;
     pool_size := pool_size f; uses := uses f; exhaustion_reported := b; ttl := ttl f; stats := stats f |}.

Definition add_warn (f : FakeDns) (m : bytes) : FakeDns :=
  {| domain_to_ip := domain_to_ip f; ip_to_entry := ip_to_entry f; next_offset := next_offset f;
     pool_size := pool_size f; uses := uses f; exhaustion_reported := exhaustion_reported f; ttl := ttl f;
     stats := (fun l => l ++ [m]) <$> stats f |}.

Definition fresh_entry (now : Z) (t : Z) (e : Entry) : bool := elapsed now (created e) <? t.

Definition remove_entry_inner (f : FakeDns) (ip : Z) : FakeDns * option Entry :=
  match ip_to_entry f !! ip with
  | None => (f, None)
  | Some e =>
      let d := if bool_decide (domain_to_ip f !! entry_domain e = Some ip)
               then delete (entry_domain e) (domain_to_ip f) else domain_to_ip f in
      (set_maps f d (delete ip (ip_to_entry f)), Some e)
  end.

(** The order of the map is that of the list of its keys. *)
Definition evict_expired_inner (now : Z) (f : FakeDns) : FakeDns :=
  foldl (fun f ip => (remove_entry_inner f ip).1) f
    (List.filter (fun kv => negb (fresh_entry now (ttl f) kv.2)) (map_to_list (ip_to_entry f))).*1.

(** The bounded search; the address that was found. *)
Fixpoint find_free (fuel : nat) (now : Z) (f : FakeDns) : FakeDns * option Z :=
  match fuel with
  | O => (f, None)
  | S fuel =>
      let candidate := Z.lor FAKE_IP_BASE (next_offset f) in
      let f := set_next_offset f (next_offset f + 1) in
      let f := if pool_size f <? next_offset f then evict_expired_inner now (set_next_offset f 1) else f in
      match ip_to_entry f !! candidate with
      | Some old =>
          if fresh_entry now (ttl f) old then find_free fuel now f
          else ((remove_entry_inner f candidate).1, Some candidate)
      | None => (f, Some candidate)
      end
  end.

(** [min_by_key] on the pair of the last use and the address. *)
Definition older (a b : Z * Entry) : bool :=
  (last_used a.2 <? last_used b.2) || ((last_used a.2 =? last_used b.2) && (a.1 <? b.1)).

Fixpoint min_entry (l : list (Z * Entry)) : option (Z * Entry) :=
  match l with
  | [] => None
  | a :: l' =>
      match min_entry l' with
      | None => Some a
      | Some b => Some (if older b a then b else a)
      end
  end.

Definition victim (f : FakeDns) : option Z := fst <$> min_entry (map_to_list (ip_to_entry f)).

(** [Display] of an IPv4 address. *)
Definition show_ipv4 (ip : Z) : bytes := join (str ".") (show_dec <$> be32 ip).

Definition evicted_msg (d : bytes) (ip : Z) (lower : bytes) : bytes :=
  str "fake DNS: свободных адресов не осталось, " ++ d ++ str " (" ++ show_ipv4 ip ++ str ") вытеснен под " ++ lower ++
  str ", запрос приложения на этот адрес уйдёт не туда".

Definition touch (f : FakeDns) (ip : Z) (e : Entry) : FakeDns :=
  set_maps f (domain_to_ip f)
    (<[ip := {| entry_domain := entry_domain e; created := created e; last_used := uses f |}]> (ip_to_entry f)).

(** An address for a new entry: a free one, or that of the least recently used
    entry, with what is to be said about it. *)
Definition take_address (now : Z) (f : FakeDns) : FakeDns * Z * option (bytes * Z) :=
  match find_free (Z.to_nat (pool_size f)) now f with
  | (f, Some candidate) => (set_reported f false, candidate, None)
  | (f, None) =>
      match victim f with
      | Some v =>
          match remove_entry_inner f v with
          | (f, Some old) =>
              if exhaustion_reported f then (f, v, None) else (set_reported f true, v, Some (entry_domain old, v))
          | (f, None) => (f, v, None)
          end
      | None => (f, Z.lor FAKE_IP_BASE 1, None)
      end
  end.

(** The part of [allocate] for a name without a live entry. *)
Definition allocate_new (now : Z) (f : FakeDns) (lower : bytes) : FakeDns * Z :=
  let '(f, ip, evicted) := take_address now f in
  let f := bump_uses f in
  let f := set_maps f (<[lower := ip]> (domain_to_ip f))
             (<[ip := {| entry_domain := lower; created := now; last_used := uses f |}]> (ip_to_entry f)) in
  (match evicted with
   | Some (d, v) => add_warn f (evicted_msg d v lower)
   | None => f
   end, ip).

Definition allocate {UC : UnicodeCase} (now : Z) (f : FakeDns) (domain : bytes) : FakeDns * Z :=
  let lower := to_lowercase domain in
  match domain_to_ip f !! lower with
  | Some ip =>
      let f := bump_uses f in
      let again := set_maps f (delete lower (domain_to_ip f)) (ip_to_entry f) in
      match ip_to_entry f !! ip with
      | Some e => if fresh_entry now (ttl f) e then (touch f ip e, ip) else allocate_new now again lower
      | None => allocate_new now again lower
      end
  | None => allocate_new now f lower
  end.

Definition FakeDns_lookup (now : Z) (f : FakeDns) (ip : Z) : FakeDns * option bytes :=
  let f := bump_uses f in
  match ip_to_entry f !! ip with
  | Some e => if fresh_entry now (ttl f) e then (touch f ip e, Some (entry_domain e)) else (f, None)
  | None => (f, None)
  end.

Definition is_fake_ip (ip : Z) : bool := Z.land ip FAKE_IP_MASK =? FAKE_IP_BASE.

(** ** Packets

    The outer [option] is the panic of an out-of-range read, the inner one the
    [None] of the code. *)

Fixpoint parse_labels (fuel : nat) (data : bytes) (pos : Z) (parts : list bytes) : option (option (list bytes * Z)) :=
  match fuel with
  | O => None
  | S fuel =>
      if zlen data <=? pos then Some None else
      len ← index data pos;
      if len =? 0 then Some (Some (parts, pos + 1))
      else if zlen data <? pos + 1 + len then Some None
      else
        l ← slice data (pos + 1) (pos + 1 + len);
        match from_utf8 l with
        | None => Some None
        | Some label => parse_labels fuel data (pos + 1 + len) (parts ++ [label])
        end
  end.

(** Each turn consumes a byte at least. *)
Definition parse_dns_question (data : bytes) : option (option (bytes * Z * Z * Z)) :=
  r ← parse_labels (S (length data)) data 0 [];
  match r with
  | None => Some None
  | Some (parts, pos) =>
      if zlen data <? pos + 4 then Some None else
      b0 ← index data pos; b1 ← index data (pos + 1); b2 ← index data (pos + 2); b3 ← index data (pos + 3);
      let domain := join (str ".") parts in
      if MAX_DOMAIN_LEN <? zlen domain then Some None
      else Some (Some (domain, from_be16 b0 b1, from_be16 b2 b3, pos + 4))
  end.

Definition build_dns_response (id : Z) (question_section : bytes) (ip : Z) : bytes :=
  be16 id ++ be16 0x8180 ++ be16 1 ++ be16 1 ++ be16 0 ++ be16 0 ++ question_section ++
  be16 0xC00C ++ be16 1 ++ be16 1 ++ be32 60 ++ be16 4 ++ v4_octets ip.

Definition handle_query {UC : UnicodeCase} (now : Z) (f : FakeDns) (query : bytes) :
    option (FakeDns * option (bytes * Z)) :=
  if zlen query <? 12 then Some (f, None) else
  q0 ← index query 0; q1 ← index query 1; q2 ← index query 2; q3 ← index query 3;
  let id := from_be16 q0 q1 in
  let flags := from_be16 q2 q3 in
  if negb (Z.land flags 0xF800 =? 0) then Some (f, None) else
  q4 ← index query 4; q5 ← index query 5;
  if from_be16 q4 q5 =? 0 then Some (f, None) else
  data ← slice query 12 (zlen query);
  r ← parse_dns_question data;
  match r with
  | None => Some (f, None)
  | Some (domain, qtype, qclass, qend) =>
      if negb (qtype =? 1) || negb (qclass =? 1) then Some (f, None)
      else
        let '(f, fake_ip) := allocate now f domain in
        question ← slice query 12 (qend + 12);
        Some (f, Some (build_dns_response id question fake_ip, fake_ip))
  end.

(** ** The invariant *)

Definition in_pool (f : FakeDns) (ip : Z) : Prop := exists o, 1 <= o <= pool_size f /\ ip = FAKE_IP_BASE + o.

Definition live (now : Z) (f : FakeDns) (ip : Z) (e : Entry) : Prop :=
  ip_to_entry f !! ip = Some e /\ fresh_entry now (ttl f) e = true.

Record dns_ok (now : Z) (f : FakeDns) : Prop := {
  dk_pool : 1 <= pool_size f <= FAKE_IP_POOL_SIZE;
  dk_offset : 1 <= next_offset f <= pool_size f;
  dk_back : forall d ip, domain_to_ip f !! d = Some ip -> exists e, ip_to_entry f !! ip = Some e /\ entry_domain e = d;
  dk_live : forall ip e, live now f ip e -> domain_to_ip f !! entry_domain e = Some ip;
  dk_range : forall ip e, ip_to_entry f !! ip = Some e -> in_pool f ip;
  dk_past : forall ip e, ip_to_entry f !! ip = Some e -> created e <= now
}.

Lemma fake_base_bits o : 0 <= o < 2 ^ 17 -> Z.land FAKE_IP_BASE o = 0.
Proof.
  intros Ho. change FAKE_IP_BASE with (0x6309 * 2 ^ 17). rewrite <- (Z.mod_small o (2 ^ 17)) by done.
  apply Z.bits_inj'. intros n Hn. rewrite Z.land_spec, Z.bits_0. destruct (Z.lt_ge_cases n 17).
  - by rewrite Z.mul_pow2_bits_low.
  - rewrite Z.mod_pow2_bits_high by lia. apply andb_false_r.
Qed.

Lemma candidate_value o : 0 <= o < 2 ^ 17 -> Z.lor FAKE_IP_BASE o = FAKE_IP_BASE + o.
Proof. intros Ho. pose proof (fake_base_bits o Ho) as H. by rewrite <- Z.lxor_lor, Z.add_nocarry_lxor. Qed.

Lemma fresh_earlier now now' t e : now <= now' -> fresh_entry now' t e = true -> fresh_entry now t e = true.
Proof. unfold fresh_entry, elapsed. intros Hle H%Z.ltb_lt. apply Z.ltb_lt. lia. Qed.

Lemma dns_ok_later now now' f : now <= now' -> dns_ok now f -> dns_ok now' f.
Proof.
  intros Hle []. split; try done.
  - intros ip e [He Hf]. apply dk_live0. split; [done |]. by eapply fresh_earlier.
  - intros ip e He. specialize (dk_past0 ip e He). lia.
Qed.

(** [g] is [f] with some entries that were not live removed. *)
Record pruned (now : Z) (f g : FakeDns) : Prop := {
  pr_sub : ip_to_entry g ⊆ ip_to_entry f;
  pr_names : domain_to_ip g ⊆ domain_to_ip f;
  pr_live : forall ip e, live now f ip e -> ip_to_entry g !! ip = Some e;
  pr_pool : pool_size g = pool_size f;
  pr_ttl : ttl g = ttl f;
  pr_uses : uses g = uses f;
  pr_stats : stats g = stats f;
  pr_reported : exhaustion_reported g = exhaustion_reported f
}.

#[global] Instance pruned_preorder now : PreOrder (pruned now).
Proof.
  split; [intros f; split; try done; by intros ip e [] |]. intros f g h [] []. split; try congruence; [by etrans | by etrans |].
  intros ip e H. apply pr_live1. split; [by apply pr_live0 |]. rewrite pr_ttl0. apply H.
Qed.

Lemma remove_entry_ok now f ip : dns_ok now f -> dns_ok now (remove_entry_inner f ip).1.
Proof.
  intros [H1 H2 Hb Hl Hr Ht]. unfold remove_entry_inner. destruct (ip_to_entry f !! ip) as [e |] eqn:E; [| done].
  assert (Hname : forall d ip', (if bool_decide (domain_to_ip f !! entry_domain e = Some ip)
      then delete (entry_domain e) (domain_to_ip f) else domain_to_ip f) !! d = Some ip' <->
      domain_to_ip f !! d = Some ip' /\ ip' <> ip).
  { intros d ip'. case_bool_decide as Hd.
    - rewrite lookup_delete_Some. split.
      + intros [Hne Hd']. split; [done |]. intros ->. destruct (Hb _ _ Hd') as (e' & He' & <-). congruence.
      + intros [Hd' Hne]. split; [| done]. intros <-. congruence.
    - split; [| tauto]. intros Hd'. split; [done |]. intros ->. destruct (Hb _ _ Hd') as (e' & He' & <-). congruence. }
  split; cbn [fst set_maps pool_size next_offset domain_to_ip ip_to_entry]; [done | done | | | |].
  - intros d ip' [Hd Hne]%Hname. destruct (Hb _ _ Hd) as (e' & He' & Hde). exists e'. by rewrite lookup_delete_ne.
  - intros ip' e' [He' Hf]. simpl in He', Hf. apply lookup_delete_Some in He' as [Hne He']. apply Hname.
    split; [| done]. by apply Hl.
  - intros ip' e' He'. simpl in He'. apply lookup_delete_Some in He' as [_ He']. apply (Hr _ _ He').
  - intros ip' e' [_ He']%lookup_delete_Some. by eapply Ht.
Qed.

Lemma remove_entry_pruned now f ip :
  (forall e, ~ live now f ip e) -> pruned now f (remove_entry_inner f ip).1.
Proof.
  intros Hno. unfold remove_entry_inner. destruct (ip_to_entry f !! ip) as [e |] eqn:E; [| reflexivity].
  split; cbn [fst set_maps]; simpl; try done.
  - apply delete_subseteq.
  - case_bool_decide; [apply delete_subseteq | done].
  - intros ip' e' Hl. rewrite lookup_delete_ne; [apply Hl |]. intros <-. by apply (Hno e').
Qed.

Lemma remove_entry_gone f ip : ip_to_entry (remove_entry_inner f ip).1 !! ip = None.
Proof. unfold remove_entry_inner. destruct (ip_to_entry f !! ip) eqn:E; [| done]. cbn [fst set_maps ip_to_entry]. apply lookup_delete_eq. Qed.

Lemma evict_all_ok now l : forall f,
  dns_ok now f -> (forall ip e, ip ∈ l -> ~ live now f ip e) ->
  dns_ok now (foldl (fun f ip => (remove_entry_inner f ip).1) f l) /\
  pruned now f (foldl (fun f ip => (remove_entry_inner f ip).1) f l) /\
  next_offset (foldl (fun f ip => (remove_entry_inner f ip).1) f l) = next_offset f.
Proof.
  induction l as [| ip l IH]; intros f Hf Hl; [done |]. cbn [foldl].
  assert (Hp : pruned now f (remove_entry_inner f ip).1).
  { apply remove_entry_pruned. intros e. apply Hl. by left. }
  destruct (IH (remove_entry_inner f ip).1) as (H1 & H2 & H3).
  - by apply remove_entry_ok.
  - intros ip' e Hin [He Hf']. rewrite (pr_ttl _ _ _ Hp) in Hf'. apply (Hl ip' e); [by right |]. split; [| done].
    by eapply lookup_weaken; [| apply (pr_sub _ _ _ Hp)].
  - split_and!; [done | by etrans |]. rewrite H3. unfold remove_entry_inner. by destruct (ip_to_entry f !! ip).
Qed.

Lemma evict_expired_ok now f :
  dns_ok now f ->
  dns_ok now (evict_expired_inner now f) /\ pruned now f (evict_expired_inner now f) /\
  next_offset (evict_expired_inner now f) = next_offset f.
Proof.
  intros Hf. apply evict_all_ok; [done |]. intros ip e ([ip' e'] & -> & Hin)%list_elem_of_fmap [He Hfr].
  apply list_elem_of_In, List.filter_In in Hin as [Hin%list_elem_of_In%elem_of_map_to_list Hexp].
  simpl in *. apply negb_true_iff in Hexp. congruence.
Qed.

(** ** The search *)

(** The offset looked at in turn [j] of a search. *)
Definition turn_offset (f : FakeDns) (j : Z) : Z := (next_offset f - 1 + j) mod pool_size f + 1.

(** One turn before the candidate is examined. *)
Definition advance (now : Z) (f : FakeDns) : FakeDns :=
  let f := set_next_offset f (next_offset f + 1) in
  if pool_size f <? next_offset f then evict_expired_inner now (set_next_offset f 1) else f.

Lemma set_next_offset_pruned now f o : pruned now f (set_next_offset f o).
Proof. split; try done. by intros ip e []. Qed.

Lemma advance_ok now f :
  dns_ok now f ->
  dns_ok now (advance now f) /\ pruned now f (advance now f) /\ next_offset (advance now f) = turn_offset f 1.
Proof.
  intros Hf. pose proof Hf as [H1 H2 Hb Hl Hr Ht]. unfold advance, turn_offset. cbv zeta.
  change (pool_size (set_next_offset f (next_offset f + 1))) with (pool_size f).
  change (next_offset (set_next_offset f (next_offset f + 1))) with (next_offset f + 1).
  destruct (Z.ltb_spec (pool_size f) (next_offset f + 1)) as [Hlt | Hge].
  - assert (dns_ok now (set_next_offset f 1)) as Hf1.
    { split; try done. simpl. lia. }
    change (set_next_offset (set_next_offset f (next_offset f + 1)) 1) with (set_next_offset f 1).
    destruct (evict_expired_ok now _ Hf1) as (E1 & E2 & E3). split_and!; [done | |].
    + etrans; [apply set_next_offset_pruned | exact E2].
    + rewrite E3. cbn [set_next_offset next_offset]. replace (next_offset f - 1 + 1) with (pool_size f) by lia.
      by rewrite Z.mod_same by lia.
  - split_and!; [| apply set_next_offset_pruned |].
    + split; try done. simpl. lia.
    + rewrite Z.mod_small by lia. cbn [next_offset set_next_offset]. lia.
Qed.

Lemma find_free_S fuel now f :
  find_free (S fuel) now f =
  match ip_to_entry (advance now f) !! Z.lor FAKE_IP_BASE (next_offset f) with
  | Some old =>
      if fresh_entry now (ttl (advance now f)) old then find_free fuel now (advance now f)
      else ((remove_entry_inner (advance now f) (Z.lor FAKE_IP_BASE (next_offset f))).1, Some (Z.lor FAKE_IP_BASE (next_offset f)))
  | None => (advance now f, Some (Z.lor FAKE_IP_BASE (next_offset f)))
  end.
Proof. reflexivity. Qed.

Lemma find_free_spec fuel now f :
  dns_ok now f ->
  let '(g, r) := find_free fuel now f in
  dns_ok now g /\ pruned now f g /\
  match r with
  | Some ip => in_pool f ip /\ ip_to_entry g !! ip = None
  | None => forall j, 0 <= j < Z.of_nat fuel -> exists e, live now f (FAKE_IP_BASE + turn_offset f j) e
  end.
Proof.
  revert f. induction fuel as [| fuel IH]; intros f Hf; [split_and!; [done | reflexivity | lia] |].
  rewrite find_free_S. destruct (advance_ok now f Hf) as (Ha & Hp & Hn). set (g := advance now f) in *.
  pose proof (dk_pool _ _ Hf) as Hpool. pose proof (dk_offset _ _ Hf) as Hoff. unfold FAKE_IP_POOL_SIZE in Hpool.
  rewrite candidate_value by (unfold U32_MAX, FAKE_IP_MASK in *; lia).
  assert (Hin : in_pool f (FAKE_IP_BASE + next_offset f)) by (by exists (next_offset f)).
  destruct (ip_to_entry g !! (FAKE_IP_BASE + next_offset f)) as [old |] eqn:E; [| done].
  destruct (fresh_entry now (ttl g) old) eqn:Efr.
  - specialize (IH g Ha). destruct (find_free fuel now g) as [h r]. destruct IH as (I1 & I2 & I3).
    split_and!; [done | by etrans |]. destruct r as [ip |].
    + destruct I3 as [I3 I4]. split; [| done]. unfold in_pool in *. by rewrite <- (pr_pool _ _ _ Hp).
    + intros j Hj. destruct (decide (j = 0)) as [-> | Hne].
      { exists old. unfold turn_offset. rewrite Z.mod_small by lia.
        replace (next_offset f - 1 + 0 + 1) with (next_offset f) by lia. split.
        - by eapply lookup_weaken; [| apply (pr_sub _ _ _ Hp)].
        - by rewrite <- (pr_ttl _ _ _ Hp). }
      destruct (I3 (j - 1)) as (e & He & Hfe); [lia |]. exists e.
      assert (Eo : turn_offset g (j - 1) = turn_offset f j).
      { unfold turn_offset at 1. rewrite Hn, (pr_pool _ _ _ Hp). unfold turn_offset.
        replace ((next_offset f - 1 + 1) mod pool_size f + 1 - 1 + (j - 1))
          with ((next_offset f - 1 + 1) mod pool_size f + (j - 1)) by lia.
        rewrite Z.add_mod_idemp_l by lia. do 2 f_equal. lia. }
      rewrite Eo in He. split; [by eapply lookup_weaken; [| apply (pr_sub _ _ _ Hp)] |]. by rewrite <- (pr_ttl _ _ _ Hp).
  - split_and!; [by apply remove_entry_ok | | done | apply remove_entry_gone].
    etrans; [exact Hp |]. apply remove_entry_pruned. intros e [He Hfe]. congruence.
Qed.

(** A search over the whole pool that finds nothing has seen a live entry
    everywhere. *)
Lemma find_free_full now f g :
  dns_ok now f -> find_free (Z.to_nat (pool_size f)) now f = (g, None) ->
  forall ip, in_pool f ip -> exists e, live now f ip e.
Proof.
  intros Hf Hfind ip (o & Ho & ->). pose proof (find_free_spec (Z.to_nat (pool_size f)) now f Hf) as Hs.
  rewrite Hfind in Hs. destruct Hs as (_ & _ & Hall). pose proof (dk_offset _ _ Hf).
  pose proof (Z.mod_pos_bound (o - next_offset f) (pool_size f)).
  destruct (Hall ((o - next_offset f) mod pool_size f)) as (e & He); [lia |]. exists e.
  replace o with (turn_offset f ((o - next_offset f) mod pool_size f)); [done |]. unfold turn_offset.
  rewrite Z.add_mod_idemp_r by lia. replace (next_offset f - 1 + (o - next_offset f)) with (o - 1) by lia.
  rewrite Z.mod_small; lia.
Qed.

(** ** The victim *)

Lemma older_spec a b : older a b = true <-> last_used a.2 < last_used b.2 \/ (last_used a.2 = last_used b.2 /\ a.1 < b.1).
Proof. unfold older. rewrite orb_true_iff, andb_true_iff, !Z.ltb_lt, Z.eqb_eq. done. Qed.

Lemma min_entry_spec l m : min_entry l = Some m -> m ∈ l /\ forall a, a ∈ l -> older a m = false.
Proof.
  revert m. induction l as [| a l IH]; intros m; simpl; [done |].
  destruct (min_entry l) as [b |] eqn:Eb.
  - destruct (IH b eq_refl) as [Hin Hmin]. destruct (older b a) eqn:Eo; intros [= <-].
    + split; [by right |]. intros c [-> | Hc]%elem_of_cons; [| by apply Hmin]. apply not_true_is_false.
      intros H. apply older_spec in H, Eo. lia.
    + split; [by left |]. intros c [-> | Hc]%elem_of_cons; apply not_true_is_false; intros H.
      * apply older_spec in H. lia.
      * apply not_true_iff_false in Eo. specialize (Hmin c Hc). apply not_true_iff_false in Hmin.
        rewrite older_spec in *. lia.
  - intros [= <-]. destruct l as [| c l]; [| simpl in Eb; by destruct (min_entry l)].
    split; [by left |]. intros c ->%list_elem_of_singleton. apply not_true_is_false. intros H. apply older_spec in H. lia.
Qed.

Lemma victim_spec f v :
  victim f = Some v ->
  exists e, ip_to_entry f !! v = Some e /\
    forall ip' e', ip_to_entry f !! ip' = Some e' -> ip' <> v -> older (v, e) (ip', e') = true.
Proof.
  unfold victim. intros ([v' e] & Hm & ->)%fmap_Some. destruct (min_entry_spec _ _ Hm) as [Hin Hmin].
  apply elem_of_map_to_list in Hin. exists e. split; [done |]. intros ip' e' He' Hne. apply older_spec. simpl in *.
  assert (Ho : older (ip', e') (v', e) = false) by by apply Hmin, elem_of_map_to_list.
  apply not_true_iff_false in Ho. rewrite older_spec in Ho. simpl in Ho. lia.
Qed.

Lemma min_entry_none l : min_entry l = None -> l = [].
Proof. destruct l as [| a l]; [done |]. simpl. by destruct (min_entry l). Qed.

Lemma victim_none f : victim f = None -> ip_to_entry f = ∅.
Proof. unfold victim. intros H%fmap_None%min_entry_none. by apply map_to_list_empty_iff. Qed.

(** What an address is taken from: a free place, or, when every address of the
    pool is live, the entry that was not used for the longest time. *)
Record taken (now : Z) (f g : FakeDns) (ip : Z) : Prop := {
  tk_ok : dns_ok now g;
  tk_pool : in_pool f ip;
  tk_gone : ip_to_entry g !! ip = None;
  tk_sub : ip_to_entry g ⊆ ip_to_entry f;
  tk_names : domain_to_ip g ⊆ domain_to_ip f;
  tk_size : pool_size g = pool_size f;
  tk_ttl : ttl g = ttl f;
  tk_others : forall ip' e', live now f ip' e' -> ip' <> ip -> ip_to_entry g !! ip' = Some e';
  tk_victim : forall e, live now f ip e -> forall ip', in_pool f ip' ->
    exists e', live now f ip' e' /\
      (ip' = ip \/ last_used e < last_used e' \/ last_used e = last_used e' /\ ip < ip')
}.

Lemma set_reported_ok now f b : dns_ok now f -> dns_ok now (set_reported f b).
Proof. intros []. by split. Qed.

Lemma taken_reported now f g ip b : taken now f g ip -> taken now f (set_reported g b) ip.
Proof. intros []. split; try done. by apply set_reported_ok. Qed.

Lemma evicted_taken now f g v :
  dns_ok now f -> dns_ok now g -> pruned now f g -> (forall ip, in_pool f ip -> exists e, live now f ip e) ->
  victim g = Some v -> taken now f (remove_entry_inner g v).1 v.
Proof.
  intros Hf Hg Hp Hfull Hv. destruct (victim_spec g v Hv) as (e & He & Hmin).
  assert (Hwe : forall ip e, ip_to_entry g !! ip = Some e -> ip_to_entry f !! ip = Some e)
    by (intros; by eapply lookup_weaken; [| apply (pr_sub _ _ _ Hp)]).
  assert (Hgf : forall ip, in_pool f ip -> exists e', live now f ip e' /\ ip_to_entry g !! ip = Some e').
  { intros ip Hin. destruct (Hfull ip Hin) as [e' He']. exists e'. split; [done |]. by apply (pr_live _ _ _ Hp). }
  pose proof (remove_entry_ok now g v Hg) as Hok.
  unfold remove_entry_inner in *. rewrite He in *. cbn [fst] in *.
  split; cbn [set_maps ip_to_entry domain_to_ip pool_size ttl]; [done | | | | | | | |].
  - apply (dk_range _ _ Hf v e). by apply Hwe.
  - apply lookup_delete_eq.
  - trans (ip_to_entry g); [apply delete_subseteq | apply (pr_sub _ _ _ Hp)].
  - trans (domain_to_ip g); [| apply (pr_names _ _ _ Hp)]. case_bool_decide; [apply delete_subseteq | done].
  - apply (pr_pool _ _ _ Hp).
  - apply (pr_ttl _ _ _ Hp).
  - intros ip' e' Hl Hne. rewrite lookup_delete_ne by done. by apply (pr_live _ _ _ Hp).
  - intros e0 [He0 _] ip' Hin. apply Hwe in He. assert (e0 = e) as -> by congruence.
    destruct (Hgf ip' Hin) as (e' & Hl & Hg'). exists e'. split; [done |].
    destruct (decide (ip' = v)) as [-> | Hne]; [by left |]. right.
    specialize (Hmin ip' e' Hg' Hne). apply older_spec in Hmin. done.
Qed.

Lemma take_address_spec now f :
  dns_ok now f -> let '(g, ip, _) := take_address now f in taken now f g ip.
Proof.
  intros Hf. unfold take_address. pose proof (find_free_spec (Z.to_nat (pool_size f)) now f Hf) as Hs.
  destruct (find_free (Z.to_nat (pool_size f)) now f) as [g [ip |]] eqn:E; destruct Hs as (Hg & Hp & Hr).
  - destruct Hr as [Hin Hgone]. apply taken_reported. destruct Hp. split; try done.
    + intros ip' e' Hl _. by apply pr_live0.
    + intros e Hl. apply pr_live0 in Hl. congruence.
  - pose proof (find_free_full now f g Hf E) as Hfull. destruct (victim g) as [v |] eqn:Ev.
    + pose proof (evicted_taken now f g v Hf Hg Hp Hfull Ev) as Ht.
      destruct (remove_entry_inner g v) as [h [old |]]; [| done]. destruct (exhaustion_reported h); [done |].
      by apply taken_reported.
    + apply victim_none in Ev. destruct (Hfull (FAKE_IP_BASE + 1)) as (e & Hl).
      { exists 1. pose proof (dk_pool _ _ Hf). lia. }
      apply (pr_live _ _ _ Hp) in Hl. rewrite Ev in Hl. by rewrite lookup_empty in Hl.
Qed.

(** ** Allocation *)

Lemma fresh_now now t e : created e <= now -> 0 < t -> now < created e + t -> fresh_entry now t e = true.
Proof. intros H1 H2 H3. unfold fresh_entry, elapsed. apply Z.ltb_lt. lia. Qed.

Lemma touch_live now f ip e ip' e' :
  live now f ip e -> live now f ip' e' ->
  exists e'', live now (touch f ip e) ip' e'' /\ entry_domain e'' = entry_domain e' /\ created e'' = created e'.
Proof.
  intros [He Hf] [He' Hf']. unfold touch, live. cbn [set_maps ip_to_entry ttl].
  destruct (decide (ip' = ip)) as [-> | Hne].
  - rewrite lookup_insert_eq. assert (e' = e) as -> by congruence.
    exists {| entry_domain := entry_domain e; created := created e; last_used := uses f |}.
    split_and!; [done | exact Hf | done | done].
  - rewrite lookup_insert_ne by done. by exists e'.
Qed.

Lemma touch_ok now f ip e : dns_ok now f -> ip_to_entry f !! ip = Some e -> dns_ok now (touch f ip e).
Proof.
  intros [H1 H2 Hb Hl Hr Ht] He. split; try done; cbn [touch set_maps domain_to_ip ip_to_entry].
  - intros d ip' Hd. destruct (Hb _ _ Hd) as (e' & He' & Hde). destruct (decide (ip' = ip)) as [-> | Hne].
    + rewrite lookup_insert_eq. eexists. split; [done |]. simpl. congruence.
    + rewrite lookup_insert_ne by done. by exists e'.
  - intros ip' e' [He' Hf]. cbn [touch set_maps ip_to_entry ttl] in He', Hf.
    destruct (decide (ip' = ip)) as [-> | Hne].
    + rewrite lookup_insert_eq in He'. injection He' as <-. apply (Hl ip e). split; [done | exact Hf].
    + rewrite lookup_insert_ne in He' by done. apply Hl. by split.
  - intros ip' e' He'. destruct (decide (ip' = ip)) as [-> | Hne]; [by apply (Hr ip e) |].
    rewrite lookup_insert_ne in He' by done. by apply (Hr ip' e').
  - intros ip' e' He'. destruct (decide (ip' = ip)) as [-> | Hne].
    + rewrite lookup_insert_eq in He'. injection He' as <-. by apply (Ht ip e).
    + rewrite lookup_insert_ne in He' by done. by apply (Ht ip' e').
Qed.

Lemma bump_uses_ok now f : dns_ok now f -> dns_ok now (bump_uses f).
Proof. intros []. by split. Qed.

Lemma add_warn_ok now f m : dns_ok now f -> dns_ok now (add_warn f m).
Proof. intros []. by split. Qed.

(** What allocating a fresh entry for [lower] does; [taken] says where. *)
Record allocated (now : Z) (f g : FakeDns) (lower : bytes) (ip : Z) : Prop := {
  al_ok : dns_ok now g;
  al_pool : in_pool f ip;
  al_size : pool_size g = pool_size f;
  al_ttl : ttl g = ttl f;
  al_entry : exists e, ip_to_entry g !! ip = Some e /\ entry_domain e = lower /\ created e <= now /\
    ((exists e0, live now f ip e0 /\ entry_domain e0 = lower /\ created e = created e0) \/ created e = now);
  al_others : forall ip' e', live now f ip' e' -> ip' <> ip ->
    exists e'', live now g ip' e'' /\ entry_domain e'' = entry_domain e' /\ created e'' = created e';
  al_victim : forall e, live now f ip e -> entry_domain e <> lower -> forall ip', in_pool f ip' ->
    exists e', live now f ip' e' /\ (ip' = ip \/ last_used e < last_used e' \/ last_used e = last_used e' /\ ip < ip')
}.

Lemma insert_ok now f ip lower u :
  dns_ok now f -> in_pool f ip -> ip_to_entry f !! ip = None -> domain_to_ip f !! lower = None ->
  dns_ok now (set_maps f (<[lower := ip]> (domain_to_ip f))
    (<[ip := {| entry_domain := lower; created := now; last_used := u |}]> (ip_to_entry f))).
Proof.
  intros [H1 H2 Hb Hl Hr Ht] Hin Hip Hlow. split; try done; cbn [set_maps domain_to_ip ip_to_entry].
  - intros d ip' Hd. destruct (decide (d = lower)) as [-> | Hne].
    + rewrite lookup_insert_eq in Hd. injection Hd as <-. rewrite lookup_insert_eq. by eexists.
    + rewrite lookup_insert_ne in Hd by done. destruct (Hb _ _ Hd) as (e & He & Hde). exists e.
      rewrite lookup_insert_ne; [done | congruence].
  - intros ip' e' [He' Hf]. cbn [set_maps ip_to_entry ttl] in He', Hf. destruct (decide (ip' = ip)) as [-> | Hne].
    + rewrite lookup_insert_eq in He'. injection He' as <-. apply lookup_insert_eq.
    + rewrite lookup_insert_ne in He' by done. assert (Hd : live now f ip' e') by by split. apply Hl in Hd.
      rewrite lookup_insert_ne; [done | congruence].
  - intros ip' e' He'. destruct (decide (ip' = ip)) as [-> | Hne]; [done |].
    rewrite lookup_insert_ne in He' by done. by apply (Hr ip' e').
  - intros ip' e' He'. destruct (decide (ip' = ip)) as [-> | Hne].
    + rewrite lookup_insert_eq in He'. injection He' as <-. simpl. lia.
    + rewrite lookup_insert_ne in He' by done. by apply (Ht ip' e').
Qed.

Lemma allocate_new_spec now f lower :
  dns_ok now f -> domain_to_ip f !! lower = None ->
  allocated now f (allocate_new now f lower).1 lower (allocate_new now f lower).2.
Proof.
  intros Hf Hlow. unfold allocate_new. pose proof (take_address_spec now f Hf) as Ht.
  destruct (take_address now f) as [[g ip] ev]. destruct Ht as [Ho Hin Hgone Hsub Hnames Hsz Httl Hothers Hvic].
  assert (Hlow' : domain_to_ip g !! lower = None) by by eapply lookup_weaken_None.
  assert (Hin' : in_pool (bump_uses g) ip) by (unfold in_pool; cbn [bump_uses pool_size]; rewrite Hsz; exact Hin).
  pose proof (insert_ok now (bump_uses g) ip lower (uses (bump_uses g)) (bump_uses_ok now g Ho) Hin' Hgone Hlow') as Hok.
  set (h := set_maps _ _ _) in *.
  assert (Hh : allocated now f h lower ip).
  { split; [done | done | done | done | | |].
    - eexists. unfold h. cbn [set_maps ip_to_entry]. rewrite lookup_insert_eq. split; [done |]. simpl. auto with lia.
    - intros ip' e' Hl Hne. exists e'. split; [| done]. split.
      + unfold h. cbn [set_maps ip_to_entry]. rewrite lookup_insert_ne by done. by apply Hothers.
      + unfold h. cbn [set_maps ttl bump_uses]. rewrite Httl. apply Hl.
    - intros e Hl _. by apply Hvic. }
  clearbody h. destruct ev as [[d v] |]; [| done]. cbn [fst snd].
  destruct Hh. split; try done. by apply add_warn_ok.
Qed.

Lemma allocate_spec (UC : UnicodeCase) now f domain :
  dns_ok now f -> allocated now f (allocate now f domain).1 (to_lowercase domain) (allocate now f domain).2.
Proof.
  intros Hf. pose proof (dk_past _ _ Hf) as Hpast. unfold allocate. destruct (domain_to_ip f !! to_lowercase domain) as [ip |] eqn:Ed;
    [| by apply allocate_new_spec].
  destruct (dk_back _ _ Hf _ _ Ed) as (e & He & Hde). change (ip_to_entry (bump_uses f)) with (ip_to_entry f). rewrite He.
  change (ttl (bump_uses f)) with (ttl f). change (domain_to_ip (bump_uses f)) with (domain_to_ip f).
  destruct (fresh_entry now (ttl f) e) eqn:Efr.
  - assert (Hl : live now f ip e) by by split. cbn [fst snd]. split.
    + by apply touch_ok; [apply bump_uses_ok |].
    + by apply (dk_range _ _ Hf ip e).
    + done.
    + done.
    + destruct (touch_live now (bump_uses f) ip e ip e) as (e' & [He' _] & Hde' & Hc); [done | done |].
      exists e'. split_and!; [done | congruence | rewrite Hc; by eapply Hpast |]. left. by exists e.
    + intros ip' e' Hl' _. by apply (touch_live now (bump_uses f) ip e).
    + intros e0 [He0 _] Hne. congruence.
  - set (g := set_maps (bump_uses f) _ _).
    assert (Hg : dns_ok now g).
    { destruct Hf as [H1 H2 Hb Hl Hr Ht]. split; try done; cbn [g set_maps domain_to_ip ip_to_entry].
      - intros d ip' [_ Hd]%lookup_delete_Some. by apply Hb.
      - intros ip' e' Hl'. apply lookup_delete_Some. split; [| by apply Hl].
        intros Heq. specialize (Hl ip' e' Hl'). rewrite <- Heq, Ed in Hl. injection Hl as <-.
        destruct Hl' as [He' Hf']. cbn [g set_maps bump_uses ip_to_entry ttl] in He', Hf'. congruence. }
    destruct (allocate_new_spec now g (to_lowercase domain) Hg) as [A1 A2 A3 A4 A5 A6 A7].
    { apply lookup_delete_eq. }
    by split.
Qed.

Lemma lookup_ok now f ip : dns_ok now f -> dns_ok now (FakeDns_lookup now f ip).1.
Proof.
  intros Hf. unfold FakeDns_lookup. pose proof (bump_uses_ok now f Hf).
  destruct (ip_to_entry (bump_uses f) !! ip) as [e |] eqn:E; [| done]. case_cmp; [by apply touch_ok | done].
Qed.

(** The answer of a lookup is that of the live entry. *)
Lemma lookup_live now f ip d :
  (FakeDns_lookup now f ip).2 = Some d <-> exists e, live now f ip e /\ entry_domain e = d.
Proof.
  unfold FakeDns_lookup, live. change (ip_to_entry (bump_uses f)) with (ip_to_entry f).
  change (ttl (bump_uses f)) with (ttl f). destruct (ip_to_entry f !! ip) as [e |].
  - destruct (fresh_entry now (ttl f) e) eqn:E; cbn [snd]; split.
    + intros [= <-]. by exists e.
    + by intros (e' & [[= <-] _] & <-).
    + done.
    + intros (e' & [[= <-] ?] & _). congruence.
  - split; [done |]. by intros (e & [? _] & _).
Qed.

(** ** Runs *)

Section runs.
Context {UC : UnicodeCase}.

Inductive DnsOp := DAllocate (d : bytes) | DLookup (ip : Z).

Definition dns_op (now : Z) (o : DnsOp) (f : FakeDns) : FakeDns :=
  match o with
  | DAllocate d => (allocate now f d).1
  | DLookup ip => (FakeDns_lookup now f ip).1
  end.

(** A resolver built at [t0] and used in the order of the clock. *)
Inductive dns_reachable (f0 : FakeDns) (t0 : Z) : Z -> FakeDns -> Prop :=
| dr_new : dns_reachable f0 t0 t0 f0
| dr_op t f now o : dns_reachable f0 t0 t f -> t <= now -> dns_reachable f0 t0 now (dns_op now o f).

Lemma build_ok now ttl0 size st : dns_ok now (FakeDns_build ttl0 size st).
Proof.
  split; simpl; try done.
  - unfold clamp, FAKE_IP_POOL_SIZE, FAKE_IP_MASK, U32_MAX. repeat case_cmp; lia.
  - unfold clamp, FAKE_IP_POOL_SIZE, FAKE_IP_MASK, U32_MAX. repeat case_cmp; lia.
  - by intros ip e [? _].
Qed.

Lemma dns_op_ok now o f : dns_ok now f -> dns_ok now (dns_op now o f).
Proof. intros Hf. destruct o; [by apply allocate_spec | by apply lookup_ok]. Qed.

Lemma dns_op_ttl now o f : dns_ok now f -> ttl (dns_op now o f) = ttl f.
Proof.
  intros Hf. destruct o; [by apply allocate_spec |]. cbn [dns_op]. unfold FakeDns_lookup.
  destruct (ip_to_entry (bump_uses f) !! ip); [| done]. by case_cmp.
Qed.

Lemma dns_reachable_ok ttl0 size st t0 now f :
  dns_reachable (FakeDns_build ttl0 size st) t0 now f -> dns_ok now f /\ ttl f = ttl0.
Proof.
  induction 1 as [| t f now o _ [IH Et] Hle]; [split; [apply build_ok | done] |].
  assert (Hf : dns_ok now f) by by eapply dns_ok_later. split; [by apply dns_op_ok |]. by rewrite dns_op_ttl.
Qed.

Lemma is_fake_in_pool f ip : 1 <= pool_size f <= FAKE_IP_POOL_SIZE -> in_pool f ip ->
  is_fake_ip ip = true /\ FAKE_IP_BASE < ip < FAKE_IP_BASE + 2 ^ 17 - 1.
Proof.
  intros Hp (o & Ho & ->). unfold FAKE_IP_POOL_SIZE, U32_MAX, FAKE_IP_MASK in Hp.
  split; [| lia]. unfold is_fake_ip. apply Z.eqb_eq. apply Z.bits_inj'. intros n Hn. rewrite Z.land_spec.
  rewrite <- candidate_value by lia. rewrite Z.lor_spec. change FAKE_IP_BASE with (0x6309 * 2 ^ 17).
  change FAKE_IP_MASK with (0x7FFF * 2 ^ 17). destruct (Z.lt_ge_cases n 17) as [Hlt | Hge].
  - rewrite !Z.mul_pow2_bits_low by done. apply andb_false_r.
  - rewrite <- (Z.mod_small o (2 ^ 17)) by lia. rewrite Z.mod_pow2_bits_high by lia. rewrite orb_false_r.
    by rewrite <- Z.land_spec.
Qed.

End runs.


(** [allocate] always returns, an address of the pool that looks up to the
    lower-cased name until the time to live of its entry is over. A name with a
    live entry keeps its address. The live entries of all other names are kept,
    with their ages, except one that is displaced, and an entry is displaced only
    when every address of the pool is live and it is the one that was not used
    for the longest time. *)
Theorem fake_dns_allocate (UC : UnicodeCase) ttl0 size st t0 now f domain :
  dns_reachable (FakeDns_build ttl0 size st) t0 now f -> 0 < ttl0 ->
  let g := (allocate now f domain).1 in
  let ip := (allocate now f domain).2 in
  let lower := to_lowercase domain in
  is_fake_ip ip = true /\
  (exists t, (t = now \/ (exists e, live now f ip e /\ entry_domain e = lower /\ created e = t)) /\ now < t + ttl0 /\
     forall now', now <= now' < t + ttl0 -> (FakeDns_lookup now' g ip).2 = Some lower) /\
  (forall ip0, (FakeDns_lookup now f ip0).2 = Some lower -> ip = ip0) /\
  (forall ip' e', live now f ip' e' -> ip' <> ip ->
     forall now', now <= now' < created e' + ttl0 -> (FakeDns_lookup now' g ip').2 = Some (entry_domain e')) /\
  (forall e, live now f ip e -> entry_domain e <> lower -> forall o, 1 <= o <= pool_size f ->
     exists e', live now f (FAKE_IP_BASE + o) e' /\
       (FAKE_IP_BASE + o = ip \/ last_used e < last_used e' \/ last_used e = last_used e' /\ ip < FAKE_IP_BASE + o)).
Proof.
  intros [Hf Ht]%dns_reachable_ok Hpos g ip lower. subst ttl0.
  destruct (allocate_spec UC now f domain Hf) as [Hok Hin Hsz Httl (e & He & Hde & Hc & Hage) Hothers Hvic].
  fold g ip lower in Hok, Hin, Hsz, Httl, He, Hde, Hage, Hothers, Hvic.
  assert (Hlive : forall now' e' i, ip_to_entry g !! i = Some e' -> now <= now' < created e' + ttl f ->
    (FakeDns_lookup now' g i).2 = Some (entry_domain e')).
  { intros now' e' i Hi Hn. apply lookup_live. exists e'. split; [| done]. split; [done |]. rewrite Httl.
    pose proof (dk_past _ _ Hok _ _ Hi). apply fresh_now; lia. }
  assert (Hyoung : now < created e + ttl f).
  { destruct Hage as [(e0 & [_ Hfr] & _ & Hc0) | ->]; [| lia]. rewrite Hc0. unfold fresh_entry, elapsed in Hfr.
    apply Z.ltb_lt in Hfr. lia. }
  split_and!.
  - apply (is_fake_in_pool f); [apply (dk_pool _ _ Hf) | done].
  - exists (created e). split_and!; [| done |].
    + destruct Hage as [(e0 & Hl0 & Hd0 & Hc0) | Hnow]; [right; by exists e0 | by left].
    + intros now' Hn. rewrite (Hlive now' e ip He Hn). by rewrite Hde.
  - intros ip0 (e0 & Hl0 & Hd0)%lookup_live. destruct (decide (ip = ip0)) as [| Hne]; [done | exfalso].
    destruct (Hothers ip0 e0 Hl0 ltac:(done)) as (e1 & Hl1 & Hd1 & _). apply (dk_live _ _ Hok) in Hl1.
    assert (Hl : live now g ip e) by (split; [done |]; rewrite Httl; by apply fresh_now).
    apply (dk_live _ _ Hok) in Hl. congruence.
  - intros ip' e' Hl Hne now' Hn. destruct (Hothers ip' e' Hl Hne) as (e1 & [He1 _] & <- & Hc1). apply Hlive; [done | lia].
  - intros e0 Hl0 Hd0 o Ho. apply (Hvic e0 Hl0 Hd0). by exists o.
Qed.

(** ** Packets *)

Lemma parse_labels_total fuel data pos parts :
  bytes_ok data -> 0 <= pos <= zlen data -> zlen data - pos < Z.of_nat fuel ->
  exists r, parse_labels fuel data pos parts = Some r /\
    match r with Some (_, pos') => pos < pos' <= zlen data | None => True end.
Proof.
  intros Hb. revert pos parts. induction fuel as [| fuel IH]; intros pos parts Hp Hf; [lia |]. cbn [parse_labels].
  destruct (Z.leb_spec (zlen data) pos); [by exists None |]. step_byte.
  destruct (Z.eqb_spec b 0); [exists (Some (parts, pos + 1)); split; [done | lia] |].
  destruct (Z.ltb_spec (zlen data) (pos + 1 + b)); [by exists None |].
  rewrite slice_some by lia. cbn [mbind option_bind]. destruct (from_utf8 _) as [l |]; [| by exists None].
  destruct (IH (pos + 1 + b) (parts ++ [l])) as (r & -> & Hr); [lia | lia |]. exists r. split; [done |].
  destruct r as [[ps pos'] |]; [lia | done].
Qed.

Lemma parse_question_total data :
  bytes_ok data ->
  exists r, parse_dns_question data = Some r /\
    match r with
    | Some (d, t, c, qend) => zlen d <= MAX_DOMAIN_LEN /\ 0 <= qend <= zlen data
    | None => True
    end.
Proof.
  intros Hb. unfold parse_dns_question. pose proof (zlen_nonneg data).
  destruct (parse_labels_total (S (length data)) data 0 [] Hb) as (r & -> & Hr); [lia | unfold zlen; lia |].
  cbn [mbind option_bind]. destruct r as [[parts pos] |]; [| by exists None].
  destruct (Z.ltb_spec (zlen data) (pos + 4)); [by exists None |]. do 4 step_byte.
  destruct (Z.ltb_spec MAX_DOMAIN_LEN (zlen (join (str ".") parts))); [by exists None |].
  exists (Some (join (str ".") parts, from_be16 b b0, from_be16 b1 b2, pos + 4)). split; [done | lia].
Qed.

(** A question: its labels, the terminating zero, type A and class IN. *)
Definition encode_label (l : bytes) : bytes := zlen l :: l.
Definition encode_question (labels : list bytes) : bytes := concat (encode_label <$> labels) ++ [0; 0; 1; 0; 1].

Definition dns_label_ok (l : bytes) : Prop := 0 < zlen l < 256 /\ utf8_valid l = true.

Lemma parse_labels_encoded labels : forall fuel pre rest parts,
  Forall dns_label_ok labels -> (length labels < fuel)%nat ->
  parse_labels fuel (pre ++ concat (encode_label <$> labels) ++ 0 :: rest) (zlen pre) parts =
  Some (Some (parts ++ labels, zlen pre + zlen (concat (encode_label <$> labels)) + 1)).
Proof.
  induction labels as [| l labels IH]; intros fuel pre rest parts Hl Hf; (destruct fuel as [| fuel]; [simpl in Hf; lia |]);
    cbn [parse_labels].
  - cbn [fmap list_fmap concat app]. rewrite zlen_app, zlen_cons. pose proof (zlen_nonneg rest).
    destruct (Z.leb_spec (zlen pre + (1 + zlen rest)) (zlen pre)); [lia |].
    rewrite index_mid by done. cbn [mbind option_bind]. rewrite Z.eqb_refl, app_nil_r.
    change (zlen []) with 0. by rewrite Z.add_0_r.
  - apply Forall_cons in Hl as [[Hlen Hu] Hl].
    set (tail := concat (encode_label <$> labels) ++ 0 :: rest).
    assert (E : pre ++ concat (encode_label <$> l :: labels) ++ 0 :: rest = pre ++ zlen l :: (l ++ tail)).
    { unfold tail. change (concat (encode_label <$> l :: labels))
        with ((zlen l :: l) ++ concat (encode_label <$> labels)). cbn [app]. by rewrite <- !app_assoc. }
    assert (En : zlen (concat (encode_label <$> l :: labels)) = 1 + zlen l + zlen (concat (encode_label <$> labels))).
    { change (concat (encode_label <$> l :: labels)) with ((zlen l :: l) ++ concat (encode_label <$> labels)).
      by rewrite zlen_app, zlen_cons. }
    rewrite En.
    rewrite E. pose proof (zlen_nonneg tail). rewrite zlen_app, zlen_cons, zlen_app.
    destruct (Z.leb_spec (zlen pre + (1 + (zlen l + zlen tail))) (zlen pre)); [lia |].
    rewrite index_mid by done. cbn [mbind option_bind].
    destruct (Z.eqb_spec (zlen l) 0); [lia |].
    destruct (Z.ltb_spec (zlen pre + (1 + (zlen l + zlen tail))) (zlen pre + 1 + zlen l)); [lia |].
    assert (Es : slice (pre ++ zlen l :: l ++ tail) (zlen pre + 1) (zlen pre + 1 + zlen l) = Some l).
    { change (zlen l :: l ++ tail) with ([zlen l] ++ l ++ tail). rewrite app_assoc.
      apply slice_app; rewrite zlen_app; unfold zlen; simpl; lia. }
    rewrite Es. cbn [mbind option_bind]. unfold from_utf8. rewrite Hu.
    specialize (IH fuel (pre ++ zlen l :: l) rest (parts ++ [l]) Hl ltac:(simpl in Hf; lia)).
    rewrite <- app_assoc in IH. cbn [app] in IH. fold tail in IH.
    replace (zlen pre + 1 + zlen l) with (zlen (pre ++ zlen l :: l)) by (rewrite zlen_app, zlen_cons; lia).
    rewrite IH, <- app_assoc. do 3 f_equal. rewrite zlen_app, zlen_cons. lia.
Qed.

Lemma parse_question_encoded labels rest :
  Forall dns_label_ok labels -> zlen (join (str ".") labels) <= MAX_DOMAIN_LEN ->
  parse_dns_question (encode_question labels ++ rest) =
  Some (Some (join (str ".") labels, 1, 1, zlen (encode_question labels))).
Proof.
  intros Hl Hd. unfold parse_dns_question, encode_question. rewrite <- app_assoc. cbn [app].
  set (names := concat (encode_label <$> labels)).
  assert (Hlen : (length labels <= length names)%nat).
  { unfold names. clear -labels. induction labels as [| l labels IH]; [done |].
    change (concat (encode_label <$> l :: labels)) with ((zlen l :: l) ++ concat (encode_label <$> labels)).
    rewrite length_app. simpl. lia. }
  pose proof (parse_labels_encoded labels (S (length (names ++ 0 :: 0 :: 1 :: 0 :: 1 :: rest))) [] (0 :: 1 :: 0 :: 1 :: rest) [] Hl) as E.
  cbn [app] in E. change (zlen []) with 0 in E. fold names in E. rewrite E by (rewrite length_app; simpl; lia). clear E.
  cbn [mbind option_bind]. rewrite zlen_app, !zlen_cons. pose proof (zlen_nonneg rest). pose proof (zlen_nonneg names).
  destruct (Z.ltb_spec (zlen names + (1 + (1 + (1 + (1 + (1 + zlen rest)))))) (0 + zlen names + 1 + 4)); [lia |].
  replace (names ++ 0 :: 0 :: 1 :: 0 :: 1 :: rest) with ((names ++ [0]) ++ 0 :: 1 :: 0 :: 1 :: rest) by (by rewrite <- app_assoc).
  rewrite !index_app_r by (rewrite zlen_app; unfold zlen; simpl; lia).
  replace (0 + zlen names + 1 - zlen (names ++ [0])) with 0 by (rewrite zlen_app; unfold zlen; simpl; lia).
  replace (0 + zlen names + 1 + 1 - zlen (names ++ [0])) with 1 by (rewrite zlen_app; unfold zlen; simpl; lia).
  replace (0 + zlen names + 1 + 2 - zlen (names ++ [0])) with 2 by (rewrite zlen_app; unfold zlen; simpl; lia).
  replace (0 + zlen names + 1 + 3 - zlen (names ++ [0])) with 3 by (rewrite zlen_app; unfold zlen; simpl; lia).
  rewrite index_0, index_1, index_2, index_3. cbn [mbind option_bind app].
  destruct (Z.ltb_spec MAX_DOMAIN_LEN (zlen (join (str ".") labels))); [lia |].
  do 3 f_equal. rewrite zlen_app. unfold zlen. simpl. lia.
Qed.

Lemma query_parts (q : bytes) :
  12 <= zlen q ->
  exists a b f1 f2 c1 c2 counts data, q = [a; b; f1; f2; c1; c2] ++ counts ++ data /\ zlen counts = 6.
Proof.
  intros Hq. unfold zlen in Hq.
  do 12 (destruct q as [| ? q]; [simpl in Hq; lia |]). eexists _, _, _, _, _, _, [_; _; _; _; _; _], q. split; [reflexivity | done].
Qed.

Lemma be16_surj a b : is_byte a -> is_byte b -> be16 (from_be16 a b) = [a; b].
Proof. unfold is_byte, be16, from_be16. intros. change (2 ^ 8) with 256. repeat f_equal; divmod. Qed.

Lemma response_bytes a b question ip :
  is_byte a -> is_byte b ->
  build_dns_response (from_be16 a b) question ip =
  [a; b; 0x81; 0x80; 0; 1; 0; 1; 0; 0; 0; 0] ++ question ++ [0xC0; 0x0C; 0; 1; 0; 1; 0; 0; 0; 60; 0; 4] ++ v4_octets ip.
Proof. intros Ha Hb. unfold build_dns_response. by rewrite be16_surj. Qed.

(** [handle_query] on a packet in parts. *)
Lemma handle_query_parts (UC : UnicodeCase) now f a b f1 f2 c1 c2 counts data :
  zlen counts = 6 -> is_byte a -> is_byte b ->
  let q := [a; b; f1; f2; c1; c2] ++ counts ++ data in
  handle_query now f q =
  if negb (Z.land (from_be16 f1 f2) 0xF800 =? 0) then Some (f, None)
  else if from_be16 c1 c2 =? 0 then Some (f, None)
  else
    r ← parse_dns_question data;
    match r with
    | None => Some (f, None)
    | Some (domain, qtype, qclass, qend) =>
        if negb (qtype =? 1) || negb (qclass =? 1) then Some (f, None)
        else
          let '(f, ip) := allocate now f domain in
          question ← slice data 0 qend;
          Some (f, Some ([a; b; 0x81; 0x80; 0; 1; 0; 1; 0; 0; 0; 0] ++ question ++
                         [0xC0; 0x0C; 0; 1; 0; 1; 0; 0; 0; 60; 0; 4] ++ v4_octets ip, ip))
    end.
Proof.
  intros Hc Ha Hb q. unfold handle_query.
  assert (Hq : q = (([a; b; f1; f2; c1; c2] ++ counts) ++ data)) by by rewrite <- app_assoc.
  assert (H12 : zlen ([a; b; f1; f2; c1; c2] ++ counts) = 12) by (rewrite zlen_app, Hc; done).
  pose proof (zlen_nonneg data).
  assert (Hlen : zlen q = 12 + zlen data) by (rewrite Hq, zlen_app, H12; lia).
  assert (Hsl : slice q 12 (zlen q) = Some data).
  { rewrite Hq. apply slice_app_end; [done |]. by rewrite zlen_app, H12. }
  rewrite Hsl, Hlen. destruct (Z.ltb_spec (12 + zlen data) 12); [lia |].
  assert (Hidx : index q 0 = Some a /\ index q 1 = Some b /\ index q 2 = Some f1 /\ index q 3 = Some f2 /\
    index q 4 = Some c1 /\ index q 5 = Some c2).
  { unfold q. cbn [app]. by rewrite index_0, index_1, index_2, index_3, index_4, index_5. }
  destruct Hidx as (-> & -> & -> & -> & -> & ->). cbn [mbind option_bind]. case_cmp; [done |]. case_cmp; [done |].
  destruct (parse_dns_question data) as [[[[[d t] c] qend] |] |]; [| done | done]. cbn [mbind option_bind].
  case_cmp; [done |]. destruct (allocate now f d) as [g ip].
  assert (Hqs : slice q 12 (qend + 12) = slice data 0 qend).
  { rewrite Hq, <- (slice_shift ([a; b; f1; f2; c1; c2] ++ counts) data 0 qend), H12 by lia. f_equal; lia. }
  rewrite Hqs. destruct (slice data 0 qend) as [question |]; [| done]. cbn [mbind option_bind].
  by rewrite response_bytes.
Qed.

(** The datagram is never the end of the resolver, and an answer is one to its
    question. *)
Lemma handle_query_total (UC : UnicodeCase) now f q :
  bytes_ok q ->
  exists g r, handle_query now f q = Some (g, r) /\
  match r with
  | None => g = f
  | Some (resp, ip) =>
      exists domain question rest a b hdr, q = [a; b] ++ hdr ++ question ++ rest /\ zlen hdr = 10 /\
        (g, ip) = allocate now f domain /\ zlen domain <= MAX_DOMAIN_LEN /\
        resp = [a; b; 0x81; 0x80; 0; 1; 0; 1; 0; 0; 0; 0] ++ question ++
               [0xC0; 0x0C; 0; 1; 0; 1; 0; 0; 0; 60; 0; 4] ++ v4_octets ip
  end.
Proof.
  intros Hq. destruct (Z.lt_ge_cases (zlen q) 12) as [Hlt | Hge].
  { exists f, None. unfold handle_query. by destruct (Z.ltb_spec (zlen q) 12); [| lia]. }
  destruct (query_parts q Hge) as (a & b & f1 & f2 & c1 & c2 & counts & data & -> & Hc).
  pose proof Hq as Hdata. unfold bytes_ok in Hq, Hdata. rewrite !Forall_app in Hdata. destruct Hdata as (Hh & _ & Hdata).
  apply Forall_cons in Hh as [Ha [Hb _]%Forall_cons].
  rewrite handle_query_parts by done. case_cmp; [by exists f, None |]. case_cmp; [by exists f, None |].
  destruct (parse_question_total data Hdata) as (r & -> & Hr). cbn [mbind option_bind].
  destruct r as [[[[d t] c] qend] |]; [| by exists f, None]. case_cmp; [by exists f, None |].
  destruct (allocate now f d) as [g ip] eqn:Ea. destruct Hr as [Hd Hend]. rewrite slice_some by lia.
  cbn [mbind option_bind]. eexists g, (Some (_, ip)). split; [reflexivity |].
  exists d, (ztake qend data), (zdrop qend data), a, b, ([f1; f2; c1; c2] ++ counts). split_and!.
  - by rewrite ztake_zdrop, <- app_assoc.
  - by rewrite zlen_app, Hc.
  - by rewrite Ea.
  - done.
  - rewrite Z.sub_0_r. reflexivity.
Qed.

(** a datagram on the DNS port never makes the resolver panic; without an
    answer nothing changes. An answer is one to the question of the query: the
    query's id, one question copied from it, and one A record of sixty seconds
    with the address that [allocate] gave to a name of at most 255 bytes. And
    every standard query whose first question asks for the A record of a name of
    UTF-8 labels that fits a Connect frame is answered, for exactly that name,
    whatever follows the question. *)
Theorem fake_dns_query (UC : UnicodeCase) now f :
  (forall q, bytes_ok q ->
     exists g r, handle_query now f q = Some (g, r) /\
     match r with
     | None => g = f
     | Some (resp, ip) =>
         exists domain question rest a b hdr, q = [a; b] ++ hdr ++ question ++ rest /\ zlen hdr = 10 /\
           (g, ip) = allocate now f domain /\ zlen domain <= MAX_DOMAIN_LEN /\
           resp = [a; b; 0x81; 0x80; 0; 1; 0; 1; 0; 0; 0; 0] ++ question ++
                  [0xC0; 0x0C; 0; 1; 0; 1; 0; 0; 0; 60; 0; 4] ++ v4_octets ip
     end) /\
  (forall a b f1 f2 c1 c2 counts labels rest,
     bytes_ok [a; b] -> Z.land (from_be16 f1 f2) 0xF800 = 0 -> from_be16 c1 c2 <> 0 -> zlen counts = 6 ->
     Forall dns_label_ok labels -> zlen (join (str ".") labels) <= MAX_DOMAIN_LEN ->
     let '(g, ip) := allocate now f (join (str ".") labels) in
     handle_query now f ([a; b; f1; f2; c1; c2] ++ counts ++ encode_question labels ++ rest) =
     Some (g, Some ([a; b; 0x81; 0x80; 0; 1; 0; 1; 0; 0; 0; 0] ++ encode_question labels ++
                    [0xC0; 0x0C; 0; 1; 0; 1; 0; 0; 0; 60; 0; 4] ++ v4_octets ip, ip))).
Proof.
  split.
  - apply handle_query_total.
  - intros a b f1 f2 c1 c2 counts labels rest Hab Hflags Hcnt Hc Hl Hd.
    apply Forall_cons in Hab as [Ha [Hb _]%Forall_cons].
    destruct (allocate now f (join (str ".") labels)) as [g ip] eqn:Ea.
    rewrite handle_query_parts by done. rewrite Hflags. cbn [Z.eqb negb].
    destruct (Z.eqb_spec (from_be16 c1 c2) 0); [done |].
    rewrite parse_question_encoded by done. cbn [mbind option_bind]. rewrite !Z.eqb_refl. cbn [negb orb].
    rewrite Ea. change (encode_question labels ++ rest) with ([] ++ encode_question labels ++ rest).
    rewrite slice_app; [done | done | by rewrite Z.add_0_l].
Qed.

(** ** Witnesses *)

(** A pool of two addresses after two names and a lookup of the first. *)
Definition ex_dns0 : FakeDns := FakeDns_build DEFAULT_TTL 2 (Some []).
Definition ex_dns : FakeDns :=
  @dns_op ascii_case 3 (DLookup (FAKE_IP_BASE + 1))
    (@dns_op ascii_case 2 (DAllocate (str "B.example")) (@dns_op ascii_case 1 (DAllocate (str "a.Example")) ex_dns0)).

Lemma ex_dns_reachable : @dns_reachable ascii_case ex_dns0 0 3 ex_dns.
Proof.
  apply (dr_op ex_dns0 0 2); [| lia]. apply (dr_op ex_dns0 0 1); [| lia]. apply (dr_op ex_dns0 0 0); [| lia]. apply dr_new.
Qed.


(** The second name was not used since; it gives way. *)
Lemma fake_dns_allocate_witness :
  (@allocate ascii_case 3 ex_dns (str "c.example")).2 = FAKE_IP_BASE + 2 /\
  (FakeDns_lookup 1000 (@allocate ascii_case 3 ex_dns (str "c.example")).1 (FAKE_IP_BASE + 1)).2 = Some (str "a.example") /\
  stats (@allocate ascii_case 3 ex_dns (str "c.example")).1 = Some [str
    "fake DNS: свободных адресов не осталось, b.example (198.18.0.2) вытеснен под c.example, запрос приложения на этот адрес уйдёт не туда"].
Proof.
  split_and!; [vm_compute; reflexivity | | vm_compute; reflexivity].
  destruct (@fake_dns_allocate ascii_case DEFAULT_TTL 2 (Some []) 0 3 ex_dns (str "c.example") ex_dns_reachable ltac:(done))
    as (_ & _ & _ & H & _).
  refine (H (FAKE_IP_BASE + 1) {| entry_domain := str "a.example"; created := 1; last_used := 3 |} _ _ 1000 _).
  - split; vm_compute; reflexivity.
  - vm_compute. discriminate.
  - vm_compute. split; congruence.
Defined.

Lemma fake_dns_query_witness :
  exists g ip, @handle_query ascii_case 3 ex_dns
    ([7; 8; 1; 0; 0; 1] ++ [0; 0; 0; 0; 0; 0] ++ encode_question [str "mail"; str "example"] ++ []) =
  Some (g, Some ([7; 8; 0x81; 0x80; 0; 1; 0; 1; 0; 0; 0; 0] ++ encode_question [str "mail"; str "example"] ++
                 [0xC0; 0x0C; 0; 1; 0; 1; 0; 0; 0; 60; 0; 4] ++ v4_octets ip, ip)).
Proof.
  destruct (@fake_dns_query ascii_case 3 ex_dns) as [_ H].
  specialize (H 7 8 1 0 0 1 [0; 0; 0; 0; 0; 0] [str "mail"; str "example"] []).
  destruct (@allocate ascii_case 3 ex_dns (join (str ".") [str "mail"; str "example"])) as [g ip].
  exists g, ip. refine (H _ _ _ _ _ _).
  - apply (bool_decide_unpack _). reflexivity.
  - reflexivity.
  - discriminate.
  - reflexivity.
  - repeat (apply Forall_cons; split; [split; [vm_compute; split; reflexivity | reflexivity] |]). by apply Forall_nil.
  - vm_compute. discriminate.
Defined.
