(* ===== verification/UdpServer.v ===== *)
(** * The UDP relay of the server (xr-server/src/udp_relay.rs)

    The table of flows and the task of each flow. A flow is a bounded queue with
    one task that owns its socket; a task steps between two [await]s, and what it
    waited for is the argument of the step. Stretches under the lock of the table
    hold no [await], so they are single steps. Two histories, of the packets put
    into a queue and of those handed to a socket, are kept for the theorems. *)

From S2P Require Import Prelude Text Net Obfuscation UdpRelay Chan.

Definition FLOW_QUEUE : Z := 64.

Record FlowPacket := { fp_dst : SocketAddr; fp_payload : bytes }.

(** The peer of the tunnel and its source port. *)
Abbreviation FlowKey := (SocketAddr * Z)%type.

(** Where the task of a flow is: binding its socket, about to leave after a
    failed bind, in its [select], about to leave after the idle timeout, sending
    a packet out, or sending an answer back. *)
Inductive FlowPc :=
| FBind
| FBindFailed
| FLoop
| FIdle
| FSend (p : FlowPacket)
| FReply (from : SocketAddr) (data : bytes).

(** [outbox] is what went out on the relay socket, with the flow it is an answer
    of. *)
Record ServerState := {
  flows : gmap FlowKey nat;
  chans : gmap nat (Chan FlowPacket);
  tasks : gmap nat (FlowKey * FlowPc);
  next_flow : nat;
  outbox : list (option nat * SocketAddr * bytes);
  accepted : list (nat * (FlowKey * FlowPacket));
  sent : list (nat * FlowPacket)
}.

Definition ServerState_new : ServerState :=
  {| flows := ∅; chans := ∅; tasks := ∅; next_flow := 0; outbox := []; accepted := []; sent := [] |}.

Definition set_flow_task (s : ServerState) (c : nat) (k : FlowKey) (pc : FlowPc) : ServerState :=
  {| flows := flows s; chans := chans s; tasks := <[c := (k, pc)]> (tasks s); next_flow := next_flow s;
     outbox := outbox s; accepted := accepted s; sent := sent s |}.

Definition set_chan (s : ServerState) (c : nat) (ch : Chan FlowPacket) : ServerState :=
  {| flows := flows s; chans := <[c := ch]> (chans s); tasks := tasks s; next_flow := next_flow s;
     outbox := outbox s; accepted := accepted s; sent := sent s |}.

Definition log_accepted (s : ServerState) (c : nat) (k : FlowKey) (p : FlowPacket) : ServerState :=
  {| flows := flows s; chans := chans s; tasks := tasks s; next_flow := next_flow s;
     outbox := outbox s; accepted := accepted s ++ [(c, (k, p))]; sent := sent s |}.

Definition socket_send (s : ServerState) (c : nat) (p : FlowPacket) : ServerState :=
  {| flows := flows s; chans := chans s; tasks := tasks s; next_flow := next_flow s;
     outbox := outbox s; accepted := accepted s; sent := sent s ++ [(c, p)] |}.

Definition relay_send (s : ServerState) (c : option nat) (to : SocketAddr) (wire : bytes) : ServerState :=
  {| flows := flows s; chans := chans s; tasks := tasks s; next_flow := next_flow s;
     outbox := outbox s ++ [(c, to, wire)]; accepted := accepted s; sent := sent s |}.

(** A new queue in the table, and its task. *)
Definition new_flow (s : ServerState) (k : FlowKey) : ServerState :=
  {| flows := <[k := next_flow s]> (flows s); chans := <[next_flow s := channel FLOW_QUEUE]> (chans s);
     tasks := <[next_flow s := (k, FBind)]> (tasks s); next_flow := S (next_flow s);
     outbox := outbox s; accepted := accepted s; sent := sent s |}.

(** The task removes its key from the table and ends; its receiver goes with it,
    and with the slot the last sender. *)
Definition end_flow (s : ServerState) (c : nat) (k : FlowKey) : ServerState :=
  {| flows := delete k (flows s); chans := alter (fun ch => drop_tx (drop_rx ch)) c (chans s);
     tasks := delete c (tasks s); next_flow := next_flow s;
     outbox := outbox s; accepted := accepted s; sent := sent s |}.

(** The task returns without touching the table. *)
Definition leave_flow (s : ServerState) (c : nat) : ServerState :=
  {| flows := flows s; chans := alter drop_rx c (chans s); tasks := delete c (tasks s); next_flow := next_flow s;
     outbox := outbox s; accepted := accepted s; sent := sent s |}.

Definition handle_data_packet (s : ServerState) (peer : SocketAddr) (packet : RelayPacket) : ServerState :=
  let key := (peer, src_port packet) in
  let queued := {| fp_dst := dst packet; fp_payload := relay_payload packet |} in
  let '(s, c) := match flows s !! key with
                 | Some c => (s, c)
                 | None => (new_flow s key, next_flow s)
                 end in
  match chans s !! c with
  | None => s
  | Some ch =>
      match try_send ch queued with
      | Sent ch => log_accepted (set_chan s c ch) c key queued
      | _ => s
      end
  end.

Section steps.
Context {AR : Arch} (o : Obfuscator).

(** [nonce] is the draw of the reply. *)
Definition handle_datagram (nonce : Z) (s : ServerState) (peer : SocketAddr) (data : bytes) : option ServerState :=
  r ← decode_relay_packet o data;
  match r with
  | None => Some s
  | Some packet =>
      match relay_type packet with
      | RKeepalive => Some (relay_send s None peer (encode_keepalive o nonce))
      | RData => Some (handle_data_packet s peer packet)
      | RBindPort => Some s
      end
  end.

(** What a task waited for. *)
Inductive FlowIn :=
| BindOk
| BindErr
| Queued
| Received (from : SocketAddr) (data : bytes)
| RecvErr
| IdleTimeout
| Locked
| SendDone.

(** One step of the task of flow [c]; what it does not wait for changes nothing. *)
Definition flow_step (nonce : Z) (s : ServerState) (c : nat) (i : FlowIn) : ServerState :=
  match tasks s !! c, chans s !! c with
  | Some (key, pc), Some ch =>
      match pc, i with
      | FBind, BindOk => set_flow_task s c key FLoop
      | FBind, BindErr => set_flow_task s c key FBindFailed
      | FBindFailed, Locked => end_flow s c key
      | FLoop, Queued =>
          match poll_recv ch with
          | Msg p ch => set_flow_task (set_chan s c ch) c key (FSend p)
          | Ended => leave_flow s c
          | Pending => s
          end
      | FLoop, Received from data =>
          if zlen data =? 0 then s else set_flow_task s c key (FReply from data)
      | FLoop, RecvErr => s
      | FLoop, IdleTimeout => set_flow_task s c key FIdle
      | FIdle, Locked =>
          match poll_recv ch with
          | Msg p ch => set_flow_task (set_chan s c ch) c key (FSend p)
          | _ => end_flow s c key
          end
      | FSend p, SendDone => set_flow_task (socket_send s c p) c key FLoop
      | FReply from data, SendDone =>
          let response := {| relay_type := RData; dst := from; src_port := key.2; relay_payload := data |} in
          set_flow_task (relay_send s (Some c) key.1 (encode_relay_packet o nonce response)) c key FLoop
      | _, _ => s
      end
  | _, _ => s
  end.

(** ** The socket of a flow *)

(** [bind_source_port]: the wanted port, then the ten after it. *)
Fixpoint try_nearby {S : Type} (bind : Z -> io_result S) (port : Z) (offsets : list Z) : option S :=
  match offsets with
  | [] => None
  | off :: rest =>
      let try_port := u16 (port + off) in
      if try_port =? 0 then try_nearby bind port rest
      else match bind try_port with
           | Ok sock => Some sock
           | Err _ => try_nearby bind port rest
           end
  end.

Definition bind_source_port {S : Type} (bind : Z -> io_result S) (port : Z) : io_result S :=
  match bind port with
  | Ok sock => Ok sock
  | Err e =>
      match try_nearby bind port [1; 2; 3; 4; 5; 6; 7; 8; 9; 10] with
      | Some sock => Ok sock
      | None => Err e
      end
  end.

(** ** Runs *)

Inductive udp_step (s : ServerState) : ServerState -> Prop :=
| us_datagram nonce peer data s' : handle_datagram nonce s peer data = Some s' -> udp_step s s'
| us_flow nonce c i : udp_step s (flow_step nonce s c i).

Inductive udp_reachable : ServerState -> Prop :=
| ur_new : udp_reachable ServerState_new
| ur_step s s' : udp_reachable s -> udp_step s s' -> udp_reachable s'.

End steps.

(** ** The invariant *)

(** The part of a history that belongs to flow [c]. *)
Definition of_flow {A} (c : nat) (l : list (nat * A)) : list A :=
  omap (fun x => if decide (x.1 = c) then Some x.2 else None) l.

Definition answers_of (c : nat) (l : list (option nat * SocketAddr * bytes)) : list SocketAddr :=
  omap (fun x => if decide (x.1.1 = Some c) then Some x.1.2 else None) l.

Lemma of_flow_snoc {A} c c' (x : A) l :
  of_flow c (l ++ [(c', x)]) = of_flow c l ++ (if decide (c' = c) then [x] else []).
Proof. unfold of_flow. rewrite omap_app. simpl. by case_decide. Qed.

Lemma answers_of_snoc c oc to w l :
  answers_of c (l ++ [(oc, to, w)]) = answers_of c l ++ (if decide (oc = Some c) then [to] else []).
Proof. unfold answers_of. rewrite omap_app. simpl. by case_decide. Qed.

Definition in_hand (pc : FlowPc) : list FlowPacket := match pc with FSend p => [p] | _ => [] end.

Definition unbound (pc : FlowPc) : bool := match pc with FBind | FBindFailed => true | _ => false end.

(** What holds of one flow: its task and queue, the packets it took, those it sent
    on, and where its answers went. *)
Definition flow_inv (t : option (FlowKey * FlowPc)) (ch : option (Chan FlowPacket))
    (acc : list (FlowKey * FlowPacket)) (snt : list FlowPacket) (outs : list SocketAddr) : Prop :=
  match t with
  | Some (k, pc) =>
      Forall (fun x => x.1 = k) acc /\ Forall (fun to => to = k.1) outs /\
      (exists q, ch = Some {| queue := q; cap := FLOW_QUEUE; rx_gone := false; tx_gone := false |} /\
         zlen q <= FLOW_QUEUE /\ acc.*2 = snt ++ in_hand pc ++ q) /\
      (unbound pc = true -> snt = [])
  | None =>
      (acc.*2 = snt \/ snt = []) /\
      (exists k : FlowKey, Forall (fun x => x.1 = k) acc /\ Forall (fun to => to = k.1) outs)
  end.

Definition flow_of (s : ServerState) (c : nat) : Prop :=
  flow_inv (tasks s !! c) (chans s !! c) (of_flow c (accepted s)) (of_flow c (sent s)) (answers_of c (outbox s)).

Record udp_inv (s : ServerState) : Prop := {
  ui_table : forall k c, flows s !! k = Some c -> exists pc, tasks s !! c = Some (k, pc);
  ui_tasks : forall c k pc, tasks s !! c = Some (k, pc) -> flows s !! k = Some c;
  ui_flow : forall c, flow_of s c;
  ui_fresh : forall c, (next_flow s <= c)%nat -> tasks s !! c = None /\
    of_flow c (accepted s) = [] /\ of_flow c (sent s) = [] /\ answers_of c (outbox s) = []
}.

(** A step that concerns flow [c] only. *)
Record only (c : nat) (s s' : ServerState) : Prop := {
  on_next : next_flow s' = next_flow s;
  on_tasks : forall c', c' <> c -> tasks s' !! c' = tasks s !! c';
  on_chans : forall c', c' <> c -> chans s' !! c' = chans s !! c';
  on_acc : forall c', c' <> c -> of_flow c' (accepted s') = of_flow c' (accepted s);
  on_sent : forall c', c' <> c -> of_flow c' (sent s') = of_flow c' (sent s);
  on_out : forall c', c' <> c -> answers_of c' (outbox s') = answers_of c' (outbox s)
}.

Lemma only_flows c s s' : only c s s' -> (forall c, flow_of s c) -> flow_of s' c -> forall c', flow_of s' c'.
Proof.
  intros [] Hf Hc c'. destruct (decide (c' = c)) as [-> | Hne]; [done |]. unfold flow_of.
  rewrite on_tasks0, on_chans0, on_acc0, on_sent0, on_out0 by done. apply Hf.
Qed.

(** The task of [c] goes on in another state. *)
Lemma udp_inv_move s s' c k pc pc' :
  udp_inv s -> only c s s' -> tasks s !! c = Some (k, pc) -> tasks s' !! c = Some (k, pc') -> flows s' = flows s ->
  flow_of s' c -> udp_inv s'.
Proof.
  intros [H1 H2 H3 H4] Ho Ht Ht' Hfl Hc. split.
  - intros k1 c1. rewrite Hfl. intros Hk. destruct (H1 _ _ Hk) as [pc1 Hp]. destruct (decide (c1 = c)) as [-> | Hne].
    + exists pc'. congruence.
    + exists pc1. by rewrite (on_tasks _ _ _ Ho).
  - intros c1 k1 pc1. rewrite Hfl. destruct (decide (c1 = c)) as [-> | Hne].
    + intros E. apply (H2 c k pc) in Ht. congruence.
    + rewrite (on_tasks _ _ _ Ho) by done. apply H2.
  - by apply (only_flows c s s').
  - intros c1. rewrite (on_next _ _ _ Ho). intros Hc1.
    assert (Hne : c1 <> c) by (intros ->; destruct (H4 c Hc1); congruence).
    rewrite (on_tasks _ _ _ Ho), (on_acc _ _ _ Ho), (on_sent _ _ _ Ho), (on_out _ _ _ Ho) by done. by apply H4.
Qed.

(** The task of [c] ends and takes its key out of the table. *)
Lemma udp_inv_end s s' c k pc :
  udp_inv s -> only c s s' -> tasks s !! c = Some (k, pc) -> tasks s' !! c = None -> flows s' = delete k (flows s) ->
  flow_of s' c -> udp_inv s'.
Proof.
  intros [H1 H2 H3 H4] Ho Ht Ht' Hfl Hc. split.
  - intros k1 c1. rewrite Hfl. intros [Hne Hk]%lookup_delete_Some. destruct (H1 _ _ Hk) as [pc1 Hp]. exists pc1.
    rewrite (on_tasks _ _ _ Ho); [done |]. congruence.
  - intros c1 k1 pc1 Hc1. assert (Hne : c1 <> c) by congruence. rewrite (on_tasks _ _ _ Ho) in Hc1 by done.
    apply H2 in Hc1. rewrite Hfl. apply lookup_delete_Some. split; [| done]. intros <-. apply H2 in Ht. congruence.
  - by apply (only_flows c s s').
  - intros c1. rewrite (on_next _ _ _ Ho). intros Hc1.
    assert (Hne : c1 <> c) by (intros ->; destruct (H4 c Hc1); congruence).
    rewrite (on_tasks _ _ _ Ho), (on_acc _ _ _ Ho), (on_sent _ _ _ Ho), (on_out _ _ _ Ho) by done. by apply H4.
Qed.

Ltac only_tac :=
  split; simpl; intros; rewrite ?lookup_insert_ne, ?lookup_alter_ne, ?lookup_delete_ne, ?of_flow_snoc, ?answers_of_snoc
    by congruence; rewrite ?decide_False by congruence; rewrite ?app_nil_r; done.

Section invariant.
Context {AR : Arch} (o : Obfuscator).

Lemma flow_step_inv nonce s c i : udp_inv s -> udp_inv (flow_step o nonce s c i).
Proof.
  intros Hs. unfold flow_step. destruct (tasks s !! c) as [[k pc] |] eqn:Et; [| done].
  pose proof (ui_flow _ Hs c) as Hf. unfold flow_of in Hf. rewrite Et in Hf.
  destruct Hf as (Hkeys & Houts & (q & Hch & Hq & Hacc) & Hun). rewrite Hch.
  assert (Hgo : forall pc', in_hand pc' = in_hand pc -> (unbound pc' = true -> unbound pc = true) ->
    udp_inv (set_flow_task s c k pc')).
  { intros pc' Hh Hu. eapply (udp_inv_move s _ c k pc pc'); try done; [only_tac | apply lookup_insert_eq |].
    unfold flow_of. simpl. rewrite lookup_insert_eq, Hch. split_and!; [done | done | | auto].
    exists q. by rewrite Hh. }
  assert (Htake : forall p q', q = p :: q' -> in_hand pc = [] ->
    udp_inv (set_flow_task (set_chan s c (with_queue {| queue := q; cap := FLOW_QUEUE; rx_gone := false; tx_gone := false |} q'))
      c k (FSend p))).
  { intros p q' -> Hh. eapply (udp_inv_move s _ c k pc (FSend p)); try done; [only_tac | apply lookup_insert_eq |].
    unfold flow_of. simpl. rewrite !lookup_insert_eq. split_and!; [done | done | | done].
    exists q'. split_and!; [done | rewrite zlen_cons in Hq; lia |]. by rewrite Hacc, Hh. }
  assert (Hend : (q = [] /\ in_hand pc = [] \/ unbound pc = true) -> udp_inv (end_flow s c k)).
  { intros Hdone. eapply (udp_inv_end s _ c k pc); try done; [only_tac | apply lookup_delete_eq |].
    unfold flow_of. simpl. rewrite lookup_delete_eq. split; [| by exists k].
    destruct Hdone as [[-> Hh] | Hu]; [left | right; auto]. by rewrite Hacc, Hh, app_nil_r. }
  destruct pc as [| | | | p | from data], i; try done; try (by apply Hgo).
  - apply Hend. by right.
  - destruct q as [| p q']; [done |]. by apply Htake.
  - case_cmp; [done | by apply Hgo].
  - destruct q as [| p q']; [apply Hend; by left | by apply Htake].
  - eapply (udp_inv_move s _ c k (FSend p) FLoop); try done; [only_tac | apply lookup_insert_eq |].
    unfold flow_of. simpl. rewrite lookup_insert_eq, Hch, of_flow_snoc, decide_True by done.
    split_and!; [done | done | | done]. exists q. split_and!; [done | done |]. rewrite Hacc. simpl. by rewrite <- app_assoc.
  - eapply (udp_inv_move s _ c k (FReply from data) FLoop); try done; [only_tac | apply lookup_insert_eq |].
    unfold flow_of. simpl. rewrite lookup_insert_eq, Hch, answers_of_snoc, decide_True by done.
    split_and!; [done | | | done].
    + apply Forall_app. split; [done | by apply Forall_singleton].
    + by exists q.
Qed.

Lemma new_flow_inv s k : udp_inv s -> flows s !! k = None -> udp_inv (new_flow s k).
Proof.
  intros Hs Hk. destruct (ui_fresh _ Hs (next_flow s) ltac:(lia)) as (Hnt & Hna & Hns & Hno). split; simpl.
  - intros k1 c1 [[<- <-] | [Hne Hk1]]%lookup_insert_Some; [exists FBind; apply lookup_insert_eq |].
    destruct (ui_table _ Hs _ _ Hk1) as [pc1 Hp]. exists pc1. rewrite lookup_insert_ne; [done |]. congruence.
  - intros c1 k1 pc1 [[<- [= <- <-]] | [Hne Hc1]]%lookup_insert_Some; [apply lookup_insert_eq |].
    apply (ui_tasks _ Hs) in Hc1. rewrite lookup_insert_ne; [done |]. congruence.
  - intros c1. unfold flow_of. simpl. destruct (decide (c1 = next_flow s)) as [-> | Hne].
    + rewrite !lookup_insert_eq, Hna, Hns, Hno. split_and!; [constructor | constructor | | done].
      exists []. split_and!; [done | done | done].
    + rewrite !lookup_insert_ne by done. apply (ui_flow _ Hs).
  - intros c1 Hc1. rewrite lookup_insert_ne by lia. apply (ui_fresh _ Hs). lia.
Qed.

(** A packet joins the flow of its sender and port, new or known, unless that
    flow's queue is full. *)
Lemma handle_data_packet_spec s peer pk :
  udp_inv s ->
  let key := (peer, src_port pk) in
  let s' := handle_data_packet s peer pk in
  udp_inv s' /\
  exists c pc, flows s' !! key = Some c /\ tasks s' !! c = Some (key, pc) /\
    (flows s !! key = None -> c = next_flow s /\ pc = FBind) /\
    (accepted s' = accepted s ++ [(c, (key, {| fp_dst := dst pk; fp_payload := relay_payload pk |}))] \/
     s' = s /\ exists ch, chans s !! c = Some ch /\ zlen (queue ch) = FLOW_QUEUE).
Proof.
  intros Hs key s'. set (queued := {| fp_dst := dst pk; fp_payload := relay_payload pk |}).
  (* the flow the packet goes to *)
  set (sc := match flows s !! key with Some c => (s, c) | None => (new_flow s key, next_flow s) end).
  assert (Hsc : udp_inv sc.1 /\ flows sc.1 !! key = Some sc.2 /\ accepted sc.1 = accepted s /\
    (flows s !! key = None -> sc.2 = next_flow s /\ tasks sc.1 !! sc.2 = Some (key, FBind) /\
       chans sc.1 !! sc.2 = Some (channel FLOW_QUEUE)) /\
    (flows s !! key <> None -> sc.1 = s)).
  { unfold sc. destruct (flows s !! key) as [c |] eqn:Ek; cbn [fst snd].
    - by split_and!.
    - split_and!; [by apply new_flow_inv | apply lookup_insert_eq | done | | done].
      intros _. simpl. by rewrite !lookup_insert_eq. }
  assert (E : s' = match chans sc.1 !! sc.2 with
    | None => sc.1
    | Some ch => match try_send ch queued with
                 | Sent ch => log_accepted (set_chan sc.1 sc.2 ch) sc.2 key queued
                 | _ => sc.1 end end).
  { unfold s', handle_data_packet, sc. fold key queued. by destruct (flows s !! key). }
  clearbody sc. destruct sc as [s1 c]. cbn [fst snd] in *. destruct Hsc as (H1 & Hfl & Hacc1 & Hnew & Hold).
  destruct (ui_table _ H1 _ _ Hfl) as [pc Ht].
  pose proof (ui_flow _ H1 c) as Hf. unfold flow_of in Hf. rewrite Ht in Hf.
  destruct Hf as (Hkeys & Houts & (q & Hch & Hq & Hacc) & Hun).
  assert (Hpc : flows s !! key = None -> c = next_flow s /\ pc = FBind).
  { intros Hn. destruct (Hnew Hn) as (-> & Ht' & _). split; [done | congruence]. }
  rewrite Hch in E. unfold try_send in E. cbn [rx_gone queue cap] in E.
  destruct (Z.ltb_spec (zlen q) FLOW_QUEUE) as [Hlt | Hge].
  - rewrite E. split.
    + eapply (udp_inv_move s1 _ c key pc pc); try done; [only_tac |].
      unfold flow_of. simpl. rewrite Ht, lookup_insert_eq, of_flow_snoc, decide_True by done.
      split_and!; [| done | | done].
      * apply Forall_app. split; [done | by apply Forall_singleton].
      * exists (q ++ [queued]). split_and!; [done | rewrite zlen_app; unfold zlen in *; simpl; lia |].
        rewrite fmap_app, Hacc. simpl. by rewrite <- !app_assoc.
    + exists c, pc. split_and!; [done | done | done |]. left. simpl. by rewrite Hacc1.
  - rewrite E. split; [done |]. exists c, pc. split_and!; [done | done | done |]. right.
    destruct (flows s !! key) as [c0 |] eqn:Ek.
    + rewrite (Hold ltac:(done)) in *. split; [done |]. eexists. split; [exact Hch |]. simpl. lia.
    + destruct (Hnew eq_refl) as (_ & _ & Hch'). rewrite Hch in Hch'. injection Hch' as Hq0. subst q.
      unfold zlen, FLOW_QUEUE in Hge. simpl in Hge. lia.
Qed.

Lemma keepalive_inv s to w : udp_inv s -> udp_inv (relay_send s None to w).
Proof.
  intros [H1 H2 H3 H4].
  assert (Ha : forall c, answers_of c (outbox s ++ [(None, to, w)]) = answers_of c (outbox s)).
  { intros c. rewrite answers_of_snoc, decide_False by done. apply app_nil_r. }
  split; simpl; [done | done | |].
  - intros c. unfold flow_of. simpl. rewrite Ha. apply H3.
  - intros c. rewrite Ha. apply H4.
Qed.

Lemma handle_datagram_inv nonce s peer data s' :
  udp_inv s -> handle_datagram o nonce s peer data = Some s' -> udp_inv s'.
Proof.
  intros Hs. unfold handle_datagram. destruct (decode_relay_packet o data) as [[pk |] |]; cbn [mbind option_bind];
    [| by intros [= <-] | done].
  destruct (relay_type pk); intros [= <-]; [by apply handle_data_packet_spec | by apply keepalive_inv | done].
Qed.

Lemma udp_reachable_inv s : udp_reachable o s -> udp_inv s.
Proof.
  induction 1 as [| s s' _ IH Hstep].
  - split; [done | done | | done]. intros c. split; [by left |]. exists (SockV4 0 0, 0). split; constructor.
  - destruct Hstep; [by eapply handle_datagram_inv | by apply flow_step_inv].
Qed.

(** A task ends after a failed bind, or with everything it took handed on. *)
Lemma flow_step_ends nonce s c i k pc :
  udp_inv s -> tasks s !! c = Some (k, pc) -> tasks (flow_step o nonce s c i) !! c = None ->
  pc = FBindFailed \/ (of_flow c (accepted s)).*2 = of_flow c (sent s).
Proof.
  intros Hs Ht. unfold flow_step. rewrite Ht. pose proof (ui_flow _ Hs c) as Hf. unfold flow_of in Hf. rewrite Ht in Hf.
  destruct Hf as (_ & _ & (q & Hch & _ & Hacc) & _). rewrite Hch, Hacc.
  assert (Hset : forall s1 pc', tasks (set_flow_task s1 c k pc') !! c = None -> False)
    by (intros s1 pc'; simpl; by rewrite lookup_insert_eq).
  destruct pc as [| | | | p | from data], i; try (by left); try congruence; try (by intros []%Hset).
  - destruct q as [| p q']; [simpl; congruence | by intros []%Hset].
  - case_cmp; [congruence | by intros []%Hset].
  - destruct q as [| p q']; [intros _; right; simpl; by rewrite app_nil_r | by intros []%Hset].
Qed.

End invariant.

(** the flows of the UDP relay. In every state the table and the running tasks
    agree, so each pair of peer and source port has one owner. A flow carries
    packets of one pair only and its answers go to that peer only. What a flow
    took is, in order, what it handed to its socket, what it has in hand and what
    is queued (at most 64): nothing is lost, repeated or reordered. And a task
    ends only after a failed bind, or when it has handed on all it took. *)
Theorem udp_flows (AR : Arch) (o : Obfuscator) (s : ServerState) :
  udp_reachable o s ->
  (forall k c, flows s !! k = Some c <-> exists pc, tasks s !! c = Some (k, pc)) /\
  (forall c, exists k : FlowKey, Forall (fun x => x.1 = k) (of_flow c (accepted s)) /\
     Forall (fun to => to = k.1) (answers_of c (outbox s))) /\
  (forall c k pc, tasks s !! c = Some (k, pc) ->
     exists ch, chans s !! c = Some ch /\ zlen (queue ch) <= 64 /\
       (of_flow c (accepted s)).*2 = of_flow c (sent s) ++ in_hand pc ++ queue ch) /\
  (forall nonce c i k pc, tasks s !! c = Some (k, pc) -> tasks (flow_step o nonce s c i) !! c = None ->
     pc = FBindFailed \/ (of_flow c (accepted s)).*2 = of_flow c (sent s)).
Proof.
  intros Hs%udp_reachable_inv. split_and!.
  - intros k c. split; [apply (ui_table _ Hs) |]. intros [pc Ht]. by apply (ui_tasks _ Hs c k pc).
  - intros c. pose proof (ui_flow _ Hs c) as Hf. unfold flow_of, flow_inv in Hf.
    destruct (tasks s !! c) as [[k pc] |]; [exists k; tauto | apply Hf].
  - intros c k pc Ht. pose proof (ui_flow _ Hs c) as Hf. unfold flow_of in Hf. rewrite Ht in Hf.
    destruct Hf as (_ & _ & (q & -> & Hq & Hacc) & _). by eexists.
  - intros nonce c i k pc. by apply flow_step_ends.
Qed.

(** the relay port. No datagram makes the server panic. A Data packet that a
    client of either machine width encoded is put, with its destination and
    payload, into the flow of its sender and source port, which is started if
    there is none, and it is dropped only when that flow's queue is full; a
    keepalive is answered to its sender and leaves the flows alone. *)
Theorem udp_datagram (A1 A2 : Arch) (o : Obfuscator) (s : ServerState) (peer : SocketAddr) (nonce : Z) :
  @udp_reachable A2 o s -> obfuscator_wf o -> peers_agree A1 A2 o -> 0 <= nonce < 2 ^ 32 ->
  (forall data, bytes_ok data -> exists s', @handle_datagram A2 o nonce s peer data = Some s') /\
  (forall n2 p, 0 <= n2 < 2 ^ 32 -> packet_ok p -> zlen (relay_payload p) <= 65535 -> relay_type p = RData ->
     exists s' c pc, @handle_datagram A2 o nonce s peer (@encode_relay_packet A1 o n2 p) = Some s' /\
       flows s' !! (peer, src_port p) = Some c /\ tasks s' !! c = Some ((peer, src_port p), pc) /\
       (flows s !! (peer, src_port p) = None -> pc = FBind) /\
       (accepted s' = accepted s ++ [(c, ((peer, src_port p),
          {| fp_dst := dst (wire_packet p); fp_payload := relay_payload p |}))] \/
        s' = s /\ exists ch, chans s !! c = Some ch /\ zlen (queue ch) = 64)) /\
  (forall n2, 0 <= n2 < 2 ^ 32 ->
     @handle_datagram A2 o nonce s peer (@encode_keepalive A1 o n2) =
       Some (relay_send s None peer (@encode_keepalive A2 o nonce))).
Proof.
  intros Hs%udp_reachable_inv Ho Hag Hnonce. split_and!.
  - intros data Hb. unfold handle_datagram. destruct (decode_relay_total o data Ho Hb) as ([pk |] & -> & _);
      cbn [mbind option_bind]; [destruct (relay_type pk) |]; by eexists.
  - intros n2 p Hn2 Hp Hlen Ht. unfold handle_datagram.
    rewrite (relay_packet_roundtrip A1 A2 o n2 p Hag Hn2 Hp Hlen). cbn [mbind option_bind].
    assert (Hw : relay_type (wire_packet p) = RData /\ src_port (wire_packet p) = src_port p /\
      relay_payload (wire_packet p) = relay_payload p) by (unfold wire_packet; rewrite Ht; by destruct (dst p)).
    destruct Hw as (-> & Hsp & Hpl).
    destruct (handle_data_packet_spec s peer (wire_packet p) Hs) as (_ & c & pc & H1 & H2 & H3 & H4).
    rewrite Hsp, Hpl in *. exists (handle_data_packet s peer (wire_packet p)), c, pc. split_and!; try done.
    intros Hn. by apply H3.
  - intros n2 Hn2. unfold handle_datagram.
    change (@encode_keepalive A1 o n2) with (@encode_relay_packet A1 o n2 keepalive_packet).
    rewrite (relay_packet_roundtrip A1 A2 o n2 keepalive_packet Hag Hn2); [done | | done].
    split_and!; simpl; try lia. constructor.
Qed.

(** ** Witnesses *)

Definition ex_relay : Obfuscator := ex_obf [5; 6; 7].

Lemma ex_relay_wf : obfuscator_wf ex_relay.
Proof. split_and!; try (simpl; lia); try done; [by_compute | apply fill_sub_table_bytes]. Qed.

Definition ex_peer : SocketAddr := SockV4 0xC0000201 40000.

(** The first packet of a flow, whose task then binds, takes it and sends it. *)
Definition ex_udp1 : ServerState :=
  default ServerState_new (@handle_datagram arch64 ex_relay 1 ServerState_new ex_peer
    (@encode_relay_packet arch64 ex_relay 99 ex_packet)).
Definition ex_udp2 : ServerState :=
  foldl (fun s i => @flow_step arch64 ex_relay 2 s 0 i) ex_udp1 [BindOk; Queued; SendDone].

Lemma ex_udp2_reachable : @udp_reachable arch64 ex_relay ex_udp2.
Proof.
  do 3 (eapply ur_step; [| apply us_flow]). eapply ur_step; [apply ur_new |].
  apply (us_datagram ex_relay _ 1 ex_peer (@encode_relay_packet arch64 ex_relay 99 ex_packet)). vm_compute. reflexivity.
Qed.

Lemma udp_flows_witness :
  of_flow 0 (sent ex_udp2) = [{| fp_dst := SockV4 0x08080808 53; fp_payload := [1; 2; 3] |}] /\
  flows ex_udp2 !! (ex_peer, 4000) = Some 0%nat.
Proof.
  split; [vm_compute; reflexivity |].
  apply (@udp_flows arch64 ex_relay ex_udp2 ex_udp2_reachable). exists FLoop. vm_compute. reflexivity.
Defined.

Lemma udp_datagram_witness :
  @handle_datagram arch64 ex_relay 5 ex_udp2 ex_peer (@encode_keepalive arch64 ex_relay 7) =
  Some (relay_send ex_udp2 None ex_peer (@encode_keepalive arch64 ex_relay 5)).
Proof.
  apply (@udp_datagram arch64 arch64 ex_relay ex_udp2 ex_peer 5);
    [apply ex_udp2_reachable | apply ex_relay_wf | by left | lia | lia].
Defined.
