(* ===== verification/Relay.v ===== *)
(** * The relay's registry of agents (xr-relay/src/registry.rs, lib.rs)

    Which agent holds which reverse tunnel, the cap of registrations per source
    address, the byte counters, and the registration handler of a connection as
    a machine over them: a step is the stretch between two [await]s. The
    challenge before it is the business of the signature scheme; a connection
    starts here with the key it has proven. *)

From S2P Require Import Prelude Net RelayHealth Chan Mux MuxTasks MuxInv.

(** ** Budgets per source address *)

Abbreviation CapMap := (gmap IpAddr Z).

(** [IpCaps::try_acquire] with the limit [max]: the new counts, and whether the
    slot was granted. The entry is created even when it is not. *)
Definition try_acquire_cap (max : Z) (m : CapMap) (ip : IpAddr) : CapMap * bool :=
  let count := default 0 (m !! ip) in
  if max <=? count then (<[ip := count]> m, false) else (<[ip := count + 1]> m, true).

(** [IpCaps::release], the drop of a guard. *)
Definition release_cap (m : CapMap) (ip : IpAddr) : CapMap :=
  match m !! ip with
  | None => m
  | Some count => if count - 1 =? 0 then delete ip m else <[ip := count - 1]> m
  end.

(** ** Byte counters *)

Definition Counters_add (m : gmap bytes Z) (share_id : bytes) (n : Z) : gmap bytes Z :=
  if n =? 0 then m else <[share_id := u64 (default 0 (m !! share_id) + n)]> m.

Definition Counters_snapshot (m : gmap bytes Z) : list (bytes * Z) := map_to_list m.

(** ** The registry *)

Record Registered := { rg_mux : nat; rg_generation : Z }.

Inductive RegPc :=
| RVerified
| RCapped
| RGen (generation : Z)
| RLive (generation : Z)
| RLeaving (generation : Z).

(** A connection that has proven [cn_key]; its multiplexer is the one of the same
    number in the heap. *)
Record Conn := { cn_key : bytes; cn_ip : IpAddr; cn_pc : RegPc }.

Record RelayState := {
  registry : gmap bytes Registered;
  next_gen : Z;
  ip_caps : CapMap;
  max_reg_per_ip : Z;
  conns : gmap nat Conn;
  agent_muxes : gmap nat Multiplexer
}.

Definition RelayState_new (max : Z) : RelayState :=
  {| registry := ∅; next_gen := 0; ip_caps := ∅; max_reg_per_ip := max; conns := ∅; agent_muxes := ∅ |}.

Definition set_registry (s : RelayState) (r : gmap bytes Registered) : RelayState :=
  {| registry := r; next_gen := next_gen s; ip_caps := ip_caps s; max_reg_per_ip := max_reg_per_ip s;
     conns := conns s; agent_muxes := agent_muxes s |}.

Definition set_caps (s : RelayState) (m : CapMap) : RelayState :=
  {| registry := registry s; next_gen := next_gen s; ip_caps := m; max_reg_per_ip := max_reg_per_ip s;
     conns := conns s; agent_muxes := agent_muxes s |}.

Definition set_conns (s : RelayState) (m : gmap nat Conn) : RelayState :=
  {| registry := registry s; next_gen := next_gen s; ip_caps := ip_caps s; max_reg_per_ip := max_reg_per_ip s;
     conns := m; agent_muxes := agent_muxes s |}.

Definition set_agents (s : RelayState) (m : gmap nat Multiplexer) : RelayState :=
  {| registry := registry s; next_gen := next_gen s; ip_caps := ip_caps s; max_reg_per_ip := max_reg_per_ip s;
     conns := conns s; agent_muxes := m |}.

Definition fetch_generation (s : RelayState) : RelayState :=
  {| registry := registry s; next_gen := u64 (next_gen s + 1); ip_caps := ip_caps s;
     max_reg_per_ip := max_reg_per_ip s; conns := conns s; agent_muxes := agent_muxes s |}.

Definition shutdown_agent (s : RelayState) (c : nat) : RelayState :=
  set_agents s (alter shutdown c (agent_muxes s)).

(** [AgentRegistry::register] once it has the lock. *)
Definition register_locked (s : RelayState) (pubkey : bytes) (c : nat) (generation : Z) : RelayState :=
  let old := registry s !! pubkey in
  let s := set_registry s (<[pubkey := {| rg_mux := c; rg_generation := generation |}]> (registry s)) in
  match old with
  | Some r => shutdown_agent s (rg_mux r)
  | None => s
  end.

Definition registry_get (s : RelayState) (pubkey : bytes) : option nat := rg_mux <$> registry s !! pubkey.

Definition deregister (s : RelayState) (pubkey : bytes) (generation : Z) : RelayState :=
  if bool_decide (rg_generation <$> registry s !! pubkey = Some generation)
  then set_registry s (delete pubkey (registry s)) else s.

(** The agent a transit stream is sent to: registered and alive. *)
Definition find_agent (s : RelayState) (pubkey : bytes) : option nat :=
  match registry_get s pubkey with
  | Some c => match agent_muxes s !! c with
              | Some m => if alive m then Some c else None
              | None => None
              end
  | None => None
  end.

Definition goto (s : RelayState) (c : nat) (k : Conn) (pc : RegPc) : RelayState :=
  set_conns s (<[c := {| cn_key := cn_key k; cn_ip := cn_ip k; cn_pc := pc |}]> (conns s)).

(** The handler returns: the connection shuts its multiplexer down. *)
Definition finish (s : RelayState) (c : nat) : RelayState :=
  shutdown_agent (set_conns s (delete c (conns s))) c.

(** One step of [handle_register] of connection [c], from the proven key on. *)
Definition register_step (s : RelayState) (c : nat) : RelayState :=
  match conns s !! c with
  | None => s
  | Some k =>
      match cn_pc k with
      | RVerified =>
          let '(m, granted) := try_acquire_cap (max_reg_per_ip s) (ip_caps s) (cn_ip k) in
          let s := set_caps s m in
          if granted then goto s c k RCapped else finish s c
      | RCapped => goto (fetch_generation s) c k (RGen (next_gen s))
      | RGen g => goto (register_locked s (cn_key k) c g) c k (RLive g)
      | RLive g => goto s c k (RLeaving g)
      | RLeaving g =>
          let s := finish (deregister s (cn_key k) g) c in
          set_caps s (release_cap (ip_caps s) (cn_ip k))
      end
  end.

(** Fewer than 2^64 registrations are made. *)
Inductive relay_step (s : RelayState) : RelayState -> Prop :=
| rl_conn c key ip m :
    conns s !! c = None -> agent_muxes s !! c = None ->
    relay_step s (set_agents (set_conns s (<[c := {| cn_key := key; cn_ip := ip; cn_pc := RVerified |}]> (conns s)))
                    (<[c := m]> (agent_muxes s)))
| rl_step c : next_gen s + 1 < 2 ^ 64 -> relay_step s (register_step s c)
| rl_mux c m m' :
    agent_muxes s !! c = Some m -> mux_step m m' -> relay_step s (set_agents s (<[c := m']> (agent_muxes s))).

Inductive relay_reachable (max : Z) : RelayState -> Prop :=
| rr_new : relay_reachable max (RelayState_new max)
| rr_step s s' : relay_reachable max s -> relay_step s s' -> relay_reachable max s'.

(** ** The registry invariant *)

Definition gen_of (pc : RegPc) : option Z :=
  match pc with RGen g | RLive g | RLeaving g => Some g | _ => None end.

Definition inserted (pc : RegPc) : bool := match pc with RLive _ | RLeaving _ => true | _ => false end.

Definition alive_agent (s : RelayState) (c : nat) : Prop := exists m, agent_muxes s !! c = Some m /\ alive m = true.

Record reg_inv (s : RelayState) : Prop := {
  ri_gens : forall c k g, conns s !! c = Some k -> gen_of (cn_pc k) = Some g -> 0 <= g < next_gen s;
  ri_unique : forall c1 c2 k1 k2 g, conns s !! c1 = Some k1 -> conns s !! c2 = Some k2 ->
    gen_of (cn_pc k1) = Some g -> gen_of (cn_pc k2) = Some g -> c1 = c2;
  ri_entry : forall key r, registry s !! key = Some r ->
    exists k, conns s !! rg_mux r = Some k /\ cn_key k = key /\ inserted (cn_pc k) = true /\
      gen_of (cn_pc k) = Some (rg_generation r);
  ri_live : forall c k g, conns s !! c = Some k -> inserted (cn_pc k) = true -> gen_of (cn_pc k) = Some g ->
    alive_agent s c -> registry s !! cn_key k = Some {| rg_mux := c; rg_generation := g |};
  ri_alive : forall c, alive_agent s c -> is_Some (conns s !! c);
  ri_next : 0 <= next_gen s
}.

Lemma alive_shutdown s c c' : alive_agent (shutdown_agent s c) c' -> alive_agent s c' /\ c' <> c.
Proof.
  intros (m & Hm & Ha). simpl in Hm. rewrite lookup_alter in Hm. case_decide as Hd.
  - apply fmap_Some in Hm as (m0 & _ & ->). done.
  - split; [by exists m | done].
Qed.

(** A step of connection [c] that leaves the registry and the generations alone. *)
Lemma reg_inv_goto s c k pc :
  reg_inv s -> conns s !! c = Some k -> gen_of pc = gen_of (cn_pc k) -> inserted pc = inserted (cn_pc k) ->
  reg_inv (goto s c k pc).
Proof.
  intros [H1 H2 H3 H4 H5 H6] Hk Hg Hi.
  assert (Hc : forall c' k', conns (goto s c k pc) !! c' = Some k' ->
    exists k0, conns s !! c' = Some k0 /\ cn_key k' = cn_key k0 /\ gen_of (cn_pc k') = gen_of (cn_pc k0) /\
      inserted (cn_pc k') = inserted (cn_pc k0)).
  { intros c' k'. simpl. intros [[<- <-] | [_ Hk']]%lookup_insert_Some; [by exists k | by exists k']. }
  split.
  - intros c' k' g (k0 & Hk0 & _ & -> & _)%Hc. by apply (H1 c' k0).
  - intros c1 c2 k1 k2 g (j1 & Hj1 & _ & -> & _)%Hc (j2 & Hj2 & _ & -> & _)%Hc. by apply (H2 c1 c2 j1 j2).
  - intros key r Hr. destruct (H3 key r Hr) as (k0 & Hk0 & Hkey & Hins & Hgen). simpl.
    destruct (decide (c = rg_mux r)) as [Ec | Hne].
    + rewrite <- Ec in *. rewrite lookup_insert_eq. assert (k0 = k) as -> by congruence. eexists. split; [done |]. simpl. by rewrite Hg, Hi.
    + rewrite lookup_insert_ne by done. by exists k0.
  - intros c' k' g (k0 & Hk0 & -> & -> & ->)%Hc. by apply (H4 c' k0).
  - intros c' [? Ha]%H5. simpl. destruct (decide (c = c')) as [<- |]; [by rewrite lookup_insert_eq | by rewrite lookup_insert_ne].
  - done.
Qed.

(** The handler ends; its entry is gone from the registry. *)
Lemma reg_inv_finish s c k :
  reg_inv s -> conns s !! c = Some k -> (forall key r, registry s !! key = Some r -> rg_mux r <> c) ->
  reg_inv (finish s c).
Proof.
  intros [H1 H2 H3 H4 H5 H6] Hk Hno. unfold finish.
  assert (Hal : forall c', alive_agent (shutdown_agent (set_conns s (delete c (conns s))) c) c' -> alive_agent s c' /\ c' <> c)
    by (intros c' Ha; by apply alive_shutdown in Ha).
  split; simpl; [| | | | | done].
  - intros c' k' g [_ Hk']%lookup_delete_Some. by apply H1 with c'.
  - intros c1 c2 k1 k2 g [_ E1]%lookup_delete_Some [_ E2]%lookup_delete_Some. by apply H2.
  - intros key r Hr. destruct (H3 key r Hr) as (k0 & Hk0 & ?). exists k0. rewrite lookup_delete_ne; [done |].
    intros E. by apply (Hno key r Hr).
  - intros c' k' g [_ Hk']%lookup_delete_Some Hi Hg [Ha _]%Hal. by apply H4.
  - intros c' [Ha Hne]%Hal. rewrite lookup_delete_ne by done. by apply H5.
Qed.

Lemma reg_inv_caps s m : reg_inv s -> reg_inv (set_caps s m).
Proof. intros []. by split. Qed.

Lemma reg_inv_generation s c k :
  reg_inv s -> conns s !! c = Some k -> gen_of (cn_pc k) = None -> next_gen s + 1 < 2 ^ 64 ->
  reg_inv (goto (fetch_generation s) c k (RGen (next_gen s))).
Proof.
  intros [H1 H2 H3 H4 H5 H6] Hk Hg Hmax.
  assert (Hi : inserted (cn_pc k) = false) by by destruct (cn_pc k).
  assert (Hnext : u64 (next_gen s + 1) = next_gen s + 1) by (apply Z.mod_small; lia).
  split; simpl; rewrite ?Hnext; [| | | | | lia].
  - intros c' k' g [[<- <-] | [_ Hk']]%lookup_insert_Some; [intros [= <-]; lia |]. intros E. specialize (H1 c' k' g Hk' E). lia.
  - intros c1 c2 k1 k2 g [[<- <-] | [N1 E1]]%lookup_insert_Some [[<- <-] | [N2 E2]]%lookup_insert_Some G1 G2; simpl in *.
    + done.
    + injection G1 as <-. specialize (H1 c2 k2 _ E2 G2). lia.
    + injection G2 as <-. specialize (H1 c1 k1 _ E1 G1). lia.
    + by apply (H2 c1 c2 k1 k2 g).
  - intros key r Hr. destruct (H3 key r Hr) as (k0 & Hk0 & Hkey & Hins & Hgen). exists k0.
    rewrite lookup_insert_ne; [done |]. intros E. rewrite <- E in Hk0. congruence.
  - intros c' k' g [[<- <-] | [_ Hk']]%lookup_insert_Some; [done |]. by apply H4.
  - intros c' [? Ha]%H5. destruct (decide (c = c')) as [<- |]; [by rewrite lookup_insert_eq | by rewrite lookup_insert_ne].
Qed.

Lemma reg_inv_register s c k g :
  reg_inv s -> conns s !! c = Some k -> cn_pc k = RGen g ->
  reg_inv (goto (register_locked s (cn_key k) c g) c k (RLive g)).
Proof.
  intros Hs Hk Hpc. pose proof Hs as [H1 H2 H3 H4 H5 H6].
  assert (Hreg : registry (register_locked s (cn_key k) c g) = <[cn_key k := {| rg_mux := c; rg_generation := g |}]> (registry s))
    by (unfold register_locked; by destruct (registry s !! cn_key k)).
  assert (Hconn : conns (register_locked s (cn_key k) c g) = conns s)
    by (unfold register_locked; by destruct (registry s !! cn_key k)).
  assert (Hgen : next_gen (register_locked s (cn_key k) c g) = next_gen s)
    by (unfold register_locked; by destruct (registry s !! cn_key k)).
  assert (Hal : forall c', alive_agent (register_locked s (cn_key k) c g) c' ->
    alive_agent s c' /\ (forall r, registry s !! cn_key k = Some r -> rg_mux r <> c')).
  { unfold register_locked. intros c'. destruct (registry s !! cn_key k) as [r |]; [| by split].
    intros [Ha Hne]%alive_shutdown. split; [done |]. by intros ? [= <-]. }
  assert (Hnc : forall key r, registry s !! key = Some r -> rg_mux r <> c).
  { intros key r Hr E. destruct (H3 key r Hr) as (k0 & Hk0 & _ & Hins & _). rewrite E in Hk0.
    assert (k0 = k) as -> by congruence. by rewrite Hpc in Hins. }
  split; cbn [goto set_conns conns registry next_gen]; rewrite ?Hconn, ?Hgen, ?Hreg; [| | | | | done].
  - intros c' k' g' [[<- <-] | [_ Hk']]%lookup_insert_Some; [| by apply H1 with c']. intros [= <-].
    apply (H1 c k); [done |]. by rewrite Hpc.
  - assert (Hgc : forall c' k' g', c <> c' -> conns s !! c' = Some k' -> gen_of (cn_pc k') = Some g' -> g' <> g).
    { intros c' k' g' Hne Hk' Hg' ->. apply Hne. apply (H2 c c' k k' g); [done | done | by rewrite Hpc | done]. }
    intros c1 c2 k1 k2 g' [[<- <-] | [N1 E1]]%lookup_insert_Some [[<- <-] | [N2 E2]]%lookup_insert_Some G1 G2; simpl in *.
    + done.
    + injection G1 as <-. by destruct (Hgc c2 k2 g N2 E2 G2).
    + injection G2 as <-. by destruct (Hgc c1 k1 g N1 E1 G1).
    + by apply (H2 c1 c2 k1 k2 g').
  - intros key r [[<- <-] | [Hne Hr]]%lookup_insert_Some.
    + simpl. rewrite lookup_insert_eq. by eexists.
    + destruct (H3 key r Hr) as (k0 & Hk0 & Hrest). exists k0. rewrite lookup_insert_ne; [done |].
      intros E. by apply (Hnc key r Hr).
  - intros c' k' g' [[<- <-] | [Hne Hk']]%lookup_insert_Some.
    + intros _ [= <-] _. simpl. apply lookup_insert_eq.
    + intros Hi Hg [Ha Hold]%Hal. specialize (H4 c' k' g' Hk' Hi Hg Ha). rewrite lookup_insert_ne; [done |].
      intros E. rewrite <- E in H4. by apply (Hold _ H4).
  - intros c' [Ha _]%Hal. destruct (decide (c = c')) as [<- |]; [by rewrite lookup_insert_eq | rewrite lookup_insert_ne by done; by apply H5].
Qed.

Lemma reg_inv_leave s c k g :
  reg_inv s -> conns s !! c = Some k -> cn_pc k = RLeaving g -> reg_inv (finish (deregister s (cn_key k) g) c).
Proof.
  intros Hs Hk Hpc. pose proof Hs as [H1 H2 H3 H4 H5 H6].
  assert (Hother : forall key r, registry s !! key = Some r -> rg_mux r = c -> key = cn_key k /\ rg_generation r = g).
  { intros key r Hr E. destruct (H3 key r Hr) as (k0 & Hk0 & Hkey & _ & Hgen). rewrite E in Hk0.
    assert (k0 = k) as -> by congruence. rewrite Hpc in Hgen. simpl in Hgen. split; congruence. }
  unfold deregister. case_bool_decide as Hd.
  - (* only the own entry goes *)
    apply fmap_Some in Hd as (r & Hr & Hrg). destruct (H3 _ _ Hr) as (k0 & Hk0 & _ & _ & Hgen).
    assert (Hmux : rg_mux r = c) by (apply (H2 _ _ k0 k g); [done | done | congruence | by rewrite Hpc]).
    unfold finish. split; simpl; [| | | | | done].
    + intros c' k' g' [_ Hk']%lookup_delete_Some. by apply H1 with c'.
    + intros c1 c2 k1 k2 g' [_ E1]%lookup_delete_Some [_ E2]%lookup_delete_Some. by apply H2.
    + intros key r' [Hne Hr']%lookup_delete_Some. destruct (H3 key r' Hr') as (k1 & Hk1 & ?). exists k1.
      rewrite lookup_delete_ne; [done |]. intros E. destruct (Hother key r' Hr') as [-> _]; [done | done].
    + intros c' k' g' [Hne Hk']%lookup_delete_Some Hi Hg [Ha _]%alive_shutdown. apply lookup_delete_Some.
      specialize (H4 c' k' g' Hk' Hi Hg Ha). split; [| done]. intros E. rewrite <- E, Hr in H4. injection H4 as ->. done.
    + intros c' [Ha Hne]%alive_shutdown. rewrite lookup_delete_ne by done. by apply H5.
  - apply (reg_inv_finish s c k); [done | done |]. intros key r Hr E. destruct (Hother key r Hr E) as [-> Hg].
    apply Hd. by rewrite Hr; simpl; rewrite Hg.
Qed.

(** ** The budgets *)

Definition holds_cap (pc : RegPc) : bool := match pc with RVerified => false | _ => true end.

Definition holder (ip : IpAddr) (kv : nat * Conn) : Prop := holds_cap (cn_pc kv.2) = true /\ cn_ip kv.2 = ip.

#[global] Instance holder_dec ip kv : Decision (holder ip kv).
Proof. unfold holder. apply _. Defined.

(** How many connections hold a slot of [ip]. *)
Definition holders (ip : IpAddr) (cs : gmap nat Conn) : Z := Z.of_nat (size (filter (holder ip) cs)).

Definition weigh (ip : IpAddr) (k : option Conn) : Z :=
  match k with Some k => if holds_cap (cn_pc k) && bool_decide (cn_ip k = ip) then 1 else 0 | None => 0 end.

Lemma holders_insert_new ip c k cs :
  cs !! c = None -> holders ip (<[c := k]> cs) = holders ip cs + weigh ip (Some k).
Proof.
  intros Hc. unfold holders, weigh. destruct (holds_cap (cn_pc k) && bool_decide (cn_ip k = ip)) eqn:Hd.
  - apply andb_true_iff in Hd as [Hh Hip%bool_decide_eq_true]. rewrite map_filter_insert_True by done.
    rewrite map_size_insert_None; [lia |]. apply map_lookup_filter_None. by left.
  - rewrite map_filter_insert_False; [rewrite delete_id by done; lia |]. intros [Hh Hip]. simpl in *.
    by rewrite Hh, bool_decide_true in Hd.
Qed.

Lemma holders_delete ip c cs : holders ip (delete c cs) = holders ip cs - weigh ip (cs !! c).
Proof.
  destruct (cs !! c) as [k |] eqn:Hc.
  - rewrite <- (insert_delete_id cs c k Hc) at 2. rewrite holders_insert_new by apply lookup_delete_eq. lia.
  - rewrite delete_id by done. simpl. lia.
Qed.

Lemma holders_insert ip c k cs : holders ip (<[c := k]> cs) = holders ip cs - weigh ip (cs !! c) + weigh ip (Some k).
Proof. by rewrite <- insert_delete_eq, holders_insert_new, holders_delete by apply lookup_delete_eq. Qed.

Record cap_inv (s : RelayState) : Prop := {
  ci_count : forall ip, default 0 (ip_caps s !! ip) = holders ip (conns s);
  ci_max : forall ip n, ip_caps s !! ip = Some n -> n <= max_reg_per_ip s
}.

Lemma cap_goto s c k pc :
  conns s !! c = Some k -> holds_cap pc = holds_cap (cn_pc k) -> cap_inv s -> cap_inv (goto s c k pc).
Proof.
  intros Hk Hh [H1 H2]. split; [| done]. intros ip. simpl. rewrite holders_insert, Hk, H1. simpl. rewrite Hh. lia.
Qed.

Lemma cap_register_locked s key c g : cap_inv s -> cap_inv (register_locked s key c g).
Proof. intros []. unfold register_locked. by destruct (registry s !! key). Qed.

Lemma cap_acquire s c k :
  0 <= max_reg_per_ip s -> conns s !! c = Some k -> cn_pc k = RVerified -> cap_inv s -> cap_inv (register_step s c).
Proof.
  intros Hmax Hk Hpc [H1 H2]. unfold register_step, try_acquire_cap. rewrite Hk, Hpc.
  destruct (Z.leb_spec (max_reg_per_ip s) (default 0 (ip_caps s !! cn_ip k))) as [Hle | Hlt].
  - split; simpl.
    + intros ip. rewrite holders_delete, Hk. simpl. rewrite Hpc. simpl. rewrite Z.sub_0_r, <- H1, lookup_insert. case_decide; [by subst | done].
    + intros ip n. rewrite lookup_insert. case_decide; [| apply H2]. intros [= <-].
      destruct (ip_caps s !! cn_ip k) as [n |] eqn:E; simpl; [by apply (H2 (cn_ip k)) | done].
  - split; simpl.
    + intros ip. rewrite holders_insert, Hk. simpl. rewrite Hpc, lookup_insert, <- H1. simpl.
      case_decide; case_bool_decide; subst; try done; simpl; lia.
    + intros ip n. rewrite lookup_insert. case_decide; [| apply H2]. intros [= <-]. lia.
Qed.

Lemma cap_leave s c k g :
  conns s !! c = Some k -> cn_pc k = RLeaving g -> cap_inv s -> cap_inv (register_step s c).
Proof.
  intros Hk Hpc [H1 H2]. unfold register_step. rewrite Hk, Hpc.
  assert (Hd : forall t, conns (deregister t (cn_key k) g) = conns t /\ ip_caps (deregister t (cn_key k) g) = ip_caps t /\
    max_reg_per_ip (deregister t (cn_key k) g) = max_reg_per_ip t) by (intros t; unfold deregister; by case_bool_decide).
  destruct (Hd s) as (Hc & Hcaps & Hm). unfold finish.
  cbn [set_caps shutdown_agent set_agents set_conns ip_caps conns max_reg_per_ip]. rewrite Hc, Hcaps.
  assert (Hpos : 1 <= default 0 (ip_caps s !! cn_ip k)).
  { rewrite H1. assert (Hh : holders (cn_ip k) (delete c (conns s)) = holders (cn_ip k) (conns s) - 1).
    { rewrite holders_delete, Hk. simpl. rewrite Hpc. simpl. by rewrite bool_decide_true. }
    unfold holders in *. lia. }
  unfold release_cap. destruct (ip_caps s !! cn_ip k) as [n |] eqn:En; [| simpl in Hpos; lia]. simpl in Hpos.
  assert (Hw : forall ip, holders ip (delete c (conns s)) = holders ip (conns s) - (if decide (ip = cn_ip k) then 1 else 0)).
  { intros ip. rewrite holders_delete, Hk. simpl. rewrite Hpc. simpl. case_decide; case_bool_decide; subst; done. }
  split; cbn [ip_caps conns max_reg_per_ip set_caps shutdown_agent set_agents set_conns]; rewrite ?Hm.
  - intros ip. rewrite Hw, <- H1.
    destruct (Z.eqb_spec (n - 1) 0).
    + rewrite lookup_delete. case_decide as Hd1; case_decide as Hd2; subst; try done; rewrite ?En; simpl; lia.
    + rewrite lookup_insert. case_decide as Hd1; case_decide as Hd2; subst; try done; rewrite ?En; simpl; lia.
  - intros ip n'. pose proof (H2 _ _ En). destruct (Z.eqb_spec (n - 1) 0).
    + intros [_ Hn]%lookup_delete_Some. by apply (H2 ip).
    + rewrite lookup_insert. case_decide; [intros [= <-]; lia | apply H2].
Qed.

Lemma relay_step_inv s s' :
  0 <= max_reg_per_ip s -> reg_inv s -> cap_inv s -> relay_step s s' ->
  reg_inv s' /\ cap_inv s' /\ max_reg_per_ip s' = max_reg_per_ip s.
Proof.
  intros Hmax Hr Hc Hstep. destruct Hstep as [c key ip m Hnc Hnm | c Hgen | c m m' Hm Hst].
  - pose proof Hr as [H1 H2 H3 H4 H5 H6]. pose proof Hc as [C1 C2]. split_and!; [| | done].
    + assert (Hal : forall c', alive_agent (set_agents (set_conns s (<[c := {| cn_key := key; cn_ip := ip; cn_pc := RVerified |}]>
        (conns s))) (<[c := m]> (agent_muxes s))) c' -> c' <> c -> alive_agent s c').
      { intros c' (m' & Hm' & Ha) Hne. simpl in Hm'. rewrite lookup_insert_ne in Hm' by done. by exists m'. }
      split; simpl; [| | | | | done].
      * intros c' k' g [[<- <-] | [_ Hk]]%lookup_insert_Some; [done | by apply H1 with c'].
      * intros c1 c2 k1 k2 g [[<- <-] | [N1 E1]]%lookup_insert_Some [[<- <-] | [N2 E2]]%lookup_insert_Some; try done.
        by apply H2.
      * intros key' r Hr'. destruct (H3 key' r Hr') as (k0 & Hk0 & ?). exists k0. rewrite lookup_insert_ne; [done |]. congruence.
      * intros c' k' g [[<- <-] | [Hne Hk]]%lookup_insert_Some; [done |]. intros Hi Hg Ha. apply H4; auto.
      * intros c' Ha. destruct (decide (c' = c)) as [-> | Hne]; [by rewrite lookup_insert_eq |].
        rewrite lookup_insert_ne by done. apply H5. by apply Hal.
    + split; [| done]. intros ip'. simpl. rewrite holders_insert_new, C1 by done. simpl. lia.
  - destruct (conns s !! c) as [k |] eqn:Hk; [| by unfold register_step; rewrite Hk].
    destruct (cn_pc k) as [| | g | g | g] eqn:Hpc.
    + split; [| split; [by eapply cap_acquire |]]; unfold register_step, try_acquire_cap; rewrite Hk, Hpc; case_cmp; try done.
      * apply (reg_inv_finish (set_caps s _) c k); [by apply reg_inv_caps | done |].
        intros key r Hr' E'. destruct (ri_entry _ Hr key r Hr') as (k0 & Hk0 & _ & Hi & _). rewrite E' in Hk0.
        assert (k0 = k) as -> by congruence. by rewrite Hpc in Hi.
      * apply reg_inv_goto; [by apply reg_inv_caps | done | by rewrite Hpc | by rewrite Hpc].
    + unfold register_step. rewrite Hk, Hpc. split_and!; [| | done].
      * apply reg_inv_generation; [done | done | by rewrite Hpc | done].
      * apply cap_goto; [done | by rewrite Hpc |]. by destruct Hc.
    + unfold register_step. rewrite Hk, Hpc. split_and!.
      * by apply reg_inv_register.
      * apply cap_goto; [| by rewrite Hpc | by apply cap_register_locked].
        unfold register_locked. by destruct (registry s !! cn_key k).
      * unfold register_locked. by destruct (registry s !! cn_key k).
    + unfold register_step. rewrite Hk, Hpc. split_and!; [| | done].
      * apply reg_inv_goto; [done | done | by rewrite Hpc | by rewrite Hpc].
      * apply cap_goto; [done | by rewrite Hpc | done].
    + split; [| split; [by eapply cap_leave |]]; unfold register_step; rewrite Hk, Hpc.
      * apply reg_inv_caps. by apply reg_inv_leave.
      * unfold deregister. by case_bool_decide.
  - split_and!; [| by destruct Hc | done]. pose proof Hr as [H1 H2 H3 H4 H5 H6].
    assert (Hal : forall c', alive_agent (set_agents s (<[c := m']> (agent_muxes s))) c' -> alive_agent s c').
    { intros c' (m1 & Hm1 & Ha). simpl in Hm1. destruct (decide (c' = c)) as [-> | Hne].
      - rewrite lookup_insert_eq in Hm1. injection Hm1 as <-. exists m. split; [done |]. by eapply mux_step_alive.
      - rewrite lookup_insert_ne in Hm1 by done. by exists m1. }
    split; simpl; try done.
    + intros c' k' g Hk Hi Hg Ha%Hal. by apply H4.
    + intros c' Ha%Hal. by apply H5.
Qed.

Lemma relay_reachable_inv max s :
  0 <= max -> relay_reachable max s -> reg_inv s /\ cap_inv s /\ max_reg_per_ip s = max.
Proof.
  intros Hmax. induction 1 as [| s s' _ (IH1 & IH2 & IH3) Hstep].
  - split_and!; [| | done].
    + split; simpl; try done. by intros c (m & Hm & _).
    + split; [| done]. intros ip. unfold holders. simpl. by rewrite map_filter_empty, map_size_empty.
  - rewrite <- IH3 in Hmax |- *. by apply relay_step_inv.
Qed.

(** C20: the registry of the relay. Whatever connections register, leave and die in
    whatever order, an entry of the registry belongs to a connection that is still
    running and registered under that key; a registered connection whose
    multiplexer is alive is the entry of its key (so a displaced connection is
    always shut down, and the teardown of a displaced one never takes the entry
    of its successor away); a transit stream is only ever given to such a
    connection; and per source address the budget counts exactly the connections
    that hold it and is never exceeded. *)
Theorem relay_registry max s :
  0 <= max -> relay_reachable max s ->
  (forall key r, registry s !! key = Some r -> exists k, conns s !! rg_mux r = Some k /\ cn_key k = key /\
     (cn_pc k = RLive (rg_generation r) \/ cn_pc k = RLeaving (rg_generation r))) /\
  (forall c k g m, conns s !! c = Some k -> cn_pc k = RLive g -> agent_muxes s !! c = Some m -> alive m = true ->
     registry s !! cn_key k = Some {| rg_mux := c; rg_generation := g |} /\ find_agent s (cn_key k) = Some c) /\
  (forall key c, find_agent s key = Some c -> exists k, conns s !! c = Some k /\ cn_key k = key) /\
  (forall ip, default 0 (ip_caps s !! ip) = holders ip (conns s) /\ holders ip (conns s) <= max).
Proof.
  intros Hmax Hr. destruct (relay_reachable_inv max s Hmax Hr) as ([H1 H2 H3 H4 H5 H6] & [C1 C2] & Hm).
  split_and!.
  - intros key r Hk. destruct (H3 key r Hk) as (k & Hc & Hkey & Hi & Hg). exists k. split_and!; [done | done |].
    destruct (cn_pc k); try done; simpl in Hg; injection Hg as ->; auto.
  - intros c k g m Hk Hpc Hmx Ha.
    assert (E : registry s !! cn_key k = Some {| rg_mux := c; rg_generation := g |}).
    { apply H4; [done | by rewrite Hpc | by rewrite Hpc | by exists m]. }
    split; [done |]. unfold find_agent, registry_get. rewrite E. simpl. by rewrite Hmx, Ha.
  - intros key c. unfold find_agent, registry_get. destruct (registry s !! key) as [r |] eqn:E; [| done]. simpl.
    destruct (H3 key r E) as (k & Hc & Hkey & _). destruct (agent_muxes s !! rg_mux r); [| done].
    case_cmp; [| done]. intros [= <-]. by exists k.
  - intros ip. split; [done |]. rewrite <- C1. destruct (ip_caps s !! ip) as [n |] eqn:E; simpl; [| done].
    rewrite <- Hm. by apply (C2 ip).
Qed.

(** ** Witness: two connections of one agent; the second displaces the first,
    which then leaves. *)

Definition ex_mux : Multiplexer := new_server MuxCaps_LOCAL.
Definition ex_connect (s : RelayState) (c : nat) : RelayState :=
  set_agents (set_conns s (<[c := {| cn_key := str "agent"; cn_ip := V4 1; cn_pc := RVerified |}]> (conns s)))
    (<[c := ex_mux]> (agent_muxes s)).

Definition ex_relay_run : RelayState :=
  let s := ex_connect (ex_connect (RelayState_new 2) 0) 1 in
  foldl register_step s [0; 0; 0; 1; 1; 1; 0; 0]%nat.

Lemma ex_relay_reachable : relay_reachable 2 ex_relay_run.
Proof.
  unfold ex_relay_run. cbv zeta. cbn [foldl].
  do 8 (eapply rr_step; [| apply rl_step; vm_compute; reflexivity]).
  eapply rr_step; [| by apply rl_conn]. eapply rr_step; [apply rr_new | by apply rl_conn].
Qed.

Lemma relay_registry_witness :
  find_agent ex_relay_run (str "agent") = Some 1%nat /\
  default 0 (ip_caps ex_relay_run !! V4 1) = 1 /\ holders (V4 1) (conns ex_relay_run) <= 2.
Proof.
  split_and!; [vm_compute; reflexivity | vm_compute; reflexivity |].
  apply (relay_registry 2 ex_relay_run ltac:(lia) ex_relay_reachable).
Defined.
