(* ===== verification/SafePath.v ===== *)
(** * Paths inside a share (xr-share/src/safepath.rs)

    A requested path is resolved against the root of a share. A [Path] is the list
    of its components (the Unix rules); the file system is a parameter,
    [canonicalize], which follows the links of an existing path. *)

From S2P Require Import Prelude Text.

Inductive SafePathError := InvalidComponent | Escapes | BadRoot.

Definition RESERVED_PREFIX : bytes := str ".xr-".

(** [Path::new(s).is_absolute()] and the number of its components: a leading
    separator and a leading dot count, other empty and dot parts do not. *)
Definition is_absolute (s : bytes) : bool := starts_with (str "/") s.

Definition components_count (s : bytes) : nat :=
  length (List.filter (fun c => negb (bool_decide (c = [])) && negb (bool_decide (c = str "."))) (split 47 s)) +
  (if is_absolute s then 1 else 0) +
  (if bool_decide (head (split 47 s) = Some (str ".")) then 1 else 0).

(** The loop over the parts of the request. *)
Fixpoint lexical (parts : list bytes) (safe : list bytes) : result (list bytes) SafePathError :=
  match parts with
  | [] => Ok safe
  | comp :: rest =>
      if bool_decide (comp = []) || bool_decide (comp = str ".") then lexical rest safe
      else if bool_decide (comp = str "..") then Err InvalidComponent
      else if starts_with RESERVED_PREFIX comp then Err InvalidComponent
      else if is_absolute comp || negb (components_count comp =? 1)%nat then Err InvalidComponent
      else lexical rest (safe ++ [comp])
  end.

(** [Path::starts_with]. *)
Fixpoint path_starts_with (p root : list bytes) {struct root} : bool :=
  match root, p with
  | [], _ => true
  | r :: root, c :: p => bool_decide (r = c) && path_starts_with p root
  | _ :: _, [] => false
  end.

(** [Path::parent]. *)
Definition parent (p : list bytes) : option (list bytes) :=
  match p with [] => None | _ => Some (removelast p) end.

Section resolve.
Context (canonicalize : list bytes -> option (list bytes)).

(** The walk to the deepest ancestor that exists; a path has as many ancestors as
    components. *)
Fixpoint probe_ancestors (fuel : nat) (canon_root : list bytes) (probe : list bytes) : option (result unit SafePathError) :=
  match fuel with
  | O => None
  | S fuel =>
      match canonicalize probe with
      | Some real => Some (if path_starts_with real canon_root then Ok tt else Err Escapes)
      | None =>
          match parent probe with
          | Some up => probe_ancestors fuel canon_root up
          | None => Some (Err Escapes)
          end
      end
  end.

(** The outer [None] is a walk that does not end. *)
Definition resolve_within (root : list bytes) (requested : bytes) : option (result (list bytes) SafePathError) :=
  if contains_char 92 requested || contains_char 0 requested then Some (Err InvalidComponent) else
  match lexical (split 47 requested) [] with
  | Err e => Some (Err e)
  | Ok safe =>
      let candidate := root ++ safe in
      match canonicalize root with
      | None => Some (Err BadRoot)
      | Some canon_root =>
          r ← probe_ancestors (S (length candidate)) canon_root candidate;
          Some (match r with Ok _ => Ok candidate | Err e => Err e end)
      end
  end.

(** ** What is accepted *)

(** A component a request may name. *)
Definition comp_ok (c : bytes) : Prop :=
  c <> [] /\ c <> str "." /\ c <> str ".." /\ (47 ∉ c) /\ (92 ∉ c) /\ (0 ∉ c) /\ starts_with RESERVED_PREFIX c = false.

(** The parts of a request that name something. *)
Definition named (requested : bytes) : list bytes :=
  List.filter (fun c => negb (bool_decide (c = [])) && negb (bool_decide (c = str "."))) (split 47 requested).

(** The deepest existing one of [p] and its ancestors is [q]. *)
Inductive deepest : list bytes -> list bytes -> Prop :=
| dp_here p real : canonicalize p = Some real -> deepest p p
| dp_up p c q : canonicalize (p ++ [c]) = None -> deepest p q -> deepest (p ++ [c]) q.

Lemma split_sub requested c x b : x ∈ split c requested -> b ∈ x -> b ∈ requested.
Proof.
  revert x. induction requested as [| b' l IH]; intros x; simpl.
  - intros ->%list_elem_of_singleton. by intros ?%elem_of_nil.
  - destruct (Z.eqb_spec b' c) as [-> | Hne].
    + intros [-> | Hx]%elem_of_cons; [by intros ?%elem_of_nil |]. intros Hb. right. by apply (IH x).
    + pose proof (split_nonempty c l). destruct (split c l) as [| w ws]; [done |].
      intros [-> | Hx]%elem_of_cons.
      * intros [-> | Hb]%elem_of_cons; [left | right; apply (IH w); [left | done]].
      * intros Hb. right. apply (IH x); [by right | done].
Qed.

(** The strict test of a component never fires on Unix. *)
Lemma component_strict c :
  c <> [] -> c <> str "." -> 47 ∉ c -> is_absolute c || negb (components_count c =? 1)%nat = false.
Proof.
  intros H1 H2 H3. assert (Ha : is_absolute c = false).
  { apply not_true_is_false. intros [r Hr]%starts_with_spec. apply H3. rewrite Hr. by left. }
  unfold components_count. rewrite Ha, split_absent by done. cbn [List.filter head].
  rewrite !(bool_decide_false (c = _)) by done. cbn [negb andb length].
  rewrite bool_decide_false by congruence. done.
Qed.

Lemma lexical_spec parts safe :
  Forall (fun c => not (47 ∈ c)) parts ->
  lexical parts safe =
  let names := List.filter (fun c => negb (bool_decide (c = [])) && negb (bool_decide (c = str "."))) parts in
  if forallb (fun c => negb (bool_decide (c = str "..")) && negb (starts_with RESERVED_PREFIX c)) names
  then Ok (safe ++ names) else Err InvalidComponent.
Proof.
  revert safe. induction parts as [| c parts IH]; intros safe Hp; [simpl; by rewrite app_nil_r |].
  apply Forall_cons in Hp as [Hc Hp]. cbn [lexical List.filter]. cbv zeta in IH |- *.
  destruct (decide (c = [])) as [-> | H1].
  { rewrite (bool_decide_true ([] = [])) by done. cbn [orb negb andb]. by apply IH. }
  destruct (decide (c = str ".")) as [-> | H2].
  { rewrite (bool_decide_true (str "." = str ".")) by done. rewrite orb_true_r, andb_false_r. by apply IH. }
  rewrite (bool_decide_false (c = [])), (bool_decide_false (c = str ".")) by done. cbn [orb negb andb forallb].
  destruct (bool_decide (c = str "..")); [done |]. destruct (starts_with RESERVED_PREFIX c); [done |].
  rewrite component_strict by done. cbn [negb andb]. rewrite IH by done. by rewrite <- app_assoc.
Qed.

Lemma path_starts_with_spec p root : path_starts_with p root = true <-> exists q, p = root ++ q.
Proof.
  revert p. induction root as [| r root IH]; intros p; simpl; [split; intros _; [by exists p | reflexivity] |].
  destruct p as [| c p]; [split; [done | by intros [q ?]] |].
  rewrite andb_true_iff, bool_decide_eq_true, IH. split.
  - intros [-> [q ->]]. by exists q.
  - intros [q [= -> ->]]. split; [done | by exists q].
Qed.

(** From a path below an existing root the walk ends at its deepest existing
    ancestor, which is the root or below it. *)
Lemma probe_spec root canon_root safe fuel :
  is_Some (canonicalize root) -> (length (root ++ safe) < fuel)%nat ->
  exists q real, deepest (root ++ safe) (root ++ q) /\ q `prefix_of` safe /\ canonicalize (root ++ q) = Some real /\
    probe_ancestors fuel canon_root (root ++ safe) = Some (if path_starts_with real canon_root then Ok tt else Err Escapes).
Proof.
  intros [cr Hroot]. revert fuel. induction safe as [| c safe IH] using rev_ind; intros fuel Hf;
    (destruct fuel as [| fuel]; [lia |]); cbn [probe_ancestors].
  - rewrite app_nil_r, Hroot. exists [], cr. rewrite app_nil_r. split_and!; [by eapply dp_here | done | done | done].
  - destruct (canonicalize (root ++ safe ++ [c])) as [real |] eqn:E.
    + exists (safe ++ [c]), real. split_and!; [by eapply dp_here | done | done | done].
    + assert (Hpar : parent (root ++ safe ++ [c]) = Some (root ++ safe)).
      { rewrite app_assoc. unfold parent. rewrite List.removelast_last. by destruct (root ++ safe). }
      rewrite Hpar. destruct (IH fuel) as (q & real & H1 & H2 & H3 & H4).
      { rewrite !length_app in *. simpl in Hf. lia. }
      exists q, real. split_and!; [| by apply prefix_app_r | done | done]. rewrite app_assoc in *. by apply dp_up.
Qed.

Lemma deepest_unique p q1 q2 : deepest p q1 -> deepest p q2 -> q1 = q2.
Proof.
  intros H. revert q2. induction H as [p real Hp | p c q Hn _ IH]; intros q2 H2; inversion H2; subst; try congruence.
  match goal with H : _ ++ [_] = _ ++ [_] |- _ => apply app_inj_tail in H as [-> ->] end. by apply IH.
Qed.

(** A request the first layer lets through. *)
Definition clean (requested : bytes) : Prop :=
  (92 ∉ requested) /\ (0 ∉ requested) /\ Forall comp_ok (named requested).

Definition inside (real canon_root : list bytes) : Prop := exists t, real = canon_root ++ t.

(** Where the deepest existing ancestor of a path below the root really is. *)
Definition anchored (root safe canon_root real : list bytes) : Prop :=
  canonicalize root = Some canon_root /\
  exists q, q `prefix_of` safe /\ deepest (root ++ safe) (root ++ q) /\ canonicalize (root ++ q) = Some real.

Lemma lexical_clean requested :
  92 ∉ requested -> 0 ∉ requested ->
  clean requested /\ lexical (split 47 requested) [] = Ok (named requested) \/
  (not (clean requested)) /\ lexical (split 47 requested) [] = Err InvalidComponent.
Proof.
  intros H1 H2.
  rewrite lexical_spec by (apply Forall_forall; intros c Hc; by eapply split_no_sep). fold (named requested). cbv zeta.
  destruct (forallb _ _) eqn:E; [left | right]; (split; [| done]).
  - split_and!; [done | done |]. apply Forall_forall. intros c Hc.
    rewrite forallb_forall in E. specialize (E c). rewrite <- list_elem_of_In in E. specialize (E Hc).
    apply list_elem_of_In, filter_In in Hc as [Hc Hn]. apply list_elem_of_In in Hc.
    rewrite andb_true_iff, !negb_true_iff, !bool_decide_eq_false in *. destruct Hn, E.
    split_and!; try done; [by eapply split_no_sep | |]; intros Hb; [apply H1 | apply H2]; by eapply split_sub.
  - intros (_ & _ & Hf). apply not_true_iff_false in E. apply E. apply forallb_forall. intros c Hc.
    apply list_elem_of_In in Hc. rewrite Forall_forall in Hf. destruct (Hf c Hc) as (_ & _ & Hd & _ & _ & _ & Hr).
    by rewrite Hr, bool_decide_false.
Qed.

(** C22: no request leaves the share. [resolve_within] always returns. It answers [Ok]
    only with the named components of the request below the root, each a plain name
    (not empty, no dot names, no separator, backslash or NUL, nothing in the reserved
    namespace), and only when the deepest existing one of that path and its ancestors
    really lies in the canonical root; so an existing target does. [InvalidComponent]
    is exactly a request that is not made of such names, [BadRoot] a root that does not
    resolve, and [Escapes] an ancestor at or below the root that resolves outside it. *)
Theorem resolve_within_contained (root : list bytes) (requested : bytes) :
  exists r, resolve_within root requested = Some r /\
  match r with
  | Ok p =>
      clean requested /\ p = root ++ named requested /\
      (exists canon_root real, anchored root (named requested) canon_root real /\ inside real canon_root) /\
      (forall canon_root real, canonicalize root = Some canon_root -> canonicalize p = Some real -> inside real canon_root)
  | Err InvalidComponent => not (clean requested)
  | Err BadRoot => clean requested /\ canonicalize root = None
  | Err Escapes =>
      clean requested /\
      exists canon_root real, anchored root (named requested) canon_root real /\ not (inside real canon_root)
  end.
Proof.
  unfold resolve_within.
  destruct (contains_char 92 requested) eqn:E1; [apply contains_char_spec in E1; eexists; split; [done |]; by intros [] |].
  destruct (contains_char 0 requested) eqn:E2; [apply contains_char_spec in E2; eexists; split; [done |]; by intros (_ & ? & _) |].
  apply contains_char_false in E1, E2. cbn [orb].
  destruct (lexical_clean requested E1 E2) as [[Hc ->] | [Hc ->]]; [| by eexists].
  destruct (canonicalize root) as [cr |] eqn:Er; [| by eexists].
  destruct (probe_spec root cr (named requested) (S (length (root ++ named requested)))) as (q & real & Hd & Hq & Hreal & ->);
    [by eexists | lia |]. cbn [mbind option_bind].
  assert (Ha : anchored root (named requested) cr real) by (split; [done | by exists q]).
  destruct (path_starts_with real cr) eqn:Ep; (eexists; split; [done |]); (split; [done |]).
  - apply path_starts_with_spec in Ep. split_and!; [done | by exists cr, real |].
    intros cr' real' [= <-] Hp. assert (root ++ q = root ++ named requested) as Heq
      by (apply (deepest_unique (root ++ named requested)); [done | by eapply dp_here]).
    rewrite Heq in Hreal. by replace real' with real by congruence.
  - exists cr, real. split; [done |]. intros Hi. apply path_starts_with_spec in Hi. congruence.
Qed.

End resolve.

(** ** A share with a link out of it *)

Definition ex_canonicalize (p : list bytes) : option (list bytes) :=
  if bool_decide (p = [str "srv"]) then Some [str "data"; str "srv"]
  else if bool_decide (p = [str "srv"; str "sub"]) then Some [str "data"; str "srv"; str "sub"]
  else if bool_decide (p = [str "srv"; str "out"]) then Some [str "etc"]
  else None.

Example ex_resolve :
  resolve_within ex_canonicalize [str "srv"] (str "/sub//./new.txt") = Some (Ok [str "srv"; str "sub"; str "new.txt"]) /\
  resolve_within ex_canonicalize [str "srv"] (str "out/passwd") = Some (Err Escapes) /\
  resolve_within ex_canonicalize [str "srv"] (str "sub/../../etc") = Some (Err InvalidComponent) /\
  resolve_within ex_canonicalize [str "srv"] (str "sub/.xr-upload") = Some (Err InvalidComponent) /\
  resolve_within ex_canonicalize [str "gone"] (str "sub") = Some (Err BadRoot).
Proof. by vm_compute. Qed.
