(* ===== verification/Order.v ===== *)
(** * Orders and sorting

    The order of [str] (lexicographic on bytes) and the stable sort behind
    [sort_by], [sort] and [sort_by_key]. *)

From S2P Require Import Prelude.

(** ** The order of strings *)

Fixpoint bytes_leb (a b : bytes) : bool :=
  match a, b with
  | [], _ => true
  | _ :: _, [] => false
  | x :: a, y :: b => if x <? y then true else if y <? x then false else bytes_leb a b
  end.

Definition bytes_le (a b : bytes) : Prop := bytes_leb a b = true.

Lemma bytes_leb_refl a : bytes_leb a a = true.
Proof. induction a as [| x a IH]; [done |]. cbn [bytes_leb]. by rewrite !Z.ltb_irrefl. Qed.

Lemma bytes_leb_total a b : bytes_leb a b = true \/ bytes_leb b a = true.
Proof.
  revert b. induction a as [| x a IH]; intros [| y b]; cbn [bytes_leb]; [by left | by left | by right |].
  destruct (Z.ltb_spec x y); [by left |]. destruct (Z.ltb_spec y x); [by right | apply IH].
Qed.

Lemma bytes_leb_trans a b c : bytes_leb a b = true -> bytes_leb b c = true -> bytes_leb a c = true.
Proof.
  revert b c. induction a as [| x a IH]; intros [| y b] [| z c]; cbn [bytes_leb]; try done.
  destruct (Z.ltb_spec x y), (Z.ltb_spec y x), (Z.ltb_spec y z), (Z.ltb_spec z y), (Z.ltb_spec x z), (Z.ltb_spec z x);
    try lia; try done. apply IH.
Qed.

Lemma bytes_leb_antisym a b : bytes_leb a b = true -> bytes_leb b a = true -> a = b.
Proof.
  revert b. induction a as [| x a IH]; intros [| y b]; cbn [bytes_leb]; try done.
  destruct (Z.ltb_spec x y), (Z.ltb_spec y x); try lia; try done. intros H1 H2.
  rewrite (IH b) by done. f_equal. lia.
Qed.

(** ** Stable sorting *)

Section isort.
Context {A : Type} (le : A -> A -> bool).

Fixpoint insert_sorted (x : A) (l : list A) : list A :=
  match l with
  | [] => [x]
  | y :: l' => if le x y then x :: l else y :: insert_sorted x l'
  end.

Definition isort (l : list A) : list A := foldr insert_sorted [] l.

Lemma insert_sorted_perm x l : insert_sorted x l ≡ₚ x :: l.
Proof.
  induction l as [| y l IH]; [done |]. cbn [insert_sorted]. destruct (le x y); [done |]. rewrite IH. apply Permutation_swap.
Qed.

Lemma isort_perm l : isort l ≡ₚ l.
Proof. induction l as [| x l IH]; [done |]. cbn. rewrite insert_sorted_perm. by apply Permutation_skip. Qed.

Context (le_total : forall x y, le x y = true \/ le y x = true).
Context (le_trans : forall x y z, le x y = true -> le y z = true -> le x z = true).

Lemma isort_sorted l : StronglySorted (fun x y => le x y = true) (isort l).
Proof.
  induction l as [| x l IH]; [constructor |]. cbn. fold (isort l). induction IH as [| y m Hm IH Hy]; cbn [insert_sorted].
  - by repeat constructor.
  - destruct (le x y) eqn:E.
    + constructor; [by constructor |]. constructor; [done |]. eapply Forall_impl; [done |]. intros z Hz. by eapply le_trans.
    + constructor; [done |]. rewrite insert_sorted_perm. constructor; [by destruct (le_total x y) as [H |]; [rewrite E in H |] | done].
Qed.

(** A sorted list stays as it is. *)
Lemma isort_id l : StronglySorted (fun x y => le x y = true) l -> isort l = l.
Proof.
  induction 1 as [| x l Hl IH Hx]; [done |]. cbn. fold (isort l). rewrite IH. destruct Hx as [| y l Hxy]; [done |].
  cbn [insert_sorted]. by rewrite Hxy.
Qed.

End isort.
