(* ===== verification/Share.v ===== *)
(** * Shares and their mandates (xr-proto/src/share.rs, with the signers of xr-hub)

    The records of a share, the canonical bytes the hub and the agents sign, and
    the offline checks. The signature scheme (ed25519-dalek) and the base64 codec
    are interfaces; serde's JSON stays outside, a token is its record. *)

From S2P Require Import Prelude Text Obfuscation Protocol.

(** ** The parameters *)

(** The STANDARD engine of the base64 crate. *)
Class Base64 := {
  b64_encode : bytes -> bytes;
  b64_decode : bytes -> option bytes;
  b64_roundtrip b : bytes_ok b -> b64_decode (b64_encode b) = Some b;
  b64_graph b : Forall is_graph (b64_encode b);
  b64_decode_graph l b : b64_decode l = Some b -> Forall is_graph l
}.

(** The keys and signatures of ed25519-dalek. [ed_from_bytes] refuses the 32-byte
    strings that are not a point. *)
Class Ed25519 := {
  verifying_key : bytes -> bytes;
  ed_from_bytes : bytes -> option bytes;
  ed_sign : bytes -> bytes -> bytes;
  ed_verify : bytes -> bytes -> bytes -> bool;
  ed_sign_length k m : length (ed_sign k m) = 64%nat;
  ed_sign_bytes k m : bytes_ok (ed_sign k m);
  ed_verify_sign k m : ed_verify (verifying_key k) m (ed_sign k m) = true
}.

(** ** Records *)

Record FileMeta := {
  fm_url : bytes; fm_source : bytes; fm_source_url : bytes; fm_published : bytes; fm_title : bytes
}.

Definition FileMeta_is_empty (m : FileMeta) : bool :=
  bool_decide (fm_url m = []) && bool_decide (fm_source m = []) && bool_decide (fm_source_url m = []) &&
  bool_decide (fm_published m = []) && bool_decide (fm_title m = []).

Record ShareManifestEntry := {
  me_path : bytes; me_size : Z; me_mtime : Z; me_sha256 : bytes; me_meta : option FileMeta
}.

Record ShareManifest := { entries : list ShareManifestEntry }.

Record ShareToken := { st_share_id : bytes; st_scope : bytes; st_exp : Z; st_signature : bytes }.

Record AgentCredential := { ac_agent_pubkey : bytes; ac_exp : Z; ac_signature : bytes }.

Record ShareRecord := {
  sr_share_id : bytes; sr_name : bytes; sr_owner : bytes; sr_addr : bytes; sr_addrs : list bytes;
  sr_port : Z; sr_agent_pubkey : bytes; sr_created_at : bytes; sr_comment : bytes;
  sr_via_relay : bool; sr_writable : bool
}.

Record ShareInfo := {
  si_share_id : bytes; si_name : bytes; si_addr : bytes; si_addrs : list bytes; si_port : Z; si_agent_pubkey : bytes
}.

Definition ShareRecord_info (r : ShareRecord) : ShareInfo :=
  {| si_share_id := sr_share_id r; si_name := sr_name r; si_addr := sr_addr r; si_addrs := sr_addrs r;
     si_port := sr_port r; si_agent_pubkey := sr_agent_pubkey r |}.

Record RelayObf := { ro_key : bytes; ro_salt : Z; ro_modifier : bytes; ro_padding_min : Z; ro_padding_max : Z }.

Record RelayDescriptor := { rd_addr : bytes; rd_port : Z; rd_obf : RelayObf }.

Record RelayToken := { rt_share_id : bytes; rt_agent_pubkey : bytes; rt_exp : Z; rt_signature : bytes }.

Record RelayGrant := { rgr_addr : bytes; rgr_port : Z; rgr_obf : RelayObf; rgr_relay_token : RelayToken }.

Record ShareGrant := {
  sg_share_id : bytes; sg_name : bytes; sg_addr : bytes; sg_addrs : list bytes; sg_port : Z;
  sg_agent_pubkey : bytes; sg_token : ShareToken; sg_exp : Z; sg_relay : option RelayGrant
}.

Record ExposeRecord := { er_name : bytes; er_agent_pubkey : bytes; er_created : bytes }.

Record ExposeToken := { et_publication : bytes; et_agent_pubkey : bytes; et_exp : Z; et_signature : bytes }.

Record RelayRegister := { rr_credential : AgentCredential; rr_nonce_sig : bytes }.

Record WebRoute := {
  wr_publication : bytes; wr_agent_pubkey : bytes; wr_relay : RelayDescriptor; wr_relay_token : RelayToken;
  wr_expose_token : ExposeToken; wr_exp : Z; wr_splice_lifetime_secs : Z
}.

Definition RelayGrant_descriptor (g : RelayGrant) : RelayDescriptor :=
  {| rd_addr := rgr_addr g; rd_port := rgr_port g; rd_obf := rgr_obf g |}.

Definition RelayDescriptor_dial (d : RelayDescriptor) : bytes := rd_addr d ++ str ":" ++ show_dec (rd_port d).

Definition RelayGrant_dial (g : RelayGrant) : bytes := rgr_addr g ++ str ":" ++ show_dec (rgr_port g).

(** ** Scopes, names and addresses *)

Definition SCOPE_READ : bytes := str "share:read".
Definition SCOPE_WRITE : bytes := str "share:write".
Definition SCOPE_IMPORT : bytes := str "share:import".

Definition scope_contains (scope name : bytes) : bool :=
  existsb (fun s => bool_decide (s = name)) (split 32 scope).

(** The loop of [candidate_addrs] over trimmed addresses. *)
Definition push_addr (out : list bytes) (a : bytes) : list bytes :=
  let a := trim a in
  if negb (bool_decide (a = [])) && negb (existsb (fun x => bool_decide (x = a)) out) then out ++ [a] else out.

Definition candidate_addrs (g : ShareGrant) : list bytes :=
  foldl push_addr [] (sg_addrs g ++ [sg_addr g]).

Definition web_share_id (publication : bytes) : bytes := str "web:" ++ publication.

Definition valid_publication_name (name : bytes) : bool :=
  ((1 <=? zlen name) && (zlen name <=? 63)) &&
  forallb (fun b => in_rng 97 122 b || in_rng 48 57 b || (b =? 45)) name &&
  negb (starts_with (str "-") name) && negb (ends_with (str "-") name).

(** ** Canonical bytes *)

Definition token_signing_bytes (share_id scope : bytes) (exp : Z) : bytes :=
  join [10] [str "xr-share-token"; str "v2"; share_id; scope; show_dec exp].

Definition agent_credential_signing_bytes (agent_pubkey : bytes) (exp : Z) : bytes :=
  join [10] [str "xr-share-agent-cred"; str "v1"; agent_pubkey; show_dec exp].

Definition relay_token_signing_bytes (share_id agent_pubkey : bytes) (exp : Z) : bytes :=
  join [10] [str "xr-relay-token"; str "v1"; share_id; agent_pubkey; show_dec exp].

Definition expose_token_signing_bytes (publication agent_pubkey : bytes) (exp : Z) : bytes :=
  join [10] [str "xr-expose-token"; str "v1"; publication; agent_pubkey; show_dec exp].

Definition relay_register_signing_bytes (nonce : bytes) : bytes :=
  str "xr-relay-register" ++ 10 :: str "v1" ++ 10 :: nonce.

Definition manifest_signing_bytes (share_id : bytes) (signed_at : Z) (manifest_json : bytes) : bytes :=
  join [10] [str "xr-share-manifest"; str "v1"; share_id; show_dec signed_at] ++ [10] ++ manifest_json.

(** xr-hub/src/api/register.rs. *)
Definition reg_signing_bytes (exp : Z) : bytes := join [10] [str "xr-share-reg"; str "v1"; show_dec exp].

(** ** Signing and checking *)

Inductive ShareTokenError := StMalformedSignature | StBadSignature | StExpired | StWrongShare | StMissingScope.
Inductive AgentCredentialError := AcMalformedSignature | AcBadSignature | AcExpired.
Inductive ManifestSigError := MsMalformedKey | MsMalformedSignature | MsBadSignature.
Inductive RelayTokenError := RtMalformedSignature | RtBadSignature | RtExpired | RtWrongShare | RtWrongAgent.
Inductive ExposeTokenError := EtMalformedSignature | EtBadSignature | EtExpired | EtWrongPublication | EtWrongAgent.
Inductive RelayRegisterError := RrBadCredential | RrMalformedKey | RrMalformedSignature | RrBadSignature.
Inductive RegTokenError := RgExpired | RgMalformedSignature | RgInvalid.

Inductive RelayObfError := ObfKeyNotBase64 | ObfKeyEmpty | ObfModifierUnknown (modifier : bytes).

Section crypto.
Context `{Base64} `{Ed25519}.

(** The decoding every check starts with: base64 of exactly 64 bytes. *)
Definition decode_signature (s : bytes) : option bytes :=
  b ← b64_decode (trim s); if bool_decide (length b = 64%nat) then Some b else None.

(** Decode, then verify; [mal] and [bad] are the errors of the caller. *)
Definition check_signature {E} (mal bad : E) (key msg signature : bytes) : result unit E :=
  match decode_signature signature with
  | None => Err mal
  | Some s => if ed_verify key msg s then Ok tt else Err bad
  end.

Definition sign_share_token (k share_id scope : bytes) (exp : Z) : ShareToken :=
  {| st_share_id := share_id; st_scope := scope; st_exp := exp;
     st_signature := b64_encode (ed_sign k (token_signing_bytes share_id scope exp)) |}.

Definition verify_share_token (t : ShareToken) (hub_key expected_share_id required_scope : bytes) (now : Z) :
    result unit ShareTokenError :=
  if negb (bool_decide (st_share_id t = expected_share_id)) then Err StWrongShare
  else if st_exp t <=? now then Err StExpired
  else match check_signature StMalformedSignature StBadSignature hub_key
               (token_signing_bytes (st_share_id t) (st_scope t) (st_exp t)) (st_signature t) with
       | Err e => Err e
       | Ok _ => if scope_contains (st_scope t) required_scope then Ok tt else Err StMissingScope
       end.

Definition sign_agent_credential (k agent_pubkey : bytes) (exp : Z) : AgentCredential :=
  {| ac_agent_pubkey := agent_pubkey; ac_exp := exp;
     ac_signature := b64_encode (ed_sign k (agent_credential_signing_bytes agent_pubkey exp)) |}.

Definition verify_agent_credential (c : AgentCredential) (hub_key : bytes) (now : Z) :
    result unit AgentCredentialError :=
  if ac_exp c <=? now then Err AcExpired
  else check_signature AcMalformedSignature AcBadSignature hub_key
         (agent_credential_signing_bytes (ac_agent_pubkey c) (ac_exp c)) (ac_signature c).

Definition sign_relay_token (k share_id agent_pubkey : bytes) (exp : Z) : RelayToken :=
  {| rt_share_id := share_id; rt_agent_pubkey := agent_pubkey; rt_exp := exp;
     rt_signature := b64_encode (ed_sign k (relay_token_signing_bytes share_id agent_pubkey exp)) |}.

Definition verify_relay_token (t : RelayToken) (hub_key expected_share_id expected_agent_pubkey : bytes) (now : Z) :
    result unit RelayTokenError :=
  if negb (bool_decide (rt_share_id t = expected_share_id)) then Err RtWrongShare
  else if negb (bool_decide (rt_agent_pubkey t = expected_agent_pubkey)) then Err RtWrongAgent
  else if rt_exp t <=? now then Err RtExpired
  else check_signature RtMalformedSignature RtBadSignature hub_key
         (relay_token_signing_bytes (rt_share_id t) (rt_agent_pubkey t) (rt_exp t)) (rt_signature t).

Definition sign_expose_token (k publication agent_pubkey : bytes) (exp : Z) : ExposeToken :=
  {| et_publication := publication; et_agent_pubkey := agent_pubkey; et_exp := exp;
     et_signature := b64_encode (ed_sign k (expose_token_signing_bytes publication agent_pubkey exp)) |}.

Definition verify_expose_token (t : ExposeToken) (hub_key expected_publication expected_agent_pubkey : bytes)
    (now : Z) : result unit ExposeTokenError :=
  if negb (bool_decide (et_publication t = expected_publication)) then Err EtWrongPublication
  else if negb (bool_decide (et_agent_pubkey t = expected_agent_pubkey)) then Err EtWrongAgent
  else if et_exp t <=? now then Err EtExpired
  else check_signature EtMalformedSignature EtBadSignature hub_key
         (expose_token_signing_bytes (et_publication t) (et_agent_pubkey t) (et_exp t)) (et_signature t).

Definition parse_agent_pubkey (b64 : bytes) : result bytes ManifestSigError :=
  match b64_decode (trim b64) with
  | None => Err MsMalformedKey
  | Some b =>
      if bool_decide (length b = 32%nat)
      then match ed_from_bytes b with Some k => Ok k | None => Err MsMalformedKey end
      else Err MsMalformedKey
  end.

Definition sign_relay_register (identity : bytes) (credential : AgentCredential) (nonce : bytes) : RelayRegister :=
  {| rr_credential := credential;
     rr_nonce_sig := b64_encode (ed_sign identity (relay_register_signing_bytes nonce)) |}.

Definition verify_relay_register (r : RelayRegister) (hub_key nonce : bytes) (now : Z) :
    result bytes RelayRegisterError :=
  match verify_agent_credential (rr_credential r) hub_key now with
  | Err _ => Err RrBadCredential
  | Ok _ =>
      match parse_agent_pubkey (ac_agent_pubkey (rr_credential r)) with
      | Err _ => Err RrMalformedKey
      | Ok agent_key =>
          match check_signature RrMalformedSignature RrBadSignature agent_key
                  (relay_register_signing_bytes nonce) (rr_nonce_sig r) with
          | Err e => Err e
          | Ok _ => Ok (ac_agent_pubkey (rr_credential r))
          end
      end
  end.

Definition sign_share_manifest (k share_id : bytes) (signed_at : Z) (manifest_json : bytes) : bytes :=
  b64_encode (ed_sign k (manifest_signing_bytes share_id signed_at manifest_json)).

Definition verify_share_manifest (sig_b64 agent_key share_id : bytes) (signed_at : Z) (manifest_json : bytes) :
    result unit ManifestSigError :=
  check_signature MsMalformedSignature MsBadSignature agent_key
    (manifest_signing_bytes share_id signed_at manifest_json) sig_b64.

(** xr-hub/src/api/register.rs, on the decoded token [(exp, signature)]. *)
Definition verify_reg_token (hub_key : bytes) (exp : Z) (signature : bytes) (now : Z) : result unit RegTokenError :=
  if exp <=? now then Err RgExpired
  else check_signature RgMalformedSignature RgInvalid hub_key (reg_signing_bytes exp) signature.

(** The codec of a relay's multiplexer, its three error texts as constructors; the outer [None] is the panic of an empty
    key, which the check before it rules out. *)
Definition RelayObf_codec (o : RelayObf) : option (result Codec RelayObfError) :=
  match b64_decode (trim (ro_key o)) with
  | None => Some (Err ObfKeyNotBase64)
  | Some k =>
      if bool_decide (k = []) then Some (Err ObfKeyEmpty) else
      match ModifierStrategy_from_str (ro_modifier o) with
      | None => Some (Err (ObfModifierUnknown (ro_modifier o)))
      | Some strategy =>
          obf ← Obfuscator_new k (u32 (ro_salt o)) strategy;
          Some (Ok (Codec_new obf (ro_padding_min o) (ro_padding_max o)))
      end
  end.

(** ** A fresh mandate is accepted exactly where it should be *)

Lemma decode_signed k m : decode_signature (b64_encode (ed_sign k m)) = Some (ed_sign k m).
Proof.
  unfold decode_signature. rewrite trim_graph by apply b64_graph.
  rewrite b64_roundtrip by apply ed_sign_bytes. cbn [mbind option_bind].
  by rewrite bool_decide_true by apply ed_sign_length.
Qed.

Lemma check_signed {E} (mal bad : E) k m :
  check_signature mal bad (verifying_key k) m (b64_encode (ed_sign k m)) = Ok tt.
Proof. unfold check_signature. by rewrite decode_signed, ed_verify_sign. Qed.

(** what the hub and the agents sign is accepted where it should be, and refused
    with the reason that applies first elsewhere. A share token passes for its share,
    until its deadline, for the scopes it lists; a relay or expose token for its two
    names and its time; an agent's credential until its deadline; a registration
    answer gives back the key of the credential when the agent holds that key; a
    manifest verifies under the key of its agent. *)
Theorem mandates_verify (k : bytes) (now exp : Z) :
  (forall share_id scope expected required,
     verify_share_token (sign_share_token k share_id scope exp) (verifying_key k) expected required now =
     if negb (bool_decide (share_id = expected)) then Err StWrongShare else if exp <=? now then Err StExpired
     else if scope_contains scope required then Ok tt else Err StMissingScope) /\
  (forall share_id agent es ea,
     verify_relay_token (sign_relay_token k share_id agent exp) (verifying_key k) es ea now =
     if negb (bool_decide (share_id = es)) then Err RtWrongShare
     else if negb (bool_decide (agent = ea)) then Err RtWrongAgent else if exp <=? now then Err RtExpired else Ok tt) /\
  (forall publication agent ep ea,
     verify_expose_token (sign_expose_token k publication agent exp) (verifying_key k) ep ea now =
     if negb (bool_decide (publication = ep)) then Err EtWrongPublication
     else if negb (bool_decide (agent = ea)) then Err EtWrongAgent else if exp <=? now then Err EtExpired else Ok tt) /\
  (forall agent,
     verify_agent_credential (sign_agent_credential k agent exp) (verifying_key k) now =
     if exp <=? now then Err AcExpired else Ok tt) /\
  (forall identity agent nonce, parse_agent_pubkey agent = Ok (verifying_key identity) ->
     verify_relay_register (sign_relay_register identity (sign_agent_credential k agent exp) nonce)
       (verifying_key k) nonce now = if exp <=? now then Err RrBadCredential else Ok agent) /\
  (forall share_id signed_at json,
     verify_share_manifest (sign_share_manifest k share_id signed_at json) (verifying_key k) share_id signed_at json = Ok tt).
Proof.
  assert (Hcred : forall agent, verify_agent_credential (sign_agent_credential k agent exp) (verifying_key k) now =
    if exp <=? now then Err AcExpired else Ok tt).
  { intros agent. unfold verify_agent_credential. cbn [ac_exp ac_agent_pubkey ac_signature sign_agent_credential].
    by rewrite check_signed. }
  split_and!; intros.
  - unfold verify_share_token. cbn [st_share_id st_exp st_scope st_signature sign_share_token]. by rewrite check_signed.
  - unfold verify_relay_token. cbn [rt_share_id rt_exp rt_agent_pubkey rt_signature sign_relay_token]. by rewrite check_signed.
  - unfold verify_expose_token. cbn [et_publication et_exp et_agent_pubkey et_signature sign_expose_token].
    by rewrite check_signed.
  - apply Hcred.
  - unfold verify_relay_register. cbn [rr_credential rr_nonce_sig sign_relay_register]. rewrite Hcred. destruct (exp <=? now); [done |].
    cbn [ac_agent_pubkey sign_agent_credential]. match goal with E : parse_agent_pubkey _ = _ |- _ => rewrite E end.
    by rewrite check_signed.
  - apply check_signed.
Qed.

(** ** What the keys sign *)

(** Everything the hub's key signs: the mandates, and JSON documents (presets and
    release manifests). *)
Inductive HubSigned :=
| HShare (share_id scope : bytes) (exp : Z)
| HCred (agent_pubkey : bytes) (exp : Z)
| HRelay (share_id agent_pubkey : bytes) (exp : Z)
| HExpose (publication agent_pubkey : bytes) (exp : Z)
| HReg (exp : Z)
| HJson (body : bytes).

Definition hub_bytes (h : HubSigned) : bytes :=
  match h with
  | HShare s sc e => token_signing_bytes s sc e
  | HCred a e => agent_credential_signing_bytes a e
  | HRelay s a e => relay_token_signing_bytes s a e
  | HExpose p a e => expose_token_signing_bytes p a e
  | HReg e => reg_signing_bytes e
  | HJson b => b
  end.

(** The fields of a mandate the hub mints are generated identifiers, checked names,
    trimmed base64 or fixed scopes: none holds a line break. A document is an object. *)
Definition hub_ok (h : HubSigned) : Prop :=
  match h with
  | HShare s sc e => (10 ∉ s) /\ (10 ∉ sc) /\ 0 <= e < 2 ^ 64
  | HCred a e => (10 ∉ a) /\ 0 <= e < 2 ^ 64
  | HRelay s a e | HExpose s a e => (10 ∉ s) /\ (10 ∉ a) /\ 0 <= e < 2 ^ 64
  | HReg e => 0 <= e < 2 ^ 64
  | HJson b => exists b', b = 123 :: b'
  end.

(** What an agent's identity key signs. *)
Inductive AgentSigned :=
| AManifest (share_id : bytes) (signed_at : Z) (manifest_json : bytes)
| ARegister (nonce : bytes).

Definition agent_bytes (a : AgentSigned) : bytes :=
  match a with
  | AManifest s t j => manifest_signing_bytes s t j
  | ARegister n => relay_register_signing_bytes n
  end.

Definition agent_ok (a : AgentSigned) : Prop :=
  match a with AManifest s t _ => (10 ∉ s) /\ 0 <= t < 2 ^ 64 | ARegister _ => True end.

(** The signature is not a forgery: under that key it verifies only what was signed. *)
Definition genuine (key : bytes) (signed : list bytes) (signature : bytes) : Prop :=
  forall s m, decode_signature signature = Some s -> ed_verify key m s = true -> m ∈ signed.

Lemma check_genuine {E} (mal bad : E) key msg signature signed :
  genuine key signed signature -> check_signature mal bad key msg signature = Ok tt -> msg ∈ signed.
Proof.
  unfold check_signature. intros Hg. destruct (decode_signature signature) as [s |] eqn:Es; [| done].
  destruct (ed_verify key msg s) eqn:Ev; [| done]. intros _. by apply (Hg s).
Qed.

(** The first line of a mandate tells its kind. *)
Definition first_line (m : bytes) : option bytes := head (split 10 m).

Lemma first_line_join d ws : 10 ∉ d -> ws <> [] -> first_line (join [10] (d :: ws)) = Some d.
Proof. intros Hd Hw. unfold first_line. rewrite join_cons by done. cbn [app]. by rewrite split_app_sep. Qed.

Lemma first_line_json b : first_line (123 :: b) <> Some (str "xr-share-token") /\
  first_line (123 :: b) <> Some (str "xr-share-agent-cred") /\ first_line (123 :: b) <> Some (str "xr-relay-token") /\
  first_line (123 :: b) <> Some (str "xr-expose-token") /\ first_line (123 :: b) <> Some (str "xr-share-reg").
Proof.
  unfold first_line. cbn [split]. change (123 =? 10) with false. cbv iota.
  pose proof (split_nonempty 10 b). destruct (split 10 b); [done |]. cbn [head]. split_and!; by intros [= ?].
Qed.

Definition hub_domain (h : HubSigned) : option bytes :=
  match h with
  | HShare _ _ _ => Some (str "xr-share-token")
  | HCred _ _ => Some (str "xr-share-agent-cred")
  | HRelay _ _ _ => Some (str "xr-relay-token")
  | HExpose _ _ _ => Some (str "xr-expose-token")
  | HReg _ => Some (str "xr-share-reg")
  | HJson _ => None
  end.

(** The fields after the domain and the version. *)
Definition hub_fields (h : HubSigned) : list bytes :=
  match h with
  | HShare s sc e => [str "v2"; s; sc; show_dec e]
  | HCred a e => [str "v1"; a; show_dec e]
  | HRelay s a e | HExpose s a e => [str "v1"; s; a; show_dec e]
  | HReg e => [str "v1"; show_dec e]
  | HJson _ => []
  end.

Lemma hub_bytes_fields h d : hub_domain h = Some d -> hub_bytes h = join [10] (d :: hub_fields h).
Proof. destruct h; intros Hd; cbn [hub_domain] in Hd; (discriminate Hd || injection Hd as <-); reflexivity. Qed.

Lemma domain_line h d : hub_domain h = Some d -> 10 ∉ d.
Proof. destruct h; intros Hd; cbn [hub_domain] in Hd; (discriminate Hd || injection Hd as <-); by_compute. Qed.

Lemma hub_first_line h d : hub_domain h = Some d -> first_line (hub_bytes h) = Some d.
Proof.
  intros Hd. rewrite (hub_bytes_fields h d Hd). apply first_line_join; [by apply (domain_line h) |]. by destruct h.
Qed.

Lemma show_dec_line n : 10 ∉ show_dec n.
Proof. intros Hn%show_dec_digits. lia. Qed.

Lemma hub_clean h d : hub_ok h -> hub_domain h = Some d -> Forall (fun w => not (10 ∈ w)) (d :: hub_fields h).
Proof.
  assert (forall e, not (10 ∈ show_dec e)) by (intros e; apply show_dec_line).
  assert (Hv : not (10 ∈ str "v1") /\ not (10 ∈ str "v2")) by (split; by_compute).
  intros Ho Hd. apply Forall_cons. split; [by apply (domain_line h) |]. clear Hd.
  destruct h; cbn [hub_fields hub_ok] in *; repeat (apply Forall_cons; split); try apply Forall_nil; tauto || auto.
Qed.

(** Two mandates with the same bytes are the same, when one is the hub's. *)
Lemma hub_bytes_inj h h' d :
  hub_domain h = Some d -> hub_ok h' -> hub_bytes h = hub_bytes h' ->
  hub_domain h' = Some d /\ (length (hub_fields h) = length (hub_fields h') -> hub_fields h = hub_fields h').
Proof.
  intros Hd Ho E. assert (Hd' : hub_domain h' = Some d).
  { destruct (hub_domain h') as [d' |] eqn:Ed.
    - pose proof (hub_first_line h d Hd) as H1. pose proof (hub_first_line h' d' Ed) as H2. congruence.
    - destruct h'; try done. destruct Ho as [b ->]. exfalso. pose proof (hub_first_line h d Hd) as H1.
      rewrite E in H1. cbn [hub_bytes] in H1. pose proof (first_line_json b) as (? & ? & ? & ? & ?).
      destruct h; cbn [hub_domain] in Hd; congruence. }
  split; [done |]. intros Hl. rewrite (hub_bytes_fields h d), (hub_bytes_fields h' d) in E by done.
  apply join_fields_inj in E; [by injection E | cbn; congruence | by apply hub_clean].
Qed.

Lemma hub_minted h minted :
  (exists d, hub_domain h = Some d) ->
  match h with HShare _ _ e | HCred _ e | HRelay _ _ e | HExpose _ _ e | HReg e => 0 <= e < 2 ^ 64 | HJson _ => True end ->
  Forall hub_ok minted -> hub_bytes h ∈ map hub_bytes minted -> h ∈ minted.
Proof.
  intros [d Hd] He Hf (h' & E & Hin)%list_elem_of_fmap. rewrite Forall_forall in Hf. specialize (Hf h' Hin).
  destruct (hub_bytes_inj h h' d Hd Hf E) as [Hd' Hi].
  assert (h = h') as ->; [| done].
  destruct h, h'; cbn [hub_domain] in *; simplify_eq; try (by (rewrite <- Hd in Hd'; discriminate Hd'));
    cbn [hub_fields length hub_ok] in *; specialize (Hi eq_refl); simplify_eq; f_equal; apply show_dec_inj; tauto.
Qed.

Lemma manifest_bytes_eq s t j :
  manifest_signing_bytes s t j =
  str "xr-share-manifest" ++ 10 :: str "v1" ++ 10 :: s ++ 10 :: show_dec t ++ 10 :: j.
Proof. unfold manifest_signing_bytes. cbn [join]. by rewrite <- !app_assoc. Qed.

Lemma agent_first_line a :
  first_line (agent_bytes a) =
  Some (match a with AManifest _ _ _ => str "xr-share-manifest" | ARegister _ => str "xr-relay-register" end).
Proof.
  unfold first_line. destruct a; cbn [agent_bytes].
  - rewrite manifest_bytes_eq, split_app_sep by by_compute. done.
  - unfold relay_register_signing_bytes. rewrite split_app_sep by by_compute. done.
Qed.

Lemma agent_signed a signed :
  agent_ok a -> Forall agent_ok signed -> agent_bytes a ∈ map agent_bytes signed -> a ∈ signed.
Proof.
  intros Ha Hf (a' & E & Hin)%list_elem_of_fmap. rewrite Forall_forall in Hf. specialize (Hf a' Hin).
  assert (a = a') as ->; [| done]. pose proof (agent_first_line a) as H1. pose proof (agent_first_line a') as H2.
  rewrite E in H1. rewrite H1 in H2. destruct a as [s t j | n], a' as [s' t' j' | n']; try discriminate H2; clear H1 H2.
  - cbn [agent_bytes agent_ok] in *. rewrite !manifest_bytes_eq in E. apply app_inv_head in E.
    injection E as E.
    apply app_sep_inj in E as [-> E]; [| tauto | tauto].
    apply app_sep_inj in E as [E ->]; [| apply show_dec_line | apply show_dec_line].
    f_equal. apply show_dec_inj; tauto.
  - cbn [agent_bytes] in E. unfold relay_register_signing_bytes in E. apply app_inv_head in E. by injection E as ->.
Qed.

(** What an accepted share token proves. *)
Lemma share_token_bound (hub_key : bytes) (minted : list HubSigned) (now : Z) t expected required :
  Forall hub_ok minted -> 0 <= st_exp t < 2 ^ 64 -> genuine hub_key (map hub_bytes minted) (st_signature t) ->
  verify_share_token t hub_key expected required now = Ok tt ->
  HShare expected (st_scope t) (st_exp t) ∈ minted /\ now < st_exp t /\ scope_contains (st_scope t) required = true.
Proof.
  intros Hm He Hg. unfold verify_share_token. case_bool_decide as Hs; cbn [negb]; [| done].
  case_cmp; [done |]. destruct (check_signature _ _ _ _ _) as [[] | e] eqn:Ec; [| done].
  destruct (scope_contains _ _); [| done]. intros _. split_and!; [| done | done].
  subst expected. by eapply (hub_minted (HShare _ _ _)); [eexists | | | eapply check_genuine].
Qed.

(** C19: no mandate can be turned into another. As long as the signature somebody
    presents is not a forgery, whatever the checks accept was signed for exactly that
    purpose: an accepted share token is a share token the hub minted for that share
    with that scope and deadline, an accepted relay or expose token one it minted for
    that pair of names, an accepted credential one it minted for that key; a
    registration answer is over the nonce that was sent, made with the key the hub
    vouches for; and an accepted manifest is the one the pinned agent signed for that
    share. None passes after its deadline, and the claims inside a presented token
    may hold any bytes. *)
Theorem mandates_bound (hub_key : bytes) (minted : list HubSigned) (now : Z) :
  Forall hub_ok minted ->
  (forall t expected required, 0 <= st_exp t < 2 ^ 64 -> genuine hub_key (map hub_bytes minted) (st_signature t) ->
     verify_share_token t hub_key expected required now = Ok tt ->
     HShare expected (st_scope t) (st_exp t) ∈ minted /\ now < st_exp t /\ scope_contains (st_scope t) required = true) /\
  (forall t es ea, 0 <= rt_exp t < 2 ^ 64 -> genuine hub_key (map hub_bytes minted) (rt_signature t) ->
     verify_relay_token t hub_key es ea now = Ok tt -> HRelay es ea (rt_exp t) ∈ minted /\ now < rt_exp t) /\
  (forall t ep ea, 0 <= et_exp t < 2 ^ 64 -> genuine hub_key (map hub_bytes minted) (et_signature t) ->
     verify_expose_token t hub_key ep ea now = Ok tt -> HExpose ep ea (et_exp t) ∈ minted /\ now < et_exp t) /\
  (forall exp signature, 0 <= exp < 2 ^ 64 -> genuine hub_key (map hub_bytes minted) signature ->
     verify_reg_token hub_key exp signature now = Ok tt -> HReg exp ∈ minted /\ now < exp) /\
  (forall r nonce agent, 0 <= ac_exp (rr_credential r) < 2 ^ 64 ->
     genuine hub_key (map hub_bytes minted) (ac_signature (rr_credential r)) ->
     verify_relay_register r hub_key nonce now = Ok agent ->
     HCred agent (ac_exp (rr_credential r)) ∈ minted /\ now < ac_exp (rr_credential r) /\
     exists agent_key, parse_agent_pubkey agent = Ok agent_key /\
       forall signed, Forall agent_ok signed -> genuine agent_key (map agent_bytes signed) (rr_nonce_sig r) ->
         ARegister nonce ∈ signed) /\
  (forall sig agent_key share_id signed_at json signed, Forall agent_ok signed -> 10 ∉ share_id ->
     0 <= signed_at < 2 ^ 64 -> genuine agent_key (map agent_bytes signed) sig ->
     verify_share_manifest sig agent_key share_id signed_at json = Ok tt -> AManifest share_id signed_at json ∈ signed).
Proof.
  intros Hm. split_and!.
  - intros t es sc. by apply share_token_bound.
  - intros t es ea He Hg. unfold verify_relay_token. do 2 (case_bool_decide; cbn [negb]; [| done]).
    case_cmp; [done |]. intros Hc. split; [| done]. subst.
    by eapply (hub_minted (HRelay _ _ _)); [eexists | | | eapply check_genuine].
  - intros t es ea He Hg. unfold verify_expose_token. do 2 (case_bool_decide; cbn [negb]; [| done]).
    case_cmp; [done |]. intros Hc. split; [| done]. subst.
    by eapply (hub_minted (HExpose _ _ _)); [eexists | | | eapply check_genuine].
  - intros e sg He Hg. unfold verify_reg_token. case_cmp; [done |]. intros Hc. split; [| done].
    by eapply (hub_minted (HReg _)); [eexists | | | eapply check_genuine].
  - intros r nonce agent He Hg. unfold verify_relay_register.
    destruct (verify_agent_credential _ _ _) as [[] | e] eqn:Ev; [| done].
    destruct (parse_agent_pubkey _) as [ak | e] eqn:Ek; [| done].
    destruct (check_signature _ _ ak _ _) as [[] | e] eqn:Ec; [| done]. intros [= <-].
    unfold verify_agent_credential in Ev. destruct (Z.leb_spec (ac_exp (rr_credential r)) now); [done |]. split_and!; [| done |].
    + by eapply (hub_minted (HCred _ _)); [eexists | | | eapply check_genuine].
    + exists ak. split; [done |]. intros signed Hs Hga.
      by eapply (agent_signed (ARegister _)); [| | eapply check_genuine].
  - intros sg ak s t j signed Hs Hl Ht Hg Hc.
    by eapply (agent_signed (AManifest _ _ _)); [split | | eapply check_genuine].
Qed.

End crypto.

(** ** Addresses *)

Lemma existsb_eq (a : bytes) l : existsb (fun x => bool_decide (x = a)) l = true <-> a ∈ l.
Proof.
  rewrite existsb_exists. split.
  - intros (x & Hx & ->%bool_decide_eq_true). by apply list_elem_of_In.
  - intros Ha. exists a. split; [by apply list_elem_of_In | by apply bool_decide_true].
Qed.

Lemma push_addrs_spec raw out :
  NoDup out -> NoDup (foldl push_addr out raw) /\
  (forall a, a ∈ foldl push_addr out raw <-> a ∈ out \/ a <> [] /\ a ∈ map trim raw).
Proof.
  revert out. induction raw as [| r raw IH]; intros out Hn; cbn [foldl map].
  - split; [done |]. intros a. rewrite elem_of_nil. tauto.
  - assert (Hp : NoDup (push_addr out r) /\ forall a, a ∈ push_addr out r <-> a ∈ out \/ a <> [] /\ a = trim r).
    { unfold push_addr. pose proof (existsb_eq (trim r) out) as He.
      case_bool_decide as Ht; cbn [negb andb]; [split; [done |]; intros a; split; [tauto | intros [? | [? ->]]; tauto] |].
      destruct (existsb _ _); cbn [negb].
      - split; [done |]. intros a. split; [tauto |]. intros [? | [_ ->]]; tauto.
      - assert (trim r ∉ out) by (intros ?%He; done). split.
        + apply NoDup_app. split_and!; [done | | apply NoDup_singleton]. intros x Hx ->%list_elem_of_singleton. done.
        + intros a. rewrite elem_of_app, list_elem_of_singleton. split; [intros [? | ->]; auto | intros [? | [_ ->]]; auto]. }
    destruct Hp as [Hp1 Hp2]. destruct (IH _ Hp1) as [H1 H2]. split; [done |]. intros a. rewrite H2, Hp2, elem_of_cons. tauto.
Qed.

Lemma candidate_addrs_spec g :
  NoDup (candidate_addrs g) /\
  forall a, a ∈ candidate_addrs g <-> a <> [] /\ exists raw, raw ∈ sg_addrs g ++ [sg_addr g] /\ a = trim raw.
Proof.
  destruct (push_addrs_spec (sg_addrs g ++ [sg_addr g]) []) as [H1 H2]; [constructor |].
  split; [done |]. intros a. unfold candidate_addrs. rewrite H2, elem_of_nil, list_elem_of_fmap.
  split; [intros [? | (? & raw & ? & ?)]; [done | eauto] | intros (? & raw & ? & ?); right; eauto].
Qed.

(** ** Witnesses: a codec and a signature scheme that meet the interfaces

    Each byte as two letters; a signature that spells a short message out. *)

Definition toy_encode (b : bytes) : bytes := concat (map (fun x => [65 + x / 16; 65 + x mod 16]) b).

Fixpoint toy_decode (l : bytes) : option bytes :=
  match l with
  | [] => Some []
  | h :: l :: r =>
      if in_rng 65 80 h && in_rng 65 80 l then b ← toy_decode r; Some ((h - 65) * 16 + (l - 65) :: b) else None
  | [_] => None
  end.

#[refine] Definition toy_base64 : Base64 :=
  {| b64_encode b := if bool_decide (bytes_ok b) then toy_encode b else []; b64_decode := toy_decode |}.
Proof.
  - intros b Hb. rewrite bool_decide_true by done. induction Hb as [| x b Hx Hb IH]; [done |].
    unfold toy_encode in *. cbn [map concat app toy_decode]. unfold is_byte in Hx.
    assert (in_rng 65 80 (65 + x / 16) && in_rng 65 80 (65 + x mod 16) = true) as ->
      by (unfold in_rng; rewrite !andb_true_iff, !Z.leb_le; divmod).
    rewrite IH. cbn [mbind option_bind]. do 2 f_equal. divmod.
  - intros b. case_bool_decide as Hb; [| constructor]. induction Hb as [| x b Hx Hb IH]; [constructor |].
    unfold toy_encode, is_byte in *. cbn [map concat app].
    apply Forall_cons; split; [unfold is_graph; divmod |]. apply Forall_cons; split; [unfold is_graph; divmod | done].
  - intros l. induction l as [l IH] using (induction_ltof1 _ (@length Z)). unfold ltof in IH. intros b.
    destruct l as [| h [| w r]]; cbn [toy_decode]; [constructor | done |].
    destruct (in_rng 65 80 h && in_rng 65 80 w) eqn:E; [| done]. destruct (toy_decode r) as [b' |] eqn:Er; [| done].
    intros _. unfold in_rng in E. bool_props. unfold is_graph.
    constructor; [lia |]. constructor; [lia |]. apply (IH r) with b'; [cbn; lia | done].
Defined.

Definition toy_sign (k m : bytes) : bytes :=
  if bool_decide (bytes_ok m /\ (length m <= 62)%nat)
  then zlen m :: m ++ repeat 0 (63 - length m) else repeat 255 64.

Lemma toy_sign_inj k k' m m' : bytes_ok m -> (length m <= 62)%nat -> toy_sign k' m' = toy_sign k m -> m' = m.
Proof.
  intros Hm Hl E. unfold toy_sign in E. rewrite (bool_decide_true (bytes_ok m /\ _)) in E by done.
  case_bool_decide as Hm'.
  - injection E as E1 E2. assert (length m' = length m) by (unfold zlen in E1; lia). by apply app_inj_1 in E2 as [-> _].
  - injection E as E1 _. unfold zlen in E1. lia.
Qed.

#[refine] Definition toy_ed25519 : Ed25519 :=
  {| verifying_key k := k; ed_from_bytes b := Some b; ed_sign := toy_sign;
     ed_verify key m s := bool_decide (s = toy_sign key m) |}.
Proof.
  - intros k m. unfold toy_sign. case_bool_decide; [| done]. cbn [length]. rewrite length_app, repeat_length. lia.
  - intros k m. unfold toy_sign. case_bool_decide as Hc; [| by_compute]. apply bytes_ok_cons. split.
    + unfold is_byte, zlen. lia.
    + apply bytes_ok_app. split; [tauto |]. apply Forall_forall. intros x Hx%list_elem_of_In%repeat_spec. by subst.
  - intros k m. by apply bool_decide_true.
Defined.

Definition ex_hub : bytes := repeat 42 32.
Definition ex_token : ShareToken :=
  @sign_share_token toy_base64 toy_ed25519 ex_hub (str "s1") (str "share:read") 5000.

Lemma ex_token_genuine :
  @genuine toy_base64 toy_ed25519 ex_hub [token_signing_bytes (str "s1") (str "share:read") 5000] (st_signature ex_token).
Proof.
  intros s m Hd Hv. unfold ex_token, sign_share_token in Hd. cbn [st_signature] in Hd. rewrite decode_signed in Hd.
  injection Hd as <-. apply bool_decide_eq_true in Hv. symmetry in Hv.
  apply toy_sign_inj in Hv as ->; [by left | by_compute | vm_compute; lia].
Qed.

Lemma mandates_verify_witness :
  @verify_share_token toy_base64 toy_ed25519 ex_token ex_hub (str "s1") (str "share:read") 4999 = Ok tt /\
  @verify_share_token toy_base64 toy_ed25519 ex_token ex_hub (str "s1") (str "share:write") 4999 = Err StMissingScope.
Proof.
  pose proof (@mandates_verify toy_base64 toy_ed25519 ex_hub 4999 5000) as [Hs _].
  split; (etransitivity; [apply (Hs (str "s1") (str "share:read")) | vm_compute; reflexivity]).
Defined.

Lemma mandates_bound_witness :
  HShare (str "s1") (str "share:read") 5000 ∈ [HShare (str "s1") (str "share:read") 5000] /\ 4999 < 5000.
Proof.
  assert (Hok : Forall hub_ok [HShare (str "s1") (str "share:read") 5000])
    by (apply Forall_singleton; split_and!; [by_compute | by_compute | lia | vm_compute; reflexivity]).
  destruct (@mandates_bound toy_base64 toy_ed25519 ex_hub _ 4999 Hok) as [Hs _].
  destruct (Hs ex_token (str "s1") (str "share:read")) as (H1 & H2 & _);
    [split; vm_compute; congruence | apply ex_token_genuine | vm_compute; reflexivity | by split].
Defined.
