(* ===== verification/Hub.v ===== *)
(** * The hub: shares, invites, publications (xr-hub/src/api, storage.rs, state.rs)

    The control plane as a state of tables in memory and on disk. A handler is a
    function from the state, the request and the answers of the outside world (the
    clock, the random generator, the disk) to the new state and the reply; a reply's
    error is its HTTP status. Bodies arrive decoded: a credential or a registration
    token that is not base64url JSON is [None]. A restart reads the tables back from
    the disk. *)

From S2P Require Import Prelude Text Order Share.

(** ** Data (xr-proto/src/preset.rs, xr-hub/src/config.rs) *)

Record PayloadServer := { ps_name : bytes; ps_address : bytes; ps_port : Z; ps_priority : Z }.

Record InvitePayload := {
  ip_server_address : bytes; ip_server_port : Z; ip_obfuscation_key : bytes; ip_modifier : bytes; ip_salt : Z;
  ip_preset : bytes; ip_hub_url : bytes; ip_servers : list PayloadServer
}.

Record Invite := {
  iv_token : bytes; iv_created_at : bytes; iv_expires_at : bytes; iv_consumed_at : option bytes;
  iv_claimed_by_ip : option bytes; iv_claim_id : option bytes; iv_one_time : bool; iv_comment : bytes;
  iv_payload : InvitePayload; iv_share_ids : list bytes; iv_write_share_ids : list bytes
}.

Inductive InviteStatus := IsConsumed | IsExpired | IsActive.

Record InviteInfo := {
  ii_token : bytes; ii_preset : bytes; ii_comment : bytes; ii_status : InviteStatus; ii_expires_at : bytes;
  ii_reclaimable : bool
}.

Record InviteDefaults := {
  id_server_address : bytes; id_server_port : Z; id_obfuscation_key : bytes; id_modifier : bytes; id_salt : Z;
  id_hub_url : bytes; id_servers : list PayloadServer
}.

Definition sorted_servers (d : InviteDefaults) : list PayloadServer :=
  isort (fun a b => ps_priority a <=? ps_priority b) (id_servers d).

Record HubRelayConfig := { hr_addr : bytes; hr_port : Z; hr_obf : RelayObf; hr_splice_lifetime_secs : Z }.

Definition HubRelayConfig_descriptor (r : HubRelayConfig) : RelayDescriptor :=
  {| rd_addr := hr_addr r; rd_port := hr_port r; rd_obf := hr_obf r |}.

(** What the handlers read of the configuration; [hc_signing] is the hub's key. *)
Record HubConfig := {
  hc_signing : option bytes; hc_relay : option HubRelayConfig; hc_web_secret : option bytes; hc_dev_mode : bool;
  hc_default_ttl : Z; hc_max_ttl : Z; hc_defaults : InviteDefaults
}.

Record Attempt := { at_failures : Z; at_blocked_until_ms : Z }.

(** ** State

    The tables in memory and on disk, then what the theorems speak about and no
    handler reads: everything the key signed, the one-time payloads handed out, every
    share and publication that was ever registered, the write bindings that were
    made. [hub_tasks] are the handlers that wait between two locks. *)

Inductive HubTask :=
| TAttach (agent share_id invite_token : bytes) (write : bool)
| TDetach (agent share_id invite_token : bytes)
| TGrants (invite_token : bytes) (share_ids write_ids : list bytes).

Record HubState := {
  invites : gmap bytes Invite;
  shares : gmap bytes ShareRecord;
  exposes : gmap bytes ExposeRecord;
  web_attempts : gmap bytes Attempt;
  disk_invites : gmap bytes Invite;
  disk_shares : gmap bytes ShareRecord;
  disk_exposes : gmap bytes ExposeRecord;
  hub_tasks : list HubTask;
  minted : list HubSigned;
  served : list (bytes * option bytes);
  registered : gmap bytes ShareRecord;
  published : list (bytes * bytes);
  bindings : list (bytes * bytes * bytes)
}.

Definition Hub_new : HubState :=
  {| invites := ∅; shares := ∅; exposes := ∅; web_attempts := ∅; disk_invites := ∅; disk_shares := ∅; disk_exposes := ∅;
     hub_tasks := []; minted := []; served := []; registered := ∅; published := []; bindings := [] |}.

Definition upd_invites (s : HubState) (m d : gmap bytes Invite) : HubState :=
  {| invites := m; shares := shares s; exposes := exposes s; web_attempts := web_attempts s; disk_invites := d;
     disk_shares := disk_shares s; disk_exposes := disk_exposes s; hub_tasks := hub_tasks s; minted := minted s;
     served := served s; registered := registered s; published := published s; bindings := bindings s |}.

Definition upd_shares (s : HubState) (m d r : gmap bytes ShareRecord) : HubState :=
  {| invites := invites s; shares := m; exposes := exposes s; web_attempts := web_attempts s; disk_invites := disk_invites s;
     disk_shares := d; disk_exposes := disk_exposes s; hub_tasks := hub_tasks s; minted := minted s; served := served s;
     registered := r; published := published s; bindings := bindings s |}.

Definition upd_exposes (s : HubState) (m d : gmap bytes ExposeRecord) (p : list (bytes * bytes)) : HubState :=
  {| invites := invites s; shares := shares s; exposes := m; web_attempts := web_attempts s; disk_invites := disk_invites s;
     disk_shares := disk_shares s; disk_exposes := d; hub_tasks := hub_tasks s; minted := minted s; served := served s;
     registered := registered s; published := p; bindings := bindings s |}.

Definition upd_attempts (s : HubState) (m : gmap bytes Attempt) : HubState :=
  {| invites := invites s; shares := shares s; exposes := exposes s; web_attempts := m; disk_invites := disk_invites s;
     disk_shares := disk_shares s; disk_exposes := disk_exposes s; hub_tasks := hub_tasks s; minted := minted s;
     served := served s; registered := registered s; published := published s; bindings := bindings s |}.

Definition upd_tasks (s : HubState) (t : list HubTask) : HubState :=
  {| invites := invites s; shares := shares s; exposes := exposes s; web_attempts := web_attempts s;
     disk_invites := disk_invites s; disk_shares := disk_shares s; disk_exposes := disk_exposes s; hub_tasks := t;
     minted := minted s; served := served s; registered := registered s; published := published s; bindings := bindings s |}.

Definition log_minted (s : HubState) (h : list HubSigned) : HubState :=
  {| invites := invites s; shares := shares s; exposes := exposes s; web_attempts := web_attempts s;
     disk_invites := disk_invites s; disk_shares := disk_shares s; disk_exposes := disk_exposes s; hub_tasks := hub_tasks s;
     minted := minted s ++ h; served := served s; registered := registered s; published := published s;
     bindings := bindings s |}.

Definition log_served (s : HubState) (x : bytes * option bytes) : HubState :=
  {| invites := invites s; shares := shares s; exposes := exposes s; web_attempts := web_attempts s;
     disk_invites := disk_invites s; disk_shares := disk_shares s; disk_exposes := disk_exposes s; hub_tasks := hub_tasks s;
     minted := minted s; served := served s ++ [x]; registered := registered s; published := published s;
     bindings := bindings s |}.

Definition log_binding (s : HubState) (x : bytes * bytes * bytes) : HubState :=
  {| invites := invites s; shares := shares s; exposes := exposes s; web_attempts := web_attempts s;
     disk_invites := disk_invites s; disk_shares := disk_shares s; disk_exposes := disk_exposes s; hub_tasks := hub_tasks s;
     minted := minted s; served := served s; registered := registered s; published := published s;
     bindings := bindings s ++ [x] |}.

(** [hydrate]: the process starts and loads the disk; password delays and waiting
    handlers are gone. *)
Definition hydrate (s : HubState) : HubState :=
  upd_tasks (upd_attempts (upd_exposes (upd_shares (upd_invites s (disk_invites s) (disk_invites s))
    (disk_shares s) (disk_shares s) (registered s)) (disk_exposes s) (disk_exposes s) (published s)) ∅) [].

Abbreviation reply A := (result A Z).

(** ** Requests *)

Record AddShareReq := {
  as_credential : option AgentCredential; as_name : bytes; as_addr : option bytes; as_addrs : list bytes;
  as_port : Z; as_ttl_seconds : option Z; as_via_relay : bool; as_writable : bool
}.

Record AddShareResp := {
  ar_share_id : bytes; ar_addr : bytes; ar_port : Z; ar_token : ShareToken; ar_exp : Z; ar_addrs : list bytes;
  ar_relay : option RelayDescriptor
}.

Record CreateShareRequest := {
  cs_name : bytes; cs_owner : bytes; cs_addr : bytes; cs_port : Z; cs_agent_pubkey : bytes; cs_comment : bytes
}.

Record RegisterReq := {
  rq_token : option (Z * bytes); rq_name : bytes; rq_addr : option bytes; rq_port : Z; rq_agent_pubkey : bytes;
  rq_owner : bytes
}.

Definition AGENT_CREDENTIAL_TTL : Z := 365 * 24 * 3600.
Definition DEFAULT_TOKEN_TTL : Z := 7 * 24 * 3600.
Definition MAX_TOKEN_TTL : Z := 30 * 24 * 3600.
Definition DEFAULT_REG_TTL : Z := 3600.
Definition MAX_REG_TTL : Z := 7 * 24 * 3600.
Definition DEFAULT_MANDATE_TTL : Z := 24 * 3600.
Definition MAX_MANDATE_TTL : Z := 7 * 24 * 3600.
Definition WEB_ROUTE_TTL : Z := 3600.
Definition PASSWORD_FREE_ATTEMPTS : Z := 3.
Definition PASSWORD_MAX_DELAY_MS : Z := 5 * 60 * 1000.

Definition clamp_token_ttl (ttl : option Z) : reply Z :=
  let ttl := default DEFAULT_TOKEN_TTL ttl in
  if (ttl =? 0) || (MAX_TOKEN_TTL <? ttl) then Err 400 else Ok ttl.

Definition clamp_mandate_ttl (ttl : option Z) : reply Z :=
  let ttl := default DEFAULT_MANDATE_TTL ttl in
  if (ttl =? 0) || (MAX_MANDATE_TTL <? ttl) then Err 400 else Ok ttl.

Definition sanitize_push (primary : bytes) (out : list bytes) (a : bytes) : list bytes :=
  let a := trim a in
  if bool_decide (a = []) || bool_decide (a = primary) || existsb (fun x => bool_decide (x = a)) out then out
  else out ++ [a].

Definition sanitize_extra_addrs (raw : list bytes) (primary : bytes) : list bytes :=
  foldl (sanitize_push primary) [] raw.

(** The address of an agent: the given one, else the source address of the request. *)
Definition pick_addr (addr client_ip : option bytes) : option bytes :=
  let nonempty o := match o with Some [] => None | _ => o end in
  match nonempty (trim <$> addr) with Some a => Some a | None => nonempty client_ip end.

(** The first non-empty of the two headers a reverse proxy sets. *)
Definition hub_client_ip (real_ip forwarded_for : option bytes) : option bytes :=
  let nonempty o := match o with Some [] => None | _ => o end in
  match nonempty (trim <$> real_ip) with
  | Some a => Some a
  | None => nonempty (trim ∘ default [] ∘ head ∘ split 44 <$> forwarded_for)
  end.

Section handlers.
Context `{Base64} `{Ed25519}.
Context (cfg : HubConfig).
Implicit Types (s : HubState) (iv : Invite).

Definition with_signing {A} (s : HubState) (k : bytes -> HubState * reply A) : HubState * reply A :=
  match hc_signing cfg with None => (s, Err 503) | Some key => k key end.

Definition verify_credential_blob (key : bytes) (cred : option AgentCredential) (now : Z) : reply AgentCredential :=
  match cred with
  | None => Err 400
  | Some c => match verify_agent_credential c (verifying_key key) now with Ok _ => Ok c | Err _ => Err 403 end
  end.

Definition check_reg_token (key : bytes) (token : option (Z * bytes)) (now : Z) : reply unit :=
  match token with
  | None => Err 400
  | Some (exp, signature) =>
      match verify_reg_token (verifying_key key) exp signature now with
      | Ok _ => Ok tt
      | Err RgMalformedSignature => Err 400
      | Err _ => Err 403
      end
  end.

Definition validate_ed25519_pubkey (b64 : bytes) : bool :=
  match b64_decode (trim b64) with Some b => bool_decide (length b = 32%nat) | None => false end.

(** *** Registration tokens and credentials *)

Definition sign_reg_token (s : HubState) (key : bytes) (ttl now : Z) : HubState * reply (Z * bytes) :=
  if (ttl =? 0) || (MAX_REG_TTL <? ttl) then (s, Err 400)
  else let exp := sat_add U64_MAX now ttl in
       (log_minted s [HReg exp], Ok (exp, b64_encode (ed_sign key (reg_signing_bytes exp)))).

Definition create_reg_token (s : HubState) (ttl : option Z) (now : Z) : HubState * reply (Z * bytes) :=
  with_signing s (fun key => sign_reg_token s key (default DEFAULT_REG_TTL ttl) now).

Definition exchange (s : HubState) (token : option (Z * bytes)) (agent_pubkey : bytes) (now : Z) :
    HubState * reply (AgentCredential * option RelayDescriptor) :=
  with_signing s (fun key =>
    match check_reg_token key token now with
    | Err e => (s, Err e)
    | Ok _ =>
        if negb (validate_ed25519_pubkey agent_pubkey) then (s, Err 400) else
        let exp := sat_add U64_MAX now AGENT_CREDENTIAL_TTL in
        (log_minted s [HCred (trim agent_pubkey) exp],
         Ok (sign_agent_credential key (trim agent_pubkey) exp, HubRelayConfig_descriptor <$> hc_relay cfg))
    end).

(** *** Shares *)

(** [save_share], then the insertion; [saved] is the answer of the disk. *)
Definition store_share (s : HubState) (r : ShareRecord) (saved : bool) : option HubState :=
  if saved then Some (upd_shares s (<[sr_share_id r := r]> (shares s)) (<[sr_share_id r := r]> (disk_shares s))
                        (<[sr_share_id r := r]> (registered s)))
  else None.

Definition add_share (s : HubState) (req : AddShareReq) (client_ip : option bytes) (now : Z) (created_at share_id : bytes)
    (saved : bool) : HubState * reply AddShareResp :=
  with_signing s (fun key =>
    match verify_credential_blob key (as_credential req) now with
    | Err e => (s, Err e)
    | Ok cred =>
        let name := trim (as_name req) in
        if bool_decide (name = []) then (s, Err 400) else
        if as_port req =? 0 then (s, Err 400) else
        match clamp_token_ttl (as_ttl_seconds req) with
        | Err e => (s, Err e)
        | Ok ttl =>
            match pick_addr (as_addr req) client_ip with
            | None => (s, Err 400)
            | Some addr =>
                let addrs := sanitize_extra_addrs (as_addrs req) addr in
                let share :=
                  {| sr_share_id := share_id; sr_name := name; sr_owner := []; sr_addr := addr; sr_addrs := addrs;
                     sr_port := as_port req; sr_agent_pubkey := ac_agent_pubkey cred; sr_created_at := created_at;
                     sr_comment := str "self-shared (v2)"; sr_via_relay := as_via_relay req;
                     sr_writable := as_writable req |} in
                match store_share s share saved with
                | None => (s, Err 500)
                | Some s =>
                    let exp := sat_add U64_MAX now ttl in
                    (log_minted s [HShare share_id SCOPE_READ exp],
                     Ok {| ar_share_id := share_id; ar_addr := addr; ar_port := as_port req;
                           ar_token := sign_share_token key share_id SCOPE_READ exp; ar_exp := exp; ar_addrs := addrs;
                           ar_relay := if as_via_relay req then HubRelayConfig_descriptor <$> hc_relay cfg else None |})
                end
            end
        end
    end).

Definition hub_register (s : HubState) (req : RegisterReq) (client_ip : option bytes) (now : Z)
    (created_at share_id : bytes) (saved : bool) : HubState * reply (bytes * bytes * Z) :=
  with_signing s (fun key =>
    match check_reg_token key (rq_token req) now with
    | Err e => (s, Err e)
    | Ok _ =>
        if negb (validate_ed25519_pubkey (rq_agent_pubkey req)) then (s, Err 400) else
        if rq_port req =? 0 then (s, Err 400) else
        match pick_addr (rq_addr req) client_ip with
        | None => (s, Err 400)
        | Some addr =>
            let name := if bool_decide (trim (rq_name req) = []) then str "agent " ++ addr else trim (rq_name req) in
            let share :=
              {| sr_share_id := share_id; sr_name := name; sr_owner := trim (rq_owner req); sr_addr := addr; sr_addrs := [];
                 sr_port := rq_port req; sr_agent_pubkey := trim (rq_agent_pubkey req); sr_created_at := created_at;
                 sr_comment := str "self-registered"; sr_via_relay := false; sr_writable := false |} in
            match store_share s share saved with
            | None => (s, Err 500)
            | Some s => (s, Ok (share_id, addr, rq_port req))
            end
        end
    end).

Definition create_share (s : HubState) (req : CreateShareRequest) (created_at share_id : bytes) (saved : bool) :
    HubState * reply ShareRecord :=
  if bool_decide (trim (cs_name req) = []) then (s, Err 400) else
  if bool_decide (trim (cs_addr req) = []) then (s, Err 400) else
  if cs_port req =? 0 then (s, Err 400) else
  if negb (validate_ed25519_pubkey (cs_agent_pubkey req)) then (s, Err 400) else
  let share :=
    {| sr_share_id := share_id; sr_name := trim (cs_name req); sr_owner := trim (cs_owner req);
       sr_addr := trim (cs_addr req); sr_addrs := []; sr_port := cs_port req;
       sr_agent_pubkey := trim (cs_agent_pubkey req); sr_created_at := created_at; sr_comment := trim (cs_comment req);
       sr_via_relay := false; sr_writable := false |} in
  match store_share s share saved with None => (s, Err 500) | Some s => (s, Ok share) end.

(** The record leaves the memory first; [deleted] is the answer of the disk. *)
Definition drop_share (s : HubState) (share_id : bytes) (deleted : bool) : HubState * reply unit :=
  if deleted then (upd_shares s (delete share_id (shares s)) (delete share_id (disk_shares s)) (registered s), Ok tt)
  else (upd_shares s (delete share_id (shares s)) (disk_shares s) (registered s), Err 500).

Definition delete_share (s : HubState) (share_id : bytes) (deleted : bool) : HubState * reply unit :=
  match shares s !! share_id with None => (s, Err 404) | Some _ => drop_share s share_id deleted end.

Definition mint_token (s : HubState) (share_id : bytes) (ttl : option Z) (now : Z) : HubState * reply ShareToken :=
  with_signing s (fun key =>
    match shares s !! share_id with
    | None => (s, Err 404)
    | Some _ =>
        let ttl := default DEFAULT_TOKEN_TTL ttl in
        if (ttl =? 0) || (MAX_TOKEN_TTL <? ttl) then (s, Err 400) else
        let exp := sat_add U64_MAX now ttl in
        (log_minted s [HShare share_id SCOPE_READ exp], Ok (sign_share_token key share_id SCOPE_READ exp))
    end).

(** The share exists and pins the key of the credential. *)
Definition assert_owns_share (s : HubState) (cred : AgentCredential) (share_id : bytes) : reply unit :=
  match shares s !! share_id with
  | None => Err 404
  | Some rec => if bool_decide (sr_agent_pubkey rec = ac_agent_pubkey cred) then Ok tt else Err 403
  end.

Definition mint (s : HubState) (credential : option AgentCredential) (share_id : bytes) (ttl : option Z) (now : Z) :
    HubState * reply (ShareToken * Z) :=
  with_signing s (fun key =>
    match verify_credential_blob key credential now with
    | Err e => (s, Err e)
    | Ok cred =>
        match clamp_token_ttl ttl with
        | Err e => (s, Err e)
        | Ok ttl =>
            match assert_owns_share s cred share_id with
            | Err e => (s, Err e)
            | Ok _ =>
                let exp := sat_add U64_MAX now ttl in
                (log_minted s [HShare share_id SCOPE_READ exp], Ok (sign_share_token key share_id SCOPE_READ exp, exp))
            end
        end
    end).

Definition unshare (s : HubState) (credential : option AgentCredential) (share_id : bytes) (now : Z) (deleted : bool) :
    HubState * reply unit :=
  with_signing s (fun key =>
    match verify_credential_blob key credential now with
    | Err e => (s, Err e)
    | Ok cred =>
        match assert_owns_share s cred share_id with
        | Err e => (s, Err e)
        | Ok _ => drop_share s share_id deleted
        end
    end).

(** *** Invites *)

Definition has_live_claim (iv : Invite) (now : bytes) : bool :=
  bool_decide (is_Some (iv_consumed_at iv)) && bool_decide (is_Some (iv_claim_id iv)) &&
  negb (bytes_leb (iv_expires_at iv) now).

Definition can_reclaim (iv : Invite) (claim_id : option bytes) (now : bytes) : bool :=
  if negb (has_live_claim iv now) then false
  else match iv_claim_id iv, claim_id with Some stored, Some given => bool_decide (stored = given) | _, _ => false end.

(** The claim key of a request: trimmed, neither empty nor longer than 128 bytes. *)
Definition claim_id_header (raw : option bytes) : option bytes :=
  r ← trim <$> raw; if bool_decide (r = []) || (128 <? zlen r) then None else Some r.

Definition get_invite_info (s : HubState) (token : bytes) (claim_header : option bytes) (now : bytes) : reply InviteInfo :=
  match invites s !! token with
  | None => Err 404
  | Some iv =>
      Ok {| ii_token := iv_token iv; ii_preset := ip_preset (iv_payload iv); ii_comment := iv_comment iv;
            ii_status := if bool_decide (is_Some (iv_consumed_at iv)) then IsConsumed
                         else if bytes_leb (iv_expires_at iv) now then IsExpired else IsActive;
            ii_expires_at := iv_expires_at iv;
            ii_reclaimable := can_reclaim iv (claim_id_header claim_header) now |}
  end.

Definition consume (iv : Invite) (now : bytes) (client_ip claim_id : option bytes) : Invite :=
  {| iv_token := iv_token iv; iv_created_at := iv_created_at iv; iv_expires_at := iv_expires_at iv;
     iv_consumed_at := Some now; iv_claimed_by_ip := client_ip; iv_claim_id := claim_id; iv_one_time := iv_one_time iv;
     iv_comment := iv_comment iv; iv_payload := iv_payload iv; iv_share_ids := iv_share_ids iv;
     iv_write_share_ids := iv_write_share_ids iv |}.

(** A consumption is written to the disk before it is put into memory. The log
    records the payloads of one-time invites. *)
Definition claim_invite (s : HubState) (token : bytes) (claim_header client_ip : option bytes) (now : bytes) (saved : bool) :
    HubState * reply InvitePayload :=
  match invites s !! token with
  | None => (s, Err 404)
  | Some iv =>
      let claim_id := claim_id_header claim_header in
      if bytes_leb (iv_expires_at iv) now then (s, Err 410) else
      if bool_decide (is_Some (iv_consumed_at iv)) then
        (if can_reclaim iv claim_id now
         then (if iv_one_time iv then log_served s (token, claim_id) else s, Ok (iv_payload iv)) else (s, Err 410))
      else if iv_one_time iv && negb (hc_dev_mode cfg) then
        (let consumed := consume iv now client_ip claim_id in
         if saved
         then (log_served (upd_invites s (<[token := consumed]> (invites s)) (<[iv_token iv := consumed]> (disk_invites s)))
                 (token, claim_id), Ok (iv_payload iv))
         else (s, Err 500))
      else (s, Ok (iv_payload iv))
  end.

Definition revoked (iv : Invite) (now : bytes) : Invite :=
  {| iv_token := iv_token iv; iv_created_at := iv_created_at iv; iv_expires_at := iv_expires_at iv;
     iv_consumed_at := Some now; iv_claimed_by_ip := iv_claimed_by_ip iv; iv_claim_id := None;
     iv_one_time := iv_one_time iv; iv_comment := iv_comment iv; iv_payload := iv_payload iv;
     iv_share_ids := iv_share_ids iv; iv_write_share_ids := iv_write_share_ids iv |}.

(** Here the memory comes first. *)
Definition revoke_invite (s : HubState) (token : bytes) (now : bytes) (saved : bool) : HubState * reply unit :=
  match invites s !! token with
  | None => (s, Err 404)
  | Some iv =>
      let iv' := revoked iv now in
      if saved then (upd_invites s (<[token := iv']> (invites s)) (<[iv_token iv := iv']> (disk_invites s)), Ok tt)
      else (upd_invites s (<[token := iv']> (invites s)) (disk_invites s), Err 500)
  end.

Definition default_payload (preset : option bytes) : InvitePayload :=
  let d := hc_defaults cfg in
  let servers := sorted_servers d in
  let '(a, p) := match servers with
                 | srv :: _ => (ps_address srv, ps_port srv)
                 | [] => (id_server_address d, id_server_port d)
                 end in
  {| ip_server_address := a; ip_server_port := p; ip_obfuscation_key := id_obfuscation_key d; ip_modifier := id_modifier d;
     ip_salt := id_salt d; ip_preset := default [] preset; ip_hub_url := id_hub_url d; ip_servers := servers |}.

(** [expires] prints the moment so many seconds ahead. *)
Definition build_invite (s : HubState) (ttl_seconds : option Z) (one_time : bool) (comment : bytes) (preset : option bytes)
    (payload : option InvitePayload) (token now : bytes) (expires : Z -> bytes) (saved : bool) : HubState * reply Invite :=
  let ttl := default (hc_default_ttl cfg) ttl_seconds in
  if hc_max_ttl cfg <? ttl then (s, Err 400) else
  let payload := match payload with Some p => p | None => default_payload preset end in
  let iv := {| iv_token := token; iv_created_at := now; iv_expires_at := expires ttl; iv_consumed_at := None;
               iv_claimed_by_ip := None; iv_claim_id := None; iv_one_time := one_time; iv_comment := comment;
               iv_payload := payload; iv_share_ids := []; iv_write_share_ids := [] |} in
  if saved then (upd_invites s (<[token := iv]> (invites s)) (<[token := iv]> (disk_invites s)), Ok iv)
  else (s, Err 500).

(** *** Shares on an invite *)

Definition set_share_ids (iv : Invite) (ids wids : list bytes) : Invite :=
  {| iv_token := iv_token iv; iv_created_at := iv_created_at iv; iv_expires_at := iv_expires_at iv;
     iv_consumed_at := iv_consumed_at iv; iv_claimed_by_ip := iv_claimed_by_ip iv; iv_claim_id := iv_claim_id iv;
     iv_one_time := iv_one_time iv; iv_comment := iv_comment iv; iv_payload := iv_payload iv; iv_share_ids := ids;
     iv_write_share_ids := wids |}.

(** The part of [attach] and [detach] before the lock of the invites: the caller
    owns the share. *)
Definition attach_begin (s : HubState) (credential : option AgentCredential) (share_id invite_token : bytes) (write : bool)
    (now : Z) : HubState * reply unit :=
  with_signing s (fun key =>
    match verify_credential_blob key credential now with
    | Err e => (s, Err e)
    | Ok cred =>
        match assert_owns_share s cred share_id with
        | Err e => (s, Err e)
        | Ok _ => (upd_tasks s (hub_tasks s ++ [TAttach (ac_agent_pubkey cred) share_id invite_token write]), Ok tt)
        end
    end).

Definition detach_begin (s : HubState) (credential : option AgentCredential) (share_id invite_token : bytes) (now : Z) :
    HubState * reply unit :=
  with_signing s (fun key =>
    match verify_credential_blob key credential now with
    | Err e => (s, Err e)
    | Ok cred =>
        match assert_owns_share s cred share_id with
        | Err e => (s, Err e)
        | Ok _ => (upd_tasks s (hub_tasks s ++ [TDetach (ac_agent_pubkey cred) share_id invite_token]), Ok tt)
        end
    end).

(** Memory, then disk. *)
Definition save_ids (s : HubState) (token : bytes) (iv iv' : Invite) (changed saved : bool) : HubState * reply unit :=
  let mem := <[token := iv']> (invites s) in
  if negb changed then (upd_invites s mem (disk_invites s), Ok tt)
  else if saved then (upd_invites s mem (<[iv_token iv := iv']> (disk_invites s)), Ok tt)
  else (upd_invites s mem (disk_invites s), Err 500).

Definition without (x : bytes) (l : list bytes) : list bytes := List.filter (fun y => negb (bool_decide (y = x))) l.

(** [attach] under the lock; the log records a write binding with its agent. *)
Definition attach (s : HubState) (agent share_id invite_token : bytes) (write saved : bool) : HubState * reply unit :=
  match invites s !! invite_token with
  | None => (s, Err 404)
  | Some iv =>
      let listed := bool_decide (share_id ∈ iv_share_ids iv) in
      let ids := if listed then iv_share_ids iv else iv_share_ids iv ++ [share_id] in
      let has_write := bool_decide (share_id ∈ iv_write_share_ids iv) in
      let '(wids, wchanged) :=
        if write && negb has_write then (iv_write_share_ids iv ++ [share_id], true)
        else if negb write && has_write then (without share_id (iv_write_share_ids iv), true)
        else (iv_write_share_ids iv, false) in
      let s := if write then log_binding s (invite_token, share_id, agent) else s in
      save_ids s invite_token iv (set_share_ids iv ids wids) (negb listed || wchanged) saved
  end.

Definition detach (s : HubState) (share_id invite_token : bytes) (saved : bool) : HubState * reply unit :=
  match invites s !! invite_token with
  | None => (s, Err 404)
  | Some iv =>
      let ids := without share_id (iv_share_ids iv) in
      let wids := without share_id (iv_write_share_ids iv) in
      let changed := negb (length ids =? length (iv_share_ids iv))%nat ||
                     negb (length wids =? length (iv_write_share_ids iv))%nat in
      save_ids s invite_token iv (set_share_ids iv ids wids) changed saved
  end.

(** [invite_shares] under the lock of the invites, then under the lock of the shares. *)
Definition grants_begin (s : HubState) (token now : bytes) : HubState * reply unit :=
  with_signing s (fun _ =>
    match invites s !! token with
    | None => (s, Err 404)
    | Some iv =>
        if bytes_leb (iv_expires_at iv) now then (s, Err 410) else
        if bool_decide (is_Some (iv_consumed_at iv)) then (s, Err 410) else
        (upd_tasks s (hub_tasks s ++ [TGrants token (iv_share_ids iv) (iv_write_share_ids iv)]), Ok tt)
    end).

Definition WRITE_SCOPE : bytes := SCOPE_READ ++ [32] ++ SCOPE_WRITE ++ [32] ++ SCOPE_IMPORT.

Definition grant_scope (rec : ShareRecord) (write_ids : list bytes) (sid : bytes) : bytes :=
  if sr_writable rec && bool_decide (sid ∈ write_ids) then WRITE_SCOPE else SCOPE_READ.

Definition grant_share (key : bytes) (rec : ShareRecord) (write_ids : list bytes) (sid : bytes) (exp : Z) :
    ShareGrant * list HubSigned :=
  let scope := grant_scope rec write_ids sid in
  let relay := if sr_via_relay rec then hc_relay cfg else None in
  ({| sg_share_id := sr_share_id rec; sg_name := sr_name rec; sg_addr := sr_addr rec; sg_addrs := sr_addrs rec;
      sg_port := sr_port rec; sg_agent_pubkey := sr_agent_pubkey rec; sg_token := sign_share_token key sid scope exp;
      sg_exp := exp;
      sg_relay := (fun r => {| rgr_addr := hr_addr r; rgr_port := hr_port r; rgr_obf := hr_obf r;
                               rgr_relay_token := sign_relay_token key sid (sr_agent_pubkey rec) exp |}) <$> relay |},
   HShare sid scope exp :: match relay with Some _ => [HRelay sid (sr_agent_pubkey rec) exp] | None => [] end).

Fixpoint grant_shares (key : bytes) (s : HubState) (share_ids write_ids : list bytes) (exp : Z) :
    list ShareGrant * list HubSigned :=
  match share_ids with
  | [] => ([], [])
  | sid :: rest =>
      let '(gs, hs) := grant_shares key s rest write_ids exp in
      match shares s !! sid with
      | None => (gs, hs)
      | Some rec => let '(g, h) := grant_share key rec write_ids sid exp in (g :: gs, h ++ hs)
      end
  end.

Definition invite_shares (s : HubState) (share_ids write_ids : list bytes) (now : Z) : HubState * reply (list ShareGrant) :=
  with_signing s (fun key =>
    let exp := sat_add U64_MAX now DEFAULT_TOKEN_TTL in
    let '(gs, hs) := grant_shares key s share_ids write_ids exp in (log_minted s hs, Ok gs)).

(** *** Publications *)

Definition checked_name (raw : bytes) : reply bytes :=
  let name := trim raw in if valid_publication_name name then Ok name else Err 400.

Definition expose_add (s : HubState) (credential : option AgentCredential) (raw_name : bytes) (now : Z) (created : bytes)
    (saved : bool) : HubState * reply ExposeRecord :=
  with_signing s (fun key =>
    match verify_credential_blob key credential now with
    | Err e => (s, Err e)
    | Ok cred =>
        match checked_name raw_name with
        | Err e => (s, Err e)
        | Ok name =>
            match exposes s !! name with
            | Some rec => if bool_decide (er_agent_pubkey rec = ac_agent_pubkey cred) then (s, Ok rec) else (s, Err 409)
            | None =>
                let rec := {| er_name := name; er_agent_pubkey := ac_agent_pubkey cred; er_created := created |} in
                if saved then (upd_exposes s (<[name := rec]> (exposes s)) (<[name := rec]> (disk_exposes s))
                                 (published s ++ [(name, ac_agent_pubkey cred)]), Ok rec)
                else (s, Err 500)
            end
        end
    end).

Definition drop_expose (s : HubState) (name : bytes) (deleted : bool) : HubState * reply unit :=
  if deleted then (upd_exposes s (delete name (exposes s)) (delete name (disk_exposes s)) (published s), Ok tt)
  else (upd_exposes s (delete name (exposes s)) (disk_exposes s) (published s), Err 500).

Definition expose_remove (s : HubState) (credential : option (option AgentCredential)) (name : bytes) (now : Z)
    (deleted : bool) : HubState * reply unit :=
  with_signing s (fun key =>
    match credential with
    | None => (s, Err 401)
    | Some blob =>
        match verify_credential_blob key blob now with
        | Err e => (s, Err e)
        | Ok cred =>
            match exposes s !! name with
            | None => (s, Err 404)
            | Some rec =>
                if bool_decide (er_agent_pubkey rec = ac_agent_pubkey cred) then drop_expose s name deleted else (s, Err 403)
            end
        end
    end).

Definition expose_admin_remove (s : HubState) (name : bytes) (deleted : bool) : HubState * reply unit :=
  match exposes s !! name with None => (s, Err 404) | Some _ => drop_expose s name deleted end.

Definition expose_mandate (s : HubState) (credential : option AgentCredential) (name : bytes) (ttl : option Z) (now : Z) :
    HubState * reply (ExposeToken * Z) :=
  with_signing s (fun key =>
    match verify_credential_blob key credential now with
    | Err e => (s, Err e)
    | Ok cred =>
        match clamp_mandate_ttl ttl with
        | Err e => (s, Err e)
        | Ok ttl =>
            match exposes s !! name with
            | None => (s, Err 404)
            | Some rec =>
                if bool_decide (er_agent_pubkey rec = ac_agent_pubkey cred) then
                  let exp := sat_add U64_MAX now ttl in
                  (log_minted s [HExpose name (ac_agent_pubkey cred) exp],
                   Ok (sign_expose_token key name (ac_agent_pubkey cred) exp, exp))
                else (s, Err 403)
            end
        end
    end).

(** [presented] is the text after [Bearer], empty when there is none. *)
Definition require_web_secret (presented : bytes) : reply unit :=
  match hc_web_secret cfg with
  | None => Err 503
  | Some secret => if bool_decide (presented = secret) && negb (bool_decide (secret = [])) then Ok tt else Err 401
  end.

Definition web_route (s : HubState) (presented publication : bytes) (now : Z) : HubState * reply WebRoute :=
  match require_web_secret presented with
  | Err e => (s, Err e)
  | Ok _ =>
      with_signing s (fun key =>
        match hc_relay cfg with
        | None => (s, Err 503)
        | Some relay =>
            match checked_name publication with
            | Err e => (s, Err e)
            | Ok name =>
                match exposes s !! name with
                | None => (s, Err 404)
                | Some rec =>
                    let agent := er_agent_pubkey rec in
                    let exp := sat_add U64_MAX now WEB_ROUTE_TTL in
                    (log_minted s [HRelay (web_share_id name) agent exp; HExpose name agent exp],
                     Ok {| wr_publication := name; wr_agent_pubkey := agent; wr_relay := HubRelayConfig_descriptor relay;
                           wr_relay_token := sign_relay_token key (web_share_id name) agent exp;
                           wr_expose_token := sign_expose_token key name agent exp; wr_exp := exp;
                           wr_splice_lifetime_secs := hr_splice_lifetime_secs relay |})
                end
            end
        end)
  end.

(** *** Password attempts of the browser front *)

Definition blocked_for (m : gmap bytes Attempt) (username : bytes) (now_ms : Z) : option Z :=
  a ← m !! username; if now_ms <? at_blocked_until_ms a then Some (at_blocked_until_ms a - now_ms) else None.

Definition attempt_delay (failures : Z) : Z :=
  let over := sat_sub failures PASSWORD_FREE_ATTEMPTS in
  if over =? 0 then 0 else Z.min (u64 (Z.shiftl 1000 (Z.min (over - 1) 20))) PASSWORD_MAX_DELAY_MS.

Definition attempt_failed (m : gmap bytes Attempt) (username : bytes) (now_ms : Z) : gmap bytes Attempt :=
  let a := default {| at_failures := 0; at_blocked_until_ms := 0 |} (m !! username) in
  let failures := sat_add U32_MAX (at_failures a) 1 in
  <[username := {| at_failures := failures; at_blocked_until_ms := sat_add U64_MAX now_ms (attempt_delay failures) |}]> m.

Definition attempt_succeeded (m : gmap bytes Attempt) (username : bytes) : gmap bytes Attempt := delete username m.

(** [matches] is the verdict of the password hash. *)
Definition verify_password_at (s : HubState) (presented username : bytes) (matches : bool) (now_ms : Z) :
    HubState * reply bool :=
  match require_web_secret presented with
  | Err e => (s, Err e)
  | Ok _ =>
      match blocked_for (web_attempts s) username now_ms with
      | Some _ => (s, Err 429)
      | None =>
          if matches then (upd_attempts s (attempt_succeeded (web_attempts s) username), Ok true)
          else (upd_attempts s (attempt_failed (web_attempts s) username now_ms), Ok false)
      end
  end.

(** The token [probe_via_relay] signs for the status page. *)
Definition probe_token (s : HubState) (name agent : bytes) (now : Z) : HubState :=
  log_minted s [HRelay (web_share_id name) agent (now + 60)].

(** ** Runs

    A step is a handler with any request and any answer of the disk, the signing of
    a JSON document, or a restart. Generated identifiers are new and base64url; a
    presented credential is not a forgery; the clock fits 64 bits. *)

Definition presented (s : HubState) (cred : option AgentCredential) : Prop :=
  match cred with
  | None => True
  | Some c => 0 <= ac_exp c < 2 ^ 64 /\
      forall key, hc_signing cfg = Some key -> genuine (verifying_key key) (map hub_bytes (minted s)) (ac_signature c)
  end.

Definition fresh_share (s : HubState) (id : bytes) : Prop := registered s !! id = None /\ (10 ∉ id).

Definition fresh_invite (s : HubState) (token : bytes) : Prop := invites s !! token = None /\ disk_invites s !! token = None.

Definition ttl_ok (ttl : option Z) : Prop := 0 <= default 0 ttl.

Definition clock_ok (now : Z) : Prop := 0 <= now /\ now + 60 < 2 ^ 64.

Inductive hub_step (s : HubState) : HubState -> Prop :=
| hs_reg_token ttl now : ttl_ok ttl -> clock_ok now -> hub_step s (create_reg_token s ttl now).1
| hs_exchange token agent now : clock_ok now -> hub_step s (exchange s token agent now).1
| hs_add req ip now created id saved :
    presented s (as_credential req) -> ttl_ok (as_ttl_seconds req) -> clock_ok now -> fresh_share s id ->
    hub_step s (add_share s req ip now created id saved).1
| hs_register req ip now created id saved : fresh_share s id -> hub_step s (hub_register s req ip now created id saved).1
| hs_create_share req created id saved : fresh_share s id -> hub_step s (create_share s req created id saved).1
| hs_delete_share id deleted : hub_step s (delete_share s id deleted).1
| hs_mint_token id ttl now : ttl_ok ttl -> clock_ok now -> hub_step s (mint_token s id ttl now).1
| hs_mint cred id ttl now : ttl_ok ttl -> clock_ok now -> hub_step s (mint s cred id ttl now).1
| hs_unshare cred id now deleted : hub_step s (unshare s cred id now deleted).1
| hs_claim token header ip now saved : hub_step s (claim_invite s token header ip now saved).1
| hs_revoke token now saved : hub_step s (revoke_invite s token now saved).1
| hs_invite ttl one_time comment preset payload token now expires saved :
    fresh_invite s token ->
    hub_step s (build_invite s ttl one_time comment preset payload token now expires saved).1
| hs_attach_begin cred id token write now : hub_step s (attach_begin s cred id token write now).1
| hs_attach ts1 ts2 agent id token write saved :
    hub_tasks s = ts1 ++ TAttach agent id token write :: ts2 ->
    hub_step s (attach (upd_tasks s (ts1 ++ ts2)) agent id token write saved).1
| hs_detach_begin cred id token now : hub_step s (detach_begin s cred id token now).1
| hs_detach ts1 ts2 agent id token saved :
    hub_tasks s = ts1 ++ TDetach agent id token :: ts2 -> hub_step s (detach (upd_tasks s (ts1 ++ ts2)) id token saved).1
| hs_grants_begin token now : hub_step s (grants_begin s token now).1
| hs_grants ts1 ts2 token ids wids now :
    hub_tasks s = ts1 ++ TGrants token ids wids :: ts2 -> clock_ok now ->
    hub_step s (invite_shares (upd_tasks s (ts1 ++ ts2)) ids wids now).1
| hs_expose_add cred name now created saved :
    presented s cred -> hub_step s (expose_add s cred name now created saved).1
| hs_expose_remove cred name now deleted : hub_step s (expose_remove s cred name now deleted).1
| hs_expose_admin_remove name deleted : hub_step s (expose_admin_remove s name deleted).1
| hs_expose_mandate cred name ttl now : ttl_ok ttl -> clock_ok now -> hub_step s (expose_mandate s cred name ttl now).1
| hs_web_route secret name now : clock_ok now -> hub_step s (web_route s secret name now).1
| hs_probe name agent now : (name, agent) ∈ published s -> clock_ok now -> hub_step s (probe_token s name agent now)
| hs_password secret user matches now : hub_step s (verify_password_at s secret user matches now).1
| hs_json body : hub_step s (log_minted s [HJson (123 :: body)])
| hs_restart : hub_step s (hydrate s).

Inductive hub_run : HubState -> HubState -> Prop :=
| hr_refl s : hub_run s s
| hr_next s s' s'' : hub_run s s' -> hub_step s' s'' -> hub_run s s''.

Definition hub_reachable (s : HubState) : Prop := hub_run Hub_new s.

(** ** Authorisation *)

(** The agent that owns the share bound it to the invite for writing. *)
Definition bound (s : HubState) (token sid : bytes) : Prop :=
  exists r, registered s !! sid = Some r /\ (token, sid, sr_agent_pubkey r) ∈ bindings s.

Definition mint_ok (s : HubState) (h : HubSigned) : Prop :=
  hub_ok h /\
  match h with
  | HShare sid scope _ =>
      exists r, registered s !! sid = Some r /\
        (scope_contains scope SCOPE_WRITE = true -> sr_writable r = true /\ exists token, bound s token sid)
  | HRelay sid agent _ =>
      (exists r, registered s !! sid = Some r /\ sr_agent_pubkey r = agent) \/
      (exists name, sid = web_share_id name /\ (name, agent) ∈ published s)
  | HExpose name agent _ => (name, agent) ∈ published s
  | _ => True
  end.

Definition ids_ok (s : HubState) (token : bytes) (iv : Invite) : Prop :=
  iv_token iv = token /\ iv_write_share_ids iv ⊆ iv_share_ids iv /\
  forall w, w ∈ iv_write_share_ids iv -> bound s token w.

Definition task_ok (s : HubState) (t : HubTask) : Prop :=
  match t with
  | TAttach agent sid _ _ => exists r, registered s !! sid = Some r /\ sr_agent_pubkey r = agent
  | TDetach _ _ _ => True
  | TGrants token ids wids => forall w, w ∈ wids -> bound s token w
  end.

Record auth_inv (s : HubState) : Prop := {
  ai_minted : Forall (mint_ok s) (minted s);
  ai_shares : shares s ⊆ registered s;
  ai_disk_shares : disk_shares s ⊆ registered s;
  ai_registered : forall id r, registered s !! id = Some r -> sr_share_id r = id /\ (10 ∉ id) /\ (10 ∉ sr_agent_pubkey r);
  ai_exposes : forall name rec, exposes s !! name = Some rec -> (name, er_agent_pubkey rec) ∈ published s;
  ai_disk_exposes : forall name rec, disk_exposes s !! name = Some rec -> (name, er_agent_pubkey rec) ∈ published s;
  ai_published : forall name agent, (name, agent) ∈ published s -> (10 ∉ name) /\ (10 ∉ agent);
  ai_invites : forall token iv, invites s !! token = Some iv -> ids_ok s token iv;
  ai_disk_invites : forall token iv, disk_invites s !! token = Some iv -> ids_ok s token iv;
  ai_tasks : Forall (task_ok s) (hub_tasks s)
}.

(** The logs only grow, and what they justify stays justified. *)
Definition grows (s s' : HubState) : Prop :=
  registered s ⊆ registered s' /\ published s ⊆ published s' /\ bindings s ⊆ bindings s'.

Lemma bound_mono s s' token w : grows s s' -> bound s token w -> bound s' token w.
Proof.
  intros (Hr & _ & Hb) (r & H1 & H2). exists r. split; [by eapply lookup_weaken | by apply Hb].
Qed.

Lemma mint_ok_mono s s' h : grows s s' -> mint_ok s h -> mint_ok s' h.
Proof.
  intros Hg [Ho Hm]. split; [done |]. pose proof Hg as (Hr & Hp & Hb). destruct h; try done.
  - destruct Hm as (r & H1 & H2). exists r. split; [by eapply lookup_weaken |]. intros Hw.
    destruct (H2 Hw) as [H3 [t H4]]. split; [done |]. exists t. by eapply bound_mono.
  - destruct Hm as [(r & H1 & H2) | (name & H1 & H2)].
    + left. exists r. split; [by eapply lookup_weaken | done].
    + right. exists name. split; [done | by apply Hp].
  - by apply Hp.
Qed.

Lemma ids_ok_mono s s' token iv : grows s s' -> ids_ok s token iv -> ids_ok s' token iv.
Proof. intros Hg (H1 & H2 & H3). split_and!; [done | done |]. intros w Hw. eapply bound_mono; [done | by apply H3]. Qed.

Lemma task_ok_mono s s' t : grows s s' -> task_ok s t -> task_ok s' t.
Proof.
  intros Hg Ht. pose proof Hg as (Hr & _ & _). destruct t; [| done |].
  - destruct Ht as (r & H1 & H2). exists r. split; [by eapply lookup_weaken | done].
  - intros w Hw. eapply bound_mono; [done | by apply Ht].
Qed.

Lemma auth_mint s hs : auth_inv s -> Forall (mint_ok s) hs -> auth_inv (log_minted s hs).
Proof. intros [] Hh. constructor; try done. cbn [minted log_minted]. apply Forall_app. by split. Qed.

Lemma auth_attempts s m : auth_inv s -> auth_inv (upd_attempts s m).
Proof. intros []. by constructor. Qed.

Lemma auth_served s x : auth_inv s -> auth_inv (log_served s x).
Proof. intros []. by constructor. Qed.

Lemma auth_tasks s t : auth_inv s -> Forall (task_ok s) t -> auth_inv (upd_tasks s t).
Proof. intros [] Ht. by constructor. Qed.

Lemma auth_invites s (m d : gmap bytes Invite) :
  auth_inv s -> (forall t iv, m !! t = Some iv -> ids_ok s t iv) -> (forall t iv, d !! t = Some iv -> ids_ok s t iv) ->
  auth_inv (upd_invites s m d).
Proof. intros [] Hm Hd. by constructor. Qed.

Lemma auth_insert_invite s (t : bytes) iv (m : gmap bytes Invite) :
  (forall t iv, m !! t = Some iv -> ids_ok s t iv) -> ids_ok s t iv ->
  forall t' iv', <[t := iv]> m !! t' = Some iv' -> ids_ok s t' iv'.
Proof. intros Hm Hi t' iv' [[<- <-] | [_ Hl]]%lookup_insert_Some; [done | by apply Hm]. Qed.

Lemma auth_binding s token sid r :
  auth_inv s -> registered s !! sid = Some r -> auth_inv (log_binding s (token, sid, sr_agent_pubkey r)).
Proof.
  intros [] Hr. assert (Hg : grows s (log_binding s (token, sid, sr_agent_pubkey r))).
  { split_and!; cbn; [done | done |]. intros x Hx. apply elem_of_app. by left. }
  constructor; try done.
  - eapply Forall_impl; [done |]. intros h. by apply mint_ok_mono.
  - intros t iv Hi. eapply ids_ok_mono; [done | by apply ai_invites0].
  - intros t iv Hi. eapply ids_ok_mono; [done | by apply ai_disk_invites0].
  - eapply Forall_impl; [done |]. intros h. by apply task_ok_mono.
Qed.

Lemma auth_store s r s' saved :
  auth_inv s -> fresh_share s (sr_share_id r) -> 10 ∉ sr_agent_pubkey r -> store_share s r saved = Some s' -> auth_inv s'.
Proof.
  intros [] [Hf Hl] Hp. unfold store_share. destruct saved; [| done]. intros [= <-].
  set (s' := upd_shares _ _ _ _). assert (Hg : grows s s').
  { split_and!; cbn; [by apply insert_subseteq | done | done]. }
  constructor; cbn [s' minted shares disk_shares registered exposes disk_exposes published invites disk_invites hub_tasks upd_shares]; try done.
  - eapply Forall_impl; [done |]. intros h. by apply mint_ok_mono.
  - by apply insert_mono.
  - by apply insert_mono.
  - intros id r' [[<- <-] | [_ Hr]]%lookup_insert_Some; [done | by apply ai_registered0].
  - intros t iv Hi. eapply ids_ok_mono; [done | by apply ai_invites0].
  - intros t iv Hi. eapply ids_ok_mono; [done | by apply ai_disk_invites0].
  - eapply Forall_impl; [done |]. intros h. by apply task_ok_mono.
Qed.

Lemma store_share_registered s r s' saved : store_share s r saved = Some s' -> registered s' !! sr_share_id r = Some r.
Proof. unfold store_share. destruct saved; [| done]. intros [= <-]. cbn. by rewrite lookup_insert_eq. Qed.

Lemma auth_drop_share s id deleted : auth_inv s -> auth_inv (drop_share s id deleted).1.
Proof.
  intros []. unfold drop_share. destruct deleted; constructor; try done; cbn;
    (etransitivity; [apply delete_subseteq | done]).
Qed.

Lemma auth_drop_expose s name deleted : auth_inv s -> auth_inv (drop_expose s name deleted).1.
Proof.
  intros []. unfold drop_expose. destruct deleted; constructor; try done; cbn;
    intros n rec [_ Hl]%lookup_delete_Some; eauto.
Qed.

Lemma auth_hydrate s : auth_inv s -> auth_inv (hydrate s).
Proof. intros []. by constructor. Qed.

Lemma signing_case {A} s (k : bytes -> HubState * reply A) (P : HubState -> Prop) :
  P s -> (forall key, hc_signing cfg = Some key -> P (k key).1) -> P (with_signing s k).1.
Proof. unfold with_signing. destruct (hc_signing cfg); auto. Qed.

Lemma cred_clean s key cred now c :
  hc_signing cfg = Some key -> auth_inv s -> presented s cred -> verify_credential_blob key cred now = Ok c ->
  10 ∉ ac_agent_pubkey c.
Proof.
  intros Hk Hi Hp. unfold verify_credential_blob. destruct cred as [c' |]; [| done].
  destruct (verify_agent_credential _ _ _) as [[] | e] eqn:Ev; [| done]. intros [= <-]. destruct Hp as [He Hg].
  specialize (Hg key Hk). unfold verify_agent_credential in Ev.
  destruct (ac_exp c' <=? now); [done |]. eapply check_genuine in Ev; [| done].
  pose proof (ai_minted s Hi) as Hm. rewrite Forall_forall in Hm.
  assert (Hin : HCred (ac_agent_pubkey c') (ac_exp c') ∈ minted s).
  { apply hub_minted; [by eexists | done | | done]. apply Forall_forall. intros h Hh. apply (Hm h Hh). }
  by destruct (Hm _ Hin) as [[] _].
Qed.

Lemma pubkey_clean pk : validate_ed25519_pubkey pk = true -> 10 ∉ trim pk.
Proof.
  unfold validate_ed25519_pubkey. destruct (b64_decode (trim pk)) as [b |] eqn:E; [| done]. intros _ Hin.
  apply b64_decode_graph in E. rewrite Forall_forall in E. specialize (E 10 Hin). unfold is_graph in E. lia.
Qed.

Lemma name_clean raw name : checked_name raw = Ok name -> 10 ∉ name.
Proof.
  unfold checked_name, valid_publication_name. destruct (_ && _) eqn:E; [| done]. intros [= <-] Hin.
  repeat (apply andb_true_iff in E as [E ?]).
  match goal with Hf : forallb _ _ = true |- _ => rewrite forallb_forall in Hf; specialize (Hf 10); rewrite <- list_elem_of_In in Hf;
    specialize (Hf Hin); discriminate Hf end.
Qed.

Lemma owns_registered s c id :
  auth_inv s -> assert_owns_share s c id = Ok tt -> exists r, registered s !! id = Some r /\ sr_agent_pubkey r = ac_agent_pubkey c.
Proof.
  intros Hi. unfold assert_owns_share. destruct (shares s !! id) as [r |] eqn:E; [| done]. case_bool_decide as Hp; [| done].
  intros _. exists r. split; [| done]. eapply lookup_weaken; [done | by apply ai_shares].
Qed.

Lemma exp_ok now ttl : clock_ok now -> 0 <= ttl -> 0 <= sat_add U64_MAX now ttl < 2 ^ 64.
Proof. unfold clock_ok, sat_add, U64_MAX. lia. Qed.

Lemma ttl_default d ttl : 0 <= d -> ttl_ok ttl -> 0 <= default d ttl.
Proof. unfold ttl_ok. by destruct ttl. Qed.

(** A read token for a share that is registered. *)
Lemma mint_read s id r exp :
  auth_inv s -> registered s !! id = Some r -> 0 <= exp < 2 ^ 64 -> Forall (mint_ok s) [HShare id SCOPE_READ exp].
Proof.
  intros Hi Hr He. apply Forall_singleton. destruct (ai_registered s Hi id r Hr) as (_ & Hl & _). split.
  - split_and!; [done | by_compute | lia | lia].
  - exists r. split; [done |]. intros Hs. vm_compute in Hs. done.
Qed.

Lemma mint_relay s id r exp :
  auth_inv s -> registered s !! id = Some r -> 0 <= exp < 2 ^ 64 -> mint_ok s (HRelay id (sr_agent_pubkey r) exp).
Proof.
  intros Hi Hr He. destruct (ai_registered s Hi id r Hr) as (_ & Hl & Ha). split; [done |]. left. by exists r.
Qed.

Lemma mint_web s name agent exp :
  auth_inv s -> (name, agent) ∈ published s -> 0 <= exp < 2 ^ 64 ->
  mint_ok s (HRelay (web_share_id name) agent exp) /\ mint_ok s (HExpose name agent exp).
Proof.
  intros Hi Hp He. destruct (ai_published s Hi name agent Hp) as [Hn Ha]. split; (split; [| done || (right; by exists name)]).
  - split_and!; [| done | lia | lia]. unfold web_share_id. rewrite elem_of_app. intros [Hw | ?]; [| done].
    revert Hw. change (10 ∉ str "web:"). by_compute.
  - cbn [hub_ok]. tauto.
Qed.

Lemma mint_grants key s ids wids token exp :
  auth_inv s -> (forall w, w ∈ wids -> bound s token w) -> 0 <= exp < 2 ^ 64 ->
  Forall (mint_ok s) (grant_shares key s ids wids exp).2.
Proof.
  intros Hi Hw He. induction ids as [| sid ids IH]; [constructor |]. cbn [grant_shares].
  destruct (grant_shares key s ids wids exp) as [gs hs]. cbn [snd] in IH.
  destruct (shares s !! sid) as [r |] eqn:E; [| done].
  assert (Hr : registered s !! sid = Some r) by (eapply lookup_weaken; [done | by apply ai_shares]).
  unfold grant_share. cbn [snd]. apply Forall_app. split; [| done]. constructor.
  - destruct (ai_registered s Hi sid r Hr) as (_ & Hl & _). unfold grant_scope.
    destruct (sr_writable r) eqn:Ew; cbn [andb]; [case_bool_decide as Hin |].
    + split; [split_and!; [done | by_compute | lia | lia] |]. exists r. split; [done |]. intros _. split; [done |].
      exists token. by apply Hw.
    + by apply Forall_singleton, (mint_read s sid r).
    + by apply Forall_singleton, (mint_read s sid r).
  - destruct (if sr_via_relay r then hc_relay cfg else None); [| constructor].
    apply Forall_singleton. by apply mint_relay.
Qed.

Lemma auth_reg_token s ttl now : auth_inv s -> ttl_ok ttl -> clock_ok now -> auth_inv (create_reg_token s ttl now).1.
Proof.
  intros Hi Ht Hc. unfold create_reg_token. apply (signing_case s _ auth_inv); [done |]. intros key _. unfold sign_reg_token. destruct (_ || _); [done |]. cbn [fst].
  apply auth_mint; [done |]. apply Forall_singleton. split; [| done]. apply exp_ok; [done |].
  by apply ttl_default.
Qed.

Lemma auth_exchange s token agent now : auth_inv s -> clock_ok now -> auth_inv (exchange s token agent now).1.
Proof.
  intros Hi Hc. unfold exchange. apply (signing_case s _ auth_inv); [done |]. intros key _. destruct (check_reg_token _ _ _); [| done].
  destruct (validate_ed25519_pubkey agent) eqn:Ev; cbn [negb]; [| done]. cbn [fst].
  apply auth_mint; [done |]. apply Forall_singleton. split; [| done].
  split; [by apply pubkey_clean | apply exp_ok; [done | unfold AGENT_CREDENTIAL_TTL; lia]].
Qed.

Lemma clamp_token_nonneg ttl t : ttl_ok ttl -> clamp_token_ttl ttl = Ok t -> 0 <= t.
Proof.
  unfold clamp_token_ttl. destruct (_ || _); [done |]. intros Ht [= <-]. by apply ttl_default.
Qed.

Lemma auth_add_share s req ip now created id saved :
  auth_inv s -> presented s (as_credential req) -> ttl_ok (as_ttl_seconds req) -> clock_ok now -> fresh_share s id ->
  auth_inv (add_share s req ip now created id saved).1.
Proof.
  intros Hi Hp Ht Hc Hf. unfold add_share. apply (signing_case s _ auth_inv); [done |]. intros key Hk.
  destruct (verify_credential_blob _ _ _) as [cred | e] eqn:Ec; [| done]. apply cred_clean with (s := s) in Ec; [| done..].
  case_bool_decide; [done |]. destruct (as_port req =? 0); [done |].
  destruct (clamp_token_ttl _) as [ttl | e] eqn:Ettl; [| done]. apply clamp_token_nonneg in Ettl; [| done].
  destruct (pick_addr _ _) as [addr |]; [| done].
  destruct (store_share _ _ _) as [s' |] eqn:Es; [| done]. cbn [fst].
  pose proof (store_share_registered _ _ _ _ Es) as Hr. cbn [sr_share_id] in Hr. apply auth_store in Es; [| done..].
  apply auth_mint; [done |]. eapply mint_read; [done | done | by apply exp_ok].
Qed.

Lemma auth_register s req ip now created id saved :
  auth_inv s -> fresh_share s id -> auth_inv (hub_register s req ip now created id saved).1.
Proof.
  intros Hi Hf. unfold hub_register. apply (signing_case s _ auth_inv); [done |]. intros key Hk. destruct (check_reg_token _ _ _); [| done].
  destruct (validate_ed25519_pubkey _) eqn:Ev; cbn [negb]; [| done]. destruct (rq_port req =? 0); [done |].
  destruct (pick_addr _ _) as [addr |]; [| done].
  destruct (store_share _ _ _) as [s' |] eqn:Es; [| done]. apply auth_store in Es; [done | done | done |]. by apply pubkey_clean.
Qed.

Lemma auth_create_share s req created id saved :
  auth_inv s -> fresh_share s id -> auth_inv (create_share s req created id saved).1.
Proof.
  intros Hi Hf. unfold create_share. do 2 (case_bool_decide; [done |]). destruct (cs_port req =? 0); [done |].
  destruct (validate_ed25519_pubkey _) eqn:Ev; cbn [negb]; [| done].
  destruct (store_share _ _ _) as [s' |] eqn:Es; [| done]. apply auth_store in Es; [done | done | done |]. by apply pubkey_clean.
Qed.

Lemma auth_mint_token s id ttl now : auth_inv s -> ttl_ok ttl -> clock_ok now -> auth_inv (mint_token s id ttl now).1.
Proof.
  intros Hi Ht Hc. unfold mint_token. apply (signing_case s _ auth_inv); [done |]. intros key _. destruct (shares s !! id) as [r |] eqn:E; [| done].
  destruct (_ || _); [done |]. cbn [fst]. apply auth_mint; [done |]. eapply mint_read; [done | |].
  - eapply lookup_weaken; [done | by apply ai_shares].
  - apply exp_ok; [done |]. by apply ttl_default.
Qed.

Lemma auth_mint_own s cred id ttl now : auth_inv s -> ttl_ok ttl -> clock_ok now -> auth_inv (mint s cred id ttl now).1.
Proof.
  intros Hi Ht Hc. unfold mint. apply (signing_case s _ auth_inv); [done |]. intros key _. destruct (verify_credential_blob _ _ _) as [c | e]; [| done].
  destruct (clamp_token_ttl _) as [t | e] eqn:Ettl; [| done]. apply clamp_token_nonneg in Ettl; [| done].
  destruct (assert_owns_share _ _ _) as [[] | e] eqn:Eo; [| done]. cbn [fst].
  destruct (owns_registered s c id Hi Eo) as (r & Hr & _). apply auth_mint; [done |].
  eapply mint_read; [done | done | by apply exp_ok].
Qed.

Lemma auth_unshare s cred id now deleted : auth_inv s -> auth_inv (unshare s cred id now deleted).1.
Proof.
  intros Hi. unfold unshare. apply (signing_case s _ auth_inv); [done |]. intros key _. destruct (verify_credential_blob _ _ _) as [c | e]; [| done].
  destruct (assert_owns_share _ _ _); [| done]. by apply auth_drop_share.
Qed.

(** *** Invites *)

Lemma ids_ok_same s t iv iv' :
  iv_token iv' = iv_token iv -> iv_share_ids iv' = iv_share_ids iv -> iv_write_share_ids iv' = iv_write_share_ids iv ->
  ids_ok s t iv -> ids_ok s t iv'.
Proof. unfold ids_ok. by intros -> -> ->. Qed.

Lemma auth_put_invite s t iv' (d : bool) :
  auth_inv s -> ids_ok s t iv' ->
  auth_inv (upd_invites s (<[t := iv']> (invites s)) (if d then <[t := iv']> (disk_invites s) else disk_invites s)).
Proof.
  intros Hi Ho. apply auth_invites; [done | |].
  - apply auth_insert_invite; [apply Hi | done].
  - destruct d; [| apply Hi]. apply auth_insert_invite; [apply Hi | done].
Qed.

Lemma auth_claim s token header ip now saved : auth_inv s -> auth_inv (claim_invite s token header ip now saved).1.
Proof.
  intros Hi. unfold claim_invite. destruct (invites s !! token) as [iv |] eqn:E; [| done].
  pose proof (ai_invites s Hi token iv E) as Ho. destruct (bytes_leb _ _); [done |]. case_bool_decide.
  - destruct (can_reclaim _ _ _); [| done]. cbn [fst]. destruct (iv_one_time iv); [by apply auth_served | done].
  - destruct (_ && _); [| done]. destruct saved; [| done]. cbn [fst]. apply auth_served.
    replace (iv_token iv) with token by (symmetry; apply Ho).
    by apply (auth_put_invite s token (consume iv now ip (claim_id_header header)) true).
Qed.

Lemma auth_revoke s token now saved : auth_inv s -> auth_inv (revoke_invite s token now saved).1.
Proof.
  intros Hi. unfold revoke_invite. destruct (invites s !! token) as [iv |] eqn:E; [| done].
  pose proof (ai_invites s Hi token iv E) as Ho. replace (iv_token iv) with token by (symmetry; apply Ho).
  destruct saved; cbn [fst]; [by apply (auth_put_invite s token (revoked iv now) true) | by apply (auth_put_invite s token (revoked iv now) false)].
Qed.

Lemma auth_build s ttl one_time comment preset payload token now expires saved :
  auth_inv s -> auth_inv (build_invite s ttl one_time comment preset payload token now expires saved).1.
Proof.
  intros Hi. unfold build_invite. destruct (_ <? _); [done |]. destruct saved; [| done]. cbn [fst].
  set (iv := Build_Invite _ _ _ _ _ _ _ _ _ _ _). apply (auth_put_invite s token iv true); [done |].
  split_and!; [done | done |]. intros w Hw. by apply elem_of_nil in Hw.
Qed.

Lemma auth_save_ids s token iv iv' changed saved :
  auth_inv s -> invites s !! token = Some iv -> ids_ok s token iv' -> auth_inv (save_ids s token iv iv' changed saved).1.
Proof.
  intros Hi E Ho'. pose proof (ai_invites s Hi token iv E) as Ho. unfold save_ids.
  replace (iv_token iv) with token by (symmetry; apply Ho).
  destruct changed; cbn [negb]; [destruct saved |]; cbn [fst];
    [by apply (auth_put_invite s token iv' true) | by apply (auth_put_invite s token iv' false) | by apply (auth_put_invite s token iv' false)].
Qed.

Lemma elem_of_without x y l : y ∈ without x l <-> y <> x /\ y ∈ l.
Proof.
  unfold without. rewrite list_elem_of_In, filter_In, <- list_elem_of_In, negb_true_iff, bool_decide_eq_false. tauto.
Qed.

Lemma auth_attach s agent id token write saved :
  auth_inv s -> task_ok s (TAttach agent id token write) -> auth_inv (attach s agent id token write saved).1.
Proof.
  intros Hi (r & Hr & Ha). unfold attach. destruct (invites s !! token) as [iv |] eqn:E; [| done].
  set (s1 := if write then _ else s). assert (Hi1 : auth_inv s1).
  { unfold s1. destruct write; [rewrite <- Ha; by apply auth_binding | done]. }
  assert (E1 : invites s1 !! token = Some iv) by (unfold s1; by destruct write).
  pose proof (ai_invites s1 Hi1 token iv E1) as (Ht & Hsub & Hb).
  set (ids := if bool_decide (id ∈ iv_share_ids iv) then _ else _).
  assert (Hids : forall x, x = id \/ x ∈ iv_share_ids iv -> x ∈ ids).
  { intros x. unfold ids. case_bool_decide; [intros [-> | ?]; done |]. rewrite elem_of_app, list_elem_of_singleton. tauto. }
  destruct write; cbn [andb negb].
  - assert (Hnew : bound s1 token id).
    { exists r. split; [done |]. cbn. rewrite Ha. apply elem_of_app. right. by apply list_elem_of_singleton. }
    case_bool_decide; cbn [negb]; apply auth_save_ids; try done; (split_and!; [done | |]); cbn [iv_write_share_ids iv_share_ids set_share_ids].
    + intros x Hx. apply Hids. right. by apply Hsub.
    + done.
    + intros x [Hx | ->%list_elem_of_singleton]%elem_of_app; apply Hids; [right; by apply Hsub | by left].
    + intros w [Hw | ->%list_elem_of_singleton]%elem_of_app; [by apply Hb | done].
  - case_bool_decide; apply auth_save_ids; try done; (split_and!; [done | |]); cbn [iv_write_share_ids iv_share_ids set_share_ids].
    + intros x [_ Hx]%elem_of_without. apply Hids. right. by apply Hsub.
    + intros w [_ Hw]%elem_of_without. by apply Hb.
    + intros x Hx. apply Hids. right. by apply Hsub.
    + done.
Qed.

Lemma auth_detach s id token saved : auth_inv s -> auth_inv (detach s id token saved).1.
Proof.
  intros Hi. unfold detach. destruct (invites s !! token) as [iv |] eqn:E; [| done].
  pose proof (ai_invites s Hi token iv E) as (Ht & Hsub & Hb). apply auth_save_ids; [done | done |].
  split_and!; [done | |]; cbn [iv_write_share_ids iv_share_ids set_share_ids].
  - intros x [Hne Hx]%elem_of_without. apply elem_of_without. split; [done | by apply Hsub].
  - intros w [_ Hw]%elem_of_without. by apply Hb.
Qed.

Lemma auth_attach_begin s cred id token write now : auth_inv s -> auth_inv (attach_begin s cred id token write now).1.
Proof.
  intros Hi. unfold attach_begin. apply (signing_case s _ auth_inv); [done |]. intros key _.
  destruct (verify_credential_blob _ _ _) as [c | e]; [| done]. destruct (assert_owns_share _ _ _) as [[] | e] eqn:Eo; [| done].
  apply auth_tasks; [done |]. apply Forall_app. split; [apply Hi |]. apply Forall_singleton. by apply owns_registered.
Qed.

Lemma auth_detach_begin s cred id token now : auth_inv s -> auth_inv (detach_begin s cred id token now).1.
Proof.
  intros Hi. unfold detach_begin. apply (signing_case s _ auth_inv); [done |]. intros key _.
  destruct (verify_credential_blob _ _ _) as [c | e]; [| done]. destruct (assert_owns_share _ _ _) as [[] | e]; [| done].
  apply auth_tasks; [done |]. apply Forall_app. split; [apply Hi |]. by apply Forall_singleton.
Qed.

Lemma auth_grants_begin s token now : auth_inv s -> auth_inv (grants_begin s token now).1.
Proof.
  intros Hi. unfold grants_begin. apply (signing_case s _ auth_inv); [done |]. intros key _.
  destruct (invites s !! token) as [iv |] eqn:E; [| done]. destruct (bytes_leb _ _); [done |]. case_bool_decide; [done |].
  apply auth_tasks; [done |]. apply Forall_app. split; [apply Hi |]. apply Forall_singleton.
  by destruct (ai_invites s Hi token iv E) as (_ & _ & ?).
Qed.

Lemma auth_invite_shares s token ids wids now :
  auth_inv s -> task_ok s (TGrants token ids wids) -> clock_ok now -> auth_inv (invite_shares s ids wids now).1.
Proof.
  intros Hi Ht Hc. unfold invite_shares. apply (signing_case s _ auth_inv); [done |]. intros key _.
  destruct (grant_shares _ _ _ _ _) as [gs hs] eqn:E. cbn [fst]. apply auth_mint; [done |].
  change hs with (gs, hs).2. rewrite <- E. eapply mint_grants; [done | done |].
  apply exp_ok; [done |]. unfold DEFAULT_TOKEN_TTL. lia.
Qed.

Lemma auth_expose_add s cred name now created saved :
  auth_inv s -> presented s cred -> auth_inv (expose_add s cred name now created saved).1.
Proof.
  intros Hi Hp. unfold expose_add. apply (signing_case s _ auth_inv); [done |]. intros key Hk.
  destruct (verify_credential_blob _ _ _) as [c | e] eqn:Ec; [| done]. apply cred_clean with (s := s) in Ec; [| done..].
  destruct (checked_name name) as [n | e] eqn:En; [| done]. apply name_clean in En.
  destruct (exposes s !! n) as [rec |] eqn:Ee; [by case_bool_decide |]. destruct saved; [| done]. cbn [fst].
  set (s' := upd_exposes _ _ _ _). assert (Hg : grows s s').
  { split_and!; cbn; [done | | done]. intros x Hx. apply elem_of_app. by left. }
  destruct Hi. constructor; cbn [s' minted shares disk_shares registered exposes disk_exposes published invites disk_invites hub_tasks upd_exposes]; try done.
  - eapply Forall_impl; [done |]. intros h. by apply mint_ok_mono.
  - intros m rec [[<- <-] | [_ Hl]]%lookup_insert_Some; apply elem_of_app; [right; by apply list_elem_of_singleton | left; eauto].
  - intros m rec [[<- <-] | [_ Hl]]%lookup_insert_Some; apply elem_of_app; [right; by apply list_elem_of_singleton | left; eauto].
  - intros m a [Hm | [= -> ->]%list_elem_of_singleton]%elem_of_app; [eauto | done].
Qed.

Lemma auth_expose_remove s cred name now deleted : auth_inv s -> auth_inv (expose_remove s cred name now deleted).1.
Proof.
  intros Hi. unfold expose_remove. apply (signing_case s _ auth_inv); [done |]. intros key _. destruct cred as [blob |]; [| done].
  destruct (verify_credential_blob _ _ _) as [c | e]; [| done]. destruct (exposes s !! name); [| done].
  case_bool_decide; [by apply auth_drop_expose | done].
Qed.

Lemma auth_expose_mandate s cred name ttl now :
  auth_inv s -> ttl_ok ttl -> clock_ok now -> auth_inv (expose_mandate s cred name ttl now).1.
Proof.
  intros Hi Ht Hc. unfold expose_mandate. apply (signing_case s _ auth_inv); [done |]. intros key _.
  destruct (verify_credential_blob _ _ _) as [c | e]; [| done]. unfold clamp_mandate_ttl. destruct (_ || _); [done |].
  destruct (exposes s !! name) as [rec |] eqn:E; [| done]. case_bool_decide as Ha; [| done]. cbn [fst].
  apply auth_mint; [done |]. apply Forall_singleton. rewrite <- Ha.
  apply mint_web; [done | by apply (ai_exposes s Hi) | apply exp_ok; [done | by apply ttl_default]].
Qed.

Lemma auth_web_route s secret name now : auth_inv s -> clock_ok now -> auth_inv (web_route s secret name now).1.
Proof.
  intros Hi Hc. unfold web_route. destruct (require_web_secret _); [| done].
  apply (signing_case s _ auth_inv); [done |]. intros key _. destruct (hc_relay cfg); [| done].
  destruct (checked_name name) as [n | e]; [| done]. destruct (exposes s !! n) as [rec |] eqn:E; [| done]. cbn [fst].
  apply auth_mint; [done |]. destruct (mint_web s n (er_agent_pubkey rec) (sat_add U64_MAX now WEB_ROUTE_TTL)) as [H1 H2];
    [done | by apply (ai_exposes s Hi) | apply exp_ok; [done | unfold WEB_ROUTE_TTL; lia] |].
  apply Forall_cons. split; [done | by apply Forall_singleton].
Qed.

Lemma auth_password s secret user matches now : auth_inv s -> auth_inv (verify_password_at s secret user matches now).1.
Proof.
  intros Hi. unfold verify_password_at. destruct (require_web_secret _); [| done]. destruct (blocked_for _ _ _); [done |].
  destruct matches; by apply auth_attempts.
Qed.

Lemma auth_task_step s ts1 t ts2 : auth_inv s -> hub_tasks s = ts1 ++ t :: ts2 -> auth_inv (upd_tasks s (ts1 ++ ts2)) /\ task_ok s t.
Proof.
  intros Hi E. pose proof (ai_tasks s Hi) as Ht. rewrite E in Ht. apply Forall_app in Ht as [H1 H2].
  apply Forall_cons in H2 as [H2 H3]. split; [| done]. apply auth_tasks; [done |]. by apply Forall_app.
Qed.

Lemma auth_step s s' : auth_inv s -> hub_step s s' -> auth_inv s'.
Proof.
  intros Hi. destruct 1.
  - by apply auth_reg_token.
  - by apply auth_exchange.
  - by apply auth_add_share.
  - by apply auth_register.
  - by apply auth_create_share.
  - unfold delete_share. destruct (shares s !! id); [by apply auth_drop_share | done].
  - by apply auth_mint_token.
  - by apply auth_mint_own.
  - by apply auth_unshare.
  - by apply auth_claim.
  - by apply auth_revoke.
  - by apply auth_build.
  - by apply auth_attach_begin.
  - destruct (auth_task_step s ts1 _ ts2 Hi ltac:(done)). by apply auth_attach.
  - by apply auth_detach_begin.
  - destruct (auth_task_step s ts1 _ ts2 Hi ltac:(done)). by apply auth_detach.
  - by apply auth_grants_begin.
  - destruct (auth_task_step s ts1 _ ts2 Hi ltac:(done)). by apply (auth_invite_shares _ token).
  - by apply auth_expose_add.
  - by apply auth_expose_remove.
  - unfold expose_admin_remove. destruct (exposes s !! name); [by apply auth_drop_expose | done].
  - by apply auth_expose_mandate.
  - by apply auth_web_route.
  - apply auth_mint; [done |]. apply Forall_singleton. apply mint_web; [done | done | unfold clock_ok in *; lia].
  - by apply auth_password.
  - apply auth_mint; [done |]. apply Forall_singleton. split; [by exists body | done].
  - by apply auth_hydrate.
Qed.

Lemma auth_reachable s : hub_reachable s -> auth_inv s.
Proof.
  unfold hub_reachable. intros Hr. remember Hub_new as s0. induction Hr as [s | s s' s'' _ IH Hs]; subst.
  - constructor; try done; cbn; intros; try constructor; set_solver.
  - eapply auth_step; [by apply IH | done].
Qed.

(** ** The life of an invite

    What a step does to the tables of invites and to the log of payloads. *)

Definition keeps (iv iv' : Invite) : Prop :=
  iv_one_time iv' = iv_one_time iv /\ (is_Some (iv_consumed_at iv) -> is_Some (iv_consumed_at iv')) /\
  (iv_claim_id iv' = iv_claim_id iv \/ iv_claim_id iv' = None).

Inductive inv_kind s : gmap bytes Invite -> gmap bytes Invite -> list (bytes * option bytes) -> Prop :=
| ik_same : inv_kind s (invites s) (disk_invites s) (served s)
| ik_put tok iv iv' (d : bool) :
    invites s !! tok = Some iv -> keeps iv iv' ->
    inv_kind s (<[tok := iv']> (invites s)) (if d then <[tok := iv']> (disk_invites s) else disk_invites s) (served s)
| ik_new tok iv' :
    invites s !! tok = None -> disk_invites s !! tok = None -> iv_claim_id iv' = None ->
    inv_kind s (<[tok := iv']> (invites s)) (<[tok := iv']> (disk_invites s)) (served s)
| ik_consume tok iv now ip c :
    invites s !! tok = Some iv -> iv_consumed_at iv = None -> iv_one_time iv = true ->
    inv_kind s (<[tok := consume iv now ip c]> (invites s)) (<[tok := consume iv now ip c]> (disk_invites s))
      (served s ++ [(tok, c)])
| ik_again tok iv c :
    invites s !! tok = Some iv -> iv_claim_id iv = Some c -> inv_kind s (invites s) (disk_invites s) (served s ++ [(tok, Some c)])
| ik_restart : inv_kind s (disk_invites s) (disk_invites s) (served s).

Abbreviation kind_of s s' := (inv_kind s (invites s') (disk_invites s') (served s')).

Ltac same_kind := match goal with |- inv_kind ?s _ _ _ => exact (ik_same s) end.

Lemma kind_signing {A} s (k : bytes -> HubState * reply A) : (forall key, kind_of s (k key).1) -> kind_of s (with_signing s k).1.
Proof. intros Hk. unfold with_signing. destruct (hc_signing cfg); [apply Hk | same_kind]. Qed.

(** The handlers that never touch an invite. *)
Ltac kind_same := repeat (case_match; simplify_eq; cbn [fst]; try same_kind); try same_kind.

Lemma kind_claim s token header ip now saved :
  auth_inv s -> hc_dev_mode cfg = false -> kind_of s (claim_invite s token header ip now saved).1.
Proof.
  intros Hi Hd. unfold claim_invite. destruct (invites s !! token) as [iv |] eqn:E; [| same_kind].
  destruct (bytes_leb _ _); [same_kind |]. rewrite Hd, andb_true_r. case_bool_decide as Hc.
  - destruct (can_reclaim _ _ _) eqn:Er; [| same_kind]. cbn [fst]. destruct (iv_one_time iv); [| same_kind].
    unfold can_reclaim in Er. destruct (has_live_claim _ _); [| done]. cbn [negb] in Er.
    destruct (iv_claim_id iv) as [c |] eqn:Ec; [| done]. destruct (claim_id_header header); [| done].
    apply bool_decide_eq_true in Er as <-. exact (ik_again s token iv c E Ec).
  - destruct (iv_one_time iv) eqn:Eo; [| same_kind]. destruct saved; [| same_kind]. cbn [fst].
    replace (iv_token iv) with token by (symmetry; apply (ai_invites s Hi token iv E)).
    apply ik_consume; [done | | done]. by destruct (iv_consumed_at iv); [destruct Hc |].
Qed.

Lemma kind_save_ids s1 s token iv ids wids changed saved :
  auth_inv s -> invites s1 = invites s -> disk_invites s1 = disk_invites s -> served s1 = served s ->
  invites s !! token = Some iv -> kind_of s (save_ids s1 token iv (set_share_ids iv ids wids) changed saved).1.
Proof.
  intros Hi E1 E2 E3 E. assert (Hk : keeps iv (set_share_ids iv ids wids)) by (split_and!; auto).
  unfold save_ids. rewrite (proj1 (ai_invites s Hi token iv E)).
  destruct changed; cbn [negb]; [destruct saved |]; cbn; rewrite E1, E2, E3;
    [by apply (ik_put s token iv _ true) | by apply (ik_put s token iv _ false) | by apply (ik_put s token iv _ false)].
Qed.

Lemma kind_revoke s token now saved : auth_inv s -> kind_of s (revoke_invite s token now saved).1.
Proof.
  intros Hi. unfold revoke_invite. destruct (invites s !! token) as [iv |] eqn:E; [| same_kind].
  assert (Hk : keeps iv (revoked iv now)) by (split_and!; [done | by eexists | by right]).
  rewrite (proj1 (ai_invites s Hi token iv E)). destruct saved; cbn;
    [by apply (ik_put s token iv _ true) | by apply (ik_put s token iv _ false)].
Qed.

Lemma kind_step s s' : auth_inv s -> hc_dev_mode cfg = false -> hub_step s s' -> kind_of s s'.
Proof.
  intros Hi Hd. destruct 1; try same_kind.
  - unfold create_reg_token, sign_reg_token. apply kind_signing. intros key. kind_same.
  - unfold exchange. apply kind_signing. intros key. kind_same.
  - unfold add_share, store_share. apply kind_signing. intros key. kind_same.
  - unfold hub_register, store_share. apply kind_signing. intros key. kind_same.
  - unfold create_share, store_share. kind_same.
  - unfold delete_share, drop_share. kind_same.
  - unfold mint_token. apply kind_signing. intros key. kind_same.
  - unfold mint. apply kind_signing. intros key. kind_same.
  - unfold unshare, drop_share. apply kind_signing. intros key. kind_same.
  - by apply kind_claim.
  - by apply kind_revoke.
  - unfold build_invite. destruct (_ <? _); [same_kind |]. destruct saved; [| same_kind].
    cbn. apply ik_new; [apply H1 | apply H1 | done].
  - unfold attach_begin. apply kind_signing. intros key. kind_same.
  - unfold attach. cbn [invites upd_tasks]. destruct (invites s !! token) as [iv |] eqn:E; [| same_kind].
    destruct (if write && _ then _ else _) as [wids wch]. apply kind_save_ids; try done; by destruct write.
  - unfold detach_begin. apply kind_signing. intros key. kind_same.
  - unfold detach. cbn [invites upd_tasks]. destruct (invites s !! token) as [iv |] eqn:E; [| same_kind].
    by apply kind_save_ids.
  - unfold grants_begin. apply kind_signing. intros key. kind_same.
  - unfold invite_shares, with_signing. kind_same.
  - unfold expose_add. apply kind_signing. intros key. kind_same.
  - unfold expose_remove, drop_expose. apply kind_signing. intros key. kind_same.
  - unfold expose_admin_remove, drop_expose. kind_same.
  - unfold expose_mandate. apply kind_signing. intros key. kind_same.
  - unfold web_route. destruct (require_web_secret _); [| same_kind]. apply kind_signing. intros key. kind_same.
  - unfold verify_password_at. kind_same.
  - exact (ik_restart s).
Qed.

(** The claim keys the payload of an invite was handed to, in order. *)
Definition served_of (l : list (bytes * option bytes)) (tok : bytes) : list (option bytes) :=
  map snd (List.filter (fun x => bool_decide (x.1 = tok)) l).

Lemma served_of_snoc l tok t c : served_of (l ++ [(t, c)]) tok = served_of l tok ++ (if bool_decide (t = tok) then [c] else []).
Proof.
  unfold served_of. rewrite List.filter_app, map_app. f_equal. cbn [List.filter fst]. by case_bool_decide.
Qed.

Definition once_ok (m d : gmap bytes Invite) (l : list (bytes * option bytes)) (tok : bytes) : Prop :=
  match served_of l tok with
  | [] => forall iv, m !! tok = Some iv \/ d !! tok = Some iv -> iv_claim_id iv = None
  | c0 :: rest =>
      Forall (eq c0) rest /\ (c0 = None -> rest = []) /\ is_Some (d !! tok) /\
      forall iv, m !! tok = Some iv \/ d !! tok = Some iv ->
        is_Some (iv_consumed_at iv) /\ (iv_claim_id iv = None \/ iv_claim_id iv = c0)
  end.

(** Another entry of the tables. *)
Lemma once_ok_other m d l tok t iv' (b : bool) :
  t <> tok -> once_ok m d l tok -> once_ok (<[t := iv']> m) (if b then <[t := iv']> d else d) l tok.
Proof.
  intros Hne. unfold once_ok. rewrite lookup_insert_ne by done.
  replace ((if b then <[t := iv']> d else d) !! tok) with (d !! tok) by (destruct b; [by rewrite lookup_insert_ne | done]). done.
Qed.

Lemma once_ok_log m d l tok t c : t <> tok -> once_ok m d l tok -> once_ok m d (l ++ [(t, c)]) tok.
Proof. intros Hne. unfold once_ok. rewrite served_of_snoc, bool_decide_false by done. by rewrite app_nil_r. Qed.

Lemma once_kind s m d l : (forall tok, once_ok (invites s) (disk_invites s) (served s) tok) -> inv_kind s m d l ->
  forall tok, once_ok m d l tok.
Proof.
  intros Ho Hk tok. specialize (Ho tok). destruct Hk as [| t iv iv' b Hm Hkp | t iv' Hm Hd Hc | t iv now ip c Hm Hc Hot | t iv c Hm Hc |].
  - done.
  - destruct (decide (t = tok)) as [-> | Hne]; [| by apply once_ok_other]. destruct Hkp as (_ & Hk2 & Hk3).
    assert (Hin : forall x, <[tok := iv']> (invites s) !! tok = Some x \/
      (if b then <[tok := iv']> (disk_invites s) else disk_invites s) !! tok = Some x -> x = iv' \/ disk_invites s !! tok = Some x).
    { intros x. rewrite lookup_insert_eq. destruct b; rewrite ?lookup_insert_eq; intros [[= <-] | ?]; simplify_eq; auto. }
    unfold once_ok in *. destruct (served_of (served s) tok) as [| c0 rest].
    + intros x [-> | Hx]%Hin; [| by apply Ho; right]. assert (iv_claim_id iv = None) by (apply Ho; by left).
      destruct Hk3 as [-> | ->]; done.
    + destruct Ho as (H1 & H2 & H3 & H4). split_and!; [done | done | |].
      * destruct b; [by rewrite lookup_insert_eq; eexists | done].
      * intros x [-> | Hx]%Hin; [| by apply H4; right]. destruct (H4 iv) as [H5 H6]; [by left |]. split; [by apply Hk2 |].
        destruct Hk3 as [-> | ->]; [done | by left].
  - destruct (decide (t = tok)) as [-> | Hne]; [| by apply (once_ok_other _ _ _ _ _ _ true)].
    unfold once_ok in *. destruct (served_of (served s) tok) as [| c0 rest].
    + intros x. rewrite !lookup_insert_eq. by intros [[= <-] | [= <-]].
    + destruct Ho as (_ & _ & H3 & _). rewrite Hd in H3. by destruct H3.
  - destruct (decide (t = tok)) as [-> | Hne]; [| by apply (once_ok_other _ _ _ _ _ _ true), once_ok_log].
    unfold once_ok in *. rewrite served_of_snoc, bool_decide_true by done.
    destruct (served_of (served s) tok) as [| c0 rest]; cbn [app].
    + split_and!; [constructor | done | by rewrite lookup_insert_eq; eexists |].
      intros x. rewrite !lookup_insert_eq. intros [[= <-] | [= <-]]; cbn; (split; [by eexists | by right]).
    + destruct Ho as (_ & _ & _ & H4). destruct (H4 iv) as [H5 _]; [by left |]. rewrite Hc in H5. by destruct H5.
  - destruct (decide (t = tok)) as [-> | Hne]; [| by apply once_ok_log].
    unfold once_ok in *. rewrite served_of_snoc, bool_decide_true by done.
    destruct (served_of (served s) tok) as [| c0 rest]; cbn [app].
    + rewrite (Ho iv) in Hc by (by left). done.
    + destruct Ho as (H1 & H2 & H3 & H4). destruct (H4 iv) as [_ H6]; [by left |].
      assert (c0 = Some c) as -> by (destruct H6; congruence). split_and!; [| done | done | done].
      apply Forall_app. split; [done | by apply Forall_singleton].
  - unfold once_ok in *. destruct (served_of (served s) tok) as [| c0 rest].
    + intros iv Hi. apply Ho. by destruct Hi; right.
    + destruct Ho as (H1 & H2 & H3 & H4). split_and!; [done | done | done |]. intros iv Hi. apply H4. by destruct Hi; right.
Qed.

Lemma once_reachable s tok : hc_dev_mode cfg = false -> hub_reachable s -> once_ok (invites s) (disk_invites s) (served s) tok.
Proof.
  intros Hd Hr. revert tok. pose proof Hr as Hr'. unfold hub_reachable in Hr. remember Hub_new as s0.
  induction Hr as [s | s s' s'' Hrun IH Hs]; subst.
  - intros tok iv Hi. cbn in Hi. rewrite !lookup_empty in Hi. by destruct Hi.
  - eapply once_kind; [by apply IH | apply kind_step; [by apply auth_reachable | done | done]].
Qed.

(** An invite that was revoked, in memory and on disk. *)
Definition dead (m d : gmap bytes Invite) (tok : bytes) : Prop :=
  is_Some (d !! tok) /\ forall iv, m !! tok = Some iv \/ d !! tok = Some iv -> is_Some (iv_consumed_at iv) /\ iv_claim_id iv = None.

Lemma dead_kind s m d l tok : dead (invites s) (disk_invites s) tok -> inv_kind s m d l -> dead m d tok.
Proof.
  intros [Hs Hd] Hk. destruct Hk as [| t iv iv' b Hm (_ & Hk2 & Hk3) | t iv' Hm Hn Hc | t iv now ip c Hm Hc Hot | t iv c Hm Hc |]; [done | | | | done |].
  - destruct (decide (t = tok)) as [-> | Hne].
    + destruct (Hd iv) as [H1 H2]; [by left |]. split; [destruct b; [by rewrite lookup_insert_eq; eexists | done] |].
      intros x. rewrite lookup_insert_eq. assert (Hx : x = iv' -> is_Some (iv_consumed_at x) /\ iv_claim_id x = None).
      { intros ->. split; [by apply Hk2 | destruct Hk3; congruence]. }
      intros [[= <-] | Hb]; [by apply Hx |]. destruct b; [rewrite lookup_insert_eq in Hb; injection Hb as <-; by apply Hx | apply Hd; by right].
    + unfold dead. rewrite lookup_insert_ne by done.
      replace ((if b then <[t := iv']> (disk_invites s) else disk_invites s) !! tok) with (disk_invites s !! tok)
        by (destruct b; [by rewrite lookup_insert_ne | done]). done.
  - assert (t <> tok) by (intros ->; rewrite Hn in Hs; by destruct Hs). unfold dead. by rewrite !lookup_insert_ne.
  - assert (t <> tok) by (intros ->; destruct (Hd iv) as [H1 _]; [by left | rewrite Hc in H1; by destruct H1]).
    unfold dead. by rewrite !lookup_insert_ne.
  - split; [done |]. intros iv Hi. apply Hd. by destruct Hi; right.
Qed.

Lemma run_reachable s s' : hub_reachable s -> hub_run s s' -> hub_reachable s'.
Proof. intros Hr. induction 1 as [| s s' s'' _ IH Hs]; [done |]. eapply hr_next; [by apply IH | done]. Qed.

Lemma dead_run s s' tok :
  hub_reachable s -> hc_dev_mode cfg = false -> dead (invites s) (disk_invites s) tok -> hub_run s s' ->
  dead (invites s') (disk_invites s') tok.
Proof.
  intros Hr Hd Hx Hrun. revert Hr Hx. induction Hrun as [| s s' s'' Hrun IH Hs]; intros Hr Hx; [done |].
  eapply dead_kind; [by apply IH |]. apply kind_step; [| done | done]. apply auth_reachable. by eapply run_reachable.
Qed.


(** C18: what an accepted mandate stands for. Take any state the hub can reach and any
    token whose signature is not a forgery. If an agent accepts it as a share token,
    the share was registered with the hub; if it grants writing, the share was
    registered as writable and the agent that owns it bound it to an invite for
    writing. An accepted relay token leads to the agent that registered that share,
    or to the one that published that name; an accepted expose token names a
    publication and the agent that published it. *)
Theorem hub_mandates_authorised key s now :
  hc_signing cfg = Some key -> hub_reachable s ->
  (forall t sid required, 0 <= st_exp t < 2 ^ 64 -> genuine (verifying_key key) (map hub_bytes (minted s)) (st_signature t) ->
     verify_share_token t (verifying_key key) sid required now = Ok tt ->
     exists r, registered s !! sid = Some r /\
       (scope_contains (st_scope t) SCOPE_WRITE = true ->
        sr_writable r = true /\ exists token, (token, sid, sr_agent_pubkey r) ∈ bindings s)) /\
  (forall t sid agent, 0 <= rt_exp t < 2 ^ 64 -> genuine (verifying_key key) (map hub_bytes (minted s)) (rt_signature t) ->
     verify_relay_token t (verifying_key key) sid agent now = Ok tt ->
     (exists r, registered s !! sid = Some r /\ sr_agent_pubkey r = agent) \/
     (exists name, sid = web_share_id name /\ (name, agent) ∈ published s)) /\
  (forall t name agent, 0 <= et_exp t < 2 ^ 64 -> genuine (verifying_key key) (map hub_bytes (minted s)) (et_signature t) ->
     verify_expose_token t (verifying_key key) name agent now = Ok tt -> (name, agent) ∈ published s).
Proof.
  intros Hk Hr%auth_reachable. pose proof (ai_minted s Hr) as Hm. rewrite Forall_forall in Hm.
  assert (Hok : Forall hub_ok (minted s)) by (apply Forall_forall; intros h Hh; apply (Hm h Hh)).
  split_and!.
  - intros t sid req He Hg. unfold verify_share_token. case_bool_decide as Hs; cbn [negb]; [| done].
    destruct (st_exp t <=? now); [done |]. destruct (check_signature _ _ _ _ _) as [[] | e] eqn:Ec; [| done]. intros _.
    eapply check_genuine, (hub_minted (HShare _ _ _)) in Ec; [| by eexists | done | done | done].
    destruct (Hm _ Ec) as [_ (r & H1 & H2)]. rewrite Hs in H1. exists r. split; [done |]. intros Hw.
    destruct (H2 Hw) as [H3 (token & r' & H4 & H5)]. rewrite Hs in H4, H5. split; [done |]. exists token. by simplify_eq.
  - intros t sid agent He Hg. unfold verify_relay_token. do 2 (case_bool_decide; cbn [negb]; [| done]).
    destruct (rt_exp t <=? now); [done |]. intros Ec.
    eapply check_genuine, (hub_minted (HRelay _ _ _)) in Ec; [| by eexists | done | done | done].
    destruct (Hm _ Ec) as [_ Hx]. by subst.
  - intros t name agent He Hg. unfold verify_expose_token. do 2 (case_bool_decide; cbn [negb]; [| done]).
    destruct (et_exp t <=? now); [done |]. intros Ec.
    eapply check_genuine, (hub_minted (HExpose _ _ _)) in Ec; [| by eexists | done | done | done].
    destruct (Hm _ Ec) as [_ Hx]. by subst.
Qed.

(** what the hub refuses. Without a signing key it answers 503. A credential that
    does not decode is a 400, one that does not verify or has lapsed a 403; with a
    good credential a share or a publication that is not there is a 404 and one of
    another agent a 403. In each case nothing changes: no token is minted, no binding
    made, nothing removed. *)
Theorem hub_refuses s cred sid name token write ttl now deleted :
  (hc_signing cfg = None ->
     mint s cred sid ttl now = (s, Err 503) /\ unshare s cred sid now deleted = (s, Err 503) /\
     attach_begin s cred sid token write now = (s, Err 503) /\ detach_begin s cred sid token now = (s, Err 503) /\
     expose_mandate s cred name ttl now = (s, Err 503) /\ expose_remove s (Some cred) name now deleted = (s, Err 503)) /\
  (forall key e, hc_signing cfg = Some key -> verify_credential_blob key cred now = Err e ->
     (e = 400 \/ e = 403) /\ mint s cred sid ttl now = (s, Err e) /\ unshare s cred sid now deleted = (s, Err e) /\
     attach_begin s cred sid token write now = (s, Err e) /\ detach_begin s cred sid token now = (s, Err e) /\
     expose_mandate s cred name ttl now = (s, Err e) /\ expose_remove s (Some cred) name now deleted = (s, Err e)) /\
  (forall key c, hc_signing cfg = Some key -> verify_credential_blob key cred now = Ok c ->
     (forall e, (shares s !! sid = None /\ e = 404) \/
                (exists r, shares s !! sid = Some r /\ sr_agent_pubkey r <> ac_agent_pubkey c /\ e = 403) ->
        mint s cred sid ttl now = (s, Err (if clamp_token_ttl ttl is Ok _ then e else 400)) /\
        unshare s cred sid now deleted = (s, Err e) /\
        attach_begin s cred sid token write now = (s, Err e) /\ detach_begin s cred sid token now = (s, Err e)) /\
     (forall e, (exposes s !! name = None /\ e = 404) \/
                (exists r, exposes s !! name = Some r /\ er_agent_pubkey r <> ac_agent_pubkey c /\ e = 403) ->
        expose_remove s (Some cred) name now deleted = (s, Err e) /\
        expose_mandate s cred name ttl now = (s, Err (if clamp_mandate_ttl ttl is Ok _ then e else 400)))).
Proof.
  unfold mint, unshare, attach_begin, detach_begin, expose_mandate, expose_remove, with_signing. split_and!.
  - by intros ->.
  - intros key e -> He. rewrite He. split; [| done]. revert He. unfold verify_credential_blob.
    destruct cred; [destruct (verify_agent_credential _ _ _) |]; intros [= <-]; auto.
  - intros key c -> ->. split.
    + intros e He. assert (Ho : assert_owns_share s c sid = Err e).
      { unfold assert_owns_share. destruct He as [[-> ->] | (r & -> & Hne & ->)]; [done | by rewrite bool_decide_false]. }
      rewrite Ho. split; [| done]. unfold clamp_token_ttl. by destruct (_ || _).
    + intros e He. unfold clamp_mandate_ttl.
      destruct He as [[-> ->] | (r & -> & Hne & ->)]; [| rewrite bool_decide_false by done];
        (split; [done |]; by destruct (_ || _)).
Qed.

End handlers.

(** ** The password delay *)

(** The first three misses cost nothing, then the delay doubles up to five minutes. *)
Lemma attempt_delay_bounds f : 0 <= f -> 0 <= attempt_delay f <= PASSWORD_MAX_DELAY_MS /\ (f <= 3 -> attempt_delay f = 0) /\
  (12 < f -> attempt_delay f = PASSWORD_MAX_DELAY_MS).
Proof.
  intros Hf. unfold attempt_delay, sat_sub, PASSWORD_FREE_ATTEMPTS, PASSWORD_MAX_DELAY_MS.
  destruct (Z.eqb_spec (Z.max 0 (f - 3)) 0); [split_and!; lia |].
  set (e := Z.min (Z.max 0 (f - 3) - 1) 20). assert (0 <= e <= 20) by lia.
  rewrite Z.shiftl_mul_pow2 by lia. assert (2 ^ e <= 2 ^ 20) by (apply Z.pow_le_mono_r; lia).
  assert (0 < 2 ^ e) by (apply Z.pow_pos_nonneg; lia).
  unfold u64. rewrite Z.mod_small by lia. split_and!; try lia.
  intros Hl. assert (2 ^ 9 <= 2 ^ e) by (apply Z.pow_le_mono_r; lia). lia.
Qed.

(** ** Witnesses: a hub with the toy signature scheme *)

Definition ex_defaults : InviteDefaults :=
  {| id_server_address := str "203.0.113.10"; id_server_port := 8443; id_obfuscation_key := []; id_modifier := [];
     id_salt := 0; id_hub_url := []; id_servers := [] |}.

Definition ex_cfg : HubConfig :=
  {| hc_signing := Some ex_hub; hc_relay := None; hc_web_secret := None; hc_dev_mode := false; hc_default_ttl := 3600;
     hc_max_ttl := 7200; hc_defaults := ex_defaults |}.

Definition ex_expires (_ : Z) : bytes := str "2099-01-01T00:00:00+00:00".
Definition ex_now : bytes := str "2026-01-01T00:00:00+00:00".

Definition ex_invited : HubState :=
  (build_invite ex_cfg Hub_new None true [] None None (str "inv") ex_now ex_expires true).1.
Definition ex_claimed : HubState :=
  (claim_invite ex_cfg ex_invited (str "inv") (Some (str "phone")) None ex_now true).1.
Definition ex_reclaimed : HubState :=
  (claim_invite ex_cfg (hydrate ex_claimed) (str "inv") (Some (str "phone")) None ex_now true).1.

Lemma ex_invited_reachable : @hub_reachable toy_base64 toy_ed25519 ex_cfg ex_invited.
Proof. eapply hr_next; [apply hr_refl |]. apply hs_invite. by split. Qed.

Lemma ex_reclaimed_reachable : @hub_reachable toy_base64 toy_ed25519 ex_cfg ex_reclaimed.
Proof.
  eapply hr_next; [| apply hs_claim]. eapply hr_next; [| apply hs_restart]. eapply hr_next; [| apply hs_claim].
  apply ex_invited_reachable.
Qed.


(** A revocation whose write failed answers an error and holds until the restart only. *)
Example revocation_lost_on_failed_write :
  exists s1 s2, revoke_invite ex_invited (str "inv") ex_now false = (s1, Err 500) /\
    claim_invite ex_cfg s1 (str "inv") None None ex_now true = (s1, Err 410) /\
    claim_invite ex_cfg (hydrate s1) (str "inv") None None ex_now true = (s2, Ok (default_payload ex_cfg None)).
Proof. do 2 eexists. split_and!; vm_compute; reflexivity. Qed.

Definition ex_share_req : CreateShareRequest :=
  {| cs_name := str "docs"; cs_owner := []; cs_addr := str "192.0.2.1"; cs_port := 8000;
     cs_agent_pubkey := toy_encode (repeat 1 32); cs_comment := [] |}.

Definition ex_shared : HubState :=
  (@mint_token toy_base64 toy_ed25519 ex_cfg (@create_share toy_base64 Hub_new ex_share_req ex_now (str "s1") true).1
     (str "s1") None 0).1.

Definition ex_share_token : ShareToken := @sign_share_token toy_base64 toy_ed25519 ex_hub (str "s1") SCOPE_READ 604800.

Lemma ex_shared_reachable : @hub_reachable toy_base64 toy_ed25519 ex_cfg ex_shared.
Proof.
  eapply hr_next; [| apply hs_mint_token; [vm_compute; congruence | split; [lia | vm_compute; reflexivity]]].
  eapply hr_next; [apply hr_refl |]. apply hs_create_share. split; [done | by_compute].
Qed.

Lemma ex_shared_genuine :
  @genuine toy_base64 toy_ed25519 ex_hub (map hub_bytes (minted ex_shared)) (st_signature ex_share_token).
Proof.
  intros sg m Hd Hv. replace (map hub_bytes (minted ex_shared)) with [token_signing_bytes (str "s1") SCOPE_READ 604800]
    by (vm_compute; reflexivity).
  unfold ex_share_token, sign_share_token in Hd. cbn [st_signature] in Hd. rewrite decode_signed in Hd.
  injection Hd as <-. apply bool_decide_eq_true in Hv. symmetry in Hv.
  apply toy_sign_inj in Hv as ->; [by left | by_compute | vm_compute; lia].
Qed.

Lemma hub_mandates_authorised_witness : exists r, registered ex_shared !! str "s1" = Some r /\
  @verify_share_token toy_base64 toy_ed25519 ex_share_token ex_hub (str "s1") SCOPE_READ 1000 = Ok tt.
Proof.
  assert (Hv : @verify_share_token toy_base64 toy_ed25519 ex_share_token ex_hub (str "s1") SCOPE_READ 1000 = Ok tt)
    by (vm_compute; reflexivity).
  destruct (@hub_mandates_authorised toy_base64 toy_ed25519 ex_cfg ex_hub ex_shared 1000 eq_refl ex_shared_reachable) as [Hs _].
  destruct (Hs ex_share_token (str "s1") SCOPE_READ) as (r & Hr & _);
    [split; vm_compute; congruence | apply ex_shared_genuine | exact Hv | by exists r].
Defined.

Definition ex_foreign : AgentCredential := @sign_agent_credential toy_base64 toy_ed25519 ex_hub (str "other") 9000.

Lemma hub_refuses_witness :
  @unshare toy_base64 toy_ed25519 ex_cfg ex_shared (Some ex_foreign) (str "s1") 1000 true = (ex_shared, Err 403) /\
  @unshare toy_base64 toy_ed25519 ex_cfg ex_shared (Some ex_foreign) (str "s2") 1000 true = (ex_shared, Err 404).
Proof.
  pose proof (fun sid => @hub_refuses toy_base64 toy_ed25519 ex_cfg ex_shared (Some ex_foreign) sid [] [] false None 1000 true)
    as Hall.
  assert (Hv : @verify_credential_blob toy_base64 toy_ed25519 ex_hub (Some ex_foreign) 1000 = Ok ex_foreign)
    by (vm_compute; reflexivity).
  split.
  - destruct (Hall (str "s1")) as (_ & _ & H3). destruct (H3 ex_hub ex_foreign eq_refl Hv) as [Hs _].
    apply (Hs 403). right. destruct (shares ex_shared !! str "s1") as [r |] eqn:E; [| by vm_compute in E].
    exists r. split_and!; [done | | done]. vm_compute in E. injection E as <-. by vm_compute.
  - destruct (Hall (str "s2")) as (_ & _ & H3). destruct (H3 ex_hub ex_foreign eq_refl Hv) as [Hs _].
    apply (Hs 404). left. split; [vm_compute; reflexivity | done].
Defined.
