(* ===== verification/Sync.v ===== *)
(** * The mirror diff and the selection (xr-core/src/sync.rs)

    What a consumer of a share wants to hold locally: the diff between the manifest
    and the local files, restricted to a selection of files and folders, and the
    removal of one file or folder from such a selection. A [HashSet] of strings is a
    [gset], a [HashMap] a [gmap]; loops whose end is not structural carry fuel, and
    the theorems show that the fuel their callers set is enough. *)

From S2P Require Import Prelude Text Order SafePath Share.

Record LocalFile := { lf_path : bytes; lf_sha256 : bytes; lf_size : Z }.

Record SyncPlan := { sp_fetch : list ShareManifestEntry; sp_delete : list bytes }.

Definition SyncPlan_is_empty (p : SyncPlan) : bool :=
  bool_decide (length (sp_fetch p) = 0%nat) && bool_decide (length (sp_delete p) = 0%nat).

(** Listed exactly, or under the folder. *)
Definition covers (s path : bytes) : bool := bool_decide (path = s) || starts_with (s ++ [47]) path.

Definition path_selected (path : bytes) (selection : option (gset bytes)) : bool :=
  match selection with
  | None => true
  | Some sel => existsb (fun s => covers s path) (elements sel)
  end.

(** Collecting a [HashMap]: the last of several entries stays. *)
Definition by_path {A} (path : A -> bytes) (l : list A) : gmap bytes A :=
  foldl (fun m x => <[path x := x]> m) ∅ l.

(** The test of the fetch filter. *)
Definition stale (local_by_path : gmap bytes LocalFile) (e : ShareManifestEntry) : bool :=
  match local_by_path !! me_path e with
  | Some l =>
      if negb (bool_decide (me_sha256 e = [])) then negb (eq_ignore_ascii_case (lf_sha256 l) (me_sha256 e))
      else negb (lf_size l =? me_size e)
  | None => true
  end.

Definition desired (manifest : ShareManifest) (selection : option (gset bytes)) : list ShareManifestEntry :=
  List.filter (fun e => path_selected (me_path e) selection) (entries manifest).

Definition plan_with_selection (manifest : ShareManifest) (local : list LocalFile) (selection : option (gset bytes)) :
    SyncPlan :=
  let want := desired manifest selection in
  let desired_paths : gset bytes := list_to_set (map me_path want) in
  {| sp_fetch := isort (fun a b => bytes_leb (me_path a) (me_path b))
                   (List.filter (stale (by_path lf_path local)) want);
     sp_delete := isort bytes_leb
                   (map lf_path (List.filter (fun f => bool_decide (lf_path f ∉ desired_paths)) local)) |}.

Definition plan_sync (manifest : ShareManifest) (local : list LocalFile) : SyncPlan :=
  plan_with_selection manifest local None.

(** ** Removing one path from a selection *)

(** [&p[..p.rfind('/')?]]. *)
Fixpoint rcut (c : Z) (l : bytes) : option bytes :=
  match l with
  | [] => None
  | b :: l' => match rcut c l' with Some p => Some (b :: p) | None => if b =? c then Some [] else None end
  end.

(** The inner [while]: the nearest selected ancestor. *)
Fixpoint nearest_ancestor (fuel : nat) (sel : gset bytes) (p : bytes) : option bytes :=
  match fuel with
  | O => None
  | S fuel =>
      match rcut 47 p with
      | None => None
      | Some q => if bool_decide (q ∈ sel) then Some q else nearest_ancestor fuel sel q
      end
  end.

(** [Vec::dedup]. *)
Fixpoint dedup (l : list bytes) : list bytes :=
  match l with
  | [] => []
  | x :: l' => match l' with y :: _ => if bool_decide (x = y) then dedup l' else x :: dedup l' | [] => [x] end
  end.

(** The names next to [comp] that the manifest has in [dir]. *)
Definition siblings (manifest_paths : list bytes) (dir comp : bytes) : list bytes :=
  let prefix := dir ++ [47] in
  dedup (isort bytes_leb
    (List.filter (fun c => negb (bool_decide (c = [])) && negb (bool_decide (c = comp)))
      (map (fun m => default [] (head (split 47 (drop (length prefix) m))))
        (List.filter (starts_with prefix) manifest_paths)))).

Fixpoint descend (sel : gset bytes) (manifest_paths : list bytes) (dir : bytes) (comps : list bytes) : gset bytes :=
  match comps with
  | [] => sel
  | comp :: rest =>
      descend (foldl (fun s c => {[ dir ++ [47] ++ c ]} ∪ s) sel (siblings manifest_paths dir comp))
        manifest_paths (dir ++ [47] ++ comp) rest
  end.

(** The outer [loop]; [None] is a loop that has not ended. *)
Fixpoint deselect_loop (fuel : nat) (sel : gset bytes) (manifest_paths : list bytes) (target : bytes) :
    option (gset bytes) :=
  match fuel with
  | O => None
  | S fuel =>
      match nearest_ancestor (S (length target)) sel target with
      | None => Some sel
      | Some a =>
          deselect_loop fuel (descend (sel ∖ {[ a ]}) manifest_paths a (split 47 (drop (length a + 1) target)))
            manifest_paths target
      end
  end.

Definition expand_deselect (selection : gset bytes) (manifest_paths : list bytes) (target : bytes) : option (gset bytes) :=
  deselect_loop (S (length target)) (filter (fun s => covers target s = false) selection) manifest_paths target.

(** ** Where a path is written *)

Fixpoint dest_comps (parts : list bytes) (out : list bytes) : option (list bytes) :=
  match parts with
  | [] => Some out
  | comp :: rest =>
      if bool_decide (comp = []) || bool_decide (comp = str ".") then dest_comps rest out
      else if bool_decide (comp = str "..") then None
      else if is_absolute comp || negb (components_count comp =? 1)%nat then None
      else dest_comps rest (out ++ [comp])
  end.

(** The components below the root; [root] itself is never returned. *)
Definition safe_dest (root : list bytes) (rel : bytes) : option (list bytes) :=
  if starts_with [47] rel || contains_char 92 rel || contains_char 0 rel then None else
  match dest_comps (split 47 rel) [] with
  | Some [] => None
  | Some comps => Some (root ++ comps)
  | None => None
  end.

(** ** Paths as lists of components *)

Lemma split_app c w l : split c (w ++ c :: l) = split c w ++ split c l.
Proof.
  induction w as [| b w IH]; cbn [app split]; [by rewrite Z.eqb_refl |].
  destruct (b =? c); [by rewrite IH |]. rewrite IH.
  pose proof (split_nonempty c w). by destruct (split c w).
Qed.

Lemma split_inj c x y : split c x = split c y -> x = y.
Proof. intros E. by rewrite <- (join_split c x), E, join_split. Qed.

Lemma join_app c ws vs : ws <> [] -> vs <> [] -> join [c] (ws ++ vs) = join [c] ws ++ c :: join [c] vs.
Proof.
  intros Hw Hv. induction ws as [| w [| w' ws] IH]; [done | by cbn [app]; rewrite join_cons |].
  cbn [app] in *. rewrite (join_cons [c] w (w' :: ws ++ vs)), (join_cons [c] w (w' :: ws)), IH by done.
  cbn [app]. by rewrite <- app_assoc.
Qed.

Lemma covers_split s p : covers s p = true <-> split 47 s `prefix_of` split 47 p.
Proof.
  unfold covers. rewrite orb_true_iff, bool_decide_eq_true, starts_with_spec. split.
  - intros [-> | [r ->]]; [done |]. rewrite <- app_assoc. cbn [app]. rewrite split_app. by apply prefix_app_r.
  - intros [k E]. destruct k as [| x k].
    + left. rewrite app_nil_r in E. by apply (split_inj 47).
    + right. exists (join [47] (x :: k)). rewrite <- app_assoc. cbn [app].
      rewrite <- (join_split 47 p), E, join_app by (done || apply split_nonempty). by rewrite join_split.
Qed.

Lemma covers_refl s : covers s s = true.
Proof. by apply covers_split. Qed.

Lemma covers_trans a b c : covers a b = true -> covers b c = true -> covers a c = true.
Proof. rewrite !covers_split. by intros; etrans. Qed.

Lemma path_selected_spec p sel : path_selected p (Some sel) = true <-> exists s, s ∈ sel /\ covers s p = true.
Proof.
  cbn. rewrite existsb_exists. split; intros (s & Hs & Hc); exists s; (split; [| done]).
  - by apply list_elem_of_In, elem_of_elements in Hs.
  - by apply list_elem_of_In, elem_of_elements.
Qed.

(** Two lists that do not extend each other part ways at some place. *)
Lemma diverge {A} `{EqDecision A} (l k : list A) :
  ~ l `prefix_of` k -> ~ k `prefix_of` l ->
  exists pre x l' y k', l = pre ++ x :: l' /\ k = pre ++ y :: k' /\ x <> y.
Proof.
  revert k. induction l as [| x l IH]; intros k H1 H2; [destruct H1; apply prefix_nil |].
  destruct k as [| y k]; [destruct H2; apply prefix_nil |]. destruct (decide (x = y)) as [-> | Hne].
  - destruct (IH k) as (pre & u & l' & v & k' & -> & -> & Hn).
    { intros H. apply H1. by apply prefix_cons. }
    { intros H. apply H2. by apply prefix_cons. }
    by exists (y :: pre), u, l', v, k'.
  - by exists [], x, l, y, k.
Qed.

(** ** The cuts of a path *)

Lemma rcut_spec c l : rcut c l = match split c l with
                                 | [] | [_] => None
                                 | ws => Some (join [c] (removelast ws))
                                 end.
Proof.
  induction l as [| b l IH]; [done |]. cbn [rcut split]. rewrite IH. pose proof (split_nonempty c l).
  destruct (split c l) as [| w [| w' ws]] eqn:E; [done | by destruct (b =? c) |]. destruct (b =? c) eqn:Eb.
  - apply Z.eqb_eq in Eb as ->. destruct ws; reflexivity.
  - destruct ws; reflexivity.
Qed.

Definition ancestor (q p : bytes) : Prop := exists k, k <> [] /\ split 47 p = split 47 q ++ k.

Lemma ancestor_length q p : ancestor q p -> (length q < length p)%nat.
Proof.
  intros (k & Hk & E). rewrite <- (join_split 47 p), E, join_app by (done || apply split_nonempty).
  rewrite join_split, length_app. cbn. lia.
Qed.

Lemma rcut_snoc p fs x : split 47 p = fs ++ [x] -> rcut 47 p = if bool_decide (fs = []) then None else Some (join [47] fs).
Proof.
  intros E. rewrite rcut_spec, E. destruct fs as [| f fs]; [done |]. rewrite bool_decide_false by done.
  transitivity (Some (join [47] (removelast ((f :: fs) ++ [x])))); [by destruct fs | by rewrite removelast_last].
Qed.

Lemma rcut_ancestor p q : rcut 47 p = Some q <-> exists x, split 47 p = split 47 q ++ [x].
Proof.
  split.
  - destruct (exists_last (split_nonempty 47 p)) as (fs & x & E). rewrite (rcut_snoc p fs x) by done.
    case_bool_decide as Hf; [done |]. intros [= <-]. exists x. rewrite split_join; [done | done |].
    apply Forall_forall. intros v Hv. apply (split_no_sep 47 p). rewrite E. apply elem_of_app. by left.
  - intros [x E]. rewrite (rcut_snoc p _ x) by done. rewrite bool_decide_false by apply split_nonempty. by rewrite join_split.
Qed.

Lemma rcut_none p : rcut 47 p = None -> forall q, ~ ancestor q p.
Proof.
  intros E q (k & Hk & Es). destruct (exists_last Hk) as (k' & x & ->). rewrite app_assoc in Es.
  rewrite (rcut_snoc p _ x) in E by done. revert E. case_bool_decide as Hn; [| done]. intros _.
  apply app_eq_nil in Hn as [Hn _]. by apply split_nonempty in Hn.
Qed.

(** The ancestors of a path are its cut and the ancestors of that. *)
Lemma ancestor_cut p q r : rcut 47 p = Some q -> ancestor r p -> r = q \/ ancestor r q.
Proof.
  intros [x Ex]%rcut_ancestor (k & Hk & Es). rewrite Ex in Es. destruct (exists_last Hk) as (k' & y & ->).
  rewrite app_assoc in Es. apply app_inj_tail in Es as [Es _]. destruct k' as [| z k'].
  - left. rewrite app_nil_r in Es. by apply (split_inj 47).
  - right. by exists (z :: k').
Qed.

Lemma cut_ancestor p q : rcut 47 p = Some q -> ancestor q p.
Proof. intros [x Ex]%rcut_ancestor. by exists [x]. Qed.

Lemma ancestor_trans p q r : ancestor r q -> ancestor q p -> ancestor r p.
Proof.
  intros (k & Hk & E) (k' & Hk' & E'). exists (k ++ k'). split; [by destruct k |]. by rewrite E', E, app_assoc.
Qed.

Lemma nearest_some fuel sel p a : nearest_ancestor fuel sel p = Some a -> a ∈ sel /\ ancestor a p.
Proof.
  revert p. induction fuel as [| fuel IH]; intros p; cbn [nearest_ancestor]; [done |].
  destruct (rcut 47 p) as [q |] eqn:E; [| done]. apply cut_ancestor in E. case_bool_decide as Hq.
  - by intros [= <-].
  - intros [Ha Hp]%IH. split; [done | by eapply ancestor_trans].
Qed.

(** One turn per cut: the length of the path is enough. *)
Lemma nearest_none fuel sel p a :
  (length p < fuel)%nat -> nearest_ancestor fuel sel p = None -> ancestor a p -> a ∉ sel.
Proof.
  revert p. induction fuel as [| fuel IH]; intros p Hf; [lia |]. cbn [nearest_ancestor].
  destruct (rcut 47 p) as [q |] eqn:E; [| intros _ Ha; by apply rcut_none with (q := a) in E].
  case_bool_decide as Hq; [done |]. intros Hn Ha.
  pose proof (ancestor_length q p (cut_ancestor _ _ E)). apply (ancestor_cut _ q) in Ha as [-> | Ha]; [done | | done].
  apply (IH q); [lia | done | done].
Qed.

(** ** The sibling branches *)

Lemma elem_of_dedup x l : x ∈ dedup l <-> x ∈ l.
Proof.
  induction l as [| y l IH]; [done |]. destruct l as [| z l]; [done |].
  change (dedup (y :: z :: l)) with (if bool_decide (y = z) then dedup (z :: l) else y :: dedup (z :: l)).
  case_bool_decide as E; [subst z; rewrite IH | rewrite !(elem_of_cons _ _ y), IH]; rewrite ?elem_of_cons; tauto.
Qed.

Lemma elem_of_filter_b {A} (f : A -> bool) x l : x ∈ List.filter f l <-> x ∈ l /\ f x = true.
Proof. by rewrite !list_elem_of_In, filter_In. Qed.

Lemma under_split dir m : starts_with (dir ++ [47]) m = true ->
  split 47 m = split 47 dir ++ split 47 (drop (length (dir ++ [47])) m).
Proof. rewrite starts_with_spec. intros [r ->]. rewrite drop_app_length, <- app_assoc. cbn [app]. apply split_app. Qed.

Lemma siblings_spec mf dir comp c :
  c ∈ siblings mf dir comp <->
  c <> [] /\ c <> comp /\ exists m, m ∈ mf /\ split 47 dir ++ [c] `prefix_of` split 47 m.
Proof.
  unfold siblings. rewrite elem_of_dedup, isort_perm, elem_of_filter_b, andb_true_iff, !negb_true_iff, !bool_decide_eq_false.
  rewrite list_elem_of_fmap. split.
  - intros [(m & Hc & [Hm Hs]%elem_of_filter_b) [H1 H2]]. split_and!; [done | done |]. exists m. split; [done |].
    rewrite (under_split dir m) by done. apply prefix_app. destruct (split 47 (drop _ m)) as [| w ws]; [by subst c |].
    cbn in Hc. subst w. by exists ws.
  - intros (H1 & H2 & m & Hm & [k E]). split; [| done]. rewrite <- app_assoc in E. cbn [app] in E.
    assert (Es : starts_with (dir ++ [47]) m = true).
    { apply starts_with_spec. exists (join [47] (c :: k)). rewrite <- app_assoc. cbn [app].
      rewrite <- (join_split 47 m), E, join_app by (done || apply split_nonempty). by rewrite join_split. }
    exists m. split; [| by apply elem_of_filter_b]. rewrite (under_split dir m) in E by done.
    apply app_inv_head in E. by rewrite E.
Qed.

Lemma elem_of_fold_insert (f : bytes -> bytes) (x : bytes) (sel : gset bytes) l :
  x ∈ foldl (fun s c => {[ f c ]} ∪ s) sel l <-> x ∈ sel \/ exists c, c ∈ l /\ x = f c.
Proof.
  revert sel. induction l as [| c l IH]; intros sel; cbn [foldl].
  - split; [by left |]. intros [H | (c & Hc & _)]; [done | by apply elem_of_nil in Hc].
  - rewrite IH, elem_of_union, elem_of_singleton. setoid_rewrite elem_of_cons. split.
    + intros [[-> | H] | (d & Hd & ->)]; eauto.
    + intros [H | (d & [-> | Hd] & ->)]; eauto.
Qed.

(** The entries one split adds: a name of the manifest that leaves the way to the
    target at some place below the split folder. *)
Definition branch_of (mf : list bytes) (dir comps : list bytes) (x : bytes) : Prop :=
  exists pre comp post c m, comps = pre ++ comp :: post /\ c <> [] /\ c <> comp /\ m ∈ mf /\
    dir ++ pre ++ [c] `prefix_of` split 47 m /\ split 47 x = dir ++ pre ++ [c].

Lemma split_child dir c : 47 ∉ c -> split 47 (dir ++ [47] ++ c) = split 47 dir ++ [c].
Proof. intros Hc. cbn [app]. by rewrite split_app, (split_absent 47 c). Qed.

Lemma branch_cons mf dir comp comps x :
  branch_of mf dir (comp :: comps) x <->
  (exists c m, c <> [] /\ c <> comp /\ m ∈ mf /\ dir ++ [c] `prefix_of` split 47 m /\ split 47 x = dir ++ [c]) \/
  branch_of mf (dir ++ [comp]) comps x.
Proof.
  split.
  - intros (pre & w & post & c & m & E & H). destruct pre as [| p pre]; cbn [app] in E; simplify_eq.
    + left. by exists c, m.
    + right. exists pre, w, post, c, m. by rewrite <- !app_assoc.
  - intros [(c & m & H) | (pre & w & post & c & m & -> & H)].
    + exists [], comp, comps, c, m. by split.
    + exists (comp :: pre), w, post, c, m. split; [done |]. by rewrite <- !app_assoc in H.
Qed.

Lemma descend_spec (sel : gset bytes) mf dir comps (x : bytes) :
  Forall (fun w => 47 ∉ w) comps ->
  x ∈ descend sel mf dir comps <-> x ∈ sel \/ branch_of mf (split 47 dir) comps x.
Proof.
  revert sel dir. induction comps as [| comp comps IH]; intros sel dir Hf; cbn [descend].
  - split; [by left |]. intros [H | (pre & ? & ? & ? & ? & E & _)]; [done | by destruct pre].
  - apply Forall_cons in Hf as [Hc Hf]. rewrite IH by done. rewrite split_child by done.
    rewrite branch_cons, elem_of_fold_insert.
    assert (Hb : (exists c, c ∈ siblings mf dir comp /\ x = dir ++ [47] ++ c) <->
                 (exists c m, c <> [] /\ c <> comp /\ m ∈ mf /\ split 47 dir ++ [c] `prefix_of` split 47 m /\
                    split 47 x = split 47 dir ++ [c])).
    { split.
      - intros (c & (H1 & H2 & m & Hm & Hp)%siblings_spec & ->). exists c, m. split_and!; try done.
        apply split_child. destruct Hp as [k E]. apply (split_no_sep 47 m). rewrite E, !elem_of_app. left. right. by left.
      - intros (c & m & H1 & H2 & Hm & Hp & Hx). exists c. split; [by apply siblings_spec; eauto |].
        apply (split_inj 47). rewrite Hx. symmetry. apply split_child.
        apply (split_no_sep 47 x). rewrite Hx, elem_of_app. right. by left. }
    rewrite Hb. tauto.
Qed.

(** ** One turn of the outer loop *)

Lemma nearest_longest fuel sel p a x :
  nearest_ancestor fuel sel p = Some a -> ancestor x p -> x ∈ sel -> x = a \/ (length x < length a)%nat.
Proof.
  revert p. induction fuel as [| fuel IH]; intros p; cbn [nearest_ancestor]; [done |].
  destruct (rcut 47 p) as [q |] eqn:E; [| done]. case_bool_decide as Hq.
  - intros [= <-] Hx _. apply (ancestor_cut _ q) in Hx as [-> | Hx]; [by left | right; by apply ancestor_length | done].
  - intros Hn Hx Hs. apply (ancestor_cut _ q) in Hx as [-> | Hx]; [done | by apply (IH q) | done].
Qed.

Lemma rest_split a target k : k <> [] -> split 47 target = split 47 a ++ k ->
  split 47 (drop (length a + 1) target) = k.
Proof.
  intros Hk E. assert (Et : target = (a ++ [47]) ++ join [47] k).
  { rewrite <- app_assoc. cbn [app]. rewrite <- (join_split 47 target), E, join_app by (done || apply split_nonempty).
    by rewrite join_split. }
  rewrite Et. replace (length a + 1)%nat with (length (a ++ [47])) by (rewrite length_app; done).
  rewrite drop_app_length. apply split_join; [done |]. apply Forall_forall. intros w Hw.
  apply (split_no_sep 47 target). rewrite E. apply elem_of_app. by right.
Qed.

Section turn.
Context (mf : list bytes) (target a : bytes) (sel : gset bytes) (rest : list bytes).
Context (Hrest : rest <> []) (Ht : split 47 target = split 47 a ++ rest).

Definition turn : gset bytes := descend (sel ∖ {[ a ]}) mf a (split 47 (drop (length a + 1) target)).

Lemma turn_spec x : x ∈ turn <-> (x ∈ sel /\ x <> a) \/ branch_of mf (split 47 a) rest x.
Proof.
  unfold turn. rewrite (rest_split a target rest) by done.
  rewrite descend_spec; [| apply Forall_forall; intros w Hw; apply (split_no_sep 47 target); rewrite Ht; apply elem_of_app; by right].
  by rewrite elem_of_difference, elem_of_singleton.
Qed.

(** A branch leaves the way to the target. *)
Lemma branch_apart x : branch_of mf (split 47 a) rest x ->
  covers a x = true /\ covers target x = false /\ ~ ancestor x target.
Proof.
  intros (pre & comp & post & c & m & -> & Hc & Hne & Hm & Hp & Hx).
  split_and!.
  - apply covers_split. rewrite Hx. by apply prefix_app_r.
  - apply not_true_iff_false. rewrite covers_split, Ht, Hx. intros [k E]. rewrite <- !app_assoc in E.
    do 2 apply app_inv_head in E. cbn in E. congruence.
  - intros (k & _ & E). rewrite Ht, Hx, <- !app_assoc in E. do 2 apply app_inv_head in E. cbn in E. congruence.
Qed.

Lemma turn_shrinks p : a ∈ sel -> path_selected p (Some turn) = true -> path_selected p (Some sel) = true.
Proof.
  rewrite !path_selected_spec. intros Ha (s & [[Hs _] | Hb]%turn_spec & Hc); [by exists s |].
  exists a. split; [done |]. eapply covers_trans; [by apply branch_apart | done].
Qed.

Lemma turn_keeps m :
  m ∈ mf -> Forall (fun w => w <> []) (split 47 m) -> covers target m = false -> covers m target = false ->
  path_selected m (Some sel) = true -> path_selected m (Some turn) = true.
Proof.
  rewrite !path_selected_spec. intros Hm Hplain H1 H2 (s & Hs & Hc). destruct (decide (s = a)) as [-> | Hne].
  - apply covers_split in Hc as [k Ek]. apply not_true_iff_false in H1, H2. rewrite covers_split, Ht, Ek in H1, H2.
    destruct (diverge rest k) as (pre & comp & post & c & k' & E1 & E2 & Hne).
    { intros Hp. apply H1. by apply prefix_app. }
    { intros Hp. apply H2. by apply prefix_app. }
    assert (Hx : split 47 (join [47] (split 47 a ++ pre ++ [c])) = split 47 a ++ pre ++ [c]).
    { apply split_join; [by destruct (split 47 a), pre |]. apply Forall_forall. intros w Hw. apply (split_no_sep 47 m).
      rewrite Ek, E2. revert Hw. rewrite !elem_of_app, list_elem_of_singleton, elem_of_cons. tauto. }
    assert (Hpre : split 47 a ++ pre ++ [c] `prefix_of` split 47 m)
      by (rewrite Ek, E2; exists k'; by rewrite <- !app_assoc).
    exists (join [47] (split 47 a ++ pre ++ [c])).
    split; [| apply covers_split; by rewrite Hx].
    apply turn_spec. right. exists pre, comp, post, c, m. split_and!; try done.
    rewrite Forall_forall in Hplain. apply Hplain. rewrite Ek, E2, !elem_of_app, elem_of_cons. tauto.
  - exists s. split; [| done]. apply turn_spec. by left.
Qed.

Lemma turn_clear : (forall s, s ∈ sel -> covers target s = false) -> forall s, s ∈ turn -> covers target s = false.
Proof. intros Hs s [[H _] | H]%turn_spec; [by apply Hs | by apply branch_apart]. Qed.

End turn.

(** What the loop owes to the caller of [expand_deselect]. *)
Record deselected (mf : list bytes) (target : bytes) (sel r : gset bytes) : Prop := {
  ds_gone : forall p, covers target p = true -> path_selected p (Some r) = false;
  ds_shrinks : forall p, path_selected p (Some r) = true -> path_selected p (Some sel) = true;
  ds_keeps : forall m, m ∈ mf -> Forall (fun w => w <> []) (split 47 m) -> covers target m = false ->
    covers m target = false -> path_selected m (Some sel) = true -> path_selected m (Some r) = true
}.

Lemma deselect_loop_spec fuel sel mf target :
  (0 < fuel)%nat -> (forall s, s ∈ sel -> covers target s = false) ->
  (forall x, x ∈ sel -> ancestor x target -> (length x + 1 < fuel)%nat) ->
  exists r, deselect_loop fuel sel mf target = Some r /\ deselected mf target sel r.
Proof.
  revert sel. induction fuel as [| fuel IH]; intros sel Hf Hclear Hlen; [lia |]. cbn [deselect_loop].
  destruct (nearest_ancestor (S (length target)) sel target) as [a |] eqn:E.
  - pose proof (nearest_some _ _ _ _ E) as [Ha Hanc]. pose proof Hanc as (rest & Hr & Ht).
    destruct (IH (turn mf target a sel)) as (r & Er & Hd).
    + pose proof (Hlen a Ha Hanc). lia.
    + by apply (turn_clear mf target a sel rest).
    + intros x Hx Hax. destruct (proj1 (turn_spec mf target a sel rest Hr Ht x) Hx) as [[Hin Hne] | Hb].
      * pose proof (Hlen a Ha Hanc). destruct (nearest_longest _ _ _ _ x E Hax Hin); [done | lia].
      * by destruct (branch_apart mf target a rest Hr Ht x Hb) as (_ & _ & []).
    + exists r. split; [done |]. destruct Hd as [H1 H2 H3]. split; [done | |].
      * intros p Hp. apply (turn_shrinks mf target a sel rest); auto.
      * intros m Hm Hp Hc1 Hc2 Hs. apply H3; try done. by apply (turn_keeps mf target a sel rest).
  - exists sel. split; [done |]. split; [| done | done]. intros p Hp. apply not_true_iff_false.
    rewrite path_selected_spec. intros (s & Hs & Hc). rewrite covers_split in Hp, Hc.
    destruct (prefix_weak_total _ _ _ Hp Hc) as [Hts | Hst].
    + apply covers_split in Hts. by rewrite Hclear in Hts.
    + destruct Hst as [k Ek]. destruct k as [| w k].
      * rewrite app_nil_r in Ek. apply (split_inj 47) in Ek as ->. specialize (Hclear s Hs). by rewrite covers_refl in Hclear.
      * by apply (nearest_none _ _ _ s) in E; [| lia | exists (w :: k)].
Qed.

(** ** The diff *)

Lemma by_path_snoc {A} (path : A -> bytes) l x : by_path path (l ++ [x]) = <[path x := x]> (by_path path l).
Proof. unfold by_path. by rewrite foldl_app. Qed.

Lemma by_path_some {A} (path : A -> bytes) l p x : by_path path l !! p = Some x -> x ∈ l /\ path x = p.
Proof.
  induction l as [| y l IH] using rev_ind; [done |]. rewrite by_path_snoc, elem_of_app, list_elem_of_singleton.
  destruct (decide (path y = p)) as [<- | Hne]; [rewrite lookup_insert_eq; intros [= <-]; auto |].
  rewrite lookup_insert_ne by done. intros [H1 H2]%IH. auto.
Qed.

Lemma by_path_none {A} (path : A -> bytes) l p : by_path path l !! p = None -> forall x, x ∈ l -> path x <> p.
Proof.
  induction l as [| y l IH] using rev_ind; intros Hp x Hx; [by apply elem_of_nil in Hx |]. rewrite by_path_snoc in Hp.
  destruct (decide (path y = p)) as [E | Hne]; [by rewrite E, lookup_insert_eq in Hp |].
  rewrite lookup_insert_ne in Hp by done. apply elem_of_app in Hx as [Hx | ->%list_elem_of_singleton]; [by apply IH | done].
Qed.

Lemma NoDup_map_inj {A B} (f : A -> B) l x y : NoDup (map f l) -> x ∈ l -> y ∈ l -> f x = f y -> x = y.
Proof.
  induction l as [| z l IH]; cbn [map]; [by intros _ ?%elem_of_nil |].
  rewrite NoDup_cons. intros [Hz Hd] [-> | Hx]%elem_of_cons [-> | Hy]%elem_of_cons E; try done.
  - destruct Hz. rewrite E. by apply list_elem_of_fmap_2.
  - destruct Hz. rewrite <- E. by apply list_elem_of_fmap_2.
  - by apply IH.
Qed.

(** What the diff takes as the same file. *)
Definition up_to_date (l : LocalFile) (e : ShareManifestEntry) : Prop :=
  if bool_decide (me_sha256 e = []) then lf_size l = me_size e else eq_ignore_ascii_case (lf_sha256 l) (me_sha256 e) = true.

Lemma stale_spec local e : NoDup (map lf_path local) ->
  stale (by_path lf_path local) e = false <-> exists l, l ∈ local /\ lf_path l = me_path e /\ up_to_date l e.
Proof.
  intros Hd. unfold stale. destruct (by_path lf_path local !! me_path e) as [l |] eqn:E.
  - apply by_path_some in E as [Hl Hp].
    assert (Hu : (exists l', l' ∈ local /\ lf_path l' = me_path e /\ up_to_date l' e) <-> up_to_date l e).
    { split; [| by intros; exists l]. intros (l' & Hl' & Hp' & Hu).
      by rewrite (NoDup_map_inj lf_path local l l') by congruence. }
    rewrite Hu. unfold up_to_date. case_bool_decide; cbn [negb].
    + by rewrite negb_false_iff, Z.eqb_eq.
    + by rewrite negb_false_iff.
  - split; [done |]. intros (l & Hl & Hp & _). by destruct (by_path_none lf_path local _ E l Hl).
Qed.

Lemma elem_of_desired e mf sel : e ∈ desired mf sel <-> e ∈ entries mf /\ path_selected (me_path e) sel = true.
Proof. unfold desired. by rewrite elem_of_filter_b. Qed.

Lemma plan_fetch_in mf local sel e :
  e ∈ sp_fetch (plan_with_selection mf local sel) <-> e ∈ desired mf sel /\ stale (by_path lf_path local) e = true.
Proof. cbn [plan_with_selection sp_fetch]. by rewrite isort_perm, elem_of_filter_b. Qed.

Lemma plan_delete_in mf local sel p :
  p ∈ sp_delete (plan_with_selection mf local sel) <->
  (exists f, f ∈ local /\ lf_path f = p) /\ forall e, e ∈ desired mf sel -> me_path e <> p.
Proof.
  cbn [plan_with_selection sp_delete]. rewrite isort_perm, list_elem_of_fmap. split.
  - intros (f & -> & [Hf Hn%bool_decide_eq_true]%elem_of_filter_b). split; [by exists f |]. intros e He Ep. apply Hn.
    rewrite <- Ep. apply elem_of_list_to_set. by apply list_elem_of_fmap_2.
  - intros [(f & Hf & <-) Hn]. exists f. split; [done |]. apply elem_of_filter_b. split; [done |]. apply bool_decide_eq_true.
    intros (e & Ep & He)%elem_of_list_to_set%list_elem_of_fmap. by apply (Hn e).
Qed.

Lemma sorted_paths {A} (path : A -> bytes) l :
  StronglySorted (fun x y => bytes_leb (path x) (path y) = true) (isort (fun x y => bytes_leb (path x) (path y)) l).
Proof.
  apply isort_sorted; [intros x y; apply bytes_leb_total | intros x y z; apply bytes_leb_trans].
Qed.

(** Local state and manifest agree on what is selected. *)
Definition mirrored (mf : ShareManifest) (local : list LocalFile) (sel : option (gset bytes)) : Prop :=
  (forall e, e ∈ desired mf sel -> exists l, l ∈ local /\ lf_path l = me_path e /\ up_to_date l e) /\
  (forall l, l ∈ local -> exists e, e ∈ desired mf sel /\ me_path e = lf_path l).

Lemma elem_of_empty {A} (l : list A) : (forall x, x ∉ l) <-> l = [].
Proof. split; [| by intros -> x ?%elem_of_nil]. destruct l as [| x l]; [done |]. intros H. destruct (H x). by left. Qed.

Lemma plan_fetch_stale mf local sel e : NoDup (map lf_path local) ->
  e ∈ sp_fetch (plan_with_selection mf local sel) <->
  e ∈ desired mf sel /\ ~ exists l, l ∈ local /\ lf_path l = me_path e /\ up_to_date l e.
Proof. intros Hd. by rewrite plan_fetch_in, <- not_false_iff_true, stale_spec. Qed.

Lemma plan_empty_mirrored mf local sel : NoDup (map lf_path local) ->
  SyncPlan_is_empty (plan_with_selection mf local sel) = true <-> mirrored mf local sel.
Proof.
  intros Hd. unfold SyncPlan_is_empty, mirrored.
  rewrite andb_true_iff, !bool_decide_eq_true, !length_zero_iff_nil, <- !elem_of_empty. split; intros [H1 H2]; split.
  - intros e He. destruct (stale (by_path lf_path local) e) eqn:Hs; [| by apply stale_spec].
    destruct (H1 e). by apply plan_fetch_in.
  - intros l Hl. pose proof (H2 (lf_path l)) as Hn. rewrite plan_delete_in in Hn.
    destruct (decide (lf_path l ∈ map me_path (desired mf sel))) as [(e & Ep & He)%list_elem_of_fmap | Hnin]; [by exists e |].
    destruct Hn. split; [by exists l |]. intros e He Ep. apply Hnin. rewrite <- Ep. by apply list_elem_of_fmap_2.
  - intros e [He Hn]%plan_fetch_stale; [| done]. by apply Hn, H1.
  - intros p [(l & Hl & <-) Hn]%plan_delete_in. destruct (H2 l Hl) as (e & He & Ep). by apply (Hn e).
Qed.

(** the diff is exact. For local files with distinct paths, the plan fetches
    exactly the selected entries of the manifest that are missing or out of date
    here (by hash, by size when the agent has not hashed yet), deletes exactly the
    local paths that no selected entry names, never does both to one path, lists both
    in path order, and is empty exactly when local state and selection agree. *)
Theorem plan_exact mf local sel :
  NoDup (map lf_path local) ->
  let plan := plan_with_selection mf local sel in
  (forall e, e ∈ sp_fetch plan <->
     e ∈ entries mf /\ path_selected (me_path e) sel = true /\
     ~ exists l, l ∈ local /\ lf_path l = me_path e /\ up_to_date l e) /\
  (forall p, p ∈ sp_delete plan <->
     (exists f, f ∈ local /\ lf_path f = p) /\ forall e, e ∈ entries mf -> path_selected (me_path e) sel = true -> me_path e <> p) /\
  (forall e, e ∈ sp_fetch plan -> me_path e ∉ sp_delete plan) /\
  StronglySorted (fun a b => bytes_leb (me_path a) (me_path b) = true) (sp_fetch plan) /\
  StronglySorted (fun a b => bytes_leb a b = true) (sp_delete plan) /\
  (SyncPlan_is_empty plan = true <-> mirrored mf local sel).
Proof.
  intros Hd plan. pose proof (fun e => plan_fetch_stale mf local sel e Hd) as Hf. pose proof (plan_delete_in mf local sel) as Hx.
  fold plan in Hf, Hx. split_and!.
  - intros e. rewrite Hf, elem_of_desired. tauto.
  - intros p. rewrite Hx. setoid_rewrite elem_of_desired. split; intros [H1 H2]; (split; [done |]); intros e; [by intros; apply H2 |].
    intros []. by apply H2.
  - intros e [He _]%Hf [_ Hn]%Hx. by apply (Hn e).
  - apply sorted_paths.
  - apply (sorted_paths id).
  - by apply plan_empty_mirrored.
Qed.

Lemma filter_ext_b {A} (f g : A -> bool) l : (forall x, x ∈ l -> f x = g x) -> List.filter f l = List.filter g l.
Proof. intros H. apply filter_ext_in. intros x Hx. apply H. by apply list_elem_of_In. Qed.

Lemma filter_filter_b {A} (f g : A -> bool) l : List.filter f (List.filter g l) = List.filter (fun x => g x && f x) l.
Proof. induction l as [| x l IH]; [done |]. cbn. destruct (g x); cbn; [destruct (f x) |]; by rewrite IH. Qed.

(** taking one path out of a selection. [expand_deselect] always returns, and its
    result covers neither the target nor anything below it, covers nothing new, and
    still covers every path of the manifest (without empty components) that was
    covered and is neither the target, nor below it, nor one of its folders. So the
    next plan wants of such a manifest exactly what it wanted before, less what lies
    at or below the target. *)
Theorem expand_deselect_exact selection mf target :
  exists r, expand_deselect selection (map me_path (entries mf)) target = Some r /\
    (forall p, covers target p = true -> path_selected p (Some r) = false) /\
    (forall p, path_selected p (Some r) = true -> path_selected p (Some selection) = true) /\
    (forall e, e ∈ entries mf -> Forall (fun w => w <> []) (split 47 (me_path e)) -> covers target (me_path e) = false ->
       covers (me_path e) target = false -> path_selected (me_path e) (Some selection) = true ->
       path_selected (me_path e) (Some r) = true) /\
    (Forall (fun e => Forall (fun w => w <> []) (split 47 (me_path e)) /\
                      (covers (me_path e) target = true -> covers target (me_path e) = true)) (entries mf) ->
     desired mf (Some r) = List.filter (fun e => negb (covers target (me_path e))) (desired mf (Some selection))).
Proof.
  unfold expand_deselect.
  destruct (deselect_loop_spec (S (length target)) (filter (fun s => covers target s = false) selection)
              (map me_path (entries mf)) target) as (r & Er & [Hg Hs Hk]).
  - lia.
  - intros s. rewrite elem_of_filter. tauto.
  - intros x _ Hx%ancestor_length. lia.
  - assert (Hin : forall p, path_selected p (Some r) = true -> path_selected p (Some selection) = true).
    { intros p (s & [_ Hin]%elem_of_filter & Hc)%Hs%path_selected_spec. apply path_selected_spec. by exists s. }
    assert (Hkeep : forall e, e ∈ entries mf -> Forall (fun w => w <> []) (split 47 (me_path e)) ->
      covers target (me_path e) = false -> covers (me_path e) target = false ->
      path_selected (me_path e) (Some selection) = true -> path_selected (me_path e) (Some r) = true).
    { intros e He Hp H1 H2 (s & Hin' & Hc)%path_selected_spec. apply Hk; try done; [by apply list_elem_of_fmap_2 |].
      apply path_selected_spec. exists s. split; [| done]. apply elem_of_filter. split; [| done].
      apply not_true_iff_false. intros Hts. by rewrite (covers_trans _ _ _ Hts Hc) in H1. }
    exists r. split_and!; try done. intros Hall. unfold desired. rewrite filter_filter_b. apply filter_ext_b.
    intros e He. rewrite Forall_forall in Hall. destruct (Hall e He) as [Hp Hc].
    destruct (covers target (me_path e)) eqn:Et; cbn [negb]; [rewrite andb_false_r; by apply Hg |].
    apply eq_true_iff_eq. rewrite andb_true_r. split; [apply Hin |]. apply Hkeep; try done.
    apply not_true_iff_false. by intros ?%Hc.
Qed.

(** ** Where a path is written *)

Lemma dest_comps_spec parts out r :
  Forall (fun w => 47 ∉ w) parts ->
  dest_comps parts out = Some r <->
  (str ".." ∉ parts) /\ r = out ++ List.filter (fun c => negb (bool_decide (c = [])) && negb (bool_decide (c = str "."))) parts.
Proof.
  revert out. induction parts as [| c parts IH]; intros out Hf; cbn [dest_comps List.filter].
  - rewrite app_nil_r. split; [intros [= <-]; split; [apply not_elem_of_nil | done] | by intros [_ ->]].
  - apply Forall_cons in Hf as [Hc Hf]. rewrite not_elem_of_cons.
    destruct (bool_decide (c = [])) eqn:E1; cbn [orb negb andb].
    { apply bool_decide_eq_true in E1 as ->. rewrite IH by done. assert (str ".." <> []) by done. tauto. }
    destruct (bool_decide (c = str ".")) eqn:E2; cbn [orb negb andb].
    { apply bool_decide_eq_true in E2 as ->. rewrite IH by done. assert (str ".." <> str ".") by done. tauto. }
    apply bool_decide_eq_false in E1, E2. case_bool_decide as E3.
    + split; [done |]. intros [[] _]. done.
    + rewrite component_strict by done. rewrite IH by done. rewrite <- app_assoc. cbn [app].
      assert (str ".." <> c) by done. tauto.
Qed.

(** A path from the manifest cannot leave the mirror. [safe_dest] refuses exactly
    the paths that are absolute, hold a backslash or a NUL, have a [..] component, or
    name nothing; every other path lands below the root, at its components that name
    something, none of which is empty, a dot, a double dot or holds a slash. *)
Theorem safe_dest_contained root rel :
  (safe_dest root rel = None <->
     starts_with [47] rel = true \/ 92 ∈ rel \/ 0 ∈ rel \/ str ".." ∈ split 47 rel \/ named rel = []) /\
  (forall p, safe_dest root rel = Some p ->
     p = root ++ named rel /\ named rel <> [] /\
     Forall (fun c => c <> [] /\ c <> str "." /\ c <> str ".." /\ (47 ∉ c) /\ (92 ∉ c) /\ (0 ∉ c)) (named rel)).
Proof.
  assert (Hsep : Forall (fun w => 47 ∉ w) (split 47 rel)) by (apply Forall_forall; apply split_no_sep).
  pose proof (fun r => dest_comps_spec (split 47 rel) [] r Hsep) as Hd. cbn [app] in Hd. fold (named rel) in Hd.
  unfold safe_dest. destruct (starts_with [47] rel) eqn:E1; cbn [orb]; [by split; [split; auto |] |].
  destruct (contains_char 92 rel) eqn:E2; cbn [orb]; [apply contains_char_spec in E2; by split; [split; auto |] |].
  destruct (contains_char 0 rel) eqn:E3; cbn [orb]; [apply contains_char_spec in E3; by split; [split; auto |] |].
  apply contains_char_false in E2, E3. destruct (dest_comps (split 47 rel) []) as [comps |] eqn:E4.
  - destruct (proj1 (Hd comps) eq_refl) as [Hdd ->]. destruct (named rel) as [| c cs] eqn:En.
    { split; [by split; auto 6 | done]. }
    split; [split; [done | intros [? | [? | [? | [? | ?]]]]; done] |]. intros p [= <-]. split_and!; [done | done |].
    rewrite <- En. apply Forall_forall. intros w Hw. unfold named in Hw.
    apply elem_of_filter_b in Hw as [Hw [H1 H2]%andb_true_iff]. rewrite negb_true_iff, bool_decide_eq_false in H1, H2.
    split_and!; try done; [by intros -> | by apply (split_no_sep 47 rel) | intros Hb; apply E2 | intros Hb; apply E3];
      by eapply split_sub.
  - split; [| done]. split; [| done]. intros _. do 3 right. left.
    destruct (decide (str ".." ∈ split 47 rel)) as [H | H]; [done |].
    by pose proof (proj2 (Hd _) (conj H eq_refl)).
Qed.

(** ** Witnesses *)

Definition ex_entry (p h : string) (n : Z) : ShareManifestEntry :=
  {| me_path := str p; me_size := n; me_mtime := 0; me_sha256 := str h; me_meta := None |}.

Definition ex_manifest : ShareManifest :=
  {| entries := [ex_entry "docs/b/c" "0A" 1; ex_entry "docs/a" "0b" 2; ex_entry "docs/b/d" "" 3; ex_entry "pic" "0d" 4] |}.

Definition ex_local : list LocalFile :=
  [{| lf_path := str "docs/a"; lf_sha256 := str "0B"; lf_size := 2 |};
   {| lf_path := str "docs/b/d"; lf_sha256 := str "77"; lf_size := 9 |};
   {| lf_path := str "old"; lf_sha256 := str "01"; lf_size := 1 |}].

Lemma plan_exact_witness :
  let plan := plan_with_selection ex_manifest ex_local (Some {[ str "docs" ]}) in
  map me_path (sp_fetch plan) = [str "docs/b/c"; str "docs/b/d"] /\ sp_delete plan = [str "old"] /\
  str "old" ∈ sp_delete plan /\ ~ mirrored ex_manifest ex_local (Some {[ str "docs" ]}).
Proof.
  assert (Hd : NoDup (map lf_path ex_local)) by by_compute.
  destruct (plan_exact ex_manifest ex_local (Some {[ str "docs" ]}) Hd) as (_ & H2 & _ & _ & _ & H6).
  split_and!; [vm_compute; reflexivity | vm_compute; reflexivity | |].
  - apply H2. split; [by exists {| lf_path := str "old"; lf_sha256 := str "01"; lf_size := 1 |}; split; [do 2 right; left |] |].
    intros e He _ Ep. repeat apply elem_of_cons in He as [-> | He]; try done. by apply elem_of_nil in He.
  - rewrite <- H6. by vm_compute.
Defined.

Example expand_deselect_splits :
  expand_deselect {[ str "docs" ]} (map me_path (entries ex_manifest)) (str "docs/b/c") = Some {[ str "docs/a"; str "docs/b/d" ]}.
Proof. vm_compute. reflexivity. Qed.
