(* ===== verification/Mirror.v ===== *)
(** * A mirror round (xr-core/src/sync.rs)

    The local copy of a share is a map from relative paths, as lists of components,
    to regular files; folders exist as far as files lie in them. A round scans it
    through the hash index, plans against the manifest and applies the plan: each
    entry is downloaded next to its place and renamed into it. SHA-256 is a
    parameter, and so is what the disk and the network answer: it is the argument of
    the operation that asks. *)

From S2P Require Import Prelude Text Order SafePath Share Sync.

Definition PART_SUFFIX : bytes := str ".xrsync-part".

Record FsFile := { ff_data : bytes; ff_mtime : option Z }.

Abbreviation Fs := (gmap (list bytes) FsFile).

(** [format!("{:02x}")] of each byte. *)
Definition hex_digit (n : Z) : Z := if n <? 10 then 48 + n else 87 + n.

Definition hex_lower (l : bytes) : bytes := l ≫= fun b => [hex_digit ((b / 16) mod 16); hex_digit (b mod 16)].

(** ** The hash index *)

Definition HASH_INDEX_VERSION : Z := 1.

Record HashIndexEntry := { hx_size : Z; hx_mtime : Z; hx_sha256 : bytes }.

Record HashIndex := { hi_version : Z; hi_entries : gmap bytes HashIndexEntry }.

Definition HashIndex_new : HashIndex := {| hi_version := HASH_INDEX_VERSION; hi_entries := ∅ |}.

(** [parsed] is what the file holds, [None] when it is missing or not an index. *)
Definition HashIndex_load (parsed : option HashIndex) : HashIndex :=
  match parsed with
  | Some ix => if hi_version ix =? HASH_INDEX_VERSION then ix else HashIndex_new
  | None => HashIndex_new
  end.

Definition HashIndex_lookup (ix : HashIndex) (rel : bytes) (size : Z) (mtime : option Z) : option bytes :=
  match mtime with
  | None => None
  | Some mtime =>
      match hi_entries ix !! rel with
      | Some e => if (hx_size e =? size) && (hx_mtime e =? mtime) then Some (hx_sha256 e) else None
      | None => None
      end
  end.

Definition HashIndex_insert (ix : HashIndex) (rel : bytes) (size : Z) (mtime : option Z) (sha256 : bytes) : HashIndex :=
  match mtime with
  | None => ix
  | Some mtime =>
      {| hi_version := hi_version ix;
         hi_entries := <[rel := {| hx_size := size; hx_mtime := mtime; hx_sha256 := sha256 |}]> (hi_entries ix) |}
  end.

Definition HashIndex_remove (ix : HashIndex) (rel : bytes) : HashIndex :=
  {| hi_version := hi_version ix; hi_entries := delete rel (hi_entries ix) |}.

(** ** Downloads *)

Inductive DownloadError :=
| DlUnsafePath | DlMkdir | DlNetwork | DlHttp (status : Z) | DlOpen | DlRead | DlCancelled | DlWrite | DlFlush
| DlMismatch | DlRename.

(** What the body of an answer brings; the end of the list is its end. A cancel is
    noticed after a chunk has arrived. *)
Inductive BodyEvent := BData (chunk : bytes) | BCancelled | BReadError | BWriteFails (chunk : bytes).

Record HttpAnswer := { ha_status : Z; ha_body : list BodyEvent }.

(** The answers of disk and network to one download. Writes are buffered: when the
    download ends with an error before a good flush, [io_lost] of the new bytes may
    never have reached the file. *)
Record DownloadIo := {
  io_mkdir : bool; io_remove : bool; io_answer : option HttpAnswer; io_open : bool; io_flush : bool;
  io_lost : nat; io_rename : bool; io_mtime : option Z
}.

Definition part_of (dest : list bytes) : list bytes :=
  removelast dest ++ [List.last dest [] ++ PART_SUFFIX].

(** The copy loop: the content of the file, what went through the hasher, the result. *)
Fixpoint copy_body (content hashed : bytes) (body : list BodyEvent) : bytes * result bytes DownloadError :=
  match body with
  | [] => (content, Ok hashed)
  | BData c :: rest => copy_body (content ++ c) (hashed ++ c) rest
  | BCancelled :: _ => (content, Err DlCancelled)
  | BReadError :: _ => (content, Err DlRead)
  | BWriteFails c :: _ => (content ++ c, Err DlWrite)
  end.

(** How much of an earlier attempt is continued; a useless leftover is removed. *)
Definition resume_point (fs : Fs) (part : list bytes) (size : Z) (removed : bool) : Fs * Z :=
  match fs !! part with
  | Some f =>
      let n := zlen (ff_data f) in
      if (0 <? n) && (n <? size) then (fs, n) else (if removed then delete part fs else fs, 0)
  | None => (fs, 0)
  end.

Definition is_success (status : Z) : bool := (200 <=? status) && (status <? 300).

Section mirror.
Context (digest : bytes -> bytes).

Definition sha256_hex (data : bytes) : bytes := hex_lower (digest data).

(** The check and the rename at the end. *)
Definition publish (fs : Fs) (entry : ShareManifestEntry) (dest part : list bytes) (hashed : bytes) (io : DownloadIo) :
    Fs * result unit DownloadError :=
  if negb (bool_decide (me_sha256 entry = [])) && negb (eq_ignore_ascii_case (sha256_hex hashed) (me_sha256 entry)) then
    (if io_remove io then delete part fs else fs, Err DlMismatch)
  else if io_rename io then
    match fs !! part with
    | Some f => (<[dest := f]> (delete part fs), Ok tt)
    | None => (fs, Err DlRename)
    end
  else (fs, Err DlRename).

Definition download_entry_with (fs : Fs) (entry : ShareManifestEntry) (io : DownloadIo) : Fs * result unit DownloadError :=
  match safe_dest [] (me_path entry) with
  | None => (fs, Err DlUnsafePath)
  | Some dest =>
      if negb (io_mkdir io) then (fs, Err DlMkdir) else
      let part := part_of dest in
      let '(fs, resume_from) := resume_point fs part (me_size entry) (io_remove io) in
      match io_answer io with
      | None => (fs, Err DlNetwork)
      | Some answer =>
          if negb (is_success (ha_status answer)) then (fs, Err (DlHttp (ha_status answer))) else
          let appending := (0 <? resume_from) && (ha_status answer =? 206) in
          if negb (io_open io) then (fs, Err DlOpen) else
          let old := if appending then default [] (ff_data <$> fs !! part) else [] in
          let '(content, r) := copy_body old old (ha_body answer) in
          let put data := <[part := {| ff_data := data; ff_mtime := io_mtime io |}]> fs in
          let short := take (Nat.max (length old) (length content - io_lost io)) content in
          match r with
          | Err e => (put short, Err e)
          | Ok hashed => if io_flush io then publish (put content) entry dest part hashed io else (put short, Err DlFlush)
          end
      end
  end.

(** ** Applying a plan *)

Inductive ApplyFail := AfDownload (e : DownloadError) | AfCancelled | AfUnsafePath | AfDelete.

Record ApplyReport := { ar_fetched : list bytes; ar_deleted : list bytes; ar_failed : list (bytes * ApplyFail) }.

Definition ApplyReport_new : ApplyReport := {| ar_fetched := []; ar_deleted := []; ar_failed := [] |}.

Definition add_fetched (r : ApplyReport) (p : bytes) : ApplyReport :=
  {| ar_fetched := ar_fetched r ++ [p]; ar_deleted := ar_deleted r; ar_failed := ar_failed r |}.
Definition add_deleted (r : ApplyReport) (p : bytes) : ApplyReport :=
  {| ar_fetched := ar_fetched r; ar_deleted := ar_deleted r ++ [p]; ar_failed := ar_failed r |}.
Definition add_failed (r : ApplyReport) (p : bytes) (e : ApplyFail) : ApplyReport :=
  {| ar_fetched := ar_fetched r; ar_deleted := ar_deleted r; ar_failed := ar_failed r ++ [(p, e)] |}.

(** The loop over the downloads; [ans i] says whether the transfer was cancelled
    before the [i]-th and what that one meets. *)
Fixpoint fetch_loop (ans : nat -> bool * DownloadIo) (i : nat) (l : list ShareManifestEntry) (fs : Fs) (r : ApplyReport) :
    Fs * ApplyReport :=
  match l with
  | [] => (fs, r)
  | entry :: rest =>
      if (ans i).1 then (fs, add_failed r (me_path entry) AfCancelled) else
      match download_entry_with fs entry (ans i).2 with
      | (fs, Ok _) => fetch_loop ans (S i) rest fs (add_fetched r (me_path entry))
      | (fs, Err e) => fetch_loop ans (S i) rest fs (add_failed r (me_path entry) (AfDownload e))
      end
  end.

(** [Path::exists]: a file, or a folder, which has something in it. *)
Definition occupied (fs : Fs) (p : list bytes) : bool := existsb (fun q => path_starts_with q.1 p) (map_to_list fs).

(** The loop over the deletions; [removable] is the answer of [remove_file] for a
    file that is there. Folders that become empty are not files of the model. *)
Fixpoint delete_loop (removable : list bytes -> bool) (l : list bytes) (fs : Fs) (r : ApplyReport) : Fs * ApplyReport :=
  match l with
  | [] => (fs, r)
  | rel :: rest =>
      match safe_dest [] rel with
      | None => delete_loop removable rest fs (add_failed r rel AfUnsafePath)
      | Some path =>
          if bool_decide (is_Some (fs !! path)) && removable path
          then delete_loop removable rest (delete path fs) (add_deleted r rel)
          else if occupied fs path then delete_loop removable rest fs (add_failed r rel AfDelete)
          else delete_loop removable rest fs (add_deleted r rel)
      end
  end.

Definition apply_plan_with (ans : nat -> bool * DownloadIo) (removable : list bytes -> bool) (fs : Fs) (plan : SyncPlan) :
    Fs * ApplyReport :=
  let '(fs, r) := fetch_loop ans 0 (sp_fetch plan) fs ApplyReport_new in
  delete_loop removable (sp_delete plan) fs r.

(** Leftovers whose target is not wanted any more. *)
Definition is_orphan (covered : gset bytes) (p : list bytes) : bool :=
  let rel := join [47] p in
  match strip_suffix PART_SUFFIX rel with
  | None => false
  | Some target => bool_decide (rel ∉ covered) && bool_decide (target ∉ covered)
  end.

Definition remove_orphan_partials (removable : list bytes -> bool) (fs : Fs) (mf : ShareManifest)
    (sel : option (gset bytes)) : Fs :=
  let covered : gset bytes := list_to_set (map me_path (desired mf sel)) in
  filter (fun x => is_orphan covered x.1 && removable x.1 = false) fs.

(** ** The scan *)

Definition is_part (p : list bytes) : bool := ends_with PART_SUFFIX (List.last p []).

(** The walk, in whatever order the folders list their entries; [readable] is the
    answer of reading a whole file. *)
Fixpoint scan_files (readable : list bytes -> bool) (index : HashIndex) (files : list (list bytes * FsFile))
    (fresh : HashIndex) (out : list LocalFile) : option (HashIndex * list LocalFile) :=
  match files with
  | [] => Some (fresh, out)
  | (p, f) :: rest =>
      if is_part p then scan_files readable index rest fresh out else
      let rel := join [47] p in
      let size := zlen (ff_data f) in
      sha ← match HashIndex_lookup index rel size (ff_mtime f) with
            | Some h => Some h
            | None => if readable p then Some (sha256_hex (ff_data f)) else None
            end;
      scan_files readable index rest (HashIndex_insert fresh rel size (ff_mtime f) sha)
        (out ++ [{| lf_path := rel; lf_sha256 := sha; lf_size := size |}])
  end.

Definition scan_local_dir_indexed (readable : list bytes -> bool) (fs : Fs) (index : HashIndex) :
    option (HashIndex * list LocalFile) :=
  r ← scan_files readable index (map_to_list fs) HashIndex_new [];
  Some (r.1, isort (fun a b => bytes_leb (lf_path a) (lf_path b)) r.2).

Definition scan_local_dir (readable : list bytes -> bool) (fs : Fs) : option (list LocalFile) :=
  snd <$> scan_local_dir_indexed readable fs HashIndex_new.

(** ** The index after a round *)

Definition index_fetched (plan : SyncPlan) (fs : Fs) (ix : HashIndex) (rel : bytes) : HashIndex :=
  match by_path me_path (sp_fetch plan) !! rel with
  | None => ix
  | Some entry =>
      if bool_decide (me_sha256 entry = []) then ix else
      match safe_dest [] rel with
      | None => ix
      | Some dest =>
          match fs !! dest with
          | Some f => HashIndex_insert ix rel (zlen (ff_data f)) (ff_mtime f) (to_ascii_lowercase (me_sha256 entry))
          | None => ix
          end
      end
  end.

Definition index_apply_report (ix : HashIndex) (plan : SyncPlan) (report : ApplyReport) (fs : Fs) : HashIndex :=
  foldl HashIndex_remove (foldl (index_fetched plan fs) ix (ar_fetched report)) (ar_deleted report).

(** ** The round *)

(** What a round meets: readable files, whether the two saves of the index succeed,
    whether another transfer holds the lock, the downloads, the deletions. *)
Record RoundIo := {
  rd_readable : list bytes -> bool; rd_saved_scan : bool; rd_busy : bool; rd_downloads : nat -> bool * DownloadIo;
  rd_removable : list bytes -> bool; rd_saved_end : bool
}.

(** [stored] is the index file, [has_index] whether the caller named one. The index
    the round ends with is the last component, whether or not it was saved. *)
Definition run_sync (manifest : result ShareManifest bytes) (has_index dry_run : bool) (sel : option (gset bytes))
    (io : RoundIo) (fs : Fs) (stored : option HashIndex) :
    Fs * option HashIndex * result (SyncPlan * option ApplyReport) bytes * HashIndex :=
  match manifest with
  | Err e => (fs, stored, Err e, HashIndex_new)
  | Ok mf =>
      let index := if has_index then HashIndex_load stored else HashIndex_new in
      match scan_local_dir_indexed (rd_readable io) fs index with
      | None => (fs, stored, Err (str "scan: "), index)
      | Some (index, local) =>
          let stored := if has_index && rd_saved_scan io then Some index else stored in
          let plan := plan_with_selection mf local sel in
          if dry_run then (fs, stored, Ok (plan, None), index) else
          if rd_busy io then (fs, stored, Err (str "busy"), index) else
          let '(fs, report) := apply_plan_with (rd_downloads io) (rd_removable io) fs plan in
          let fs := remove_orphan_partials (rd_removable io) fs mf sel in
          let index := index_apply_report index plan report fs in
          (fs, if has_index && rd_saved_end io then Some index else stored, Ok (plan, Some report), index)
      end
  end.

(** ** Hashes are lower-case hexadecimal *)

Lemma hex_digit_lower n : 0 <= n < 16 -> ascii_lower (hex_digit n) = hex_digit n.
Proof. intros Hn. unfold ascii_lower, hex_digit, in_rng. branch. Qed.

Lemma hex_lower_lower l : to_ascii_lowercase (hex_lower l) = hex_lower l.
Proof.
  induction l as [| b l IH]; [done |]. unfold hex_lower, to_ascii_lowercase in *. cbn [mbind list_bind] in *.
  rewrite map_app. cbn [map]. rewrite IH, !hex_digit_lower by (apply Z.mod_pos_bound; lia). done.
Qed.

Lemma eq_ignore_lower a b : eq_ignore_ascii_case a b = true <-> to_ascii_lowercase a = to_ascii_lowercase b.
Proof. apply bool_decide_eq_true. Qed.

(** ** One download *)

Lemma part_not_dest dest : dest <> [] -> part_of dest <> dest.
Proof.
  intros Hne E. destruct (exists_last Hne) as (l & x & ->). unfold part_of in E.
  rewrite removelast_last, last_last in E. apply app_inj_tail in E as [_ E]. apply (f_equal length) in E.
  rewrite length_app in E. cbn in E. lia.
Qed.

Lemma part_inj d1 d2 : d1 <> [] -> d2 <> [] -> part_of d1 = part_of d2 -> d1 = d2.
Proof.
  intros H1 H2. destruct (exists_last H1) as (l & x & ->), (exists_last H2) as (k & y & ->).
  unfold part_of. rewrite !removelast_last, !last_last. intros [-> E]%app_inj_tail. by apply app_inv_tail in E as ->.
Qed.

Lemma part_is_part dest : is_part (part_of dest) = true.
Proof. unfold is_part, part_of. rewrite last_last. apply ends_with_spec. by eexists. Qed.

Lemma copy_body_spec x body c r : copy_body x x body = (c, r) ->
  x `prefix_of` c /\ forall h, r = Ok h -> h = c /\ exists chunks, body = map BData chunks /\ c = x ++ concat chunks.
Proof.
  revert x. induction body as [| b body IH]; intros x; cbn [copy_body].
  - intros [= <- <-]. split; [done |]. intros h [= <-]. split; [done |]. exists []. by rewrite app_nil_r.
  - destruct b as [ch | | | ch].
    + intros [Hp Hr]%IH. split; [etrans; [by apply prefix_app_r | done] |]. intros h Eh.
      destruct (Hr h Eh) as (-> & chunks & -> & ->). split; [done |]. exists (ch :: chunks). cbn. by rewrite app_assoc.
    + intros [= <- <-]. by split.
    + intros [= <- <-]. by split.
    + intros [= <- <-]. split; [by apply prefix_app_r | done].
Qed.

Lemma resume_point_spec fs part size removed fs' n : resume_point fs part size removed = (fs', n) ->
  (forall p, p <> part -> fs' !! p = fs !! p) /\
  ((n = 0 /\ (forall f, fs !! part = Some f -> ~ 0 < zlen (ff_data f) < size)) \/
   (fs' = fs /\ exists f, fs !! part = Some f /\ n = zlen (ff_data f) /\ 0 < n < size)).
Proof.
  unfold resume_point. destruct (fs !! part) as [f |] eqn:E; [| intros [= <- <-]; by split; [| left]].
  destruct ((0 <? zlen (ff_data f)) && (zlen (ff_data f) <? size)) eqn:En.
  - apply andb_true_iff in En as [H1%Z.ltb_lt H2%Z.ltb_lt]. intros [= <- <-]. split; [done |]. right. split; [done |].
    exists f. auto.
  - apply andb_false_iff in En. intros [= <- <-]. split.
    + intros p Hp. destruct removed; [by rewrite lookup_delete_ne | done].
    + left. split; [done |]. intros g [= <-]. rewrite Z.ltb_ge, Z.ltb_ge in En. lia.
Qed.

Lemma publish_spec fs entry dest part hashed io fs' r :
  part <> dest -> publish fs entry dest part hashed io = (fs', r) ->
  (forall p, p <> dest -> p <> part -> fs' !! p = fs !! p) /\
  match r with
  | Ok _ => fs' !! dest = fs !! part /\ is_Some (fs' !! dest) /\ fs' !! part = None /\
            (me_sha256 entry <> [] -> eq_ignore_ascii_case (sha256_hex hashed) (me_sha256 entry) = true)
  | Err e => fs' !! dest = fs !! dest /\ (e = DlMismatch \/ fs' = fs)
  end.
Proof.
  intros Hne. unfold publish. destruct (negb _ && negb _) eqn:Eh.
  - intros [= <- <-]. destruct (io_remove io); [| by split; [| split; [| right]]].
    split; [intros p _ Hp; by rewrite lookup_delete_ne | by rewrite lookup_delete_ne; auto].
  - apply andb_false_iff in Eh. destruct (io_rename io); [| intros [= <- <-]; by split; [| split; [| right]]].
    destruct (fs !! part) as [f |] eqn:E; [| intros [= <- <-]; by split; [| split; [| right]]]. intros [= <- <-].
    split; [intros p H1 H2; by rewrite lookup_insert_ne, lookup_delete_ne |].
    rewrite lookup_insert_eq. split_and!; [done | by eexists | by rewrite lookup_insert_ne, lookup_delete_eq |].
    intros Hs. rewrite bool_decide_false in Eh by done. destruct Eh as [Eh | Eh]; [done | by apply negb_false_iff].
Qed.

(** The bytes of an earlier attempt that a download continues. *)
Definition leftover (fs : Fs) (part : list bytes) (size : Z) : bytes :=
  match fs !! part with
  | Some f => if (0 <? zlen (ff_data f)) && (zlen (ff_data f) <? size) then ff_data f else []
  | None => []
  end.

Lemma leftover_resume fs part size removed fs' n :
  resume_point fs part size removed = (fs', n) ->
  n = zlen (leftover fs part size) /\ (0 < n -> default [] (ff_data <$> fs' !! part) = leftover fs part size).
Proof.
  unfold resume_point, leftover. destruct (fs !! part) as [f |] eqn:E; [| by intros [= <- <-]].
  destruct ((0 <? _) && _); intros [= <- <-]; [by rewrite E | by split; [| intros ?%Z.lt_irrefl]].
Qed.

(** The cases of a download, in the order of the code. *)
Definition download_outcome (fs : Fs) (e : ShareManifestEntry) (io : DownloadIo) (dest : list bytes) (fs' : Fs)
    (r : result unit DownloadError) : Prop :=
  let part := part_of dest in
  let old := leftover fs part (me_size e) in
  (forall p, p <> dest -> p <> part -> fs' !! p = fs !! p) /\
  match r with
  | Ok _ =>
      fs' !! part = None /\
      exists f answer chunks, fs' !! dest = Some f /\ io_answer io = Some answer /\ is_success (ha_status answer) = true /\
        ha_body answer = map BData chunks /\
        ff_data f = (if ha_status answer =? 206 then old else []) ++ concat chunks /\
        (me_sha256 e <> [] -> eq_ignore_ascii_case (sha256_hex (ff_data f)) (me_sha256 e) = true)
  | Err err =>
      fs' !! dest = fs !! dest /\
      (old <> [] -> err <> DlMismatch -> (forall answer, io_answer io = Some answer -> is_success (ha_status answer) = true ->
         ha_status answer = 206) -> exists f, fs' !! part = Some f /\ old `prefix_of` ff_data f)
  end.

Lemma leftover_zero fs part size : (0 <? zlen (leftover fs part size)) = false -> leftover fs part size = [].
Proof. intros H%Z.ltb_ge. apply zlen_0_nil. pose proof (zlen_nonneg (leftover fs part size)). lia. Qed.

Lemma leftover_file fs part size : leftover fs part size <> [] -> exists f, fs !! part = Some f /\ leftover fs part size = ff_data f.
Proof. unfold leftover. destruct (fs !! part) as [f |]; [| done]. destruct (_ && _); [by exists f | done]. Qed.

Lemma prefix_take_max (old c : bytes) n : old `prefix_of` c -> old `prefix_of` take (Nat.max (length old) n) c.
Proof. intros [k ->]. rewrite take_app_ge by lia. by apply prefix_app_r. Qed.

Lemma download_spec fs e io dest fs' r :
  safe_dest [] (me_path e) = Some dest -> dest <> [] -> download_entry_with fs e io = (fs', r) ->
  download_outcome fs e io dest fs' r.
Proof.
  intros Hd Hne. unfold download_entry_with. rewrite Hd. pose proof (part_not_dest dest Hne) as Hpd.
  pose proof (leftover_file fs (part_of dest) (me_size e)) as Hlf.
  destruct (io_mkdir io); cbn [negb].
  2: { intros [= <- <-]. split; [done |]. split; [done |]. intros (f & Hf & ->)%Hlf _ _. by exists f. }
  destruct (resume_point fs (part_of dest) (me_size e) (io_remove io)) as [fs1 n] eqn:Er.
  pose proof (leftover_resume _ _ _ _ _ _ Er) as [Hn Hold]. apply resume_point_spec in Er as [Hfr Hr].
  set (old := leftover fs (part_of dest) (me_size e)) in *.
  assert (Hsame : forall err, download_outcome fs e io dest fs1 (Err err)).
  { intros err. split; [intros p _ Hp; by apply Hfr |]. split; [by apply Hfr |]. intros Ho _ _.
    destruct Hr as [[H0 Hx] | [-> _]]; [| destruct (Hlf Ho) as (f & Hf & Eo); exists f; by rewrite <- Eo].
    destruct Ho. apply zlen_0_nil. fold old. lia. }
  destruct (io_answer io) as [answer |] eqn:Ea; [| intros [= <- <-]; apply Hsame].
  destruct (is_success (ha_status answer)) eqn:Es; cbn [negb]; [| intros [= <- <-]; apply Hsame].
  destruct (io_open io); cbn [negb]; [| intros [= <- <-]; apply Hsame].
  set (base := if (0 <? n) && (ha_status answer =? 206) then default [] (ff_data <$> fs1 !! part_of dest) else []).
  assert (Hbase : base = if ha_status answer =? 206 then old else []).
  { unfold base. destruct (0 <? n) eqn:E0; cbn [andb]; [by rewrite Hold by (by apply Z.ltb_lt) |].
    rewrite Hn in E0. apply leftover_zero in E0. fold old in E0. rewrite E0. by destruct (_ =? _). }
  destruct (copy_body base base (ha_body answer)) as [content r1] eqn:Ec.
  pose proof (copy_body_spec _ _ _ _ Ec) as [Hpre Hok].
  assert (Hput : forall data err, base `prefix_of` data -> download_outcome fs e io dest
            (<[part_of dest := {| ff_data := data; ff_mtime := io_mtime io |}]> fs1) (Err err)).
  { intros data err Hp. split; [intros p _ H2; rewrite lookup_insert_ne by done; by apply Hfr |].
    split; [rewrite lookup_insert_ne by done; by apply Hfr |]. intros _ _ H206. rewrite lookup_insert_eq.
    eexists; split; [done |]. cbn [ff_data]. rewrite Hbase in Hp. by rewrite (H206 answer Ea Es) in Hp. }
  destruct r1 as [hashed | err]; [| intros [= <- <-]; apply Hput; by apply prefix_take_max].
  destruct (io_flush io); [| intros [= <- <-]; apply Hput; by apply prefix_take_max].
  destruct (Hok hashed eq_refl) as (-> & chunks & Eb & Econt). intros Hpub.
  apply publish_spec in Hpub as [Hf Hres]; [| done]. destruct r as [[] | err].
  - destruct Hres as (H1 & _ & H3 & H4). rewrite lookup_insert_eq in H1. split.
    { intros p Hp1 Hp2. rewrite Hf, lookup_insert_ne by done. by apply Hfr. }
    split; [done |]. eexists _, answer, chunks. split_and!; try done. cbn [ff_data]. by rewrite Econt, Hbase.
  - destruct Hres as [H1 [-> | ->]]; [| by apply Hput]. split.
    { intros p Hp1 Hp2. rewrite Hf, lookup_insert_ne by done. by apply Hfr. }
    split; [rewrite H1, lookup_insert_ne by done; by apply Hfr | done].
Qed.

Lemma safe_dest_nonempty rel p : safe_dest [] rel = Some p -> p <> [].
Proof. unfold safe_dest. destruct (_ || _); [done |]. destruct (dest_comps _ _) as [[| c cs] |]; [done | by intros [= <-] | done]. Qed.


(** ** The two loops of a plan *)

(** A manifest as the agents build it: plain relative paths, each once, none of them
    named like a partial download. *)
Definition plain_path (p : bytes) : Prop := safe_dest [] p = Some (split 47 p) /\ is_part (split 47 p) = false.

Definition matches_entry (f : FsFile) (e : ShareManifestEntry) : Prop :=
  me_sha256 e <> [] -> eq_ignore_ascii_case (sha256_hex (ff_data f)) (me_sha256 e) = true.

Lemma plain_part p q : plain_path p -> plain_path q -> split 47 p <> part_of (split 47 q).
Proof. intros [_ H] _ E. by rewrite E, part_is_part in H. Qed.

Lemma report_failed ans i l fs r fs' r' : fetch_loop ans i l fs r = (fs', r') ->
  ar_failed r `prefix_of` ar_failed r' /\ ar_fetched r `prefix_of` ar_fetched r' /\ ar_deleted r' = ar_deleted r /\
  (forall p, p ∈ ar_fetched r' -> p ∈ ar_fetched r \/ p ∈ map me_path l).
Proof.
  revert i fs r. induction l as [| e l IH]; intros i fs r; cbn [fetch_loop].
  - intros [= <- <-]. split_and!; auto.
  - destruct (ans i).1.
    + intros [= <- <-]. split_and!; [by apply prefix_app_r | done | done | auto].
    + destruct (download_entry_with fs e (ans i).2) as [fs1 [[] | err]]; intros (H1 & H2 & H3 & H4)%IH;
        cbn [ar_failed ar_fetched ar_deleted add_fetched add_failed] in *; split_and!; try done.
      * etrans; [by apply prefix_app_r | done].
      * intros p Hp. apply H4 in Hp as [[Hp | ->%list_elem_of_singleton]%elem_of_app | Hp]; [by left | right; by left | right; by right].
      * etrans; [by apply prefix_app_r | done].
      * intros p Hp. apply H4 in Hp as [Hp | Hp]; [by left | right; by right].
Qed.

(** Frame and effect of the downloads. *)
Lemma fetch_loop_spec ans i l fs r fs' r' :
  Forall plain_path (map me_path l) -> NoDup (map me_path l) -> fetch_loop ans i l fs r = (fs', r') ->
  (forall p, is_part p = false -> p ∉ map (split 47 ∘ me_path) l -> fs' !! p = fs !! p) /\
  (forall e, e ∈ l -> me_path e ∉ ar_fetched r ->
     ((me_path e ∉ ar_fetched r') /\ fs' !! split 47 (me_path e) = fs !! split 47 (me_path e)) \/
     (me_path e ∈ ar_fetched r' /\ exists f, fs' !! split 47 (me_path e) = Some f /\ matches_entry f e)) /\
  (ar_failed r' = [] -> forall e, e ∈ l -> me_path e ∈ ar_fetched r').
Proof.
  revert i fs r. induction l as [| e l IH]; intros i fs r Hpl Hnd; cbn [fetch_loop map].
  - intros [= <- <-]. split_and!; [done | by intros e ?%elem_of_nil | by intros _ e ?%elem_of_nil].
  - cbn [map] in Hpl, Hnd. apply Forall_cons in Hpl as [Hp Hpl]. apply NoDup_cons in Hnd as [Hn Hnd].
    assert (Hother : forall d, d ∈ l -> split 47 (me_path d) <> split 47 (me_path e)).
    { intros d Hd E%split_inj. apply Hn. rewrite <- E. by apply list_elem_of_fmap_2. }
    destruct (ans i).1.
    { intros [= <- <-]. split_and!; [done | | by intros E%app_eq_nil; destruct E].
      intros d _ Hd. by left. }
    destruct (download_entry_with fs e (ans i).2) as [fs1 r1] eqn:Ed.
    apply (download_spec _ _ _ (split 47 (me_path e))) in Ed as [Hfr Hout]; [| apply Hp | apply split_nonempty].
    intros Hloop.
    assert (exists r2, fetch_loop ans (S i) l fs1 r2 = (fs', r') /\
              match r1 with Ok _ => r2 = add_fetched r (me_path e)
              | Err x => r2 = add_failed r (me_path e) (AfDownload x) end) as (r2 & Hl & Er2)
      by (destruct r1 as [[] |]; by eexists).
    clear Hloop. pose proof (report_failed _ _ _ _ _ _ _ Hl) as (Hpf & Hpt & _ & Hin).
    destruct (IH _ _ _ Hpl Hnd Hl) as (IH1 & IH2 & IH3).
    assert (Hself : fs' !! split 47 (me_path e) = fs1 !! split 47 (me_path e)).
    { apply IH1; [apply Hp |]. intros (d & E & Hd)%list_elem_of_fmap. by apply (Hother d). }
    split_and!.
    + intros p Hpp Hnin. cbn [map] in Hnin. rewrite not_elem_of_cons in Hnin. destruct Hnin as [Hne Hnin].
      rewrite IH1 by done. apply Hfr; [done |]. intros ->. by rewrite part_is_part in Hpp.
    + intros d [-> | Hd]%elem_of_cons Hnf.
      * rewrite Hself. destruct r1 as [[] | x]; subst r2.
        -- right. destruct Hout as (_ & f & _ & _ & Hf & _ & _ & _ & _ & Hm). split; [| by exists f].
           destruct Hpt as [k ->]. cbn. rewrite !elem_of_app. left. right. by left.
        -- left. split; [| apply Hout]. intros [H | H]%Hin; [done |]. by apply Hn.
      * assert (Hfs1 : fs1 !! split 47 (me_path d) = fs !! split 47 (me_path d)).
        { apply Hfr; [by apply Hother |]. rewrite Forall_forall in Hpl. apply plain_part; [| done].
          apply Hpl. by apply list_elem_of_fmap_2. }
        rewrite <- Hfs1. apply IH2; [done |]. destruct r1 as [[] | x]; subst r2; [| done]. cbn.
        rewrite elem_of_app, list_elem_of_singleton. intros [? | E]; [done |]. by apply (Hother d); [| f_equal].
    + intros Hff d [-> | Hd]%elem_of_cons; [| by apply IH3]. destruct r1 as [[] | x]; subst r2.
      * destruct Hpt as [k ->]. cbn. rewrite !elem_of_app. left. right. by left.
      * rewrite Hff in Hpf. by apply prefix_nil_inv, app_eq_nil in Hpf as [_ ?].
Qed.

Lemma occupied_file fs p f : fs !! p = Some f -> occupied fs p = true.
Proof.
  intros E. apply existsb_exists. exists (p, f). split; [by apply list_elem_of_In, elem_of_map_to_list |].
  apply path_starts_with_spec. exists []. by rewrite app_nil_r.
Qed.

Lemma delete_loop_spec removable l fs r fs' r' : delete_loop removable l fs r = (fs', r') ->
  (forall p, (forall rel, rel ∈ l -> safe_dest [] rel <> Some p) -> fs' !! p = fs !! p) /\
  (forall p, fs' !! p = fs !! p \/ fs' !! p = None) /\
  ar_failed r `prefix_of` ar_failed r' /\ ar_fetched r' = ar_fetched r /\
  (forall rel, rel ∈ ar_deleted r' ->
     rel ∈ ar_deleted r \/ (rel ∈ l /\ exists p, safe_dest [] rel = Some p /\ fs' !! p = None)) /\
  (ar_failed r' = [] -> forall rel, rel ∈ l -> exists p, safe_dest [] rel = Some p /\ fs' !! p = None).
Proof.
  revert fs r. induction l as [| rel l IH]; intros fs r; cbn [delete_loop].
  { intros [= <- <-]. split_and!; auto. by intros _ rel ?%elem_of_nil. }
  intros Hl.
  assert (exists fs1 r1, delete_loop removable l fs1 r1 = (fs', r') /\ ar_fetched r1 = ar_fetched r /\
    (forall p, safe_dest [] rel <> Some p -> fs1 !! p = fs !! p) /\ (forall p, fs1 !! p = fs !! p \/ fs1 !! p = None) /\
    ((exists e, r1 = add_failed r rel e) \/
     (r1 = add_deleted r rel /\ exists p, safe_dest [] rel = Some p /\ fs1 !! p = None)))
    as (fs1 & r1 & Hl1 & Hft & Hfr & Hno & Hr1).
  { destruct (safe_dest [] rel) as [p |] eqn:E.
    - destruct (bool_decide (is_Some (fs !! p)) && removable p) eqn:Eb.
      + exists (delete p fs), (add_deleted r rel). split_and!; try done.
        * intros q Hq. rewrite lookup_delete_ne; [done | congruence].
        * intros q. destruct (decide (p = q)) as [-> |]; [right; apply lookup_delete_eq | left; by rewrite lookup_delete_ne].
        * right. split; [done |]. exists p. split; [done | apply lookup_delete_eq].
      + destruct (occupied fs p) eqn:Eo; eexists fs, _; (split_and!; [done | done | done | auto |]); [left; by eexists |].
        right. split; [done |]. exists p. split; [done |]. destruct (fs !! p) as [f |] eqn:Ef; [| done].
        by rewrite (occupied_file _ _ _ Ef) in Eo.
    - eexists fs, _. split_and!; [done | done | done | auto | left; by eexists]. }
  destruct (IH _ _ Hl1) as (I1 & I2 & I3 & I4 & I5 & I6). split_and!.
  - intros p Hp. rewrite I1 by (intros x Hx; apply Hp; by right). apply Hfr. apply Hp. by left.
  - intros p. destruct (I2 p) as [-> | ?]; [apply Hno | by right].
  - etrans; [| done]. destruct Hr1 as [[e ->] | [-> _]]; [by apply prefix_app_r | done].
  - congruence.
  - intros x Hx. destruct (I5 x Hx) as [Hd | [Hd Hp]]; [| right; by split; [right |]].
    destruct Hr1 as [[e ->] | (-> & p & Ep & Hp)]; [by left |]. cbn in Hd.
    apply elem_of_app in Hd as [Hd | ->%list_elem_of_singleton]; [by left | right]. split; [by left |]. exists p.
    split; [done |]. destruct (I2 p) as [-> | ?]; done.
  - intros Hf x [-> | Hx]%elem_of_cons; [| by apply I6]. destruct Hr1 as [[e ->] | (_ & p & Ep & Hp)].
    2: { exists p. split; [done |]. by destruct (I2 p) as [-> | ?]. }
    rewrite Hf in I3. by apply prefix_nil_inv, app_eq_nil in I3 as [_ ?].
Qed.

(** ** The scan *)

(** Paths on disk: some components, which are names. *)
Definition name_ok (w : bytes) : Prop := (47 ∉ w) /\ w <> [] /\ w <> str ".".
Definition fs_ok (fs : Fs) : Prop := forall p f, fs !! p = Some f -> p <> [] /\ Forall name_ok p.

(** What the index says of a file that is there with that size and time is its hash. *)
Definition index_sound (ix : HashIndex) (fs : Fs) : Prop :=
  forall p f h, fs !! p = Some f -> HashIndex_lookup ix (join [47] p) (zlen (ff_data f)) (ff_mtime f) = Some h ->
    h = sha256_hex (ff_data f).

Definition local_of (x : list bytes * FsFile) : LocalFile :=
  {| lf_path := join [47] x.1; lf_sha256 := sha256_hex (ff_data x.2); lf_size := zlen (ff_data x.2) |}.

Definition index_file (ix : HashIndex) (x : list bytes * FsFile) : HashIndex :=
  HashIndex_insert ix (join [47] x.1) (zlen (ff_data x.2)) (ff_mtime x.2) (sha256_hex (ff_data x.2)).

Definition not_part (x : list bytes * FsFile) : bool := negb (is_part x.1).

Lemma index_sound_new fs : index_sound HashIndex_new fs.
Proof. intros p f h _. unfold HashIndex_lookup. by destruct (ff_mtime f). Qed.

Lemma scan_files_spec readable ix fs files fresh out :
  index_sound ix fs -> (forall p f, (p, f) ∈ files -> fs !! p = Some f) ->
  (scan_files readable ix files fresh out =
     Some (foldl index_file fresh (List.filter not_part files), out ++ map local_of (List.filter not_part files)) /\
   forall p f, (p, f) ∈ files -> is_part p = false ->
     HashIndex_lookup ix (join [47] p) (zlen (ff_data f)) (ff_mtime f) = None -> readable p = true) \/
  (scan_files readable ix files fresh out = None /\
   exists p f, (p, f) ∈ files /\ is_part p = false /\
     HashIndex_lookup ix (join [47] p) (zlen (ff_data f)) (ff_mtime f) = None /\ readable p = false).
Proof.
  intros Hs. revert fresh out. induction files as [| [p f] files IH]; intros fresh out Hin; cbn [scan_files List.filter].
  { left. split; [by rewrite app_nil_r | by intros p f ?%elem_of_nil]. }
  assert (Hin' : forall q g, (q, g) ∈ files -> fs !! q = Some g) by (intros q g Hq; apply Hin; by right).
  change (not_part (p, f)) with (negb (is_part p)). destruct (is_part p) eqn:Ep; cbn [negb].
  - destruct (IH fresh out Hin') as [[-> Hr] | (-> & q & g & Hq & Hrest)].
    + left. split; [done |]. intros q g [E | Hq]%elem_of_cons; [simplify_eq; congruence | by apply Hr].
    + right. split; [done |]. exists q, g. by split; [right |].
  - set (look := HashIndex_lookup ix (join [47] p) (zlen (ff_data f)) (ff_mtime f)).
    assert (Hsha : match look with Some h => Some h | None => if readable p then Some (sha256_hex (ff_data f)) else None end =
                   (if bool_decide (look = None) && negb (readable p) then None else Some (sha256_hex (ff_data f)))).
    { destruct look as [h |] eqn:El; [| by destruct (readable p)]. by rewrite (Hs p f h (Hin p f ltac:(by left)) El). }
    rewrite Hsha. destruct (bool_decide (look = None) && negb (readable p)) eqn:Eb; cbn [mbind option_bind].
    + apply andb_true_iff in Eb as [Hn%bool_decide_eq_true Hr%negb_true_iff]. right. split; [done |].
      exists p, f. split_and!; [by left | done | done | done].
    + destruct (IH (index_file fresh (p, f)) (out ++ [local_of (p, f)]) Hin') as [[E Hr] | (E & q & g & Hq & Hrest)].
      * left. split; [etrans; [exact E |]; cbn [foldl map]; by rewrite <- app_assoc |].
        intros q g [Eq | Hq]%elem_of_cons; [| by apply Hr]. simplify_eq. intros _ Hn. fold look in Hn.
        rewrite bool_decide_true in Eb by done. by apply negb_false_iff in Eb.
      * right. split; [exact E |]. exists q, g. by split; [right |].
Qed.

Lemma join_inj p q : p <> [] -> q <> [] -> Forall (fun w => 47 ∉ w) p -> Forall (fun w => 47 ∉ w) q ->
  join [47] p = join [47] q -> p = q.
Proof. intros H1 H2 H3 H4 E. by rewrite <- (split_join 47 p), E, split_join. Qed.

Lemma fs_join_inj fs p q f g : fs_ok fs -> fs !! p = Some f -> fs !! q = Some g -> join [47] p = join [47] q -> p = q.
Proof.
  intros Ho [H1 H2]%Ho [H3 H4]%Ho. apply join_inj; try done; (eapply Forall_impl; [done |]); by intros w [].
Qed.

Lemma index_file_some fresh files rel e :
  hi_entries (foldl index_file fresh files) !! rel = Some e ->
  hi_entries fresh !! rel = Some e \/
  exists p f, (p, f) ∈ files /\ join [47] p = rel /\ ff_mtime f = Some (hx_mtime e) /\ hx_size e = zlen (ff_data f) /\
    hx_sha256 e = sha256_hex (ff_data f).
Proof.
  revert fresh. induction files as [| [p f] files IH]; intros fresh; cbn [foldl]; [by left |].
  intros [H | (q & g & Hq & Hr)]%IH; [| right; exists q, g; by split; [right |]].
  unfold index_file, HashIndex_insert in H. cbn [fst snd] in H. destruct (ff_mtime f) as [t |] eqn:Et; [| by left].
  cbn [hi_entries] in H. destruct (decide (join [47] p = rel)) as [<- | Hne].
  - rewrite lookup_insert_eq in H. injection H as <-. right. exists p, f. by split; [left |].
  - rewrite lookup_insert_ne in H by done. by left.
Qed.

Definition scanned (fs : Fs) : list (list bytes * FsFile) := List.filter not_part (map_to_list fs).

Lemma elem_of_scanned fs p f : (p, f) ∈ scanned fs <-> fs !! p = Some f /\ is_part p = false.
Proof. unfold scanned. rewrite elem_of_filter_b, elem_of_map_to_list. unfold not_part. cbn [fst]. by rewrite negb_true_iff. Qed.

Lemma fresh_index fs rel e : hi_entries (foldl index_file HashIndex_new (scanned fs)) !! rel = Some e ->
  exists p f, fs !! p = Some f /\ is_part p = false /\ join [47] p = rel /\ ff_mtime f = Some (hx_mtime e) /\
    hx_size e = zlen (ff_data f) /\ hx_sha256 e = sha256_hex (ff_data f).
Proof.
  intros [H | (p & f & [Hp Hn]%elem_of_scanned & H)]%index_file_some; [by cbn in H; rewrite lookup_empty in H |]. by exists p, f.
Qed.

(** A lookup that answers names an entry. *)
Lemma lookup_entry ix rel size mtime h : HashIndex_lookup ix rel size mtime = Some h ->
  exists e, hi_entries ix !! rel = Some e /\ hx_sha256 e = h /\ hx_size e = size /\ mtime = Some (hx_mtime e).
Proof.
  unfold HashIndex_lookup. destruct mtime as [t |]; [| done]. destruct (hi_entries ix !! rel) as [e |]; [| done].
  destruct ((hx_size e =? size) && (hx_mtime e =? t)) eqn:E; [| done].
  apply andb_true_iff in E as [H1%Z.eqb_eq H2%Z.eqb_eq]. intros [= <-]. exists e. by subst.
Qed.

Lemma fresh_sound fs : fs_ok fs -> index_sound (foldl index_file HashIndex_new (scanned fs)) fs.
Proof.
  intros Ho p f h Hp (e & He & <- & _)%lookup_entry.
  apply fresh_index in He as (q & g & Hq & _ & Ej & _ & _ & ->).
  rewrite (fs_join_inj fs q p g f) in Hq by done. by simplify_eq.
Qed.

Lemma scanned_paths fs : fs_ok fs -> NoDup (map lf_path (map local_of (scanned fs))).
Proof.
  intros Ho. rewrite map_map. apply NoDup_ListNoDup. unfold scanned.
  apply (NoDup_map_NoDup_ForallPairs (fun x => lf_path (local_of x))).
  - intros [p f] [q g] Hx Hy E. cbn in E. apply list_elem_of_In, elem_of_scanned in Hx as [Hx _].
    apply list_elem_of_In, elem_of_scanned in Hy as [Hy _]. assert (p = q) as -> by by eapply fs_join_inj. congruence.
  - apply List.NoDup_filter, NoDup_ListNoDup, NoDup_map_to_list.
Qed.

Definition scan_result (fs : Fs) : HashIndex * list LocalFile :=
  (foldl index_file HashIndex_new (scanned fs),
   isort (fun a b => bytes_leb (lf_path a) (lf_path b)) (map local_of (scanned fs))).

Lemma scan_spec readable fs ix : index_sound ix fs ->
  (scan_local_dir_indexed readable fs ix = Some (scan_result fs) /\
   forall p f, fs !! p = Some f -> is_part p = false ->
     HashIndex_lookup ix (join [47] p) (zlen (ff_data f)) (ff_mtime f) = None -> readable p = true) \/
  (scan_local_dir_indexed readable fs ix = None /\
   exists p f, fs !! p = Some f /\ is_part p = false /\
     HashIndex_lookup ix (join [47] p) (zlen (ff_data f)) (ff_mtime f) = None /\ readable p = false).
Proof.
  intros Hs. unfold scan_local_dir_indexed.
  destruct (scan_files_spec readable ix fs (map_to_list fs) HashIndex_new []) as [[-> Hr] | (-> & p & f & Hp & Hr)];
    [done | by intros p f ?%elem_of_map_to_list | left | right].
  - split; [done |]. intros p f Hp. apply Hr. by apply elem_of_map_to_list.
  - split; [done |]. exists p, f. by split; [apply elem_of_map_to_list |].
Qed.

(** the hash index only saves work. Take an index whose entries are right about the
    files that still have the recorded size and time. A scan through it finds what a
    scan that reads every file finds, leaves an index that is right about every file,
    and reads only files the index cannot answer: it fails exactly when one of those
    is unreadable. *)
Theorem scan_index_accelerator readable fs ix :
  fs_ok fs -> index_sound ix fs ->
  (forall r, scan_local_dir_indexed readable fs ix = Some r ->
     scan_local_dir_indexed (fun _ => true) fs HashIndex_new = Some r /\ index_sound r.1 fs /\ NoDup (map lf_path r.2)) /\
  (is_Some (scan_local_dir_indexed readable fs ix) <->
   forall p f, fs !! p = Some f -> is_part p = false ->
     HashIndex_lookup ix (join [47] p) (zlen (ff_data f)) (ff_mtime f) = None -> readable p = true).
Proof.
  intros Ho Hs. destruct (scan_spec readable fs ix Hs) as [[E Hr] | (E & p & f & Hp & Hn & Hl & Hr)]; rewrite E.
  - split; [| by split; [| eexists]]. intros r [= <-].
    destruct (scan_spec (fun _ => true) fs HashIndex_new (index_sound_new fs)) as [[E' _] | (_ & ? & ? & _ & _ & _ & ?)]; [| done].
    split_and!; [done | by apply fresh_sound |]. cbn [snd scan_result]. rewrite isort_perm. by apply scanned_paths.
  - split; [done |]. split; [by intros [] |]. intros Ha. by rewrite (Ha p f) in Hr.
Qed.

(** ** A whole round *)

Definition manifest_ok (mf : ShareManifest) : Prop :=
  Forall plain_path (map me_path (entries mf)) /\ NoDup (map me_path (entries mf)).

Lemma NoDup_map_filter {A B} (f : A -> B) g l : NoDup (map f l) -> NoDup (map f (List.filter g l)).
Proof.
  induction l as [| x l IH]; [done |]. cbn [map List.filter]. rewrite NoDup_cons. intros [Hx Hl].
  destruct (g x); [| by apply IH]. cbn [map]. apply NoDup_cons. split; [| by apply IH].
  intros (y & E & [Hy _]%elem_of_filter_b)%list_elem_of_fmap. apply Hx. rewrite E. by apply list_elem_of_fmap_2.
Qed.

Lemma desired_ok mf sel : manifest_ok mf ->
  Forall plain_path (map me_path (desired mf sel)) /\ NoDup (map me_path (desired mf sel)).
Proof.
  intros [H1 H2]. split; [| by apply NoDup_map_filter]. rewrite Forall_forall in *.
  intros p (e & -> & [He _]%elem_of_desired)%list_elem_of_fmap. apply H1. by apply list_elem_of_fmap_2.
Qed.

Lemma fetch_ok mf local sel : manifest_ok mf ->
  Forall plain_path (map me_path (sp_fetch (plan_with_selection mf local sel))) /\
  NoDup (map me_path (sp_fetch (plan_with_selection mf local sel))).
Proof.
  intros [H1 H2]%(desired_ok _ sel). cbn [plan_with_selection sp_fetch]. rewrite !isort_perm. split; [| by apply NoDup_map_filter].
  rewrite Forall_forall in *. intros p (e & -> & [He _]%elem_of_filter_b)%list_elem_of_fmap. apply H1. by apply list_elem_of_fmap_2.
Qed.

Lemma names_no_sep p : Forall name_ok p -> Forall (fun w => 47 ∉ w) p.
Proof. intros H. eapply Forall_impl; [done |]. by intros w []. Qed.

Lemma safe_dest_named rel q : safe_dest [] rel = Some q -> q = named rel.
Proof.
  unfold safe_dest. destruct (_ || _); [done |]. destruct (dest_comps (split 47 rel) []) as [comps |] eqn:E; [| done].
  apply dest_comps_spec in E as [_ ->]; [| apply Forall_forall, split_no_sep]. cbn [app]. fold (named rel).
  destruct (named rel); [done |]. by intros [= <-].
Qed.

Lemma filter_all_b {A} (f : A -> bool) l : Forall (fun x => f x = true) l -> List.filter f l = l.
Proof. induction 1 as [| x l Hx _ IH]; [done |]. cbn. by rewrite Hx, IH. Qed.

Lemma named_join p : p <> [] -> Forall name_ok p -> named (join [47] p) = p.
Proof.
  intros Hne Hf. unfold named. rewrite split_join by (done || by apply names_no_sep). apply filter_all_b.
  eapply Forall_impl; [done |]. intros w (_ & H1 & H2). by rewrite !bool_decide_false.
Qed.

Lemma plain_names p : plain_path p -> Forall name_ok (split 47 p).
Proof.
  intros [E%safe_dest_named _]. rewrite Forall_forall. intros w Hw. split; [by eapply split_no_sep |].
  rewrite E in Hw. unfold named in Hw. apply elem_of_filter_b in Hw as [_ [H1 H2]%andb_true_iff].
  by rewrite negb_true_iff, bool_decide_eq_false in H1, H2.
Qed.

Lemma part_names d : d <> [] -> Forall name_ok d -> Forall name_ok (part_of d).
Proof.
  intros Hne Hf. destruct (exists_last Hne) as (l & x & ->). unfold part_of. rewrite removelast_last, last_last.
  apply Forall_app in Hf as [Hl [Hx _]%Forall_cons]. apply Forall_app. split; [done |]. apply Forall_singleton.
  destruct Hx as (H1 & H2 & H3). split_and!.
  - rewrite not_elem_of_app. split; [done | by_compute].
  - by destruct x.
  - intros E. apply (f_equal length) in E. rewrite length_app in E. cbn in E. lia.
Qed.

(** Only destinations and partials appear. *)
Lemma fetch_loop_new ans i l fs r fs' r' p :
  Forall plain_path (map me_path l) -> fetch_loop ans i l fs r = (fs', r') -> is_Some (fs' !! p) ->
  is_Some (fs !! p) \/ exists e, e ∈ l /\ (p = split 47 (me_path e) \/ p = part_of (split 47 (me_path e))).
Proof.
  revert i fs r. induction l as [| e l IH]; intros i fs r Hpl; cbn [fetch_loop map]; [intros [= <- <-]; by left |].
  apply Forall_cons in Hpl as [Hp Hpl]. destruct (ans i).1; [intros [= <- <-]; by left |].
  destruct (download_entry_with fs e (ans i).2) as [fs1 r1] eqn:Ed.
  apply (download_spec _ _ _ (split 47 (me_path e))) in Ed as [Hfr _]; [| apply Hp | apply split_nonempty].
  intros Hl Hs. assert (Hx : is_Some (fs1 !! p) \/ exists d, d ∈ l /\ (p = split 47 (me_path d) \/ p = part_of (split 47 (me_path d))))
    by (destruct r1 as [[] |]; by eapply IH). clear Hl.
  destruct Hx as [Hx | (d & Hd & Hx)]; [| right; exists d; by split; [right |]].
  destruct (decide (p = split 47 (me_path e))) as [-> | H1]; [right; exists e; by split; [left | left] |].
  destruct (decide (p = part_of (split 47 (me_path e)))) as [-> | H2]; [right; exists e; by split; [left | right] |].
  left. by rewrite <- (Hfr p).
Qed.

Lemma ends_with_last s p : s <> [] -> 47 ∉ s -> p <> [] -> ends_with s (join [47] p) = true -> ends_with s (List.last p []) = true.
Proof.
  intros Hs Hno Hp. destruct (exists_last Hp) as (l & x & ->). rewrite last_last, !ends_with_spec. intros [r E].
  destruct l as [| w l]; [by exists r |]. rewrite join_app in E by done. change (join [47] [x]) with x in E.
  change (47 :: x) with ([47] ++ x) in E. rewrite app_assoc in E. apply app_eq_app in E as (k & [[E1 E2] | [E1 E2]]).
  - destruct k as [| b k]; [exists []; by rewrite E2 |].
    destruct (exists_last (l := b :: k)) as (k' & y & Ek); [done |]. rewrite Ek in *. rewrite (app_assoc r) in E1.
    apply app_inj_tail in E1 as [_ <-]. destruct Hno. rewrite E2, !elem_of_app. left. right. by left.
  - by exists k.
Qed.

Lemma orphan_part covered p : p <> [] -> is_orphan covered p = true -> is_part p = true.
Proof.
  intros Hp. unfold is_orphan. destruct (strip_suffix PART_SUFFIX (join [47] p)) as [t |] eqn:E; [| done]. intros _.
  apply ends_with_last; [done | by_compute | done |]. apply ends_with_spec. exists t. by apply strip_suffix_spec.
Qed.

Lemma sweep_lookup removable fs mf sel p : p <> [] ->
  (remove_orphan_partials removable fs mf sel !! p = fs !! p \/
   (is_part p = true /\ remove_orphan_partials removable fs mf sel !! p = None)).
Proof.
  intros Hp. unfold remove_orphan_partials. set (covered := list_to_set _ : gset bytes).
  destruct (is_orphan covered p && removable p) eqn:E.
  - right. split; [apply andb_true_iff in E as [E _]; by eapply orphan_part |].
    apply map_lookup_filter_None. right. intros f _. cbn [fst]. by rewrite E.
  - left. destruct (fs !! p) as [f |] eqn:Ef; [by apply map_lookup_filter_Some |]. apply map_lookup_filter_None. by left.
Qed.

Lemma elem_of_local fs l : l ∈ (scan_result fs).2 <-> exists p f, fs !! p = Some f /\ is_part p = false /\ l = local_of (p, f).
Proof.
  cbn [scan_result snd]. rewrite isort_perm, list_elem_of_fmap. split.
  - intros ([p f] & -> & [H1 H2]%elem_of_scanned). by exists p, f.
  - intros (p & f & H1 & H2 & ->). exists (p, f). split; [done |]. by apply elem_of_scanned.
Qed.

Lemma local_nodup fs : fs_ok fs -> NoDup (map lf_path (scan_result fs).2).
Proof. intros Ho. cbn [scan_result snd]. rewrite isort_perm. by apply scanned_paths. Qed.

(** What the plan of a scan deletes is a file that is there. *)
Lemma plan_deletes fs mf sel rel q :
  fs_ok fs -> rel ∈ sp_delete (plan_with_selection mf (scan_result fs).2 sel) -> safe_dest [] rel = Some q ->
  rel = join [47] q /\ is_part q = false /\ is_Some (fs !! q) /\ forall e, e ∈ desired mf sel -> me_path e <> rel.
Proof.
  intros Ho [(l & (p & f & Hp & Hn & ->)%elem_of_local & <-) Hd]%plan_delete_in Eq%safe_dest_named.
  cbn [lf_path local_of fst] in *. destruct (Ho _ _ Hp) as [H1 H2]. rewrite named_join in Eq by done. subst q.
  split_and!; [done | done | by eexists | done].
Qed.

(** ** The effect of a round on the files *)

Record round_effect (mf : ShareManifest) (sel : option (gset bytes)) (fs fs' : Fs) (plan : SyncPlan) (report : ApplyReport) :
    Prop := {
  re_ok : fs_ok fs';
  re_desired : forall e, e ∈ desired mf sel ->
    (me_path e ∈ ar_fetched report /\ e ∈ sp_fetch plan /\ exists f, fs' !! split 47 (me_path e) = Some f /\ matches_entry f e) \/
    ((me_path e ∉ ar_fetched report) /\ fs' !! split 47 (me_path e) = fs !! split 47 (me_path e));
  re_rest : forall p f, is_part p = false -> fs' !! p = Some f ->
    (exists e, e ∈ desired mf sel /\ p = split 47 (me_path e)) \/ (fs !! p = Some f /\ join [47] p ∈ sp_delete plan);
  re_all : ar_failed report = [] ->
    (forall e, e ∈ sp_fetch plan -> me_path e ∈ ar_fetched report) /\
    (forall p, is_Some (fs !! p) -> join [47] p ∈ sp_delete plan -> fs' !! p = None);
  re_deleted : forall rel, rel ∈ ar_deleted report -> rel ∈ sp_delete plan
}.

Lemma apply_effect mf sel ans removable fs fs2 report :
  let plan := plan_with_selection mf (scan_result fs).2 sel in
  fs_ok fs -> manifest_ok mf -> apply_plan_with ans removable fs plan = (fs2, report) ->
  round_effect mf sel fs (remove_orphan_partials removable fs2 mf sel) plan report.
Proof.
  intros plan Ho Hm Ha. unfold apply_plan_with in Ha.
  destruct (fetch_loop ans 0 (sp_fetch plan) fs ApplyReport_new) as [fs1 r1] eqn:Ef.
  destruct (fetch_ok mf (scan_result fs).2 sel Hm) as [Hpl Hnd]. fold plan in Hpl, Hnd.
  destruct (desired_ok mf sel Hm) as [Hdp Hdn].
  pose proof (fun p => fetch_loop_new _ _ _ _ _ _ _ p Hpl Ef) as Hnew.
  pose proof (report_failed _ _ _ _ _ _ _ Ef) as (_ & _ & Hd0 & Hfin).
  destruct (fetch_loop_spec _ _ _ _ _ _ _ Hpl Hnd Ef) as (Hfr & Hfe & Hfa).
  destruct (delete_loop_spec _ _ _ _ _ _ Ha) as (D1 & D2 & D3 & D4 & D5 & D6).
  pose proof (fun e He => proj1 (Forall_forall _ _) Hdp (me_path e) (list_elem_of_fmap_2 me_path (desired mf sel) e He)) as Hplain.
  assert (Hfd : forall e, e ∈ sp_fetch plan -> e ∈ desired mf sel) by (by intros e [? _]%plan_fetch_in).
  assert (Hok2 : fs_ok fs2).
  { intros p f Hp. assert (Hs1 : is_Some (fs1 !! p)).
    { destruct (D2 p) as [E | E]; [rewrite <- E; by eexists | by rewrite E in Hp]. }
    apply Hnew in Hs1 as [[g Hg] | (e & He%Hfd%Hplain%plain_names & [-> | ->])]; [by eapply Ho | |].
    - split; [apply split_nonempty | done].
    - split; [unfold part_of; by destruct (removelast (split 47 (me_path e))) | apply part_names; [apply split_nonempty | done]]. }
  assert (Hsw : forall p, p <> [] -> is_part p = false -> remove_orphan_partials removable fs2 mf sel !! p = fs2 !! p).
  { intros p Hp Hn. destruct (sweep_lookup removable fs2 mf sel p Hp) as [H | [H _]]; [done | by rewrite Hn in H]. }
  assert (Hkeep : forall e, e ∈ desired mf sel -> fs2 !! split 47 (me_path e) = fs1 !! split 47 (me_path e)).
  { intros e He. apply D1. intros rel Hrel Eq. destruct (plan_deletes fs mf sel rel _ Ho Hrel Eq) as (-> & _ & _ & Hne).
    apply (Hne e He). by rewrite join_split. }
  split.
  - intros p f Hp. apply map_lookup_filter_Some in Hp as [Hp _]. by eapply Hok2.
  - intros e He. rewrite Hsw by (apply split_nonempty || apply (Hplain e He)). rewrite Hkeep by done.
    destruct (decide (me_path e ∈ map me_path (sp_fetch plan))) as [(d & Ed & Hd)%list_elem_of_fmap | Hnin].
    + assert (d = e) as -> by (apply (NoDup_map_inj me_path (desired mf sel)); auto).
      destruct (Hfe e Hd) as [[H1 H2] | [H1 H2]]; [apply not_elem_of_nil | right | left]; rewrite D4; auto.
    + right. rewrite D4. split.
      * intros [H%elem_of_nil | H]%Hfin; done.
      * apply Hfr; [apply (Hplain e He) |]. intros (d & Ed & Hd)%list_elem_of_fmap. apply Hnin.
        apply (split_inj 47) in Ed. rewrite Ed. by apply list_elem_of_fmap_2.
  - intros p f Hn Hp. apply map_lookup_filter_Some in Hp as [Hp _].
    destruct (decide (p ∈ map (split 47 ∘ me_path) (desired mf sel))) as [(e & -> & He)%list_elem_of_fmap | Hnd']; [left; by exists e |].
    right. assert (Hs1 : fs1 !! p = fs !! p).
    { apply Hfr; [done |]. intros (e & -> & He%Hfd)%list_elem_of_fmap. apply Hnd'. by apply (list_elem_of_fmap_2 (split 47 ∘ me_path)). }
    assert (Hpf : fs !! p = Some f) by (destruct (D2 p) as [E | E]; congruence).
    split; [done |]. apply plan_delete_in. split.
    + exists (local_of (p, f)). split; [| done]. apply elem_of_local. by exists p, f.
    + intros e He Ep. destruct (Ho _ _ Hpf) as [H1 H2]. apply Hnd'. apply list_elem_of_fmap. exists e. split; [| done].
      cbn. rewrite Ep. symmetry. apply split_join; [done | by apply names_no_sep].
  - intros Hff. rewrite Hff in D3. apply prefix_nil_inv in D3. split; [rewrite D4; by apply Hfa |].
    intros p [f Hp] Hdel. destruct (D6 Hff _ Hdel) as (q & Eq & Hq). pose proof (safe_dest_named _ _ Eq) as Enq.
    destruct (Ho _ _ Hp) as [H1 H2]. rewrite named_join in Enq by done. subst q.
    unfold remove_orphan_partials. apply map_lookup_filter_None. by left.
  - intros rel [H | [H _]]%D5; [| done]. rewrite Hd0 in H. by apply elem_of_nil in H.
Qed.

(** ** The index after a round *)

Lemma removed_entry ix l rel e : hi_entries (foldl HashIndex_remove ix l) !! rel = Some e -> hi_entries ix !! rel = Some e.
Proof.
  revert ix. induction l as [| d l IH]; intros ix; cbn [foldl]; [done |]. intros H%IH. cbn in H.
  by apply lookup_delete_Some in H as [_ H].
Qed.

(** The record of a fetched file; [None] leaves the index alone. *)
Definition fetched_record (plan : SyncPlan) (fs : Fs) (rel : bytes) : option HashIndexEntry :=
  entry ← by_path me_path (sp_fetch plan) !! rel;
  if bool_decide (me_sha256 entry = []) then None else
  dest ← safe_dest [] rel;
  f ← fs !! dest;
  t ← ff_mtime f;
  Some {| hx_size := zlen (ff_data f); hx_mtime := t; hx_sha256 := to_ascii_lowercase (me_sha256 entry) |}.

Lemma index_fetched_entries plan fs ix rel :
  hi_entries (index_fetched plan fs ix rel) =
  match fetched_record plan fs rel with Some e => <[rel := e]> (hi_entries ix) | None => hi_entries ix end.
Proof.
  unfold index_fetched, fetched_record, HashIndex_insert. destruct (by_path me_path (sp_fetch plan) !! rel) as [entry |]; [| done].
  cbn [mbind option_bind]. case_bool_decide; [done |]. destruct (safe_dest [] rel) as [dest |]; [| done]. cbn [mbind option_bind].
  destruct (fs !! dest) as [f |]; [| done]. cbn [mbind option_bind]. by destruct (ff_mtime f).
Qed.

(** A path that was fetched has its record; an entry is such a record or an old one. *)
Lemma index_fetched_fold plan fs l ix rel e :
  hi_entries (foldl (index_fetched plan fs) ix l) !! rel = Some e ->
  (rel ∈ l /\ fetched_record plan fs rel = Some e) \/
  (hi_entries ix !! rel = Some e /\ (rel ∈ l -> fetched_record plan fs rel = None)).
Proof.
  revert ix. induction l as [| x l IH]; intros ix; cbn [foldl]; [intros H; right; split; [done | by intros ?%elem_of_nil] |].
  intros [[Hl H] | [H Hn]]%IH; [left; by split; [right |] |]. rewrite index_fetched_entries in H.
  destruct (fetched_record plan fs x) as [g |] eqn:E.
  - destruct (decide (x = rel)) as [-> | Hne]; [rewrite lookup_insert_eq in H; left; split; [left | congruence] |].
    rewrite lookup_insert_ne in H by done. right. split; [done |]. intros [-> | Hx]%elem_of_cons; [done | by apply Hn].
  - right. split; [done |]. intros [-> | Hx]%elem_of_cons; [done | by apply Hn].
Qed.

Lemma fetched_record_some plan fs rel e : fetched_record plan fs rel = Some e ->
  exists entry dest f, entry ∈ sp_fetch plan /\ me_path entry = rel /\ me_sha256 entry <> [] /\ safe_dest [] rel = Some dest /\
    fs !! dest = Some f /\ ff_mtime f = Some (hx_mtime e) /\ hx_size e = zlen (ff_data f) /\
    hx_sha256 e = to_ascii_lowercase (me_sha256 entry).
Proof.
  unfold fetched_record. destruct (by_path me_path (sp_fetch plan) !! rel) as [entry |] eqn:E; [| done].
  apply by_path_some in E as [H1 H2]. cbn [mbind option_bind]. case_bool_decide as Hs; [done |].
  destruct (safe_dest [] rel) as [dest |]; [| done]. cbn [mbind option_bind].
  destruct (fs !! dest) as [f |] eqn:Ef; [| done]. cbn [mbind option_bind].
  destruct (ff_mtime f) as [t |] eqn:Et; [| done]. cbn [mbind option_bind]. intros [= <-]. by exists entry, dest, f.
Qed.

Lemma by_path_elem {A} (path : A -> bytes) l x : NoDup (map path l) -> x ∈ l -> by_path path l !! path x = Some x.
Proof.
  intros Hd Hx. destruct (by_path path l !! path x) as [y |] eqn:E; [| by destruct (by_path_none path l _ E x)].
  apply by_path_some in E as [Hy Ep]. f_equal. by apply (NoDup_map_inj path l).
Qed.

Lemma fetched_record_elem plan fs e f t :
  NoDup (map me_path (sp_fetch plan)) -> e ∈ sp_fetch plan -> me_sha256 e <> [] -> plain_path (me_path e) ->
  fs !! split 47 (me_path e) = Some f -> ff_mtime f = Some t -> is_Some (fetched_record plan fs (me_path e)).
Proof.
  intros Hd He Hs [Hp _] Hf Ht. unfold fetched_record. rewrite by_path_elem by done. cbn [mbind option_bind].
  rewrite bool_decide_false, Hp by done. cbn [mbind option_bind]. rewrite Hf. cbn [mbind option_bind]. rewrite Ht. by eexists.
Qed.

(** A round that changes a file either records its new hash or changed its size. *)
Lemma round_index_sound mf sel fs fs' report :
  let plan := plan_with_selection mf (scan_result fs).2 sel in
  fs_ok fs -> manifest_ok mf -> round_effect mf sel fs fs' plan report ->
  (forall e f, e ∈ sp_fetch plan -> me_path e ∈ ar_fetched report -> me_sha256 e = [] ->
     fs' !! split 47 (me_path e) = Some f -> zlen (ff_data f) = me_size e) ->
  index_sound (index_apply_report (scan_result fs).1 plan report fs') fs'.
Proof.
  intros plan Ho Hm He Hsize p f h Hp (x & Hx & <- & Hsz & Hmt)%lookup_entry.
  destruct (desired_ok mf sel Hm) as [Hdp Hdn]. rewrite Forall_forall in Hdp.
  destruct (fetch_ok mf (scan_result fs).2 sel Hm) as [_ Hnd]. fold plan in Hnd.
  pose proof (re_ok _ _ _ _ _ _ He p f Hp) as [Hp1 Hp2].
  assert (Hplain : forall e, e ∈ desired mf sel -> plain_path (me_path e)) by (intros e Hd; apply Hdp; by apply list_elem_of_fmap_2).
  assert (Hsplit : split 47 (join [47] p) = p) by (apply split_join; [done | by apply names_no_sep]).
  apply removed_entry, index_fetched_fold in Hx as [[Hin Hrec] | [Hold Hnone]].
  - apply fetched_record_some in Hrec as (entry & dest & g & He1 & He2 & Hsha & Hd & Hg & _ & _ & ->).
    assert (Hdes : entry ∈ desired mf sel) by (by apply plan_fetch_in in He1 as [? _]).
    destruct (re_desired _ _ _ _ _ _ He entry Hdes) as [(_ & _ & f' & Hf' & Hmt') | [Hnf _]]; [| by rewrite He2 in Hnf].
    rewrite He2, Hsplit in Hf'. assert (f' = f) as -> by congruence. specialize (Hmt' Hsha). apply eq_ignore_lower in Hmt'.
    unfold sha256_hex in Hmt'. by rewrite hex_lower_lower in Hmt'.
  - cbn [scan_result fst] in Hold. apply fresh_index in Hold as (q & g & Hq & Hqn & Ej & _ & Hgs & ->).
    assert (q = p) as ->.
    { destruct (Ho _ _ Hq). apply join_inj; [done | done | by apply names_no_sep | by apply names_no_sep | done]. }
    destruct (re_rest _ _ _ _ _ _ He p f Hqn Hp) as [(e & Hd & Ep) | [Hsame _]]; [| by simplify_eq].
    assert (Epath : me_path e = join [47] p) by (by rewrite Ep, join_split).
    destruct (re_desired _ _ _ _ _ _ He e Hd) as [(Hfet & Hpf & _) | [_ Hsame]]; [| rewrite <- Ep in Hsame; congruence].
    exfalso. destruct (decide (me_sha256 e = [])) as [Hs | Hs].
    + assert (zlen (ff_data f) = me_size e) as Hz by (apply Hsize; try done; by rewrite <- Ep).
      apply plan_fetch_in in Hpf as [_ Hst]. rewrite (proj2 (stale_spec _ e (local_nodup fs Ho))) in Hst; [done |].
      exists (local_of (p, g)). split_and!; [apply elem_of_local; by exists p, g | done |].
      unfold up_to_date. rewrite bool_decide_true by done. cbn. congruence.
    + destruct (fetched_record_elem plan fs' e f (hx_mtime x)) as [y Hy]; auto; [by rewrite <- Ep |].
      rewrite Epath in Hy, Hfet. by rewrite (Hnone Hfet) in Hy.
Qed.

Lemma index_insert_version ix rel size t h : hi_version (HashIndex_insert ix rel size t h) = hi_version ix.
Proof. unfold HashIndex_insert. by destruct t. Qed.

Lemma fold_version {A} (f : HashIndex -> A -> HashIndex) ix l :
  (forall i x, hi_version (f i x) = hi_version i) -> hi_version (foldl f ix l) = hi_version ix.
Proof. intros Hf. revert ix. induction l as [| x l IH]; intros ix; cbn [foldl]; [done |]. by rewrite IH, Hf. Qed.

Lemma round_version fs plan report fs' :
  hi_version (index_apply_report (scan_result fs).1 plan report fs') = HASH_INDEX_VERSION.
Proof.
  unfold index_apply_report. rewrite (fold_version HashIndex_remove) by done. rewrite (fold_version (index_fetched plan fs')).
  - cbn [scan_result fst]. rewrite (fold_version index_file); [done |]. intros i x. apply index_insert_version.
  - intros i x. unfold index_fetched. destruct (by_path me_path (sp_fetch plan) !! x); [| done]. case_bool_decide; [done |].
    destruct (safe_dest [] x) as [d |]; [| done]. destruct (fs' !! d); [apply index_insert_version | done].
Qed.

(** The index a round starts with. *)
Definition start_index (has_index : bool) (stored : option HashIndex) : HashIndex :=
  if has_index then HashIndex_load stored else HashIndex_new.

(** An entry the agent had not hashed yet arrived with the size it announced. *)
Definition sizes_announced (plan : SyncPlan) (report : ApplyReport) (fs : Fs) : Prop :=
  forall e f, e ∈ sp_fetch plan -> me_path e ∈ ar_fetched report -> me_sha256 e = [] ->
    fs !! split 47 (me_path e) = Some f -> zlen (ff_data f) = me_size e.

(** A round by its cases. *)
Lemma run_sync_cases mf has_index dry_run sel io fs stored fs' stored' res index' :
  index_sound (start_index has_index stored) fs ->
  run_sync (Ok mf) has_index dry_run sel io fs stored = (fs', stored', res, index') ->
  (fs' = fs /\ stored' = stored /\ res = Err (str "scan: ") /\ index' = start_index has_index stored) \/
  (fs' = fs /\ index' = (scan_result fs).1 /\
   ((dry_run = true /\ res = Ok (plan_with_selection mf (scan_result fs).2 sel, None)) \/
    (rd_busy io = true /\ res = Err (str "busy")))) \/
  exists fs2 report, dry_run = false /\ let plan := plan_with_selection mf (scan_result fs).2 sel in
    apply_plan_with (rd_downloads io) (rd_removable io) fs plan = (fs2, report) /\
    fs' = remove_orphan_partials (rd_removable io) fs2 mf sel /\
    index' = index_apply_report (scan_result fs).1 plan report fs' /\ res = Ok (plan, Some report) /\
    (has_index = true -> rd_saved_end io = true -> stored' = Some index').
Proof.
  intros Hs. unfold run_sync. fold (start_index has_index stored).
  destruct (scan_spec (rd_readable io) fs _ Hs) as [[E _] | [E _]]; rewrite E; [| intros [= <- <- <- <-]; by left].
  destruct (scan_result fs) as [ix local] eqn:Er. cbn [fst snd]. intros Hrun. right.
  destruct dry_run; [injection Hrun as <- _ <- <-; left; auto |].
  destruct (rd_busy io); [injection Hrun as <- _ <- <-; left; auto |].
  destruct (apply_plan_with _ _ _ _) as [fs2 report] eqn:Ea. injection Hrun as <- <- <- <-. right. exists fs2, report.
  split_and!; try done. by intros -> ->.
Qed.

(** the index stays right. Whatever a round meets (failed, cancelled or partial
    downloads, failed deletions, a busy lock, an unreadable file), if the index it
    starts with is right about the files, so is the index it ends with about the files
    it leaves; a saved one is what the next round loads. The agent's unhashed entries
    are taken to have the size they announce. *)
Theorem sync_index_sound mf has_index dry_run sel io fs stored fs' stored' res index' :
  fs_ok fs -> manifest_ok mf -> index_sound (start_index has_index stored) fs ->
  run_sync (Ok mf) has_index dry_run sel io fs stored = (fs', stored', res, index') ->
  (forall plan report, res = Ok (plan, Some report) -> sizes_announced plan report fs') ->
  fs_ok fs' /\ index_sound index' fs' /\
  (forall plan report, res = Ok (plan, Some report) -> has_index = true -> rd_saved_end io = true ->
     HashIndex_load stored' = index').
Proof.
  intros Ho Hm Hs Hrun Hsz. destruct (run_sync_cases _ _ _ _ _ _ _ _ _ _ _ Hs Hrun)
    as [(-> & _ & -> & ->) | [(-> & -> & Hr) | (fs2 & report & _ & Ha & Hf & -> & -> & Hst)]].
  - by split_and!.
  - split_and!; [done | by apply fresh_sound |]. intros plan report E. by destruct Hr as [[_ ->] | [_ ->]].
  - pose proof (apply_effect _ _ _ _ _ _ _ Ho Hm Ha) as He. rewrite <- Hf in He. split_and!.
    + apply (re_ok _ _ _ _ _ _ He).
    + by apply (round_index_sound mf sel fs fs' report Ho Hm He), Hsz.
    + intros plan rep [= <- <-] H1 H2. rewrite (Hst H1 H2). unfold HashIndex_load. rewrite round_version. done.
Qed.

(** C12: a clean round leaves nothing to do. After a round that reports no failure,
    every selected entry is there with its announced hash, no other file is left but
    partial downloads, and a second look at the same manifest, through whatever right
    index, plans nothing. *)
Theorem sync_converges mf has_index sel io fs stored fs' stored' plan report index' has2 io2 stored2 :
  fs_ok fs -> manifest_ok mf -> index_sound (start_index has_index stored) fs ->
  run_sync (Ok mf) has_index false sel io fs stored = (fs', stored', Ok (plan, Some report), index') ->
  ar_failed report = [] -> sizes_announced plan report fs' ->
  (forall e, e ∈ desired mf sel -> exists f, fs' !! split 47 (me_path e) = Some f /\ matches_entry f e) /\
  (forall p, is_Some (fs' !! p) -> is_part p = true \/ exists e, e ∈ desired mf sel /\ p = split 47 (me_path e)) /\
  (index_sound (start_index has2 stored2) fs' -> (forall p, rd_readable io2 p = true) ->
   exists st ix plan2, run_sync (Ok mf) has2 true sel io2 fs' stored2 = (fs', st, Ok (plan2, None), ix) /\
     SyncPlan_is_empty plan2 = true).
Proof.
  intros Ho Hm Hs Hrun Hff Hsz. destruct (run_sync_cases _ _ _ _ _ _ _ _ _ _ _ Hs Hrun)
    as [(_ & _ & ? & _) | [(_ & _ & [[? _] | [_ ?]]) | (fs2 & rep & _ & Ha & Hf & _ & [= -> ->] & _)]]; try done.
  pose proof (apply_effect _ _ _ _ _ _ _ Ho Hm Ha) as He. rewrite <- Hf in He. destruct He as [Hok Hdes Hrest Hall _].
  destruct (Hall Hff) as [Hfet Hdel]. set (plan0 := plan_with_selection mf (scan_result fs).2 sel) in *.
  assert (Hup : forall e, e ∈ desired mf sel -> exists f, fs' !! split 47 (me_path e) = Some f /\ matches_entry f e /\
                  up_to_date (local_of (split 47 (me_path e), f)) e).
  { intros e He. destruct (Hdes e He) as [(Hin & Hpf & f & Hf' & Hmt) | [Hnf Hsame]].
    - exists f. split_and!; [done | done |]. unfold up_to_date. case_bool_decide as Hsha; cbn [local_of lf_size lf_sha256 snd]; auto.
    - assert (Hst : stale (by_path lf_path (scan_result fs).2) e = false).
      { apply not_true_iff_false. intros Hst. apply Hnf, Hfet, plan_fetch_in. by split. }
      apply stale_spec in Hst as (l & (p & f & Hp & Hn & ->)%elem_of_local & Ep & Hu); [| by apply local_nodup].
      cbn [lf_path local_of fst] in Ep. destruct (Ho _ _ Hp) as [H1 H2].
      assert (p = split 47 (me_path e)) as -> by (rewrite <- Ep; symmetry; apply split_join; [done | by apply names_no_sep]).
      exists f. split_and!; [congruence | | done]. intros Hsha. unfold up_to_date in Hu. by rewrite bool_decide_false in Hu. }
  assert (Honly : forall p, is_Some (fs' !! p) -> is_part p = true \/ exists e, e ∈ desired mf sel /\ p = split 47 (me_path e)).
  { intros p [f Hp]. destruct (is_part p) eqn:Hn; [by left | right].
    destruct (Hrest p f Hn Hp) as [He | [Hpf Hd]]; [done |]. rewrite Hdel in Hp; [done | by eexists | done]. }
  split_and!; [intros e He; destruct (Hup e He) as (f & H1 & H2 & _); by exists f | done |].
  intros Hs2 Hread. unfold run_sync. fold (start_index has2 stored2).
  destruct (scan_spec (rd_readable io2) fs' _ Hs2) as [[E _] | (_ & p & f & _ & _ & _ & Hr)]; [| by rewrite Hread in Hr].
  rewrite E. destruct (scan_result fs') as [ix local] eqn:Er. do 3 eexists. split; [done |].
  assert (local = (scan_result fs').2) as -> by (by rewrite Er). apply plan_empty_mirrored; [by apply local_nodup |]. split.
  - intros e He. destruct (Hup e He) as (f & Hf' & _ & Hu). exists (local_of (split 47 (me_path e), f)).
    split_and!; [| cbn; apply join_split | done]. apply elem_of_local. eexists _, f. split_and!; [done | | done].
    destruct (desired_ok mf sel Hm) as [Hdp _]. rewrite Forall_forall in Hdp. apply Hdp. by apply list_elem_of_fmap_2.
  - intros l (p & f & Hp & Hn & ->)%elem_of_local. destruct (Honly p) as [Hx | (e & He & ->)]; [by eexists | congruence |].
    exists e. split; [done |]. cbn. by rewrite join_split.
Qed.

End mirror.

(** ** Witnesses: the digest of a file is its last byte *)

Definition toy_digest (d : bytes) : bytes := [List.last d 0].

Definition ex_io (status : Z) (body : list BodyEvent) : DownloadIo :=
  {| io_mkdir := true; io_remove := true; io_answer := Some {| ha_status := status; ha_body := body |}; io_open := true;
     io_flush := true; io_lost := 0; io_rename := true; io_mtime := Some 70 |}.

Definition ex_hashed : ShareManifestEntry :=
  {| me_path := str "docs/a"; me_size := 3; me_mtime := 0; me_sha256 := str "2A"; me_meta := None |}.

Definition ex_share : ShareManifest := {| entries := [ex_hashed] |}.

Definition ex_disk : Fs :=
  {[ [str "docs"; str "a.xrsync-part"] := {| ff_data := [1]; ff_mtime := Some 5 |};
     [str "old"] := {| ff_data := [9]; ff_mtime := Some 6 |} ]}.

Definition ex_round : RoundIo :=
  {| rd_readable := fun _ => true; rd_saved_scan := true; rd_busy := false;
     rd_downloads := fun _ => (false, ex_io 206 [BData [2]; BData [42]]); rd_removable := fun _ => true; rd_saved_end := true |}.

Definition ex_mirror : Fs := {[ [str "docs"; str "a"] := {| ff_data := [1; 2; 42]; ff_mtime := Some 70 |} ]}.

Definition ex_index : HashIndex :=
  {| hi_version := 1; hi_entries := {[ str "docs/a" := {| hx_size := 3; hx_mtime := 70; hx_sha256 := str "2a" |} ]} |}.

Definition ex_plan : SyncPlan := {| sp_fetch := [ex_hashed]; sp_delete := [str "old"] |}.
Definition ex_report : ApplyReport := {| ar_fetched := [str "docs/a"]; ar_deleted := [str "old"]; ar_failed := [] |}.

Lemma ex_run : run_sync toy_digest (Ok ex_share) true false None ex_round ex_disk None =
  (ex_mirror, Some ex_index, Ok (ex_plan, Some ex_report), ex_index).
Proof. vm_compute. reflexivity. Qed.

Lemma ex_disk_ok : fs_ok ex_disk.
Proof.
  intros p f Hp. unfold ex_disk in Hp. apply lookup_insert_Some in Hp as [[<- _] | [_ [<- _]%lookup_singleton_Some]];
    (split; [done |]); repeat (apply Forall_cons; split); (try by apply Forall_nil); (split_and!; [by_compute | done | done]).
Qed.

Lemma ex_share_ok : manifest_ok ex_share.
Proof. split; [by apply Forall_singleton; split; vm_compute | by_compute]. Qed.

Lemma ex_sizes : sizes_announced ex_plan ex_report ex_mirror.
Proof. intros e f ->%list_elem_of_singleton _. done. Qed.


Lemma scan_index_accelerator_witness :
  fs_ok ex_disk /\ is_Some (scan_local_dir_indexed toy_digest (fun _ => true) ex_disk HashIndex_new).
Proof.
  split; [exact ex_disk_ok |].
  apply (scan_index_accelerator toy_digest (fun _ => true) ex_disk HashIndex_new ex_disk_ok (index_sound_new toy_digest ex_disk)).
  done.
Defined.

Lemma sync_index_sound_witness : index_sound toy_digest ex_index ex_mirror /\ HashIndex_load (Some ex_index) = ex_index.
Proof.
  destruct (sync_index_sound toy_digest ex_share true false None ex_round ex_disk None ex_mirror (Some ex_index)
    (Ok (ex_plan, Some ex_report)) ex_index ex_disk_ok ex_share_ok (index_sound_new toy_digest ex_disk) ex_run) as (_ & H2 & H3).
  - intros plan report [= <- <-]. exact ex_sizes.
  - split; [exact H2 |]. by apply (H3 ex_plan ex_report).
Defined.

Lemma sync_converges_witness :
  exists st ix plan2, run_sync toy_digest (Ok ex_share) false true None ex_round ex_mirror None =
    (ex_mirror, st, Ok (plan2, None), ix) /\ SyncPlan_is_empty plan2 = true.
Proof.
  destruct (sync_converges toy_digest ex_share true None ex_round ex_disk None ex_mirror (Some ex_index) ex_plan ex_report ex_index
    false ex_round None ex_disk_ok ex_share_ok (index_sound_new toy_digest ex_disk) ex_run eq_refl ex_sizes) as (_ & _ & H).
  apply H; [apply index_sound_new | done].
Defined.

(** A partial of another version is continued, and an entry without a hash is not
    checked: the published file is neither version. *)
Example resumed_unhashed_mix :
  let e := {| me_path := str "docs/a"; me_size := 3; me_mtime := 0; me_sha256 := []; me_meta := None |} in
  (download_entry_with toy_digest ex_disk e (ex_io 206 [BData [8; 8]])).1 !! [str "docs"; str "a"] =
  Some {| ff_data := [1; 8; 8]; ff_mtime := Some 70 |}.
Proof. vm_compute. reflexivity. Qed.

(** A share file named like a partial download is fetched again by every round. *)
Example part_named_file_refetched :
  let mf := {| entries := [{| me_path := str "x.xrsync-part"; me_size := 1; me_mtime := 0; me_sha256 := str "2a"; me_meta := None |}] |} in
  let fs : Fs := {[ [str "x.xrsync-part"] := {| ff_data := [42]; ff_mtime := Some 70 |} ]} in
  exists local, scan_local_dir toy_digest (fun _ => true) fs = Some local /\
    map me_path (sp_fetch (plan_sync mf local)) = [str "x.xrsync-part"].
Proof. eexists. split; vm_compute; reflexivity. Qed.
