(* ===== verification/Transfer.v ===== *)
(** * The transfer lock (xr-core/src/sync.rs)

    One transfer at a time runs in the process; its number, its counters and the
    number it was asked to stop are atomics that several threads read and write. A
    step of the model is one atomic operation of one thread, in any interleaving; the
    atomics are taken as sequentially consistent. *)

From S2P Require Import Prelude.

Record TransferControl := {
  tr_active : bool; tr_id : Z; tr_cancel : Z; tr_bytes_done : Z; tr_bytes_total : Z; tr_files_done : Z;
  tr_files_total : Z; tr_file : bytes; tr_share : bytes
}.

Definition TransferControl_new : TransferControl :=
  {| tr_active := false; tr_id := 0; tr_cancel := 0; tr_bytes_done := 0; tr_bytes_total := 0; tr_files_done := 0;
     tr_files_total := 0; tr_file := []; tr_share := [] |}.

(** The stores of the sources. *)
Inductive Store :=
| StActive (b : bool) | StId (z : Z) | StCancel (z : Z) | StBytesDone (z : Z) | StBytesTotal (z : Z) | StFilesDone (z : Z)
| StFilesTotal (z : Z) | StFile (s : bytes) | StShare (s : bytes).

#[global] Instance Store_eq_dec : EqDecision Store.
Proof. solve_decision. Defined.

Definition store (t : TransferControl) (i : Store) : TransferControl :=
  let '{| tr_active := a; tr_id := d; tr_cancel := c; tr_bytes_done := bd; tr_bytes_total := bt; tr_files_done := fd;
          tr_files_total := ft; tr_file := f; tr_share := sh |} := t in
  match i with
  | StActive b => {| tr_active := b; tr_id := d; tr_cancel := c; tr_bytes_done := bd; tr_bytes_total := bt; tr_files_done := fd; tr_files_total := ft; tr_file := f; tr_share := sh |}
  | StId z => {| tr_active := a; tr_id := z; tr_cancel := c; tr_bytes_done := bd; tr_bytes_total := bt; tr_files_done := fd; tr_files_total := ft; tr_file := f; tr_share := sh |}
  | StCancel z => {| tr_active := a; tr_id := d; tr_cancel := z; tr_bytes_done := bd; tr_bytes_total := bt; tr_files_done := fd; tr_files_total := ft; tr_file := f; tr_share := sh |}
  | StBytesDone z => {| tr_active := a; tr_id := d; tr_cancel := c; tr_bytes_done := z; tr_bytes_total := bt; tr_files_done := fd; tr_files_total := ft; tr_file := f; tr_share := sh |}
  | StBytesTotal z => {| tr_active := a; tr_id := d; tr_cancel := c; tr_bytes_done := bd; tr_bytes_total := z; tr_files_done := fd; tr_files_total := ft; tr_file := f; tr_share := sh |}
  | StFilesDone z => {| tr_active := a; tr_id := d; tr_cancel := c; tr_bytes_done := bd; tr_bytes_total := bt; tr_files_done := z; tr_files_total := ft; tr_file := f; tr_share := sh |}
  | StFilesTotal z => {| tr_active := a; tr_id := d; tr_cancel := c; tr_bytes_done := bd; tr_bytes_total := bt; tr_files_done := fd; tr_files_total := z; tr_file := f; tr_share := sh |}
  | StFile s => {| tr_active := a; tr_id := d; tr_cancel := c; tr_bytes_done := bd; tr_bytes_total := bt; tr_files_done := fd; tr_files_total := ft; tr_file := s; tr_share := sh |}
  | StShare s => {| tr_active := a; tr_id := d; tr_cancel := c; tr_bytes_done := bd; tr_bytes_total := bt; tr_files_done := fd; tr_files_total := ft; tr_file := f; tr_share := s |}
  end.

(** [TransferGuard::acquire] after the number was drawn. *)
Definition acquire_stores (id : Z) (share_id : bytes) (files_total bytes_total : Z) : list Store :=
  [StId id; StCancel 0; StBytesDone 0; StBytesTotal bytes_total; StFilesDone 0; StFilesTotal files_total; StFile [];
   StShare share_id].

(** [Drop for TransferGuard]. *)
Definition drop_stores : list Store :=
  [StId 0; StCancel 0; StBytesDone 0; StBytesTotal 0; StFilesDone 0; StFilesTotal 0; StFile []; StShare []; StActive false].

(** [transfer_file]. *)
Definition file_stores (path : bytes) (index : Z) : list Store := [StFile path; StFilesDone index].

(** Where a thread stands: in [acquire], with the guard in hand (idle, in
    [transfer_file], in [transfer_cancelled] with the number it has read), in [drop],
    in [transfer_cancel]. *)
Inductive Thread :=
| ThAcquire (share_id : bytes) (files_total bytes_total : Z)
| ThTaken (share_id : bytes) (files_total bytes_total : Z)
| ThInit (id : Z) (rest : list Store)
| ThHolds (id : Z)
| ThFile (id : Z) (rest : list Store)
| ThPoll (id : Z) (read : Z)
| ThDrops (id : Z) (rest : list Store)
| ThCancel (id : Z)
| ThCancelStore (id : Z)
| ThCancelCheck (id : Z).

(** The shared state with the next number, the threads, and what happened: the numbers
    drawn, the cancels asked for, those answered [true], the transfers that saw
    themselves cancelled. *)
Record TState := {
  ts_control : TransferControl; ts_next : Z; ts_threads : list Thread; ts_drawn : list Z; ts_asked : list Z;
  ts_confirmed : list Z; ts_stopped : list Z
}.

Definition TState_new : TState :=
  {| ts_control := TransferControl_new; ts_next := 1; ts_threads := []; ts_drawn := []; ts_asked := []; ts_confirmed := [];
     ts_stopped := [] |}.

Definition with_threads (s : TState) (l : list Thread) : TState :=
  {| ts_control := ts_control s; ts_next := ts_next s; ts_threads := l; ts_drawn := ts_drawn s; ts_asked := ts_asked s;
     ts_confirmed := ts_confirmed s; ts_stopped := ts_stopped s |}.

Definition with_store (s : TState) (i : Store) : TState :=
  {| ts_control := store (ts_control s) i; ts_next := ts_next s; ts_threads := ts_threads s; ts_drawn := ts_drawn s;
     ts_asked := ts_asked s; ts_confirmed := ts_confirmed s; ts_stopped := ts_stopped s |}.

Definition log_drawn (s : TState) (id : Z) : TState :=
  {| ts_control := ts_control s; ts_next := u64 (ts_next s + 1); ts_threads := ts_threads s; ts_drawn := id :: ts_drawn s;
     ts_asked := ts_asked s; ts_confirmed := ts_confirmed s; ts_stopped := ts_stopped s |}.
Definition log_asked (s : TState) (id : Z) : TState :=
  {| ts_control := ts_control s; ts_next := ts_next s; ts_threads := ts_threads s; ts_drawn := ts_drawn s;
     ts_asked := id :: ts_asked s; ts_confirmed := ts_confirmed s; ts_stopped := ts_stopped s |}.
Definition log_confirmed (s : TState) (id : Z) : TState :=
  {| ts_control := ts_control s; ts_next := ts_next s; ts_threads := ts_threads s; ts_drawn := ts_drawn s;
     ts_asked := ts_asked s; ts_confirmed := id :: ts_confirmed s; ts_stopped := ts_stopped s |}.
Definition log_stopped (s : TState) (id : Z) : TState :=
  {| ts_control := ts_control s; ts_next := ts_next s; ts_threads := ts_threads s; ts_drawn := ts_drawn s;
     ts_asked := ts_asked s; ts_confirmed := ts_confirmed s; ts_stopped := id :: ts_stopped s |}.

(** What the threads may be next to a moving one. [ThCancel] may carry any number: it
    comes from a snapshot of any time, or is made up. *)
Inductive thread_start : Thread -> Prop :=
| st_acquire share files bytes : thread_start (ThAcquire share files bytes)
| st_cancel id : thread_start (ThCancel id).

(** One atomic operation of the thread [th], which continues as [o] ([None]: it has
    returned). *)
Inductive thread_step (s : TState) : Thread -> option Thread -> TState -> Prop :=
| tp_busy share files bytes : tr_active (ts_control s) = true -> thread_step s (ThAcquire share files bytes) None s
| tp_take share files bytes : tr_active (ts_control s) = false ->
    thread_step s (ThAcquire share files bytes) (Some (ThTaken share files bytes)) (with_store s (StActive true))
| tp_draw share files bytes : ts_next s < U64_MAX ->
    thread_step s (ThTaken share files bytes) (Some (ThInit (ts_next s) (acquire_stores (ts_next s) share files bytes)))
      (log_drawn s (ts_next s))
| tp_init id i rest : thread_step s (ThInit id (i :: rest)) (Some (ThInit id rest)) (with_store s i)
| tp_guard id : thread_step s (ThInit id []) (Some (ThHolds id)) s
| tp_file id path index : thread_step s (ThHolds id) (Some (ThFile id (file_stores path index))) s
| tp_file_store id i rest : thread_step s (ThFile id (i :: rest)) (Some (ThFile id rest)) (with_store s i)
| tp_file_done id : thread_step s (ThFile id []) (Some (ThHolds id)) s
| tp_bytes id n : thread_step s (ThHolds id) (Some (ThHolds id))
    (with_store s (StBytesDone (u64 (tr_bytes_done (ts_control s) + n))))
| tp_poll id : thread_step s (ThHolds id) (Some (ThPoll id (tr_id (ts_control s)))) s
| tp_poll_done id read :
    thread_step s (ThPoll id read) (Some (ThHolds id))
      (if negb (read =? 0) && (tr_cancel (ts_control s) =? read) then log_stopped s id else s)
| tp_drop id : thread_step s (ThHolds id) (Some (ThDrops id drop_stores)) s
| tp_drop_store id i rest : thread_step s (ThDrops id (i :: rest)) (Some (ThDrops id rest)) (with_store s i)
| tp_drop_done id : thread_step s (ThDrops id []) None s
| tp_cancel_refused id : id = 0 \/ tr_id (ts_control s) <> id -> thread_step s (ThCancel id) None (log_asked s id)
| tp_cancel id : id <> 0 -> tr_id (ts_control s) = id -> thread_step s (ThCancel id) (Some (ThCancelStore id)) (log_asked s id)
| tp_cancel_store id : thread_step s (ThCancelStore id) (Some (ThCancelCheck id)) (with_store s (StCancel id))
| tp_cancel_done id :
    thread_step s (ThCancelCheck id) None (if tr_id (ts_control s) =? id then log_confirmed s id else s).

Inductive transfer_step (s : TState) : TState -> Prop :=
| ts_spawn th : thread_start th -> transfer_step s (with_threads s (ts_threads s ++ [th]))
| ts_move l1 th l2 o s1 : ts_threads s = l1 ++ th :: l2 -> thread_step s th o s1 ->
    transfer_step s (with_threads s1 (l1 ++ option_list o ++ l2)).

Inductive transfer_run : TState -> TState -> Prop :=
| trn_refl s : transfer_run s s
| trn_next s s' s'' : transfer_run s s' -> transfer_step s' s'' -> transfer_run s s''.

Definition transfer_reachable (s : TState) : Prop := transfer_run TState_new s.

(** [transfer_snapshot] when no store falls between its loads. *)
Record TransferSnapshot := {
  sn_active : bool; sn_id : Z; sn_cancelled : bool; sn_share : bytes; sn_file : bytes; sn_files_done : Z; sn_files_total : Z;
  sn_bytes_done : Z; sn_bytes_total : Z
}.

Definition transfer_cancelled (c : TransferControl) : bool := negb (tr_id c =? 0) && (tr_cancel c =? tr_id c).

Definition transfer_snapshot (c : TransferControl) : TransferSnapshot :=
  {| sn_active := tr_active c; sn_id := tr_id c; sn_cancelled := transfer_cancelled c; sn_share := tr_share c;
     sn_file := tr_file c; sn_files_done := tr_files_done c; sn_files_total := tr_files_total c;
     sn_bytes_done := tr_bytes_done c; sn_bytes_total := tr_bytes_total c |}.

Definition idle_snapshot : TransferSnapshot :=
  {| sn_active := false; sn_id := 0; sn_cancelled := false; sn_share := []; sn_file := []; sn_files_done := 0;
     sn_files_total := 0; sn_bytes_done := 0; sn_bytes_total := 0 |}.

(** ** The invariant *)

(** The thread that owns the lock. *)
Definition owns (th : Thread) : bool :=
  match th with
  | ThTaken _ _ _ | ThInit _ _ | ThHolds _ | ThFile _ _ | ThPoll _ _ => true
  | ThDrops _ rest => negb (bool_decide (rest = []))
  | _ => false
  end.

Definition holds (c : TransferControl) (i : Store) : Prop :=
  match i with
  | StActive b => tr_active c = b | StId z => tr_id c = z | StCancel _ => True | StBytesDone z => tr_bytes_done c = z
  | StBytesTotal z => tr_bytes_total c = z | StFilesDone z => tr_files_done c = z | StFilesTotal z => tr_files_total c = z
  | StFile s => tr_file c = s | StShare s => tr_share c = s
  end.

Definition same_but_cancel (c c' : TransferControl) : Prop := exists z, c' = store c (StCancel z).

Definition th_ok (s : TState) (th : Thread) : Prop :=
  let c := ts_control s in
  match th with
  | ThAcquire _ _ _ | ThTaken _ _ _ | ThCancel _ => True
  | ThInit id rest => id ∈ ts_drawn s /\
      exists k share files bytes, rest = drop k (acquire_stores id share files bytes) /\ ((0 < k)%nat -> tr_id c = id)
  | ThHolds id => id ∈ ts_drawn s /\ tr_id c = id
  | ThFile id rest => id ∈ ts_drawn s /\ tr_id c = id /\ exists k path index, rest = drop k (file_stores path index)
  | ThPoll id read => id ∈ ts_drawn s /\ tr_id c = id /\ read = id
  | ThDrops id rest => exists k, rest = drop k drop_stores /\ (rest <> [] -> Forall (holds c) (take k drop_stores))
  | ThCancelStore id | ThCancelCheck id => id ∈ ts_asked s /\ id <> 0
  end.

Record tinv (s : TState) : Prop := {
  ti_owner : length (List.filter owns (ts_threads s)) = if tr_active (ts_control s) then 1%nat else 0%nat;
  ti_threads : Forall (th_ok s) (ts_threads s);
  ti_free : tr_active (ts_control s) = false -> Forall (holds (ts_control s)) drop_stores;
  ti_cancel : tr_cancel (ts_control s) = 0 \/ tr_cancel (ts_control s) ∈ ts_asked s;
  ti_id : tr_id (ts_control s) = 0 \/ tr_id (ts_control s) ∈ ts_drawn s;
  ti_next : 1 <= ts_next s;
  ti_drawn : Forall (fun id => 1 <= id < ts_next s) (ts_drawn s);
  ti_nodup : NoDup (ts_drawn s);
  ti_stopped : Forall (fun id => id ∈ ts_drawn s /\ id ∈ ts_asked s) (ts_stopped s);
  ti_confirmed : Forall (fun id => id ∈ ts_drawn s /\ id ∈ ts_asked s) (ts_confirmed s)
}.

Definition logs_grow (s s' : TState) : Prop := ts_drawn s ⊆ ts_drawn s' /\ ts_asked s ⊆ ts_asked s'.

Lemma th_ok_free s s' th : owns th = false -> ts_asked s ⊆ ts_asked s' -> th_ok s th -> th_ok s' th.
Proof.
  intros Hn Ha. destruct th as [| | | | | | id rest | | |]; try done; cbn in *.
  - apply negb_false_iff, bool_decide_eq_true in Hn as ->. intros (k & E & _). by exists k.
  - intros [H1 H2]. split; [by apply Ha | done].
  - intros [H1 H2]. split; [by apply Ha | done].
Qed.

Lemma th_ok_same s s' th : same_but_cancel (ts_control s) (ts_control s') -> logs_grow s s' -> th_ok s th -> th_ok s' th.
Proof.
  intros [z Hc] [Hd Ha]. destruct s as [c n l dr ask cf sp], s' as [c' n' l' dr' ask' cf' sp']. cbn in *. subst c'.
  destruct c. destruct th; cbn; try done; try (intros (H1 & H2); split; [by apply Hd || by apply Ha | done]).
Qed.

Lemma same_refl c : same_but_cancel c c.
Proof. exists (tr_cancel c). by destruct c. Qed.

Lemma filter_app_b {A} (f : A -> bool) l k : List.filter f (l ++ k) = List.filter f l ++ List.filter f k.
Proof. induction l as [| x l IH]; [done |]. cbn. destruct (f x); cbn; by rewrite IH. Qed.

Lemma owner_count l1 th l2 : length (List.filter owns (l1 ++ th :: l2)) =
  ((if owns th then 1 else 0) + length (List.filter owns (l1 ++ l2)))%nat.
Proof. rewrite !filter_app_b, !length_app. cbn. destruct (owns th); cbn; lia. Qed.

Lemma none_owns l : length (List.filter owns l) = 0%nat -> Forall (fun th => owns th = false) l.
Proof.
  intros H%length_zero_iff_nil. apply Forall_forall. intros th Hth. apply not_true_iff_false. intros Ho.
  assert (Hin : In th (List.filter owns l)) by (apply filter_In; split; [by apply list_elem_of_In | done]). by rewrite H in Hin.
Qed.

(** The other threads of a move: the mover may change the control only if none of them
    owns the lock. *)
Lemma others_ok s s1 l1 th l2 :
  tinv s -> ts_threads s = l1 ++ th :: l2 -> logs_grow s s1 ->
  (owns th = true \/ tr_active (ts_control s) = false \/ same_but_cancel (ts_control s) (ts_control s1)) ->
  Forall (th_ok s1) (l1 ++ l2).
Proof.
  intros Hi E Hg Hc. pose proof (ti_threads s Hi) as Ht. rewrite E in Ht. apply Forall_app in Ht as [Ht1 [_ Ht2]%Forall_cons].
  assert (Ht : Forall (th_ok s) (l1 ++ l2)) by (by apply Forall_app).
  assert (Hcase : Forall (fun th => owns th = false) (l1 ++ l2) \/ same_but_cancel (ts_control s) (ts_control s1)).
  { destruct Hc as [Ho | [Ha | Hs]]; [left | left | by right]; apply none_owns; pose proof (ti_owner s Hi) as Hn;
      rewrite E, owner_count in Hn; [rewrite Ho in Hn; destruct (tr_active _); lia | rewrite Ha in Hn; lia]. }
  destruct Hcase as [Hn | Hs].
  - eapply Forall_impl; [apply Forall_and; split; [exact Hn | exact Ht] |]. intros x [H1 H2]. eapply th_ok_free; [done | apply Hg | done].
  - eapply Forall_impl; [done |]. intros x. by apply th_ok_same.
Qed.

Definition owns_o (o : option Thread) : nat := match o with Some th => if owns th then 1 else 0 | None => 0 end.

(** What is left to show of a move. *)
Record move_ok (s : TState) (th : Thread) (o : option Thread) (s1 : TState) : Prop := {
  mv_logs : logs_grow s s1;
  mv_who : owns th = true \/ tr_active (ts_control s) = false \/ same_but_cancel (ts_control s) (ts_control s1);
  mv_next_thread : forall th', o = Some th' -> th_ok s1 th';
  mv_count : ((if tr_active (ts_control s) then 1 else 0) + owns_o o =
              (if tr_active (ts_control s1) then 1 else 0) + (if owns th then 1 else 0))%nat;
  mv_free : tr_active (ts_control s1) = false -> Forall (holds (ts_control s1)) drop_stores;
  mv_cancel : tr_cancel (ts_control s1) = 0 \/ tr_cancel (ts_control s1) ∈ ts_asked s1;
  mv_id : tr_id (ts_control s1) = 0 \/ tr_id (ts_control s1) ∈ ts_drawn s1;
  mv_drawn : (ts_next s1 = ts_next s /\ ts_drawn s1 = ts_drawn s) \/
             (ts_next s1 = ts_next s + 1 /\ ts_drawn s1 = ts_next s :: ts_drawn s);
  mv_stopped : ts_stopped s1 = ts_stopped s \/
    exists id, ts_stopped s1 = id :: ts_stopped s /\ id ∈ ts_drawn s /\ id ∈ ts_asked s;
  mv_confirmed : ts_confirmed s1 = ts_confirmed s \/
    exists id, ts_confirmed s1 = id :: ts_confirmed s /\ id ∈ ts_drawn s /\ id ∈ ts_asked s
}.

Lemma logged_grow s s1 (l l1 : list Z) :
  logs_grow s s1 -> Forall (fun id => id ∈ ts_drawn s /\ id ∈ ts_asked s) l ->
  (l1 = l \/ exists id, l1 = id :: l /\ id ∈ ts_drawn s /\ id ∈ ts_asked s) ->
  Forall (fun id => id ∈ ts_drawn s1 /\ id ∈ ts_asked s1) l1.
Proof.
  intros [Hd Ha] Hl Hc. assert (H : Forall (fun id => id ∈ ts_drawn s /\ id ∈ ts_asked s) l1).
  { destruct Hc as [-> | (id & -> & H)]; [done |]. by constructor. }
  eapply Forall_impl; [done |]. intros id [H1 H2]. split; [by apply Hd | by apply Ha].
Qed.

Lemma tinv_move s l1 th l2 o s1 :
  tinv s -> ts_threads s = l1 ++ th :: l2 -> move_ok s th o s1 -> tinv (with_threads s1 (l1 ++ option_list o ++ l2)).
Proof.
  intros Hi E M. pose proof (others_ok s s1 l1 th l2 Hi E (mv_logs _ _ _ _ M) (mv_who _ _ _ _ M)) as Hoth.
  split; cbn [with_threads ts_control ts_threads ts_drawn ts_asked ts_next ts_stopped ts_confirmed].
  - pose proof (ti_owner s Hi) as Hn. rewrite E, owner_count in Hn. pose proof (mv_count _ _ _ _ M) as Hc.
    destruct o as [th' |]; cbn [owns_o] in Hc;
      [change (option_list (Some th') ++ l2) with (th' :: l2); rewrite owner_count | change (option_list None ++ l2) with l2]; lia.
  - apply Forall_app in Hoth as [H1 H2]. apply Forall_app. split; [done |].
    destruct o as [th' |]; [| done]. apply Forall_cons. split; [| done]. by apply (mv_next_thread _ _ _ _ M).
  - apply (mv_free _ _ _ _ M).
  - apply (mv_cancel _ _ _ _ M).
  - apply (mv_id _ _ _ _ M).
  - pose proof (ti_next s Hi). destruct (mv_drawn _ _ _ _ M) as [[-> _] | [-> _]]; lia.
  - pose proof (ti_drawn s Hi) as Hd. pose proof (ti_next s Hi). destruct (mv_drawn _ _ _ _ M) as [[-> ->] | [-> ->]]; [done |].
    constructor; [lia |]. eapply Forall_impl; [done |]. intros id [? ?]. split; lia.
  - pose proof (ti_nodup s Hi) as Hd. destruct (mv_drawn _ _ _ _ M) as [[_ ->] | [_ ->]]; [done |]. apply NoDup_cons. split; [| done].
    intros Hin. pose proof (ti_drawn s Hi) as Hr. rewrite Forall_forall in Hr. apply Hr in Hin. lia.
  - eapply (logged_grow s s1 (ts_stopped s)); [apply M | apply Hi | apply (mv_stopped _ _ _ _ M)].
  - eapply (logged_grow s s1 (ts_confirmed s)); [apply M | apply Hi | apply (mv_confirmed _ _ _ _ M)].
Qed.

(** A move that leaves the control alone. *)
Lemma move_quiet s th o :
  tinv s -> (forall th', o = Some th' -> th_ok s th') -> owns_o o = (if owns th then 1 else 0)%nat -> move_ok s th o s.
Proof.
  intros Hi Hth Hc. split; try done; try apply Hi; auto.
  right. right. apply same_refl.
Qed.

Lemma thread_in s l1 th l2 : tinv s -> ts_threads s = l1 ++ th :: l2 -> th_ok s th.
Proof. intros Hi E. pose proof (ti_threads s Hi) as Ht. rewrite E in Ht. apply Forall_app in Ht as [_ [H _]%Forall_cons]. done. Qed.

Lemma owner_active s l1 th l2 : tinv s -> ts_threads s = l1 ++ th :: l2 -> owns th = true -> tr_active (ts_control s) = true.
Proof.
  intros Hi E Ho. pose proof (ti_owner s Hi) as Hn. rewrite E, owner_count, Ho in Hn. destruct (tr_active _); [done | lia].
Qed.

Lemma store_active c i : (forall b, i <> StActive b) -> tr_active (store c i) = tr_active c.
Proof. intros H. destruct c, i; try done. by destruct (H b). Qed.

Lemma store_id c i : (forall z, i <> StId z) -> tr_id (store c i) = tr_id c.
Proof. intros H. destruct c, i; try done. by destruct (H z). Qed.

Lemma store_cancel c i : (forall z, i <> StCancel z) -> tr_cancel (store c i) = tr_cancel c.
Proof. intros H. destruct c, i; try done. by destruct (H z). Qed.

Lemma grow_refl s i : logs_grow s (with_store s i).
Proof. by split. Qed.

(** A store by the owner of the lock that leaves it the owner. *)
Lemma move_owner_store s th th' i :
  tinv s -> owns th = true -> owns th' = true -> tr_active (ts_control s) = true -> (forall b, i <> StActive b) ->
  (forall z, i = StId z -> z = 0 \/ z ∈ ts_drawn s) -> (forall z, i = StCancel z -> z = 0) ->
  th_ok (with_store s i) th' -> move_ok s th (Some th') (with_store s i).
Proof.
  intros Hi Ho Ho' Hact Hna Hid Hca Hth. split; cbn [with_store ts_control ts_drawn ts_asked ts_next ts_stopped ts_confirmed]; auto.
  - apply grow_refl.
  - by intros x [= <-].
  - rewrite store_active by done. cbn. by rewrite Ho, Ho', Hact.
  - rewrite store_active by done. congruence.
  - destruct i as [| | z | | | | | |]; try (rewrite store_cancel by done; apply Hi).
    left. rewrite <- (Hca z eq_refl). by destruct (ts_control s).
  - destruct i as [| z | | | | | | |]; try (rewrite store_id by done; apply Hi).
    destruct (Hid z eq_refl); [left | right]; by destruct (ts_control s).
Qed.

Lemma drop_cons {A} (l rest : list A) k i : i :: rest = drop k l -> l !! k = Some i /\ rest = drop (S k) l.
Proof.
  intros E. assert (Hk : l !! k = Some i) by (by rewrite <- (Nat.add_0_r k), <- lookup_drop, <- E).
  split; [done |]. rewrite (drop_S l i k Hk) in E. by injection E.
Qed.

(** The stores of a drop: what was cleared stays cleared, and the last one frees. *)
Lemma drop_progress c k i : drop_stores !! k = Some i -> Forall (holds c) (take k drop_stores) ->
  Forall (holds (store c i)) (take (S k) drop_stores).
Proof.
  intros Hk Hf. do 9 (destruct k as [| k]; [injection Hk as <-; cbn [take drop_stores] in *; destruct c; cbn in Hf;
    repeat (apply Forall_cons in Hf as [? Hf]); repeat (apply Forall_cons; split); by cbn |]). done.
Qed.

Lemma acquire_store_kind id share files bytes k i : acquire_stores id share files bytes !! k = Some i ->
  (forall b, i <> StActive b) /\ (forall z, i = StCancel z -> z = 0) /\
  ((k = 0%nat /\ i = StId id) \/ ((0 < k)%nat /\ forall z, i <> StId z)).
Proof.
  destruct k as [| k]; [intros [= <-]; split_and!; [done | done | by left] |]. intros E.
  do 7 (destruct k as [| k]; [injection E as <-; split_and!; [done | by intros z [= <-] | right; split; [lia | done]] |]). done.
Qed.

Lemma init_move s l1 l2 id i rest : tinv s -> ts_threads s = l1 ++ ThInit id (i :: rest) :: l2 ->
  move_ok s (ThInit id (i :: rest)) (Some (ThInit id rest)) (with_store s i).
Proof.
  intros Hi E. pose proof (thread_in _ _ _ _ Hi E) as (Hd & k & share & files & bytes & Er & Hid).
  apply drop_cons in Er as [Hk Hr]. apply acquire_store_kind in Hk as (H1 & H2 & H3).
  apply move_owner_store; try done; [by eapply owner_active | |].
  - intros z ->. destruct H3 as [[_ [= ->]] | [_ H3]]; [by right | by destruct (H3 z)].
  - split; [done |]. exists (S k), share, files, bytes. split; [done |]. intros _. cbn [with_store ts_control].
    destruct H3 as [[_ ->] | [Hk H3]]; [by destruct (ts_control s) | rewrite store_id by done; by apply Hid].
Qed.

Lemma file_move s l1 l2 id i rest : tinv s -> ts_threads s = l1 ++ ThFile id (i :: rest) :: l2 ->
  move_ok s (ThFile id (i :: rest)) (Some (ThFile id rest)) (with_store s i).
Proof.
  intros Hi E. pose proof (thread_in _ _ _ _ Hi E) as (Hd & Hid & k & path & index & Er).
  apply drop_cons in Er as [Hk Hr].
  assert (Hkind : (forall b, i <> StActive b) /\ (forall z, i <> StId z) /\ forall z, i <> StCancel z)
    by (do 2 (destruct k as [| k]; [injection Hk as <-; done |]); done).
  destruct Hkind as (H1 & H2 & H3). apply move_owner_store; try done; [by eapply owner_active | by intros z ?%H2 | by intros z ?%H3 |].
  split_and!; [done | cbn [with_store ts_control]; by rewrite store_id | by exists (S k), path, index].
Qed.

Lemma drop_move s l1 l2 id i rest : tinv s -> ts_threads s = l1 ++ ThDrops id (i :: rest) :: l2 ->
  move_ok s (ThDrops id (i :: rest)) (Some (ThDrops id rest)) (with_store s i).
Proof.
  intros Hi E. pose proof (thread_in _ _ _ _ Hi E) as (k & Er & Hf). specialize (Hf ltac:(done)).
  apply drop_cons in Er as [Hk Hr]. pose proof (drop_progress _ _ _ Hk Hf) as Hf'.
  assert (Hact : tr_active (ts_control s) = true) by (by eapply owner_active).
  destruct rest as [| j rest].
  - assert (k = 8%nat) as -> by (apply lookup_lt_Some in Hk as Hl; cbn in Hl; do 8 (destruct k as [| k]; [done |]); lia).
    injection Hk as <-. cbn [take drop_stores] in Hf'. split; cbn [with_store ts_control ts_drawn ts_asked ts_next ts_stopped ts_confirmed]; auto.
    + apply grow_refl.
    + intros th' [= <-]. cbn. by exists 9%nat.
    + cbn. rewrite Hact. by destruct (ts_control s).
    + rewrite store_cancel by done. apply Hi.
    + rewrite store_id by done. apply Hi.
  - apply move_owner_store; try done.
    + intros b ->. by do 9 (destruct k as [| k]; [try done |]).
    + intros z ->. left. by do 9 (destruct k as [| k]; [injection Hk; congruence || done |]).
    + intros z ->. by do 9 (destruct k as [| k]; [injection Hk; congruence || done |]).
    + exists (S k). split; [done |]. intros _. exact Hf'.
Qed.

(** A move that leaves the control alone and writes a log. *)
Lemma move_logged s th o s1 :
  tinv s -> ts_control s1 = ts_control s -> ts_next s1 = ts_next s -> ts_drawn s1 = ts_drawn s -> ts_asked s ⊆ ts_asked s1 ->
  (forall th', o = Some th' -> th_ok s1 th') -> owns_o o = (if owns th then 1 else 0)%nat ->
  (ts_stopped s1 = ts_stopped s \/ exists id, ts_stopped s1 = id :: ts_stopped s /\ id ∈ ts_drawn s /\ id ∈ ts_asked s) ->
  (ts_confirmed s1 = ts_confirmed s \/ exists id, ts_confirmed s1 = id :: ts_confirmed s /\ id ∈ ts_drawn s /\ id ∈ ts_asked s) ->
  move_ok s th o s1.
Proof.
  intros Hi Hc Hn Hd Ha Hth Ho H1 H2. split; rewrite ?Hc; try done; try apply Hi; auto.
  - split; [by rewrite Hd | done].
  - right. right. apply same_refl.
  - destruct (ti_cancel s Hi); [by left | right; by apply Ha].
  - rewrite Hd. apply Hi.
Qed.

Lemma tinv_new : tinv TState_new.
Proof. split; cbn; try done; try lia; try (by left). intros _. by repeat constructor. Qed.

Lemma cancel_move s l1 l2 id : tinv s -> ts_threads s = l1 ++ ThCancelStore id :: l2 ->
  move_ok s (ThCancelStore id) (Some (ThCancelCheck id)) (with_store s (StCancel id)).
Proof.
  intros Hi E. pose proof (thread_in _ _ _ _ Hi E) as [Hid H0].
  split; cbn [with_store ts_control ts_drawn ts_asked ts_next ts_stopped ts_confirmed]; auto.
  - apply grow_refl.
  - right. right. by exists id.
  - by intros th' [= <-].
  - rewrite store_active by done. cbn. lia.
  - rewrite store_active by done. intros Hf%(ti_free s Hi). destruct (ts_control s).
    cbn in *. repeat (apply Forall_cons in Hf as [? Hf]). by repeat constructor.
  - right. by destruct (ts_control s).
  - rewrite store_id by done. apply Hi.
Qed.

Lemma take_move s share files bytes : tinv s -> tr_active (ts_control s) = false ->
  move_ok s (ThAcquire share files bytes) (Some (ThTaken share files bytes)) (with_store s (StActive true)).
Proof.
  intros Hi Ha. split; cbn [with_store ts_control ts_drawn ts_asked ts_next ts_stopped ts_confirmed]; auto.
  - apply grow_refl.
  - by intros th' [= <-].
  - rewrite Ha. by destruct (ts_control s).
  - by destruct (ts_control s).
  - rewrite store_cancel by done. apply Hi.
  - rewrite store_id by done. apply Hi.
Qed.

Lemma draw_move s share files bytes : tinv s -> ts_next s < U64_MAX ->
  move_ok s (ThTaken share files bytes) (Some (ThInit (ts_next s) (acquire_stores (ts_next s) share files bytes)))
    (log_drawn s (ts_next s)).
Proof.
  intros Hi Hn. pose proof (ti_next s Hi). split; cbn [log_drawn ts_control ts_drawn ts_asked ts_next ts_stopped ts_confirmed]; auto.
  - split; [by right | done].
  - intros th' [= <-]. split; [by left |]. exists 0%nat, share, files, bytes. by split; [| lia].
  - apply Hi.
  - apply Hi.
  - destruct (ti_id s Hi); [by left | right; by right].
  - right. split; [| done]. apply Z.mod_small. unfold U64_MAX in Hn. lia.
Qed.

Lemma thread_step_ok s l1 th l2 o s1 : tinv s -> ts_threads s = l1 ++ th :: l2 -> thread_step s th o s1 -> move_ok s th o s1.
Proof.
  intros Hi E Hs. pose proof (thread_in _ _ _ _ Hi E) as Hth.
  assert (Hact : owns th = true -> tr_active (ts_control s) = true) by (by eapply owner_active).
  destruct Hs; cbn [th_ok] in Hth.
  - by apply move_quiet.
  - by apply take_move.
  - by apply draw_move.
  - by eapply init_move.
  - apply move_quiet; [done | | done]. intros th' [= <-]. destruct Hth as (Hd & k & share & files & bytes & Er & Hid).
    split; [done |]. apply Hid. destruct k; [done | lia].
  - apply move_quiet; [done | | done]. intros th' [= <-]. destruct Hth. split_and!; [done | done | by exists 0%nat, path, index].
  - by eapply file_move.
  - apply move_quiet; [done | | done]. intros th' [= <-]. by destruct Hth as (? & ? & _).
  - apply move_owner_store; try done; [by apply Hact |]. destruct Hth. split; [done |]. cbn [with_store ts_control]. by rewrite store_id.
  - apply move_quiet; [done | | done]. intros th' [= <-]. by destruct Hth.
  - destruct Hth as (Hd & Hid & ->). destruct (negb (id =? 0) && (tr_cancel (ts_control s) =? id)) eqn:Eb.
    + apply andb_true_iff in Eb as [H0%negb_true_iff%Z.eqb_neq Hc%Z.eqb_eq]. apply move_logged; try done.
      * by intros th' [= <-].
      * right. exists id. split_and!; [done | done |]. destruct (ti_cancel s Hi); congruence.
      * by left.
    + apply move_quiet; [done | | done]. by intros th' [= <-].
  - apply move_quiet; [done | | done]. intros th' [= <-]. by exists 0%nat.
  - by eapply drop_move.
  - apply move_quiet; [done | done |]. done.
  - apply move_logged; try done; [by right | by left | by left].
  - apply move_logged; try done; [by right | | by left | by left]. intros th' [= <-]. split; [by left | done].
  - by eapply cancel_move.
  - destruct (Z.eqb_spec (tr_id (ts_control s)) id) as [Eid | Hne].
    + apply move_logged; try done; [by left |]. right. exists id. split_and!; [done | | by destruct Hth].
      destruct (ti_id s Hi) as [H0 | Hin]; [by destruct Hth; congruence | congruence].
    + by apply move_quiet.
Qed.

Lemma tinv_step s s' : tinv s -> transfer_step s s' -> tinv s'.
Proof.
  intros Hi [th Hth | l1 th l2 o s1 E Hs].
  - destruct Hi. split; cbn [with_threads ts_control ts_threads ts_drawn ts_asked ts_next ts_stopped ts_confirmed]; try done.
    + rewrite filter_app_b, length_app, ti_owner0. by destruct Hth.
    + apply Forall_app. split; [done |]. apply Forall_singleton. by destruct Hth.
  - eapply tinv_move; [done | done | by eapply thread_step_ok].
Qed.

Lemma tinv_run s s' : tinv s -> transfer_run s s' -> tinv s'.
Proof. intros Hi. induction 1 as [| s s' s'' _ IH Hs]; [done |]. eapply tinv_step; [by apply IH | done]. Qed.

Lemma tinv_reachable s : transfer_reachable s -> tinv s.
Proof. apply tinv_run, tinv_new. Qed.

(** ** A cancel that has arrived *)

(** The transfer [id] runs: its guard is out and not yet dropped. *)
Definition running (id : Z) (th : Thread) : Prop :=
  match th with ThHolds n | ThFile n _ | ThPoll n _ => n = id | _ => False end.

Definition no_foreign_store (id : Z) (s : TState) : Prop := forall n, ThCancelStore n ∈ ts_threads s -> n = id.

Lemma running_id s id th : tinv s -> th ∈ ts_threads s -> running id th -> tr_id (ts_control s) = id /\ owns th = true.
Proof.
  intros Hi Hin Hr. pose proof (ti_threads s Hi) as Ht. rewrite Forall_forall in Ht. specialize (Ht th Hin).
  destruct th; cbn in Hr; try done; subst; cbn in Ht; split; try done; tauto.
Qed.

(** At most one thread owns the lock. *)
Lemma owner_unique s l1 th l2 th' : tinv s -> ts_threads s = l1 ++ th :: l2 -> owns th = true -> th' ∈ l1 ++ l2 -> owns th' = false.
Proof.
  intros Hi E Ho Hin. pose proof (ti_owner s Hi) as Hn. rewrite E, owner_count, Ho in Hn.
  assert (H0 : length (List.filter owns (l1 ++ l2)) = 0%nat) by (destruct (tr_active _); lia).
  apply none_owns in H0. rewrite Forall_forall in H0. by apply H0.
Qed.

Lemma sticky_step s s' id :
  tinv s -> transfer_step s s' -> tr_cancel (ts_control s) = id -> no_foreign_store id s ->
  (exists th, th ∈ ts_threads s /\ running id th) -> tr_cancel (ts_control s') = id /\ no_foreign_store id s'.
Proof.
  intros Hi Hstep Hc Hno (t & Hin & Hrun). destruct (running_id s id t Hi Hin Hrun) as [Hid Hown].
  destruct Hstep as [th Hth | l1 th l2 o s1 E Hs].
  - split; [done |]. intros n [Hn | Hn%list_elem_of_singleton]%elem_of_app; [by apply Hno |]. by destruct Hth.
  - cbn [with_threads ts_control ts_threads] in *.
    assert (Hth : owns th = true -> running id th).
    { intros Ho. rewrite E in Hin. apply elem_of_app in Hin as [H | [-> | H]%elem_of_cons]; [| done |]; exfalso;
        (rewrite (owner_unique s l1 th l2 t) in Hown; [done | done | done | done | apply elem_of_app; auto]). }
    assert (Hnew : tr_cancel (ts_control s1) = id /\ forall n, o = Some (ThCancelStore n) -> n = id).
    { pose proof (thread_in _ _ _ _ Hi E) as Hok. destruct Hs; cbn [with_store ts_control];
        try (by destruct (Hth eq_refl)); try (rewrite store_cancel by done); try (by split).
      - split; [| done]. destruct Hok as (_ & _ & k & path & index & Er). apply drop_cons in Er as [Hk _].
        rewrite store_cancel; [done |]. intros z ->. by do 2 (destruct k as [| k]; [done |]).
      - by destruct (negb (read =? 0) && _).
      - split; [done |]. intros n [= <-]. congruence.
      - split; [| done]. assert (id0 = id) as -> by (apply Hno; rewrite E; apply elem_of_app; right; by left).
        by destruct (ts_control s).
      - by destruct (_ =? _). }
    destruct Hnew as [H1 H2]. split; [done |]. intros n Hn. apply elem_of_app in Hn as [Hn | [Hn | Hn]%elem_of_app].
    + apply Hno. rewrite E. apply elem_of_app. by left.
    + destruct o as [th' |]; [| by apply elem_of_nil in Hn]. apply list_elem_of_singleton in Hn as <-. by apply H2.
    + apply Hno. rewrite E. apply elem_of_app. right. by right.
Qed.

(** A transfer that was started is not started again. *)
Definition started (id : Z) (s : TState) : Prop := id ∈ ts_drawn s /\ forall rest, ThInit id rest ∉ ts_threads s.

Lemma running_started s id th : tinv s -> th ∈ ts_threads s -> running id th -> started id s.
Proof.
  intros Hi Hin Hr. destruct (running_id s id th Hi Hin Hr) as [_ Hown]. pose proof (ti_threads s Hi) as Ht.
  rewrite Forall_forall in Ht. specialize (Ht th Hin). split.
  - destruct th; cbn in Hr; try done; subst; cbn in Ht; tauto.
  - intros rest Hx. apply list_elem_of_split in Hin as (l1 & l2 & E). rewrite E in Hx.
    apply elem_of_app in Hx as [Hx | [<- | Hx]%elem_of_cons]; [| done |].
    + by pose proof (owner_unique s l1 th l2 (ThInit id rest) Hi E Hown ltac:(apply elem_of_app; by left)).
    + by pose proof (owner_unique s l1 th l2 (ThInit id rest) Hi E Hown ltac:(apply elem_of_app; by right)).
Qed.

Lemma step_drawn s th o s1 : thread_step s th o s1 -> ts_drawn s ⊆ ts_drawn s1.
Proof. intros []; try done; [intros x Hx; by right | by destruct (_ && _) | by destruct (_ =? _)]. Qed.

Lemma started_step s s' id : tinv s -> started id s -> transfer_step s s' -> started id s'.
Proof.
  intros Hi [Hd Hn] [th Hth | l1 th l2 o s1 E Hs].
  - split; [done |]. intros rest [Hx | Hx%list_elem_of_singleton]%elem_of_app; [by apply (Hn rest) |]. subst. inversion Hth.
  - split; [by apply (step_drawn _ _ _ _ Hs) |]. intros rest Hx. cbn [with_threads ts_threads] in Hx.
    apply elem_of_app in Hx as [Hx | [Hx | Hx]%elem_of_app].
    + apply (Hn rest). rewrite E. apply elem_of_app. by left.
    + destruct o as [th' |]; [| by apply elem_of_nil in Hx]. apply list_elem_of_singleton in Hx as <-.
      inversion Hs; subst.
      * pose proof (ti_drawn s Hi) as Hr. rewrite Forall_forall in Hr. specialize (Hr _ Hd). lia.
      * apply (Hn (i :: rest)). rewrite E. apply elem_of_app. right. by left.
    + apply (Hn rest). rewrite E. apply elem_of_app. right. by right.
Qed.

Lemma running_back s s' id : started id s -> transfer_step s s' ->
  (exists th, th ∈ ts_threads s' /\ running id th) -> exists th, th ∈ ts_threads s /\ running id th.
Proof.
  intros [_ Hn] [th Hth | l1 th l2 o s1 E Hs] (t & Hin & Hr).
  - apply elem_of_app in Hin as [Hin | ->%list_elem_of_singleton]; [by exists t | by destruct Hth].
  - cbn [with_threads ts_threads] in Hin. rewrite E. apply elem_of_app in Hin as [Hin | [Hin | Hin]%elem_of_app].
    + exists t. split; [apply elem_of_app; by left | done].
    + exists th. split; [apply elem_of_app; right; by left |]. destruct o as [th' |]; [| by apply elem_of_nil in Hin].
      apply list_elem_of_singleton in Hin as ->. inversion Hs; subst; cbn in Hr |- *; try done. subst.
      destruct (Hn []). rewrite E. apply elem_of_app. right. by left.
    + exists t. split; [apply elem_of_app; right; by right | done].
Qed.

Lemma sticky_run s s' id :
  tinv s -> transfer_run s s' -> tr_cancel (ts_control s) = id -> no_foreign_store id s ->
  (exists th, th ∈ ts_threads s /\ running id th) -> started id s' /\
  ((exists th, th ∈ ts_threads s' /\ running id th) -> tr_cancel (ts_control s') = id /\ no_foreign_store id s').
Proof.
  intros Hi Hrun Hc Hno (t & Hin & Hr). induction Hrun as [s | s s1 s2 Hrun IH Hs].
  - split; [by eapply running_started | done].
  - destruct (IH Hi Hc Hno Hin) as [Hst Hk]. assert (Hi1 : tinv s1) by (by eapply tinv_run).
    split; [by eapply started_step |]. intros Hafter. pose proof (running_back s1 s2 id Hst Hs Hafter) as Hbefore.
    destruct (Hk Hbefore) as [H1 H2]. by apply (sticky_step s1 s2 id).
Qed.

(** cancelling by number. Over any interleaving of starting, working, finishing and
    cancelling threads: at most one transfer owns the lock and numbers are never given
    twice; between transfers a snapshot shows nothing; a transfer sees itself cancelled
    only if its own number was asked for, so a late cancel of one never stops the next;
    and once the number of a running transfer is in place with no older cancel still on
    its way, it stays there while that transfer runs, and its next poll stops it. *)
Theorem transfer_cancel_exact s :
  transfer_reachable s ->
  (length (List.filter owns (ts_threads s)) <= 1)%nat /\ NoDup (ts_drawn s) /\
  (tr_active (ts_control s) = false -> transfer_snapshot (ts_control s) = idle_snapshot) /\
  (forall id, id ∈ ts_stopped s -> id ∈ ts_drawn s /\ id ∈ ts_asked s) /\
  (forall id, id ∈ ts_confirmed s -> id ∈ ts_drawn s /\ id ∈ ts_asked s) /\
  (forall id s' th l1 l2 read, th ∈ ts_threads s -> running id th -> tr_cancel (ts_control s) = id -> no_foreign_store id s ->
     transfer_run s s' -> ts_threads s' = l1 ++ ThPoll id read :: l2 ->
     forall o s'', thread_step s' (ThPoll id read) o s'' -> id ∈ ts_stopped s'').
Proof.
  intros Hr%tinv_reachable. split_and!.
  - rewrite (ti_owner s Hr). destruct (tr_active _); lia.
  - apply Hr.
  - intros Ha. pose proof (ti_free s Hr Ha) as Hf. unfold transfer_snapshot, transfer_cancelled. cbn in Hf.
    repeat (apply Forall_cons in Hf as [? Hf]). cbn in *. destruct (ts_control s). cbn in *. by subst.
  - pose proof (ti_stopped s Hr) as Hs. by rewrite Forall_forall in Hs.
  - pose proof (ti_confirmed s Hr) as Hs. by rewrite Forall_forall in Hs.
  - intros id s' th l1 l2 read Hin Hrun Hc Hno Hgo E o s'' Hs. assert (Hi : tinv s') by (by eapply tinv_run).
    destruct (sticky_run s s' id Hr Hgo Hc Hno) as [[Hd _] Hk]; [by exists th |].
    destruct Hk as [Hc' _]; [exists (ThPoll id read); split; [rewrite E; apply elem_of_app; right; by left | done] |].
    destruct (thread_in _ _ _ _ Hi E) as (_ & _ & ->). inversion Hs; subst. rewrite Hc', Z.eqb_refl.
    pose proof (ti_drawn s' Hi) as Hpos. rewrite Forall_forall in Hpos. specialize (Hpos _ Hd).
    destruct (Z.eqb_spec (tr_cancel (ts_control s)) 0); [lia |]. by left.
Qed.

(** ** Runs that can be computed *)

(** A move of a thread; with the guard in hand it polls, or drops when [drop] is set. *)
Definition next_move (s : TState) (drop : bool) (th : Thread) : option (option Thread * TState) :=
  let c := ts_control s in
  match th with
  | ThAcquire share files bytes =>
      if tr_active c then Some (None, s) else Some (Some (ThTaken share files bytes), with_store s (StActive true))
  | ThTaken share files bytes =>
      if ts_next s <? U64_MAX
      then Some (Some (ThInit (ts_next s) (acquire_stores (ts_next s) share files bytes)), log_drawn s (ts_next s)) else None
  | ThInit id (i :: rest) => Some (Some (ThInit id rest), with_store s i)
  | ThInit id [] => Some (Some (ThHolds id), s)
  | ThHolds id => Some (Some (if drop then ThDrops id drop_stores else ThPoll id (tr_id c)), s)
  | ThFile id (i :: rest) => Some (Some (ThFile id rest), with_store s i)
  | ThFile id [] => Some (Some (ThHolds id), s)
  | ThPoll id read => Some (Some (ThHolds id), if negb (read =? 0) && (tr_cancel c =? read) then log_stopped s id else s)
  | ThDrops id (i :: rest) => Some (Some (ThDrops id rest), with_store s i)
  | ThDrops id [] => Some (None, s)
  | ThCancel id =>
      if (id =? 0) || negb (tr_id c =? id) then Some (None, log_asked s id) else Some (Some (ThCancelStore id), log_asked s id)
  | ThCancelStore id => Some (Some (ThCancelCheck id), with_store s (StCancel id))
  | ThCancelCheck id => Some (None, if tr_id c =? id then log_confirmed s id else s)
  end.

Lemma next_move_step s drop th o s1 : next_move s drop th = Some (o, s1) -> thread_step s th o s1.
Proof.
  destruct th as [share files bytes | share files bytes | id [| i rest] | id | id [| i rest] | id read | id [| i rest] | id | id | id];
    cbn [next_move]; try (intros [= <- <-]; by constructor).
  - destruct (tr_active _) eqn:E; intros [= <- <-]; by constructor.
  - destruct (Z.ltb_spec (ts_next s) U64_MAX); intros [= <- <-]. by constructor.
  - intros [= <- <-]. destruct drop; constructor.
  - destruct (Z.eqb_spec id 0), (Z.eqb_spec (tr_id (ts_control s)) id); intros [= <- <-]; constructor; auto.
Qed.

Inductive Action := ASpawn (th : Thread) | AMove (i : nat) | ADrop (i : nat).

Definition move_at (s : TState) (drop' : bool) (i : nat) : option TState :=
  th ← ts_threads s !! i;
  m ← next_move s drop' th;
  Some (with_threads m.2 (take i (ts_threads s) ++ option_list m.1 ++ drop (S i) (ts_threads s))).

Definition act (s : TState) (a : Action) : option TState :=
  match a with
  | ASpawn th => match th with ThAcquire _ _ _ | ThCancel _ => Some (with_threads s (ts_threads s ++ [th])) | _ => None end
  | AMove i => move_at s false i
  | ADrop i => move_at s true i
  end.

Fixpoint acts (s : TState) (l : list Action) : option TState :=
  match l with [] => Some s | a :: l => s' ← act s a; acts s' l end.

Lemma move_at_step s d i s' : move_at s d i = Some s' -> transfer_step s s'.
Proof.
  unfold move_at. destruct (ts_threads s !! i) as [th |] eqn:E; [| done]. cbn [mbind option_bind].
  destruct (next_move s d th) as [[o s1] |] eqn:Em; [| done]. intros [= <-]. eapply ts_move; [| by eapply next_move_step].
  by rewrite <- (take_drop_middle _ i th E) at 1.
Qed.

Lemma act_step s a s' : act s a = Some s' -> transfer_step s s'.
Proof.
  destruct a as [th | i | i]; cbn [act]; [| apply move_at_step | apply move_at_step].
  destruct th; intros [= <-]; by constructor; constructor.
Qed.

Lemma acts_run s l s' : acts s l = Some s' -> transfer_run s s'.
Proof.
  assert (H : forall s0, transfer_run s0 s -> acts s l = Some s' -> transfer_run s0 s'); [| apply H; constructor].
  revert s. induction l as [| a l IH]; intros s s0 H0; cbn [acts]; [by intros [= <-] |].
  destruct (act s a) as [s1 |] eqn:E; [| done]. cbn [mbind option_bind]. apply IH. eapply trn_next; [done | by eapply act_step].
Qed.

(** Transfer 1 is running; then it is asked to stop, and polls. *)
Definition ex_started : list Action := ASpawn (ThAcquire (str "docs") 2 100) :: repeat (AMove 0) 11.
Definition ex_cancelled : list Action := ex_started ++ [ASpawn (ThCancel 1); AMove 1; AMove 1; AMove 1].

Definition ex_state (l : list Action) : TState := default TState_new (acts TState_new l).

Lemma ex_reachable l : bool_decide (is_Some (acts TState_new l)) = true -> transfer_reachable (ex_state l).
Proof. intros [s Hs]%bool_decide_eq_true. unfold ex_state. rewrite Hs. by eapply acts_run. Qed.

Lemma transfer_cancel_exact_witness :
  ts_confirmed (ex_state ex_cancelled) = [1] /\
  forall s' l1 l2 read, transfer_run (ex_state ex_cancelled) s' -> ts_threads s' = l1 ++ ThPoll 1 read :: l2 ->
    forall o s'', thread_step s' (ThPoll 1 read) o s'' -> 1 ∈ ts_stopped s''.
Proof.
  split; [vm_compute; reflexivity |].
  assert (Hr : transfer_reachable (ex_state ex_cancelled)) by (apply ex_reachable; vm_compute; reflexivity).
  destruct (transfer_cancel_exact (ex_state ex_cancelled) Hr) as (_ & _ & _ & _ & _ & Hk).
  assert (Ht : ts_threads (ex_state ex_cancelled) = [ThHolds 1]) by (vm_compute; reflexivity).
  intros s' l1 l2 read. apply (Hk 1 s' (ThHolds 1)); [rewrite Ht; by left | done | vm_compute; reflexivity |].
  intros n Hn. rewrite Ht in Hn. by apply list_elem_of_singleton in Hn.
Defined.

(** A cancel that falls between the two first stores of [acquire] is answered [true]
    and then erased: the transfer runs on with no request in place. *)
Definition ex_early : list Action :=
  ASpawn (ThAcquire [] 0 0) :: repeat (AMove 0) 3 ++ [ASpawn (ThCancel 1); AMove 1; AMove 1; AMove 1] ++ repeat (AMove 0) 8.

Example cancel_lost_at_start :
  let s := ex_state ex_early in
  transfer_reachable s /\ ts_confirmed s = [1] /\ ts_threads s = [ThHolds 1] /\ tr_cancel (ts_control s) = 0.
Proof. cbv zeta. split; [apply ex_reachable |]; vm_compute; auto. Qed.

(** A cancel of transfer 1 that stalls between its check and its store writes over the
    confirmed cancel of transfer 2. *)
Definition ex_late : list Action :=
  ex_started ++ [ASpawn (ThCancel 1); AMove 1; ADrop 0] ++ repeat (AMove 0) 10 ++ [ASpawn (ThAcquire [] 0 0)] ++
  repeat (AMove 1) 11 ++ [ASpawn (ThCancel 2); AMove 2; AMove 2; AMove 2; AMove 0].

Example late_cancel_overwrites :
  let s := ex_state ex_late in
  transfer_reachable s /\ ts_confirmed s = [2] /\ ts_threads s = [ThCancelCheck 1; ThHolds 2] /\ tr_cancel (ts_control s) = 1.
Proof. cbv zeta. split; [apply ex_reachable |]; vm_compute; auto. Qed.
