(* ===== verification/Fallback.v ===== *)
(** * Ways to an agent (xr-core/src/sync.rs)

    A share is reached at one of several direct addresses or through the relay. An
    operation runs at the first address that answers as the agent would; errors are
    texts, and their beginnings decide. What a probe and an operation answer at the
    [i]-th address are arguments; the rest of an error text is kept as [detail]. *)

From S2P Require Import Prelude Text Share.

Definition is_unreachable (err : bytes) : bool := starts_with (str "network:") err.

(** [s.parse::<u16>()]. *)
Definition parse_u16 (s : bytes) : option Z := v ← parse_u32 s; if v <=? U16_MAX then Some v else None.

Definition http_status (err : bytes) : option Z := s ← strip_prefix (str "http_") err; parse_u16 s.

Definition should_try_next (err : bytes) : bool :=
  is_unreachable err || starts_with (str "manifest_signature") err || bool_decide (err = str "manifest_unsigned") ||
  starts_with (str "parse:") err || starts_with (str "read:") err || starts_with (str "sha256 mismatch") err ||
  match http_status err with Some code => (code =? 404) || ((500 <=? code) && (code <? 600)) | None => false end.

Definition split_candidates (agent_url : bytes) : list bytes :=
  List.filter (fun s => negb (bool_decide (s = []))) (map trim (split 10 agent_url)).

Definition grant_direct_bases (g : ShareGrant) : list bytes :=
  map (fun a => str "http://" ++ a ++ str ":" ++ show_dec (sg_port g) ++ str "/" ++ sg_share_id g) (candidate_addrs g).

Definition ERR_AGENT_OFFLINE : bytes := str "agent_offline: агент шары не на связи".

Definition map_relay_outcome {T} (out : result T bytes) (agent_offline : bool) : result T bytes :=
  match out with
  | Err e => if is_unreachable e && agent_offline then Err ERR_AGENT_OFFLINE else out
  | Ok _ => out
  end.

(** The relay leg: whether it comes up, the pinned client, what the operation answers
    over it and whether the forwarder found the agent gone. *)
Record RelayWay (T : Type) := {
  rw_open : result unit bytes; rw_client : result unit bytes; rw_answer : result T bytes; rw_agent_offline : bool
}.
Arguments rw_open {T}. Arguments rw_client {T}. Arguments rw_answer {T}. Arguments rw_agent_offline {T}.

Inductive Way := WDirect (i : nat) | WRelay.

Section fallback.
Context {T : Type}.
Context (probe : nat -> bool) (client : nat -> result unit bytes) (op : nat -> result T bytes).

Definition unreachable_at (base : bytes) : bytes := str "network: по адресу " ++ base ++ str " агент шары не отвечает".

(** The loop over the candidates: the operations that ran, then the answer, or the
    last error when all are used up. *)
Fixpoint direct_loop (i : nat) (candidates : list bytes) (has_relay : bool) (last_err : option bytes) :
    list Way * (result T bytes + option bytes) :=
  match candidates with
  | [] => ([], inr last_err)
  | base :: rest =>
      let more_after := negb (bool_decide (length rest = 0%nat)) || has_relay in
      if more_after && negb (probe i) then direct_loop (S i) rest has_relay (Some (unreachable_at base)) else
      match client i with
      | Err e => ([], inl (Err e))
      | Ok _ =>
          match op i with
          | Ok v => ([WDirect i], inl (Ok v))
          | Err e =>
              if should_try_next e then
                let '(ways, r) := direct_loop (S i) rest has_relay (Some e) in (WDirect i :: ways, r)
              else ([WDirect i], inl (Err e))
          end
      end
  end.

Definition NO_WAY : bytes := str "network: прямой путь недоступен, relay не задан".

Definition relay_leg (w : RelayWay T) : list Way * result T bytes :=
  match rw_open w with
  | Err e => ([], Err e)
  | Ok _ =>
      match rw_client w with
      | Err e => ([], Err e)
      | Ok _ => ([WRelay], map_relay_outcome (rw_answer w) (rw_agent_offline w))
      end
  end.

Definition direct_then_relay (candidates : list bytes) (relay : option (RelayWay T)) : list Way * result T bytes :=
  match direct_loop 0 candidates (bool_decide (is_Some relay)) None with
  | (ways, inl r) => (ways, r)
  | (ways, inr last_err) =>
      match relay with
      | None => (ways, Err (default NO_WAY last_err))
      | Some w => let '(more, r) := relay_leg w in (ways ++ more, r)
      end
  end.

(** ** The way that is taken *)

(** The [i]-th of [n] candidates gives way to the next one. *)
Definition skipped (n : nat) (has_relay : bool) (i : nat) : Prop :=
  ((S i < n)%nat \/ has_relay = true) /\ probe i = false \/
  (probe i = true \/ ((n <= S i)%nat /\ has_relay = false)) /\ client i = Ok tt /\ exists e, op i = Err e /\ should_try_next e = true.

Definition ran (n : nat) (has_relay : bool) (i : nat) : bool := probe i || (negb has_relay && bool_decide (n <= S i)%nat).

Lemma unreachable_next base : should_try_next (unreachable_at base) = true.
Proof. unfold should_try_next, is_unreachable, unreachable_at. done. Qed.

(** What a run of the loop over the candidates [i ..< n] has done. *)
Definition loop_done (i n : nat) (has_relay : bool) (ways : list Way) (r : result T bytes + option bytes) : Prop :=
  exists k, (i <= k <= n)%nat /\ (forall j, (i <= j < k)%nat -> skipped n has_relay j) /\
    (forall j, WDirect j ∈ ways -> (i <= j <= k)%nat /\ ran n has_relay j = true) /\ NoDup ways /\ (WRelay ∉ ways) /\
    match r with
    | inl res => (k < n)%nat /\ ran n has_relay k = true /\
        ((exists e, client k = Err e /\ res = Err e) \/
         (client k = Ok tt /\ res = op k /\ WDirect k ∈ ways /\ forall e, res = Err e -> should_try_next e = false))
    | inr le => k = n /\ ((i < n)%nat -> exists e, le = Some e /\ should_try_next e = true)
    end.

Lemma loop_done_skip i n has_relay ways r :
  skipped n has_relay i -> (i < n)%nat -> (S i = n -> forall le, r = inr le -> exists e, le = Some e /\ should_try_next e = true) ->
  loop_done (S i) n has_relay ways r -> loop_done i n has_relay ways r.
Proof.
  intros Hs Hn Hle (k & H1 & H2 & H3 & H4 & H5 & H6). exists k. split_and!; try done; try lia.
  - intros j Hj. destruct (decide (j = i)) as [-> |]; [done | apply H2; lia].
  - intros j Hj. destruct (H3 j Hj). split; [lia | done].
  - destruct r as [res | le]; [done |]. destruct H6 as [-> H6]. split; [done |]. intros _.
    destruct (decide (S i = n)); [by eapply Hle | apply H6; lia].
Qed.

Lemma loop_done_ran i n has_relay ways r :
  ran n has_relay i = true -> WDirect i ∉ ways -> (i < n)%nat -> loop_done i n has_relay ways r ->
  loop_done i n has_relay (WDirect i :: ways) r.
Proof.
  intros Hr Hnin Hn (k & H1 & H2 & H3 & H4 & H5 & H6). exists k. split_and!; try done; try lia.
  - intros j [[= ->] | Hj]%elem_of_cons; [split; [lia | done] | by apply H3].
  - by apply NoDup_cons.
  - by intros [? | ?]%elem_of_cons.
  - destruct r as [res | le]; [| done]. destruct H6 as (? & ? & [? | (? & ? & ? & ?)]); split_and!; try done; [by left | right].
    split_and!; try done. by right.
Qed.

Lemma direct_loop_spec i cs has_relay last_err ways r :
  direct_loop i cs has_relay last_err = (ways, r) -> loop_done i (i + length cs) has_relay ways r /\
  (cs = [] -> r = inr last_err) /\ (forall j, WDirect j ∈ ways -> (i <= j)%nat).
Proof.
  revert i last_err ways. induction cs as [| base cs IH]; intros i last_err ways; cbn [direct_loop length].
  { intros [= <- <-]. split_and!; [| done | by intros j ?%elem_of_nil]. exists i.
    split_and!; try lia; [by intros j ?%elem_of_nil | constructor | apply not_elem_of_nil]. }
  replace (i + S (length cs))%nat with (S i + length cs)%nat by lia. set (n := (S i + length cs)%nat) in *. intros H.
  assert (Hmore : negb (bool_decide (length cs = 0%nat)) || has_relay = true <-> (S i < n)%nat \/ has_relay = true).
  { rewrite orb_true_iff, negb_true_iff, bool_decide_eq_false. unfold n. split; intros [? | ?]; auto; left; lia. }
  assert (Hin : (i < n)%nat) by (unfold n; lia).
  destruct ((negb (bool_decide (length cs = 0%nat)) || has_relay) && negb (probe i)) eqn:Ep.
  - apply andb_true_iff in Ep as [Ha%Hmore Hb%negb_true_iff]. apply IH in H as (H1 & H2 & H3).
    split_and!; [| done | intros j Hj%H3; lia]. apply loop_done_skip; try done; [by left |].
    intros En le ->. destruct cs; [| cbn in n; unfold n in En; lia]. injection (H2 eq_refl) as ->.
    eexists. split; [done | apply unreachable_next].
  - assert (Hran : ran n has_relay i = true).
    { unfold ran. destruct (probe i); [done |]. rewrite andb_true_r in Ep. apply orb_false_iff in Ep as [E1 ->].
      apply negb_false_iff, bool_decide_eq_true in E1. cbn. apply bool_decide_eq_true. unfold n. lia. }
    assert (Hlocal : forall w res, NoDup w -> (WRelay ∉ w) -> (forall j, WDirect j ∈ w -> j = i) ->
      ((exists e, client i = Err e /\ res = Err e) \/
         (client i = Ok tt /\ res = op i /\ WDirect i ∈ w /\ forall e, res = Err e -> should_try_next e = false)) ->
      loop_done i n has_relay w (inl res) /\ (base :: cs = [] -> @inl _ (option bytes) res = inr last_err) /\
      (forall j, WDirect j ∈ w -> (i <= j)%nat)).
    { intros w res Hw1 Hw2 Hw3 Hres. split_and!; [| done | intros j ->%Hw3; lia]. exists i.
      split_and!; try done; try lia. intros j ->%Hw3. split; [lia | done]. }
    destruct (client i) as [[] | e] eqn:Ec.
    2: { injection H as <- <-. apply Hlocal; [constructor | apply not_elem_of_nil | by intros j ?%elem_of_nil | left; by exists e]. }
    destruct (op i) as [v | e] eqn:Eo.
    { injection H as <- <-. apply Hlocal; [apply NoDup_singleton | by intros ?%list_elem_of_singleton |
        by intros j [= ->]%list_elem_of_singleton | right; split_and!; try done; by left]. }
    destruct (should_try_next e) eqn:En.
    + destruct (direct_loop (S i) cs has_relay (Some e)) as [w r'] eqn:El. injection H as <- <-.
      apply IH in El as (H1 & H2 & H3). split_and!; [| done | intros j [[= ->] | Hj%H3]%elem_of_cons; lia].
      apply loop_done_ran; [done | intros Hj%H3; lia | done |]. apply loop_done_skip; try done.
      * right. split_and!; [| done | by exists e]. unfold ran in Hran. destruct (probe i); [by left | right]. cbn in Hran.
        apply andb_true_iff in Hran as [?%negb_true_iff ?%bool_decide_eq_true]. done.
      * intros Es le ->. destruct cs; [| cbn in n; unfold n in Es; lia]. injection (H2 eq_refl) as ->. by eexists.
    + injection H as <- <-. apply Hlocal; [apply NoDup_singleton | by intros ?%list_elem_of_singleton |
        by intros j [= ->]%list_elem_of_singleton | right; split_and!; try done; [by left | by intros x [= <-]]].
Qed.

Lemma loop_ways_lt i cs has_relay last_err ways r :
  direct_loop i cs has_relay last_err = (ways, r) -> WDirect (i + length cs) ∉ ways.
Proof.
  revert i last_err ways r. induction cs as [| base cs IH]; intros i last_err ways r; cbn [direct_loop length].
  { intros [= <- _]. apply not_elem_of_nil. }
  replace (i + S (length cs))%nat with (S i + length cs)%nat by lia. destruct (_ && negb _); [apply IH |].
  destruct (client i); [| intros [= <- _]; apply not_elem_of_nil].
  destruct (op i) as [v | e]; [intros [= <- _] [= E]%list_elem_of_singleton; lia |].
  destruct (should_try_next e); [| intros [= <- _] [= E]%list_elem_of_singleton; lia].
  destruct (direct_loop (S i) cs has_relay (Some e)) as [w r'] eqn:El. intros [= <- _] [[= E] | Hw]%elem_of_cons; [lia |].
  by apply (IH _ _ _ _ El).
Qed.

Lemma relay_leg_ways w : (relay_leg w).1 = [] \/ (relay_leg w).1 = [WRelay].
Proof. unfold relay_leg. destruct (rw_open w); [| by left]. destruct (rw_client w); [by right | by left]. Qed.

Lemma direct_then_relay_spec candidates relay ways r :
  direct_then_relay candidates relay = (ways, r) ->
  let n := length candidates in
  let has_relay := bool_decide (is_Some relay) in
  NoDup ways /\ (forall j, WDirect j ∈ ways -> (j < n)%nat /\ ran n has_relay j = true) /\
  exists k, (k <= n)%nat /\ (forall j, (j < k)%nat -> skipped n has_relay j) /\
    (((k < n)%nat /\ (WRelay ∉ ways) /\ ran n has_relay k = true /\
      ((exists e, client k = Err e /\ r = Err e) \/ (r = op k /\ forall e, r = Err e -> should_try_next e = false))) \/
     (k = n /\ relay = None /\ exists e, r = Err e /\ should_try_next e = true) \/
     (k = n /\ exists w, relay = Some w /\ r = (relay_leg w).2)).
Proof.
  intros H n has_relay. unfold direct_then_relay in H. fold has_relay in H.
  destruct (direct_loop 0 candidates has_relay None) as [ws res] eqn:El.
  pose proof (direct_loop_spec _ _ _ _ _ _ El) as ((k & H1 & H2 & H3 & H4 & H5 & H6) & H0 & _). change (0 + length candidates)%nat with n in H1, H2, H3, H6.
  assert (Hd : forall j, WDirect j ∈ ws -> (k <= n)%nat -> (k < n)%nat \/ (j < k)%nat -> (j < n)%nat /\ ran n has_relay j = true).
  { intros j Hj Hk Hor. destruct (H3 j Hj) as [[_ Hle] Hr]. split; [lia | done]. }
  destruct res as [res | le].
  - injection H as <- <-. destruct H6 as (Hk & Hr & Hres). split_and!; [done | intros j Hj; apply Hd; [done | lia | by left] |].
    exists k. split_and!; [lia | intros; apply H2; lia |]. left. split_and!; try done.
    destruct Hres as [? | (? & ? & ? & ?)]; [by left | by right].
  - destruct H6 as [-> Hle].
    assert (Hlt : forall j, WDirect j ∈ ws -> (j < n)%nat /\ ran n has_relay j = true).
    { intros j Hj. destruct (H3 j Hj) as [[_ Hj'] Hr]. split; [| done].
      destruct (decide (j = n)) as [-> |]; [| lia]. exfalso. by eapply (loop_ways_lt 0 candidates has_relay None ws (inr le)). }
    destruct relay as [w |].
    + destruct (relay_leg w) as [more r'] eqn:Ew. injection H as <- <-. pose proof (relay_leg_ways w) as Hm. rewrite Ew in Hm. cbn in Hm.
      split_and!.
      * apply NoDup_app. split_and!; [done | | destruct Hm as [-> | ->]; [constructor | apply NoDup_singleton]].
        intros x Hx Hx'. destruct Hm as [-> | ->]; [by apply elem_of_nil in Hx' |]. by apply list_elem_of_singleton in Hx' as ->.
      * intros j [Hj | Hj]%elem_of_app; [by apply Hlt |]. destruct Hm as [-> | ->]; [by apply elem_of_nil in Hj | by apply list_elem_of_singleton in Hj].
      * exists n. split_and!; [lia | intros; apply H2; lia |]. right. right. split; [done |]. exists w. by rewrite Ew.
    + injection H as <- <-. split_and!; [done | done |]. exists n. split_and!; [lia | intros; apply H2; lia |].
      right. left. split_and!; [done | done |]. eexists. split; [done |]. destruct candidates as [| c cs].
      * injection (H0 eq_refl) as ->. vm_compute. reflexivity.
      * destruct Hle as (e & -> & He); [cbn in n; unfold n; lia | done].
Qed.
End fallback.

(** ** Which answers are final *)

Definition http_error (code : Z) : bytes := str "http_" ++ show_dec code.

Lemma codes_checked :
  forallb (fun code => Bool.eqb (should_try_next (http_error code)) ((code =? 404) || ((500 <=? code) && (code <? 600))))
    (seqZ 100 900) = true.
Proof. vm_compute. reflexivity. Qed.

(** Of the HTTP statuses only 404 and 5xx are taken for somebody else's answer. *)
Lemma http_final code : 100 <= code < 1000 ->
  should_try_next (http_error code) = (code =? 404) || ((500 <=? code) && (code <? 600)).
Proof.
  intros Hc. pose proof codes_checked as H. rewrite forallb_forall in H. apply Bool.eqb_prop, H.
  apply list_elem_of_In, elem_of_seqZ. lia.
Qed.

(** which way an operation takes. The ways are tried in the order given and each at
    most once; a candidate is skipped only when it does not answer the probe while there
    is another way, or answers as the agent would not (no contact, a foreign page, a
    wrong signature or hash, 404, 5xx); the first other answer is the result, error or
    not; the relay is used only when every candidate was skipped, and without a relay
    the result is then an error that says so. The agent's own refusals (401, 403, 412,
    413, 422, 429) are final. *)
Theorem fallback_exact {T} (probe : nat -> bool) (client : nat -> result unit bytes) (op : nat -> result T bytes)
    (candidates : list bytes) (relay : option (RelayWay T)) :
  (forall ways r, direct_then_relay probe client op candidates relay = (ways, r) ->
   let n := length candidates in
   let has_relay := bool_decide (is_Some relay) in
   NoDup ways /\ (forall j, WDirect j ∈ ways -> (j < n)%nat /\ ran probe n has_relay j = true) /\
   exists k, (k <= n)%nat /\ (forall j, (j < k)%nat -> skipped probe client op n has_relay j) /\
     (((k < n)%nat /\ (WRelay ∉ ways) /\ ran probe n has_relay k = true /\
       ((exists e, client k = Err e /\ r = Err e) \/ (r = op k /\ forall e, r = Err e -> should_try_next e = false))) \/
      (k = n /\ relay = None /\ exists e, r = Err e /\ should_try_next e = true) \/
      (k = n /\ exists w, relay = Some w /\ r = (relay_leg w).2))) /\
  Forall (fun code => should_try_next (http_error code) = false) [401; 403; 412; 413; 422; 429].
Proof.
  split; [apply direct_then_relay_spec |]. repeat (apply Forall_cons; split); [vm_compute; reflexivity .. | by apply Forall_nil].
Qed.

(** ** The manifest at an address *)

(** What comes back for [GET /manifest]; [None] is no contact, no body a failed read. *)
Record ManifestAnswer := {
  fa_status : Z; fa_sig : option bytes; fa_signed_at : option Z; fa_body : option bytes
}.

Section manifest.
Context `{Base64} `{Ed25519}.
Context (parse : bytes -> option ShareManifest) (detail : bytes).

Definition fetch_manifest_with (share_id agent_pubkey : bytes) (answer : option ManifestAnswer) : result ShareManifest bytes :=
  match answer with
  | None => Err (str "network: " ++ detail)
  | Some a =>
      if negb ((200 <=? fa_status a) && (fa_status a <? 300)) then Err (http_error (fa_status a)) else
      match fa_body a with
      | None => Err (str "read: " ++ detail)
      | Some body =>
          let parsed := match parse body with Some mf => Ok mf | None => Err (str "parse: " ++ detail) end in
          if bool_decide (agent_pubkey = []) then parsed else
          match parse_agent_pubkey agent_pubkey with
          | Err _ => Err (str "agent_pubkey: " ++ detail)
          | Ok key =>
              match fa_sig a, fa_signed_at a with
              | Some sig, Some signed_at =>
                  match verify_share_manifest sig key share_id signed_at body with
                  | Ok _ => parsed
                  | Err _ => Err (str "manifest_signature: " ++ detail)
                  end
              | _, _ => Err (str "manifest_unsigned")
              end
          end
      end
  end.

Lemma fetch_manifest_signed share_id agent_pubkey answer mf :
  agent_pubkey <> [] -> fetch_manifest_with share_id agent_pubkey answer = Ok mf ->
  exists a key sig t body, answer = Some a /\ fa_sig a = Some sig /\ fa_signed_at a = Some t /\ fa_body a = Some body /\
    parse_agent_pubkey agent_pubkey = Ok key /\ verify_share_manifest sig key share_id t body = Ok tt /\ parse body = Some mf.
Proof.
  intros Hk. unfold fetch_manifest_with. destruct answer as [a |]; [| done]. destruct (negb _); [done |].
  destruct (fa_body a) as [body |] eqn:Eb; [| done]. rewrite bool_decide_false by done.
  destruct (parse_agent_pubkey agent_pubkey) as [key |]; [| done]. destruct (fa_sig a) as [sig |] eqn:Es; [| done].
  destruct (fa_signed_at a) as [t |] eqn:Et; [| done].
  destruct (verify_share_manifest sig key share_id t body) as [[] |] eqn:Ev; [| done].
  destruct (parse body) as [mf' |] eqn:Ep; [| done]. intros [= <-]. by exists a, key, sig, t, body.
Qed.

(** C16: a stranger cannot serve the manifest. With a pinned agent key, whatever answers
    at the candidate addresses and over the relay, a manifest that is returned is the
    content of a body that this agent signed for this share, as long as the signature
    that came with it is not a forgery. A missing or foreign signature sends the
    operation on to the next way. *)
Theorem manifest_pinned share_id agent_pubkey probe client answers candidates relay ways mf agent_key signed :
  agent_pubkey <> [] -> 10 ∉ share_id -> parse_agent_pubkey agent_pubkey = Ok agent_key -> Forall agent_ok signed ->
  (forall i a sig, answers i = Some a -> fa_sig a = Some sig -> genuine agent_key (map agent_bytes signed) sig) ->
  (forall i a t, answers i = Some a -> fa_signed_at a = Some t -> 0 <= t < 2 ^ 64) ->
  (forall w, relay = Some w -> exists i, rw_answer w = fetch_manifest_with share_id agent_pubkey (answers i)) ->
  direct_then_relay probe client (fun i => fetch_manifest_with share_id agent_pubkey (answers i)) candidates relay = (ways, Ok mf) ->
  exists t body, AManifest share_id t body ∈ signed /\ parse body = Some mf.
Proof.
  intros Hk Hs Hkey Hok Hgen Ht Hrel (_ & _ & k & _ & _ & Hcase)%direct_then_relay_spec.
  assert (Hfrom : exists i, fetch_manifest_with share_id agent_pubkey (answers i) = Ok mf).
  { destruct Hcase as [(_ & _ & _ & [(e & _ & ?) | [E _]]) | [(_ & _ & e & ? & _) | (_ & w & Ew & E)]]; try done; [by exists k |].
    destruct (Hrel w Ew) as [i Ei]. exists i. unfold relay_leg in E. destruct (rw_open w); [| done]. destruct (rw_client w); [| done].
    cbn [snd] in E. rewrite Ei in E. unfold map_relay_outcome in E.
    destruct (fetch_manifest_with share_id agent_pubkey (answers i)); [done |]. by destruct (_ && _). }
  destruct Hfrom as [i Hi]. apply fetch_manifest_signed in Hi as (a & key & sig & t & body & Ea & Es & Et & Eb & Ek & Ev & Ep); [| done].
  exists t, body. split; [| done]. assert (key = agent_key) as -> by congruence.
  eapply (agent_signed (AManifest _ _ _)); [split; [done | by eapply Ht] | done |]. eapply check_genuine; [by eapply Hgen | exact Ev].
Qed.

End manifest.

(** ** A witness: a stranger at the first address, the agent at the second *)

Definition ex_agent : bytes := repeat 7 32.
Definition ex_body : bytes := str "{}".
Definition ex_parse (b : bytes) : option ShareManifest := if bool_decide (b = ex_body) then Some {| entries := [] |} else None.
Definition ex_sig : bytes := @b64_encode toy_base64 (toy_sign ex_agent (manifest_signing_bytes (str "s1") 9 ex_body)).
Definition ex_answer (i : nat) : option ManifestAnswer :=
  match i with
  | O => Some {| fa_status := 200; fa_sig := None; fa_signed_at := None; fa_body := Some ex_body |}
  | _ => Some {| fa_status := 200; fa_sig := Some ex_sig; fa_signed_at := Some 9; fa_body := Some ex_body |}
  end.

Lemma ex_sig_genuine : @genuine toy_base64 toy_ed25519 ex_agent (map agent_bytes [AManifest (str "s1") 9 ex_body]) ex_sig.
Proof.
  intros s m Hd Hv. unfold ex_sig in Hd. rewrite (@decode_signed toy_base64 toy_ed25519) in Hd.
  injection Hd as <-. apply bool_decide_eq_true in Hv. symmetry in Hv.
  apply toy_sign_inj in Hv as ->; [by left | by_compute | vm_compute; lia].
Qed.

Lemma manifest_pinned_witness :
  direct_then_relay (fun _ => true) (fun _ => Ok tt)
    (fun i => @fetch_manifest_with toy_base64 toy_ed25519 ex_parse [] (str "s1") (toy_encode ex_agent) (ex_answer i))
    [str "http://10.0.0.2:80/s1"; str "http://192.0.2.7:80/s1"] None = ([WDirect 0; WDirect 1], Ok {| entries := [] |}) /\
  exists t body, AManifest (str "s1") t body ∈ [AManifest (str "s1") 9 ex_body] /\ ex_parse body = Some {| entries := [] |}.
Proof.
  match goal with |- ?E /\ _ => assert (H : E) by (vm_compute; reflexivity) end. split; [exact H |].
  refine (@manifest_pinned toy_base64 toy_ed25519 ex_parse [] (str "s1") (toy_encode ex_agent) (fun _ => true) (fun _ => Ok tt)
    ex_answer _ None _ _ ex_agent [AManifest (str "s1") 9 ex_body] _ _ _ _ _ _ _ H).
  - by vm_compute.
  - by_compute.
  - vm_compute. reflexivity.
  - apply Forall_singleton. split; [by_compute | lia].
  - intros [| i] a sig [= <-]; cbn [fa_sig]; [done |]. intros [= <-]. apply ex_sig_genuine.
  - intros [| i] a t [= <-]; cbn [fa_signed_at]; [done |]. intros [= <-]. lia.
  - done.
Defined.
