(* ===== verification/ClientUdp.v ===== *)
(** * The UDP relay of the router (xr-client/src/udp_relay.rs)

    Datagrams of LAN devices go through one tunnel to the server; the tunnel port is
    the whole address translation: it is drawn per device, and the answer finds its
    device by it. The table of flows, the cache of spoofing sockets and the two loops;
    sockets are what the loops are given and what they send. A datagram is one step: the
    two locks are held for a moment each. Instants are milliseconds; [duration_since]
    of a later instant is zero. *)

From S2P Require Import Prelude Text Net Obfuscation UdpRelay Chan UdpServer.

Definition TUNNEL_PORT_POOL : Z * Z := (40000, 65000).

Record UdpFlow := { uf_src_addr : SocketAddr; uf_last_activity : Z }.

Record FlowTable := { ft_flows : gmap Z UdpFlow; ft_ports : gmap SocketAddr Z; ft_pool : Z * Z }.

Definition FlowTable_new (pool : Z * Z) : FlowTable := {| ft_flows := ∅; ft_ports := ∅; ft_pool := pool |}.

(** The range of the pool, both ends included. *)
Definition pool_ports (pool : Z * Z) : list Z := seqZ pool.1 (pool.2 - pool.1 + 1).

Definition allocate (t : FlowTable) (preferred : Z) : option Z :=
  if negb (preferred =? 0) && bool_decide (ft_flows t !! preferred = None) then Some preferred
  else List.find (fun p => bool_decide (ft_flows t !! p = None)) (pool_ports (ft_pool t)).

Definition touch_flow (f : UdpFlow) (now : Z) : UdpFlow := {| uf_src_addr := uf_src_addr f; uf_last_activity := now |}.

Definition touch (t : FlowTable) (src_addr : SocketAddr) (now : Z) : FlowTable * option Z :=
  match ft_ports t !! src_addr with
  | Some port =>
      ({| ft_flows := alter (fun f => touch_flow f now) port (ft_flows t); ft_ports := ft_ports t; ft_pool := ft_pool t |},
       Some port)
  | None =>
      match allocate t (sock_port src_addr) with
      | None => (t, None)
      | Some port =>
          ({| ft_flows := <[port := {| uf_src_addr := src_addr; uf_last_activity := now |}]> (ft_flows t);
              ft_ports := <[src_addr := port]> (ft_ports t); ft_pool := ft_pool t |}, Some port)
      end
  end.

Definition upstream_packet (t : FlowTable) (src_addr orig_dst : SocketAddr) (payload : bytes) (now : Z) :
    FlowTable * option RelayPacket :=
  let '(t, port) := touch t src_addr now in
  (t, (fun p => {| relay_type := RData; dst := orig_dst; src_port := p; relay_payload := payload |}) <$> port).

(** Whom the answer goes to, and the sender it is made to come from. *)
Definition downstream_target (t : FlowTable) (packet : RelayPacket) (now : Z) :
    FlowTable * option (SocketAddr * SocketAddr) :=
  match ft_flows t !! src_port packet with
  | None => (t, None)
  | Some flow =>
      ({| ft_flows := <[src_port packet := touch_flow flow now]> (ft_flows t); ft_ports := ft_ports t; ft_pool := ft_pool t |},
       Some (uf_src_addr flow, dst packet))
  end.

Definition duration_since (now t : Z) : Z := sat_sub now t.

Definition expired (timeout now : Z) (f : UdpFlow) : bool := timeout <=? duration_since now (uf_last_activity f).

Definition retire_one (t : FlowTable) (port : Z) : FlowTable :=
  match ft_flows t !! port with
  | Some flow =>
      {| ft_flows := delete port (ft_flows t); ft_ports := delete (uf_src_addr flow) (ft_ports t); ft_pool := ft_pool t |}
  | None => t
  end.

Definition retire_expired (t : FlowTable) (timeout now : Z) : FlowTable * nat :=
  let gone := map fst (List.filter (fun x => expired timeout now x.2) (map_to_list (ft_flows t))) in
  (foldl retire_one t gone, length gone).

(** ** Spoofing sockets *)

Record SpoofEntry := { sk_sock : nat; sk_last_used : Z }.

Abbreviation SpoofCache := (gmap SocketAddr SpoofEntry).

Definition SpoofCache_get (c : SpoofCache) (addr : SocketAddr) (now : Z) : SpoofCache * option nat :=
  match c !! addr with
  | None => (c, None)
  | Some e => (<[addr := {| sk_sock := sk_sock e; sk_last_used := now |}]> c, Some (sk_sock e))
  end.

Definition SpoofCache_insert (c : SpoofCache) (addr : SocketAddr) (sock : nat) (now : Z) : SpoofCache :=
  <[addr := {| sk_sock := sock; sk_last_used := now |}]> c.

Definition SpoofCache_retire_idle (c : SpoofCache) (timeout now : Z) : SpoofCache :=
  filter (fun x => (duration_since now (sk_last_used x.2) <? timeout) = true) c.

(** ** What is relayed *)

Definition octet (ip : Z) (i : Z) : Z := (ip / 2 ^ (8 * (3 - i))) mod 256.

Definition is_private_ip (ip : Z) : bool :=
  (octet ip 0 =? 10) || ((octet ip 0 =? 172) && (Z.land (octet ip 1) 0xf0 =? 16)) || ((octet ip 0 =? 192) && (octet ip 1 =? 168)).

Definition v4_is_broadcast (ip : Z) : bool := ip =? 2 ^ 32 - 1.
Definition v4_is_multicast (ip : Z) : bool := ip / 2 ^ 28 =? 14.

Definition should_relay (source_ips : list Z) (exclude_ports : list Z) (src_addr orig_dst : SocketAddr) : bool :=
  let from_ok := match source_ips with
                 | [] => true
                 | _ => match src_addr with SockV4 ip _ => bool_decide (ip ∈ source_ips) | SockV6 _ _ _ _ => false end
                 end in
  from_ok && negb (bool_decide (sock_port orig_dst ∈ exclude_ports)) &&
  match orig_dst with
  | SockV4 ip _ =>
      negb (v4_is_broadcast ip || v4_is_multicast ip || (ip =? 2 ^ 32 - 1) || v4_is_loopback ip || is_private_ip ip)
  | SockV6 _ _ _ _ => true
  end.

(** ** The two loops *)

(** [rs_sockets] numbers the spoofing sockets and remembers what each is bound to. *)
Record RelayState := {
  rs_flows : FlowTable; rs_spoof : SpoofCache; rs_sockets : list SocketAddr; rs_obfuscator : Obfuscator; rs_timeout : Z;
  rs_source_ips : list Z; rs_exclude_ports : list Z
}.

Definition set_relay (s : RelayState) (t : FlowTable) (c : SpoofCache) (socks : list SocketAddr) : RelayState :=
  {| rs_flows := t; rs_spoof := c; rs_sockets := socks; rs_obfuscator := rs_obfuscator s; rs_timeout := rs_timeout s;
     rs_source_ips := rs_source_ips s; rs_exclude_ports := rs_exclude_ports s |}.

Definition RelayState_new (o : Obfuscator) (timeout : Z) (source_ips exclude_ports : list Z) : RelayState :=
  {| rs_flows := FlowTable_new TUNNEL_PORT_POOL; rs_spoof := ∅; rs_sockets := []; rs_obfuscator := o; rs_timeout := timeout;
     rs_source_ips := source_ips; rs_exclude_ports := exclude_ports |}.

(** One datagram from a device: what is sent to the server. *)
Definition upstream {AR : Arch} (nonce : Z) (s : RelayState) (src_addr orig_dst : SocketAddr) (payload : bytes) (now : Z) :
    RelayState * option bytes :=
  if zlen payload =? 0 then (s, None) else
  if negb (should_relay (rs_source_ips s) (rs_exclude_ports s) src_addr orig_dst) then (s, None) else
  let '(t, packet) := upstream_packet (rs_flows s) src_addr orig_dst payload now in
  (set_relay s t (rs_spoof s) (rs_sockets s), encode_relay_packet (rs_obfuscator s) nonce <$> packet).

(** [get_or_create_spoof_socket]; [created] is the answer of the system. *)
Definition spoof_socket (s : RelayState) (addr : SocketAddr) (created : bool) (now : Z) : RelayState * option nat :=
  match SpoofCache_get (rs_spoof s) addr now with
  | (c, Some sock) => (set_relay s (rs_flows s) c (rs_sockets s), Some sock)
  | (_, None) =>
      if created then
        let sock := length (rs_sockets s) in
        (set_relay s (rs_flows s) (SpoofCache_insert (rs_spoof s) addr sock now) (rs_sockets s ++ [addr]), Some sock)
      else (s, None)
  end.

(** One datagram from the server: the socket, the device and the payload that are sent
    on. The outer [None] is a panic of the decoder. *)
Definition downstream {AR : Arch} (s : RelayState) (data : bytes) (created : bool) (now : Z) :
    option (RelayState * option (nat * SocketAddr * bytes)) :=
  if zlen data =? 0 then Some (s, None) else
  r ← decode_relay_packet (rs_obfuscator s) data;
  Some (match r with
  | None => (s, None)
  | Some packet =>
      match relay_type packet with
      | RData =>
          match downstream_target (rs_flows s) packet now with
          | (t, None) => (set_relay s t (rs_spoof s) (rs_sockets s), None)
          | (t, Some (device, from)) =>
              let '(s, sock) := spoof_socket (set_relay s t (rs_spoof s) (rs_sockets s)) from created now in
              (s, (fun k => (k, device, relay_payload packet)) <$> sock)
          end
      | _ => (s, None)
      end
  end).

(** The cleaning task. *)
Definition cleanup (s : RelayState) (now : Z) : RelayState :=
  set_relay s (retire_expired (rs_flows s) (rs_timeout s) now).1 (SpoofCache_retire_idle (rs_spoof s) (rs_timeout s) now)
    (rs_sockets s).

Inductive client_step {AR : Arch} (s : RelayState) : RelayState -> Prop :=
| cl_up nonce src dst payload now : sock_ok src -> client_step s (upstream nonce s src dst payload now).1
| cl_down data created now s' out : downstream s data created now = Some (s', out) -> client_step s s'
| cl_clean now : client_step s (cleanup s now).

Inductive client_run {AR : Arch} : RelayState -> RelayState -> Prop :=
| clr_refl s : client_run s s
| clr_next s s' s'' : client_run s s' -> client_step s' s'' -> client_run s s''.

Definition client_reachable {AR : Arch} (s : RelayState) : Prop :=
  exists o timeout ips ports, client_run (RelayState_new o timeout ips ports) s.

(** ** The table *)

(** Tunnel ports and devices correspond one to one. *)
Record table_ok (t : FlowTable) : Prop := {
  tk_port : forall p f, ft_flows t !! p = Some f -> ft_ports t !! uf_src_addr f = Some p;
  tk_flow : forall a p, ft_ports t !! a = Some p -> exists f, ft_flows t !! p = Some f /\ uf_src_addr f = a;
  tk_range : forall p f, ft_flows t !! p = Some f -> 0 < p < 2 ^ 16;
  tk_pool : ft_pool t = TUNNEL_PORT_POOL
}.

Lemma find_elem {A} (f : A -> bool) l x : List.find f l = Some x -> x ∈ l /\ f x = true.
Proof. intros H. apply find_some in H as [H1 H2]. by split; [apply list_elem_of_In |]. Qed.

Lemma tunnel_allocate_spec t preferred :
  match allocate t preferred with
  | Some p => ft_flows t !! p = None /\ (p = preferred /\ preferred <> 0 \/ p ∈ pool_ports (ft_pool t)) /\
              (preferred <> 0 -> ft_flows t !! preferred = None -> p = preferred)
  | None => (preferred = 0 \/ is_Some (ft_flows t !! preferred)) /\
            forall p, p ∈ pool_ports (ft_pool t) -> is_Some (ft_flows t !! p)
  end.
Proof.
  unfold allocate. destruct (negb (preferred =? 0) && bool_decide (ft_flows t !! preferred = None)) eqn:E.
  - apply andb_true_iff in E as [H1%negb_true_iff%Z.eqb_neq H2%bool_decide_eq_true]. split_and!; auto.
  - apply andb_false_iff in E. rewrite negb_false_iff, Z.eqb_eq, bool_decide_eq_false in E.
    destruct (List.find _ _) as [p |] eqn:Ef.
    + apply find_elem in Ef as [H1 H2%bool_decide_eq_true]. split_and!; [done | by right |]. intros H3 H4. by destruct E.
    + split; [destruct E as [? | ?%not_eq_None_Some]; auto |]. intros p Hp%list_elem_of_In. apply not_eq_None_Some.
      by apply (find_none _ _ Ef), bool_decide_eq_false in Hp.
Qed.

Lemma table_new : table_ok (FlowTable_new TUNNEL_PORT_POOL).
Proof. split; cbn; try done; intros *; by rewrite lookup_empty. Qed.

Lemma touch_table t p now : table_ok t ->
  table_ok {| ft_flows := alter (fun f => touch_flow f now) p (ft_flows t); ft_ports := ft_ports t; ft_pool := ft_pool t |}.
Proof.
  intros Ht. split; cbn [ft_flows ft_ports ft_pool]; [| | | apply Ht].
  - intros q f. rewrite lookup_alter_Some. intros [(-> & g & Hg & ->) | [_ Hf]]; [by apply (tk_port t Ht q g) | by apply (tk_port t Ht)].
  - intros a q (f & Hf & Ha)%(tk_flow t Ht). destruct (decide (p = q)) as [-> | Hne].
    + exists (touch_flow f now). by rewrite lookup_alter_eq, Hf.
    + exists f. by rewrite lookup_alter_ne.
  - intros q f. rewrite lookup_alter_Some. intros [(-> & g & Hg & _) | [_ Hf]]; by eapply (tk_range t Ht).
Qed.

Lemma pool_range p : p ∈ pool_ports TUNNEL_PORT_POOL -> 0 < p < 2 ^ 16.
Proof. unfold pool_ports. rewrite elem_of_seqZ. cbn. lia. Qed.

Lemma tunnel_touch_ok t a now : table_ok t -> sock_ok a -> table_ok (touch t a now).1.
Proof.
  intros Ht Ha. unfold touch. destruct (ft_ports t !! a) as [p |] eqn:Ep; [by apply touch_table |].
  pose proof (tunnel_allocate_spec t (sock_port a)) as Hal. destruct (allocate t (sock_port a)) as [p |]; [| done].
  destruct Hal as (Hfree & Hsrc & _). cbn [fst].
  assert (Hr : 0 < p < 2 ^ 16).
  { destruct Hsrc as [[-> Hn0] | Hp]; [| rewrite (tk_pool t Ht) in Hp; by apply pool_range]. destruct a; cbn in *; lia. }
  split; cbn [ft_flows ft_ports ft_pool]; [| | | apply Ht].
  - intros q f [[<- <-] | [Hne Hf]]%lookup_insert_Some; cbn [uf_src_addr]; [apply lookup_insert_eq |].
    rewrite lookup_insert_ne; [by apply (tk_port t Ht) |]. intros E. apply (tk_port t Ht) in Hf. congruence.
  - intros b q [[<- <-] | [Hne Hb]]%lookup_insert_Some; [eexists; by rewrite lookup_insert_eq |].
    destruct (tk_flow t Ht b q Hb) as (f & Hf & Hfb). exists f. rewrite lookup_insert_ne by congruence. done.
  - intros q f [[<- <-] | [Hne Hf]]%lookup_insert_Some; [done | by eapply (tk_range t Ht)].
Qed.

Lemma retire_one_ok t p : table_ok t -> table_ok (retire_one t p).
Proof.
  intros Ht. unfold retire_one. destruct (ft_flows t !! p) as [f |] eqn:Ef; [| done].
  split; cbn [ft_flows ft_ports ft_pool]; [| | | apply Ht].
  - intros q g [Hne Hg]%lookup_delete_Some. apply lookup_delete_Some. split; [| by apply (tk_port t Ht)].
    intros E. apply Hne. pose proof (tk_port t Ht p f Ef) as H1. pose proof (tk_port t Ht q g Hg) as H2. congruence.
  - intros a q [Hne Ha]%lookup_delete_Some. destruct (tk_flow t Ht a q Ha) as (g & Hg & Hga). exists g.
    split; [| done]. apply lookup_delete_Some. split; [| done]. intros ->. congruence.
  - intros q g [_ Hg]%lookup_delete_Some. by eapply (tk_range t Ht).
Qed.

Lemma retire_fold t gone : table_ok t ->
  table_ok (foldl retire_one t gone) /\
  (forall p, ft_flows (foldl retire_one t gone) !! p = if bool_decide (p ∈ gone) then None else ft_flows t !! p).
Proof.
  revert t. induction gone as [| q gone IH]; intros t Ht; cbn [foldl]; [done |].
  destruct (IH (retire_one t q) (retire_one_ok t q Ht)) as [H1 H2]. split; [done |]. intros p. rewrite H2.
  assert (Hq : ft_flows (retire_one t q) !! p = if bool_decide (p = q) then None else ft_flows t !! p).
  { unfold retire_one. case_bool_decide as E; [subst |]; destruct (ft_flows t !! q) as [f |] eqn:Ef; cbn [ft_flows];
      [apply lookup_delete_eq | done | by rewrite lookup_delete_ne | done]. }
  rewrite Hq. destruct (decide (p ∈ gone)) as [Hg | Hg].
  - rewrite !(bool_decide_true (_ ∈ _)) by (done || by right). done.
  - rewrite (bool_decide_false (p ∈ gone)) by done.
    destruct (decide (p = q)) as [-> | Hne].
    + rewrite !bool_decide_true by (done || by left). done.
    + rewrite !bool_decide_false by (done || by intros [? | ?]%elem_of_cons). done.
Qed.

Lemma retire_spec t timeout now : table_ok t ->
  table_ok (retire_expired t timeout now).1 /\
  forall p f, ft_flows (retire_expired t timeout now).1 !! p = Some f <->
    ft_flows t !! p = Some f /\ duration_since now (uf_last_activity f) < timeout.
Proof.
  intros Ht. unfold retire_expired. cbn [fst].
  set (gone := map fst (List.filter (fun x => expired timeout now x.2) (map_to_list (ft_flows t)))).
  destruct (retire_fold t gone Ht) as [H1 H2]. split; [done |]. intros p f. rewrite H2.
  assert (Hg : p ∈ gone <-> exists g, ft_flows t !! p = Some g /\ expired timeout now g = true).
  { unfold gone. rewrite list_elem_of_fmap. split.
    - intros ([q g] & -> & Hin). apply list_elem_of_In, filter_In in Hin as [Hin He].
      apply list_elem_of_In, elem_of_map_to_list in Hin. by exists g.
    - intros (g & Hg & He). exists (p, g). split; [done |]. apply list_elem_of_In, filter_In. split; [| done].
      by apply list_elem_of_In, elem_of_map_to_list. }
  unfold expired in Hg. case_bool_decide as Hin.
  - apply Hg in Hin as (g & Hp & He%Z.leb_le). split; [done |]. intros [? ?]. simplify_eq. lia.
  - split; [| tauto]. intros Hp. split; [done |]. apply Z.nle_gt. intros He%Z.leb_le. apply Hin, Hg. by exists f.
Qed.

(** ** Runs *)

(** A cached socket is bound to its address. *)
Definition spoof_ok (s : RelayState) : Prop :=
  forall a e, rs_spoof s !! a = Some e -> rs_sockets s !! sk_sock e = Some a.

Record client_inv (s : RelayState) : Prop := { ci_table : table_ok (rs_flows s); ci_spoof : spoof_ok s }.

Lemma downstream_target_ok t packet now : table_ok t -> table_ok (downstream_target t packet now).1.
Proof.
  intros Ht. unfold downstream_target. destruct (ft_flows t !! src_port packet) as [f |] eqn:E; [| done]. cbn [fst].
  replace (<[src_port packet := touch_flow f now]> (ft_flows t)) with (alter (fun f => touch_flow f now) (src_port packet) (ft_flows t));
    [by apply touch_table |].
  apply map_eq. intros p. destruct (decide (src_port packet = p)) as [<- | Hne].
  - by rewrite lookup_alter_eq, lookup_insert_eq, E.
  - by rewrite lookup_alter_ne, lookup_insert_ne.
Qed.

Lemma spoof_socket_ok s a created now : spoof_ok s ->
  spoof_ok (spoof_socket s a created now).1 /\ rs_flows (spoof_socket s a created now).1 = rs_flows s /\
  (forall k, (spoof_socket s a created now).2 = Some k -> rs_sockets (spoof_socket s a created now).1 !! k = Some a) /\
  (created = true -> is_Some (spoof_socket s a created now).2).
Proof.
  intros Hs. unfold spoof_socket, SpoofCache_get, SpoofCache_insert. destruct (rs_spoof s !! a) as [e |] eqn:E.
  - cbn. split_and!; [| done | intros k [= <-]; by apply Hs | by eexists].
    intros b x Hx. cbn in Hx. apply lookup_insert_Some in Hx as [[<- <-] | [_ Hb]]; cbn; by apply Hs.
  - destruct created; cbn; [| by split_and!]. split_and!; [| done | intros k [= <-]; by rewrite list_lookup_middle | by eexists].
    intros b x Hx. cbn in Hx. apply lookup_insert_Some in Hx as [[<- <-] | [_ Hb]]; cbn; [by rewrite list_lookup_middle |].
    apply lookup_app_l_Some. by apply Hs.
Qed.

Section runs.
Context {AR : Arch}.

Lemma client_step_inv s s' : client_inv s -> client_step s s' -> client_inv s'.
Proof.
  intros [Ht Hs] [nonce src dst payload now Hsrc | data created now s1 out Hd | now].
  - unfold upstream, upstream_packet. destruct (zlen payload =? 0); [done |]. destruct (negb _); [done |].
    pose proof (tunnel_touch_ok (rs_flows s) src now Ht Hsrc) as Hto. destruct (touch (rs_flows s) src now) as [t port]. by split.
  - unfold downstream in Hd. destruct (zlen data =? 0); [by injection Hd as <- _ |].
    destruct (decode_relay_packet _ _) as [r |]; [| done]. cbn [mbind option_bind] in Hd. injection Hd as Hd.
    destruct r as [packet |]; [| by injection Hd as <- _]. destruct (relay_type packet); try (by injection Hd as <- _).
    pose proof (downstream_target_ok (rs_flows s) packet now Ht) as Hto.
    destruct (downstream_target (rs_flows s) packet now) as [t [[device from] |]]; [| by injection Hd as <- _].
    destruct (spoof_socket_ok (set_relay s t (rs_spoof s) (rs_sockets s)) from created now Hs) as (H1 & H2 & _).
    destruct (spoof_socket _ from created now) as [s2 sock]. injection Hd as <- _. cbn [fst] in H1, H2. split; [by rewrite H2 | done].
  - split; [by apply retire_spec |]. intros a e He. cbn in He. apply map_lookup_filter_Some in He as [He _]. by apply Hs.
Qed.

Lemma client_run_inv s s' : client_inv s -> client_run s s' -> client_inv s'.
Proof. intros Hi. induction 1 as [| s s' s'' _ IH Hs]; [done |]. eapply client_step_inv; [by apply IH | done]. Qed.

Lemma client_reachable_inv s : client_reachable s -> client_inv s.
Proof.
  intros (o & timeout & ips & ports & Hr). eapply client_run_inv; [| exact Hr]. split; [apply table_new |]. intros a e. cbn.
  by rewrite lookup_empty.
Qed.

End runs.

(** ** Theorems *)

Lemma touch_ports t a now b p : table_ok t -> ft_ports t !! b = Some p -> ft_ports (touch t a now).1 !! b = Some p.
Proof.
  intros Ht Hb. unfold touch. destruct (ft_ports t !! a) as [q |] eqn:Ea; [done |]. destruct (allocate _ _); [| done]. cbn.
  rewrite lookup_insert_ne; [done | congruence].
Qed.

Lemma client_step_ports {AR : Arch} s s' a p : client_inv s -> client_step s s' -> ft_ports (rs_flows s) !! a = Some p ->
  ft_ports (rs_flows s') !! a = Some p \/
  exists now f, s' = cleanup s now /\ ft_flows (rs_flows s) !! p = Some f /\ rs_timeout s <= duration_since now (uf_last_activity f).
Proof.
  intros [Ht Hs] Hstep Ha. destruct Hstep as [nonce src dst payload now Hsrc | data created now s1 out Hd | now].
  - left. unfold upstream, upstream_packet. destruct (zlen payload =? 0); [done |]. destruct (negb _); [done |].
    pose proof (touch_ports (rs_flows s) src now a p Ht Ha) as Hto. by destruct (touch (rs_flows s) src now) as [t port].
  - left. unfold downstream in Hd. destruct (zlen data =? 0); [by injection Hd as <- _ |].
    destruct (decode_relay_packet _ _) as [r |]; [| done]. cbn [mbind option_bind] in Hd. injection Hd as Hd.
    destruct r as [packet |]; [| by injection Hd as <- _]. destruct (relay_type packet); try (by injection Hd as <- _).
    assert (Hto : ft_ports (downstream_target (rs_flows s) packet now).1 = ft_ports (rs_flows s))
      by (unfold downstream_target; by destruct (ft_flows (rs_flows s) !! src_port packet)).
    destruct (downstream_target (rs_flows s) packet now) as [t [[device from] |]]; cbn [fst] in Hto;
      [| injection Hd as <- _; cbn; by rewrite Hto].
    destruct (spoof_socket_ok (set_relay s t (rs_spoof s) (rs_sockets s)) from created now Hs) as (_ & H2 & _).
    destruct (spoof_socket _ from created now) as [s2 sock]. injection Hd as <- _. cbn [fst set_relay rs_flows] in H2. by rewrite H2, Hto.
  - destruct (tk_flow _ Ht a p Ha) as (f & Hf & Hfa).
    destruct (retire_spec (rs_flows s) (rs_timeout s) now Ht) as [Hok Hr]. cbn [cleanup set_relay rs_flows].
    destruct (Z.le_gt_cases (rs_timeout s) (duration_since now (uf_last_activity f))) as [He | He].
    + right. exists now, f. by split_and!.
    + left. rewrite <- Hfa. apply (tk_port _ Hok). by apply Hr.
Qed.

(** the address translation of the tunnel. In every state of the router's UDP relay
    a tunnel port belongs to one device and a device has one tunnel port, a valid one.
    A datagram of a device finds its port, or gets its own port number when that is
    free, else a free one of the pool, and changes nobody else's; it is dropped only
    when its own number and the whole pool are taken. A device keeps its port over
    every step but a cleaning that finds its flow idle for the timeout, and a cleaning
    removes exactly the idle flows. *)
Theorem tunnel_nat (AR : Arch) (s : RelayState) :
  client_reachable s ->
  let t := rs_flows s in
  (forall p f, ft_flows t !! p = Some f -> 0 < p < 2 ^ 16 /\ ft_ports t !! uf_src_addr f = Some p) /\
  (forall p1 p2 f1 f2, ft_flows t !! p1 = Some f1 -> ft_flows t !! p2 = Some f2 -> uf_src_addr f1 = uf_src_addr f2 -> p1 = p2) /\
  (forall src now t' r, sock_ok src -> touch t src now = (t', r) ->
     match r with
     | Some p => ft_flows t' !! p = Some {| uf_src_addr := src; uf_last_activity := now |} /\
         (forall q, q <> p -> ft_flows t' !! q = ft_flows t !! q) /\
         (ft_ports t !! src = Some p \/
          (ft_ports t !! src = None /\ ft_flows t !! p = None /\
           (sock_port src <> 0 -> ft_flows t !! sock_port src = None -> p = sock_port src)))
     | None => t' = t /\ ft_ports t !! src = None /\ (sock_port src = 0 \/ is_Some (ft_flows t !! sock_port src)) /\
         forall p, 40000 <= p <= 65000 -> is_Some (ft_flows t !! p)
     end) /\
  (forall s' a p, client_step s s' -> ft_ports t !! a = Some p ->
     ft_ports (rs_flows s') !! a = Some p \/
     exists now f, s' = cleanup s now /\ ft_flows t !! p = Some f /\ rs_timeout s <= duration_since now (uf_last_activity f)) /\
  (forall now p f, ft_flows (rs_flows (cleanup s now)) !! p = Some f <->
     ft_flows t !! p = Some f /\ duration_since now (uf_last_activity f) < rs_timeout s).
Proof.
  intros Hi%client_reachable_inv t. pose proof (ci_table s Hi) as Ht. fold t in Ht. split_and!.
  - intros p f Hf. split; [by eapply (tk_range t Ht) | by apply (tk_port t Ht)].
  - intros p1 p2 f1 f2 H1%(tk_port t Ht) H2%(tk_port t Ht) E. congruence.
  - intros src now t' r Hsrc. unfold touch. destruct (ft_ports t !! src) as [p |] eqn:Ep.
    + intros [= <- <-]. cbn [ft_flows]. destruct (tk_flow t Ht src p Ep) as (f & Hf & Hfs). split_and!; [| | by left].
      * rewrite lookup_alter_eq, Hf. cbn. unfold touch_flow. by rewrite Hfs.
      * intros q Hq. by rewrite lookup_alter_ne.
    + pose proof (tunnel_allocate_spec t (sock_port src)) as Hal. destruct (allocate t (sock_port src)) as [p |].
      * intros [= <- <-]. cbn [ft_flows]. destruct Hal as (H1 & _ & H3). split_and!; [apply lookup_insert_eq | | by right].
        intros q Hq. by rewrite lookup_insert_ne.
      * intros [= <- <-]. destruct Hal as [H1 H2]. split_and!; try done. intros p Hp. apply H2.
        rewrite (tk_pool t Ht). apply elem_of_seqZ. cbn. lia.
  - intros s' a p. by apply client_step_ports.
  - intros now p f. cbn [cleanup set_relay rs_flows]. by apply retire_spec.
Qed.

(** ** There and back *)

Lemma client_run_obf {AR : Arch} s s' : client_run s s' -> rs_obfuscator s' = rs_obfuscator s.
Proof.
  induction 1 as [| s s' s'' _ IH Hs]; [done |]. rewrite <- IH.
  destruct Hs as [nonce src dst payload now Hsrc | data created now s1 out Hd | now]; [| | done].
  - unfold upstream, upstream_packet. destruct (zlen payload =? 0); [done |]. destruct (negb _); [done |]. by destruct (touch _ _ _).
  - unfold downstream in Hd. destruct (zlen data =? 0); [by injection Hd as <- _ |].
    destruct (decode_relay_packet _ _) as [r |]; [| done]. cbn [mbind option_bind] in Hd. injection Hd as Hd.
    destruct r as [packet |]; [| by injection Hd as <- _]. destruct (relay_type packet); try (by injection Hd as <- _).
    destruct (downstream_target _ _ _) as [t [[device from] |]]; [| by injection Hd as <- _]. revert Hd.
    unfold spoof_socket. destruct (SpoofCache_get _ _ _) as [cc [sock |]]; [by intros [= <- _] |]. destruct created; by intros [= <- _].
Qed.

(** What the wire keeps of an address. *)
Definition wire_addr (a : SocketAddr) : SocketAddr := match a with SockV6 ip q _ _ => SockV6 ip q 0 0 | d => d end.

Lemma wire_data d p pl : wire_packet {| relay_type := RData; dst := d; src_port := p; relay_payload := pl |} =
  {| relay_type := RData; dst := wire_addr d; src_port := p; relay_payload := pl |}.
Proof. by destruct d. Qed.

Lemma encode_nonempty {AR : Arch} o nonce p : (zlen (encode_relay_packet o nonce p) =? 0) = false.
Proof.
  apply Z.eqb_neq. unfold encode_relay_packet. rewrite zlen_app, zlen_be32.
  pose proof (zlen_nonneg (apply o (relay_body p) nonce)). lia.
Qed.

(** A reply that carries the tunnel port of a device is delivered to it. *)
Lemma downstream_delivers (A1 A2 : Arch) o c p f from data nonce now :
  client_inv c -> rs_obfuscator c = o -> peers_agree A1 A2 o -> ft_flows (rs_flows c) !! p = Some f -> 0 <= nonce < 2 ^ 32 ->
  sock_ok from -> bytes_ok data -> zlen data <= 65535 ->
  exists c' k, @downstream A2 c (@encode_relay_packet A1 o nonce
      {| relay_type := RData; dst := from; src_port := p; relay_payload := data |}) true now =
    Some (c', Some (k, uf_src_addr f, data)) /\ rs_sockets c' !! k = Some (wire_addr from).
Proof.
  intros [Ht Hs] Ho Hag Hf Hn Hfrom Hdata Hlen. unfold downstream. rewrite encode_nonempty, Ho.
  assert (Hp : packet_ok {| relay_type := RData; dst := from; src_port := p; relay_payload := data |}).
  { split; [exact Hfrom |]. split; [| exact Hdata]. cbn [src_port]. pose proof (tk_range _ Ht p f Hf). lia. }
  rewrite (relay_packet_roundtrip A1 A2 o nonce _ Hag Hn Hp Hlen).
  cbn [mbind option_bind]. rewrite wire_data. cbn [relay_type]. unfold downstream_target. cbn [src_port dst relay_payload]. rewrite Hf.
  set (s1 := set_relay c _ (rs_spoof c) (rs_sockets c)).
  destruct (spoof_socket_ok s1 (wire_addr from) true now Hs) as (_ & _ & H3 & H4).
  destruct (spoof_socket s1 (wire_addr from) true now) as [s2 [k |]]; [| by destruct (H4 eq_refl)].
  exists s2, k. split; [done |]. by apply H3.
Qed.

(** C21: a datagram there and back. What a device sends through the router arrives at the
    server in the flow of the router and the device's tunnel port, with the address it
    was sent to and its payload, unless that flow's queue is full. And whatever that
    flow later receives from anybody is sent to the router, which delivers it to that
    very device from a socket bound to the sender's address, in every later state in
    which the device still has its port. *)
Theorem udp_end_to_end (A1 A2 : Arch) (o : Obfuscator) c sv client src dst' payload nonce now c1 wire :
  @client_reachable A1 c -> rs_obfuscator c = o -> @udp_reachable A2 o sv -> obfuscator_wf o -> peers_agree A1 A2 o ->
  0 <= nonce < 2 ^ 32 -> sock_ok src -> sock_ok dst' -> bytes_ok payload -> zlen payload <= 65535 ->
  @upstream A1 nonce c src dst' payload now = (c1, Some wire) ->
  exists p, ft_ports (rs_flows c1) !! src = Some p /\
    (forall n, 0 <= n < 2 ^ 32 -> exists sv' fl, @handle_datagram A2 o n sv client wire = Some sv' /\
       flows sv' !! (client, p) = Some fl /\
       (accepted sv' = accepted sv ++ [(fl, ((client, p), {| fp_dst := wire_addr dst'; fp_payload := payload |}))] \/
        exists ch, chans sv !! fl = Some ch /\ zlen (queue ch) = 64)) /\
    (forall sv2 fl from data n, @udp_reachable A2 o sv2 -> tasks sv2 !! fl = Some ((client, p), FReply from data) ->
       sock_ok from -> bytes_ok data -> zlen data <= 65535 -> 0 <= n < 2 ^ 32 ->
       exists reply, outbox (@flow_step A2 o n sv2 fl SendDone) = outbox sv2 ++ [(Some fl, client, reply)] /\
         forall c2 now2, @client_run A1 c1 c2 -> ft_ports (rs_flows c2) !! src = Some p ->
           exists c3 k, @downstream A1 c2 reply true now2 = Some (c3, Some (k, src, data)) /\
             rs_sockets c3 !! k = Some (wire_addr from)).
Proof.
  intros Hc%client_reachable_inv Ho Hsv Hwf Hag Hn Hsrc Hdst Hpay Hlen Hup. subst o.
  assert (Hc1 : client_inv c1).
  { replace c1 with (@upstream A1 nonce c src dst' payload now).1 by (by rewrite Hup). apply (@client_step_inv A1 c); [done | by apply (@cl_up A1)]. }
  assert (Hob : rs_obfuscator c1 = rs_obfuscator c).
  { replace c1 with (@upstream A1 nonce c src dst' payload now).1 by (by rewrite Hup). apply (@client_run_obf A1).
    eapply (@clr_next A1); [apply (@clr_refl A1) | by apply (@cl_up A1)]. }
  unfold upstream, upstream_packet in Hup. destruct (zlen payload =? 0); [done |]. destruct (negb _); [done |].
  pose proof (tunnel_touch_ok (rs_flows c) src now (ci_table c Hc) Hsrc) as Htok.
  destruct (touch (rs_flows c) src now) as [t port] eqn:Et. destruct port as [p |]; [| done]. cbn [fst] in Htok.
  injection Hup as <- <-. exists p.
  assert (Hp : ft_ports t !! src = Some p).
  { revert Et. unfold touch. destruct (ft_ports (rs_flows c) !! src) eqn:E; [by intros [= <- <-] |].
    destruct (allocate _ _); [| done]. intros [= <- <-]. apply lookup_insert_eq. }
  destruct (tk_flow t Htok src p Hp) as (f & Hf & _). pose proof (tk_range t Htok p f Hf) as Hr. split_and!.
  - exact Hp.
  - intros n Hn'. destruct (udp_datagram A1 A2 (rs_obfuscator c) sv client n Hsv Hwf Hag Hn') as (_ & Hd & _).
    destruct (Hd nonce {| relay_type := RData; dst := dst'; src_port := p; relay_payload := payload |}) as
      (sv' & fl & pc & H1 & H2 & _ & _ & H5); [done | split; [exact Hdst | split; [cbn [src_port]; lia | exact Hpay]] | done | done |].
    exists sv', fl. split_and!; [exact H1 | done |]. rewrite wire_data in H5. destruct H5 as [H5 | [_ H5]]; [by left | by right].
  - intros sv2 fl from data n Hsv2 Htask Hfrom Hdata Hdl Hn'. apply udp_reachable_inv in Hsv2.
    pose proof (ui_flow _ Hsv2 fl) as Hflow. unfold flow_of in Hflow. rewrite Htask in Hflow.
    destruct Hflow as (_ & _ & (q & Hq & _) & _). 
    exists (@encode_relay_packet A2 (rs_obfuscator c) n {| relay_type := RData; dst := from; src_port := p; relay_payload := data |}).
    split; [unfold flow_step; by rewrite Htask, Hq |].
    intros c2 now2 Hrun Hport. assert (Hc2 : client_inv c2) by (by apply (@client_run_inv A1 _ c2 Hc1)).
    destruct (tk_flow _ (ci_table c2 Hc2) src p Hport) as (g & Hg & Hgs). rewrite <- Hgs.
    apply (downstream_delivers A2 A1); try done; [| by apply peers_agree_sym].
    by rewrite (@client_run_obf A1 _ _ Hrun).
Qed.

(** ** Witnesses *)

Definition ex_device : SocketAddr := SockV4 0xC0A80105 5000.
Definition ex_dns : SocketAddr := SockV4 0x08080808 53.
Definition ex_client : RelayState := RelayState_new ex_relay 60000 [] [].
Definition ex_client1 : RelayState := (@upstream arch64 3 ex_client ex_device ex_dns [1; 2] 10).1.
Definition ex_wire : bytes := default [] (@upstream arch64 3 ex_client ex_device ex_dns [1; 2] 10).2.

Lemma ex_client_reachable : @client_reachable arch64 ex_client.
Proof. exists ex_relay, 60000, [], []. constructor. Qed.

Lemma ex_client1_reachable : @client_reachable arch64 ex_client1.
Proof.
  exists ex_relay, 60000, [], []. eapply clr_next; [constructor |]. apply (@cl_up arch64). vm_compute. intuition congruence.
Qed.

(** The device of the example has its own port number for a tunnel port. *)
Lemma tunnel_nat_witness : 0 < 5000 < 2 ^ 16 /\ ft_ports (rs_flows ex_client1) !! ex_device = Some 5000.
Proof.
  apply (@tunnel_nat arch64 ex_client1 ex_client1_reachable) with (p := 5000) (f := {| uf_src_addr := ex_device; uf_last_activity := 10 |}).
  vm_compute. reflexivity.
Defined.

Lemma udp_end_to_end_witness : exists sv' fl,
  @handle_datagram arch64 ex_relay 9 ServerState_new ex_peer ex_wire = Some sv' /\ flows sv' !! (ex_peer, 5000) = Some fl.
Proof.
  assert (Hb : bytes_ok [1; 2]) by (repeat constructor; lia).
  assert (H1 : sock_ok ex_device) by (vm_compute; intuition congruence).
  assert (H2 : sock_ok ex_dns) by (vm_compute; intuition congruence).
  assert (Hup : @upstream arch64 3 ex_client ex_device ex_dns [1; 2] 10 = (ex_client1, Some ex_wire)) by (vm_compute; reflexivity).
  destruct (@udp_end_to_end arch64 arch64 ex_relay ex_client ServerState_new ex_peer ex_device ex_dns [1; 2] 3 10 ex_client1 ex_wire
    ex_client_reachable eq_refl (ur_new ex_relay) ex_relay_wf (or_introl eq_refl) ltac:(lia) H1 H2 Hb ltac:(by_compute) Hup)
    as (p & Hp & Hd & _).
  assert (p = 5000) as -> by (vm_compute in Hp; congruence).
  destruct (Hd 9) as (sv' & fl & E1 & E2 & _); [lia |]. exists sv', fl. split; [exact E1 | exact E2].
Defined.
