(* ===== verification/ShareFiles.v ===== *)
(** * The files of a share (xr-share/src/manifest.rs, meta.rs)

    The disk of an agent as regular files and directories by absolute path; the tree
    has no links and the names are UTF-8. The walk that hides the reserved names, the
    cache of hashes, the two builders of a manifest and the index of origins. The
    order of a walk is the file system's: a walk is a list, and what is proved holds
    for any order. SHA-256 is a parameter, the index file is what it parses to. *)

From S2P Require Import Prelude Text Order SafePath Share Sync Mirror.

Record DFile := { df_data : bytes; df_mtime : Z }.

Record Disk := { d_files : gmap (list bytes) DFile; d_dirs : gset (list bytes) }.

(** [fs::canonicalize] where nothing is a link. *)
Definition canonicalize_in (d : Disk) (p : list bytes) : option (list bytes) :=
  if bool_decide (is_Some (d_files d !! p)) || bool_decide (p ∈ d_dirs d) then Some p else None.

Definition is_reserved (name : bytes) : bool := starts_with RESERVED_PREFIX name.

(** [Path::strip_prefix]. *)
Fixpoint strip_path (root p : list bytes) : option (list bytes) :=
  match root, p with
  | [], _ => Some p
  | r :: root, c :: p => if bool_decide (r = c) then strip_path root p else None
  | _ :: _, [] => None
  end.

Definition rel_key (root target : list bytes) : option bytes := join [47] <$> strip_path root target.

(** A file of a walk, with its path. *)
Definition Found : Type := list bytes * DFile.

Definition visible (root : list bytes) (x : Found) : bool :=
  match strip_path root x.1 with Some rel => forallb (fun c => negb (is_reserved c)) rel | None => false end.

Definition walk_share (d : Disk) (root : list bytes) : list Found :=
  List.filter (visible root) (map_to_list (d_files d)).

(** ** Hashes *)

Record CacheEntry := { ce_size : Z; ce_mtime : Z; ce_sha256 : bytes }.

Abbreviation HashCache := (gmap (list bytes) CacheEntry).

Definition cached (c : HashCache) (path : list bytes) (size mtime : Z) : option bytes :=
  match c !! path with
  | Some e => if (ce_size e =? size) && (ce_mtime e =? mtime) then Some (ce_sha256 e) else None
  | None => None
  end.

Definition seed (c : HashCache) (path : list bytes) (size mtime : Z) (sha : bytes) : HashCache :=
  <[path := {| ce_size := size; ce_mtime := mtime; ce_sha256 := sha |}]> c.

Section hashing.
Context (digest : bytes -> bytes).

Abbreviation sha256_hex := (Mirror.sha256_hex digest).

(** [contents] is what reading the file gives, [None] an error. *)
Definition hashed (c : HashCache) (path : list bytes) (size mtime : Z) (contents : option bytes) :
    HashCache * option bytes :=
  match cached c path size mtime with
  | Some sha => (c, Some sha)
  | None =>
      match contents with
      | None => (c, None)
      | Some data => (seed c path size mtime (sha256_hex data), Some (sha256_hex data))
      end
  end.

(** ** Manifests *)

Definition entry_le (a b : ShareManifestEntry) : bool := bytes_leb (me_path a) (me_path b).

(** [origin.remove(&rel)] hands the row out once. *)
Fixpoint listing_loop (root : list bytes) (c : HashCache) (w : list Found) (origin : gmap bytes FileMeta) :
    option (list ShareManifestEntry) :=
  match w with
  | [] => Some []
  | (path, f) :: w =>
      rel ← rel_key root path;
      rest ← listing_loop root c w (delete rel origin);
      Some ({| me_path := rel; me_size := zlen (df_data f); me_mtime := df_mtime f;
               me_sha256 := default [] (cached c path (zlen (df_data f)) (df_mtime f)); me_meta := origin !! rel |} :: rest)
  end.

(** [w] is [None] when the walk fails; [None] is an error. *)
Definition build_listing (root : list bytes) (c : HashCache) (w : option (list Found)) (origin : gmap bytes FileMeta) :
    option ShareManifest :=
  w ← w; es ← listing_loop root c w origin; Some {| entries := isort entry_le es |}.

Fixpoint manifest_loop (readable : list bytes -> bool) (root : list bytes) (c : HashCache) (w : list Found)
    (origin : gmap bytes FileMeta) : HashCache * option (list ShareManifestEntry) :=
  match w with
  | [] => (c, Some [])
  | (path, f) :: w =>
      match rel_key root path with
      | None => (c, None)
      | Some rel =>
          match hashed c path (zlen (df_data f)) (df_mtime f) (if readable path then Some (df_data f) else None) with
          | (c, None) => (c, None)
          | (c, Some sha) =>
              let '(c, rest) := manifest_loop readable root c w (delete rel origin) in
              (c, (fun es => {| me_path := rel; me_size := zlen (df_data f); me_mtime := df_mtime f; me_sha256 := sha;
                                me_meta := origin !! rel |} :: es) <$> rest)
          end
      end
  end.

Definition build_manifest (readable : list bytes -> bool) (root : list bytes) (c : HashCache) (w : option (list Found))
    (origin : gmap bytes FileMeta) : HashCache * option ShareManifest :=
  match w with
  | None => (c, None)
  | Some w =>
      let '(c, es) := manifest_loop readable root c w origin in
      (c, (fun es => {| entries := isort entry_le es |}) <$> es)
  end.

(** A share that is one file. *)
Definition build_listing_for_file (d : Disk) (path : list bytes) (c : HashCache) : option ShareManifest :=
  f ← d_files d !! path;
  name ← last path;
  Some {| entries := [{| me_path := name; me_size := zlen (df_data f); me_mtime := df_mtime f;
    me_sha256 := default [] (cached c path (zlen (df_data f)) (df_mtime f)); me_meta := None |}] |}.

Definition build_manifest_for_file (readable : list bytes -> bool) (d : Disk) (path : list bytes) (c : HashCache) :
    HashCache * option ShareManifest :=
  match d_files d !! path, last path with
  | Some f, Some name =>
      match hashed c path (zlen (df_data f)) (df_mtime f) (if readable path then Some (df_data f) else None) with
      | (c, None) => (c, None)
      | (c, Some sha) => (c, Some {| entries := [{| me_path := name; me_size := zlen (df_data f); me_mtime := df_mtime f;
                                                    me_sha256 := sha; me_meta := None |}] |})
      end
  | _, _ => (c, None)
  end.

End hashing.

(** ** Origins *)

Abbreviation OriginIndex := (gmap bytes FileMeta).

(** A missing, unreadable or broken index is empty. *)
Definition load (stored : option OriginIndex) : OriginIndex := default ∅ stored.

(** Through a temp file and a rename: all or nothing. *)
Definition save (stored : option OriginIndex) (files : OriginIndex) (written : bool) : option OriginIndex :=
  if written then Some files else stored.

Definition record (stored : option OriginIndex) (rows : list (bytes * FileMeta)) (written : bool) : option OriginIndex :=
  if forallb (fun r => FileMeta_is_empty r.2) rows then stored else
  save stored (foldl (fun files r => if FileMeta_is_empty r.2 then files else <[r.1 := r.2]> files) (load stored) rows) written.

Definition forget (stored : option OriginIndex) (rel : bytes) (written : bool) : option OriginIndex :=
  let files := load stored in
  match files !! rel with None => stored | Some _ => save stored (delete rel files) written end.

Definition rsplit_once (c : Z) (l : bytes) : option (bytes * bytes) :=
  (fun x => (rev x.2, rev x.1)) <$> split_once c (rev l).

(** The YouTube id in the brackets that end a stem. *)
Definition youtube_id (stem : bytes) : option bytes :=
  body ← strip_suffix (str "]") stem;
  x ← rsplit_once 91 body;
  let inner := x.2 in
  if (zlen inner =? 11) &&
     forallb (fun b => in_rng 48 57 b || in_rng 65 90 b || in_rng 97 122 b || (b =? 45) || (b =? 95)) inner
  then Some inner else None.

Definition FileMeta_default : FileMeta := {| fm_url := []; fm_source := []; fm_source_url := []; fm_published := []; fm_title := [] |}.

Definition from_name (name : bytes) : option FileMeta :=
  let stem := match rsplit_once 46 name with Some (s, _) => if bool_decide (s = []) then name else s | None => name end in
  id ← youtube_id stem;
  Some {| fm_url := str "https://www.youtube.com/watch?v=" ++ id; fm_source := []; fm_source_url := []; fm_published := []; fm_title := [] |}.

(** One file of the walk of [backfill]. *)
Definition backfill_one (root : list bytes) (s : OriginIndex * gset bytes * nat) (x : Found) : OriginIndex * gset bytes * nat :=
  let '(files, present, filled) := s in
  match rel_key root x.1 with
  | None => s
  | Some rel =>
      let present := {[rel]} ∪ present in
      match files !! rel with
      | Some _ => (files, present, filled)
      | None =>
          match from_name (default [] (last x.1)) with
          | Some meta => (<[rel := meta]> files, present, S filled)
          | None => (files, present, filled)
          end
      end
  end.

(** [w] holds the files of the walk that could be read. *)
Definition backfill (root : list bytes) (w : list Found) (stored : option OriginIndex) (written : bool) : option OriginIndex :=
  let before := size (load stored) in
  let '(files, present, filled) := foldl (backfill_one root) (load stored, ∅, 0%nat) w in
  let files := filter (fun x => x.1 ∈ present) files in
  let dropped := (before + filled - size files)%nat in
  if (filled =? 0)%nat && (dropped =? 0)%nat then stored else save stored files written.

(** What an import plugin says of its files. *)
Fixpoint last_part (seps : list Z) (acc l : bytes) : bytes :=
  match l with
  | [] => rev acc
  | b :: l => if bool_decide (b ∈ seps) then last_part seps [] l else last_part seps (b :: acc) l
  end.

Definition file_name_of (s : bytes) : bytes := last_part [47; 92] [] s.

Definition normalize_date (s : bytes) : bytes :=
  if (zlen s =? 8) && forallb (in_rng 48 57) s
  then take 4 s ++ str "-" ++ take 2 (drop 4 s) ++ str "-" ++ drop 6 s else s.

Fixpoint splitn (n : nat) (c : Z) (l : bytes) : list bytes :=
  match n with
  | O => []
  | S O => [l]
  | S n => match split_once c l with None => [l] | Some (w, r) => w :: splitn n c r end
  end.

(** [trim_end_matches] of line ends, on the reversed line. *)
Fixpoint trim_crlf_rev (l : bytes) : bytes :=
  match l with b :: l' => if (b =? 13) || (b =? 10) then trim_crlf_rev l' else l | [] => [] end.

Definition parse_line (line : bytes) : option (bytes * FileMeta) :=
  let line := rev (trim_crlf_rev (rev line)) in
  let parts := splitn 6 9 line in
  let field i := trim (default [] (parts !! i)) in
  let file := file_name_of (trim (default [] (parts !! 0%nat))) in
  if bool_decide (file = []) then None else
  let meta := {| fm_url := field 1%nat; fm_source := field 2%nat; fm_source_url := field 3%nat;
                 fm_published := normalize_date (field 4%nat); fm_title := field 5%nat |} in
  if FileMeta_is_empty meta then None else Some (file, meta).

(** [str::lines]. *)
Definition lines (text : bytes) : list bytes :=
  let ls := split 10 text in
  let ls := match rev ls with [] :: r => rev r | _ => ls end in
  map (fun l => match strip_suffix [13] l with Some l' => l' | None => l end) ls.

Definition parse_plugin_output (text : bytes) : gmap bytes FileMeta :=
  foldl (fun m line => match parse_line line with Some (f, meta) => <[f := meta]> m | None => m end) ∅ (lines text).

Example ex_from_name :
  from_name (str "Clip [dQw4w9WgXcQ].mp4") =
    Some {| fm_url := str "https://www.youtube.com/watch?v=dQw4w9WgXcQ"; fm_source := []; fm_source_url := [];
            fm_published := []; fm_title := [] |} /\
  from_name (str "Film [2024].mkv") = None /\
  map_to_list (parse_plugin_output (str "/tmp/x/a.mp4" ++ [9] ++ str "https://h/p" ++ [9] ++ str "Chan" ++ [9; 9] ++ str "20240131"
    ++ [13; 10; 10] ++ str "junk")) =
    [(str "a.mp4", {| fm_url := str "https://h/p"; fm_source := str "Chan"; fm_source_url := [];
                     fm_published := str "2024-01-31"; fm_title := [] |})].
Proof. by vm_compute. Qed.

(** ** The tree *)

Definition dname_ok (w : bytes) : Prop := name_ok w /\ w <> str ".." /\ (0 ∉ w).

Record disk_ok (d : Disk) : Prop := {
  dk_file : forall p f, d_files d !! p = Some f -> Forall dname_ok p /\ p ∉ d_dirs d;
  dk_dir : forall p, p ∈ d_dirs d -> Forall dname_ok p;
  dk_parent : forall p c, is_Some (d_files d !! (p ++ [c])) \/ p ++ [c] ∈ d_dirs d -> p ∈ d_dirs d
}.

Lemma strip_path_spec root p rel : strip_path root p = Some rel <-> p = root ++ rel.
Proof.
  revert p. induction root as [| r root IH]; intros p; cbn [strip_path app]; [split; [by intros [= <-] | by intros ->] |].
  destruct p as [| c p]; [done |]. case_bool_decide as E; [subst |].
  - rewrite IH. split; [by intros -> | by intros [= ->]].
  - split; [done |]. intros [= ? _]. by destruct E.
Qed.

Lemma rel_key_app root rel : rel_key root (root ++ rel) = Some (join [47] rel).
Proof. unfold rel_key. by rewrite (proj2 (strip_path_spec root (root ++ rel) rel) eq_refl). Qed.

Definition hidden (rel : list bytes) : Prop := Exists (fun c => is_reserved c = true) rel.

Lemma visible_spec root x : visible root x = true <-> exists rel, x.1 = root ++ rel /\ not (hidden rel).
Proof.
  unfold visible. destruct (strip_path root x.1) as [rel |] eqn:E.
  - apply strip_path_spec in E. rewrite forallb_forall. split.
    + intros H. exists rel. split; [done |]. intros (c & Hc & Hr)%Exists_exists. apply list_elem_of_In, H in Hc. by rewrite Hr in Hc.
    + intros (rel' & E' & Hn) c Hc. rewrite E in E'. apply app_inv_head in E' as <-.
      destruct (is_reserved c) eqn:Hr; [| done]. destruct Hn. apply Exists_exists. exists c. by split; [apply list_elem_of_In |].
  - split; [done |]. intros (rel & Hx%strip_path_spec & _). by rewrite Hx in E.
Qed.

Lemma elem_of_walk d root p f :
  (p, f) ∈ walk_share d root <-> d_files d !! p = Some f /\ exists rel, p = root ++ rel /\ not (hidden rel).
Proof. unfold walk_share. by rewrite elem_of_filter_b, elem_of_map_to_list, visible_spec. Qed.

Lemma NoDup_walk d root : NoDup (map fst (walk_share d root)).
Proof. apply NoDup_map_filter, NoDup_fst_map_to_list. Qed.

(** Without links a request is resolved exactly to its names below the root. *)
Lemma probe_disk d root names fuel : root ∈ d_dirs d -> (length (root ++ names) < fuel)%nat ->
  probe_ancestors (canonicalize_in d) fuel root (root ++ names) = Some (Ok tt).
Proof.
  intros Hr Hf. assert (Hc : canonicalize_in d root = Some root).
  { unfold canonicalize_in. by rewrite (bool_decide_true (root ∈ _)), orb_true_r. }
  destruct (probe_spec (canonicalize_in d) root root names fuel) as (q & real & _ & _ & Hreal & ->); [by eexists | done |].
  unfold canonicalize_in in Hreal. destruct (_ || _); [| done]. injection Hreal as <-.
  by rewrite (proj2 (path_starts_with_spec (root ++ q) root) (ex_intro _ q eq_refl)).
Qed.

Lemma resolve_disk d root req : root ∈ d_dirs d ->
  clean req /\ resolve_within (canonicalize_in d) root req = Some (Ok (root ++ named req)) \/
  not (clean req) /\ resolve_within (canonicalize_in d) root req = Some (Err InvalidComponent).
Proof.
  intros Hr. unfold resolve_within.
  destruct (contains_char 92 req) eqn:E1; [apply contains_char_spec in E1; right; split; [by intros [] | done] |].
  destruct (contains_char 0 req) eqn:E2; [apply contains_char_spec in E2; right; split; [by intros (_ & ? & _) | done] |].
  apply contains_char_false in E1, E2. cbn [orb].
  destruct (lexical_clean req E1 E2) as [[Hc ->] | [Hc ->]]; [left | by right]. split; [done |].
  replace (canonicalize_in d root) with (Some root).
  2:{ unfold canonicalize_in. by rewrite (bool_decide_true (root ∈ _)), orb_true_r. }
  by rewrite probe_disk by (done || lia).
Qed.

(** ** What the builders list *)

(** The cache tells the truth about every file it still describes. *)
Definition cache_ok (digest : bytes -> bytes) (d : Disk) (c : HashCache) : Prop :=
  forall p f sha, d_files d !! p = Some f -> cached c p (zlen (df_data f)) (df_mtime f) = Some sha ->
    sha = Mirror.sha256_hex digest (df_data f).

Definition entry_of (root : list bytes) (c : HashCache) (origin : gmap bytes FileMeta) (x : Found) : ShareManifestEntry :=
  let rel := default [] (rel_key root x.1) in
  {| me_path := rel; me_size := zlen (df_data x.2); me_mtime := df_mtime x.2;
     me_sha256 := default [] (cached c x.1 (zlen (df_data x.2)) (df_mtime x.2)); me_meta := origin !! rel |}.

Lemma entry_of_ext root c c' origin origin' x :
  c !! x.1 = c' !! x.1 -> origin !! (default [] (rel_key root x.1)) = origin' !! (default [] (rel_key root x.1)) ->
  entry_of root c origin x = entry_of root c' origin' x.
Proof. intros E1 E2. unfold entry_of, cached. by rewrite E1, E2. Qed.

(** A walk as the builders need it: below the root, no path twice. *)
Definition keyed (root : list bytes) (w : list Found) : Prop :=
  Forall (fun x => is_Some (rel_key root x.1)) w /\ NoDup (map (fun x => rel_key root x.1) w).

Lemma keyed_cons root p f w : keyed root ((p, f) :: w) ->
  exists rel, rel_key root p = Some rel /\ keyed root w /\ (p ∉ map fst w) /\
    forall x, x ∈ w -> rel <> (default [] (rel_key root x.1)).
Proof.
  intros [[[rel Hrel] Hf]%Forall_cons Hn]. cbn [map fst] in *. apply NoDup_cons in Hn as [Hn Hnd]. exists rel. split_and!; try done.
  - intros (y & -> & Hy)%list_elem_of_fmap. apply Hn. by apply (list_elem_of_fmap_2 (fun x : Found => rel_key root x.1)).
  - intros x Hx ->. apply Hn. rewrite Forall_forall in Hf. destruct (Hf x Hx) as [r Hr].
    rewrite Hrel, Hr. cbn. rewrite <- Hr. by apply (list_elem_of_fmap_2 (fun x : Found => rel_key root x.1)).
Qed.

Lemma map_entry_ext root c c' origin origin' w :
  (forall x, x ∈ w -> c !! x.1 = c' !! x.1) ->
  (forall x, x ∈ w -> origin !! (default [] (rel_key root x.1)) = origin' !! (default [] (rel_key root x.1))) ->
  map (entry_of root c origin) w = map (entry_of root c' origin') w.
Proof. intros H1 H2. apply List.map_ext_in. intros x Hx%list_elem_of_In. apply entry_of_ext; auto. Qed.

Lemma listing_loop_spec root c w origin : keyed root w -> listing_loop root c w origin = Some (map (entry_of root c origin) w).
Proof.
  revert origin. induction w as [| [p f] w IH]; intros origin Hk; [done |].
  destruct (keyed_cons root p f w Hk) as (rel & Hrel & Hw & _ & Hne). cbn [listing_loop map]. rewrite Hrel. cbn [mbind option_bind].
  rewrite IH by done. cbn [mbind option_bind]. f_equal. unfold entry_of at 2. cbn [fst snd]. rewrite Hrel. cbn [default]. f_equal.
  apply map_entry_ext; [done |]. intros x Hx. rewrite lookup_delete_ne; [done |]. by apply Hne.
Qed.

Section builders.
Context (digest : bytes -> bytes).
Abbreviation sha256_hex := (Mirror.sha256_hex digest).

Lemma cached_seed c p q size mtime size' mtime' sha :
  cached (seed c p size mtime sha) q size' mtime' =
  if bool_decide (p = q) then if (size =? size') && (mtime =? mtime') then Some sha else None else cached c q size' mtime'.
Proof.
  unfold cached, seed. case_bool_decide as E; [subst; by rewrite lookup_insert_eq | by rewrite lookup_insert_ne].
Qed.

Lemma seed_ok d c p f : d_files d !! p = Some f -> cache_ok digest d c ->
  cache_ok digest d (seed c p (zlen (df_data f)) (df_mtime f) (sha256_hex (df_data f))).
Proof.
  intros Hf Hc q g sha Hg. rewrite cached_seed. case_bool_decide as E; [subst | by apply Hc].
  assert (f = g) as -> by congruence. rewrite !Z.eqb_refl. by intros [= <-].
Qed.

Lemma hashed_spec c p f :
  exists sha c', hashed digest c p (zlen (df_data f)) (df_mtime f) (Some (df_data f)) = (c', Some sha) /\
    cached c' p (zlen (df_data f)) (df_mtime f) = Some sha /\ (forall q, q <> p -> c' !! q = c !! q) /\
    (forall d, d_files d !! p = Some f -> cache_ok digest d c -> cache_ok digest d c').
Proof.
  unfold hashed. destruct (cached c p (zlen (df_data f)) (df_mtime f)) as [sha |] eqn:E; [by exists sha, c |].
  eexists _, _. split; [done |]. split_and!.
  - by rewrite cached_seed, bool_decide_true, !Z.eqb_refl by done.
  - intros q Hq. by apply lookup_insert_ne.
  - intros d. apply seed_ok.
Qed.

Lemma manifest_loop_spec root c w origin : keyed root w ->
  exists c', manifest_loop digest (fun _ => true) root c w origin = (c', Some (map (entry_of root c' origin) w)) /\
    (forall p, p ∉ map fst w -> c' !! p = c !! p) /\
    Forall (fun x => is_Some (cached c' x.1 (zlen (df_data x.2)) (df_mtime x.2))) w /\
    (forall d, Forall (fun x => d_files d !! x.1 = Some x.2) w -> cache_ok digest d c -> cache_ok digest d c').
Proof.
  revert c origin. induction w as [| [p f] w IH]; intros c origin Hk; [by exists c |].
  destruct (keyed_cons root p f w Hk) as (rel & Hrel & Hw & Hp & Hne). cbn [manifest_loop map fst]. rewrite Hrel.
  destruct (hashed_spec c p f) as (sha & c1 & -> & Hsha & Hoth & Hok).
  destruct (IH c1 (delete rel origin) Hw) as (c' & -> & Hout & Hall & Hok'). exists c'.
  assert (Hc' : cached c' p (zlen (df_data f)) (df_mtime f) = Some sha) by (unfold cached in *; by rewrite Hout).
  split_and!.
  - cbn [fmap option_fmap option_map]. do 2 f_equal. unfold entry_of at 2. cbn [fst snd]. rewrite Hrel, Hc'. cbn [default]. f_equal.
    apply map_entry_ext; [done |]. intros x Hx. rewrite lookup_delete_ne; [done |]. by apply Hne.
  - intros q [Hq1 Hq2]%not_elem_of_cons. rewrite Hout by done. by apply Hoth.
  - apply Forall_cons. split; [by eexists | done].
  - intros d [Hd1 Hd2]%Forall_cons Hc. apply Hok'; [done |]. by apply Hok.
Qed.

End builders.

Lemma join_dname_inj p q : Forall dname_ok p -> Forall dname_ok q -> join [47] p = join [47] q -> p = q.
Proof.
  intros Hp Hq E. assert (Hn : forall r, Forall dname_ok r -> Forall (fun w => 47 ∉ w) r).
  { intros r Hr. eapply Forall_impl; [done |]. by intros w [[] _]. }
  assert (He : forall r, Forall dname_ok r -> join [47] r = [] -> r = []).
  { intros r Hr Hj. destruct r as [| w r]; [done |]. apply Forall_cons in Hr as [[[_ [Hw _]] _] _].
    destruct r; cbn [join] in Hj; [done |]. by destruct w. }
  destruct p as [| w p]; [symmetry; by apply He |]. destruct q as [| v q]; [by apply He |].
  rewrite <- (split_join 47 (w :: p)), <- (split_join 47 (v :: q)), E by (done || by apply Hn). done.
Qed.

Lemma walk_keyed d root w : disk_ok d -> w ≡ₚ walk_share d root -> keyed root w.
Proof.
  intros Hd Hw. unfold keyed. rewrite Hw. split.
  - apply Forall_forall. intros [p f] (_ & rel & -> & _)%elem_of_walk. cbn. rewrite rel_key_app. by eexists.
  - pose proof (NoDup_walk d root) as Hn. assert (Hin : forall x, x ∈ walk_share d root -> exists rel, x.1 = root ++ rel /\ Forall dname_ok rel).
    { intros [p f] (Hf & rel & -> & _)%elem_of_walk. exists rel. split; [done |].
      apply (dk_file d Hd) in Hf as [Hf _]. by apply Forall_app in Hf as [_ Hf]. }
    revert Hn Hin. generalize (walk_share d root) as l. induction l as [| x l IH]; intros Hn Hin; cbn [map]; [constructor |].
    cbn [map] in Hn. apply NoDup_cons in Hn as [Hx Hl]. apply NoDup_cons. split; [| apply IH; [done |]; intros y Hy; apply Hin; by right].
    intros (y & E & Hy)%list_elem_of_fmap. apply Hx. destruct (Hin x) as (r1 & E1 & H1); [by left |].
    destruct (Hin y) as (r2 & E2 & H2); [by right |]. rewrite E1, E2, !rel_key_app in E. injection E as E.
    apply join_dname_inj in E; [| done | done]. rewrite E1, E, <- E2. by apply list_elem_of_fmap_2.
Qed.

(** ** Theorems *)

Lemma entry_le_sorted es : StronglySorted (fun a b => entry_le a b = true) (isort entry_le es).
Proof.
  apply isort_sorted; [intros x y; apply bytes_leb_total | intros x y z; apply bytes_leb_trans].
Qed.

Lemma NoDup_listed root c origin d w : disk_ok d -> w ≡ₚ walk_share d root ->
  NoDup (map me_path (map (entry_of root c origin) w)).
Proof.
  intros Hd Hw. destruct (walk_keyed d root w Hd Hw) as [Hf Hn]. rewrite map_map. cbn [me_path entry_of].
  clear Hw. induction w as [| x w IH]; cbn [map] in *; [constructor |].
  apply Forall_cons in Hf as [[r Hr] Hf]. apply NoDup_cons in Hn as [Hx Hn]. apply NoDup_cons. split; [| by apply IH].
  intros (y & E & Hy)%list_elem_of_fmap. apply Hx. rewrite Forall_forall in Hf. destruct (Hf y Hy) as [r' Hr'].
  rewrite Hr, Hr' in E. cbn in E. subst. rewrite Hr, <- Hr'. by apply (list_elem_of_fmap_2 (fun x : Found => rel_key root x.1)).
Qed.

(** What is on the list of a share, and whether the hash is known. *)
Definition listed (d : Disk) (root : list bytes) (c : HashCache) (origin : gmap bytes FileMeta) (e : ShareManifestEntry) : Prop :=
  exists rel f, d_files d !! (root ++ rel) = Some f /\ not (hidden rel) /\
    e = {| me_path := join [47] rel; me_size := zlen (df_data f); me_mtime := df_mtime f;
           me_sha256 := default [] (cached c (root ++ rel) (zlen (df_data f)) (df_mtime f)); me_meta := origin !! join [47] rel |}.

Lemma elem_of_entries d root c origin w e : w ≡ₚ walk_share d root ->
  e ∈ isort entry_le (map (entry_of root c origin) w) <-> listed d root c origin e.
Proof.
  intros Hw. rewrite isort_perm, Hw, list_elem_of_fmap. split.
  - intros ([p f] & -> & (Hf & rel & -> & Hh)%elem_of_walk). exists rel, f. split_and!; [done | done |].
    unfold entry_of. cbn [fst snd]. by rewrite rel_key_app.
  - intros (rel & f & Hf & Hh & ->). exists (root ++ rel, f). split.
    + unfold entry_of. cbn [fst snd]. by rewrite rel_key_app.
    + apply elem_of_walk. split; [done |]. by exists rel.
Qed.

Lemma entries_order d root c origin w w' : disk_ok d -> w ≡ₚ walk_share d root -> w' ≡ₚ walk_share d root ->
  isort entry_le (map (entry_of root c origin) w) = isort entry_le (map (entry_of root c origin) w').
Proof.
  intros Hd Hw Hw'. apply (StronglySorted_unique_strong (fun a b => entry_le a b = true)); [| apply entry_le_sorted .. |].
  - intros x y Hx Hy Hxy Hyx. rewrite isort_perm in Hx, Hy. pose proof (NoDup_listed root c origin d w Hd Hw) as Hn.
    assert (Hp : me_path x = me_path y) by by apply bytes_leb_antisym.
    assert (Hy' : y ∈ map (entry_of root c origin) w) by (by rewrite Hw, <- Hw').
    apply list_elem_of_lookup in Hx as [i Hi], Hy' as [j Hj].
    assert (i = j) as ->; [| congruence].
    eapply NoDup_lookup; [exact Hn | by rewrite list_lookup_fmap, Hi | rewrite list_lookup_fmap, Hj; cbn; by rewrite Hp].
  - by rewrite !isort_perm, Hw, Hw'.
Qed.

(** The listing is the share. Whatever order the walk has, it lists each file of the
    share that has no reserved component in its path below the root, once, sorted by
    path, with its size, time and origin, and with a hash only if the cache knows one
    for this size and time; and the hash is that of the content as long as the cache
    tells the truth. Warming hashes every file, keeps the cache truthful, and the next
    listing is the manifest it built. *)
Theorem listing_exact (digest : bytes -> bytes) (d : Disk) (root : list bytes) (c : HashCache)
    (origin : gmap bytes FileMeta) (w : list Found) :
  disk_ok d -> w ≡ₚ walk_share d root ->
  exists es, build_listing root c (Some w) origin = Some {| entries := es |} /\
    NoDup (map me_path es) /\ StronglySorted (fun a b => entry_le a b = true) es /\
    (forall e, e ∈ es <-> listed d root c origin e) /\
    (forall w', w' ≡ₚ w -> build_listing root c (Some w') origin = build_listing root c (Some w) origin) /\
    (cache_ok digest d c -> forall rel f, d_files d !! (root ++ rel) = Some f ->
       forall e, e ∈ es -> me_path e = join [47] rel -> me_sha256 e = [] \/ me_sha256 e = Mirror.sha256_hex digest (df_data f)) /\
    (exists c' mf, build_manifest digest (fun _ => true) root c (Some w) origin = (c', Some mf) /\
       build_listing root c' (Some w) origin = Some mf /\ (cache_ok digest d c -> cache_ok digest d c') /\
       forall rel f, d_files d !! (root ++ rel) = Some f -> not (hidden rel) ->
         is_Some (cached c' (root ++ rel) (zlen (df_data f)) (df_mtime f))).
Proof.
  intros Hd Hw. pose proof (walk_keyed d root w Hd Hw) as Hk. unfold build_listing. cbn [mbind option_bind].
  rewrite listing_loop_spec by done. cbn [mbind option_bind]. eexists. split; [done |]. split_and!.
  - rewrite isort_perm. by apply (NoDup_listed root c origin d w).
  - apply entry_le_sorted.
  - intros e. by apply elem_of_entries.
  - intros w' Hw'. rewrite listing_loop_spec by (apply (walk_keyed d); by rewrite ?Hw'). cbn [mbind option_bind].
    do 2 f_equal. apply (entries_order d); by rewrite ?Hw'.
  - intros Hc rel f Hf e (rel' & f' & Hf' & _ & ->)%(elem_of_entries d); [| done]. cbn [me_path me_sha256]. intros E.
    apply join_dname_inj in E as ->.
    + destruct (cached _ _ _ _) as [sha |] eqn:Es; [right | by left]. cbn. assert (f' = f) as -> by congruence. by eapply Hc.
    + apply (dk_file d Hd) in Hf' as [Hf' _]. by apply Forall_app in Hf' as [_ Hf'].
    + apply (dk_file d Hd) in Hf as [Hf _]. by apply Forall_app in Hf as [_ Hf].
  - destruct (manifest_loop_spec digest root c w origin Hk) as (c' & Hm & _ & Hall & Hok). unfold build_manifest. rewrite Hm.
    eexists c', _. split; [done |]. rewrite listing_loop_spec by done. split_and!; [done | |].
    + apply Hok. apply Forall_forall. intros [p f] Hx. rewrite Hw in Hx. by apply elem_of_walk in Hx as [Hx _].
    + intros rel f Hf Hh. rewrite Forall_forall in Hall. apply (Hall (root ++ rel, f)). rewrite Hw. apply elem_of_walk.
      split; [done |]. by exists rel.
Qed.

Lemma elem_of_join c b ws : b <> c -> b ∈ join [c] ws <-> exists w, w ∈ ws /\ b ∈ w.
Proof.
  intros Hb. induction ws as [| w ws IH]; [cbn; split; [by intros ?%elem_of_nil | by intros (? & ?%elem_of_nil & _)] |].
  destruct (decide (ws = [])) as [-> | Hne].
  - cbn. split; [intros ?; exists w; by split; [left |] | by intros (v & ->%list_elem_of_singleton & ?)].
  - rewrite join_cons by done. rewrite !elem_of_app, list_elem_of_singleton, IH. split.
    + intros [? | [? | (v & ? & ?)]]; [exists w; by split; [left |] | done | exists v; by split; [right |]].
    + intros (v & [-> | Hv]%elem_of_cons & ?); [by left | right; right; by exists v].
Qed.

(** A path on the list can be asked for, unless a name holds a backslash. *)
Lemma clean_rel rel : rel <> [] -> Forall dname_ok rel -> not (hidden rel) ->
  named (join [47] rel) = rel /\ (clean (join [47] rel) <-> 92 ∉ join [47] rel).
Proof.
  intros Hne Hf Hh. assert (Hn : named (join [47] rel) = rel).
  { apply named_join; [done |]. eapply Forall_impl; [done |]. by intros w []. }
  split; [done |]. split; [by intros [] |]. intros Hb. unfold clean. rewrite Hn. rewrite Forall_forall in Hf. split_and!; [done | |].
  - rewrite elem_of_join by done. intros (w & Hw & H0). by destruct (Hf w Hw) as (_ & _ & ?).
  - apply Forall_forall. intros w Hw. destruct (Hf w Hw) as ((H1 & H2 & H3) & H4 & H5). split_and!; try done.
    + intros H. apply Hb. apply elem_of_join; [done |]. by exists w.
    + destruct (starts_with RESERVED_PREFIX w) eqn:E; [| done]. destruct Hh. apply Exists_exists. by exists w.
Qed.

Lemma listed_rel d root c origin e : disk_ok d -> root ∈ d_dirs d -> listed d root c origin e ->
  exists rel f, d_files d !! (root ++ rel) = Some f /\ rel <> [] /\ Forall dname_ok rel /\ not (hidden rel) /\
    me_path e = join [47] rel /\ me_size e = zlen (df_data f).
Proof.
  intros Hd Hr (rel & f & Hf & Hh & ->). exists rel, f. destruct (dk_file d Hd _ _ Hf) as [Hn Hdir].
  split_and!; try done; [| by apply Forall_app in Hn as [_ ?]]. intros ->. by rewrite app_nil_r in Hdir.
Qed.

Lemma dest_comps_names ws : Forall (fun w => 47 ∉ w) ws -> Forall (fun w => w <> [] /\ w <> str "." /\ w <> str "..") ws ->
  forall out, dest_comps ws out = Some (out ++ ws).
Proof.
  induction ws as [| w ws IH]; intros H1 H2 out; [cbn; by rewrite app_nil_r |].
  apply Forall_cons in H1 as [Hs H1], H2 as [(Ha & Hb & Hc) H2]. cbn [dest_comps].
  rewrite !(bool_decide_false (w = _)) by done. cbn [orb]. rewrite component_strict by done.
  rewrite IH by done. by rewrite <- app_assoc.
Qed.

(** A consumer writes a listed path where it lies in the share. *)
Lemma safe_dest_listed rel : rel <> [] -> Forall dname_ok rel -> 92 ∉ join [47] rel ->
  safe_dest [] (join [47] rel) = Some (split 47 (join [47] rel)).
Proof.
  intros Hne Hf Hb. assert (Hs : Forall (fun w => 47 ∉ w) rel) by (eapply Forall_impl; [done |]; by intros w [[] _]).
  unfold safe_dest. rewrite split_join by done. replace (starts_with [47] (join [47] rel)) with false.
  2:{ destruct (starts_with [47] (join [47] rel)) eqn:E; [| done]. apply starts_with_spec in E as [r E].
      assert (E2 : split 47 (join [47] rel) = [] :: split 47 r) by (rewrite E; reflexivity).
      rewrite split_join in E2 by done. subst rel. apply Forall_cons in Hf as [[[_ [? _]] _] _]. done. }
  rewrite (proj2 (contains_char_false 92 _) Hb). replace (contains_char 0 (join [47] rel)) with false.
  2:{ symmetry. apply contains_char_false. rewrite elem_of_join by done. intros (w & Hw & H0). rewrite Forall_forall in Hf.
      by destruct (Hf w Hw) as (_ & _ & ?). }
  cbn [orb]. rewrite (dest_comps_names rel) by (done || (eapply Forall_impl; [exact Hf |]; intros w ((_ & H1 & H2) & H3 & _); auto)).
  cbn [app]. by destruct rel.
Qed.

(** A listing without backslashes and names of partial downloads can be mirrored. *)
Lemma listing_manifest_ok d root c origin w es : disk_ok d -> root ∈ d_dirs d -> w ≡ₚ walk_share d root ->
  build_listing root c (Some w) origin = Some {| entries := es |} ->
  Forall (fun e => (92 ∉ me_path e) /\ is_part (split 47 (me_path e)) = false) es -> manifest_ok {| entries := es |}.
Proof.
  intros Hd Hr Hw Hb Hf. pose proof (walk_keyed d root w Hd Hw) as Hk.
unfold build_listing in Hb. cbn [mbind option_bind] in Hb.
    rewrite listing_loop_spec in Hb by done. injection Hb as <-. split; cbn [entries].
  - rewrite Forall_forall in Hf. apply Forall_forall. intros p (e & -> & He)%list_elem_of_fmap. destruct (Hf e He) as [H1 H2]. split; [| done].
      apply (elem_of_entries d) in He; [| done]. apply listed_rel in He as (rel & f & _ & Hne & Hn & _ & E & _); [| done | done].
      rewrite E in *. by apply safe_dest_listed.
  - rewrite isort_perm. by apply (NoDup_listed root c origin d w).
Qed.

(** what is listed is served, and the other way round. A request whose path is on the
    list of a share reaches exactly the listed file, unless a name in it holds a
    backslash: that one is refused, although it is listed. Whatever existing file a
    request reaches is listed. And a listing without backslashes and names of partial
    downloads is a manifest a mirror can follow: every path on it is written where it
    lies in the share. *)
Theorem listing_served (d : Disk) (root : list bytes) (c : HashCache) (origin : gmap bytes FileMeta) :
  disk_ok d -> root ∈ d_dirs d ->
  (forall e, listed d root c origin e ->
     (92 ∉ me_path e -> exists f, resolve_within (canonicalize_in d) root (me_path e) = Some (Ok (root ++ split 47 (me_path e))) /\
        d_files d !! (root ++ split 47 (me_path e)) = Some f /\ me_size e = zlen (df_data f)) /\
     (92 ∈ me_path e -> resolve_within (canonicalize_in d) root (me_path e) = Some (Err InvalidComponent))) /\
  (forall req p f, resolve_within (canonicalize_in d) root req = Some (Ok p) -> d_files d !! p = Some f ->
     exists e, listed d root c origin e /\ me_path e = join [47] (named req)) /\
  (forall w es, w ≡ₚ walk_share d root -> build_listing root c (Some w) origin = Some {| entries := es |} ->
     Forall (fun e => (92 ∉ me_path e) /\ is_part (split 47 (me_path e)) = false) es -> manifest_ok {| entries := es |}).
Proof.
  intros Hd Hr. split_and!.
  - intros e (rel & f & Hf & Hne & Hn & Hh & -> & ->)%listed_rel; [| done | done].
    destruct (clean_rel rel Hne Hn Hh) as [Hnamed Hclean].
    rewrite split_join by (done || (eapply Forall_impl; [done |]; by intros w [[] _])).
    destruct (resolve_disk d root (join [47] rel) Hr) as [[H1 H2] | [H1 H2]]; rewrite ?Hnamed in H2; split.
    + intros _. by exists f.
    + intros Hb. by apply Hclean in H1.
    + intros Hb%Hclean. done.
    + done.
  - intros req p f Hreq Hf. destruct (resolve_disk d root req Hr) as [[Hc E] | [_ E]]; [| congruence].
    assert (p = root ++ named req) as -> by congruence. destruct Hc as (_ & _ & Hc). eexists. split.
    + exists (named req), f. split_and!; [done | | reflexivity]. intros (w & Hw & Hb)%Exists_exists.
      rewrite Forall_forall in Hc. destruct (Hc w Hw) as (_ & _ & _ & _ & _ & _ & Hres). unfold is_reserved in Hb. congruence.
    + done.
  - intros w es. by apply (listing_manifest_ok d root c origin).
Qed.

(** A file with a backslash in its name is listed and cannot be fetched. *)
Definition ex_disk : Disk :=
  {| d_files := <[[str "s"; str "a.txt"] := {| df_data := [1]; df_mtime := 5 |}]>
       (<[[str "s"; str "b\c"] := {| df_data := [2]; df_mtime := 5 |}]>
       (<[[str "s"; str ".xr-part-9"] := {| df_data := [3]; df_mtime := 5 |}]> ∅));
     d_dirs := {[ []; [str "s"] ]} |}.

Example backslash_listed_not_served :
  option_map (fun m => map me_path (entries m)) (build_listing [str "s"] ∅ (Some (walk_share ex_disk [str "s"])) ∅) =
    Some [str "a.txt"; str "b\c"] /\
  resolve_within (canonicalize_in ex_disk) [str "s"] (str "a.txt") = Some (Ok [str "s"; str "a.txt"]) /\
  resolve_within (canonicalize_in ex_disk) [str "s"] (str "b\c") = Some (Err InvalidComponent).
Proof. by vm_compute. Qed.

(** ** Origins *)

Definition rels (root : list bytes) (w : list Found) : gset bytes := list_to_set (omap (fun x => rel_key root x.1) w).

(** What the name of the first file of the walk with this key says. *)
Definition guess (root : list bytes) (w : list Found) (rel : bytes) : option FileMeta :=
  x ← List.find (fun x : Found => bool_decide (rel_key root x.1 = Some rel)) w; from_name (default [] (last x.1)).

Lemma backfill_fold root w files present filled : keyed root w ->
  exists files' filled', foldl (backfill_one root) (files, present, filled) w = (files', present ∪ rels root w, filled') /\
    (forall rel, files' !! rel = match files !! rel with Some m => Some m | None => guess root w rel end) /\
    (filled <= filled')%nat /\ (size files' + filled = size files + filled')%nat.
Proof.
  revert files present filled. induction w as [| [p f] w IH]; intros files present filled Hk.
  { exists files, filled. cbn. split_and!; [do 2 f_equal; set_solver | intros rel; by destruct (files !! rel) | lia | lia]. }
  destruct (keyed_cons root p f w Hk) as (rel & Hrel & Hw & _ & Hne). cbn [foldl]. unfold backfill_one at 2. cbn [fst]. rewrite Hrel.
  assert (Hset : {[rel]} ∪ present ∪ rels root w = present ∪ rels root ((p, f) :: w)).
  { unfold rels. cbn [omap list_omap fst]. rewrite Hrel. cbn [list_to_set]. set_solver. }
  assert (Hg : forall r, guess root ((p, f) :: w) r = if bool_decide (r = rel) then from_name (default [] (last p)) else guess root w r).
  { intros r. unfold guess. cbn [List.find fst]. rewrite Hrel. case_bool_decide as E1; case_bool_decide as E2; try congruence; done. }
  assert (Hgw : guess root w rel = None).
  { unfold guess. destruct (List.find _ w) as [x |] eqn:Ef; [| done]. apply find_some in Ef as [Hx%list_elem_of_In E%bool_decide_eq_true].
    destruct (Hne x Hx). by rewrite E. }
  destruct (files !! rel) as [m |] eqn:Em; [| destruct (from_name (default [] (last p))) as [m |] eqn:Ename].
  - destruct (IH files ({[rel]} ∪ present) filled Hw) as (files' & filled' & -> & H1 & H2). exists files', filled'.
    rewrite Hset. split_and!; [done | | tauto | tauto]. intros r. rewrite H1, Hg. case_bool_decide; [subst; by rewrite Em | done].
  - destruct (IH (<[rel := m]> files) ({[rel]} ∪ present) (S filled) Hw) as (files' & filled' & -> & H1 & H2 & H3). exists files', filled'.
    rewrite Hset. rewrite map_size_insert_None in H3 by done. split_and!; [done | | lia | lia]. intros r. rewrite H1, Hg.
    case_bool_decide as E; [subst; by rewrite lookup_insert_eq, Em | by rewrite lookup_insert_ne].
  - destruct (IH files ({[rel]} ∪ present) filled Hw) as (files' & filled' & -> & H1 & H2). exists files', filled'.
    rewrite Hset. split_and!; [done | | tauto | tauto]. intros r. rewrite H1, Hg. case_bool_decide; [subst; by rewrite Em, Hgw | done].
Qed.

Lemma load_Some files : load (Some files) = files.
Proof. done. Qed.

(** What the index of origins holds. Recording sets the rows that say something, the
    last one of a path winning, and touches no other; forgetting removes that row and no
    other; the pass at startup leaves one row per file of the share at most: the old one
    if there was one, else what the name of the file gives away, and no row for a file
    that is gone. Whatever cannot be written leaves the old index. *)
Theorem origin_index_exact (root : list bytes) (stored : option OriginIndex) (w : list Found) :
  (forall rows rel, load (record stored rows true) !! rel =
     match last (List.filter (fun r => bool_decide (r.1 = rel) && negb (FileMeta_is_empty r.2)) rows) with
     | Some r => Some r.2 | None => load stored !! rel end) /\
  (forall rel r, load (forget stored rel true) !! r = if bool_decide (r = rel) then None else load stored !! r) /\
  (keyed root w -> forall rel, load (backfill root w stored true) !! rel =
     if bool_decide (rel ∈ rels root w) then match load stored !! rel with Some m => Some m | None => guess root w rel end else None) /\
  (forall rows rel, record stored rows false = stored /\ forget stored rel false = stored /\ backfill root w stored false = stored).
Proof.
  split_and!.
  - intros rows rel. unfold record. destruct (forallb _ rows) eqn:Ea.
    + replace (List.filter _ rows) with (@nil (bytes * FileMeta)); [done |]. symmetry. rewrite forallb_forall in Ea.
      induction rows as [| r rows IH]; [done |]. cbn [List.filter]. rewrite (Ea r (or_introl eq_refl)). cbn [negb].
      rewrite andb_false_r. apply IH. intros x Hx. apply Ea. by right.
    + clear Ea. unfold save. rewrite load_Some. generalize (load stored) as files.
      induction rows as [| r rows IH] using rev_ind; intros files; [done |].
      rewrite foldl_app, List.filter_app. cbn [foldl List.filter]. destruct (FileMeta_is_empty r.2); cbn [negb].
      * rewrite andb_false_r, app_nil_r. apply IH.
      * rewrite andb_true_r. case_bool_decide as E; [subst; by rewrite last_snoc, lookup_insert_eq |].
        rewrite app_nil_r, lookup_insert_ne by done. apply IH.
  - intros rel r. unfold forget. destruct (load stored !! rel) as [m |] eqn:E; unfold save; rewrite ?load_Some; case_bool_decide as Er; subst; try done.
    + apply lookup_delete_eq. + by apply lookup_delete_ne.
  - intros Hk rel. unfold backfill. destruct (backfill_fold root w (load stored) ∅ 0 Hk) as (files & filled & -> & Hf & _ & Hsz).
    set (kept := filter (fun x : bytes * FileMeta => x.1 ∈ ∅ ∪ rels root w) files).
    assert (Hkept : kept !! rel = if bool_decide (rel ∈ rels root w) then match load stored !! rel with Some m => Some m | None => guess root w rel end else None).
    { unfold kept. case_bool_decide as Hr.
      - rewrite <- Hf. destruct (files !! rel) as [m |] eqn:E.
        + apply map_lookup_filter_Some. split; [done |]. cbn. set_solver.
        + apply map_lookup_filter_None. by left.
      - apply map_lookup_filter_None. right. intros m _. cbn. set_solver. }
    destruct (_ && _) eqn:E; [| done]. apply andb_true_iff in E as [-> %Nat.eqb_eq Hdrop%Nat.eqb_eq].
    assert (Hall : kept = files).
    { apply map_subseteq_size_eq; [apply map_filter_subseteq | lia]. }
    rewrite <- Hkept, Hall, Hf. destruct (load stored !! rel) as [m |] eqn:Em; [done |].
    destruct (guess root w rel) as [m |] eqn:Eg; [| done]. exfalso.
    assert (Hin : files !! rel = Some m) by (by rewrite Hf, Em).
    enough (size (load stored) < size files)%nat by lia. apply map_subset_size.
    split; [intros r; rewrite Hf; destruct (load stored !! r); [done | by destruct (guess root w r)] |].
    intros Hsub. specialize (Hsub rel). rewrite Hin, Em in Hsub. done.
  - intros rows rel. unfold record, forget, backfill, save. destruct (forallb _ _), (load stored !! rel), (foldl _ _ _) as [[? ?] ?];
      repeat case_match; done.
Qed.

(** ** Witnesses *)

Definition dname_okb (w : bytes) : bool :=
  negb (contains_char 47 w) && negb (bool_decide (w = [])) && negb (bool_decide (w = str ".")) &&
  negb (bool_decide (w = str "..")) && negb (contains_char 0 w).

Definition path_okb (d : Disk) (p : list bytes) : bool :=
  forallb dname_okb p && match p with [] => true | _ => bool_decide (removelast p ∈ d_dirs d) end.

Definition disk_okb (d : Disk) : bool :=
  forallb (fun x => path_okb d x.1 && negb (bool_decide (x.1 ∈ d_dirs d))) (map_to_list (d_files d)) &&
  forallb (path_okb d) (elements (d_dirs d)).

Lemma path_okb_spec d p : path_okb d p = true -> Forall dname_ok p /\ forall q c, p = q ++ [c] -> q ∈ d_dirs d.
Proof.
  unfold path_okb. intros [Hn Hp]%andb_true_iff. split.
  - apply Forall_forall. intros w Hw%list_elem_of_In. rewrite forallb_forall in Hn. specialize (Hn w Hw). unfold dname_okb in Hn.
    rewrite !andb_true_iff, !negb_true_iff, !bool_decide_eq_false, !contains_char_false in Hn. unfold dname_ok, name_ok. tauto.
  - intros q c ->. destruct (q ++ [c]) eqn:E; [by destruct q |]. rewrite <- E, List.removelast_last in Hp. by apply bool_decide_eq_true in Hp.
Qed.

Lemma disk_okb_spec d : disk_okb d = true -> disk_ok d.
Proof.
  unfold disk_okb. rewrite andb_true_iff, !forallb_forall. intros [Hf Hd].
  assert (Hf' : forall p f, d_files d !! p = Some f -> path_okb d p = true /\ p ∉ d_dirs d).
  { intros p f Hp. specialize (Hf (p, f)). rewrite <- list_elem_of_In, elem_of_map_to_list, andb_true_iff, negb_true_iff, bool_decide_eq_false in Hf.
    by apply Hf. }
  assert (Hd' : forall p, p ∈ d_dirs d -> path_okb d p = true) by (intros p Hp; apply Hd; by apply list_elem_of_In, elem_of_elements).
  split.
  - intros p f [Hp Hn]%Hf'. by apply path_okb_spec in Hp as [? _].
  - intros p Hp%Hd'. by apply path_okb_spec in Hp as [? _].
  - intros p c [[f Hp%Hf'] | Hp%Hd']; [destruct Hp as [Hp _] |]; apply path_okb_spec in Hp as [_ Hp]; by apply (Hp p c).
Qed.

Lemma ex_tree_ok : disk_ok ex_disk.
Proof. apply disk_okb_spec. vm_compute. reflexivity. Qed.

Lemma listing_exact_witness : exists es,
  build_listing [str "s"] ∅ (Some (walk_share ex_disk [str "s"])) ∅ = Some {| entries := es |} /\ NoDup (map me_path es).
Proof.
  destruct (listing_exact (fun b => b) ex_disk [str "s"] ∅ ∅ (walk_share ex_disk [str "s"]) ex_tree_ok) as (es & H1 & H2 & _); [apply Permutation_refl |].
  exists es. split; [exact H1 | exact H2].
Defined.

Lemma listing_served_witness :
  resolve_within (canonicalize_in ex_disk) [str "s"] (str "b\c") = Some (Err InvalidComponent).
Proof.
  destruct (listing_served ex_disk [str "s"] ∅ ∅ ex_tree_ok) as [H _]; [vm_compute; reflexivity |].
  apply (H {| me_path := str "b\c"; me_size := 1; me_mtime := 5; me_sha256 := []; me_meta := None |}).
  - exists [str "b\c"], {| df_data := [2]; df_mtime := 5 |}. split_and!; [vm_compute; reflexivity | | vm_compute; reflexivity].
    intros Hh. by vm_compute in Hh; inversion Hh; subst; [| match goal with Hx : Exists _ [] |- _ => inversion Hx end].
  - apply contains_char_spec. vm_compute. reflexivity.
Defined.
