(* ===== verification/Agent.v ===== *)
(** * The share agent (xr-share/src/auth.rs, server.rs)

    The token of a request, the gates in front of every route, reading, and the write
    path. A write is a machine whose steps are the stretches between two [await]s: the
    gates, the hash of the current file, the folder, the temp file, the frames of the
    body, the sync, the rename, and what follows it; what the disk and the client do is
    the argument of the step. Many writes run at once over one disk, one cache and one
    index; the owner edits the share meanwhile. Times are whole seconds. *)

From S2P Require Import Prelude Text Order SafePath Share Sync Mirror Fallback ShareFiles.

(** ** Requests *)

(** Header names are lower-case; a frame of a body carries data or trailers. *)
Inductive BodyFrame := FData (data : bytes) | FTrailers.

Record Request := { rq_headers : list (bytes * bytes); rq_query : option bytes; rq_body : list BodyFrame }.

Definition body_data (fs : list BodyFrame) : bytes := fs ≫= fun f => match f with FData b => b | FTrailers => [] end.

(** [HeaderValue::to_str]: visible ASCII and tabs. *)
Definition to_str (v : bytes) : option bytes :=
  if forallb (fun b => in_rng 32 126 b || (b =? 9)) v then Some v else None.

Definition header_get (name : bytes) (hs : list (bytes * bytes)) : option bytes :=
  snd <$> List.find (fun h => bool_decide (h.1 = name)) hs.

Definition header_str (req : Request) (name : bytes) : option bytes := header_get name (rq_headers req) ≫= to_str.

Definition header_value (req : Request) (name : bytes) : option bytes := trim <$> header_str req name.

Definition bearer (req : Request) : option bytes := header_value req (str "authorization") ≫= strip_prefix (str "Bearer ").

Definition find_map {A B} (f : A -> option B) : list A -> option B :=
  fix go l := match l with [] => None | x :: l => match f x with Some y => Some y | None => go l end end.

Definition query_token (req : Request) : option bytes :=
  q ← rq_query req; find_map (strip_prefix (str "token=")) (split 38 q).

Definition or_else {A} (x y : option A) : option A := match x with Some _ => x | None => y end.

(** The first of the three places that holds anything. *)
Definition token_blob (req : Request) : option bytes :=
  or_else (or_else (bearer req) (header_value req (str "x-share-token"))) (query_token req).

Definition content_length (req : Request) : option Z := header_str req (str "content-length") ≫= parse_u64.

Fixpoint trim_quotes_start (l : bytes) : bytes :=
  match l with b :: l' => if b =? 34 then trim_quotes_start l' else l | [] => [] end.
Definition trim_quotes (l : bytes) : bytes := rev (trim_quotes_start (rev (trim_quotes_start l))).

Definition if_match_hash (req : Request) : option bytes :=
  v ← header_str req (str "if-match");
  let v := trim_quotes (trim v) in
  if negb (bool_decide (v = [])) && negb (bool_decide (v = str "*")) then Some v else None.

(** ** Shares *)

Record ShareRoot := { sh_path : list bytes; sh_is_file : bool; sh_writable : bool; sh_import : bool }.

Abbreviation SharesMap := (gmap bytes ShareRoot).

Record ShareEntry := { se_share_id : bytes; se_path : bytes; se_writable : bool; se_import : bool }.

(** [canon] is [fs::canonicalize] of a configured path. *)
Definition build_share (canon : bytes -> option (list bytes)) (d : Disk) (m : SharesMap) (e : ShareEntry) : SharesMap :=
  match canon (se_path e) with
  | None => m
  | Some p =>
      let is_file := bool_decide (is_Some (d_files d !! p)) in
      if negb is_file && negb (bool_decide (p ∈ d_dirs d)) then m else
      let writable := se_writable e && negb is_file in
      <[se_share_id e := {| sh_path := p; sh_is_file := is_file; sh_writable := writable;
                            sh_import := se_import e && writable |}]> m
  end.

Definition build_shares (canon : bytes -> option (list bytes)) (d : Disk) (entries : list ShareEntry) : SharesMap :=
  foldl (build_share canon d) ∅ entries.

Fixpoint strip_all (p : bytes) (fuel : nat) (s : bytes) : bytes :=
  match fuel with
  | O => s
  | S fuel => match strip_prefix p s with Some r => strip_all p fuel r | None => s end
  end.

(** [trim_start_matches] of a string pattern. *)
Definition trim_start_matches (p s : bytes) : bytes := strip_all p (S (length s)) s.

Definition share_resolve (d : Disk) (s : ShareRoot) (rel : bytes) : option (list bytes) :=
  if sh_is_file s then
    name ← last (sh_path s);
    let asked := trim_start_matches (str "./") (trim_start_matches (str "/") rel) in
    if bool_decide (asked = name) then Some (sh_path s) else None
  else match resolve_within (canonicalize_in d) (sh_path s) rel with Some (Ok p) => Some p | _ => None end.

(** ** The agent *)

Record AgentState := { ag_hub_key : bytes; ag_identity : option bytes; ag_max_file_mb : option Z }.

(** What changes while it runs. [w_index] is the index file of each root. *)
Record World := {
  w_disk : Disk; w_cache : HashCache; w_index : gmap (list bytes) OriginIndex; w_shares : SharesMap
}.

Definition set_disk (w : World) (d : Disk) : World :=
  {| w_disk := d; w_cache := w_cache w; w_index := w_index w; w_shares := w_shares w |}.
Definition set_cache (w : World) (c : HashCache) : World :=
  {| w_disk := w_disk w; w_cache := c; w_index := w_index w; w_shares := w_shares w |}.
Definition set_index (w : World) (root : list bytes) (ix : option OriginIndex) : World :=
  {| w_disk := w_disk w; w_cache := w_cache w;
     w_index := match ix with Some ix => <[root := ix]> (w_index w) | None => w_index w end; w_shares := w_shares w |}.

(** A status and its text. *)
Abbreviation Refusal := (Z * bytes)%type.

Definition cap_bytes (a : AgentState) : option Z := (fun mb => Z.min U64_MAX (mb * (1024 * 1024))) <$> ag_max_file_mb a.

(** ** Writing: the machines *)

(** Where a write waits: for the stat and the read of the current file, for the folder,
    the temp file, a frame, the sync, the rename, and the stretch after it. *)
Inductive PutPc :=
| PStat | PRead (size mtime : Z) | PMkdir | PCreate
| PBody (tmp : list bytes) (rest : list BodyFrame) (data : bytes)
| PSync (tmp : list bytes) (data : bytes) | PRename (tmp : list bytes) (data : bytes) | PSeed (data : bytes).

Inductive DeletePc := DStat | DRead (size mtime : Z) | DRemove | DForget.

(** What the system answers. [rm] tells whether the cleaning of the temp file worked. *)
Inductive TaskIn :=
| StatIo
| ReadIo (ok : bool)
| MkdirIo (fail : option nat)
| CreateIo (name : bytes) (now : Z) (error : option (option Z))
| FrameIo (now : Z) (error : option (option Z)) (rm : bool)
| BodyError (rm : bool)
| SyncIo (error : option (option Z)) (rm : bool)
| RenameIo (ok rm : bool)
| RemoveIo (ok : bool)
| AfterIo (index_written : bool).

Inductive Outcome (P : Type) := Go (pc : P) | Answer (status : Z).
Arguments Go {P}. Arguments Answer {P}.

Section agent.
Context `{Base64} `{Ed25519}.
(** The URL-safe engine of base64, serde's token, SHA-256. *)
Context (url_decode : bytes -> option bytes) (token_of_json : bytes -> option ShareToken) (digest : bytes -> bytes).

Definition decode_token_blob (blob : bytes) : option ShareToken := url_decode (trim blob) ≫= token_of_json.

Definition extract_token (req : Request) : option ShareToken := token_blob req ≫= decode_token_blob.

Definition check_token (a : AgentState) (share_id required_scope : bytes) (req : Request) (now : Z) : result unit Refusal :=
  match extract_token req with
  | None => Err (401, str "missing or malformed token")
  | Some t =>
      match verify_share_token t (ag_hub_key a) share_id required_scope now with
      | Ok _ => Ok tt
      | Err _ => Err (403, str "token rejected")
      end
  end.

Definition token_share_id (req : Request) : result bytes Refusal :=
  match extract_token req with Some t => Ok (st_share_id t) | None => Err (401, str "missing or malformed token") end.

(** ** Reading *)

Definition file_response (a : AgentState) (w : World) (share_id rel : bytes) (req : Request) (now : Z) : result (list bytes) Refusal :=
  match w_shares w !! share_id with
  | None => Err (404, str "no such share")
  | Some share =>
      match check_token a share_id SCOPE_READ req now with
      | Err e => Err e
      | Ok _ => match share_resolve (w_disk w) share rel with None => Err (403, str "path rejected") | Some p => Ok p end
      end
  end.

(** [ServeFile] on what was resolved. *)
Definition served_bytes (w : World) (r : result (list bytes) Refusal) : result bytes Refusal :=
  match r with
  | Err e => Err e
  | Ok p => match d_files (w_disk w) !! p with Some f => Ok (df_data f) | None => Err (404, []) end
  end.

Definition serve_file_legacy (a : AgentState) (w : World) (rel : bytes) (req : Request) (now : Z) : result (list bytes) Refusal :=
  match token_share_id req with Err e => Err e | Ok id => file_response a w id rel req now end.

(** The gates of a listing; the build runs on a blocking thread. *)
Definition manifest_gates (a : AgentState) (w : World) (share_id : bytes) (req : Request) (now : Z) : result unit Refusal :=
  match w_shares w !! share_id with
  | None => Err (404, str "no such share")
  | Some _ => check_token a share_id SCOPE_READ req now
  end.

Definition share_listing (w : World) (s : ShareRoot) (walk : option (list Found)) : option ShareManifest :=
  if sh_is_file s then build_listing_for_file (w_disk w) (sh_path s) (w_cache w)
  else build_listing (sh_path s) (w_cache w) walk (load (w_index w !! sh_path s)).

(** The body and the two headers; [to_json] is serde. *)
Definition signed_manifest_response (to_json : ShareManifest -> bytes) (a : AgentState) (share_id : bytes) (mf : ShareManifest)
    (now : Z) : ManifestAnswer :=
  let body := to_json mf in
  {| fa_status := 200;
     fa_sig := (fun k => sign_share_manifest k share_id now body) <$> ag_identity a;
     fa_signed_at := (fun _ => now) <$> ag_identity a;
     fa_body := Some body |}.

Definition refused (e : Refusal) : ManifestAnswer :=
  {| fa_status := e.1; fa_sig := None; fa_signed_at := None; fa_body := Some e.2 |}.

(** [w1] is the world when the gates look, [w2] when the thread builds. *)
Definition manifest_response (to_json : ShareManifest -> bytes) (a : AgentState) (w1 w2 : World) (share_id : bytes) (req : Request)
    (walk : option (list Found)) (now : Z) : ManifestAnswer :=
  match manifest_gates a w1 share_id req now with
  | Err e => refused e
  | Ok _ =>
      match w_shares w2 !! share_id ≫= fun s => share_listing w2 s walk with
      | None => refused (500, str "manifest error")
      | Some mf => signed_manifest_response to_json a share_id mf now
      end
  end.

Definition get_manifest_legacy (to_json : ShareManifest -> bytes) (a : AgentState) (w1 w2 : World) (req : Request)
    (walk : option (list Found)) (now : Z) : ManifestAnswer :=
  match token_share_id req with
  | Err e => refused e
  | Ok id => manifest_response to_json a w1 w2 id req walk now
  end.

(** ** Writing: the gates *)

Definition is_file_on (d : Disk) (p : list bytes) : bool := bool_decide (is_Some (d_files d !! p)).
Definition is_dir_on (d : Disk) (p : list bytes) : bool := bool_decide (p ∈ d_dirs d).

(** The gates a PUT and a DELETE share: the target and the root of the share. *)
Definition write_gates (a : AgentState) (w : World) (share_id rel : bytes) (req : Request) (now : Z) :
    result (list bytes * list bytes) Refusal :=
  match w_shares w !! share_id with
  | None => Err (404, str "no such share")
  | Some share =>
      if negb (sh_writable share) then Err (403, str "share is read-only") else
      match check_token a share_id SCOPE_WRITE req now with
      | Err e => Err e
      | Ok _ =>
          match resolve_within (canonicalize_in (w_disk w)) (sh_path share) rel with
          | Some (Ok target) => Ok (target, sh_path share)
          | _ => Err (403, str "path rejected")
          end
      end
  end.

Record PutJob := {
  pj_target : list bytes; pj_root : list bytes; pj_existed : bool;
  pj_want : option bytes; pj_expected_sha : option bytes; pj_body : list BodyFrame
}.

(** The first stretch of a PUT, up to the hash of the current file. *)
Definition put_start (a : AgentState) (w : World) (share_id rel : bytes) (req : Request) (now : Z) : result PutJob Refusal :=
  match write_gates a w share_id rel req now with
  | Err e => Err e
  | Ok (target, root) =>
      if is_dir_on (w_disk w) target then Err (409, str "target is a directory") else
      let existed := is_file_on (w_disk w) target in
      if match cap_bytes a, content_length req with Some cap, Some len => cap <? len | _, _ => false end
      then Err (413, str "file too large") else
      if match header_str req (str "if-none-match") with
         | Some v => bool_decide (trim v = str "*") && existed | None => false end
      then Err (412, str "target already exists") else
      if match if_match_hash req with Some _ => negb existed | None => false end
      then Err (412, str "no current version to match") else
      Ok {| pj_target := target; pj_root := root; pj_existed := existed; pj_want := if_match_hash req;
            pj_expected_sha := trim <$> header_str req (str "x-xr-sha256"); pj_body := rq_body req |}
  end.

Record DeleteJob := { dj_target : list bytes; dj_root : list bytes; dj_want : option bytes }.

Definition delete_start (a : AgentState) (w : World) (share_id rel : bytes) (req : Request) (now : Z) : result DeleteJob Refusal :=
  match write_gates a w share_id rel req now with
  | Err e => Err e
  | Ok (target, root) =>
      if is_dir_on (w_disk w) target then Err (409, str "target is a directory") else
      if negb (is_file_on (w_disk w) target) then Err (404, str "no such file") else
      Ok {| dj_target := target; dj_root := root; dj_want := if_match_hash req |}
  end.

(** ** Writing: the disk *)

Definition prefixes (p : list bytes) : list (list bytes) := map (fun n => take n p) (seq 0 (S (length p))).

Definition set_files (d : Disk) (fs : gmap (list bytes) DFile) : Disk := {| d_files := fs; d_dirs := d_dirs d |}.

Definition add_dirs (d : Disk) (ps : list (list bytes)) : Disk := {| d_files := d_files d; d_dirs := list_to_set ps ∪ d_dirs d |}.

(** [create_dir_all]; a failing one may have made the first [n] of the folders. *)
Definition create_dir_all (d : Disk) (p : list bytes) (fail : option nat) : Disk * bool :=
  if existsb (is_file_on d) (prefixes p) then (d, false) else
  match fail with
  | None => (add_dirs d (prefixes p), true)
  | Some n => (add_dirs d (take n (prefixes p)), false)
  end.

Definition create_file (d : Disk) (p : list bytes) (now : Z) : option Disk :=
  if is_dir_on d p || negb (is_dir_on d (removelast p)) then None
  else Some (set_files d (<[p := {| df_data := []; df_mtime := now |}]> (d_files d))).

Definition append_file (d : Disk) (p : list bytes) (data : bytes) (now : Z) : Disk :=
  set_files d (alter (fun f => {| df_data := df_data f ++ data; df_mtime := now |}) p (d_files d)).

(** A removal whose failure is ignored. *)
Definition remove_file (d : Disk) (p : list bytes) (ok : bool) : Disk := if ok then set_files d (delete p (d_files d)) else d.

Definition rename_replace (d : Disk) (from to : list bytes) : option Disk :=
  f ← d_files d !! from;
  if is_dir_on d to || negb (is_dir_on d (removelast to)) then None
  else Some (set_files d (<[to := f]> (delete from (d_files d)))).

(** [io_status] of a raw OS error. *)
Definition io_status (code : option Z) : Z :=
  match code with Some c => if (c =? 28) || (c =? 112) then 507 else 500 | None => 500 end.

(** ** Writing: the steps *)

(** [hash_of]: the stat and a look into the cache, then the read; [next] follows a hash
    that matches. *)
Definition compare_hash {P} (current want : bytes) (next : P) : Outcome P :=
  if eq_ignore_ascii_case current want then Go next else Answer 412.

Definition stat_step {P} (w : World) (target : list bytes) (want : bytes) (read : Z -> Z -> P) (next : P) : Outcome P :=
  match d_files (w_disk w) !! target with
  | None => Answer 500
  | Some f =>
      match cached (w_cache w) target (zlen (df_data f)) (df_mtime f) with
      | Some sha => compare_hash sha want next
      | None => Go (read (zlen (df_data f)) (df_mtime f))
      end
  end.

Definition read_step {P} (w : World) (target : list bytes) (want : bytes) (size mtime : Z) (ok : bool) (next : P) :
    World * Outcome P :=
  match if ok then d_files (w_disk w) !! target else None with
  | None => (w, Answer 500)
  | Some f =>
      let sha := Mirror.sha256_hex digest (df_data f) in
      (set_cache w (seed (w_cache w) target size mtime sha), compare_hash sha want next)
  end.

Definition UPLOAD_TEMP_PREFIX : bytes := str ".xr-part-".

(** The removal of the temp file of a failed upload. *)
Definition cleaned (w : World) (tmp : list bytes) (rm : bool) : World := set_disk w (remove_file (w_disk w) tmp rm).

(** The announced hash, before the file is published. *)
Definition after_stream (w : World) (j : PutJob) (tmp : list bytes) (data : bytes) (rm : bool) : World * Outcome PutPc :=
  if match pj_expected_sha j with
     | Some want => negb (eq_ignore_ascii_case (Mirror.sha256_hex digest data) want) | None => false end
  then (cleaned w tmp rm, Answer 422) else (w, Go (PRename tmp data)).

(** The frames of the body, and the sync; [None] where the answer is not one it waits for. *)
Definition stream_to_temp (a : AgentState) (w : World) (j : PutJob) (pc : PutPc) (i : TaskIn) : option (World * Outcome PutPc) :=
  match pc, i with
  | PBody tmp [] data, FrameIo _ _ _ => Some (w, Go (PSync tmp data))
  | PBody tmp (FTrailers :: rest) data, FrameIo _ _ _ => Some (w, Go (PBody tmp rest data))
  | PBody tmp (FData b :: rest) data, FrameIo now error rm =>
      if match cap_bytes a with Some cap => cap <? zlen (data ++ b) | None => false end then Some (cleaned w tmp rm, Answer 413) else
      match error with
      | Some e => Some (cleaned w tmp rm, Answer (io_status e))
      | None => Some (set_disk w (append_file (w_disk w) tmp b now), Go (PBody tmp rest (data ++ b)))
      end
  | PBody tmp _ _, BodyError rm => Some (cleaned w tmp rm, Answer 400)
  | PSync tmp data, SyncIo error rm =>
      match error with
      | Some e => Some (cleaned w tmp rm, Answer (io_status e))
      | None => Some (after_stream w j tmp data rm)
      end
  | _, _ => None
  end.

(** [None] where the answer is not one the task waits for. *)
Definition put_step (a : AgentState) (w : World) (j : PutJob) (pc : PutPc) (i : TaskIn) : option (World * Outcome PutPc) :=
  let want := default [] (pj_want j) in
  match pc, i with
  | PStat, StatIo => Some (w, stat_step w (pj_target j) want PRead PMkdir)
  | PRead size mtime, ReadIo ok => Some (read_step w (pj_target j) want size mtime ok PMkdir)
  | PMkdir, MkdirIo fail =>
      let '(d, ok) := create_dir_all (w_disk w) (removelast (pj_target j)) fail in
      Some (set_disk w d, if ok then Go PCreate else Answer 500)
  | PCreate, CreateIo name now error =>
      let tmp := removelast (pj_target j) ++ [UPLOAD_TEMP_PREFIX ++ name] in
      match error with
      | Some e => Some (w, Answer (io_status e))
      | None =>
          match create_file (w_disk w) tmp now with
          | None => Some (w, Answer 500)
          | Some d => Some (set_disk w d, Go (PBody tmp (pj_body j) []))
          end
      end
  | PBody _ _ _, _ | PSync _ _, _ => stream_to_temp a w j pc i
  | PRename tmp data, RenameIo ok rm =>
      match if ok then rename_replace (w_disk w) tmp (pj_target j) else None with
      | None => Some (cleaned w tmp rm, Answer 500)
      | Some d => Some (set_disk w d, Go (PSeed data))
      end
  | PSeed data, AfterIo written =>
      let w := match d_files (w_disk w) !! pj_target j with
               | Some f => set_cache w (seed (w_cache w) (pj_target j) (zlen (df_data f)) (df_mtime f) (Mirror.sha256_hex digest data))
               | None => w
               end in
      let w := match rel_key (pj_root j) (pj_target j) with
               | Some key => set_index w (pj_root j) (forget (w_index w !! pj_root j) key written)
               | None => w
               end in
      Some (w, Answer (if pj_existed j then 204 else 201))
  | _, _ => None
  end.

Definition put_pc (j : PutJob) : PutPc := match pj_want j with Some _ => PStat | None => PMkdir end.

Definition delete_step (w : World) (j : DeleteJob) (pc : DeletePc) (i : TaskIn) : option (World * Outcome DeletePc) :=
  let want := default [] (dj_want j) in
  match pc, i with
  | DStat, StatIo => Some (w, stat_step w (dj_target j) want DRead DRemove)
  | DRead size mtime, ReadIo ok => Some (read_step w (dj_target j) want size mtime ok DRemove)
  | DRemove, RemoveIo ok =>
      if ok && is_file_on (w_disk w) (dj_target j)
      then Some (set_disk w (remove_file (w_disk w) (dj_target j) true), Go DForget) else Some (w, Answer 500)
  | DForget, AfterIo written =>
      let w := match rel_key (dj_root j) (dj_target j) with
               | Some key => set_index w (dj_root j) (forget (w_index w !! dj_root j) key written)
               | None => w
               end in
      Some (w, Answer 204)
  | _, _ => None
  end.

Definition delete_pc (j : DeleteJob) : DeletePc := match dj_want j with Some _ => DStat | None => DRemove end.

(** ** What is refused, and why *)

(** The share and the token behind a request that passes the gates up to the path. *)
Definition may_write (a : AgentState) (w : World) (share_id : bytes) (req : Request) (now : Z) (sh : ShareRoot) : Prop :=
  w_shares w !! share_id = Some sh /\ sh_writable sh = true /\
  exists t, extract_token req = Some t /\ verify_share_token t (ag_hub_key a) share_id SCOPE_WRITE now = Ok tt.

Definition resolves (w : World) (sh : ShareRoot) (rel : bytes) (target : list bytes) : Prop :=
  resolve_within (canonicalize_in (w_disk w)) (sh_path sh) rel = Some (Ok target).

(** The status of a refusal at the gates of a write. *)
Definition gate_refusal (a : AgentState) (w : World) (share_id rel : bytes) (req : Request) (now : Z) (code : Z) : Prop :=
  code = 404 /\ w_shares w !! share_id = None \/
  exists sh, w_shares w !! share_id = Some sh /\
    (code = 403 /\ sh_writable sh = false \/
     sh_writable sh = true /\
     (code = 401 /\ extract_token req = None \/
      code = 403 /\ (exists t, extract_token req = Some t /\ verify_share_token t (ag_hub_key a) share_id SCOPE_WRITE now <> Ok tt) \/
      code = 403 /\ may_write a w share_id req now sh /\ forall target, not (resolves w sh rel target))).

(** The headers that make a write conditional, against whether the file is there. *)
Definition preconditions_hold (req : Request) (existed : bool) : Prop :=
  ((exists v, header_str req (str "if-none-match") = Some v /\ trim v = str "*") -> existed = false) /\
  (is_Some (if_match_hash req) -> existed = true).

Definition over_cap (a : AgentState) (req : Request) : Prop :=
  exists cap len, cap_bytes a = Some cap /\ content_length req = Some len /\ cap < len.

Lemma write_gates_spec a w share_id rel req now :
  match write_gates a w share_id rel req now with
  | Ok (target, root) => exists sh, may_write a w share_id req now sh /\ resolves w sh rel target /\ root = sh_path sh
  | Err e => gate_refusal a w share_id rel req now e.1
  end.
Proof.
  unfold write_gates, check_token, gate_refusal. destruct (w_shares w !! share_id) as [sh |] eqn:Esh; [| by left].
  destruct (sh_writable sh) eqn:Ew; cbn [negb]; [| right; exists sh; split; [done | by left]].
  destruct (extract_token req) as [t |] eqn:Et; [| right; exists sh; split; [done |]; right; split; [done | by left]].
  destruct (verify_share_token _ _ _ _ _) as [[] | e] eqn:Ev.
  2:{ right. exists sh. split; [done |]. right. split; [done |]. right. left. split; [done |]. exists t. by rewrite Ev. }
  assert (Hm : may_write a w share_id req now sh) by (split_and!; [done | done | by exists t]).
  destruct (resolve_within _ _ _) as [[p | e] |] eqn:Er; [by exists sh | |];
    (right; exists sh; split; [done |]; right; split; [done |]; right; right; split_and!; [done | done |]; unfold resolves; congruence).
Qed.

(** a write that is refused is refused for the first reason that applies, and before
    anything changes: no such share, not writable here, no token, a token that does not
    verify for this share and the write scope, a path that does not resolve inside the
    share, a folder, a length over the limit, a precondition that fails; and what passes
    has none of these. A deletion has the same gates, and needs the file. *)
Theorem write_refusals (a : AgentState) (w : World) (share_id rel : bytes) (req : Request) (now : Z) :
  match put_start a w share_id rel req now with
  | Ok j =>
      exists sh, may_write a w share_id req now sh /\ resolves w sh rel (pj_target j) /\ (pj_target j ∉ d_dirs (w_disk w)) /\
        not (over_cap a req) /\ preconditions_hold req (is_file_on (w_disk w) (pj_target j)) /\ pj_body j = rq_body req
  | Err e =>
      gate_refusal a w share_id rel req now e.1 \/
      exists sh target, may_write a w share_id req now sh /\ resolves w sh rel target /\
        (e.1 = 409 /\ target ∈ d_dirs (w_disk w) \/
         (target ∉ d_dirs (w_disk w)) /\
         (e.1 = 413 /\ over_cap a req \/
          e.1 = 412 /\ not (over_cap a req) /\ not (preconditions_hold req (is_file_on (w_disk w) target))))
  end /\
  match delete_start a w share_id rel req now with
  | Ok j => exists sh, may_write a w share_id req now sh /\ resolves w sh rel (dj_target j) /\ is_file_on (w_disk w) (dj_target j) = true
  | Err e =>
      gate_refusal a w share_id rel req now e.1 \/
      exists sh target, may_write a w share_id req now sh /\ resolves w sh rel target /\
        (e.1 = 409 /\ target ∈ d_dirs (w_disk w) \/
         e.1 = 404 /\ (target ∉ d_dirs (w_disk w)) /\ is_file_on (w_disk w) target = false)
  end.
Proof.
  pose proof (write_gates_spec a w share_id rel req now) as Hg. unfold put_start, delete_start.
  destruct (write_gates a w share_id rel req now) as [[target root] | e]; [| by split; left]. destruct Hg as (sh & Hm & Hr & ->).
  unfold is_dir_on. destruct (decide (target ∈ d_dirs (w_disk w))) as [Hd | Hd].
  { rewrite bool_decide_true by done. split; right; exists sh, target; (split_and!; [done | done | by left]). }
  rewrite bool_decide_false by done. split; [| destruct (is_file_on (w_disk w) target) eqn:Ef; cbn [negb]; [by exists sh | right; exists sh, target]].
  2:{ split_and!; [done | done | by right]. }
  assert (Hcap : (match cap_bytes a, content_length req with Some cap, Some len => cap <? len | _, _ => false end) = true <-> over_cap a req).
  { unfold over_cap. destruct (cap_bytes a) as [cap |], (content_length req) as [len |]; try (split; [done | intros (? & ? & ? & ? & _); done]).
    rewrite Z.ltb_lt. split; [intros; by exists cap, len | by intros (? & ? & [= <-] & [= <-] & ?)]. }
  destruct (match cap_bytes a with Some _ => _ | None => _ end) eqn:Ec.
  { right. exists sh, target. split_and!; [done | done |]. right. split; [done |]. left. split; [done |]. by apply Hcap. }
  assert (Hno : not (over_cap a req)) by (intros Hov%Hcap; congruence).
  destruct (match header_str req (str "if-none-match") with Some _ => _ | None => _ end) eqn:En.
  { right. exists sh, target. split_and!; [done | done |]. right. split; [done |]. right. split_and!; [done | done |]. intros [Hp _].
    destruct (header_str req (str "if-none-match")) as [v |]; [| done]. apply andb_true_iff in En as [Ev%bool_decide_eq_true En].
    rewrite Hp in En; [done |]. by exists v. }
  destruct (match if_match_hash req with Some _ => _ | None => _ end) eqn:Em.
  { right. exists sh, target. split_and!; [done | done |]. right. split; [done |]. right. split_and!; [done | done |]. intros [_ Hp].
    destruct (if_match_hash req); [| done]. by rewrite Hp in Em. }
  exists sh. cbn [pj_target pj_body]. split_and!; try done. split.
  - intros (v & Hv & Ht). rewrite Hv, Ht, bool_decide_true in En by done. exact En.
  - intros [h Hh]. rewrite Hh in Em. by apply negb_false_iff in Em.
Qed.

End agent.
