(* ===== verification/AgentRun.v ===== *)
(** * Writes on a running agent (xr-share/src/server.rs)

    The step relation of many writes at once, the owner and the warmer, the invariant of
    its runs, and what follows for whoever reads the share. The log tells who put what
    where; it and the records of the accepted requests are not part of the program. *)

From S2P Require Import Prelude Text Order SafePath Share Sync Mirror Fallback ShareFiles Agent.

Inductive Task := TPut (j : PutJob) (pc : PutPc) | TDelete (j : DeleteJob) (pc : DeletePc).

Inductive Event :=
| Own (p : list bytes) (data : bytes)
| Up (id : nat) (p : list bytes) (data : bytes)
| Del (id : nat) (p : list bytes).

(** The request behind a task, and the world its gates saw. *)
Record Accepted := { ac_share : bytes; ac_rel : bytes; ac_req : Request; ac_now : Z; ac_world : World }.

Record Run := {
  r_world : World; r_tasks : gmap nat Task; r_next : nat;
  r_log : list Event; r_accepted : gmap nat Accepted; r_answers : gmap nat Z
}.

Definition with_world (s : Run) (w : World) : Run :=
  {| r_world := w; r_tasks := r_tasks s; r_next := r_next s; r_log := r_log s; r_accepted := r_accepted s; r_answers := r_answers s |}.

Definition start_task (s : Run) (t : Task) (ac : Accepted) : Run :=
  {| r_world := r_world s; r_tasks := <[r_next s := t]> (r_tasks s); r_next := S (r_next s); r_log := r_log s;
     r_accepted := <[r_next s := ac]> (r_accepted s); r_answers := r_answers s |}.

Definition refuse_task (s : Run) (code : Z) : Run :=
  {| r_world := r_world s; r_tasks := r_tasks s; r_next := S (r_next s); r_log := r_log s;
     r_accepted := r_accepted s; r_answers := <[r_next s := code]> (r_answers s) |}.

(** A task goes on, or answers and is gone. *)
Definition move_task {P} (s : Run) (id : nat) (w : World) (mk : P -> Task) (o : Outcome P) (e : list Event) : Run :=
  {| r_world := w;
     r_tasks := match o with Go pc => <[id := mk pc]> (r_tasks s) | Answer _ => delete id (r_tasks s) end;
     r_next := r_next s; r_log := r_log s ++ e; r_accepted := r_accepted s;
     r_answers := match o with Go _ => r_answers s | Answer code => <[id := code]> (r_answers s) end |}.

Definition drop_task (s : Run) (id : nat) : Run :=
  {| r_world := r_world s; r_tasks := delete id (r_tasks s); r_next := r_next s; r_log := r_log s;
     r_accepted := r_accepted s; r_answers := r_answers s |}.

Definition log_event (s : Run) (w : World) (e : Event) : Run :=
  {| r_world := w; r_tasks := r_tasks s; r_next := r_next s; r_log := r_log s ++ [e];
     r_accepted := r_accepted s; r_answers := r_answers s |}.

(** What a finished rename or removal adds to the log. *)
Definition put_event (id : nat) (j : PutJob) (o : Outcome PutPc) : list Event :=
  match o with Go (PSeed data) => [Up id (pj_target j) data] | _ => [] end.
Definition delete_event (id : nat) (j : DeleteJob) (o : Outcome DeletePc) : list Event :=
  match o with Go DForget => [Del id (dj_target j)] | _ => [] end.

Definition plain (p : list bytes) : Prop := exists c, last p = Some c /\ is_reserved c = false.

(** Writable shares are folders. *)
Definition shares_ok (d : Disk) (m : SharesMap) : Prop :=
  forall id s, m !! id = Some s -> sh_writable s = true -> sh_path s ∈ d_dirs d.

Section run.
Context `{Base64} `{Ed25519}.
Context (url_decode : bytes -> option bytes) (token_of_json : bytes -> option ShareToken) (digest : bytes -> bytes).
Context (a : AgentState).

Abbreviation put_start := (Agent.put_start url_decode token_of_json).
Abbreviation delete_start := (Agent.delete_start url_decode token_of_json).

(** Random names do not repeat; the owner keeps to names that are not reserved and
    removes no folder. *)
Inductive agent_step (s : Run) : Run -> Prop :=
| as_put ac j : ac_world ac = r_world s ->
    put_start a (r_world s) (ac_share ac) (ac_rel ac) (ac_req ac) (ac_now ac) = Ok j ->
    agent_step s (start_task s (TPut j (put_pc j)) ac)
| as_delete ac j : ac_world ac = r_world s ->
    delete_start a (r_world s) (ac_share ac) (ac_rel ac) (ac_req ac) (ac_now ac) = Ok j ->
    agent_step s (start_task s (TDelete j (delete_pc j)) ac)
| as_refused share rel req now e :
    put_start a (r_world s) share rel req now = Err e \/ delete_start a (r_world s) share rel req now = Err e ->
    agent_step s (refuse_task s e.1)
| as_put_step id j pc i w o : r_tasks s !! id = Some (TPut j pc) -> put_step digest a (r_world s) j pc i = Some (w, o) ->
    (forall tmp rest data, o = Go (PBody tmp rest data) -> pc = PCreate -> d_files (w_disk (r_world s)) !! tmp = None) ->
    agent_step s (move_task s id w (TPut j) o (put_event id j o))
| as_delete_step id j pc i w o : r_tasks s !! id = Some (TDelete j pc) -> delete_step digest (r_world s) j pc i = Some (w, o) ->
    agent_step s (move_task s id w (TDelete j) o (delete_event id j o))
| as_drop id : agent_step s (drop_task s id)
| as_warm root walk readable origin : Permutation walk (walk_share (w_disk (r_world s)) root) ->
    agent_step s (with_world s (set_cache (r_world s)
      (build_manifest digest readable root (w_cache (r_world s)) (Some walk) origin).1))
| as_owner_write p data mtime : plain p -> p ∉ d_dirs (w_disk (r_world s)) ->
    agent_step s (log_event s (set_disk (r_world s) (set_files (w_disk (r_world s))
      (<[p := {| df_data := data; df_mtime := mtime |}]> (d_files (w_disk (r_world s)))))) (Own p data))
| as_owner_remove p : plain p ->
    agent_step s (with_world s (set_disk (r_world s) (remove_file (w_disk (r_world s)) p true)))
| as_owner_mkdir ps : Forall (fun p => d_files (w_disk (r_world s)) !! p = None) ps ->
    agent_step s (with_world s (set_disk (r_world s) (add_dirs (w_disk (r_world s)) ps)))
| as_reload m : shares_ok (w_disk (r_world s)) m ->
    agent_step s (with_world s {| w_disk := w_disk (r_world s); w_cache := w_cache (r_world s);
                                  w_index := w_index (r_world s); w_shares := m |}).

(** A start: what is on the disk is the owner's. *)
Definition run_start (s : Run) : Prop :=
  r_tasks s = ∅ /\ r_accepted s = ∅ /\ r_answers s = ∅ /\ shares_ok (w_disk (r_world s)) (w_shares (r_world s)) /\
  (forall p f, d_files (w_disk (r_world s)) !! p = Some f -> plain p -> Own p (df_data f) ∈ r_log s) /\
  (forall e, e ∈ r_log s -> exists p data, e = Own p data).

Inductive agent_reachable : Run -> Prop :=
| ar_start s : run_start s -> agent_reachable s
| ar_next s s' : agent_reachable s -> agent_step s s' -> agent_reachable s'.

(** ** The invariant *)

Definition event_id (e : Event) : option nat := match e with Own _ _ => None | Up id _ _ | Del id _ => Some id end.

Definition stored_by (log : list Event) (p : list bytes) (data : bytes) : Prop :=
  Own p data ∈ log \/ exists id, Up id p data ∈ log.

Definition within_cap (data : bytes) : Prop := data = [] \/ forall cap, cap_bytes a = Some cap -> zlen data <= cap.
Definition sha_as_announced (j : PutJob) (data : bytes) : Prop :=
  forall want, pj_expected_sha j = Some want -> eq_ignore_ascii_case (Mirror.sha256_hex digest data) want = true.

Definition upload_ok (j : PutJob) (data : bytes) : Prop :=
  data = body_data (pj_body j) /\ within_cap data /\ sha_as_announced j data.

Definition put_accepted (s : Run) (id : nat) (j : PutJob) : Prop :=
  exists ac, r_accepted s !! id = Some ac /\ shares_ok (w_disk (ac_world ac)) (w_shares (ac_world ac)) /\
    put_start a (ac_world ac) (ac_share ac) (ac_rel ac) (ac_req ac) (ac_now ac) = Ok j.
Definition delete_accepted (s : Run) (id : nat) (j : DeleteJob) : Prop :=
  exists ac, r_accepted s !! id = Some ac /\ shares_ok (w_disk (ac_world ac)) (w_shares (ac_world ac)) /\
    delete_start a (ac_world ac) (ac_share ac) (ac_rel ac) (ac_req ac) (ac_now ac) = Ok j.

Definition tmp_of (t : Task) : option (list bytes * bytes) :=
  match t with
  | TPut _ (PBody tmp _ data) | TPut _ (PSync tmp data) | TPut _ (PRename tmp data) => Some (tmp, data)
  | _ => None
  end.

Definition pc_ok (j : PutJob) (pc : PutPc) : Prop :=
  match pc with
  | PBody _ rest data => body_data (pj_body j) = data ++ body_data rest /\ within_cap data
  | PSync _ data => data = body_data (pj_body j) /\ within_cap data
  | PRename _ data | PSeed data => upload_ok j data
  | _ => True
  end.

(** Has the write taken effect? *)
Definition took_effect (t : Task) : bool :=
  match t with TPut _ (PSeed _) | TDelete _ DForget => true | _ => false end.

Definition task_ok (s : Run) (id : nat) (t : Task) : Prop :=
  match t with
  | TPut j pc => put_accepted s id j /\ plain (pj_target j) /\ pc_ok j pc
  | TDelete j _ => delete_accepted s id j /\ plain (dj_target j)
  end /\
  (forall tmp data, tmp_of t = Some (tmp, data) ->
     not (plain tmp) /\ exists f, d_files (w_disk (r_world s)) !! tmp = Some f /\ df_data f = data) /\
  (took_effect t = true <-> exists e, e ∈ r_log s /\ event_id e = Some id).

Record run_inv (s : Run) : Prop := {
  ri_shares : shares_ok (w_disk (r_world s)) (w_shares (r_world s));
  ri_files : forall p f, d_files (w_disk (r_world s)) !! p = Some f -> plain p -> stored_by (r_log s) p (df_data f);
  ri_tasks : forall id t, r_tasks s !! id = Some t -> (id < r_next s)%nat /\ task_ok s id t;
  ri_tmps : forall id1 id2 t1 t2 tmp d1 d2, r_tasks s !! id1 = Some t1 -> r_tasks s !! id2 = Some t2 ->
    tmp_of t1 = Some (tmp, d1) -> tmp_of t2 = Some (tmp, d2) -> id1 = id2;
  ri_ups : forall id p data, Up id p data ∈ r_log s -> exists j, put_accepted s id j /\ p = pj_target j /\ upload_ok j data;
  ri_dels : forall id p, Del id p ∈ r_log s -> exists j, delete_accepted s id j /\ p = dj_target j;
  ri_events : forall e id, e ∈ r_log s -> event_id e = Some id -> (id < r_next s)%nat;
  ri_answers : forall id code, r_answers s !! id = Some code -> (id < r_next s)%nat /\ r_tasks s !! id = None /\
    (200 <= code < 300 <-> exists e, e ∈ r_log s /\ event_id e = Some id)
}.

(** ** What the gates let through *)

Lemma write_gates_ok w share rel req now target root :
  write_gates url_decode token_of_json a w share rel req now = Ok (target, root) ->
  exists sh t, w_shares w !! share = Some sh /\ sh_writable sh = true /\ root = sh_path sh /\
    extract_token url_decode token_of_json req = Some t /\ verify_share_token t (ag_hub_key a) share SCOPE_WRITE now = Ok tt /\
    resolve_within (canonicalize_in (w_disk w)) root rel = Some (Ok target).
Proof.
  unfold write_gates, check_token. destruct (w_shares w !! share) as [sh |]; [| done].
  destruct (sh_writable sh) eqn:Ew; [cbn [negb] | done]. destruct (extract_token _ _ req) as [t |]; [| done].
  destruct (verify_share_token _ _ _ _ _) as [[] |] eqn:Ev; [| done].
  destruct (resolve_within _ _ _) as [[p |] |] eqn:Er; [| done | done]. intros [= -> <-]. by exists sh, t.
Qed.

(** The target is a plain name below the folder of the share. *)
Lemma write_target w share rel req now target root :
  shares_ok (w_disk w) (w_shares w) -> write_gates url_decode token_of_json a w share rel req now = Ok (target, root) ->
  target ∉ d_dirs (w_disk w) -> clean rel /\ target = root ++ named rel /\ plain target.
Proof.
  intros Hok (sh & t & Hsh & Hw & -> & _ & _ & Hr)%write_gates_ok Hnd. pose proof (Hok _ _ Hsh Hw) as Hroot.
  destruct (resolve_disk (w_disk w) (sh_path sh) rel Hroot) as [[Hc E] | [_ E]]; [| congruence].
  assert (target = sh_path sh ++ named rel) as -> by congruence. split_and!; [done | done |].
  destruct Hc as (_ & _ & Hc). destruct (named rel) as [| c ns _] using rev_ind; [by rewrite app_nil_r in Hnd |].
  exists c. rewrite app_assoc, last_snoc. split; [done |]. apply Forall_app in Hc as [_ Hc].
  apply Forall_inv in Hc as (_ & _ & _ & _ & _ & _ & Hc). exact Hc.
Qed.

Lemma put_start_ok w share rel req now j :
  put_start a w share rel req now = Ok j ->
  write_gates url_decode token_of_json a w share rel req now = Ok (pj_target j, pj_root j) /\
  (pj_target j ∉ d_dirs (w_disk w)) /\ pj_body j = rq_body req /\ pj_existed j = is_file_on (w_disk w) (pj_target j).
Proof.
  unfold Agent.put_start. destruct (write_gates _ _ _ _ _ _ _ _) as [[target root] |]; [| done].
  unfold is_dir_on. case_bool_decide; [done |]. repeat (case_match; try done). all: by intros [= <-].
Qed.

Lemma delete_start_ok w share rel req now j :
  delete_start a w share rel req now = Ok j ->
  write_gates url_decode token_of_json a w share rel req now = Ok (dj_target j, dj_root j) /\
  (dj_target j ∉ d_dirs (w_disk w)) /\ is_file_on (w_disk w) (dj_target j) = true.
Proof.
  unfold Agent.delete_start. destruct (write_gates _ _ _ _ _ _ _ _) as [[target root] |]; [| done].
  unfold is_dir_on. case_bool_decide; [done |]. destruct (is_file_on _ _) eqn:E; [cbn [negb] | done]. by intros [= <-].
Qed.

Lemma write_gates_err w share rel req now e :
  write_gates url_decode token_of_json a w share rel req now = Err e -> 400 <= e.1.
Proof. unfold write_gates, check_token. repeat (case_match; try done). all: intros; simplify_eq; cbn; lia. Qed.

Lemma start_err w share rel req now e :
  put_start a w share rel req now = Err e \/ delete_start a w share rel req now = Err e -> 400 <= e.1.
Proof.
  unfold Agent.put_start, Agent.delete_start. destruct (write_gates _ _ _ _ _ _ _ _) as [[target root] | e'] eqn:E.
  - intros [Hp | Hd]; [revert Hp | revert Hd]; repeat (case_match; try done); intros; simplify_eq; cbn; lia.
  - intros [[= <-] | [= <-]]; by eapply write_gates_err.
Qed.

(** ** The steps of a write *)

Lemma tmp_hidden p name : not (plain (p ++ [UPLOAD_TEMP_PREFIX ++ name])).
Proof. intros (c & Hl & Hr). rewrite last_snoc in Hl. injection Hl as <-. unfold is_reserved in Hr. by vm_compute in Hr. Qed.

Lemma nil_hidden : not (plain []).
Proof. by intros (c & ? & _). Qed.

(** The only hidden path the step touches, and what it does to the rest. *)
Record put_effect (w w' : World) (j : PutJob) (pc : PutPc) (o : Outcome PutPc) (q : list bytes) : Prop := {
  pe_hidden : not (plain q);
  pe_frame : forall p, p <> q -> p <> pj_target j -> d_files (w_disk w') !! p = d_files (w_disk w) !! p;
  pe_target : (forall data, o <> Go (PSeed data)) -> d_files (w_disk w') !! pj_target j = d_files (w_disk w) !! pj_target j;
  pe_up : forall data, o = Go (PSeed data) -> exists f, d_files (w_disk w') !! pj_target j = Some f /\ df_data f = data;
  pe_own : forall tmp data, tmp_of (TPut j pc) = Some (tmp, data) -> tmp = q;
  pe_new : forall pc' tmp data, o = Go pc' -> tmp_of (TPut j pc') = Some (tmp, data) ->
    tmp = q /\ (exists f, d_files (w_disk w') !! q = Some f /\ df_data f = data) /\
    (tmp_of (TPut j pc) = None -> d_files (w_disk w) !! q = None);
  pe_pc : forall pc', o = Go pc' -> pc_ok j pc';
  pe_answer : forall code, o = Answer code -> (200 <= code < 300 <-> took_effect (TPut j pc) = true);
  pe_seed : took_effect (TPut j pc) = true -> exists code, o = Answer code;
  pe_still : tmp_of (TPut j pc) = None -> (forall pc', o = Go pc' -> tmp_of (TPut j pc') = None) ->
    d_files (w_disk w') !! q = d_files (w_disk w) !! q;
  pe_dirs : d_dirs (w_disk w) ⊆ d_dirs (w_disk w');
  pe_shares : w_shares w' = w_shares w
}.

Lemma io_status_range c : not (200 <= io_status c < 300).
Proof. unfold io_status. destruct c as [c |]; [destruct (_ || _) |]; lia. Qed.

(** A step that leaves the files alone. *)
Lemma put_quiet w w' j pc o :
  d_files (w_disk w') = d_files (w_disk w) -> d_dirs (w_disk w) ⊆ d_dirs (w_disk w') -> w_shares w' = w_shares w ->
  tmp_of (TPut j pc) = None -> took_effect (TPut j pc) = false ->
  (forall pc', o = Go pc' -> tmp_of (TPut j pc') = None /\ pc_ok j pc' /\ took_effect (TPut j pc') = false) ->
  (forall code, o = Answer code -> not (200 <= code < 300)) -> put_effect w w' j pc o [].
Proof.
  intros Hf Hd Hsh Ht He Hgo Ha. split; rewrite ?Hf; try done.
  - apply nil_hidden.
  - intros data ->. destruct (Hgo (PSeed data) eq_refl) as (_ & _ & Hn). done.
  - intros tmp data. by rewrite Ht.
  - intros pc' tmp data -> Htmp. destruct (Hgo pc' eq_refl) as (E & _). congruence.
  - intros pc' ->. by destruct (Hgo pc' eq_refl) as (_ & ? & _).
  - intros code ->. rewrite He. split; [intros Hc; by destruct (Ha code eq_refl Hc) | done].
  - by rewrite He.
Qed.

Lemma stat_step_go {P} w target want read (next : P) pc : stat_step w target want read next = Go pc ->
  pc = next \/ exists size mtime, pc = read size mtime.
Proof.
  unfold stat_step, compare_hash. destruct (d_files _ !! _) as [f |]; [| done]. destruct (cached _ _ _ _).
  - destruct (eq_ignore_ascii_case _ _); [| done]. intros [= ->]. by left.
  - intros [= <-]. right. by eexists _, _.
Qed.

Lemma stat_step_answer {P} w target want read (next : P) code : stat_step w target want read next = Answer code -> code = 500 \/ code = 412.
Proof.
  unfold stat_step, compare_hash. destruct (d_files _ !! _) as [f |]; [| intros [= <-]; by left]. destruct (cached _ _ _ _); [| done].
  destruct (eq_ignore_ascii_case _ _); [done |]. intros [= <-]. by right.
Qed.

Lemma read_step_spec {P} w target want size mtime ok (next : P) w' o : read_step digest w target want size mtime ok next = (w', o) ->
  w_disk w' = w_disk w /\ w_shares w' = w_shares w /\ w_index w' = w_index w /\ (o = Go next \/ o = Answer 412 \/ o = Answer 500).
Proof.
  unfold read_step, compare_hash. destruct (if ok then _ else _) as [f |]; [| intros [= <- <-]; split_and!; auto].
  intros [= <- <-]. split_and!; try done. destruct (eq_ignore_ascii_case _ _); auto.
Qed.

(** The end of a write whose temp file is cleaned away. *)
Lemma put_cleaned w j pc tmp data rm code :
  tmp_of (TPut j pc) = Some (tmp, data) -> not (plain tmp) -> plain (pj_target j) -> not (200 <= code < 300) ->
  put_effect w (set_disk w (remove_file (w_disk w) tmp rm)) j pc (Answer code) tmp.
Proof.
  intros Ht Hh Hp Hc. assert (Hne : tmp <> pj_target j) by (by intros ->).
  assert (Hf : forall p, p <> tmp -> d_files (remove_file (w_disk w) tmp rm) !! p = d_files (w_disk w) !! p).
  { intros p Hp'. unfold remove_file. destruct rm; [| done]. cbn. rewrite lookup_delete_ne by congruence. done. }
  assert (He : took_effect (TPut j pc) = false) by (by destruct pc).
  split; cbn [set_disk w_disk w_shares]; try done.
  - intros p Hp' _. by apply Hf.
  - intros _. by apply Hf.
  - intros tmp' data'. rewrite Ht. by intros [= <- _].
  - intros code' [= <-]. rewrite He. by split.
  - by eexists.
  - by rewrite Ht.
  - unfold remove_file. by destruct rm.
Qed.

Lemma tmp_no_effect j pc x : tmp_of (TPut j pc) = Some x -> took_effect (TPut j pc) = false.
Proof. by destruct pc. Qed.

(** A step that goes on with the same temp file. *)
Lemma put_keeps w d' j pc pc' tmp data data' :
  tmp_of (TPut j pc) = Some (tmp, data) -> not (plain tmp) -> plain (pj_target j) ->
  tmp_of (TPut j pc') = Some (tmp, data') -> pc_ok j pc' ->
  (forall p, p <> tmp -> d_files d' !! p = d_files (w_disk w) !! p) ->
  (exists f, d_files d' !! tmp = Some f /\ df_data f = data') -> d_dirs d' = d_dirs (w_disk w) ->
  put_effect w (set_disk w d') j pc (Go pc') tmp.
Proof.
  intros Ht Hh Hp Ht' Hpc Hf Hf' Hd. assert (Hne : pj_target j <> tmp) by (by intros <-).
  pose proof (tmp_no_effect _ _ _ Ht) as He. pose proof (tmp_no_effect _ _ _ Ht') as He'.
  split; cbn [set_disk w_disk w_shares]; try done.
  - intros p H1 _. by apply Hf.
  - intros _. by apply Hf.
  - by intros d [= ->].
  - intros tmp1 d1. rewrite Ht. by intros [= <- _].
  - intros pc1 tmp1 d1 [= <-]. rewrite Ht'. intros [= <- <-]. split_and!; [done | done |]. by rewrite Ht.
  - by intros pc1 [= <-].
  - by rewrite He.
  - by rewrite Ht.
  - by rewrite Hd.
Qed.

Lemma set_disk_id w : set_disk w (w_disk w) = w.
Proof. by destruct w. Qed.

Lemma put_step_effect w j pc i w' o :
  put_step digest a w j pc i = Some (w', o) -> plain (pj_target j) -> pc_ok j pc ->
  (forall tmp data, tmp_of (TPut j pc) = Some (tmp, data) ->
     not (plain tmp) /\ exists f, d_files (w_disk w) !! tmp = Some f /\ df_data f = data) ->
  (forall tmp rest data, o = Go (PBody tmp rest data) -> pc = PCreate -> d_files (w_disk w) !! tmp = None) ->
  exists q, put_effect w w' j pc o q.
Proof.
  intros Hs Hp Hpc Ht Hfresh. pose proof io_status_range as Hio. destruct pc as [| size mtime | | | tmp rest data | tmp data | tmp data | data].
  - destruct i; try done. injection Hs as <- <-. exists []. apply put_quiet; try done.
    + intros pc' [-> | (size & mtime & ->)]%stat_step_go; done.
    + intros code [-> | ->]%stat_step_answer; lia.
  - destruct i; try done. cbn [put_step stream_to_temp] in Hs; unfold after_stream in Hs. destruct (read_step _ _ _ _ _ _ _ _) as [w1 o1] eqn:Er. injection Hs as <- <-.
    apply read_step_spec in Er as (Hd & Hsh & _ & Ho). exists []. apply put_quiet; rewrite ?Hd; try done.
    + intros pc' ->. destruct Ho as [[= ->] | [? | ?]]; done.
    + intros code ->. destruct Ho as [? | [[= ->] | [= ->]]]; [done | lia | lia].
  - destruct i; try done. cbn [put_step stream_to_temp] in Hs; unfold after_stream in Hs. destruct (create_dir_all _ _ _) as [d ok] eqn:Ec. injection Hs as <- <-.
    unfold create_dir_all in Ec. exists []. apply put_quiet; cbn [set_disk w_disk w_shares]; try done.
    + destruct (existsb _ _); [by injection Ec as <- _ |]. by destruct fail; injection Ec as <- _.
    + destruct (existsb _ _); [by injection Ec as <- _ |]. destruct fail; injection Ec as <- _; cbn; set_solver.
    + intros pc'. destruct ok; [by intros [= <-] | done].
    + intros code. destruct ok; [done | intros [= <-]; lia].
  - destruct i as [| | | name now error | | | | | |]; try done. cbn [put_step stream_to_temp] in Hs; unfold after_stream in Hs. destruct error as [e |].
    { injection Hs as <- <-. exists []. apply put_quiet; try done. intros code [= <-]. apply Hio. }
    destruct (create_file _ _ _) as [d |] eqn:Ec; [| injection Hs as <- <-; exists []; apply put_quiet; try done; intros code [= <-]; lia].
    injection Hs as <- <-. pose proof (Hfresh _ _ _ eq_refl eq_refl) as Hf. unfold create_file in Ec. destruct (_ || _); [done |].
    injection Ec as <-. set (tmp := removelast (pj_target j) ++ [UPLOAD_TEMP_PREFIX ++ name]) in *.
    assert (Hne : tmp <> pj_target j) by (intros E; apply (tmp_hidden (removelast (pj_target j)) name); fold tmp; by rewrite E).
    exists tmp. split; cbn [set_disk w_disk w_shares set_files d_files d_dirs]; try done.
    + apply tmp_hidden.
    + intros p H1 _. by rewrite lookup_insert_ne.
    + intros _. by rewrite lookup_insert_ne.
    + intros pc' tmp' data' [= <-] [= <- <-]. split_and!; [done | | done]. eexists. by rewrite lookup_insert_eq.
    + intros pc' [= <-]. split; [done | by left].
    + intros _ Hn. by specialize (Hn _ eq_refl).
  - destruct (Ht _ _ eq_refl) as [Hh (f & Hf & Hfd)]. destruct Hpc as [Hbody Hcap]. cbn [put_step stream_to_temp] in Hs; unfold after_stream in Hs.
    assert (Hclean : forall rm code, not (200 <= code < 300) ->
      put_effect w (set_disk w (remove_file (w_disk w) tmp rm)) j (PBody tmp rest data) (Answer code) tmp)
      by (intros; by eapply put_cleaned).
    destruct rest as [| [b |] rest]; destruct i as [| | | | now error rm | rm | | | |]; try done; cbn [put_step stream_to_temp] in Hs; unfold after_stream in Hs.
    + injection Hs as <- <-. exists tmp. rewrite <- (set_disk_id w) at 2. eapply put_keeps; try done; [| by exists f].
      split; [| done]. by rewrite app_nil_r in Hbody.
    + injection Hs as <- <-. exists tmp. apply Hclean. lia.
    + destruct (match cap_bytes a with Some _ => _ | None => _ end) eqn:Ecap; [injection Hs as <- <-; exists tmp; apply Hclean; lia |].
      destruct error as [e |]; injection Hs as <- <-; exists tmp; [apply Hclean, Hio |].
      eapply put_keeps; try done.
      * split; [by rewrite Hbody, <- app_assoc |]. right. intros cap Hc. rewrite Hc in Ecap. by apply Z.ltb_ge in Ecap.
      * intros p Hne. unfold append_file. cbn [set_files d_files]. by rewrite lookup_alter_ne.
      * eexists. unfold append_file. cbn [set_files d_files]. rewrite lookup_alter_eq, Hf. split; [done |]. cbn. by rewrite Hfd.
    + injection Hs as <- <-. exists tmp. apply Hclean. lia.
    + injection Hs as <- <-. exists tmp. rewrite <- (set_disk_id w) at 2. eapply put_keeps; try done. by exists f.
    + injection Hs as <- <-. exists tmp. apply Hclean. lia.
  - destruct (Ht _ _ eq_refl) as [Hh (f & Hf & Hfd)]. destruct Hpc as [Hbody Hcap].
    destruct i as [| | | | | | error rm | | |]; try done. cbn [put_step stream_to_temp] in Hs; unfold after_stream in Hs. exists tmp.
    destruct error as [e |]; [injection Hs as <- <-; by eapply put_cleaned |].
    destruct (match pj_expected_sha j with Some _ => _ | None => _ end) eqn:Esha; injection Hs as <- <-.
    + eapply put_cleaned; [done | done | done | lia].
    + rewrite <- (set_disk_id w) at 2. eapply put_keeps; try done; [| by exists f]. split_and!; [done | done |].
      intros want Hw. rewrite Hw in Esha. by apply negb_false_iff in Esha.
  - destruct (Ht _ _ eq_refl) as [Hh (f & Hf & Hfd)]. destruct i as [| | | | | | | ok rm | |]; try done. cbn [put_step stream_to_temp] in Hs; unfold after_stream in Hs.
    exists tmp. destruct (if ok then _ else _) as [d |] eqn:Er; injection Hs as <- <-; [| eapply put_cleaned; [done | done | done | lia]].
    destruct ok; [| done]. unfold rename_replace in Er. rewrite Hf in Er. cbn [mbind option_bind] in Er.
    destruct (_ || _); [done |]. injection Er as <-. assert (Hne : tmp <> pj_target j) by (by intros ->).
    split; cbn [set_disk w_disk w_shares set_files d_files d_dirs]; try done.
    + intros p H1 H2. by rewrite lookup_insert_ne, lookup_delete_ne.
    + intros Hn. by destruct (Hn data).
    + intros data' [= <-]. exists f. by rewrite lookup_insert_eq.
    + by intros tmp' d' [= <- <-].
    + by intros pc' tmp' d' [= <-].
    + intros pc' [= <-]. exact Hpc.
  - destruct i as [| | | | | | | | | written]; try done. cbn [put_step stream_to_temp] in Hs; unfold after_stream in Hs. injection Hs as <- <-. exists [].
    set (w1 := match d_files (w_disk w) !! pj_target j with Some _ => _ | None => w end).
    assert (Hw1 : w_disk w1 = w_disk w /\ w_shares w1 = w_shares w) by (unfold w1; by destruct (d_files (w_disk w) !! pj_target j)).
    set (w2 := match rel_key _ _ with Some _ => _ | None => w1 end).
    assert (Hw2 : w_disk w2 = w_disk w /\ w_shares w2 = w_shares w) by (unfold w2; by destruct (rel_key _ _)).
    clearbody w2. destruct Hw2 as [Hw2 Hs2]. split; rewrite ?Hw2; try done; try apply nil_hidden.
    + intros code [= <-]. split; [done |]. intros _. destruct (pj_existed j); lia.
    + intros _. by eexists.
Qed.

(** ** Preservation *)

Lemma stored_mono log e p data : stored_by log p data -> stored_by (log ++ e) p data.
Proof. intros [H1 | [id H1]]; [left | right; exists id]; apply elem_of_app; by left. Qed.

(** A task that a step does not concern. *)
Lemma task_ok_frame s s' id t :
  task_ok s id t -> r_accepted s' !! id = r_accepted s !! id ->
  (forall tmp data, tmp_of t = Some (tmp, data) -> d_files (w_disk (r_world s')) !! tmp = d_files (w_disk (r_world s)) !! tmp) ->
  (forall e, event_id e = Some id -> e ∈ r_log s' <-> e ∈ r_log s) -> task_ok s' id t.
Proof.
  intros (H1 & H2 & H3) Ha Hf He. split_and!.
  - destruct t as [j pc | j pc]; [destruct H1 as ((ac & Hac & Hj) & Hr) | destruct H1 as ((ac & Hac & Hj) & Hr)];
      (split; [exists ac; by rewrite Ha |]; done).
  - intros tmp data Ht. destruct (H2 tmp data Ht) as (Hp & f & Hff & Hd). split; [done |]. exists f. by rewrite (Hf tmp data).
  - rewrite H3. split; intros (e & Hin & Hid); exists e; (split; [by apply He | done]).
Qed.

Lemma accepted_frame s s' id : r_accepted s' !! id = r_accepted s !! id ->
  (forall j, put_accepted s id j -> put_accepted s' id j) /\ (forall j, delete_accepted s id j -> delete_accepted s' id j).
Proof. intros E. split; intros j (ac & Hac & Hj); exists ac; by rewrite E. Qed.

(** What happens around the tasks: the owner, the warmer, a new configuration. *)
Lemma inv_env s s' e :
  run_inv s -> r_tasks s' = r_tasks s -> r_next s' = r_next s -> r_accepted s' = r_accepted s -> r_answers s' = r_answers s ->
  r_log s' = r_log s ++ e -> (forall x, x ∈ e -> event_id x = None) -> shares_ok (w_disk (r_world s')) (w_shares (r_world s')) ->
  (forall p f, d_files (w_disk (r_world s')) !! p = Some f -> plain p -> stored_by (r_log s') p (df_data f)) ->
  (forall p, not (plain p) -> d_files (w_disk (r_world s')) !! p = d_files (w_disk (r_world s)) !! p) -> run_inv s'.
Proof.
  intros Hi Et En Ea Ean El He Hsh Hfiles Hhid.
  assert (Hev : forall x id, event_id x = Some id -> x ∈ r_log s' <-> x ∈ r_log s).
  { intros x id Hx. rewrite El, elem_of_app. split; [| by left]. intros [? | Hin%He]; [done | congruence]. }
  split; rewrite ?Et, ?En, ?Ean; try done.
  - intros id t Ht. destruct (ri_tasks s Hi id t Ht) as [Hn Hok]. split; [done |].
    eapply task_ok_frame; [done | by rewrite Ea | | intros x Hx; by apply (Hev x id)].
    intros tmp data Htmp. apply Hhid. destruct Hok as (_ & H2 & _). by destruct (H2 tmp data Htmp).
  - apply (ri_tmps s Hi).
  - intros id p data Hin%(Hev _ id); [| done]. destruct (ri_ups s Hi id p data Hin) as (j & Hj & H3). exists j. split; [| done].
    by apply (accepted_frame s s' id); [rewrite Ea |].
  - intros id p Hin%(Hev _ id); [| done]. destruct (ri_dels s Hi id p Hin) as (j & Hj & H3). exists j. split; [| done].
    by apply (accepted_frame s s' id); [rewrite Ea |].
  - intros x id Hin Hx. apply (Hev x id Hx) in Hin. by apply (ri_events s Hi x).
  - intros id code Hc. destruct (ri_answers s Hi id code Hc) as (H1 & H2 & H3). split_and!; [done | done |]. rewrite H3.
    split; intros (x & Hin & Hx); exists x; (split; [by apply (Hev x id) | done]).
Qed.

Lemma inv_start s t ac : run_inv s ->
  task_ok (start_task s t ac) (r_next s) t -> tmp_of t = None -> run_inv (start_task s t ac).
Proof.
  intros Hi Hok Ht.
  assert (Hacc : forall id, (id < r_next s)%nat -> r_accepted (start_task s t ac) !! id = r_accepted s !! id).
  { intros id Hid. cbn. rewrite lookup_insert_ne by lia. done. }
  split; cbn [start_task r_world r_tasks r_next r_log r_answers] in *.
  - apply (ri_shares s Hi).
  - apply (ri_files s Hi).
  - intros id t' [[<- <-] | [Hne Ht']]%lookup_insert_Some; [split; [lia | done] |].
    destruct (ri_tasks s Hi id t' Ht') as [Hn Hok']. split; [lia |]. by eapply task_ok_frame; [done | apply Hacc | |].
  - intros id1 id2 t1 t2 tmp d1 d2 [[<- <-] | [Hn1 H1]]%lookup_insert_Some [[<- <-] | [Hn2 H2]]%lookup_insert_Some; try congruence.
    apply (ri_tmps s Hi); done.
  - intros id p data Hin. destruct (ri_ups s Hi id p data Hin) as (j & Hj & H3). exists j. split; [| done].
    apply (accepted_frame s _ id); [apply Hacc; by apply (ri_events s Hi (Up id p data)) | done].
  - intros id p Hin. destruct (ri_dels s Hi id p Hin) as (j & Hj & H3). exists j. split; [| done].
    apply (accepted_frame s _ id); [apply Hacc; by apply (ri_events s Hi (Del id p)) | done].
  - intros x id Hin Hx. pose proof (ri_events s Hi x id Hin Hx). lia.
  - intros id code Hc. destruct (ri_answers s Hi id code Hc) as (H1 & H2 & H3). split_and!; [lia | | done].
    rewrite lookup_insert_ne by lia. done.
Qed.

Lemma inv_refuse s code : run_inv s -> 400 <= code -> run_inv (refuse_task s code).
Proof.
  intros Hi Hc. split; cbn [refuse_task r_world r_tasks r_next r_log r_answers]; try apply Hi.
  - intros id t Ht. destruct (ri_tasks s Hi id t Ht) as [Hn Hok]. split; [lia |]. by eapply task_ok_frame.
  - intros x id Hin Hx. pose proof (ri_events s Hi x id Hin Hx). lia.
  - intros id c [[<- <-] | [Hne Hid]]%lookup_insert_Some.
    + split_and!; [lia | |].
      * destruct (r_tasks s !! r_next s) as [t |] eqn:E; [| done]. apply (ri_tasks s Hi) in E as [? _]. lia.
      * split; [lia |]. intros (x & Hin & Hx). pose proof (ri_events s Hi x _ Hin Hx). lia.
    + destruct (ri_answers s Hi id c Hid) as (H1 & H2 & H3). split_and!; [lia | done | done].
Qed.

Lemma inv_drop s id : run_inv s -> run_inv (drop_task s id).
Proof.
  intros Hi. split; cbn [drop_task r_world r_tasks r_next r_log r_answers]; try apply Hi.
  - intros id' t [Hne Ht]%lookup_delete_Some. destruct (ri_tasks s Hi id' t Ht) as [Hn Hok]. split; [done |]. by eapply task_ok_frame.
  - intros id1 id2 t1 t2 tmp d1 d2 [_ H1]%lookup_delete_Some [_ H2]%lookup_delete_Some. by apply (ri_tmps s Hi).
  - intros id' c Hid. destruct (ri_answers s Hi id' c Hid) as (H1 & H2 & H3). split_and!; [done | | done].
    apply lookup_delete_None. by right.
Qed.

(** A step of one task. *)
Lemma inv_move {P} s id t (mk : P -> Task) w' (o : Outcome P) e :
  let s' := move_task s id w' mk o e in
  run_inv s -> r_tasks s !! id = Some t -> shares_ok (w_disk w') (w_shares w') ->
  (forall p f, d_files (w_disk w') !! p = Some f -> plain p -> stored_by (r_log s ++ e) p (df_data f)) ->
  (forall id2 t2 tmp d, id2 <> id -> r_tasks s !! id2 = Some t2 -> tmp_of t2 = Some (tmp, d) ->
     d_files (w_disk w') !! tmp = d_files (w_disk (r_world s)) !! tmp /\
     forall pc d', o = Go pc -> tmp_of (mk pc) <> Some (tmp, d')) ->
  (forall x, x ∈ e -> event_id x = Some id) ->
  (forall i p data, Up i p data ∈ e -> exists j, put_accepted s i j /\ p = pj_target j /\ upload_ok j data) ->
  (forall i p, Del i p ∈ e -> exists j, delete_accepted s i j /\ p = dj_target j) ->
  (forall pc, o = Go pc -> task_ok s' id (mk pc)) ->
  (forall code, o = Answer code -> 200 <= code < 300 <-> exists x, x ∈ r_log s ++ e /\ event_id x = Some id) ->
  run_inv s'.
Proof.
  intros s' Hi Ht Hsh Hfiles Hothers He Hup Hdel Hgo Hans. destruct (ri_tasks s Hi id t Ht) as [Hid Hok].
  assert (Hev : forall x i, i <> id -> event_id x = Some i -> x ∈ r_log s' <-> x ∈ r_log s).
  { intros x i Hne Hx. cbn. rewrite elem_of_app. split; [| by left]. intros [? | Hin%He]; [done | congruence]. }
  assert (Hother : forall i t2, i <> id -> r_tasks s !! i = Some t2 -> (i < r_next s)%nat /\ task_ok s' i t2).
  { intros i t2 Hne Hi2. destruct (ri_tasks s Hi i t2 Hi2) as [Hn Hok2]. split; [done |].
    eapply task_ok_frame; [done | done | | intros x Hx; by apply (Hev x i)]. intros tmp d Htmp.
    by apply (Hothers i t2 tmp d). }
  assert (Hold : forall i t2, r_tasks s' !! i = Some t2 ->
    i = id /\ (exists pc, o = Go pc /\ t2 = mk pc) \/ i <> id /\ r_tasks s !! i = Some t2).
  { intros i t2. cbn. destruct o as [pc | code].
    - intros [[<- <-] | [Hne Hi2]]%lookup_insert_Some; [left | by right]. split; [done | by exists pc].
    - intros [Hne Hi2]%lookup_delete_Some. by right. }
  split; try done.
  - intros i t2 [[-> (pc & -> & ->)] | [Hne Hi2]]%Hold; [split; [done | by apply Hgo] | by apply Hother].
  - intros i1 i2 t1 t2 tmp d1 d2 [[-> (pc1 & E1 & ->)] | [Hn1 H1]]%Hold [[-> (pc2 & E2 & ->)] | [Hn2 H2]]%Hold T1 T2; [done | | |].
    + destruct (Hothers i2 t2 tmp d2 Hn2 H2 T2) as [_ Hn]. by destruct (Hn pc1 d1 E1).
    + destruct (Hothers i1 t1 tmp d1 Hn1 H1 T1) as [_ Hn]. by destruct (Hn pc2 d2 E2).
    + by apply (ri_tmps s Hi i1 i2 t1 t2 tmp d1 d2).
  - intros i p data [Hin | Hin]%elem_of_app; [by apply (ri_ups s Hi) | by apply Hup].
  - intros i p [Hin | Hin]%elem_of_app; [by apply (ri_dels s Hi) | by apply Hdel].
  - intros x i [Hin | Hin]%elem_of_app Hx; [by apply (ri_events s Hi x) |]. rewrite (He x Hin) in Hx. by injection Hx as <-.
  - intros i code Hc. assert (Hcase : i = id /\ o = Answer code \/ i <> id /\ r_answers s !! i = Some code).
    { cbn in Hc. destruct o as [pc | code']; [right | apply lookup_insert_Some in Hc as [[<- <-] | [Hne Hc]]; [by left | by right]].
      split; [| done]. intros ->. apply (ri_answers s Hi) in Hc as (_ & Hn & _). congruence. }
    destruct Hcase as [[-> ->] | [Hne Hc']].
    + split_and!; [done | cbn; apply lookup_delete_eq | by apply Hans].
    + destruct (ri_answers s Hi i code Hc') as (H1 & H2 & H3). split_and!; [done | |].
      * cbn. destruct o; [by rewrite lookup_insert_ne | by rewrite lookup_delete_ne].
      * rewrite H3. split; intros (x & Hin & Hx); exists x; (split; [by apply (Hev x i) | done]).
Qed.

Lemma shares_ok_mono d d' m : d_dirs d ⊆ d_dirs d' -> shares_ok d m -> shares_ok d' m.
Proof. intros Hd Hs id sh H1 H2. apply Hd. by eapply Hs. Qed.

Lemma inv_put_step s id j pc i w o :
  run_inv s -> r_tasks s !! id = Some (TPut j pc) -> put_step digest a (r_world s) j pc i = Some (w, o) ->
  (forall tmp rest data, o = Go (PBody tmp rest data) -> pc = PCreate -> d_files (w_disk (r_world s)) !! tmp = None) ->
  run_inv (move_task s id w (TPut j) o (put_event id j o)).
Proof.
  intros Hi Ht Hs Hfresh. destruct (ri_tasks s Hi id _ Ht) as [Hid Hok]. destruct Hok as ((Hacc & Hp & Hpc) & Htmp & Heff).
  destruct (put_step_effect (r_world s) j pc i w o Hs Hp Hpc Htmp Hfresh) as [q Hq].
  assert (Hev : forall x, x ∈ put_event id j o -> exists data, o = Go (PSeed data) /\ x = Up id (pj_target j) data).
  { intros x Hx. destruct o as [[] |]; cbn in Hx; try by apply elem_of_nil in Hx. apply list_elem_of_singleton in Hx. by eexists. }
  assert (Hne : q <> pj_target j) by (intros ->; by apply (pe_hidden _ _ _ _ _ _ Hq)).
  apply (inv_move s id (TPut j pc) (TPut j) w o); try done.
  - rewrite (pe_shares _ _ _ _ _ _ Hq). eapply shares_ok_mono; [apply Hq | apply Hi].
  - intros p f Hf Hpl. destruct (decide (p = pj_target j)) as [-> | Hpt].
    + assert (Hcase : (exists data, o = Go (PSeed data)) \/ forall data, o <> Go (PSeed data)).
      { destruct o as [[] |]; try (by right); left; by eexists. }
      destruct Hcase as [[data ->] | Hn].
      * destruct (pe_up _ _ _ _ _ _ Hq data eq_refl) as (g & Hg & <-). assert (f = g) as -> by congruence.
        right. exists id. apply elem_of_app. right. by left.
      * rewrite (pe_target _ _ _ _ _ _ Hq Hn) in Hf. by apply stored_mono, (ri_files s Hi).
    + assert (p <> q) by (intros ->; by apply (pe_hidden _ _ _ _ _ _ Hq)). rewrite (pe_frame _ _ _ _ _ _ Hq) in Hf by done.
      by apply stored_mono, (ri_files s Hi).
  - intros id2 t2 tmp d Hn2 H2 T2. destruct (ri_tasks s Hi id2 t2 H2) as (_ & _ & Htmp2 & _).
    destruct (Htmp2 tmp d T2) as (Hhid & f & Hf & _). destruct (decide (tmp = q)) as [-> | Hneq].
    + destruct (tmp_of (TPut j pc)) as [[tmp d'] |] eqn:E.
      { assert (tmp = q) as -> by (by eapply (pe_own _ _ _ _ _ _ Hq)). destruct Hn2.
        by apply (ri_tmps s Hi id2 id t2 (TPut j pc) q d d'). }
      assert (Hnew : forall pc', o = Go pc' -> tmp_of (TPut j pc') = None).
      { intros pc' ->. destruct (tmp_of (TPut j pc')) as [[tmp' d'] |] eqn:E'; [| done].
        destruct (pe_new _ _ _ _ _ _ Hq pc' tmp' d' eq_refl E') as (_ & _ & Hnone). rewrite Hnone in Hf; done. }
      split; [by apply (pe_still _ _ _ _ _ _ Hq) |]. intros pc' d' E'. by rewrite (Hnew pc' E').
    + split; [apply (pe_frame _ _ _ _ _ _ Hq); [done | by intros ->] |].
      intros pc' d' E' T'. by destruct (pe_new _ _ _ _ _ _ Hq pc' tmp d' E' T').
  - intros x (data & _ & ->)%Hev. done.
  - intros i' p data (data' & -> & [= -> -> ->])%Hev. exists j. split_and!; [done | done |]. by apply (pe_pc _ _ _ _ _ _ Hq (PSeed data')).
  - by intros i' p (data & _ & ?)%Hev.
  - intros pc' ->. split_and!.
    + exact Hacc.
    + exact Hp.
    + by apply (pe_pc _ _ _ _ _ _ Hq).
    + intros tmp d E. destruct (pe_new _ _ _ _ _ _ Hq pc' tmp d eq_refl E) as (-> & Hf & _). split; [apply Hq | done].
    + split.
      * intros E. destruct pc'; try done. eexists. split; [apply elem_of_app; right; by left | done].
      * intros (x & [Hin | Hin]%elem_of_app & Hx).
        { assert (He : took_effect (TPut j pc) = true) by (apply Heff; by exists x).
          destruct (pe_seed _ _ _ _ _ _ Hq He). done. }
        { destruct (Hev x Hin) as (data & [= ->] & _). done. }
  - intros code ->. rewrite (pe_answer _ _ _ _ _ _ Hq code eq_refl), Heff. cbn [put_event]. by rewrite app_nil_r.
Qed.

Lemma delete_step_effect w j pc i w' o :
  delete_step digest w j pc i = Some (w', o) ->
  w_shares w' = w_shares w /\ d_dirs (w_disk w') = d_dirs (w_disk w) /\
  (forall p, d_files (w_disk w') !! p = d_files (w_disk w) !! p \/
     p = dj_target j /\ o = Go DForget /\ d_files (w_disk w') !! p = None) /\
  (forall code, o = Answer code -> (200 <= code < 300 <-> took_effect (TDelete j pc) = true)) /\
  (took_effect (TDelete j pc) = true -> exists code, o = Answer code).
Proof.
  intros Hs. destruct pc as [| size mtime | |]; destruct i as [| ok | | | | | | | ok | written]; try done; cbn [delete_step] in Hs.
  - injection Hs as <- <-. split_and!; try done; [intros p; by left |]. intros code [-> | ->]%stat_step_answer; (split; [lia | done]).
  - destruct (read_step _ _ _ _ _ _ _ _) as [w1 o1] eqn:Er. injection Hs as <- <-.
    apply read_step_spec in Er as (-> & -> & _ & Ho). split_and!; try done; [intros p; by left |].
    intros code ->. destruct Ho as [? | [[= ->] | [= ->]]]; [done | by split; [lia |] ..].
  - destruct (ok && _); injection Hs as <- <-; split_and!; try done.
    + intros p. cbn [set_disk w_disk remove_file set_files d_files].
      destruct (decide (p = dj_target j)) as [-> | Hne]; [right | left]; [by rewrite lookup_delete_eq | by rewrite lookup_delete_ne].
    + intros p. by left.
    + intros code [= <-]. by split; [lia |].
  - injection Hs as <- <-. destruct (rel_key _ _); cbn [set_index w_disk w_shares]; (split_and!; try done).
    all: try (intros p; by left); try (intros code [= <-]; split; [done | lia]); intros _; by eexists.
Qed.

Lemma inv_delete_step s id j pc i w o :
  run_inv s -> r_tasks s !! id = Some (TDelete j pc) -> delete_step digest (r_world s) j pc i = Some (w, o) ->
  run_inv (move_task s id w (TDelete j) o (delete_event id j o)).
Proof.
  intros Hi Ht Hs. destruct (ri_tasks s Hi id _ Ht) as [Hid Hok]. destruct Hok as ((Hacc & Hp) & _ & Heff).
  destruct (delete_step_effect (r_world s) j pc i w o Hs) as (Hsh & Hdirs & Hf & Hans & Hseed).
  assert (Hev : forall x, x ∈ delete_event id j o -> o = Go DForget /\ x = Del id (dj_target j)).
  { intros x Hx. destruct o as [[] |]; cbn in Hx; try by apply elem_of_nil in Hx. by apply list_elem_of_singleton in Hx. }
  apply (inv_move s id (TDelete j pc) (TDelete j) w o); try done.
  - rewrite Hsh. apply (shares_ok_mono (w_disk (r_world s))); [by rewrite Hdirs | apply Hi].
  - intros p f Hff Hpl. destruct (Hf p) as [E | (_ & _ & E)]; [| congruence]. rewrite E in Hff. by apply stored_mono, (ri_files s Hi).
  - intros id2 t2 tmp d Hn2 H2 T2. split; [| done]. destruct (ri_tasks s Hi id2 t2 H2) as (_ & _ & Htmp2 & _).
    destruct (Htmp2 tmp d T2) as (Hhid & _). destruct (Hf tmp) as [E | (-> & _)]; done.
  - by intros x (_ & ->)%Hev.
  - by intros i' p data (_ & ?)%Hev.
  - intros i' p (_ & [= -> ->])%Hev. by exists j.
  - intros pc' ->. split_and!; [done | done | done |]. split.
    + intros E. destruct pc'; try done. eexists. split; [apply elem_of_app; right; by left | done].
    + intros (x & [Hin | Hin]%elem_of_app & Hx).
      * assert (He : took_effect (TDelete j pc) = true) by (apply Heff; by exists x). by destruct (Hseed He).
      * destruct (Hev x Hin) as ([= ->] & _). done.
  - intros code ->. rewrite (Hans code eq_refl), Heff. cbn [delete_event]. by rewrite app_nil_r.
Qed.

Lemma run_start_inv s : run_start s -> run_inv s.
Proof.
  intros (Ht & Ha & Han & Hsh & Hf & Hl).
  assert (Hev : forall e id, e ∈ r_log s -> event_id e <> Some id) by (by intros e id (p & d & ->)%Hl).
  split; rewrite ?Ht, ?Han; try done.
  - intros p f Hpf Hp. left. by apply Hf.
  - by intros id p data (? & ? & ?)%Hl.
  - by intros id p (? & ? & ?)%Hl.
  - by intros e id Hin Hx%Hev.
Qed.

Lemma agent_step_inv s s' : run_inv s -> agent_step s s' -> run_inv s'.
Proof.
  intros Hi Hs. destruct Hs as [ac j Hw Hj | ac j Hw Hj | share rel req now e He | id j pc i w o Ht Hp Hfr | id j pc i w o Ht Hp | id
    | root walk readable origin Hwalk | p data mtime Hp Hnd | p Hp | ps Hps | m Hm].
  - pose proof (put_start_ok _ _ _ _ _ _ Hj) as (Hg & Hnd & _). destruct (write_target _ _ _ _ _ _ _ (ri_shares s Hi) Hg Hnd) as (_ & _ & Hp).
    assert (Hpc : tmp_of (TPut j (put_pc j)) = None /\ took_effect (TPut j (put_pc j)) = false /\ pc_ok j (put_pc j))
      by (unfold put_pc; by destruct (pj_want j)). destruct Hpc as (H1 & H2 & H3).
    apply inv_start; [done | | done]. split_and!; [| done | done | by intros tmp d; rewrite H1 |].
    + exists ac. cbn. rewrite lookup_insert_eq, Hw. split_and!; [done | apply Hi | done].
    + rewrite H2. split; [done |]. intros (x & Hin & Hx). pose proof (ri_events s Hi x _ Hin Hx). lia.
  - pose proof (delete_start_ok _ _ _ _ _ _ Hj) as (Hg & Hnd & _). destruct (write_target _ _ _ _ _ _ _ (ri_shares s Hi) Hg Hnd) as (_ & _ & Hp).
    apply inv_start; [done | | done]. split_and!; [| done | done |].
    + exists ac. cbn. rewrite lookup_insert_eq, Hw. split_and!; [done | apply Hi | done].
    + unfold delete_pc. split; [by destruct (dj_want j) |]. intros (x & Hin & Hx). pose proof (ri_events s Hi x _ Hin Hx). lia.
  - apply inv_refuse; [done |]. by eapply start_err.
  - by eapply inv_put_step.
  - by eapply inv_delete_step.
  - by apply inv_drop.
  - eapply (inv_env s _ []); try done; [by rewrite app_nil_r | by intros x ?%elem_of_nil | apply Hi | apply Hi].
  - eapply (inv_env s _ [Own p data]); try done; [by intros x ->%list_elem_of_singleton | apply Hi | |].
    + intros q f. cbn. intros [[<- <-] | [Hne Hf]]%lookup_insert_Some Hq.
      * left. apply elem_of_app. right. by left.
      * by apply stored_mono, (ri_files s Hi).
    + intros q Hq. cbn. rewrite lookup_insert_ne; [done | by intros <-].
  - eapply (inv_env s _ []); try done; [by rewrite app_nil_r | by intros x ?%elem_of_nil | apply Hi | |].
    + intros q f. cbn. intros [_ Hf]%lookup_delete_Some Hq. by apply (ri_files s Hi).
    + intros q Hq. cbn. rewrite lookup_delete_ne; [done | by intros <-].
  - eapply (inv_env s _ []); try done; [by rewrite app_nil_r | by intros x ?%elem_of_nil | | apply Hi].
    apply (shares_ok_mono (w_disk (r_world s))); [cbn; set_solver | apply Hi].
  - eapply (inv_env s _ []); try done; [by rewrite app_nil_r | by intros x ?%elem_of_nil | apply Hi].
Qed.

Lemma agent_reachable_inv s : agent_reachable s -> run_inv s.
Proof. induction 1 as [s Hs | s s' _ IH Hs]; [by apply run_start_inv | by eapply agent_step_inv]. Qed.

(** ** Theorems *)


Definition event_path (e : Event) : list bytes := match e with Own p _ | Up _ p _ | Del _ p => p end.

Lemma event_gates s e id : run_inv s -> e ∈ r_log s -> event_id e = Some id ->
  exists ac root, r_accepted s !! id = Some ac /\
    write_gates url_decode token_of_json a (ac_world ac) (ac_share ac) (ac_rel ac) (ac_req ac) (ac_now ac) = Ok (event_path e, root) /\
    clean (ac_rel ac) /\ event_path e = root ++ named (ac_rel ac).
Proof.
  intros Hi Hin Hid. assert (Hg : exists ac target root, r_accepted s !! id = Some ac /\ event_path e = target /\
    shares_ok (w_disk (ac_world ac)) (w_shares (ac_world ac)) /\ (target ∉ d_dirs (w_disk (ac_world ac))) /\
    write_gates url_decode token_of_json a (ac_world ac) (ac_share ac) (ac_rel ac) (ac_req ac) (ac_now ac) = Ok (target, root)).
  { destruct e as [| i p data | i p]; [done | injection Hid as -> ..].
    - destruct (ri_ups s Hi id p data Hin) as (j & (ac & Hac & Hsh & Hj) & -> & _). apply put_start_ok in Hj as (Hg & Hnd & _).
      by exists ac, (pj_target j), (pj_root j).
    - destruct (ri_dels s Hi id p Hin) as (j & (ac & Hac & Hsh & Hj) & ->). apply delete_start_ok in Hj as (Hg & Hnd & _).
      by exists ac, (dj_target j), (dj_root j). }
  destruct Hg as (ac & target & root & Hac & <- & Hsh & Hnd & Hg). exists ac, root.
  destruct (write_target _ _ _ _ _ _ _ Hsh Hg Hnd) as (H1 & H2 & _). by split_and!.
Qed.

(** C15: who writes was allowed to. In any run every upload and every deletion that took
    effect came with a token, and unless its signature is a forgery the hub minted it for
    this very share with the write scope and it had not expired when the gates looked;
    the share was there and writable, and the path is a plain one below its folder. *)
Theorem agent_writes_authorised (s : Run) (minted : list HubSigned) :
  agent_reachable s -> Forall hub_ok minted ->
  forall e id, e ∈ r_log s -> event_id e = Some id ->
  exists ac t sh, r_accepted s !! id = Some ac /\ extract_token url_decode token_of_json (ac_req ac) = Some t /\
    w_shares (ac_world ac) !! ac_share ac = Some sh /\ sh_writable sh = true /\
    event_path e = sh_path sh ++ named (ac_rel ac) /\ clean (ac_rel ac) /\
    (0 <= st_exp t < 2 ^ 64 -> genuine (ag_hub_key a) (map hub_bytes minted) (st_signature t) ->
     HShare (ac_share ac) (st_scope t) (st_exp t) ∈ minted /\ ac_now ac < st_exp t /\ scope_contains (st_scope t) SCOPE_WRITE = true).
Proof.
  intros Hi%agent_reachable_inv Hm e id Hin Hid. destruct (event_gates s e id Hi Hin Hid) as (ac & root & Hac & Hg & Hc & Hp).
  apply write_gates_ok in Hg as (sh & t & Hsh & Hw & -> & Ht & Hv & _). exists ac, t, sh. split_and!; try done.
  intros He Hgen. by eapply share_token_bound.
Qed.

(** ** The cache of hashes *)

(** The cache tells the truth about every file a reader can see; [except] is a path it may
    be wrong about. *)
Definition truthful (d : Disk) (c : HashCache) (except : option (list bytes)) : Prop :=
  forall p f sha, plain p -> except <> Some p -> d_files d !! p = Some f ->
    cached c p (zlen (df_data f)) (df_mtime f) = Some sha -> sha = Mirror.sha256_hex digest (df_data f).

Definition seeding (s : Run) (id : nat) (j : PutJob) (data : bytes) : Prop := r_tasks s !! id = Some (TPut j (PSeed data)).

Definition owner_writes (log : list Event) : nat := length (List.filter (fun e => match e with Own _ _ => true | _ => false end) log).

(** One write at a time, none of them dropped between its rename and its answer, and
    nothing written by the owner. *)
Inductive calm_reachable : Run -> Prop :=
| cr_start s : run_start s -> truthful (w_disk (r_world s)) (w_cache (r_world s)) None -> calm_reachable s
| cr_next s s' : calm_reachable s -> agent_step s s' -> (size (r_tasks s') <= 1)%nat ->
    owner_writes (r_log s') = owner_writes (r_log s) ->
    (forall id j data, seeding s id j data -> is_Some (r_tasks s' !! id) \/ is_Some (r_answers s' !! id)) -> calm_reachable s'.

Lemma truthful_seed d c ex p f : truthful d c ex -> d_files d !! p = Some f ->
  truthful d (seed c p (zlen (df_data f)) (df_mtime f) (Mirror.sha256_hex digest (df_data f))) (if bool_decide (ex = Some p) then None else ex).
Proof.
  intros Ht Hf q g sha Hq Hex Hg. rewrite cached_seed. destruct (decide (p = q)) as [<- | Hne].
  - rewrite bool_decide_true by done. assert (f = g) as -> by congruence. rewrite !Z.eqb_refl. by intros [= <-].
  - rewrite bool_decide_false by done. apply (Ht q g); [done | | done]. intros ->. apply Hex. by rewrite bool_decide_false by congruence.
Qed.

Lemma truthful_weaken d c ex : truthful d c None -> truthful d c ex.
Proof. intros Ht q f sha Hq _. by apply Ht. Qed.

Lemma manifest_loop_truthful d ex readable root walk c origin : Forall (fun x => d_files d !! x.1 = Some x.2) walk ->
  truthful d c ex -> truthful d (manifest_loop digest readable root c walk origin).1 ex.
Proof.
  intros Hw. revert c origin. induction Hw as [| [p f] walk Hf _ IH]; intros c origin Ht; [done |]. cbn [manifest_loop].
  destruct (rel_key root p) as [rel |]; [| done]. unfold hashed.
  destruct (cached c p _ _) as [sha |].
  - specialize (IH c (delete rel origin) Ht). by destruct (manifest_loop _ _ _ c walk _).
  - destruct (readable p); [| done].
    assert (Ht' : truthful d (seed c p (zlen (df_data f)) (df_mtime f) (Mirror.sha256_hex digest (df_data f))) ex).
    { pose proof (truthful_seed d c ex p f Ht Hf) as H1. case_bool_decide; [by apply truthful_weaken | done]. }
    specialize (IH _ (delete rel origin) Ht'). by destruct (manifest_loop _ _ _ _ walk _).
Qed.

(** What a step of an upload does to the cache. *)
Lemma put_step_cache w j pc i w' o : put_step digest a w j pc i = Some (w', o) ->
  (w_cache w' = w_cache w /\ forall d, pc <> PSeed d) \/
  (exists size mtime f, pc = PRead size mtime /\ d_files (w_disk w) !! pj_target j = Some f /\ w_disk w' = w_disk w /\
     w_cache w' = seed (w_cache w) (pj_target j) size mtime (Mirror.sha256_hex digest (df_data f))) \/
  (exists data, pc = PSeed data /\ w_disk w' = w_disk w /\
     w_cache w' = match d_files (w_disk w) !! pj_target j with
                  | Some f => seed (w_cache w) (pj_target j) (zlen (df_data f)) (df_mtime f) (Mirror.sha256_hex digest data)
                  | None => w_cache w end).
Proof.
  intros Hs. destruct pc as [| size mtime | | | tmp rest data | tmp data | tmp data | data].
  - destruct i; try done. injection Hs as <- <-. by left.
  - destruct i; try done. cbn [put_step stream_to_temp] in Hs; unfold after_stream in Hs. unfold read_step in Hs.
    destruct (if ok then _ else _) as [f |] eqn:Ef; injection Hs as <- <-; [right; left | by left].
    exists size, mtime, f. split_and!; try done. by destruct ok.
  - destruct i; try done. cbn [put_step stream_to_temp] in Hs; unfold after_stream in Hs. destruct (create_dir_all _ _ _). injection Hs as <- <-. by left.
  - destruct i as [| | | name now error | | | | | |]; try done. cbn [put_step stream_to_temp] in Hs; unfold after_stream in Hs. left. split; [| done].
    destruct error; [| destruct (create_file _ _ _)]; by injection Hs as <- <-.
  - left. split; [| done]. destruct rest as [| [b |] rest], i as [| | | | now error rm | rm | | | |]; try done; cbn [put_step stream_to_temp] in Hs; unfold after_stream in Hs;
      try by injection Hs as <- <-. repeat case_match; by injection Hs as <- <-.
  - destruct i as [| | | | | | error rm | | |]; try done. left. split; [| done]. cbn [put_step stream_to_temp] in Hs; unfold after_stream in Hs.
    repeat case_match; by injection Hs as <- <-.
  - destruct i as [| | | | | | | ok rm | |]; try done. left. split; [| done]. cbn [put_step stream_to_temp] in Hs; unfold after_stream in Hs.
    repeat case_match; by injection Hs as <- <-.
  - destruct i as [| | | | | | | | | written]; try done. cbn [put_step stream_to_temp] in Hs; unfold after_stream in Hs. injection Hs as <- <-. right. right.
    exists data. split_and!; [done | |]; destruct (rel_key _ _), (d_files _ !! _); done.
Qed.

Lemma delete_step_cache w j pc i w' o : delete_step digest w j pc i = Some (w', o) ->
  w_cache w' = w_cache w \/
  exists size mtime f, pc = DRead size mtime /\ d_files (w_disk w) !! dj_target j = Some f /\ w_disk w' = w_disk w /\
     w_cache w' = seed (w_cache w) (dj_target j) size mtime (Mirror.sha256_hex digest (df_data f)).
Proof.
  intros Hs. destruct pc as [| size mtime | |]; destruct i as [| ok | | | | | | | ok | written]; try done; cbn [delete_step] in Hs.
  - injection Hs as <- <-. by left.
  - unfold read_step in Hs. destruct (if ok then _ else _) as [f |] eqn:Ef; injection Hs as <- <-; [right | by left].
    exists size, mtime, f. split_and!; try done. by destruct ok.
  - destruct (ok && _); injection Hs as <- <-; by left.
  - injection Hs as <- <-. left. by destruct (rel_key _ _).
Qed.

Lemma stat_step_read {P} w target want (read : Z -> Z -> P) next pc :
  stat_step w target want read next = Go pc -> pc = next \/
  exists f, d_files (w_disk w) !! target = Some f /\ pc = read (zlen (df_data f)) (df_mtime f).
Proof.
  unfold stat_step, compare_hash. destruct (d_files _ !! _) as [f |]; [| done]. destruct (cached _ _ _ _).
  - destruct (eq_ignore_ascii_case _ _); [| done]. intros [= ->]. by left.
  - intros [= <-]. right. by exists f.
Qed.

(** What a read of the current file waits for, and what is about to be seeded. *)
Definition noted (d : Disk) (t : Task) : Prop :=
  match t with
  | TPut j (PRead size mtime) => forall f, d_files d !! pj_target j = Some f -> size = zlen (df_data f) /\ mtime = df_mtime f
  | TPut j (PSeed data) => forall f, d_files d !! pj_target j = Some f -> df_data f = data
  | TDelete j (DRead size mtime) => forall f, d_files d !! dj_target j = Some f -> size = zlen (df_data f) /\ mtime = df_mtime f
  | _ => True
  end.

Definition exception (t : Task) : option (list bytes) := match t with TPut j (PSeed _) => Some (pj_target j) | _ => None end.

Record calm_inv (s : Run) : Prop := {
  ci_run : run_inv s;
  ci_size : (size (r_tasks s) <= 1)%nat;
  ci_noted : forall id t, r_tasks s !! id = Some t -> noted (w_disk (r_world s)) t;
  ci_truth : exists ex, truthful (w_disk (r_world s)) (w_cache (r_world s)) ex /\
    (ex = None \/ exists id t, r_tasks s !! id = Some t /\ exception t = ex)
}.

Lemma only_task {A} (m : gmap nat A) id t : (size m <= 1)%nat -> m !! id = Some t -> m = {[id := t]}.
Proof.
  intros Hs Hm. pose proof (insert_delete_id m id t Hm) as E. rewrite <- E in Hs.
  rewrite map_size_insert_None in Hs by apply lookup_delete_eq. assert (Hz : size (delete id m) = 0%nat) by lia.
  apply map_size_empty_inv in Hz. by rewrite <- E, Hz.
Qed.

(** With one task the exception is that task's. *)
Lemma one_exception s id t : calm_inv s -> r_tasks s !! id = Some t -> truthful (w_disk (r_world s)) (w_cache (r_world s)) (exception t).
Proof.
  intros Hi Ht. destruct (ci_truth s Hi) as (ex & Htr & [-> | (i & t' & Ht' & <-)]); [by apply truthful_weaken |].
  pose proof (only_task _ _ _ (ci_size s Hi) Ht) as E. rewrite E in Ht'.
  destruct (decide (i = id)) as [-> | Hne]; [| by rewrite lookup_singleton_ne in Ht'].
  rewrite lookup_singleton_eq in Ht'. by injection Ht' as ->.
Qed.

Lemma truthful_seed_own d c p f : truthful d c (Some p) -> d_files d !! p = Some f ->
  truthful d (seed c p (zlen (df_data f)) (df_mtime f) (Mirror.sha256_hex digest (df_data f))) None.
Proof. intros Ht Hf. pose proof (truthful_seed d c (Some p) p f Ht Hf) as H1. by rewrite bool_decide_true in H1. Qed.

Lemma calm_put_step s id j pc i w o :
  calm_inv s -> r_tasks s !! id = Some (TPut j pc) -> put_step digest a (r_world s) j pc i = Some (w, o) ->
  (forall tmp rest data, o = Go (PBody tmp rest data) -> pc = PCreate -> d_files (w_disk (r_world s)) !! tmp = None) ->
  (forall pc', o = Go pc' -> noted (w_disk w) (TPut j pc')) /\
  truthful (w_disk w) (w_cache w) (match o with Go pc' => exception (TPut j pc') | Answer _ => None end).
Proof.
  intros Hi Ht Hs Hfresh. destruct (ri_tasks s (ci_run s Hi) id _ Ht) as [_ ((_ & Hp & Hpc) & Htmp & _)].
  destruct (put_step_effect (r_world s) j pc i w o Hs Hp Hpc Htmp Hfresh) as [q Hq].
  pose proof (one_exception s id _ Hi Ht) as Htr. pose proof (ci_noted s Hi id _ Ht) as Hnote.
  destruct (put_step_cache _ _ _ _ _ _ Hs) as [[Hc Hns] | [(size & mtime & f & -> & Hf & Hd & Hc) | (data & -> & Hd & Hc)]].
  - assert (Hex : exception (TPut j pc) = None) by (destruct pc; try done; by destruct (Hns data)). rewrite Hex in Htr. split.
    + intros pc' ->. destruct pc'; try done; [| cbn; intros f Hf; destruct (pe_up _ _ _ _ _ _ Hq data eq_refl) as (g & Hg & <-); congruence].
      assert (pc = PStat /\ w = r_world s) as [-> ->].
      { destruct pc as [| | | | ? [| [] ] | | |]; destruct i as [| ok | fail | name now error | now error rm | rm | error rm | ok rm | ok | written];
          try done; cbn [put_step stream_to_temp] in Hs; unfold after_stream in Hs; unfold read_step, compare_hash in Hs; repeat case_match; simplify_eq; done. }
      destruct i; try done. cbn [put_step stream_to_temp] in Hs; unfold after_stream in Hs. injection Hs as Hs. apply stat_step_read in Hs as [? | (f & Hf & [= -> ->])]; [done |].
      intros g Hg. assert (g = f) as -> by congruence. done.
    + intros p f sha Hpl Hexc Hf. rewrite Hc. assert (p <> q) by (intros ->; by apply (pe_hidden _ _ _ _ _ _ Hq)).
      destruct (decide (p = pj_target j)) as [-> | Hne].
      * apply Htr; [done | done |]. rewrite <- (pe_target _ _ _ _ _ _ Hq); [done |]. intros data ->. by destruct Hexc.
      * apply Htr; [done | done |]. by rewrite <- (pe_frame _ _ _ _ _ _ Hq).
  - assert (Ho : forall pc', o = Go pc' -> pc' = PMkdir).
    { intros pc' ->. destruct i; try done. cbn [put_step stream_to_temp] in Hs; unfold after_stream in Hs. injection Hs as Hs. by apply read_step_spec in Hs as (_ & _ & _ & [[= ->] | [? | ?]]). }
    destruct (Hnote f Hf) as [-> ->]. split; [by intros pc' ->%Ho |]. rewrite Hd, Hc.
    pose proof (truthful_seed _ _ None (pj_target j) f Htr Hf) as H1. cbn in H1. destruct o as [pc' |]; [by rewrite (Ho pc' eq_refl) | done].
  - assert (Ho : exists code, o = Answer code) by (by apply (pe_seed _ _ _ _ _ _ Hq)). destruct Ho as [code ->]. split; [done |].
    rewrite Hd, Hc. cbn [exception] in Htr. destruct (d_files _ !! pj_target j) as [f |] eqn:Ef.
    + rewrite <- (Hnote f Ef). by apply truthful_seed_own.
    + intros p f sha Hpl _ Hf. apply Htr; [done | intros [= E]; congruence | done].
Qed.

Lemma calm_delete_step s id j pc i w o :
  calm_inv s -> r_tasks s !! id = Some (TDelete j pc) -> delete_step digest (r_world s) j pc i = Some (w, o) ->
  (forall pc', o = Go pc' -> noted (w_disk w) (TDelete j pc')) /\ truthful (w_disk w) (w_cache w) None.
Proof.
  intros Hi Ht Hs. destruct (delete_step_effect (r_world s) j pc i w o Hs) as (_ & _ & Hf & _ & _).
  pose proof (one_exception s id _ Hi Ht) as Htr. cbn [exception] in Htr. pose proof (ci_noted s Hi id _ Ht) as Hnote.
  split.
  - intros pc' ->. destruct pc'; try done. destruct pc; destruct i as [| ok | | | | | | | ok | written]; try done; cbn [delete_step] in Hs.
    + injection Hs as <- Hs. apply stat_step_read in Hs as [? | (f & Hff & [= -> ->])]; [done |]. intros g Hg. by assert (g = f) as -> by congruence.
    + injection Hs as Hs. apply read_step_spec in Hs as (_ & _ & _ & [? | [? | ?]]); done.
    + by destruct (ok && _).
  - assert (Hsub : forall p f, d_files (w_disk w) !! p = Some f -> d_files (w_disk (r_world s)) !! p = Some f).
    { intros p f Hp. destruct (Hf p) as [E | (_ & _ & E)]; congruence. }
    destruct (delete_step_cache _ _ _ _ _ _ Hs) as [Hc | (size & mtime & f & -> & Hff & Hd & Hc)]; rewrite Hc.
    + intros p f sha Hpl Hex Hp. by apply Htr, Hsub.
    + destruct (Hnote f Hff) as [-> ->]. rewrite Hd. by apply (truthful_seed _ _ None).
Qed.

Lemma calm_move {P} s id t (mk : P -> Task) w (o : Outcome P) e :
  calm_inv s -> run_inv (move_task s id w mk o e) -> (size (r_tasks (move_task s id w mk o e)) <= 1)%nat ->
  r_tasks s !! id = Some t -> (forall pc, o = Go pc -> noted (w_disk w) (mk pc)) ->
  truthful (w_disk w) (w_cache w) (match o with Go pc => exception (mk pc) | Answer _ => None end) ->
  calm_inv (move_task s id w mk o e).
Proof.
  intros Hi Hr Hsz Ht Hn Htr. pose proof (only_task _ _ _ (ci_size s Hi) Ht) as E. split; [done | done | |]; cbn [move_task r_tasks r_world].
  - intros i t'. rewrite E. destruct o as [pc | code].
    + rewrite insert_singleton_eq. intros [<- <-]%lookup_singleton_Some. by apply Hn.
    + rewrite delete_singleton_eq, lookup_empty. done.
  - eexists. split; [exact Htr |]. destruct o as [pc | code]; [right | by left]. exists id, (mk pc). by rewrite lookup_insert_eq.
Qed.

(** A step that starts nothing new, changes no task and writes no file. *)
Lemma calm_env s s' ex : calm_inv s -> run_inv s' -> (size (r_tasks s') <= 1)%nat ->
  (forall id t, r_tasks s' !! id = Some t -> r_tasks s !! id = Some t \/ exception t = None /\ forall d, noted d t) ->
  (forall p f, plain p -> d_files (w_disk (r_world s')) !! p = Some f -> d_files (w_disk (r_world s)) !! p = Some f) ->
  truthful (w_disk (r_world s')) (w_cache (r_world s')) ex ->
  (ex = None \/ exists id t, r_tasks s' !! id = Some t /\ exception t = ex) -> calm_inv s'.
Proof.
  intros Hi Hr Hsz Ht Hf Htr Hex. split; [done | done | | by exists ex].
  intros id t Hid. destruct (Ht id t Hid) as [Hold | [_ Hn]]; [| done]. pose proof (ci_noted s Hi id t Hold) as Hn.
  destruct (ri_tasks s (ci_run s Hi) id t Hold) as [_ [Hok _]].
  destruct t as [j pc | j pc]; destruct pc; try done; cbn in *; intros f Hff; apply Hn, Hf; try done; first [by destruct Hok as (_ & ? & _) | by destruct Hok as [_ ?]].
Qed.

Lemma truthful_mono d d' c ex : (forall p f, plain p -> d_files d' !! p = Some f -> d_files d !! p = Some f) ->
  truthful d c ex -> truthful d' c ex.
Proof. intros Hf Ht p f sha Hp Hex Hpf. apply Ht; [done | done |]. by apply Hf. Qed.

Lemma calm_step s s' : calm_inv s -> agent_step s s' -> (size (r_tasks s') <= 1)%nat ->
  owner_writes (r_log s') = owner_writes (r_log s) ->
  (forall id j data, seeding s id j data -> is_Some (r_tasks s' !! id) \/ is_Some (r_answers s' !! id)) -> calm_inv s'.
Proof.
  intros Hi Hs Hsz Hown Hdrop. pose proof (agent_step_inv s s' (ci_run s Hi) Hs) as Hr.
  destruct (ci_truth s Hi) as (ex & Htr & Hex).
  destruct Hs as [ac j Hw Hj | ac j Hw Hj | share rel req now e He | id j pc i w o Ht Hp Hfr | id j pc i w o Ht Hp | id
    | root walk readable origin Hwalk | p data mtime Hp Hnd | p Hp | ps Hps | m Hm].
  - eapply (calm_env s _ ex); try done; cbn [start_task r_tasks r_world].
    + intros id t [[<- <-] | [_ Ht]]%lookup_insert_Some; [right | by left]. unfold put_pc. by destruct (pj_want j).
    + destruct Hex as [? | (id & t & Ht & E)]; [by left | right]. exists id, t. split; [| done].
      rewrite lookup_insert_ne; [done |]. intros <-. apply (ri_tasks s (ci_run s Hi)) in Ht as [? _]. lia.
  - eapply (calm_env s _ ex); try done; cbn [start_task r_tasks r_world].
    + intros id t [[<- <-] | [_ Ht]]%lookup_insert_Some; [right | by left]. unfold delete_pc. by destruct (dj_want j).
    + destruct Hex as [? | (id & t & Ht & E)]; [by left | right]. exists id, t. split; [| done].
      rewrite lookup_insert_ne; [done |]. intros <-. apply (ri_tasks s (ci_run s Hi)) in Ht as [? _]. lia.
  - eapply (calm_env s _ ex); try done. by left.
  - destruct (calm_put_step s id j pc i w o Hi Ht Hp Hfr) as [H1 H2]. by eapply calm_move.
  - destruct (calm_delete_step s id j pc i w o Hi Ht Hp) as [H1 H2]. eapply calm_move; try done. by destruct o.
  - eapply (calm_env s _ ex); try done; cbn [drop_task r_tasks r_world].
    + intros i t [_ Ht]%lookup_delete_Some. by left.
    + destruct Hex as [? | (i & t & Ht & <-)]; [by left |]. destruct (exception t) as [x |] eqn:E; [right | by left].
      exists i, t. split; [| done]. apply lookup_delete_Some. split; [| done]. intros <-.
      destruct t as [j [] | ]; try done. destruct (Hdrop id j data Ht) as [Hd | [code Hd]]; cbn in Hd.
      * rewrite lookup_delete_eq in Hd. by destruct Hd.
      * apply (ri_answers s (ci_run s Hi)) in Hd as (_ & Hn & _). congruence.
  - eapply (calm_env s _ ex); try done; cbn [with_world r_tasks r_world set_cache w_disk w_cache]; [by left |].
    unfold build_manifest. pose proof (manifest_loop_truthful (w_disk (r_world s)) ex readable root walk (w_cache (r_world s)) origin) as Hm.
    destruct (manifest_loop _ _ _ _ walk _) as [c es]. apply Hm; [| done]. apply Forall_forall. intros [p f] Hx. rewrite Hwalk in Hx.
    by apply elem_of_walk in Hx as [Hx _].
  - exfalso. unfold owner_writes, log_event in Hown. cbn [r_log] in Hown. rewrite List.filter_app, length_app in Hown. cbn in Hown. lia.
  - assert (Hf : forall q f, plain q -> d_files (remove_file (w_disk (r_world s)) p true) !! q = Some f -> d_files (w_disk (r_world s)) !! q = Some f)
      by (intros q f _; cbn; by intros [_ ?]%lookup_delete_Some).
    eapply (calm_env s _ ex); try done; [by left |]. eapply truthful_mono; [exact Hf | done].
  - eapply (calm_env s _ ex); try done. by left.
  - eapply (calm_env s _ ex); try done. by left.
Qed.

Lemma calm_reachable_inv s : calm_reachable s -> calm_inv s.
Proof.
  induction 1 as [s Hs Ht | s s' _ IH Hs Hsz Hown Hdrop]; [| by eapply calm_step].
  split; [by apply run_start_inv | | |].
  - destruct Hs as [-> _]. rewrite map_size_empty. lia.
  - destruct Hs as [-> _]. intros id t. by rewrite lookup_empty.
  - exists None. split; [done | by left].
Qed.

(** between writes the agent never lists a wrong hash. As long as writes come one at a
    time, none is dropped between its rename and its answer and the owner writes nothing,
    every hash the cache has for the current size and time of a file a reader can see is
    the hash of what the file holds, uploads and deletions that break off at any other
    point, removals by the owner and partial warming included; so a listing shows the
    right hash or none. *)
Theorem agent_cache_truthful (s : Run) :
  calm_reachable s -> r_tasks s = ∅ ->
  (forall p f sha, plain p -> d_files (w_disk (r_world s)) !! p = Some f ->
     cached (w_cache (r_world s)) p (zlen (df_data f)) (df_mtime f) = Some sha -> sha = Mirror.sha256_hex digest (df_data f)) /\
  (forall root origin e, d_files (w_disk (r_world s)) !! root = None ->
     listed (w_disk (r_world s)) root (w_cache (r_world s)) origin e ->
     exists rel f, d_files (w_disk (r_world s)) !! (root ++ rel) = Some f /\ me_path e = join [47] rel /\
       (me_sha256 e = [] \/ me_sha256 e = Mirror.sha256_hex digest (df_data f))).
Proof.
  intros Hi%calm_reachable_inv Ht. destruct (ci_truth s Hi) as (ex & Htr & Hex).
  assert (ex = None) as -> by (destruct Hex as [? | (id & t & Hid & _)]; [done | by rewrite Ht, lookup_empty in Hid]).
  split; [intros p f sha Hp Hf; by apply Htr |]. intros root origin e Hroot (rel & f & Hf & Hh & ->). exists rel, f. split_and!; [done | done |].
  cbn [me_sha256]. destruct (cached _ _ _ _) as [sha |] eqn:E; [right | by left]. cbn. eapply Htr; [| done | done | exact E].
  destruct rel as [| c rel _] using rev_ind; [by rewrite app_nil_r, Hroot in Hf |]. exists c. rewrite app_assoc, last_snoc. split; [done |].
  destruct (is_reserved c) eqn:Ec; [| done]. destruct Hh. apply Exists_app. right. by constructor.
Qed.

End run.

(** ** Runs by computation *)

Inductive Cmd := CPut (ac : Request * Z) | CDelete (ac : Request * Z) | CStep (id : nat) (i : TaskIn).

Section exec.
Context (share rel : bytes).

Definition exec (a : AgentState) (url_decode : bytes -> option bytes) (token_of_json : bytes -> option ShareToken)
    (B : Base64) (E : Ed25519) (s : Run) (c : Cmd) : option Run :=
  match c with
  | CPut (req, now) =>
      match put_start url_decode token_of_json a (r_world s) share rel req now with
      | Ok j => Some (start_task s (TPut j (put_pc j))
                  {| ac_share := share; ac_rel := rel; ac_req := req; ac_now := now; ac_world := r_world s |})
      | Err e => Some (refuse_task s e.1)
      end
  | CDelete (req, now) =>
      match delete_start url_decode token_of_json a (r_world s) share rel req now with
      | Ok j => Some (start_task s (TDelete j (delete_pc j))
                  {| ac_share := share; ac_rel := rel; ac_req := req; ac_now := now; ac_world := r_world s |})
      | Err e => Some (refuse_task s e.1)
      end
  | CStep id i =>
      match r_tasks s !! id with
      | Some (TPut j pc) =>
          x ← put_step (fun d => d) a (r_world s) j pc i;
          let '(w, o) := x in
          if match pc, o with
             | PCreate, Go (PBody tmp _ _) => negb (is_file_on (w_disk (r_world s)) tmp)
             | _, _ => true
             end then Some (move_task s id w (TPut j) o (put_event id j o)) else None
      | Some (TDelete j pc) =>
          x ← delete_step (fun d => d) (r_world s) j pc i;
          let '(w, o) := x in Some (move_task s id w (TDelete j) o (delete_event id j o))
      | None => None
      end
  end.

Lemma exec_sound B E a url_decode token_of_json s c s' :
  exec a url_decode token_of_json B E s c = Some s' -> @agent_step B E url_decode token_of_json (fun d => d) a s s'.
Proof.
  destruct c as [[req now] | [req now] | id i]; cbn [exec].
  - destruct (put_start _ _ _ _ _ _ _ _) as [j | e] eqn:Ej; intros [= <-]; [by apply as_put | eapply as_refused; left; exact Ej].
  - destruct (delete_start _ _ _ _ _ _ _ _) as [j | e] eqn:Ej; intros [= <-]; [by apply as_delete | eapply as_refused; right; exact Ej].
  - destruct (r_tasks s !! id) as [[j pc | j pc] |] eqn:Et; [| | done].
    + destruct (put_step _ _ _ _ _ _) as [[w o] |] eqn:Ep; [| done]. cbn [mbind option_bind].
      destruct (match pc with PCreate => _ | _ => _ end) eqn:Ef; [| done]. intros [= <-]. eapply as_put_step; [done | done |].
      intros tmp rest data -> ->. apply negb_true_iff, bool_decide_eq_false in Ef. by apply eq_None_not_Some.
    + destruct (delete_step _ _ _ _ _) as [[w o] |] eqn:Ep; [| done]. intros [= <-]. by eapply as_delete_step.
Qed.

End exec.

(** ** Examples: an empty share, and two uploads *)

Definition exw_token : ShareToken := @sign_share_token toy_base64 toy_ed25519 ex_hub (str "s") (str "share:write") 9.
Definition exw_json (b : bytes) : option ShareToken := if bool_decide (b = str "t") then Some exw_token else None.
Definition exw_agent : AgentState := {| ag_hub_key := ex_hub; ag_identity := None; ag_max_file_mb := Some 1 |}.
Definition exw_world : World :=
  {| w_disk := {| d_files := ∅; d_dirs := {[ []; [str "d"] ]} |}; w_cache := ∅; w_index := ∅;
     w_shares := {[str "s" := {| sh_path := [str "d"]; sh_is_file := false; sh_writable := true; sh_import := false |}]} |}.
Definition exw_start : Run :=
  {| r_world := exw_world; r_tasks := ∅; r_next := 0; r_log := []; r_accepted := ∅; r_answers := ∅ |}.
Definition exw_put (body : string) : Request :=
  {| rq_headers := [(str "authorization", str "Bearer t"); (str "if-none-match", str "*")]; rq_query := None;
     rq_body := [FData (str body)] |}.

Definition exw_run (s : Run) (cs : list Cmd) : option Run :=
  foldl (fun s c => s ← s; exec (str "s") (str "a.txt") exw_agent Some exw_json toy_base64 toy_ed25519 s c) (Some s) cs.

Definition exw_body (id : nat) (name : string) : list Cmd :=
  [CStep id (MkdirIo None); CStep id (CreateIo (str name) 5 None); CStep id (FrameIo 5 None true);
   CStep id (FrameIo 5 None true); CStep id (SyncIo None true)].

Definition exw_one : Run :=
  default exw_start (exw_run exw_start (CPut (exw_put "aa", 3) :: exw_body 0 "1" ++ [CStep 0 (RenameIo true true); CStep 0 (AfterIo true)])).

Definition exw_two : Run :=
  default exw_start (exw_run exw_start (CPut (exw_put "aa", 3) :: CPut (exw_put "bb", 3) :: exw_body 0 "1" ++ exw_body 1 "2" ++
    [CStep 0 (RenameIo true true); CStep 1 (RenameIo true true); CStep 1 (AfterIo true); CStep 0 (AfterIo true)])).

Abbreviation exw_reachable := (@agent_reachable toy_base64 toy_ed25519 Some exw_json (fun d => d) exw_agent).

Lemma exw_start_ok : run_start exw_start.
Proof.
  split_and!; try done; [| by intros e ?%elem_of_nil].
  intros id s Hs _. cbn in Hs. apply lookup_singleton_Some in Hs as [_ <-]. cbn. set_solver.
Qed.

Lemma exw_run_reachable cs s s' : exw_reachable s -> exw_run s cs = Some s' -> exw_reachable s'.
Proof.
  unfold exw_run. revert s. induction cs as [| c cs IH]; intros s Hs; cbn [foldl]; [by intros [= <-] |].
  cbn [mbind option_bind]. destruct (exec _ _ _ _ _ _ _ s c) as [s1 |] eqn:E.
  - apply IH. eapply ar_next; [exact Hs |]. by eapply exec_sound.
  - clear. intros E. exfalso. revert E. induction cs as [| c' cs IH]; [done |]. by cbn [foldl mbind option_bind].
Qed.

Lemma exw_reached cs : exw_reachable (default exw_start (exw_run exw_start cs)).
Proof.
  pose proof (ar_start Some exw_json (fun d => d) exw_agent exw_start exw_start_ok : exw_reachable exw_start) as Hs.
  destruct (exw_run exw_start cs) as [s |] eqn:E; cbn [default from_option id]; [by eapply exw_run_reachable | done].
Qed.

(** Two uploads that both demand that the file is new are both answered "created"; the
    first one's bytes are gone, and the cache names their hash for the bytes that are
    there. *)
Theorem uploads_race :
  exw_reachable exw_two /\
  r_answers exw_two = {[0%nat := 201; 1%nat := 201]} /\ r_tasks exw_two = ∅ /\
  (exists f, d_files (w_disk (r_world exw_two)) !! [str "d"; str "a.txt"] = Some f /\ df_data f = str "bb" /\
     cached (w_cache (r_world exw_two)) [str "d"; str "a.txt"] (zlen (df_data f)) (df_mtime f) =
       Some (Mirror.sha256_hex (fun d => d) (str "aa"))).
Proof.
  split_and!.
  - apply exw_reached.
  - vm_compute. reflexivity.
  - vm_compute. reflexivity.
  - exists {| df_data := str "bb"; df_mtime := 5 |}. by vm_compute.
Qed.

(** ** The listing at its consumer *)

Section consumer.
Context `{Base64} `{Ed25519}.
Context (url_decode : bytes -> option bytes) (token_of_json : bytes -> option ShareToken).

(** a consumer gets the listing the agent built. Pinned to the key of the agent it
    takes the answer as it was signed, and the paths on it are where it writes: a listing
    without backslashes and names of partial downloads is a manifest the mirror can
    follow. What a gate refuses arrives as that status, and an agent without an identity
    key is refused as unsigned. *)
Theorem agent_listing_accepted (to_json : ShareManifest -> bytes) (parse : bytes -> option ShareManifest) (detail : bytes)
    (a : AgentState) (w1 w2 : World) (share_id pinned : bytes) (req : Request) (walk : option (list Found)) (now : Z) :
  (forall mf, parse (to_json mf) = Some mf) -> pinned <> [] ->
  let answer := manifest_response url_decode token_of_json to_json a w1 w2 share_id req walk now in
  let fetched := fetch_manifest_with parse detail share_id pinned (Some answer) in
  (forall e, manifest_gates url_decode token_of_json a w1 share_id req now = Err e -> fetched = Err (http_error e.1)) /\
  (manifest_gates url_decode token_of_json a w1 share_id req now = Ok tt ->
   (w_shares w2 !! share_id ≫= (fun s => share_listing w2 s walk) = None -> fetched = Err (http_error 500)) /\
   forall s mf, w_shares w2 !! share_id = Some s -> share_listing w2 s walk = Some mf ->
     (ag_identity a = None -> forall key, parse_agent_pubkey pinned = Ok key -> fetched = Err (str "manifest_unsigned")) /\
     (forall k, ag_identity a = Some k -> parse_agent_pubkey pinned = Ok (verifying_key k) -> fetched = Ok mf) /\
     (sh_is_file s = false -> disk_ok (w_disk w2) -> sh_path s ∈ d_dirs (w_disk w2) ->
      (forall x, walk = Some x -> x ≡ₚ walk_share (w_disk w2) (sh_path s)) ->
      Forall (fun e => (92 ∉ me_path e) /\ is_part (split 47 (me_path e)) = false) (entries mf) -> manifest_ok mf)).
Proof.
  intros Hjson Hpin answer fetched. unfold fetched, answer, manifest_response. split.
  - intros e He. rewrite He. assert (Hs : negb ((200 <=? e.1) && (e.1 <? 300)) = true).
    { revert He. unfold manifest_gates, check_token. repeat (case_match; try done); intros; simplify_eq; reflexivity. }
    unfold fetch_manifest_with. cbn [fa_status refused]. by rewrite Hs.
  - intros ->. split; [by intros -> |]. intros s mf Hs Hl. rewrite Hs. cbn [mbind option_bind]. rewrite Hl. split_and!.
    + intros Hid key Hkey. unfold signed_manifest_response, fetch_manifest_with. rewrite Hid. cbn [fa_status fa_body fa_sig fa_signed_at fmap option_fmap option_map].
      rewrite bool_decide_false by done. by rewrite Hkey.
    + intros k Hid Hkey. unfold signed_manifest_response, fetch_manifest_with. rewrite Hid. cbn [fa_status fa_body fa_sig fa_signed_at fmap option_fmap option_map].
      rewrite bool_decide_false by done. rewrite Hkey. unfold sign_share_manifest, verify_share_manifest. rewrite check_signed.
      by rewrite Hjson.
    + intros Hfile Hd Hroot Hwalk Hf. unfold share_listing in Hl. rewrite Hfile in Hl.
      destruct walk as [x |]; [| done]. destruct mf as [es]. by eapply listing_manifest_ok; [| | by apply Hwalk | |].
Qed.

End consumer.

(** ** Witnesses *)

Lemma exw_token_genuine :
  @genuine toy_base64 toy_ed25519 ex_hub (map hub_bytes [HShare (str "s") (str "share:write") 9]) (st_signature exw_token).
Proof.
  intros s m Hd Hv. unfold exw_token, sign_share_token in Hd. cbn [st_signature] in Hd. rewrite decode_signed in Hd.
  injection Hd as <-. apply bool_decide_eq_true in Hv. symmetry in Hv.
  apply toy_sign_inj in Hv as ->; [by left | by_compute | vm_compute; lia].
Qed.


Lemma agent_writes_authorised_witness :
  exists ac t, r_accepted exw_one !! 0%nat = Some ac /\ HShare (ac_share ac) (st_scope t) (st_exp t) ∈ [HShare (str "s") (str "share:write") 9].
Proof.
  assert (Hok : Forall hub_ok [HShare (str "s") (str "share:write") 9])
    by (apply Forall_singleton; split_and!; [by_compute | by_compute | lia | vm_compute; reflexivity]).
  assert (Hlog : r_log exw_one = [Up 0 [str "d"; str "a.txt"] (str "aa")]) by (vm_compute; reflexivity).
  destruct (@agent_writes_authorised toy_base64 toy_ed25519 Some exw_json (fun d => d) exw_agent exw_one _ (exw_reached _) Hok
    (Up 0 [str "d"; str "a.txt"] (str "aa")) 0%nat) as (ac & t & sh & Hac & Ht & _ & _ & _ & _ & Hg); [rewrite Hlog; by left | done |].
  exists ac, t. split; [exact Hac |].
  assert (Hreq : ac_req <$> r_accepted exw_one !! 0%nat = Some (exw_put "aa")) by (vm_compute; reflexivity).
  rewrite Hac in Hreq. injection Hreq as Hreq. rewrite Hreq in Ht.
  assert (Hx : @extract_token Some exw_json (exw_put "aa") = Some exw_token) by (vm_compute; reflexivity).
  assert (t = exw_token) as -> by congruence. apply Hg; [split; vm_compute; congruence | apply exw_token_genuine].
Defined.

(** A run with one write at a time, checked step by step. *)
Definition calm_ok (s s' : Run) : bool :=
  (size (r_tasks s') <=? 1)%nat && (owner_writes (r_log s') =? owner_writes (r_log s))%nat &&
  forallb (fun x => match x.2 with
                    | TPut _ (PSeed _) => bool_decide (is_Some (r_tasks s' !! x.1)) || bool_decide (is_Some (r_answers s' !! x.1))
                    | _ => true end) (map_to_list (r_tasks s)).

Definition calm_run (s : Run) (cs : list Cmd) : option Run :=
  foldl (fun s c => s ← s; s' ← exec (str "s") (str "a.txt") exw_agent Some exw_json toy_base64 toy_ed25519 s c;
                    if calm_ok s s' then Some s' else None) (Some s) cs.

Abbreviation exw_calm := (@calm_reachable toy_base64 toy_ed25519 Some exw_json (fun d => d) exw_agent).

Lemma calm_run_reachable cs s : exw_calm s -> exw_calm (default s (calm_run s cs)).
Proof.
  unfold calm_run. intros Hs. induction cs as [| c cs IH] using rev_ind; [done |]. rewrite foldl_app. cbn [foldl].
  destruct (foldl _ _ cs) as [s1 |]; [| done]. cbn [default from_option id mbind option_bind] in *.
  destruct (exec _ _ _ _ _ _ _ s1 c) as [s' |] eqn:E; [| done]. cbn [mbind option_bind].
  destruct (calm_ok s1 s') eqn:Ec; cbn [from_option id]; [| done].
  apply andb_true_iff in Ec as [[Hsz%Nat.leb_le Hown%Nat.eqb_eq]%andb_true_iff Hd].
  eapply cr_next; [exact IH | by eapply exec_sound | done | done |].
  intros i j data Hi. rewrite forallb_forall in Hd. specialize (Hd (i, TPut j (PSeed data))).
  rewrite <- list_elem_of_In, elem_of_map_to_list in Hd. specialize (Hd Hi). cbn in Hd.
  apply orb_true_iff in Hd as [?%bool_decide_eq_true | ?%bool_decide_eq_true]; auto.
Qed.

Definition exw_calm_one : Run :=
  default exw_start (calm_run exw_start (CPut (exw_put "aa", 3) :: exw_body 0 "1" ++ [CStep 0 (RenameIo true true); CStep 0 (AfterIo true)])).

Lemma agent_cache_truthful_witness :
  r_answers exw_calm_one !! 0%nat = Some 201 /\ cached (w_cache (r_world exw_calm_one)) [str "d"; str "a.txt"] 2 5 = Some (str "6161") /\
  str "6161" = Mirror.sha256_hex (fun d => d) (str "aa").
Proof.
  assert (Ha : r_answers exw_calm_one !! 0%nat = Some 201) by (vm_compute; reflexivity).
  assert (Hc : cached (w_cache (r_world exw_calm_one)) [str "d"; str "a.txt"] 2 5 = Some (str "6161")) by (vm_compute; reflexivity).
  split; [exact Ha |]. split; [exact Hc |].
  assert (Hr : exw_calm exw_calm_one).
  { apply calm_run_reachable, cr_start; [apply exw_start_ok |]. intros p f sha _ _ Hf. cbn in Hf. by rewrite lookup_empty in Hf. }
  destruct (@agent_cache_truthful toy_base64 toy_ed25519 Some exw_json (fun d => d) exw_agent exw_calm_one Hr) as [H _]; [vm_compute; reflexivity |].
  apply (H [str "d"; str "a.txt"] {| df_data := str "aa"; df_mtime := 5 |} (str "6161")).
  - exists (str "a.txt"). vm_compute. by split.
  - vm_compute. reflexivity.
  - exact Hc.
Defined.

Definition exw_reader : World :=
  {| w_disk := ex_disk; w_cache := ∅; w_index := ∅;
     w_shares := {[str "s1" := {| sh_path := [str "s"]; sh_is_file := false; sh_writable := false; sh_import := false |}]} |}.
Definition exw_signing : AgentState := {| ag_hub_key := ex_hub; ag_identity := Some ex_agent; ag_max_file_mb := None |}.
Definition exw_get : Request := {| rq_headers := [(str "x-share-token", str "r")]; rq_query := None; rq_body := [] |}.
Definition exw_read_json (b : bytes) : option ShareToken := if bool_decide (b = str "r") then Some ex_token else None.

(** Any injective codec of manifests will do. *)
#[local] Instance filemeta_eq : EqDecision FileMeta := ltac:(solve_decision).
#[local] Instance entry_eq : EqDecision ShareManifestEntry := ltac:(solve_decision).
#[local] Instance manifest_eq : EqDecision ShareManifest := ltac:(solve_decision).
#[local] Instance filemeta_countable : Countable FileMeta :=
  inj_countable' (fun m => (fm_url m, fm_source m, fm_source_url m, fm_published m, fm_title m))
    (fun '(u, s, su, p, t) => {| fm_url := u; fm_source := s; fm_source_url := su; fm_published := p; fm_title := t |})
    ltac:(by intros []).
#[local] Instance entry_countable : Countable ShareManifestEntry :=
  inj_countable' (fun e => (me_path e, me_size e, me_mtime e, me_sha256 e, me_meta e))
    (fun '(p, n, t, h, m) => {| me_path := p; me_size := n; me_mtime := t; me_sha256 := h; me_meta := m |}) ltac:(by intros []).
#[local] Instance manifest_countable : Countable ShareManifest := inj_countable' entries Build_ShareManifest ltac:(by intros []).

Definition exw_to_json (mf : ShareManifest) : bytes := [Z.pos (encode mf)].
Definition exw_parse (b : bytes) : option ShareManifest := match b with [Z.pos p] => decode p | _ => None end.

Lemma agent_listing_accepted_witness : exists mf,
  @fetch_manifest_with toy_base64 toy_ed25519 exw_parse [] (str "s1") (toy_encode ex_agent)
    (Some (@manifest_response toy_base64 toy_ed25519 Some exw_read_json exw_to_json exw_signing exw_reader exw_reader (str "s1") exw_get
       (Some (walk_share ex_disk [str "s"])) 4000)) = Ok mf /\
  map me_path (entries mf) = [str "a.txt"; str "b\c"].
Proof.
  set (sh := {| sh_path := [str "s"]; sh_is_file := false; sh_writable := false; sh_import := false |}).
  destruct (share_listing exw_reader sh (Some (walk_share ex_disk [str "s"]))) as [mf |] eqn:El; [| by vm_compute in El].
  exists mf. split.
  - destruct (@agent_listing_accepted toy_base64 toy_ed25519 Some exw_read_json exw_to_json exw_parse [] exw_signing exw_reader exw_reader
      (str "s1") (toy_encode ex_agent) exw_get (Some (walk_share ex_disk [str "s"])) 4000) as [_ H].
    + intros m. apply decode_encode.
    + by vm_compute.
    + destruct H as [_ H]; [vm_compute; reflexivity |]. destruct (H sh mf) as (_ & H1 & _); [vm_compute; reflexivity | exact El |].
      apply (H1 ex_agent); [done | vm_compute; reflexivity].
  - vm_compute in El. injection El as <-. reflexivity.
Defined.
