(* ===== verification/Tunnel.v ===== *)
(** * The single-stream tunnel

    xr-proto/src/tunnel.rs: the client's handshake, the relay that turns local bytes
    into Data frames and Data frames into local bytes, and the direct relay. The
    server's relay (xr-server/src/handler.rs) is the same pair of pumps with its
    own limits, started on what the first read took beyond the Connect frame.
    A pump is resumed by what it waits for: a read, the progress of a write, a
    timer. The outer [option] is a panic of the code. *)

From S2P Require Import Prelude Text Net Obfuscation Protocol.

(** ** The pumps *)

(** A read that returned (empty at the end of the stream), a failed read, the
    idle timer, the number of bytes of the running [write_all] that the socket took,
    a failed write. *)
Inductive PumpIn :=
| InRead (chunk : bytes)
| InErr (e : io_error)
| InIdle
| OutMoved (n : Z)
| OutErr (e : io_error).

(** Local bytes to frames. A read waits since [since]; [last] marks the Close frame. *)
Inductive EncPump :=
| ERead (since : Z)
| EWrite (wire : bytes) (last : bool)
| EDone (r : io_result unit).

(** Frames to local bytes: the bytes of an incomplete frame, or the payload being
    written with the bytes behind its frame. *)
Inductive DecPump :=
| DRead (since : Z) (buf : bytes)
| DWrite (out rest : bytes)
| DDone (r : io_result unit).

Definition ENC_BUFFER : Z := 8192.
Definition DEC_BUFFER : Z := 65536 + 256.

Section pumps.
Context {AR : Arch} (codec : Codec) (idle : Z).

(** What follows a read of the local side. *)
Definition enc_frame (rng : Rng) (chunk : bytes) : EncPump :=
  if zlen chunk =? 0 then
    match encode_frame codec rng Close [] with
    | Ok w => EWrite w true
    | Err e => EDone (Err e)
    end
  else
    match encode_frame codec rng Data chunk with
    | Ok w => EWrite w false
    | Err e => EDone (Err e)
    end.

(** The second component is what goes onto the wire. *)
Definition enc_step (rng : Rng) (now : Z) (p : EncPump) (i : PumpIn) : EncPump * bytes :=
  match p, i with
  | ERead _, InRead chunk => (enc_frame rng chunk, [])
  | ERead _, InErr e => (EDone (Err e), [])
  | ERead since, InIdle => (if idle <=? now - since then EDone (Ok tt) else p, [])
  | EWrite w last, OutMoved n =>
      let rest := zdrop n w in
      (if zlen rest =? 0 then (if last then EDone (Ok tt) else ERead now) else EWrite rest last, ztake n w)
  | EWrite _ _, OutErr e => (EDone (Err e), [])
  | _, _ => (p, [])
  end.

(** Decodes up to the next payload to write, the end, or a read. *)
Fixpoint dec_next (fuel : nat) (now : Z) (buf : bytes) : option DecPump :=
  match fuel with
  | O => None
  | S fuel =>
      r ← decode_frame codec buf;
      match r with
      | Err e => Some (DDone (Err e))
      | Ok None => Some (DRead now buf)
      | Ok (Some (f, consumed)) =>
          let rest := zdrop consumed buf in
          match command f with
          | Data => Some (DWrite (payload f) rest)
          | Close => Some (DDone (Ok tt))
          | _ => dec_next fuel now rest
          end
      end
  end.

Definition dec_resume (now : Z) (buf : bytes) : option DecPump := dec_next (S (length buf)) now buf.

(** The second component is what reaches the local side. *)
Definition dec_step (now : Z) (p : DecPump) (i : PumpIn) : option (DecPump * bytes) :=
  match p, i with
  | DRead _ buf, InRead chunk =>
      if zlen chunk =? 0 then Some (DDone (Ok tt), []) else
      p ← dec_resume now (buf ++ chunk); Some (p, [])
  | DRead _ _, InErr e => Some (DDone (Err e), [])
  | DRead since _, InIdle => Some (if idle <=? now - since then DDone (Ok tt) else p, [])
  | DWrite out rest, OutMoved n =>
      let left := zdrop n out in
      if zlen left =? 0 then p ← dec_resume now rest; Some (p, ztake n out)
      else Some (DWrite left rest, ztake n out)
  | DWrite _ _, OutErr e => Some (DDone (Err e), [])
  | _, _ => Some (p, [])
  end.

(** ** The relay: both pumps under [select!] and the lifetime *)

Record RelayRun := {
  r_enc : EncPump;
  r_dec : DecPump;
  r_started : Z;
  r_end : option (io_result unit)
}.

Inductive RelayIn :=
| OfEnc (rng : Rng) (i : PumpIn)
| OfDec (i : PumpIn)
| OfLifetime.

Definition enc_end (p : EncPump) : option (io_result unit) := match p with EDone r => Some r | _ => None end.
Definition dec_end (p : DecPump) : option (io_result unit) := match p with DDone r => Some r | _ => None end.

(** The new state, what goes onto the wire, what reaches the local side. A relay
    that ended has dropped both pumps. *)
Definition relay_step (life now : Z) (r : RelayRun) (i : RelayIn) : option (RelayRun * bytes * bytes) :=
  match r_end r with
  | Some _ => Some (r, [], [])
  | None =>
      match i with
      | OfEnc rng i =>
          let '(e, w) := enc_step rng now (r_enc r) i in
          Some ({| r_enc := e; r_dec := r_dec r; r_started := r_started r; r_end := enc_end e |}, w, [])
      | OfDec i =>
          '(d, out) ← dec_step now (r_dec r) i;
          Some ({| r_enc := r_enc r; r_dec := d; r_started := r_started r; r_end := dec_end d |}, [], out)
      | OfLifetime =>
          Some (if life <=? now - r_started r
                then {| r_enc := r_enc r; r_dec := r_dec r; r_started := r_started r; r_end := Some (Ok tt) |}
                else r, [], [])
      end
  end.

(** The client's [relay_obfuscated]: both pumps begin with a read. *)
Definition client_relay (now : Z) : RelayRun :=
  {| r_enc := ERead now; r_dec := DRead now []; r_started := now; r_end := None |}.

(** The server's [relay_obfuscated]: the upstream pump first looks at what the
    handler had read beyond the Connect frame. *)
Definition server_relay (now : Z) (initial : bytes) : option RelayRun :=
  d ← dec_resume now initial;
  Some {| r_enc := ERead now; r_dec := d; r_started := now; r_end := dec_end d |}.

(** ** The client's handshake *)

Definition connect_wire (rng : Rng) (target_addr : TargetAddr) : io_result bytes :=
  match TargetAddr_encode target_addr with
  | Ok p => encode_frame codec rng Connect p
  | Err e => Err e
  end.

Definition connect_ack (f : Frame) : io_result unit :=
  if negb (bool_decide (command f = ConnectAck)) then io_err InvalidData "expected ConnectAck"
  else if negb (bool_decide (head (payload f) = Some 0)) then io_err ConnectionRefused "server rejected connect"
  else Ok tt.

Definition ACK_BUFFER : Z := 256.

(** One read of the wait for ConnectAck; [inl] is the buffer to read on into. What
    was read beyond the frame is dropped with the buffer. *)
Definition handshake_read (buf : bytes) (i : PumpIn) : option (bytes + io_result unit) :=
  match i with
  | InRead chunk =>
      if zlen chunk =? 0 then Some (inr (io_err ConnectionReset "server closed during handshake")) else
      let buf := buf ++ chunk in
      r ← decode_frame codec buf;
      Some match r with
           | Err e => inr (Err e)
           | Ok None => inl buf
           | Ok (Some (f, _)) => inr (connect_ack f)
           end
  | InErr e => Some (inr (Err e))
  | InIdle => Some (inr (io_err TimedOut "connect ack timeout"))
  | _ => Some (inl buf)
  end.

End pumps.

(** ** The direct relay *)

(** [relay_bidirectional]: two library copies under [select!] and the lifetime. *)
Inductive DirectIn :=
| CopyDone (r : io_result Z)
| DirectTimer.

Definition direct_step (life now started : Z) (i : DirectIn) : option (io_result unit) :=
  match i with
  | CopyDone (Ok _) => Some (Ok tt)
  | CopyDone (Err e) => Some (Err e)
  | DirectTimer => if life <=? now - started then Some (Ok tt) else None
  end.

(** ** Two relays and the connection between them *)

(** One end: its relay, what it read from the local side and delivered to it, and
    what it sent that the other end has not read yet. *)
Record Side := { run : RelayRun; taken : bytes; given : bytes; wire : bytes }.

(** What a read gives: a part of what is on the wire that fits into the buffer; no
    bytes only without room, or when the peer is gone and the wire is drained. *)
Definition socket_read (w : bytes) (peer_gone : bool) (buf chunk rest : bytes) : Prop :=
  w = chunk ++ rest /\ zlen chunk <= DEC_BUFFER - zlen buf /\
  (chunk = [] -> zlen buf = DEC_BUFFER \/ (w = [] /\ peer_gone = true)).

Definition not_read (i : PumpIn) : bool := match i with InRead _ => false | _ => true end.

Definition relay_gone (s : Side) : bool := match r_end (run s) with Some _ => true | None => false end.

Section side.
Context {AR : Arch} (codec : Codec) (idle life : Z).

Inductive side_step (s p : Side) : Side -> Side -> Prop :=
| SideTake rng now since chunk r w out :
    r_end (run s) = None -> r_enc (run s) = ERead since ->
    rng_ok rng -> bytes_ok chunk -> zlen chunk <= ENC_BUFFER ->
    relay_step codec idle life now (run s) (OfEnc rng (InRead chunk)) = Some (r, w, out) ->
    side_step s p {| run := r; taken := taken s ++ chunk; given := given s ++ out; wire := wire s ++ w |} p
| SideReceive now since buf chunk rest r w out :
    r_end (run s) = None -> r_dec (run s) = DRead since buf ->
    socket_read (wire p) (relay_gone p) buf chunk rest ->
    relay_step codec idle life now (run s) (OfDec (InRead chunk)) = Some (r, w, out) ->
    side_step s p {| run := r; taken := taken s; given := given s ++ out; wire := wire s ++ w |}
      {| run := run p; taken := taken p; given := given p; wire := rest |}
| SideOther now i r w out :
    match i with OfEnc _ i | OfDec i => not_read i = true | OfLifetime => True end ->
    relay_step codec idle life now (run s) i = Some (r, w, out) ->
    side_step s p {| run := r; taken := taken s; given := given s ++ out; wire := wire s ++ w |} p.

End side.

(** The Data frame of one local read, and the Close that ends a direction. *)
Definition data_f (c : bytes) : Frame := {| command := Data; payload := c |}.
Definition closing (closed : bool) : list Frame := if closed then [{| command := Close; payload := [] |}] else [].

Definition dec_buf (d : DecPump) : bytes := match d with DRead _ b => b | DWrite _ r => r | DDone _ => [] end.
Definition dec_out (d : DecPump) : bytes := match d with DWrite o _ => o | _ => [] end.

(** What of the running write is not on the wire yet, and whether the direction
    was closed. *)
Definition pending (e : EncPump) (more : bytes) (closed : bool) : Prop :=
  match e with
  | ERead _ => more = [] /\ closed = false
  | EWrite w last => more = w /\ closed = last
  | EDone _ => True
  end.

Section half.
Context (A1 A2 : Arch) (c : Codec).

(** One direction: bytes taken by the encoder of one side and given by the decoder
    of the other. *)
Definition half_ok (tk : bytes) (e : EncPump) (w : bytes) (d : DecPump) (gv : bytes) : Prop :=
  match d with
  | DDone _ => gv `prefix_of` tk
  | _ =>
      exists cs1 cs2 closed ws more,
        tk = concat (cs1 ++ cs2) /\ Forall (fun x => zlen x <= ENC_BUFFER) cs2 /\
        Forall2 (@encodes A1 c) (map data_f cs2 ++ closing closed) ws /\
        dec_buf d ++ w ++ more = concat ws /\ pending e more closed /\
        gv ++ dec_out d = concat cs1 /\
        match d with DRead _ b => partial ws b | _ => True end
  end.

Context (Hc : codec_wf c) (Hag : peers_agree A1 A2 (obfuscator c)).

(** The decode loop looks at one frame at a time. *)
Lemma dec_resume_spec now cs closed ws buf more :
  Forall2 (@encodes A1 c) (map data_f cs ++ closing closed) ws -> buf ++ more = concat ws ->
  (@dec_resume A2 c now buf = Some (DRead now buf) /\ partial ws buf) \/
  (exists x cs' w ws' rest, cs = x :: cs' /\ ws = w :: ws' /\ buf = w ++ rest /\
     @dec_resume A2 c now buf = Some (DWrite x rest) /\
     Forall2 (@encodes A1 c) (map data_f cs' ++ closing closed) ws' /\ rest ++ more = concat ws') \/
  (cs = [] /\ @dec_resume A2 c now buf = Some (DDone (Ok tt))).
Proof.
  unfold dec_resume. cbn [dec_next]. intros Hf Hcat.
  destruct ws as [| w ws].
  { left. apply app_eq_nil in Hcat as [-> _]. done. }
  destruct (map data_f cs ++ closing closed) as [| f fs] eqn:Efs; [by inversion Hf |].
  inversion Hf as [| ? ? ? ? (rng & Hr & Hw) Hf']; subst. cbn [concat] in Hcat.
  assert (Hcut : (exists k, buf = w ++ k /\ k ++ more = concat ws) \/ (exists b k, w = buf ++ b :: k)).
  { apply app_eq_inv in Hcat as [(k & -> & Hk) | ([| b k] & -> & Hk)]; [by left; exists k | left | by right; exists b, k].
    exists []. by rewrite !app_nil_r. }
  destruct Hcut as [(k & -> & Hk) | (b & k & ->)].
  - rewrite (decode_encode_frame A1 A2 c rng (command f) (payload f) w k) by done.
    cbn [mbind option_bind command payload]. rewrite zdrop_app by done. right.
    destruct cs as [| x cs]; cbn in Efs.
    + right. split; [done |]. destruct closed; [| done]. injection Efs as <- <-. done.
    + left. injection Efs as <- <-. exists x, cs, w, ws, k. done.
  - left. rewrite (decode_frame_prefix A1 A2 c rng (command f) (payload f) buf (b :: k)) by done.
    split; [done |]. by exists (b :: k).
Qed.

(** What is given never runs ahead of what was taken. *)
Lemma half_prefix tk e w d gv : half_ok tk e w d gv -> gv `prefix_of` tk.
Proof.
  destruct d; simpl; [| | done]; intros (cs1 & cs2 & cl & ws & more & -> & _ & _ & _ & _ & Hg & _);
    rewrite concat_app, <- Hg, <- app_assoc; eexists; reflexivity.
Qed.

Lemma half_enc_done tk e w d gv r : half_ok tk e w d gv -> half_ok tk (EDone r) w d gv.
Proof. destruct d; [| | done]; intros (cs1 & cs2 & cl & ws & more & H); exists cs1, cs2, cl, ws, more;
  destruct H as (? & ? & ? & ? & _ & ? & ?); by split_and!. Qed.

Lemma half_dec_done tk e w d gv r w' : half_ok tk e w d gv -> half_ok tk e w' (DDone r) gv.
Proof. apply half_prefix. Qed.

(** A decoder that looks at its buffer. *)
Lemma half_resume now tk e w gv buf cs1 cs2 closed ws more :
  tk = concat (cs1 ++ cs2) -> Forall (fun x => zlen x <= ENC_BUFFER) cs2 ->
  Forall2 (@encodes A1 c) (map data_f cs2 ++ closing closed) ws ->
  buf ++ w ++ more = concat ws -> pending e more closed -> gv = concat cs1 ->
  exists d, @dec_resume A2 c now buf = Some d /\ half_ok tk e w d gv /\
    (forall r, d = DDone r -> r = Ok tt /\ gv = tk).
Proof.
  intros Htk Hs Hf Hcat Hp Hg.
  destruct (dec_resume_spec now cs2 closed ws buf (w ++ more)) as
    [(E & Hpt) | [(x & cs' & w1 & ws' & rest & -> & -> & -> & E & Hf' & Hcat') | (-> & E)]]; try done.
  - exists (DRead now buf). split_and!; try done. exists cs1, cs2, closed, ws, more.
    split_and!; try done. cbn [dec_out]. by rewrite app_nil_r.
  - exists (DWrite x rest). split_and!; try done. exists (cs1 ++ [x]), cs', closed, ws', more.
    rewrite <- app_assoc. split_and!; try done.
    + by inversion Hs.
    + cbn [dec_out]. rewrite Hg, concat_app. simpl. by rewrite app_nil_r.
  - exists (DDone (Ok tt)). split_and!; [done | |].
    + simpl. rewrite Htk, Hg, app_nil_r. done.
    + intros r [= <-]. by rewrite Htk, Hg, app_nil_r.
Qed.

Lemma half_receive now tk e chunk rest since buf gv :
  half_ok tk e (chunk ++ rest) (DRead since buf) gv ->
  exists d, @dec_resume A2 c now (buf ++ chunk) = Some d /\ half_ok tk e rest d gv /\
    (forall r, d = DDone r -> r = Ok tt /\ gv = tk).
Proof.
  intros (cs1 & cs2 & cl & ws & more & Htk & Hs & Hf & Hcat & Hp & Hg & _). cbn [dec_buf dec_out] in *.
  rewrite app_nil_r in Hg. eapply half_resume; try done. by rewrite <- Hcat, <- !app_assoc.
Qed.

Lemma half_given now n tk e w out rest gv :
  half_ok tk e w (DWrite out rest) gv ->
  exists d, @dec_step A2 c 0 now (DWrite out rest) (OutMoved n) = Some (d, ztake n out) /\
    half_ok tk e w d (gv ++ ztake n out) /\
    (forall r, d = DDone r -> r = Ok tt /\ gv ++ ztake n out = tk).
Proof.
  intros (cs1 & cs2 & cl & ws & more & Htk & Hs & Hf & Hcat & Hp & Hg & _). cbn [dec_buf dec_out dec_step] in *.
  destruct (Z.eqb_spec (zlen (zdrop n out)) 0) as [E0 | _].
  - apply zlen_0_nil in E0. assert (ztake n out = out) as Eo by (rewrite <- (ztake_zdrop n out) at 2; by rewrite E0, app_nil_r).
    rewrite Eo. destruct (half_resume now tk e w (gv ++ out) rest cs1 cs2 cl ws more) as (d & E & Hd & Hr); try done.
    exists d. by rewrite E.
  - eexists. split_and!; [done | | done]. exists cs1, cs2, cl, ws, more. cbn [dec_buf dec_out].
    split_and!; try done. by rewrite <- app_assoc, ztake_zdrop.
Qed.

(** The encoder reads a piece, or the end of its stream. *)
Lemma half_take tk since w d gv rng chunk :
  rng_ok rng -> zlen chunk <= ENC_BUFFER -> half_ok tk (ERead since) w d gv ->
  exists wr last, @enc_frame A1 c rng chunk = EWrite wr last /\ half_ok (tk ++ chunk) (EWrite wr last) w d gv.
Proof.
  intros Hr Hl Hh.
  assert (Henc : forall cmd p, zlen p <= ENC_BUFFER -> exists wr, @encode_frame A1 c rng cmd p = Ok wr).
  { intros cmd p Hp. unfold encode_frame, ENC_BUFFER, MAX_PAYLOAD_LEN, U16_MAX in *.
    destruct (Z.ltb_spec (2 ^ 16 - 1) (zlen p)); [lia |]. eauto. }
  assert (Hx : exists wr last f cs', @enc_frame A1 c rng chunk = EWrite wr last /\ @encodes A1 c f wr /\
    chunk = concat cs' /\ Forall (fun x => zlen x <= ENC_BUFFER) cs' /\
    map data_f cs' ++ closing last = [f]).
  { unfold enc_frame. destruct (Z.eqb_spec (zlen chunk) 0) as [E0 | _].
    - apply zlen_0_nil in E0. destruct (Henc Close []) as [wr Hw]; [done |]. rewrite Hw.
      exists wr, true, {| command := Close; payload := [] |}, []. split_and!; try done. by exists rng.
    - destruct (Henc Data chunk) as [wr Hw]; [done |]. rewrite Hw. exists wr, false, (data_f chunk), [chunk].
      split_and!; try done; [by exists rng | simpl; by rewrite app_nil_r | by repeat constructor]. }
  destruct Hx as (wr & last & f & cs' & E & Hw & Hch & Hl' & Hf). exists wr, last. split; [done |].
  destruct d as [s b | o r0 | r0]; [| | by apply prefix_app_r];
    destruct Hh as (cs1 & cs2 & cl & ws & more & -> & Hs & Hfs & Hcat & [-> ->] & Hg & Hpt);
    cbn [closing] in Hfs; rewrite app_nil_r in Hfs, Hcat;
    exists cs1, (cs2 ++ cs'), last, (ws ++ [wr]), wr;
    (split_and!;
      [by rewrite !concat_app, Hch, app_assoc | by apply Forall_app |
       rewrite map_app, <- app_assoc, Hf; by apply Forall2_app; [| constructor] |
       rewrite concat_app, <- Hcat; simpl; by rewrite app_nil_r, <- app_assoc | try done ..]).
  destruct ws as [| w1 ws]; [| done]. simpl in Hpt. subst b. apply app_eq_nil in Hcat as [_ ->].
  exists wr. split; [done |]. by eapply (@encodes_nonempty A1).
Qed.

(** The socket takes a part of what the encoder writes. *)
Lemma half_moved tk w d gv rng now n wr last :
  half_ok tk (EWrite wr last) w d gv ->
  half_ok tk (@enc_step A1 c 0 rng now (EWrite wr last) (OutMoved n)).1 (w ++ ztake n wr) d gv.
Proof.
  intros Hh. cbn [enc_step fst].
  destruct d as [s b | o r0 | r0]; [| | done];
    destruct Hh as (cs1 & cs2 & cl & ws & more & Htk & Hs & Hfs & Hcat & [-> ->] & Hg & Hpt);
    (exists cs1, cs2, last, ws, (zdrop n wr); split_and!; try done;
     [by rewrite <- app_assoc, ztake_zdrop |
      destruct (Z.eqb_spec (zlen (zdrop n wr)) 0) as [E0 | _]; [apply zlen_0_nil in E0; by destruct last | done]]).
Qed.

(** An incomplete frame of the peer leaves room in the buffer. *)
Lemma half_room tk e w since buf gv : half_ok tk e w (DRead since buf) gv -> zlen buf < DEC_BUFFER.
Proof.
  intros (cs1 & cs2 & cl & ws & more & _ & Hs & Hf & _ & _ & _ & Hpt).
  destruct ws as [| w1 ws]; simpl in Hpt; [subst buf; done |]. destruct Hpt as (k & -> & Hk).
  assert (Hle : zlen (buf ++ k) <= 8 + 255 + ENC_BUFFER).
  { assert (exists f, @encodes A1 c f (buf ++ k) /\ zlen (payload f) <= ENC_BUFFER) as (f & (rng & Hr & Hw) & Hp).
    { destruct cs2 as [| x cs2]; [destruct cl |]; cbn in Hf; inversion Hf; subst; (eexists; split; [done |]); cbn; [done |].
      by inversion Hs. }
    apply encode_frame_length in Hw; [| done..]. destruct Hc as (_ & H1 & H2). unfold is_byte in *. lia. }
  rewrite zlen_app in Hle. unfold ENC_BUFFER, DEC_BUFFER in *. pose proof (zlen_nonneg k). lia.
Qed.

(** Nothing under way: everything was delivered. *)
Lemma half_quiet tk since since' buf gv :
  half_ok tk (ERead since) [] (DRead since' buf) gv -> gv = tk.
Proof.
  intros (cs1 & cs2 & cl & ws & more & -> & _ & Hf & Hcat & [-> ->] & Hg & Hpt).
  cbn [dec_buf dec_out] in *. rewrite !app_nil_r in *.
  destruct ws as [| w1 ws].
  - apply Forall2_nil_inv_r, map_eq_nil in Hf as ->. by rewrite app_nil_r.
  - exfalso. simpl in *. destruct Hpt as (k & -> & Hk). rewrite <- app_assoc in Hcat.
    apply (f_equal zlen) in Hcat. rewrite !zlen_app in Hcat. destruct k; [done | zlen_lia].
Qed.

End half.

(** ** Runs of a tunnel *)

Section sides.
Context (A1 A2 : Arch) (c : Codec) (Hc : codec_wf c) (Hag : peers_agree A1 A2 (obfuscator c)).

(** From the first side to the second, and back. *)
Definition sides_ok (s p : Side) : Prop :=
  half_ok A1 c (taken s) (r_enc (run s)) (wire s) (r_dec (run p)) (given p) /\
  half_ok A2 c (taken p) (r_enc (run p)) (wire p) (r_dec (run s)) (given s).

Lemma side_step_ok idle life s p s' p' :
  @side_step A1 c idle life s p s' p' -> sides_ok s p -> sides_ok s' p'.
Proof.
  intros Hstep [Hsp Hps]. pose proof (peers_agree_sym A1 A2 _ Hag) as Hag'. destruct Hstep as [rng now since chunk r w out He Hen Hr Hb Hl Hst | now since buf chunk rest r w out He Hde Hrd Hst | now i r w out Hi Hst];
    unfold relay_step in Hst.
  - rewrite He, Hen in Hst. cbn [enc_step] in Hst. injection Hst as <- <- <-. rewrite Hen in Hsp.
    destruct (half_take A1 c Hc _ _ _ _ _ rng chunk Hr Hl Hsp) as (wr & last & E & Hsp').
    unfold sides_ok. cbn [run taken given wire r_enc r_dec fst snd]. rewrite E, !app_nil_r. done.
  - rewrite He, Hde in Hst. cbn [dec_step] in Hst. destruct Hrd as (Hw & _ & _). rewrite Hde, Hw in Hps.
    destruct (zlen chunk =? 0) eqn:E0.
    + cbn in Hst. injection Hst as <- <- <-. unfold sides_ok. cbn [run taken given wire r_enc r_dec fst snd]. rewrite !app_nil_r. split; [done |].
      by eapply half_dec_done in Hps.
    + destruct (half_receive A2 A1 c Hc Hag' now _ _ _ _ _ _ _ Hps) as (d & E & Hd & _).
      rewrite E in Hst. cbn in Hst. injection Hst as <- <- <-. unfold sides_ok. cbn [run taken given wire r_enc r_dec fst snd]. by rewrite !app_nil_r.
  - destruct (r_end (run s)); [injection Hst as <- <- <-; unfold sides_ok; cbn [run taken given wire r_enc r_dec fst snd]; by rewrite !app_nil_r |].
    destruct i as [rng i | i |].
    + destruct (r_enc (run s)) as [since | wr last | x] eqn:Ee, i; try done; cbn in Hst; injection Hst as <- <- <-;
        unfold sides_ok; cbn [run taken given wire r_enc r_dec fst snd]; rewrite ?app_nil_r; split; try done; try (rewrite Ee; done);
        try (by eapply half_enc_done);
        try (case_match; [by eapply half_enc_done | done]);
        try (by apply (half_moved A1 c _ _ _ _ rng now n wr last)).
    + destruct (r_dec (run s)) as [since buf | o rest | x] eqn:Ed, i as [| | | n |]; try done.
      all: try (cbn in Hst; injection Hst as <- <- <-; unfold sides_ok; cbn [run taken given wire r_enc r_dec fst snd]; rewrite ?app_nil_r; split; try done;
        try (case_match; [by eapply half_dec_done in Hps | done]); try (by eapply half_dec_done in Hps); done).
      destruct (half_given A2 A1 c Hc Hag' now n _ _ _ _ _ _ Hps) as (d & E & Hd & _).
      assert (@dec_step A1 c idle now (DWrite o rest) (OutMoved n) = Some (d, ztake n o)) as E' by exact E.
      rewrite E' in Hst. cbn in Hst. injection Hst as <- <- <-. unfold sides_ok. cbn [run taken given wire r_enc r_dec fst snd]. by rewrite ?app_nil_r.
    + case_match; injection Hst as <- <- <-; unfold sides_ok; cbn [run taken given wire r_enc r_dec fst snd]; by rewrite ?app_nil_r.
Qed.

(** A run: the client may have sent Data frames already, of which the server's
    handler read [l] together with the Connect frame; then either side moves. *)
Inductive tunnel_reach (idle1 life1 idle2 life2 : Z) : Side -> Side -> Prop :=
| TunnelStart now1 now2 cs ws l rest r :
    Forall (fun x => zlen x <= ENC_BUFFER) cs -> Forall2 (@encodes A1 c) (map data_f cs) ws ->
    l ++ rest = concat ws -> @server_relay A2 c now2 l = Some r ->
    tunnel_reach idle1 life1 idle2 life2
      {| run := client_relay now1; taken := concat cs; given := []; wire := rest |}
      {| run := r; taken := []; given := []; wire := [] |}
| TunnelClient s p s' p' :
    tunnel_reach idle1 life1 idle2 life2 s p -> @side_step A1 c idle1 life1 s p s' p' ->
    tunnel_reach idle1 life1 idle2 life2 s' p'
| TunnelServer s p s' p' :
    tunnel_reach idle1 life1 idle2 life2 s p -> @side_step A2 c idle2 life2 p s p' s' ->
    tunnel_reach idle1 life1 idle2 life2 s' p'.

(** What the direction from [s] to [p], whose decoder runs on [A], promises. *)
Definition carries (A : Arch) (s p : Side) : Prop :=
  given p `prefix_of` taken s /\
  (forall since since' buf,
     r_enc (run s) = ERead since -> r_dec (run p) = DRead since' buf -> wire s = [] -> given p = taken s) /\
  (forall since buf, r_dec (run p) = DRead since buf -> zlen buf < DEC_BUFFER) /\
  (forall idle now since buf chunk rest,
     r_dec (run p) = DRead since buf -> wire s = chunk ++ rest -> chunk <> [] ->
     exists d, @dec_step A c idle now (DRead since buf) (InRead chunk) = Some (d, []) /\
       forall r, d = DDone r -> r = Ok tt /\ given p = taken s) /\
  (forall idle now n out rest,
     r_dec (run p) = DWrite out rest ->
     exists d, @dec_step A c idle now (DWrite out rest) (OutMoved n) = Some (d, ztake n out) /\
       forall r, d = DDone r -> r = Ok tt /\ given p ++ ztake n out = taken s).

End sides.

Lemma half_carries (A1 A2 : Arch) c s p :
  codec_wf c -> peers_agree A1 A2 (obfuscator c) ->
  half_ok A1 c (taken s) (r_enc (run s)) (wire s) (r_dec (run p)) (given p) -> carries c A2 s p.
Proof.
  intros Hc Hag Hh. split_and!.
  - eapply (half_prefix A1 c). exact Hh.
  - intros since since' buf He Hd Hw. rewrite He, Hd, Hw in Hh. eapply (half_quiet A1 c); exact Hh.
  - intros since buf Hd. rewrite Hd in Hh. eapply (half_room A1 c Hc); exact Hh.
  - intros idle now since buf chunk rest Hd Hw Hne. rewrite Hd, Hw in Hh.
    destruct (half_receive A1 A2 c Hc Hag now _ _ _ _ _ _ _ Hh) as (d & E & _ & Hr).
    exists d. cbn [dec_step]. destruct (Z.eqb_spec (zlen chunk) 0) as [E0 |]; [by apply zlen_0_nil in E0 |].
    by rewrite E.
  - intros idle now n out rest Hd. rewrite Hd in Hh.
    destruct (half_given A1 A2 c Hc Hag now n _ _ _ _ _ _ Hh) as (d & E & _ & Hr). by exists d.
Qed.

Lemma tunnel_reach_ok (A1 A2 : Arch) c i1 l1 i2 l2 s p :
  codec_wf c -> peers_agree A1 A2 (obfuscator c) ->
  tunnel_reach A1 A2 c i1 l1 i2 l2 s p -> sides_ok A1 A2 c s p.
Proof.
  intros Hc Hag Hr. pose proof (peers_agree_sym A1 A2 _ Hag) as Hag'.
  induction Hr as [now1 now2 cs ws l rest r Hs Hf Hcat Hsv | s p s' p' _ IH Hst | s p s' p' _ IH Hst].
  - unfold server_relay in Hsv.
    destruct (half_resume A1 A2 c Hc Hag now2 (concat cs) (ERead now1) rest [] l [] cs false ws [])
      as (d & E & Hd & _); try done; [by rewrite app_nil_r | by rewrite app_nil_r |].
    rewrite E in Hsv. injection Hsv as <-. split; [done |]. exists [], [], false, [], []. by repeat split.
  - by eapply (side_step_ok A1 A2).
  - destruct IH as [H1 H2]. assert (sides_ok A2 A1 c p' s') as [? ?]; [| done].
    by eapply (side_step_ok A2 A1).
Qed.

(** ** Claims *)

(** C25: The single-stream tunnel is a pair of byte pipes. In every run of a client and a
    server relay, between machines of any width, with the server's decoder started
    on whatever part of the first frames its handler had read already, however the
    connection cuts the bytes and whichever side is delayed, fails, idles or is
    cancelled half-way through a frame: in each direction what reached the far local
    side is a prefix of what the near local side sent, and all of it once nothing is
    under way; the decoder never panics, never reports a bad frame, always has
    room for its next read, and when bytes of the peer end it, that is the Close
    frame, behind which everything has been delivered. *)
Theorem tunnel_faithful (A1 A2 : Arch) (c : Codec) (idle1 life1 idle2 life2 : Z) (s p : Side)
    (Hc : codec_wf c) (Hag : peers_agree A1 A2 (obfuscator c))
    (Hr : tunnel_reach A1 A2 c idle1 life1 idle2 life2 s p) :
  carries c A2 s p /\ carries c A1 p s.
Proof.
  destruct (tunnel_reach_ok A1 A2 c _ _ _ _ s p Hc Hag Hr) as [H1 H2].
  split; [by eapply (half_carries A1 A2) | eapply (half_carries A2 A1); [done | | done]].
  by apply peers_agree_sym.
Qed.

(** A client that has read one piece and written it, and the server that read the
    first bytes of its frame. *)
Definition ex_frame_wire : bytes :=
  match @encode_frame arch64 ex_codec ex_rng Data (str "hello") with Ok w => w | Err _ => [] end.

Definition ex_client : Side :=
  {| run := client_relay 5; taken := str "hello"; given := []; wire := zdrop 11 ex_frame_wire |}.
Definition ex_server : Side :=
  {| run := {| r_enc := ERead 7; r_dec := DRead 7 (ztake 11 ex_frame_wire); r_started := 7; r_end := None |};
     taken := []; given := []; wire := [] |}.

Lemma tunnel_faithful_witness :
  carries ex_codec arch64 ex_client ex_server /\ carries ex_codec arch64 ex_server ex_client.
Proof.
  apply (tunnel_faithful arch64 arch64 ex_codec 10 100 10 100); [apply ex_codec_wf | by left |].
  change ex_client with {| run := client_relay 5; taken := concat [str "hello"]; given := []; wire := zdrop 11 ex_frame_wire |}.
  apply (TunnelStart arch64 arch64 ex_codec 10 100 10 100 5 7 [str "hello"] [ex_frame_wire] (ztake 11 ex_frame_wire)).
  - repeat constructor. by_compute.
  - constructor; [| constructor]. exists ex_rng. split; [apply ex_rng_ok | vm_compute; reflexivity].
  - rewrite ztake_zdrop. cbn [concat]. by rewrite app_nil_r.
  - vm_compute. reflexivity.
Defined.

(** ** Where the tunnel loses bytes *)

(** What the server sends when its target speaks first: the ack, then a frame. *)
Definition ex_ack_then_data : bytes :=
  match @encode_frame arch64 ex_codec ex_rng ConnectAck [0] with Ok w => w ++ ex_frame_wire | Err _ => [] end.

(** The handshake drops what it read beyond the ack: if ack and first frame arrive
    in one read, the greeting of the target is lost; if the read ends inside that
    frame, the relay starts in the middle of it and reports a bad frame. *)
Theorem handshake_drops_greeting :
  @handshake_read arch64 ex_codec [] (InRead ex_ack_then_data) = Some (inr (Ok tt)) /\
  @handshake_read arch64 ex_codec [] (InRead (ztake (zlen ex_ack_then_data - 9) ex_ack_then_data)) = Some (inr (Ok tt)) /\
  @dec_step arch64 ex_codec 10 0 (DRead 0 []) (InRead (zdrop (zlen ex_ack_then_data - 9) ex_ack_then_data))
    = Some (DDone (io_err InvalidData "invalid command/magic — wrong key?"), []).
Proof. split_and!; vm_compute; reflexivity. Qed.

(** The buffer of the decoders is called the maximal frame size, which it is not:
    a full frame with 255 bytes of padding is six bytes longer. The pump reads into an
    empty rest of the buffer and takes it for the end of the stream. *)
Theorem relay_buffer_short (A1 A2 : Arch) (c : Codec) (rng : Rng) (p w : bytes)
    (Hc : codec_wf c) (Hag : peers_agree A1 A2 (obfuscator c)) (Hr : rng_ok rng)
    (Hpad : padding_min c = 255 /\ padding_max c = 255) (Hp : zlen p = MAX_PAYLOAD_LEN)
    (Hw : @encode_frame A1 c rng Data p = Ok w) :
  DEC_BUFFER < zlen w /\
  @dec_step A2 c 1 0 (DRead 0 []) (InRead (ztake DEC_BUFFER w)) = Some (DRead 0 (ztake DEC_BUFFER w), []) /\
  @dec_step A2 c 1 0 (DRead 0 (ztake DEC_BUFFER w)) (InRead []) = Some (DDone (Ok tt), []).
Proof.
  assert (Hl : zlen w = DEC_BUFFER + 6).
  { revert Hw. unfold encode_frame. destruct Hpad as [-> ->]. rewrite Hp. cbn [Z.ltb]. case_cmp; [lia |]. cbv zeta.
    destruct Hr as (_ & _ & Hf). destruct (Hf 255) as [Hz _]; [lia |]. intros <-%Ok_inj.
    rewrite !zlen_app, !zlen_apply, !zlen_app, zlen_be32, zlen_be16, Hp. case_cmp; [lia |]. rewrite Hz. done. }
  assert (Hne : zdrop DEC_BUFFER w <> []).
  { intros E. apply (f_equal zlen) in E. rewrite zlen_drop in E by (unfold DEC_BUFFER in *; lia). rewrite zlen_nil in E. lia. }
  split_and!; [lia | | done]. cbn [dec_step].
  rewrite zlen_take by (unfold DEC_BUFFER in *; lia). cbn [Z.eqb DEC_BUFFER app].
  unfold dec_resume. cbn [dec_next].
  rewrite (decode_frame_prefix A1 A2 c rng Data p (ztake DEC_BUFFER w) (zdrop DEC_BUFFER w)); try done.
  by rewrite ztake_zdrop.
Qed.

(** A side that has nothing more to send ends the whole relay once its Close is
    written, with whatever the other direction still holds; a direction idle for
    the limit ends it although the other one is busy. *)
Theorem relay_ends_with_either {AR : Arch} (c : Codec) (idle life now since : Z) (rng : Rng) (r : RelayRun) (w : bytes) :
  r_end r = None ->
  (r_enc r = EWrite w true ->
   relay_step c idle life now r (OfEnc rng (OutMoved (zlen w)))
   = Some ({| r_enc := EDone (Ok tt); r_dec := r_dec r; r_started := r_started r; r_end := Some (Ok tt) |}, w, [])) /\
  (r_enc r = ERead since -> idle <= now - since ->
   relay_step c idle life now r (OfEnc rng InIdle)
   = Some ({| r_enc := EDone (Ok tt); r_dec := r_dec r; r_started := r_started r; r_end := Some (Ok tt) |}, [], [])).
Proof.
  intros He. unfold relay_step. rewrite He. split.
  - intros ->. cbn [enc_step]. rewrite ztake_ge by lia.
    assert (zlen (zdrop (zlen w) w) = 0) as -> by (rewrite zlen_drop by zlen_lia; lia). done.
  - intros -> Hi. cbn [enc_step]. destruct (Z.leb_spec idle (now - since)); [done | lia].
Qed.

(** The direct relay is cut at the end of its lifetime, traffic or not. *)
Theorem direct_relay_lifetime (life now started : Z) :
  direct_step life now started DirectTimer = Some (Ok tt) <-> started + life <= now.
Proof. unfold direct_step. case_cmp; split; try done; lia. Qed.
