(* ===== verification/ServerConn.v ===== *)
(** * A connection of the server

    xr-server/src/handler.rs: the first frame, the fallback for everything that is
    not the protocol, the single-stream session with its ack, resolution and dial;
    fallback.rs, the answer a prober sees. A multiplexed session goes on in
    [ServerMux]. *)

From S2P Require Import Prelude Text Net Obfuscation Protocol Tunnel.

Definition IDLE_TIMEOUT : Z := 300 * 1000.
Definition MAX_LIFETIME : Z := 3600 * 1000.
Definition FIRST_FRAME_BUFFER : Z := 4096.
Definition TARGET_CONNECT_TIMEOUT : Z := 5 * 1000.

(** ** The answer to strangers *)

Definition DEFAULT_RESPONSE_BODY : bytes :=
  str "<!DOCTYPE html>" ++ [10] ++ str "<html><head><title>Welcome</title></head>" ++ [10] ++
  str "<body><h1>It works!</h1><p>The server is running.</p></body></html>".

Definition crlf : bytes := [13; 10].

(** [file] is the configured file as it reads as a string; [None] stands for no file and
    for one that cannot be read. *)
Definition build_fallback_response (file : option bytes) : bytes :=
  let body := default DEFAULT_RESPONSE_BODY file in
  str "HTTP/1.1 200 OK" ++ crlf ++ str "Content-Type: text/html; charset=utf-8" ++ crlf ++
  str "Content-Length: " ++ show_dec (zlen body) ++ crlf ++ str "Connection: close" ++ crlf ++
  str "Server: nginx" ++ crlf ++ crlf ++ body.

(** ** The first frame *)

Inductive FallbackReason := Overflow | InvalidFrame.

(** The second field of [FReady] is the part of the buffer behind the frame. *)
Inductive FirstFrameOutcome :=
| FReady (f : Frame) (leftover : bytes)
| NeedFallback (r : FallbackReason).

Section conn.
Context {AR : Arch} (codec : Codec).

(** One turn of the loop; [inl] is the buffer to read on into. *)
Definition read_first_frame (buf : bytes) (i : PumpIn) : option (bytes + io_result FirstFrameOutcome) :=
  match i with
  | InRead chunk =>
      if zlen chunk =? 0 then Some (inr (io_err ConnectionReset "client closed")) else
      let buf := buf ++ chunk in
      r ← decode_frame codec buf;
      Some match r with
           | Ok (Some (f, consumed)) => inr (Ok (FReady f (zdrop consumed buf)))
           | Ok None => if FIRST_FRAME_BUFFER <=? zlen buf then inr (Ok (NeedFallback Overflow)) else inl buf
           | Err _ => inr (Ok (NeedFallback InvalidFrame))
           end
  | InErr e => Some (inr (Err e))
  | InIdle => Some (inr (io_err TimedOut "handshake timeout"))
  | _ => Some (inl buf)
  end.

(** ** The handler *)

(** Where [handle_client] waits: for the first frame, for the fallback to be written, for
    the session that took over, for its ack to be written, the name to be resolved, the
    target to answer, the relay to end. *)
Inductive HandlerPc :=
| HFirst (since : Z) (buf : bytes)
| HFallback (todo : bytes)
| HMux (init : Frame)
| HAck (todo : bytes) (t : TargetAddr) (leftover : bytes)
| HResolve (leftover : bytes)
| HDial (since : Z) (s : SocketAddr) (leftover : bytes)
| HRelay (r : RelayRun)
| HDone (r : io_result unit).

Inductive HandlerIn :=
| HIo (i : PumpIn)
| HResolved (r : io_result (list SocketAddr))
| HDialled (r : io_result unit)
| HRelayIn (i : RelayIn).

Definition send_fallback_and_close (fallback : option bytes) : HandlerPc :=
  match fallback with Some response => HFallback response | None => HDone (Ok tt) end.

(** From a decoded Connect frame to the ack. *)
Definition accept_connect (rng : Rng) (f : Frame) (leftover : bytes) : option HandlerPc :=
  if bool_decide (command f = MuxInit) then Some (HMux f)
  else if negb (bool_decide (command f = Connect)) then Some (HDone (io_err InvalidData "expected Connect"))
  else
    r ← TargetAddr_decode (payload f);
    Some match r with
         | Err e => HDone (Err e)
         | Ok (t, _) =>
             match encode_frame codec rng ConnectAck [0] with
             | Ok ack => HAck ack t leftover
             | Err e => HDone (Err e)
             end
         end.

Definition resolve_target (now : Z) (t : TargetAddr) (leftover : bytes) : HandlerPc :=
  match t with
  | TIp s => HDial now s leftover
  | TDomain _ _ => HResolve leftover
  end.

Definition relay_pc (r : RelayRun) : HandlerPc :=
  match r_end r with Some x => HDone x | None => HRelay r end.

Definition is_idle (i : PumpIn) : bool := match i with InIdle => true | _ => false end.

(** The new state, what the client gets, what the target gets. *)
Definition handle_client (fallback : option bytes) (timeout : Z) (rng : Rng) (now : Z) (pc : HandlerPc) (i : HandlerIn) :
    option (HandlerPc * bytes * bytes) :=
  match pc, i with
  | HFirst since buf, HIo i =>
      if is_idle i && (now - since <? timeout) then Some (pc, [], []) else
      r ← read_first_frame buf i;
      match r with
      | inl buf => Some (HFirst now buf, [], [])
      | inr (Err e) => Some (HDone (Err e), [], [])
      | inr (Ok (NeedFallback _)) => Some (send_fallback_and_close fallback, [], [])
      | inr (Ok (FReady f leftover)) => pc ← accept_connect rng f leftover; Some (pc, [], [])
      end
  | HFallback todo, HIo (OutMoved n) =>
      Some (if zlen (zdrop n todo) =? 0 then HDone (Ok tt) else HFallback (zdrop n todo), ztake n todo, [])
  | HFallback _, HIo (OutErr _) => Some (HDone (Ok tt), [], [])
  | HAck todo t leftover, HIo (OutMoved n) =>
      Some (if zlen (zdrop n todo) =? 0 then resolve_target now t leftover else HAck (zdrop n todo) t leftover,
            ztake n todo, [])
  | HAck _ _ _, HIo (OutErr e) => Some (HDone (Err e), [], [])
  | HResolve leftover, HResolved (Ok (s :: _)) => Some (HDial now s leftover, [], [])
  | HResolve _, HResolved (Ok []) => Some (HDone (io_err NotFound "DNS resolution failed"), [], [])
  | HResolve _, HResolved (Err e) => Some (HDone (Err e), [], [])
  | HDial _ _ leftover, HDialled (Ok _) => r ← server_relay codec now leftover; Some (relay_pc r, [], [])
  | HDial _ _ _, HDialled (Err e) => Some (HDone (Err e), [], [])
  | HDial since _ _, HIo InIdle =>
      Some (if TARGET_CONNECT_TIMEOUT <=? now - since then HDone (io_err TimedOut "target connect timeout") else pc, [], [])
  | HRelay r, HRelayIn i =>
      '(r, w, out) ← relay_step codec IDLE_TIMEOUT MAX_LIFETIME now r i; Some (relay_pc r, w, out)
  | _, _ => Some (pc, [], [])
  end.

(** Reads alone, until the first frame is decided on. *)
Fixpoint feed (fallback : option bytes) (timeout : Z) (rng : Rng) (now : Z) (pc : HandlerPc) (chunks : list bytes) :
    option (HandlerPc * list bytes) :=
  match pc, chunks with
  | HFirst _ _, chunk :: chunks' =>
      '(pc, _, _) ← handle_client fallback timeout rng now pc (HIo (InRead chunk));
      feed fallback timeout rng now pc chunks'
  | _, _ => Some (pc, chunks)
  end.

(** A run: the place of the handler, the bytes the client has sent so far and what
    client and target got. A read takes what fits into the buffer. *)
Inductive handler_reach (fallback : option bytes) (timeout : Z) : HandlerPc -> bytes -> bytes -> bytes -> Prop :=
| HandlerStart now : handler_reach fallback timeout (HFirst now []) [] [] []
| HandlerRead rng now since buf chunk pc got sent out w o :
    handler_reach fallback timeout (HFirst since buf) got sent out ->
    rng_ok rng -> bytes_ok chunk -> zlen chunk <= FIRST_FRAME_BUFFER - zlen buf ->
    handle_client fallback timeout rng now (HFirst since buf) (HIo (InRead chunk)) = Some (pc, w, o) ->
    handler_reach fallback timeout pc (got ++ chunk) (sent ++ w) (out ++ o)
| HandlerStep rng now pc i pc' got sent out w o :
    handler_reach fallback timeout pc got sent out -> rng_ok rng ->
    match i with HIo i => not_read i = true | _ => True end ->
    handle_client fallback timeout rng now pc i = Some (pc', w, o) ->
    handler_reach fallback timeout pc' got (sent ++ w) (out ++ o).

End conn.

(** ** Deciding on the first frame *)

Section first.
Context (A1 A2 : Arch) (c : Codec) (fallback : option bytes) (timeout : Z) (rng : Rng) (now : Z).
Context (Hc : codec_wf c) (Hag : peers_agree A1 A2 (obfuscator c)).

Abbreviation feedc := (@feed A2 c fallback timeout rng now).

Lemma feed_stop pc chunks : (forall since buf, pc <> HFirst since buf) -> feedc pc chunks = Some (pc, chunks).
Proof. intros H. destruct chunks, pc as [since buf | | | | | | |]; try done. by destruct (H since buf). Qed.

Lemma feed_turn since buf chunk chunks :
  chunk <> [] ->
  feedc (HFirst since buf) (chunk :: chunks) =
  r ← @decode_frame A2 c (buf ++ chunk);
  match r with
  | Err _ => Some (send_fallback_and_close fallback, chunks)
  | Ok None =>
      if FIRST_FRAME_BUFFER <=? zlen (buf ++ chunk) then Some (send_fallback_and_close fallback, chunks)
      else feedc (HFirst now (buf ++ chunk)) chunks
  | Ok (Some (f, n)) => pc ← @accept_connect A2 c rng f (zdrop n (buf ++ chunk)); Some (pc, chunks)
  end.
Proof.
  intros Hne. cbn [feed handle_client is_idle andb read_first_frame].
  destruct (Z.eqb_spec (zlen chunk) 0) as [E0 | _]; [by apply zlen_0_nil in E0 |].
  destruct (@decode_frame A2 c (buf ++ chunk)) as [[[[f n] |] | e] |]; cbn [mbind option_bind]; try done.
  - assert (Hpc : forall pc, @accept_connect A2 c rng f (zdrop n (buf ++ chunk)) = Some pc -> forall since buf, pc <> HFirst since buf).
    { intros pc. unfold accept_connect. intros H s b ->. revert H. do 2 (case_match; [done |]).
      destruct (TargetAddr_decode (payload f)) as [[[t k] | e] |]; cbn [mbind option_bind]; try done;
        by destruct (@encode_frame A2 c rng ConnectAck [0]). }
    destruct (@accept_connect A2 c rng f (zdrop n (buf ++ chunk))) as [pc |]; [| done]. cbn [mbind option_bind].
    by rewrite feed_stop by by apply Hpc.
  - destruct (FIRST_FRAME_BUFFER <=? zlen (buf ++ chunk)); cbn [mbind option_bind]; [| done]. rewrite feed_stop; [done | by destruct fallback].
  - rewrite feed_stop; [done | by destruct fallback].
Qed.

(** A frame that fits is found however it arrives, with everything behind it. *)
Lemma feed_frame f w chunks since buf k rest :
  @encodes A1 c f w -> zlen w <= FIRST_FRAME_BUFFER -> Forall (fun x => x <> []) chunks ->
  w = buf ++ k -> k <> [] -> concat chunks = k ++ rest ->
  exists l unread, l ++ concat unread = rest /\
    feedc (HFirst since buf) chunks = pc ← @accept_connect A2 c rng f l; Some (pc, unread).
Proof.
  intros (g & Hg & Hw) Hl Hne. revert since buf k. induction Hne as [| x chunks Hx Hne IH]; intros since buf k Hk Hk0 Hcat.
  { symmetry in Hcat. by apply app_eq_nil in Hcat as [-> _]. }
  rewrite feed_turn by done. cbn [concat] in Hcat.
  apply app_eq_inv in Hcat as [(r & -> & Hr) | (r & -> & Hr)].
  - exists r, chunks. split; [done |]. rewrite app_assoc, <- Hk.
    rewrite (decode_encode_frame A1 A2 c g (command f) (payload f) w r) by done.
    cbn [mbind option_bind]. rewrite zdrop_app by done. by destruct f.
  - destruct r as [| b r].
    + exists [], chunks. split; [done |]. rewrite app_nil_r in Hk. rewrite <- Hk, <- (app_nil_r w) at 1.
      rewrite (decode_encode_frame A1 A2 c g (command f) (payload f) w []) by done. cbn [mbind option_bind].
      rewrite <- Hk. assert (zdrop (zlen w) w = []) as ->; [| by destruct f].
      apply zlen_0_nil. rewrite zlen_drop by zlen_lia. lia.
    + rewrite app_assoc in Hk.
      rewrite (decode_frame_prefix A1 A2 c g (command f) (payload f) (buf ++ x) (b :: r)); try done; [| by rewrite <- Hk].
      cbn [mbind option_bind]. destruct (Z.leb_spec FIRST_FRAME_BUFFER (zlen (buf ++ x))) as [Hge |].
      * apply (f_equal zlen) in Hk. rewrite (zlen_app (buf ++ x)), zlen_cons in Hk. pose proof (zlen_nonneg r). lia.
      * by apply (IH now (buf ++ x) (b :: r)).
Qed.

(** A frame that does not fit is refused when the buffer is full. *)
Lemma feed_overflow f w chunks since buf k :
  @encodes A1 c f w -> FIRST_FRAME_BUFFER < zlen w -> Forall (fun x => x <> []) chunks ->
  k <> [] -> concat chunks = k -> ztake FIRST_FRAME_BUFFER w = buf ++ k ->
  feedc (HFirst since buf) chunks = Some (send_fallback_and_close fallback, []).
Proof.
  intros (g & Hg & Hw) Hl Hne. revert since buf k. induction Hne as [| x chunks Hx Hne IH]; intros since buf k Hk0 <- Hk; [done |].
  rewrite feed_turn by done. cbn [concat] in Hk.
  assert (Hlen : zlen (buf ++ x ++ concat chunks) = FIRST_FRAME_BUFFER)
    by (rewrite <- Hk; apply zlen_take; unfold FIRST_FRAME_BUFFER in *; lia).
  rewrite (decode_frame_prefix A1 A2 c g (command f) (payload f) (buf ++ x) (concat chunks ++ zdrop FIRST_FRAME_BUFFER w)); try done.
  2: { rewrite Hw. f_equal. rewrite <- (ztake_zdrop FIRST_FRAME_BUFFER w) at 1. by rewrite Hk, <- !app_assoc. }
  2: { intros E. apply app_eq_nil in E as [_ E]. apply (f_equal zlen) in E. rewrite zlen_nil, zlen_drop in E; unfold FIRST_FRAME_BUFFER in *; lia. }
  cbn [mbind option_bind]. rewrite !zlen_app in Hlen.
  destruct (Z.leb_spec FIRST_FRAME_BUFFER (zlen (buf ++ x))) as [Hge | Hlt]; rewrite zlen_app in *.
  - assert (chunks = []) as ->; [| done]. destruct Hne as [| y l Hy _]; [done |]. exfalso.
    destruct y; [done |]. cbn [concat app] in Hlen. rewrite zlen_cons in Hlen.
    pose proof (zlen_nonneg (y ++ concat l)). lia.
  - apply (IH now (buf ++ x) (concat chunks)); [| done | by rewrite <- app_assoc].
    intros E. rewrite E, zlen_nil in Hlen. lia.
Qed.

(** Whatever arrives, 4096 bytes are enough for a decision. *)
Lemma feed_decides chunks since buf :
  bytes_ok (buf ++ concat chunks) -> Forall (fun x => x <> []) chunks -> chunks <> [] ->
  FIRST_FRAME_BUFFER <= zlen (buf ++ concat chunks) ->
  exists pc unread, feedc (HFirst since buf) chunks = Some (pc, unread) /\
    match pc with HFirst _ _ => False | _ => True end.
Proof.
  intros Hb Hne. revert since buf Hb. induction Hne as [| x chunks Hx Hne IH]; intros since buf Hb H0 Hl; [done |].
  rewrite feed_turn by done. cbn [concat] in *. rewrite app_assoc in *.
  destruct (@decode_frame_total A2 c (buf ++ x)) as [r E]; [done | by apply bytes_ok_app in Hb as [Hb _] |].
  pose proof Hb as [Hb' _]%bytes_ok_app.
  rewrite E. cbn [mbind option_bind]. destruct r as [[[f n] |] | e].
  - destruct (@decode_frame_inv A2 c (buf ++ x) f n Hc Hb' E) as (_ & _ & Hf & _).
    unfold accept_connect. destruct (TargetAddr_decode_total (payload f) Hf) as [[[t k] | e] ->];
      destruct (@encode_frame A2 c rng ConnectAck [0]); cbn [mbind option_bind];
      repeat case_match; cbn [mbind option_bind]; do 2 eexists; (split; [reflexivity | exact I]).
  - destruct (Z.leb_spec FIRST_FRAME_BUFFER (zlen (buf ++ x))) as [Hge | Hlt].
    + exists (send_fallback_and_close fallback), chunks. by destruct fallback.
    + apply IH; try done. intros ->. cbn [concat] in Hl. rewrite app_nil_r in Hl. lia.
  - exists (send_fallback_and_close fallback), chunks. by destruct fallback.
Qed.

End first.

Lemma zlen_target_encode t p : TargetAddr_encode t = Ok p -> zlen p <= 259.
Proof.
  destruct t as [[ip q | ip q fl sc] | d q]; unfold TargetAddr_encode.
  - intros <-%Ok_inj. unfold v4_octets. zlen_lia.
  - intros <-%Ok_inj. unfold v6_octets. assert (zlen (to_be 16 ip) = 16) by (unfold zlen; by rewrite to_be_length). zlen_lia.
  - unfold MAX_DOMAIN_LEN, U8_MAX. case_cmp; [done |]. intros <-%Ok_inj. zlen_lia.
Qed.

(** ** A stranger *)

(** No frame can be decoded from any part of these bytes. *)
Definition no_frame {AR : Arch} (c : Codec) (got : bytes) : Prop :=
  forall b f n, b `prefix_of` got -> decode_frame c b <> Some (Ok (Some (f, n))).

Lemma no_frame_prefix {AR : Arch} c b got : b `prefix_of` got -> no_frame c got -> no_frame c b.
Proof. intros Hp H b' f n Hb. apply H. by etrans. Qed.

Definition stranger_inv (fallback : option bytes) (pc : HandlerPc) (got sent out : bytes) : Prop :=
  out = [] /\ zlen got <= FIRST_FRAME_BUFFER /\
  match pc with
  | HFirst _ buf => got = buf /\ sent = []
  | HFallback todo => fallback = Some (sent ++ todo)
  | HDone _ => sent `prefix_of` default [] fallback
  | _ => False
  end.

Lemma stranger_reach {AR : Arch} c fallback timeout pc got sent out :
  handler_reach c fallback timeout pc got sent out -> no_frame c got -> stranger_inv fallback pc got sent out.
Proof.
  induction 1 as [now | rng now since buf chunk pc got sent out w o _ IH _ _ Hl Hst | rng now pc i pc' got sent out w o _ IH _ Hi Hst];
    intros Hno.
  - done.
  - destruct IH as (-> & Hg & -> & ->); [by eapply no_frame_prefix, Hno; apply prefix_app_r |].
    cbn [handle_client is_idle andb read_first_frame] in Hst. unfold stranger_inv. rewrite zlen_app.
    destruct (zlen chunk =? 0); [cbn in Hst; injection Hst as <- <- <-; split_and!; [done | lia | apply prefix_nil] |].
    specialize (Hno (buf ++ chunk)). destruct (decode_frame c (buf ++ chunk)) as [[[[f n] |] | e] |]; cbn [mbind option_bind] in Hst; [| | | done].
    + by destruct (Hno f n).
    + destruct (FIRST_FRAME_BUFFER <=? zlen (buf ++ chunk)); cbn in Hst; injection Hst as <- <- <-;
        [destruct fallback |]; cbn [send_fallback_and_close default app]; split_and!; try done; try lia; apply prefix_nil.
    + injection Hst as <- <- <-. destruct fallback; cbn [send_fallback_and_close default app]; split_and!; try done; try lia; apply prefix_nil.
  - destruct (IH Hno) as (-> & Hg & Hpc). unfold stranger_inv.
    destruct pc as [since buf | todo | | | | | |]; try done.
    + destruct Hpc as [-> ->]. cbn [handle_client] in Hst. destruct i as [i | | |]; try (injection Hst as <- <- <-; done).
      destruct i as [| e | | |]; cbn in Hst; [done | | destruct (now - since <? timeout) | |]; cbn in Hst;
        injection Hst as <- <- <-; split_and!; try done; apply prefix_nil.
    + cbn [handle_client] in Hst. destruct i as [[| | | n |] | | |]; injection Hst as <- <- <-; rewrite ?app_nil_r; try done.
      * rewrite <- (ztake_zdrop n todo), app_assoc in Hpc. split_and!; try done. rewrite Hpc.
        destruct (zlen (zdrop n todo) =? 0); [| done]. cbn [default]. by eexists.
      * rewrite Hpc. split_and!; try done. by eexists.
    + cbn [handle_client] in Hst. destruct i; injection Hst as <- <- <-; by rewrite !app_nil_r.
Qed.

(** A check on all parts of given bytes. *)
Definition no_frame_check {AR : Arch} (c : Codec) (got : bytes) : bool :=
  forallb (fun n => match decode_frame c (take n got) with Some (Ok (Some _)) => false | _ => true end)
    (seq 0 (S (length got))).

Lemma no_frame_check_ok {AR : Arch} c got : no_frame_check c got = true -> no_frame c got.
Proof.
  unfold no_frame_check. rewrite forallb_forall. intros H b f n [k ->] E.
  specialize (H (length b)). rewrite take_app_length, E in H. discriminate H.
  apply in_seq. rewrite length_app. lia.
Qed.

(** ** Claims *)

(** What the server decides on the first bytes of a connection. A frame of a peer that
    fits into the 4096 bytes of the buffer is found wherever the network cuts it, and
    nothing behind it is lost; one that does not fit is answered with the fallback
    once the buffer is full; and whatever arrives, the decision falls at the latest
    with 4096 bytes, without a panic. *)
Theorem first_frame_decided (A1 A2 : Arch) (c : Codec) (fallback : option bytes) (timeout now : Z) (rng : Rng)
    (chunks : list bytes)
    (Hc : codec_wf c) (Hag : peers_agree A1 A2 (obfuscator c)) (Hne : Forall (fun x => x <> []) chunks) :
  (forall f w rest, @encodes A1 c f w -> zlen w <= FIRST_FRAME_BUFFER -> concat chunks = w ++ rest ->
     exists l unread, l ++ concat unread = rest /\
       @feed A2 c fallback timeout rng now (HFirst now []) chunks
       = pc ← @accept_connect A2 c rng f l; Some (pc, unread)) /\
  (forall f w, @encodes A1 c f w -> FIRST_FRAME_BUFFER < zlen w -> concat chunks = ztake FIRST_FRAME_BUFFER w ->
     @feed A2 c fallback timeout rng now (HFirst now []) chunks = Some (send_fallback_and_close fallback, [])) /\
  (bytes_ok (concat chunks) -> FIRST_FRAME_BUFFER <= zlen (concat chunks) ->
     exists pc unread, @feed A2 c fallback timeout rng now (HFirst now []) chunks = Some (pc, unread) /\
       match pc with HFirst _ _ => False | _ => True end).
Proof.
  split_and!.
  - intros f w rest Hf Hl Hcat. eapply (feed_frame A1 A2); try done. by eapply (@encodes_nonempty A1).
  - intros f w Hf Hl Hcat. eapply (feed_overflow A1 A2); try done. intros E.
    apply (f_equal zlen) in E. rewrite zlen_take, zlen_nil in E; unfold FIRST_FRAME_BUFFER in *; lia.
  - intros Hb Hl. apply feed_decides; try done. intros ->. done.
Qed.

Lemma first_frame_decided_witness :
  exists pc unread,
    @feed arch64 ex_codec None 10 ex_rng 0 (HFirst 0 []) [str "GET / HTTP/1.1"; replicate 4090 65] = Some (pc, unread) /\
    match pc with HFirst _ _ => False | _ => True end.
Proof.
  apply (first_frame_decided arch64 arch64 ex_codec None 10 0 ex_rng [str "GET / HTTP/1.1"; replicate 4090 65]).
  - apply ex_codec_wf.
  - by left.
  - by repeat constructor.
  - cbn [concat]. rewrite app_nil_r. apply bytes_ok_app. split; [apply str_bytes |]. apply Forall_replicate.
    unfold is_byte. lia.
  - by_compute.
Defined.

(** C26: A peer that does not speak the protocol, such as a prober without the key, learns
    nothing: as long as no part of what it sent decodes as a frame, all it ever
    receives, in any order of reads, writes, errors and timers, is a prefix of the
    configured fallback page (nothing when there is none); no byte reaches a
    target, and the server reads at most 4096 bytes of it. *)
Theorem stranger_gets_fallback (AR : Arch) (c : Codec) (fallback : option bytes) (timeout : Z)
    (pc : HandlerPc) (got sent out : bytes)
    (Hr : handler_reach c fallback timeout pc got sent out) (Hno : no_frame c got) :
  out = [] /\ zlen got <= FIRST_FRAME_BUFFER /\ sent `prefix_of` default [] fallback /\
  match pc with HFirst _ _ | HFallback _ | HDone _ => True | _ => False end.
Proof.
  destruct (stranger_reach c fallback timeout pc got sent out Hr Hno) as (Ho & Hg & Hpc).
  split_and!; try done; destruct pc; try done.
  - destruct Hpc as [_ ->]. apply prefix_nil.
  - rewrite Hpc. by eexists.
Qed.

Lemma stranger_gets_fallback_witness :
  [] = @nil Z /\ zlen ([] ++ str "GET / HTTP/1.1") <= FIRST_FRAME_BUFFER /\
  [] ++ [] `prefix_of` default [] (Some (build_fallback_response None)) /\ True.
Proof.
  apply (stranger_gets_fallback arch64 ex_codec (Some (build_fallback_response None)) 10
    (HFallback (build_fallback_response None)) ([] ++ str "GET / HTTP/1.1") ([] ++ []) ([] ++ [])).
  - apply (@HandlerRead arch64 ex_codec (Some (build_fallback_response None)) 10 ex_rng 3 0 []).
    + apply HandlerStart.
    + apply ex_rng_ok.
    + apply str_bytes.
    + by_compute.
    + vm_compute. reflexivity.
  - apply no_frame_check_ok. vm_compute. reflexivity.
Defined.

(** A single-stream session from its first byte. However the client's Connect frame and
    the Data frames behind it are cut, the server reads the address the client
    asked for, up to the fields an address loses on the wire; the client takes the ack
    as success, whole or in two parts, and it fits its buffer with up to 247 bytes
    of padding; and once the target answers, the relay starts in a state from which
    the tunnel carries both directions. *)
Theorem single_stream_session (A1 A2 : Arch) (c : Codec) (fallback : option bytes) (timeout now : Z) (rng1 rng2 : Rng)
    (t : TargetAddr) (w : bytes) (cs ws chunks : list bytes)
    (Hc : codec_wf c) (Hag : peers_agree A1 A2 (obfuscator c)) (Hr1 : rng_ok rng1) (Hr2 : rng_ok rng2)
    (Ht : target_ok t) (Hw : @connect_wire A1 c rng1 t = Ok w)
    (Hcs : Forall (fun x => zlen x <= ENC_BUFFER) cs) (Hws : Forall2 (@encodes A1 c) (map data_f cs) ws)
    (Hne : Forall (fun x => x <> []) chunks) (Hcat : concat chunks = w ++ concat ws) :
  exists ack l unread,
    @feed A2 c fallback timeout rng2 now (HFirst now []) chunks = Some (HAck ack (wire_target t) l, unread) /\
    @handshake_read A1 c [] (InRead ack) = Some (inr (Ok tt)) /\
    (forall a b, ack = a ++ b -> a <> [] -> b <> [] ->
       @handshake_read A1 c [] (InRead a) = Some (inl a) /\ @handshake_read A1 c a (InRead b) = Some (inr (Ok tt))) /\
    (padding_min c <= 247 -> padding_max c <= 247 -> zlen ack <= ACK_BUFFER) /\
    forall since s now1 now2 i1 l1 i2 l2, exists r,
      @handle_client A2 c fallback timeout rng2 now2 (HDial since s l) (HDialled (Ok tt)) = Some (relay_pc r, [], []) /\
      tunnel_reach A1 A2 c i1 l1 i2 l2
        {| run := client_relay now1; taken := concat cs; given := []; wire := concat unread |}
        {| run := r; taken := []; given := []; wire := [] |}.
Proof.
  unfold connect_wire in Hw. destruct (TargetAddr_encode t) as [p |] eqn:Ep; [| done].
  assert (Hf : @encodes A1 c {| command := Connect; payload := p |} w) by by exists rng1.
  destruct (feed_frame A1 A2 c fallback timeout rng2 now Hc Hag _ w chunks now [] w (concat ws) Hf) as (l & unread & Hl & E); try done.
  { apply encode_frame_length in Hw; [| done..]. pose proof (zlen_target_encode t p Ep).
    destruct Hc as (_ & H1 & H2). unfold is_byte, FIRST_FRAME_BUFFER in *. lia. }
  { by eapply (@encodes_nonempty A1). }
  assert (Hack : exists ack, @encode_frame A2 c rng2 ConnectAck [0] = Ok ack).
  { unfold encode_frame. destruct (Z.ltb_spec MAX_PAYLOAD_LEN (zlen [0])); [done |]. eauto. }
  destruct Hack as [ack Hack]. pose proof (peers_agree_sym A1 A2 _ Hag) as Hag'.
  exists ack, l, unread. split_and!.
  - rewrite E. unfold accept_connect. cbn [command payload].
    rewrite bool_decide_eq_false_2, bool_decide_eq_true_2 by done. cbn [negb].
    rewrite <- (app_nil_r p), (TargetAddr_decode_encode t p []) by done. cbn [mbind option_bind]. by rewrite Hack.
  - assert (Ha : ack <> []) by (eapply (@encodes_nonempty A2 c {| command := ConnectAck; payload := [0] |}); [done | by exists rng2]).
    cbn [handshake_read app]. destruct (Z.eqb_spec (zlen ack) 0) as [E0 | _]; [by apply zlen_0_nil in E0 |].
    rewrite <- (app_nil_r ack). by rewrite (decode_encode_frame A2 A1 c rng2 ConnectAck [0] ack []).
  - intros a b -> Ha Hb. cbn [handshake_read app].
    destruct (Z.eqb_spec (zlen a) 0) as [E0 | _]; [by apply zlen_0_nil in E0 |].
    destruct (Z.eqb_spec (zlen b) 0) as [E0 | _]; [by apply zlen_0_nil in E0 |].
    rewrite (decode_frame_prefix A2 A1 c rng2 ConnectAck [0] a b) by done. split; [done |].
    rewrite <- (app_nil_r (a ++ b)). by rewrite (decode_encode_frame A2 A1 c rng2 ConnectAck [0] (a ++ b) []).
  - intros Hmin Hmax. apply encode_frame_length in Hack; [| done..]. change (zlen [0]) with 1 in Hack. unfold ACK_BUFFER. lia.
  - intros since s now1 now2 i1 l1 i2 l2.
    destruct (half_resume A1 A2 c Hc Hag now2 (concat cs) (ERead now1) (concat unread) [] l [] cs false ws [])
      as (d & Ed & _); try done; [by rewrite app_nil_r | by rewrite app_nil_r |].
    eexists. split.
    + cbn [handle_client]. unfold server_relay. rewrite Ed. cbn [mbind option_bind]. reflexivity.
    + eapply TunnelStart; [exact Hcs | exact Hws | exact Hl |]. unfold server_relay. by rewrite Ed.
Qed.

Definition ex_target : TargetAddr := TDomain (str "example.org") 443.

Definition ex_connect : bytes :=
  match @connect_wire arch64 ex_codec ex_rng ex_target with Ok w => w | Err _ => [] end.

Lemma single_stream_session_witness :
  exists ack l unread,
    @feed arch64 ex_codec None 10 ex_rng 0 (HFirst 0 []) [ztake 7 ex_connect; zdrop 7 ex_connect ++ ex_frame_wire]
    = Some (HAck ack ex_target l, unread).
Proof.
  destruct (single_stream_session arch64 arch64 ex_codec None 10 0 ex_rng ex_rng ex_target ex_connect
    [str "hello"] [ex_frame_wire] [ztake 7 ex_connect; zdrop 7 ex_connect ++ ex_frame_wire]) as (ack & l & unread & E & _).
  - apply ex_codec_wf.
  - by left.
  - apply ex_rng_ok.
  - apply ex_rng_ok.
  - split; [apply str_bytes | split; [vm_compute; reflexivity | lia]].
  - vm_compute. reflexivity.
  - repeat constructor. by_compute.
  - constructor; [| constructor]. exists ex_rng. split; [apply ex_rng_ok | vm_compute; reflexivity].
  - by repeat constructor.
  - vm_compute. reflexivity.
  - exists ack, l, unread. exact E.
Defined.
