(* ===== verification/ServerMux.v ===== *)
(** * Multiplexed sessions of the server

    xr-server/src/mux_handler.rs: the loop that accepts streams under the caps of a
    session and of the whole server, and the relay of one stream with the Close it
    owes to the client. A session owns a server endpoint of [Mux]; everything else
    that touches the endpoint (its reader and writer) is a step of [MuxInv]. *)

From S2P Require Import Prelude Text Net Obfuscation Protocol RelayHealth Chan Mux MuxTasks MuxInv MuxWire MuxIo.

Definition TARGET_CONNECT_TIMEOUT : Z := 5 * 1000.
Definition IDLE_TIMEOUT : Z := 300 * 1000.
Definition MAX_LIFETIME : Z := 3600 * 1000.

(** ** How a relay ended *)

Inductive RelayError := ReResolve (e : io_error) | ReConnect (e : io_error) | ReIo (e : io_error).

Definition relay_close_reason (e : RelayError) : option Z :=
  match e with
  | ReResolve _ => Some CLOSE_REASON_RESOLVE_FAIL
  | ReConnect _ => Some CLOSE_REASON_CONNECT_FAIL
  | ReIo _ => None
  end.

Definition close_payload (r : result unit RelayError) : bytes :=
  match r with
  | Err e => match relay_close_reason e with Some b => [b] | None => [] end
  | Ok _ => []
  end.

(** ** The relay of a stream *)

(** The two directions of [relay_pump]: from the stream to the target and back. *)
Inductive ToTarget := TRecv | TWrite (d : bytes).
Inductive ToMux := MRead (since : Z) | MSend (data : bytes) (st : SendState).

(** Where the task waits; in [PClose] for a slot for its Close frame. *)
Inductive TaskPc :=
| PResolve
| PDial (since : Z) (s : SocketAddr)
| PPump (started : Z) (a : ToTarget) (b : ToMux)
| PClose (r : result unit RelayError)
| PEnded (r : result unit RelayError).

(** The halves of its stream, its place, and a history: bytes received from the stream
    and written to the target, bytes read from the target, frames queued. *)
Record Task := {
  t_read : MuxReadHalf;
  t_write : MuxWriteHalf;
  t_pc : TaskPc;
  t_got : bytes;
  t_given : bytes;
  t_taken : bytes;
  t_log : list OutFrame
}.

Inductive TaskIn :=
| TkResolved (r : io_result (list SocketAddr))
| TkDialled (r : io_result unit)
| TkRecv
| TkWrote (n : Z)
| TkWriteErr (e : io_error)
| TkRead (chunk : bytes)
| TkReadErr (e : io_error)
| TkSend
| TkDialTimer
| TkIdle
| TkLifetime
| TkClose.

Definition task_start (now : Z) (r : MuxReadHalf) (w : MuxWriteHalf) (t : TargetAddr) : Task :=
  {| t_read := r; t_write := w; t_pc := match t with TIp s => PDial now s | TDomain _ _ => PResolve end;
     t_got := []; t_given := []; t_taken := []; t_log := [] |}.

Definition with_pc (t : Task) (pc : TaskPc) : Task :=
  {| t_read := t_read t; t_write := t_write t; t_pc := pc; t_got := t_got t; t_given := t_given t;
     t_taken := t_taken t; t_log := t_log t |}.

(** What a step added to the queue of the writer. *)
Definition pushed (m m' : Multiplexer) : list OutFrame :=
  drop (length (queue (writer_ch m))) (queue (writer_ch m')).

(** [relay_pump] returned: [relay_stream] closes with the reason of the result, through
    the half that sent the data. *)
Definition relay_finish (m : Multiplexer) (t : Task) (r : result unit RelayError) : Multiplexer * Task :=
  let '(m', w, p) := close_with m (t_write t) (close_payload r) in
  (m', {| t_read := t_read t; t_write := w; t_pc := match p with Ready _ => PEnded r | PollPending => PClose r end;
          t_got := t_got t; t_given := t_given t; t_taken := t_taken t; t_log := t_log t ++ pushed m m' |}).

(** One stretch of the task. *)
Definition resolve_step (now : Z) (m : Multiplexer) (t : Task) (r : io_result (list SocketAddr)) : Multiplexer * Task :=
  match r with
  | Ok (s :: _) => (m, with_pc t (PDial now s))
  | Ok [] => relay_finish m t (Err (ReResolve (IoError NotFound (str "DNS resolution failed"))))
  | Err e => relay_finish m t (Err (ReResolve e))
  end.

Definition dial_step (now : Z) (m : Multiplexer) (t : Task) (r : io_result unit) : Multiplexer * Task :=
  match r with
  | Ok _ => (m, with_pc t (PPump now TRecv (MRead now)))
  | Err e => relay_finish m t (Err (ReConnect e))
  end.

Definition to_target_recv (m : Multiplexer) (t : Task) (started : Z) (b : ToMux) : Multiplexer * Task :=
  let '(m', h, p) := MuxReadHalf_recv m (t_read t) in
  let t' d pc := {| t_read := h; t_write := t_write t; t_pc := pc; t_got := t_got t ++ d; t_given := t_given t;
                    t_taken := t_taken t; t_log := t_log t |} in
  match p with
  | Ready None => relay_finish m' (t' [] (t_pc t)) (Ok tt)
  | Ready (Some d) =>
      if zlen d =? 0 then relay_finish m' (t' [] (t_pc t)) (Ok tt)
      else (m', t' d (PPump started (TWrite d) b))
  | PollPending => (m', t' [] (t_pc t))
  end.

Definition to_target_wrote (m : Multiplexer) (t : Task) (started : Z) (d : bytes) (b : ToMux) (n : Z) : Multiplexer * Task :=
  let rest := zdrop n d in
  (m, {| t_read := t_read t; t_write := t_write t;
         t_pc := PPump started (if zlen rest =? 0 then TRecv else TWrite rest) b;
         t_got := t_got t; t_given := t_given t ++ ztake n d; t_taken := t_taken t; t_log := t_log t |}).

Definition to_mux_read (m : Multiplexer) (t : Task) (started : Z) (a : ToTarget) (chunk : bytes) : Multiplexer * Task :=
  if zlen chunk =? 0 then relay_finish m t (Ok tt)
  else (m, {| t_read := t_read t; t_write := t_write t; t_pc := PPump started a (MSend chunk SendStart);
              t_got := t_got t; t_given := t_given t; t_taken := t_taken t ++ chunk; t_log := t_log t |}).

Definition to_mux_send (now : Z) (m : Multiplexer) (t : Task) (started : Z) (a : ToTarget) (data : bytes) (st : SendState) :
    Multiplexer * Task :=
  let '(m', st, p) := send_data_step m (wh_cell (t_write t)) (wh_stream_id (t_write t)) data st in
  let t' pc := {| t_read := t_read t; t_write := t_write t; t_pc := pc; t_got := t_got t; t_given := t_given t;
                  t_taken := t_taken t; t_log := t_log t ++ pushed m m' |} in
  match p with
  | Ready (Some (Ok _)) => (m', t' (PPump started a (MRead now)))
  | Ready (Some (Err e)) => relay_finish m' (t' (t_pc t)) (Err (ReIo e))
  | _ => (m', t' (PPump started a (MSend data st)))
  end.

Definition pump_step (now : Z) (m : Multiplexer) (t : Task) (i : TaskIn) : Multiplexer * Task :=
  match t_pc t, i with
  | PResolve, TkResolved r => resolve_step now m t r
  | PDial _ _, TkDialled r => dial_step now m t r
  | PDial since _, TkDialTimer =>
      if TARGET_CONNECT_TIMEOUT <=? now - since
      then relay_finish m t (Err (ReConnect (IoError TimedOut (str "target connect timeout")))) else (m, t)
  | PPump started TRecv b, TkRecv => to_target_recv m t started b
  | PPump started (TWrite d) b, TkWrote n => to_target_wrote m t started d b n
  | PPump _ (TWrite _) _, TkWriteErr e => relay_finish m t (Err (ReIo e))
  | PPump started a (MRead _), TkRead chunk => to_mux_read m t started a chunk
  | PPump _ _ (MRead _), TkReadErr e => relay_finish m t (Err (ReIo e))
  | PPump _ _ (MRead since), TkIdle =>
      if IDLE_TIMEOUT <=? now - since then relay_finish m t (Ok tt) else (m, t)
  | PPump started a (MSend data st), TkSend => to_mux_send now m t started a data st
  | PPump started _ _, TkLifetime =>
      if MAX_LIFETIME <=? now - started then relay_finish m t (Ok tt) else (m, t)
  | PClose r, TkClose =>
      let '(m', p) := writer_send m (close_frame (wh_stream_id (t_write t)) (close_payload r)) in
      (m', {| t_read := t_read t; t_write := t_write t; t_pc := match p with Ready _ => PEnded r | PollPending => PClose r end;
              t_got := t_got t; t_given := t_given t; t_taken := t_taken t; t_log := t_log t ++ pushed m m' |})
  | _, _ => (m, t)
  end.

(** A run of the task: between two of its stretches anything can have happened to the
    endpoint. *)
Inductive task_reach (sid : Z) : Task -> Prop :=
| TaskStart now r i t :
    task_reach sid (task_start now r {| wh_stream_id := sid; wh_cell := i; wh_closed := false |} t)
| TaskStep now m t i : task_reach sid t -> task_reach sid (pump_step now m t i).2.

(** ** What a relay queues *)

Lemma pushed_app m m' fs : queue (writer_ch m') = queue (writer_ch m) ++ fs -> pushed m m' = fs.
Proof. unfold pushed. intros ->. by rewrite drop_app_length. Qed.

Lemma writer_send_pushed m f m' p :
  writer_send m f = (m', p) ->
  pushed m m' = match p with Ready (Ok _) => [f] | _ => [] end.
Proof.
  unfold writer_send. destruct (try_send (writer_ch m) f) as [c | |] eqn:E; intros [= <- <-].
  - apply try_send_sent in E as (-> & _). by apply pushed_app.
  - apply pushed_app. by rewrite app_nil_r.
  - apply pushed_app. by rewrite app_nil_r.
Qed.

(** The frames of a relay that has not closed its stream: pieces of what it read from the
    target, in order. *)
Definition log_data (sid : Z) (t : Task) (upto : bytes) : Prop :=
  Forall (sends_data sid) (t_log t) /\ concat (map out_payload (t_log t)) = upto.

Definition early (r : result unit RelayError) : bool :=
  match r with Err (ReResolve _) | Err (ReConnect _) => true | _ => false end.

Definition task_inv (sid : Z) (t : Task) : Prop :=
  wh_stream_id (t_write t) = sid /\ t_given t `prefix_of` t_got t /\
  match t_pc t with
  | PResolve | PDial _ _ =>
      wh_closed (t_write t) = false /\ t_log t = [] /\ t_taken t = [] /\ t_given t = [] /\ t_got t = []
  | PPump _ a b =>
      wh_closed (t_write t) = false /\
      match a with TRecv => t_given t = t_got t | TWrite d => t_given t ++ d = t_got t end /\
      match b with
      | MRead _ => log_data sid t (t_taken t)
      | MSend d st => send_wf d st /\ exists before, t_taken t = before ++ d /\ log_data sid t (before ++ ztake (sent_upto st) d)
      end
  | PClose r =>
      Forall (sends_data sid) (t_log t) /\ concat (map out_payload (t_log t)) `prefix_of` t_taken t /\
      (early r = true -> t_log t = [])
  | PEnded r =>
      exists fs, (t_log t = fs \/ t_log t = fs ++ [close_frame sid (close_payload r)]) /\
        Forall (sends_data sid) fs /\ concat (map out_payload fs) `prefix_of` t_taken t /\
        (early r = true -> fs = [])
  end.

(** What [relay_finish] needs to know. *)
Definition closable (sid : Z) (t : Task) (r : result unit RelayError) : Prop :=
  wh_stream_id (t_write t) = sid /\ t_given t `prefix_of` t_got t /\ wh_closed (t_write t) = false /\
  Forall (sends_data sid) (t_log t) /\ concat (map out_payload (t_log t)) `prefix_of` t_taken t /\
  (early r = true -> t_log t = []).

Lemma relay_finish_inv sid m t r : closable sid t r -> task_inv sid (relay_finish m t r).2.
Proof.
  intros (Hs & Hg & Hcl & Hf & Hp & He). unfold relay_finish, close_with. rewrite Hcl. cbn [wh_stream_id].
  destruct (writer_send m (close_frame (wh_stream_id (t_write t)) (close_payload r))) as [m' p] eqn:E.
  pose proof (writer_send_pushed _ _ _ _ E) as Hpu. rewrite Hs in *.
  destruct p as [[u | u] |]; cbn [snd]; (split; [done | split; [done |]]); cbn [t_pc t_log t_taken]; rewrite Hpu.
  - exists (t_log t). split_and!; try done. by right.
  - exists (t_log t). rewrite app_nil_r. split_and!; try done. by left.
  - by rewrite app_nil_r.
Qed.

Lemma log_data_closable sid t upto r :
  wh_stream_id (t_write t) = sid -> t_given t `prefix_of` t_got t -> wh_closed (t_write t) = false ->
  log_data sid t upto -> upto `prefix_of` t_taken t -> early r = false -> closable sid t r.
Proof. intros ??? [Hf <-] ? He. split_and!; try done. by rewrite He. Qed.

(** A relay that was never connected can be closed for any reason. *)
Lemma fresh_closable sid t r :
  wh_stream_id (t_write t) = sid -> t_given t `prefix_of` t_got t -> wh_closed (t_write t) = false ->
  t_log t = [] -> closable sid t r.
Proof. intros ??? Hl. split_and!; try done; rewrite Hl; [constructor | apply prefix_nil]. Qed.

(** The frames that a running relay queued are what it read, less what is being sent. *)
Lemma pump_closable sid t started a b r :
  task_inv sid t -> t_pc t = PPump started a b -> early r = false -> closable sid t r.
Proof.
  intros (Hs & Hg & Hpc) Epc He. rewrite Epc in Hpc. destruct Hpc as (Hcl & _ & Hb). destruct b as [since | d st].
  - by eapply log_data_closable.
  - destruct Hb as (_ & before & Ht & Hl). eapply log_data_closable; try done. rewrite Ht. apply prefix_app.
    exists (zdrop (sent_upto st) d). by rewrite ztake_zdrop.
Qed.

Lemma to_mux_send_inv sid now m t started a d st :
  task_inv sid t -> t_pc t = PPump started a (MSend d st) -> task_inv sid (to_mux_send now m t started a d st).2.
Proof.
  intros (Hs & Hg & Hpc) Epc. rewrite Epc in Hpc. destruct Hpc as (Hcl & Ha & Hw & before & Ht & Hf & Hlog).
  unfold to_mux_send. destruct (send_data_step m (wh_cell (t_write t)) (wh_stream_id (t_write t)) d st) as [[m' st'] p] eqn:E.
  rewrite Hs in E. destruct (send_step_spec m _ sid d st m' st' p Hw E) as (Hw' & (fs & Hq & Hfs & Hc) & Hb & Hp).
  apply pushed_app in Hq.
  assert (Hnew : Forall (sends_data sid) (t_log t ++ fs) /\
    concat (map out_payload (t_log t ++ fs)) = before ++ ztake (sent_upto st') d).
  { split; [by apply Forall_app |]. rewrite map_app, concat_app, Hlog, Hc, <- app_assoc. f_equal.
    assert (0 <= sent_upto st) by (destruct Hw as [Hok _]; destruct st; simpl in *; lia).
    rewrite <- (ztake_zdrop (sent_upto st) (ztake (sent_upto st') d)) at 2. f_equal.
    unfold ztake. rewrite take_take. f_equal. lia. }
  destruct Hnew as [Hn1 Hn2]. destruct p as [[[u | e] |] |]; rewrite ?Hq.
  - split; [done | split; [done |]]. cbn. split_and!; try done. split; [done |]. cbn. rewrite Hn2, Hp, ztake_ge by lia. done.
  - apply relay_finish_inv. split_and!; try done. cbn. rewrite Hn2, Ht. apply prefix_app.
    exists (zdrop (sent_upto st') d). by rewrite ztake_zdrop.
  - split; [done | split; [done |]]. cbn. split_and!; try done. by exists before.
  - split; [done | split; [done |]]. cbn. split_and!; try done. by exists before.
Qed.

Lemma to_target_recv_inv sid m t started b :
  task_inv sid t -> t_pc t = PPump started TRecv b -> task_inv sid (to_target_recv m t started b).2.
Proof.
  intros Ht Epc. pose proof (pump_closable sid t _ _ _ (Ok tt) Ht Epc eq_refl) as Hc.
  destruct Ht as (Hs & Hg & Hpc). rewrite Epc in Hpc. destruct Hpc as (Hcl & Ha & Hb).
  unfold to_target_recv. destruct (MuxReadHalf_recv m (t_read t)) as [[m' h] p].
  destruct p as [[d |] |].
  - destruct (zlen d =? 0).
    + apply relay_finish_inv. unfold closable in *. cbn. by rewrite app_nil_r.
    + split; [done |]. cbn [snd t_given t_got]. split; [by apply prefix_app_r |]. cbn. split_and!; try done. by rewrite Ha.
  - apply relay_finish_inv. unfold closable in *. cbn. by rewrite app_nil_r.
  - unfold task_inv. cbn [snd t_pc t_write t_given t_got t_log t_taken]. rewrite Epc, app_nil_r. done.
Qed.

Lemma to_mux_read_inv sid m t started a since chunk :
  task_inv sid t -> t_pc t = PPump started a (MRead since) -> task_inv sid (to_mux_read m t started a chunk).2.
Proof.
  intros Ht Epc. pose proof (pump_closable sid t _ _ _ (Ok tt) Ht Epc eq_refl) as Hc.
  destruct Ht as (Hs & Hg & Hpc). rewrite Epc in Hpc. destruct Hpc as (Hcl & Ha & Hb). unfold to_mux_read.
  destruct (zlen chunk =? 0); [by apply relay_finish_inv |].
  split; [exact Hs | split; [exact Hg |]]. split; [exact Hcl | split; [exact Ha |]]. cbn [t_taken].
  split; [done |]. exists (t_taken t). split; [done |].
  rewrite app_nil_r. exact Hb.
Qed.

Lemma to_target_wrote_inv sid m t started d b n :
  task_inv sid t -> t_pc t = PPump started (TWrite d) b -> task_inv sid (to_target_wrote m t started d b n).2.
Proof.
  intros (Hs & Hg & Hpc) Epc. rewrite Epc in Hpc. destruct Hpc as (Hcl & Ha & Hb).
  split; [exact Hs |]. cbn [snd to_target_wrote t_given t_got t_pc]. rewrite <- Ha. split.
  - apply prefix_app. exists (zdrop n d). by rewrite ztake_zdrop.
  - split; [exact Hcl | split; [| exact Hb]].
    destruct (Z.eqb_spec (zlen (zdrop n d)) 0) as [E0 | _].
    + apply zlen_0_nil in E0. f_equal. rewrite <- (ztake_zdrop n d) at 2. by rewrite E0, app_nil_r.
    + by rewrite <- app_assoc, ztake_zdrop.
Qed.

Lemma pump_step_inv sid now m t i : task_inv sid t -> task_inv sid (pump_step now m t i).2.
Proof.
  intros Ht. pose proof Ht as (Hs & Hg & Hpc). unfold pump_step.
  destruct (t_pc t) as [| since s | started a b | r | r] eqn:Epc.
  - destruct i as [r | | | | | | | | | | |]; try exact Ht.
    assert (Hc : forall r, closable sid t r) by (destruct Hpc as (? & ? & _); intros r'; by apply fresh_closable).
    destruct r as [[| s l] | e]; [apply relay_finish_inv, Hc | | apply relay_finish_inv, Hc].
    split; [exact Hs | split; [exact Hg | exact Hpc]].
  - assert (Hc : forall r, closable sid t r) by (destruct Hpc as (? & ? & _); intros r'; by apply fresh_closable).
    destruct i as [| r | | | | | | | | | |]; try exact Ht.
    + unfold dial_step. destruct r as [u | e]; [| apply relay_finish_inv, Hc]. destruct Hpc as (Hcl & Hl & Hk & Hgi & Hgo).
      split; [done | split; [done |]]. cbn. rewrite Hgi, Hgo, Hk. split_and!; try done. split; cbn; by rewrite Hl.
    + case_match; [apply relay_finish_inv, Hc | exact Ht].
  - pose proof (fun r => pump_closable sid t _ _ _ r Ht Epc) as Hc.
    destruct i; destruct a as [| d]; destruct b as [since | d' st]; try exact Ht;
      try (apply relay_finish_inv, Hc; done); try (by apply to_mux_send_inv); try (by apply to_target_recv_inv);
      try (case_match; [apply relay_finish_inv, Hc; done | exact Ht]).
    all: by (eapply to_mux_read_inv || eapply to_target_wrote_inv).
  - destruct i; try exact Ht. destruct Hpc as (Hf & Hp & He).
    destruct (writer_send m (close_frame (wh_stream_id (t_write t)) (close_payload r))) as [m' p] eqn:E.
    pose proof (writer_send_pushed _ _ _ _ E) as Hpu. rewrite Hs in *.
    split; [done | split; [done |]]. cbn [snd t_pc t_log t_taken]. rewrite Hpu.
    destruct p as [[u | u] |]; rewrite ?app_nil_r; [| | done].
    + exists (t_log t). split_and!; try done. by right.
    + exists (t_log t). split_and!; try done. by left.
  - exact Ht.
Qed.

Lemma task_reach_inv sid t : task_reach sid t -> task_inv sid t.
Proof.
  induction 1 as [now r i t | now m t i _ IH]; [| by apply pump_step_inv].
  split; [done | split; [done |]]. by destruct t.
Qed.

(** ** A session *)

(** [StreamLimits]: what is configured. The permits that are free are in the states below. *)
Record StreamLimits := { max_streams : Z; per_mux : Z }.

(** Where the accept loop waits: for a stream, for a slot for the Close of a refusal, for a
    slot for ConnectAck while it holds both permits; or it is over. *)
Inductive Accept :=
| AcWait
| AcClose (sid : Z) (p : bytes)
| AcAck (sid : Z) (t : TargetAddr)
| AcOver.

Record Session := {
  s_mux : Multiplexer;
  s_free : Z;
  s_accept : Accept;
  s_tasks : gmap nat Task;
  s_next : nat;
  s_started : Z;
  s_lifetime : Z
}.

Definition set_accept (s : Session) (m : Multiplexer) (a : Accept) : Session :=
  {| s_mux := m; s_free := s_free s; s_accept := a; s_tasks := s_tasks s; s_next := s_next s;
     s_started := s_started s; s_lifetime := s_lifetime s |}.

Definition set_mux (s : Session) (m : Multiplexer) : Session := set_accept s m (s_accept s).

(** The lifetime of a session, staggered by the port of the client. *)
Definition mux_lifetime (port : Z) : Z := MAX_LIFETIME + (port mod 900) * 1000.

(** [handle_mux_client] up to its loop; [None] is a refused handshake. *)
Definition session_start (lim : StreamLimits) (now port : Z) (init_frame : Frame) : option Session :=
  match (mux_handshake_server init_frame).2 with
  | None => None
  | Some c =>
      Some {| s_mux := new_server c; s_free := per_mux lim; s_accept := AcWait; s_tasks := ∅; s_next := 0;
              s_started := now; s_lifetime := mux_lifetime port |}
  end.

(** A stream arrived: its address, then the permit of the session, then that of the
    server. [total] is what is free of the latter. *)
Definition accept_stream (total : Z) (s : Session) (ns : NewStream) : option (Z * Session) :=
  r ← TargetAddr_decode (new_payload ns);
  let sid := new_stream_id ns in
  Some match r with
       | Err _ => (total, set_accept s (s_mux s) (AcClose sid []))
       | Ok (t, _) =>
           if s_free s <=? 0 then (total, set_accept s (s_mux s) (AcClose sid [CLOSE_REASON_STREAM_LIMIT]))
           else if total <=? 0 then (total, set_accept s (s_mux s) (AcClose sid [CLOSE_REASON_STREAM_LIMIT]))
           else (total - 1,
                 {| s_mux := s_mux s; s_free := s_free s - 1; s_accept := AcAck sid t; s_tasks := s_tasks s;
                    s_next := s_next s; s_started := s_started s; s_lifetime := s_lifetime s |})
       end.

(** The loop ended: permits in its hands come back, the multiplexer is shut down and
    the queue of new streams goes. *)
Definition session_over (total : Z) (s : Session) : Z * Session :=
  let held := match s_accept s with AcAck _ _ => 1 | _ => 0 end in
  (total + held,
   {| s_mux := shutdown (set_new_stream (s_mux s) (drop_rx (new_stream_ch (s_mux s)))); s_free := s_free s + held;
      s_accept := AcOver; s_tasks := s_tasks s; s_next := s_next s; s_started := s_started s;
      s_lifetime := s_lifetime s |}).

(** The ack is queued: the stream is registered and its relay spawned. *)
Definition spawn_relay (now : Z) (s : Session) (m : Multiplexer) (sid : Z) (t : TargetAddr) : option Session :=
  let '(m, st) := register_stream m sid in
  '(r, w) ← MuxStream_split st;
  Some {| s_mux := m; s_free := s_free s; s_accept := AcWait;
          s_tasks := <[s_next s := task_start now r w t]> (s_tasks s); s_next := S (s_next s);
          s_started := s_started s; s_lifetime := s_lifetime s |}.

Definition accept_step (now total : Z) (s : Session) : option (Z * Session) :=
  match s_accept s with
  | AcWait =>
      match poll_recv (new_stream_ch (s_mux s)) with
      | Msg ns ch => accept_stream total (set_mux s (set_new_stream (s_mux s) ch)) ns
      | Ended => Some (session_over total s)
      | Pending => Some (total, s)
      end
  | AcClose sid p =>
      let '(m, q) := send_stream_close (s_mux s) sid p in
      Some (total, set_accept s m match q with Ready _ => AcWait | PollPending => AcClose sid p end)
  | AcAck sid t =>
      match send_frame (s_mux s) sid ConnectAck [0] with
      | (m, Ready (Ok _)) => s' ← spawn_relay now s m sid t; Some (total, s')
      | (m, Ready (Err _)) => Some (session_over total (set_mux s m))
      | (m, PollPending) => Some (total, set_mux s m)
      end
  | AcOver => Some (total, s)
  end.

(** The timeout around the loop. *)
Definition accept_timer (now total : Z) (s : Session) : Z * Session :=
  match s_accept s with
  | AcOver => (total, s)
  | _ => if s_lifetime s <=? now - s_started s then session_over total s else (total, s)
  end.

(** A relay moves; when it is over its halves and its permits are dropped. *)
Definition relay_task (now total : Z) (s : Session) (j : nat) (t : Task) (i : TaskIn) : Z * Session :=
  let '(m, t) := pump_step now (s_mux s) t i in
  match t_pc t with
  | PEnded _ =>
      (total + 1,
       {| s_mux := MuxReadHalf_drop (MuxWriteHalf_drop m (t_write t)) (t_read t); s_free := s_free s + 1;
          s_accept := s_accept s; s_tasks := delete j (s_tasks s); s_next := s_next s;
          s_started := s_started s; s_lifetime := s_lifetime s |})
  | _ =>
      (total,
       {| s_mux := m; s_free := s_free s; s_accept := s_accept s; s_tasks := <[j := t]> (s_tasks s);
          s_next := s_next s; s_started := s_started s; s_lifetime := s_lifetime s |})
  end.

(** ** The server *)

Record Server := { sv_free : Z; sv_sessions : list Session }.

Definition Server_new (lim : StreamLimits) : Server := {| sv_free := max_streams lim; sv_sessions := [] |}.

Definition put_session (sv : Server) (k : nat) (r : Z * Session) : Server :=
  {| sv_free := r.1; sv_sessions := <[k := r.2]> (sv_sessions sv) |}.

Inductive server_mux_step (lim : StreamLimits) (sv : Server) : Server -> Prop :=
| SmStart now port f s :
    session_start lim now port f = Some s ->
    server_mux_step lim sv {| sv_free := sv_free sv; sv_sessions := sv_sessions sv ++ [s] |}
| SmAccept now k s r :
    sv_sessions sv !! k = Some s -> accept_step now (sv_free sv) s = Some r ->
    server_mux_step lim sv (put_session sv k r)
| SmTimer now k s :
    sv_sessions sv !! k = Some s -> server_mux_step lim sv (put_session sv k (accept_timer now (sv_free sv) s))
| SmTask now k s j t i :
    sv_sessions sv !! k = Some s -> s_tasks s !! j = Some t ->
    server_mux_step lim sv (put_session sv k (relay_task now (sv_free sv) s j t i))
| SmMux k s m :
    sv_sessions sv !! k = Some s -> mux_step (s_mux s) m ->
    server_mux_step lim sv (put_session sv k (sv_free sv, set_mux s m)).

Inductive server_mux_reach (lim : StreamLimits) : Server -> Prop :=
| SmNew : server_mux_reach lim (Server_new lim)
| SmStep sv sv' : server_mux_reach lim sv -> server_mux_step lim sv sv' -> server_mux_reach lim sv'.

(** ** Permits *)

(** The permits in the hands of a session: one per running relay, one while it acks. *)
Definition holders (s : Session) : Z :=
  Z.of_nat (size (s_tasks s)) + match s_accept s with AcAck _ _ => 1 | _ => 0 end.

Definition all_holders (l : list Session) : Z := foldr (fun s n => holders s + n) 0 l.

Lemma all_holders_app l1 l2 : all_holders (l1 ++ l2) = all_holders l1 + all_holders l2.
Proof. induction l1 as [| s l1 IH]; [done |]. unfold all_holders in *. cbn [app foldr]. rewrite IH. lia. Qed.

Lemma all_holders_insert l k s s' :
  l !! k = Some s -> all_holders (<[k := s']> l) = all_holders l - holders s + holders s'.
Proof.
  intros Hk. rewrite (insert_take_drop l k s') by by eapply lookup_lt_Some.
  pose proof (all_holders_app (take k l) (s :: drop (S k) l)) as Hl. rewrite (take_drop_middle l k s Hk) in Hl.
  rewrite all_holders_app, Hl. unfold all_holders. cbn [foldr]. lia.
Qed.

Definition session_ok (lim : StreamLimits) (s : Session) : Prop :=
  s_free s + holders s = per_mux lim /\ 0 <= s_free s /\
  (forall j, (s_next s <= j)%nat -> s_tasks s !! j = None) /\
  (s_accept s = AcOver -> alive (s_mux s) = false).

Record server_ok (lim : StreamLimits) (sv : Server) : Prop := {
  ok_total : sv_free sv + all_holders (sv_sessions sv) = max_streams lim;
  ok_free : 0 <= sv_free sv;
  ok_sessions : Forall (session_ok lim) (sv_sessions sv)
}.

(** A step of a session that moves as many permits as it takes from the server. *)
Lemma put_session_ok lim sv k s r :
  server_ok lim sv -> sv_sessions sv !! k = Some s ->
  session_ok lim r.2 -> r.1 + holders r.2 = sv_free sv + holders s -> 0 <= r.1 ->
  server_ok lim (put_session sv k r).
Proof.
  intros [Ht Hf Hs] Hk Hr Hsum H0. split; cbn [sv_free sv_sessions put_session].
  - rewrite (all_holders_insert _ _ s) by done. lia.
  - done.
  - by apply Forall_insert.
Qed.

Lemma alive_close_with m h p : alive (close_with m h p).1.1 = alive m.
Proof.
  unfold close_with. destruct (wh_closed h); [done |].
  pose proof (alive_writer_send m (close_frame (wh_stream_id h) p)) as Ha. cbn [wh_stream_id].
  by destruct (writer_send m _) as [m' []].
Qed.

Lemma alive_relay_finish m t r : alive (relay_finish m t r).1 = alive m.
Proof.
  unfold relay_finish. pose proof (alive_close_with m (t_write t) (close_payload r)) as H.
  by destruct (close_with m (t_write t) (close_payload r)) as [[m' w] p].
Qed.

Lemma alive_pump_step now m t i : alive (pump_step now m t i).1 = alive m.
Proof.
  unfold pump_step, resolve_step, dial_step, to_mux_read, to_target_wrote.
  destruct (t_pc t) as [| since s | started a b | r | r], i; try done;
    repeat (case_match; try done); try apply alive_relay_finish.
  all: try (unfold to_target_recv, MuxReadHalf_recv;
    pose proof (alive_recv_cell m (rh_cell (t_read t)) (rh_recv_credit (t_read t))) as Ha;
    destruct (recv_cell _ _ _) as [[m' h] p]; cbn [fst] in Ha; repeat case_match;
    rewrite ?alive_relay_finish; exact Ha).
  all: try (unfold to_mux_send;
    match goal with |- context [send_data_step ?m ?i ?s ?d ?st] =>
      pose proof (alive_send_data_step m i s d st) as Ha; destruct (send_data_step m i s d st) as [[m' st'] p] end;
    cbn [fst] in Ha; repeat case_match; rewrite ?alive_relay_finish; exact Ha).
  all: match goal with H : writer_send ?m1 ?f = _ |- _ => pose proof (alive_writer_send m1 f) as Ha; rewrite H in Ha; exact Ha end.
Qed.

Lemma alive_read_drop m h : alive (MuxReadHalf_drop m h) = alive m.
Proof. done. Qed.

Lemma alive_write_drop m h : alive (MuxWriteHalf_drop m h) = alive m.
Proof. unfold MuxWriteHalf_drop, close_on_drop. by repeat case_match. Qed.

Lemma session_over_ok lim sv k s m :
  server_ok lim sv -> sv_sessions sv !! k = Some s ->
  server_ok lim (put_session sv k (session_over (sv_free sv) (set_mux s m))).
Proof.
  intros Hsv Hk. pose proof Hsv as [Ht Hf Hs]. pose proof (Forall_lookup_1 _ _ _ _ Hs Hk) as (Hp & H0 & Hn & Ho).
  unfold holders in Hp. eapply put_session_ok; try done; unfold session_over, session_ok, holders; cbn.
  - split_and!; try done; case_match; lia.
  - case_match; lia.
  - case_match; lia.
Qed.

Lemma accept_stream_ok lim sv k s m ns r :
  server_ok lim sv -> sv_sessions sv !! k = Some s -> s_accept s = AcWait ->
  accept_stream (sv_free sv) (set_mux s m) ns = Some r -> server_ok lim (put_session sv k r).
Proof.
  intros Hsv Hk Ha. pose proof Hsv as [Ht Hf Hs]. pose proof (Forall_lookup_1 _ _ _ _ Hs Hk) as (Hp & H0 & Hn & Ho).
  unfold holders in Hp. rewrite Ha in Hp. unfold accept_stream.
  destruct (TargetAddr_decode (new_payload ns)) as [[[t n] | e] |]; cbn [mbind option_bind]; [| | done].
  - cbn [s_free set_mux set_accept]. case_cmp; [| case_cmp]; intros [= <-]; eapply put_session_ok; try done;
      unfold session_ok, holders; cbn; rewrite ?Ha; try lia; split_and!; try done; lia.
  - intros [= <-]. eapply put_session_ok; try done; unfold session_ok, holders; cbn; rewrite ?Ha; try lia; split_and!; try done; lia.
Qed.

Lemma accept_step_ok lim sv now k s r :
  server_ok lim sv -> sv_sessions sv !! k = Some s -> accept_step now (sv_free sv) s = Some r ->
  server_ok lim (put_session sv k r).
Proof.
  intros Hsv Hk. pose proof Hsv as [Ht Hf Hs]. pose proof (Forall_lookup_1 _ _ _ _ Hs Hk) as (Hp & H0 & Hn & Ho).
  assert (Hsame : forall s', s_free s' = s_free s -> holders s' = holders s -> s_tasks s' = s_tasks s ->
    s_next s' = s_next s -> (s_accept s' = AcOver -> alive (s_mux s') = false) -> server_ok lim (put_session sv k (sv_free sv, s'))).
  { intros s' H1 H2 H3 H4 H5. eapply put_session_ok; try done; cbn; [| lia].
    unfold session_ok. rewrite H1, H2, H3, H4. done. }
  unfold accept_step. destruct (s_accept s) as [| sid p | sid t |] eqn:Ea.
  - destruct (poll_recv (new_stream_ch (s_mux s))) as [ns ch | |].
    + intros Hr. by eapply accept_stream_ok.
    + intros [= <-]. replace s with (set_mux s (s_mux s)) at 1 by by destruct s. by apply session_over_ok.
    + intros [= <-]. by apply Hsame; rewrite ?Ea.
  - destruct (send_stream_close (s_mux s) sid p) as [m q]. intros [= <-].
    apply Hsame; try done; [unfold holders; cbn; rewrite Ea | cbn]; by destruct q.
  - destruct (send_frame (s_mux s) sid ConnectAck [0]) as [m [[u | e] |]].
    + unfold spawn_relay. destruct (register_stream m sid) as [m' st].
      destruct (MuxStream_split st) as [[h w] |]; cbn [mbind option_bind]; [| done]. intros [= <-].
      unfold holders in Hp. rewrite Ea in Hp.
      assert (Hsz : Z.of_nat (size (<[s_next s := task_start now h w t]> (s_tasks s))) = Z.of_nat (size (s_tasks s)) + 1).
      { rewrite map_size_insert_None by by apply Hn. lia. }
      eapply put_session_ok; try done; unfold session_ok, holders; cbn [fst snd s_free s_accept s_tasks s_next]; rewrite ?Hsz, ?Ea; try lia.
      split_and!; try lia; try done. intros j Hj. rewrite lookup_insert_ne by lia. apply Hn. lia.
    + intros [= <-]. by apply session_over_ok.
    + intros [= <-]. apply Hsame; try done; unfold holders; cbn; by rewrite Ea.
  - intros [= <-]. by apply Hsame; rewrite ?Ea.
Qed.

Lemma relay_task_ok lim sv now k s j t i :
  server_ok lim sv -> sv_sessions sv !! k = Some s -> s_tasks s !! j = Some t ->
  server_ok lim (put_session sv k (relay_task now (sv_free sv) s j t i)).
Proof.
  intros Hsv Hk Hj. pose proof Hsv as [Ht Hf Hs]. pose proof (Forall_lookup_1 _ _ _ _ Hs Hk) as (Hp & H0 & Hn & Ho).
  pose proof (alive_pump_step now (s_mux s) t i) as Hal. unfold relay_task.
  destruct (pump_step now (s_mux s) t i) as [m t']. cbn [fst] in Hal.
  assert (Hjn : (j < s_next s)%nat).
  { destruct (decide (s_next s <= j)%nat) as [Hle |]; [| lia]. rewrite (Hn j Hle) in Hj. done. }
  assert (Hsame : server_ok lim (put_session sv k (sv_free sv,
    {| s_mux := m; s_free := s_free s; s_accept := s_accept s; s_tasks := <[j := t']> (s_tasks s);
       s_next := s_next s; s_started := s_started s; s_lifetime := s_lifetime s |}))).
  { assert (Hh : size (<[j := t']> (s_tasks s)) = size (s_tasks s)) by by apply map_size_insert_Some.
    eapply put_session_ok; try done; unfold session_ok, holders in *; cbn [fst snd s_free s_accept s_tasks s_next s_mux]; rewrite ?Hh; try lia.
    rewrite Hal. split_and!; try done. intros j' Hj'. rewrite lookup_insert_ne by lia. by apply Hn. }
  destruct (t_pc t'); try exact Hsame.
  assert (Hsz : Z.of_nat (size (delete j (s_tasks s))) = Z.of_nat (size (s_tasks s)) - 1).
  { assert (s_tasks s <> ∅) by (intros E; by rewrite E in Hj).
    rewrite map_size_delete_Some by by eexists. assert (size (s_tasks s) <> 0%nat) by by apply map_size_non_empty_iff. lia. }
  eapply put_session_ok; try done; unfold session_ok, holders in *; cbn [fst snd s_free s_accept s_tasks s_next s_mux]; rewrite ?Hsz; try lia.
  rewrite alive_read_drop, alive_write_drop, Hal. split_and!; try done; try lia.
  intros j' Hj'. rewrite lookup_delete_ne by lia. by apply Hn.
Qed.

Lemma server_mux_reach_ok lim sv :
  0 <= max_streams lim -> 0 <= per_mux lim -> server_mux_reach lim sv -> server_ok lim sv.
Proof.
  intros Hm Hp. induction 1 as [| sv sv' _ IH Hst]; [split; cbn; [lia | done | constructor] |].
  destruct Hst as [now port f s Hs | now k s r Hk Hr | now k s Hk | now k s j t i Hk Hj | k s m Hk Hst].
  - unfold session_start in Hs. destruct (mux_handshake_server f).2 as [c |]; [| done]. injection Hs as <-.
    destruct IH as [H1 H2 H3]. split; cbn [sv_free sv_sessions]; [| done |].
    + rewrite all_holders_app, <- H1. unfold all_holders at 2, holders. cbn [foldr s_tasks s_accept]. rewrite map_size_empty. lia.
    + apply Forall_app. split; [done |]. constructor; [| constructor]. unfold session_ok, holders.
      cbn [s_free s_tasks s_accept s_next]. rewrite map_size_empty. split_and!; try done; lia.
  - by eapply accept_step_ok.
  - unfold accept_timer. pose proof IH as [H1 H2 H3].
    assert (Hsame : server_ok lim (put_session sv k (sv_free sv, s))).
    { eapply put_session_ok; try done. by apply (Forall_lookup_1 _ _ _ _ H3 Hk). }
    replace s with (set_mux s (s_mux s)) at 3 by by destruct s.
    destruct (s_accept s); try exact Hsame; (case_cmp; [by apply session_over_ok | by destruct s]).
  - by apply relay_task_ok.
  - pose proof IH as [H1 H2 H3]. pose proof (Forall_lookup_1 _ _ _ _ H3 Hk) as (Hpm & H0 & Hn & Ho).
    eapply put_session_ok; try done. split_and!; try done. cbn. intros Ha.
    destruct (alive m) eqn:E; [| done]. apply (mux_step_alive _ _ Hst) in E. by rewrite (Ho Ha) in E.
Qed.

(** ** A failed relay as its client sees it *)

Definition health_with (now : Z) (e : option RelayEvent) (h : option RelayWindow) : option RelayWindow :=
  match e with
  | Some e => (fun w => relay_op now (OpRecord e) w) <$> h
  | None => h
  end.

(** The outcome that a Close counts as. *)
Definition reason_event (p : bytes) : option RelayEvent :=
  match p with
  | code :: _ =>
      if code =? CLOSE_REASON_RESOLVE_FAIL then Some EvResolveFail
      else if code =? CLOSE_REASON_CONNECT_FAIL then Some EvConnectFail else None
  | [] => None
  end.

Lemma dispatch_close_health now m sid p e m' :
  0 <= sid < 2 ^ 32 -> streams m !! sid = Some e ->
  dispatch_close now m (encode_mux_payload sid p) = Some m' ->
  relay_health m' = health_with now (reason_event p) (relay_health m).
Proof.
  intros Hs He. unfold dispatch_close. rewrite decode_mux_payload_eq by done. cbn [mbind option_bind]. rewrite He.
  intros [= <-]. destruct p as [| code p]; [done |]. cbn [drop_entry update_cell set_cells relay_health reason_event].
  unfold record_close_reason, health_record, health_with, set_reason, update_cell. cbn [relay_health set_cells set_streams].
  destruct (code =? CLOSE_REASON_RESOLVE_FAIL), (code =? CLOSE_REASON_CONNECT_FAIL); by destruct (relay_health m) as [w |] eqn:E.
Qed.

(** ** Claims *)

(** C27: The caps on streams. In every run of the server, with any number of sessions, whatever
    clients send, targets answer and timers do, and whatever else moves the
    multiplexers: no session relays more streams than its cap, all sessions together
    no more than the cap of the server, every permit that is not with a running
    relay or with a stream being acked is free again, so none leaks, whichever way a
    relay or a session ends; and a session whose accept loop ended, for whatever reason,
    has a multiplexer that was shut down and stays so. *)
Theorem stream_caps (lim : StreamLimits) (sv : Server)
    (Hm : 0 <= max_streams lim) (Hp : 0 <= per_mux lim) (Hr : server_mux_reach lim sv) :
  sv_free sv = max_streams lim - all_holders (sv_sessions sv) /\ all_holders (sv_sessions sv) <= max_streams lim /\
  Forall (fun s => s_free s = per_mux lim - holders s /\ Z.of_nat (size (s_tasks s)) <= per_mux lim /\
    (s_accept s = AcOver -> alive (s_mux s) = false)) (sv_sessions sv).
Proof.
  destruct (server_mux_reach_ok lim sv Hm Hp Hr) as [H1 H2 H3]. split_and!; [lia | lia |].
  eapply Forall_impl; [exact H3 |]. intros s (Hs & H0 & _ & Ho). split_and!; [lia | | done].
  unfold holders in Hs. destruct (s_accept s); lia.
Qed.

(** A session of a server with room for one stream, with a Connect in its queue, with
    the stream admitted, and with its relay running. *)
Definition ex_lim : StreamLimits := {| max_streams := 1; per_mux := 2 |}.
Definition ex_caps : MuxCaps := {| caps_window := true |}.
Definition ex_session : Session :=
  {| s_mux := new_server ex_caps; s_free := 2; s_accept := AcWait; s_tasks := ∅; s_next := 0; s_started := 5;
     s_lifetime := mux_lifetime 40000 |}.
Definition ex_ns : NewStream := {| new_stream_id := 1; new_payload := [1; 192; 0; 2; 7; 1; 187] |}.
Definition ex_connected : Multiplexer :=
  default (new_server ex_caps)
    (dispatch_frame 6 (new_server ex_caps) {| command := Connect; payload := encode_mux_payload 1 (new_payload ex_ns) |}).
Definition ex_sv1 : Server := put_session {| sv_free := 1; sv_sessions := [ex_session] |} 0 (1, set_mux ex_session ex_connected).
Definition ex_sv_accept (sv : Server) : Server :=
  match sv_sessions sv !! 0%nat with
  | Some s => match accept_step 7 (sv_free sv) s with Some r => put_session sv 0 r | None => sv end
  | None => sv
  end.

Lemma ex_sv1_reach : server_mux_reach ex_lim ex_sv1.
Proof.
  eapply SmStep; [eapply SmStep; [apply SmNew | apply (SmStart ex_lim _ 5 40000 handshake_init ex_session); reflexivity] |].
  apply (SmMux ex_lim {| sv_free := 1; sv_sessions := [ex_session] |} 0 ex_session); [reflexivity |].
  apply (step_dispatch _ 6 {| command := Connect; payload := encode_mux_payload 1 (new_payload ex_ns) |}). reflexivity.
Qed.

Lemma ex_sv_accept_reach sv : server_mux_reach ex_lim sv -> server_mux_reach ex_lim (ex_sv_accept sv).
Proof.
  intros Hr. unfold ex_sv_accept. destruct (sv_sessions sv !! 0%nat) as [s |] eqn:Hk; [| done].
  destruct (accept_step 7 (sv_free sv) s) as [r |] eqn:Ha; [| done]. eapply SmStep; [done |]. by eapply SmAccept.
Qed.

Definition ex_sv2 : Server := ex_sv_accept (ex_sv_accept ex_sv1).

Example ex_sv2_runs : sv_free ex_sv2 = 0 /\ all_holders (sv_sessions ex_sv2) = 1 /\
  map (fun s => (s_free s, size (s_tasks s))) (sv_sessions ex_sv2) = [(1, 1%nat)].
Proof. split_and!; vm_compute; reflexivity. Qed.

Lemma stream_caps_witness : all_holders (sv_sessions ex_sv2) <= max_streams ex_lim.
Proof.
  apply (stream_caps ex_lim ex_sv2); [done | done |]. apply ex_sv_accept_reach, ex_sv_accept_reach, ex_sv1_reach.
Defined.

(** What a Connect gets. In every reachable state, when the loop of a session takes a new
    stream from its queue: a payload that is no address is closed without a reason; a
    stream that finds the session's cap or the server's cap reached is closed with
    the reason STREAM_LIMIT and costs no permit; every other one takes one permit of
    each, and once its ConnectAck fits into the control queue it is registered under
    its id and has a relay of its own that goes for the very address it named. *)
Theorem stream_admission (lim : StreamLimits) (sv : Server) (k : nat) (s : Session) (now : Z) (ns : NewStream) (ch : Chan NewStream)
    (Hm : 0 <= max_streams lim) (Hp : 0 <= per_mux lim) (Hr : server_mux_reach lim sv)
    (Hk : sv_sessions sv !! k = Some s) (Ha : s_accept s = AcWait)
    (Hq : poll_recv (new_stream_ch (s_mux s)) = Msg ns ch) (Hb : bytes_ok (new_payload ns)) :
  let m := set_new_stream (s_mux s) ch in
  exists r, TargetAddr_decode (new_payload ns) = Some r /\
    match r with
    | Err _ => accept_step now (sv_free sv) s = Some (sv_free sv, set_accept s m (AcClose (new_stream_id ns) []))
    | Ok (t, _) =>
        if bool_decide (holders s = per_mux lim \/ all_holders (sv_sessions sv) = max_streams lim) then
          accept_step now (sv_free sv) s
          = Some (sv_free sv, set_accept s m (AcClose (new_stream_id ns) [CLOSE_REASON_STREAM_LIMIT]))
        else
          exists s1, accept_step now (sv_free sv) s = Some (sv_free sv - 1, s1) /\
            s_free s1 = s_free s - 1 /\ s_accept s1 = AcAck (new_stream_id ns) t /\ s_mux s1 = m /\ s_tasks s1 = s_tasks s /\
            forall c, try_send (ctrl_ch m) {| out_stream_id := new_stream_id ns; out_command := ConnectAck; out_payload := [0] |} = Sent c ->
              exists s2 task, accept_step now (sv_free sv - 1) s1 = Some (sv_free sv - 1, s2) /\ s_accept s2 = AcWait /\
                s_tasks s2 = <[s_next s := task]> (s_tasks s) /\
                t_pc task = (match t with TIp a => PDial now a | TDomain _ _ => PResolve end) /\
                wh_stream_id (t_write task) = new_stream_id ns /\ ctrl_ch (s_mux s2) = c /\
                streams (s_mux s2) !! new_stream_id ns
                = Some {| entry_cell := wh_cell (t_write task); got_data := false; domain := false |}
    end.
Proof.
  intros m. destruct (server_mux_reach_ok lim sv Hm Hp Hr) as [H1 H2 H3].
  pose proof (Forall_lookup_1 _ _ _ _ H3 Hk) as (Hs & H0 & _ & _).
  destruct (TargetAddr_decode_total (new_payload ns) Hb) as [r Er]. exists r. split; [done |].
  assert (Hacc : accept_step now (sv_free sv) s = accept_stream (sv_free sv) (set_mux s m) ns) by (unfold accept_step; by rewrite Ha, Hq).
  rewrite Hacc. unfold accept_stream. rewrite Er. cbn [mbind option_bind].
  destruct r as [[t n] | e]; [| done]. cbn [s_free set_mux set_accept].
  destruct (Z.leb_spec (s_free s) 0); [rewrite bool_decide_eq_true_2 by (left; lia); done |].
  destruct (Z.leb_spec (sv_free sv) 0); [rewrite bool_decide_eq_true_2 by (right; lia); done |].
  rewrite bool_decide_eq_false_2 by lia. eexists. split; [done |]. split_and!; try done. intros c Hc.
  unfold accept_step. cbn [s_accept s_mux set_mux set_accept]. unfold send_frame, ctrl_send. rewrite Hc.
  unfold spawn_relay, register_stream. cbn [MuxStream_split ms_has_rx mbind option_bind].
  eexists _, _. split; [reflexivity |]. cbn [s_accept s_tasks s_mux]. split_and!; try done.
  all: unfold insert_stream, remove_stream; cbn [set_streams streams ctrl_ch]; try apply lookup_insert_eq.
  by case_match.
Qed.

Lemma stream_admission_witness :
  exists s, sv_sessions ex_sv1 !! 0%nat = Some s /\
    exists r, TargetAddr_decode (new_payload ex_ns) = Some r.
Proof.
  exists (set_mux ex_session ex_connected). split; [reflexivity |].
  destruct (stream_admission ex_lim ex_sv1 0 (set_mux ex_session ex_connected) 7 ex_ns
    (with_queue (new_stream_ch ex_connected) [])) as (r & Hr & _).
  - done.
  - done.
  - apply ex_sv1_reach.
  - reflexivity.
  - reflexivity.
  - vm_compute. reflexivity.
  - repeat constructor; unfold is_byte; lia.
  - exists r. exact Hr.
Defined.

(** A relay keeps its promises to the client. Whatever the target, the timers, the
    queues and the other streams do: what reached the target is a prefix of what
    came from the stream; the frames the relay queues are Data pieces that carry, in
    order, a prefix of what the target sent, and at most one Close, which is the
    last of them and carries the reason of the relay's end; and a relay that
    failed before its target answered queues no Data at all. *)
Theorem relay_stream_order (sid : Z) (t : Task) (Hr : task_reach sid t) :
  t_given t `prefix_of` t_got t /\
  exists fs close, t_log t = fs ++ close /\ Forall (sends_data sid) fs /\
    concat (map out_payload fs) `prefix_of` t_taken t /\
    (close = [] \/ exists r, t_pc t = PEnded r /\ close = [close_frame sid (close_payload r)]) /\
    match t_pc t with
    | PClose r | PEnded r => early r = true -> fs = []
    | PPump _ _ (MRead _) => concat (map out_payload fs) = t_taken t
    | PPump _ _ _ => True
    | _ => fs = []
    end.
Proof.
  destruct (task_reach_inv sid t Hr) as (_ & Hg & Hpc). split; [done |].
  destruct (t_pc t) as [| since s | started a b | r | r].
  1, 2: destruct Hpc as (_ & Hl & _); exists [], []; rewrite Hl;
    (split; [done |]; split; [constructor |]; split; [apply prefix_nil |]; split; [by left | done]).
  - destruct Hpc as (_ & _ & Hb). exists (t_log t), []. rewrite app_nil_r. destruct b as [since | d st].
    + destruct Hb as [Hf Hl]. split_and!; try done; [by rewrite Hl | by left].
    + destruct Hb as (_ & before & Ht & Hf & Hl). split_and!; try done; [| by left]. rewrite Hl, Ht. apply prefix_app.
      exists (zdrop (sent_upto st) d). by rewrite ztake_zdrop.
  - destruct Hpc as (Hf & Hp & He). exists (t_log t), []. rewrite app_nil_r. split_and!; try done. by left.
  - destruct Hpc as (fs & [Hl | Hl] & Hf & Hp & He).
    + exists fs, []. rewrite app_nil_r. split_and!; try done. by left.
    + exists fs, [close_frame sid (close_payload r)]. split_and!; try done. right. by exists r.
Qed.

(** A relay to an address: connected, it read two bytes of the target. *)
Definition ex_task : Task :=
  task_start 5 {| rh_cell := 0; rh_recv_credit := None |} {| wh_stream_id := 1; wh_cell := 0; wh_closed := false |}
    (TIp (SockV4 0xC0000207 443)).

Definition ex_task_run : Task :=
  (pump_step 8 (new_server ex_caps) (pump_step 7 (new_server ex_caps) ex_task (TkDialled (Ok tt))).2 (TkRead [65; 66])).2.

Lemma relay_stream_order_witness : t_given ex_task_run `prefix_of` t_got ex_task_run.
Proof.
  apply (relay_stream_order 1 ex_task_run). apply TaskStep, TaskStep.
  apply (TaskStart 1 5 {| rh_cell := 0; rh_recv_credit := None |} 0 (TIp (SockV4 0xC0000207 443))).
Defined.


Definition ex_client_mux : Multiplexer := (register_stream (new_client_tracked (RelayHealth_new 0) ex_caps) 1).1.

