(* ===== verification/AcceptLoop.v ===== *)
(** * The accept loop (xr-proto/src/accept.rs)

    The loop that every listener of the system runs on: which errors of [accept] it
    survives, and when it gives up. *)

From S2P Require Import Prelude.

(** The error numbers the source names, and any other. *)
Inductive Errno :=
| EMFILE | ENFILE | ENOBUFS | ENOMEM | ECONNABORTED | ECONNRESET | EINTR | EAGAIN | EPERM | EPROTO
| ETIMEDOUT | ENETDOWN | ENETUNREACH | EHOSTUNREACH
| EOther (code : Z).

(** [None] is an error without a number of the system. *)
Definition is_transient (e : option Errno) : bool :=
  match e with
  | Some (EOther _) | None => false
  | Some _ => true
  end.

Definition MAX_STREAK : Z := 100.
Definition RETRY_PAUSE : Z := 100.

(** What one call of [accept] gives: a connection, the request to stop, an error. *)
Inductive Accepted (C : Type) := AConn (c : C) | AStop | AErr (e : option Errno).
Arguments AConn {C} _.
Arguments AStop {C}.
Arguments AErr {C} _.

(** What the loop does next: it goes on with this streak after handing over a
    connection or after a pause, or it returns. *)
Inductive LoopNext (C : Type) :=
| LHandle (c : C) (streak : Z)
| LPause (ms streak : Z)
| LReturn (r : result unit (option Errno)).
Arguments LHandle {C} _ _.
Arguments LPause {C} _ _.
Arguments LReturn {C} _.

Section accept_loop.
Context {C : Type}.

(** One turn; the streak is a [u32]. *)
Definition accept_turn (streak : Z) (a : Accepted C) : LoopNext C :=
  match a with
  | AConn c => LHandle c 0
  | AStop => LReturn (Ok tt)
  | AErr e =>
      if is_transient e then
        let streak := u32 (streak + 1) in
        if MAX_STREAK <=? streak then LReturn (Err e) else LPause RETRY_PAUSE streak
      else LReturn (Err e)
  end.

(** The loop over the outcomes of [accept]: the connections handed over, how long it
    paused, what it returned and the outcomes it did not ask for. *)
Fixpoint accept_loop (streak : Z) (l : list (Accepted C)) : list C * Z * option (result unit (option Errno)) * list (Accepted C) :=
  match l with
  | [] => ([], 0, None, [])
  | a :: l =>
      match accept_turn streak a with
      | LHandle c streak => let '(cs, p, r, rest) := accept_loop streak l in (c :: cs, p, r, rest)
      | LPause ms streak => let '(cs, p, r, rest) := accept_loop streak l in (cs, ms + p, r, rest)
      | LReturn r => ([], 0, Some r, l)
      end
  end.

Definition conns (l : list (Accepted C)) : list C :=
  omap (fun a => match a with AConn c => Some c | _ => None end) l.

Definition errors (l : list (Accepted C)) : Z :=
  zlen (omap (fun a => match a with AErr e => Some e | _ => None end) l).

(** An outcome that alone does not end the loop. *)
Definition harmless (a : Accepted C) : bool :=
  match a with AConn _ => true | AStop => false | AErr e => is_transient e end.

(** The errors at the end of a list, after its last connection. *)
Definition tail_errors (n : Z) (l : list (Accepted C)) : Z :=
  foldl (fun k a => match a with AErr _ => k + 1 | _ => 0 end) n l.

Lemma tail_errors_app n l1 l2 : tail_errors n (l1 ++ l2) = tail_errors (tail_errors n l1) l2.
Proof. apply foldl_app. Qed.

(** Never a hundred errors in a row, counting [n] before the list. *)
Definition no_streak (n : Z) (l : list (Accepted C)) : Prop :=
  forall l1 l2, l = l1 ++ l2 -> l1 <> [] -> tail_errors n l1 < MAX_STREAK.

Lemma tail_errors_nonneg n l : 0 <= n -> 0 <= tail_errors n l.
Proof. revert n. induction l as [| [c | | e] l IH]; intros n Hn; cbn; [done | apply IH; lia ..]. Qed.

(** Without such a row the loop goes on to the end. *)
Lemma accept_loop_survives n l :
  0 <= n < MAX_STREAK -> forallb harmless l = true -> no_streak n l ->
  accept_loop n l = (conns l, RETRY_PAUSE * errors l, None, []).
Proof.
  revert n. induction l as [| a l IH]; intros n Hn Hh Hs; [done |].
  cbn [forallb] in Hh. apply andb_true_iff in Hh as [Ha Hl].
  assert (Hrest : no_streak (tail_errors n [a]) l).
  { intros l1 l2 -> Hne. rewrite <- tail_errors_app. apply (Hs _ l2); [done | by intros [=]]. }
  pose proof (Hs [a] l eq_refl ltac:(done)) as H1. destruct a as [c | | e]; [| done |]; cbn in H1.
  - cbn [accept_loop accept_turn]. rewrite (IH 0); [| unfold MAX_STREAK; lia | done | done]. done.
  - cbn [accept_loop accept_turn]. cbn [harmless] in Ha. rewrite Ha.
    assert (u32 (n + 1) = n + 1) as -> by (unfold u32, MAX_STREAK in *; apply Z.mod_small; lia).
    destruct (Z.leb_spec MAX_STREAK (n + 1)); [lia |]. rewrite (IH (n + 1)); [| lia | done | done].
    unfold errors. cbn [omap list_omap]. rewrite zlen_cons. cbn [conns omap list_omap]. f_equal. f_equal. f_equal. lia.
Qed.

Lemma accept_loop_app n l1 l2 :
  forall cs p, accept_loop n l1 = (cs, p, None, []) ->
  exists k, accept_loop n (l1 ++ l2) = (let '(cs2, p2, r, rest) := accept_loop k l2 in (cs ++ cs2, p + p2, r, rest)) /\
    (0 <= n < MAX_STREAK -> forallb harmless l1 = true -> k = tail_errors n l1).
Proof.
  revert n. induction l1 as [| a l1 IH]; intros n cs p; cbn [accept_loop app].
  - intros [= <- <-]. exists n. split; [by destruct (accept_loop n l2) as [[[? ?] ?] ?] | done].
  - destruct (accept_turn n a) as [c k | ms k | r] eqn:Et; [| | done].
    + destruct (accept_loop k l1) as [[[cs1 p1] r1] rest1] eqn:E. intros [= <- <- -> ->].
      destruct (IH k cs1 p1 E) as (k' & -> & Hk). exists k'. split; [by destruct (accept_loop k' l2) as [[[? ?] ?] ?] |].
      intros Hn [_ Hh]%andb_true_iff. destruct a as [c' | | e]; cbn in Et; [injection Et as <- <- | done | repeat case_match; done].
      apply Hk; [unfold MAX_STREAK; lia | done].
    + destruct (accept_loop k l1) as [[[cs1 p1] r1] rest1] eqn:E. intros [= <- <- -> ->].
      destruct (IH k cs1 p1 E) as (k' & -> & Hk). exists k'. split.
      { destruct (accept_loop k' l2) as [[[? ?] ?] ?]. f_equal. f_equal. f_equal. lia. }
      intros Hn [_ Hh]%andb_true_iff. destruct a as [c' | | e]; cbn in Et; [done | done |].
      destruct (is_transient e); [| done]. assert (u32 (n + 1) = n + 1) as Hu by (unfold u32, MAX_STREAK in *; apply Z.mod_small; lia).
      rewrite Hu in Et. destruct (Z.leb_spec MAX_STREAK (n + 1)); [done |]. injection Et as <- <-. apply Hk; [lia | done].
Qed.

End accept_loop.

(** ** Claims *)

(** A listener survives what passes by itself. As long as no error outside the list of
    passing ones and no hundred errors in a row come, every accepted connection is
    handed over, in order, and each error costs one pause; the request to stop ends
    the loop without an error, an error outside the list ends it at once, and so
    does the hundredth error in a row; what came before has been handed over. *)
Theorem listener_survives (C : Type) (l : list (Accepted C))
    (Hh : forallb harmless l = true) (Hs : no_streak 0 l) :
  accept_loop 0 l = (conns l, RETRY_PAUSE * errors l, None, []) /\
  (forall rest, accept_loop 0 (l ++ AStop :: rest) = (conns l, RETRY_PAUSE * errors l, Some (Ok tt), rest)) /\
  (forall e rest, is_transient e = false ->
     accept_loop 0 (l ++ AErr e :: rest) = (conns l, RETRY_PAUSE * errors l, Some (Err e), rest)) /\
  (forall e rest, tail_errors 0 l = MAX_STREAK - 1 ->
     accept_loop 0 (l ++ AErr e :: rest) = (conns l, RETRY_PAUSE * errors l, Some (Err e), rest)).
Proof.
  assert (H0 : 0 <= 0 < MAX_STREAK) by (unfold MAX_STREAK; lia).
  assert (Hl := accept_loop_survives 0 l H0 Hh Hs). split; [done |].
  split_and!.
  - intros rest. destruct (accept_loop_app 0 l (AStop :: rest) _ _ Hl) as (k & -> & _).
    cbn [accept_loop accept_turn]. by rewrite app_nil_r, Z.add_0_r.
  - intros e rest He. destruct (accept_loop_app 0 l (AErr e :: rest) _ _ Hl) as (k & -> & _).
    cbn [accept_loop accept_turn]. by rewrite He, app_nil_r, Z.add_0_r.
  - intros e rest Ht. destruct (accept_loop_app 0 l (AErr e :: rest) _ _ Hl) as (k & -> & Hk).
    rewrite (Hk H0 Hh), Ht. cbn [accept_loop accept_turn].
    change (MAX_STREAK <=? u32 (MAX_STREAK - 1 + 1)) with true.
    destruct (is_transient e); by rewrite app_nil_r, Z.add_0_r.
Qed.

Lemma listener_survives_witness :
  accept_loop 0 [AErr (Some EMFILE); AConn 7%nat; AErr (Some EINTR); AConn 8%nat] = ([7%nat; 8%nat], 200, None, []).
Proof.
  apply (listener_survives nat [AErr (Some EMFILE); AConn 7%nat; AErr (Some EINTR); AConn 8%nat]).
  - reflexivity.
  - intros l1 l2 E Hne.
    destruct l1 as [| x1 l1]; [done |]. injection E as <- E.
    destruct l1 as [| x2 l1]; [by_compute |]. injection E as <- E.
    destruct l1 as [| x3 l1]; [by_compute |]. injection E as <- E.
    destruct l1 as [| x4 l1]; [by_compute |]. injection E as <- E.
    destruct l1; [by_compute | done].
Defined.
