(* ===== verification/Packet.v ===== *)
(** * IP packets of the VPN engine (the packet helpers of xr-core/src/engine.rs)

    Header parsers, checksums, the interception of DNS queries and the two
    rewrites of the packet NAT. Writing or reading past the end of a packet is a
    panic, [None]. *)

From S2P Require Import Prelude Text Net Protocol FakeDns.

(** [p[i] = v], and writes at consecutive indices ([copy_from_slice] among them). *)
Definition set_byte (p : bytes) (i v : Z) : option bytes :=
  if decide (0 <= i < zlen p) then Some (<[Z.to_nat i := v]> p) else None.

Fixpoint set_bytes (p : bytes) (i : Z) (vs : bytes) : option bytes :=
  match vs with
  | [] => Some p
  | v :: vs => p ← set_byte p i v; set_bytes p (i + 1) vs
  end.

(** [Ipv4Addr::new(p[i], .., p[i + 3])] and [u16::from_be_bytes([p[i], p[i + 1]])]. *)
Definition addr_at (p : bytes) (i : Z) : option Z :=
  a ← index p i; b ← index p (i + 1); c ← index p (i + 2); d ← index p (i + 3); Some (from_be32 a b c d).

Definition port_at (p : bytes) (i : Z) : option Z :=
  a ← index p i; b ← index p (i + 1); Some (from_be16 a b).

(** ** Checksums *)

(** [while sum >> 16 != 0]: a [u32] needs two turns. *)
Fixpoint fold_carries (fuel : nat) (sum : Z) : Z :=
  match fuel with
  | O => sum
  | S fuel =>
      if Z.shiftr sum 16 =? 0 then sum
      else fold_carries fuel (u32 (Z.land sum 0xFFFF + Z.shiftr sum 16))
  end.

Definition complement16 (sum : Z) : Z := u16 (Z.lnot (u16 (fold_carries 3 sum))).

(** The loop over the words, from index [i], leaving out the one at [skip]; an
    odd last byte is the high half of a word. *)
Fixpoint sum_words (skip : option Z) (i : Z) (l : bytes) (sum : Z) : Z :=
  let add w := if bool_decide (skip = Some i) then sum else u32 (sum + w) in
  match l with
  | [] => sum
  | [a] => add (from_be16 a 0)
  | a :: b :: l' => sum_words skip (i + 2) l' (add (from_be16 a b))
  end.

Definition ipv4_checksum (h : bytes) : Z := complement16 (sum_words (Some 10) 0 h 0).

Definition tcp_checksum_update (pkt : bytes) (ihl src_ip dst_ip : Z) : option bytes :=
  tcp_len ← usub (zlen pkt) ihl;
  pkt ← set_byte pkt (ihl + 16) 0;
  pkt ← set_byte pkt (ihl + 17) 0;
  let sum := sum_words None 0 (v4_octets src_ip) 0 in
  let sum := sum_words None 0 (v4_octets dst_ip) sum in
  let sum := u32 (sum + 6) in
  let sum := u32 (sum + u32 tcp_len) in
  tcp ← slice pkt ihl (zlen pkt);
  let cksum := complement16 (sum_words None 0 tcp sum) in
  pkt ← set_byte pkt (ihl + 16) (u8 (Z.shiftr cksum 8));
  set_byte pkt (ihl + 17) (u8 cksum).

(** ** Headers *)

Definition ihl_of (b0 : Z) : Z := Z.land b0 0x0F * 4.

Definition parse_ipv4_header (p : bytes) : option (option (Z * Z * Z * Z)) :=
  if zlen p <? 20 then Some None else
  b0 ← index p 0;
  if negb (Z.shiftr b0 4 =? 4) then Some None else
  let ihl := ihl_of b0 in
  if (ihl <? 20) || (zlen p <? ihl) then Some None else
  src ← addr_at p 12; dst ← addr_at p 16; proto ← index p 9;
  Some (Some (src, dst, proto, ihl)).

Definition parse_udp_header (p : bytes) : option (option (Z * Z * Z)) :=
  if zlen p <? 8 then Some None else
  s ← port_at p 0; d ← port_at p 2; Some (Some (s, d, 8)).

Definition parse_tcp_ports (p : bytes) : option (option (Z * Z)) :=
  if zlen p <? 4 then Some None else
  s ← port_at p 0; d ← port_at p 2; Some (Some (s, d)).

Definition build_udp_response (src_ip dst_ip src_port dst_port : Z) (payload : bytes) : option bytes :=
  let total := 20 + 8 + zlen payload in
  let p := replicate (Z.to_nat total) 0 in
  p ← set_byte p 0 0x45; p ← set_bytes p 2 (be16 (u16 total));
  p ← set_byte p 8 64; p ← set_byte p 9 17;
  p ← set_bytes p 12 (v4_octets src_ip); p ← set_bytes p 16 (v4_octets dst_ip);
  h ← slice p 0 20;
  p ← set_bytes p 10 (be16 (ipv4_checksum h));
  p ← set_bytes p 20 (be16 src_port); p ← set_bytes p 22 (be16 dst_port);
  p ← set_bytes p 24 (be16 (u16 (8 + zlen payload)));
  set_bytes p 28 payload.

(** The resolver behind port 53 and the packet that carries its answer. *)
Definition try_handle_dns {UC : UnicodeCase} (now : Z) (f : FakeDns) (packet : bytes) :
    option (FakeDns * option bytes) :=
  hdr ← parse_ipv4_header packet;
  match hdr with
  | None => Some (f, None)
  | Some (src_ip, dst_ip, protocol, ihl) =>
      if negb (protocol =? 17) then Some (f, None) else
      udp ← slice packet ihl (zlen packet);
      uh ← parse_udp_header udp;
      match uh with
      | None => Some (f, None)
      | Some (src_port, dst_port, data_offset) =>
          if negb (dst_port =? 53) then Some (f, None) else
          query ← slice udp data_offset (zlen udp);
          '(f, r) ← handle_query now f query;
          match r with
          | None => Some (f, None)
          | Some (dns_response, _) =>
              p ← build_udp_response dst_ip src_ip dst_port src_port dns_response;
              Some (f, Some p)
          end
      end
  end.

(** ** The rewrites of the NAT *)

Definition SMOL_IP : Z := from_be32 172 16 0 1.

Definition set_ip_checksum (pkt : bytes) (ihl : Z) : option bytes :=
  pkt ← set_bytes pkt 10 [0; 0];
  h ← slice pkt 0 ihl;
  set_bytes pkt 10 (be16 (ipv4_checksum h)).

(** A packet of the device, on its way to the socket that listens on [eph_port]. *)
Definition rewrite_inbound (pkt : bytes) (ihl eph_port : Z) : option bytes :=
  pkt ← set_bytes pkt (ihl + 2) [u8 (Z.shiftr eph_port 8); u8 eph_port];
  src_ip_inb ← addr_at pkt 12;
  pkt ← set_bytes pkt 16 (v4_octets SMOL_IP);
  pkt ← set_ip_checksum pkt ihl;
  tcp_checksum_update pkt ihl src_ip_inb SMOL_IP.

(** A packet of a socket, back under the address the device connected to. *)
Definition rewrite_outbound (pkt : bytes) (ihl orig_dst_ip orig_port : Z) : option bytes :=
  pkt ← set_bytes pkt 12 (v4_octets orig_dst_ip);
  pkt ← set_bytes pkt ihl [u8 (Z.shiftr orig_port 8); u8 orig_port];
  pkt ← set_ip_checksum pkt ihl;
  dst_ip ← addr_at pkt 16;
  tcp_checksum_update pkt ihl orig_dst_ip dst_ip.

(** ** The Internet checksum

    The definition of RFC 1071: the one's complement sum of the 16-bit words. *)

Fixpoint words (l : bytes) : list Z :=
  match l with
  | [] => []
  | [a] => [from_be16 a 0]
  | a :: b :: l' => from_be16 a b :: words l'
  end.

Definition oc_add (a b : Z) : Z := (a + b) mod 2 ^ 16 + (a + b) / 2 ^ 16.
Definition oc_sum (ws : list Z) : Z := foldl oc_add 0 ws.

(** What a receiver checks: the sum over all words, the checksum included. *)
Definition checksum_ok (l : bytes) : Prop := oc_sum (words l) = 0xFFFF.

Definition pseudo_header (src dst len : Z) : bytes := v4_octets src ++ v4_octets dst ++ [0; 6] ++ be16 len.

Section pairs.
Context (P : bytes -> Prop) (P0 : P []) (P1 : forall a, P [a]) (P2 : forall a b l, P l -> P (a :: b :: l)).

Fixpoint pairs_ind (l : bytes) : P l :=
  match l with
  | [] => P0
  | [a] => P1 a
  | a :: b :: l' => P2 a b l' (pairs_ind l')
  end.
End pairs.

Definition zsum (ws : list Z) : Z := foldr Z.add 0 ws.

Lemma zsum_cons w ws : zsum (w :: ws) = w + zsum ws.
Proof. done. Qed.

Lemma words_range l : bytes_ok l -> Forall (fun w => 0 <= w < 2 ^ 16) (words l).
Proof.
  induction l as [| a | a b l IH] using pairs_ind; intros Hl; simpl; [constructor | |].
  - apply Forall_cons in Hl as [Ha _]. repeat constructor; by apply (from_be16_range a 0).
  - apply Forall_cons in Hl as [Ha [Hb Hl]%Forall_cons]. constructor; [by apply from_be16_range | by apply IH].
Qed.

Lemma zsum_nonneg ws : Forall (fun w => 0 <= w < 2 ^ 16) ws -> 0 <= zsum ws <= 65535 * zlen ws.
Proof. induction 1 as [| w ws Hw _ IH]; [done |]. rewrite zlen_cons. simpl. lia. Qed.

Lemma words_length l : 2 * zlen (words l) <= zlen l + 1.
Proof. induction l as [| a | a b l IH] using pairs_ind; simpl words; autorewrite with zlen; lia. Qed.

Lemma wsum_bound l : bytes_ok l -> 0 <= zsum (words l) /\ 2 * zsum (words l) <= 65535 * (zlen l + 1).
Proof. intros Hl%words_range%zsum_nonneg. pose proof (words_length l). lia. Qed.

Lemma words_app l k : Nat.even (length l) = true -> words (l ++ k) = words l ++ words k.
Proof. induction l as [| a | a b l IH] using pairs_ind; simpl; [done | done |]. intros Hl. f_equal. by apply IH. Qed.

Lemma zsum_app ws vs : zsum (ws ++ vs) = zsum ws + zsum vs.
Proof. unfold zsum. induction ws as [| w ws IH]; simpl; [done |]. rewrite IH. lia. Qed.

Lemma wsum_app l k : Nat.even (length l) = true -> zsum (words (l ++ k)) = zsum (words l) + zsum (words k).
Proof. intros Hl. by rewrite words_app, zsum_app. Qed.

Lemma u32_id z : 0 <= z < 2 ^ 32 -> u32 z = z.
Proof. apply Z.mod_small. Qed.

Lemma wsum_nonneg l : bytes_ok l -> 0 <= zsum (words l).
Proof. by intros [? _]%wsum_bound. Qed.

(** Below the width of the accumulator the loop is the plain sum. *)
Lemma sum_words_plain skip l : forall i sum,
  (forall s, skip = Some s -> s < i) -> bytes_ok l -> 0 <= sum -> sum + zsum (words l) < 2 ^ 32 ->
  sum_words skip i l sum = sum + zsum (words l).
Proof.
  induction l as [| a | a b l IH] using pairs_ind; intros i sum Hs Hl H0 Hmax; cbn [words sum_words] in *;
    rewrite ?zsum_cons in *; [change (zsum []) with 0; lia | |].
  - apply Forall_cons in Hl as [Ha _]. unfold is_byte in Ha. change (zsum []) with 0 in *.
    rewrite bool_decide_eq_false_2 by (intros E; specialize (Hs _ E); lia).
    unfold from_be16 in *. rewrite u32_id; lia.
  - apply Forall_cons in Hl as [Ha [Hb Hl]%Forall_cons]. pose proof (wsum_nonneg l Hl).
    pose proof (from_be16_range _ _ Ha Hb).
    rewrite bool_decide_eq_false_2 by (intros E; specialize (Hs _ E); lia).
    rewrite u32_id, IH by (try lia; try done; intros s E; specialize (Hs _ E); lia). lia.
Qed.

Lemma sum_words_skip l a b k : forall i sum,
  Nat.even (length l) = true -> bytes_ok l -> bytes_ok k -> 0 <= sum ->
  sum + zsum (words (l ++ 0 :: 0 :: k)) < 2 ^ 32 ->
  sum_words (Some (i + zlen l)) i (l ++ a :: b :: k) sum = sum + zsum (words (l ++ 0 :: 0 :: k)).
Proof.
  induction l as [| c | c d l IH] using pairs_ind; intros i sum Hev Hl Hk H0; [| done |].
  - cbn [app]. change (zlen (@nil Z)) with 0. cbn [sum_words words]. rewrite zsum_cons. change (from_be16 0 0) with 0. intros Hmax.
    rewrite bool_decide_eq_true_2 by (f_equal; lia).
    rewrite sum_words_plain; [lia | intros s [= <-]; lia | done | lia | lia].
  - apply Forall_cons in Hl as [Hc [Hd Hl]%Forall_cons]. rewrite !zlen_cons. pose proof (zlen_nonneg l).
    pose proof (from_be16_range _ _ Hc Hd). cbn [app sum_words words]. rewrite zsum_cons. intros Hmax.
    assert (0 <= zsum (words (l ++ 0 :: 0 :: k))).
    { apply wsum_nonneg. rewrite bytes_ok_app. split; [done |]. by repeat constructor. }
    rewrite bool_decide_eq_false_2 by (intros [= E]; lia).
    replace (i + (1 + (1 + zlen l))) with (i + 2 + zlen l) by lia.
    rewrite u32_id, IH by (try lia; done). lia.
Qed.

(** One representative of each class modulo 65535, that of zero being 65535
    unless the sum is zero itself. *)
Definition norm (s : Z) : Z := if s =? 0 then 0 else (s - 1) mod 65535 + 1.

Lemma norm_small s : 0 <= s <= 65535 -> norm s = s.
Proof. unfold norm. case_cmp; [done |]. intros. rewrite Z.mod_small; lia. Qed.

Lemma norm_range s : 0 <= norm s <= 65535.
Proof. unfold norm. case_cmp; [done |]. pose proof (Z.mod_pos_bound (s - 1) 65535 ltac:(done)). lia. Qed.

Lemma norm_plus s q : 0 < s -> norm (s + q * 65535) = norm s \/ s + q * 65535 = 0.
Proof.
  unfold norm. intros Hs. destruct (Z.eqb_spec (s + q * 65535) 0); [by right | left].
  destruct (Z.eqb_spec s 0); [lia |].
  replace (s + q * 65535 - 1) with (s - 1 + q * 65535) by lia. by rewrite Z.mod_add.
Qed.

(** Adding the carries back keeps the class. *)
Lemma norm_carry s : 0 <= s -> norm (s mod 2 ^ 16 + s / 2 ^ 16) = norm s.
Proof.
  intros Hs. change (2 ^ 16) with 65536. set (q := s / 65536). set (r := s mod 65536).
  assert (E : s = q * 65536 + r) by (unfold q, r; divmod). assert (0 <= r < 65536 /\ 0 <= q) as [Hr Hq] by (unfold r, q; divmod).
  destruct (decide (s = 0)) as [-> | Hne].
  { unfold q, r. reflexivity. }
  destruct (norm_plus (r + q) q) as [E' | E']; [lia | | lia].
  rewrite <- E'. f_equal. lia.
Qed.

Lemma norm_add s t : 0 <= s -> 0 <= t -> norm (norm s + t) = norm (s + t).
Proof.
  intros Hs Ht. destruct (Z.eqb_spec s 0) as [-> | Hne]; [done |].
  assert (En : norm s = (s - 1) mod 65535 + 1) by (unfold norm; by destruct (Z.eqb_spec s 0)). rewrite En. clear En.
  set (r := (s - 1) mod 65535). set (q := (s - 1) / 65535).
  assert (E : s = q * 65535 + r + 1) by (unfold q, r; divmod).
  assert (0 <= r) by (apply Z.mod_pos_bound; done).
  destruct (norm_plus (r + 1 + t) q) as [E' | E']; [lia | | lia].
  rewrite <- E'. f_equal. lia.
Qed.

(** The complement of the class, added to the sum, makes a valid one. *)
Lemma norm_complement s : 0 <= s -> norm (s + (65535 - norm s)) = 65535.
Proof.
  intros Hs. rewrite <- norm_add by (pose proof (norm_range s); lia).
  replace (norm s + (65535 - norm s)) with 65535 by lia. reflexivity.
Qed.

Lemma oc_sum_norm ws : Forall (fun w => 0 <= w < 2 ^ 16) ws -> oc_sum ws = norm (zsum ws).
Proof.
  unfold oc_sum. assert (H : forall acc, 0 <= acc <= 65535 -> Forall (fun w => 0 <= w < 2 ^ 16) ws ->
    foldl oc_add acc ws = norm (acc + zsum ws)); [| intros Hw; by apply (H 0)].
  induction ws as [| w ws IH]; intros acc Ha Hw.
  - simpl. rewrite norm_small by lia. lia.
  - apply Forall_cons in Hw as [Hw Hws]. pose proof (zsum_nonneg _ Hws). change (2 ^ 16) with 65536 in *.
    assert (E : oc_add acc w = norm (acc + w)).
    { unfold oc_add. change (2 ^ 16) with 65536. rewrite <- (norm_carry (acc + w)) by lia. change (2 ^ 16) with 65536.
      symmetry. apply norm_small. divmod. }
    cbn [foldl]. rewrite IH; [| rewrite E; apply norm_range | done].
    rewrite E, norm_add by lia. f_equal. simpl. lia.
Qed.

Lemma fold_carries_norm sum : 0 <= sum < 2 ^ 32 -> fold_carries 3 sum = norm sum.
Proof.
  assert (step : forall n s, 0 <= s < 2 ^ 32 ->
    fold_carries (S n) s = if s <? 65536 then s else fold_carries n (s mod 2 ^ 16 + s / 2 ^ 16)).
  { intros n s Hs. cbn [fold_carries]. rewrite Z.shiftr_div_pow2 by done. change 0xFFFF with (Z.ones 16).
    rewrite Z.land_ones by done. change (2 ^ 16) with 65536. change (2 ^ 32) with 4294967296 in Hs.
    destruct (Z.ltb_spec s 65536).
    - by rewrite Z.div_small by lia.
    - destruct (Z.eqb_spec (s / 65536) 0); [divmod |]. rewrite u32_id; [done |]. change (2 ^ 32) with 4294967296. divmod. }
  intros Hs. change (2 ^ 32) with 4294967296 in *. rewrite step by done.
  destruct (Z.ltb_spec sum 65536); [symmetry; apply norm_small; lia |].
  rewrite <- (norm_carry sum) by lia. set (t := sum mod 2 ^ 16 + sum / 2 ^ 16).
  assert (Ht : 0 <= t < 131071) by (unfold t; change (2 ^ 16) with 65536; divmod). rewrite step by lia.
  destruct (Z.ltb_spec t 65536); [symmetry; apply norm_small; lia |].
  rewrite <- (norm_carry t) by lia. set (v := t mod 2 ^ 16 + t / 2 ^ 16).
  assert (Hv : 0 <= v < 65536) by (unfold v; change (2 ^ 16) with 65536; divmod). rewrite step by lia.
  destruct (Z.ltb_spec v 65536); [symmetry; apply norm_small; lia | lia].
Qed.

Lemma complement16_norm sum : 0 <= sum < 2 ^ 32 -> complement16 sum = 65535 - norm sum.
Proof.
  intros Hs. unfold complement16. rewrite fold_carries_norm by done. pose proof (norm_range sum).
  unfold u16. change (2 ^ 16) with 65536. rewrite (Z.mod_small (norm sum)) by lia.
  rewrite <- (Z.mod_unique (Z.lnot (norm sum)) 65536 (-1) (65535 - norm sum)); [done | lia |].
  unfold Z.lnot. lia.
Qed.

(** ** Reading and writing packets in parts *)

Lemma set_byte_0 x l v : set_byte (x :: l) 0 v = Some (v :: l).
Proof. unfold set_byte. rewrite decide_True; [done |]. rewrite zlen_cons. pose proof (zlen_nonneg l). lia. Qed.

Lemma set_byte_cons x l i v : 0 < i -> set_byte (x :: l) i v = (x ::.) <$> set_byte l (i - 1) v.
Proof.
  intros Hi. unfold set_byte. rewrite zlen_cons. destruct (decide (0 <= i < 1 + zlen l)), (decide (0 <= i - 1 < zlen l)); try lia; [| done].
  cbn. replace (Z.to_nat i) with (S (Z.to_nat (i - 1))) by lia. done.
Qed.

Lemma set_byte_app_r l k i j v : i = zlen l + j -> 0 <= j -> set_byte (l ++ k) i v = (l ++.) <$> set_byte k j v.
Proof.
  intros -> Hj. induction l as [| x l IH].
  { rewrite app_nil_l, zlen_nil, Z.add_0_l. by destruct (set_byte k j v). }
  rewrite zlen_cons, <- app_comm_cons. pose proof (zlen_nonneg l). rewrite set_byte_cons by lia.
  replace (1 + zlen l + j - 1) with (zlen l + j) by lia. rewrite IH. by destruct (set_byte k j v).
Qed.

Lemma set_byte_mid l x k i v : i = zlen l -> set_byte (l ++ x :: k) i v = Some (l ++ v :: k).
Proof. intros ->. rewrite (set_byte_app_r l _ _ 0) by lia. by rewrite set_byte_0. Qed.

Lemma set_byte_out p i v : zlen p <= i -> set_byte p i v = None.
Proof. intros H. unfold set_byte. by rewrite decide_False by lia. Qed.

Lemma set_byte_bytes p i v : set_byte p i v = set_bytes p i [v].
Proof. cbn [set_bytes]. by destruct (set_byte p i v). Qed.

Lemma set_bytes_mid vs : forall l m k i, i = zlen l -> length m = length vs ->
  set_bytes (l ++ m ++ k) i vs = Some (l ++ vs ++ k).
Proof.
  induction vs as [| v vs IH]; intros l [| x m] k i Hi Hm; try done. cbn [set_bytes app].
  rewrite set_byte_mid by done. cbn [mbind option_bind].
  replace (l ++ v :: m ++ k) with ((l ++ [v]) ++ m ++ k) by by rewrite <- app_assoc.
  rewrite IH; [by rewrite <- app_assoc | rewrite zlen_app; change (zlen [v]) with 1; lia | by injection Hm].
Qed.

Lemma set_bytes_mid_end l m vs i : i = zlen l -> length m = length vs -> set_bytes (l ++ m) i vs = Some (l ++ vs).
Proof. intros Hi Hm. rewrite <- (app_nil_r m), set_bytes_mid by done. by rewrite app_nil_r. Qed.

Lemma index_shift {A} (l k : list A) i j : i = zlen l + j -> 0 <= j -> index (l ++ k) i = index k j.
Proof. intros -> Hj. rewrite index_app_r by lia. f_equal. lia. Qed.

Lemma addr_at_mid l a b c d k i : i = zlen l -> addr_at (l ++ [a; b; c; d] ++ k) i = Some (from_be32 a b c d).
Proof.
  intros ->. unfold addr_at.
  rewrite (index_shift l _ (zlen l) 0), (index_shift l _ (zlen l + 1) 1), (index_shift l _ (zlen l + 2) 2),
    (index_shift l _ (zlen l + 3) 3) by lia. done.
Qed.

Lemma port_at_mid l a b k i : i = zlen l -> port_at (l ++ [a; b] ++ k) i = Some (from_be16 a b).
Proof. intros ->. unfold port_at. by rewrite (index_shift l _ (zlen l) 0), (index_shift l _ (zlen l + 1) 1) by lia. Qed.

(** ** The checksums are those of RFC 1071 *)

Lemma oc_words l : bytes_ok l -> oc_sum (words l) = norm (zsum (words l)).
Proof. intros Hl. by apply oc_sum_norm, words_range. Qed.

Lemma be16_words v k : 0 <= v < 2 ^ 16 -> words (be16 v ++ k) = v :: words k.
Proof. intros Hv. unfold be16. cbn [app words]. f_equal. by apply be16_roundtrip. Qed.

Lemma ipv4_checksum_norm h10 a b rest :
  length h10 = 10%nat -> bytes_ok h10 -> bytes_ok rest -> zlen rest <= 65525 ->
  ipv4_checksum (h10 ++ [a; b] ++ rest) = 65535 - norm (zsum (words (h10 ++ [0; 0] ++ rest))).
Proof.
  intros Hh Hbh Hbr Hl. assert (H10 : zlen h10 = 10) by (unfold zlen; lia). pose proof (zlen_nonneg rest).
  unfold ipv4_checksum. change (Some 10) with (Some (0 + 10)). rewrite <- H10.
  assert (Hb : bytes_ok (h10 ++ [0; 0] ++ rest)).
  { rewrite !bytes_ok_app. split_and!; [done | by repeat constructor | done]. }
  apply wsum_bound in Hb. rewrite !zlen_app, H10 in Hb. change (zlen [0; 0]) with 2 in Hb.
  change ([a; b] ++ rest) with (a :: b :: rest).
  cbn [app] in Hb |- *. change (2 ^ 32) with 4294967296 in *.
  rewrite (sum_words_skip h10 a b rest 0 0) by (rewrite ?Hh; change (2 ^ 32) with 4294967296; done || lia).
  rewrite Z.add_0_l. apply complement16_norm. change (2 ^ 32) with 4294967296. lia.
Qed.

(** The same after the checksum is written: the header is valid. *)
Lemma header_checksum_ok h10 a b rest :
  length h10 = 10%nat -> bytes_ok h10 -> bytes_ok rest -> zlen rest <= 65525 ->
  checksum_ok (h10 ++ be16 (ipv4_checksum (h10 ++ [a; b] ++ rest)) ++ rest).
Proof.
  intros Hh Hbh Hbr Hl. unfold checksum_ok. rewrite (ipv4_checksum_norm h10 a b rest) by done.
  set (s := zsum (words (h10 ++ [0; 0] ++ rest))). pose proof (norm_range s).
  assert (Hev : Nat.even (length h10) = true) by by rewrite Hh.
  assert (Hs : s = zsum (words h10) + zsum (words rest)).
  { unfold s. rewrite wsum_app by done. f_equal. }
  pose proof (wsum_bound _ Hbh). pose proof (wsum_bound _ Hbr).
  rewrite oc_words. 2: { rewrite !bytes_ok_app. split_and!; [done | apply be16_bytes | done]. }
  rewrite wsum_app, be16_words, zsum_cons by (done || lia).
  replace (zsum (words h10) + (65535 - norm s + zsum (words rest))) with (s + (65535 - norm s)) by lia.
  apply norm_complement. lia.
Qed.

Lemma v4_octets_bytes a : bytes_ok (v4_octets a).
Proof. apply be32_bytes. Qed.

Lemma pseudo_sum src dst len : 0 <= len < 2 ^ 16 ->
  zsum (words (pseudo_header src dst len)) = zsum (words (v4_octets src)) + zsum (words (v4_octets dst)) + 6 + len.
Proof.
  intros Hl. unfold pseudo_header. rewrite !(wsum_app (v4_octets _)) by done.
  rewrite (wsum_app [0; 6]) by done. rewrite <- (app_nil_r (be16 len)), be16_words by done.
  rewrite zsum_cons. change (zsum (words [0; 6])) with 6. change (zsum (words [])) with 0. lia.
Qed.

(** The loops of [tcp_checksum_update] add up the words of the pseudo-header
    and of the segment. *)
Lemma segment_sum src dst tcp :
  bytes_ok tcp -> zlen tcp < 2 ^ 16 ->
  let s := zsum (words (pseudo_header src dst (zlen tcp) ++ tcp)) in
  0 <= s < 2 ^ 32 /\
  sum_words None 0 tcp
    (u32 (u32 (sum_words None 0 (v4_octets dst) (sum_words None 0 (v4_octets src) 0) + 6) + u32 (zlen tcp))) = s.
Proof.
  intros Hb Hl s. pose proof (zlen_nonneg tcp).
  assert (Hs : s = zsum (words (v4_octets src)) + zsum (words (v4_octets dst)) + 6 + zlen tcp + zsum (words tcp)).
  { unfold s. rewrite wsum_app, pseudo_sum by (done || lia). lia. }
  pose proof (wsum_bound _ (v4_octets_bytes src)) as H1. pose proof (wsum_bound _ (v4_octets_bytes dst)) as H2.
  pose proof (wsum_bound _ Hb) as H3. clearbody s.
  change (zlen (v4_octets src)) with 4 in H1. change (zlen (v4_octets dst)) with 4 in H2.
  change (2 ^ 16) with 65536 in *. assert (0 <= s < 2 ^ 32) as Hr by (change (2 ^ 32) with 4294967296; lia).
  split; [done |]. rewrite (sum_words_plain None (v4_octets src)) by (first [done | apply v4_octets_bytes | lia]).
  rewrite (sum_words_plain None (v4_octets dst)) by (first [done | apply v4_octets_bytes | lia]).
  rewrite (u32_id (zlen tcp)), (u32_id (_ + 6)), u32_id by lia.
  rewrite sum_words_plain by (done || lia). lia.
Qed.

(** What [tcp_checksum_update] leaves, for a segment of at least eighteen bytes
    after a header of any length. *)
Lemma tcp_checksum_update_spec h t16 a b rest src dst :
  length t16 = 16%nat -> bytes_ok t16 -> bytes_ok rest -> 18 + zlen rest < 2 ^ 16 ->
  exists ck, tcp_checksum_update (h ++ t16 ++ [a; b] ++ rest) (zlen h) src dst = Some (h ++ t16 ++ be16 ck ++ rest) /\
    0 <= ck < 2 ^ 16 /\
    checksum_ok (pseudo_header src dst (18 + zlen rest) ++ t16 ++ be16 ck ++ rest).
Proof.
  intros Ht Hbt Hbr Hl. assert (H16 : zlen t16 = 16) by (unfold zlen; lia). pose proof (zlen_nonneg rest).
  set (tcp := t16 ++ [0; 0] ++ rest).
  assert (Hbz : bytes_ok tcp) by (unfold tcp; rewrite !bytes_ok_app; split_and!; [done | by repeat constructor | done]).
  assert (Hlen : zlen tcp = 18 + zlen rest) by (unfold tcp; rewrite !zlen_app, H16; change (zlen [0; 0]) with 2; lia).
  rewrite <- Hlen in Hl. destruct (segment_sum src dst tcp Hbz Hl) as [Hr Hsum]. rewrite Hlen in Hl, Hr, Hsum.
  set (ph := pseudo_header src dst (18 + zlen rest)) in *.
  set (s := zsum (words (ph ++ tcp))) in *. pose proof (norm_range s).
  exists (65535 - norm s). change (2 ^ 16) with 65536 in *. split_and!; [| lia | lia |].
  - unfold tcp_checksum_update. rewrite !zlen_app, H16. change (zlen [a; b]) with 2.
    rewrite usub_some by lia. cbn [mbind option_bind].
    replace (zlen h + (16 + (2 + zlen rest)) - zlen h) with (18 + zlen rest) by lia.
    assert (Hw : forall x y u v, set_byte (h ++ t16 ++ [x; y] ++ rest) (zlen h + 16) u
      ≫= (fun p => set_byte p (zlen h + 17) v) = Some (h ++ t16 ++ [u; v] ++ rest)).
    { intros x y u v. replace (zlen h + 17) with (zlen h + 16 + 1) by lia.
      pose proof (set_bytes_mid [u; v] (h ++ t16) [x; y] rest (zlen h + 16) ltac:(rewrite zlen_app; lia) eq_refl) as E.
      rewrite <- !app_assoc in E. rewrite <- E. cbn [set_bytes]. destruct (set_byte _ _ _) as [p |]; [| done]. cbn [mbind option_bind].
      by destruct (set_byte p _ _). }
    pose proof (Hw a b 0 0) as E0. destruct (set_byte (h ++ t16 ++ [a; b] ++ rest) (zlen h + 16) 0); [| done].
    cbn [mbind option_bind] in E0 |- *. rewrite E0. cbn [mbind option_bind].
    rewrite slice_app_end by (rewrite ?zlen_app; reflexivity). cbn [mbind option_bind]. fold tcp. rewrite Hsum, complement16_norm by done.
    unfold tcp. rewrite Hw. unfold be16. by rewrite Z.shiftr_div_pow2 by done.
  - assert (Hbp : bytes_ok ph).
    { unfold ph, pseudo_header. rewrite !bytes_ok_app.
      split_and!; [apply v4_octets_bytes | apply v4_octets_bytes | by repeat constructor | apply be16_bytes]. }
    unfold checksum_ok. rewrite oc_words by (rewrite !bytes_ok_app; split_and!; [done | done | apply be16_bytes | done]).
    assert (Hte : Nat.even (length t16) = true) by by rewrite Ht.
    assert (Hs : s = zsum (words ph) + (zsum (words t16) + zsum (words rest))).
    { unfold s, tcp. by rewrite (wsum_app ph), (wsum_app t16). }
    rewrite (wsum_app ph), (wsum_app t16), be16_words, zsum_cons by (done || (change (2 ^ 16) with 65536; lia)).
    replace (zsum (words ph) + (zsum (words t16) + (65535 - norm s + zsum (words rest)))) with (s + (65535 - norm s)) by lia.
    apply norm_complement. lia.
Qed.

(** ** Packets in pieces *)

Lemma set_piece (ps : list bytes) n m vs i :
  ps !! n = Some m -> length m = length vs -> i = zlen (concat (take n ps)) ->
  set_bytes (concat ps) i vs = Some (concat (<[n := vs]> ps)).
Proof.
  intros Hn Hm Hi. assert (n < length ps)%nat by by apply lookup_lt_Some in Hn.
  rewrite insert_take_drop, concat_app by done. cbn [concat].
  rewrite <- (take_drop_middle ps n m) at 1 by done. rewrite concat_app. cbn [concat]. by apply set_bytes_mid.
Qed.

Lemma addr_piece (ps : list bytes) n a i :
  ps !! n = Some (v4_octets a) -> 0 <= a < 2 ^ 32 -> i = zlen (concat (take n ps)) -> addr_at (concat ps) i = Some a.
Proof.
  intros Hn Ha Hi. rewrite <- (take_drop_middle ps n _ Hn), concat_app. cbn [concat].
  unfold v4_octets, be32. rewrite addr_at_mid by done. f_equal. by apply be32_roundtrip.
Qed.

Lemma port_piece (ps : list bytes) n a i :
  ps !! n = Some (be16 a) -> 0 <= a < 2 ^ 16 -> i = zlen (concat (take n ps)) -> port_at (concat ps) i = Some a.
Proof.
  intros Hn Ha Hi. rewrite <- (take_drop_middle ps n _ Hn), concat_app. cbn [concat].
  unfold be16. rewrite port_at_mid by done. f_equal. by apply be16_roundtrip.
Qed.

Lemma slice_pieces (ps : list bytes) n i : i = zlen (concat (take n ps)) -> slice (concat ps) 0 i = Some (concat (take n ps)).
Proof.
  intros ->. rewrite <- (take_drop n ps) at 1. rewrite concat_app.
  rewrite <- (app_nil_l (_ ++ _)), slice_app; [done | done | by rewrite Z.add_0_l].
Qed.

(** A TCP packet by its fields: the first ten bytes of the header, its checksum,
    addresses and options; ports, the rest of the fixed TCP header up to the
    checksum, the checksum and what follows it. *)
Record TcpView := {
  tv_head : bytes;
  tv_ipck : Z;
  tv_src : Z;
  tv_dst : Z;
  tv_opts : bytes;
  tv_sport : Z;
  tv_dport : Z;
  tv_mid : bytes;
  tv_ck : Z;
  tv_rest : bytes
}.

Definition ip_pieces (v : TcpView) : list bytes :=
  [tv_head v; be16 (tv_ipck v); v4_octets (tv_src v); v4_octets (tv_dst v); tv_opts v].
Definition tcp_pieces (v : TcpView) : list bytes :=
  [be16 (tv_sport v); be16 (tv_dport v); tv_mid v; be16 (tv_ck v); tv_rest v].
Definition view_header (v : TcpView) : bytes := concat (ip_pieces v).
Definition view_segment (v : TcpView) : bytes := concat (tcp_pieces v).
Definition assemble (v : TcpView) : bytes := concat (ip_pieces v ++ tcp_pieces v).
Definition view_ihl (v : TcpView) : Z := 20 + zlen (tv_opts v).

Record view_ok (v : TcpView) : Prop := {
  vo_head : length (tv_head v) = 10%nat /\ bytes_ok (tv_head v);
  vo_mid : length (tv_mid v) = 12%nat /\ bytes_ok (tv_mid v);
  vo_opts : zlen (tv_opts v) <= 40 /\ bytes_ok (tv_opts v);
  vo_rest : 18 + zlen (tv_rest v) < 2 ^ 16 /\ bytes_ok (tv_rest v);
  vo_ipck : 0 <= tv_ipck v < 2 ^ 16;
  vo_ck : 0 <= tv_ck v < 2 ^ 16;
  vo_addr : 0 <= tv_src v < 2 ^ 32 /\ 0 <= tv_dst v < 2 ^ 32;
  vo_port : 0 <= tv_sport v < 2 ^ 16 /\ 0 <= tv_dport v < 2 ^ 16
}.

(** Both checksums hold. *)
Definition view_valid (v : TcpView) : Prop :=
  checksum_ok (view_header v) /\
  checksum_ok (pseudo_header (tv_src v) (tv_dst v) (zlen (view_segment v)) ++ view_segment v).

(** The fields a rewrite may change. *)
Definition readdress (v : TcpView) (src dst sport dport ipck ck : Z) : TcpView :=
  {| tv_head := tv_head v; tv_ipck := ipck; tv_src := src; tv_dst := dst; tv_opts := tv_opts v;
     tv_sport := sport; tv_dport := dport; tv_mid := tv_mid v; tv_ck := ck; tv_rest := tv_rest v |}.

Lemma view_header_length v : view_ok v -> zlen (view_header v) = view_ihl v.
Proof.
  intros [[Hh _] _ _ _ _ _ _ _]. unfold view_header, ip_pieces, view_ihl. cbn [concat]. rewrite !zlen_app. unfold zlen at 1. rewrite Hh.
  change (zlen (be16 _)) with 2. change (zlen (v4_octets _)) with 4. rewrite zlen_nil. lia.
Qed.

Lemma assemble_split v : assemble v = view_header v ++ view_segment v.
Proof. apply concat_app. Qed.

Lemma view_segment_length v : view_ok v -> zlen (view_segment v) = 18 + zlen (tv_rest v).
Proof.
  intros [_ [Hm _] _ _ _ _ _ _]. unfold view_segment, tcp_pieces. cbn [concat]. rewrite !zlen_app. unfold zlen at 3. rewrite Hm.
  change (zlen (be16 _)) with 2. rewrite zlen_nil. lia.
Qed.

(** Computes on the pieces of a concrete view. *)
Ltac pieces :=
  cbn [take drop concat ip_pieces tcp_pieces app insert list_insert tv_head tv_ipck tv_src tv_dst tv_opts tv_sport
       tv_dport tv_mid tv_ck tv_rest readdress].
Ltac at_piece := solve [done | pieces; rewrite app_nil_r; done].

Lemma set_ip_checksum_spec v :
  view_ok v ->
  exists ck, set_ip_checksum (assemble v) (view_ihl v) =
    Some (assemble (readdress v (tv_src v) (tv_dst v) (tv_sport v) (tv_dport v) ck (tv_ck v))) /\ 0 <= ck < 2 ^ 16 /\
    checksum_ok (view_header (readdress v (tv_src v) (tv_dst v) (tv_sport v) (tv_dport v) ck (tv_ck v))).
Proof.
  intros Hv. pose proof Hv as [[Hh Hbh] _ [Ho Hbo] _ _ _ _ _].
  assert (H10 : zlen (tv_head v) = 10) by (unfold zlen; lia).
  set (rest := v4_octets (tv_src v) ++ v4_octets (tv_dst v) ++ tv_opts v).
  exists (ipv4_checksum (tv_head v ++ [0; 0] ++ rest)).
  assert (Hbr : bytes_ok rest) by (unfold rest; rewrite !bytes_ok_app; split_and!; [apply v4_octets_bytes | apply v4_octets_bytes | done]).
  assert (Hlr : zlen rest <= 65525).
  { unfold rest. rewrite !zlen_app. change (zlen (v4_octets _)) with 4. lia. }
  split_and!.
  - unfold set_ip_checksum, assemble.
    rewrite (set_piece _ 1 (be16 (tv_ipck v))) by at_piece.
    cbn [mbind option_bind].
    rewrite (slice_pieces _ 5).
    2: { pieces. rewrite !zlen_app, H10, !zlen_cons, !zlen_app. change (zlen (@nil Z)) with 0. unfold view_ihl.
         change (zlen (v4_octets _)) with 4. change (zlen [0; 0]) with 2. lia. }
    cbn [mbind option_bind].
    rewrite (set_piece _ 1 [0; 0]) by at_piece.
    unfold rest. pieces. by rewrite app_nil_r.
  - rewrite ipv4_checksum_norm by done. pose proof (norm_range (zsum (words (tv_head v ++ [0; 0] ++ rest)))). lia.
  - rewrite ipv4_checksum_norm by done. pose proof (norm_range (zsum (words (tv_head v ++ [0; 0] ++ rest)))).
    change (2 ^ 16) with 65536. lia.
  - unfold view_header. cbn [ip_pieces concat readdress tv_head tv_ipck tv_src tv_dst tv_opts]. rewrite app_nil_r.
    by apply (header_checksum_ok (tv_head v) 0 0 rest).
Qed.

Lemma view_offsets v : view_ok v ->
  let ps := ip_pieces v ++ tcp_pieces v in
  zlen (concat (take 2 ps)) = 12 /\ zlen (concat (take 3 ps)) = 16 /\
  zlen (concat (take 5 ps)) = view_ihl v /\ zlen (concat (take 6 ps)) = view_ihl v + 2.
Proof.
  intros [[Hh _] _ _ _ _ _ _ _] ps. assert (H10 : zlen (tv_head v) = 10) by (unfold zlen; lia). unfold ps. pieces.
  unfold view_ihl. rewrite !zlen_app, H10. change (zlen (be16 _)) with 2. change (zlen (v4_octets _)) with 4.
  change (zlen (@nil Z)) with 0. lia.
Qed.

Lemma tcp_update_view v :
  view_ok v ->
  exists ck, tcp_checksum_update (assemble v) (view_ihl v) (tv_src v) (tv_dst v) =
    Some (assemble (readdress v (tv_src v) (tv_dst v) (tv_sport v) (tv_dport v) (tv_ipck v) ck)) /\ 0 <= ck < 2 ^ 16 /\
    let v' := readdress v (tv_src v) (tv_dst v) (tv_sport v) (tv_dport v) (tv_ipck v) ck in
    checksum_ok (pseudo_header (tv_src v) (tv_dst v) (zlen (view_segment v')) ++ view_segment v').
Proof.
  intros Hv. pose proof Hv as [_ [Hm Hbm] _ [Hr Hbr] _ _ _ _].
  set (t16 := be16 (tv_sport v) ++ be16 (tv_dport v) ++ tv_mid v).
  destruct (tcp_checksum_update_spec (view_header v) t16 ((tv_ck v / 2 ^ 8) mod 256) (tv_ck v mod 256) (tv_rest v) (tv_src v) (tv_dst v))
    as (ck & E & Hck & Hok); [by unfold t16; rewrite !length_app, Hm | | done | done |].
  { unfold t16. rewrite !bytes_ok_app. split_and!; [apply be16_bytes | apply be16_bytes | done]. }
  exists ck. rewrite view_header_length in E by done. unfold t16 in E, Hok. rewrite <- !app_assoc in E, Hok. split_and!; [| lia | lia |].
  - rewrite assemble_split. unfold view_segment. pieces. rewrite app_nil_r. unfold be16 at 3. rewrite E.
    rewrite assemble_split. unfold view_segment, view_header. pieces. by rewrite !app_nil_r.
  - intros v'. assert (Hseg : zlen (view_segment v') = 18 + zlen (tv_rest v)).
    { unfold view_segment, v'. pieces. rewrite !zlen_app. unfold zlen at 3. rewrite Hm.
      change (zlen (be16 _)) with 2. change (zlen (@nil Z)) with 0. lia. }
    rewrite Hseg. unfold view_segment, v'. pieces. by rewrite app_nil_r.
Qed.

Lemma readdress_ok v src dst sport dport ipck ck :
  view_ok v -> 0 <= src < 2 ^ 32 -> 0 <= dst < 2 ^ 32 -> 0 <= sport < 2 ^ 16 -> 0 <= dport < 2 ^ 16 ->
  0 <= ipck < 2 ^ 16 -> 0 <= ck < 2 ^ 16 -> view_ok (readdress v src dst sport dport ipck ck).
Proof. intros [] **. by constructor. Qed.

Lemma rewrite_inbound_spec v eph :
  view_ok v -> 0 <= eph < 2 ^ 16 ->
  exists ipck ck, let v' := readdress v (tv_src v) SMOL_IP (tv_sport v) eph ipck ck in
    rewrite_inbound (assemble v) (view_ihl v) eph = Some (assemble v') /\ view_ok v' /\ view_valid v'.
Proof.
  intros Hv He. pose proof Hv as [_ _ _ _ Hi Hc [Hsrc Hdst] [Hsp Hdp]].
  destruct (view_offsets v Hv) as (H2 & H3 & H5 & H6).
  assert (Hsm : 0 <= SMOL_IP < 2 ^ 32) by by compute.
  set (v1 := readdress v (tv_src v) SMOL_IP (tv_sport v) eph (tv_ipck v) (tv_ck v)).
  assert (Hv1 : view_ok v1) by by apply readdress_ok.
  destruct (set_ip_checksum_spec v1 Hv1) as (ipck & E1 & Hipck & Hhok).
  set (v2 := readdress v (tv_src v) SMOL_IP (tv_sport v) eph ipck (tv_ck v)).
  assert (Hv2 : view_ok v2) by by apply readdress_ok.
  destruct (tcp_update_view v2 Hv2) as (ck & E2 & Hck & Htok).
  exists ipck, ck. split; [| split; [by apply readdress_ok | by split]].
  unfold rewrite_inbound. change ([u8 (Z.shiftr eph 8); u8 eph]) with ([Z.shiftr eph 8 mod 2 ^ 8; eph mod 256]).
  rewrite Z.shiftr_div_pow2 by done. change [(eph / 2 ^ 8) mod 2 ^ 8; eph mod 256] with (be16 eph).
  unfold assemble at 1. rewrite (set_piece _ 6 (be16 (tv_dport v))) by done. cbn [mbind option_bind].
  rewrite (addr_piece _ 2 (tv_src v)) by done. cbn [mbind option_bind].
  rewrite (set_piece _ 3 (v4_octets (tv_dst v))) by done. cbn [mbind option_bind].
  match goal with |- context [concat ?x] => change (concat x) with (assemble v1) end.
  change (view_ihl v1) with (view_ihl v) in E1. rewrite E1. cbn [mbind option_bind].
  exact E2.
Qed.

Lemma rewrite_outbound_spec v dst port :
  view_ok v -> 0 <= dst < 2 ^ 32 -> 0 <= port < 2 ^ 16 ->
  exists ipck ck, let v' := readdress v dst (tv_dst v) port (tv_dport v) ipck ck in
    rewrite_outbound (assemble v) (view_ihl v) dst port = Some (assemble v') /\ view_ok v' /\ view_valid v'.
Proof.
  intros Hv Hd Hp. pose proof Hv as [_ _ _ _ Hi Hc [Hsrc Hdst] [Hsp Hdp]].
  destruct (view_offsets v Hv) as (H2 & H3 & H5 & H6).
  set (v1 := readdress v dst (tv_dst v) port (tv_dport v) (tv_ipck v) (tv_ck v)).
  assert (Hv1 : view_ok v1) by by apply readdress_ok.
  destruct (set_ip_checksum_spec v1 Hv1) as (ipck & E1 & Hipck & Hhok).
  set (v2 := readdress v dst (tv_dst v) port (tv_dport v) ipck (tv_ck v)).
  assert (Hv2 : view_ok v2) by by apply readdress_ok.
  destruct (tcp_update_view v2 Hv2) as (ck & E2 & Hck & Htok).
  exists ipck, ck. split; [| split; [by apply readdress_ok | by split]].
  unfold rewrite_outbound. change ([u8 (Z.shiftr port 8); u8 port]) with ([Z.shiftr port 8 mod 2 ^ 8; port mod 256]).
  rewrite Z.shiftr_div_pow2 by done. change [(port / 2 ^ 8) mod 2 ^ 8; port mod 256] with (be16 port).
  unfold assemble at 1. rewrite (set_piece _ 2 (v4_octets (tv_src v))) by done. cbn [mbind option_bind].
  set (v0 := readdress v dst (tv_dst v) (tv_sport v) (tv_dport v) (tv_ipck v) (tv_ck v)).
  assert (Hv0 : view_ok v0) by by apply readdress_ok. destruct (view_offsets v0 Hv0) as (_ & _ & H5' & _).
  rewrite (set_piece _ 5 (be16 (tv_sport v))) by done. cbn [mbind option_bind].
  match goal with |- context [concat ?x] => change (concat x) with (assemble v1) end.
  change (view_ihl v1) with (view_ihl v) in E1. rewrite E1. cbn [mbind option_bind].
  destruct (view_offsets v2 Hv2) as (_ & H3' & _). unfold assemble.
  rewrite (addr_piece _ 3 (tv_dst v)) by done. exact E2.
Qed.

(** Splitting a packet at a known offset. *)
Lemma split_at (l : bytes) (n : nat) : (n <= length l)%nat -> exists a b, l = a ++ b /\ length a = n.
Proof. intros Hn. exists (take n l), (drop n l). split; [by rewrite take_drop | rewrite length_take; lia]. Qed.

Lemma split2 (l : bytes) : (2 <= length l)%nat -> bytes_ok l ->
  exists v b, l = be16 v ++ b /\ 0 <= v < 2 ^ 16 /\ bytes_ok b.
Proof.
  destruct l as [| x [| y l]]; cbn [length]; [lia | lia |]. intros _ [Hx [Hy Hl]%Forall_cons]%Forall_cons.
  exists (from_be16 x y), l. rewrite be16_surj by done. split_and!; [done | | | done]; by apply from_be16_range.
Qed.

Lemma split4 (l : bytes) : (4 <= length l)%nat -> bytes_ok l ->
  exists v b, l = v4_octets v ++ b /\ 0 <= v < 2 ^ 32 /\ bytes_ok b.
Proof.
  destruct l as [| x [| y [| z [| w l]]]]; cbn [length]; [lia .. |].
  intros _ [Hx [Hy [Hz [Hw Hl]%Forall_cons]%Forall_cons]%Forall_cons]%Forall_cons.
  exists (from_be32 x y z w), l. unfold v4_octets. rewrite be32_surj by done.
  split_and!; [done | | | done]; by apply from_be32_range.
Qed.

(** Every TCP packet with a whole header has its fields. *)
Lemma view_exists pkt ihl :
  bytes_ok pkt -> 20 <= ihl <= 60 -> ihl + 18 <= zlen pkt -> zlen pkt - ihl < 2 ^ 16 ->
  exists v, pkt = assemble v /\ view_ok v /\ view_ihl v = ihl.
Proof.
  intros Hb Hi Hl Hmax. unfold zlen in Hl, Hmax.
  destruct (split_at pkt 10 ltac:(lia)) as (head & r1 & -> & Hh). apply bytes_ok_app in Hb as [Hbh Hb]. rewrite length_app in Hl, Hmax.
  destruct (split2 r1 ltac:(lia) Hb) as (ipck & r2 & -> & Hipck & Hb2).
  rewrite length_app in Hl, Hmax. change (length (be16 ipck)) with 2%nat in Hl, Hmax.
  destruct (split4 r2 ltac:(lia) Hb2) as (src & r3 & -> & Hsrc & Hb3).
  rewrite length_app in Hl, Hmax. change (length (v4_octets src)) with 4%nat in Hl, Hmax.
  destruct (split4 r3 ltac:(lia) Hb3) as (dst & r4 & -> & Hdst & Hb4).
  rewrite length_app in Hl, Hmax. change (length (v4_octets dst)) with 4%nat in Hl, Hmax.
  destruct (split_at r4 (Z.to_nat (ihl - 20)) ltac:(lia)) as (opts & r5 & -> & Ho). apply bytes_ok_app in Hb4 as [Hbo Hb5].
  rewrite length_app in Hl, Hmax.
  destruct (split2 r5 ltac:(lia) Hb5) as (sport & r6 & -> & Hsport & Hb6).
  rewrite length_app in Hl, Hmax. change (length (be16 sport)) with 2%nat in Hl, Hmax.
  destruct (split2 r6 ltac:(lia) Hb6) as (dport & r7 & -> & Hdport & Hb7).
  rewrite length_app in Hl, Hmax. change (length (be16 dport)) with 2%nat in Hl, Hmax.
  destruct (split_at r7 12 ltac:(lia)) as (mid & r8 & -> & Hm). apply bytes_ok_app in Hb7 as [Hbm Hb8].
  rewrite length_app in Hl, Hmax.
  destruct (split2 r8 ltac:(lia) Hb8) as (ck & rest & -> & Hck & Hbr).
  rewrite length_app in Hl, Hmax. change (length (be16 ck)) with 2%nat in Hl, Hmax.
  exists (Build_TcpView head ipck src dst opts sport dport mid ck rest). split_and!.
  - unfold assemble. pieces. by rewrite app_nil_r.
  - constructor; cbn [tv_head tv_mid tv_opts tv_rest tv_ipck tv_ck tv_src tv_dst tv_sport tv_dport]; split_and?; (done || (unfold zlen; lia)).
  - unfold view_ihl, zlen. cbn [tv_opts]. lia.
Qed.

Lemma set_bytes_length p i vs p' : set_bytes p i vs = Some p' -> zlen p' = zlen p.
Proof.
  revert p i. induction vs as [| v vs IH]; intros p i; cbn [set_bytes]; [by intros [= ->] |].
  unfold set_byte. case_decide; [| done]. cbn [mbind option_bind]. intros ->%IH. unfold zlen. by rewrite length_insert.
Qed.

(** A segment cut inside its checksum. *)
Lemma tcp_checksum_update_short pkt ihl src dst : 0 <= ihl -> zlen pkt < ihl + 18 -> tcp_checksum_update pkt ihl src dst = None.
Proof.
  intros H0 Hl. unfold tcp_checksum_update. destruct (usub (zlen pkt) ihl); [| done]. cbn [mbind option_bind].
  destruct (set_byte pkt (ihl + 16) 0) as [p |] eqn:E; [| done]. cbn [mbind option_bind].
  assert (zlen p = zlen pkt) as Hp.
  { unfold set_byte in E. case_decide; [| done]. injection E as <-. unfold zlen. by rewrite length_insert. }
  by rewrite set_byte_out by lia.
Qed.

Lemma set_ip_checksum_length p ihl p' : set_ip_checksum p ihl = Some p' -> zlen p' = zlen p.
Proof.
  unfold set_ip_checksum. destruct (set_bytes p 10 [0; 0]) as [q |] eqn:E1; [| done]. cbn [mbind option_bind].
  destruct (slice q 0 ihl); [| done]. cbn [mbind option_bind]. intros ->%set_bytes_length. by apply set_bytes_length in E1.
Qed.

Lemma rewrite_inbound_short pkt ihl eph : 0 <= ihl -> zlen pkt < ihl + 18 -> rewrite_inbound pkt ihl eph = None.
Proof.
  intros H0 Hl. unfold rewrite_inbound. destruct (set_bytes pkt _ _) as [p |] eqn:E1; [| done]. cbn [mbind option_bind].
  destruct (addr_at p 12); [| done]. cbn [mbind option_bind].
  destruct (set_bytes p 16 _) as [p1 |] eqn:E2; [| done]. cbn [mbind option_bind].
  destruct (set_ip_checksum p1 ihl) as [p2 |] eqn:E3; [| done]. cbn [mbind option_bind].
  apply set_bytes_length in E1, E2. apply set_ip_checksum_length in E3. apply tcp_checksum_update_short; lia.
Qed.

(** ** The checksums of the engine are the Internet checksum *)

(** the checksum of an IPv4 header is the complement of the RFC 1071 sum of
    the header with a zero in its place, and the header that carries it passes a
    receiver's check. Recomputing the checksum of a TCP segment of up to 64 KiB
    succeeds exactly if the segment reaches past the checksum field, changes
    nothing but this field, and makes the segment pass the check under its
    pseudo-header. *)
Theorem internet_checksum :
  (forall h10 a b rest, length h10 = 10%nat -> bytes_ok h10 -> bytes_ok rest -> zlen rest <= 65525 ->
     ipv4_checksum (h10 ++ [a; b] ++ rest) = 0xFFFF - oc_sum (words (h10 ++ [0; 0] ++ rest)) /\
     checksum_ok (h10 ++ be16 (ipv4_checksum (h10 ++ [a; b] ++ rest)) ++ rest)) /\
  (forall pkt ihl src dst, bytes_ok pkt -> 0 <= ihl <= zlen pkt -> zlen pkt - ihl < 2 ^ 16 ->
     (is_Some (tcp_checksum_update pkt ihl src dst) <-> ihl + 18 <= zlen pkt) /\
     forall pkt', tcp_checksum_update pkt ihl src dst = Some pkt' ->
       exists l ck rest old, pkt = l ++ be16 old ++ rest /\ pkt' = l ++ be16 ck ++ rest /\ zlen l = ihl + 16 /\
         checksum_ok (pseudo_header src dst (zlen pkt - ihl) ++ zdrop ihl pkt')).
Proof.
  split.
  - intros h10 a b rest Hh Hbh Hbr Hl. split; [| by apply header_checksum_ok].
    rewrite ipv4_checksum_norm, oc_words by (done || (rewrite !bytes_ok_app; split_and!; [done | by repeat constructor | done])). done.
  - intros pkt ihl src dst Hb Hi Hmax. destruct (Z.lt_ge_cases (zlen pkt) (ihl + 18)) as [Hlt | Hge].
    { rewrite tcp_checksum_update_short by lia. split; [| done]. split; [by intros [] | lia]. }
    unfold zlen in Hge, Hmax, Hi.
    destruct (split_at pkt (Z.to_nat ihl) ltac:(lia)) as (h & r & -> & Hh). apply bytes_ok_app in Hb as [_ Hb]. rewrite length_app in *.
    destruct (split_at r 16 ltac:(lia)) as (t16 & r2 & -> & Ht). apply bytes_ok_app in Hb as [Hbt Hb]. rewrite length_app in *.
    destruct (split2 r2 ltac:(lia) Hb) as (old & rest & -> & Hold & Hbr). rewrite length_app in *.
    change (length (be16 old)) with 2%nat in *. assert (zlen h = ihl) as Hzh by (unfold zlen; lia).
    destruct (tcp_checksum_update_spec h t16 ((old / 2 ^ 8) mod 256) (old mod 256) rest src dst Ht Hbt Hbr)
      as (ck & E & Hck & Hok); [change (2 ^ 16) with 65536 in *; unfold zlen; lia |].
    change (be16 old) with [(old / 2 ^ 8) mod 256; old mod 256]. rewrite Hzh in E. rewrite E. assert (H16 : zlen t16 = 16) by (unfold zlen; lia).
    pose proof (zlen_nonneg rest). split.
    + split; [intros _ | by eexists]. rewrite !zlen_app, H16. change (zlen [_; _]) with 2. lia.
    + intros pkt' [= <-]. exists (h ++ t16), ck, rest, old. rewrite <- !app_assoc. split_and!; [done | done | rewrite zlen_app; lia |].
      rewrite zdrop_app by done. rewrite !zlen_app, H16, Hzh. change (zlen [_; _]) with 2.
      replace (ihl + (16 + (2 + zlen rest)) - ihl) with (18 + zlen rest) by lia. done.
Qed.

(** ** Fields of a view *)

(** An IPv4 header of this length with protocol TCP. *)
Definition tcp4 (v : TcpView) : Prop :=
  view_ok v /\ (exists b0, index (tv_head v) 0 = Some b0 /\ Z.shiftr b0 4 = 4 /\ ihl_of b0 = view_ihl v) /\
  index (tv_head v) 9 = Some 6.

Definition view_flags (v : TcpView) : Z := at_ (tv_mid v) 9.

Lemma readdress_tcp4 v src dst sport dport ipck ck :
  tcp4 v -> view_ok (readdress v src dst sport dport ipck ck) -> tcp4 (readdress v src dst sport dport ipck ck).
Proof. by intros (_ & H & H9) Hv. Qed.

Lemma head_index v i : view_ok v -> 0 <= i < 10 -> index (assemble v) i = index (tv_head v) i.
Proof.
  intros [[Hh _] _ _ _ _ _ _ _] Hi. unfold assemble. cbn [ip_pieces tcp_pieces app concat].
  apply index_app_l. unfold zlen. lia.
Qed.

Lemma view_reads v :
  view_ok v ->
  addr_at (assemble v) 12 = Some (tv_src v) /\ addr_at (assemble v) 16 = Some (tv_dst v) /\
  port_at (assemble v) (view_ihl v) = Some (tv_sport v) /\ port_at (assemble v) (view_ihl v + 2) = Some (tv_dport v) /\
  index (assemble v) (view_ihl v + 13) = Some (view_flags v) /\ zlen (assemble v) = view_ihl v + 18 + zlen (tv_rest v).
Proof.
  intros Hv. destruct (view_offsets v Hv) as (H2 & H3 & H5 & H6). pose proof Hv as [_ [Hm _] _ _ _ _ [Hs Hd] [Hsp Hdp]].
  unfold assemble at 1 2 3 4.
  rewrite (addr_piece _ 2 (tv_src v)), (addr_piece _ 3 (tv_dst v)), (port_piece _ 5 (tv_sport v)), (port_piece _ 6 (tv_dport v)) by done.
  split_and!; try done.
  - rewrite assemble_split, (index_shift _ _ _ 13) by (rewrite ?view_header_length; done).
    unfold view_segment. pieces. rewrite app_assoc, (index_shift _ _ _ 9) by done.
    rewrite index_app_l by (unfold zlen; lia). unfold view_flags, at_.
    destruct (index_some (tv_mid v) 9) as [x ->]; [unfold zlen; lia | done].
  - rewrite assemble_split, zlen_app, view_header_length, view_segment_length by done. lia.
Qed.

(** Writes in range succeed. *)
Lemma set_bytes_total vs : forall p i, 0 <= i -> i + zlen vs <= zlen p -> exists p', set_bytes p i vs = Some p'.
Proof.
  induction vs as [| v vs IH]; intros p i Hi Hl; cbn [set_bytes]; [by eexists |].
  rewrite zlen_cons in Hl. pose proof (zlen_nonneg vs). unfold set_byte. rewrite decide_True by lia. cbn [mbind option_bind].
  apply IH; [lia |]. unfold zlen in *. rewrite length_insert. lia.
Qed.

Lemma set_byte_total p i v : 0 <= i < zlen p -> exists p', set_byte p i v = Some p'.
Proof. intros Hi. unfold set_byte. rewrite decide_True by lia. by eexists. Qed.

Lemma set_byte_length p i v p' : set_byte p i v = Some p' -> zlen p' = zlen p.
Proof. rewrite set_byte_bytes. apply set_bytes_length. Qed.

Lemma tcp_checksum_update_total pkt ihl src dst :
  0 <= ihl -> ihl + 18 <= zlen pkt -> exists p', tcp_checksum_update pkt ihl src dst = Some p'.
Proof.
  intros Hi Hl. unfold tcp_checksum_update. rewrite usub_some by lia. cbn [mbind option_bind].
  destruct (set_byte_total pkt (ihl + 16) 0 ltac:(lia)) as [p1 E1]. rewrite E1. apply set_byte_length in E1. cbn [mbind option_bind].
  destruct (set_byte_total p1 (ihl + 17) 0 ltac:(lia)) as [p2 E2]. rewrite E2. apply set_byte_length in E2. cbn [mbind option_bind].
  rewrite slice_some by lia. cbn [mbind option_bind]. set (ck := complement16 _).
  destruct (set_byte_total p2 (ihl + 16) (u8 (Z.shiftr ck 8)) ltac:(lia)) as [p3 E3]. rewrite E3. apply set_byte_length in E3.
  cbn [mbind option_bind]. apply set_byte_total. lia.
Qed.

(** The rewrite of any packet that reaches past the checksum. *)
Lemma rewrite_inbound_total pkt ihl eph :
  0 <= ihl -> 20 <= zlen pkt -> ihl + 18 <= zlen pkt -> exists p', rewrite_inbound pkt ihl eph = Some p'.
Proof.
  intros Hi H20 Hl. unfold rewrite_inbound.
  destruct (set_bytes_total [u8 (Z.shiftr eph 8); u8 eph] pkt (ihl + 2) ltac:(lia) ltac:(change (zlen [_; _]) with 2; lia)) as [p1 E1].
  rewrite E1. apply set_bytes_length in E1. cbn [mbind option_bind]. unfold addr_at.
  destruct (index_some p1 12 ltac:(lia)) as [a ->], (index_some p1 (12 + 1) ltac:(lia)) as [b ->],
    (index_some p1 (12 + 2) ltac:(lia)) as [c ->], (index_some p1 (12 + 3) ltac:(lia)) as [d ->]. cbn [mbind option_bind].
  destruct (set_bytes_total (v4_octets SMOL_IP) p1 16 ltac:(lia) ltac:(change (zlen (v4_octets SMOL_IP)) with 4; lia)) as [p2 E2].
  rewrite E2. apply set_bytes_length in E2. cbn [mbind option_bind]. unfold set_ip_checksum.
  destruct (set_bytes_total [0; 0] p2 10 ltac:(lia) ltac:(change (zlen [0; 0]) with 2; lia)) as [p3 E3].
  rewrite E3. apply set_bytes_length in E3. cbn [mbind option_bind]. rewrite slice_some by lia. cbn [mbind option_bind].
  set (ck := be16 _). destruct (set_bytes_total ck p3 10 ltac:(lia) ltac:(change (zlen ck) with 2; lia)) as [p4 E4].
  rewrite E4. apply set_bytes_length in E4. cbn [mbind option_bind]. apply tcp_checksum_update_total; lia.
Qed.

(** ** Intercepted DNS queries *)

Definition udp_response (src dst sport dport : Z) (payload : bytes) : bytes :=
  let total := 28 + zlen payload in
  let rest := v4_octets src ++ v4_octets dst in
  ([0x45; 0] ++ be16 (u16 total) ++ [0; 0; 0; 0; 64; 17]) ++
  be16 (ipv4_checksum (([0x45; 0] ++ be16 (u16 total) ++ [0; 0; 0; 0; 64; 17]) ++ [0; 0] ++ rest)) ++ rest ++
  be16 sport ++ be16 dport ++ be16 (u16 (8 + zlen payload)) ++ [0; 0] ++ payload.

Lemma build_udp_response_eq src dst sport dport payload :
  build_udp_response src dst sport dport payload = Some (udp_response src dst sport dport payload).
Proof.
  pose proof (zlen_nonneg payload). set (n := length payload).
  assert (E : replicate (Z.to_nat (20 + 8 + zlen payload)) 0 =
    concat [[0]; [0]; [0; 0]; [0; 0; 0; 0]; [0]; [0]; [0; 0]; [0; 0; 0; 0]; [0; 0; 0; 0]; [0; 0]; [0; 0]; [0; 0]; [0; 0]; replicate n 0]).
  { replace (Z.to_nat (20 + 8 + zlen payload)) with (28 + n)%nat by (unfold n, zlen; lia). cbn. by rewrite app_nil_r. }
  unfold build_udp_response. rewrite E. rewrite !set_byte_bytes.
  erewrite (set_piece _ 0) by reflexivity. cbn [mbind option_bind insert list_insert].
  erewrite (set_piece _ 2) by reflexivity. cbn [mbind option_bind insert list_insert].
  rewrite set_byte_bytes. erewrite (set_piece _ 4) by reflexivity. cbn [mbind option_bind insert list_insert].
  rewrite set_byte_bytes. erewrite (set_piece _ 5) by reflexivity. cbn [mbind option_bind insert list_insert].
  erewrite (set_piece _ 7) by reflexivity. cbn [mbind option_bind insert list_insert].
  erewrite (set_piece _ 8) by reflexivity. cbn [mbind option_bind insert list_insert].
  rewrite (slice_pieces _ 9) by reflexivity. cbn [mbind option_bind take].
  erewrite (set_piece _ 6) by reflexivity. cbn [mbind option_bind insert list_insert].
  erewrite (set_piece _ 9) by reflexivity. cbn [mbind option_bind insert list_insert].
  erewrite (set_piece _ 10) by reflexivity. cbn [mbind option_bind insert list_insert].
  erewrite (set_piece _ 11) by reflexivity. cbn [mbind option_bind insert list_insert].
  erewrite (set_piece _ 13) by (first [reflexivity | apply length_replicate]).
  unfold udp_response. change (20 + 8 + zlen payload) with (28 + zlen payload).
  cbn [insert list_insert concat]. rewrite !app_nil_r, <- !app_assoc. reflexivity.
Qed.

Lemma addr_at_total p i : bytes_ok p -> 0 <= i -> i + 4 <= zlen p -> exists a, addr_at p i = Some a /\ 0 <= a < 2 ^ 32.
Proof.
  intros Hb Hi Hl. unfold addr_at.
  destruct (index_some p i ltac:(lia)) as [a Ea], (index_some p (i + 1) ltac:(lia)) as [b Eb],
    (index_some p (i + 2) ltac:(lia)) as [c Ec], (index_some p (i + 3) ltac:(lia)) as [d Ed].
  rewrite Ea, Eb, Ec, Ed. eexists. split; [reflexivity |]. apply from_be32_range; eapply index_byte; eassumption.
Qed.

Lemma port_at_total p i : bytes_ok p -> 0 <= i -> i + 2 <= zlen p -> exists a, port_at p i = Some a /\ 0 <= a < 2 ^ 16.
Proof.
  intros Hb Hi Hl. unfold port_at. destruct (index_some p i ltac:(lia)) as [a Ea], (index_some p (i + 1) ltac:(lia)) as [b Eb].
  rewrite Ea, Eb. eexists. split; [reflexivity |]. apply from_be16_range; eapply index_byte; eassumption.
Qed.

Lemma parse_ipv4_header_total p : bytes_ok p ->
  exists r, parse_ipv4_header p = Some r /\
  forall s d pr ihl, r = Some (s, d, pr, ihl) -> 20 <= ihl <= zlen p /\ 0 <= s < 2 ^ 32 /\ 0 <= d < 2 ^ 32.
Proof.
  intros Hb. unfold parse_ipv4_header. case_cmp; [by eexists |]. destruct (index_some p 0 ltac:(lia)) as [b0 ->].
  cbn [mbind option_bind]. case_cmp; [by eexists |].
  destruct (Z.ltb_spec (ihl_of b0) 20); [by eexists |]. destruct (Z.ltb_spec (zlen p) (ihl_of b0)); [by eexists |]. cbn [orb].
  destruct (addr_at_total p 12 Hb ltac:(lia) ltac:(lia)) as (s & -> & Hs).
  destruct (addr_at_total p 16 Hb ltac:(lia) ltac:(lia)) as (d & -> & Hd).
  destruct (index_some p 9 ltac:(lia)) as [pr ->]. cbn [mbind option_bind]. eexists. split; [reflexivity |].
  intros ? ? ? ? [= <- <- <- <-]. lia.
Qed.

Lemma parse_udp_header_total p : bytes_ok p ->
  exists r, parse_udp_header p = Some r /\
  forall s d o, r = Some (s, d, o) -> o = 8 /\ 8 <= zlen p /\ 0 <= s < 2 ^ 16 /\ 0 <= d < 2 ^ 16.
Proof.
  intros Hb. unfold parse_udp_header. case_cmp; [by eexists |].
  destruct (port_at_total p 0 Hb ltac:(lia) ltac:(lia)) as (s & -> & Hs).
  destruct (port_at_total p 2 Hb ltac:(lia) ltac:(lia)) as (d & -> & Hd). cbn [mbind option_bind]. eexists.
  split; [reflexivity |]. intros ? ? ? [= <- <- <-]. lia.
Qed.

(** Reading the response back. *)
Lemma udp_response_reads src dst sport dport payload :
  let p := udp_response src dst sport dport payload in
  0 <= src < 2 ^ 32 -> 0 <= dst < 2 ^ 32 -> 0 <= sport < 2 ^ 16 -> 0 <= dport < 2 ^ 16 -> 28 + zlen payload < 2 ^ 16 ->
  parse_ipv4_header p = Some (Some (src, dst, 17, 20)) /\ checksum_ok (ztake 20 p) /\
  port_at p 2 = Some (zlen p) /\ parse_udp_header (zdrop 20 p) = Some (Some (sport, dport, 8)) /\
  port_at p 24 = Some (zlen p - 20) /\ zdrop 28 p = payload.
Proof.
  intros p Hs Hd Hsp Hdp Hl. pose proof (zlen_nonneg payload).
  assert (Hz : zlen p = 28 + zlen payload) by (unfold p, udp_response; rewrite !zlen_app; change (zlen (be16 _)) with 2; change (zlen (v4_octets _)) with 4; change (zlen [0; 0; 0; 0; 64; 17]) with 6; change (zlen [_; 0]) with 2; lia).
  assert (Hport : forall v, 0 <= v < 2 ^ 16 -> from_be16 ((v / 2 ^ 8) mod 256) (v mod 256) = v) by (intros; by apply be16_roundtrip).
  assert (Haddr : forall v, 0 <= v < 2 ^ 32 -> from_be32 ((v / 2 ^ 24) mod 256) ((v / 2 ^ 16) mod 256) ((v / 2 ^ 8) mod 256) (v mod 256) = v)
    by (intros; by apply be32_roundtrip).
  assert (Hu : forall v, 0 <= v < 2 ^ 16 -> u16 v = v) by (intros; by apply Z.mod_small).
  split_and!.
  - unfold parse_ipv4_header. rewrite Hz. destruct (Z.ltb_spec (28 + zlen payload) 20); [lia |].
    change (index p 0) with (Some 0x45). cbn [mbind option_bind].
    change (ihl_of 69) with 20. cbn [negb Z.eqb orb]. destruct (Z.ltb_spec (28 + zlen payload) 20); [lia |].
    change (negb (Z.shiftr 69 4 =? 4)) with false. cbn [orb Z.ltb].
    change (20 <? 20) with false. cbn [orb]. unfold addr_at.
    set (so := v4_octets src). set (dd := v4_octets dst).
    change (index p 9) with (Some 17).
    change (index p 12) with (index so 0). change (index p (12 + 1)) with (index so 1).
    change (index p (12 + 2)) with (index so 2). change (index p (12 + 3)) with (index so 3).
    change (index p 16) with (index dd 0). change (index p (16 + 1)) with (index dd 1).
    change (index p (16 + 2)) with (index dd 2). change (index p (16 + 3)) with (index dd 3).
    unfold so, dd, v4_octets, be32. rewrite !index_0, !index_1, !index_2, !index_3. cbn [mbind option_bind]. by rewrite !Haddr.
  - unfold p, udp_response. set (h10 := [0x45; 0] ++ be16 (u16 (28 + zlen payload)) ++ [0; 0; 0; 0; 64; 17]).
    set (rest := v4_octets src ++ v4_octets dst).
    assert (Hh : bytes_ok h10) by (unfold h10; rewrite !bytes_ok_app; split_and!; [by repeat constructor | apply be16_bytes | by repeat constructor]).
    assert (Hr : bytes_ok rest) by (unfold rest; rewrite !bytes_ok_app; split_and!; apply v4_octets_bytes).
    pose proof (header_checksum_ok h10 0 0 rest eq_refl Hh Hr ltac:(done)) as Hok.
    rewrite (app_assoc (be16 _) rest), (app_assoc h10). by rewrite ztake_app.
  - rewrite Hz. unfold port_at. change (index p 2) with (Some ((u16 (28 + zlen payload) / 2 ^ 8) mod 256)).
    change (index p (2 + 1)) with (Some (u16 (28 + zlen payload) mod 256)). cbn [mbind option_bind]. rewrite Hu, Hport by lia. done.
  - assert (E : zdrop 20 p = be16 sport ++ be16 dport ++ be16 (u16 (8 + zlen payload)) ++ [0; 0] ++ payload) by done.
    rewrite E. unfold parse_udp_header. rewrite !zlen_app. change (zlen (be16 _)) with 2. change (zlen [0; 0]) with 2.
    destruct (Z.ltb_spec (2 + (2 + (2 + (2 + zlen payload)))) 8); [lia |].
    change (port_at _ 0) with (Some (from_be16 ((sport / 2 ^ 8) mod 256) (sport mod 256))).
    change (port_at _ 2) with (Some (from_be16 ((dport / 2 ^ 8) mod 256) (dport mod 256))). cbn [mbind option_bind].
    by rewrite !Hport.
  - rewrite Hz. unfold port_at. change (index p 24) with (Some ((u16 (8 + zlen payload) / 2 ^ 8) mod 256)).
    change (index p (24 + 1)) with (Some (u16 (8 + zlen payload) mod 256)). cbn [mbind option_bind]. rewrite Hu, Hport by lia.
    f_equal. lia.
  - done.
Qed.

(** ** What the interception answers

    Whatever the packet, the resolver does not panic and without an answer
    nothing changes. An answer goes to a packet that really is UDP to port 53: it
    parses as a packet between the same two ends the other way round, its header
    has a valid checksum and carries its whole length, and its payload is what the
    resolver answers to the payload of the query. *)
Theorem dns_intercepted (UC : UnicodeCase) now f packet :
  bytes_ok packet -> zlen packet <= 60000 ->
  exists g r, try_handle_dns now f packet = Some (g, r) /\
  match r with
  | None => g = f
  | Some reply =>
      exists src dst sport ihl answer ip, parse_ipv4_header packet = Some (Some (src, dst, 17, ihl)) /\
        parse_udp_header (zdrop ihl packet) = Some (Some (sport, 53, 8)) /\
        handle_query now f (zdrop (ihl + 8) packet) = Some (g, Some (answer, ip)) /\
        parse_ipv4_header reply = Some (Some (dst, src, 17, 20)) /\ checksum_ok (ztake 20 reply) /\
        port_at reply 2 = Some (zlen reply) /\
        parse_udp_header (zdrop 20 reply) = Some (Some (53, sport, 8)) /\ port_at reply 24 = Some (zlen reply - 20) /\
        zdrop 28 reply = answer
  end.
Proof.
  intros Hb Hmax. unfold try_handle_dns. destruct (parse_ipv4_header_total packet Hb) as (r & E & Hr). rewrite E. cbn [mbind option_bind].
  destruct r as [[[[src dst] proto] ihl] |]; [| by exists f, None]. destruct (Hr _ _ _ _ eq_refl) as (Hihl & Hsrc & Hdst).
  destruct (Z.eqb_spec proto 17) as [-> |]; [| by exists f, None]. cbn [negb]. rewrite slice_some by lia. cbn [mbind option_bind].
  rewrite (ztake_ge (zlen packet - ihl)) by (rewrite zlen_drop; lia). set (udp := zdrop ihl packet).
  assert (Hbu : bytes_ok udp) by (unfold udp; apply Forall_drop; done).
  destruct (parse_udp_header_total udp Hbu) as (r & Eu & Hru). rewrite Eu. cbn [mbind option_bind].
  destruct r as [[[sport dport] off] |]; [| by exists f, None]. destruct (Hru _ _ _ eq_refl) as (-> & Hlu & Hsp & Hdp).
  destruct (Z.eqb_spec dport 53) as [-> |]; [| by exists f, None]. cbn [negb]. rewrite slice_some by lia. cbn [mbind option_bind].
  rewrite (ztake_ge (zlen udp - 8)) by (rewrite zlen_drop; lia). set (query := zdrop 8 udp).
  assert (Hbq : bytes_ok query) by (unfold query; apply Forall_drop; done).
  destruct (handle_query_total UC now f query Hbq) as (g & r & Eq & Hans). rewrite Eq. cbn [mbind option_bind].
  destruct r as [[answer ip] |]; [| by exists g, None]. rewrite build_udp_response_eq. cbn [mbind option_bind].
  exists g, (Some (udp_response dst src 53 sport answer)). split; [done |].
  assert (Hla : 28 + zlen answer < 2 ^ 16).
  { destruct Hans as (d & question & rest & a & b & hdr & Hq & Hh & _ & _ & ->). change (2 ^ 16) with 65536.
    assert (zlen query <= zlen packet - 28) as Hlq by (unfold query; rewrite zlen_drop by lia; unfold udp; rewrite zlen_drop by lia; lia).
    rewrite Hq in Hlq. rewrite !zlen_app in *. pose proof (zlen_nonneg rest). change (zlen (v4_octets _)) with 4.
    change (zlen [a; b]) with 2 in *. rewrite !zlen_cons. change (zlen []) with 0. lia. }
  destruct (udp_response_reads dst src 53 sport answer Hdst Hsrc ltac:(done) Hsp Hla) as (H1 & H2 & H3 & H4 & H5 & H6).
  exists src, dst, sport, ihl, answer, ip. split_and!; try done.
  replace (zdrop (ihl + 8) packet) with query by (unfold query, udp; by rewrite zdrop_zdrop by lia). done.
Qed.

(** ** Witnesses *)

Lemma internet_checksum_witness :
  let h10 := [0x45; 0; 0; 0x73; 0; 0; 0x40; 0; 0x40; 0x11] in
  let rest := [192; 168; 0; 1; 192; 168; 0; 199] in
  ipv4_checksum (h10 ++ [0; 0] ++ rest) = 0xB861 /\ checksum_ok (h10 ++ be16 (ipv4_checksum (h10 ++ [0; 0] ++ rest)) ++ rest).
Proof.
  intros h10 rest. split; [reflexivity |].
  exact (proj2 (proj1 internet_checksum h10 0 0 rest eq_refl ltac:(by_compute) ltac:(by_compute) ltac:(vm_compute; discriminate))).
Defined.
