(* ===== verification/Engine.v ===== *)
(** * The event loop of the VPN engine (xr-core/src/engine.rs, ip_stack.rs)

    Packets of the device come from a TUN queue; smoltcp terminates the TCP
    connections. A SYN gets a listening socket on a fresh port and its packets are
    rewritten to this port; what the socket sends is rewritten back. One turn of
    the loop contains no [await] and is one step. smoltcp is an interface; the
    order of a [HashMap] is an argument. *)

From S2P Require Import Prelude Text Net Protocol FakeDns Chan Packet.

(** ** The packet queue (ip_stack.rs) *)

Record PacketQueue := {
  inbound : list bytes;
  smol_outbound : list bytes;
  tun_outbound : list bytes
}.

Definition PacketQueue_new : PacketQueue := {| inbound := []; smol_outbound := []; tun_outbound := [] |}.

Definition QUEUE_MAX : Z := 4096.

(** A full queue drops its oldest packet. *)
Definition push_packet (l : list bytes) (p : bytes) : list bytes :=
  (if QUEUE_MAX <=? zlen l then tail l else l) ++ [p].

Definition push_inbound (q : PacketQueue) (p : bytes) : PacketQueue :=
  {| inbound := push_packet (inbound q) p; smol_outbound := smol_outbound q; tun_outbound := tun_outbound q |}.

Definition push_outbound (q : PacketQueue) (p : bytes) : PacketQueue :=
  {| inbound := inbound q; smol_outbound := push_packet (smol_outbound q) p; tun_outbound := tun_outbound q |}.

Definition push_outbound_public (q : PacketQueue) (p : bytes) : PacketQueue :=
  {| inbound := inbound q; smol_outbound := smol_outbound q; tun_outbound := push_packet (tun_outbound q) p |}.

Definition pop_inbound_public (q : PacketQueue) : option (bytes * PacketQueue) :=
  match inbound q with
  | p :: l => Some (p, {| inbound := l; smol_outbound := smol_outbound q; tun_outbound := tun_outbound q |})
  | [] => None
  end.

Definition pop_smol_outbound (q : PacketQueue) : option (bytes * PacketQueue) :=
  match smol_outbound q with
  | p :: l => Some (p, {| inbound := inbound q; smol_outbound := l; tun_outbound := tun_outbound q |})
  | [] => None
  end.

Definition pop_outbound (q : PacketQueue) : option (bytes * PacketQueue) :=
  match tun_outbound q with
  | p :: l => Some (p, {| inbound := inbound q; smol_outbound := smol_outbound q; tun_outbound := l |})
  | [] => None
  end.

(** ** smoltcp

    A socket set behind an interface that takes packets from the inbound queue
    and puts what it sends into the outbound one. Sockets are named by handles. *)

Inductive TcpState :=
| StClosed | StListen | StSynSent | StSynReceived | StEstablished | StFinWait1 | StFinWait2 | StCloseWait | StClosing
| StLastAck | StTimeWait.

#[global] Instance TcpState_eq_dec : EqDecision TcpState.
Proof. solve_decision. Defined.

Class Smoltcp := {
  Smol : Type;
  smol_init : Smol;
  add_tcp_socket : Smol -> Z -> Z -> Smol * Z;
  listen : Smol -> Z -> Z -> Smol * bool;
  remove_socket : Smol -> Z -> Smol;
  abort : Smol -> Z -> Smol;
  sock_state : Smol -> Z -> TcpState;
  can_recv : Smol -> Z -> bool;
  recv_slice : Smol -> Z -> Z -> Smol * option bytes;
  can_send : Smol -> Z -> bool;
  send_slice : Smol -> Z -> bytes -> Smol * option Z;
  (** the queues before and after one poll, and whether a socket made progress *)
  iface_poll : Z -> Smol -> PacketQueue -> Smol * PacketQueue * bool;
  (** documented: a prefix is accepted; at most the buffer is filled *)
  send_slice_ok : forall s h d s' n, send_slice s h d = (s', Some n) -> 0 <= n <= zlen d;
  recv_slice_ok : forall s h n s' d, recv_slice s h n = (s', Some d) -> zlen d <= n
}.

(** ** Sessions *)

Record TcpSessionKey := { src_addr : SocketAddr; dst_addr : SocketAddr }.

#[global] Instance TcpSessionKey_eq_dec : EqDecision TcpSessionKey.
Proof. solve_decision. Defined.

#[global] Instance TcpSessionKey_countable : Countable TcpSessionKey.
Proof.
  refine (inj_countable' (fun k => (src_addr k, dst_addr k)) (fun p => {| src_addr := p.1; dst_addr := p.2 |}) _).
  by intros [].
Defined.

(** The channels to and from the relay task, and what was taken from the second
    but not accepted by the socket. The other fields are histories: the bytes read
    from the socket and accepted by it, those the relay task took and those it sent. *)
Record RelayChannels := {
  to_relay : Chan bytes;
  from_relay : Chan bytes;
  pending_download : bytes;
  uploaded : bytes;
  downloaded : bytes;
  relay_got : bytes;
  relay_put : bytes
}.

Record ActiveSession := {
  smol_handle : Z;
  real_dst : SocketAddr;
  domain : option bytes;
  eph_port : Z;
  relay : option RelayChannels
}.

Definition set_relay (s : ActiveSession) (r : option RelayChannels) : ActiveSession :=
  {| smol_handle := smol_handle s; real_dst := real_dst s; domain := domain s; eph_port := eph_port s; relay := r |}.

(** The counters of stats.rs the loop uses. *)
Record Counters := {
  active_connections : Z;
  total_connections : Z;
  dns_queries : Z;
  tcp_syns : Z;
  smol_recv : Z;
  smol_send : Z
}.

Definition connection_opened (c : Counters) : Counters :=
  {| active_connections := u32 (active_connections c + 1); total_connections := u64 (total_connections c + 1);
     dns_queries := dns_queries c; tcp_syns := tcp_syns c; smol_recv := smol_recv c; smol_send := smol_send c |}.
Definition connection_closed (c : Counters) : Counters :=
  {| active_connections := u32 (active_connections c - 1); total_connections := total_connections c;
     dns_queries := dns_queries c; tcp_syns := tcp_syns c; smol_recv := smol_recv c; smol_send := smol_send c |}.
Definition add_dns_query (c : Counters) : Counters :=
  {| active_connections := active_connections c; total_connections := total_connections c;
     dns_queries := u64 (dns_queries c + 1); tcp_syns := tcp_syns c; smol_recv := smol_recv c; smol_send := smol_send c |}.
Definition add_tcp_syn (c : Counters) : Counters :=
  {| active_connections := active_connections c; total_connections := total_connections c;
     dns_queries := dns_queries c; tcp_syns := u64 (tcp_syns c + 1); smol_recv := smol_recv c; smol_send := smol_send c |}.
Definition add_smol_recv (c : Counters) (n : Z) : Counters :=
  {| active_connections := active_connections c; total_connections := total_connections c;
     dns_queries := dns_queries c; tcp_syns := tcp_syns c; smol_recv := u64 (smol_recv c + n); smol_send := smol_send c |}.
Definition add_smol_send (c : Counters) (n : Z) : Counters :=
  {| active_connections := active_connections c; total_connections := total_connections c;
     dns_queries := dns_queries c; tcp_syns := tcp_syns c; smol_recv := smol_recv c; smol_send := u64 (smol_send c + n) |}.

Definition SESSION_RX_BUF : Z := 65535.
Definition SESSION_TX_BUF : Z := 65535.

(** [EPHEMERAL_PORT]: [fetch_add] on an [AtomicU16], then a store on the way
    back; the port and the counter after the call. *)
Definition next_ephemeral_port (counter : Z) : Z * Z :=
  (counter, if 60000 <=? counter then 10000 else u16 (counter + 1)).

Section engine.
Context {ST : Smoltcp} {UC : UnicodeCase}.

(** The state of [run_event_loop]; [eph_counter] is the static, [ports_given] a
    history of the ports it gave to this loop, newest first. *)
Record Engine := {
  pkts : PacketQueue;
  stack : Smol;
  sessions : gmap TcpSessionKey ActiveSession;
  port_to_key : gmap Z TcpSessionKey;
  eph_counter : Z;
  last_netgen : Z;
  dns : FakeDns;
  stats : Counters;
  ports_given : list Z
}.

Definition with_queue (e : Engine) (q : PacketQueue) : Engine :=
  {| pkts := q; stack := stack e; sessions := sessions e; port_to_key := port_to_key e; eph_counter := eph_counter e;
     last_netgen := last_netgen e; dns := dns e; stats := stats e; ports_given := ports_given e |}.
Definition with_stack (e : Engine) (s : Smol) : Engine :=
  {| pkts := pkts e; stack := s; sessions := sessions e; port_to_key := port_to_key e; eph_counter := eph_counter e;
     last_netgen := last_netgen e; dns := dns e; stats := stats e; ports_given := ports_given e |}.
Definition with_stats (e : Engine) (c : Counters) : Engine :=
  {| pkts := pkts e; stack := stack e; sessions := sessions e; port_to_key := port_to_key e; eph_counter := eph_counter e;
     last_netgen := last_netgen e; dns := dns e; stats := c; ports_given := ports_given e |}.
Definition with_dns (e : Engine) (f : FakeDns) : Engine :=
  {| pkts := pkts e; stack := stack e; sessions := sessions e; port_to_key := port_to_key e; eph_counter := eph_counter e;
     last_netgen := last_netgen e; dns := f; stats := stats e; ports_given := ports_given e |}.
Definition with_tables (e : Engine) (m : gmap TcpSessionKey ActiveSession) (p : gmap Z TcpSessionKey) : Engine :=
  {| pkts := pkts e; stack := stack e; sessions := m; port_to_key := p; eph_counter := eph_counter e;
     last_netgen := last_netgen e; dns := dns e; stats := stats e; ports_given := ports_given e |}.
Definition give_port (e : Engine) (port counter : Z) : Engine :=
  {| pkts := pkts e; stack := stack e; sessions := sessions e; port_to_key := port_to_key e; eph_counter := counter;
     last_netgen := last_netgen e; dns := dns e; stats := stats e; ports_given := port :: ports_given e |}.
Definition with_netgen (e : Engine) (g : Z) : Engine :=
  {| pkts := pkts e; stack := stack e; sessions := sessions e; port_to_key := port_to_key e; eph_counter := eph_counter e;
     last_netgen := g; dns := dns e; stats := stats e; ports_given := ports_given e |}.

(** A fresh loop on a queue the TUN reader may already have filled; the port
    counter outlives the loops of a process. *)
Definition Engine_init (q : PacketQueue) (counter gen : Z) (f : FakeDns) (c : Counters) : Engine :=
  {| pkts := q; stack := smol_init; sessions := ∅; port_to_key := ∅; eph_counter := counter; last_netgen := gen;
     dns := f; stats := c; ports_given := [] |}.

(** [for _ in 0..16 { if !stack.poll() { break; } }] *)
Fixpoint poll_up_to (n : nat) (now : Z) (e : Engine) : Engine :=
  match n with
  | O => e
  | S n =>
      let '(s, q, progress) := iface_poll now (stack e) (pkts e) in
      let e := with_queue (with_stack e s) q in
      if progress then poll_up_to n now e else e
  end.

(** Section 0: the network changed. Every socket is aborted, the resets are
    flushed, the tables are emptied. *)
Definition drop_all (now : Z) (order : list TcpSessionKey) (e : Engine) : Engine :=
  let hs := omap (fun k => smol_handle <$> sessions e !! k) order in
  let e := with_tables (with_stack e (foldl abort (stack e) hs)) ((fun s => set_relay s None) <$> sessions e) (port_to_key e) in
  let e := poll_up_to 16 now e in
  with_stats (with_tables (with_stack e (foldl remove_socket (stack e) hs)) ∅ ∅)
    (foldl (fun c _ => connection_closed c) (stats e) hs).

Definition network_check (now netgen : Z) (order : list TcpSessionKey) (e : Engine) : Engine :=
  if netgen =? last_netgen e then e
  else
    let e := with_netgen e netgen in
    if bool_decide (sessions e = ∅) then e else drop_all now order e.

(** Section 1: the queue is emptied; queries are answered, the rest is kept. *)
Fixpoint intercept_dns (now : Z) (packets : list bytes) (e : Engine) : option (Engine * list bytes) :=
  match packets with
  | [] => Some (e, [])
  | p :: l =>
      '(f, r) ← try_handle_dns now (dns e) p;
      let e := with_dns e f in
      match r with
      | Some response =>
          intercept_dns now l (with_queue (with_stats e (add_dns_query (stats e))) (push_outbound_public (pkts e) response))
      | None => '(e, rest) ← intercept_dns now l e; Some (e, p :: rest)
      end
  end.

Definition take_inbound (e : Engine) : Engine * list bytes :=
  (with_queue e {| inbound := []; smol_outbound := smol_outbound (pkts e); tun_outbound := tun_outbound (pkts e) |},
   inbound (pkts e)).

(** What section 2 reads from a packet: the header length, the flags and the two
    ends. [None] inside is a packet that passes unchanged. *)
Definition tcp_packet (pkt : bytes) : option (option (Z * Z * TcpSessionKey)) :=
  if zlen pkt <? 20 then Some None else
  b0 ← index pkt 0;
  if negb (Z.shiftr b0 4 =? 4) then Some None else
  let ihl := ihl_of b0 in
  protocol ← index pkt 9;
  if (protocol =? 6) && (ihl + 14 <=? zlen pkt) then
    src_port ← port_at pkt ihl; dst_port ← port_at pkt (ihl + 2);
    flags ← index pkt (ihl + 13);
    src_ip ← addr_at pkt 12; dst_ip ← addr_at pkt 16;
    Some (Some (ihl, flags, {| src_addr := SockV4 src_ip src_port; dst_addr := SockV4 dst_ip dst_port |}))
  else Some None.

Definition is_syn (flags : Z) : bool := negb (Z.land flags 0x02 =? 0) && (Z.land flags 0x10 =? 0).

(** A SYN without a session: a port, a listening socket and the table entries.
    The port is spent even if the socket does not listen. *)
Definition open_session (now : Z) (e : Engine) (key : TcpSessionKey) : Engine * option Z :=
  let '(port, counter) := next_ephemeral_port (eph_counter e) in
  let '(s, handle) := add_tcp_socket (stack e) SESSION_RX_BUF SESSION_TX_BUF in
  let '(s, listening) := listen s handle port in
  let e := give_port (with_stack e s) port counter in
  if listening then
    let '(f, dom) := match dst_addr key with
                     | SockV4 ip _ => FakeDns_lookup now (dns e) ip
                     | SockV6 _ _ _ _ => (dns e, None)
                     end in
    let session := {| smol_handle := handle; real_dst := dst_addr key; domain := dom; eph_port := port; relay := None |} in
    let e := with_tables (with_dns e f) (<[key := session]> (sessions e)) (<[port := key]> (port_to_key e)) in
    (with_stats e (add_tcp_syn (connection_opened (stats e))), Some port)
  else (with_stack e (remove_socket (stack e) handle), None).

(** Section 2 for one packet. *)
Definition nat_inbound (now : Z) (pkt : bytes) (e : Engine) : option Engine :=
  t ← tcp_packet pkt;
  '(e, pkt) ←
    match t with
    | None => Some (e, pkt)
    | Some (ihl, flags, key) =>
        match sessions e !! key with
        | None =>
            if is_syn flags then
              match open_session now e key with
              | (e, Some port) => pkt ← rewrite_inbound pkt ihl port; Some (e, pkt)
              | (e, None) => Some (e, pkt)
              end
            else Some (e, pkt)
        | Some session => pkt ← rewrite_inbound pkt ihl (eph_port session); Some (e, pkt)
        end
    end;
  Some (with_queue e (push_inbound (pkts e) pkt)).

Fixpoint nat_inbound_all (now : Z) (packets : list bytes) (e : Engine) : option Engine :=
  match packets with
  | [] => Some e
  | p :: l => e ← nat_inbound now p e; nat_inbound_all now l e
  end.

(** *** Section 4: data *)

(** [TxSink] for a socket: an error counts as nothing accepted. *)
Definition enqueue (s : Smol) (h : Z) (d : bytes) : Smol * Z :=
  let '(s, r) := send_slice s h d in (s, default 0 r).

Inductive DownloadDrain := Idle | Disconnected.

(** The socket, the channel, [pending] and the counters after the call; the
    fourth component is a history, what the socket accepted. *)
Fixpoint drain_download_to_tx (fuel : nat) (s : Smol) (h : Z) (c : Chan bytes) (pending acc : bytes) (st : Counters) :
    option (Smol * Chan bytes * bytes * bytes * Counters * DownloadDrain) :=
  match fuel with
  | O => None
  | S fuel =>
      let flushed :=
        if bool_decide (pending = []) then inr (s, acc, st)
        else if negb (can_send s h) then inl (s, c, pending, acc, st, Idle)
        else
          let '(s, sent) := enqueue s h pending in
          let st := add_smol_send st sent in
          let acc := acc ++ ztake sent pending in
          if sent <? zlen pending then inl (s, c, zdrop sent pending, acc, st, Idle) else inr (s, acc, st) in
      match flushed with
      | inl out => Some out
      | inr (s, acc, st) =>
          if negb (can_send s h) then Some (s, c, [], acc, st, Idle)
          else
            match poll_recv c with
            | Msg data c =>
                let '(s, sent) := enqueue s h data in
                let st := add_smol_send st sent in
                let pending := if sent <? zlen data then zdrop sent data else [] in
                drain_download_to_tx fuel s h c pending (acc ++ ztake sent data) st
            | Pending => Some (s, c, [], acc, st, Idle)
            | Ended => Some (s, c, [], acc, st, Disconnected)
            end
      end
  end.

Definition RECV_BUF : Z := 32768.

(** The upload loop; the third component is what was read from the socket. *)
Fixpoint upload_loop (fuel : nat) (s : Smol) (h : Z) (c : Chan bytes) (acc : bytes) (st : Counters) :
    option (Smol * Chan bytes * bytes * Counters) :=
  match fuel with
  | O => None
  | S fuel =>
      if negb (can_recv s h) then Some (s, c, acc, st)
      else if cap c - zlen (Chan.queue c) =? 0 then Some (s, c, acc, st)
      else
        match recv_slice s h RECV_BUF with
        | (s, Some buf) =>
            if 0 <? zlen buf then
              let st := add_smol_recv st (zlen buf) in
              match try_send c buf with
              | Sent c => upload_loop fuel s h c (acc ++ buf) st
              | Full | Chan.Closed => Some (s, c, acc ++ buf, st)
              end
            else Some (s, c, acc, st)
        | (s, None) => Some (s, c, acc, st)
        end
  end.

Definition CHANNEL_CAP : Z := 512.

Definition new_channels : RelayChannels :=
  {| to_relay := channel CHANNEL_CAP; from_relay := channel CHANNEL_CAP; pending_download := [];
     uploaded := []; downloaded := []; relay_got := []; relay_put := [] |}.

(** One session of section 4; the flag says that it is stale. Spawning the relay
    task is the appearance of its channels. *)
Definition session_turn (key : TcpSessionKey) (e : Engine) : option (Engine * bool) :=
  match sessions e !! key with
  | None => Some (e, false)
  | Some session =>
      let h := smol_handle session in
      let tcp_state := sock_state (stack e) h in
      let relay := match relay session with
                   | Some r => Some r
                   | None => if bool_decide (tcp_state = StEstablished) then Some new_channels else None
                   end in
      let put r e := with_tables e (<[key := set_relay session r]> (sessions e)) (port_to_key e) in
      let closed := bool_decide (tcp_state = StClosed \/ tcp_state = StTimeWait) in
      match relay with
      | None => Some (e, closed)
      | Some r =>
          if rx_gone (to_relay r) then Some (put (Some r) (with_stack e (abort (stack e) h)), true)
          else
            '(s, up, got, st) ← upload_loop (S (Z.to_nat (cap (to_relay r)))) (stack e) h (to_relay r) [] (stats e);
            '(s, down, pending, out, st, d) ←
              drain_download_to_tx (S (length (Chan.queue (from_relay r)))) s h (from_relay r) (pending_download r) [] st;
            let r := {| to_relay := up; from_relay := down; pending_download := pending; uploaded := uploaded r ++ got;
                        downloaded := downloaded r ++ out; relay_got := relay_got r; relay_put := relay_put r |} in
            match d with
            | Idle => Some (put (Some r) (with_stats (with_stack e s) st), closed)
            | Disconnected => Some (put (Some r) (with_stats (with_stack e (abort s h)) st), true)
            end
      end
  end.

Fixpoint session_turns (order : list TcpSessionKey) (e : Engine) : option (Engine * list TcpSessionKey) :=
  match order with
  | [] => Some (e, [])
  | key :: order =>
      '(e, stale) ← session_turn key e;
      '(e, keys) ← session_turns order e;
      Some (e, if stale : bool then key :: keys else keys)
  end.

(** Section 5. *)
Definition close_session (e : Engine) (key : TcpSessionKey) : Engine :=
  match sessions e !! key with
  | None => e
  | Some session =>
      let e := with_tables e (delete key (sessions e)) (delete (eph_port session) (port_to_key e)) in
      with_stats (with_stack e (remove_socket (stack e) (smol_handle session))) (connection_closed (stats e))
  end.

(** Section 7 for one packet. *)
Definition nat_outbound (ports : gmap Z TcpSessionKey) (pkt : bytes) : option bytes :=
  if zlen pkt <? 40 then Some pkt else
  b0 ← index pkt 0; proto ← index pkt 9;
  if negb (Z.shiftr b0 4 =? 4) || negb (proto =? 6) then Some pkt else
  let ihl := ihl_of b0 in
  if zlen pkt <? ihl + 4 then Some pkt else
  src_port ← port_at pkt ihl;
  match ports !! src_port with
  | Some {| dst_addr := SockV4 ip port |} => rewrite_outbound pkt ihl ip port
  | _ => Some pkt
  end.

Fixpoint restore_outbound (packets : list bytes) (e : Engine) : option Engine :=
  match packets with
  | [] => Some e
  | p :: l =>
      p ← nat_outbound (port_to_key e) p;
      restore_outbound l (with_queue e (push_outbound_public (pkts e) p))
  end.

Definition take_smol_outbound (e : Engine) : Engine * list bytes :=
  (with_queue e {| inbound := inbound (pkts e); smol_outbound := []; tun_outbound := tun_outbound (pkts e) |},
   smol_outbound (pkts e)).

(** One turn of the loop up to its wait; [order] lists the keys of a map. *)
Definition tick (now netgen : Z) (order : gmap TcpSessionKey ActiveSession -> list TcpSessionKey) (e : Engine) :
    option Engine :=
  let e := network_check now netgen (order (sessions e)) e in
  let '(e, packets) := take_inbound e in
  '(e, tcp_packets) ← intercept_dns now packets e;
  e ← nat_inbound_all now tcp_packets e;
  let e := poll_up_to 16 now e in
  '(e, stale_keys) ← session_turns (order (sessions e)) e;
  let e := foldl close_session e stale_keys in
  let e := poll_up_to 16 now e in
  let '(e, out) := take_smol_outbound e in
  restore_outbound out e.

(** ** Runs

    The loop, the TUN reader and writer, and the relay tasks on their side of the
    channels. *)

Definition key_order (order : gmap TcpSessionKey ActiveSession -> list TcpSessionKey) : Prop :=
  forall m, order m ≡ₚ (map_to_list m).*1.

Definition on_relay (key : TcpSessionKey) (f : RelayChannels -> option RelayChannels) (e : Engine) : option Engine :=
  session ← sessions e !! key;
  r ← relay session;
  r ← f r;
  Some (with_tables e (<[key := set_relay session (Some r)]> (sessions e)) (port_to_key e)).

Definition relay_takes (m : bytes) (r : RelayChannels) : option RelayChannels :=
  if rx_gone (to_relay r) then None else
  match poll_recv (to_relay r) with
  | Msg m' c => if bool_decide (m' = m)
                then Some {| to_relay := c; from_relay := from_relay r; pending_download := pending_download r;
                             uploaded := uploaded r; downloaded := downloaded r; relay_got := relay_got r ++ m;
                             relay_put := relay_put r |}
                else None
  | _ => None
  end.

Definition relay_sends (d : bytes) (r : RelayChannels) : option RelayChannels :=
  if tx_gone (from_relay r) then None else
  match try_send (from_relay r) d with
  | Sent c => Some {| to_relay := to_relay r; from_relay := c; pending_download := pending_download r;
                      uploaded := uploaded r; downloaded := downloaded r; relay_got := relay_got r;
                      relay_put := relay_put r ++ d |}
  | _ => None
  end.

(** A relay that returns drops its two ends, one after the other. *)
Definition relay_drops_rx (r : RelayChannels) : option RelayChannels :=
  Some {| to_relay := drop_rx (to_relay r); from_relay := from_relay r; pending_download := pending_download r;
          uploaded := uploaded r; downloaded := downloaded r; relay_got := relay_got r; relay_put := relay_put r |}.
Definition relay_drops_tx (r : RelayChannels) : option RelayChannels :=
  Some {| to_relay := to_relay r; from_relay := drop_tx (from_relay r); pending_download := pending_download r;
          uploaded := uploaded r; downloaded := downloaded r; relay_got := relay_got r; relay_put := relay_put r |}.

Inductive engine_step (e : Engine) : Engine -> Prop :=
| es_tick now netgen order e' : key_order order -> tick now netgen order e = Some e' -> engine_step e e'
| es_tun p : engine_step e (with_queue e (push_inbound (pkts e) p))
| es_tun_out p q : pop_outbound (pkts e) = Some (p, q) -> engine_step e (with_queue e q)
| es_take key m e' : on_relay key (relay_takes m) e = Some e' -> engine_step e e'
| es_send key d e' : on_relay key (relay_sends d) e = Some e' -> engine_step e e'
| es_drop_rx key e' : on_relay key relay_drops_rx e = Some e' -> engine_step e e'
| es_drop_tx key e' : on_relay key relay_drops_tx e = Some e' -> engine_step e e'.

(** ** The tables *)

(** The [i]-th port a counter that starts at [c] gives. *)
Definition port_n (c : Z) (i : nat) : Z := 10000 + (c - 10000 + Z.of_nat i) mod 50001.

(** What the tables say at any time. After the counter has come round a session
    may have lost its port to a later one. *)
Record tables (c0 a0 : Z) (m : gmap TcpSessionKey ActiveSession) (p : gmap Z TcpSessionKey) (counter : Z)
    (given : list Z) (active : Z) : Prop := {
  tb_given : given = reverse (port_n c0 <$> seq 0 (length given));
  tb_counter : counter = port_n c0 (length given);
  tb_back : forall port k, p !! port = Some k -> exists s, m !! k = Some s /\ eph_port s = port;
  tb_session : forall k s, m !! k = Some s ->
    real_dst s = dst_addr k /\ eph_port s ∈ given /\ (NoDup given -> p !! eph_port s = Some k);
  tb_active : active = u32 (a0 + Z.of_nat (size m))
}.

Definition tables_ok (c0 a0 : Z) (e : Engine) : Prop :=
  tables c0 a0 (sessions e) (port_to_key e) (eph_counter e) (ports_given e) (active_connections (stats e)).

Lemma port_n_range c i : 10000 <= port_n c i <= 60000.
Proof. unfold port_n. pose proof (Z.mod_pos_bound (c - 10000 + Z.of_nat i) 50001 ltac:(done)). lia. Qed.

Lemma port_n_next c i : next_ephemeral_port (port_n c i) = (port_n c i, port_n c (S i)).
Proof.
  pose proof (port_n_range c i). unfold next_ephemeral_port. f_equal. unfold port_n in *.
  set (x := c - 10000 + Z.of_nat i) in *. replace (c - 10000 + Z.of_nat (S i)) with (x + 1) by (unfold x; lia).
  case_cmp; [divmod |]. unfold u16. change (2 ^ 16) with 65536. rewrite Z.mod_small by lia. divmod.
Qed.

Lemma port_n_inj c i j : Z.of_nat i < 50001 -> Z.of_nat j < 50001 -> port_n c i = port_n c j -> i = j.
Proof. unfold port_n. intros Hi Hj E. assert ((c - 10000 + Z.of_nat i) mod 50001 = (c - 10000 + Z.of_nat j) mod 50001) by lia. divmod. Qed.

Lemma ports_fresh c0 n : Z.of_nat n <= 50001 -> NoDup (reverse (port_n c0 <$> seq 0 n)).
Proof.
  intros Hn. rewrite reverse_Permutation. apply NoDup_fmap_2_strong; [| apply NoDup_seq].
  intros i j Hi%elem_of_seq Hj%elem_of_seq. apply port_n_inj; lia.
Qed.

Lemma tables_set_relay c0 a0 m p ctr given act k s r :
  m !! k = Some s -> tables c0 a0 m p ctr given act -> tables c0 a0 (<[k := set_relay s r]> m) p ctr given act.
Proof.
  intros Hk [H1 H2 H3 H4 H5]. constructor; [done | done | | |].
  - intros port k' Hp. destruct (H3 _ _ Hp) as (s' & Hs' & <-). destruct (decide (k = k')) as [<- | Hne].
    + rewrite lookup_insert_eq. replace s' with s by congruence. by eexists.
    + rewrite lookup_insert_ne by done. by exists s'.
  - intros k' s'. destruct (decide (k = k')) as [<- | Hne].
    + rewrite lookup_insert_eq. intros [= <-]. by apply (H4 _ _ Hk).
    + rewrite lookup_insert_ne by done. apply H4.
  - rewrite map_size_insert_Some by by eexists. done.
Qed.

Lemma tables_close c0 a0 m p ctr given act k s :
  m !! k = Some s -> tables c0 a0 m p ctr given act ->
  tables c0 a0 (delete k m) (delete (eph_port s) p) ctr given (u32 (act - 1)).
Proof.
  intros Hk [H1 H2 H3 H4 H5]. constructor; [done | done | | |].
  - intros port k' [Hne Hp]%lookup_delete_Some. destruct (H3 _ _ Hp) as (s' & Hs' & <-).
    exists s'. split; [| done]. rewrite lookup_delete_ne; [done |]. intros <-. congruence.
  - intros k' s' [Hne Hs']%lookup_delete_Some. destruct (H4 _ _ Hs') as (Hd & Hg & Hp). split_and!; [done | done |].
    intros Hnd. rewrite lookup_delete_ne; [by apply Hp |]. intros E.
    destruct (H4 _ _ Hk) as (_ & _ & Hpk). specialize (Hp Hnd). specialize (Hpk Hnd). congruence.
  - rewrite map_size_delete_Some by by eexists. rewrite H5.
    assert (size m <> 0%nat) by (apply (map_size_ne_0_lookup_2 m k); by eexists).
    unfold u32. rewrite Zminus_mod_idemp_l. f_equal. lia.
Qed.

Lemma tables_open c0 a0 m p ctr given act k s :
  m !! k = None -> real_dst s = dst_addr k -> eph_port s = ctr -> tables c0 a0 m p ctr given act ->
  tables c0 a0 (<[k := s]> m) (<[ctr := k]> p) (port_n c0 (S (length given))) (ctr :: given) (u32 (act + 1)).
Proof.
  intros Hk Hd Hs [H1 H2 H3 H4 H5]. constructor.
  - cbn [length]. rewrite seq_S, fmap_app, reverse_app. cbn. by rewrite <- H1, H2.
  - done.
  - intros port k'. destruct (decide (port = ctr)) as [-> | Hne].
    + rewrite lookup_insert_eq. intros [= <-]. exists s. by rewrite lookup_insert_eq.
    + rewrite lookup_insert_ne by done. intros Hp. destruct (H3 _ _ Hp) as (s' & Hs' & He).
      exists s'. rewrite lookup_insert_ne by congruence. done.
  - intros k' s'. destruct (decide (k' = k)) as [-> | Hne].
    + rewrite lookup_insert_eq. intros [= <-]. rewrite Hs, lookup_insert_eq. split_and!; [done | by left | done].
    + rewrite lookup_insert_ne by done. intros Hs'. destruct (H4 _ _ Hs') as (Hd' & Hg & Hp). split_and!; [done | by right |].
      intros [Hni Hnd]%NoDup_cons. rewrite lookup_insert_ne by congruence. by apply Hp.
  - rewrite map_size_insert_None by done. rewrite H5. unfold u32. rewrite Zplus_mod_idemp_l. f_equal. lia.
Qed.

(** A port that was spent on a socket that does not listen. *)
Lemma tables_spent c0 a0 m p ctr given act :
  tables c0 a0 m p ctr given act -> tables c0 a0 m p (port_n c0 (S (length given))) (ctr :: given) act.
Proof.
  intros [H1 H2 H3 H4 H5]. constructor; [| done | done | | done].
  - cbn [length]. rewrite seq_S, fmap_app, reverse_app. cbn. by rewrite <- H1, H2.
  - intros k s Hs. destruct (H4 _ _ Hs) as (? & ? & Hp). split_and!; [done | by right |].
    intros [_ ?]%NoDup_cons. by apply Hp.
Qed.

Definition same_tables (e e' : Engine) : Prop :=
  sessions e' = sessions e /\ port_to_key e' = port_to_key e /\ eph_counter e' = eph_counter e /\
  ports_given e' = ports_given e /\ active_connections (stats e') = active_connections (stats e).

Lemma tables_same c0 a0 e e' : same_tables e e' -> tables_ok c0 a0 e -> tables_ok c0 a0 e'.
Proof. unfold tables_ok. intros (-> & -> & -> & -> & ->). done. Qed.

Lemma same_tables_refl e : same_tables e e.
Proof. by split_and!. Qed.

Lemma same_trans e1 e2 e3 : same_tables e1 e2 -> same_tables e2 e3 -> same_tables e1 e3.
Proof. intros (? & ? & ? & ? & ?) (? & ? & ? & ? & ?). split_and!; congruence. Qed.

Lemma poll_same n now e : same_tables e (poll_up_to n now e).
Proof.
  revert e. induction n as [| n IH]; intros e; cbn [poll_up_to]; [apply same_tables_refl |].
  destruct (iface_poll now (stack e) (pkts e)) as [[s q] pr]. destruct pr; [| by split_and!].
  eapply same_trans; [| apply IH]. by split_and!.
Qed.

Lemma intercept_same now packets : forall e e' rest,
  intercept_dns now packets e = Some (e', rest) -> same_tables e e'.
Proof.
  induction packets as [| p l IH]; intros e e' rest; cbn [intercept_dns]; [intros [= <- <-]; apply same_tables_refl |].
  destruct (try_handle_dns now (dns e) p) as [[f r] |]; [| done]. cbn [mbind option_bind]. destruct r.
  - intros H%IH. eapply same_trans; [| exact H]. by split_and!.
  - destruct (intercept_dns now l _) as [[e1 rest1] |] eqn:E; [| done]. cbn [mbind option_bind]. intros [= <- <-].
    apply IH in E. eapply same_trans; [| exact E]. by split_and!.
Qed.

Lemma open_session_ok c0 a0 now e key :
  sessions e !! key = None -> tables_ok c0 a0 e -> tables_ok c0 a0 (open_session now e key).1.
Proof.
  intros Hk Ht. unfold open_session. pose proof (tb_counter _ _ _ _ _ _ _ Ht) as Hc. rewrite Hc, port_n_next, <- Hc.
  destruct (add_tcp_socket (stack e) _ _) as [s h]. destruct (listen s h _) as [s' ok]. destruct ok.
  - set (fd := match dst_addr key with SockV4 ip _ => _ | SockV6 _ _ _ _ => _ end). destruct fd as [f dom].
    by apply tables_open.
  - by apply tables_spent.
Qed.

Lemma nat_inbound_ok c0 a0 now pkt e e' : nat_inbound now pkt e = Some e' -> tables_ok c0 a0 e -> tables_ok c0 a0 e'.
Proof.
  unfold nat_inbound. destruct (tcp_packet pkt) as [t |]; [| done]. cbn [mbind option_bind]. intros H Ht.
  destruct t as [[[ihl flags] key] |]; cbn [mbind option_bind] in H; [| injection H as <-; exact Ht].
  destruct (sessions e !! key) as [session |] eqn:Hk.
  - destruct (rewrite_inbound pkt ihl _); [| done]. injection H as <-. exact Ht.
  - destruct (is_syn flags); [| injection H as <-; exact Ht].
    pose proof (open_session_ok c0 a0 now e key Hk Ht) as Ho. destruct (open_session now e key) as [e1 [port |]].
    + destruct (rewrite_inbound pkt ihl port); [| done]. injection H as <-. exact Ho.
    + injection H as <-. exact Ho.
Qed.

Lemma nat_inbound_all_ok c0 a0 now packets : forall e e',
  nat_inbound_all now packets e = Some e' -> tables_ok c0 a0 e -> tables_ok c0 a0 e'.
Proof.
  induction packets as [| p l IH]; intros e e'; cbn [nat_inbound_all]; [by intros [= <-] |].
  destruct (nat_inbound now p e) as [e1 |] eqn:E; [| done]. cbn [mbind option_bind]. intros H Ht.
  eapply IH; [exact H |]. by eapply nat_inbound_ok.
Qed.

Lemma upload_loop_counts fuel : forall s h c acc st s' c' acc' st',
  upload_loop fuel s h c acc st = Some (s', c', acc', st') -> active_connections st' = active_connections st.
Proof.
  induction fuel as [| fuel IH]; intros s h c acc st s' c' acc' st'; cbn [upload_loop]; [done |].
  case_cmp; [by intros [= <- <- <- <-] |]. case_cmp; [by intros [= <- <- <- <-] |].
  destruct (recv_slice s h RECV_BUF) as [s1 [buf |]]; [| by intros [= <- <- <- <-]].
  case_cmp; [| by intros [= <- <- <- <-]].
  destruct (try_send c buf); [| by intros [= <- <- <- <-] | by intros [= <- <- <- <-]]. intros ->%IH. done.
Qed.

Lemma drain_counts fuel : forall s h c pending acc st s' c' pending' acc' st' d,
  drain_download_to_tx fuel s h c pending acc st = Some (s', c', pending', acc', st', d) ->
  active_connections st' = active_connections st.
Proof.
  induction fuel as [| fuel IH]; intros s h c pending acc st s' c' pending' acc' st' d; cbn [drain_download_to_tx]; [done |].
  assert (Hloop : forall s acc (st1 : Counters),
    (if negb (can_send s h) then Some (s, c, [], acc, st1, Idle)
     else match poll_recv c with
          | Msg data c =>
              let '(s, sent) := enqueue s h data in
              let st := add_smol_send st1 sent in
              let pending := if sent <? zlen data then zdrop sent data else [] in
              drain_download_to_tx fuel s h c pending (acc ++ ztake sent data) st
          | Pending => Some (s, c, [], acc, st1, Idle)
          | Ended => Some (s, c, [], acc, st1, Disconnected)
          end) = Some (s', c', pending', acc', st', d) -> active_connections st' = active_connections st1).
  { intros s1 acc1 st1. case_cmp; [by intros [= <- <- <- <- <- <-] |].
    destruct (poll_recv c); [| by intros [= <- <- <- <- <- <-] | by intros [= <- <- <- <- <- <-]].
    destruct (enqueue s1 h m) as [s2 sent]. intros ->%IH. done. }
  case_bool_decide; [apply Hloop |]. destruct (can_send s h); cbn [negb]; [| by intros [= <- <- <- <- <- <-]].
  destruct (enqueue s h pending) as [s1 sent]. destruct (sent <? zlen pending); [by intros [= <- <- <- <- <- <-] |].
  intros ->%Hloop. done.
Qed.

Lemma session_turn_ok c0 a0 key e e' stale :
  session_turn key e = Some (e', stale) -> tables_ok c0 a0 e -> tables_ok c0 a0 e'.
Proof.
  unfold session_turn. destruct (sessions e !! key) as [session |] eqn:Hk; [| by intros [= <- <-]].
  set (rel := match relay session with Some r => _ | None => _ end).
  destruct rel as [r |]; [| by intros [= <- <-]]. intros H Ht. unfold tables_ok in *.
  destruct (rx_gone (to_relay r)); [injection H as <- <-; by eapply tables_set_relay |].
  destruct (upload_loop _ _ _ _ _ _) as [[[[s up] got] st] |] eqn:Eu; [| done]. cbn [mbind option_bind] in H.
  destruct (drain_download_to_tx _ _ _ _ _ _ _) as [[[[[[s2 down] pending] acc] st2] d] |] eqn:Ed; [| done].
  cbn [mbind option_bind] in H. apply upload_loop_counts in Eu. apply drain_counts in Ed.
  destruct d; injection H as <- <-; cbn; rewrite Ed, Eu; by eapply tables_set_relay.
Qed.

Lemma session_turns_ok c0 a0 order : forall e e' stale,
  session_turns order e = Some (e', stale) -> tables_ok c0 a0 e -> tables_ok c0 a0 e'.
Proof.
  induction order as [| key order IH]; intros e e' stale; cbn [session_turns]; [by intros [= <- <-] |].
  destruct (session_turn key e) as [[e1 b] |] eqn:E1; [| done]. cbn [mbind option_bind].
  destruct (session_turns order e1) as [[e2 keys] |] eqn:E2; [| done]. cbn [mbind option_bind]. intros [= <- <-] Ht.
  eapply IH; [exact E2 |]. by eapply session_turn_ok.
Qed.

Lemma close_session_ok c0 a0 e key : tables_ok c0 a0 e -> tables_ok c0 a0 (close_session e key).
Proof.
  intros Ht. unfold close_session. destruct (sessions e !! key) as [session |] eqn:Hk; [| done].
  by apply tables_close.
Qed.

Lemma close_sessions_ok c0 a0 keys : forall e, tables_ok c0 a0 e -> tables_ok c0 a0 (foldl close_session e keys).
Proof. induction keys as [| k keys IH]; intros e Ht; [done |]. cbn [foldl]. by apply IH, close_session_ok. Qed.

Lemma restore_same packets : forall e e', restore_outbound packets e = Some e' -> same_tables e e'.
Proof.
  induction packets as [| p l IH]; intros e e'; cbn [restore_outbound]; [intros [= <-]; apply same_tables_refl |].
  destruct (nat_outbound _ p); [| done]. cbn [mbind option_bind]. intros H%IH. eapply same_trans; [| exact H]. by split_and!.
Qed.

Lemma foldl_closed {A} (l : list A) c :
  active_connections (foldl (fun c _ => connection_closed c) c l) = u32 (active_connections c - zlen l) \/ l = [].
Proof.
  destruct l as [| x l]; [by right | left]. cbn [foldl]. rewrite zlen_cons.
  assert (H : forall (l : list A) c, u32 (active_connections (foldl (fun c _ => connection_closed c) c l)) =
    u32 (active_connections c - zlen l) /\ (active_connections c = u32 (active_connections c) ->
    active_connections (foldl (fun c _ => connection_closed c) c l) = u32 (active_connections (foldl (fun c _ => connection_closed c) c l)))).
  { clear. induction l as [| y l IH]; intros c; cbn [foldl].
    - change (zlen []) with 0. by rewrite Z.sub_0_r.
    - rewrite zlen_cons. destruct (IH (connection_closed c)) as [E1 E2]. split.
      + rewrite E1. cbn [connection_closed active_connections]. unfold u32. rewrite Zminus_mod_idemp_l. f_equal. lia.
      + intros _. apply E2. cbn [connection_closed active_connections]. unfold u32. by rewrite Z.mod_mod. }
  destruct (H l (connection_closed c)) as [E1 E2]. rewrite E2, E1.
  - cbn [connection_closed active_connections]. unfold u32. rewrite Zminus_mod_idemp_l. f_equal. lia.
  - cbn [connection_closed active_connections]. unfold u32. by rewrite Z.mod_mod.
Qed.

Lemma handles_length (m : gmap TcpSessionKey ActiveSession) ks :
  ks ≡ₚ (map_to_list m).*1 -> length (omap (fun k => smol_handle <$> m !! k) ks) = size m.
Proof.
  intros Hp. assert (H : forall l, (forall k, k ∈ l -> is_Some (m !! k)) -> length (omap (fun k => smol_handle <$> m !! k) l) = length l).
  { induction l as [| k l IH]; intros Hl; [done |]. destruct (Hl k ltac:(by left)) as [s Hs]. cbn. rewrite Hs. cbn.
    f_equal. apply IH. intros k' Hk'. apply Hl. by right. }
  rewrite H.
  - by rewrite Hp, length_fmap, length_map_to_list.
  - intros k. rewrite Hp. intros ((k' & s) & -> & Hks%elem_of_map_to_list)%list_elem_of_fmap. by eexists.
Qed.

Lemma drop_all_ok c0 a0 now ks e :
  sessions e <> ∅ -> ks ≡ₚ (map_to_list (sessions e)).*1 -> tables_ok c0 a0 e -> tables_ok c0 a0 (drop_all now ks e).
Proof.
  intros Hne Hp Ht. unfold drop_all. set (hs := omap _ ks). set (e1 := with_tables (with_stack e _) _ (port_to_key e)).
  destruct (poll_same 16 now e1) as (_ & _ & E3 & E4 & E5). set (e2 := poll_up_to 16 now e1) in *.
  assert (Hl : length hs = size (sessions e)) by by apply handles_length.
  unfold tables_ok in *. destruct Ht as [H1 H2 H3 H4 H5].
  change (tables c0 a0 ∅ ∅ (eph_counter e2) (ports_given e2)
    (active_connections (foldl (fun c _ => connection_closed c) (stats e2) hs))).
  rewrite E3, E4. constructor; [done | done | done | done |].
  destruct (foldl_closed hs (stats e2)) as [-> | Hnil].
  - rewrite E5. change (active_connections (stats e1)) with (active_connections (stats e)). rewrite H5, map_size_empty.
    unfold u32. rewrite Zminus_mod_idemp_l. f_equal. unfold zlen. lia.
  - exfalso. apply Hne, map_size_empty_inv. by rewrite <- Hl, Hnil.
Qed.

Lemma network_check_ok c0 a0 now g ks e :
  ks ≡ₚ (map_to_list (sessions e)).*1 -> tables_ok c0 a0 e -> tables_ok c0 a0 (network_check now g ks e).
Proof.
  intros Hp Ht. unfold network_check. case_cmp; [done |]. case_bool_decide; [done |]. by apply drop_all_ok.
Qed.

Lemma tick_ok c0 a0 now g order e e' :
  key_order order -> tick now g order e = Some e' -> tables_ok c0 a0 e -> tables_ok c0 a0 e'.
Proof.
  intros Ho H Ht. unfold tick in H. set (e1 := network_check _ _ _ e) in H.
  assert (H1 : tables_ok c0 a0 e1) by by apply network_check_ok. clearbody e1.
  unfold take_inbound in H. set (e1' := with_queue e1 _) in H.
  destruct (intercept_dns now (inbound (pkts e1)) e1') as [[e2 rest] |] eqn:E2; [| done]. cbn [mbind option_bind] in H.
  apply intercept_same in E2. assert (H2 : tables_ok c0 a0 e2) by (apply (tables_same c0 a0 e1' e2 E2); exact H1).
  destruct (nat_inbound_all now rest e2) as [e3 |] eqn:E3; [| done]. cbn [mbind option_bind] in H.
  apply (nat_inbound_all_ok c0 a0) in E3; [| done].
  pose proof (tables_same c0 a0 _ _ (poll_same 16 now e3) E3) as H4. set (e4 := poll_up_to 16 now e3) in *. clearbody e4.
  destruct (session_turns (order (sessions e4)) e4) as [[e5 stale] |] eqn:E5; [| done]. cbn [mbind option_bind] in H.
  apply (session_turns_ok c0 a0) in E5; [| done]. apply (close_sessions_ok c0 a0 stale) in E5.
  set (e6 := foldl close_session e5 stale) in *. clearbody e6.
  pose proof (tables_same c0 a0 _ _ (poll_same 16 now e6) E5) as H7. set (e7 := poll_up_to 16 now e6) in *. clearbody e7.
  unfold take_smol_outbound in H. apply restore_same in H. eapply tables_same; [exact H |]. exact H7.
Qed.

Lemma on_relay_ok c0 a0 key f e e' : on_relay key f e = Some e' -> tables_ok c0 a0 e -> tables_ok c0 a0 e'.
Proof.
  unfold on_relay. destruct (sessions e !! key) as [s |] eqn:Hk; [| done]. cbn [mbind option_bind].
  destruct (relay s); [| done]. cbn [mbind option_bind]. destruct (f r); [| done]. cbn [mbind option_bind].
  intros [= <-] Ht. by apply tables_set_relay.
Qed.

Lemma engine_step_ok c0 a0 e e' : engine_step e e' -> tables_ok c0 a0 e -> tables_ok c0 a0 e'.
Proof.
  intros [now g order e1 Ho H | p | p q _ | key m e1 H | key d e1 H | key e1 H | key e1 H] Ht;
    [by eapply tick_ok | exact Ht | exact Ht | by eapply on_relay_ok ..].
Qed.

Lemma engine_reach_ok c0 q gen f st e :
  10000 <= c0 <= 60000 -> 0 <= active_connections st < 2 ^ 32 -> rtc engine_step (Engine_init q c0 gen f st) e ->
  tables_ok c0 (active_connections st) e.
Proof.
  intros Hc Ha Hr. assert (H0 : tables_ok c0 (active_connections st) (Engine_init q c0 gen f st)).
  { constructor; cbn; [done | | done | done |].
    - unfold port_n. rewrite Z.add_0_r, Z.mod_small; lia.
    - rewrite Z.add_0_r. unfold u32. by rewrite Z.mod_small. }
  revert H0. induction Hr as [e | e1 e2 e3 Hs _ IH]; intros H0; [done |]. apply IH. by eapply engine_step_ok.
Qed.

(** ** Rewriting packets of a session *)

Definition view_key (v : TcpView) : TcpSessionKey :=
  {| src_addr := SockV4 (tv_src v) (tv_sport v); dst_addr := SockV4 (tv_dst v) (tv_dport v) |}.

Lemma tcp_packet_view v : tcp4 v -> tcp_packet (assemble v) = Some (Some (view_ihl v, view_flags v, view_key v)).
Proof.
  intros (Hv & (b0 & H0 & Hver & Hihl) & H9). destruct (view_reads v Hv) as (E1 & E2 & E3 & E4 & E5 & Hl).
  pose proof (zlen_nonneg (tv_rest v)). pose proof (zlen_nonneg (tv_opts v)). unfold tcp_packet.
  assert (20 <= view_ihl v) by (unfold view_ihl; lia).
  destruct (Z.ltb_spec (zlen (assemble v)) 20); [lia |]. rewrite !head_index, H0, H9 by (done || lia). cbn [mbind option_bind].
  rewrite Hver, Hihl. cbn [Z.eqb Pos.eqb negb andb]. destruct (Z.leb_spec (view_ihl v + 14) (zlen (assemble v))); [| lia].
  by rewrite E3, E4, E5, E1, E2.
Qed.

Lemma nat_outbound_view (ports : gmap Z TcpSessionKey) w k ip port :
  tcp4 w -> 40 <= zlen (assemble w) -> ports !! tv_sport w = Some k -> dst_addr k = SockV4 ip port ->
  nat_outbound ports (assemble w) = rewrite_outbound (assemble w) (view_ihl w) ip port.
Proof.
  intros (Hv & (b0 & H0 & Hver & Hihl) & H9) Hmin Hk Hd. destruct (view_reads w Hv) as (_ & _ & E3 & _ & _ & Hl).
  pose proof (zlen_nonneg (tv_rest w)). unfold nat_outbound.
  destruct (Z.ltb_spec (zlen (assemble w)) 40); [lia |]. rewrite !head_index, H0, H9 by (done || lia). cbn [mbind option_bind].
  rewrite Hver, Hihl. cbn [Z.eqb Pos.eqb negb orb]. destruct (Z.ltb_spec (zlen (assemble w)) (view_ihl w + 4)); [lia |].
  rewrite E3. cbn [mbind option_bind]. rewrite Hk. destruct k as [sk dk]. cbn in Hd. by subst dk.
Qed.

Lemma engine_nodup c0 a0 e : tables_ok c0 a0 e -> zlen (ports_given e) <= 50001 -> NoDup (ports_given e).
Proof. intros [H1 _ _ _ _] Hl. rewrite H1. apply ports_fresh. exact Hl. Qed.

(** C29: in every run of the loop, and as long as it has given out at most 50001
    ports (one turn of the counter), a live session and its port name each other:
    no two sessions share a port, and the port map has nothing else. A packet of
    the device that belongs to a session goes to the socket of that session as it
    was, but for the destination, and with valid checksums; whatever the socket
    of the session answers to that device goes back as it was from the very
    address and port the device had sent to, again with valid checksums. The
    counter of active connections is the number of sessions. *)
Theorem nat_round_trip c0 q gen f st e :
  10000 <= c0 <= 60000 -> 0 <= active_connections st < 2 ^ 32 -> rtc engine_step (Engine_init q c0 gen f st) e ->
  active_connections (stats e) = u32 (active_connections st + Z.of_nat (size (sessions e))) /\
  (zlen (ports_given e) <= 50001 ->
   (forall port k, port_to_key e !! port = Some k <-> exists s, sessions e !! k = Some s /\ eph_port s = port) /\
   forall v s, tcp4 v -> sessions e !! view_key v = Some s ->
     real_dst s = SockV4 (tv_dst v) (tv_dport v) /\
     (forall now, exists ipck ck,
        let v' := readdress v (tv_src v) SMOL_IP (tv_sport v) (eph_port s) ipck ck in
        nat_inbound now (assemble v) e = Some (with_queue e (push_inbound (pkts e) (assemble v'))) /\ view_valid v') /\
     (forall w, tcp4 w -> 40 <= zlen (assemble w) -> tv_sport w = eph_port s ->
        tv_dst w = tv_src v -> tv_dport w = tv_sport v ->
        exists ipck ck,
          let w' := readdress w (tv_dst v) (tv_src v) (tv_dport v) (tv_sport v) ipck ck in
          nat_outbound (port_to_key e) (assemble w) = Some (assemble w') /\ view_valid w')).
Proof.
  intros Hc Ha Hr. pose proof (engine_reach_ok _ _ _ _ _ _ Hc Ha Hr) as Ht. split; [apply Ht |]. intros Hn.
  pose proof (engine_nodup _ _ _ Ht Hn) as Hnd. destruct Ht as [H1 H2 H3 H4 H5].
  assert (Hiff : forall port k, port_to_key e !! port = Some k <-> exists s, sessions e !! k = Some s /\ eph_port s = port).
  { intros port k. split; [apply H3 |]. intros (s & Hs & <-). by apply (H4 k s Hs). }
  split; [done |]. intros v s Hv Hs. pose proof Hv as (Hvo & _ & _). pose proof Hvo as [_ _ _ _ _ _ [Hsa Hda] [Hsp Hdp]].
  destruct (H4 _ _ Hs) as (Hd & Hg & Hp). specialize (Hp Hnd). split; [exact Hd |].
  assert (Heph : 0 <= eph_port s < 2 ^ 16).
  { rewrite H1, reverse_Permutation in Hg.
    apply list_elem_of_fmap in Hg as (i & -> & _). pose proof (port_n_range c0 i). change (2 ^ 16) with 65536. lia. }
  split.
  - intros now. destruct (rewrite_inbound_spec v (eph_port s) Hvo Heph) as (ipck & ck & E & _ & Hok).
    exists ipck, ck. split; [| exact Hok]. unfold nat_inbound. rewrite tcp_packet_view by done. cbn [mbind option_bind].
    rewrite Hs, E. done.
  - intros w Hw H40 Esp Edst Edp. pose proof Hw as (Hwo & _ & _).
    destruct (rewrite_outbound_spec w (tv_dst v) (tv_dport v) Hwo Hda Hdp) as (ipck & ck & E & _ & Hok).
    exists ipck, ck. rewrite <- Edst, <- Edp. split; [| exact Hok].
    rewrite (nat_outbound_view _ w (view_key v) (tv_dst v) (tv_dport v)); [exact E | done | done | by rewrite Esp | done].
Qed.

(** The packets a turn of the loop does not survive: TCP packets of a session,
    or SYNs that open one, that end before or inside the checksum field. *)
Theorem packet_panics now pkt e :
  nat_inbound now pkt e = None <->
  exists ihl flags key, tcp_packet pkt = Some (Some (ihl, flags, key)) /\ zlen pkt < ihl + 18 /\
    (is_Some (sessions e !! key) \/ is_syn flags = true /\ sessions e !! key = None /\ (open_session now e key).2 <> None).
Proof.
  assert (Htot : exists t, tcp_packet pkt = Some t /\ forall ihl flags key, t = Some (ihl, flags, key) -> 0 <= ihl /\ 20 <= zlen pkt).
  { unfold tcp_packet. case_cmp; [by eexists |]. destruct (index_some pkt 0 ltac:(lia)) as [b0 ->]. cbn [mbind option_bind].
    case_cmp; [by eexists |]. destruct (index_some pkt 9 ltac:(lia)) as [pr ->]. cbn [mbind option_bind].
    assert (0 <= ihl_of b0) by (unfold ihl_of; pose proof (Z.land_nonneg b0 15); lia).
    case_cmp; [| by eexists]. bool_props. unfold port_at, addr_at.
    destruct (index_some pkt (ihl_of b0) ltac:(lia)) as [? ->], (index_some pkt (ihl_of b0 + 1) ltac:(lia)) as [? ->],
      (index_some pkt (ihl_of b0 + 2) ltac:(lia)) as [? ->], (index_some pkt (ihl_of b0 + 2 + 1) ltac:(lia)) as [? ->],
      (index_some pkt (ihl_of b0 + 13) ltac:(lia)) as [? ->]. cbn [mbind option_bind].
    destruct (index_some pkt 12 ltac:(lia)) as [? ->], (index_some pkt (12 + 1) ltac:(lia)) as [? ->],
      (index_some pkt (12 + 2) ltac:(lia)) as [? ->], (index_some pkt (12 + 3) ltac:(lia)) as [? ->],
      (index_some pkt 16 ltac:(lia)) as [? ->], (index_some pkt (16 + 1) ltac:(lia)) as [? ->],
      (index_some pkt (16 + 2) ltac:(lia)) as [? ->], (index_some pkt (16 + 3) ltac:(lia)) as [? ->]. cbn [mbind option_bind].
    eexists. split; [reflexivity |]. intros ? ? ? [= <- <- <-]. lia. }
  destruct Htot as (t & E & Ht). unfold nat_inbound. rewrite E. cbn [mbind option_bind].
  assert (Hrw : forall ihl flags key eph, t = Some (ihl, flags, key) -> rewrite_inbound pkt ihl eph = None <-> zlen pkt < ihl + 18).
  { intros ihl flags key eph Et. destruct (Ht _ _ _ Et) as [Hi H20]. split.
    - intros Hn. destruct (Z.lt_ge_cases (zlen pkt) (ihl + 18)); [done |].
      destruct (rewrite_inbound_total pkt ihl eph) as [p Hp]; [lia | lia | lia | congruence].
    - intros Hl. by apply rewrite_inbound_short. }
  destruct t as [[[ihl flags] key] |]; [| split; [done | by intros (? & ? & ? & [=] & _)]].
  pose proof (Hrw ihl flags key) as Hr. clear Hrw. destruct (sessions e !! key) as [s |] eqn:Hs.
  - pose proof (Hr (eph_port s) eq_refl) as Hr'. destruct (rewrite_inbound pkt ihl (eph_port s)) as [p |]; cbn [mbind option_bind].
    + split; [done |]. intros (? & ? & ? & [= <- <- <-] & Hl & _). by apply Hr' in Hl.
    + split; [| done]. intros _. exists ihl, flags, key. split_and!; [done | by apply Hr' | left; by rewrite Hs].
  - destruct (is_syn flags) eqn:Hsyn; cbn [mbind option_bind].
    2: { split; [done |]. intros (? & ? & ? & [= <- <- <-] & _ & [[? Hx] | [Hx _]]); congruence. }
    destruct (open_session now e key) as [e1 [port |]] eqn:Eo.
    + pose proof (Hr port eq_refl) as Hr'. destruct (rewrite_inbound pkt ihl port) as [p |]; cbn [mbind option_bind].
      * split; [done |]. intros (? & ? & ? & [= <- <- <-] & Hl & _). by apply Hr' in Hl.
      * split; [| done]. intros _. exists ihl, flags, key. split_and!; [done | by apply Hr' |]. right. by rewrite Eo.
    + split; [done |]. intros (? & ? & ? & [= <- <- <-] & _ & [[? Hx] | (_ & _ & Hx)]); [congruence | by rewrite Eo in Hx].
Qed.

(** ** The data of a session *)

Lemma upload_loop_spec fuel : forall s h c acc st,
  rx_gone c = false -> chan_ok c -> (Z.to_nat (cap c - zlen (Chan.queue c)) < fuel)%nat ->
  exists s' c' got st', upload_loop fuel s h c acc st = Some (s', c', acc ++ got, st') /\
    concat (Chan.queue c') = concat (Chan.queue c) ++ got /\ chan_ok c' /\ rx_gone c' = false /\
    cap c' = cap c /\ tx_gone c' = tx_gone c.
Proof.
  induction fuel as [| fuel IH]; intros s h c acc st Hrx Hok Hf; [lia |]. cbn [upload_loop].
  assert (Hstop : forall (s1 : Smol) (st1 : Counters), exists s' c' got st', Some (s1, c, acc, st1) = Some (s', c', acc ++ got, st') /\
    concat (Chan.queue c') = concat (Chan.queue c) ++ got /\ chan_ok c' /\ rx_gone c' = false /\
    cap c' = cap c /\ tx_gone c' = tx_gone c).
  { intros s1 st1. exists s1, c, [], st1. by rewrite !app_nil_r. }
  destruct (can_recv s h); cbn [negb]; [| apply Hstop].
  destruct (Z.eqb_spec (cap c - zlen (Chan.queue c)) 0); [apply Hstop |].
  destruct (recv_slice s h RECV_BUF) as [s1 [buf |]]; [| apply Hstop].
  destruct (0 <? zlen buf); [| apply Hstop]. unfold chan_ok in Hok. unfold try_send. rewrite Hrx.
  destruct (Z.ltb_spec (zlen (Chan.queue c)) (cap c)); [| lia].
  destruct (IH s1 h (Chan.with_queue c (Chan.queue c ++ [buf])) (acc ++ buf) (add_smol_recv st (zlen buf)))
    as (s' & c' & got & st' & -> & Hq & Hc' & Hr' & Hcap & Htx);
    [done | unfold chan_ok; cbn; rewrite zlen_app; change (zlen [buf]) with 1; lia
    | cbn; rewrite zlen_app; change (zlen [buf]) with 1; lia |].
  exists s', c', (buf ++ got), st'. rewrite <- app_assoc. split_and!; try done.
  rewrite Hq. cbn. rewrite concat_app. cbn. by rewrite app_nil_r, <- app_assoc.
Qed.

(** What is left to deliver. *)
Definition undelivered (pending : bytes) (c : Chan bytes) : bytes := pending ++ concat (Chan.queue c).

Lemma enqueue_ok s h d s' n : enqueue s h d = (s', n) -> 0 <= n <= zlen d.
Proof.
  unfold enqueue. destruct (send_slice s h d) as [s1 [k |]] eqn:E; intros [= <- <-]; cbn.
  - by eapply send_slice_ok.
  - pose proof (zlen_nonneg d). lia.
Qed.

Lemma drain_spec fuel : forall s h c pending acc st,
  (length (Chan.queue c) < fuel)%nat ->
  exists s' c' pending' out st' d,
    drain_download_to_tx fuel s h c pending acc st = Some (s', c', pending', acc ++ out, st', d) /\
    out ++ undelivered pending' c' = undelivered pending c /\ cap c' = cap c /\ tx_gone c' = tx_gone c /\ rx_gone c' = rx_gone c /\
    (length (Chan.queue c') <= length (Chan.queue c))%nat /\
    match d with
    | Disconnected => undelivered pending' c' = [] /\ tx_gone c' = true
    | Idle => pending' <> [] \/ can_send s' h = false \/ (undelivered pending' c' = [] /\ tx_gone c' = false)
    end.
Proof.
  induction fuel as [| fuel IH]; intros s h c pending acc st Hf; [lia |]. cbn [drain_download_to_tx].
  assert (Hloop : forall (s : Smol) (out : bytes) (st1 : Counters), exists s' c' pending' out' st' d,
    (if negb (can_send s h) then Some (s, c, [], acc ++ out, st1, Idle)
     else match poll_recv c with
          | Msg data c =>
              let '(s, sent) := enqueue s h data in
              let st := add_smol_send st1 sent in
              let pending := if sent <? zlen data then zdrop sent data else [] in
              drain_download_to_tx fuel s h c pending ((acc ++ out) ++ ztake sent data) st
          | Pending => Some (s, c, [], acc ++ out, st1, Idle)
          | Ended => Some (s, c, [], acc ++ out, st1, Disconnected)
          end) = Some (s', c', pending', acc ++ (out ++ out'), st', d) /\
    out' ++ undelivered pending' c' = concat (Chan.queue c) /\ cap c' = cap c /\ tx_gone c' = tx_gone c /\ rx_gone c' = rx_gone c /\
    (length (Chan.queue c') <= length (Chan.queue c))%nat /\
    match d with
    | Disconnected => undelivered pending' c' = [] /\ tx_gone c' = true
    | Idle => pending' <> [] \/ can_send s' h = false \/ (undelivered pending' c' = [] /\ tx_gone c' = false)
    end).
  { intros s1 out st1. destruct (can_send s1 h) eqn:Ecs; cbn [negb].
    2: { eexists s1, c, [], [], st1, Idle. rewrite app_nil_r. split_and!; try done. right. by left. }
    unfold poll_recv. destruct (Chan.queue c) as [| data l] eqn:Eq.
    - destruct (tx_gone c) eqn:Et.
      + eexists s1, c, [], [], st1, Disconnected. rewrite app_nil_r. unfold undelivered. rewrite Eq. by split_and!.
      + eexists s1, c, [], [], st1, Idle. rewrite app_nil_r. unfold undelivered. rewrite Eq. split_and!; try done. right. by right.
    - destruct (enqueue s1 h data) as [s2 sent] eqn:Ee. apply enqueue_ok in Ee. cbn [length] in Hf.
      destruct (IH s2 h (Chan.with_queue c l) (if sent <? zlen data then zdrop sent data else []) ((acc ++ out) ++ ztake sent data)
        (add_smol_send st1 sent)) as (s' & c' & pending' & out' & st' & d & E & Hu & Hc1 & Hc2 & Hc3 & Hle & Hd); [cbn; lia |].
      exists s', c', pending', (ztake sent data ++ out'), st', d. rewrite E. cbn [Chan.queue Chan.with_queue cap tx_gone rx_gone] in *.
      split_and!; try done; [by rewrite <- !app_assoc | | cbn [length]; lia].
      rewrite <- app_assoc, Hu. unfold undelivered. cbn [Chan.queue Chan.with_queue concat]. rewrite app_assoc. f_equal.
      case_cmp; [apply ztake_zdrop |]. rewrite app_nil_r. apply ztake_ge. lia. }
  case_bool_decide as Hp.
  { subst pending. specialize (Hloop s [] st). rewrite app_nil_r in Hloop. exact Hloop. }
  destruct (can_send s h) eqn:Ecs; cbn [negb].
  2: { eexists s, c, pending, [], st, Idle. rewrite app_nil_r. split_and!; try done. by left. }
  destruct (enqueue s h pending) as [s1 sent] eqn:Ee. apply enqueue_ok in Ee. destruct (Z.ltb_spec sent (zlen pending)) as [Hlt | Hge].
  - exists s1, c, (zdrop sent pending), (ztake sent pending), (add_smol_send st sent), Idle. unfold undelivered. split_and!; try done.
    + by rewrite app_assoc, ztake_zdrop.
    + left. intros E. pose proof (zlen_drop sent pending ltac:(lia)) as Hz. rewrite E in Hz. change (zlen (@nil Z)) with 0 in Hz. lia.
  - destruct (Hloop s1 (ztake sent pending) (add_smol_send st sent)) as (s' & c' & pending' & out' & st' & d & E & Hu & Hc1 & Hc2 & Hc3 & Hle & Hd).
    exists s', c', pending', (ztake sent pending ++ out'), st', d. split; [exact E |]. split; [| by split_and!].
    rewrite <- app_assoc, Hu. unfold undelivered. f_equal. apply ztake_ge. lia.
Qed.

(** The two directions of a session. *)
Record streams_ok (r : RelayChannels) : Prop := {
  so_cap : chan_ok (to_relay r);
  so_prefix : relay_got r `prefix_of` uploaded r;
  so_up : rx_gone (to_relay r) = false -> uploaded r = relay_got r ++ concat (Chan.queue (to_relay r));
  so_down : relay_put r = downloaded r ++ undelivered (pending_download r) (from_relay r)
}.

Definition streams (e : Engine) : Prop :=
  forall k s r, sessions e !! k = Some s -> relay s = Some r -> streams_ok r.

Lemma streams_same e e' : sessions e' = sessions e -> streams e -> streams e'.
Proof. unfold streams. by intros ->. Qed.

Lemma streams_put e e' k s r :
  sessions e' = <[k := set_relay s (Some r)]> (sessions e) -> streams_ok r -> streams e -> streams e'.
Proof.
  unfold streams. intros -> Hr He k' s' r'. destruct (decide (k = k')) as [<- | Hne].
  - rewrite lookup_insert_eq. intros [= <-]. cbn. by intros [= <-].
  - rewrite lookup_insert_ne by done. apply He.
Qed.

Lemma new_channels_ok : streams_ok new_channels.
Proof. by constructor. Qed.

(** One turn of a session, by cases. *)
Lemma session_turn_spec key e s r0 :
  sessions e !! key = Some s -> (match relay s with Some r => Some r | None => if bool_decide (sock_state (stack e) (smol_handle s) = StEstablished) then Some new_channels else None end) = Some r0 ->
  streams_ok r0 ->
  if rx_gone (to_relay r0) then
    session_turn key e =
      Some (with_tables (with_stack e (abort (stack e) (smol_handle s))) (<[key := set_relay s (Some r0)]> (sessions e)) (port_to_key e), true)
  else exists e' stale r d, session_turn key e = Some (e', stale) /\ sessions e' = <[key := set_relay s (Some r)]> (sessions e) /\
    streams_ok r /\ relay_got r = relay_got r0 /\ relay_put r = relay_put r0 /\
    match d with
    | Disconnected => stale = true /\ downloaded r = relay_put r
    | Idle => downloaded r = relay_put r \/ pending_download r <> [] \/ can_send (stack e') (smol_handle s) = false
    end.
Proof.
  intros Hs Hr Hok. unfold session_turn. rewrite Hs, Hr. destruct (rx_gone (to_relay r0)) eqn:Hrx; [done |].
  destruct Hok as [H1 H2 H3 H4].
  destruct (upload_loop_spec (S (Z.to_nat (cap (to_relay r0)))) (stack e) (smol_handle s) (to_relay r0) [] (stats e))
    as (s1 & up & got & st1 & E1 & Hq & Hup & Hrx1 & Hcap & Htx); [done | done | pose proof (zlen_nonneg (Chan.queue (to_relay r0))); lia |].
  destruct (drain_spec (S (length (Chan.queue (from_relay r0)))) s1 (smol_handle s) (from_relay r0) (pending_download r0) [] st1)
    as (s2 & down & pending & out & st2 & d & E2 & Hu & Hc1 & Hc2 & Hc3 & Hle & Hd); [lia |].
  rewrite E1. cbn [mbind option_bind]. rewrite E2. cbn [mbind option_bind]. cbn [app] in *.
  set (r := {| to_relay := up; from_relay := down; pending_download := pending; uploaded := uploaded r0 ++ got;
               downloaded := downloaded r0 ++ out; relay_got := relay_got r0; relay_put := relay_put r0 |}).
  assert (Hr1 : streams_ok r).
  { constructor; cbn.
    - done.
    - etrans; [exact H2 | by eexists].
    - intros _. rewrite H3 by done. by rewrite Hq, app_assoc.
    - rewrite H4, <- Hu. by rewrite app_assoc. }
  destruct d.
  - eexists _, _, r, Idle. split_and!; [reflexivity | done | done | done | done |]. cbn.
    destruct Hd as [Hp | [Hcs | [Hn _]]]; [by right; left | by right; right |]. left.
    rewrite H4, <- Hu, Hn. by rewrite app_nil_r.
  - destruct Hd as [Hn _]. eexists _, _, r, Disconnected. split_and!; [reflexivity | done | done | done | done | done |].
    cbn. rewrite H4, <- Hu, Hn. by rewrite app_nil_r.
Qed.

Lemma session_turn_streams key e : streams e ->
  exists e' stale, session_turn key e = Some (e', stale) /\ streams e'.
Proof.
  intros He. destruct (sessions e !! key) as [s |] eqn:Hs.
  2: { unfold session_turn. rewrite Hs. by eexists _, _. }
  pose proof (session_turn_spec key e s) as Hspec.
  destruct (match relay s with Some r => _ | None => _ end) as [r0 |] eqn:Hr.
  - assert (Hok : streams_ok r0).
    { destruct (relay s) as [r1 |] eqn:Er; [injection Hr as ->; by eapply He |].
      case_bool_decide; [injection Hr as <-; apply new_channels_ok | done]. }
    specialize (Hspec r0 Hs eq_refl Hok). destruct (rx_gone (to_relay r0)).
    + rewrite Hspec. eexists _, _. split; [reflexivity |]. by eapply streams_put.
    + destruct Hspec as (e' & stale & r & d & E & Hss & Hr1 & _). exists e', stale. split; [done |]. by eapply streams_put.
  - unfold session_turn. rewrite Hs, Hr. by eexists _, _.
Qed.

Lemma session_turns_streams order : forall e, streams e ->
  exists e' stale, session_turns order e = Some (e', stale) /\ streams e'.
Proof.
  induction order as [| key order IH]; intros e He; cbn [session_turns]; [by eexists _, _ |].
  destruct (session_turn_streams key e He) as (e1 & b & -> & H1). cbn [mbind option_bind].
  destruct (IH e1 H1) as (e2 & keys & -> & H2). cbn [mbind option_bind]. by eexists _, _.
Qed.

Lemma close_streams e key : streams e -> streams (close_session e key).
Proof.
  intros He. unfold close_session. destruct (sessions e !! key) as [s |] eqn:Hs; [| done].
  intros k s' r Hk. cbn in Hk. apply lookup_delete_Some in Hk as [_ Hk]. by apply (He k).
Qed.

Lemma closes_streams keys : forall e, streams e -> streams (foldl close_session e keys).
Proof. induction keys as [| k keys IH]; intros e He; [done |]. cbn [foldl]. by apply IH, close_streams. Qed.

Lemma open_streams now e key : streams e -> streams (open_session now e key).1.
Proof.
  intros He. unfold open_session. destruct (next_ephemeral_port _) as [port counter].
  destruct (add_tcp_socket (stack e) _ _) as [s h]. destruct (listen s h port) as [s' ok]. destruct ok; [| exact He].
  set (fd := match dst_addr key with SockV4 ip _ => _ | SockV6 _ _ _ _ => _ end). destruct fd as [f dom].
  intros k s1 r. cbn. destruct (decide (key = k)) as [<- | Hne].
  - rewrite lookup_insert_eq. by intros [= <-].
  - rewrite lookup_insert_ne by done. apply He.
Qed.

Lemma nat_inbound_streams now pkt e e' : nat_inbound now pkt e = Some e' -> streams e -> streams e'.
Proof.
  unfold nat_inbound. destruct (tcp_packet pkt) as [t |]; [| done]. cbn [mbind option_bind]. intros H He.
  destruct t as [[[ihl flags] key] |]; cbn [mbind option_bind] in H; [| by injection H as <-].
  destruct (sessions e !! key) as [session |].
  - destruct (rewrite_inbound pkt ihl _); [| done]. by injection H as <-.
  - destruct (is_syn flags); [| by injection H as <-].
    pose proof (open_streams now e key He) as Ho. destruct (open_session now e key) as [e1 [port |]].
    + destruct (rewrite_inbound pkt ihl port); [| done]. by injection H as <-.
    + by injection H as <-.
Qed.

Lemma nat_inbound_all_streams now packets : forall e e',
  nat_inbound_all now packets e = Some e' -> streams e -> streams e'.
Proof.
  induction packets as [| p l IH]; intros e e'; cbn [nat_inbound_all]; [by intros [= <-] |].
  destruct (nat_inbound now p e) as [e1 |] eqn:E; [| done]. cbn [mbind option_bind]. intros H He.
  eapply IH; [exact H |]. by eapply nat_inbound_streams.
Qed.

Lemma network_check_streams now g ks e : streams e -> streams (network_check now g ks e).
Proof.
  intros He. unfold network_check. case_cmp; [done |]. case_bool_decide; [done |]. unfold drop_all.
  intros k s r Hk. exfalso. revert Hk. cbn. by rewrite lookup_empty.
Qed.

Lemma tick_streams now g order e e' : tick now g order e = Some e' -> streams e -> streams e'.
Proof.
  intros H He. unfold tick in H. set (e1 := network_check _ _ _ e) in H.
  assert (H1 : streams e1) by by apply network_check_streams. clearbody e1.
  unfold take_inbound in H. set (e1' := with_queue e1 _) in H.
  destruct (intercept_dns now (inbound (pkts e1)) e1') as [[e2 rest] |] eqn:E2; [| done]. cbn [mbind option_bind] in H.
  apply intercept_same in E2 as (E2 & _). assert (H2 : streams e2) by by apply (streams_same e1 e2 E2).
  destruct (nat_inbound_all now rest e2) as [e3 |] eqn:E3; [| done]. cbn [mbind option_bind] in H.
  apply nat_inbound_all_streams in E3; [| done].
  pose proof (streams_same _ _ (proj1 (poll_same 16 now e3)) E3) as H4. set (e4 := poll_up_to 16 now e3) in *. clearbody e4.
  destruct (session_turns_streams (order (sessions e4)) e4 H4) as (e5 & stale & E5 & H5). rewrite E5 in H. cbn [mbind option_bind] in H.
  apply (closes_streams stale) in H5. set (e6 := foldl close_session e5 stale) in *. clearbody e6.
  pose proof (streams_same _ _ (proj1 (poll_same 16 now e6)) H5) as H7. set (e7 := poll_up_to 16 now e6) in *. clearbody e7.
  unfold take_smol_outbound in H. apply restore_same in H as (H & _). by apply (streams_same e7).
Qed.

Lemma on_relay_streams key f e e' :
  (forall r r', f r = Some r' -> streams_ok r -> streams_ok r') -> on_relay key f e = Some e' -> streams e -> streams e'.
Proof.
  intros Hf. unfold on_relay. destruct (sessions e !! key) as [s |] eqn:Hk; [| done]. cbn [mbind option_bind].
  destruct (relay s) as [r |] eqn:Hr; [| done]. cbn [mbind option_bind]. destruct (f r) as [r' |] eqn:Ef; [| done].
  cbn [mbind option_bind]. intros [= <-] He. eapply streams_put; [reflexivity | | exact He].
  eapply Hf; [exact Ef |]. by eapply He.
Qed.

Lemma engine_step_streams e e' : engine_step e e' -> streams e -> streams e'.
Proof.
  intros [now g order e1 Ho H | p | p q _ | key m e1 H | key d e1 H | key e1 H | key e1 H] He;
    [by eapply tick_streams | exact He | exact He | | | |]; (eapply on_relay_streams; [| exact H | exact He]); clear;
    intros r r' Hf [H1 H2 H3 H4].
  - unfold relay_takes in Hf. destruct (rx_gone (to_relay r)) eqn:Erx; [done |].
    destruct (poll_recv (to_relay r)) as [m' c | |] eqn:Ep; try done.
    case_bool_decide; [| done]. injection Hf as <-. subst m'. pose proof (poll_recv_ok _ _ _ H1 Ep) as Hc.
    apply poll_recv_msg in Ep as [Hq Hce]. specialize (H3 eq_refl). rewrite Hq in H3. cbn [concat] in H3.
    constructor; cbn; [done | | | done].
    + rewrite H3, app_assoc. by eexists.
    + intros _. by rewrite H3, app_assoc.
  - unfold relay_sends in Hf. destruct (tx_gone (from_relay r)); [done |].
    destruct (try_send (from_relay r) d) as [c | |] eqn:Es; try done. injection Hf as <-.
    apply try_send_sent in Es as (-> & _ & _). constructor; cbn; [done | done | done |].
    rewrite H4. unfold undelivered. cbn. rewrite concat_app. cbn. by rewrite app_nil_r, <- !app_assoc.
  - injection Hf as <-. constructor; cbn; [| done | done | done]. unfold chan_ok in *. cbn.
    change (zlen (@nil bytes)) with 0. pose proof (zlen_nonneg (Chan.queue (to_relay r))). lia.
  - injection Hf as <-. by constructor.
Qed.

Lemma streams_reach q c0 gen f st e : rtc engine_step (Engine_init q c0 gen f st) e -> streams e.
Proof.
  assert (H0 : streams (Engine_init q c0 gen f st)) by by intros k s r.
  intros Hr. revert H0. induction Hr as [e | e1 e2 e3 Hs _ IH]; intros H0; [done |]. apply IH. by eapply engine_step_streams.
Qed.


(** A relay task that has returned takes the rest of its download with it: the
    next turn finds its end of the first channel closed, aborts the socket without
    looking at the second one, and the session is removed before anything is polled. *)
Theorem ended_relay_drops_download key e s r :
  sessions e !! key = Some s -> relay s = Some r -> rx_gone (to_relay r) = true ->
  exists e', session_turn key e = Some (e', true) /\ sessions e' = sessions e /\ pkts e' = pkts e /\
    let e'' := close_session e' key in
    sessions e'' = delete key (sessions e) /\ pkts e'' = pkts e /\
    stack e'' = remove_socket (abort (stack e) (smol_handle s)) (smol_handle s).
Proof.
  intros Hs Hr Hg. assert (Hsame : set_relay s (Some r) = s) by (destruct s; cbn in *; by subst).
  exists (with_tables (with_stack e (abort (stack e) (smol_handle s))) (sessions e) (port_to_key e)). split.
  - unfold session_turn. rewrite Hs, Hr, Hg, Hsame, insert_id by done. done.
  - split; [done |]. split; [done |]. cbv zeta. unfold close_session. cbn [sessions with_tables]. rewrite Hs. by split_and!.
Qed.

(** A counter that has come round gives a port a second time: the new session
    takes it over, and what the old session's socket sends leaves under the
    address of the new one. *)
Theorem port_taken_over c i now e key k0 s0 w ip port :
  port_n c (i + Z.to_nat 50001) = port_n c i /\
  (sessions e !! k0 = Some s0 -> eph_port s0 = eph_counter e -> sessions e !! key = None ->
   dst_addr key = SockV4 ip port -> (open_session now e key).2 <> None ->
   let e' := (open_session now e key).1 in
   sessions e' !! k0 = Some s0 /\
   (tcp4 w -> 40 <= zlen (assemble w) -> tv_sport w = eph_port s0 ->
    nat_outbound (port_to_key e') (assemble w) = rewrite_outbound (assemble w) (view_ihl w) ip port)).
Proof.
  split.
  { unfold port_n. rewrite Nat2Z.inj_add, Z2Nat.id by done. f_equal.
    replace (c - 10000 + (Z.of_nat i + 50001)) with (c - 10000 + Z.of_nat i + 1 * 50001) by lia. by rewrite Z.mod_add. }
  intros Hs Hp Hk Hd Ho e'. unfold e' in *. clear e'. unfold open_session, next_ephemeral_port in *.
  destruct (add_tcp_socket (stack e) _ _) as [sm h]. destruct (listen sm h _) as [sm' ok]. destruct ok; [| done].
  rewrite Hd. destruct (FakeDns_lookup now _ ip) as [f' dom]. cbn. assert (key <> k0) by congruence. split; [by rewrite lookup_insert_ne |].
  intros Hw H40 Hsp. apply nat_outbound_view with (k := key); [done | done | | done].
  by rewrite Hsp, Hp, lookup_insert_eq.
Qed.

End engine.

(** ** Witnesses

    Sockets that are established at once, accept everything and take the packets
    that come; the state is the next handle. *)

#[refine] Definition ex_smoltcp : Smoltcp := {|
  Smol := Z; smol_init := 0;
  add_tcp_socket s _ _ := (s + 1, s);
  listen s _ _ := (s, true);
  remove_socket s _ := s; abort s _ := s;
  sock_state _ _ := StEstablished;
  can_recv _ _ := false; recv_slice s _ _ := (s, None);
  can_send _ _ := true; send_slice s _ d := (s, Some (zlen d));
  iface_poll _ s q := (s, {| inbound := []; smol_outbound := smol_outbound q; tun_outbound := tun_outbound q |}, false)
|}.
Proof.
  - intros s h d s' n [= <- <-]. pose proof (zlen_nonneg d). lia.
  - done.
Defined.

(** A SYN from 10.0.0.2:40000 to 93.184.216.34:443, and the answer of a socket. *)
Definition ex_syn : TcpView := {|
  tv_head := [0x45; 0; 0; 40; 0; 1; 0; 0; 64; 6]; tv_ipck := 0;
  tv_src := from_be32 10 0 0 2; tv_dst := from_be32 93 184 216 34; tv_opts := []; tv_sport := 40000; tv_dport := 443;
  tv_mid := [0; 0; 0; 1; 0; 0; 0; 0; 0x50; 2; 255; 255]; tv_ck := 0; tv_rest := [0; 0]
|}.

Definition ex_reply : TcpView := {|
  tv_head := [0x45; 0; 0; 40; 0; 7; 0; 0; 64; 6]; tv_ipck := 0;
  tv_src := SMOL_IP; tv_dst := from_be32 10 0 0 2; tv_opts := []; tv_sport := 10000; tv_dport := 40000;
  tv_mid := [0; 0; 0; 9; 0; 0; 0; 2; 0x50; 0x12; 255; 255]; tv_ck := 0; tv_rest := [0; 0]
|}.

Definition ex_counters : Counters := {|
  active_connections := 0; total_connections := 0; dns_queries := 0; tcp_syns := 0; smol_recv := 0; smol_send := 0 |}.

Definition ex_order (m : gmap TcpSessionKey ActiveSession) : list TcpSessionKey := (map_to_list m).*1.

Definition ex_start : @Engine ex_smoltcp :=
  @Engine_init ex_smoltcp PacketQueue_new 10000 0 FakeDns_with_stats ex_counters.

(** The engine after the SYN and a turn of the loop, and after its relay sent a
    page and returned. *)
Definition ex_open : option (@Engine ex_smoltcp) :=
  @tick ex_smoltcp ascii_case 0 0 ex_order (with_queue ex_start (push_inbound (pkts ex_start) (assemble ex_syn))).

Definition ex_page : bytes := str "the whole page".

Definition ex_returned : option (@Engine ex_smoltcp) :=
  e ← ex_open;
  e ← @on_relay ex_smoltcp (view_key ex_syn) (relay_sends ex_page) e;
  @on_relay ex_smoltcp (view_key ex_syn) relay_drops_rx e.

Definition ex_engine : @Engine ex_smoltcp := default ex_start ex_open.
Definition ex_lost : @Engine ex_smoltcp := default ex_start ex_returned.

Lemma ex_order_ok : key_order ex_order.
Proof. intros m. reflexivity. Qed.

Lemma ex_engine_reach : rtc (@engine_step ex_smoltcp ascii_case) ex_start ex_engine.
Proof.
  eapply rtc_l; [apply (es_tun _ (assemble ex_syn)) |]. apply rtc_once. eapply (es_tick _ 0 0 ex_order); [apply ex_order_ok |].
  vm_compute. reflexivity.
Qed.

Lemma ex_lost_reach : rtc (@engine_step ex_smoltcp ascii_case) ex_start ex_lost.
Proof.
  eapply rtc_r; [eapply rtc_r; [apply ex_engine_reach |] |].
  - eapply (es_send _ (view_key ex_syn) ex_page). vm_compute. reflexivity.
  - eapply (es_drop_rx _ (view_key ex_syn)). vm_compute. reflexivity.
Qed.

Lemma ex_syn_tcp4 : tcp4 ex_syn.
Proof.
  split; [constructor; by_compute | split; [by exists 0x45 | done]].
Qed.

Lemma ex_reply_tcp4 : tcp4 ex_reply.
Proof.
  split; [constructor; by_compute | split; [by exists 0x45 | done]].
Qed.

Definition ex_session : ActiveSession :=
  {| smol_handle := 0; real_dst := SockV4 (from_be32 93 184 216 34) 443; domain := None; eph_port := 10000;
     relay := Some new_channels |}.

(** A retransmission of the SYN reaches the same socket, whose answer reaches the
    device from the address it called. *)
Lemma nat_round_trip_witness :
  exists ipck ck ipck' ck',
    let v' := readdress ex_syn (tv_src ex_syn) SMOL_IP (tv_sport ex_syn) 10000 ipck ck in
    let w' := readdress ex_reply (tv_dst ex_syn) (tv_src ex_syn) 443 40000 ipck' ck' in
    @nat_inbound ex_smoltcp 0 (assemble ex_syn) ex_engine =
      Some (with_queue ex_engine (push_inbound (pkts ex_engine) (assemble v'))) /\ view_valid v' /\
    nat_outbound (port_to_key ex_engine) (assemble ex_reply) = Some (assemble w') /\ view_valid w'.
Proof.
  destruct (@nat_round_trip ex_smoltcp ascii_case 10000 PacketQueue_new 0 FakeDns_with_stats ex_counters ex_engine
    ltac:(done) ltac:(done) ex_engine_reach) as [_ H].
  destruct (H ltac:(vm_compute; discriminate)) as [_ H1].
  destruct (H1 ex_syn ex_session ex_syn_tcp4 ltac:(vm_compute; reflexivity)) as (_ & H2 & H3).
  destruct (H2 0) as (ipck & ck & E & Hv).
  destruct (H3 ex_reply ex_reply_tcp4 ltac:(vm_compute; discriminate) eq_refl eq_refl eq_refl) as (ipck' & ck' & E' & Hv').
  exists ipck, ck, ipck', ck'. exact (conj E (conj Hv (conj E' Hv'))).
Defined.

Definition ex_lost_channels : RelayChannels :=
  {| to_relay := drop_rx (channel CHANNEL_CAP); from_relay := Chan.with_queue (channel CHANNEL_CAP) [ex_page];
     pending_download := []; uploaded := []; downloaded := []; relay_got := []; relay_put := ex_page |}.

Lemma ex_lost_session : sessions ex_lost !! view_key ex_syn = Some (set_relay ex_session (Some ex_lost_channels)).
Proof. vm_compute. reflexivity. Qed.


(** It never reaches the socket: the next turn of the loop ends the session. *)
Lemma ended_relay_drops_download_witness :
  downloaded ex_lost_channels = [] /\
  exists e', @session_turn ex_smoltcp (view_key ex_syn) ex_lost = Some (e', true) /\
    sessions (close_session e' (view_key ex_syn)) = delete (view_key ex_syn) (sessions ex_lost).
Proof.
  split; [reflexivity |].
  destruct (@ended_relay_drops_download ex_smoltcp (view_key ex_syn) ex_lost _ ex_lost_channels ex_lost_session eq_refl eq_refl)
    as (e' & Ht & _ & _ & Hc & _).
  exists e'. exact (conj Ht Hc).
Defined.
