(* ===== verification/Session.v ===== *)
(** * A session of the VPN engine (xr-core/src/session.rs)

    The relay task of one TCP connection of the device: gates, SNI sniffing,
    routing, opening of the proxied stream or of a direct connection, and the
    relay with its idle timer. The task is a machine whose steps are the
    stretches between two [await]s; [now] is the clock in milliseconds, the answer
    of what is waited for is the argument of the step. The DNS client of direct
    connections is in DnsClient.v. *)

From S2P Require Import Prelude Text Net Protocol Sni UserRule Routing FakeDns Chan.

Definition SNI_PEEK_TIMEOUT : Z := 500.
Definition IDLE_TIMEOUT : Z := 300 * 1000.
Definition MAX_LIFETIME : Z := 3600 * 1000.

Definition in_net (ip base len : Z) : bool := Z.shiftr ip (32 - len) =? Z.shiftr base (32 - len).

Definition is_private_ip (ip : IpAddr) : bool :=
  match ip with
  | V4 v4 =>
      in_net v4 (from_be32 10 0 0 0) 8 || in_net v4 (from_be32 172 16 0 0) 12 || in_net v4 (from_be32 192 168 0 0) 16
      || in_net v4 (from_be32 127 0 0 0) 8 || in_net v4 (from_be32 169 254 0 0) 16
  | V6 v6 => v6 =? 1
  end.

Definition sock_ip (s : SocketAddr) : IpAddr :=
  match s with SockV4 ip _ => V4 ip | SockV6 ip _ _ _ => V6 ip end.

Definition is_fake_sock (s : SocketAddr) : bool :=
  match s with SockV4 ip _ => is_fake_ip ip | SockV6 _ _ _ _ => false end.

(** ** The relay of a session

    [rr_mux] says which of the two relays it is; the mux relay has no idle timer
    and closes its stream. Histories: what was taken from the device after
    [rr_initial], written to the target, read from it, put into the channel of the
    engine, and the times at which a side moved. *)

Inductive UpPc :=
| UWriting (rest : bytes)
| UWait (deadline : Z)
| UClosing.

Inductive DownPc :=
| DReading (deadline : Z)
| DSending (chunk : bytes).

Record RelayRun := {
  rr_mux : bool;
  rr_start : Z;
  rr_last : Z;
  rr_up : UpPc;
  rr_down : DownPc;
  rr_initial : bytes;
  rr_taken : bytes;
  rr_sent : bytes;
  rr_read : bytes;
  rr_delivered : bytes;
  rr_activity : list Z
}.

Definition idle_left (now last : Z) : Z := sat_sub IDLE_TIMEOUT (Z.max 0 (now - last)).

Definition with_up (r : RelayRun) (u : UpPc) : RelayRun :=
  {| rr_mux := rr_mux r; rr_start := rr_start r; rr_last := rr_last r; rr_up := u; rr_down := rr_down r;
     rr_initial := rr_initial r; rr_taken := rr_taken r; rr_sent := rr_sent r; rr_read := rr_read r;
     rr_delivered := rr_delivered r; rr_activity := rr_activity r |}.
Definition with_down (r : RelayRun) (d : DownPc) : RelayRun :=
  {| rr_mux := rr_mux r; rr_start := rr_start r; rr_last := rr_last r; rr_up := rr_up r; rr_down := d;
     rr_initial := rr_initial r; rr_taken := rr_taken r; rr_sent := rr_sent r; rr_read := rr_read r;
     rr_delivered := rr_delivered r; rr_activity := rr_activity r |}.
(** [touch], by the side that moved [up] or [down] bytes. *)
Definition touched (r : RelayRun) (now : Z) (up down : bytes) : RelayRun :=
  {| rr_mux := rr_mux r; rr_start := rr_start r; rr_last := now; rr_up := rr_up r; rr_down := rr_down r;
     rr_initial := rr_initial r; rr_taken := rr_taken r ++ up; rr_sent := rr_sent r; rr_read := rr_read r ++ down;
     rr_delivered := rr_delivered r; rr_activity := now :: rr_activity r |}.
Definition wrote (r : RelayRun) (b : bytes) : RelayRun :=
  {| rr_mux := rr_mux r; rr_start := rr_start r; rr_last := rr_last r; rr_up := rr_up r; rr_down := rr_down r;
     rr_initial := rr_initial r; rr_taken := rr_taken r; rr_sent := rr_sent r ++ b; rr_read := rr_read r;
     rr_delivered := rr_delivered r; rr_activity := rr_activity r |}.
Definition delivered (r : RelayRun) (b : bytes) : RelayRun :=
  {| rr_mux := rr_mux r; rr_start := rr_start r; rr_last := rr_last r; rr_up := rr_up r; rr_down := rr_down r;
     rr_initial := rr_initial r; rr_taken := rr_taken r; rr_sent := rr_sent r; rr_read := rr_read r;
     rr_delivered := rr_delivered r ++ b; rr_activity := rr_activity r |}.

Definition relay_start (mux : bool) (now : Z) (initial : bytes) : RelayRun :=
  {| rr_mux := mux; rr_start := now; rr_last := now;
     rr_up := if bool_decide (initial = []) then UWait (now + IDLE_TIMEOUT) else UWriting initial;
     rr_down := DReading (now + IDLE_TIMEOUT);
     rr_initial := initial; rr_taken := []; rr_sent := []; rr_read := []; rr_delivered := []; rr_activity := [] |}.

(** ** The session *)

Inductive SessPc :=
| PeekFirst (deadline : Z)
| PeekMore (buf : bytes) (deadline : Z)
| Opening (target : TargetAddr) (initial : bytes)
| Resolving (name : bytes) (initial : bytes)
| Connecting (addr : SocketAddr) (initial : bytes)
| Relaying (r : RelayRun)
| Finished (res : io_result unit) (last : option RelayRun).

(** [data_rx] and [data_tx] are the channels of the engine; [taken] is the history
    of what came out of the first before the relay began, [fed] of what the engine
    put into it. *)
Record Session := {
  s_dst : SocketAddr;
  s_domain : option bytes;
  s_pc : SessPc;
  data_rx : Chan bytes;
  data_tx : Chan bytes;
  taken : bytes;
  fed : bytes;
  s_log : list bytes;
  bytes_up : Z;
  bytes_down : Z
}.

Section session.
Context {UC : UnicodeCase} (show_sock : SocketAddr -> bytes).

Definition with_pc (s : Session) (pc : SessPc) : Session :=
  {| s_dst := s_dst s; s_domain := s_domain s; s_pc := pc; data_rx := data_rx s; data_tx := data_tx s;
     taken := taken s; fed := fed s; s_log := s_log s; bytes_up := bytes_up s; bytes_down := bytes_down s |}.
Definition with_rx (s : Session) (c : Chan bytes) (got : bytes) : Session :=
  {| s_dst := s_dst s; s_domain := s_domain s; s_pc := s_pc s; data_rx := c; data_tx := data_tx s;
     taken := taken s ++ got; fed := fed s; s_log := s_log s; bytes_up := bytes_up s; bytes_down := bytes_down s |}.
Definition with_tx (s : Session) (c : Chan bytes) : Session :=
  {| s_dst := s_dst s; s_domain := s_domain s; s_pc := s_pc s; data_rx := data_rx s; data_tx := c;
     taken := taken s; fed := fed s; s_log := s_log s; bytes_up := bytes_up s; bytes_down := bytes_down s |}.
Definition with_domain (s : Session) (d : option bytes) : Session :=
  {| s_dst := s_dst s; s_domain := d; s_pc := s_pc s; data_rx := data_rx s; data_tx := data_tx s;
     taken := taken s; fed := fed s; s_log := s_log s; bytes_up := bytes_up s; bytes_down := bytes_down s |}.
Definition log (s : Session) (m : bytes) : Session :=
  {| s_dst := s_dst s; s_domain := s_domain s; s_pc := s_pc s; data_rx := data_rx s; data_tx := data_tx s;
     taken := taken s; fed := fed s; s_log := s_log s ++ [m]; bytes_up := bytes_up s; bytes_down := bytes_down s |}.
Definition count_bytes (s : Session) (up down : Z) : Session :=
  {| s_dst := s_dst s; s_domain := s_domain s; s_pc := s_pc s; data_rx := data_rx s; data_tx := data_tx s;
     taken := taken s; fed := fed s; s_log := s_log s; bytes_up := u64 (bytes_up s + up); bytes_down := u64 (bytes_down s + down) |}.

Definition finish (s : Session) (res : io_result unit) : Session := with_pc s (Finished res None).

Definition journal_target (domain : option bytes) (addr : SocketAddr) : bytes :=
  match domain with
  | Some d => d ++ str ":" ++ show_dec (sock_port addr)
  | None => show_sock addr
  end.

Definition show_ip (s : SocketAddr) : bytes :=
  match s with SockV4 ip _ => show_ipv4 ip | SockV6 _ _ _ _ => show_sock s end.

(** The gates before anything is read or opened. *)
Definition gate (dst : SocketAddr) (domain : option bytes) : option io_error :=
  if sock_port dst =? 853 then
    Some (IoError ConnectionRefused (str "DoT blocked (" ++ show_sock dst ++ str "), forcing UDP DNS"))
  else if bool_decide (domain = None) && is_fake_sock dst then
    Some (IoError InvalidInput (str "fake IP " ++ show_ip dst ++ str " without domain, dropping"))
  else if is_private_ip (sock_ip dst) then
    Some (IoError InvalidInput (str "private IP " ++ show_ip dst ++ str ", dropping"))
  else None.

Definition relay_direct (s : Session) (initial : bytes) : Session :=
  if is_fake_sock (s_dst s) then
    match s_domain s with
    | Some name => with_pc s (Resolving name initial)
    | None => finish s (io_err InvalidInput "fake IP without domain")
    end
  else with_pc s (Connecting (s_dst s) initial).

(** The decision, with the router that is active at this moment. *)
Definition route (router : Router) (s : Session) (initial : bytes) : Session :=
  let target := match s_domain s with Some d => TDomain d (sock_port (s_dst s)) | None => TIp (s_dst s) end in
  match resolve router (s_domain s) (sock_ip (s_dst s)) with
  | Proxy => with_pc s (Opening target initial)
  | Direct => relay_direct s initial
  | Block => finish s (io_err PermissionDenied "blocked by routing")
  end.

(** [relay_session_with_domain] up to its first [await]. *)
Definition session_start (now : Z) (router : Router) (dst : SocketAddr) (domain : option bytes) (rx tx : Chan bytes) : Session :=
  let s := {| s_dst := dst; s_domain := domain; s_pc := PeekFirst (now + SNI_PEEK_TIMEOUT); data_rx := rx; data_tx := tx;
              taken := []; fed := concat (Chan.queue rx); s_log := []; bytes_up := 0; bytes_down := 0 |} in
  match gate dst domain with
  | Some e => finish s (Err e)
  | None => match domain with Some _ => route router s [] | None => s end
  end.

(** The end of [peek_sni_from_rx] and the decision that follows. *)
Definition peeked (router : Router) (s : Session) (buf : bytes) : option Session :=
  sni ← extract_sni buf;
  Some (route router (with_domain s (match sni with Some n => Some n | None => s_domain s end)) buf).

(** The loop of [peek_sni_from_rx] after more bytes: wait on, or decide. *)
Definition peek_on (router : Router) (s : Session) (buf : bytes) (deadline : Z) : option Session :=
  want ← client_hello_record_len buf;
  match want with
  | Some want => if want <=? zlen buf then peeked router s buf else Some (with_pc s (PeekMore buf deadline))
  | None => peeked router s buf
  end.

(** What a step waited for. *)
Inductive SessEvent :=
| EvMessage                              (* [data_rx.recv()] is ready *)
| EvTimeout                              (* the timer of that wait *)
| EvReadTimeout                          (* the timer of the reading side *)
| EvOpened (r : io_result unit)          (* [open_stream] *)
| EvResolved (r : io_result Z)           (* [resolve_domain_with_fallback] *)
| EvConnected (r : io_result unit)       (* [connect_protected] *)
| EvWrote (r : io_result Z)              (* so many bytes were written *)
| EvClosed (r : io_result unit)          (* [mux_w.close()] *)
| EvRead (r : io_result bytes)           (* bytes of the target, none at its end *)
| EvSendReady                            (* [data_tx.send()] is ready *)
| EvLifetime.                            (* [MAX_LIFETIME] *)

Definition relay_over (s : Session) (r : RelayRun) (res : io_result unit) : Session := with_pc s (Finished res (Some r)).

(** The relay: either side that ends, ends both. *)
Definition relay_step (now : Z) (ev : SessEvent) (s : Session) (r : RelayRun) : option Session :=
  match ev with
  | EvLifetime => if rr_start r + MAX_LIFETIME <=? now then Some (relay_over s r (Ok tt)) else None
  | EvWrote res =>
      match rr_up r with
      | UWriting rest =>
          match res with
          | Ok n =>
              if (0 <? n) && (n <=? zlen rest) then
                let r := wrote r (ztake n rest) in
                let rest := zdrop n rest in
                Some (with_pc s (Relaying (with_up r (if bool_decide (rest = []) then UWait (now + idle_left now (rr_last r))
                                                      else UWriting rest))))
              else None
          | Err e => Some (relay_over s r (Err e))
          end
      | _ => None
      end
  | EvMessage =>
      match rr_up r with
      | UWait _ =>
          match poll_recv (data_rx s) with
          | Msg d c =>
              let r := touched r now d [] in
              let s := with_rx s c [] in
              if bool_decide (d = []) then
                if rr_mux r then Some (with_pc s (Relaying (with_up r UClosing))) else Some (relay_over s r (Ok tt))
              else
                let s := if rr_mux r then count_bytes s (zlen d) 0 else s in
                Some (with_pc s (Relaying (with_up r (UWriting d))))
          | Ended => if rr_mux r then Some (with_pc s (Relaying (with_up r UClosing))) else Some (relay_over s r (Ok tt))
          | Pending => None
          end
      | _ => None
      end
  | EvClosed res => match rr_up r with UClosing => Some (relay_over s r res) | _ => None end
  | EvTimeout =>
      if rr_mux r then None else
      match rr_up r, poll_recv (data_rx s) with
      | UWait deadline, Pending =>
          if deadline <=? now then
            if negb (idle_left now (rr_last r) =? 0) then
              Some (with_pc s (Relaying (with_up r (UWait (now + idle_left now (rr_last r))))))
            else Some (relay_over s r (Ok tt))
          else None
      | _, _ => None
      end
  | EvReadTimeout =>
      if rr_mux r then None else
      match rr_down r with
      | DReading deadline =>
          if deadline <=? now then
            if negb (idle_left now (rr_last r) =? 0) then
              Some (with_pc s (Relaying (with_down r (DReading (now + idle_left now (rr_last r))))))
            else Some (relay_over s r (Ok tt))
          else None
      | DSending _ => None
      end
  | EvRead res =>
      match rr_down r with
      | DReading _ =>
          match res with
          | Ok d =>
              let r := touched r now [] d in
              if bool_decide (d = []) then Some (relay_over s r (Ok tt))
              else
                let s := if rr_mux r then count_bytes s 0 (zlen d) else s in
                Some (with_pc s (Relaying (with_down r (DSending d))))
          | Err e => Some (relay_over s r (Err e))
          end
      | _ => None
      end
  | EvSendReady =>
      match rr_down r with
      | DSending chunk =>
          match try_send (data_tx s) chunk with
          | Sent c =>
              let r := delivered r chunk in
              Some (with_pc (with_tx s c) (Relaying (with_down r (DReading (now + idle_left now (rr_last r))))))
          | Closed => Some (relay_over s r (Ok tt))
          | Full => None
          end
      | _ => None
      end
  | _ => None
  end.

Definition session_step (now : Z) (router : Router) (on_server_down : Action) (ev : SessEvent) (s : Session) : option Session :=
  match s_pc s with
  | PeekFirst deadline =>
      match ev with
      | EvMessage =>
          match poll_recv (data_rx s) with
          | Msg d c =>
              let s := with_rx s c d in
              if bool_decide (d = []) then Some (route router s []) else peek_on router s d (now + SNI_PEEK_TIMEOUT)
          | Ended => Some (route router s [])
          | Pending => None
          end
      | EvTimeout => if deadline <=? now then Some (route router s []) else None
      | _ => None
      end
  | PeekMore buf deadline =>
      match ev with
      | EvMessage =>
          match poll_recv (data_rx s) with
          | Msg d c => peek_on router (with_rx s c d) (buf ++ d) deadline
          | Ended => peeked router s buf
          | Pending => None
          end
      | EvTimeout => if deadline <=? now then peeked router s buf else None
      | _ => None
      end
  | Opening target initial =>
      match ev with
      | EvOpened (Ok _) =>
          let s := log s (str "через прокси: " ++ journal_target (s_domain s) (s_dst s)) in
          let s := if bool_decide (initial = []) then s else count_bytes s (zlen initial) 0 in
          Some (with_pc s (Relaying (relay_start true now initial)))
      | EvOpened (Err e) =>
          if bool_decide (on_server_down = Direct) then
            Some (relay_direct (log s (str "прокси недоступен для " ++ journal_target (s_domain s) (s_dst s) ++
                                       str ", ухожу напрямую: " ++ message e)) initial)
          else Some (finish s (Err (IoError (kind e) (str "mux open fail: " ++ message e))))
      | _ => None
      end
  | Resolving name initial =>
      match ev with
      | EvResolved (Ok ip) => Some (with_pc s (Connecting (SockV4 ip (sock_port (s_dst s))) initial))
      | EvResolved (Err e) => Some (finish s (Err e))
      | _ => None
      end
  | Connecting addr initial =>
      match ev with
      | EvConnected (Ok _) =>
          Some (with_pc (log s (str "напрямую: " ++ journal_target (s_domain s) addr)) (Relaying (relay_start false now initial)))
      | EvConnected (Err e) => Some (finish s (Err e))
      | _ => None
      end
  | Relaying r => relay_step now ev s r
  | Finished _ _ => None
  end.

(** ** Runs

    Time passes, the session moves with one of the routers active meanwhile, and
    the engine works on its ends of the channels. *)

Definition with_feed (s : Session) (c : Chan bytes) (d : bytes) : Session :=
  {| s_dst := s_dst s; s_domain := s_domain s; s_pc := s_pc s; data_rx := c; data_tx := data_tx s;
     taken := taken s; fed := fed s ++ d; s_log := s_log s; bytes_up := bytes_up s; bytes_down := bytes_down s |}.

Section runs.
Context (routers : Router -> Prop) (on_server_down : Action).

Inductive sess_step : Z * Session -> Z * Session -> Prop :=
| ss_step t t' router ev s s' : t <= t' -> routers router -> session_step t' router on_server_down ev s = Some s' ->
    sess_step (t, s) (t', s')
| ss_feed t s m c : try_send (data_rx s) m = Sent c -> sess_step (t, s) (t, with_feed s c m)
| ss_feed_end t s : sess_step (t, s) (t, with_feed s (drop_tx (data_rx s)) [])
| ss_take t s m c : poll_recv (data_tx s) = Msg m c -> sess_step (t, s) (t, with_tx s c)
| ss_take_end t s : sess_step (t, s) (t, with_tx s (drop_rx (data_tx s))).

Definition sess_reach (t0 : Z) (dst : SocketAddr) (domain : option bytes) (rx tx : Chan bytes) (t : Z) (s : Session) : Prop :=
  exists router, routers router /\ rtc sess_step (t0, session_start t0 router dst domain rx tx) (t, s).

(** What is still to be written of what was taken. *)
Definition up_rest (r : RelayRun) : bytes := match rr_up r with UWriting rest => rest | _ => [] end.
Definition down_rest (r : RelayRun) : bytes := match rr_down r with DSending chunk => chunk | _ => [] end.

(** The time of the last activity is the latest of the history. *)
Record relay_ok (now : Z) (r : RelayRun) : Prop := {
  ro_up : rr_initial r ++ rr_taken r = rr_sent r ++ up_rest r;
  ro_down : rr_read r = rr_delivered r ++ down_rest r;
  ro_last : rr_start r <= rr_last r <= now;
  ro_activity : Forall (fun t => t <= rr_last r) (rr_activity r)
}.

(** The decision a state rests on. *)
Definition decided (a : Action) (s : Session) : Prop :=
  exists router, routers router /\ resolve router (s_domain s) (sock_ip (s_dst s)) = a.

Definition went_direct (s : Session) : Prop := decided Direct s \/ (decided Proxy s /\ on_server_down = Direct).

Definition target_of (s : Session) : TargetAddr :=
  match s_domain s with Some d => TDomain d (sock_port (s_dst s)) | None => TIp (s_dst s) end.

Definition passed_gate (s : Session) : Prop :=
  sock_port (s_dst s) <> 853 /\ is_private_ip (sock_ip (s_dst s)) = false /\
  (is_fake_sock (s_dst s) = true -> s_domain s <> None).

Definition pc_ok (now : Z) (s : Session) : Prop :=
  match s_pc s with
  | PeekFirst _ => passed_gate s /\ taken s = [] /\ s_domain s = None
  | PeekMore buf _ => passed_gate s /\ taken s = buf /\ s_domain s = None
  | Opening target initial => passed_gate s /\ taken s = initial /\ target = target_of s /\ decided Proxy s
  | Resolving name initial =>
      passed_gate s /\ taken s = initial /\ s_domain s = Some name /\ is_fake_sock (s_dst s) = true /\ went_direct s
  | Connecting addr initial =>
      passed_gate s /\ taken s = initial /\ went_direct s /\ sock_port addr = sock_port (s_dst s) /\
      (addr = s_dst s \/ is_fake_sock (s_dst s) = true)
  | Relaying r =>
      passed_gate s /\ taken s = rr_initial r /\ relay_ok now r /\
      (if rr_mux r then decided Proxy s else went_direct s)
  | Finished res (Some r) =>
      passed_gate s /\ taken s = rr_initial r /\ rr_sent r `prefix_of` rr_initial r ++ rr_taken r /\
      rr_delivered r `prefix_of` rr_read r /\ (if rr_mux r then decided Proxy s else went_direct s)
  | Finished res None => is_ok res = false
  end.

(** What the relay took besides. *)
Definition run_taken (s : Session) : bytes :=
  match s_pc s with Relaying r | Finished _ (Some r) => rr_taken r | _ => [] end.

Record sess_ok (now : Z) (s : Session) : Prop := {
  sk_pc : pc_ok now s;
  sk_fed : fed s = taken s ++ run_taken s ++ concat (Chan.queue (data_rx s))
}.

Lemma idle_left_zero now last : idle_left now last = 0 -> last + IDLE_TIMEOUT <= now.
Proof. unfold idle_left, sat_sub, IDLE_TIMEOUT. lia. Qed.

Lemma idle_left_pos now last : idle_left now last <> 0 -> now < last + IDLE_TIMEOUT.
Proof. unfold idle_left, sat_sub, IDLE_TIMEOUT. lia. Qed.

Lemma decided_pc a s pc : decided a s -> decided a (with_pc s pc).
Proof. done. Qed.

Lemma relay_direct_ok s initial :
  passed_gate s -> taken s = initial -> went_direct s -> pc_ok 0 (relay_direct s initial) /\ run_taken (relay_direct s initial) = [].
Proof.
  intros Hg Ht Hd. unfold relay_direct. destruct (is_fake_sock (s_dst s)) eqn:Ef.
  - destruct (s_domain s) as [name |] eqn:Edm; [| done]. split; [| done]. cbn. by split_and!.
  - split; [| done]. cbn. split_and!; try done. by left.
Qed.

Lemma pc_ok_time now s : (forall r, s_pc s <> Relaying r) -> pc_ok 0 s -> pc_ok now s.
Proof. unfold pc_ok. destruct (s_pc s); try done. intros H. by destruct (H r). Qed.

Lemma relay_direct_time now s initial : pc_ok 0 (relay_direct s initial) -> pc_ok now (relay_direct s initial).
Proof.
  apply pc_ok_time. intros r. unfold relay_direct. destruct (is_fake_sock _); [destruct (s_domain s) |]; done.
Qed.

Lemma relay_direct_frame s initial :
  taken (relay_direct s initial) = taken s /\ fed (relay_direct s initial) = fed s /\ data_rx (relay_direct s initial) = data_rx s.
Proof. unfold relay_direct. destruct (is_fake_sock _); [destruct (s_domain s) |]; done. Qed.

Lemma route_ok now router s initial :
  routers router -> passed_gate s -> taken s = initial -> fed s = taken s ++ concat (Chan.queue (data_rx s)) ->
  sess_ok now (route router s initial).
Proof.
  intros HR Hg Ht Hf. unfold route. destruct (resolve router (s_domain s) (sock_ip (s_dst s))) eqn:Er.
  - constructor; [| done]. cbn. split_and!; try done. by exists router.
  - destruct (relay_direct_ok s initial Hg Ht) as [Hp Hrt]; [left; by exists router |].
    destruct (relay_direct_frame s initial) as (E1 & E2 & E3).
    constructor; [by apply relay_direct_time | by rewrite E1, E2, E3, Hrt].
  - by constructor.
Qed.

Lemma peeked_ok now router s buf s' :
  routers router -> passed_gate s -> s_domain s = None -> taken s = buf -> fed s = taken s ++ concat (Chan.queue (data_rx s)) ->
  peeked router s buf = Some s' -> sess_ok now s'.
Proof.
  unfold peeked. intros HR Hg Hd Ht Hf. destruct (extract_sni buf) as [sni |]; [| done]. cbn [mbind option_bind]. intros [= <-].
  apply route_ok; try done. destruct Hg as (H1 & H2 & H3). split_and!; [done | done |]. cbn. destruct sni; [done | exact H3].
Qed.

Lemma peek_on_ok now router s buf deadline s' :
  routers router -> passed_gate s -> s_domain s = None -> taken s = buf -> fed s = taken s ++ concat (Chan.queue (data_rx s)) ->
  peek_on router s buf deadline = Some s' -> sess_ok now s'.
Proof.
  unfold peek_on. intros HR Hg Hd Ht Hf. destruct (client_hello_record_len buf) as [[want |] |]; [| | done]; cbn [mbind option_bind].
  - case_cmp; [by apply peeked_ok |]. intros [= <-]. by constructor.
  - by apply peeked_ok.
Qed.

Lemma poll_msg_concat (c : Chan bytes) m c' : poll_recv c = Msg m c' -> concat (Chan.queue c) = m ++ concat (Chan.queue c').
Proof. intros [E _]%poll_recv_msg. by rewrite E. Qed.

Lemma relay_start_ok mux now initial : relay_ok now (relay_start mux now initial).
Proof.
  constructor; cbn; [| done | lia | constructor]. unfold up_rest. cbn. rewrite app_nil_r. by case_bool_decide.
Qed.

Lemma start_ok now router dst domain rx tx :
  routers router -> sess_ok now (session_start now router dst domain rx tx).
Proof.
  intros HR. unfold session_start. set (s := Build_Session _ _ _ _ _ _ _ _ _ _). destruct (gate dst domain) as [e |] eqn:Eg.
  { constructor; done. }
  assert (Hg : passed_gate s).
  { unfold gate in Eg. destruct (Z.eqb_spec (sock_port dst) 853); [done |].
    destruct (bool_decide (domain = None) && is_fake_sock dst) eqn:Ef; [done |].
    destruct (is_private_ip (sock_ip dst)) eqn:Ep; [done |]. split_and!; [done | done |]. cbn. intros Hfk.
    rewrite Hfk, andb_true_r in Ef. by apply bool_decide_eq_false in Ef. }
  destruct domain as [d |]; [by apply route_ok |]. constructor; done.
Qed.

(** The parts of a finished relay. *)
Lemma relay_over_ok now now' s r res :
  passed_gate s -> taken s = rr_initial r -> relay_ok now' r -> (if rr_mux r then decided Proxy s else went_direct s) ->
  fed s = taken s ++ rr_taken r ++ concat (Chan.queue (data_rx s)) -> sess_ok now (relay_over s r res).
Proof.
  intros Hg Ht [H1 H2 _ _] Hd Hf. constructor; [| exact Hf]. cbn. split_and!; try done; [rewrite H1; by eexists | rewrite H2; by eexists].
Qed.

Lemma relaying_ok now s r :
  passed_gate s -> taken s = rr_initial r -> relay_ok now r -> (if rr_mux r then decided Proxy s else went_direct s) ->
  fed s = taken s ++ rr_taken r ++ concat (Chan.queue (data_rx s)) -> sess_ok now (with_pc s (Relaying r)).
Proof. intros Hg Ht Hr Hd Hf. constructor; [| exact Hf]. cbn. by split_and!. Qed.

Lemma activity_later now r : rr_last r <= now -> Forall (fun t => t <= rr_last r) (rr_activity r) ->
  Forall (fun t => t <= now) (now :: rr_activity r).
Proof. intros Hn Ha. constructor; [lia |]. eapply Forall_impl; [exact Ha |]. cbn. lia. Qed.

Lemma relay_ok_later now now' r : now <= now' -> relay_ok now r -> relay_ok now' r.
Proof. intros Hn [H1 H2 H3 H4]. constructor; (done || lia). Qed.

Section relay.
Context (now : Z) (s : Session) (r : RelayRun).
Hypothesis (Hg : passed_gate s) (Ht : taken s = rr_initial r) (Hr : relay_ok now r)
  (Hd : if rr_mux r then decided Proxy s else went_direct s)
  (Hf : fed s = taken s ++ rr_taken r ++ concat (Chan.queue (data_rx s))).

Lemma relay_quits res : sess_ok now (relay_over s r res).
Proof. by apply (relay_over_ok now now). Qed.

(** A step that moves no bytes from or to the device. *)
Lemma relay_keeps r' : rr_mux r' = rr_mux r -> rr_initial r' = rr_initial r -> rr_taken r' = rr_taken r -> relay_ok now r' ->
  sess_ok now (with_pc s (Relaying r')).
Proof. intros E1 E2 E3 Hr'. apply relaying_ok; rewrite ?E1, ?E2, ?E3; done. Qed.

Lemma relay_message_ok s' : relay_step now EvMessage s r = Some s' -> sess_ok now s'.
Proof.
  pose proof relay_keeps as Hk. pose proof relay_quits as Hq.
  destruct Hr as [H1 H2 H3 H4]. unfold up_rest in H1. unfold down_rest in H2. cbn [relay_step].
  destruct (rr_up r) eqn:Eu; try done. destruct (poll_recv (data_rx s)) as [d c | |] eqn:Ep; [| | done].
  2: { destruct (rr_mux r) eqn:Em; intros [= <-]; [by apply Hk | apply Hq]. }
  change (rr_mux (touched r now d [])) with (rr_mux r). apply poll_msg_concat in Ep.
  assert (Hf' : fed s = taken s ++ (rr_taken r ++ d) ++ concat (Chan.queue c)) by (by rewrite Hf, Ep, <- !app_assoc).
  case_bool_decide as Ed.
  - subst d. assert (Hdone : relay_ok now (touched r now [] [])).
    { constructor; cbn.
      - unfold up_rest. cbn. by rewrite Eu, app_nil_r, H1.
      - unfold down_rest. cbn. by rewrite app_nil_r.
      - lia.
      - apply activity_later; [lia | done]. }
    destruct (rr_mux r) eqn:Em; intros [= <-].
    + apply relaying_ok; [done | cbn; by rewrite app_nil_r | | cbn; by rewrite Em | cbn; by rewrite (app_nil_r (taken s))].
      destruct Hdone as [D1 D2 D3 D4]. constructor; try done. unfold up_rest in *. cbn in *. by rewrite Eu in D1.
    + apply (relay_over_ok now now); [done | cbn; by rewrite app_nil_r | done | cbn; by rewrite Em | cbn; by rewrite (app_nil_r (taken s))].
  - intros [= <-].
    set (s1 := with_rx s c []). set (s2 := if rr_mux r then count_bytes s1 (zlen d) 0 else s1).
    assert (E2 : s_dst s2 = s_dst s /\ s_domain s2 = s_domain s /\ taken s2 = taken s /\ fed s2 = fed s /\ data_rx s2 = c).
    { unfold s2. destruct (rr_mux r); cbn; rewrite app_nil_r; done. }
    destruct E2 as (E1 & E2 & E3 & E4 & E5). apply relaying_ok.
    + unfold passed_gate. rewrite E1, E2. exact Hg.
    + by rewrite E3.
    + constructor; cbn; [| unfold down_rest; cbn; by rewrite app_nil_r | lia | apply activity_later; [lia | done]].
      unfold up_rest. cbn. rewrite app_assoc, H1. by rewrite app_nil_r.
    + cbn. unfold went_direct, decided in *. rewrite E1, E2. exact Hd.
    + rewrite E3, E4, E5. exact Hf'.
Qed.

Lemma relay_read_ok res s' : relay_step now (EvRead res) s r = Some s' -> sess_ok now s'.
Proof.
  pose proof relay_keeps as Hk. pose proof relay_quits as Hq.
  destruct Hr as [H1 H2 H3 H4]. unfold down_rest in H2. cbn [relay_step].
  destruct (rr_down r) eqn:Edn; try done. destruct res as [d | e]; [| intros [= <-]; apply Hq].
  change (rr_mux (touched r now [] d)) with (rr_mux r). case_bool_decide as Ed.
  - intros [= <-]. subst d. apply (relay_over_ok now now); try done; [constructor; cbn | cbn; by rewrite app_nil_r].
    + unfold up_rest. cbn. by rewrite app_nil_r.
    + unfold down_rest. cbn. rewrite Edn, app_nil_r. exact H2.
    + lia.
    + apply activity_later; [lia | done].
  - intros [= <-]. set (s2 := if rr_mux r then count_bytes s 0 (zlen d) else s).
    assert (E2 : s_dst s2 = s_dst s /\ s_domain s2 = s_domain s /\ taken s2 = taken s /\ fed s2 = fed s /\ data_rx s2 = data_rx s).
    { unfold s2. by destruct (rr_mux r). }
    destruct E2 as (E1 & E2 & E3 & E4 & E5). apply relaying_ok.
    + unfold passed_gate. rewrite E1, E2. exact Hg.
    + by rewrite E3.
    + constructor; cbn; [| | lia | apply activity_later; [lia | done]].
      * unfold up_rest. cbn. by rewrite app_nil_r.
      * unfold down_rest. cbn. by rewrite H2, app_nil_r.
    + cbn. unfold went_direct, decided in *. rewrite E1, E2. exact Hd.
    + cbn. rewrite E3, E4, E5, app_nil_r. exact Hf.
Qed.

Lemma relay_step_ok ev s' : relay_step now ev s r = Some s' -> sess_ok now s'.
Proof.
  pose proof relay_keeps as Hk. pose proof relay_quits as Hq.
  destruct ev as [ | | | rr | rr | rr | rr | rr | rr | | ]; try done;
    [apply relay_message_ok | | | | | apply relay_read_ok | |]; pose proof Hr as [H1 H2 H3 H4];
    unfold up_rest in H1; unfold down_rest in H2; cbn [relay_step].
  - destruct (rr_mux r) eqn:Em; [done |]. destruct (rr_up r) eqn:Eu; try done. destruct (poll_recv (data_rx s)); try done.
    case_cmp; [| done]. case_cmp; intros [= <-]; [by apply Hk | apply Hq].
  - destruct (rr_mux r) eqn:Em; [done |]. destruct (rr_down r) eqn:Edn; try done.
    case_cmp; [| done]. case_cmp; intros [= <-]; [by apply Hk | apply Hq].
  - destruct (rr_up r) as [rest | |] eqn:Eu; try done. destruct rr as [n | e]; [| intros [= <-]; apply Hq].
    destruct ((0 <? n) && (n <=? zlen rest)) eqn:En; [| done]. intros [= <-]. apply Hk; try done.
    constructor; cbn; [| done | done | done]. unfold up_rest. cbn. rewrite H1, <- app_assoc. f_equal.
    rewrite <- (ztake_zdrop n rest) at 1. f_equal. by case_bool_decide.
  - destruct (rr_up r); try done. intros [= <-]. apply Hq.
  - destruct (rr_down r) as [| chunk] eqn:Edn; try done. destruct (try_send (data_tx s) chunk); try done; intros [= <-]; [| apply Hq].
    apply relaying_ok; try done. constructor; try done. unfold down_rest. cbn. by rewrite app_nil_r.
  - case_cmp; [| done]. intros [= <-]. apply Hq.
Qed.
End relay.

Lemma session_step_ok t t' router ev s s' :
  t <= t' -> routers router -> sess_ok t s -> session_step t' router on_server_down ev s = Some s' -> sess_ok t' s'.
Proof.
  intros Htt HR [Hp Hf]. unfold session_step. unfold pc_ok in Hp. unfold run_taken in Hf. destruct (s_pc s) as [dl | buf dl | target initial | name initial | addr initial | r | res last] eqn:Epc.
  - destruct Hp as (Hg & Ht & Hd). rewrite Ht in Hf. cbn in Hf. destruct ev; try done.
    + destruct (poll_recv (data_rx s)) as [d c | |] eqn:Ep; [| | done].
      * apply poll_msg_concat in Ep. rewrite Ep in Hf. case_bool_decide as Ed.
        -- subst d. intros [= <-]. apply route_ok; [done | done | cbn; by rewrite Ht | cbn; by rewrite Ht].
        -- apply peek_on_ok; [done | done | done | cbn; by rewrite Ht | cbn; by rewrite Ht].
      * intros [= <-]. apply route_ok; [done | done | done | by rewrite Ht].
    + case_cmp; [| done]. intros [= <-]. apply route_ok; [done | done | done | by rewrite Ht].
  - destruct Hp as (Hg & Ht & Hd). cbn in Hf. destruct ev; try done.
    + destruct (poll_recv (data_rx s)) as [d c | |] eqn:Ep; [| | done].
      * apply poll_msg_concat in Ep. rewrite Ep in Hf.
        apply peek_on_ok; [done | done | done | cbn; by rewrite Ht | cbn; by rewrite <- app_assoc].
      * by apply peeked_ok.
    + case_cmp; [| done]. by apply peeked_ok.
  - destruct Hp as (Hg & Ht & Htg & Hd). cbn in Hf. destruct ev as [ | | | rr | rr | rr | rr | rr | rr | | ]; try done. destruct rr as [u | e].
    + intros [= <-]. set (s1 := if bool_decide (initial = []) then _ else _).
      assert (E : s_dst s1 = s_dst s /\ s_domain s1 = s_domain s /\ taken s1 = taken s /\ fed s1 = fed s /\ data_rx s1 = data_rx s).
      { unfold s1. by destruct (bool_decide (initial = [])). }
      destruct E as (E1 & E2 & E3 & E4 & E5). apply relaying_ok.
      * unfold passed_gate. rewrite E1, E2. exact Hg.
      * by rewrite E3.
      * apply relay_start_ok.
      * cbn. unfold decided in *. rewrite E1, E2. exact Hd.
      * rewrite E3, E4, E5. exact Hf.
    + case_bool_decide as Eo; intros [= <-]; [| by constructor].
      set (s1 := log s _). destruct (relay_direct_ok s1 initial Hg Ht) as [H1 H2]; [by right |].
      destruct (relay_direct_frame s1 initial) as (E1 & E2 & E3).
      constructor; [by apply relay_direct_time | rewrite E1, E2, E3, H2; exact Hf].
  - destruct Hp as (Hg & Ht & Hd & Hfk & Hw). cbn in Hf. destruct ev as [ | | | rr | rr | rr | rr | rr | rr | | ]; try done.
    destruct rr as [ip | e]; intros [= <-]; [| by constructor]. constructor; [| exact Hf]. cbn. split_and!; try done. by right.
  - destruct Hp as (Hg & Ht & Hw & Hport & Haddr). cbn in Hf. destruct ev as [ | | | rr | rr | rr | rr | rr | rr | | ]; try done.
    destruct rr as [u | e]; intros [= <-]; [| by constructor]. apply relaying_ok; [exact Hg | done | apply relay_start_ok | exact Hw | exact Hf].
  - destruct Hp as (Hg & Ht & Hr & Hd). apply (relay_step_ok t' s r); try done. by apply (relay_ok_later t).
  - done.
Qed.

Lemma sess_step_ok p p' : sess_step p p' -> sess_ok p.1 p.2 -> sess_ok p'.1 p'.2.
Proof.
  intros [t t' router ev s s' Htt HR Hs | t s m c Hsd | t s | t s m c _ | t s] Hok; cbn in *; [by eapply session_step_ok | | | |].
  - destruct Hok as [Hp Hf]. apply try_send_sent in Hsd as (-> & _ & _). constructor; [exact Hp |].
    cbn. rewrite Hf, concat_app. cbn. rewrite app_nil_r. unfold run_taken. cbn. by rewrite <- !app_assoc.
  - destruct Hok as [Hp Hf]. constructor; [exact Hp |]. cbn. rewrite app_nil_r. exact Hf.
  - destruct Hok as [Hp Hf]. by constructor.
  - destruct Hok as [Hp Hf]. by constructor.
Qed.

Lemma sess_reach_ok t0 dst domain rx tx t s : sess_reach t0 dst domain rx tx t s -> sess_ok t s.
Proof.
  intros (router & HR & Hr). change (sess_ok (t, s).1 (t, s).2). set (p := (t, s)) in *. clearbody p.
  assert (H0 : sess_ok (t0, session_start t0 router dst domain rx tx).1 (t0, session_start t0 router dst domain rx tx).2)
    by by apply start_ok.
  revert H0. induction Hr as [p | p1 p2 p3 Hs _ IH]; [done |]. intros H0. by eapply IH, sess_step_ok.
Qed.

(** ** The name of a session

    The name the routing saw is that of the fake DNS, or else the one in the bytes
    that were peeked. *)

Definition peeking (pc : SessPc) : bool := match pc with PeekFirst _ | PeekMore _ _ => true | _ => false end.

Record named (dst : SocketAddr) (domain : option bytes) (s : Session) : Prop := {
  nm_dst : s_dst s = dst;
  nm_name : match domain with
            | Some d => s_domain s = Some d /\ peeking (s_pc s) = false
            | None => if peeking (s_pc s) then s_domain s = None else extract_sni (taken s) = Some (s_domain s)
            end
}.

Definition same_name (s s' : Session) : Prop :=
  s_dst s' = s_dst s /\ s_domain s' = s_domain s /\ taken s' = taken s /\ peeking (s_pc s') = false.

Lemma named_same dst domain s s' : peeking (s_pc s) = false -> same_name s s' -> named dst domain s -> named dst domain s'.
Proof. intros Hp (E1 & E2 & E3 & E4) [H1 H2]. constructor; rewrite ?E1, ?E2, ?E3, ?E4; [done |]. by rewrite Hp in H2. Qed.

Lemma route_same router s initial : same_name s (route router s initial).
Proof.
  unfold route. destruct (resolve _ _ _); [by split_and! | | by split_and!].
  unfold relay_direct. destruct (is_fake_sock _); [destruct (s_domain s) eqn:E |]; split_and!; cbn; by rewrite ?E.
Qed.

Lemma relay_step_same now ev s r s' : relay_step now ev s r = Some s' -> same_name s s'.
Proof.
  assert (Hc : forall s n m, same_name s (with_pc (count_bytes s n m) (Relaying r))) by done.
  destruct ev; cbn [relay_step]; try done.
  - destruct (rr_up r); try done. destruct (poll_recv (data_rx s)); [| | done].
    + change (rr_mux (touched r now m [])) with (rr_mux r).
      destruct (bool_decide (m = [])), (rr_mux r); intros [= <-]; split_and!; cbn; rewrite ?app_nil_r; done.
    + by destruct (rr_mux r); intros [= <-].
  - destruct (rr_mux r), (rr_up r), (poll_recv (data_rx s)); try done. destruct (deadline <=? now); [| done].
    by destruct (negb _); intros [= <-].
  - destruct (rr_mux r), (rr_down r); try done. destruct (deadline <=? now); [| done]. by destruct (negb _); intros [= <-].
  - destruct (rr_up r); try done. destruct r0; [| by intros [= <-]]. destruct ((0 <? a) && _); [| done]. by intros [= <-].
  - destruct (rr_up r); try done. by intros [= <-].
  - destruct (rr_down r); try done. destruct r0; [| by intros [= <-]].
    change (rr_mux (touched r now [] a)) with (rr_mux r). destruct (bool_decide (a = [])), (rr_mux r); by intros [= <-].
  - destruct (rr_down r); try done. destruct (try_send (data_tx s) chunk); try done; by intros [= <-].
  - destruct (_ <=? now); [| done]. by intros [= <-].
Qed.

Lemma extract_sni_short buf : zlen buf < 44 -> extract_sni buf = Some None.
Proof. intros H. unfold extract_sni. by destruct (Z.ltb_spec (zlen buf) 44); [| lia]. Qed.

Lemma peeked_named dst s buf router s' :
  s_dst s = dst -> s_domain s = None -> taken s = buf -> peeked router s buf = Some s' -> named dst None s'.
Proof.
  unfold peeked. intros Hd Hdm Ht. destruct (extract_sni buf) as [sni |] eqn:Ee; [| done]. cbn [mbind option_bind]. intros [= <-].
  destruct (route_same router (with_domain s (match sni with Some n => Some n | None => s_domain s end)) buf) as (E1 & E2 & E3 & E4).
  constructor; [by rewrite E1 |]. rewrite E4, E3, E2. cbn. rewrite Ht, Ee, Hdm. by destruct sni.
Qed.

Lemma peek_on_named dst s buf dl router s' :
  s_dst s = dst -> s_domain s = None -> taken s = buf -> peek_on router s buf dl = Some s' -> named dst None s'.
Proof.
  unfold peek_on. intros Hd Hdm Ht. destruct (client_hello_record_len buf) as [[want |] |]; [| | done]; cbn [mbind option_bind].
  - case_cmp; [by apply peeked_named |]. intros [= <-]. by constructor.
  - by apply peeked_named.
Qed.

Lemma unpeeked_named dst s router :
  s_dst s = dst -> s_domain s = None -> taken s = [] -> named dst None (route router s []).
Proof.
  intros Hd Hdm Ht. destruct (route_same router s []) as (E1 & E2 & E3 & E4).
  constructor; [by rewrite E1 |]. rewrite E4, E3, E2, Ht, Hdm. done.
Qed.

Lemma session_step_named t dst domain router ev s s' :
  sess_ok t s -> named dst domain s -> forall t', session_step t' router on_server_down ev s = Some s' -> named dst domain s'.
Proof.
  intros [Hp _] Hn t'. unfold session_step. unfold pc_ok in Hp.
  destruct (s_pc s) as [dl | buf dl | target initial | name initial | addr initial | r | res last] eqn:Epc.
  - destruct Hp as (_ & Ht & _). destruct Hn as [Hd Hdm]. destruct domain; [by destruct Hdm as [_ Hpk]; rewrite Epc in Hpk |].
    rewrite Epc in Hdm. cbn in Hdm. destruct ev; try done.
    + destruct (poll_recv (data_rx s)) as [d c | |]; [| | done].
      * case_bool_decide as Ed; [intros [= <-]; subst d; apply unpeeked_named; [done | done | cbn; by rewrite Ht] |].
        apply peek_on_named; [done | done | cbn; by rewrite Ht].
      * intros [= <-]. by apply unpeeked_named.
    + case_cmp; [| done]. intros [= <-]. by apply unpeeked_named.
  - destruct Hp as (_ & Ht & _). destruct Hn as [Hd Hdm]. destruct domain; [by destruct Hdm as [_ Hpk]; rewrite Epc in Hpk |].
    rewrite Epc in Hdm. cbn in Hdm. destruct ev; try done.
    + destruct (poll_recv (data_rx s)) as [d c | |]; [| | done].
      * apply peek_on_named; [done | done | cbn; by rewrite Ht].
      * by apply peeked_named.
    + case_cmp; [| done]. by apply peeked_named.
  - destruct ev as [ | | | rr | rr | rr | rr | rr | rr | | ]; try done.
    destruct rr as [u | e]; [intros [= <-] | case_bool_decide; intros [= <-]]; apply (named_same dst domain s);
      try (by rewrite Epc); try done; [by destruct (bool_decide (initial = [])) |].
    unfold relay_direct. cbn. destruct (is_fake_sock (s_dst s)); [destruct (s_domain s) eqn:E |]; split_and!; cbn; by rewrite ?E.
  - destruct ev as [ | | | rr | rr | rr | rr | rr | rr | | ]; try done. destruct rr; intros [= <-]; apply (named_same dst domain s); by rewrite ?Epc.
  - destruct ev as [ | | | rr | rr | rr | rr | rr | rr | | ]; try done. destruct rr; intros [= <-]; apply (named_same dst domain s); by rewrite ?Epc.
  - intros Hs. apply relay_step_same in Hs. apply (named_same dst domain s); by rewrite ?Epc.
  - done.
Qed.

Lemma start_named now router dst domain rx tx : named dst domain (session_start now router dst domain rx tx).
Proof.
  unfold session_start. destruct (gate dst domain); [constructor; [done | by destruct domain] |].
  destruct domain as [d |]; [| by constructor]. set (s := Build_Session _ _ _ _ _ _ _ _ _ _).
  destruct (route_same router s []) as (E1 & E2 & E3 & E4). constructor; [by rewrite E1 | by rewrite E2, E4].
Qed.

Lemma sess_reach_named t0 dst domain rx tx t s : sess_reach t0 dst domain rx tx t s -> named dst domain s.
Proof.
  intros (router & HR & Hr). change (named dst domain (t, s).2). set (p := (t, s)) in *. clearbody p.
  assert (H0 : sess_ok (t0, session_start t0 router dst domain rx tx).1 (t0, session_start t0 router dst domain rx tx).2)
    by by apply start_ok.
  assert (Hn : named dst domain (t0, session_start t0 router dst domain rx tx).2) by apply start_named.
  revert H0 Hn. induction Hr as [p | p1 p2 p3 Hs _ IH]; [done |]. intros H0 Hn.
  apply IH; [by eapply sess_step_ok |]. destruct Hs as [t1 t1' router' ev s1 s1' Htt HR' Hs1 | t1 s1 m c _ | t1 s1 | t1 s1 m c _ | t1 s1];
    cbn in *; [by eapply session_step_named | | | |]; destruct Hn; by constructor.
Qed.

Definition uses_proxy (pc : SessPc) : bool :=
  match pc with Opening _ _ => true | Relaying r | Finished _ (Some r) => rr_mux r | _ => false end.
Definition uses_direct (pc : SessPc) : bool :=
  match pc with
  | Resolving _ _ | Connecting _ _ => true
  | Relaying r | Finished _ (Some r) => negb (rr_mux r)
  | _ => false
  end.

(** C31: in every run of a session, whatever routers are active meanwhile, nothing is
    opened for DNS over TLS, a private address, or a fake address without a name.
    The name the decision is about is the one of the fake DNS, or else the one in
    the first bytes of the device. A stream of the proxy is asked for (with the
    name and port, or the address, as its target) only if an active router answered
    Proxy, a direct connection is made only if one answered Direct, or Proxy while
    the configuration sends sessions direct when the servers are down; so what every
    router blocks never leaves the device. *)
Theorem session_obeys_routing t0 dst domain rx tx t s :
  sess_reach t0 dst domain rx tx t s ->
  (match domain with Some d => s_domain s = Some d | None => peeking (s_pc s) = false -> extract_sni (taken s) = Some (s_domain s) end) /\
  (uses_proxy (s_pc s) || uses_direct (s_pc s) = true ->
   sock_port dst <> 853 /\ is_private_ip (sock_ip dst) = false /\ (is_fake_sock dst = true -> s_domain s <> None)) /\
  (uses_proxy (s_pc s) = true -> exists router, routers router /\ resolve router (s_domain s) (sock_ip dst) = Proxy) /\
  (uses_direct (s_pc s) = true ->
   exists router, routers router /\
     (resolve router (s_domain s) (sock_ip dst) = Direct \/
      resolve router (s_domain s) (sock_ip dst) = Proxy /\ on_server_down = Direct)) /\
  (forall target initial, s_pc s = Opening target initial ->
     target = match s_domain s with Some d => TDomain d (sock_port dst) | None => TIp dst end) /\
  (forall addr initial, s_pc s = Connecting addr initial ->
     sock_port addr = sock_port dst /\ (addr = dst \/ is_fake_sock dst = true)).
Proof.
  intros Hr. pose proof (sess_reach_ok _ _ _ _ _ _ _ Hr) as [Hp _]. pose proof (sess_reach_named _ _ _ _ _ _ _ Hr) as [Hd Hn].
  subst dst. split. { destruct domain; [apply Hn |]. intros Hk. by rewrite Hk in Hn. }
  assert (Hw : went_direct s -> exists router, routers router /\
     (resolve router (s_domain s) (sock_ip (s_dst s)) = Direct \/
      resolve router (s_domain s) (sock_ip (s_dst s)) = Proxy /\ on_server_down = Direct)).
  { intros [(router & HR & E) | [(router & HR & E) Ho]]; exists router; split; [done | by left | done | by right]. }
  unfold pc_ok in Hp. destruct (s_pc s) as [| | target initial | name initial | addr initial | r | res [r |]]; cbn [uses_proxy uses_direct orb negb].
  - split_and!; done.
  - split_and!; done.
  - destruct Hp as (Hg & _ & Ht & Hdec). split_and!; try done. by intros ? ? [= <- <-].
  - destruct Hp as (Hg & _ & _ & _ & Hdir). split_and!; try done. intros _. by apply Hw.
  - destruct Hp as (Hg & _ & Hdir & Hport & Ha). split_and!; try done; [intros _; by apply Hw |]. by intros ? ? [= <- <-].
  - destruct Hp as (Hg & _ & _ & Hdec). destruct (rr_mux r); cbn [negb]; split_and!; try done. intros _. by apply Hw.
  - destruct Hp as (Hg & _ & _ & _ & Hdec). destruct (rr_mux r); cbn [negb]; split_and!; try done. intros _. by apply Hw.
  - split_and!; done.
Qed.

(** in every run the bytes of the device reach the target in order, from the
    very first one, also those that were peeked for a name: what was taken is what
    was written plus what is being written, and what the engine sent is what was
    taken plus what waits in the channel; likewise what was read from the target is
    what was handed to the engine plus the chunk in hand. The idle timer of either
    side ends a direct session only if neither side has moved a byte for 300
    seconds, and otherwise changes nothing but its deadline. *)
Theorem session_relays_bytes t0 dst domain rx tx t s r :
  sess_reach t0 dst domain rx tx t s -> s_pc s = Relaying r ->
  fed s = taken s ++ rr_taken r ++ concat (Chan.queue (data_rx s)) /\
  taken s ++ rr_taken r = rr_sent r ++ up_rest r /\
  rr_read r = rr_delivered r ++ down_rest r /\
  forall t' router ev s', t <= t' -> ev = EvTimeout \/ ev = EvReadTimeout ->
    session_step t' router on_server_down ev s = Some s' ->
    (s_pc s' = Finished (Ok tt) (Some r) /\ Forall (fun x => x + IDLE_TIMEOUT <= t') (rr_start r :: rr_activity r)) \/
    (exists r', s_pc s' = Relaying r' /\ rr_sent r' = rr_sent r /\ up_rest r' = up_rest r /\ rr_delivered r' = rr_delivered r /\
       down_rest r' = down_rest r /\ t' < rr_last r + IDLE_TIMEOUT).
Proof.
  intros Hr Hpc. pose proof (sess_reach_ok _ _ _ _ _ _ _ Hr) as [Hp Hf]. unfold run_taken, pc_ok in *. rewrite Hpc in Hp, Hf.
  destruct Hp as (_ & Ht & [H1 H2 H3 H4] & _). split_and!; [done | by rewrite Ht | done |].
  intros t' router ev s' Htt Hev Hs.
  assert (Hend : forall s1, idle_left t' (rr_last r) = 0 -> s1 = relay_over s r (Ok tt) ->
    s_pc s1 = Finished (Ok tt) (Some r) /\ Forall (fun x => x + IDLE_TIMEOUT <= t') (rr_start r :: rr_activity r)).
  { intros s1 Hz%idle_left_zero ->. split; [done |]. constructor; [lia |]. eapply Forall_impl; [exact H4 |]. cbn. lia. }
  unfold session_step in Hs. rewrite Hpc in Hs. destruct Hev as [-> | ->]; cbn [relay_step] in Hs; destruct (rr_mux r); try done.
  - destruct (rr_up r) as [rest | deadline |] eqn:Eu; try done. destruct (poll_recv (data_rx s)); try done.
    destruct (deadline <=? t'); [| done]. destruct (Z.eqb_spec (idle_left t' (rr_last r)) 0) as [Hz | Hz]; cbn [negb] in Hs; injection Hs as Hs'.
    + left. by apply Hend.
    + right. subst s'. eexists. split; [reflexivity |]. unfold up_rest, down_rest. cbn. rewrite Eu. split_and!; try done.
      by apply idle_left_pos.
  - destruct (rr_down r) as [deadline |] eqn:Edn; [| done].
    destruct (deadline <=? t'); [| done]. destruct (Z.eqb_spec (idle_left t' (rr_last r)) 0) as [Hz | Hz]; cbn [negb] in Hs; injection Hs as Hs'.
    + left. by apply Hend.
    + right. subst s'. eexists. split; [reflexivity |]. unfold up_rest, down_rest. cbn. rewrite Edn. split_and!; try done.
      by apply idle_left_pos.
Qed.

End runs.
(** ** A ClientHello in pieces *)

(** [n] messages in a row, before any timer fires. *)
Fixpoint messages (n : nat) (now : Z) (router : Router) (on_server_down : Action) (s : Session) : option Session :=
  match n with
  | O => Some s
  | S n => s ← session_step now router on_server_down EvMessage s; messages n now router on_server_down s
  end.

Lemma peek_on_hello router s buf rest more dl c :
  hello_ok c -> zlen (hello_handshake c) <= 16384 -> buf ++ rest = hello_record c ++ more -> 0 < zlen buf ->
  (zlen buf < zlen (hello_record c) /\ peek_on router s buf dl = Some (with_pc s (PeekMore buf dl))) \/
  (exists s', peek_on router s buf dl = Some s' /\ s_domain s' = Some (ch_host c) /\ peeking (s_pc s') = false).
Proof.
  intros Hc Hmax E Hb. destruct (record_len_prefix c buf rest more Hc Hmax E Hb) as (want & Hw & _ & H1 & H2).
  unfold peek_on. rewrite Hw. cbn [mbind option_bind]. destruct (Z.leb_spec want (zlen buf)) as [Hle | Hgt]; [right | left].
  - specialize (H1 Hle). pose proof (record_whole c buf rest more E H1) as Hpre.
    destruct Hpre as [tail ->]. unfold peeked. rewrite extract_hello by done. cbn [mbind option_bind].
    eexists. split; [reflexivity |]. destruct (route_same router (with_domain s (Some (ch_host c))) (hello_record c ++ tail)) as (_ & Ed & _ & Hp).
    by rewrite Ed, Hp.
  - split; [| done]. destruct (Z.lt_ge_cases (zlen buf) (zlen (hello_record c))); [done |]. specialize (H2 ltac:(lia)). lia.
Qed.

Lemma messages_hello router osd now c more dl : hello_ok c -> zlen (hello_handshake c) <= 16384 -> forall ms buf s,
  s_pc s = PeekMore buf dl -> Chan.queue (data_rx s) = ms -> buf ++ concat ms = hello_record c ++ more ->
  0 < zlen buf < zlen (hello_record c) ->
  exists n s', messages n now router osd s = Some s' /\ s_domain s' = Some (ch_host c) /\ peeking (s_pc s') = false.
Proof.
  intros Hc Hmax. induction ms as [| m ms IH]; intros buf s Hpc Hq E Hb.
  - cbn [concat] in E. rewrite (app_nil_r buf) in E. rewrite E, zlen_app in Hb. pose proof (zlen_nonneg more). lia.
  - assert (Hstep : session_step now router osd EvMessage s = peek_on router (with_rx s (Chan.with_queue (data_rx s) ms) m) (buf ++ m) dl).
    { unfold session_step. rewrite Hpc. unfold poll_recv. by rewrite Hq. }
    cbn [concat] in E. rewrite app_assoc in E. set (s1 := with_rx s (Chan.with_queue (data_rx s) ms) m) in *.
    assert (Hb' : 0 < zlen (buf ++ m)) by (rewrite zlen_app; pose proof (zlen_nonneg m); lia).
    destruct (peek_on_hello router s1 (buf ++ m) (concat ms) more dl c Hc Hmax E Hb') as [[Hlt Hp] | (s' & Hp & Hd & Hpk)].
    + destruct (IH (buf ++ m) (with_pc s1 (PeekMore (buf ++ m) dl)) eq_refl eq_refl E ltac:(lia)) as (n & s' & Hn & Hd & Hpk).
      exists (S n), s'. cbn [messages]. rewrite Hstep, Hp. by split_and!.
    + exists 1%nat, s'. cbn [messages]. rewrite Hstep, Hp. by split_and!.
Qed.

(** However the device cuts a ClientHello into messages (and whatever follows it),
    the session knows its host name once the last piece is in, unless a timer
    fires before. *)
Theorem sni_reassembled router osd now dst rx tx c more m ms :
  hello_ok c -> zlen (hello_handshake c) <= 16384 -> gate dst None = None ->
  Chan.queue rx = m :: ms -> m <> [] -> m ++ concat ms = hello_record c ++ more ->
  exists n s', messages n now router osd (session_start now router dst None rx tx) = Some s' /\
    s_domain s' = Some (ch_host c) /\ peeking (s_pc s') = false.
Proof.
  intros Hc Hmax Hg Hq Hm E. set (s := session_start now router dst None rx tx).
  assert (Hs : s = {| s_dst := dst; s_domain := None; s_pc := PeekFirst (now + SNI_PEEK_TIMEOUT); data_rx := rx; data_tx := tx;
    taken := []; fed := concat (Chan.queue rx); s_log := []; bytes_up := 0; bytes_down := 0 |}) by (unfold s, session_start; by rewrite Hg).
  assert (Hb : 0 < zlen m) by (destruct m; [done |]; rewrite zlen_cons; pose proof (zlen_nonneg m); lia).
  set (s1 := with_rx s (Chan.with_queue rx ms) m).
  assert (Hstep : session_step now router osd EvMessage s = peek_on router s1 m (now + SNI_PEEK_TIMEOUT)).
  { unfold s1. rewrite Hs. unfold session_step. cbn [s_pc data_rx]. unfold poll_recv. rewrite Hq. by rewrite bool_decide_eq_false_2. }
  destruct (peek_on_hello router s1 m (concat ms) more (now + SNI_PEEK_TIMEOUT) c Hc Hmax E Hb) as [[Hlt Hp] | (s' & Hp & Hd & Hpk)].
  - destruct (messages_hello router osd now c more (now + SNI_PEEK_TIMEOUT) Hc Hmax ms m (with_pc s1 (PeekMore m (now + SNI_PEEK_TIMEOUT)))
      eq_refl eq_refl E ltac:(lia)) as (n & s' & Hn & Hd & Hpk).
    exists (S n), s'. cbn [messages]. rewrite Hstep, Hp. by split_and!.
  - exists 1%nat, s'. cbn [messages]. rewrite Hstep, Hp. by split_and!.
Qed.

End session.

(** ** Witnesses *)

(** A run of a session on its own, under one router, the clock going forward. *)
Fixpoint run_events {UC : UnicodeCase} (router : Router) (osd : Action) (evs : list (Z * SessEvent)) (p : Z * Session) : option (Z * Session) :=
  match evs with
  | [] => Some p
  | (t, ev) :: evs =>
      if p.1 <=? t then s ← session_step (fun _ => []) t router osd ev p.2; run_events router osd evs (t, s) else None
  end.

Lemma run_events_reach {UC : UnicodeCase} router osd evs : forall p p',
  run_events router osd evs p = Some p' -> rtc (sess_step (fun _ => []) (eq router) osd) p p'.
Proof.
  induction evs as [| [t ev] evs IH]; intros [t0 s] p'; cbn [run_events fst snd].
  - intros [= <-]. apply rtc_refl.
  - destruct (Z.leb_spec t0 t); [| done]. destruct (session_step _ t router osd ev s) as [s1 |] eqn:E; [| done].
    cbn [mbind option_bind]. intros Hr. eapply rtc_l; [by apply (ss_step _ _ _ t0 t router ev s s1) | by apply IH].
Qed.

Definition ex_direct : Router := {| rules := []; default_action := Direct; geoip_reader := None |}.
Definition ex_dst : SocketAddr := SockV4 (from_be32 93 184 216 34) 443.
Definition ex_rx : Chan bytes := {| queue := [ztake 20 (hello_record ex_hello); zdrop 20 (hello_record ex_hello)]; cap := 512; rx_gone := false; tx_gone := false |}.
Definition ex_tx : Chan bytes := {| queue := []; cap := 512; rx_gone := false; tx_gone := false |}.
Definition ex_start : Session := @session_start ascii_case (fun _ => []) 0 ex_direct ex_dst None ex_rx ex_tx.

(** The ClientHello comes in two pieces, the connection is made, the first ten
    bytes of it are written, and a chunk of the target is read. *)
Definition ex_events : list (Z * SessEvent) :=
  [(1, EvMessage); (2, EvMessage); (40, EvConnected (Ok tt)); (41, EvWrote (Ok 10)); (50, EvRead (Ok [1; 2; 3]))].
Definition ex_session : Session :=
  default ex_start (snd <$> @run_events ascii_case ex_direct Direct ex_events (0, ex_start)).

Lemma ex_session_runs : @run_events ascii_case ex_direct Direct ex_events (0, ex_start) = Some (50, ex_session).
Proof. vm_compute. reflexivity. Qed.

Lemma ex_session_reach : @sess_reach ascii_case (fun _ => []) (eq ex_direct) Direct 0 ex_dst None ex_rx ex_tx 50 ex_session.
Proof. exists ex_direct. split; [done |]. by apply (run_events_reach _ _ _ _ _ ex_session_runs). Qed.

Lemma session_obeys_routing_witness :
  s_domain ex_session = Some (str "example.com") /\
  (sock_port ex_dst <> 853 /\ is_private_ip (sock_ip ex_dst) = false /\ (is_fake_sock ex_dst = true -> s_domain ex_session <> None)).
Proof.
  destruct (@session_obeys_routing ascii_case (fun _ => []) (eq ex_direct) Direct 0 ex_dst None ex_rx ex_tx 50 ex_session ex_session_reach)
    as (_ & H & _).
  split; [vm_compute; reflexivity | apply H; vm_compute; reflexivity].
Defined.

Definition ex_run : RelayRun :=
  match s_pc ex_session with Relaying r => r | _ => relay_start false 0 [] end.

Lemma session_relays_bytes_witness :
  hello_record ex_hello = rr_sent ex_run ++ up_rest ex_run /\ zlen (rr_sent ex_run) = 10 /\ down_rest ex_run = [1; 2; 3].
Proof.
  destruct (@session_relays_bytes ascii_case (fun _ => []) (eq ex_direct) Direct 0 ex_dst None ex_rx ex_tx 50 ex_session ex_run ex_session_reach)
    as (_ & H & _); [vm_compute; reflexivity |].
  split_and!; [| vm_compute; reflexivity | vm_compute; reflexivity].
  etransitivity; [| exact H]. vm_compute. reflexivity.
Defined.

Lemma sni_reassembled_witness :
  exists n s', @messages ascii_case (fun _ => []) n 0 ex_direct Direct ex_start = Some s' /\
    s_domain s' = Some (str "example.com") /\ peeking (s_pc s') = false.
Proof.
  refine (@sni_reassembled ascii_case (fun _ => []) ex_direct Direct 0 ex_dst ex_rx ex_tx ex_hello []
    (ztake 20 (hello_record ex_hello)) [zdrop 20 (hello_record ex_hello)] _ _ _ _ _ _).
  - split_and!; try by_compute.
  - vm_compute. discriminate.
  - vm_compute. reflexivity.
  - reflexivity.
  - vm_compute. discriminate.
  - vm_compute. reflexivity.
Defined.
