(* ===== verification/DnsClient.v ===== *)
(** * The DNS client of direct connections (xr-core/src/session.rs)

    The resolution of a name for a direct connection of the VPN engine: the
    resolver of the host first, then a query over UDP to every known resolver at
    once, of which the first good answer wins; the A query it sends and the reader
    of the answer. The names of an answer are read the way [skip_dns_name] does. *)

From S2P Require Import Prelude Text Net Protocol FakeDns.

Definition FALLBACK_DNS_RESOLVERS : list SocketAddr :=
  [SockV4 (from_be32 1 1 1 1) 53; SockV4 (from_be32 8 8 8 8) 53; SockV4 (from_be32 77 88 8 8) 53].

(** ** The query and the reader of the answer *)

Definition build_dns_query (domain : bytes) : bytes :=
  [0xAB; 0xCD; 0x01; 0x00] ++ [0; 1; 0; 0; 0; 0; 0; 0] ++
  concat ((fun label => u8 (zlen label) :: label) <$> split 46 domain) ++ [0] ++ [0; 1] ++ [0; 1].

Fixpoint skip_dns_name (fuel : nat) (data : bytes) (pos : Z) : option Z :=
  match fuel with
  | O => None
  | S fuel =>
      if pos <? zlen data then
        b ← index data pos;
        if b =? 0 then Some (pos + 1)
        else if Z.land b 0xC0 =? 0xC0 then Some (pos + 2)
        else skip_dns_name fuel data (pos + (b + 1))
      else Some pos
  end.

Definition no_a_record (domain : bytes) : io_error := IoError OtherKind (str "DNS: no A record for " ++ domain).
Definition no_answers (domain : bytes) : io_error := IoError OtherKind (str "DNS: no answers for " ++ domain).

(** The scan of [n] answers. *)
Fixpoint scan_answers (n : nat) (data : bytes) (pos : Z) (domain : bytes) : option (io_result Z) :=
  match n with
  | O => Some (Err (no_a_record domain))
  | S n =>
      if zlen data <=? pos then Some (Err (no_a_record domain)) else
      pos ← skip_dns_name (S (length data)) data pos;
      if zlen data <? pos + 10 then Some (Err (no_a_record domain)) else
      t0 ← index data pos; t1 ← index data (pos + 1);
      l0 ← index data (pos + 8); l1 ← index data (pos + 9);
      let rtype := from_be16 t0 t1 in
      let rdlength := from_be16 l0 l1 in
      let pos := pos + 10 in
      if (rtype =? 1) && (rdlength =? 4) && (pos + 4 <=? zlen data) then
        a ← index data pos; b ← index data (pos + 1); c ← index data (pos + 2); d ← index data (pos + 3);
        Some (Ok (from_be32 a b c d))
      else scan_answers n data (pos + rdlength) domain
  end.

(** Each turn of [skip_dns_name] consumes a byte at least. *)
Definition parse_dns_a_record (data : bytes) (domain : bytes) : option (io_result Z) :=
  if zlen data <? 12 then Some (io_err InvalidData "DNS response too short") else
  a ← index data 6; b ← index data 7;
  let ancount := from_be16 a b in
  if ancount =? 0 then Some (Err (no_answers domain)) else
  pos ← skip_dns_name (S (length data)) data 12;
  scan_answers (Z.to_nat ancount) data (pos + 4) domain.

(** ** The resolvers *)

(** The loop over [resolvers.chain(FALLBACK)], with the set of those seen. *)
Fixpoint dedup (seen : gset SocketAddr) (l : list SocketAddr) : list SocketAddr :=
  match l with
  | [] => []
  | r :: l => if decide (r ∈ seen) then dedup seen l else r :: dedup ({[r]} ∪ seen) l
  end.

Definition effective (resolvers : list SocketAddr) : list SocketAddr :=
  if bool_decide (resolvers = []) then FALLBACK_DNS_RESOLVERS else dedup ∅ (resolvers ++ FALLBACK_DNS_RESOLVERS).

(** What the network does with one query: the socket, its protection, the
    sending, and the datagram that comes within three seconds. *)
Record Exchange := {
  ex_socket : io_result unit;
  ex_protect : bool;
  ex_sent : io_result unit;
  ex_answer : option (io_result bytes)
}.

Section resolution.
Context (show_sock : SocketAddr -> bytes).

Definition query_single_resolver (domain : bytes) (resolver : SocketAddr) (x : Exchange) : option (io_result Z) :=
  match ex_socket x with
  | Err e => Some (Err e)
  | Ok _ =>
      if negb (ex_protect x) then Some (io_err OtherKind "protect(dns socket) failed") else
      match ex_sent x with
      | Err e => Some (Err e)
      | Ok _ =>
          match ex_answer x with
          | None => Some (Err (IoError TimedOut (str "DNS resolve timeout for " ++ domain ++ str " via " ++ show_sock resolver)))
          | Some (Err e) => Some (Err e)
          | Some (Ok buf) => parse_dns_a_record (ztake 512 buf) domain
          end
      end
  end.

(** The results in the order in which the tasks deliver them. *)
Fixpoint first_answer (results : list (io_result Z)) (last_err : option io_error) (domain : bytes) : io_result Z :=
  match results with
  | [] => Err (default (IoError TimedOut (str "DNS resolve timeout for " ++ domain)) last_err)
  | Ok ip :: _ => Ok ip
  | Err e :: results => first_answer results (Some e) domain
  end.

(** [order] is the order in which the resolvers' tasks end. A task that panics
    delivers nothing. *)
Definition resolve_via_protected_dns (domain : bytes) (net : SocketAddr -> Exchange) (order : list SocketAddr) : io_result Z :=
  first_answer (omap (fun r => query_single_resolver domain r (net r)) order) None domain.

(** What the system resolver's task returned: nothing when there is none, an
    address, no answer, or a panic. *)
Definition resolve_domain_with_fallback (domain : bytes) (system : option (result (option Z) unit))
    (net : SocketAddr -> Exchange) (order : list SocketAddr) : io_result Z :=
  match system with
  | Some (Ok (Some ip)) => Ok ip
  | _ => resolve_via_protected_dns domain net order
  end.

End resolution.

(** ** Answers *)

(** A resource record whose name is a list of labels, closed by a zero or by a
    compression pointer. *)
Record ResourceRecord := {
  rr_labels : list bytes;
  rr_pointer : option (Z * Z);
  rr_type : Z;
  rr_class_ttl : bytes;
  rr_data : bytes
}.

Definition encode_name (labels : list bytes) (pointer : option (Z * Z)) : bytes :=
  concat (encode_label <$> labels) ++ match pointer with Some (a, b) => [a; b] | None => [0] end.

Definition encode_rr (r : ResourceRecord) : bytes :=
  encode_name (rr_labels r) (rr_pointer r) ++ be16 (rr_type r) ++ rr_class_ttl r ++ be16 (zlen (rr_data r)) ++ rr_data r.

(** The two high bits of a length byte are not both set: those are the pointers. *)
Definition plain_label (l : bytes) : Prop := 0 < zlen l < 192.

Definition name_ok (labels : list bytes) (pointer : option (Z * Z)) : Prop :=
  Forall plain_label labels /\ match pointer with Some (a, b) => 192 <= a < 256 /\ is_byte b | None => True end.

Definition rr_ok (r : ResourceRecord) : Prop :=
  name_ok (rr_labels r) (rr_pointer r) /\ 0 <= rr_type r < 65536 /\ zlen (rr_class_ttl r) = 6 /\ zlen (rr_data r) < 65536.

(** The address the records give: that of the first A record. *)
Definition a_record (r : ResourceRecord) : option Z :=
  match rr_data r with
  | [a; b; c; d] => if rr_type r =? 1 then Some (from_be32 a b c d) else None
  | _ => None
  end.
Definition first_a (rs : list ResourceRecord) : option Z := head (omap a_record rs).

(** A whole answer to one question. *)
Definition encode_answer (head : bytes) (tail : bytes) (question : list bytes) (rs : list ResourceRecord) (rest : bytes) : bytes :=
  head ++ be16 (zlen rs) ++ tail ++ encode_question question ++ concat (encode_rr <$> rs) ++ rest.

Lemma pointer_bits b : 0 <= b < 256 -> (Z.land b 0xC0 =? 0xC0) = (192 <=? b).
Proof.
  intros Hb.
  assert (H : Forall (fun b => (Z.land b 0xC0 =? 0xC0) = (192 <=? b)) (seqZ 0 256)) by by_compute.
  rewrite Forall_forall in H. apply H. by apply elem_of_seqZ.
Qed.

Lemma encode_label_cons l labels : concat (encode_label <$> l :: labels) = zlen l :: l ++ concat (encode_label <$> labels).
Proof. done. Qed.

Lemma labels_long labels : (length labels <= length (concat (encode_label <$> labels)))%nat.
Proof.
  induction labels as [| l labels IH]; [done |]. rewrite encode_label_cons. cbn [length]. rewrite length_app. lia.
Qed.

(** [skip_dns_name] passes over a name, however it ends. *)
Lemma skip_name labels pointer : name_ok labels pointer -> forall fuel pre rest, (length labels < fuel)%nat ->
  skip_dns_name fuel (pre ++ encode_name labels pointer ++ rest) (zlen pre) = Some (zlen pre + zlen (encode_name labels pointer)).
Proof.
  intros [Hl Hp]. unfold encode_name. induction labels as [| l labels IH]; intros fuel pre rest Hf;
    (destruct fuel as [| fuel]; [simpl in Hf; lia |]); cbn [skip_dns_name].
  - cbn [fmap list_fmap concat app]. destruct pointer as [[a b] |]; cbn [app].
    + rewrite index_mid by done. destruct Hp as [Ha _]. cbn [mbind option_bind]. rewrite pointer_bits by lia. zlen_simpl.
      pose proof (zlen_nonneg rest). rewrite (proj2 (Z.ltb_lt _ _)) by lia.
      destruct (Z.eqb_spec a 0); [lia |]. destruct (Z.leb_spec 192 a); [| lia]. f_equal.
    + rewrite index_mid by done. zlen_simpl. pose proof (zlen_nonneg rest). rewrite (proj2 (Z.ltb_lt _ _)) by lia.
      cbn [mbind option_bind]. rewrite Z.eqb_refl. f_equal.
  - apply Forall_cons in Hl as [Hz Hl]. unfold plain_label in Hz. rewrite encode_label_cons.
    set (tail := match pointer with Some (a, b) => [a; b] | None => [0] end) in *.
    cbn [app]. rewrite index_mid by done. rewrite !zlen_app, !zlen_cons, !zlen_app.
    pose proof (zlen_nonneg (concat (encode_label <$> labels))). pose proof (zlen_nonneg tail). pose proof (zlen_nonneg rest).
    rewrite (proj2 (Z.ltb_lt _ _)) by lia. cbn [mbind option_bind]. destruct (Z.eqb_spec (zlen l) 0); [lia |].
    rewrite pointer_bits by lia. destruct (Z.leb_spec 192 (zlen l)); [lia |].
    specialize (IH Hl fuel (pre ++ zlen l :: l) rest ltac:(simpl in Hf; lia)).
    replace (pre ++ zlen l :: ((l ++ concat (encode_label <$> labels)) ++ tail) ++ rest)
      with ((pre ++ zlen l :: l) ++ (concat (encode_label <$> labels) ++ tail) ++ rest) by (by rewrite <- !app_assoc; cbn [app]; rewrite <- ?app_assoc).
    replace (zlen pre + (zlen l + 1)) with (zlen (pre ++ zlen l :: l)) by zlen_lia.
    rewrite IH. f_equal. zlen_lia.
Qed.

Lemma skip_name_in labels pointer pre rest data : name_ok labels pointer -> data = pre ++ encode_name labels pointer ++ rest ->
  skip_dns_name (S (length data)) data (zlen pre) = Some (zlen pre + zlen (encode_name labels pointer)).
Proof.
  intros Hn ->. apply skip_name; [done |]. rewrite !length_app. unfold encode_name. rewrite length_app. pose proof (labels_long labels). lia.
Qed.

Lemma index_at {A} (p l : list A) k : 0 <= k -> index (p ++ l) (zlen p + k) = index l k.
Proof. intros Hk. rewrite index_app_r by lia. f_equal. lia. Qed.

(** The fixed fields that follow a name. *)
Lemma fixed_fields p t ct len d :
  zlen ct = 6 -> let data := p ++ (be16 t ++ ct ++ be16 len) ++ d in
  index data (zlen p) = Some ((t / 2 ^ 8) mod 256) /\ index data (zlen p + 1) = Some (t mod 256) /\
  index data (zlen p + 8) = Some ((len / 2 ^ 8) mod 256) /\ index data (zlen p + 9) = Some (len mod 256).
Proof.
  intros Hc data.
  destruct ct as [| c0 [| c1 [| c2 [| c3 [| c4 [| c5 [| ? ?]]]]]]]; try (unfold zlen in Hc; simpl in Hc; lia).
  rewrite <- (Z.add_0_r (zlen p)) at 1. unfold data. rewrite !index_at by lia. done.
Qed.

(** One record: its address, or on to the next one. *)
Lemma scan_record n data pre r rest domain : rr_ok r -> data = pre ++ encode_rr r ++ rest ->
  scan_answers (S n) data (zlen pre) domain =
  match a_record r with
  | Some ip => Some (Ok ip)
  | None => scan_answers n data (zlen (pre ++ encode_rr r)) domain
  end.
Proof.
  intros (Hn & Ht & Hc & Hd) E. cbn [scan_answers].
  unfold encode_rr in E. set (name := encode_name (rr_labels r) (rr_pointer r)) in *.
  assert (Hname : 0 < zlen name) by (unfold name, encode_name; destruct (rr_pointer r) as [[? ?] |]; zlen_lia).
  rewrite <- app_assoc in E. erewrite (skip_name_in _ _ pre); [| done | exact E]. fold name.
  assert (Hz : zlen (pre ++ encode_rr r) = zlen (pre ++ name) + 10 + zlen (rr_data r)).
  { unfold encode_rr. fold name. zlen_simpl. lia. }
  assert (Hlen : zlen data = zlen (pre ++ name) + 10 + zlen (rr_data r) + zlen rest) by (rewrite E; zlen_simpl; lia).
  pose proof (zlen_nonneg (rr_data r)). pose proof (zlen_nonneg rest). pose proof (zlen_app pre name).
  rewrite (proj2 (Z.leb_gt _ _)) by lia. cbn [mbind option_bind].
  rewrite <- zlen_app. rewrite (proj2 (Z.ltb_ge _ _)) by lia.
  assert (Ed : data = (pre ++ name) ++ (be16 (rr_type r) ++ rr_class_ttl r ++ be16 (zlen (rr_data r))) ++ (rr_data r ++ rest))
    by (rewrite E; by rewrite <- !app_assoc).
  destruct (fixed_fields (pre ++ name) (rr_type r) (rr_class_ttl r) (zlen (rr_data r)) (rr_data r ++ rest) Hc) as (F0 & F1 & F8 & F9).
  rewrite <- Ed in F0, F1, F8, F9. rewrite F0, F1, F8, F9. cbn [mbind option_bind].
  rewrite !be16_roundtrip by lia.
  replace (zlen (pre ++ name) + 10 + zlen (rr_data r)) with (zlen (pre ++ encode_rr r)) by done.
  unfold a_record. destruct (Z.eqb_spec (rr_type r) 1) as [Ht1 | Hne]; cbn [andb].
  2: { by destruct (rr_data r) as [| ? [| ? [| ? [| ? [| ? ?]]]]]. }
  destruct (Z.eqb_spec (zlen (rr_data r)) 4) as [H4 | H4]; cbn [andb].
  2: { destruct (rr_data r) as [| ? [| ? [| ? [| ? [| ? ?]]]]]; try done. }
  rewrite (proj2 (Z.leb_le _ _)) by lia.
  destruct (rr_data r) as [| a [| b [| c [| d [| ? ?]]]]] eqn:Ea; try (unfold zlen in H4; simpl in H4; lia).
  set (q := (pre ++ name) ++ be16 (rr_type r) ++ rr_class_ttl r ++ be16 (zlen [a; b; c; d])).
  assert (Eq : data = q ++ [a; b; c; d] ++ rest) by (rewrite Ed; unfold q; by rewrite <- !app_assoc).
  assert (Ep : zlen (pre ++ name) + 10 = zlen q).
  { unfold q. rewrite (zlen_app (pre ++ name)), (zlen_app (be16 (rr_type r))), (zlen_app (rr_class_ttl r)), Hc. done. }
  rewrite Ep, Eq.
  rewrite <- (Z.add_0_r (zlen q)) at 1. rewrite !index_at by lia. cbn [app]. by read_heads.
Qed.

Lemma scan_records domain rs : forall n data pre rest, Forall rr_ok rs -> data = pre ++ concat (encode_rr <$> rs) ++ rest ->
  n = length rs ->
  scan_answers n data (zlen pre) domain = Some (match first_a rs with Some ip => Ok ip | None => Err (no_a_record domain) end).
Proof.
  induction rs as [| r rs IH]; intros n data pre rest Hrs E ->; [done |].
  apply Forall_cons in Hrs as [Hr Hrs]. cbn [length].
  change (concat (encode_rr <$> r :: rs)) with (encode_rr r ++ concat (encode_rr <$> rs)) in E. rewrite <- app_assoc in E.
  rewrite (scan_record _ _ _ _ _ _ Hr E). unfold first_a. cbn [omap list_omap].
  destruct (a_record r) as [ip |]; [done |]. apply (IH _ _ _ rest); [done | by rewrite <- app_assoc | done].
Qed.

Lemma question_skip question more head :
  Forall plain_label question -> zlen head = 12 ->
  let data := head ++ encode_question question ++ more in
  skip_dns_name (S (length data)) data 12 = Some (12 + zlen (encode_question question) - 4).
Proof.
  intros Hq Hh data. pose proof (skip_name_in question None head ([0; 1; 0; 1] ++ more) data) as E. rewrite Hh in E. rewrite E.
  - unfold encode_name, encode_question. f_equal. zlen_simpl. lia.
  - split; [exact Hq | done].
  - unfold data, encode_question, encode_name. rewrite <- !app_assoc. done.
Qed.

(** The reader against the records that were written. *)
Lemma parse_encoded head tail question rs rest domain :
  zlen head = 6 -> zlen tail = 4 -> Forall plain_label question -> Forall rr_ok rs -> zlen rs < 65536 ->
  parse_dns_a_record (encode_answer head tail question rs rest) domain =
  Some (match first_a rs with
        | Some ip => Ok ip
        | None => Err (if bool_decide (rs = []) then no_answers domain else no_a_record domain)
        end).
Proof.
  intros Hh Ht Hq Hrs Hn. unfold parse_dns_a_record. set (data := encode_answer head tail question rs rest).
  pose proof (zlen_nonneg rs).
  set (h := head ++ be16 (zlen rs) ++ tail).
  assert (Hh12 : zlen h = 12) by (unfold h; rewrite !zlen_app, Hh, Ht; done).
  assert (Ed : data = h ++ encode_question question ++ (concat (encode_rr <$> rs) ++ rest))
    by (unfold data, encode_answer, h; by rewrite <- !app_assoc).
  assert (Hd : 12 <= zlen data) by (rewrite Ed; zlen_lia).
  rewrite (proj2 (Z.ltb_ge _ _)) by lia.
  assert (E6 : index data 6 = Some ((zlen rs / 2 ^ 8) mod 256)) by (unfold data, encode_answer; by rewrite index_app_r, Hh by lia).
  assert (E7 : index data 7 = Some (zlen rs mod 256)) by (unfold data, encode_answer; by rewrite index_app_r, Hh by lia).
  rewrite E6, E7. cbn [mbind option_bind]. rewrite be16_roundtrip by lia.
  destruct (Z.eqb_spec (zlen rs) 0) as [Hz | Hz].
  { apply zlen_0_nil in Hz as ->. done. }
  rewrite Ed, question_skip by done. cbn [mbind option_bind].
  replace (12 + zlen (encode_question question) - 4 + 4) with (zlen (h ++ encode_question question)) by (rewrite zlen_app; lia).
  rewrite (scan_records domain rs _ _ (h ++ encode_question question) rest Hrs); [| by rewrite <- app_assoc | unfold zlen; lia].
  rewrite bool_decide_eq_false_2; [done |]. by intros ->.
Qed.

(** ** Any answer *)

(** Enough fuel: the reader stands still nowhere, and never goes back. *)
Lemma skip_total data : bytes_ok data -> forall fuel pos, 0 <= pos -> zlen data - pos < Z.of_nat fuel -> (0 < fuel)%nat ->
  exists pos', skip_dns_name fuel data pos = Some pos' /\ pos <= pos'.
Proof.
  intros Hb. induction fuel as [| fuel IH]; intros pos Hp Hf Hf0; cbn [skip_dns_name]; [lia |].
  destruct (Z.ltb_spec pos (zlen data)) as [Hlt | Hge]; [| by exists pos]. step_byte.
  case_cmp; [exists (pos + 1); split; [done | lia] |]. case_cmp; [exists (pos + 2); split; [done | lia] |].
  destruct (IH (pos + (b + 1))) as (pos' & E & Hle); [lia | lia | lia |]. exists pos'. split; [done | lia].
Qed.

Lemma skip_data data pos : bytes_ok data -> 0 <= pos ->
  exists pos', skip_dns_name (S (length data)) data pos = Some pos' /\ pos <= pos'.
Proof. intros Hb Hp. apply skip_total; [done | done | unfold zlen; lia | lia]. Qed.

(** An address is four bytes of the datagram that follow a record header of type
    A and length four. *)
Definition in_datagram (data : bytes) (ip : Z) : Prop :=
  exists pre ct rest, data = pre ++ be16 1 ++ ct ++ be16 4 ++ be32 ip ++ rest /\ zlen ct = 6 /\ 12 <= zlen pre.

Lemma from_be16_inj a b v : is_byte a -> is_byte b -> from_be16 a b = v -> be16 v = [a; b].
Proof. intros Ha Hb <-. by apply be16_surj. Qed.

Lemma split_middle {A} (l : list A) i n : 0 <= i -> 0 <= n -> i + n <= zlen l ->
  exists pre mid post, l = pre ++ mid ++ post /\ zlen pre = i /\ zlen mid = n.
Proof.
  intros Hi Hn Hl. exists (ztake i l), (ztake n (zdrop i l)), (zdrop n (zdrop i l)). split_and!.
  - by rewrite !ztake_zdrop.
  - apply zlen_take. lia.
  - apply zlen_take. rewrite zlen_drop; lia.
Qed.

Lemma scan_total domain data : bytes_ok data -> forall n pos, 12 <= pos ->
  exists r, scan_answers n data pos domain = Some r /\ match r with Ok ip => in_datagram data ip | Err e => e = no_a_record domain end.
Proof.
  intros Hb. induction n as [| n IH]; intros pos Hp; cbn [scan_answers]; [by eexists |].
  destruct (Z.leb_spec (zlen data) pos); [by eexists |].
  destruct (skip_data data pos Hb) as (p & -> & Hle); [lia |]. cbn [mbind option_bind].
  destruct (Z.ltb_spec (zlen data) (p + 10)); [by eexists |].
  destruct (split_middle data p 10) as (pre & hd & post & Ed & Hpre & Hhd); [lia | lia | lia |].
  destruct hd as [| t0 [| t1 [| c0 [| c1 [| c2 [| c3 [| c4 [| c5 [| l0 [| l1 [| ? ?]]]]]]]]]]]; try (unfold zlen in Hhd; simpl in Hhd; lia).
  assert (Ei : forall k, 0 <= k < 10 -> index data (p + k) = index [t0; t1; c0; c1; c2; c3; c4; c5; l0; l1] k).
  { intros k Hk. rewrite Ed, <- Hpre, index_at by lia. apply index_app_l. lia. }
  pose proof (Ei 0 ltac:(lia)) as E0. rewrite Z.add_0_r in E0. rewrite E0, (Ei 1), (Ei 8), (Ei 9) by lia.
  change (index [t0; t1; c0; c1; c2; c3; c4; c5; l0; l1] 8) with (Some l0).
  change (index [t0; t1; c0; c1; c2; c3; c4; c5; l0; l1] 9) with (Some l1). read_heads.
  assert (Hbb : bytes_ok data) by done. rewrite Ed in Hbb. apply Forall_app in Hbb as [_ [Hhb Hpb]%Forall_app].
  repeat (apply Forall_cons in Hhb as [? Hhb]).
  destruct (_ && _ && _) eqn:Ec.
  - apply andb_true_iff in Ec as [[Et El]%andb_true_iff Elen]. apply Z.eqb_eq in Et, El. apply Z.leb_le in Elen.
    destruct (split_middle post 0 4) as (p0 & oct & rest & Ep & Hp0 & Hoct); [lia | lia | |].
    { rewrite Ed in Elen. rewrite !zlen_app, Hhd in Elen. lia. }
    apply zlen_0_nil in Hp0 as ->. cbn [app] in Ep.
    destruct oct as [| a [| b [| c [| d [| ? ?]]]]]; try (unfold zlen in Hoct; simpl in Hoct; lia).
    assert (Eo : forall k, 0 <= k < 4 -> index data (p + 10 + k) = index [a; b; c; d] k).
    { intros k Hk. rewrite Ed, Ep, app_assoc. replace (p + 10) with (zlen (pre ++ [t0; t1; c0; c1; c2; c3; c4; c5; l0; l1])).
      - rewrite index_at by lia. apply index_app_l. lia.
      - rewrite zlen_app, Hhd, Hpre. done. }
    pose proof (Eo 0 ltac:(lia)) as F0. rewrite Z.add_0_r in F0. rewrite F0, (Eo 1), (Eo 2), (Eo 3) by lia. read_heads.
    eexists. split; [reflexivity |]. exists pre, [c0; c1; c2; c3; c4; c5], rest. split_and!; [| done | lia].
    rewrite (from_be16_inj t0 t1 1), (from_be16_inj l0 l1 4) by done. rewrite Ep in Hpb.
    apply Forall_app in Hpb as [Hob _]. repeat (apply Forall_cons in Hob as [? Hob]).
    rewrite be32_surj by done. rewrite Ed, Ep. done.
  - apply IH. pose proof (from_be16_range l0 l1 ltac:(done) ltac:(done)). lia.
Qed.

(** However the datagram of a resolver looks, the reader ends without leaving it,
    and the address it gives is the data of an A record of the datagram. *)
Theorem dns_reader_total data domain : bytes_ok data ->
  exists r, parse_dns_a_record data domain = Some r /\
    match r with Ok ip => in_datagram data ip | Err e => e = no_a_record domain \/ e = no_answers domain \/ zlen data < 12 end.
Proof.
  intros Hb. unfold parse_dns_a_record. destruct (Z.ltb_spec (zlen data) 12); [eexists; split; [reflexivity | cbn; tauto] |].
  do 2 step_byte. case_cmp; [eexists; split; [reflexivity | cbn; tauto] |].
  destruct (skip_data data 12 Hb) as (p & -> & Hle); [lia |]. cbn [mbind option_bind].
  destruct (scan_total domain data Hb (Z.to_nat (from_be16 b b0)) (p + 4)) as (r & -> & Hr); [lia |].
  exists r. split; [done |]. destruct r; tauto.
Qed.

(** ** The query *)

Definition host_label (l : bytes) : Prop := plain_label l /\ utf8_valid l = true /\ 46 ∉ l.

Lemma query_encoded labels : labels <> [] -> Forall host_label labels ->
  build_dns_query (join (str ".") labels) = [0xAB; 0xCD; 1; 0; 0; 1] ++ [0; 0; 0; 0; 0; 0] ++ encode_question labels ++ [].
Proof.
  intros Hne Hl. unfold build_dns_query. change (str ".") with [46]. rewrite split_join; [| done |].
  2: { eapply Forall_impl; [exact Hl |]. by intros l (_ & _ & H). }
  unfold encode_question. rewrite app_nil_r. cbn [app]. do 12 f_equal.
  f_equal. f_equal. apply list_fmap_ext. intros i l Hi. rewrite Forall_lookup in Hl. destruct (Hl i l Hi) as ([Hz Hz'] & _).
  unfold encode_label, u8. by rewrite Z.mod_small by lia.
Qed.

(** The fake answer, as records. *)
Lemma fake_answer labels ip : 0 <= ip < 2 ^ 32 ->
  [0xAB; 0xCD; 0x81; 0x80; 0; 1; 0; 1; 0; 0; 0; 0] ++ encode_question labels ++
    [0xC0; 0x0C; 0; 1; 0; 1; 0; 0; 0; 60; 0; 4] ++ v4_octets ip =
  encode_answer [0xAB; 0xCD; 0x81; 0x80; 0; 1] [0; 0; 0; 0] labels
    [{| rr_labels := []; rr_pointer := Some (0xC0, 0x0C); rr_type := 1; rr_class_ttl := [0; 1; 0; 0; 0; 60]; rr_data := v4_octets ip |}] [].
Proof.
  intros Hip. unfold encode_answer. rewrite app_nil_r. done.
Qed.

(** the engine's two halves of DNS agree. For a name of at most 253 bytes whose
    labels have 1 to 191 bytes, the query that the client of direct connections
    builds is one the fake resolver of the engine answers, and the client reads
    from that answer the address that was allocated for the name. More generally,
    from an answer with any records, behind names that end in a zero or in a
    pointer, it reads the address of the first A record, and says which of the two
    is missing when there are no records or no A record among them. *)
Theorem dns_client_round_trip (UC : UnicodeCase) ttl0 size st t0 now f labels :
  dns_reachable (FakeDns_build ttl0 size st) t0 now f ->
  labels <> [] -> Forall host_label labels -> zlen (join (str ".") labels) <= MAX_DOMAIN_LEN ->
  let domain := join (str ".") labels in
  (exists resp, handle_query now f (build_dns_query domain) = Some ((allocate now f domain).1, Some (resp, (allocate now f domain).2)) /\
     parse_dns_a_record resp domain = Some (Ok (allocate now f domain).2)) /\
  (forall head tail rs rest, zlen head = 6 -> zlen tail = 4 -> Forall rr_ok rs -> zlen rs < 65536 ->
     parse_dns_a_record (encode_answer head tail labels rs rest) domain =
     Some (match first_a rs with
           | Some ip => Ok ip
           | None => Err (if bool_decide (rs = []) then no_answers domain else no_a_record domain)
           end)).
Proof.
  intros [Hf _]%dns_reachable_ok Hne Hl Hd domain.
  assert (Hp : Forall plain_label labels) by (eapply Forall_impl; [exact Hl |]; by intros l (H & _)).
  assert (Hok : Forall dns_label_ok labels).
  { eapply Forall_impl; [exact Hl |]. intros l ([? ?] & Hu & _). split; [lia | done]. }
  split; [| intros; by apply parse_encoded].
  pose proof (al_pool _ _ _ _ _ (allocate_spec UC now f domain Hf)) as Hin.
  destruct (is_fake_in_pool f _ (dk_pool _ _ Hf) Hin) as [_ Hip]. unfold FAKE_IP_BASE in Hip.
  unfold domain at 1. rewrite query_encoded by done. rewrite handle_query_parts by done.
  change (Z.land (from_be16 1 0) 0xF800 =? 0) with true. change (from_be16 0 1 =? 0) with false. cbn [negb].
  rewrite parse_question_encoded by done. cbn [mbind option_bind]. rewrite !Z.eqb_refl. cbn [negb orb].
  fold domain. destruct (allocate now f domain) as [g ip]. cbn [fst snd] in *.
  change (encode_question labels ++ []) with ([] ++ encode_question labels ++ []).
  rewrite (slice_app [] (encode_question labels) [] 0); [| done | by rewrite Z.add_0_l]. cbn [mbind option_bind].
  eexists. split; [reflexivity |]. rewrite (fake_answer labels ip) by lia. rewrite parse_encoded; try done.
  - unfold first_a, a_record. cbn [omap list_omap rr_data rr_type]. unfold v4_octets, be32. cbn [head].
    rewrite Z.eqb_refl. cbn [option_bind head]. by rewrite be32_roundtrip by lia.
  - constructor; [| done]. split_and!; done.
Qed.

Lemma dns_client_round_trip_witness :
  parse_dns_a_record (encode_answer [0xAB; 0xCD; 0x81; 0x80; 0; 1] [0; 0; 0; 0] [str "mail"; str "example"]
    [{| rr_labels := [str "mail"; str "example"]; rr_pointer := None; rr_type := 5; rr_class_ttl := [0; 1; 0; 0; 1; 44];
        rr_data := [1; 109; 192; 17] |};
     {| rr_labels := [str "m"]; rr_pointer := Some (192, 17); rr_type := 1; rr_class_ttl := [0; 1; 0; 0; 1; 44];
        rr_data := [93; 184; 216; 34] |}] [0]) (str "mail.example") = Some (Ok (from_be32 93 184 216 34)).
Proof.
  destruct (@dns_client_round_trip ascii_case DEFAULT_TTL 2 (Some []) 0 3 ex_dns [str "mail"; str "example"] ex_dns_reachable) as [_ H].
  - discriminate.
  - repeat (apply Forall_cons; split; [split; [vm_compute; split; reflexivity | split; [reflexivity | apply (bool_decide_unpack _); reflexivity]] |]).
    by apply Forall_nil.
  - vm_compute. discriminate.
  - refine (H _ _ _ _ _ _ _ _); [reflexivity | reflexivity | | reflexivity].
    repeat (apply Forall_cons; split).
    + split; [split; [| exact I] | split; [split; [discriminate | reflexivity] | split; reflexivity]].
      repeat (apply Forall_cons; split; [vm_compute; split; reflexivity |]). by apply Forall_nil.
    + split; [split; [| split; [split; [discriminate | reflexivity] | split; [discriminate | reflexivity]]] | split; [split; [discriminate | reflexivity] | split; reflexivity]].
      repeat (apply Forall_cons; split; [vm_compute; split; reflexivity |]). by apply Forall_nil.
    + by apply Forall_nil.
Defined.

(** ** The race of the resolvers *)

Lemma dedup_spec l : forall seen,
  NoDup (dedup seen l) /\ (forall r, r ∈ dedup seen l <-> r ∈ l /\ r ∉ seen) /\ dedup seen l `sublist_of` l.
Proof.
  induction l as [| r l IH]; intros seen; cbn [dedup].
  - split_and!; [constructor | | constructor]. intros r. split; [by intros ?%elem_of_nil | by intros [? _]].
  - case_decide as Hr.
    + destruct (IH seen) as (H1 & H2 & H3). split_and!; [done | | by constructor].
      intros x. rewrite H2, elem_of_cons. intuition congruence.
    + destruct (IH ({[r]} ∪ seen)) as (H1 & H2 & H3). split_and!.
      * constructor; [| done]. rewrite H2, not_elem_of_union, not_elem_of_singleton. tauto.
      * intros x. rewrite elem_of_cons, H2, elem_of_cons, not_elem_of_union, not_elem_of_singleton.
        destruct (decide (x = r)) as [-> | Hne]; tauto.
      * by constructor.
Qed.

Lemma first_answer_spec results domain : forall last,
  (exists ip, Ok ip ∈ results /\ first_answer results last domain = Ok ip) \/
  (exists es, results = Err <$> es /\ first_answer results last domain =
     Err (default (default (IoError TimedOut (str "DNS resolve timeout for " ++ domain)) last) (list.last es))).
Proof.
  induction results as [| [ip | e] results IH]; intros last'; cbn [first_answer].
  - right. by exists [].
  - left. exists ip. split; [by left | done].
  - destruct (IH (Some e)) as [(ip & Hin & ->) | (es & -> & ->)].
    + left. exists ip. split; [by right | done].
    + right. exists (e :: es). split; [done |]. rewrite last_cons. by destruct (list.last es).
Qed.

Lemma effective_spec resolvers :
  NoDup (effective resolvers) /\ forall r, r ∈ effective resolvers <-> r ∈ resolvers \/ r ∈ FALLBACK_DNS_RESOLVERS.
Proof.
  unfold effective. case_bool_decide as Hr.
  - split; [by_compute |]. intros r. rewrite Hr. split; [by right |]. by intros [?%elem_of_nil |].
  - destruct (dedup_spec (resolvers ++ FALLBACK_DNS_RESOLVERS) ∅) as (H1 & H2 & _). split; [done |].
    intros r. rewrite H2, elem_of_app. pose proof (not_elem_of_empty (C := gset SocketAddr) r). tauto.
Qed.

(** The order of the caller is kept: what the code's comment promises to the
    system resolvers. *)
Lemma effective_order resolvers : NoDup resolvers -> resolvers <> [] ->
  exists more, effective resolvers = resolvers ++ more /\ more `sublist_of` FALLBACK_DNS_RESOLVERS.
Proof.
  intros Hnd Hne. unfold effective. rewrite bool_decide_eq_false_2 by done. clear Hne.
  assert (H : forall rs seen, NoDup rs -> (forall r, r ∈ rs -> r ∉ seen) ->
    exists more, dedup seen (rs ++ FALLBACK_DNS_RESOLVERS) = rs ++ more /\ more `sublist_of` FALLBACK_DNS_RESOLVERS).
  { induction rs as [| r rs IH]; intros seen Hd Hs; cbn [app dedup].
    - exists (dedup seen FALLBACK_DNS_RESOLVERS). split; [done |]. apply dedup_spec.
    - apply NoDup_cons in Hd as [Hr Hd]. rewrite decide_False by (apply Hs; by left).
      destruct (IH ({[r]} ∪ seen) Hd) as (more & -> & Hm); [| by exists more].
      intros x Hx. rewrite not_elem_of_union, not_elem_of_singleton. split; [by intros -> |]. apply Hs. by right. }
  apply H; [done |]. intros r _. apply not_elem_of_empty.
Qed.

Section race.
Context (show_sock : SocketAddr -> bytes).

(** A query whose datagram is one of bytes gives a result. *)
Lemma query_result domain r x : (forall b, ex_answer x = Some (Ok b) -> bytes_ok b) -> is_Some (query_single_resolver show_sock domain r x).
Proof.
  intros Hb. unfold query_single_resolver. destruct (ex_socket x); [| done]. destruct (ex_protect x); [| done]. cbn [negb].
  destruct (ex_sent x); [| done]. destruct (ex_answer x) as [[b | e] |]; [| done | done].
  destruct (dns_reader_total (ztake 512 b) domain) as (res & -> & _); [| done]. apply Forall_take. by apply Hb.
Qed.

(** a name resolves whenever anything can resolve it. Every known resolver is
    asked exactly once: each of the system's and each fallback one, in the
    caller's order, also when a resolver is listed twice. In whatever order their
    answers come, the result is an address one of them gave if any of them gave
    one, and otherwise the error of the one that failed last. A system resolver
    that knows the name is believed without a query. *)
Theorem resolver_race domain system net resolvers order :
  (forall r b, ex_answer (net r) = Some (Ok b) -> bytes_ok b) -> order ≡ₚ effective resolvers ->
  let result := resolve_domain_with_fallback show_sock domain system net order in
  let answer r := query_single_resolver show_sock domain r (net r) in
  NoDup order /\ (forall r, r ∈ order <-> r ∈ resolvers \/ r ∈ FALLBACK_DNS_RESOLVERS) /\
  (NoDup resolvers -> resolvers <> [] -> resolvers `prefix_of` effective resolvers) /\
  (forall ip, system = Some (Ok (Some ip)) -> result = Ok ip) /\
  ((forall ip, system <> Some (Ok (Some ip))) ->
    (forall r ip, r ∈ order -> answer r = Some (Ok ip) -> exists r' ip', r' ∈ order /\ answer r' = Some (Ok ip') /\ result = Ok ip') /\
    ((forall r ip, r ∈ order -> answer r <> Some (Ok ip)) -> exists r e, list.last order = Some r /\ answer r = Some (Err e) /\ result = Err e)).
Proof.
  intros Hb Ho result answer. destruct (effective_spec resolvers) as [Hnd Hin]. split_and!.
  - by rewrite Ho.
  - intros r. by rewrite Ho.
  - intros Hd Hne. destruct (effective_order resolvers Hd Hne) as (more & -> & _). by exists more.
  - by intros ip ->.
  - intros Hs. assert (Hres : result = first_answer (omap answer order) None domain).
    { unfold result, resolve_domain_with_fallback, resolve_via_protected_dns. destruct system as [[[ip |] | e] |]; try done. by destruct (Hs ip). }
    rewrite Hres. destruct (first_answer_spec (omap answer order) domain None) as [(ip' & Hi' & E) | (es & E & ->)].
    + apply list_elem_of_omap in Hi' as (r' & Hr' & Ea'). split; [by eauto 7 |]. intros Hno. by destruct (Hno r' ip' Hr').
    + assert (Hall : forall r, r ∈ order -> exists e, answer r = Some (Err e)).
      { intros r Hr. destruct (query_result domain r (net r) (Hb r)) as [res Er]. fold (answer r) in Er.
        assert (Hi : res ∈ omap answer order) by (apply list_elem_of_omap; eauto). rewrite E in Hi.
        apply list_elem_of_fmap in Hi as (e & -> & _). by exists e. }
      split; [intros r ip Hr Er; destruct (Hall r Hr) as [e Ee]; congruence |]. intros _.
      destruct order as [| r order _] using rev_ind.
      { exfalso. apply (not_elem_of_nil (SockV4 (from_be32 1 1 1 1) 53)). rewrite Ho, Hin. right. by left. }
      destruct (Hall r ltac:(set_solver)) as [e Ee]. exists r, e. rewrite list.last_snoc. split_and!; [done | done |].
      rewrite omap_app in E. cbn [omap list_omap] in E. rewrite Ee in E. destruct es as [| e' es _] using rev_ind; [by destruct (omap answer order) |].
      rewrite fmap_app in E. apply app_inj_2 in E as [_ [= <-]]; [| done]. by rewrite list.last_snoc.
Qed.
End race.

(** The carrier's resolver and two of the public ones are silent; the last one
    answers. *)
Definition ex_silent : Exchange := {| ex_socket := Ok tt; ex_protect := true; ex_sent := Ok tt; ex_answer := None |}.
Definition ex_answered : bytes :=
  encode_answer [0xAB; 0xCD; 0x81; 0x80; 0; 1] [0; 0; 0; 0] [str "t"; str "co"]
    [{| rr_labels := []; rr_pointer := Some (192, 12); rr_type := 1; rr_class_ttl := [0; 1; 0; 0; 1; 44]; rr_data := [93; 184; 216; 34] |}] [].
Definition ex_net (r : SocketAddr) : Exchange :=
  if decide (r = SockV4 (from_be32 77 88 8 8) 53)
  then {| ex_socket := Ok tt; ex_protect := true; ex_sent := Ok tt; ex_answer := Some (Ok ex_answered) |}
  else ex_silent.
Definition ex_carrier : SocketAddr := SockV4 (from_be32 10 64 0 1) 53.

Lemma resolver_race_witness :
  exists ip, resolve_domain_with_fallback (fun _ => []) (str "t.co") (Some (Ok None)) ex_net
    (rev (effective [ex_carrier; ex_carrier])) = Ok ip.
Proof.
  destruct (resolver_race (fun _ => []) (str "t.co") (Some (Ok None)) ex_net [ex_carrier; ex_carrier] (rev (effective [ex_carrier; ex_carrier])))
    as (_ & _ & _ & _ & H).
  - intros r b. unfold ex_net. destruct (decide _); [| discriminate]. intros [= <-]. apply (bool_decide_unpack _). vm_compute. exact I.
  - apply Permutation_sym, Permutation_rev.
  - destruct H as [H _]; [discriminate |].
    destruct (H (SockV4 (from_be32 77 88 8 8) 53) (from_be32 93 184 216 34)) as (r' & ip' & _ & _ & E).
    + apply (bool_decide_unpack _). vm_compute. exact I.
    + vm_compute. reflexivity.
    + exists ip'. exact E.
Defined.
