(* ===== verification/Health.v ===== *)
(** * The health of a session (xr-core/src/health.rs, stats.rs, and the error
      classes of engine.rs)

    What the end of a relay counts as, the cumulative counters of the statistics,
    and the tracker that turns the counters into one of five levels through a
    sliding window. Times are milliseconds; a queue of time stamps is a list, its
    front first. *)

From S2P Require Import Prelude Text Net Protocol FakeDns Session.

(** ** Error classes *)

Inductive Verdict := VDebug | VWarn | VError.

#[global] Instance Verdict_eq_dec : EqDecision Verdict.
Proof. solve_decision. Defined.

(** The match on the error of a relay; [message] is the text of the error. *)
Definition relay_verdict (e : io_error) : Verdict :=
  if contains (str "DoT blocked") (message e) then VDebug else
  let is_mux_fail := contains (str "mux open fail") (message e) in
  match kind e with
  | InvalidInput => VWarn
  | ConnectionReset | ConnectionAborted => if negb is_mux_fail then VWarn else VError
  | _ => VError
  end.

(** ** The counters of warnings and errors *)

Record RelayCounts := { relay_warns : Z; relay_errors : Z }.

Definition add_warn (c : RelayCounts) : RelayCounts := {| relay_warns := u64 (relay_warns c + 1); relay_errors := relay_errors c |}.
Definition add_error (c : RelayCounts) : RelayCounts := {| relay_warns := relay_warns c; relay_errors := u64 (relay_errors c + 1) |}.
Definition clear_errors (c : RelayCounts) : RelayCounts := {| relay_warns := 0; relay_errors := 0 |}.

Definition relay_ended (c : RelayCounts) (res : io_result unit) : RelayCounts :=
  match res with
  | Ok _ => c
  | Err e => match relay_verdict e with VDebug => c | VWarn => add_warn c | VError => add_error c end
  end.

(** ** The tracker *)

Inductive HealthLevel := Healthy | Good | Watching | Hurt | Critical.

#[global] Instance HealthLevel_eq_dec : EqDecision HealthLevel.
Proof. solve_decision. Defined.

(** The derived order. *)
Definition rank (l : HealthLevel) : Z :=
  match l with Healthy => 0 | Good => 1 | Watching => 2 | Hurt => 3 | Critical => 4 end.

Definition HealthLevel_as_str (l : HealthLevel) : bytes :=
  match l with
  | Healthy => str "healthy" | Good => str "good" | Watching => str "watching" | Hurt => str "hurt" | Critical => str "critical"
  end.

Definition WINDOW_MS : Z := 30000.
Definition BURST_WINDOW_MS : Z := 5000.
Definition BURST_THRESHOLD : Z := 5.
Definition DOWNSHIFT_HOLD_MS : Z := 5000.
Definition WARN_NOISE_THRESHOLD : Z := 10.
Definition ERROR_HURT_THRESHOLD : Z := 3.
Definition MAX_EVENTS_PER_TICK : Z := 100.

Record HealthTracker := {
  last_seen_errors : Z;
  last_seen_warns : Z;
  error_timestamps : list Z;
  warn_timestamps : list Z;
  current_level : option HealthLevel;
  last_worse_ms : Z
}.

Definition HealthTracker_new : HealthTracker :=
  {| last_seen_errors := 0; last_seen_warns := 0; error_timestamps := []; warn_timestamps := []; current_level := None; last_worse_ms := 0 |}.

Fixpoint evict_older_than (cutoff : Z) (queue : list Z) : list Z :=
  match queue with
  | t :: q => if t <? cutoff then evict_older_than cutoff q else queue
  | [] => []
  end.

Definition count_if (f : Z -> bool) (l : list Z) : Z := zlen (filter (fun t => f t = true) l).

Definition update_at (now errors warnings : Z) (t : HealthTracker) : HealthTracker * HealthLevel :=
  let delta_err := sat_sub errors (last_seen_errors t) in
  let delta_warn := sat_sub warnings (last_seen_warns t) in
  let errs := error_timestamps t ++ replicate (Z.to_nat (Z.min delta_err MAX_EVENTS_PER_TICK)) now in
  let warns := warn_timestamps t ++ replicate (Z.to_nat (Z.min delta_warn MAX_EVENTS_PER_TICK)) now in
  let window_cutoff := sat_sub now WINDOW_MS in
  let errs := evict_older_than window_cutoff errs in
  let warns := evict_older_than window_cutoff warns in
  let burst_cutoff := sat_sub now BURST_WINDOW_MS in
  let recent_burst := count_if (fun t => burst_cutoff <=? t) errs in
  let raw :=
    if BURST_THRESHOLD <=? recent_burst then Critical
    else if ERROR_HURT_THRESHOLD <=? zlen errs then Hurt
    else if WARN_NOISE_THRESHOLD <? zlen warns then Watching
    else if negb (bool_decide (warns = [])) then Good
    else Healthy in
  let current := default Healthy (current_level t) in
  let '(level, worse) :=
    if rank current <=? rank raw then (Some raw, if rank Healthy <? rank raw then now else last_worse_ms t)
    else if DOWNSHIFT_HOLD_MS <=? sat_sub now (last_worse_ms t) then (Some raw, last_worse_ms t)
    else (current_level t, last_worse_ms t) in
  ({| last_seen_errors := errors; last_seen_warns := warnings; error_timestamps := errs; warn_timestamps := warns;
      current_level := level; last_worse_ms := worse |}, default Healthy level).

Definition reset_window (t : HealthTracker) : HealthTracker :=
  {| last_seen_errors := last_seen_errors t; last_seen_warns := last_seen_warns t; error_timestamps := []; warn_timestamps := [];
     current_level := Some Healthy; last_worse_ms := 0 |}.

Definition freeze_at (errors warnings : Z) (t : HealthTracker) : HealthTracker * HealthLevel :=
  (reset_window {| last_seen_errors := errors; last_seen_warns := warnings; error_timestamps := error_timestamps t;
     warn_timestamps := warn_timestamps t; current_level := current_level t; last_worse_ms := last_worse_ms t |}, Healthy).

Definition reset (t : HealthTracker) : HealthTracker :=
  reset_window {| last_seen_errors := 0; last_seen_warns := 0; error_timestamps := error_timestamps t;
     warn_timestamps := warn_timestamps t; current_level := current_level t; last_worse_ms := last_worse_ms t |}.

(** ** What the level stands for

    A tick as the number of errors and warnings that were new in it; the level of
    a history at a time counts the events in the windows. *)

Record Tick := { tk_now : Z; tk_errors : Z; tk_warns : Z }.

Definition new_events (seen count : Z) : Z := Z.min (sat_sub count seen) MAX_EVENTS_PER_TICK.

Definition in_window (now width : Z) (k : Tick) : bool := sat_sub now width <=? tk_now k.
Definition total (f : Tick -> Z) (h : list Tick) : Z := foldr (fun k acc => f k + acc) 0 h.
Definition recent (now width : Z) (h : list Tick) : list Tick := filter (fun k => in_window now width k = true) h.

Definition level_of (now : Z) (h : list Tick) : HealthLevel :=
  let errors := total tk_errors (recent now WINDOW_MS h) in
  let warns := total tk_warns (recent now WINDOW_MS h) in
  if 5 <=? total tk_errors (recent now BURST_WINDOW_MS h) then Critical
  else if 3 <=? errors then Hurt
  else if 10 <? warns then Watching
  else if 0 <? warns then Good
  else Healthy.

(** The runs of a tracker under a clock that does not go back, with the ticks since
    the last reset. *)
Inductive health_run : Z -> HealthTracker -> list Tick -> Prop :=
| hr_new t : 0 <= t -> health_run t HealthTracker_new []
| hr_tick t tr h now errors warnings : health_run t tr h -> t <= now ->
    health_run now (update_at now errors warnings tr).1
      (h ++ [{| tk_now := now; tk_errors := new_events (last_seen_errors tr) errors; tk_warns := new_events (last_seen_warns tr) warnings |}])
| hr_freeze t tr h errors warnings : health_run t tr h -> health_run t (freeze_at errors warnings tr).1 []
| hr_reset t tr h : health_run t tr h -> health_run t (reset tr) [].

(** The time stamps of the events of some ticks. *)
Definition stamps (f : Tick -> Z) (h : list Tick) : list Z := concat ((fun k => replicate (Z.to_nat (f k)) (tk_now k)) <$> h).

Lemma stamps_app f h h' : stamps f (h ++ h') = stamps f h ++ stamps f h'.
Proof. unfold stamps. by rewrite fmap_app, concat_app. Qed.

Lemma stamps_cons f k h : stamps f (k :: h) = replicate (Z.to_nat (f k)) (tk_now k) ++ stamps f h.
Proof. done. Qed.

Lemma zlen_stamps f h : Forall (fun k => 0 <= f k) h -> zlen (stamps f h) = total f h.
Proof.
  induction 1 as [| k h Hk _ IH]; [done |]. rewrite stamps_cons, zlen_app, IH. cbn [total foldr].
  unfold zlen at 1. rewrite length_replicate. unfold total. lia.
Qed.

Lemma filter_stamps f (p : Z -> bool) h :
  filter (fun t => p t = true) (stamps f h) = stamps f (filter (fun k => p (tk_now k) = true) h).
Proof.
  induction h as [| k h IH]; [done |]. rewrite stamps_cons, filter_app, IH.
  assert (Hr : forall n, filter (fun t => p t = true) (replicate n (tk_now k)) = if p (tk_now k) then replicate n (tk_now k) else []).
  { induction n as [| n IHn]; cbn [replicate]; [by destruct (p (tk_now k)) |].
    destruct (p (tk_now k)) eqn:E; [rewrite filter_cons_True by done | rewrite filter_cons_False by congruence]; rewrite IHn; done. }
  rewrite Hr. destruct (p (tk_now k)) eqn:E.
  - rewrite (filter_cons_True (fun k => p (tk_now k) = true)) by done. by rewrite stamps_cons.
  - by rewrite (filter_cons_False (fun k => p (tk_now k) = true)) by congruence.
Qed.

Lemma filter_all {A} (P : A -> Prop) `{forall x, Decision (P x)} l : Forall P l -> filter P l = l.
Proof. induction 1 as [| x l Hx _ IH]; [done |]. by rewrite filter_cons_True, IH. Qed.

(** On a queue in order, eviction from the front is a filter. *)
Lemma evict_filter cutoff q : StronglySorted Z.le q -> evict_older_than cutoff q = filter (fun t => (cutoff <=? t) = true) q.
Proof.
  induction 1 as [| t q Hs IH Ht]; [done |]. cbn [evict_older_than]. destruct (Z.ltb_spec t cutoff) as [Hlt | Hge].
  - rewrite filter_cons_False by (rewrite Z.leb_le; lia). done.
  - symmetry. apply filter_all. constructor; [by apply Z.leb_le |].
    eapply Forall_impl; [exact Ht |]. intros x Hx. apply Z.leb_le. lia.
Qed.

Lemma sorted_replicate n t : StronglySorted Z.le (replicate n t).
Proof. induction n; cbn [replicate]; constructor; [done |]. apply Forall_replicate. lia. Qed.

Lemma sorted_app q k : StronglySorted Z.le q -> StronglySorted Z.le k -> (forall x y, x ∈ q -> y ∈ k -> x <= y) ->
  StronglySorted Z.le (q ++ k).
Proof.
  intros Hq Hk. induction Hq as [| x q Hq IH Hx]; intros Hxy; [done |]. cbn [app]. constructor.
  - apply IH. intros a b Ha Hb. apply Hxy; [by right | done].
  - apply Forall_app. split; [done |]. rewrite Forall_forall. intros y Hy. apply Hxy; [by left | done].
Qed.

(** Ticks in the order of the clock, with counts that are none of them negative. *)
Record ticks_ok (t : Z) (h : list Tick) : Prop := {
  tk_sorted : StronglySorted Z.le (tk_now <$> h);
  tk_past : Forall (fun k => 0 <= tk_now k <= t /\ 0 <= tk_errors k <= 100 /\ 0 <= tk_warns k <= 100) h
}.

Lemma stamps_sorted f t h : ticks_ok t h -> StronglySorted Z.le (stamps f h) /\ Forall (fun x => 0 <= x <= t) (stamps f h).
Proof.
  intros [Hs Hp]. induction h as [| k h IH]; [split; constructor |]. apply Forall_cons in Hp as [(Hk & _) Hp].
  cbn in Hs. apply StronglySorted_inv in Hs as [Hs Hle]. destruct (IH Hs Hp) as [H1 H2]. rewrite stamps_cons. split.
  - apply sorted_app; [apply sorted_replicate | done |]. intros x y Hx Hy.
    apply elem_of_replicate in Hx as [-> _]. unfold stamps in Hy. apply list_elem_of_In, in_concat in Hy as (l & Hl & Hy).
    apply list_elem_of_In, list_elem_of_fmap in Hl as (k' & -> & Hk'). apply list_elem_of_In, elem_of_replicate in Hy as [-> _].
    rewrite Forall_fmap, Forall_forall in Hle. by apply Hle.
  - apply Forall_app. split; [| done]. by apply Forall_replicate.
Qed.

Lemma ticks_snoc t h now e w : ticks_ok t h -> 0 <= t -> t <= now -> 0 <= e <= 100 -> 0 <= w <= 100 ->
  ticks_ok now (h ++ [{| tk_now := now; tk_errors := e; tk_warns := w |}]).
Proof.
  intros [Hs Hp] Ht Hn He Hw. split.
  - rewrite fmap_app. apply sorted_app; [done | by repeat constructor |]. intros x y Hx Hy.
    apply list_elem_of_singleton in Hy as ->. apply list_elem_of_fmap in Hx as (k & -> & Hk). rewrite Forall_forall in Hp.
    destruct (Hp k Hk) as [? _]. cbn. lia.
  - apply Forall_app. split; [| by repeat constructor; cbn; lia]. eapply Forall_impl; [exact Hp |]. cbn. lia.
Qed.

(** The queue holds the events from some time on that is not after the window. *)
Record tracker_ok (t : Z) (tr : HealthTracker) (h : list Tick) : Prop := {
  to_time : 0 <= t;
  to_ticks : ticks_ok t h;
  to_queues : exists cut, cut <= sat_sub t WINDOW_MS /\
    error_timestamps tr = filter (fun x => (cut <=? x) = true) (stamps tk_errors h) /\
    warn_timestamps tr = filter (fun x => (cut <=? x) = true) (stamps tk_warns h);
  to_worse : 0 <= last_worse_ms tr <= t;
  to_level : default Healthy (current_level tr) = Healthy \/
    (exists p k more, h = p ++ k :: more /\ tk_now k = last_worse_ms tr /\
       level_of (tk_now k) (p ++ [k]) = default Healthy (current_level tr)) \/
    last_worse_ms tr + DOWNSHIFT_HOLD_MS <= t
}.

Lemma filter_weaken (a b : Z) (l : list Z) : a <= b ->
  filter (fun x => (b <=? x) = true) (filter (fun x => (a <=? x) = true) l) = filter (fun x => (b <=? x) = true) l.
Proof. intros Hab. apply list_filter_filter_l. intros x. rewrite !Z.leb_le. lia. Qed.

(** A queue after the new events and the eviction. *)
Lemma queue_step f t h k cut q :
  ticks_ok (tk_now k) (h ++ [k]) -> t <= tk_now k -> cut <= sat_sub t WINDOW_MS ->
  q = filter (fun x => (cut <=? x) = true) (stamps f h) ->
  evict_older_than (sat_sub (tk_now k) WINDOW_MS) (q ++ replicate (Z.to_nat (f k)) (tk_now k)) =
  stamps f (recent (tk_now k) WINDOW_MS (h ++ [k])).
Proof.
  intros Hh Ht Hc ->. pose proof (tk_past _ _ Hh) as Hp. apply Forall_app in Hp as [_ [[Hk _] _]%Forall_cons].
  assert (E : filter (fun x => (cut <=? x) = true) (stamps f h) ++ replicate (Z.to_nat (f k)) (tk_now k) =
    filter (fun x => (cut <=? x) = true) (stamps f (h ++ [k]))).
  { rewrite stamps_app, filter_app. f_equal. unfold stamps. cbn [fmap list_fmap concat]. rewrite app_nil_r. symmetry. apply filter_all.
    apply Forall_replicate. apply Z.leb_le. unfold sat_sub, WINDOW_MS in Hc. lia. }
  rewrite E, evict_filter.
  - rewrite filter_weaken by (unfold sat_sub in *; lia). apply (filter_stamps f (fun x => sat_sub (tk_now k) WINDOW_MS <=? x)).
  - destruct (stamps_sorted f _ _ Hh) as [Hs _]. clear -Hs. induction Hs as [| x l Hs IH Hx]; [constructor |].
    destruct (decide ((cut <=? x) = true)); [rewrite filter_cons_True by done | by rewrite filter_cons_False by done].
    constructor; [done |]. by apply Forall_filter || (rewrite Forall_forall in *; intros y [_ Hy]%list_elem_of_filter; by apply Hx).
Qed.

Lemma total_stamps f now w h : Forall (fun k => 0 <= f k) h -> zlen (stamps f (recent now w h)) = total f (recent now w h).
Proof. intros Hf. apply zlen_stamps. unfold recent. rewrite Forall_forall in *. intros k [_ Hk]%list_elem_of_filter. by apply Hf. Qed.

Lemma total_nonneg f h : Forall (fun k => 0 <= f k) h -> 0 <= total f h.
Proof. induction 1; cbn; [lia |]. unfold total in *. cbn. lia. Qed.

Lemma recent_recent now w w' h : w' <= w -> recent now w' (recent now w h) = recent now w' h.
Proof.
  intros Hw. unfold recent. apply list_filter_filter_l. intros k. unfold in_window, sat_sub. rewrite !Z.leb_le. lia.
Qed.

(** The level the code computes from its queues is that of the history. *)
Lemma raw_level now h : Forall (fun k => 0 <= tk_errors k) h -> Forall (fun k => 0 <= tk_warns k) h ->
  let errs := stamps tk_errors (recent now WINDOW_MS h) in
  let warns := stamps tk_warns (recent now WINDOW_MS h) in
  (if BURST_THRESHOLD <=? count_if (fun t => sat_sub now BURST_WINDOW_MS <=? t) errs then Critical
   else if ERROR_HURT_THRESHOLD <=? zlen errs then Hurt
   else if WARN_NOISE_THRESHOLD <? zlen warns then Watching
   else if negb (bool_decide (warns = [])) then Good
   else Healthy) = level_of now h.
Proof.
  intros He Hw errs warns. unfold level_of.
  assert (Eb : count_if (fun t => sat_sub now BURST_WINDOW_MS <=? t) errs = total tk_errors (recent now BURST_WINDOW_MS h)).
  { unfold count_if, errs. rewrite (filter_stamps tk_errors (fun x => sat_sub now BURST_WINDOW_MS <=? x)).
    change (filter (fun k => (sat_sub now BURST_WINDOW_MS <=? tk_now k) = true) (recent now WINDOW_MS h))
      with (recent now BURST_WINDOW_MS (recent now WINDOW_MS h)).
    rewrite recent_recent by done. by apply total_stamps. }
  assert (En : negb (bool_decide (warns = [])) = (0 <? zlen warns)).
  { case_bool_decide as E; [by rewrite E |]. symmetry. apply Z.ltb_lt. pose proof (zlen_nonneg warns).
    destruct (decide (zlen warns = 0)) as [Hz | ?]; [by apply zlen_0_nil in Hz | lia]. }
  rewrite Eb, En. unfold errs, warns. by rewrite !total_stamps.
Qed.

(** A tick in terms of the history. *)
Lemma update_eq t tr h now errors warnings :
  tracker_ok t tr h -> t <= now ->
  let k := {| tk_now := now; tk_errors := new_events (last_seen_errors tr) errors; tk_warns := new_events (last_seen_warns tr) warnings |} in
  let raw := level_of now (h ++ [k]) in
  let '(level, worse) :=
    if rank (default Healthy (current_level tr)) <=? rank raw then (Some raw, if rank Healthy <? rank raw then now else last_worse_ms tr)
    else if DOWNSHIFT_HOLD_MS <=? sat_sub now (last_worse_ms tr) then (Some raw, last_worse_ms tr)
    else (current_level tr, last_worse_ms tr) in
  ticks_ok now (h ++ [k]) /\
  update_at now errors warnings tr =
    ({| last_seen_errors := errors; last_seen_warns := warnings;
        error_timestamps := stamps tk_errors (recent now WINDOW_MS (h ++ [k]));
        warn_timestamps := stamps tk_warns (recent now WINDOW_MS (h ++ [k])); current_level := level; last_worse_ms := worse |},
     default Healthy level).
Proof.
  intros [H0 Hh (cut & Hc & Ee & Ew) Hlw Hl] Hn k raw.
  assert (Hk : ticks_ok now (h ++ [k])).
  { apply (ticks_snoc t); [done | done | done | |]; unfold new_events, sat_sub, MAX_EVENTS_PER_TICK; lia. }
  assert (Hp : Forall (fun k => 0 <= tk_errors k) (h ++ [k]) /\ Forall (fun k => 0 <= tk_warns k) (h ++ [k])).
  { destruct Hk as [_ Hp]. split; (eapply Forall_impl; [exact Hp |]); cbn; lia. }
  unfold update_at.
  change (Z.min (sat_sub errors (last_seen_errors tr)) MAX_EVENTS_PER_TICK) with (tk_errors k).
  change (Z.min (sat_sub warnings (last_seen_warns tr)) MAX_EVENTS_PER_TICK) with (tk_warns k).
  rewrite (queue_step tk_errors t h k cut _ Hk Hn Hc Ee : evict_older_than (sat_sub now WINDOW_MS) (error_timestamps tr ++ replicate (Z.to_nat (tk_errors k)) now) = _).
  rewrite (queue_step tk_warns t h k cut _ Hk Hn Hc Ew : evict_older_than (sat_sub now WINDOW_MS) (warn_timestamps tr ++ replicate (Z.to_nat (tk_warns k)) now) = _).
  change (tk_now k) with now. rewrite (raw_level now (h ++ [k])) by apply Hp. fold raw.
  destruct (_ <=? rank raw); [done |]. by destruct (DOWNSHIFT_HOLD_MS <=? _).
Qed.

(** What a shown level rests on. *)
Definition shown_for (now : Z) (h : list Tick) (shown : HealthLevel) : Prop :=
  rank (level_of now h) <= rank shown /\
  (shown = level_of now h \/
   exists p k more, h = p ++ k :: more /\ now < tk_now k + DOWNSHIFT_HOLD_MS /\ level_of (tk_now k) (p ++ [k]) = shown).

Lemma rank_healthy l : 0 <= rank l /\ (rank l = 0 -> l = Healthy).
Proof. by destruct l. Qed.

Lemma update_ok t tr h now errors warnings :
  tracker_ok t tr h -> t <= now ->
  let h' := h ++ [{| tk_now := now; tk_errors := new_events (last_seen_errors tr) errors; tk_warns := new_events (last_seen_warns tr) warnings |}] in
  tracker_ok now (update_at now errors warnings tr).1 h' /\ shown_for now h' (update_at now errors warnings tr).2.
Proof.
  intros Ht Hn h'. pose proof (update_eq t tr h now errors warnings Ht Hn) as Hu. cbv zeta in Hu. fold h' in Hu.
  set (raw := level_of now h') in *. pose proof Ht as [H0 Hh _ Hlw Hl]. set (c := default Healthy (current_level tr)) in *.
  pose proof (rank_healthy raw) as [Hr0 Hr]. pose proof (rank_healthy c) as [Hc0 Hc].
  assert (Hq : ticks_ok now h' -> exists cut, cut <= sat_sub now WINDOW_MS /\
    stamps tk_errors (recent now WINDOW_MS h') = filter (fun x => (cut <=? x) = true) (stamps tk_errors h') /\
    stamps tk_warns (recent now WINDOW_MS h') = filter (fun x => (cut <=? x) = true) (stamps tk_warns h')).
  { intros _. exists (sat_sub now WINDOW_MS). split_and!; [done | |]; symmetry; apply (filter_stamps _ (fun x => sat_sub now WINDOW_MS <=? x)). }
  destruct (Z.leb_spec (rank c) (rank raw)) as [Hge | Hlt].
  - destruct Hu as [Hk ->]. cbn [fst snd default]. split; [| split; [done | by left]].
    constructor; cbn [error_timestamps warn_timestamps last_worse_ms current_level default]; [lia | done | by apply Hq | |].
    + case_cmp; lia.
    + destruct (Z.ltb_spec (rank Healthy) (rank raw)) as [Hw | Hw]; [| left; apply Hr; cbn in Hw; lia].
      right. left. by exists h, {| tk_now := now; tk_errors := new_events (last_seen_errors tr) errors; tk_warns := new_events (last_seen_warns tr) warnings |}, [].
  - destruct (Z.leb_spec DOWNSHIFT_HOLD_MS (sat_sub now (last_worse_ms tr))) as [Hhold | Hhold].
    + destruct Hu as [Hk ->]. cbn [fst snd default]. split; [| split; [done | by left]].
      constructor; cbn [error_timestamps warn_timestamps last_worse_ms current_level default]; [lia | done | by apply Hq | lia |].
      right. right. unfold sat_sub, DOWNSHIFT_HOLD_MS in *. lia.
    + destruct Hu as [Hk ->]. cbn [fst snd]. fold c.
      assert (Hp : exists p k more, h' = p ++ k :: more /\ tk_now k = last_worse_ms tr /\ level_of (tk_now k) (p ++ [k]) = c).
      { destruct Hl as [Hl | [(p & k & more & E & Hkn & Hlv) | Hl]].
        - rewrite Hl in Hlt. cbn in Hlt. lia.
        - exists p, k, (more ++ [{| tk_now := now; tk_errors := new_events (last_seen_errors tr) errors; tk_warns := new_events (last_seen_warns tr) warnings |}]).
          split_and!; [unfold h'; rewrite E; by rewrite <- app_assoc | done | done].
        - unfold sat_sub, DOWNSHIFT_HOLD_MS in *. lia. }
      split.
      * constructor; cbn [error_timestamps warn_timestamps last_worse_ms current_level default]; [lia | done | by apply Hq | lia |].
        fold c. right. by left.
      * split; [fold raw; lia |]. right. destruct Hp as (p & k & more & E & Hkn & Hlv). exists p, k, more. split_and!; [done | | done].
        rewrite Hkn. unfold sat_sub, DOWNSHIFT_HOLD_MS in *. lia.
Qed.

Lemma reset_ok t tr : 0 <= t -> tracker_ok t (reset_window tr) [].
Proof.
  intros Ht. constructor; [done | split; constructor | | cbn; lia | by left].
  exists (sat_sub t WINDOW_MS). by split_and!.
Qed.

Lemma health_run_ok t tr h : health_run t tr h -> tracker_ok t tr h.
Proof.
  induction 1 as [t Ht | t tr h now errors warnings _ IH Hn | t tr h errors warnings _ IH | t tr h _ IH].
  - constructor; [done | split; constructor | | cbn; lia | by left]. exists (sat_sub t WINDOW_MS). by split_and!.
  - by apply (update_ok t).
  - apply reset_ok. by apply (to_time _ _ _ IH).
  - apply reset_ok. by apply (to_time _ _ _ IH).
Qed.

(** the level on the screen is that of the events of the last half minute. In
    every run of a tracker, through offline pauses and new sessions, a tick shows
    at least the level that a count over the whole history gives for this moment:
    five errors in five seconds, three errors in thirty, more than ten warnings,
    any warning. It shows a worse one only if that was the count's level at a tick
    less than five seconds ago, so getting worse shows at once and getting better
    is held back, never longer. The queues hold no more than a hundred stamps for
    each tick of the window, however far the counters jump. *)
Theorem health_window t tr h now errors warnings :
  health_run t tr h -> t <= now ->
  let h' := h ++ [{| tk_now := now; tk_errors := new_events (last_seen_errors tr) errors; tk_warns := new_events (last_seen_warns tr) warnings |}] in
  let '(tr', shown) := update_at now errors warnings tr in
  health_run now tr' h' /\
  rank (level_of now h') <= rank shown /\
  (shown = level_of now h' \/
   exists p k more, h' = p ++ k :: more /\ now < tk_now k + DOWNSHIFT_HOLD_MS /\ level_of (tk_now k) (p ++ [k]) = shown) /\
  zlen (error_timestamps tr') = total tk_errors (recent now WINDOW_MS h') /\
  zlen (error_timestamps tr') <= 100 * zlen (recent now WINDOW_MS h') /\
  zlen (warn_timestamps tr') <= 100 * zlen (recent now WINDOW_MS h').
Proof.
  intros Hr Hn h'. pose proof (health_run_ok _ _ _ Hr) as Ht.
  pose proof (hr_tick t tr h now errors warnings Hr Hn) as Hr'. fold h' in Hr'.
  destruct (update_ok t tr h now errors warnings Ht Hn) as [Hok [H1 H2]]. fold h' in Hok, H1, H2.
  pose proof (update_eq t tr h now errors warnings Ht Hn) as Hu. cbv zeta in Hu. fold h' in Hu.
  destruct (if rank _ <=? _ then _ else _) as [level worse]. destruct Hu as [Hk Hu]. rewrite Hu in *. cbn [fst snd] in *.
  cbn [error_timestamps warn_timestamps].
  assert (Hp : Forall (fun k => 0 <= tk_errors k <= 100) h' /\ Forall (fun k => 0 <= tk_warns k <= 100) h').
  { destruct Hk as [_ Hp]. split; (eapply Forall_impl; [exact Hp |]); cbn; lia. }
  assert (Hb : forall f, Forall (fun k => 0 <= f k <= 100) h' ->
    zlen (stamps f (recent now WINDOW_MS h')) = total f (recent now WINDOW_MS h') /\ total f (recent now WINDOW_MS h') <= 100 * zlen (recent now WINDOW_MS h')).
  { intros f Hf. split; [apply total_stamps; eapply Forall_impl; [exact Hf |]; cbn; lia |].
    assert (Hf' : Forall (fun k => 0 <= f k <= 100) (recent now WINDOW_MS h')).
    { unfold recent. rewrite Forall_forall in *. intros k [_ Hin]%list_elem_of_filter. by apply Hf. }
    clear -Hf'. induction Hf' as [| k l Hk' _ IH]; [done |]. rewrite zlen_cons. unfold total in *. cbn [foldr]. lia. }
  destruct (Hb tk_errors (proj1 Hp)) as [E1 E2]. destruct (Hb tk_warns (proj2 Hp)) as [E3 E4].
  split_and!; [done | done | done | done | lia | lia].
Qed.

(** Six errors at once, and then silence: the burst is shown as long as it is in
    its window, and then a while more. *)
Definition ex_tracker1 : HealthTracker := (update_at 10000 6 0 HealthTracker_new).1.
Definition ex_tracker2 : HealthTracker := (update_at 14000 6 0 ex_tracker1).1.
Definition ex_ticks : list Tick :=
  [{| tk_now := 10000; tk_errors := 6; tk_warns := 0 |}; {| tk_now := 14000; tk_errors := 0; tk_warns := 0 |}].

Lemma ex_tracker_run : health_run 14000 ex_tracker2 ex_ticks.
Proof.
  refine (hr_tick 10000 ex_tracker1 [{| tk_now := 10000; tk_errors := 6; tk_warns := 0 |}] 14000 6 0 _ _); [| lia].
  refine (hr_tick 0 HealthTracker_new [] 10000 6 0 _ _); [by apply hr_new | lia].
Qed.

Lemma health_window_witness :
  (update_at 16000 6 0 ex_tracker2).2 = Critical /\
  level_of 16000 (ex_ticks ++ [{| tk_now := 16000; tk_errors := 0; tk_warns := 0 |}]) = Hurt /\
  rank Hurt <= rank (update_at 16000 6 0 ex_tracker2).2.
Proof.
  split; [vm_compute; reflexivity |]. split; [vm_compute; reflexivity |].
  pose proof (health_window 14000 ex_tracker2 ex_ticks 16000 6 0 ex_tracker_run ltac:(lia)) as H.
  cbv zeta in H. destruct (update_at 16000 6 0 ex_tracker2) as [tr' shown]. destruct H as (_ & H & _).
  refine (Z.le_trans _ _ _ _ H). vm_compute. discriminate.
Defined.

(** ** What the end of a relay counts as *)

Lemma contains_chars p l c : contains p l = true -> c ∈ p -> c ∈ l.
Proof.
  induction l as [| b l IH]; intros Hc Hin; cbn [contains] in Hc; apply orb_true_iff in Hc as [Hs | Hc]; try done.
  - apply starts_with_spec in Hs as [r ->]. apply elem_of_app. by left.
  - apply starts_with_spec in Hs as [r ->]. apply elem_of_app. by left.
  - right. by apply IH.
Qed.

Lemma contains_prefix p l : contains p (p ++ l) = true.
Proof. destruct (p ++ l) eqn:E; cbn [contains]; apply orb_true_iff; left; apply starts_with_spec; exists l; congruence. Qed.

Lemma show_ipv4_no_D ip : 68 ∉ show_ipv4 ip.
Proof.
  unfold show_ipv4. intros Hin.
  assert (H : Forall (fun b => 48 <= b <= 57 \/ b = 46) (join (str ".") (show_dec <$> be32 ip))).
  { clear Hin. induction (be32 ip) as [| x l IH]; [done |]. destruct l as [| y l].
    - cbn [fmap list_fmap join]. rewrite Forall_forall. intros b Hb. left. by eapply show_dec_digits.
    - change (show_dec <$> x :: y :: l) with (show_dec x :: (show_dec <$> (y :: l))). rewrite join_cons by done.
      apply Forall_app. split; [rewrite Forall_forall; intros b Hb; left; by eapply show_dec_digits |].
      apply Forall_app. split; [| exact IH]. constructor; [by right | constructor]. }
  rewrite Forall_forall in H. destruct (H 68 Hin); lia.
Qed.

(** Which ends of a session the user hears of. A direct end is silent; a blocked
    DNS over TLS leaves no trace; a drop of the policy (a private address, a fake
    one without a name) is a warning; a reset of the other side is a warning unless
    it comes from opening a stream of the proxy, and every failure to open one that
    is not a bad target is an error, as is a block by a rule. Whatever the end,
    at most one of the two counters grows, and by one. *)
Theorem relay_end_counts show_sock c :
  (forall ip port domain e, gate show_sock (SockV4 ip port) domain = Some e ->
     relay_verdict e = if port =? 853 then VDebug else VWarn) /\
  (forall e, contains (str "DoT blocked") (str "mux open fail: " ++ message e) = false ->
     relay_verdict (IoError (kind e) (str "mux open fail: " ++ message e)) =
     if decide (kind e = InvalidInput) then VWarn else VError) /\
  (forall e, contains (str "DoT blocked") (message e) = false -> contains (str "mux open fail") (message e) = false ->
     relay_verdict e = if decide (kind e = InvalidInput \/ kind e = ConnectionReset \/ kind e = ConnectionAborted) then VWarn else VError) /\
  relay_verdict (IoError PermissionDenied (str "blocked by routing")) = VError /\
  relay_ended c (Ok tt) = c /\
  (forall e, relay_ended c (Err e) =
     match relay_verdict e with
     | VDebug => c
     | VWarn => {| relay_warns := (relay_warns c + 1) mod 2 ^ 64; relay_errors := relay_errors c |}
     | VError => {| relay_warns := relay_warns c; relay_errors := (relay_errors c + 1) mod 2 ^ 64 |}
     end).
Proof.
  split_and!; try done.
  - intros ip port domain e. unfold gate. cbn [sock_port sock_ip is_fake_sock show_ip]. destruct (Z.eqb_spec port 853) as [-> | Hp].
    { intros H. apply Some_inj in H. subst e. unfold relay_verdict. cbn [message].
      assert (E : contains (str "DoT blocked") (str "DoT blocked (" ++ show_sock (SockV4 ip 853) ++ str "), forcing UDP DNS") = true)
        by exact (contains_prefix (str "DoT blocked") (str " (" ++ show_sock (SockV4 ip 853) ++ str "), forcing UDP DNS")).
      by rewrite E. }
    assert (Hno : forall a b, 68 ∉ a -> 68 ∉ b -> contains (str "DoT blocked") (a ++ show_ipv4 ip ++ b) = false).
    { intros a b Ha Hb. apply not_true_iff_false. intros Hc. apply (contains_chars _ _ 68) in Hc; [| by left].
      rewrite !elem_of_app in Hc. pose proof (show_ipv4_no_D ip). tauto. }
    destruct (_ && _); [| destruct (is_private_ip _); [| done]]; intros H; apply Some_inj in H; subst e; unfold relay_verdict; cbn [message kind];
      rewrite Hno; try done; apply (bool_decide_unpack _); vm_compute; exact I.
  - intros e He. unfold relay_verdict. cbn [message kind]. rewrite He.
    assert (E : contains (str "mux open fail") (str "mux open fail: " ++ message e) = true)
      by exact (contains_prefix (str "mux open fail") (str ": " ++ message e)).
    rewrite E. cbn [negb].
    by destruct (kind e).
  - intros e He Hm. unfold relay_verdict. rewrite He, Hm. cbn [negb]. by destruct (kind e).
Qed.

Lemma relay_end_counts_witness :
  relay_verdict (IoError ConnectionReset (str "Connection reset by peer")) = VWarn /\
  relay_verdict (IoError ConnectionReset (str "mux open fail: Connection reset by peer")) = VError /\
  exists e, gate (fun _ => []) (SockV4 (from_be32 192 168 1 1) 80) None = Some e /\ relay_verdict e = VWarn.
Proof.
  destruct (relay_end_counts (fun _ => []) {| relay_warns := 0; relay_errors := 0 |}) as (H1 & H2 & H3 & _). split_and!.
  - apply (H3 (IoError ConnectionReset (str "Connection reset by peer"))); reflexivity.
  - apply (H2 (IoError ConnectionReset (str "Connection reset by peer"))). reflexivity.
  - eexists. split; [reflexivity |]. apply (H1 (from_be32 192 168 1 1) 80 None). reflexivity.
Defined.
