(* ===== verification/Journal.v ===== *)
(** * The journal of the application (xr-core/src/journal.rs)

    The time stamps of its lines, the folding of repeated lines and the counts it
    writes, the tail in memory with its eviction, the file with its rotation, and
    what is read back at a start. The journal's directory is a map from the number
    of a file (0 for journal.log, i for journal.log.i) to its content; the calls on
    it succeed, as the code ignores their errors. The mutex makes every operation
    one step. *)

From S2P Require Import Prelude Text.

(** ** Time stamps *)

(** Days since 1970-01-01 to year, month and day. *)
Definition civil (days : Z) : Z * Z * Z :=
  let z := days + 719468 in
  let era := Z.quot (if 0 <=? z then z else z - 146096) 146097 in
  let doe := z - era * 146097 in
  let yoe := (doe - doe / 1460 + doe / 36524 - doe / 146096) / 365 in
  let y := yoe + era * 400 in
  let doy := doe - (365 * yoe + yoe / 4 - yoe / 100) in
  let mp := (5 * doy + 2) / 153 in
  let d := doy - (153 * mp + 2) / 5 + 1 in
  let mo := if mp <? 10 then mp + 3 else mp - 9 in
  ((if mo <=? 2 then y + 1 else y), mo, d).

(** [{:0w}] of a number that is not negative. *)
Definition pad0 (w : nat) (n : Z) : bytes :=
  let s := show_dec n in replicate (w - length s) 48 ++ s.

Definition timestamp (secs : Z) : bytes :=
  let time := secs mod 86400 in
  let '(y, mo, d) := civil (secs / 86400) in
  pad0 4 y ++ str "-" ++ pad0 2 mo ++ str "-" ++ pad0 2 d ++ str " " ++
  pad0 2 (time / 3600) ++ str ":" ++ pad0 2 (time mod 3600 / 60) ++ str ":" ++ pad0 2 (time mod 60).

Example timestamp_ex : timestamp 1709164800 = str "2024-02-29 00:00:00".
Proof. vm_compute. reflexivity. Qed.

(** The Gregorian calendar. *)
Definition leap (y : Z) : bool := (y mod 4 =? 0) && (negb (y mod 100 =? 0) || (y mod 400 =? 0)).
Definition month_len (y m : Z) : Z :=
  if m =? 2 then (if leap y then 29 else 28)
  else if (m =? 4) || (m =? 6) || (m =? 9) || (m =? 11) then 30 else 31.
Definition next_day (t : Z * Z * Z) : Z * Z * Z :=
  let '(y, m, d) := t in
  if d <? month_len y m then (y, m, d + 1) else if m <? 12 then (y, m + 1, 1) else (y + 1, 1, 1).

(** Years from March: the year of an era and the day of the year. *)
Definition year_start (y : Z) : Z := 365 * y + y / 4 - y / 100.
Definition year_of_era (doe : Z) : Z := (doe - doe / 1460 + doe / 36524 - doe / 146096) / 365.

Lemma year_of_era_spec doe : 0 <= doe < 146097 ->
  0 <= year_of_era doe <= 399 /\ year_start (year_of_era doe) <= doe /\
  (doe < year_start (year_of_era doe + 1) \/ (year_of_era doe = 399 /\ doe = 146096)).
Proof. intros H. unfold year_of_era, year_start. divmod. Qed.

Lemma year_of_era_unique y doe : 0 <= y <= 399 -> year_start y <= doe -> doe < year_start (y + 1) \/ (y = 399 /\ doe = 146096) ->
  year_of_era doe = y.
Proof.
  intros Hy Hs He. assert (Hd : 0 <= doe < 146097) by (unfold year_start in *; divmod).
  destruct (year_of_era_spec doe Hd) as (H1 & H2 & H3). set (x := year_of_era doe) in *. clearbody x.
  unfold year_start in *. divmod.
Qed.

(** Month and day of a day of the year from March. *)
Definition month_day (doy : Z) : Z * Z :=
  let mp := (5 * doy + 2) / 153 in
  ((if mp <? 10 then mp + 3 else mp - 9), doy - (153 * mp + 2) / 5 + 1).
Definition date (y doy : Z) : Z * Z * Z :=
  let '(mo, d) := month_day doy in ((if mo <=? 2 then y + 1 else y), mo, d).

Lemma civil_date days : 0 <= days ->
  let era := (days + 719468) / 146097 in
  let doe := (days + 719468) mod 146097 in
  civil days = date (year_of_era doe + era * 400) (doe - year_start (year_of_era doe)) /\ 0 <= doe < 146097.
Proof.
  intros Hd era doe. unfold civil. rewrite (proj2 (Z.leb_le 0 (days + 719468))) by lia.
  rewrite Z.quot_div_nonneg by lia. fold era. replace (days + 719468 - era * 146097) with doe by (unfold doe, era; divmod).
  split; [done |]. unfold doe. divmod.
Qed.

(** Inside a year, by looking at its days. *)
Definition step_ok (doy : Z) : bool :=
  let '(m, d) := month_day doy in
  let '(m', d') := month_day (doy + 1) in
  if d <? (if m =? 2 then 28 else month_len 1 m) then (m' =? m) && (d' =? d + 1)
  else if m <? 12 then negb (m =? 2) && (m' =? m + 1) && (d' =? 1) && Bool.eqb (m <=? 2) (m' <=? 2)
  else (m =? 12) && (m' =? 1) && (d' =? 1).

Lemma days_step : Forall (fun doy => step_ok doy = true) (seqZ 0 364).
Proof. by_compute. Qed.

Lemma next_in_year y doy : 0 <= doy < 364 -> next_day (date y doy) = date y (doy + 1).
Proof.
  intros Hd. pose proof days_step as H. rewrite Forall_forall in H. specialize (H doy ltac:(apply elem_of_seqZ; lia)).
  unfold step_ok in H. unfold date. destruct (month_day doy) as [m d]. destruct (month_day (doy + 1)) as [m' d'].
  unfold next_day. assert (Hl : forall a, m <> 2 -> month_len a m = month_len 1 m).
  { intros a Hm. unfold month_len. by destruct (Z.eqb_spec m 2). }
  destruct (Z.eqb_spec m 2) as [-> | Hm].
  - destruct (Z.ltb_spec d 28); [| done]. apply andb_true_iff in H as [->%Z.eqb_eq ->%Z.eqb_eq]. cbn [Z.leb Z.compare].
    rewrite (proj2 (Z.ltb_lt _ _)); [done |]. unfold month_len. rewrite Z.eqb_refl. destruct (leap _); lia.
  - rewrite Hl by done. destruct (Z.ltb_spec d (month_len 1 m)).
    + by apply andb_true_iff in H as [->%Z.eqb_eq ->%Z.eqb_eq].
    + destruct (Z.ltb_spec m 12).
      * rewrite !andb_true_iff in H. destruct H as [[[_ Em] Ed] Eb]. apply Z.eqb_eq in Em, Ed. apply Bool.eqb_prop in Eb.
        by rewrite Eb, Em, Ed.
      * rewrite !andb_true_iff in H. destruct H as [[Em Em'] Ed]. apply Z.eqb_eq in Em, Em', Ed. by rewrite Em, Em', Ed.
Qed.

Lemma date_0 y : date y 0 = (y, 3, 1).
Proof. done. Qed.
Lemma date_364 y : date y 364 = (y + 1, 2, 28).
Proof. done. Qed.
Lemma date_365 y : date y 365 = (y + 1, 2, 29).
Proof. done. Qed.

(** The number of days from one first of March to the next. *)
Lemma leap_year era yoe : 0 <= yoe <= 399 ->
  leap (yoe + era * 400 + 1) = (if yoe =? 399 then true else year_start (yoe + 1) - year_start yoe =? 366).
Proof.
  intros Hy. unfold leap, year_start. destruct (Z.eqb_spec yoe 399) as [-> | Hne].
  - replace (399 + era * 400 + 1) with ((1 + era) * 400) by lia.
    rewrite (Z.mod_mul _ 400), orb_true_r, andb_true_r by done. apply Z.eqb_eq. divmod.
  - assert (H4 : (yoe + era * 400 + 1) mod 4 = (yoe + 1) mod 4) by divmod.
    assert (H100 : (yoe + era * 400 + 1) mod 100 = (yoe + 1) mod 100) by divmod.
    assert (H400 : (yoe + era * 400 + 1) mod 400 = yoe + 1) by divmod.
    rewrite H4, H100, H400. apply Bool.eq_iff_eq_true. rewrite andb_true_iff, orb_true_iff, negb_true_iff, !Z.eqb_eq, Z.eqb_neq. divmod.
Qed.

Lemma civil_next days : 0 <= days -> civil (days + 1) = next_day (civil days).
Proof.
  intros Hd. destruct (civil_date days Hd) as [-> Hdoe]. destruct (civil_date (days + 1) ltac:(lia)) as [-> Hdoe'].
  set (doe := (days + 719468) mod 146097) in *. set (era := (days + 719468) / 146097).
  destruct (year_of_era_spec doe Hdoe) as (Hy & Hs & He). set (y := year_of_era doe) in *.
  assert (Hlen : 365 <= year_start (y + 1) - year_start y <= 366) by (clearbody y; unfold year_start; divmod).
  pose proof (leap_year era y Hy) as Hleap.
  destruct (decide (doe = 146096)) as [Hlast | Hlast].
  - assert (Ey : y = 399) by (clearbody y; unfold year_start in *; divmod).
    assert (E1 : (days + 1 + 719468) mod 146097 = 0) by (unfold doe in Hlast; divmod).
    assert (E2 : (days + 1 + 719468) / 146097 = era + 1) by (unfold doe, era in *; divmod).
    rewrite E1, E2. rewrite Ey, Hlast in *. change (146096 - year_start 399) with 365. rewrite date_365.
    change (year_of_era 0) with 0. change (0 - year_start 0) with 0. rewrite date_0. rewrite Z.eqb_refl in Hleap.
    unfold next_day, month_len. rewrite Z.eqb_refl, Hleap. rewrite (proj2 (Z.ltb_ge _ _)) by lia. cbn [Z.ltb Z.compare]. do 2 f_equal; lia.
  - assert (E1 : (days + 1 + 719468) mod 146097 = doe + 1) by (unfold doe in *; divmod).
    assert (E2 : (days + 1 + 719468) / 146097 = era) by (unfold doe, era in *; divmod).
    rewrite E1, E2. assert (He' : doe < year_start (y + 1)) by (destruct He as [| [_ ?]]; [done | lia]).
    assert (E400 : y = 399 -> year_start (y + 1) = 146096 /\ year_start y = 145731) by (by intros ->).
    destruct (decide (doe + 1 < year_start (y + 1) \/ y = 399)) as [Hin | Hout].
    + rewrite (year_of_era_unique y (doe + 1)) by lia.
      replace (doe + 1 - year_start y) with (doe - year_start y + 1) by lia.
      destruct (decide (doe - year_start y = 364)) as [E364 | ?]; [| rewrite next_in_year by lia; done].
      rewrite E364. change (364 + 1) with 365. rewrite date_364, date_365. unfold next_day, month_len. rewrite Z.eqb_refl, Hleap.
      destruct (Z.eqb_spec y 399); [done |]. rewrite (proj2 (Z.eqb_eq _ _)) by lia. done.
    + assert (Hne : y <> 399) by tauto.
      assert (Hy1 : year_start (y + 1) <= doe + 1 /\ doe + 1 < year_start (y + 1 + 1)) by (clearbody y; unfold year_start in *; divmod).
      rewrite (year_of_era_unique (y + 1) (doe + 1)) by lia.
      replace (doe + 1 - year_start (y + 1)) with 0 by lia. rewrite date_0.
      rewrite (proj2 (Z.eqb_neq y 399)) in Hleap by done.
      assert (Hdoy : doe - year_start y = year_start (y + 1) - year_start y - 1) by lia.
      destruct (decide (year_start (y + 1) - year_start y = 366)) as [E366 | E365].
      * rewrite Hdoy, E366. change (366 - 1) with 365. rewrite date_365. unfold next_day, month_len.
        rewrite Z.eqb_refl, Hleap, E366, Z.eqb_refl. cbn [Z.ltb Z.compare]. do 2 f_equal; lia.
      * rewrite Hdoy. replace (year_start (y + 1) - year_start y - 1) with 364 by lia. rewrite date_364. unfold next_day, month_len.
        rewrite Z.eqb_refl, Hleap. rewrite (proj2 (Z.eqb_neq _ 366)) by done. cbn [Z.ltb Z.compare]. do 2 f_equal; lia.
Qed.

(** ** Counts at the end of a line *)

Definition MULT : bytes := str " (×".

(** [s.rfind(pat)] for a pattern that is not empty. *)
Fixpoint rfind (pat s : bytes) : option Z :=
  match s with
  | [] => None
  | _ :: s' =>
      match rfind pat s' with
      | Some i => Some (i + 1)
      | None => if starts_with pat s then Some 0 else None
      end
  end.

Definition split_count_suffix (s : bytes) : bytes * Z :=
  if negb (ends_with (str ")") s) then (s, 1) else
  match rfind MULT s with
  | None => (s, 1)
  | Some open =>
      let num_start := open + 4 in
      let num_end := zlen s - 1 in
      if num_end <=? num_start then (s, 1) else
      match parse_u64 (ztake (num_end - num_start) (zdrop num_start s)) with
      | Some n => (ztake open s, n)
      | None => (s, 1)
      end
  end.

Definition with_count (core : bytes) (n : Z) : bytes := core ++ MULT ++ show_dec n ++ str ")".

(** ** The state *)

Definition MAX_TAIL : Z := 400.

(** [dir] and [file] say whether the journal has a directory and an open file. *)
Record JournalInner := {
  tail : list bytes;
  dir : bool;
  file : bool;
  file_len : Z;
  last_line_offset : option Z;
  max_file_bytes : Z;
  max_files : Z
}.

Abbreviation Disk := (gmap Z bytes).

Definition set_tail (j : JournalInner) (t : list bytes) : JournalInner :=
  {| tail := t; dir := dir j; file := file j; file_len := file_len j; last_line_offset := last_line_offset j;
     max_file_bytes := max_file_bytes j; max_files := max_files j |}.
Definition set_file (j : JournalInner) (len : Z) (off : option Z) : JournalInner :=
  {| tail := tail j; dir := dir j; file := file j; file_len := len; last_line_offset := off;
     max_file_bytes := max_file_bytes j; max_files := max_files j |}.
Definition set_limits (j : JournalInner) (size files : Z) : JournalInner :=
  {| tail := tail j; dir := dir j; file := file j; file_len := file_len j; last_line_offset := last_line_offset j;
     max_file_bytes := size; max_files := files |}.
Definition set_open (j : JournalInner) (d f : bool) : JournalInner :=
  {| tail := tail j; dir := d; file := f; file_len := file_len j; last_line_offset := last_line_offset j;
     max_file_bytes := max_file_bytes j; max_files := max_files j |}.

Definition Journal_memory : JournalInner :=
  {| tail := []; dir := false; file := false; file_len := 0; last_line_offset := None; max_file_bytes := U64_MAX; max_files := 1 |}.

(** Writing at an offset of a file, and [set_len] to one inside it. *)
Definition write_at (c : bytes) (off : Z) (d : bytes) : bytes :=
  ztake off (c ++ replicate (Z.to_nat (off - zlen c)) 0) ++ d ++ zdrop (off + zlen d) c.

Definition content (d : Disk) (i : Z) : bytes := default [] (d !! i).

Definition rename (d : Disk) (i j : Z) : Disk :=
  match d !! i with Some c => <[j := c]> (delete i d) | None => d end.

(** [for i in (1..n).rev()]: the files move up by one. *)
Fixpoint shift_files (n : nat) (d : Disk) : Disk :=
  match n with
  | O => d
  | S n => shift_files n (rename d (Z.of_nat (S n)) (Z.of_nat (S n) + 1))
  end.

Definition rotate_if_needed (j : JournalInner) (d : Disk) : JournalInner * Disk :=
  if negb (file j) || (file_len j <? max_file_bytes j) then (j, d)
  else if negb (dir j) then (j, d)
  else
    let d :=
      if max_files j =? 1 then delete 0 d
      else rename (shift_files (Z.to_nat (max_files j - 2)) (delete (max_files j - 1) d)) 0 1 in
    (set_file j 0 None, <[0 := content d 0]> d).

Definition write_line (j : JournalInner) (d : Disk) (entry : bytes) : JournalInner * Disk :=
  if negb (file j) then (j, d) else
  let '(j, d) := rotate_if_needed j d in
  let line := entry ++ [10] in
  (set_file j (file_len j + zlen line) (Some (file_len j)), <[0 := write_at (content d 0) (file_len j) line]> d).

Definition rewrite_last_line (j : JournalInner) (d : Disk) (entry : bytes) : JournalInner * Disk :=
  match file j, last_line_offset j with
  | true, Some off =>
      let line := entry ++ [10] in
      (set_file j (off + zlen line) (Some off), <[0 := write_at (ztake off (content d 0)) off line]> d)
  | _, _ => (j, d)
  end.

(** [retain] that lets go of the first [n] elements not worth keeping. *)
Fixpoint retain_but (n : nat) (keep : bytes -> bool) (l : list bytes) : list bytes :=
  match l with
  | [] => []
  | e :: l =>
      match n with
      | O => e :: l
      | S n' => if keep e then e :: retain_but n keep l else retain_but n' keep l
      end
  end.

Definition is_warn (e : bytes) : bool := contains (str " WARN ") e.
Definition is_error (e : bytes) : bool := contains (str " ERROR ") e.

Definition push_tail (t : list bytes) (entry : bytes) : list bytes :=
  let t :=
    if MAX_TAIL <=? zlen t then
      let t := retain_but 50 (fun e => is_warn e || is_error e) t in
      let t := if MAX_TAIL <=? zlen t then retain_but 50 is_error t else t in
      if MAX_TAIL <=? zlen t then zdrop 50 t else t
    else t in
  t ++ [entry].

(** [{:>5}] of a level. *)
Definition pad_left (w : nat) (s : bytes) : bytes := replicate (w - length s) 32 ++ s.

Definition journal_entry (secs : Z) (level source msg : bytes) : bytes :=
  timestamp secs ++ str " " ++ pad_left 5 level ++ str " [" ++ source ++ str "] " ++ msg.

Definition append_entry (entry : bytes) (j : JournalInner) (d : Disk) : JournalInner * Disk :=
  let push :=
    let j := set_tail j (push_tail (tail j) entry) in write_line j d entry in
  match list.last (tail j) with
  | Some l =>
      let '(last_core, last_count) := split_count_suffix l in
      let '(new_core, _) := split_count_suffix entry in
      if bool_decide (last_core = new_core) then
        let merged := with_count last_core (u64 (last_count + 1)) in
        let j := set_tail j (removelast (tail j) ++ [merged]) in
        rewrite_last_line j d merged
      else push
  | None => push
  end.

Definition append (secs : Z) (level source msg : bytes) (j : JournalInner) (d : Disk) : JournalInner * Disk :=
  append_entry (journal_entry secs level source msg) j d.

(** ** Reading back *)

Definition strip_cr (l : bytes) : bytes := match strip_suffix [13] l with Some l' => l' | None => l end.

(** [str::lines]: each line ends with a line feed, with a carriage return before it
    or not; the last one may lack it. *)
Definition str_lines (s : bytes) : list bytes :=
  match rev (split 10 s) with
  | [] => []
  | l :: ls => (strip_cr <$> rev ls) ++ (if bool_decide (l = []) then [] else [l])
  end.

Definition trim_newlines (s : bytes) : bytes :=
  rev ((fix go l := match l with b :: l' => if b =? 10 then go l' else l | [] => [] end) (rev s)).

Definition load_from_disk (j : JournalInner) (d : Disk) : JournalInner * Disk :=
  if negb (dir j) then (j, d) else
  let c := content d 0 in
  let c := if utf8_valid c then c else [] in
  let c := if negb (bool_decide (c = [])) && negb (ends_with [10] c) then c ++ [10] else c in
  let d := <[0 := c]> d in
  let merged :=
    (if zlen (str_lines c) <? MAX_TAIL then
       match d !! 1 with Some p => if utf8_valid p then str_lines p else [] | None => [] end
     else []) ++ str_lines c in
  let j := set_tail j (zdrop (sat_sub (zlen merged) MAX_TAIL) merged) in
  let off :=
    match rfind [10] (trim_newlines c) with
    | Some p => Some (p + 1)
    | None => if bool_decide (c = []) then None else Some 0
    end in
  rotate_if_needed (set_open (set_file j (zlen c) off) true true) d.

Definition Journal_open (size files : Z) (d : Disk) : JournalInner * Disk :=
  load_from_disk (set_open (set_limits Journal_memory (Z.max size 4096) (Z.max files 1)) true false) d.

(** The files from [a] on, [n] of them, disappear. *)
Fixpoint remove_files (a : Z) (n : nat) (d : Disk) : Disk :=
  match n with O => d | S n => delete a (remove_files (a + 1) n d) end.

Definition set_rotation (size files : Z) (j : JournalInner) (d : Disk) : JournalInner * Disk :=
  let old_max_files := max_files j in
  let j := set_limits j (Z.max size 4096) (Z.max files 1) in
  let d := if dir j then remove_files (Z.max (max_files j) 1) (Z.to_nat (Z.max old_max_files 1 - Z.max (max_files j) 1)) d else d in
  rotate_if_needed j d.

Definition clear (j : JournalInner) (d : Disk) : JournalInner * Disk :=
  let j := set_file (set_tail j []) 0 None in
  if dir j then
    let d := remove_files 1 (Z.to_nat (Z.max (max_files j) 2 - 1)) d in
    (j, if file j then <[0 := []]> d else delete 0 d)
  else (j, d).

(** The files from number [n] down to 1, those that are text. *)
Fixpoint dump_old (n : nat) (d : Disk) : bytes :=
  match n with
  | O => []
  | S n => (match d !! Z.of_nat (S n) with Some c => if utf8_valid c then c else [] | None => [] end) ++ dump_old n d
  end.

Definition dump (j : JournalInner) (d : Disk) : bytes :=
  if negb (dir j) then
    let s := join [10] (tail j) in if bool_decide (s = []) then s else s ++ [10]
  else
    dump_old (Z.to_nat (max_files j - 1)) d ++ (match d !! 0 with Some c => if utf8_valid c then c else [] | None => [] end).

(** ** Lemmas on text *)

(** The last occurrence of a pattern whose first byte does not come again. *)
Lemma rfind_none p0 p s : p0 ∉ s -> rfind (p0 :: p) s = None.
Proof.
  induction s as [| b s IH]; [done |]. rewrite not_elem_of_cons. intros [Hb Hs]. cbn [rfind]. rewrite IH by done.
  destruct (starts_with (p0 :: p) (b :: s)) eqn:E; [| done]. apply starts_with_spec in E as [r [= -> _]]. done.
Qed.

Lemma rfind_last p0 p pre post : p0 ∉ p ++ post -> rfind (p0 :: p) (pre ++ (p0 :: p) ++ post) = Some (zlen pre).
Proof.
  intros Hn. induction pre as [| b pre IH]; cbn [app rfind].
  - rewrite rfind_none by done.
    assert (E : starts_with (p0 :: p) (p0 :: p ++ post) = true) by (apply starts_with_spec; by exists post). by rewrite E.
  - cbn [app] in IH. rewrite IH. f_equal. rewrite zlen_cons. lia.
Qed.

Lemma split_with_count core n : 0 <= n <= U64_MAX -> split_count_suffix (with_count core n) = (core, n).
Proof.
  intros Hn. unfold split_count_suffix, with_count. set (num := show_dec n).
  assert (Hz : 0 < zlen num).
  { pose proof (zlen_nonneg num). destruct (decide (zlen num = 0)) as [E | ?]; [| lia]. apply zlen_0_nil in E.
    by apply (dec_digits_nonempty 20 n []) in E; [| lia]. }
  rewrite (proj2 (ends_with_spec _ _)) by (exists (core ++ MULT ++ num); by rewrite <- !app_assoc). cbn [negb].
  change MULT with (32 :: [40; 195; 151]).
  rewrite (rfind_last 32 [40; 195; 151] core (num ++ str ")")).
  - change (32 :: [40; 195; 151]) with MULT. assert (Hlen : zlen (core ++ MULT ++ num ++ str ")") = zlen core + 4 + zlen num + 1).
    { rewrite !zlen_app. change (zlen MULT) with 4. change (zlen (str ")")) with 1. lia. }
    rewrite Hlen. rewrite (proj2 (Z.leb_gt _ _)) by lia.
    rewrite (app_assoc core MULT). rewrite zdrop_app by (rewrite zlen_app; done).
    rewrite ztake_app by lia. unfold num. rewrite parse_show by done. rewrite <- app_assoc, ztake_app by done. done.
  - rewrite !elem_of_app. intros [H | [H | H]].
    + revert H. by_compute.
    + apply show_dec_digits in H. lia.
    + revert H. by_compute.
Qed.

(** ** The tail *)

Lemma retain_sublist n keep l : retain_but n keep l `sublist_of` l.
Proof.
  revert n. induction l as [| e l IH]; intros n; cbn [retain_but]; [done |].
  destruct n as [| n]; [done |]. destruct (keep e); by constructor.
Qed.

Lemma retain_keeps n keep l : filter (fun e => keep e = true) (retain_but n keep l) = filter (fun e => keep e = true) l.
Proof.
  revert n. induction l as [| e l IH]; intros n; cbn [retain_but]; [done |]. destruct n as [| n]; [done |].
  destruct (keep e) eqn:Ek; [by rewrite !filter_cons_True, IH | by rewrite (filter_cons_False _ _ l), IH by congruence].
Qed.

(** Nothing is let go only if everything is worth keeping. *)
Lemma retain_full n keep l : zlen l <= zlen (retain_but (S n) keep l) -> Forall (fun e => keep e = true) l.
Proof.
  revert n. induction l as [| e l IH]; intros n; cbn [retain_but]; [constructor |].
  destruct (keep e) eqn:Ek; rewrite ?zlen_cons; intros H.
  - constructor; [done |]. apply (IH n). lia.
  - pose proof (sublist_length _ _ (retain_sublist n keep l)). unfold zlen in *. lia.
Qed.

Lemma push_tail_spec t e : zlen t <= MAX_TAIL ->
  exists t', push_tail t e = t' ++ [e] /\ t' `sublist_of` t /\ zlen t' < MAX_TAIL /\
    (filter (fun e => is_error e = true) t' = filter (fun e => is_error e = true) t \/
     (zlen t = MAX_TAIL /\ Forall (fun e => is_error e = true) t)).
Proof.
  intros Ht. unfold push_tail. destruct (Z.leb_spec MAX_TAIL (zlen t)) as [Hf | Hf]; [| exists t; split_and!; auto].
  assert (Ht4 : zlen t = 400) by (unfold MAX_TAIL in *; lia).
  set (keep1 := fun e => is_warn e || is_error e). set (t1 := retain_but 50 keep1 t).
  pose proof (retain_sublist 50 keep1 t : t1 `sublist_of` t) as Hs1. pose proof (sublist_length _ _ Hs1) as Hl1.
  assert (Hk : filter (fun e => is_error e = true) t1 = filter (fun e => is_error e = true) t).
  { unfold t1. assert (He : forall l : list bytes, filter (fun e => is_error e = true) (filter (fun e => keep1 e = true) l) = filter (fun e => is_error e = true) l).
    { intros l. apply list_filter_filter_l. intros x Hx. unfold keep1. rewrite Hx. apply orb_true_r. }
    by rewrite <- (He (retain_but 50 keep1 t)), retain_keeps, He. }
  destruct (Z.leb_spec MAX_TAIL (zlen t1)) as [H1 | H1].
  2: { rewrite (proj2 (Z.leb_gt _ _)) by done. exists t1. split_and!; auto. }
  set (t2 := retain_but 50 is_error t1). pose proof (retain_sublist 50 is_error t1 : t2 `sublist_of` t1) as Hs2.
  destruct (Z.leb_spec MAX_TAIL (zlen t2)) as [H2 | H2].
  2: { exists t2. split_and!; [done | by etrans | done |]. left. unfold t2. by rewrite retain_keeps. }
  assert (Hall : Forall (fun e => is_error e = true) t1).
  { apply (retain_full 49). unfold t2, MAX_TAIL, zlen in *. lia. }
  exists (zdrop 50 t2). split_and!; [done | | |].
  - etrans; [apply sublist_drop |]. by etrans.
  - pose proof (sublist_length _ _ Hs2). unfold MAX_TAIL in *. rewrite zlen_drop by lia. unfold zlen in *. lia.
  - right. split; [done |]. replace t with t1; [done |].
    assert (Heq : length t1 = length t) by (unfold zlen, MAX_TAIL in *; lia).
    clear -Hs1 Heq. by apply sublist_length_eq || (revert Heq; induction Hs1 as [| x l1 l2 Hs IH | x l1 l2 Hs IH]; cbn; intros Heq;
      [done | f_equal; apply IH; lia | apply sublist_length in Hs; lia]).
Qed.

(** ** The files *)

Lemma rename_lookup d a b i : a <> b -> d !! b = None ->
  rename d a b !! i = if decide (i = b) then d !! a else if decide (i = a) then None else d !! i.
Proof.
  intros Hab Hb. unfold rename. destruct (d !! a) as [c |] eqn:Ea.
  - destruct (decide (i = b)) as [-> | Hib]; [by rewrite lookup_insert_eq |]. rewrite lookup_insert_ne by done.
    destruct (decide (i = a)) as [-> | Hia]; [by rewrite lookup_delete_eq | by rewrite lookup_delete_ne].
  - destruct (decide (i = b)) as [-> |]; [done |]. destruct (decide (i = a)) as [-> |]; done.
Qed.

Lemma shift_lookup n : forall d i, d !! (Z.of_nat n + 1) = None ->
  shift_files n d !! i =
  if decide (2 <= i <= Z.of_nat n + 1) then d !! (i - 1) else if decide (i = 1) then None else d !! i.
Proof.
  induction n as [| n IH]; intros d i Hn; cbn [shift_files].
  - destruct (decide (2 <= i <= Z.of_nat 0 + 1)); [lia |]. destruct (decide (i = 1)) as [-> |]; [exact Hn | done].
  - rewrite IH; [| rewrite rename_lookup by (lia || exact Hn)].
    + rewrite !rename_lookup by (lia || exact Hn).
      repeat case_decide; try lia; try done; by f_equal; lia.
    + repeat case_decide; try lia; done.
Qed.

(** The journal's directory holds exactly the files of the segments. *)
Definition line (e : bytes) : bytes := e ++ [10].
Definition text (es : list bytes) : bytes := concat (line <$> es).

Record on_disk (j : JournalInner) (d : Disk) (segs : list (list bytes)) : Prop := {
  od_dir : dir j = true;
  od_file : file j = true;
  od_segs : zlen segs = max_files j;
  od_max : 1 <= max_files j;
  od_content : forall i, 0 <= i < max_files j -> content d i = text (default [] (index segs i));
  od_bound : forall i, is_Some (d !! i) -> 0 <= i < max_files j;
  od_len : file_len j = zlen (content d 0)
}.

Lemma text_app a b : text (a ++ b) = text a ++ text b.
Proof. unfold text. by rewrite fmap_app, concat_app. Qed.

Lemma text_one e : text [e] = line e.
Proof. unfold text. cbn. apply app_nil_r. Qed.

Lemma index_removelast {A} (l : list A) x i : 0 <= i < zlen l -> index (x :: removelast l) i = if i =? 0 then Some x else index l (i - 1).
Proof.
  intros Hi. destruct (Z.eqb_spec i 0) as [-> | Hne]; [done |]. rewrite index_cons by lia.
  destruct l as [| y l _] using rev_ind; [change (zlen (@nil A)) with 0 in Hi; lia |]. rewrite removelast_last, index_app_l; [done |].
  rewrite zlen_app, zlen_cons in Hi. change (zlen (@nil A)) with 0 in Hi. lia.
Qed.

Lemma zlen_removelast {A} (l : list A) x : l <> [] -> zlen (x :: removelast l) = zlen l.
Proof.
  intros Hl. destruct l as [| y l _] using rev_ind; [done |]. rewrite removelast_last, zlen_cons, zlen_app. change (zlen [y]) with 1. lia.
Qed.

(** A rotation: every file moves up by one, the oldest is gone. *)
Lemma rotate_spec j d segs : on_disk j d segs ->
  let '(j', d') := rotate_if_needed j d in
  if file_len j <? max_file_bytes j then j' = j /\ d' = d
  else j' = set_file j 0 None /\ on_disk j' d' ([] :: removelast segs).
Proof.
  intros [Hd Hf Hs Hm Hc Hb Hl]. unfold rotate_if_needed. rewrite Hf, Hd. cbn [negb orb].
  destruct (file_len j <? max_file_bytes j); [done |]. split; [done |].
  assert (Hne : segs <> []) by (intros ->; change (zlen (@nil (list bytes))) with 0 in Hs; lia).
  set (d1 := if max_files j =? 1 then _ else _).
  assert (H1 : forall i, d1 !! i = if decide (1 <= i < max_files j) then d !! (i - 1) else None).
  { intros i. unfold d1. destruct (Z.eqb_spec (max_files j) 1) as [E1 | E1].
    - rewrite decide_False by lia. destruct (decide (i = 0)) as [-> | Hi]; [by rewrite lookup_delete_eq |].
      rewrite lookup_delete_ne by done. destruct (d !! i) eqn:E; [| done]. specialize (Hb i ltac:(eauto)). lia.
    - set (dd := delete (max_files j - 1) d).
      assert (Hdd : dd !! (Z.of_nat (Z.to_nat (max_files j - 2)) + 1) = None).
      { replace (Z.of_nat (Z.to_nat (max_files j - 2)) + 1) with (max_files j - 1) by lia. unfold dd. by rewrite lookup_delete_eq. }
      assert (Hsh : forall i, shift_files (Z.to_nat (max_files j - 2)) dd !! i =
        if decide (2 <= i <= max_files j - 1) then dd !! (i - 1) else if decide (i = 1) then None else dd !! i).
      { intros k. rewrite shift_lookup by done. by replace (Z.of_nat (Z.to_nat (max_files j - 2)) + 1) with (max_files j - 1) by lia. }
      rewrite rename_lookup; [| done | by rewrite Hsh].
      assert (Hdel : forall k, k <> max_files j - 1 -> dd !! k = d !! k) by (intros k Hk; unfold dd; by apply lookup_delete_ne).
      rewrite !Hsh. repeat case_decide; try lia; try done.
      + subst i. rewrite Hdel by lia. done.
      + rewrite Hdel by lia. done.
      + destruct (decide (i = max_files j - 1)) as [-> | ?]; [unfold dd; by rewrite lookup_delete_eq |]. rewrite Hdel by done.
        destruct (d !! i) eqn:E; [| done]. specialize (Hb i ltac:(eauto)). lia. }
  constructor; cbn [set_file dir file file_len max_files]; try done.
  - by rewrite zlen_removelast.
  - intros i Hi. rewrite index_removelast by lia. unfold content at 1. destruct (Z.eqb_spec i 0) as [-> | Hne0].
    + rewrite lookup_insert_eq. unfold content. rewrite H1. done.
    + rewrite lookup_insert_ne by done. rewrite H1, decide_True by lia. apply (Hc (i - 1)). lia.
  - intros i. destruct (decide (i = 0)) as [-> | Hi]; [lia |]. rewrite lookup_insert_ne, H1 by done.
    case_decide; [lia | by intros [? ?]].
  - unfold content at 1. rewrite lookup_insert_eq. unfold content. by rewrite H1.
Qed.

Lemma write_at_end c e : write_at c (zlen c) e = c ++ e.
Proof.
  unfold write_at. rewrite Z.sub_diag. cbn [Z.to_nat replicate]. rewrite app_nil_r, ztake_ge by lia.
  unfold zdrop. rewrite drop_ge, app_nil_r; [done |]. unfold zlen. lia.
Qed.

Lemma on_disk_write j d s0 segs e off : on_disk j d (s0 :: segs) ->
  on_disk (set_file j (file_len j + zlen (line e)) off) (<[0 := write_at (content d 0) (file_len j) (line e)]> d) ((s0 ++ [e]) :: segs).
Proof.
  intros [Hd Hf Hs Hm Hc Hb Hl]. rewrite Hl, write_at_end. pose proof (Hc 0 ltac:(lia)) as H0. rewrite index_0 in H0. cbn [from_option id] in H0.
  constructor; cbn [set_file dir file file_len max_files]; try done.
  - intros i Hi. unfold content at 1. destruct (decide (i = 0)) as [-> | Hne].
    + rewrite lookup_insert_eq, index_0. cbn [from_option id]. by rewrite H0, text_app, text_one.
    + rewrite lookup_insert_ne, index_cons by lia. rewrite <- (index_cons s0) by lia. by apply Hc.
  - intros i. destruct (decide (i = 0)) as [-> | Hi]; [lia |]. rewrite lookup_insert_ne by done. apply Hb.
  - unfold content at 2. rewrite lookup_insert_eq. cbn [from_option id]. by rewrite zlen_app.
Qed.

Lemma on_disk_rewrite j d s0 last segs e : on_disk j d ((s0 ++ [last]) :: segs) ->
  on_disk (set_file j (zlen (text s0) + zlen (line e)) (Some (zlen (text s0))))
    (<[0 := write_at (ztake (zlen (text s0)) (content d 0)) (zlen (text s0)) (line e)]> d) ((s0 ++ [e]) :: segs).
Proof.
  intros [Hd Hf Hs Hm Hc Hb Hl]. pose proof (Hc 0 ltac:(lia)) as H0. cbn [from_option id] in H0. rewrite index_0 in H0. cbn [from_option id] in H0.
  rewrite H0, text_app, ztake_app, write_at_end by done.
  constructor; cbn [set_file dir file file_len max_files]; try done.
  - intros i Hi. unfold content. destruct (decide (i = 0)) as [-> | Hne].
    + rewrite lookup_insert_eq. rewrite index_0. cbn [from_option id]. by rewrite text_app, text_one.
    + rewrite lookup_insert_ne, index_cons by lia. rewrite <- (index_cons (s0 ++ [last])) by lia. by apply Hc.
  - intros i. destruct (decide (i = 0)) as [-> | Hi]; [lia |]. rewrite lookup_insert_ne by done. apply Hb.
  - unfold content. rewrite lookup_insert_eq. cbn [from_option id]. by rewrite zlen_app.
Qed.

(** ** The journal as a list of counted lines

    Equal lines in a row become one with their number. *)
Definition fold_line (log : list (bytes * Z)) (e : bytes) : list (bytes * Z) :=
  match list.last log with
  | Some (c, n) => if bool_decide (c = e) then removelast log ++ [(c, n + 1)] else log ++ [(e, 1)]
  | None => [(e, 1)]
  end.

Definition render (r : bytes * Z) : bytes := if r.2 =? 1 then r.1 else with_count r.1 r.2.

(** An entry that does not itself end in a count. *)
Definition plain (e : bytes) : Prop := split_count_suffix e = (e, 1) /\ utf8_valid e = true.

Lemma split_render c n : plain c -> 1 <= n <= U64_MAX -> split_count_suffix (render (c, n)) = (c, n).
Proof.
  intros [Hc _] Hn. unfold render. cbn [fst snd]. destruct (Z.eqb_spec n 1) as [-> |]; [done |]. apply split_with_count. lia.
Qed.

Lemma render_utf8 c n : plain c -> utf8_valid (render (c, n)) = true.
Proof.
  intros [_ Hc]. unfold render. cbn [fst snd]. case_cmp; [done |]. unfold with_count.
  by rewrite utf8_valid_app, utf8_valid_app, utf8_valid_app by (done || apply utf8_digits).
Qed.

(** The files hold the lines, but for the oldest; what is gone is gone only once
    every old file is full. *)
Record filed (j : JournalInner) (d : Disk) (lines lost : list bytes) (segs : list (list bytes)) : Prop := {
  fl_disk : on_disk j d segs;
  fl_all : lines = lost ++ concat (rev segs);
  fl_full : exists s0 full m, segs = s0 :: full ++ replicate m [] /\
    Forall (fun seg => max_file_bytes j <= zlen (text seg)) full /\ (lost <> [] -> m = 0%nat)
}.

Record logged (j : JournalInner) (d : Disk) (log : list (bytes * Z)) (count : Z) (lost : list bytes) (segs : list (list bytes)) : Prop := {
  lg_filed : filed j d (render <$> log) lost segs;
  lg_count : 0 <= count;
  lg_rows : Forall (fun r => plain r.1 /\ 1 <= r.2 <= count) log;
  lg_tail : tail j `sublist_of` (render <$> log) /\ zlen (tail j) <= MAX_TAIL /\ list.last (tail j) = list.last (render <$> log);
  lg_off : log = [] \/ exists s0 r rest, segs = (s0 ++ [r]) :: rest /\ list.last (render <$> log) = Some r /\
    last_line_offset j = Some (zlen (text s0))
}.

Lemma filed_rotate j d ls lost segs : filed j d ls lost segs ->
  let '(j', d') := rotate_if_needed j d in
  exists lost' segs' off, j' = set_file j (file_len j') off /\ filed j' d' ls lost' segs'.
Proof.
  intros [Hd Ha (s0 & full & m & Es & Hf & Hm)]. pose proof (rotate_spec j d segs Hd) as Hr.
  pose proof (od_content _ _ _ Hd 0) as Hc. pose proof (od_max _ _ _ Hd). pose proof (od_len _ _ _ Hd) as Hl.
  specialize (Hc ltac:(lia)). rewrite Es, index_0 in Hc. cbn [from_option id] in Hc.
  destruct (rotate_if_needed j d) as [j' d']. destruct (Z.ltb_spec (file_len j) (max_file_bytes j)) as [Hlt | Hge].
  { destruct Hr as [-> ->]. exists lost, segs, (last_line_offset j). split; [by destruct j |]. constructor; eauto 10. }
  destruct Hr as [Ej Hd']. assert (Hbig : max_file_bytes j <= zlen (text s0)) by (rewrite <- Hc, <- Hl; done).
  destruct segs as [| x segs0 _] using rev_ind; [done |]. rewrite removelast_last in Hd'.
  exists (lost ++ x), ([] :: segs0), None. split; [by rewrite Ej |]. constructor; [done | |].
  - rewrite Ha, rev_app_distr. cbn [rev app concat]. rewrite concat_app. cbn [concat]. by rewrite app_nil_r, <- app_assoc.
  - assert (Emx : max_file_bytes j' = max_file_bytes j) by (by rewrite Ej). rewrite Emx. destruct m as [| m].
    + rewrite app_nil_r in Es. exists [], segs0, 0%nat. rewrite app_nil_r. split_and!; [done | | done].
      destruct segs0 as [| y segs0]; [constructor |]. injection Es as -> Es. assert (Hf' : Forall (fun seg => max_file_bytes j <= zlen (text seg)) (segs0 ++ [x])) by (by rewrite Es).
      apply Forall_app in Hf' as [Hf' _]. by constructor.
    + exists [], (s0 :: full), m. change (S m) with (m + 1)%nat in Es || replace (S m) with (m + 1)%nat in Es by lia.
      rewrite replicate_add in Es. cbn [replicate] in Es. rewrite app_assoc, app_comm_cons in Es. apply app_inj_tail in Es as [-> ->].
      split_and!; [done | by constructor |]. intros Hlost. rewrite app_nil_r in Hlost. specialize (Hm Hlost). lia.
Qed.

Lemma filed_tail j d ls lost segs t : filed j d ls lost segs -> filed (set_tail j t) d ls lost segs.
Proof. intros [[] ? ?]. by constructor. Qed.

(** A line at the end of the newest file. *)
Lemma write_line_spec j d ls lost segs e : filed j d ls lost segs ->
  let '(j', d') := write_line j d e in
  exists lost' s0 rest, filed j' d' (ls ++ [e]) lost' ((s0 ++ [e]) :: rest) /\ tail j' = tail j /\
    last_line_offset j' = Some (zlen (text s0)).
Proof.
  intros Hf. unfold write_line. rewrite (od_file _ _ _ (fl_disk _ _ _ _ _ Hf)). cbn [negb].
  pose proof (filed_rotate j d ls lost segs Hf) as Hr. destruct (rotate_if_needed j d) as [j1 d1].
  destruct Hr as (lost' & segs' & off & Ej & [Hd Ha (s0 & full & m & -> & Hfull & Hm)]).
  pose proof (od_max _ _ _ Hd). pose proof (od_content _ _ _ Hd 0 ltac:(lia)) as Hc. rewrite index_0 in Hc. cbn [from_option id] in Hc.
  exists lost', s0, (full ++ replicate m []). split; [| split].
  - constructor.
    + by apply on_disk_write.
    + rewrite Ha. cbn [rev]. rewrite !concat_app. cbn [concat]. by rewrite !app_nil_r, <- !app_assoc.
    + exists (s0 ++ [e]), full, m. by split_and!.
  - by rewrite Ej.
  - cbn [set_file last_line_offset]. by rewrite (od_len _ _ _ Hd), Hc.
Qed.

Lemma rows_later log count : Forall (fun r => plain r.1 /\ 1 <= r.2 <= count) log -> Forall (fun r => plain r.1 /\ 1 <= r.2 <= count + 1) log.
Proof. intros H. eapply Forall_impl; [exact H |]. cbn. intros r [? ?]. split; [done | lia]. Qed.

(** A new line. *)
Lemma push_spec j d log count lost segs e :
  logged j d log count lost segs -> plain e ->
  let '(j', d') := write_line (set_tail j (push_tail (tail j) e)) d e in
  exists lost' segs', logged j' d' (log ++ [(e, 1)]) (count + 1) lost' segs'.
Proof.
  intros [Hf Hc Hr (Hts & Htl & _) _] He. destruct (push_tail_spec (tail j) e Htl) as (t' & Et & Hs & Hl & _).
  pose proof (write_line_spec _ d _ _ _ e (filed_tail j d _ _ _ (push_tail (tail j) e) Hf)) as Hw.
  destruct (write_line _ d e) as [j' d']. destruct Hw as (lost' & s0 & rest & Hf' & Et' & Ho).
  assert (Em : render <$> (log ++ [(e, 1)]) = (render <$> log) ++ [e]) by (by rewrite fmap_app).
  cbn [tail set_tail] in Et'. exists lost', ((s0 ++ [e]) :: rest). constructor; rewrite ?Em, ?Et', ?Et.
  - done.
  - lia.
  - apply Forall_app. split; [by apply rows_later |]. repeat constructor; cbn; try apply He; lia.
  - split_and!; [| rewrite zlen_app; change (zlen [e]) with 1; unfold MAX_TAIL in *; lia | by rewrite !list.last_snoc].
    apply sublist_app; [by etrans | done].
  - right. exists s0, e, rest. by rewrite list.last_snoc.
Qed.

(** One more of the last line. *)
Lemma fold_spec j d log c n count lost segs :
  logged j d (log ++ [(c, n)]) count lost segs -> plain c -> 1 <= n <= count -> count + 1 <= U64_MAX ->
  let merged := with_count c (u64 (n + 1)) in
  let '(j', d') := rewrite_last_line (set_tail j (removelast (tail j) ++ [merged])) d merged in
  exists lost' segs', logged j' d' (log ++ [(c, n + 1)]) (count + 1) lost' segs'.
Proof.
  intros [Hf Hcnt Hr (Hts & Htl & Hlast) Hoff] Hc Hn Hmax merged.
  assert (Em : merged = render (c, n + 1)).
  { unfold merged, render, u64. cbn [fst snd]. destruct (Z.eqb_spec (n + 1) 1); [lia |].
    rewrite Z.mod_small; [done |]. unfold U64_MAX in Hmax. lia. }
  clearbody merged. rewrite fmap_app in *. cbn [fmap list_fmap] in *. rewrite list.last_snoc in *.
  destruct Hoff as [Hnil | (s0 & r & rest & -> & [= <-] & Ho)]; [by destruct log |].
  unfold rewrite_last_line. pose proof Hf as [Hd Ha (x & full & m & [= <- Er] & Hfull & Hm)].
  cbn [file last_line_offset set_tail]. rewrite (od_file _ _ _ Hd), Ho.
  destruct (tail j) as [| y t _] using rev_ind; [by rewrite last_nil in Hlast |]. rewrite list.last_snoc in Hlast. injection Hlast as ->.
  rewrite removelast_last. exists lost, ((s0 ++ [merged]) :: rest).
  cbn [rev] in Ha. rewrite concat_app in Ha. cbn [concat] in Ha. rewrite app_nil_r, !app_assoc in Ha. apply app_inj_tail in Ha as [Ha _].
  constructor; rewrite ?fmap_app; cbn [fmap list_fmap]; rewrite <- ?Em.
  - constructor.
    + change (last_line_offset (set_tail j (t ++ [merged]))) with (last_line_offset j).
      apply (on_disk_rewrite (set_tail j (t ++ [merged])) d s0 (render (c, n)) rest merged). destruct Hd. by constructor.
    + cbn [rev]. rewrite concat_app. cbn [concat]. rewrite app_nil_r, !app_assoc. by rewrite <- Ha.
    + exists (s0 ++ [merged]), full, m. rewrite <- Er. by split_and!.
  - lia.
  - apply Forall_app in Hr as [Hr _]. apply Forall_app. split; [by apply rows_later |]. repeat constructor; cbn; try apply Hc; lia.
  - cbn [tail set_file set_tail]. rewrite !list.last_snoc. split_and!; [| rewrite zlen_app in *; done | done].
    apply sublist_app; [| done]. by apply sublist_app_inv_r in Hts.
  - right. exists s0, merged, rest. by rewrite list.last_snoc.
Qed.

Lemma append_spec j d log count lost segs e :
  logged j d log count lost segs -> plain e -> count + 1 <= U64_MAX ->
  let '(j', d') := append_entry e j d in
  exists lost' segs', logged j' d' (fold_line log e) (count + 1) lost' segs'.
Proof.
  intros Hl He Hmax. pose proof Hl as [Hf Hcnt Hr (Hts & Htl & Hlast) Hoff]. unfold append_entry, fold_line. rewrite Hlast.
  destruct log as [| [c n] log _] using rev_ind.
  - cbn [fmap list_fmap list.last]. by apply (push_spec j d [] count lost segs).
  - rewrite fmap_app. cbn [fmap list_fmap]. rewrite !list.last_snoc, removelast_last.
    apply Forall_app in Hr as [Hr [[Hc Hn] _]%Forall_cons]. cbn [fst snd] in Hc, Hn.
    rewrite split_render by (done || lia). destruct He as [He Hu]. rewrite He. case_bool_decide as Ece.
    + by apply (fold_spec j d log c n count lost segs).
    + by apply (push_spec j d (log ++ [(c, n)]) count lost segs).
Qed.

Lemma open_empty size files :
  let '(j, d) := Journal_open size files ∅ in
  logged j d [] 0 [] (replicate (Z.to_nat (Z.max files 1)) []) /\ max_file_bytes j = Z.max size 4096 /\ max_files j = Z.max files 1.
Proof.
  unfold Journal_open, load_from_disk. cbn [dir set_open set_limits negb].
  change (content ∅ 0) with (@nil Z). cbn [utf8_valid]. rewrite bool_decide_eq_true_2 by done. cbn [negb andb].
  change (str_lines []) with (@nil bytes). change (zlen (@nil bytes) <? MAX_TAIL) with true.
  unfold rotate_if_needed. cbn [file dir set_open set_file set_tail file_len max_file_bytes negb orb].
  change (zlen (@nil Z)) with 0. rewrite (proj2 (Z.ltb_lt _ _)) by (cbn; lia).
  rewrite lookup_insert_ne, lookup_empty by done. cbn [app].
  split; [| done]. destruct (Z.to_nat (Z.max files 1)) as [| n] eqn:En; [lia |].
  constructor; cbn [fmap list_fmap].
  - constructor.
    + constructor; cbn [set_file set_open set_tail set_limits dir file max_files file_len]; try done.
      * unfold zlen. rewrite length_replicate. lia.
      * lia.
      * intros i Hi. unfold content. assert (E : default [] (index (replicate (S n) ([] : list bytes)) i) = []).
        { destruct (index (replicate (S n) []) i) as [x |] eqn:Ex; [| done]. unfold index in Ex. case_decide; [| done].
          by apply lookup_replicate in Ex as [-> _]. }
        rewrite E. destruct (decide (i = 0)) as [-> |]; [by rewrite lookup_insert_eq | by rewrite lookup_insert_ne, lookup_empty].
      * intros i. destruct (decide (i = 0)) as [-> | Hi]; [lia |]. rewrite lookup_insert_ne, lookup_empty by done. by intros [? ?].
    + cbn [app]. clear. induction (S n) as [| k IH]; [done |]. cbn [replicate rev]. by rewrite concat_app, <- IH.
    + exists [], [], n. by split_and!.
  - done.
  - constructor.
  - done.
  - by left.
Qed.

(** ** What the counts stand for *)

Definition expand (log : list (bytes * Z)) : list bytes := concat ((fun r => replicate (Z.to_nat r.2) r.1) <$> log).

Lemma fold_line_expand log e : Forall (fun r => 0 <= r.2) log -> expand (fold_line log e) = expand log ++ [e].
Proof.
  intros Hl. unfold fold_line, expand. destruct log as [| [c n] log _] using rev_ind; [done |].
  rewrite list.last_snoc, removelast_last. apply Forall_app in Hl as [_ [Hn _]%Forall_cons]. cbn [snd] in Hn. case_bool_decide as E.
  - subst e. rewrite !fmap_app, !concat_app, <- app_assoc. f_equal. cbn [fmap list_fmap concat fst snd]. rewrite !app_nil_r.
    replace (Z.to_nat (n + 1)) with (Z.to_nat n + 1)%nat by lia. by rewrite replicate_add.
  - by rewrite fmap_app, concat_app.
Qed.

(** No two neighbours are equal. *)
Definition folded (log : list (bytes * Z)) : Prop := forall i r r', log !! i = Some r -> log !! S i = Some r' -> r.1 <> r'.1.

Lemma fold_line_folded log e : folded log -> folded (fold_line log e).
Proof.
  intros Hf. unfold fold_line. destruct log as [| [c n] log _] using rev_ind; [by intros [| i] r r' |].
  rewrite list.last_snoc, removelast_last. case_bool_decide as E; intros i r r' Hi Hi'.
  - destruct (decide (S i = length log)) as [Ei | Ei].
    + rewrite lookup_app_l in Hi by lia. rewrite lookup_app_r, Ei, Nat.sub_diag in Hi' by lia. injection Hi' as <-. cbn [fst].
      apply (Hf i r (c, n)); [by rewrite lookup_app_l by lia |]. by rewrite lookup_app_r, Ei, Nat.sub_diag by lia.
    + pose proof (lookup_lt_Some _ _ _ Hi') as Hlt. rewrite length_app in Hlt. cbn in Hlt.
      rewrite lookup_app_l in Hi, Hi' by lia. apply (Hf i r r'); by rewrite lookup_app_l by lia.
  - destruct (decide (S i = length (log ++ [(c, n)]))) as [Ei | Ei].
    + rewrite length_app in Ei. cbn in Ei. rewrite lookup_app_l in Hi by (rewrite length_app; cbn; lia).
      assert (i = length log) as -> by lia. rewrite lookup_app_r, Nat.sub_diag in Hi by lia. injection Hi as <-.
      rewrite lookup_app_r in Hi' by (rewrite length_app; cbn; lia). rewrite length_app in Hi'. cbn in Hi'.
      replace (S (length log) - (length log + 1))%nat with 0%nat in Hi' by lia. by injection Hi' as <-.
    + pose proof (lookup_lt_Some _ _ _ Hi') as Hlt. rewrite length_app in Hlt. cbn in Hlt.
      rewrite lookup_app_l in Hi, Hi' by lia. by apply (Hf i r r').
Qed.

Lemma append_limits e j d : let '(j', _) := append_entry e j d in max_file_bytes j' = max_file_bytes j /\ max_files j' = max_files j.
Proof.
  assert (Hr : forall j d, max_file_bytes (rotate_if_needed j d).1 = max_file_bytes j /\ max_files (rotate_if_needed j d).1 = max_files j).
  { clear. intros j d. unfold rotate_if_needed. destruct (_ || _); [done |]. by destruct (negb (dir j)). }
  assert (Hw : forall j d, max_file_bytes (write_line j d e).1 = max_file_bytes j /\ max_files (write_line j d e).1 = max_files j).
  { clear -Hr. intros j d. unfold write_line. destruct (negb (file j)); [done |]. specialize (Hr j d).
    destruct (rotate_if_needed j d) as [j1 d1]. exact Hr. }
  assert (Hl : forall j d m, max_file_bytes (rewrite_last_line j d m).1 = max_file_bytes j /\ max_files (rewrite_last_line j d m).1 = max_files j).
  { clear. intros j d m. unfold rewrite_last_line. destruct (file j); [| done]. by destruct (last_line_offset j). }
  unfold append_entry. specialize (Hw (set_tail j (push_tail (tail j) e)) d).
  destruct (list.last (tail j)) as [l |]; [| by destruct (write_line _ _ _)].
  destruct (split_count_suffix l) as [lc n], (split_count_suffix e) as [nc n']. case_bool_decide; [| by destruct (write_line _ _ _)].
  specialize (Hl (set_tail j (removelast (tail j) ++ [with_count lc (u64 (n + 1))])) d (with_count lc (u64 (n + 1)))).
  by destruct (rewrite_last_line _ _ _).
Qed.

Lemma text_utf8 ls : Forall (fun e => utf8_valid e = true) ls -> utf8_valid (text ls) = true.
Proof.
  intros H. unfold text. apply utf8_concat. rewrite Forall_fmap. eapply Forall_impl; [exact H |].
  intros e He. cbn. unfold line. by rewrite utf8_valid_app.
Qed.

Lemma dump_old_text d segs : Forall (fun seg => Forall (fun e => utf8_valid e = true) seg) segs ->
  (forall i, 0 <= i < zlen segs -> content d i = text (default [] (index segs i))) ->
  forall n, Z.of_nat n < zlen segs -> dump_old n d ++ content d 0 = text (concat (rev (take (S n) segs))).
Proof.
  intros Hu Hc. induction n as [| n IH]; intros Hn.
  - cbn [dump_old app]. rewrite Hc by lia. destruct segs as [| s segs]; [change (zlen (@nil (list bytes))) with 0 in Hn; lia |].
    rewrite index_0. change (concat (rev (take 1 (s :: segs)))) with (s ++ []). by rewrite app_nil_r.
  - specialize (IH ltac:(lia)). destruct (lookup_lt_is_Some_2 segs (S n)) as [seg Hseg]; [unfold zlen in Hn; lia |].
    rewrite (take_S_r _ _ _ Hseg), rev_app_distr. cbn [rev app concat]. rewrite text_app, <- IH. cbn [dump_old]. rewrite <- app_assoc. f_equal.
    specialize (Hc (Z.of_nat (S n)) ltac:(lia)). unfold content, index in Hc. rewrite decide_True, Nat2Z.id, Hseg in Hc by lia. cbn [from_option id] in Hc.
    assert (Hv : utf8_valid (text seg) = true) by (apply text_utf8; rewrite Forall_forall in Hu; apply Hu; by eapply list_elem_of_lookup_2).
    destruct (d !! Z.of_nat (S n)) as [c |]; cbn [from_option id] in Hc; [by rewrite Hc, Hv | done].
Qed.

Lemma dump_text j d ls lost segs : filed j d ls lost segs -> Forall (fun e => utf8_valid e = true) ls -> dump j d = text (concat (rev segs)).
Proof.
  intros [[Hd Hf Hs Hm Hc Hb Hl] Ha _] Hu. unfold dump. rewrite Hd. cbn [negb].
  assert (Hus : Forall (fun seg => Forall (fun e => utf8_valid e = true) seg) segs).
  { rewrite Ha in Hu. apply Forall_app in Hu as [_ Hu]. apply Forall_forall. intros seg Hin. apply Forall_forall. intros e He.
    rewrite Forall_forall in Hu. apply Hu. apply list_elem_of_In, in_concat. exists seg. split; [by apply in_rev; rewrite rev_involutive; apply list_elem_of_In | by apply list_elem_of_In]. }
  rewrite <- Hs in Hc. pose proof (dump_old_text d segs Hus Hc (Z.to_nat (max_files j - 1)) ltac:(lia)) as E.
  rewrite (take_ge segs) in E by (unfold zlen in Hs; lia). rewrite <- E. f_equal.
  specialize (Hc 0 ltac:(lia)). unfold content in *. destruct (d !! 0) as [c |]; [| done]. cbn [from_option id] in *.
  rewrite Hc, text_utf8; [done |]. destruct segs as [| s segs]; [constructor |]. rewrite index_0. cbn [from_option id].
  by apply Forall_cons in Hus as [? _].
Qed.

(** A run of the journal on one directory. *)
Definition append_all (es : list bytes) (p : JournalInner * Disk) : JournalInner * Disk :=
  foldl (fun p e => append_entry e p.1 p.2) p es.

Lemma append_all_spec es : forall j d log count lost segs,
  logged j d log count lost segs -> Forall plain es -> count + zlen es <= U64_MAX ->
  exists lost' segs', logged (append_all es (j, d)).1 (append_all es (j, d)).2 (foldl fold_line log es) (count + zlen es) lost' segs' /\
    expand (foldl fold_line log es) = expand log ++ es /\ (folded log -> folded (foldl fold_line log es)) /\
    max_file_bytes (append_all es (j, d)).1 = max_file_bytes j /\ max_files (append_all es (j, d)).1 = max_files j.
Proof.
  induction es as [| e es IH]; intros j d log count lost segs Hl Hes Hn.
  - change (zlen (@nil (list Z))) with 0. rewrite Z.add_0_r, app_nil_r. by exists lost, segs.
  - apply Forall_cons in Hes as [He Hes]. rewrite zlen_cons in *. pose proof (zlen_nonneg es).
    pose proof (append_spec j d log count lost segs e Hl He ltac:(lia)) as Ha. pose proof (append_limits e j d) as Hlim.
    unfold append_all. cbn [foldl fst snd]. destruct (append_entry e j d) as [j1 d1]. destruct Ha as (lost1 & segs1 & H1).
    destruct (IH j1 d1 _ _ _ _ H1 Hes ltac:(lia)) as (lost' & segs' & H2 & E & Hf & Hb & Hm). fold (append_all es (j1, d1)).
    exists lost', segs'. split_and!; [by rewrite (Z.add_assoc count 1) | | | lia | lia].
    + rewrite E, fold_line_expand; [by rewrite <- app_assoc |]. destruct Hl as [_ _ Hr _ _]. eapply Forall_impl; [exact Hr |]. cbn. lia.
    + intros Hfo. apply Hf. by apply fold_line_folded.
Qed.

(** nothing that was written is lost but the oldest. Whatever is appended to a
    new journal, as long as no entry itself ends in a count, the journal is the list
    of the entries with equal neighbours folded into one line with their number:
    the list expands to the entries in order and no two neighbours are equal. The
    tail has at most 400 of its lines in order and the last one. The export is its
    text without some of the oldest lines, and some are gone only if the old files
    that remain are full. *)
Theorem journal_log size files es :
  Forall plain es -> zlen es <= U64_MAX ->
  let '(j, d) := append_all es (Journal_open size files ∅) in
  let log := foldl fold_line [] es in
  expand log = es /\ folded log /\
  tail j `sublist_of` (render <$> log) /\ zlen (tail j) <= 400 /\ list.last (tail j) = list.last (render <$> log) /\
  exists lost kept, render <$> log = lost ++ kept /\ dump j d = text kept /\ (es <> [] -> kept <> []) /\
    (lost <> [] -> (Z.max files 1 - 1) * Z.max size 4096 <= zlen (dump j d)).
Proof.
  intros Hes Hn. pose proof (open_empty size files) as Ho. destruct (Journal_open size files ∅) as [j0 d0]. destruct Ho as (H0 & Hb0 & Hm0).
  destruct (append_all_spec es j0 d0 [] 0 [] _ H0 Hes ltac:(lia)) as (lost & segs & [Hf _ Hr (Hts & Htl & Hlast) Hoff] & Ex & Hfo & Hb & Hm).
  destruct (append_all es (j0, d0)) as [j d]. cbn [fst snd] in *. set (log := foldl fold_line [] es) in *.
  assert (Hu : Forall (fun e => utf8_valid e = true) (render <$> log)).
  { rewrite Forall_fmap. eapply Forall_impl; [exact Hr |]. intros [c n] [Hp _]. by apply render_utf8. }
  pose proof (dump_text j d _ lost segs Hf Hu) as Hd. pose proof Hf as [Hdisk Ha (s0 & full & m & Es & Hfull & Hm')].
  split_and!; [exact Ex | by apply Hfo; intros [| i] | done | done | done |].
  exists lost, (concat (rev segs)). split_and!; [done | done | |].
  - intros Hne. destruct Hoff as [E | (s1 & r & rest & Es1 & _)]; [by rewrite E in Ex |].
    rewrite Es1. cbn [rev]. rewrite concat_app. cbn [concat]. intros [_ [[_ ?]%app_eq_nil _]%app_eq_nil]%app_eq_nil. done.
  - intros Hlost. specialize (Hm' Hlost). subst m. cbn [replicate] in Es. rewrite app_nil_r in Es. rewrite Hd.
    pose proof (od_segs _ _ _ Hdisk) as Hs. rewrite Es, zlen_cons in Hs. rewrite Es. cbn [rev]. rewrite concat_app, text_app, zlen_app.
    assert (Hsum : zlen full * max_file_bytes j <= zlen (text (concat (rev full)))).
    { clear -Hfull. induction Hfull as [| seg full Hseg _ IH]; [done |]. cbn [rev]. rewrite concat_app, text_app, zlen_app, zlen_cons.
      cbn [concat]. rewrite app_nil_r. lia. }
    pose proof (zlen_nonneg (text (concat [s0]))). rewrite Hb, Hb0 in Hsum. rewrite Hm, Hm0 in Hs.
    replace (Z.max files 1 - 1) with (zlen full) by lia. lia.
Qed.

(** the date of a time stamp is the one of the Gregorian calendar: [n] days after
    the first of January 1970 the formula gives the day that counting the days one
    by one gives, with its month lengths and leap years, and its month and day are
    in range. *)
Theorem civil_is_calendar (n : nat) :
  civil (Z.of_nat n) = Nat.iter n next_day (1970, 1, 1) /\
  (let '(y, m, d) := civil (Z.of_nat n) in 1970 <= y /\ 1 <= m <= 12 /\ 1 <= d <= month_len y m).
Proof.
  assert (H : civil (Z.of_nat n) = Nat.iter n next_day (1970, 1, 1)).
  { induction n as [| n IH]; [done |]. replace (Z.of_nat (S n)) with (Z.of_nat n + 1) by lia. rewrite civil_next by lia. by rewrite IH. }
  split; [done |]. rewrite H. clear H. induction n as [| n IH]; [vm_compute; repeat split; discriminate |].
  change (Nat.iter (S n) next_day (1970, 1, 1)) with (next_day (Nat.iter n next_day (1970, 1, 1))).
  destruct (Nat.iter n next_day (1970, 1, 1)) as [[y m] d]. destruct IH as (Hy & Hm & Hd).
  assert (Hlen : forall y m, 28 <= month_len y m) by (intros; unfold month_len; repeat case_match; lia).
  unfold next_day. destruct (Z.ltb_spec d (month_len y m)); [split_and!; lia |].
  destruct (Z.ltb_spec m 12); pose proof (Hlen y (m + 1)); pose proof (Hlen (y + 1) 1); split_and!; lia.
Qed.

(** An error leaves the tail only when all of it are errors. *)
Theorem tail_keeps_errors t e : zlen t <= MAX_TAIL ->
  filter (fun e => is_error e = true) (push_tail t e) = filter (fun e => is_error e = true) (t ++ [e]) \/
  (zlen t = MAX_TAIL /\ Forall (fun e => is_error e = true) t).
Proof.
  intros Ht. destruct (push_tail_spec t e Ht) as (t' & -> & _ & _ & [E | H]); [left | by right]. by rewrite !filter_app, E.
Qed.

(** ** Witnesses *)

Definition ex_line (m : string) : bytes := journal_entry 1709164800 (str "WARN") (str "vpn") (str m).

Lemma journal_log_witness :
  let es := [ex_line "a"; ex_line "b"; ex_line "b"; ex_line "b"] in
  expand (foldl fold_line [] es) = es /\
  tail (append_all es (Journal_open 0 2 ∅)).1 =
    [str "2024-02-29 00:00:00  WARN [vpn] a"; str "2024-02-29 00:00:00  WARN [vpn] b (×3)"].
Proof.
  intros es. split; [| vm_compute; reflexivity].
  assert (Hp : Forall plain es).
  { repeat (apply Forall_cons; split; [split; vm_compute; reflexivity |]). by apply Forall_nil. }
  pose proof (journal_log 0 2 es Hp ltac:(vm_compute; discriminate)) as H.
  destruct (append_all es (Journal_open 0 2 ∅)) as [j d]. exact (proj1 H).
Defined.

(** A journal whose file is full when it is opened rotates at once: the last line is
    still that of the tail, but no longer that of the file, and a repetition of it
    is counted in memory only. *)
Definition ex_full : Disk :=
  {[ 0 := text (replicate 200 (ex_line "x") ++ [ex_line "last"]) ]}.

Lemma reopened_repeat_uncounted :
  let '(j, d) := append_entry (ex_line "last") (Journal_open 0 2 ex_full).1 (Journal_open 0 2 ex_full).2 in
  list.last (tail j) = Some (with_count (ex_line "last") 2) /\ dump j d = text (replicate 200 (ex_line "x") ++ [ex_line "last"]).
Proof. vm_compute. done. Qed.
