(* ===== verification/Presets.v ===== *)
(** * Presets: the hub's store and its waiting route, the client's cache and watch
      loop (xr-proto/src/preset.rs, xr-hub/src/api/presets.rs, signing.rs, storage.rs,
      xr-core/src/presets.rs)

    A preset is a named, versioned routing configuration. The hub keeps the presets in
    memory and on disk and counts every change in a generation; a waiting request
    subscribes to the generation, compares versions under the lock and sleeps until the
    generation moves or its deadline passes. The client caches one preset in memory and
    in a file and runs the watch loop that asks, waits and falls back to polling.
    serde's JSON is an interface; the answers of the disk and of HTTP are arguments. *)

From S2P Require Import Prelude Text Order UserRule Share Hub.

(** ** Data *)

Record Preset := {
  p_name : bytes; p_version : Z; p_updated_at : bytes; p_description : bytes; p_rules : RoutingConfig;
  p_signature : option bytes
}.

#[global] Instance RoutingRule_eq_dec : EqDecision RoutingRule.
Proof. solve_decision. Defined.
#[global] Instance RoutingConfig_eq_dec : EqDecision RoutingConfig.
Proof. solve_decision. Defined.
#[global] Instance Preset_eq_dec : EqDecision Preset.
Proof. solve_decision. Defined.

Record PresetSummary := { sm_name : bytes; sm_version : Z; sm_updated_at : bytes; sm_rules_count : Z }.

Definition Preset_summary (p : Preset) : PresetSummary :=
  {| sm_name := p_name p; sm_version := p_version p; sm_updated_at := p_updated_at p; sm_rules_count := zlen (rc_rules (p_rules p)) |}.

(** ** Signatures *)

(** The declaration order of the fields is the order of the bytes. *)
Record CanonicalPreset := {
  cp_description : bytes; cp_name : bytes; cp_rules : RoutingConfig; cp_updated_at : bytes; cp_version : Z
}.

(** [serde_json] on the two records: [to_vec] of the canonical form, [to_string_pretty]
    and [from_str] of a preset. A preset reads back as it was written, and JSON is text. *)
Class PresetJson := {
  canonical_to_vec : CanonicalPreset -> bytes;
  canonical_inj c d : canonical_to_vec c = canonical_to_vec d -> c = d;
  print_preset : Preset -> bytes;
  parse_preset : bytes -> option Preset;
  parse_print p : parse_preset (print_preset p) = Some p;
  print_utf8 p : utf8_valid (print_preset p) = true
}.

Section signing.
Context {B64 : Base64} {ED : Ed25519} {PJ : PresetJson}.

Definition canonical (p : Preset) : CanonicalPreset :=
  {| cp_description := p_description p; cp_name := p_name p; cp_rules := p_rules p; cp_updated_at := p_updated_at p;
     cp_version := p_version p |}.

Definition canonical_json (p : Preset) : bytes := canonical_to_vec (canonical p).

Definition sign_preset (signing_key : bytes) (p : Preset) : bytes := b64_encode (ed_sign signing_key (canonical_json p)).

(** The errors: [false] for base64 that does not decode, [true] for a wrong length. *)
Definition verify_preset (p : Preset) (key : bytes) : result bool bytes :=
  match p_signature p with
  | None => Ok false
  | Some s =>
      match b64_decode s with
      | None => Err (str "decoding signature base64")
      | Some sig => if zlen sig =? 64 then Ok (ed_verify key (canonical_json p) sig) else Err (str "signature must be 64 bytes")
      end
  end.

Definition with_signature (signing : option bytes) (p : Preset) : Preset :=
  {| p_name := p_name p; p_version := p_version p; p_updated_at := p_updated_at p; p_description := p_description p;
     p_rules := p_rules p; p_signature := (fun k => sign_preset k p) <$> signing |}.

End signing.

(** ** The hub *)

(** What the handlers of the presets use of [AppState]. *)
Record PresetHub := {
  ph_presets : gmap bytes Preset;
  ph_disk : gmap bytes Preset;
  ph_gen : Z;
  ph_signing : option bytes
}.

Definition upd_presets (s : PresetHub) (m d : gmap bytes Preset) (g : Z) : PresetHub :=
  {| ph_presets := m; ph_disk := d; ph_gen := g; ph_signing := ph_signing s |}.

(** The [read_dir] order of the files, each with what it holds. *)
Definition load_all_presets (files : list (bytes * Preset)) : gmap bytes Preset :=
  foldl (fun m e => <[p_name e.2 := e.2]> m) ∅ files.

(** A restart: the tables of the disk, the generation from zero. *)
Definition hydrate_presets (s : PresetHub) (files : list (bytes * Preset)) : PresetHub :=
  upd_presets s (load_all_presets files) (ph_disk s) 0.

(** The generation a receiver compares is the version of the channel, which counts the
    sends. *)
Definition bump_generation (s : PresetHub) : Z := ph_gen s + 1.

Definition slug_char (c : Z) : bool := in_rng 97 122 c || is_ascii_digit c || (c =? 45) || (c =? 95).

Definition validate_slug (name : bytes) : reply unit :=
  if bool_decide (name = []) || (64 <? zlen name) then Err 400 else if forallb slug_char name then Ok tt else Err 400.

Definition validate_rules_size (r : RoutingConfig) : reply unit := if 10000 <? zlen (rc_rules r) then Err 413 else Ok tt.

Record CreatePresetRequest := { cq_name : bytes; cq_description : bytes; cq_rules : RoutingConfig }.

Section hub.
Context {B64 : Base64} {ED : Ed25519} {PJ : PresetJson}.

Definition list_presets_hub (s : PresetHub) : bytes * list PresetSummary :=
  let summaries := isort (fun a b => bytes_leb (sm_name a) (sm_name b)) (map (fun e => Preset_summary e.2) (map_to_list (ph_presets s))) in
  ([34] ++ show_dec (foldl (fun acc x => u64 (acc + sm_version x)) 0 summaries) ++ [34], summaries).

Definition etag (p : Preset) : bytes := [34] ++ show_dec (p_version p) ++ [34].

Definition get_preset (s : PresetHub) (name : bytes) (if_none_match : option bytes) : reply (bytes * Preset) :=
  match ph_presets s !! name with
  | None => Err 404
  | Some p => if bool_decide (if_none_match = Some (etag p)) then Err 304 else Ok (etag p, p)
  end.

(** The lock is held from the first look to the bump: one step. [saved] is the answer of
    [save_preset]. *)
Definition create_preset (s : PresetHub) (req : CreatePresetRequest) (now : bytes) (saved : bool) : PresetHub * reply Preset :=
  match validate_slug (cq_name req) with
  | Err e => (s, Err e)
  | Ok _ =>
      match validate_rules_size (cq_rules req) with
      | Err e => (s, Err e)
      | Ok _ =>
          match ph_presets s !! cq_name req with
          | Some _ => (s, Err 409)
          | None =>
              let p := with_signature (ph_signing s)
                {| p_name := cq_name req; p_version := 1; p_updated_at := now; p_description := cq_description req;
                   p_rules := cq_rules req; p_signature := None |} in
              if saved then
                (upd_presets s (<[p_name p := p]> (ph_presets s)) (<[p_name p := p]> (ph_disk s)) (bump_generation s), Ok p)
              else (s, Err 500)
          end
      end
  end.

Definition update_preset (s : PresetHub) (name : bytes) (req : CreatePresetRequest) (now : bytes) (saved : bool) :
    PresetHub * reply Preset :=
  match validate_rules_size (cq_rules req) with
  | Err e => (s, Err e)
  | Ok _ =>
      match ph_presets s !! name with
      | None => (s, Err 404)
      | Some existing =>
          let p := with_signature (ph_signing s)
            {| p_name := name; p_version := u64 (p_version existing + 1); p_updated_at := now; p_description := cq_description req;
               p_rules := cq_rules req; p_signature := None |} in
          if saved then (upd_presets s (<[name := p]> (ph_presets s)) (<[name := p]> (ph_disk s)) (bump_generation s), Ok p)
          else (s, Err 500)
      end
  end.

(** The preset leaves the table before its file is deleted. *)
Definition delete_preset (s : PresetHub) (name : bytes) (deleted : bool) : PresetHub * reply unit :=
  match ph_presets s !! name with
  | None => (s, Err 404)
  | Some _ =>
      if deleted then (upd_presets s (delete name (ph_presets s)) (delete name (ph_disk s)) (bump_generation s), Ok tt)
      else (upd_presets s (delete name (ph_presets s)) (ph_disk s) (ph_gen s), Err 500)
  end.

End hub.

(** *** The waiting route *)

Definition WAIT_MAX_SECS : Z := 60.
Definition WAIT_DEFAULT_SECS : Z := 55.

Definition wait_hold (requested_secs : option Z) : Z := 1000 * Z.min (default WAIT_DEFAULT_SECS requested_secs) WAIT_MAX_SECS.

(** A request between two polls: about to compare, or asleep; [wt_seen] is the
    generation its receiver has seen. *)
Inductive WaitPhase := WaitCheck | WaitSleep.

Record Waiter := { wt_name : bytes; wt_version : Z; wt_deadline : Z; wt_seen : Z; wt_phase : WaitPhase }.

Definition wait_begin (s : PresetHub) (name : bytes) (version : Z) (timeout_secs : option Z) (now : Z) : Waiter :=
  {| wt_name := name; wt_version := version; wt_deadline := now + wait_hold timeout_secs; wt_seen := ph_gen s; wt_phase := WaitCheck |}.

(** The comparison under the lock and the time that is left. *)
Definition wait_check (s : PresetHub) (w : Waiter) (now : Z) : Waiter + reply Preset :=
  match ph_presets s !! wt_name w with
  | None => inr (Err 404)
  | Some p =>
      if negb (p_version p =? wt_version w) then inr (Ok p)
      else if sat_sub (wt_deadline w) now =? 0 then inr (Err 304)
      else inl {| wt_name := wt_name w; wt_version := wt_version w; wt_deadline := wt_deadline w; wt_seen := wt_seen w; wt_phase := WaitSleep |}
  end.

(** [gen_rx.changed()]: ready when the generation is not the one seen, which it then is. *)
Definition wait_changed (s : PresetHub) (w : Waiter) : option Waiter :=
  if ph_gen s =? wt_seen w then None else
  Some {| wt_name := wt_name w; wt_version := wt_version w; wt_deadline := wt_deadline w; wt_seen := ph_gen s; wt_phase := WaitCheck |}.

Definition wait_elapsed (w : Waiter) (now : Z) : option (reply Preset) := if wt_deadline w <=? now then Some (Err 304) else None.

(** ** The client's cache *)

(** Files by path, a path as its text. *)
Abbreviation Disk := (gmap bytes bytes).

(** [Path::join]. *)
Definition path_join (base name : bytes) : bytes :=
  if starts_with [47] name then name
  else if bool_decide (base = []) || ends_with [47] base then base ++ name
  else base ++ [47] ++ name.

Definition cache_file (cache_dir name : bytes) : bytes := path_join cache_dir (name ++ str ".json").

(** [with_extension("json.tmp")] of that path: a file name that is all extension has none. *)
Definition cache_tmp (cache_dir name : bytes) : bytes :=
  cache_file cache_dir name ++ (if bool_decide (name = []) || ends_with [47] name then str ".json.tmp" else str ".tmp").

(** Where writing a cache file stops: before anything, within the temporary file, before
    the renaming, or not at all. *)
Inductive SaveFault := FaultDir (e : bytes) | FaultWrite (written : nat) (e : bytes) | FaultRename (e : bytes) | NoFault.

(** The HTTP exchange as reqwest reports it; the body arrives decoded by serde. *)
Inductive HttpReply (A : Type) := NoClient (e : bytes) | NetErr (e : bytes) | Http (status : Z) (body : result A bytes).
Arguments NoClient {A}. Arguments NetErr {A}. Arguments Http {A}.

Definition is_success (status : Z) : bool := in_rng 200 299 status.

Definition http_body {A} (bad : bytes) (r : HttpReply A) : result A bytes :=
  match r with
  | NoClient e => Err (str "http client: " ++ e)
  | NetErr e => Err (str "network: " ++ e)
  | Http status body =>
      if is_success status then match body with Ok a => Ok a | Err e => Err (bad ++ e) end
      else Err (str "http_" ++ show_dec status)
  end.

Definition not_modified {A} (r : HttpReply A) : bool := match r with Http status _ => status =? 304 | _ => false end.

Inductive RefreshOutcome := Updated (version : Z) | UpToDate (version : Z).

Definition WAIT_HOLD : Z := 55 * 1000.
Definition DEGRADED_BACKOFF_START : Z := 5 * 1000.

Record PresetCache := { pc_dir : bytes; pc_hub_url : bytes; pc_preset_name : bytes; pc_cached : option Preset }.

(** [trim_end_matches('/')]. *)
Fixpoint drop_slashes (l : bytes) : bytes := match l with c :: l' => if c =? 47 then drop_slashes l' else l | [] => [] end.
Definition trim_end_slashes (l : bytes) : bytes := rev (drop_slashes (rev l)).

Definition PresetCache_new (cache_dir hub_url preset_name : bytes) : PresetCache :=
  {| pc_dir := cache_dir; pc_hub_url := trim_end_slashes hub_url; pc_preset_name := preset_name; pc_cached := None |}.

Definition set_cached (c : PresetCache) (p : Preset) : PresetCache :=
  {| pc_dir := pc_dir c; pc_hub_url := pc_hub_url c; pc_preset_name := pc_preset_name c; pc_cached := Some p |}.

Definition routing_config (c : PresetCache) : option RoutingConfig := p_rules <$> pc_cached c.
Definition cached_version (c : PresetCache) : option Z := p_version <$> pc_cached c.

Definition list_presets (r : HttpReply (list PresetSummary)) : result (list PresetSummary) bytes := http_body (str "bad presets list: ") r.

Section cache.
Context {PJ : PresetJson}.

(** [read_to_string] and [from_str]. *)
Definition read_preset (d : Disk) (path : bytes) : option Preset := data ← d !! path; text ← from_utf8 data; parse_preset text.

Definition load_from_disk (d : Disk) (c : PresetCache) : PresetCache :=
  match read_preset d (cache_file (pc_dir c) (pc_preset_name c)) with Some p => set_cached c p | None => c end.

Definition write_to_disk (d : Disk) (cache_dir : bytes) (p : Preset) (f : SaveFault) : Disk * result unit bytes :=
  let data := print_preset p in
  let path := cache_file cache_dir (p_name p) in
  let tmp := cache_tmp cache_dir (p_name p) in
  match f with
  | FaultDir e => (d, Err e)
  | FaultWrite n e => (<[tmp := take n data]> d, Err e)
  | FaultRename e => (<[tmp := data]> d, Err e)
  | NoFault => (<[path := data]> (delete tmp (<[tmp := data]> d)), Ok tt)
  end.

(** A preset that arrived: saved, failing or not, and cached. *)
Definition accept_preset (d : Disk) (c : PresetCache) (p : Preset) (f : SaveFault) : PresetCache * Disk * RefreshOutcome :=
  (set_cached c p, (write_to_disk d (pc_dir c) p f).1, Updated (p_version p)).

(** [refresh] up to the second request: its answer, or [None] when the preset itself has
    to be fetched. *)
Definition refresh_list (c : PresetCache) (r : HttpReply (list PresetSummary)) : option (result RefreshOutcome bytes) :=
  match list_presets r with
  | Err e => Some (Err e)
  | Ok summaries =>
      let remote := sm_version <$> List.find (fun s => bool_decide (sm_name s = pc_preset_name c)) summaries in
      match remote, cached_version c with
      | Some remote, Some local => if remote <=? local then Some (Ok (UpToDate local)) else None
      | None, _ => Some (Err (str "not_found"))
      | _, _ => None
      end
  end.

(** The rest of [refresh]. *)
Definition refresh_fetch (d : Disk) (c : PresetCache) (r : HttpReply Preset) (f : SaveFault) :
    PresetCache * Disk * result RefreshOutcome bytes :=
  match http_body (str "bad preset: ") r with
  | Err e => (c, d, Err e)
  | Ok p => let '(c, d, o) := accept_preset d c p f in (c, d, Ok o)
  end.

Definition refresh (d : Disk) (c : PresetCache) (rl : HttpReply (list PresetSummary)) (rp : HttpReply Preset) (f : SaveFault) :
    PresetCache * Disk * result RefreshOutcome bytes :=
  match refresh_list c rl with Some r => (c, d, r) | None => refresh_fetch d c rp f end.

Definition fetch_if_stale (d : Disk) (c : PresetCache) (rl : HttpReply (list PresetSummary)) (rp : HttpReply Preset) (f : SaveFault) :
    PresetCache * Disk * bool :=
  let '(c, d, r) := refresh d c rl rp f in (c, d, match r with Ok (Updated _) => true | _ => false end).

(** The version a waiting request carries. *)
Definition wait_version (c : PresetCache) : Z := default 0 (cached_version c).

Definition wait_for_update (d : Disk) (c : PresetCache) (r : HttpReply Preset) (f : SaveFault) :
    PresetCache * Disk * result RefreshOutcome bytes :=
  if not_modified r then (c, d, Ok (UpToDate (wait_version c))) else refresh_fetch d c r f.

(** *** The watch loop *)

Definition next_backoff (current cap : Z) : Z :=
  if current =? 0 then Z.min DEGRADED_BACKOFF_START cap else Z.min (current * 2) cap.

(** What the loop awaits: the pause, the list and the preset of the poll, the waiting
    request. *)
Inductive WatchPhase := WSleeping | WListing | WFetching | WWaiting | WStopped.

Record Watch := { wl_cache : PresetCache; wl_interval : Z; wl_backoff : Z; wl_phase : WatchPhase }.

(** The first turn starts without a pause. *)
Definition watch_start (c : PresetCache) (fallback_interval : Z) : Watch :=
  {| wl_cache := c; wl_interval := fallback_interval; wl_backoff := 0; wl_phase := WWaiting |}.

Definition watch_to (w : Watch) (c : PresetCache) (backoff : Z) (ph : WatchPhase) : Watch :=
  {| wl_cache := c; wl_interval := wl_interval w; wl_backoff := backoff; wl_phase := ph |}.

Inductive WatchEvent :=
| EvTimer
| EvList (r : HttpReply (list PresetSummary))
| EvPreset (r : HttpReply Preset) (f : SaveFault)
| EvWait (r : HttpReply Preset) (f : SaveFault)
| EvShutdown.

(** One await resumed. The last component is the argument of [on_rules], when it is
    called. *)
Definition watch_step (d : Disk) (w : Watch) (ev : WatchEvent) : option (Watch * Disk * option RoutingConfig) :=
  let c := wl_cache w in
  match wl_phase w, ev with
  | WStopped, _ => None
  | _, EvShutdown => Some (watch_to w c (wl_backoff w) WStopped, d, None)
  | WSleeping, EvTimer => Some (watch_to w c (wl_backoff w) WListing, d, None)
  | WListing, EvList r =>
      match refresh_list c r with
      | Some _ => Some (watch_to w c (wl_backoff w) WWaiting, d, None)
      | None => Some (watch_to w c (wl_backoff w) WFetching, d, None)
      end
  | WFetching, EvPreset r f =>
      let '(c, d, o) := refresh_fetch d c r f in
      Some (watch_to w c (wl_backoff w) WWaiting, d, match o with Ok (Updated _) => routing_config c | _ => None end)
  | WWaiting, EvWait r f =>
      let '(c, d, o) := wait_for_update d c r f in
      let backoff := match o with Ok _ => 0 | Err _ => next_backoff (wl_backoff w) (wl_interval w) end in
      Some (watch_to w c backoff (if backoff =? 0 then WWaiting else WSleeping), d,
            match o with Ok (Updated _) => routing_config c | _ => None end)
  | _, _ => None
  end.

End cache.

(** *** What the rule screen reads *)

Section view.
Context {PJ : PresetJson}.

Definition read_cached (d : Disk) (cache_dir name : bytes) : option Preset :=
  if bool_decide (trim name = []) then None else read_preset d (cache_file cache_dir name).

(** The JSON object of [cached_preset_json], as its fields. *)
Record RuleView := { rv_name : bytes; rv_action : bytes; rv_domains : list bytes; rv_ip_ranges : list bytes; rv_geoip : list bytes }.
Record PresetView := {
  pv_name : bytes; pv_version : Z; pv_updated_at : bytes; pv_default_action : bytes; pv_rules : list RuleView
}.

Definition RuleView_of (r : RoutingRule) : RuleView :=
  {| rv_name := default [] (rr_name r); rv_action := rr_action r; rv_domains := rr_domains r; rv_ip_ranges := rr_ip_ranges r;
     rv_geoip := rr_geoip r |}.

Definition cached_preset_json (d : Disk) (cache_dir name : bytes) : option PresetView :=
  preset ← read_cached d cache_dir name;
  Some {| pv_name := p_name preset; pv_version := p_version preset; pv_updated_at := p_updated_at preset;
          pv_default_action := rc_default_action (p_rules preset); pv_rules := map RuleView_of (rc_rules (p_rules preset)) |}.

End view.

Definition LF : bytes := [10].

(** [str::replace] of one character. *)
Definition replace_char (c : Z) (by_ : bytes) (s : bytes) : bytes := concat (map (fun b => if b =? c then by_ else [b]) s).

Definition toml_string (value : bytes) : bytes :=
  let escaped := replace_char 9 [92; 116] (replace_char 13 [92; 114] (replace_char 10 [92; 110]
    (replace_char 34 [92; 34] (replace_char 92 [92; 92] value)))) in
  [34] ++ escaped ++ [34].

Definition toml_array (key : bytes) (values : list bytes) : bytes :=
  if zlen values <=? 3 then key ++ str " = [" ++ join (str ", ") (map toml_string values) ++ str "]" ++ LF
  else key ++ str " = [" ++ LF ++ concat (map (fun v => str "  " ++ toml_string v ++ str "," ++ LF) values) ++ str "]" ++ LF.

(** [DEFAULT_ROUTING_ACTION] of client_config.rs. *)
Definition DEFAULT_ROUTING_ACTION : bytes := str "direct".

Definition toml_user_rule (rule : UserRule) : bytes :=
  let key := if contains_char 47 (ur_pattern rule) then str "ip_ranges" else str "domains" in
  str "[[routing.rules]]" ++ LF ++ str "action = " ++ toml_string (ur_action rule) ++ LF ++
  key ++ str " = [" ++ toml_string (ur_pattern rule) ++ str "]" ++ LF.

Definition toml_preset_rule (rule : RoutingRule) : bytes :=
  str "[[routing.rules]]" ++ LF ++
  match rr_name rule with
  | Some n => if bool_decide (trim n = []) then [] else str "name = " ++ toml_string n ++ LF
  | None => []
  end ++
  str "action = " ++ toml_string (rr_action rule) ++ LF ++
  (if bool_decide (rr_domains rule = []) then [] else toml_array (str "domains") (rr_domains rule)) ++
  (if bool_decide (rr_ip_ranges rule = []) then [] else toml_array (str "ip_ranges") (rr_ip_ranges rule)) ++
  (if bool_decide (rr_geoip rule = []) then [] else toml_array (str "geoip") (rr_geoip rule)).

Definition merged_toml (user_rules : list UserRule) (default_action : bytes) (preset : option Preset) : bytes :=
  let default_action := if bool_decide (trim default_action = []) then DEFAULT_ROUTING_ACTION else trim default_action in
  let preset_tag := (fun p => p_name p ++ str " v" ++ show_dec (p_version p)) <$> preset in
  str "# Generated by XR Proxy" ++ LF ++
  str "# Merged: user overrides + preset " ++ default (str "(не подключён)") preset_tag ++ LF ++ LF ++
  str "[routing]" ++ LF ++
  str "default_action = " ++ toml_string default_action ++ LF ++
  (if bool_decide (user_rules = []) then [] else LF ++ str "# --- User overrides ---" ++ LF ++ concat (map toml_user_rule user_rules)) ++
  match preset with
  | Some p =>
      match rc_rules (p_rules p) with
      | [] => []
      | rules => LF ++ str "# --- Preset " ++ default [] preset_tag ++ str " ---" ++ LF ++ concat (map toml_preset_rule rules)
      end
  | None => []
  end.

(** ** The cache file *)

Lemma path_join_inj base a b :
  starts_with [47] a = false -> starts_with [47] b = false -> path_join base a = path_join base b -> a = b.
Proof.
  unfold path_join. intros -> ->. destruct (bool_decide (base = []) || ends_with [47] base); intros H; by simplify_list_eq.
Qed.

Lemma starts_with_app_json n : starts_with [47] (n ++ str ".json") = starts_with [47] n.
Proof. unfold starts_with. destruct n as [| c n]; [done |]. cbn [strip_prefix app]. by destruct (47 =? c). Qed.

(** The last byte of a path tells a temporary file. *)
Lemma path_join_last base a c : last a = Some c -> last (path_join base a) = Some c.
Proof.
  intros H. unfold path_join. destruct (starts_with [47] a); [done |].
  destruct (bool_decide (base = []) || ends_with [47] base); rewrite !last_app; by rewrite H.
Qed.

Lemma last_app_ne {A} (l k : list A) c : last k = Some c -> last (l ++ k) = Some c.
Proof. intros H. by rewrite last_app, H. Qed.

Lemma tmp_not_cache dir m n : cache_tmp dir m <> cache_file dir n.
Proof.
  intros H. assert (last (cache_tmp dir m) = Some 112) as H1.
  { unfold cache_tmp. destruct (bool_decide (m = []) || ends_with [47] m); by apply last_app_ne. }
  rewrite H in H1. unfold cache_file in H1. rewrite (path_join_last _ _ 110) in H1 by by apply last_app_ne. done.
Qed.

Lemma cache_file_inj dir m n :
  starts_with [47] m = false -> starts_with [47] n = false -> cache_file dir m = cache_file dir n -> m = n.
Proof.
  unfold cache_file. intros Hm Hn H%path_join_inj; [| by rewrite starts_with_app_json..]. by apply app_inv_tail in H.
Qed.

Section cache_proofs.
Context {PJ : PresetJson}.

Lemma read_preset_other d path path' data : path <> path' -> read_preset (<[path' := data]> d) path = read_preset d path.
Proof. intros H. unfold read_preset. by rewrite lookup_insert_ne. Qed.

(** A file holds the new preset or what it held: every failure leaves the old one. *)
Lemma written_at d dir p f n :
  read_preset (write_to_disk d dir p f).1 (cache_file dir n) =
    (if bool_decide (cache_file dir n = cache_file dir (p_name p)) && match f with NoFault => true | _ => false end
     then Some p else read_preset d (cache_file dir n)).
Proof.
  pose proof (tmp_not_cache dir (p_name p) n) as Ht.
  destruct f as [e | k e | e |]; cbn [write_to_disk fst]; rewrite ?andb_false_r, ?andb_true_r;
    try (rewrite read_preset_other; done); [done |].
  case_bool_decide as E.
  - unfold read_preset. rewrite E, lookup_insert_eq. cbn. unfold from_utf8. rewrite print_utf8. cbn. apply parse_print.
  - rewrite read_preset_other by done. unfold read_preset. by rewrite lookup_delete_ne, lookup_insert_ne by done.
Qed.

(** a cached preset survives anything that goes wrong while a new one is written.
    After the write the engine that starts next reads the new preset when the write
    succeeded and exactly what it would have read before when it failed, and the caches of
    other presets stay as they are. *)
Theorem cache_file_old_or_new d dir p f (c : PresetCache) :
  pc_dir c = dir -> starts_with [47] (p_name p) = false -> starts_with [47] (pc_preset_name c) = false ->
  let d' := (write_to_disk d dir p f).1 in
  (f = NoFault -> pc_preset_name c = p_name p -> load_from_disk d' c = set_cached c p) /\
  (f <> NoFault \/ pc_preset_name c <> p_name p -> load_from_disk d' c = load_from_disk d c).
Proof.
  intros <- Hp Hc d'. unfold load_from_disk, d'. rewrite written_at. split.
  - intros -> ->. by rewrite bool_decide_true.
  - intros [Hf | Hn].
    + destruct f; rewrite ?andb_false_r; done.
    + rewrite bool_decide_false; [done |]. intros H%cache_file_inj; done.
Qed.

(** ** The pauses of the watch loop *)

(** The loop with the number of waiting requests that failed since the last answer. *)
Inductive watch_run (cap : Z) : Watch -> nat -> Prop :=
| run_start c : watch_run cap (watch_start c cap) 0
| run_step w n d ev w' d' o :
    watch_run cap w n -> watch_step d w ev = Some (w', d', o) ->
    watch_run cap w' (match ev with
                      | EvWait r f => match (wait_for_update d (wl_cache w) r f).2 with Ok _ => 0%nat | Err _ => S n end
                      | _ => n
                      end).

Definition pause_after (cap : Z) (n : nat) : Z :=
  match n with O => 0 | S k => Z.min cap (DEGRADED_BACKOFF_START * 2 ^ Z.of_nat k) end.

Lemma next_backoff_pause cap n : 0 <= cap -> next_backoff (pause_after cap n) cap = pause_after cap (S n).
Proof.
  intros Hc. unfold next_backoff. destruct n as [| k]; cbn [pause_after].
  - change (DEGRADED_BACKOFF_START * 2 ^ Z.of_nat 0) with DEGRADED_BACKOFF_START. rewrite Z.eqb_refl. lia.
  - rewrite Nat2Z.inj_succ, Z.pow_succ_r by lia. pose proof (Z.pow_pos_nonneg 2 (Z.of_nat k)). unfold DEGRADED_BACKOFF_START in *.
    destruct (Z.eqb_spec (Z.min cap (5 * 1000 * 2 ^ Z.of_nat k)) 0); lia.
Qed.

Definition paused (ph : WatchPhase) : bool := match ph with WSleeping | WListing | WFetching => true | _ => false end.

(** the pause of the degraded mode. After [n] failed waiting requests in a row the
    loop pauses [5 s * 2^(n-1)], capped by the configured interval, and one answer takes
    it back to no pause at all; it polls only after a pause that is not zero. *)
Theorem watch_backoff cap w n :
  0 <= cap -> watch_run cap w n ->
  wl_backoff w = pause_after cap n /\ wl_interval w = cap /\ (paused (wl_phase w) = true -> 0 < wl_backoff w).
Proof.
  intros Hc. induction 1 as [c | w n d ev w' d' o Hr (IH1 & IH2 & IH3) Hs]; [done |].
  unfold watch_step in Hs. destruct (wl_phase w) eqn:Ep, ev; try done.
  all: try (injection Hs as <- <- <-; cbn; by split_and!).
  - destruct (refresh_list (wl_cache w) r); injection Hs as <- <- <-; cbn; split_and!; try done; intros; by apply IH3.
  - destruct (refresh_fetch d (wl_cache w) r f) as [[c d1] o1]. injection Hs as <- <- <-. by split_and!.
  - destruct (wait_for_update d (wl_cache w) r f) as [[c d1] o1]. injection Hs as <- <- <-. cbn.
    destruct o1 as [o1 | e]; [by split_and! |]. rewrite IH1, IH2, next_backoff_pause by done.
    split_and!; [done | done |]. destruct (Z.eqb_spec (pause_after cap (S n)) 0) as [| Hz]; [done |]. intros _.
    assert (0 <= pause_after cap (S n)); [| lia]. cbn [pause_after]. pose proof (Z.pow_nonneg 2 (Z.of_nat n)). unfold DEGRADED_BACKOFF_START. lia.
Qed.

End cache_proofs.

(** ** Signatures check *)

Section signing_proofs.
Context {B64 : Base64} {ED : Ed25519} {PJ : PresetJson}.

(** The signed bytes are everything of a preset but its signature. *)
Lemma canonical_json_eq p q :
  canonical_json p = canonical_json q <-> with_signature None p = with_signature None q.
Proof.
  unfold canonical_json, canonical, with_signature. split.
  - intros H%canonical_inj. cbn. congruence.
  - intros H. injection H as -> -> -> -> ->. done.
Qed.

(** what the hub publishes is signed whole. A preset signed by the hub verifies under
    the hub's key, also after it was written to a file and read back; a preset that
    carries the signature of another one verifies only where the key accepts that
    signature over its own canonical bytes, which are equal exactly when all the other
    fields are; an unsigned preset does not verify. *)
Theorem preset_signatures p q key k :
  let signed := with_signature (Some k) p in
  (parse_preset (print_preset signed) = Some signed /\ verify_preset signed (verifying_key k) = Ok true) /\
  (p_signature q = p_signature signed -> verify_preset q key = Ok (ed_verify key (canonical_json q) (ed_sign k (canonical_json p)))) /\
  (canonical_json q = canonical_json p <-> with_signature None q = with_signature None p) /\
  verify_preset (with_signature None p) key = Ok false.
Proof.
  intros signed.
  assert (Hsig : forall r key, p_signature r = p_signature signed ->
    verify_preset r key = Ok (ed_verify key (canonical_json r) (ed_sign k (canonical_json p)))).
  { intros r key' Hr. unfold verify_preset. rewrite Hr. cbn. unfold sign_preset. rewrite b64_roundtrip by apply ed_sign_bytes.
    unfold zlen. by rewrite ed_sign_length. }
  split_and!; [apply parse_print | | by apply Hsig | apply canonical_json_eq | done].
  rewrite Hsig by done. change (canonical_json signed) with (canonical_json p). by rewrite ed_verify_sign.
Qed.

End signing_proofs.

(** ** The exported configuration reads back *)

(** The escape of one character. *)
Definition toml_escape (b : Z) : bytes :=
  if b =? 92 then [92; 92] else if b =? 34 then [92; 34] else if b =? 10 then [92; 110]
  else if b =? 13 then [92; 114] else if b =? 9 then [92; 116] else [b].

Lemma replace_char_concat c by_ (f : Z -> bytes) s :
  replace_char c by_ (concat (map f s)) = concat (map (fun b => replace_char c by_ (f b)) s).
Proof.
  unfold replace_char. induction s as [| b s IH]; [done |]. cbn [map concat]. by rewrite map_app, concat_app, IH.
Qed.

Lemma toml_string_escape v : toml_string v = [34] ++ concat (map toml_escape v) ++ [34].
Proof.
  unfold toml_string. f_equal. f_equal. unfold replace_char at 5. rewrite !replace_char_concat.
  f_equal. apply map_ext. intros b. unfold toml_escape.
  repeat (case_cmp; subst; try done). unfold replace_char. cbn [map concat app].
  repeat (case_cmp; try done; cbn [map concat app]).
Qed.

(** Basic strings of TOML as the readers of a configuration take them: the escapes of one
    character, no raw control character but the tab. [toml_chars] reads after the opening
    quote. *)
Definition toml_unescape (b : Z) : option Z :=
  if b =? 98 then Some 8 else if b =? 116 then Some 9 else if b =? 110 then Some 10 else if b =? 102 then Some 12
  else if b =? 114 then Some 13 else if b =? 34 then Some 34 else if b =? 92 then Some 92 else None.

Definition toml_raw (b : Z) : bool := (b =? 9) || ((32 <=? b) && negb (b =? 127)).

Fixpoint toml_chars (l : bytes) : option (bytes * bytes) :=
  match l with
  | [] => None
  | 34 :: l' => Some ([], l')
  | 92 :: e :: l' => c ← toml_unescape e; r ← toml_chars l'; Some (c :: r.1, r.2)
  | b :: l' => if toml_raw b then r ← toml_chars l'; Some (b :: r.1, r.2) else None
  end.

Definition toml_value (l : bytes) : option (bytes * bytes) := match l with 34 :: l' => toml_chars l' | _ => None end.

(** What the escapes cover. *)
Definition toml_text (v : bytes) : Prop := Forall (fun b => toml_raw b = true \/ b = 10 \/ b = 13) v.

Lemma toml_chars_escape b l : toml_raw b = true \/ b = 10 \/ b = 13 ->
  toml_chars (toml_escape b ++ l) = (r ← toml_chars l; Some (b :: r.1, r.2)).
Proof.
  unfold toml_escape. intros Hb.
  destruct (Z.eqb_spec b 92); [by subst |]. destruct (Z.eqb_spec b 34); [by subst |]. destruct (Z.eqb_spec b 10); [by subst |].
  destruct (Z.eqb_spec b 13); [by subst |]. destruct (Z.eqb_spec b 9); [by subst |].
  destruct Hb as [Hb | [|]]; [| done..]. cbn [app].
  assert (toml_chars (b :: l) = if toml_raw b then r ← toml_chars l; Some (b :: r.1, r.2) else None) as ->.
  { destruct b as [| b | b]; try done. do 7 (destruct b as [b | b |]; try done). }
  by rewrite Hb.
Qed.

Lemma toml_value_string v rest : toml_text v -> toml_value (toml_string v ++ rest) = Some (v, rest).
Proof.
  intros Hv. rewrite toml_string_escape, <- !app_assoc. cbn [app toml_value].
  induction Hv as [| b v Hb Hv IH]; [done |]. cbn [map concat]. rewrite <- app_assoc, toml_chars_escape by done. by rewrite IH.
Qed.

Definition toml_ws (b : Z) : bool := (b =? 32) || (b =? 10).
Fixpoint skip_ws (l : bytes) : bytes := match l with b :: l' => if toml_ws b then skip_ws l' else l | [] => [] end.

(** The items of an array after its bracket, a trailing comma allowed; at most [fuel]. *)
Fixpoint toml_items (fuel : nat) (l : bytes) : option (list bytes * bytes) :=
  match fuel with
  | O => None
  | S fuel =>
      match skip_ws l with
      | 93 :: l' => Some ([], l')
      | l1 =>
          v ← toml_value l1;
          match skip_ws v.2 with
          | 44 :: l3 => r ← toml_items fuel l3; Some (v.1 :: r.1, r.2)
          | 93 :: l3 => Some ([v.1], l3)
          | _ => None
          end
      end
  end.

Lemma toml_items_value fuel v l :
  toml_text v ->
  toml_items (S fuel) (toml_string v ++ l) =
    match skip_ws l with
    | 44 :: l3 => r ← toml_items fuel l3; Some (v :: r.1, r.2)
    | 93 :: l3 => Some ([v], l3)
    | _ => None
    end.
Proof.
  intros Hv. pose proof (toml_value_string v l Hv) as H. cbn [toml_items].
  assert (skip_ws (toml_string v ++ l) = toml_string v ++ l) as -> by done.
  assert (exists l', toml_string v ++ l = 34 :: l') as [l' Hl] by (rewrite toml_string_escape; cbn; eauto).
  rewrite Hl in *. rewrite H. done.
Qed.

Lemma toml_items_skip fuel b l : toml_ws b = true -> toml_items fuel (b :: l) = toml_items fuel l.
Proof. destruct fuel; [done |]. cbn [toml_items skip_ws]. by intros ->. Qed.

Lemma toml_items_join values : Forall toml_text values -> forall fuel rest, (length values < fuel)%nat ->
  toml_items fuel (join (str ", ") (map toml_string values) ++ 93 :: rest) = Some (values, rest).
Proof.
  induction 1 as [| v values Hv Hvs IH]; intros [| fuel] rest Hf; try done; cbn [length] in Hf; try lia.
  destruct values as [| v2 values].
  - cbn [map join]. by rewrite toml_items_value.
  - cbn [map]. rewrite join_cons by done. rewrite <- !app_assoc, toml_items_value by done.
    change (skip_ws (str ", " ++ ?l)) with (44 :: 32 :: l). cbn iota. rewrite toml_items_skip by done. cbn [map] in IH.
    rewrite IH by (cbn [length] in *; lia). done.
Qed.

Lemma toml_items_lines values : Forall toml_text values -> forall fuel rest, (length values < fuel)%nat ->
  toml_items fuel (concat (map (fun v => str "  " ++ toml_string v ++ str "," ++ LF) values) ++ 93 :: rest) = Some (values, rest).
Proof.
  induction 1 as [| v values Hv Hvs IH]; intros [| fuel] rest Hf; try done; cbn [length] in Hf; try lia.
  cbn [map concat]. rewrite <- !app_assoc. change (str "  " ++ ?l) with (32 :: 32 :: l). rewrite !toml_items_skip by done.
  rewrite toml_items_value by done. change (skip_ws (str "," ++ ?l)) with (44 :: l). cbn iota.
  change (LF ++ ?l) with (10 :: l). rewrite toml_items_skip by done. rewrite IH by lia. done.
Qed.

(** the exported configuration reads back. A TOML reader gets from the quoted form of
    a text that text and nothing of what follows, whatever quotes, backslashes, line breaks
    and tabs are in it, and from an array, on one line or on many, exactly its values. *)
Theorem toml_reads_back :
  (forall v rest, toml_text v -> toml_value (toml_string v ++ rest) = Some (v, rest)) /\
  (forall key values, Forall toml_text values ->
    exists body, toml_array key values = key ++ str " = [" ++ body /\
      forall rest, toml_items (S (length values)) (body ++ rest) = Some (values, LF ++ rest)).
Proof.
  split; [intros; by apply toml_value_string |]. intros key values Hv. unfold toml_array. destruct (zlen values <=? 3).
  - eexists. split; [done |]. intros rest. rewrite <- !app_assoc. apply toml_items_join; [done | lia].
  - exists (LF ++ concat (map (fun v => str "  " ++ toml_string v ++ str "," ++ LF) values) ++ str "]" ++ LF).
    split; [by rewrite <- ?app_assoc |]. intros rest. rewrite <- !app_assoc. change (LF ++ ?l) with (10 :: l) at 1.
    rewrite toml_items_skip by done. apply toml_items_lines; [done | lia].
Qed.

(** ** Concrete runs *)

#[local] Instance rule_countable : Countable RoutingRule :=
  inj_countable' (fun r => (rr_name r, rr_action r, rr_domains r, rr_ip_ranges r, rr_geoip r))
    (fun '(n, a, d, i, g) => {| rr_name := n; rr_action := a; rr_domains := d; rr_ip_ranges := i; rr_geoip := g |}) ltac:(by intros []).
#[local] Instance config_countable : Countable RoutingConfig :=
  inj_countable' (fun c => (rc_default_action c, rc_rules c))
    (fun '(a, r) => {| rc_default_action := a; rc_rules := r |}) ltac:(by intros []).
#[local] Instance preset_countable : Countable Preset :=
  inj_countable' (fun p => (p_name p, p_version p, p_updated_at p, p_description p, p_rules p, p_signature p))
    (fun '(n, v, u, d, r, s) => {| p_name := n; p_version := v; p_updated_at := u; p_description := d; p_rules := r; p_signature := s |})
    ltac:(by intros []).
#[local] Instance canonical_eq : EqDecision CanonicalPreset := ltac:(solve_decision).
#[local] Instance canonical_countable : Countable CanonicalPreset :=
  inj_countable' (fun c => (cp_description c, cp_name c, cp_rules c, cp_updated_at c, cp_version c))
    (fun '(d, n, r, u, v) => {| cp_description := d; cp_name := n; cp_rules := r; cp_updated_at := u; cp_version := v |})
    ltac:(by intros []).

(** A text of binary digits. *)
Fixpoint bits (p : positive) : bytes := match p with xH => [] | xO p => 48 :: bits p | xI p => 49 :: bits p end.
Fixpoint unbits (l : bytes) : positive := match l with [] => xH | b :: l => if b =? 48 then xO (unbits l) else xI (unbits l) end.

Lemma unbits_bits p : unbits (bits p) = p.
Proof. induction p as [p IH | p IH |]; cbn; by rewrite ?IH. Qed.

Lemma bits_utf8 p : utf8_valid (bits p) = true.
Proof. apply utf8_valid_ascii. induction p; constructor; try done; unfold is_ascii; lia. Qed.

#[refine] Definition toy_json : PresetJson := {|
  canonical_to_vec c := bits (encode c);
  print_preset p := bits (encode p);
  parse_preset b := decode (unbits b)
|}.
Proof.
  - intros c d H%(f_equal unbits). rewrite !unbits_bits in H. by apply encode_inj in H.
  - intros p. rewrite unbits_bits. apply decode_encode.
  - intros p. apply bits_utf8.
Defined.

Definition ex_rules (action : string) : RoutingConfig := {| rc_default_action := str action; rc_rules := [] |}.
Definition ex_preset (v : Z) (action : string) : Preset :=
  {| p_name := str "russia"; p_version := v; p_updated_at := str "t"; p_description := []; p_rules := ex_rules action; p_signature := None |}.
Definition ex_cache : PresetCache := PresetCache_new (str "/var/presets") (str "https://hub/") (str "russia").

Lemma cache_file_old_or_new_witness :
  let save d p f := (@write_to_disk toy_json d (str "/var/presets") p f).1 in
  let d1 := save ∅ (ex_preset 1 "direct") NoFault in
  pc_cached (@load_from_disk toy_json (save d1 (ex_preset 2 "proxy") (FaultWrite 9 (str "disk full"))) ex_cache) =
    pc_cached (@load_from_disk toy_json d1 ex_cache) /\
  pc_cached (@load_from_disk toy_json (save d1 (ex_preset 2 "proxy") NoFault) ex_cache) = Some (ex_preset 2 "proxy").
Proof.
  intros save d1. split.
  - destruct (@cache_file_old_or_new toy_json d1 (str "/var/presets") (ex_preset 2 "proxy") (FaultWrite 9 (str "disk full")) ex_cache)
      as [_ H]; [reflexivity..|]. unfold save. rewrite H by (left; discriminate). reflexivity.
  - destruct (@cache_file_old_or_new toy_json d1 (str "/var/presets") (ex_preset 2 "proxy") NoFault ex_cache) as [H _]; [reflexivity..|].
    unfold save. rewrite H by reflexivity. reflexivity.
Defined.

(** Two refused waiting requests with a poll between them that finds nothing new. *)
Lemma watch_backoff_witness : exists w,
  @watch_run toy_json 300000 w 2 /\ wl_backoff w = 10000 /\ wl_phase w = WSleeping.
Proof.
  set (off := Http 500 (Err (str "down")) : HttpReply Preset).
  assert (H1 : @watch_run toy_json 300000 (watch_start ex_cache 300000) 0) by constructor.
  epose proof (run_step 300000 _ _ ∅ (EvWait off NoFault) _ _ _ H1 eq_refl) as H2.
  epose proof (run_step 300000 _ _ ∅ EvTimer _ _ _ H2 eq_refl) as H3.
  epose proof (run_step 300000 _ _ ∅ (EvList (Http 500 (Err (str "down")))) _ _ _ H3 eq_refl) as H4.
  epose proof (run_step 300000 _ _ ∅ (EvWait off NoFault) _ _ _ H4 eq_refl) as H5.
  eexists. split; [exact H5 |]. split; [| reflexivity].
  destruct (@watch_backoff toy_json 300000 _ _ ltac:(lia) H5) as [Hb _]. exact Hb.
Defined.

(** The signature of a preset on a copy that differs in nothing but the signature field. *)
Lemma preset_signatures_witness :
  let k := str "key" in
  let copy := {| p_name := str "russia"; p_version := 1; p_updated_at := str "t"; p_description := []; p_rules := ex_rules "direct";
                 p_signature := Some (@sign_preset toy_base64 toy_ed25519 toy_json k (ex_preset 1 "direct")) |} in
  @verify_preset toy_base64 toy_ed25519 toy_json copy (@verifying_key toy_ed25519 k) = Ok true.
Proof.
  intros k copy.
  destruct (@preset_signatures toy_base64 toy_ed25519 toy_json (ex_preset 1 "direct") copy (@verifying_key toy_ed25519 k) k) as (_ & H & _).
  rewrite H by reflexivity. vm_compute. reflexivity.
Defined.

Lemma toml_reads_back_witness :
  toml_value (toml_string (str "a\b" ++ [34; 10]) ++ LF) = Some (str "a\b" ++ [34; 10], LF) /\
  exists body, toml_array (str "domains") [str "a"; str "b"; str "c"; str "d"] = str "domains" ++ str " = [" ++ body.
Proof.
  destruct toml_reads_back as [H1 H2]. split.
  - apply H1. repeat (constructor; [vm_compute; auto |]). constructor.
  - destruct (H2 (str "domains") [str "a"; str "b"; str "c"; str "d"]) as (body & Hb & _); [| by exists body].
    repeat (constructor; [repeat (constructor; [vm_compute; auto |]); constructor |]). constructor.
Defined.
