(* ===== verification/Delivery.v ===== *)
(** * Delivery of presets from the hub to its clients
      (xr-hub/src/api/presets.rs with xr-core/src/presets.rs)

    The hub of [Presets] and any number of clients, each a watch loop with its cache
    directory and at most one HTTP exchange under way. A request reaches the hub, is
    answered against the state of that moment, and the answer travels back; either way it
    may be lost. Administrators publish, and hub and clients restart, in between. The
    list of published presets, the presets a client accepted and the rules it handed on
    are ghosts that no step reads. *)

From S2P Require Import Prelude Text Order UserRule Share Hub Presets.

(** ** State *)

(** The exchange of a client: none, a waiting request at the hub, a connection that died
    with the hub, an answer under way. *)
Inductive ClientNet :=
| NIdle
| NWaiter (w : Waiter)
| NDead
| NList (r : HttpReply (list PresetSummary))
| NPreset (r : HttpReply Preset)
| NWait (r : HttpReply Preset).

Record Client := {
  cl_watch : Watch; cl_net : ClientNet; cl_disk : Disk;
  cl_got : list Preset;
  cl_rules : list RoutingConfig
}.

Record Sys := { sy_hub : PresetHub; sy_clients : gmap nat Client; sy_hist : list Preset }.

Definition Sys_init (signing : option bytes) : Sys :=
  {| sy_hub := {| ph_presets := ∅; ph_disk := ∅; ph_gen := 0; ph_signing := signing |}; sy_clients := ∅; sy_hist := [] |}.

Definition client_cache (c : Client) : PresetCache := wl_cache (cl_watch c).
Definition client_name (c : Client) : bytes := pc_preset_name (client_cache c).

Section delivery.
Context {B64 : Base64} {ED : Ed25519} {PJ : PresetJson}.

(** ** Steps *)

(** An answer of a handler as the client's HTTP library sees it. *)
Definition http_of {A} (r : reply A) : HttpReply A := match r with Ok a => Http 200 (Ok a) | Err st => Http st (Err []) end.

Definition set_net (c : Client) (n : ClientNet) : Client :=
  {| cl_watch := cl_watch c; cl_net := n; cl_disk := cl_disk c; cl_got := cl_got c; cl_rules := cl_rules c |}.

(** The loop resumes with an event; the exchange is over. *)
Definition feed (c : Client) (ev : WatchEvent) : option Client :=
  '(w, d, o) ← watch_step (cl_disk c) (cl_watch c) ev;
  Some {| cl_watch := w; cl_net := NIdle; cl_disk := d;
          cl_got := match o with Some _ => option_list (pc_cached (wl_cache w)) ++ cl_got c | None => cl_got c end;
          cl_rules := option_list o ++ cl_rules c |}.

(** The outcome of a failed exchange, by what was awaited. *)
Definition fail_event (c : Client) (e : bytes) : option WatchEvent :=
  match wl_phase (cl_watch c) with
  | WListing => Some (EvList (NetErr e))
  | WFetching => Some (EvPreset (NetErr e) NoFault)
  | WWaiting => Some (EvWait (NetErr e) NoFault)
  | _ => None
  end.

Inductive ClientAct :=
| ATimer
| ASend (now : Z)
| ACheck (now : Z)
| AChanged
| AElapsed (now : Z)
| ADeliver (f : SaveFault)
| AFail (e : bytes)
| AStop
| ARestart.

Definition wait_request (h : PresetHub) (c : Client) (now : Z) : Waiter :=
  wait_begin h (client_name c) (wait_version (client_cache c)) (Some (WAIT_HOLD / 1000)) now.

Definition client_restart (c : Client) : Client :=
  {| cl_watch := watch_start (load_from_disk (cl_disk c)
       (PresetCache_new (pc_dir (client_cache c)) (pc_hub_url (client_cache c)) (client_name c))) (wl_interval (cl_watch c));
     cl_net := NIdle; cl_disk := cl_disk c; cl_got := []; cl_rules := [] |}.

Definition client_act (h : PresetHub) (c : Client) (a : ClientAct) : option Client :=
  match a with
  | ATimer => match wl_phase (cl_watch c) with WSleeping => feed c EvTimer | _ => None end
  | ASend now =>
      match cl_net c, wl_phase (cl_watch c) with
      | NIdle, WListing => Some (set_net c (NList (Http 200 (Ok (list_presets_hub h).2))))
      | NIdle, WFetching =>
          Some (set_net c (NPreset (http_of (match get_preset h (client_name c) None with Ok (_, p) => Ok p | Err e => Err e end))))
      | NIdle, WWaiting => Some (set_net c (NWaiter (wait_request h c now)))
      | _, _ => None
      end
  | ACheck now =>
      match cl_net c with
      | NWaiter w =>
          match wt_phase w with
          | WaitCheck => Some (set_net c (match wait_check h w now with inl w' => NWaiter w' | inr r => NWait (http_of r) end))
          | WaitSleep => None
          end
      | _ => None
      end
  | AChanged =>
      match cl_net c with
      | NWaiter w => match wt_phase w with WaitSleep => (fun w' => set_net c (NWaiter w')) <$> wait_changed h w | WaitCheck => None end
      | _ => None
      end
  | AElapsed now =>
      match cl_net c with
      | NWaiter w => match wt_phase w with WaitSleep => (fun r => set_net c (NWait (http_of r))) <$> wait_elapsed w now | WaitCheck => None end
      | _ => None
      end
  | ADeliver f =>
      match cl_net c with
      | NList r => feed c (EvList r)
      | NPreset r => feed c (EvPreset r f)
      | NWait r => feed c (EvWait r f)
      | NDead => fail_event c (str "connection reset") ≫= feed c
      | _ => None
      end
  | AFail e => fail_event c e ≫= feed c
  | AStop => feed c EvShutdown
  | ARestart => Some (client_restart c)
  end.

(** The steps of a client and of its requests when nothing fails. *)
Definition lossless (a : ClientAct) : bool := match a with AFail _ | AStop | ARestart => false | _ => true end.

Inductive SysAct :=
| HCreate (req : CreatePresetRequest) (now : bytes) (saved : bool)
| HUpdate (name : bytes) (req : CreatePresetRequest) (now : bytes) (saved : bool)
| HDelete (name : bytes) (deleted : bool)
| HRestart (files : list (bytes * Preset))
| CJoin (i : nat) (cache_dir hub_url name : bytes) (interval : Z)
| CAct (i : nat) (a : ClientAct).

Definition published (s : Sys) (r : PresetHub * reply Preset) : Sys :=
  {| sy_hub := r.1; sy_clients := sy_clients s; sy_hist := match r.2 with Ok p => p :: sy_hist s | Err _ => sy_hist s end |}.

(** The requests the hub holds die with it. *)
Definition hub_gone (c : Client) : Client := match cl_net c with NWaiter _ => set_net c NDead | _ => c end.

Definition client_new (cache_dir hub_url name : bytes) (interval : Z) : Client :=
  {| cl_watch := watch_start (PresetCache_new cache_dir hub_url name) interval; cl_net := NIdle; cl_disk := ∅; cl_got := []; cl_rules := [] |}.

Definition with_client (s : Sys) (i : nat) (c : Client) : Sys :=
  {| sy_hub := sy_hub s; sy_clients := <[i := c]> (sy_clients s); sy_hist := sy_hist s |}.

Definition sys_act (s : Sys) (a : SysAct) : option Sys :=
  match a with
  | HCreate req now saved => Some (published s (create_preset (sy_hub s) req now saved))
  | HUpdate name req now saved => Some (published s (update_preset (sy_hub s) name req now saved))
  | HDelete name deleted =>
      Some {| sy_hub := (delete_preset (sy_hub s) name deleted).1; sy_clients := sy_clients s; sy_hist := sy_hist s |}
  | HRestart files =>
      if bool_decide (list_to_map files = ph_disk (sy_hub s) /\ NoDup files.*1) then
        Some {| sy_hub := hydrate_presets (sy_hub s) files; sy_clients := hub_gone <$> sy_clients s; sy_hist := sy_hist s |}
      else None
  | CJoin i cache_dir hub_url name interval =>
      match sy_clients s !! i with Some _ => None | None => Some (with_client s i (client_new cache_dir hub_url name interval)) end
  | CAct i act => c ← sy_clients s !! i; c' ← client_act (sy_hub s) c act; Some (with_client s i c')
  end.

(** Presets are never deleted and no version reaches the end of its 64 bits. *)
Definition calm_act (s : Sys) (a : SysAct) : Prop :=
  match a with
  | HDelete _ _ => False
  | HUpdate name _ _ _ => forall p, ph_presets (sy_hub s) !! name = Some p -> p_version p < U64_MAX
  | _ => True
  end.

Inductive reachable : Sys -> Prop :=
| reach_init signing : reachable (Sys_init signing)
| reach_step s a s' : reachable s -> sys_act s a = Some s' -> reachable s'.

Inductive calm_reachable : Sys -> Prop :=
| calm_init signing : calm_reachable (Sys_init signing)
| calm_step s a s' : calm_reachable s -> calm_act s a -> sys_act s a = Some s' -> calm_reachable s'.

Lemma calm_reachable_reachable s : calm_reachable s -> reachable s.
Proof. induction 1; [constructor | by eapply reach_step]. Qed.

(** ** The wake-up of a waiting request *)

Definition waiter_ok (h : PresetHub) (w : Waiter) : Prop :=
  wt_seen w <= ph_gen h /\
  (wt_phase w = WaitSleep -> wt_seen w = ph_gen h ->
   forall p, ph_presets h !! wt_name w = Some p -> p_version p = wt_version w).

Definition seen_ok (h : PresetHub) (c : Client) : Prop := match cl_net c with NWaiter w => waiter_ok h w | _ => True end.

(** A change of the tables: the generation moves, or presets only go away. *)
Definition hub_evo (h h' : PresetHub) : Prop :=
  ph_gen h < ph_gen h' \/
  (ph_gen h = ph_gen h' /\ forall n p, ph_presets h' !! n = Some p -> ph_presets h !! n = Some p).

Lemma create_evo h req now saved : hub_evo h (create_preset h req now saved).1.
Proof.
  unfold create_preset. repeat case_match; cbn [fst]; try (right; by split); left; cbn; unfold bump_generation; lia.
Qed.

Lemma update_evo h name req now saved : hub_evo h (update_preset h name req now saved).1.
Proof.
  unfold update_preset. repeat case_match; cbn [fst]; try (right; by split); left; cbn; unfold bump_generation; lia.
Qed.

Lemma delete_evo h name deleted : hub_evo h (delete_preset h name deleted).1.
Proof.
  unfold delete_preset. destruct (ph_presets h !! name); [| right; by split]. destruct deleted; cbn [fst].
  - left. cbn. unfold bump_generation. lia.
  - right. split; [done |]. intros n p'. cbn. by intros [_ H]%lookup_delete_Some.
Qed.

Lemma seen_ok_evo h h' c : hub_evo h h' -> seen_ok h c -> seen_ok h' c.
Proof.
  unfold seen_ok, waiter_ok. destruct (cl_net c); try done. intros [Hg | [Hg Hp]] [H1 H2]; (split; [lia |]).
  - intros _ H. lia.
  - intros Hs Hw p H. apply H2; [done | lia | by apply Hp].
Qed.

Lemma feed_net c ev c' : feed c ev = Some c' -> cl_net c' = NIdle.
Proof. unfold feed. destruct (watch_step _ _ _) as [[[w d] o] |]; [| done]. by intros [= <-]. Qed.

Lemma client_act_seen h c a c' : seen_ok h c -> client_act h c a = Some c' -> seen_ok h c'.
Proof.
  intros Hok Ha. destruct a; cbn [client_act] in Ha.
  - destruct (wl_phase _); try done. apply feed_net in Ha. unfold seen_ok. by rewrite Ha.
  - destruct (cl_net c); try done. destruct (wl_phase _); try done; injection Ha as <-; [done | done |]. split; [cbn; lia | done].
  - unfold seen_ok in Hok. destruct (cl_net c) as [| w | | | |]; try done. destruct (wt_phase w) eqn:Ew; [| done]. injection Ha as <-.
    unfold wait_check. destruct (ph_presets h !! wt_name w) as [p |] eqn:Ep; [| done].
    destruct (Z.eqb_spec (p_version p) (wt_version w)) as [Hv |]; [| done]. cbn [negb].
    destruct (sat_sub _ _ =? 0); [done |]. split; [apply Hok |]. cbn [wt_phase wt_name wt_version]. intros _ _ p'. rewrite Ep. by intros [= <-].
  - destruct (cl_net c) as [| w | | | |]; try done. destruct (wt_phase w); [done |]. unfold wait_changed in Ha.
    destruct (_ =? _); [done |]. injection Ha as <-. split; [cbn; lia | done].
  - destruct (cl_net c) as [| w | | | |]; try done. destruct (wt_phase w); [done |]. unfold wait_elapsed in Ha.
    destruct (_ <=? _); [| done]. by injection Ha as <-.
  - assert (exists ev, feed c ev = Some c') as [ev Hf]; [| apply feed_net in Hf; unfold seen_ok; by rewrite Hf].
    destruct (cl_net c); try done; [| eauto..]. unfold mbind, option_bind in Ha. destruct (fail_event _ _); [eauto | done].
  - unfold mbind, option_bind in Ha. destruct (fail_event _ _); [| done]. apply feed_net in Ha. unfold seen_ok. by rewrite Ha.
  - apply feed_net in Ha. unfold seen_ok. by rewrite Ha.
  - by injection Ha as <-.
Qed.

(** A property of every client, kept by what the clients do and by what the hub does. *)
Lemma with_client_forall (P : Client -> Prop) s i c :
  (forall j d, sy_clients s !! j = Some d -> P d) -> P c ->
  forall j d, sy_clients (with_client s i c) !! j = Some d -> P d.
Proof.
  intros Hall Hc j d. cbn. intros [[<- <-] | [_ H]]%lookup_insert_Some; [done | by eapply Hall].
Qed.

Lemma reachable_seen s : reachable s -> forall i c, sy_clients s !! i = Some c -> seen_ok (sy_hub s) c.
Proof.
  induction 1 as [signing | s a s' Hr IH Ha]; [done |]. destruct a; cbn [sys_act] in Ha.
  - injection Ha as <-. intros i c Hc. eapply seen_ok_evo; [apply create_evo | by apply (IH i)].
  - injection Ha as <-. intros i c Hc. eapply seen_ok_evo; [apply update_evo | by apply (IH i)].
  - injection Ha as <-. intros i c Hc. eapply seen_ok_evo; [apply delete_evo | by apply (IH i)].
  - case_bool_decide; [| done]. injection Ha as <-. intros i c. cbn. rewrite lookup_fmap. destruct (sy_clients s !! i) as [c0 |]; [| done].
    intros [= <-]. unfold hub_gone, seen_ok. by destruct (cl_net c0) eqn:E; cbn; rewrite ?E.
  - destruct (sy_clients s !! i) eqn:E; [done |]. injection Ha as <-. by apply with_client_forall.
  - destruct (sy_clients s !! i) as [c |] eqn:E; [| done]. cbn in Ha. destruct (client_act _ _ _) as [c' |] eqn:Ec; [| done].
    injection Ha as <-. apply with_client_forall; [done |]. eapply client_act_seen; [| done]. by apply (IH i).
Qed.

(** no publication is slept through. In every run of hub and clients, with deletions,
    failing writes and restarts, a waiting request that sleeps while the hub has its
    preset in another version than the one the request carries is due to wake, and once
    awake it answers with that preset, however late it is. *)
Theorem no_lost_wakeup s i c w p :
  reachable s -> sy_clients s !! i = Some c -> cl_net c = NWaiter w -> wt_phase w = WaitSleep ->
  ph_presets (sy_hub s) !! wt_name w = Some p -> p_version p <> wt_version w ->
  exists w', wait_changed (sy_hub s) w = Some w' /\ forall now, wait_check (sy_hub s) w' now = inr (Ok p).
Proof.
  intros Hr Hc Hn Hs Hp Hv. pose proof (reachable_seen s Hr i c Hc) as Hok. unfold seen_ok in Hok. rewrite Hn in Hok.
  destruct Hok as [_ Hok]. unfold wait_changed. destruct (Z.eqb_spec (ph_gen (sy_hub s)) (wt_seen w)) as [E |].
  - by specialize (Hok Hs (eq_sym E) p Hp).
  - eexists. split; [done |]. intros now. unfold wait_check. cbn [wt_name wt_version]. rewrite Hp.
    destruct (Z.eqb_spec (p_version p) (wt_version w)); done.
Qed.

(** ** The hub without deletions *)

Record hub_inv (h : PresetHub) (hist : list Preset) : Prop := {
  hi_tab : forall n p, ph_presets h !! n = Some p -> p_name p = n /\ p ∈ hist;
  hi_disk : ph_disk h = ph_presets h;
  hi_hist : forall p, p ∈ hist -> 1 <= p_version p /\
    exists q, ph_presets h !! p_name p = Some q /\ (p = q \/ p_version p < p_version q);
  hi_uniq : forall p q, p ∈ hist -> q ∈ hist -> p_name p = p_name q -> p_version p = p_version q -> p = q
}.

(** One more preset, with a version above those of its name. *)
Lemma hub_inv_publish h hist n p :
  hub_inv h hist -> p_name p = n -> 1 <= p_version p -> (forall q, ph_presets h !! n = Some q -> p_version q < p_version p) ->
  hub_inv (upd_presets h (<[n := p]> (ph_presets h)) (<[n := p]> (ph_disk h)) (bump_generation h)) (p :: hist).
Proof.
  intros [Ht Hd Hh Hu] <- Hv Hn.
  assert (Hlow : forall q, q ∈ hist -> p_name q = p_name p -> p_version q < p_version p).
  { intros q Hq Eq. destruct (Hh q Hq) as (_ & r & Hr & Hle). rewrite Eq in Hr. pose proof (Hn r Hr). destruct Hle as [-> |]; lia. }
  split; cbn.
  - intros n q [[<- <-] | [_ H]]%lookup_insert_Some; [split; [done | by left] |]. destruct (Ht n q H). split; [done | by right].
  - by rewrite Hd.
  - intros q [-> | Hq]%elem_of_cons.
    + split; [done |]. exists p. rewrite lookup_insert_eq. auto.
    + destruct (Hh q Hq) as (H1 & r & Hr & Hle). split; [done |]. destruct (decide (p_name q = p_name p)) as [E | E].
      * exists p. rewrite E, lookup_insert_eq. auto.
      * exists r. by rewrite lookup_insert_ne by done.
  - intros q r [-> | Hq]%elem_of_cons [-> | Hr]%elem_of_cons En Ev; [done | | | by apply Hu].
    + pose proof (Hlow r Hr (eq_sym En)). lia.
    + pose proof (Hlow q Hq En). lia.
Qed.

Lemma create_inv h hist req now saved :
  hub_inv h hist -> let r := create_preset h req now saved in
  hub_inv r.1 (match r.2 with Ok p => p :: hist | Err _ => hist end).
Proof.
  intros Hi. cbn zeta. unfold create_preset. destruct (validate_slug _); [| done]. destruct (validate_rules_size _); [| done].
  destruct (ph_presets h !! cq_name req) as [q |] eqn:E; [done |]. destruct saved; [| done]. cbn [fst snd].
  apply hub_inv_publish; [done | done | done |]. cbn. by rewrite E.
Qed.

Lemma update_inv h hist name req now saved :
  hub_inv h hist -> (forall p, ph_presets h !! name = Some p -> p_version p < U64_MAX) ->
  let r := update_preset h name req now saved in
  hub_inv r.1 (match r.2 with Ok p => p :: hist | Err _ => hist end).
Proof.
  intros Hi Hmax. cbn zeta. unfold update_preset. destruct (validate_rules_size _); [| done].
  destruct (ph_presets h !! name) as [q |] eqn:E; [| done]. destruct saved; [| done]. cbn [fst snd].
  specialize (Hmax q eq_refl). destruct (hi_tab _ _ Hi name q E) as [Hq1 Hq2]. destruct (hi_hist _ _ Hi q Hq2) as [Hq3 _].
  assert (u64 (p_version q + 1) = p_version q + 1) as Eu by (unfold u64, U64_MAX in *; apply Z.mod_small; lia).
  apply hub_inv_publish; [done | done | cbn; lia |]. rewrite E. intros r [= <-]. cbn. lia.
Qed.

Lemma load_all_spec (files : list (bytes * Preset)) (m : gmap bytes Preset) :
  (forall n p, (n, p) ∈ files -> p_name p = n) ->
  foldl (fun (m : gmap bytes Preset) e => <[p_name e.2 := e.2]> m) m files = foldl (fun (m : gmap bytes Preset) e => <[e.1 := e.2]> m) m files.
Proof.
  revert m. induction files as [| [n p] files IH]; intros m Hn; [done |]. cbn. rewrite (Hn n p) by by left. apply IH.
  intros ? ? ?. apply Hn. by right.
Qed.

Lemma foldl_insert_map (files : list (bytes * Preset)) (m : gmap bytes Preset) :
  NoDup files.*1 -> foldl (fun (m : gmap bytes Preset) e => <[e.1 := e.2]> m) m files = list_to_map files ∪ m.
Proof.
  revert m. induction files as [| [n p] files IH]; intros m; cbn [foldl fst snd].
  - intros _. change (list_to_map []) with (∅ : gmap bytes Preset). by rewrite (left_id_L ∅ (∪)).
  - rewrite fmap_cons. intros [Hn Hnd]%NoDup_cons. rewrite IH by done.
    change (list_to_map ((n, p) :: files)) with (<[n := p]> (list_to_map files : gmap bytes Preset)).
    rewrite <- insert_union_l. symmetry. apply insert_union_r. by apply not_elem_of_list_to_map_1.
Qed.

Lemma restart_inv h hist files :
  hub_inv h hist -> list_to_map files = ph_disk h -> NoDup files.*1 -> hub_inv (hydrate_presets h files) hist.
Proof.
  intros Hi Hf Hnd. assert (load_all_presets files = ph_presets h) as E.
  { unfold load_all_presets. rewrite load_all_spec, foldl_insert_map by (try done; intros n p Hp;
      apply (hi_tab _ _ Hi); rewrite <- (hi_disk _ _ Hi), <- Hf; by apply elem_of_list_to_map).
    rewrite Hf, (hi_disk _ _ Hi). apply (right_id_L ∅ (∪)). }
  destruct Hi as [H1 H2 H3 H4]. unfold hydrate_presets. rewrite E. by split.
Qed.

(** ** The clients *)

(** A published preset of the name, newer than what is cached. *)
Definition fresh (hist : list Preset) (c : Client) (p : Preset) : Prop :=
  p ∈ hist /\ p_name p = client_name c /\ wait_version (client_cache c) < p_version p.

Definition net_inv (hist : list Preset) (c : Client) : Prop :=
  match cl_net c, wl_phase (cl_watch c) with
  | NIdle, WFetching => exists p, fresh hist c p
  | NIdle, _ => True
  | NWaiter w, WWaiting => wt_name w = client_name c /\ wt_version w = wait_version (client_cache c)
  | NDead, WWaiting => True
  | NList r, WListing => exists l, r = Http 200 (Ok l) /\ forall s, s ∈ l -> exists p, p ∈ hist /\ s = Preset_summary p
  | NPreset r, WFetching => (exists p, r = Http 200 (Ok p) /\ fresh hist c p) \/ r = Http 404 (Err [])
  | NWait r, WWaiting => (exists p, r = Http 200 (Ok p) /\ fresh hist c p) \/ r = Http 404 (Err []) \/ r = Http 304 (Err [])
  | _, _ => False
  end.

Record client_inv (hist : list Preset) (c : Client) : Prop := {
  ci_cached : forall p, pc_cached (client_cache c) = Some p -> p ∈ hist /\ p_name p = client_name c;
  ci_disk : forall p, read_preset (cl_disk c) (cache_file (pc_dir (client_cache c)) (client_name c)) = Some p ->
    p ∈ hist /\ p_name p = client_name c;
  ci_net : net_inv hist c;
  ci_rules : cl_rules c = map p_rules (cl_got c);
  ci_sorted : StronglySorted (fun p q => p_version q < p_version p) (cl_got c);
  ci_got : Forall (fun p => p ∈ hist /\ p_name p = client_name c) (cl_got c);
  ci_head : forall p, head (cl_got c) = Some p -> pc_cached (client_cache c) = Some p
}.

Lemma client_inv_mono hist p c : client_inv hist c -> client_inv (p :: hist) c.
Proof.
  assert (Hf : forall q, fresh hist c q -> fresh (p :: hist) c q) by (intros q (H1 & H2 & H3); split_and!; [by right | done | done]).
  intros [H1 H2 H3 H4 H5 H6 H7]. split; try done.
  - intros q Hq. destruct (H1 q Hq). split; [by right | done].
  - intros q Hq. destruct (H2 q Hq). split; [by right | done].
  - unfold net_inv in *. destruct (cl_net c), (wl_phase _); try done.
    + destruct H3 as [q Hq]. eauto.
    + destruct H3 as (l & -> & Hl). exists l. split; [done |]. intros s Hs. destruct (Hl s Hs) as (q & ? & ?). exists q. split; [by right | done].
    + destruct H3 as [(q & -> & Hq) | ->]; eauto.
    + destruct H3 as [(q & -> & Hq) | [-> | ->]]; eauto.
  - eapply Forall_impl; [done |]. intros q [? ?]. split; [by right | done].
Qed.

(** *** What an event does to a client *)

Definition moved (c : Client) (backoff : Z) (ph : WatchPhase) : Client :=
  {| cl_watch := watch_to (cl_watch c) (client_cache c) backoff ph; cl_net := NIdle; cl_disk := cl_disk c; cl_got := cl_got c;
     cl_rules := cl_rules c |}.

Definition accepted (c : Client) (p : Preset) (f : SaveFault) (backoff : Z) : Client :=
  {| cl_watch := watch_to (cl_watch c) (set_cached (client_cache c) p) backoff WWaiting; cl_net := NIdle;
     cl_disk := (write_to_disk (cl_disk c) (pc_dir (client_cache c)) p f).1; cl_got := p :: cl_got c;
     cl_rules := p_rules p :: cl_rules c |}.

Lemma http_body_ok {A} bad (r : HttpReply A) a : http_body bad r = Ok a -> exists st, is_success st = true /\ r = Http st (Ok a).
Proof. destruct r as [e | e | st [b | e]]; cbn; try done; destruct (is_success st) eqn:E; try done. intros [= <-]. eauto. Qed.

Lemma feed_preset c r f : wl_phase (cl_watch c) = WFetching ->
  feed c (EvPreset r f) = Some (match http_body (str "bad preset: ") r with
                                | Ok p => accepted c p f (wl_backoff (cl_watch c))
                                | Err _ => moved c (wl_backoff (cl_watch c)) WWaiting
                                end).
Proof. intros E. unfold feed, watch_step, refresh_fetch. rewrite E. by destruct (http_body _ r). Qed.

Lemma feed_wait c r f : wl_phase (cl_watch c) = WWaiting ->
  feed c (EvWait r f) = Some (
    if not_modified r then moved c 0 WWaiting else
    match http_body (str "bad preset: ") r with
    | Ok p => accepted c p f 0
    | Err _ => let b := next_backoff (wl_backoff (cl_watch c)) (wl_interval (cl_watch c)) in
               moved c b (if b =? 0 then WWaiting else WSleeping)
    end).
Proof.
  intros E. unfold feed, watch_step, wait_for_update, refresh_fetch. rewrite E. destruct (not_modified r); [done |]. by destruct (http_body _ r).
Qed.

Lemma feed_list c r : wl_phase (cl_watch c) = WListing ->
  feed c (EvList r) = Some (moved c (wl_backoff (cl_watch c))
    (match refresh_list (client_cache c) r with Some _ => WWaiting | None => WFetching end)).
Proof. intros E. unfold feed, watch_step. rewrite E. by destruct (refresh_list _ r) as [o |]. Qed.

(** A failed exchange leaves the caches alone. *)
Lemma feed_failed c e c' :
  fail_event c e ≫= feed c = Some c' -> exists b ph, c' = moved c b ph /\ ph <> WFetching.
Proof.
  unfold fail_event. destruct (wl_phase (cl_watch c)) eqn:E; try done; cbn [mbind option_bind].
  - rewrite feed_list by done. intros [= <-]. eauto.
  - rewrite feed_preset by done. intros [= <-]. eauto.
  - rewrite feed_wait by done. intros [= <-]. cbn. eexists _, _. split; [done |]. by destruct (_ =? 0).
Qed.

(** ** The invariant of the clients *)

Lemma moved_inv hist c b ph :
  client_inv hist c -> (ph = WFetching -> exists p, fresh hist c p) -> client_inv hist (moved c b ph).
Proof. intros [H1 H2 H3 H4 H5 H6 H7] Hf. split; try done. unfold net_inv. cbn. destruct ph; try done. by apply Hf. Qed.

Lemma accepted_inv hist c p f b : client_inv hist c -> fresh hist c p -> client_inv hist (accepted c p f b).
Proof.
  intros [H1 H2 H3 H4 H5 H6 H7] (Hp & Hn & Hv). split; cbn.
  - by intros q [= <-].
  - intros q. rewrite written_at. destruct (_ && _); [by intros [= <-] | apply H2].
  - done.
  - by rewrite H4.
  - constructor; [done |]. destruct (cl_got c) as [| q got] eqn:E; [done |].
    assert (p_version q < p_version p) as Hq by (unfold wait_version, cached_version in Hv; by rewrite (H7 q eq_refl) in Hv).
    constructor; [done |]. apply StronglySorted_inv in H5 as [_ H5]. eapply Forall_impl; [done |]. cbn. lia.
  - by constructor.
  - by intros q [= <-].
Qed.

Lemma newer_fresh h hist c p q :
  hub_inv h hist -> ph_presets h !! client_name c = Some p -> q ∈ hist -> p_name q = client_name c ->
  wait_version (client_cache c) <= p_version q -> p_version p <> wait_version (client_cache c) -> fresh hist c p.
Proof.
  intros Hi Hp Hq Hn Hle Hne. destruct (hi_tab _ _ Hi _ _ Hp) as [H1 H2]. destruct (hi_hist _ _ Hi q Hq) as (_ & r & Hr & Hv).
  rewrite Hn, Hp in Hr. injection Hr as <-. split_and!; [done | done |]. destruct Hv as [-> |]; lia.
Qed.

(** What the hub has in another version than the client is newer. *)
Lemma other_fresh h hist c p :
  hub_inv h hist -> client_inv hist c -> ph_presets h !! client_name c = Some p ->
  p_version p <> wait_version (client_cache c) -> fresh hist c p.
Proof.
  intros Hi Hc Hp Hne. destruct (hi_tab _ _ Hi _ _ Hp) as [H1 H2]. destruct (pc_cached (client_cache c)) as [q |] eqn:Eq.
  - destruct (ci_cached _ _ Hc q Eq) as [Hq Hn]. eapply newer_fresh; [done | done | done | done | | done].
    unfold wait_version, cached_version. rewrite Eq. done.
  - split_and!; [done | done |]. unfold wait_version, cached_version. rewrite Eq. cbn. by destruct (hi_hist _ _ Hi p H2); lia.
Qed.

(** The list sends the poll on only for a version that is newer than the cached one. *)
Lemma refresh_list_fresh h hist c l :
  hub_inv h hist -> (forall s, s ∈ l -> exists p, p ∈ hist /\ s = Preset_summary p) ->
  refresh_list (client_cache c) (Http 200 (Ok l)) = None -> exists p, fresh hist c p.
Proof.
  intros Hi Hl. unfold refresh_list. cbn.
  destruct (List.find _ l) as [s |] eqn:Es; cbn; [| done]. apply find_some in Es as [Hs Hn]. apply list_elem_of_In in Hs.
  apply bool_decide_eq_true in Hn. destruct (Hl s Hs) as (p & Hp & ->). intros Hr. exists p. split_and!; [done | done |].
  unfold wait_version. destruct (cached_version (client_cache c)) as [v |]; cbn.
  - destruct (Z.leb_spec (sm_version (Preset_summary p)) v) as [| H]; [done | exact H].
  - destruct (hi_hist _ _ Hi p Hp). lia.
Qed.

Lemma set_net_inv hist c n : client_inv hist c -> net_inv hist (set_net c n) -> client_inv hist (set_net c n).
Proof. intros [H1 H2 H3 H4 H5 H6 H7] Hn. by split. Qed.

Lemma summaries_published h hist s : hub_inv h hist -> s ∈ (list_presets_hub h).2 -> exists p, p ∈ hist /\ s = Preset_summary p.
Proof.
  intros Hi. unfold list_presets_hub. cbn [snd]. rewrite (isort_perm _ _). intros ([n p] & -> & Hp)%list_elem_of_fmap.
  apply elem_of_map_to_list in Hp. exists p. split; [| done]. by destruct (hi_tab _ _ Hi n p Hp).
Qed.

Lemma send_inv h hist c now c' :
  hub_inv h hist -> client_inv hist c -> client_act h c (ASend now) = Some c' -> client_inv hist c'.
Proof.
  intros Hi Hc Ha. cbn [client_act] in Ha. pose proof (ci_net _ _ Hc) as Hn. unfold net_inv in Hn.
  destruct (cl_net c); try done. destruct (wl_phase (cl_watch c)) eqn:Eph; try done; injection Ha as <-; apply set_net_inv; try done;
    unfold net_inv; cbn [cl_net set_net cl_watch]; rewrite Eph.
  - eexists. split; [done |]. intros s. by apply summaries_published.
  - destruct Hn as (q & Hq1 & Hq2 & Hq3). unfold get_preset. destruct (ph_presets h !! client_name c) as [p |] eqn:Ep; [left | by right].
    exists p. split; [done |]. destruct (hi_tab _ _ Hi _ _ Ep) as [H1 H2]. destruct (hi_hist _ _ Hi q Hq1) as (_ & r & Hr & Hle).
    rewrite Hq2, Ep in Hr. injection Hr as <-. split_and!; [done | done |]. destruct Hle as [-> | Hlt]; [done |]. exact (Z.lt_trans _ _ _ Hq3 Hlt).
  - done.
Qed.

Lemma check_inv h hist c now c' :
  hub_inv h hist -> client_inv hist c -> client_act h c (ACheck now) = Some c' -> client_inv hist c'.
Proof.
  intros Hi Hc Ha. cbn [client_act] in Ha. pose proof (ci_net _ _ Hc) as Hn. unfold net_inv in Hn.
  destruct (cl_net c) as [| w | | | |] eqn:Enet; try done. destruct (wt_phase w); [| done]. injection Ha as <-.
  destruct (wl_phase (cl_watch c)) eqn:Eph; try done. destruct Hn as [Hn1 Hn2].
  apply set_net_inv; [done |]. unfold net_inv, wait_check. rewrite Hn1, Hn2.
  destruct (ph_presets h !! client_name c) as [p |] eqn:Ep; cbn [cl_net set_net cl_watch]; rewrite ?Eph; [| by right; left].
  destruct (Z.eqb_spec (p_version p) (wait_version (client_cache c))) as [| Hv]; cbn [negb].
  - destruct (sat_sub _ _ =? 0); rewrite ?Eph; [by right; right | done].
  - rewrite ?Eph. left. exists p. split; [done |]. by eapply (other_fresh h hist c p).
Qed.

Lemma deliver_inv h hist c f c' :
  hub_inv h hist -> client_inv hist c -> client_act h c (ADeliver f) = Some c' -> client_inv hist c'.
Proof.
  intros Hi Hc Ha. cbn [client_act] in Ha. pose proof (ci_net _ _ Hc) as Hn. unfold net_inv in Hn.
  destruct (cl_net c) as [| w | | r | r | r] eqn:Enet; try done.
  - apply feed_failed in Ha as (b & ph & -> & Hph). by apply moved_inv.
  - destruct (wl_phase (cl_watch c)) eqn:Eph; try done. destruct Hn as (l & -> & Hl). rewrite feed_list in Ha by done. injection Ha as <-.
    apply moved_inv; [done |]. destruct (refresh_list _ _) eqn:El; [done |]. intros _. by eapply refresh_list_fresh.
  - destruct (wl_phase (cl_watch c)) eqn:Eph; try done. rewrite feed_preset in Ha by done. injection Ha as <-.
    destruct Hn as [(p & -> & Hp) | ->]; [by apply accepted_inv | by apply moved_inv].
  - destruct (wl_phase (cl_watch c)) eqn:Eph; try done. rewrite feed_wait in Ha by done. injection Ha as <-.
    destruct Hn as [(p & -> & Hp) | [-> | ->]]; [by apply accepted_inv | | by apply moved_inv].
    apply moved_inv; [done |]. cbn. by destruct (_ =? 0).
Qed.

Lemma restart_client_inv hist c : client_inv hist c -> client_inv hist (client_restart c).
Proof.
  intros [H1 H2 H3 H4 H5 H6 H7].
  assert (client_restart c = {| cl_watch := watch_start
    {| pc_dir := pc_dir (client_cache c); pc_hub_url := trim_end_slashes (pc_hub_url (client_cache c)); pc_preset_name := client_name c;
       pc_cached := read_preset (cl_disk c) (cache_file (pc_dir (client_cache c)) (client_name c)) |} (wl_interval (cl_watch c));
    cl_net := NIdle; cl_disk := cl_disk c; cl_got := []; cl_rules := [] |}) as ->.
  { unfold client_restart, load_from_disk. cbn [PresetCache_new pc_dir pc_preset_name]. by destruct (read_preset _ _). }
  split; try done; constructor.
Qed.

Lemma client_act_inv h hist c a c' :
  hub_inv h hist -> client_inv hist c -> client_act h c a = Some c' -> client_inv hist c'.
Proof.
  intros Hi Hc. destruct a; [| by apply send_inv | by apply check_inv | | | by apply deliver_inv | | |]; cbn [client_act]; intros Ha.
  - unfold feed, watch_step in Ha. destruct (wl_phase (cl_watch c)) eqn:Eph; try done. injection Ha as <-. by apply (moved_inv hist c).
  - pose proof (ci_net _ _ Hc) as Hn. unfold net_inv in Hn. destruct (cl_net c) as [| w | | | |]; try done. destruct (wt_phase w); [done |].
    unfold wait_changed in Ha. destruct (_ =? _); [done |]. injection Ha as <-.
    apply set_net_inv; [done |]. unfold net_inv. cbn. by destruct (wl_phase (cl_watch c)).
  - pose proof (ci_net _ _ Hc) as Hn. unfold net_inv in Hn. destruct (cl_net c) as [| w | | | |]; try done. destruct (wt_phase w); [done |].
    unfold wait_elapsed in Ha. destruct (_ <=? _); [| done]. injection Ha as <-.
    apply set_net_inv; [done |]. unfold net_inv. cbn. destruct (wl_phase (cl_watch c)); try done. by right; right.
  - apply feed_failed in Ha as (b & ph & -> & Hph). by apply moved_inv.
  - unfold feed, watch_step in Ha. destruct (wl_phase (cl_watch c)); try done; injection Ha as <-; by apply (moved_inv hist c).
  - injection Ha as <-. apply restart_client_inv, Hc.
Qed.

Lemma calm_inv s : calm_reachable s ->
  hub_inv (sy_hub s) (sy_hist s) /\ forall i c, sy_clients s !! i = Some c -> client_inv (sy_hist s) c.
Proof.
  induction 1 as [signing | s a s' Hr [IHh IHc] Hcalm Ha].
  - split; [| done]. split; cbn; [done | done | |]; intros p; by intros ?%elem_of_nil || (intros q ?%elem_of_nil).
  - destruct a; cbn [sys_act calm_act] in Ha, Hcalm.
    + injection Ha as <-. split; [by apply create_inv |]. intros i c Hc. cbn. destruct (create_preset _ _ _ _).2; [| by eapply IHc].
      eapply client_inv_mono, IHc, Hc.
    + injection Ha as <-. split; [by apply update_inv |]. intros i c Hc. cbn. destruct (update_preset _ _ _ _ _).2; [| by eapply IHc].
      eapply client_inv_mono, IHc, Hc.
    + done.
    + case_bool_decide as Hf; [| done]. injection Ha as <-. destruct Hf. split; [by apply restart_inv |]. intros i c. cbn.
      rewrite lookup_fmap. destruct (sy_clients s !! i) as [c0 |] eqn:E; [| done]. intros [= <-]. pose proof (IHc i c0 E) as Hi.
      unfold hub_gone. destruct (cl_net c0) as [| w | | | |] eqn:En; try done. apply set_net_inv; [done |].
      pose proof (ci_net _ _ Hi) as Hn. unfold net_inv in *. rewrite En in Hn. cbn. by destruct (wl_phase (cl_watch c0)).
    + destruct (sy_clients s !! i) eqn:E; [done |]. injection Ha as <-. split; [done |]. apply with_client_forall; [done |].
      split; try done; constructor.
    + destruct (sy_clients s !! i) as [c |] eqn:E; [| done]. cbn in Ha. destruct (client_act _ _ _) as [c' |] eqn:Ec; [| done].
      injection Ha as <-. split; [done |]. apply with_client_forall; [done |]. eapply client_act_inv; [done | by eapply IHc | done].
Qed.

(** a client's rules are always some published version and never go back. In every run
    without deletions the presets a client accepts since it started have strictly
    increasing versions, each was published by the hub under the client's name, and the
    rules handed on are exactly theirs, in that order; a cached preset is a published one,
    is not ahead of the hub, and when it carries the version the hub has now it is the
    preset the hub has now, rules and all. *)
Theorem delivered_presets s i c :
  calm_reachable s -> sy_clients s !! i = Some c ->
  cl_rules c = map p_rules (cl_got c) /\
  StronglySorted (fun p q => p_version q < p_version p) (cl_got c) /\
  Forall (fun p => p ∈ sy_hist s /\ p_name p = client_name c) (cl_got c) /\
  (forall p, head (cl_got c) = Some p -> pc_cached (client_cache c) = Some p) /\
  forall p, pc_cached (client_cache c) = Some p -> p ∈ sy_hist s /\
    exists q, ph_presets (sy_hub s) !! client_name c = Some q /\ p_version p <= p_version q /\
      (p_version p = p_version q -> p = q).
Proof.
  intros Hr Hc. destruct (calm_inv s Hr) as [Hh Hcl]. specialize (Hcl i c Hc).
  split_and!; try apply Hcl. intros p Hp. destruct (ci_cached _ _ Hcl p Hp) as [H1 H2]. split; [done |].
  destruct (hi_hist _ _ Hh p H1) as (_ & q & Hq & Hle). rewrite H2 in Hq. exists q.
  split_and!; [done | destruct Hle as [-> |]; lia |]. destruct Hle as [-> | Hlt]; [done | lia].
Qed.

(** ** Progress *)

(** How far a client is from holding [p], the hub's preset of its name, in steps that lose
    nothing. *)
Definition distance (p : Preset) (c : Client) : nat :=
  if bool_decide (pc_cached (client_cache c) = Some p) then 0%nat else
  match wl_phase (cl_watch c), cl_net c with
  | WSleeping, _ => 8%nat
  | WListing, NIdle => 7%nat
  | WListing, _ => 6%nat
  | WFetching, NIdle => 5%nat
  | WFetching, NPreset (Http _ (Ok q)) => if bool_decide (q = p) then 1%nat else 4%nat
  | WFetching, _ => 4%nat
  | WWaiting, NIdle => 3%nat
  | WWaiting, NWaiter w => match wt_phase w with WaitCheck => 2%nat | WaitSleep => 5%nat end
  | WWaiting, NWait (Http _ (Ok q)) => if bool_decide (q = p) then 1%nat else 4%nat
  | WWaiting, NWait r => if not_modified r then 4%nat else 9%nat
  | WWaiting, _ => 9%nat
  | WStopped, _ => 0%nat
  end.

Lemma distance_0 p c : distance p c = 0%nat -> pc_cached (client_cache c) = Some p \/ wl_phase (cl_watch c) = WStopped.
Proof. unfold distance. case_bool_decide; [by left |]. repeat case_match; try done. by right. Qed.

Lemma distance_le p c : (distance p c <= 9)%nat.
Proof. unfold distance. repeat case_match; lia. Qed.

Lemma distance_far p c : pc_cached (client_cache c) <> Some p ->
  distance p c = match wl_phase (cl_watch c), cl_net c with
  | WSleeping, _ => 8%nat
  | WListing, NIdle => 7%nat
  | WListing, _ => 6%nat
  | WFetching, NIdle => 5%nat
  | WFetching, NPreset (Http _ (Ok q)) => if bool_decide (q = p) then 1%nat else 4%nat
  | WFetching, _ => 4%nat
  | WWaiting, NIdle => 3%nat
  | WWaiting, NWaiter w => match wt_phase w with WaitCheck => 2%nat | WaitSleep => 5%nat end
  | WWaiting, NWait (Http _ (Ok q)) => if bool_decide (q = p) then 1%nat else 4%nat
  | WWaiting, NWait r => if not_modified r then 4%nat else 9%nat
  | WWaiting, _ => 9%nat
  | WStopped, _ => 0%nat
  end.
Proof. intros H. unfold distance. by rewrite bool_decide_false. Qed.

(** One step that loses nothing, towards [p]. *)
Definition closer (p : Preset) (c c' : Client) : Prop :=
  (distance p c' < distance p c)%nat /\ client_name c' = client_name c /\ wl_phase (cl_watch c') <> WStopped /\
  (pc_cached (client_cache c') = Some p -> head (cl_rules c') = Some (p_rules p)).

Lemma closer_same p c c' :
  pc_cached (client_cache c) <> Some p -> client_cache c' = client_cache c -> wl_phase (cl_watch c') <> WStopped ->
  (distance p c' < distance p c)%nat -> closer p c c'.
Proof. intros H E Hp Hd. split_and!; [done | by unfold client_name; rewrite E | done |]. by rewrite E. Qed.

Lemma closer_accepted p c q f b :
  ((if bool_decide (q = p) then 1 else 4) <= distance p c)%nat -> closer p c (accepted c q f b).
Proof.
  intros Hd. case_bool_decide as E.
  - subst q. split_and!; try done. unfold distance at 1. by rewrite bool_decide_true.
  - split_and!; try done.
    + rewrite distance_far; [cbn; lia |]. cbn. congruence.
    + cbn. congruence.
Qed.

Section progress.
Context (h : PresetHub) (hist : list Preset) (p : Preset) (c : Client).
Context (Hi : hub_inv h hist) (Hc : client_inv hist c).
Context (Hp : ph_presets h !! client_name c = Some p) (Hne : pc_cached (client_cache c) <> Some p).

Lemma version_differs : p_version p <> wait_version (client_cache c).
Proof.
  destruct (hi_tab _ _ Hi _ _ Hp) as [Hn Hin]. unfold wait_version, cached_version.
  destruct (pc_cached (client_cache c)) as [q |] eqn:E; cbn.
  - intros Hv. destruct (ci_cached _ _ Hc q E) as [H1 H2]. apply Hne. f_equal. symmetry. apply (hi_uniq _ _ Hi); [done | done | congruence | done].
  - destruct (hi_hist _ _ Hi p Hin). lia.
Qed.

Lemma closer_send now c' : client_act h c (ASend now) = Some c' -> closer p c c'.
Proof.
  intros Ha. cbn [client_act] in Ha. destruct (cl_net c) eqn:En; try done. destruct (wl_phase (cl_watch c)) eqn:Eph; try done;
    injection Ha as <-; apply closer_same; try done; try (cbn; by rewrite Eph);
    rewrite !distance_far by done; cbn [cl_watch cl_net set_net]; rewrite Eph, En; [lia | | cbn; lia].
  unfold get_preset. rewrite Hp, bool_decide_false by done. cbn [http_of]. rewrite bool_decide_true by done. lia.
Qed.

Lemma closer_check now c' : client_act h c (ACheck now) = Some c' -> closer p c c'.
Proof.
  intros Ha. cbn [client_act] in Ha. pose proof (ci_net _ _ Hc) as Hn. unfold net_inv in Hn.
  destruct (cl_net c) as [| w | | | |] eqn:Enet; try done. destruct (wt_phase w) eqn:Ew; [| done]. injection Ha as <-.
  destruct (wl_phase (cl_watch c)) eqn:Eph; try done. destruct Hn as [Hn1 Hn2]. unfold wait_check. rewrite Hn1, Hn2, Hp.
  destruct (Z.eqb_spec (p_version p) (wait_version (client_cache c))) as [Hv | Hv]; [by destruct version_differs |]. cbn [negb http_of].
  apply closer_same; try done; [cbn; by rewrite Eph |]. rewrite !distance_far by done. cbn [cl_watch cl_net set_net]. rewrite Eph, Enet, Ew.
  rewrite bool_decide_true by done. lia.
Qed.

Lemma closer_deliver f c' : client_act h c (ADeliver f) = Some c' -> closer p c c'.
Proof.
  intros Ha. cbn [client_act] in Ha. pose proof (ci_net _ _ Hc) as Hn. unfold net_inv in Hn.
  assert (Hmoved : forall b ph, ph <> WStopped -> (distance p (moved c b ph) < distance p c)%nat -> closer p c (moved c b ph))
    by (intros; by apply closer_same).
  destruct (cl_net c) as [| w | | r | r | r] eqn:Enet; try done; destruct (wl_phase (cl_watch c)) eqn:Eph; try done.
  - unfold fail_event in Ha. rewrite Eph in Ha. cbn [mbind option_bind] in Ha. rewrite feed_wait in Ha by done. injection Ha as <-. cbn.
    apply Hmoved; [by destruct (_ =? 0) |]. rewrite !distance_far by done. cbn. rewrite Eph, Enet. destruct (_ =? 0); lia.
  - rewrite feed_list in Ha by done. injection Ha as <-. apply Hmoved; [by destruct (refresh_list _ _) |].
    rewrite !distance_far by done. cbn. rewrite Eph, Enet. destruct (refresh_list _ _); lia.
  - rewrite feed_preset in Ha by done. injection Ha as <-. destruct Hn as [(q & -> & Hq) | ->].
    + apply closer_accepted. rewrite distance_far by done. rewrite Eph, Enet. by case_bool_decide.
    + apply Hmoved; [done |]. rewrite !distance_far by done. cbn. rewrite Eph, Enet. lia.
  - rewrite feed_wait in Ha by done. injection Ha as <-. destruct Hn as [(q & -> & Hq) | [-> | ->]].
    + apply closer_accepted. rewrite distance_far by done. rewrite Eph, Enet. by case_bool_decide.
    + apply Hmoved; [by destruct (_ =? 0) |]. rewrite !distance_far by done. cbn. rewrite Eph, Enet. cbn. destruct (_ =? 0); lia.
    + apply Hmoved; [done |]. rewrite !distance_far by done. cbn. rewrite Eph, Enet. cbn. lia.
Qed.

Lemma step_closer a c' : lossless a = true -> client_act h c a = Some c' -> closer p c c'.
Proof.
  destruct a; try done; intros _; [| by apply closer_send | by apply closer_check | | | by apply closer_deliver]; cbn [client_act]; intros Ha.
  - unfold feed, watch_step in Ha. destruct (wl_phase (cl_watch c)) eqn:Eph; try done. injection Ha as <-.
    apply closer_same; try done. rewrite !distance_far by done. cbn. rewrite Eph. lia.
  - pose proof (ci_net _ _ Hc) as Hn. unfold net_inv in Hn. destruct (cl_net c) as [| w | | | |] eqn:En; try done. destruct (wt_phase w) eqn:Ew; [done |].
    unfold wait_changed in Ha. destruct (_ =? _); [done |]. injection Ha as <-. destruct (wl_phase (cl_watch c)) eqn:Eph; try done.
    apply closer_same; try done; [cbn; by rewrite Eph |]. rewrite !distance_far by done. cbn. rewrite Eph, En, Ew. lia.
  - pose proof (ci_net _ _ Hc) as Hn. unfold net_inv in Hn. destruct (cl_net c) as [| w | | | |] eqn:En; try done. destruct (wt_phase w) eqn:Ew; [done |].
    unfold wait_elapsed in Ha. destruct (_ <=? _); [| done]. injection Ha as <-. destruct (wl_phase (cl_watch c)) eqn:Eph; try done.
    apply closer_same; try done; [cbn; by rewrite Eph |]. rewrite !distance_far by done. cbn. rewrite Eph, En, Ew. cbn. lia.
Qed.

End progress.

Lemma step_stays h hist p c a c' :
  hub_inv h hist -> client_inv hist c -> ph_presets h !! client_name c = Some p -> pc_cached (client_cache c) = Some p ->
  lossless a = true -> client_act h c a = Some c' ->
  client_cache c' = client_cache c /\ cl_rules c' = cl_rules c.
Proof.
  intros Hi Hc Hp Ecur Hl Ha.
  assert (Hold : forall q, ~ fresh hist c q).
  { intros q (H1 & H2 & H3). destruct (hi_hist _ _ Hi q H1) as (_ & r & Hr & Hle). rewrite H2, Hp in Hr. injection Hr as <-.
    unfold wait_version, cached_version in H3. rewrite Ecur in H3. cbn in H3. destruct Hle as [-> |]; lia. }
  pose proof (ci_net _ _ Hc) as Hn. unfold net_inv in Hn. destruct a; try done; cbn [client_act] in Ha.
  - unfold feed, watch_step in Ha. destruct (wl_phase (cl_watch c)); try done. by injection Ha as <-.
  - destruct (cl_net c); try done. destruct (wl_phase (cl_watch c)); try done; by injection Ha as <-.
  - destruct (cl_net c) as [| w | | | |]; try done. destruct (wt_phase w); [| done]. by injection Ha as <-.
  - destruct (cl_net c) as [| w | | | |]; try done. destruct (wt_phase w); [done |]. unfold wait_changed in Ha.
    destruct (_ =? _); [done |]. by injection Ha as <-.
  - destruct (cl_net c) as [| w | | | |]; try done. destruct (wt_phase w); [done |]. unfold wait_elapsed in Ha.
    destruct (_ <=? _); [| done]. by injection Ha as <-.
  - destruct (cl_net c) as [| w | | r | r | r]; try done; destruct (wl_phase (cl_watch c)) eqn:Eph; try done.
    + apply feed_failed in Ha as (b & ph & -> & _). done.
    + rewrite feed_list in Ha by done. by injection Ha as <-.
    + rewrite feed_preset in Ha by done. destruct Hn as [(q & _ & Hq) | ->]; [by apply Hold in Hq |]. by injection Ha as <-.
    + rewrite feed_wait in Ha by done. destruct Hn as [(q & _ & Hq) | [-> | ->]]; [by apply Hold in Hq | |]; by injection Ha as <-.
Qed.

(** A run of [n] steps of one client that lose nothing, the hub staying as it is. *)
Inductive client_run (h : PresetHub) : nat -> Client -> Client -> Prop :=
| run_none c : client_run h 0 c c
| run_more n c a c1 c2 : client_run h n c c1 -> lossless a = true -> client_act h c1 a = Some c2 -> client_run h (S n) c c2.

Lemma run_inv h hist n c c' : hub_inv h hist -> client_inv hist c -> client_run h n c c' -> client_inv hist c'.
Proof. intros Hi Hc. induction 1; [done |]. eapply client_act_inv; [done | by apply IHclient_run | done]. Qed.

(** Where a run has got to: nearer, or there. *)
Lemma run_progress h hist p n c c' :
  hub_inv h hist -> client_inv hist c -> ph_presets h !! client_name c = Some p -> client_run h n c c' ->
  client_name c' = client_name c /\
  (pc_cached (client_cache c') = Some p /\ (pc_cached (client_cache c) <> Some p -> head (cl_rules c') = Some (p_rules p)) \/
   pc_cached (client_cache c') <> Some p /\ (distance p c' + n <= distance p c)%nat /\ (n = 0%nat \/ wl_phase (cl_watch c') <> WStopped)).
Proof.
  intros Hi Hc Hp. induction 1 as [c | n c a c1 c2 Hr IH Hl Ha].
  - split; [done |]. destruct (decide (pc_cached (client_cache c) = Some p)); [left | right]; split_and!; try done; [lia | by left].
  - destruct (IH Hc Hp) as [Hn Hcase]. pose proof (run_inv _ _ _ _ _ Hi Hc Hr) as Hc1. rewrite <- Hn in Hp.
    destruct Hcase as [[E1 E2] | (E1 & E2 & E3)].
    + destruct (step_stays h hist p c1 a c2 Hi Hc1 Hp E1 Hl Ha) as [Ec Er]. split; [unfold client_name in *; by rewrite Ec |]. left. by rewrite Ec, Er.
    + destruct (step_closer h hist p c1 Hi Hc1 Hp E1 a c2 Hl Ha) as (H1 & H2 & H3 & H4). split; [congruence |].
      destruct (decide (pc_cached (client_cache c2) = Some p)) as [E | E]; [left | right]; split_and!; auto; lia.
Qed.

(** A client that runs always has a step that loses nothing. *)
Lemma client_enabled h hist c : client_inv hist c -> wl_phase (cl_watch c) <> WStopped ->
  exists a c', lossless a = true /\ client_act h c a = Some c'.
Proof.
  intros Hc Hs. pose proof (ci_net _ _ Hc) as Hn. unfold net_inv in Hn.
  destruct (cl_net c) as [| w | | r | r | r] eqn:En; destruct (wl_phase (cl_watch c)) eqn:Eph; try done.
  - exists ATimer. cbn. rewrite Eph. unfold feed, watch_step. rewrite Eph. eauto.
  - exists (ASend 0). cbn. rewrite En, Eph. eauto.
  - exists (ASend 0). cbn. rewrite En, Eph. eauto.
  - exists (ASend 0). cbn. rewrite En, Eph. eauto.
  - destruct (wt_phase w) eqn:Ew.
    + exists (ACheck 0). cbn [client_act]. rewrite En, Ew. eauto.
    + exists (AElapsed (wt_deadline w)). cbn. rewrite En, Ew. unfold wait_elapsed. rewrite Z.leb_refl. eauto.
  - exists (ADeliver NoFault). cbn [client_act]. rewrite En. unfold fail_event. rewrite Eph. cbn [mbind option_bind]. rewrite feed_wait by done. eauto.
  - exists (ADeliver NoFault). cbn [client_act]. rewrite En, feed_list by done. eauto.
  - exists (ADeliver NoFault). cbn [client_act]. rewrite En, feed_preset by done. eauto.
  - exists (ADeliver NoFault). cbn [client_act]. rewrite En, feed_wait by done. eauto.
Qed.

(** C33: what the hub has reaches the client. From any state of any run without deletions,
    whatever was lost or restarted before, nine steps of a client's loop and of its
    requests that lose nothing end with the hub's preset of its name in the cache, its
    rules handed on last unless the cache held it already; and until it is stopped the
    client never gets stuck before that. *)
Theorem preset_delivered s i c p :
  calm_reachable s -> sy_clients s !! i = Some c -> ph_presets (sy_hub s) !! client_name c = Some p ->
  forall n c', client_run (sy_hub s) n c c' ->
  ((9 <= n)%nat -> pc_cached (client_cache c') = Some p /\
    (pc_cached (client_cache c) <> Some p -> head (cl_rules c') = Some (p_rules p))) /\
  (wl_phase (cl_watch c') <> WStopped -> exists a c'', lossless a = true /\ client_act (sy_hub s) c' a = Some c'').
Proof.
  intros Hr Hc Hp n c' Hrun. destruct (calm_inv s Hr) as [Hh Hcl]. specialize (Hcl i c Hc). split.
  - intros H9. destruct (run_progress _ _ _ _ _ _ Hh Hcl Hp Hrun) as [_ [H | (H1 & H2 & H3)]]; [done |].
    pose proof (distance_le p c). assert (distance p c' = 0%nat) as H0 by lia. apply distance_0 in H0. destruct H0, H3; try done; lia.
  - intros Hs. eapply client_enabled; [by eapply run_inv | done].
Qed.
End delivery.

(** ** Concrete runs *)

Section runs.
Context {B64 : Base64} {ED : Ed25519} {PJ : PresetJson}.

Definition calm_actb (s : Sys) (a : SysAct) : bool :=
  match a with
  | HDelete _ _ => false
  | HUpdate name _ _ _ => match ph_presets (sy_hub s) !! name with Some p => p_version p <? U64_MAX | None => true end
  | _ => true
  end.

(** A list of steps; [calm] asks for steps without deletions. *)
Fixpoint sys_run (calm : bool) (s : Sys) (acts : list SysAct) : option Sys :=
  match acts with
  | [] => Some s
  | a :: acts => if negb calm || calm_actb s a then s' ← sys_act s a; sys_run calm s' acts else None
  end.

Lemma calm_actb_spec s a : calm_actb s a = true -> calm_act s a.
Proof.
  destruct a; try done. cbn. intros H p Hp. rewrite Hp in H. by apply Z.ltb_lt.
Qed.

Lemma sys_run_reachable acts s s' : reachable s -> sys_run false s acts = Some s' -> reachable s'.
Proof.
  revert s. induction acts as [| a acts IH]; intros s Hr; cbn; [by intros [= <-] |].
  destruct (sys_act s a) as [s1 |] eqn:E; [| done]. cbn. apply IH. by eapply reach_step.
Qed.

Lemma sys_run_calm acts s s' : calm_reachable s -> sys_run true s acts = Some s' -> calm_reachable s'.
Proof.
  revert s. induction acts as [| a acts IH]; intros s Hr; cbn; [by intros [= <-] |].
  destruct (calm_actb s a) eqn:Ec; [| done]. destruct (sys_act s a) as [s1 |] eqn:E; [| done]. cbn. apply IH.
  eapply calm_step; [done | by apply calm_actb_spec | done].
Qed.

Fixpoint run_acts (h : PresetHub) (c : Client) (acts : list ClientAct) : option Client :=
  match acts with
  | [] => Some c
  | a :: acts => if lossless a then c' ← client_act h c a; run_acts h c' acts else None
  end.

Lemma client_run_front h n c a c1 c' : lossless a = true -> client_act h c a = Some c1 -> client_run h n c1 c' -> client_run h (S n) c c'.
Proof.
  intros Hl Ha Hr. revert Hl Ha. induction Hr as [c1 | n c1 b c2 c3 Hr IH Hlb Hb]; intros Hl Ha.
  - exact (run_more h 0 c a c c1 (run_none h c) Hl Ha).
  - exact (run_more h (S n) c b c2 c3 (IH Hl Ha) Hlb Hb).
Qed.

Lemma run_acts_run h acts c c' : run_acts h c acts = Some c' -> client_run h (length acts) c c'.
Proof.
  revert c. induction acts as [| a acts IH]; intros c; cbn; [intros [= <-]; constructor |].
  destruct (lossless a) eqn:El; [| done]. destruct (client_act h c a) as [c1 |] eqn:E; [| done]. cbn. intros H%IH. by eapply client_run_front.
Qed.

(** A client that waits with the version number the hub has now stays with what it has. *)
Definition waits_with (c : Client) (q : Preset) (rules : list RoutingConfig) : Prop :=
  pc_cached (client_cache c) = Some q /\ cl_rules c = rules /\ wl_phase (cl_watch c) = WWaiting /\
  match cl_net c with
  | NIdle => True
  | NWaiter w => wt_name w = client_name c /\ wt_version w = p_version q
  | NWait r => r = Http 304 (Err [])
  | _ => False
  end.

Lemma content_step h c a c' p q rules :
  ph_presets h !! client_name c = Some p -> p_version p = p_version q -> waits_with c q rules ->
  lossless a = true -> client_act h c a = Some c' -> client_name c' = client_name c /\ waits_with c' q rules.
Proof.
  intros Hp Hv (H1 & H2 & H3 & H4) Hl Ha. destruct a; try done; cbn [client_act] in Ha.
  - by rewrite H3 in Ha.
  - rewrite H3 in Ha. destruct (cl_net c); try done. injection Ha as <-. unfold waits_with. split_and!; try done.
    cbn. unfold wait_version, cached_version. by rewrite H1.
  - destruct (cl_net c) as [| w | | | |]; try done. destruct (wt_phase w); [| done]. injection Ha as <-. destruct H4 as [H4 H5].
    unfold wait_check. rewrite H4, Hp, H5, Hv, Z.eqb_refl. cbn [negb]. unfold waits_with.
    split; [done |]. split_and!; try done. by destruct (sat_sub _ _ =? 0).
  - destruct (cl_net c) as [| w | | | |]; try done. destruct (wt_phase w); [done |]. unfold wait_changed in Ha.
    destruct (_ =? _); [done |]. injection Ha as <-. unfold waits_with. by split_and!.
  - destruct (cl_net c) as [| w | | | |]; try done. destruct (wt_phase w); [done |]. unfold wait_elapsed in Ha.
    destruct (_ <=? _); [| done]. injection Ha as <-. unfold waits_with. by split_and!.
  - destruct (cl_net c) as [| w | | | |]; try done. subst r. rewrite feed_wait in Ha by done. injection Ha as <-. unfold waits_with. by split_and!.
Qed.

Lemma content_run h n c c' p q rules :
  ph_presets h !! client_name c = Some p -> p_version p = p_version q -> waits_with c q rules -> client_run h n c c' ->
  client_name c' = client_name c /\ waits_with c' q rules.
Proof.
  intros Hp Hv Hc Hr. induction Hr as [c | n c a c1 c2 Hr IH Hl Ha]; [done |]. destruct (IH Hp Hc) as [Hn Hc1]. rewrite <- Hn in Hp |- *.
  by eapply content_step.
Qed.

End runs.

Definition ex_request (action : string) : CreatePresetRequest :=
  {| cq_name := str "russia"; cq_description := []; cq_rules := ex_rules action |}.

(** One client of one preset: it takes version 1 and waits again; version 2 is published
    while it sleeps. *)
Definition ex_first : list SysAct :=
  [CJoin 0 (str "/var/presets") (str "https://hub") (str "russia") 300000; HCreate (ex_request "direct") (str "t") true;
   CAct 0 (ASend 0); CAct 0 (ACheck 0); CAct 0 (ADeliver NoFault); CAct 0 (ASend 0); CAct 0 (ACheck 0)].
Definition ex_second : list SysAct := ex_first ++ [HUpdate (str "russia") (ex_request "proxy") (str "t") true].

Abbreviation ex_run := (@sys_run toy_base64 toy_ed25519 toy_json).
Definition ex_sys : Sys := default (Sys_init None) (ex_run true (Sys_init None) ex_second).
Definition ex_client : Client := default (client_new [] [] [] 0) (sy_clients ex_sys !! 0%nat).

Lemma ex_sys_calm : @calm_reachable toy_base64 toy_ed25519 toy_json ex_sys.
Proof.
  assert (exists s, ex_run true (Sys_init None) ex_second = Some s) as [s Hs] by (eexists; vm_compute; reflexivity).
  unfold ex_sys. rewrite Hs. eapply sys_run_calm; [constructor | exact Hs].
Qed.

Lemma ex_client_in : sy_clients ex_sys !! 0%nat = Some ex_client.
Proof. vm_compute. reflexivity. Qed.

(** a preset that is deleted and created anew is not delivered. The new preset starts
    at version 1 again, so a client that holds version 1 of the deleted one keeps the
    rules of the deleted one, through any number of steps of its loop, although the hub
    serves others under that name. *)
Theorem recreated_preset_missed : exists s c p q,
  @reachable toy_base64 toy_ed25519 toy_json s /\ sy_clients s !! 0%nat = Some c /\
  ph_presets (sy_hub s) !! client_name c = Some p /\ pc_cached (client_cache c) = Some q /\ p_rules p <> p_rules q /\
  forall n c', @client_run toy_json (sy_hub s) n c c' ->
    pc_cached (client_cache c') = Some q /\ cl_rules c' = cl_rules c.
Proof.
  set (acts := ex_first ++ [HDelete (str "russia") true; HCreate (ex_request "proxy") (str "t") true]).
  destruct (ex_run false (Sys_init None) acts) as [s |] eqn:Es; [| vm_compute in Es; done].
  assert (Hr : @reachable toy_base64 toy_ed25519 toy_json s) by (eapply sys_run_reachable; [constructor | exact Es]).
  vm_compute in Es. injection Es as <-.
  eexists _, _, _, _. split; [exact Hr |]. split; [vm_compute; reflexivity |]. split; [vm_compute; reflexivity |].
  split; [vm_compute; reflexivity |]. split; [vm_compute; discriminate |].
  intros n c' Hrun. eapply content_run in Hrun as [_ (H1 & H2 & _)]; [split; [exact H1 | exact H2] | | | ]; try (vm_compute; reflexivity).
  vm_compute. split_and!; reflexivity.
Qed.

Lemma no_lost_wakeup_witness : exists w w' p,
  cl_net ex_client = NWaiter w /\ wt_phase w = WaitSleep /\ wait_changed (sy_hub ex_sys) w = Some w' /\
  wait_check (sy_hub ex_sys) w' 0 = inr (Ok p) /\ p_version p = 2.
Proof.
  destruct (cl_net ex_client) as [| w | | | |] eqn:En; try (vm_compute in En; discriminate).
  destruct (ph_presets (sy_hub ex_sys) !! wt_name w) as [p |] eqn:Ep; [| vm_compute in En; injection En as <-; vm_compute in Ep; discriminate].
  destruct (@no_lost_wakeup toy_base64 toy_ed25519 toy_json ex_sys 0 ex_client w p) as (w' & H1 & H2).
  - apply calm_reachable_reachable, ex_sys_calm.
  - exact ex_client_in.
  - exact En.
  - vm_compute in En. injection En as <-. reflexivity.
  - exact Ep.
  - vm_compute in En. injection En as <-. vm_compute in Ep. injection Ep as <-. vm_compute. discriminate.
  - exists w, w', p. split; [reflexivity |]. split; [vm_compute in En; injection En as <-; reflexivity |]. split; [exact H1 |]. split; [apply H2 |].
    vm_compute in En. injection En as <-. vm_compute in Ep. injection Ep as <-. reflexivity.
Defined.

Lemma delivered_presets_witness : cl_rules ex_client = map p_rules (cl_got ex_client) /\ map p_version (cl_got ex_client) = [1].
Proof.
  destruct (@delivered_presets toy_base64 toy_ed25519 toy_json ex_sys 0 ex_client ex_sys_calm ex_client_in) as [H _].
  split; [exact H | vm_compute; reflexivity].
Defined.

Definition ex_nine : list ClientAct :=
  [AChanged; ACheck 0; ADeliver NoFault; ASend 0; ACheck 0; AElapsed 60000; ADeliver NoFault; ASend 0; ACheck 0].

Lemma preset_delivered_witness : exists c',
  @client_run toy_json (sy_hub ex_sys) 9 ex_client c' /\
  p_version <$> pc_cached (client_cache c') = Some 2 /\ head (cl_rules c') = Some (ex_rules "proxy").
Proof.
  destruct (@run_acts toy_json (sy_hub ex_sys) ex_client ex_nine) as [c' |] eqn:E; [| vm_compute in E; discriminate].
  apply run_acts_run in E. exists c'. split; [exact E |].
  destruct (ph_presets (sy_hub ex_sys) !! client_name ex_client) as [p |] eqn:Ep; [| vm_compute in Ep; discriminate].
  destruct (@preset_delivered toy_base64 toy_ed25519 toy_json ex_sys 0 ex_client p ex_sys_calm ex_client_in Ep _ _ E) as [H _].
  destruct H as [H1 H2]; [cbn; lia |]. vm_compute in Ep. injection Ep as <-. rewrite H1, H2 by (vm_compute; discriminate). split; reflexivity.
Defined.
