(* ===== verification/EngineControl.v ===== *)
(** * Control of the engine: start, stop, live rules (xr-core/src/engine.rs, state.rs)

    The engine with its configuration and observable state, and the runs its starts left
    behind. A run is what its tasks share: the local rules under their lock, the active
    router, the shutdown signal, the watch loop of the preset, and the main task that warms
    the pool up and then runs the event loop. Control calls own the engine exclusively; the
    tasks of the runs step between and during them. The pool, the resolver and the packets
    are in [ServerPool], [FakeDns] and [Engine]. *)

From S2P Require Import Prelude Text Order Net UserRule Routing Obfuscation Share Presets.

(** ** Data *)

Inductive VpnState := Disconnected | Connecting | Connected | Disconnecting | VpnError (e : bytes).

#[global] Instance VpnState_eq_dec : EqDecision VpnState.
Proof. solve_decision. Defined.

(** [Display]. *)
Definition VpnState_show (s : VpnState) : bytes :=
  match s with
  | Disconnected => str "Disconnected" | Connecting => str "Connecting" | Connected => str "Connected"
  | Disconnecting => str "Disconnecting" | VpnError e => str "Error: " ++ e
  end.

Record ServerEntry := { se_name : bytes; se_address : bytes; se_port : Z; se_priority : Z }.

Definition display_name (e : ServerEntry) : bytes := match se_name e with [] => se_address e | n => n end.

(** What [start] and the control calls read of the configuration. The three settings of
    the hub are used together or not at all. *)
Record VpnConfig := {
  vc_server_address : bytes; vc_server_port : Z; vc_servers : list ServerEntry; vc_key : bytes; vc_modifier : bytes; vc_salt : Z;
  vc_routing : RoutingConfig; vc_geoip_path : option bytes; vc_on_server_down : bytes; vc_dns_resolvers : list bytes;
  vc_hub_url : option bytes; vc_hub_preset : option bytes; vc_hub_cache_dir : option bytes; vc_refresh_secs : option Z
}.

Definition set_routing (c : VpnConfig) (r : RoutingConfig) : VpnConfig :=
  {| vc_server_address := vc_server_address c; vc_server_port := vc_server_port c; vc_servers := vc_servers c; vc_key := vc_key c;
     vc_modifier := vc_modifier c; vc_salt := vc_salt c; vc_routing := r; vc_geoip_path := vc_geoip_path c;
     vc_on_server_down := vc_on_server_down c; vc_dns_resolvers := vc_dns_resolvers c; vc_hub_url := vc_hub_url c;
     vc_hub_preset := vc_hub_preset c; vc_hub_cache_dir := vc_hub_cache_dir c; vc_refresh_secs := vc_refresh_secs c |}.

(** A cache for the configured hub, empty. *)
Definition hub_cache (c : VpnConfig) : option PresetCache :=
  match vc_hub_url c, vc_hub_preset c, vc_hub_cache_dir c with
  | Some hub_url, Some preset_name, Some cache_dir => Some (PresetCache_new cache_dir hub_url preset_name)
  | _, _, _ => None
  end.

(** *** Addresses *)

(** [SocketAddr::from_str]: the address, a colon and a port; the scope of an IPv6 address
    may follow it. *)
Definition read_port : reader Z := fun l => read_number digit10 10 (zlen l) true U16_MAX l.

Definition read_socket_v4 : reader SocketAddr := fun l =>
  '(ip, l) ← read_ipv4_addr l; '(_, l) ← read_given_char 58 l; '(p, l) ← read_port l; Some (SockV4 ip p, l).

Definition read_scope : reader Z := fun l =>
  match read_given_char 37 l with
  | Some (_, l') => match read_number digit10 10 (zlen l') true U32_MAX l' with Some r => Some r | None => Some (0, l) end
  | None => Some (0, l)
  end.

Definition read_socket_v6 : reader SocketAddr := fun l =>
  '(_, l) ← read_given_char 91 l; '(ip, l) ← read_ipv6_addr l; '(scope, l) ← read_scope l; '(_, l) ← read_given_char 93 l;
  '(_, l) ← read_given_char 58 l; '(p, l) ← read_port l; Some (SockV6 ip p 0 scope, l).

Definition parse_socket_addr (s : bytes) : option SocketAddr :=
  parse_with (fun l => match read_socket_v4 l with Some r => Some r | None => read_socket_v6 l end) s.

Definition sock_of (ip : IpAddr) (port : Z) : SocketAddr := match ip with V4 a => SockV4 a port | V6 a => SockV6 a port 0 0 end.

Definition parse_dns_resolver (s : bytes) : option SocketAddr :=
  let s := trim s in
  if bool_decide (s = []) then None
  else match parse_socket_addr s with
       | Some addr => Some addr
       | None => (fun ip => sock_of ip 53) <$> parse_ip s
       end.

Definition dns_resolver_list (c : VpnConfig) : list SocketAddr := omap parse_dns_resolver (vc_dns_resolvers c).

(** The servers of the profile by priority, or the single address of old profiles. *)
Definition server_list (c : VpnConfig) : list ServerEntry :=
  match isort (fun a b => se_priority a <=? se_priority b) (vc_servers c) with
  | [] => [{| se_name := []; se_address := vc_server_address c; se_port := vc_server_port c; se_priority := 0 |}]
  | l => l
  end.

Fixpoint pool_servers (l : list ServerEntry) : io_result (list (bytes * SocketAddr)) :=
  match l with
  | [] => Ok []
  | e :: l =>
      match parse_socket_addr (se_address e ++ [58] ++ show_dec (se_port e)) with
      | None => io_err InvalidInput "invalid socket address syntax"
      | Some a => match pool_servers l with Ok r => Ok ((display_name e, a) :: r) | Err x => Err x end
      end
  end.

Definition warmup_error_text (pool_size : Z) (e : io_error) : bytes :=
  if 1 <? pool_size then str "Нет связи, " ++ message e else str "Сервер недоступен: " ++ message e.

(** ** State *)

(** The main task of a run: warming up, in the event loop, over. *)
Inductive TaskPhase := TaskWarm | TaskLoop | TaskDone.

(** [rn_preset] is a ghost: the preset half the active router was built with. *)
Record Run := {
  rn_overrides : RoutingConfig; rn_router : Router; rn_preset : option RoutingConfig; rn_servers : list (bytes * SocketAddr);
  rn_resolvers : list SocketAddr; rn_on_server_down : Action; rn_watch : option Watch; rn_shutdown : bool; rn_netgen : Z;
  rn_task : TaskPhase
}.

(** [en_live] is the run whose handles (shutdown sender, pool, generation sender, context,
    local rules) the engine holds: they are set and dropped together. *)
Record VpnEngine := { en_config : VpnConfig; en_state : VpnState; en_live : option nat }.

Definition Engine_new (c : VpnConfig) : VpnEngine := {| en_config := c; en_state := Disconnected; en_live := None |}.

Definition is_running (e : VpnEngine) : bool := bool_decide (is_Some (en_live e)).

(** [wd_pending] is a call of [apply_user_rules] between reading the cached preset and
    taking the lock. *)
Record EngineWorld := {
  wd_engine : VpnEngine; wd_runs : list Run; wd_disk : Disk; wd_pending : option (RoutingConfig * option RoutingConfig)
}.

Section control.
Context {UC : UnicodeCase} {B64 : Base64} {PJ : PresetJson}.
Context (open_readfile : bytes -> option GeoReader).

Definition build_router (overrides : RoutingConfig) (preset : option RoutingConfig) (geoip_path : option bytes) : Router :=
  match preset with
  | Some preset => from_merged open_readfile overrides preset geoip_path
  | None => Router_new open_readfile overrides geoip_path
  end.

(** The lock of the local rules is held throughout: one step. The write lock of the router
    cannot be poisoned, a panic aborts the process. *)
Definition swap_router (r : Run) (new_overrides preset : option RoutingConfig) (geoip_path : option bytes) : Run :=
  let overrides := default (rn_overrides r) new_overrides in
  {| rn_overrides := overrides; rn_router := build_router overrides preset geoip_path; rn_preset := preset; rn_servers := rn_servers r;
     rn_resolvers := rn_resolvers r; rn_on_server_down := rn_on_server_down r; rn_watch := rn_watch r; rn_shutdown := rn_shutdown r;
     rn_netgen := rn_netgen r; rn_task := rn_task r |}.

Definition upd_run (r : Run) (w : option Watch) (sh : bool) (g : Z) (t : TaskPhase) : Run :=
  {| rn_overrides := rn_overrides r; rn_router := rn_router r; rn_preset := rn_preset r; rn_servers := rn_servers r;
     rn_resolvers := rn_resolvers r; rn_on_server_down := rn_on_server_down r; rn_watch := w; rn_shutdown := sh; rn_netgen := g;
     rn_task := t |}.

Definition decode_key (key_str : bytes) : option bytes :=
  match b64_decode (trim key_str) with Some [] => None | Some k => Some k | None => None end.

(** The fetch of [start], when it is called within a runtime. *)
Record StartFetch := { sf_list : HttpReply (list PresetSummary); sf_preset : HttpReply Preset; sf_fault : SaveFault }.

(** Everything of [start] that can fail, in its order, then the run. The first component
    is the disk after the fetch. *)
Definition start_setup (c : VpnConfig) (d : Disk) (fetch : option StartFetch) : Disk * io_result Run :=
  match decode_key (vc_key c) with
  | None => (d, io_err InvalidInput "obfuscation key")
  | Some k =>
      match ModifierStrategy_from_str (vc_modifier c) with
      | None => (d, io_err InvalidInput "unknown modifier")
      | Some _ =>
          let '(d, preset) :=
            match hub_cache c with
            | None => (d, None)
            | Some cache =>
                let cache := load_from_disk d cache in
                match fetch with
                | None => (d, routing_config cache)
                | Some f => let '(cache, d, _) := fetch_if_stale d cache (sf_list f) (sf_preset f) (sf_fault f) in (d, routing_config cache)
                end
            end in
          let router := build_router (vc_routing c) preset (vc_geoip_path c) in
          match pool_servers (server_list c) with
          | Err e => (d, Err e)
          | Ok servers =>
              (d, Ok {| rn_overrides := vc_routing c; rn_router := router; rn_preset := preset; rn_servers := servers;
                        rn_resolvers := dns_resolver_list c; rn_on_server_down := on_server_down_from_str (vc_on_server_down c);
                        rn_watch := (fun cache => watch_start (load_from_disk d cache) (1000 * default 300 (vc_refresh_secs c))) <$> hub_cache c;
                        rn_shutdown := false; rn_netgen := 0; rn_task := TaskWarm |})
          end
      end
  end.

Definition set_state (e : VpnEngine) (s : VpnState) : VpnEngine := {| en_config := en_config e; en_state := s; en_live := en_live e |}.

Definition engine_start (w : EngineWorld) (fetch : option StartFetch) : EngineWorld * io_result unit :=
  let e := wd_engine w in
  if is_running e then (w, io_err OtherKind "already running") else
  match start_setup (en_config e) (wd_disk w) fetch with
  | (d, Err x) => ({| wd_engine := set_state e Connecting; wd_runs := wd_runs w; wd_disk := d; wd_pending := wd_pending w |}, Err x)
  | (d, Ok r) =>
      ({| wd_engine := {| en_config := en_config e; en_state := Connecting; en_live := Some (length (wd_runs w)) |};
          wd_runs := wd_runs w ++ [r]; wd_disk := d; wd_pending := wd_pending w |}, Ok tt)
  end.

Definition upd_runs (w : EngineWorld) (e : VpnEngine) (runs : list Run) (pending : option (RoutingConfig * option RoutingConfig)) : EngineWorld :=
  {| wd_engine := e; wd_runs := runs; wd_disk := wd_disk w; wd_pending := pending |}.

Definition engine_stop (w : EngineWorld) : EngineWorld :=
  let e := wd_engine w in
  match en_live e with
  | None => w
  | Some k =>
      upd_runs w {| en_config := en_config e; en_state := Disconnecting; en_live := None |}
        (alter (fun r => upd_run r (rn_watch r) true (rn_netgen r) (rn_task r)) k (wd_runs w)) (wd_pending w)
  end.

(** [apply_user_rules] up to the lock: the new configuration and the preset of the disk. *)
Definition apply_read (w : EngineWorld) (routing : RoutingConfig) : EngineWorld * bool :=
  let e := wd_engine w in
  let e' := {| en_config := set_routing (en_config e) routing; en_state := en_state e; en_live := en_live e |} in
  match en_live e with
  | None => (upd_runs w e' (wd_runs w) (wd_pending w), false)
  | Some _ =>
      let preset := cache ← hub_cache (en_config e); routing_config (load_from_disk (wd_disk w) cache) in
      (upd_runs w e' (wd_runs w) (Some (routing, preset)), true)
  end.

Definition apply_swap (w : EngineWorld) : option EngineWorld :=
  '(routing, preset) ← wd_pending w; k ← en_live (wd_engine w);
  Some (upd_runs w (wd_engine w)
    (alter (fun r => swap_router r (Some routing) preset (vc_geoip_path (en_config (wd_engine w)))) k (wd_runs w)) None).

(** The generation moves; the recycling of the pool is a task of [ServerPool]. *)
Definition on_network_changed (w : EngineWorld) : EngineWorld :=
  match en_live (wd_engine w) with
  | None => w
  | Some k =>
      upd_runs w (wd_engine w) (alter (fun r => upd_run r (rn_watch r) (rn_shutdown r) (u64 (rn_netgen r + 1)) (rn_task r)) k (wd_runs w))
        (wd_pending w)
  end.

Definition active_router (w : EngineWorld) : option Router := k ← en_live (wd_engine w); rn_router <$> wd_runs w !! k.

(** ** The tasks *)

Inductive TaskEvent := EvWarmed (res : io_result unit) | EvTaskShutdown | EvLoopEnd (res : io_result unit).

(** The main task; the state it reports. The loop returns without an error only on the
    shutdown signal. *)
Definition main_task_step (r : Run) (ev : TaskEvent) : option (TaskPhase * VpnState) :=
  match rn_task r, ev with
  | TaskWarm, EvWarmed (Ok _) => Some (TaskLoop, Connected)
  | TaskWarm, EvWarmed (Err e) => Some (TaskDone, VpnError (warmup_error_text (zlen (rn_servers r)) e))
  | TaskWarm, EvTaskShutdown => if rn_shutdown r then Some (TaskDone, Disconnected) else None
  | TaskLoop, EvLoopEnd (Ok _) => if rn_shutdown r then Some (TaskDone, Disconnected) else None
  | TaskLoop, EvLoopEnd (Err e) => Some (TaskDone, VpnError (message e))
  | _, _ => None
  end.

(** The watch loop of a run: [on_rules] swaps the router. The configured database path is
    the one the closure captured. *)
Definition run_watch_step (d : Disk) (geoip_path : option bytes) (r : Run) (ev : WatchEvent) : option (Run * Disk) :=
  w ← rn_watch r;
  (if match ev with EvShutdown => negb (rn_shutdown r) | _ => false end then None else
   '(w', d', o) ← watch_step d w ev;
   let r := upd_run r (Some w') (rn_shutdown r) (rn_netgen r) (rn_task r) in
   Some (match o with Some rules => swap_router r None (Some rules) geoip_path | None => r end, d')).

Inductive WorldAct :=
| WStart (fetch : option StartFetch)
| WStop
| WApplyRead (routing : RoutingConfig)
| WApplySwap
| WNetwork
| WTask (k : nat) (ev : TaskEvent)
| WWatch (k : nat) (ev : WatchEvent).

(** While a call of [apply_user_rules] is under way no other control call runs. *)
Definition world_act (w : EngineWorld) (a : WorldAct) : option EngineWorld :=
  match a, wd_pending w with
  | WApplySwap, _ => apply_swap w
  | WTask k ev, _ =>
      r ← wd_runs w !! k; '(t, s) ← main_task_step r ev;
      Some (upd_runs w (set_state (wd_engine w) s) (<[k := upd_run r (rn_watch r) (rn_shutdown r) (rn_netgen r) t]> (wd_runs w)) (wd_pending w))
  | WWatch k ev, _ =>
      r ← wd_runs w !! k; '(r', d) ← run_watch_step (wd_disk w) (vc_geoip_path (en_config (wd_engine w))) r ev;
      Some {| wd_engine := wd_engine w; wd_runs := <[k := r']> (wd_runs w); wd_disk := d; wd_pending := wd_pending w |}
  | _, Some _ => None
  | WStart fetch, None => Some (engine_start w fetch).1
  | WStop, None => Some (engine_stop w)
  | WApplyRead routing, None => Some (apply_read w routing).1
  | WNetwork, None => Some (on_network_changed w)
  end.

Inductive world_reachable (c : VpnConfig) (d : Disk) : EngineWorld -> Prop :=
| world_init : world_reachable c d {| wd_engine := Engine_new c; wd_runs := []; wd_disk := d; wd_pending := None |}
| world_step w a w' : world_reachable c d w -> world_act w a = Some w' -> world_reachable c d w'.

(** ** The active router *)

Record world_inv (c : VpnConfig) (w : EngineWorld) : Prop := {
  wi_geoip : vc_geoip_path (en_config (wd_engine w)) = vc_geoip_path c;
  wi_live : forall k, en_live (wd_engine w) = Some k -> S k = length (wd_runs w) /\ exists r, wd_runs w !! k = Some r /\ rn_shutdown r = false;
  wi_router : forall k r, wd_runs w !! k = Some r -> rn_router r = build_router (rn_overrides r) (rn_preset r) (vc_geoip_path c);
  wi_rules : forall k r, en_live (wd_engine w) = Some k -> wd_runs w !! k = Some r -> wd_pending w = None ->
    rn_overrides r = vc_routing (en_config (wd_engine w));
  wi_pending : forall routing preset, wd_pending w = Some (routing, preset) ->
    routing = vc_routing (en_config (wd_engine w)) /\ is_Some (en_live (wd_engine w))
}.

(** Steps of a run that leave its rules and its router alone. *)
Definition same_rules (r r' : Run) : Prop :=
  rn_overrides r' = rn_overrides r /\ rn_router r' = rn_router r /\ rn_preset r' = rn_preset r.

Lemma alter_case {A} (f : A -> A) (l : list A) k j x :
  alter f k l !! j = Some x -> l !! j = Some x /\ j <> k \/ j = k /\ exists y, l !! k = Some y /\ x = f y.
Proof.
  destruct (decide (j = k)) as [-> |]; [| rewrite list_lookup_alter_ne by done; auto].
  rewrite list_lookup_alter_eq. destruct (l !! k) as [y |]; [| done]. intros [= <-]. right. eauto.
Qed.

Lemma insert_case {A} (l : list A) k y j x :
  <[k := y]> l !! j = Some x -> l !! j = Some x /\ j <> k \/ j = k /\ x = y.
Proof.
  intros [(-> & <- & _) | [? ?]]%list_lookup_insert_Some; [right | left]; auto.
Qed.

Lemma start_setup_run c d fetch d' r : start_setup c d fetch = (d', Ok r) ->
  rn_overrides r = vc_routing c /\ rn_router r = build_router (vc_routing c) (rn_preset r) (vc_geoip_path c) /\ rn_shutdown r = false.
Proof.
  unfold start_setup. destruct (decode_key _); [| done]. destruct (ModifierStrategy_from_str _); [| done].
  destruct (match hub_cache c with Some _ => _ | None => _ end) as [d1 preset]. destruct (pool_servers _); [| done]. by intros [= <- <-].
Qed.

Lemma start_inv c w fetch : world_inv c w -> wd_pending w = None -> world_inv c (engine_start w fetch).1.
Proof.
  intros Hi Hp. destruct Hi as [Hg Hl Hr Hu Hpd]. unfold engine_start, is_running. case_bool_decide as Hlive; [by split |].
  destruct (start_setup (en_config (wd_engine w)) (wd_disk w) fetch) as [d [r | x]] eqn:E; cbn [fst].
  - apply start_setup_run in E as (E1 & E2 & E3). split; cbn.
    + done.
    + intros k [= <-]. split; [rewrite length_app; cbn; lia |]. exists r. split; [by rewrite list_lookup_middle | done].
    + intros k r' [H | [_ H]]%lookup_app_Some; [by eapply Hr |]. apply list_lookup_singleton_Some in H as [_ <-]. by rewrite E1, <- Hg.
    + intros k r' [= <-]. rewrite list_lookup_middle by done. by intros [= <-] _.
    + intros routing preset H. congruence.
  - by split.
Qed.

Lemma alter_inv c w k (f : Run -> Run) live pending e :
  world_inv c w -> en_config e = en_config (wd_engine w) -> en_live e = live ->
  (forall r, same_rules r (f r)) -> (live = None \/ live = en_live (wd_engine w) /\ forall r, rn_shutdown r = false -> rn_shutdown (f r) = false) ->
  pending = wd_pending w -> (live = None -> pending = None) ->
  world_inv c (upd_runs w e (alter f k (wd_runs w)) pending).
Proof.
  intros [Hg Hl Hr Hu Hpd] Ec El Hf Hlive -> Hpn. split; cbn; rewrite ?Ec, ?El.
  - done.
  - intros j Hj. destruct Hlive as [-> | [-> Hsh]]; [done |]. destruct (Hl j Hj) as (H1 & r & H2 & H3). rewrite length_alter. split; [done |].
    destruct (decide (j = k)) as [-> |].
    + exists (f r). rewrite list_lookup_alter_eq, H2. auto.
    + exists r. by rewrite list_lookup_alter_ne.
  - intros j r [[H _] | (-> & y & H & ->)]%alter_case; [by eapply Hr |]. destruct (Hf y) as (-> & -> & ->). by eapply Hr.
  - intros j r Hj Hrun Hp. destruct Hlive as [-> | [-> Hsh]]; [done |].
    apply alter_case in Hrun as [[H _] | (-> & y & H & ->)]; [by eapply Hu |]. destruct (Hf y) as (-> & _ & _). by eapply Hu.
  - intros routing preset Hp. destruct Hlive as [-> | [-> _]]; [by rewrite Hpn in Hp | by eapply Hpd].
Qed.

Lemma swap_inv c w w' : world_inv c w -> apply_swap w = Some w' -> world_inv c w'.
Proof.
  intros [Hg Hl Hr Hu Hpd] Ha. unfold apply_swap in Ha. destruct (wd_pending w) as [[routing preset] |] eqn:Ep; [| done]. cbn in Ha.
  destruct (en_live (wd_engine w)) as [k |] eqn:El; [| done]. cbn in Ha. injection Ha as <-.
  destruct (Hpd routing preset eq_refl) as [-> _]. split; cbn; rewrite ?El; try done.
  - intros j [= <-]. rewrite length_alter. destruct (Hl k eq_refl) as (H1 & r & H2 & H3). split; [done |].
    eexists. rewrite list_lookup_alter_eq, H2. by split.
  - intros j r [[H _] | (-> & y & H & ->)]%alter_case; [by eapply Hr |]. cbn. by rewrite Hg.
  - intros j r [= <-] Hrun _. apply alter_case in Hrun as [[_ H] | (_ & y & _ & ->)]; done.
Qed.

Lemma run_watch_rules d g r ev r' d' : run_watch_step d g r ev = Some (r', d') ->
  rn_overrides r' = rn_overrides r /\ rn_shutdown r' = rn_shutdown r /\ rn_task r' = rn_task r /\
  (rn_router r = build_router (rn_overrides r) (rn_preset r) g -> rn_router r' = build_router (rn_overrides r') (rn_preset r') g).
Proof.
  unfold run_watch_step. destruct (rn_watch r) as [w |]; [| done]. cbn. destruct (match ev with EvShutdown => _ | _ => false end); [done |].
  destruct (watch_step d w ev) as [[[w1 d1] o] |]; [| done]. cbn. intros [= <- <-]. by destruct o.
Qed.

(** One run replaced by one with the same local rules. *)
Lemma insert_inv c w k r r' st d :
  world_inv c w -> wd_runs w !! k = Some r -> rn_overrides r' = rn_overrides r -> rn_shutdown r' = rn_shutdown r ->
  rn_router r' = build_router (rn_overrides r') (rn_preset r') (vc_geoip_path c) ->
  world_inv c {| wd_engine := set_state (wd_engine w) st; wd_runs := <[k := r']> (wd_runs w); wd_disk := d; wd_pending := wd_pending w |}.
Proof.
  intros [Hg Hl Hr Hu Hpd] Hk Ho Hs Hb. split; cbn; try done.
  - intros j Hj. destruct (Hl j Hj) as (H1 & r0 & H2 & H3). rewrite length_insert. split; [done |]. destruct (decide (j = k)) as [-> |].
    + exists r'. rewrite list_lookup_insert_eq by (by eapply lookup_lt_Some). split; [done | congruence].
    + exists r0. by rewrite list_lookup_insert_ne.
  - intros j r0 [[H _] | [-> ->]]%insert_case; [by eapply Hr | done].
  - intros j r0 Hj [[H _] | [-> ->]]%insert_case Hp; [by eapply Hu |]. rewrite Ho. by eapply Hu.
Qed.

Lemma set_state_id e : set_state e (en_state e) = e.
Proof. by destruct e. Qed.

(** A step of a task of a run, and of its watch loop, as they leave the world. *)
Lemma task_act w k ev w' : world_act w (WTask k ev) = Some w' -> exists r t s,
  wd_runs w !! k = Some r /\ main_task_step r ev = Some (t, s) /\
  w' = upd_runs w (set_state (wd_engine w) s) (<[k := upd_run r (rn_watch r) (rn_shutdown r) (rn_netgen r) t]> (wd_runs w)) (wd_pending w).
Proof.
  assert (world_act w (WTask k ev) = (r ← wd_runs w !! k; '(t, s) ← main_task_step r ev;
    Some (upd_runs w (set_state (wd_engine w) s) (<[k := upd_run r (rn_watch r) (rn_shutdown r) (rn_netgen r) t]> (wd_runs w)) (wd_pending w)))) as ->
    by (cbn [world_act]; by destruct (wd_pending w)).
  destruct (wd_runs w !! k) as [r |]; [| done]. cbn. destruct (main_task_step r ev) as [[t s] |] eqn:E; [| done]. intros [= <-]. by exists r, t, s.
Qed.

Lemma watch_act w k ev w' : world_act w (WWatch k ev) = Some w' -> exists r r' d,
  wd_runs w !! k = Some r /\ run_watch_step (wd_disk w) (vc_geoip_path (en_config (wd_engine w))) r ev = Some (r', d) /\
  w' = {| wd_engine := wd_engine w; wd_runs := <[k := r']> (wd_runs w); wd_disk := d; wd_pending := wd_pending w |}.
Proof.
  assert (world_act w (WWatch k ev) = (r ← wd_runs w !! k; '(r', d) ← run_watch_step (wd_disk w) (vc_geoip_path (en_config (wd_engine w))) r ev;
    Some {| wd_engine := wd_engine w; wd_runs := <[k := r']> (wd_runs w); wd_disk := d; wd_pending := wd_pending w |})) as ->
    by (cbn [world_act]; by destruct (wd_pending w)).
  destruct (wd_runs w !! k) as [r |]; [| done]. cbn. destruct (run_watch_step _ _ r ev) as [[r' d] |] eqn:E; [| done]. intros [= <-]. by exists r, r', d.
Qed.

Lemma world_reachable_inv c d w : world_reachable c d w -> world_inv c w.
Proof.
  induction 1 as [| w a w' Hr IH Ha]; [by split |].
  destruct a.
  6: { apply task_act in Ha as (r & t & st & Ek & _ & ->). eapply (insert_inv c w k r); try done. exact (wi_router _ _ IH k r Ek). }
  6: { apply watch_act in Ha as (r & r' & d' & Ek & Es & ->). apply run_watch_rules in Es as (E1 & E2 & _ & E3).
       rewrite (wi_geoip _ _ IH) in E3. rewrite <- (set_state_id (wd_engine w)).
       eapply (insert_inv c w k r); try done. exact (E3 (wi_router _ _ IH k r Ek)). }
  all: cbn [world_act] in Ha.
  - destruct (wd_pending w) eqn:Ep; [done |]. injection Ha as <-. by apply start_inv.
  - destruct (wd_pending w) eqn:Ep; [done |]. injection Ha as <-. unfold engine_stop. destruct (en_live (wd_engine w)) as [k |] eqn:El; [| done].
    eapply alter_inv; try done; by left.
  - destruct (wd_pending w) eqn:Ep; [done |]. injection Ha as <-. unfold apply_read. destruct (en_live (wd_engine w)) as [k |] eqn:El; cbn [fst].
    + destruct IH as [Hg Hl Hrt Hu Hpd]. split; cbn; try done; [by rewrite <- El | by intros ? ? [= <- <-]].
    + destruct IH as [Hg Hl Hrt Hu Hpd]. split; cbn; try done. intros ? ?. by rewrite Ep.
  - by eapply swap_inv.
  - destruct (wd_pending w) eqn:Ep; [done |]. injection Ha as <-. unfold on_network_changed. destruct (en_live (wd_engine w)) as [k |] eqn:El; [| done].
    eapply alter_inv; try done; by right.
Qed.


(** ** The reported state *)

(** The runs of an engine that is started at most once; the applications make a new engine
    for every start. *)
Inductive once_reachable (c : VpnConfig) (d : Disk) : EngineWorld -> Prop :=
| once_init : once_reachable c d {| wd_engine := Engine_new c; wd_runs := []; wd_disk := d; wd_pending := None |}
| once_step w a w' :
    once_reachable c d w -> (forall fetch, a = WStart fetch -> wd_runs w = []) -> world_act w a = Some w' -> once_reachable c d w'.

Definition reported (s : VpnState) (live : bool) (sh : bool) (t : TaskPhase) : Prop :=
  if live then sh = false /\ match t with TaskWarm => s = Connecting | TaskLoop => s = Connected | TaskDone => exists m, s = VpnError m end
  else sh = true /\ match t with
                    | TaskWarm => s = Disconnecting
                    | TaskLoop => s = Disconnecting \/ s = Connected
                    | TaskDone => s = Disconnecting \/ s = Disconnected \/ exists m, s = VpnError m
                    end.

Definition status_ok (w : EngineWorld) : Prop :=
  let e := wd_engine w in
  match wd_runs w with
  | [] => en_live e = None /\ (en_state e = Disconnected \/ en_state e = Connecting)
  | [r] => (en_live e = None \/ en_live e = Some 0%nat) /\ reported (en_state e) (is_running e) (rn_shutdown r) (rn_task r)
  | _ => False
  end.

Lemma reported_step s live r ev t s' :
  reported s live (rn_shutdown r) (rn_task r) -> main_task_step r ev = Some (t, s') -> reported s' live (rn_shutdown r) t.
Proof.
  unfold reported, main_task_step. destruct live, (rn_task r), ev as [[] | | []]; try done; intros [Hs _]; rewrite ?Hs; try done;
    intros [= <- <-]; split; try done; eauto.
Qed.

Lemma is_running_live e : en_live e = None \/ en_live e = Some 0%nat ->
  (is_running e = false /\ en_live e = None) \/ (is_running e = true /\ en_live e = Some 0%nat).
Proof. unfold is_running. intros [-> | ->]; [left | right]; by split. Qed.

(** A step that keeps what the status speaks of. *)
Lemma status_keep w w' :
  status_ok w -> en_state (wd_engine w') = en_state (wd_engine w) -> en_live (wd_engine w') = en_live (wd_engine w) ->
  map (fun r => (rn_shutdown r, rn_task r)) (wd_runs w') = map (fun r => (rn_shutdown r, rn_task r)) (wd_runs w) -> status_ok w'.
Proof.
  unfold status_ok, is_running. intros H -> -> Hm. destruct (wd_runs w) as [| r [| ? ?]], (wd_runs w') as [| r' [| ? ?]]; try done.
  cbn in Hm. injection Hm as -> ->. done.
Qed.

Lemma alter_keep (f : Run -> Run) k l :
  (forall r, rn_shutdown (f r) = rn_shutdown r /\ rn_task (f r) = rn_task r) ->
  map (fun r => (rn_shutdown r, rn_task r)) (alter f k l) = map (fun r => (rn_shutdown r, rn_task r)) l.
Proof.
  intros Hf. revert k. induction l as [| r l IH]; intros [| k]; cbn; try done.
  - by destruct (Hf r) as [-> ->].
  - f_equal. apply IH.
Qed.

Lemma start_setup_task c d fetch d' r : start_setup c d fetch = (d', Ok r) -> rn_task r = TaskWarm.
Proof.
  unfold start_setup. destruct (decode_key _); [| done]. destruct (ModifierStrategy_from_str _); [| done].
  destruct (match hub_cache c with Some _ => _ | None => _ end) as [d1 preset]. destruct (pool_servers _); [| done]. by intros [= <- <-].
Qed.

Lemma status_start w fetch : status_ok w -> wd_runs w = [] -> status_ok (engine_start w fetch).1.
Proof.
  unfold status_ok. intros Hs Hrun. rewrite Hrun in Hs. destruct Hs as [Hl Hst]. unfold engine_start, is_running. rewrite Hl. cbn.
  destruct (start_setup _ _ fetch) as [d [r | x]] eqn:E; cbn; rewrite Hrun; cbn.
  - pose proof (start_setup_task _ _ _ _ _ E) as Et. apply start_setup_run in E as (_ & _ & E). split; [by right |]. by rewrite Et.
  - split; [done | by right].
Qed.

Lemma status_stop w : status_ok w -> status_ok (engine_stop w).
Proof.
  intros Hs. unfold engine_stop. destruct (en_live (wd_engine w)) as [k |] eqn:El; [| done].
  unfold status_ok, is_running in Hs. rewrite El in Hs. unfold status_ok. cbn [upd_runs wd_runs wd_engine en_live en_state].
  destruct (wd_runs w) as [| r [| ? ?]]; try done; [by destruct Hs |]. destruct Hs as [[? | [= ->]] Hs]; [done |].
  cbn. split; [by left |]. destruct Hs as [Hsh Ht]. split; [done |]. destruct (rn_task r); auto.
Qed.

Lemma status_task w k r ev t s :
  status_ok w -> wd_runs w !! k = Some r -> main_task_step r ev = Some (t, s) ->
  status_ok (upd_runs w (set_state (wd_engine w) s) (<[k := upd_run r (rn_watch r) (rn_shutdown r) (rn_netgen r) t]> (wd_runs w)) (wd_pending w)).
Proof.
  unfold status_ok. intros Hs Hk Ht. cbn [upd_runs wd_engine wd_runs set_state en_live en_state].
  destruct (wd_runs w) as [| r0 [| ? ?]]; try done. destruct k as [| k]; [| done]. injection Hk as ->. cbn. destruct Hs as [Hl Hs].
  split; [done |]. change (is_running (set_state (wd_engine w) s)) with (is_running (wd_engine w)). by eapply reported_step.
Qed.

(** what the engine reports is what it does. An engine that is started once reports
    Connecting exactly while it warms up, Connected exactly while its event loop runs, and
    an error once its task has failed, as long as it is not stopped; after a stop it
    reports Connected only while the loop has not seen the signal yet, and once the task is
    over never Connecting or Connected. Connected is reported by no engine that was not
    started. *)
Theorem engine_status c d w : once_reachable c d w -> status_ok w.
Proof.
  induction 1 as [| w a w' Hr IH Honce Ha]; [by split; [| left] |]. destruct a.
  6: { apply task_act in Ha as (r & t & s & Hk & Ht & ->). by eapply status_task. }
  6: { apply watch_act in Ha as (r & r' & d' & Hk & Es & ->). apply run_watch_rules in Es as (_ & E3 & E4 & _).
       apply (status_keep w); try done. cbn. clear -Hk E3 E4. revert k Hk. induction (wd_runs w) as [| r0 l IHl]; intros [| k] Ek; try done; cbn.
       + injection Ek as ->. by rewrite E3, E4.
       + f_equal. by apply IHl. }
  all: cbn [world_act] in Ha.
  - destruct (wd_pending w); [done |]. injection Ha as <-. apply status_start; [done | by eapply Honce].
  - destruct (wd_pending w); [done |]. injection Ha as <-. by apply status_stop.
  - destruct (wd_pending w); [done |]. injection Ha as <-. apply (status_keep w); [done |..]; unfold apply_read; by destruct (en_live (wd_engine w)) eqn:El.
  - unfold apply_swap in Ha. destruct (wd_pending w) as [[? ?] |]; [| done]. cbn in Ha. destruct (en_live (wd_engine w)) eqn:El; [| done].
    injection Ha as <-. apply (status_keep w); try done. by apply alter_keep.
  - destruct (wd_pending w); [done |]. injection Ha as <-. apply (status_keep w); [done |..]; unfold on_network_changed; destruct (en_live (wd_engine w)) eqn:El; try done.
    by apply alter_keep.
Qed.

End control.

(** ** Concrete runs *)

Definition ex_mine : RoutingConfig :=
  {| rc_default_action := str "direct";
     rc_rules := [{| rr_name := None; rr_action := str "proxy"; rr_domains := [str "a.example"]; rr_ip_ranges := []; rr_geoip := [] |}] |}.

Definition ex_config : VpnConfig :=
  {| vc_server_address := str "10.0.0.1"; vc_server_port := 8443; vc_servers := []; vc_key := toy_encode (str "secret");
     vc_modifier := str "positional_xor_rotate"; vc_salt := 7; vc_routing := ex_mine; vc_geoip_path := None;
     vc_on_server_down := str "block"; vc_dns_resolvers := [str "1.1.1.1"; str " [::1]:5353 "; str "nonsense"];
     vc_hub_url := Some (str "https://hub"); vc_hub_preset := Some (str "russia"); vc_hub_cache_dir := Some (str "/var/presets");
     vc_refresh_secs := None |}.

Definition ex_disk : Disk := {[cache_file (str "/var/presets") (str "russia") := @print_preset toy_json (ex_preset 1 "direct")]}.

Abbreviation ex_act := (@world_act ascii_case toy_base64 toy_json (fun _ => None)).
Abbreviation ex_reachable := (@world_reachable ascii_case toy_base64 toy_json (fun _ => None) ex_config ex_disk).

Definition ex_world (acts : list WorldAct) : option EngineWorld :=
  foldl (fun w a => w ← w; ex_act w a)
    (Some {| wd_engine := Engine_new ex_config; wd_runs := []; wd_disk := ex_disk; wd_pending := None |}) acts.

Lemma ex_world_reachable acts w : ex_world acts = Some w -> ex_reachable w.
Proof.
  unfold ex_world. revert w. induction acts as [| a acts IH] using rev_ind; intros w; cbn; [intros [= <-]; constructor |].
  rewrite foldl_snoc. destruct (foldl _ _ acts) as [w0 |] eqn:E; [| done]. cbn. intros H. eapply world_step; [by apply IH | exact H].
Qed.

Lemma ex_resolvers : dns_resolver_list ex_config = [SockV4 0x01010101 53; SockV6 1 5353 0 0].
Proof. vm_compute. reflexivity. Qed.

(** a preset that arrives while the user edits the rules can be undone by the edit. The
    edit reads the preset from the disk before it takes the lock, so when a new version
    arrives in between, or when its cache file could not be written, the active router ends
    with the older preset while the watch loop holds the newer one, for which the hub has
    nothing more to say. *)
Theorem edit_undoes_preset : exists w r watch,
  ex_reachable w /\ en_live (wd_engine w) = Some 0%nat /\ wd_runs w !! 0%nat = Some r /\ wd_pending w = None /\
  rn_watch r = Some watch /\ p_version <$> pc_cached (wl_cache watch) = Some 2 /\
  rn_preset r = Some (ex_rules "direct") /\ routing_config (wl_cache watch) = Some (ex_rules "block") /\
  rn_router r = @build_router ascii_case (fun _ => None) (ex_rules "proxy") (Some (ex_rules "direct")) None.
Proof.
  destruct (ex_world [WStart None; WTask 0 (EvWarmed (Ok tt)); WApplyRead (ex_rules "proxy");
    WWatch 0 (EvWait (Http 200 (Ok (ex_preset 2 "block"))) NoFault); WApplySwap]) as [w |] eqn:E; [| vm_compute in E; discriminate].
  pose proof (ex_world_reachable _ _ E) as Hr. vm_compute in E. injection E as <-. eexists _, _, _. split; [exact Hr |].
  repeat (split; [reflexivity |]). reflexivity.
Qed.

(** A failed start leaves the state at Connecting, and an engine that is stopped after its
    warm-up failed reports Disconnecting from then on. *)
Lemma failed_start_reports_connecting : exists w e,
  (@engine_start ascii_case toy_base64 toy_json (fun _ => None)
    {| wd_engine := Engine_new {| vc_server_address := str "vpn.example"; vc_server_port := 8443; vc_servers := []; vc_key := vc_key ex_config;
         vc_modifier := vc_modifier ex_config; vc_salt := 7; vc_routing := ex_rules "proxy"; vc_geoip_path := None; vc_on_server_down := [];
         vc_dns_resolvers := []; vc_hub_url := None; vc_hub_preset := None; vc_hub_cache_dir := None; vc_refresh_secs := None |};
       wd_runs := []; wd_disk := ∅; wd_pending := None |} None) = (w, Err e) /\ kind e = InvalidInput /\ en_state (wd_engine w) = Connecting.
Proof. eexists _, _. split; [vm_compute; reflexivity | by split]. Qed.

Lemma stop_after_failure_hangs : exists w,
  ex_reachable w /\ en_state (wd_engine w) = Disconnecting /\
  forall a w', (forall fetch, a <> WStart fetch) -> ex_act w a = Some w' -> en_state (wd_engine w') = Disconnecting.
Proof.
  destruct (ex_world [WStart None; WTask 0 (EvWarmed (Err (IoError TimedOut []))); WStop]) as [w |] eqn:E; [| vm_compute in E; discriminate].
  exists w. split; [by eapply ex_world_reachable |]. vm_compute in E. injection E as <-. split; [reflexivity |].
  intros [fetch | | routing | | | [| k] ev | [| k] ev] w' Hs Ha; try (by destruct (Hs fetch)); try (by injection Ha as <-); try done.
  revert Ha. cbn [world_act wd_pending wd_runs]. change ([?r] !! 0%nat) with (Some r).
  unfold mbind, option_bind at 1. destruct (run_watch_step _ _ _ _ ev) as [[r2 d2] |]; [| discriminate]. cbn. by intros [= <-].
Qed.

(** Stopped and started again, the engine reports Disconnected while it is connected: the
    task of the run before ends last. *)
Lemma restart_reports_stale : exists w,
  ex_reachable w /\ en_state (wd_engine w) = Disconnected /\ is_running (wd_engine w) = true /\
  exists r, wd_runs w !! 1%nat = Some r /\ en_live (wd_engine w) = Some 1%nat /\ rn_task r = TaskLoop.
Proof.
  destruct (ex_world [WStart None; WTask 0 (EvWarmed (Ok tt)); WStop; WStart None; WTask 1 (EvWarmed (Ok tt)); WTask 0 (EvLoopEnd (Ok tt))])
    as [w |] eqn:E; [| vm_compute in E; discriminate].
  exists w. split; [by eapply ex_world_reachable |]. vm_compute in E. injection E as <-. repeat (split; [reflexivity |]).
  eexists. by split.
Qed.


Lemma engine_status_witness : exists w,
  @once_reachable ascii_case toy_base64 toy_json (fun _ => None) ex_config ex_disk w /\ status_ok w /\ en_state (wd_engine w) = Connecting.
Proof.
  destruct (ex_act {| wd_engine := Engine_new ex_config; wd_runs := []; wd_disk := ex_disk; wd_pending := None |} (WStart None)) as [w |] eqn:E;
    [| vm_compute in E; discriminate].
  assert (H : @once_reachable ascii_case toy_base64 toy_json (fun _ => None) ex_config ex_disk w).
  { eapply once_step; [constructor | | exact E]. reflexivity. }
  exists w. split; [exact H |]. split; [exact (@engine_status ascii_case toy_base64 toy_json (fun _ => None) ex_config ex_disk w H) |].
  vm_compute in E. injection E as <-. reflexivity.
Defined.
