(* ===== verification/ProxyConn.v ===== *)
(** * The transparent proxy of the router client (xr-client/src/proxy.rs)

    One redirected connection: loop detection, peeking at the first bytes until the whole
    ClientHello is there, the route, and the relay through the tunnel or directly. The
    handler is a machine whose steps are the stretches between two [await]s; [now] is the
    clock in milliseconds, the answer of what is waited for is the argument of the step.
    Bytes that are only peeked at stay in the socket. *)

From S2P Require Import Prelude Text Net Protocol Sni UserRule Routing.

Definition SNI_FRAGMENT_WAIT : Z := 500.
Definition PEEK_TIMEOUT : Z := 10 * 1000.
Definition PEEK_BUFFER : Z := 4096.
Definition PROXY_IDLE_TIMEOUT : Z := 300 * 1000.
Definition PROXY_MAX_LIFETIME : Z := 3600 * 1000.
Definition DIRECT_CONNECT_TIMEOUT : Z := 5 * 1000.
Definition RELAY_BUFFER : Z := 8192.

(** ** State *)

(** The side a relay error came from. *)
Inductive ProxyRelayError := LocalClient (e : io_error) | TunnelError (e : io_error).

(** Upload: reading the device under the idle timer, sending a chunk into the stream,
    closing the stream. Download: receiving, writing the rest of a chunk to the device. *)
Inductive UploadPc := UpRead (deadline : Z) | UpSend (chunk : bytes) | UpClose.
Inductive DownloadPc := DownRecv | DownWrite (rest : bytes).

Inductive ProxyPc :=
| PxPeek (deadline : Z)
| PxMore (want deadline : Z)
| PxConnect (fallback : bool) (deadline : Z)
| PxOpen (target : TargetAddr)
| PxMux (start : Z) (up : UploadPc) (down : DownloadPc)
| PxDirect (start : Z)
| PxDone (res : io_result unit).

(** What went out, a direct connection (as the fallback or not) or a stream of the tunnel. *)
Inductive Outgoing := OutDirect (fallback : bool) | OutStream (target : TargetAddr).

(** [px_in] are the bytes of the device that wait in the socket, [px_eof] its end. The
    rest, after the state of the handler, are histories: what the device sent and what was
    read of it, what went into the stream and to the direct target, what was received for
    the device and written to it, the route taken with the name it was for, what went out. *)
Record Proxied := {
  px_dst : SocketAddr; px_in : bytes; px_eof : bool; px_pc : ProxyPc;
  px_all : bytes; px_taken : bytes; px_mux : bytes; px_direct : bytes; px_recv : bytes; px_written : bytes;
  px_route : option (Action * option bytes); px_out : list Outgoing
}.

Definition px_with_pc (p : Proxied) (pc : ProxyPc) : Proxied :=
  {| px_dst := px_dst p; px_in := px_in p; px_eof := px_eof p; px_pc := pc; px_all := px_all p; px_taken := px_taken p;
     px_mux := px_mux p; px_direct := px_direct p; px_recv := px_recv p; px_written := px_written p;
     px_route := px_route p; px_out := px_out p |}.
Definition px_with_in (p : Proxied) (b : bytes) (eof : bool) (more : bytes) : Proxied :=
  {| px_dst := px_dst p; px_in := b; px_eof := eof; px_pc := px_pc p; px_all := px_all p ++ more; px_taken := px_taken p;
     px_mux := px_mux p; px_direct := px_direct p; px_recv := px_recv p; px_written := px_written p;
     px_route := px_route p; px_out := px_out p |}.
Definition px_took (p : Proxied) (n : Z) : Proxied :=
  {| px_dst := px_dst p; px_in := zdrop n (px_in p); px_eof := px_eof p; px_pc := px_pc p; px_all := px_all p;
     px_taken := px_taken p ++ ztake n (px_in p); px_mux := px_mux p; px_direct := px_direct p; px_recv := px_recv p;
     px_written := px_written p; px_route := px_route p; px_out := px_out p |}.
Definition px_moved (p : Proxied) (mux direct recv written : bytes) : Proxied :=
  {| px_dst := px_dst p; px_in := px_in p; px_eof := px_eof p; px_pc := px_pc p; px_all := px_all p; px_taken := px_taken p;
     px_mux := px_mux p ++ mux; px_direct := px_direct p ++ direct; px_recv := px_recv p ++ recv; px_written := px_written p ++ written;
     px_route := px_route p; px_out := px_out p |}.
Definition px_routed (p : Proxied) (a : Action) (sni : option bytes) : Proxied :=
  {| px_dst := px_dst p; px_in := px_in p; px_eof := px_eof p; px_pc := px_pc p; px_all := px_all p; px_taken := px_taken p;
     px_mux := px_mux p; px_direct := px_direct p; px_recv := px_recv p; px_written := px_written p; 
     px_route := Some (a, sni); px_out := px_out p |}.
Definition went_out (p : Proxied) (o : Outgoing) : Proxied :=
  {| px_dst := px_dst p; px_in := px_in p; px_eof := px_eof p; px_pc := px_pc p; px_all := px_all p; px_taken := px_taken p;
     px_mux := px_mux p; px_direct := px_direct p; px_recv := px_recv p; px_written := px_written p;
     px_route := px_route p; px_out := px_out p ++ [o] |}.

Definition px_finish (p : Proxied) (res : io_result unit) : Proxied := px_with_pc p (PxDone res).

Section proxy.
Context {UC : UnicodeCase} (routers : Router -> Prop) (listen_port : Z) (on_server_down : Action).

Definition orig_dst_ip (s : SocketAddr) : IpAddr := match s with SockV4 ip _ => V4 ip | SockV6 ip _ _ _ => V6 ip end.

(** The port decides how far the rules are trusted. *)
Definition route_action (port : Z) (resolved : Action) (looks_like_tls : bool) : Action :=
  if (port =? 80) || (port =? 443) then resolved else if looks_like_tls then Proxy else Direct.

Definition target_addr (dst : SocketAddr) (sni : option bytes) : TargetAddr :=
  match sni with Some domain => TDomain domain (sock_port dst) | None => TIp dst end.

Definition connect_direct (now : Z) (fallback : bool) (p : Proxied) : Proxied :=
  px_with_pc (went_out p (OutDirect fallback)) (PxConnect fallback (now + DIRECT_CONNECT_TIMEOUT)).

(** The handler up to its first [await]. *)
Definition px_start (now : Z) (orig_dst : io_result SocketAddr) : Proxied :=
  let p dst := {| px_dst := dst; px_in := []; px_eof := false; px_pc := PxPeek (now + PEEK_TIMEOUT); px_all := []; px_taken := []; px_mux := [];
                  px_direct := []; px_recv := []; px_written := []; px_route := None; px_out := [] |} in
  match orig_dst with
  | Err e => px_finish (p (SockV4 0 0)) (Err e)
  | Ok dst => if sock_port dst =? listen_port then px_finish (p dst) (Ok tt) else p dst
  end.

(** The decision, on the bytes that were seen. [None] is a panic of the parser. *)
Definition decide_route (now : Z) (router : Router) (p : Proxied) (seen : bytes) : option Proxied :=
  sni ← extract_sni seen;
  (let resolved := resolve router sni (orig_dst_ip (px_dst p)) in
   let action := route_action (sock_port (px_dst p)) resolved (default 0 (head seen) =? 0x16) in
   let p := px_routed p action sni in
   Some (match action with
         | Block => px_finish p (Ok tt)
         | Direct => connect_direct now false p
         | Proxy => let t := target_addr (px_dst p) sni in px_with_pc (went_out p (OutStream t)) (PxOpen t)
         end)).

(** A turn of the loop, with what the last peek gave. *)
Definition peek_client_hello (now : Z) (router : Router) (p : Proxied) (seen : bytes) (deadline : Z) : option Proxied :=
  w ← client_hello_record_len seen;
  match w with
  | Some want =>
      if want <=? zlen seen then decide_route now router p seen
      else if deadline <=? now then decide_route now router p seen
      else Some (px_with_pc p (PxMore want deadline))
  | None => decide_route now router p seen
  end.

(** The match on the outcome of [tunnel_connection]. *)
Definition tunnel_over (now : Z) (p : Proxied) (res : result unit ProxyRelayError) : Proxied :=
  match res with
  | Ok _ => px_finish p (Ok tt)
  | Err (LocalClient _) => px_finish p (Ok tt)
  | Err (TunnelError e) => match on_server_down with Direct => connect_direct now true p | _ => px_finish p (Err e) end
  end.

(** ** Steps *)

Inductive ProxyEvent :=
| EvArrive (b : bytes)               (* the device sends *)
| EvFin                              (* the device closes its side *)
| EvPeek (r : io_result unit)        (* [peek] is ready, or fails *)
| EvTimer                            (* the timer of what is awaited *)
| EvConnected (r : io_result unit)
| EvOpened (r : io_result unit)
| EvRead (r : io_result unit)        (* [cr.read] is ready, or fails *)
| EvSent (r : io_result unit)
| EvClosed (r : io_result unit)
| EvRecv (d : option bytes)
| EvWrote (r : io_result Z)
| EvLifetime
| EvCopyUp (n : Z)                   (* the direct relay moves bytes *)
| EvCopyDown (b : bytes)
| EvDirectEnd (r : io_result unit).

Definition readable (p : Proxied) : bool := negb (bool_decide (px_in p = [])) || px_eof p.

(** The relay through the tunnel; either direction that ends, ends both. *)
Definition px_mux_step (now : Z) (p : Proxied) (start : Z) (up : UploadPc) (down : DownloadPc) (ev : ProxyEvent) : option Proxied :=
  match ev, up, down with
  | EvRead (Ok _), UpRead _, _ =>
      if negb (readable p) then None
      else if bool_decide (px_in p = []) then Some (px_with_pc p (PxMux start UpClose down))
      else Some (px_with_pc (px_took p RELAY_BUFFER) (PxMux start (UpSend (ztake RELAY_BUFFER (px_in p))) down))
  | EvRead (Err e), UpRead _, _ => Some (tunnel_over now p (Err (LocalClient e)))
  | EvTimer, UpRead deadline, _ => if deadline <=? now then Some (px_with_pc p (PxMux start UpClose down)) else None
  | EvSent (Ok _), UpSend chunk, _ => Some (px_with_pc (px_moved p chunk [] [] []) (PxMux start (UpRead (now + PROXY_IDLE_TIMEOUT)) down))
  | EvSent (Err e), UpSend _, _ => Some (tunnel_over now p (Err (TunnelError e)))
  | EvClosed (Ok _), UpClose, _ => Some (tunnel_over now p (Ok tt))
  | EvClosed (Err e), UpClose, _ => Some (tunnel_over now p (Err (TunnelError e)))
  | EvRecv (Some d), _, DownRecv =>
      if bool_decide (d = []) then Some (tunnel_over now p (Ok tt)) else Some (px_with_pc (px_moved p [] [] d []) (PxMux start up (DownWrite d)))
  | EvRecv None, _, DownRecv => Some (tunnel_over now p (Ok tt))
  | EvWrote (Ok n), _, DownWrite rest =>
      if (0 <? n) && (n <=? zlen rest) then
        Some (px_with_pc (px_moved p [] [] [] (ztake n rest)) (PxMux start up (if n =? zlen rest then DownRecv else DownWrite (zdrop n rest))))
      else None
  | EvWrote (Err e), _, DownWrite _ => Some (tunnel_over now p (Err (LocalClient e)))
  | EvLifetime, _, _ => if start + PROXY_MAX_LIFETIME <=? now then Some (tunnel_over now p (Ok tt)) else None
  | _, _, _ => None
  end.

Definition px_step (now : Z) (router : Router) (p : Proxied) (ev : ProxyEvent) : option Proxied :=
  match ev, px_pc p with
  | EvArrive b, _ => if px_eof p then None else Some (px_with_in p (px_in p ++ b) false b)
  | EvFin, _ => Some (px_with_in p (px_in p) true [])
  | EvPeek (Err e), PxPeek _ | EvPeek (Err e), PxMore _ _ => Some (px_finish p (Err e))
  | EvPeek (Ok _), PxPeek _ =>
      if readable p then peek_client_hello now router p (ztake PEEK_BUFFER (px_in p)) (now + SNI_FRAGMENT_WAIT) else None
  | EvPeek (Ok _), PxMore want deadline => if readable p then peek_client_hello now router p (ztake want (px_in p)) deadline else None
  | EvTimer, PxPeek deadline => if deadline <=? now then Some (px_finish p (Ok tt)) else None
  | EvTimer, PxConnect _ deadline => if deadline <=? now then Some (px_finish p (Ok tt)) else None
  | EvConnected (Ok _), PxConnect _ _ => Some (px_with_pc p (PxDirect now))
  | EvConnected (Err e), PxConnect _ _ => Some (px_finish p (Err e))
  | EvOpened (Ok _), PxOpen _ => Some (px_with_pc p (PxMux now (UpRead (now + PROXY_IDLE_TIMEOUT)) DownRecv))
  | EvOpened (Err e), PxOpen _ => Some (tunnel_over now p (Err (TunnelError e)))
  | EvCopyUp n, PxDirect _ =>
      if (0 <? n) && (n <=? zlen (px_in p)) then Some (px_moved (px_took p n) [] (ztake n (px_in p)) [] []) else None
  | EvCopyDown b, PxDirect _ => Some (px_moved p [] [] b b)
  | EvDirectEnd r, PxDirect _ => Some (px_finish p r)
  | EvLifetime, PxDirect start => if start + PROXY_MAX_LIFETIME <=? now then Some (px_finish p (Ok tt)) else None
  | _, PxMux start up down => px_mux_step now p start up down ev
  | _, _ => None
  end.

(** Any of [routers] may be in force at a step, as the rules are swapped under running
    connections. *)
Inductive px_reachable : Proxied -> Prop :=
| px_init now orig_dst : px_reachable (px_start now orig_dst)
| px_next now router p ev p' : px_reachable p -> routers router -> px_step now router p ev = Some p' -> px_reachable p'.


(** ** Invariants *)

(** The route was resolved on bytes the device had sent, by rules then in force. *)
Definition resolved_on (p : Proxied) (a : Action) (sni : option bytes) : Prop :=
  exists router seen, routers router /\ seen `prefix_of` px_all p /\ extract_sni seen = Some sni /\
    a = route_action (sock_port (px_dst p)) (resolve router sni (orig_dst_ip (px_dst p))) (default 0 (head seen) =? 0x16).

(** What may go out on a route. *)
Definition outgoing_ok (p : Proxied) (a : Action) (sni : option bytes) : Prop :=
  let t := target_addr (px_dst p) sni in
  match a with
  | Block => px_out p = []
  | Direct => px_out p = [OutDirect false]
  | Proxy => px_out p = [OutStream t] \/ on_server_down = Direct /\ px_out p = [OutStream t; OutDirect true]
  end.

Definition decided_ok (p : Proxied) : Prop :=
  match px_route p with
  | None =>
      px_out p = [] /\
      match px_pc p with PxPeek _ | PxMore _ _ => sock_port (px_dst p) <> listen_port | PxDone _ => True | _ => False end
  | Some (a, sni) =>
      sock_port (px_dst p) <> listen_port /\ resolved_on p a sni /\ outgoing_ok p a sni /\
      match px_pc p with
      | PxPeek _ | PxMore _ _ => False
      | PxOpen t => a = Proxy /\ px_out p = [OutStream t]
      | PxMux _ _ _ => a = Proxy /\ px_out p = [OutStream (target_addr (px_dst p) sni)]
      | PxConnect _ _ | PxDirect _ => a <> Block
      | PxDone _ => True
      end
  end.

Definition up_chunk (u : UploadPc) : bytes := match u with UpSend chunk => chunk | _ => [] end.
Definition down_chunk (d : DownloadPc) : bytes := match d with DownWrite rest => rest | DownRecv => [] end.

(** [up] and [down] are the bytes in the hands of the relay of the tunnel (lost when it
    ends); [d] and [r] split what was written into the part that came directly and the part
    of the tunnel. *)
Definition flows (p : Proxied) (up down d r : bytes) : Prop :=
  px_all p = px_taken p ++ px_in p /\ px_taken p = px_mux p ++ up ++ px_direct p /\
  px_recv p = r ++ down ++ d /\ px_written p = r ++ d /\ zlen up <= RELAY_BUFFER.

Definition direct_route (p : Proxied) : Prop := exists sni, px_route p = Some (Direct, sni).

Definition flows_ok (p : Proxied) : Prop :=
  exists up down d r, flows p up down d r /\ (direct_route p -> px_mux p = [] /\ up = [] /\ r = [] /\ down = []) /\
  match px_pc p with
  | PxPeek _ | PxMore _ _ | PxOpen _ => px_taken p = [] /\ px_recv p = []
  | PxConnect _ _ => px_direct p = [] /\ d = []
  | PxMux _ u w => up = up_chunk u /\ down = down_chunk w /\ px_direct p = [] /\ d = []
  | PxDirect _ | PxDone _ => True
  end.

Lemma decided_finish p res : decided_ok p -> decided_ok (px_finish p res).
Proof. unfold decided_ok. cbn. destruct (px_route p) as [[a sni] |]; [by intros (? & ? & ? & _) | by intros [? _]]. Qed.

Lemma flows_finish p res : flows_ok p -> flows_ok (px_finish p res).
Proof. intros (up & down & d & r & Hf & Hd & _). exists up, down, d, r. done. Qed.

(** The end of the tunnel keeps both: the fallback goes out once, after a stream. *)
Lemma decided_over now p res : decided_ok p ->
  (exists t, px_pc p = PxOpen t) \/ (exists s u d, px_pc p = PxMux s u d) -> decided_ok (tunnel_over now p res).
Proof.
  intros Hp Hpc. unfold tunnel_over. destruct res as [? | [? | ?]]; try by apply decided_finish.
  destruct (decide (on_server_down = Direct)) as [E | E]; [| destruct on_server_down; try done; by apply decided_finish].
  rewrite E. unfold decided_ok in *. cbn. destruct (px_route p) as [[a sni] |].
  - destruct Hp as (? & ? & Ho & Hc). assert (a = Proxy /\ px_out p = [OutStream (target_addr (px_dst p) sni)]) as [-> Hout].
    { destruct Hpc as [[t Ht] | (s & u & w & Ht)]; rewrite Ht in Hc; [| done]. destruct Hc as [-> Hc]. split; [done |].
      destruct Ho as [Ho | [_ Ho]]; rewrite Ho in Hc; done. }
    split_and!; try done. right. cbn. by rewrite Hout.
  - destruct Hp as [_ Hc]. by destruct Hpc as [[t Ht] | (s & u & w & Ht)]; rewrite Ht in Hc.
Qed.

Lemma flows_over now p res : flows_ok p ->
  (exists t, px_pc p = PxOpen t) \/ (exists s u d, px_pc p = PxMux s u d) -> flows_ok (tunnel_over now p res).
Proof.
  intros Hp Hpc. unfold tunnel_over. destruct res as [? | [? | ?]]; try by apply flows_finish.
  destruct on_server_down; try by apply flows_finish.
  destruct Hp as (up & down & d & r & (H1 & H2 & H3 & H4 & H5) & Hd & Hc). exists up, down, d, r.
  split; [done |]. split; [done |]. cbn.
  destruct Hpc as [[t Ht] | (s & u & w & Ht)]; rewrite Ht in Hc; [| by destruct Hc as (_ & _ & ? & ?)].
  destruct Hc as [Ht0 Hr0]. rewrite Ht0 in H2. rewrite Hr0 in H3. symmetry in H2, H3.
  apply app_nil in H2 as [_ H2]. apply app_nil in H3 as [_ H3]. apply app_nil in H2 as [_ ?]. by apply app_nil in H3 as [_ ?].
Qed.

(** Steps that go out to nobody new and take no decision. *)
Definition same_stage (a b : ProxyPc) : Prop :=
  match a, b with
  | PxPeek _, PxPeek _ | PxPeek _, PxMore _ _ | PxMore _ _, PxMore _ _ | PxConnect _ _, PxConnect _ _ | PxConnect _ _, PxDirect _
  | PxDirect _, PxDirect _ | PxMux _ _ _, PxMux _ _ _ | PxDone _, PxDone _ => True
  | PxOpen t, PxOpen t' => t = t'
  | PxOpen _, PxMux _ _ _ => True
  | _, _ => False
  end.

Lemma decided_same p p' : px_dst p' = px_dst p -> px_route p' = px_route p -> px_out p' = px_out p ->
  px_all p `prefix_of` px_all p' -> same_stage (px_pc p) (px_pc p') -> decided_ok p -> decided_ok p'.
Proof.
  intros Hd Hr Ho Ha Hs. unfold decided_ok, resolved_on, outgoing_ok. rewrite Hd, Hr, Ho.
  destruct (px_route p) as [[a sni] |].
  - intros (Hl & (router & seen & HR & Hp & He & Hre) & Hout & Hc). split; [done |].
    split. { exists router, seen. split_and!; try done. by etrans. }
    split; [done |]. destruct (px_pc p), (px_pc p'); cbn in Hs; try done; try (by subst).
    destruct Hc as [-> Hc]. split; [done |]. destruct Hout as [? | [_ Hout]]; [done |]. by rewrite Hout in Hc.
  - intros [? Hc]. split; [done |]. by destruct (px_pc p), (px_pc p').
Qed.

Lemma decide_route_ok now router p seen p' : routers router -> seen `prefix_of` px_in p -> decided_ok p -> flows_ok p ->
  match px_pc p with PxPeek _ | PxMore _ _ => True | _ => False end ->
  decide_route now router p seen = Some p' -> decided_ok p' /\ flows_ok p'.
Proof.
  intros HR Hseen Hd Hf Hpc Hs. unfold decide_route in Hs. destruct (extract_sni seen) as [sni |] eqn:Es; [| done]. cbn in Hs.
  unfold decided_ok in Hd. destruct Hf as (up & down & d & r & (H1 & H2 & H3 & H4 & H5) & Hdir & Hc).
  destruct (px_route p) as [[a0 s0] |]; [by destruct Hd as (_ & _ & _ & Hd); destruct (px_pc p) |]. destruct Hd as [Hout Hport].
  assert (sock_port (px_dst p) <> listen_port /\ px_taken p = [] /\ px_recv p = []) as (Hp & Ht & Hrc) by (by destruct (px_pc p)).
  rewrite Ht in H1, H2. rewrite Hrc in H3. symmetry in H2, H3.
  apply app_nil in H2 as [Hm H2]. apply app_nil in H2 as [-> Hdi]. apply app_nil in H3 as [-> H3]. apply app_nil in H3 as [-> ->].
  assert (Hres : forall a sni', extract_sni seen = Some sni' ->
    a = route_action (sock_port (px_dst p)) (resolve router sni' (orig_dst_ip (px_dst p))) (default 0 (head seen) =? 0x16) ->
    exists router seen, routers router /\ seen `prefix_of` px_all p /\ extract_sni seen = Some sni' /\
      a = route_action (sock_port (px_dst p)) (resolve router sni' (orig_dst_ip (px_dst p))) (default 0 (head seen) =? 0x16)).
  { intros a sni' Hs' Ha. exists router, seen. split_and!; try done. by rewrite H1. }
  specialize (Hres _ _ Es eq_refl).
  destruct (route_action (sock_port (px_dst p)) (resolve router sni (orig_dst_ip (px_dst p))) (default 0 (head seen) =? 0x16)) eqn:Ea;
    injection Hs as <-; (split; [unfold decided_ok, resolved_on, outgoing_ok; cbn; rewrite ?Hout; split_and!; try done; by left |]);
    exists [], [], [], []; unfold flows; cbn; rewrite H1, H4, Ht, Hrc, Hm, Hdi; done.
Qed.

Lemma peek_ok now router p seen deadline p' : routers router -> seen `prefix_of` px_in p -> decided_ok p -> flows_ok p ->
  match px_pc p with PxPeek _ | PxMore _ _ => True | _ => False end ->
  peek_client_hello now router p seen deadline = Some p' -> decided_ok p' /\ flows_ok p'.
Proof.
  intros HR Hseen Hd Hf Hpc Hs. unfold peek_client_hello in Hs. destruct (client_hello_record_len seen) as [[want |] |]; [| | done]; cbn in Hs.
  2: by eapply decide_route_ok.
  destruct (want <=? zlen seen); [by eapply decide_route_ok |]. destruct (deadline <=? now); [by eapply decide_route_ok |].
  injection Hs as <-. split.
  - apply (decided_same p); try done; cbn; by destruct (px_pc p).
  - destruct Hf as (up & down & d & r & Hf & Hdir & Hc). exists up, down, d, r. split; [done |]. split; [done |]. cbn. by destruct (px_pc p).
Qed.

Lemma flows_same p p' : flows_ok p -> px_route p' = px_route p -> px_mux p' = px_mux p -> px_direct p' = px_direct p ->
  px_taken p' = px_taken p -> px_recv p' = px_recv p -> px_written p' = px_written p -> px_all p' = px_taken p' ++ px_in p' ->
  (px_pc p' = px_pc p \/ match px_pc p' with PxDirect _ => True | PxMux _ u w => (exists t, px_pc p = PxOpen t) /\ up_chunk u = [] /\ down_chunk w = [] | _ => False end) -> flows_ok p'.
Proof.
  intros (up & down & d & r & (H1 & H2 & H3 & H4 & H5) & Hdir & Hc) Er Em Ed Et Erc Ew Ha Hpc.
  exists up, down, d, r. unfold flows, direct_route. rewrite Er, Em, Ed, Erc, Ew. split_and!; try done; [by rewrite Et |].
  destruct Hpc as [-> | Hpc]; [by rewrite Et |].
  destruct (px_pc p') as [| | | | s u w | |]; try done. destruct Hpc as ([t Ht] & -> & ->). rewrite Ht in Hc. destruct Hc as [Ht0 Hr0].
  rewrite Ht0 in H2. rewrite Hr0 in H3. symmetry in H2, H3.
  apply app_nil in H2 as [_ H2]. apply app_nil in H3 as [_ H3]. apply app_nil in H2. apply app_nil in H3. tauto.
Qed.

(** The relay of the tunnel. *)
Lemma mux_step_ok now p start up down ev p' : px_pc p = PxMux start up down -> decided_ok p -> flows_ok p ->
  px_mux_step now p start up down ev = Some p' -> decided_ok p' /\ flows_ok p'.
Proof.
  intros Hpc Hd Hf Hs.
  assert (Hover : forall res, decided_ok (tunnel_over now p res) /\ flows_ok (tunnel_over now p res)).
  { intros res. split; [apply decided_over | apply flows_over]; try done; right; by exists start, up, down. }
  assert (Hnd : ~ direct_route p).
  { intros [sni E]. unfold decided_ok in Hd. rewrite E, Hpc in Hd. by destruct Hd as (_ & _ & _ & ? & _). }
  assert (Hst : forall q u w, same_stage (px_pc p) (px_pc (px_with_pc q (PxMux start u w)))) by (intros; by rewrite Hpc).
  destruct Hf as (u0 & w0 & d & r & (H1 & H2 & H3 & H4 & H5) & Hdir & Hc). rewrite Hpc in Hc. destruct Hc as (-> & -> & Hdi & ->).
  rewrite Hdi, app_nil_r in H2. rewrite app_nil_r in H3, H4. rewrite <- H4 in H3. clear H4 Hdir r.
  assert (Hgo : forall q u w, px_dst q = px_dst p -> px_route q = px_route p -> px_out q = px_out p -> px_all q = px_all p ->
    px_pc q = PxMux start u w -> px_direct q = [] -> px_taken q ++ px_in q = px_all p -> px_taken q = px_mux q ++ up_chunk u ->
    px_recv q = px_written q ++ down_chunk w -> zlen (up_chunk u) <= RELAY_BUFFER -> decided_ok q /\ flows_ok q).
  { intros q u w E1 E2 E3 E4 E5 E6 E7 E8 E9 E10. split.
    - apply (decided_same p); try done; [by rewrite E4 | by rewrite Hpc, E5].
    - exists (up_chunk u), (down_chunk w), [], (px_written q). unfold flows, direct_route. rewrite E2, E5, E6, E4, !app_nil_r. by split_and!. }
  assert (Hend : forall q res, tunnel_over now p res = q -> decided_ok q /\ flows_ok q) by (intros q res <-; apply Hover).
  unfold px_mux_step in Hs.
  destruct ev as [| | | | | | [? | e] | [? | e] | [? | e] | od | [n | e] | | | |]; try done;
    try (destruct up; try done; apply Some_inj in Hs; by eapply Hend).
  - destruct up; try done. destruct (_ <=? now); [| done]. injection Hs as <-. by eapply Hgo.
  - destruct up; try done. destruct (negb _); [done |]. case_bool_decide; injection Hs as <-; eapply Hgo; try done; cbn.
    + by rewrite <- app_assoc, ztake_zdrop.
    + by rewrite H2, app_nil_r.
    + unfold ztake, zlen, RELAY_BUFFER. rewrite length_take. lia.
  - destruct up; try done; injection Hs as <-. eapply Hgo; try done; cbn; by rewrite ?app_nil_r.
  - destruct down; [| by destruct od]. destruct od as [b |]; [| apply Some_inj in Hs; by eapply Hend].
    case_bool_decide; [apply Some_inj in Hs; by eapply Hend |]. injection Hs as <-. eapply Hgo; try done; cbn; rewrite ?app_nil_r; try done. by rewrite H3, app_nil_r.
  - destruct down as [| rest]; [done |]. destruct ((0 <? n) && (n <=? zlen rest)) eqn:En; [| done]. bool_props. injection Hs as <-.
    destruct (Z.eqb_spec n (zlen rest)) as [-> | Hn]; eapply Hgo; try done; cbn; rewrite ?app_nil_r; try done; rewrite H3; cbn.
    + by rewrite ztake_ge.
    + by rewrite <- app_assoc, ztake_zdrop.
  - destruct down; [done |]. apply Some_inj in Hs. by eapply Hend.
  - destruct (_ <=? now); [| done]. apply Some_inj in Hs. by eapply Hend.
Qed.

(** Any step. *)
Lemma px_step_ok now router p ev p' : routers router -> decided_ok p -> flows_ok p -> px_step now router p ev = Some p' ->
  decided_ok p' /\ flows_ok p'.
Proof.
  intros HR Hd Hf Hs.
  assert (Hall : px_all p = px_taken p ++ px_in p) by (by destruct Hf as (? & ? & ? & ? & [? _] & _)).
  assert (Hpre : forall n, ztake n (px_in p) `prefix_of` px_in p) by (intros n; exists (zdrop n (px_in p)); by rewrite ztake_zdrop).
  assert (Hsame : forall q, px_dst q = px_dst p -> px_route q = px_route p -> px_out q = px_out p -> px_all p `prefix_of` px_all q -> px_mux q = px_mux p ->
    px_direct q = px_direct p -> px_taken q = px_taken p -> px_recv q = px_recv p -> px_written q = px_written p -> px_all q = px_taken q ++ px_in q ->
    px_pc q = px_pc p -> decided_ok q /\ flows_ok q).
  { intros q E1 E2 E3 E4 E5 E6 E7 E8 E9 E10 E11. split; [apply (decided_same p) | apply (flows_same p)]; try done; [| by left].
    rewrite E11. by destruct (px_pc p). }
  assert (Hfin : forall res, decided_ok (px_finish p res) /\ flows_ok (px_finish p res)) by (split; [by apply decided_finish | by apply flows_finish]).
  assert (Hin : forall b eof more, px_in p ++ more = b -> decided_ok (px_with_in p b eof more) /\ flows_ok (px_with_in p b eof more)).
  { intros b eof more <-. apply Hsame; try done; cbn; [by apply prefix_app_r | by rewrite Hall, app_assoc]. }
  assert (Hnf : ev = EvFin \/ ev <> EvFin) by (destruct ev; solve [by left | by right]).
  destruct Hnf as [-> | Hnf]; [injection Hs as <-; apply Hin, app_nil_r |].
  assert (Hna : (exists b, ev = EvArrive b) \/ forall b, ev <> EvArrive b) by (destruct ev; eauto).
  destruct Hna as [[b ->] | Hna]; [cbn in Hs; destruct (px_eof p); [done |]; injection Hs as <-; by apply Hin |].
  unfold px_step in Hs. destruct (px_pc p) as [dl | want dl | fb dl | t | start up down | start | res] eqn:Hpc.
  5: { apply (mux_step_ok now p start up down ev); try done.
       destruct ev as [b | | [|] | | [|] | [|] | [|] | [|] | [|] | od | [|] | | n | b | r]; try done; by destruct (Hna b). }
  all: destruct ev as [b | | r | | r | r | r | r | r | od | r | | n | b | r]; try done; try (by destruct (Hna b)); try (by destruct r);
    try (injection Hs as <-; by apply Hfin); try (destruct (_ <=? now); [injection Hs as <-; by apply Hfin | done]).
  - destruct r; [| injection Hs as <-; by apply Hfin]. destruct (readable p); [| done]. refine (peek_ok _ _ _ _ _ _ HR (Hpre _) Hd Hf _ Hs). by rewrite Hpc.
  - destruct r; [| injection Hs as <-; by apply Hfin]. destruct (readable p); [| done]. refine (peek_ok _ _ _ _ _ _ HR (Hpre _) Hd Hf _ Hs). by rewrite Hpc.
  - destruct r; injection Hs as <-; [| by apply Hfin]. split; [apply (decided_same p) | apply (flows_same p)]; try done; [by rewrite Hpc | by right].
  - destruct r; apply Some_inj in Hs as <-.
    + split; [apply (decided_same p) | apply (flows_same p)]; try done; [by rewrite Hpc |]. right. cbn. split_and!; try done. by exists t.
    + split; [apply (decided_over now p (Err (TunnelError e))) | apply (flows_over now p (Err (TunnelError e)))]; try done; left; by exists t.
  - destruct (_ && _) eqn:En; [| done]. injection Hs as <-. bool_props. destruct Hf as (u & w & d & r & (H1 & H2 & H3 & H4 & H5) & Hdir & Hc).
    split; [apply (decided_same p); try done; cbn; by rewrite ?app_nil_r, ?Hpc |].
    exists u, w, d, r. unfold flows, direct_route. cbn. rewrite Hpc, !app_nil_r. split_and!; try done.
    + by rewrite <- app_assoc, ztake_zdrop.
    + by rewrite H2, <- !app_assoc.
  - injection Hs as <-. destruct Hf as (u & w & d & r & (H1 & H2 & H3 & H4 & H5) & Hdir & Hc).
    split; [apply (decided_same p); try done; cbn; by rewrite ?Hpc |].
    exists u, w, (d ++ b), r. unfold flows, direct_route. cbn. rewrite Hpc, !app_nil_r. split_and!; try done.
    + by rewrite H3, <- !app_assoc.
    + by rewrite H4, <- !app_assoc.
Qed.

Lemma px_reachable_ok p : px_reachable p -> decided_ok p /\ flows_ok p.
Proof.
  induction 1 as [now od | now router p ev p' _ [Hd Hf] HR Hs]; [| by eapply px_step_ok].
  assert (Hfl : forall p, px_all p = [] -> px_taken p = [] -> px_in p = [] -> px_mux p = [] -> px_direct p = [] -> px_recv p = [] -> px_written p = [] ->
    match px_pc p with PxPeek _ | PxDone _ => True | _ => False end -> flows_ok p).
  { intros p E1 E2 E3 E4 E5 E6 E7 E8. exists [], [], [], []. unfold flows. rewrite E1, E2, E3, E4, E5, E6, E7. by destruct (px_pc p). }
  unfold px_start. destruct od as [dst | e]; [destruct (Z.eqb_spec (sock_port dst) listen_port) |]; (split; [done | by apply Hfl]).
Qed.

(** ** The properties *)


(** in every run of a redirected connection the bytes of the device, the peeked ones
    included, are read once and in order: what it sent is what was read plus what waits in
    the socket, and what was read went first into the stream of the tunnel and then to the
    direct target, except for at most the one chunk that was being sent into the stream
    when the tunnel ended. What it is given is a beginning of what the tunnel delivered and
    then all that the direct target delivered. While the tunnel is up nothing is missing, and
    a direct route loses nothing at all. *)
Theorem proxy_relays_bytes p : px_reachable p ->
  px_all p = px_taken p ++ px_in p /\
  exists up down d r,
    px_taken p = px_mux p ++ up ++ px_direct p /\ zlen up <= 8192 /\
    px_recv p = r ++ down ++ d /\ px_written p = r ++ d /\
    (forall start u w, px_pc p = PxMux start u w -> up = up_chunk u /\ down = down_chunk w /\ px_direct p = [] /\ d = []) /\
    (forall sni, px_route p = Some (Direct, sni) -> px_taken p = px_direct p /\ px_recv p = px_written p).
Proof.
  intros [_ Hf]%px_reachable_ok. destruct Hf as (up & down & d & r & (H1 & H2 & H3 & H4 & H5) & Hd & Hc). split; [done |].
  exists up, down, d, r. split_and!; try done.
  - intros start u w E. by rewrite E in Hc.
  - intros sni E. destruct Hd as (Hm & -> & -> & ->); [by exists sni |]. rewrite H2, H3, H4, Hm. done.
Qed.

(** A turn of the peeking loop waits for more only while the record is not whole. *)
Lemma peek_inv now router p seen dl p' : peek_client_hello now router p seen dl = Some p' ->
  (exists want, p' = px_with_pc p (PxMore want dl) /\ client_hello_record_len seen = Some (Some want) /\ zlen seen < want /\ now < dl) \/
  decide_route now router p seen = Some p' /\
    (client_hello_record_len seen = Some None \/ dl <= now \/ exists want, client_hello_record_len seen = Some (Some want) /\ want <= zlen seen).
Proof.
  unfold peek_client_hello. destruct (client_hello_record_len seen) as [[want |] |]; [| | done]; cbn; [| by eauto].
  destruct (Z.leb_spec want (zlen seen)); [by eauto 10 |]. destruct (Z.leb_spec dl now); [by eauto |].
  intros [= <-]. left. eauto.
Qed.

Lemma decide_route_inv now router p seen p' : decide_route now router p seen = Some p' ->
  exists a sni, extract_sni seen = Some sni /\ px_route p' = Some (a, sni) /\ match px_pc p' with PxPeek _ | PxMore _ _ => False | _ => True end.
Proof.
  unfold decide_route. destruct (extract_sni seen) as [sni |]; [| done]. cbn.
  destruct (route_action _ _ _) eqn:E; intros [= <-]; eexists _, sni; by split_and!.
Qed.

Lemma tunnel_over_stage now p res : match px_pc (tunnel_over now p res) with PxConnect _ _ | PxDone _ => True | _ => False end.
Proof. by destruct res as [? | [? | ?]]; cbn; try destruct on_server_down. Qed.

Lemma want_positive p : px_reachable p -> forall want dl, px_pc p = PxMore want dl -> 0 < want.
Proof.
  induction 1 as [now od | now router p ev p' Hr IH HR Hs]; intros want dl Hpc.
  { unfold px_start in Hpc. destruct od; [destruct (_ =? _) |]; done. }
  assert (Hpk : forall seen dl, peek_client_hello now router p seen dl = Some p' -> 0 < want).
  { intros seen dl' [(w & -> & _ & Hw & _) | [Hdec _]]%peek_inv.
    - cbn in Hpc. injection Hpc as -> _. pose proof (zlen_nonneg seen). lia.
    - apply decide_route_inv in Hdec as (? & ? & _ & _ & Hk). by rewrite Hpc in Hk. }
  assert (Hover : forall res, tunnel_over now p res = p' -> 0 < want).
  { intros res <-. pose proof (tunnel_over_stage now p res) as Hk. by rewrite Hpc in Hk. }
  unfold px_step, px_mux_step in Hs.
  repeat (case_match; try done; try (apply Some_inj in Hs; by eapply Hover); try (by eapply Hpk); try (injection Hs as <-; first [done | by eapply IH | cbn in Hpc; congruence])).
Qed.

(** A ClientHello gives its name to the route however it is cut into segments: a peek at a
    connection whose device has sent some of it (or all of it, and more) goes on waiting,
    or routes by that name, unless the wait of half a second is over. *)
Theorem hello_routes_by_name now router p p' c more :
  hello_ok c -> zlen (hello_handshake c) <= 16384 -> px_reachable p -> px_all p `prefix_of` hello_record c ++ more -> px_all p <> [] ->
  match px_pc p with PxPeek _ | PxMore _ _ => True | _ => False end ->
  px_step now router p (EvPeek (Ok tt)) = Some p' ->
  (exists want dl, px_pc p' = PxMore want dl /\ now < dl) \/ (exists a, px_route p' = Some (a, Some (ch_host c))) \/
  (exists want dl, px_pc p = PxMore want dl /\ dl <= now).
Proof.
  intros Hc Hmax Hr [rest Hrest] Hne Hpc Hs. destruct (px_reachable_ok p Hr) as [_ (? & ? & ? & ? & [Hall _] & _ & Ht)].
  assert (Hin : px_in p = px_all p) by (destruct (px_pc p); try done; destruct Ht as [Ht _]; by rewrite Ht in Hall).
  assert (Hpk : forall n dl, 0 < n -> peek_client_hello now router p (ztake n (px_in p)) dl = Some p' ->
    (exists want dl, px_pc p' = PxMore want dl /\ now < dl) \/ (exists a, px_route p' = Some (a, Some (ch_host c))) \/ dl <= now).
  { intros n dl Hn [(w & -> & _ & _ & ?) | [Hdec Hwhy]]%peek_inv; [left; by eexists _, _ |].
    set (seen := ztake n (px_in p)) in *. assert (E : seen ++ zdrop n (px_in p) ++ rest = hello_record c ++ more).
    { unfold seen. by rewrite app_assoc, ztake_zdrop, Hin. }
    assert (0 < zlen seen). { unfold seen, ztake. rewrite Hin. destruct (px_all p); [done |]. destruct (Z.to_nat n) eqn:?; [lia |]. unfold zlen. cbn. lia. }
    destruct (record_len_prefix c seen _ more Hc Hmax E ltac:(done)) as (w & Hw & _ & H1 & _). rewrite Hw in Hwhy.
    destruct Hwhy as [? | [? | (w' & [= <-] & Hle)]]; [done | by right; right |].
    destruct (record_whole c seen _ more E (H1 Hle)) as [tail Etail].
    apply decide_route_inv in Hdec as (a & sni & Hsni & Hroute & _). rewrite Etail, extract_hello in Hsni by done. injection Hsni as <-. right. left. by exists a. }
  unfold px_step in Hs. destruct (px_pc p) as [dl | want dl | | | | |] eqn:Ep; try done; (destruct (readable p); [| done]).
  - destruct (Hpk PEEK_BUFFER _ ltac:(unfold PEEK_BUFFER; lia) Hs) as [? | [? | ?]]; [by left | by right; left |]. unfold SNI_FRAGMENT_WAIT in *. lia.
  - destruct (Hpk _ _ (want_positive p Hr _ _ Ep) Hs) as [? | [? | ?]]; [by left | by right; left |]. right. right. by exists want, dl.
Qed.

(** Off the web ports no rule has an effect, a rule that blocks included: whatever is in
    force, the connection goes out, and the same way. *)
Theorem block_rule_ignored now p seen sni :
  sock_port (px_dst p) <> 80 -> sock_port (px_dst p) <> 443 -> extract_sni seen = Some sni ->
  exists p' o, px_out p' = px_out p ++ [o] /\ forall router, decide_route now router p seen = Some p'.
Proof.
  intros H1 H2 He. unfold decide_route. rewrite He. cbn. unfold route_action.
  destruct (Z.eqb_spec (sock_port (px_dst p)) 80); [done |]. destruct (Z.eqb_spec (sock_port (px_dst p)) 443); [done |]. cbn.
  destruct (_ =? _); eexists _, _; (split; [| reflexivity]); reflexivity.
Qed.

(** A device that has closed its sending side loses the answer: the end of the upload ends
    the relay whatever the download is doing. *)
Theorem proxy_half_close now1 now2 router p start dl down :
  px_pc p = PxMux start (UpRead dl) down -> px_in p = [] ->
  exists p1 p2 p3, px_step now1 router p EvFin = Some p1 /\ px_step now1 router p1 (EvRead (Ok tt)) = Some p2 /\
    px_step now2 router p2 (EvClosed (Ok tt)) = Some p3 /\ px_pc p3 = PxDone (Ok tt) /\ px_written p3 = px_written p.
Proof.
  intros Hpc Hin. eexists _, _, _. split; [reflexivity |]. split.
  { unfold px_step. cbn. rewrite Hpc. cbn. unfold readable. cbn. rewrite Hin. reflexivity. }
  by split.
Qed.

End proxy.

(** ** Runs *)

Fixpoint px_run {UC : UnicodeCase} (router : Router) (on_server_down : Action) (evs : list (Z * ProxyEvent)) (p : Proxied) : option Proxied :=
  match evs with
  | [] => Some p
  | (t, ev) :: evs => p ← px_step on_server_down t router p ev; px_run router on_server_down evs p
  end.

Lemma px_run_reach {UC : UnicodeCase} router lp osd evs : forall p p',
  px_run router osd evs p = Some p' -> px_reachable (eq router) lp osd p -> px_reachable (eq router) lp osd p'.
Proof.
  induction evs as [| [t ev] evs IH]; intros p p'; cbn [px_run]; [by intros [= <-] |].
  destruct (px_step osd t router p ev) as [p1 |] eqn:E; [| done]. cbn [mbind option_bind]. intros Hr Hp.
  apply (IH p1); [done |]. by eapply px_next.
Qed.

Definition ex_proxy_router : Router := {| rules := []; default_action := Proxy; geoip_reader := None |}.
Definition ex_proxy_dst (port : Z) : SocketAddr := SockV4 (from_be32 93 184 216 34) port.
Definition ex_proxy_start : Proxied := px_start 1080 0 (Ok (ex_proxy_dst 443)).

(** The ClientHello in two pieces, the stream opened, the bytes sent, an answer, more data. *)
Definition ex_proxy_events : list (Z * ProxyEvent) :=
  [(1, EvArrive (ztake 20 (hello_record ex_hello))); (1, EvPeek (Ok tt)); (6, EvArrive (zdrop 20 (hello_record ex_hello)));
   (6, EvPeek (Ok tt)); (40, EvOpened (Ok tt)); (41, EvRead (Ok tt)); (42, EvSent (Ok tt)); (80, EvRecv (Some [1; 2; 3]));
   (81, EvWrote (Ok 2)); (90, EvArrive [7; 8; 9; 10]); (91, EvRead (Ok tt))].
Definition ex_proxied : Proxied := default ex_proxy_start (@px_run ascii_case ex_proxy_router Direct ex_proxy_events ex_proxy_start).

(** The tunnel fails, the fallback connects and goes on with what the device sends next. *)
Definition ex_fallback_events : list (Z * ProxyEvent) :=
  ex_proxy_events ++ [(100, EvSent (io_err BrokenPipe "mux closed")); (130, EvConnected (Ok tt)); (140, EvArrive [11; 12]); (141, EvCopyUp 2)].
Definition ex_fallen_back : Proxied := default ex_proxy_start (@px_run ascii_case ex_proxy_router Direct ex_fallback_events ex_proxy_start).

Lemma ex_proxied_reach : @px_reachable ascii_case (eq ex_proxy_router) 1080 Direct ex_proxied.
Proof. apply (px_run_reach ex_proxy_router 1080 Direct ex_proxy_events ex_proxy_start); [vm_compute; reflexivity | apply px_init]. Qed.

Lemma ex_fallen_back_reach : @px_reachable ascii_case (eq ex_proxy_router) 1080 Direct ex_fallen_back.
Proof. apply (px_run_reach ex_proxy_router 1080 Direct ex_fallback_events ex_proxy_start); [vm_compute; reflexivity | apply px_init]. Qed.

(** A tunnel that fails in the middle of a connection falls back to a direct connection that
    carries on in the middle of the byte stream: the target is sent neither the ClientHello
    nor the chunk that was lost, only what the device sends next. *)
Theorem fallback_mid_stream :
  px_out ex_fallen_back = [OutStream (TDomain (ch_host ex_hello) 443); OutDirect true] /\
  px_mux ex_fallen_back = hello_record ex_hello /\ px_taken ex_fallen_back = hello_record ex_hello ++ [7; 8; 9; 10; 11; 12] /\
  px_direct ex_fallen_back = [11; 12].
Proof. split_and!; vm_compute; reflexivity. Qed.


Lemma proxy_relays_bytes_witness :
  px_taken ex_proxied = px_mux ex_proxied ++ [7; 8; 9; 10] /\ px_recv ex_proxied = px_written ex_proxied ++ [3].
Proof.
  destruct (@proxy_relays_bytes ascii_case (eq ex_proxy_router) 1080 Direct ex_proxied ex_proxied_reach)
    as (_ & up & down & d & r & H1 & _ & H3 & H4 & H5 & _).
  destruct (H5 40 (UpSend [7; 8; 9; 10]) (DownWrite [3])) as (-> & -> & Hd & ->); [vm_compute; reflexivity |].
  rewrite Hd, app_nil_r in H1. rewrite app_nil_r in H3, H4. split; [exact H1 | rewrite H4; exact H3].
Defined.

Definition ex_peeking : Proxied := default ex_proxy_start (@px_run ascii_case ex_proxy_router Direct (take 3 ex_proxy_events) ex_proxy_start).

Lemma hello_routes_by_name_witness :
  exists a, px_route (default ex_proxy_start (@px_step ascii_case Direct 6 ex_proxy_router ex_peeking (EvPeek (Ok tt)))) = Some (a, Some (str "example.com")).
Proof.
  destruct (@hello_routes_by_name ascii_case (eq ex_proxy_router) 1080 Direct 6 ex_proxy_router ex_peeking
    (default ex_proxy_start (@px_step ascii_case Direct 6 ex_proxy_router ex_peeking (EvPeek (Ok tt)))) ex_hello []) as [(w & dl & H & _) | [H | (w & dl & H & Hdl)]].
  - split_and!; by_compute.
  - vm_compute. discriminate.
  - apply (px_run_reach ex_proxy_router 1080 Direct (take 3 ex_proxy_events) ex_proxy_start); [vm_compute; reflexivity | apply px_init].
  - exists []. vm_compute. reflexivity.
  - vm_compute. discriminate.
  - vm_compute. exact I.
  - vm_compute. reflexivity.
  - exfalso. vm_compute in H. discriminate H.
  - exact H.
  - exfalso. assert (E : px_pc ex_peeking = PxMore 95 501) by (vm_compute; reflexivity). rewrite E in H. injection H as _ <-. lia.
Defined.

Definition ex_block_all : Router := {| rules := []; default_action := Block; geoip_reader := None |}.

Lemma block_rule_ignored_witness :
  @resolve ascii_case ex_block_all None (V4 (from_be32 93 184 216 34)) = Block /\
  exists p' o, px_out p' = [] ++ [o] /\ @decide_route ascii_case 5 ex_block_all (px_start 1080 0 (Ok (ex_proxy_dst 8443))) [19; 66] = Some p'.
Proof.
  split; [reflexivity |].
  destruct (@block_rule_ignored ascii_case 5 (px_start 1080 0 (Ok (ex_proxy_dst 8443))) [19; 66] None) as (p' & o & Ho & H);
    [discriminate | discriminate | vm_compute; reflexivity |].
  exists p', o. split; [exact Ho | exact (H ex_block_all)].
Defined.

Definition ex_answering : Proxied := default ex_proxy_start (@px_run ascii_case ex_proxy_router Direct (take 9 ex_proxy_events) ex_proxy_start).

Lemma proxy_half_close_witness :
  px_pc ex_answering = PxMux 40 (UpRead (42 + PROXY_IDLE_TIMEOUT)) (DownWrite [3]) /\
  exists p1 p2 p3, @px_step ascii_case Direct 85 ex_proxy_router ex_answering EvFin = Some p1 /\
    @px_step ascii_case Direct 85 ex_proxy_router p1 (EvRead (Ok tt)) = Some p2 /\
    @px_step ascii_case Direct 86 ex_proxy_router p2 (EvClosed (Ok tt)) = Some p3 /\ px_pc p3 = PxDone (Ok tt) /\ px_written p3 = px_written ex_answering.
Proof.
  split; [vm_compute; reflexivity |].
  refine (@proxy_half_close ascii_case Direct 85 86 ex_proxy_router ex_answering 40 (42 + PROXY_IDLE_TIMEOUT) (DownWrite [3]) _ _); vm_compute; reflexivity.
Defined.
