(* ===== verification/ImportGate.v ===== *)
(** * What an import job may be asked for (xr-share/src/import.rs and config.rs)

    The gate on the link of a job, the choice of the plugin, the clamp of the height, the
    argument vector and the sandbox around it, and the start-up checks of the [[import]]
    block. Name resolution is a parameter. *)

From S2P Require Import Prelude Text Net UserRule Routing ShareFiles Agent.

Definition JOB_DIR_PREFIX : bytes := str ".xr-import-".
Definition HEIGHT_MIN : Z := 144.
Definition HEIGHT_MAX : Z := 4320.
Definition DENY_RANGES : bytes := str
  "0.0.0.0/8 127.0.0.0/8 10.0.0.0/8 172.16.0.0/12 192.168.0.0/16 169.254.0.0/16 100.64.0.0/10 224.0.0.0/4 240.0.0.0/4 ::/128 ::1/128 fe80::/10 fc00::/7 ff00::/8".

(** ** Configuration *)

Record ImportPlugin := {
  ip_name : bytes; ip_patterns : list bytes; ip_max_height : Z; ip_cmd : bytes; ip_args : list bytes
}.

Record ImportConfig := {
  ic_timeout_min : Z; ic_max_total_mb : option Z; ic_sandbox : bytes; ic_queue_depth : Z; ic_plugins : list ImportPlugin
}.

Definition URL_ARG : bytes := str "{url}".
Definition HEIGHT_ARG : bytes := str "{height}".

Inductive ImportConfigError :=
| BadSandbox | NoPatterns (plugin : bytes) | NoUrlArg (plugin : bytes) | UrlInsideArg (plugin : bytes)
| BadMaxHeight (plugin : bytes) | ImportNotWritable (share_id : bytes).

Definition validate_plugin (p : ImportPlugin) : option ImportConfigError :=
  if bool_decide (ip_patterns p = []) then Some (NoPatterns (ip_name p))
  else if negb (existsb (fun a => bool_decide (a = URL_ARG)) (ip_args p)) then Some (NoUrlArg (ip_name p))
  else if existsb (fun a => negb (bool_decide (a = URL_ARG)) && contains URL_ARG a) (ip_args p) then Some (UrlInsideArg (ip_name p))
  else if negb ((HEIGHT_MIN <=? ip_max_height p) && (ip_max_height p <=? HEIGHT_MAX)) then Some (BadMaxHeight (ip_name p))
  else None.

(** [None] is the [Ok] of the source. [shares] are the resolved shares of the config. *)
Definition validate_import (import : option ImportConfig) (shares : list ShareEntry) : option ImportConfigError :=
  or_else
    (match import with
     | Some c =>
         if negb (bool_decide (ic_sandbox c = str "auto")) && negb (bool_decide (ic_sandbox c = str "none")) then Some BadSandbox
         else find_map validate_plugin (ic_plugins c)
     | None => None
     end)
    (find_map (fun s => if se_import s && negb (se_writable s) then Some (ImportNotWritable (se_share_id s)) else None) shares).

(** The block [share --import] writes into a config that has none. *)
Definition reference : ImportConfig :=
  {| ic_timeout_min := 30; ic_max_total_mb := Some 4096; ic_sandbox := str "auto"; ic_queue_depth := 4;
     ic_plugins := [{| ip_name := str "yt-dlp"; ip_patterns := [str "youtube.com"; str "youtu.be"; str "*"]; ip_max_height := 1080;
       ip_cmd := str "yt-dlp";
       ip_args := [str "--no-playlist"; str "--newline"; str "-f"; str "bv*[height<={height}]+ba/b[height<={height}]"; str "--progress-template";
         str "download:xr-progress %(progress._percent_str)s"; str "-o"; str "%(title).200B [%(id)s].%(ext)s"; str "--print-to-file";
         str "after_move:%(filepath)s" ++ 9 :: str "%(webpage_url)s" ++ 9 :: str "%(channel,uploader|)s" ++ 9 :: str "%(channel_url,uploader_url|)s"
           ++ 9 :: str "%(upload_date|)s" ++ 9 :: str "%(title|)s";
         str ".xr-meta.tsv"; URL_ARG] |}] |}.

(** ** Links *)

Fixpoint split_once_str (p l : bytes) : option (bytes * bytes) :=
  match strip_prefix p l with
  | Some r => Some ([], r)
  | None => match l with [] => None | b :: l' => (fun x => (b :: x.1, x.2)) <$> split_once_str p l' end
  end.

(** The part before the first of the separators. *)
Fixpoint until (seps l : bytes) : bytes :=
  match l with [] => [] | b :: l' => if bool_decide (b ∈ seps) then [] else b :: until seps l' end.

Inductive UrlError :=
| UrlBackslash | UrlNoScheme | UrlOpenLiteral | UrlNoHost | UrlScheme (scheme : bytes) | UrlUnresolved (host : bytes) | UrlPrivate (ip : IpAddr).

Definition url_host (host_port : bytes) : result bytes UrlError :=
  match strip_prefix (str "[") host_port with
  | Some v6 => match split_once 93 v6 with Some (h, _) => Ok h | None => Err UrlOpenLiteral end
  | None =>
      match rsplit_once 58 host_port with
      | Some (h, p) => if forallb (in_rng 48 57) p then Ok h else Ok host_port
      | None => Ok host_port
      end
  end.

Definition parse_url (url : bytes) : result (bytes * bytes) UrlError :=
  let url := trim url in
  if contains_char 92 url then Err UrlBackslash else
  match split_once_str (str "://") url with
  | None => Err UrlNoScheme
  | Some (scheme, rest) =>
      let authority := until (str "/?#") rest in
      let host_port := match rsplit_once 64 authority with Some (_, h) => h | None => authority end in
      match url_host host_port with
      | Err e => Err e
      | Ok [] => Err UrlNoHost
      | Ok host => Ok (to_ascii_lowercase scheme, to_ascii_lowercase host)
      end
  end.

(** ** Addresses *)

Definition v4_octet (ip : Z) (i : Z) : Z := ip / 2 ^ (8 * (3 - i)) mod 256.
Definition to_ipv4_mapped (a : Z) : option Z := if a / 2 ^ 32 =? 0xFFFF then Some (a mod 2 ^ 32) else None.

Definition is_private_v4 (v4 : Z) : bool :=
  let o := v4_octet v4 in
  v4_is_loopback v4 || v4_is_private v4 || v4_is_link_local v4
  || ((224 <=? o 0) && (o 0 <=? 239))             (* is_multicast *)
  || (v4 =? 2 ^ 32 - 1) || (v4 =? 0)              (* is_broadcast, is_unspecified *)
  || (o 0 =? 0)
  || ((o 0 =? 100) && (Z.land (o 1) 0xC0 =? 64))
  || (240 <=? o 0).

Definition is_private_ip (ip : IpAddr) : bool :=
  match ip with
  | V4 v4 => is_private_v4 v4
  | V6 v6 =>
      match to_ipv4_mapped v6 with
      | Some mapped => is_private_v4 mapped
      | None =>
          let seg0 := v6_segment0 v6 in
          v6_is_loopback v6 || v6_is_unspecified v6
          || (Z.land seg0 0xFF00 =? 0xFF00)       (* is_multicast *)
          || (Z.land seg0 0xFFC0 =? 0xFE80) || (Z.land seg0 0xFE00 =? 0xFC00)
      end
  end.

(** [lookup] is [lookup_host], [None] its error. *)
Definition check_url (lookup : bytes -> option (list IpAddr)) (url : bytes) : result bytes UrlError :=
  match parse_url url with
  | Err e => Err e
  | Ok (scheme, host) =>
      if negb (bool_decide (scheme = str "http")) && negb (bool_decide (scheme = str "https")) then Err (UrlScheme scheme) else
      match (match parse_ip host with Some ip => Some [ip] | None => lookup host end) with
      | None | Some [] => Err (UrlUnresolved host)
      | Some addrs => match List.find is_private_ip addrs with Some ip => Err (UrlPrivate ip) | None => Ok host end
      end
  end.

(** ** Plugins *)

Fixpoint trim_dots_rev (l : bytes) : bytes := match l with b :: l' => if b =? 46 then trim_dots_rev l' else l | [] => [] end.
Definition trim_end_dots (l : bytes) : bytes := rev (trim_dots_rev (rev l)).

Definition host_matches (host pattern : bytes) : bool :=
  bool_decide (host = pattern) || ends_with (46 :: pattern) host.

Definition route_pattern (host : bytes) (plugin : ImportPlugin) (s : option (ImportPlugin * Z) * option ImportPlugin) (pattern : bytes) :
    option (ImportPlugin * Z) * option ImportPlugin :=
  let '(best, catch_all) := s in
  if bool_decide (pattern = str "*") then (best, or_else catch_all (Some plugin)) else
  let p := to_ascii_lowercase (trim_end_dots pattern) in
  if host_matches host p && (match best with Some (_, len) => len <? zlen p | None => true end) then (Some (plugin, zlen p), catch_all) else s.

Definition route_plugin (plugins : list ImportPlugin) (host : bytes) : option ImportPlugin :=
  let host := to_ascii_lowercase (trim_end_dots host) in
  let '(best, catch_all) := foldl (fun s plugin => foldl (route_pattern host plugin) s (ip_patterns plugin)) (None, None) plugins in
  or_else (fst <$> best) catch_all.

Definition effective_height (requested : option Z) (plugin : ImportPlugin) : option Z :=
  match requested with
  | None => Some (ip_max_height plugin)
  | Some h => if (HEIGHT_MIN <=? h) && (h <=? HEIGHT_MAX) then Some (Z.min h (ip_max_height plugin)) else None
  end.

(** ** The command *)

(** [str::replace]. *)
Fixpoint replace_fuel (fuel : nat) (p r l : bytes) : bytes :=
  match fuel with
  | O => l
  | S fuel =>
      match strip_prefix p l with
      | Some l' => r ++ replace_fuel fuel p r l'
      | None => match l with [] => [] | b :: l' => b :: replace_fuel fuel p r l' end
      end
  end.
Definition str_replace (p r l : bytes) : bytes := replace_fuel (S (length l)) p r l.

Definition build_argv (plugin : ImportPlugin) (url : bytes) (height : Z) : bytes * list bytes :=
  (ip_cmd plugin, map (fun a => if bool_decide (a = URL_ARG) then url else str_replace HEIGHT_ARG (show_dec height) a) (ip_args plugin)).

(** [usable] is [systemd_run_usable], [root] an effective user id of 0. *)
Definition sandbox_wrap (usable root : bool) (cmd : bytes) (args : list bytes) (sandbox : bytes) : bytes * list bytes :=
  if negb (bool_decide (sandbox = str "auto")) then (cmd, args)
  else if negb usable then (cmd, args)
  else (str "systemd-run",
        (if root then [] else [str "--user"]) ++
        [str "--scope"; str "--collect"; str "--quiet"; str "--property=IPAddressAllow=any"; str "--property=IPAddressDeny=" ++ DENY_RANGES;
         str "--property=MemoryMax=2G"; str "--"; cmd] ++ args).

(** The number of a progress line as a decimal, [(n, k)] for n / 10^k; the source rounds it
    to an [f64]. *)
Fixpoint decimal (acc k : Z) (dot : bool) (l : bytes) : option (Z * Z) :=
  match l with
  | [] => Some (acc, k)
  | b :: l => if b =? 46 then if dot then None else decimal acc k true l else decimal (acc * 10 + (b - 48)) (if dot then k + 1 else k) dot l
  end.

Fixpoint skip_to_digit (l : bytes) : bytes := match l with [] => [] | b :: l' => if in_rng 48 57 b then l else skip_to_digit l' end.
Fixpoint take_number (l : bytes) : bytes := match l with [] => [] | b :: l' => if in_rng 48 57 b || (b =? 46) then b :: take_number l' else [] end.

Definition parse_progress (line : bytes) : option (Z * Z) :=
  rest ← strip_prefix (str "xr-progress") (trim_start line);
  let number := take_number (skip_to_digit rest) in
  if bool_decide (number = []) then None else
  '(n, k) ← decimal 0 0 false number;
  Some (if 100 * 10 ^ k <? n then (100, 0) else (n, k)).

(** The first hit for a command in the directories of [PATH]. *)
Definition which_in (is_file : list bytes -> bool) (name : bytes) (dirs : list (list bytes)) (with_exe : bool) : option (list bytes) :=
  find_map (fun dir =>
    let exact := dir ++ [name] in
    if is_file exact then Some exact
    else let exe := dir ++ [name ++ str ".exe"] in if with_exe && is_file exe then Some exe else None) dirs.

(** ** Addresses *)

(** The ranges, as the reader of the routing rules understands them. *)
Definition deny : list CidrRange := omap CidrRange_parse (split 32 DENY_RANGES).

(** An IPv4 address in IPv6 clothing is judged as the IPv4 address. *)
Definition unmapped (ip : IpAddr) : IpAddr :=
  match ip with V4 a => V4 a | V6 a => match to_ipv4_mapped a with Some v4 => V4 v4 | None => V6 a end end.

Definition cidr4 (x : Z * Z) : CidrRange := CidrV4 (Z.land x.1 (prefix_mask 32 x.2)) (prefix_mask 32 x.2).
Definition cidr6 (x : Z * Z) : CidrRange := CidrV6 (Z.land x.1 (prefix_mask 128 x.2)) (prefix_mask 128 x.2).

Definition deny4 : list (Z * Z) :=
  map (fun x => (from_be32 x.1.1 x.1.2 0 0, x.2)) [((0, 0), 8); ((127, 0), 8); ((10, 0), 8); ((172, 16), 12); ((192, 168), 16); ((169, 254), 16);
    ((100, 64), 10); ((224, 0), 4); ((240, 0), 4)].
Definition deny6 : list (Z * Z) := [(0, 128); (1, 128); (0xfe80 * 2 ^ 112, 10); (0xfc00 * 2 ^ 112, 7); (0xff00 * 2 ^ 112, 8)].

Lemma deny_eq : deny = map cidr4 deny4 ++ map cidr6 deny6.
Proof. vm_compute. reflexivity. Qed.

Lemma cidr4_contains a p x : 0 <= p <= 32 -> 0 <= a < 2 ^ 32 -> 0 <= x < 2 ^ 32 ->
  CidrRange_contains (cidr4 (a, p)) (V4 x) = (x / 2 ^ (32 - p) =? a / 2 ^ (32 - p)).
Proof. intros. apply eq_true_iff_eq. rewrite Z.eqb_eq. by apply CidrRange_contains_v4. Qed.

Lemma cidr6_contains a p x : 0 <= p <= 128 -> 0 <= a < 2 ^ 128 -> 0 <= x < 2 ^ 128 ->
  CidrRange_contains (cidr6 (a, p)) (V6 x) = (x / 2 ^ (128 - p) =? a / 2 ^ (128 - p)).
Proof. intros. apply eq_true_iff_eq. rewrite Z.eqb_eq. by apply CidrRange_contains_v6. Qed.

(** A test of leading bits is a comparison of quotients. *)
Lemma land_leading bits p m x v : prefix_mask bits p = m -> 0 <= p <= bits -> 0 <= x < 2 ^ bits -> 0 <= v < 2 ^ bits -> Z.land v m = v ->
  (Z.land x m =? v) = (x / 2 ^ (bits - p) =? v / 2 ^ (bits - p)).
Proof. intros <- Hp Hx Hv E. apply eq_true_iff_eq. rewrite !Z.eqb_eq. rewrite <- E at 1. by apply masked_eq_iff. Qed.

Lemma div_eqb x c d : 0 < d -> (x / d =? c) = (c * d <=? x) && (x <? (c + 1) * d).
Proof. intros Hd. apply eq_true_iff_eq. rewrite andb_true_iff, Z.eqb_eq, Z.leb_le, Z.ltb_lt. split; intros; [Z.div_mod_to_equations; nia |]. symmetry. apply Z.div_unique with (x - c * d); lia. Qed.

Lemma carrier_grade x : 0 <= x < 2 ^ 32 -> (v4_octet x 0 =? 100) && (Z.land (v4_octet x 1) 0xC0 =? 64) = (x / 2 ^ 22 =? 401).
Proof.
  intros Hx. unfold v4_octet.
  rewrite (land_leading 8 2 0xC0 _ 64 eq_refl ltac:(lia) ltac:(apply Z.mod_pos_bound; lia) ltac:(lia) eq_refl).
  apply eq_true_iff_eq. rewrite andb_true_iff, !Z.eqb_eq. change (8 * (3 - 0)) with 24. change (8 * (3 - 1)) with 16. change (8 - 2) with 6.
  split; intros; Z.div_mod_to_equations; lia.
Qed.

(** Evaluates the quotients of constants. *)
Ltac closed_div :=
  repeat match goal with |- context [?a / ?b] => let v := eval vm_compute in (a / b) in change (a / b) with v end.

Lemma private_v4_denied x : 0 <= x < 2 ^ 32 -> is_private_v4 x = existsb (fun r => CidrRange_contains r (V4 x)) deny.
Proof.
  intros Hx. rewrite deny_eq, existsb_app.
  assert (existsb (fun r => CidrRange_contains r (V4 x)) (map cidr6 deny6) = false) as -> by done.
  unfold deny4. cbn [map existsb]. unfold from_be32. cbn [fst snd]. rewrite !cidr4_contains by lia.
  unfold is_private_v4. rewrite carrier_grade by done. unfold v4_octet, v4_is_loopback, v4_is_private, v4_is_link_local.
  change (8 * (3 - 0)) with 24. rewrite (Z.mod_small (x / 2 ^ 24)) by (split; [apply Z.div_pos; lia | apply Z.div_lt_upper_bound; lia]).
  assert (Hq : forall c, (c <=? x / 2 ^ 24) = (c * 2 ^ 24 <=? x)).
  { intros c. apply eq_true_iff_eq. rewrite !Z.leb_le. split; intros; [Z.div_mod_to_equations; lia | apply Z.div_le_lower_bound; lia]. }
  assert (Hq' : (x / 2 ^ 24 <=? 239) = (x <? 240 * 2 ^ 24)).
  { apply eq_true_iff_eq. rewrite Z.leb_le, Z.ltb_lt. split; intros; Z.div_mod_to_equations; lia. }
  rewrite !Hq, Hq', !div_eqb by lia. closed_div. lia.
Qed.

Lemma private_v6_denied x : 0 <= x < 2 ^ 128 -> to_ipv4_mapped x = None ->
  is_private_ip (V6 x) = existsb (fun r => CidrRange_contains r (V6 x)) deny.
Proof.
  intros Hx Hm. rewrite deny_eq, existsb_app.
  assert (existsb (fun r => CidrRange_contains r (V6 x)) (map cidr4 deny4) = false) as -> by done.
  unfold is_private_ip. rewrite Hm. unfold v6_is_loopback, v6_is_unspecified, v6_segment0.
  assert (Hs : 0 <= x / 2 ^ 112 < 2 ^ 16) by (split; [apply Z.div_pos; lia | apply Z.div_lt_upper_bound; lia]).
  rewrite (land_leading 16 8 0xFF00 _ 0xFF00 eq_refl ltac:(lia) Hs ltac:(lia) eq_refl), (land_leading 16 10 0xFFC0 _ 0xFE80 eq_refl ltac:(lia) Hs ltac:(lia) eq_refl),
    (land_leading 16 7 0xFE00 _ 0xFC00 eq_refl ltac:(lia) Hs ltac:(lia) eq_refl), !Z.div_div by lia.
  unfold deny6. cbn [map existsb orb]. rewrite !cidr6_contains by lia. rewrite !div_eqb by lia. closed_div. lia.
Qed.

Lemma denied_iff ip : ip_ok ip -> is_private_ip ip = existsb (fun r => CidrRange_contains r (unmapped ip)) deny.
Proof.
  intros Hip. destruct ip as [a | a]; [by apply private_v4_denied |]. cbn [unmapped].
  destruct (to_ipv4_mapped a) as [v4 |] eqn:E; [| by apply private_v6_denied].
  cbn [is_private_ip]. rewrite E. apply private_v4_denied. unfold to_ipv4_mapped in E. destruct (_ =? _); [| done].
  injection E as <-. apply Z.mod_pos_bound. lia.
Qed.

(** the gate refuses exactly the ranges the sandbox denies: an address counts as
    private if and only if one of the ranges of the deny list contains it, an IPv4-mapped
    IPv6 address being taken for the IPv4 address it stands for. *)
Theorem gate_is_deny_list (ip : IpAddr) : ip_ok ip ->
  is_private_ip ip = true <-> exists r, r ∈ deny /\ CidrRange_contains r (unmapped ip) = true.
Proof. intros Hip. rewrite denied_iff, existsb_exists by done. by setoid_rewrite list_elem_of_In. Qed.

(** ** Links *)

Lemma split_once_str_spec p l x y : split_once_str p l = Some (x, y) -> l = x ++ p ++ y.
Proof.
  revert x. induction l as [| b l IH]; intros x; cbn [split_once_str].
  - destruct (strip_prefix p []) eqn:E; [| done]. intros [= <- <-]. by apply strip_prefix_spec in E.
  - destruct (strip_prefix p (b :: l)) eqn:E; [intros [= <- <-]; by apply strip_prefix_spec in E |].
    destruct (split_once_str p l) as [[x' y'] |]; [| done]. cbn. intros [= <- <-]. cbn. by rewrite (IH x').
Qed.

Lemma parse_url_shape url scheme host : parse_url url = Ok (scheme, host) ->
  (92 ∉ trim url) /\ host <> [] /\ exists s rest, trim url = s ++ str "://" ++ rest /\ scheme = to_ascii_lowercase s.
Proof.
  unfold parse_url. destruct (contains_char 92 (trim url)) eqn:Eb; [done |]. apply contains_char_false in Eb.
  destruct (split_once_str _ _) as [[s rest] |] eqn:Es; [| done]. apply split_once_str_spec in Es.
  destruct (url_host _) as [[| h hs] | e]; [done | | done]. intros [= <- <-]. split_and!; [done | done |]. by exists s, rest.
Qed.

Lemma check_url_text lookup url host : check_url lookup url = Ok host ->
  exists s rest, trim url = s ++ str "://" ++ rest /\ (to_ascii_lowercase s = str "http" \/ to_ascii_lowercase s = str "https") /\
    starts_with (str "-") (trim url) = false /\ parse_url url = Ok (to_ascii_lowercase s, host).
Proof.
  unfold check_url. destruct (parse_url url) as [[scheme h] | e] eqn:Ep; [| done].
  apply parse_url_shape in Ep as (Hb & Hne & s & rest & Hs & ->).
  destruct (negb _ && negb _) eqn:Esch; [done |].
  assert (Hh : to_ascii_lowercase s = str "http" \/ to_ascii_lowercase s = str "https").
  { bool_props. destruct Esch as [E | E]; bool_props; eauto. }
  intros H. assert (host = h) as -> by (repeat case_match; congruence).
  exists s, rest. split_and!; try done. rewrite Hs. apply not_true_iff_false. intros [r Hr]%starts_with_spec.
  destruct s as [| b s]; [destruct Hh; discriminate |]. injection Hr as -> _. destruct Hh; discriminate.
Qed.

(** A link passes the gate only if it is http or https, has no backslash, and names a
    host of which every address, written in it or found by name, lies outside all the
    ranges of the deny list; at least one address is known. *)
Theorem import_url_gate (lookup : bytes -> option (list IpAddr)) (url host : bytes) :
  (forall h ips, lookup h = Some ips -> Forall ip_ok ips) -> check_url lookup url = Ok host ->
  (92 ∉ trim url) /\
  (exists s rest, trim url = s ++ str "://" ++ rest /\ (to_ascii_lowercase s = str "http" \/ to_ascii_lowercase s = str "https")) /\
  exists addrs, addrs <> [] /\ (parse_ip host = None /\ lookup host = Some addrs \/ exists ip, parse_ip host = Some ip /\ addrs = [ip]) /\
    forall ip r, ip ∈ addrs -> r ∈ deny -> CidrRange_contains r (unmapped ip) = false.
Proof.
  intros Hl H. destruct (check_url_text _ _ _ H) as (s & rest & Hs & Hh & _ & Ep). apply parse_url_shape in Ep as Hsh. destruct Hsh as (Hb & _).
  split; [done |]. split; [by exists s, rest |]. unfold check_url in H. rewrite Ep in H. destruct (negb _ && negb _); [done |].
  destruct (match parse_ip host with Some ip => Some [ip] | None => lookup host end) as [addrs |] eqn:Ea; [| done].
  destruct addrs as [| a l]; [done |]. destruct (List.find is_private_ip (a :: l)) eqn:Ef; [done |]. clear H.
  exists (a :: l). split; [done |].
  assert (Hok : Forall ip_ok (a :: l)).
  { destruct (parse_ip host) as [ip |] eqn:Eh; [| by eapply Hl]. injection Ea as <- <-. constructor; [| done]. by eapply parse_ip_ok. }
  split. { destruct (parse_ip host) as [ip |]; [right; exists ip; by split; [| injection Ea as <- <-] | by left]. }
  intros ip r Hip Hr. pose proof (List.find_none _ _ Ef ip ltac:(by apply list_elem_of_In)) as Hp.
  assert (Hd : is_private_ip ip = existsb (fun r => CidrRange_contains r (unmapped ip)) deny) by (apply denied_iff; by eapply Forall_forall in Hok).
  rewrite Hd in Hp. apply not_true_iff_false. intros Hc. apply not_true_iff_false in Hp. apply Hp. apply existsb_exists. exists r.
  split; [by apply list_elem_of_In | done].
Qed.

(** ** Routing to a plugin *)

Definition offers (plugins : list ImportPlugin) : list (ImportPlugin * bytes) := plugins ≫= fun p => map (pair p) (ip_patterns p).

Definition norm_host (h : bytes) : bytes := to_ascii_lowercase (trim_end_dots h).

(** A pattern takes a host that is its suffix from the start of a label on. *)
Definition takes (host pattern : bytes) : Prop :=
  pattern <> str "*" /\ (norm_host host = norm_host pattern \/ exists l, norm_host host = l ++ 46 :: norm_host pattern).

Lemma host_matches_spec host pattern : pattern <> str "*" -> host_matches (norm_host host) (norm_host pattern) = true <-> takes host pattern.
Proof.
  intros Hp. unfold host_matches, takes. rewrite orb_true_iff, bool_decide_eq_true, ends_with_spec.
  split; [intros [? | [l ?]]; (split; [done |]); [by left | right; by exists l] | intros [_ [? | [l ?]]]; [by left | right; by exists l]].
Qed.

Definition routed_ok (host : bytes) (seen : list (ImportPlugin * bytes)) (s : option (ImportPlugin * Z) * option ImportPlugin) : Prop :=
  match s.1 with
  | Some (p, len) => exists pat, (p, pat) ∈ seen /\ takes host pat /\ len = zlen (norm_host pat) /\
      forall q pat', (q, pat') ∈ seen -> takes host pat' -> zlen (norm_host pat') <= len
  | None => forall q pat, (q, pat) ∈ seen -> ~ takes host pat
  end /\
  match s.2 with Some p => (p, str "*") ∈ seen | None => forall q, (q, str "*") ∉ seen end.

Lemma route_pattern_ok host seen s p pat : routed_ok host seen s ->
  routed_ok host (seen ++ [(p, pat)]) (route_pattern (norm_host host) p s pat).
Proof.
  destruct s as [best ca]. intros [Hb Hc]. unfold route_pattern. fold (norm_host pat).
  assert (Hin : forall x, x ∈ seen ++ [(p, pat)] <-> x ∈ seen \/ x = (p, pat)) by (intros x; rewrite elem_of_app, list_elem_of_singleton; done).
  case_bool_decide as Ep.
  - subst pat. assert (Hno : ~ takes host (str "*")) by (by intros [? _]). split; cbn [fst snd] in *.
    + destruct best as [[b len] |].
      * destruct Hb as (pat & H1 & H2 & H3 & H4). exists pat. rewrite Hin. split_and!; try done; [by left |].
        intros q pat' [Hq | [= -> ->]]%Hin; [by apply (H4 q) | done].
      * intros q pat' [Hq | [= -> ->]]%Hin; [by apply (Hb q) | done].
    + destruct ca as [c |]; cbn; apply Hin; [by left | by right].
  - assert (Hcatch : match ca with Some p0 => (p0, str "*") ∈ seen ++ [(p, pat)] | None => forall q, (q, str "*") ∉ seen ++ [(p, pat)] end).
    { destruct ca as [c |]; [apply Hin; by left |]. intros q [Hq | [= _ E]]%Hin; [by apply (Hc q) | by apply Ep]. }
    destruct (host_matches (norm_host host) (norm_host pat)) eqn:Em; cbn [andb].
    + apply host_matches_spec in Em; [| done]. destruct best as [[b len] |]; cbn [fst snd] in *.
      * destruct Hb as (pat0 & H1 & H2 & H3 & H4). destruct (Z.ltb_spec len (zlen (norm_host pat))); (split; [| done]); cbn [fst].
        -- exists pat. rewrite Hin. split_and!; try done; [by right |]. intros q pat' [Hq | [= -> ->]]%Hin Ht; [specialize (H4 _ _ Hq Ht); lia | done].
        -- exists pat0. rewrite Hin. split_and!; try done; [by left |]. intros q pat' [Hq | [= -> ->]]%Hin Ht; [by eapply H4 | done].
      * split; [| done]. cbn [fst]. exists pat. rewrite Hin. split_and!; try done; [by right |].
        intros q pat' [Hq | [= -> ->]]%Hin Ht; [by destruct (Hb q pat') | done].
    + assert (Hno : ~ takes host pat) by (rewrite <- host_matches_spec by done; by rewrite Em).
      split; [| done]. cbn [fst snd] in *. destruct best as [[b len] |].
      * destruct Hb as (pat0 & H1 & H2 & H3 & H4). exists pat0. rewrite Hin. split_and!; try done; [by left |].
        intros q pat' [Hq | [= -> ->]]%Hin Ht; [by eapply H4 | done].
      * intros q pat' [Hq | [= -> ->]]%Hin Ht; [by apply (Hb q pat') | done].
Qed.

Lemma route_fold_ok host plugins : forall seen s, routed_ok host seen s ->
  routed_ok host (seen ++ offers plugins)
    (foldl (fun s plugin => foldl (route_pattern (norm_host host) plugin) s (ip_patterns plugin)) s plugins).
Proof.
  induction plugins as [| p plugins IH]; intros seen s Hs; cbn; [by rewrite app_nil_r |].
  rewrite app_assoc. apply IH. generalize (ip_patterns p) as pats. intros pats. revert seen s Hs.
  induction pats as [| pat pats IHp]; intros seen s Hs; cbn; [by rewrite app_nil_r |].
  change (seen ++ (p, pat) :: map (pair p) pats) with (seen ++ [(p, pat)] ++ map (pair p) pats). rewrite app_assoc.
  apply IHp. by apply route_pattern_ok.
Qed.

(** The plugin of a host is one with the longest pattern that takes it, from the start of a
    label on and without regard to case and final dots; a plugin that takes everything is
    chosen only where no pattern takes the host, and none at all only where neither exists. *)
Theorem plugin_routing (plugins : list ImportPlugin) (host : bytes) :
  match route_plugin plugins host with
  | Some p =>
      (exists pat, pat ∈ ip_patterns p /\ p ∈ plugins /\ takes host pat /\
         forall q pat', q ∈ plugins -> pat' ∈ ip_patterns q -> takes host pat' -> zlen (norm_host pat') <= zlen (norm_host pat)) \/
      (p ∈ plugins /\ str "*" ∈ ip_patterns p /\ forall q pat', q ∈ plugins -> pat' ∈ ip_patterns q -> ~ takes host pat')
  | None => forall q pat', q ∈ plugins -> pat' ∈ ip_patterns q -> pat' <> str "*" /\ ~ takes host pat'
  end.
Proof.
  assert (Hof : forall p pat, (p, pat) ∈ offers plugins <-> p ∈ plugins /\ pat ∈ ip_patterns p).
  { intros p pat. unfold offers. rewrite list_elem_of_bind. split.
    - intros (q & Hq & Hin). apply list_elem_of_fmap in Hq as (pat0 & [= -> ->] & Hp). done.
    - intros [Hp Hpat]. exists p. split; [by apply list_elem_of_fmap_2 | done]. }
  unfold route_plugin. fold (norm_host host).
  pose proof (route_fold_ok host plugins [] (None, None)) as H. cbn [app] in H.
  specialize (H ltac:(split; intros ? **; by apply not_elem_of_nil in H || (intros ?; by eapply not_elem_of_nil))).
  destruct (foldl _ _ _) as [[[p len] |] ca]; destruct H as [Hb Hc]; cbn in *.
  - destruct Hb as (pat & [H1 H2]%Hof & H3 & -> & H4). left. exists pat. split_and!; try done.
    intros q pat' Hq Hp Ht. by apply (H4 q); [apply Hof |].
  - destruct ca as [p |]; cbn.
    + right. apply Hof in Hc as [H1 H2]. split_and!; try done. intros q pat' Hq Hp. by apply (Hb q), Hof.
    + intros q pat' Hq Hp. split; [| by apply (Hb q), Hof]. intros ->. by apply (Hc q), Hof.
Qed.

(** ** The command line *)

Lemma find_map_none {A B} (f : A -> option B) l : find_map f l = None -> forall x, x ∈ l -> f x = None.
Proof.
  induction l as [| y l IH]; intros H x Hx; [by apply not_elem_of_nil in Hx |]. cbn in H. destruct (f y) eqn:E; [done |].
  apply elem_of_cons in Hx as [-> | Hx]; [done | by apply IH].
Qed.

Lemma validated_plugin c shares p : validate_import (Some c) shares = None -> p ∈ ic_plugins c ->
  URL_ARG ∈ ip_args p /\ (forall a, a ∈ ip_args p -> a <> URL_ARG -> contains URL_ARG a = false) /\ HEIGHT_MIN <= ip_max_height p <= HEIGHT_MAX.
Proof.
  intros Hv Hp. assert (Hvp : validate_plugin p = None).
  { unfold validate_import, or_else in Hv. destruct (negb _ && negb _) eqn:E; [done |].
    destruct (find_map validate_plugin (ic_plugins c)) eqn:Ef; [done |]. by eapply find_map_none. }
  unfold validate_plugin in Hvp. destruct (bool_decide (ip_patterns p = [])); [done |].
  destruct (negb (existsb _ _)) eqn:E1; [done |]. destruct (existsb _ _) eqn:E2 in Hvp; [done |]. destruct (negb _) eqn:E3 in Hvp; [done |].
  bool_props. apply existsb_exists in E1 as (u & Hu & ->%bool_decide_eq_true). apply list_elem_of_In in Hu. split_and!; [done | | lia | lia].
  intros a Ha Hne. destruct (contains URL_ARG a) eqn:Ec; [| done]. exfalso. apply not_true_iff_false in E2. apply E2, existsb_exists.
  exists a. split; [by apply list_elem_of_In |]. by rewrite bool_decide_eq_false_2, Ec.
Qed.

(** Under a configuration that passed the start-up checks, the plugin is started with
    the arguments of its template, one for one: where the template says [{url}] stands the
    link itself, whole, which does not look like an option; nothing of the link gets into
    any other argument, and the height put there is between the bounds and not above the
    owner's. The sandbox only puts its own words before the command. *)
Theorem import_argv c shares p lookup url host requested h usable root :
  validate_import (Some c) shares = None -> p ∈ ic_plugins c -> check_url lookup url = Ok host -> effective_height requested p = Some h ->
  let '(cmd, argv) := build_argv p (trim url) h in
  let '(cmd', argv') := sandbox_wrap usable root cmd argv (ic_sandbox c) in
  HEIGHT_MIN <= h <= ip_max_height p /\ trim url ∈ argv /\ cmd = ip_cmd p /\
  Forall2 (fun t a => t = URL_ARG /\ a = trim url /\ starts_with (str "-") a = false \/
                      contains URL_ARG t = false /\ a = str_replace HEIGHT_ARG (show_dec h) t) (ip_args p) argv /\
  exists pre, cmd' :: argv' = pre ++ cmd :: argv /\
    (ic_sandbox c = str "auto" -> usable = true -> (str "--property=IPAddressDeny=" ++ DENY_RANGES) ∈ pre).
Proof.
  intros Hv Hp Hu Hh. destruct (validated_plugin c shares p Hv Hp) as (Hin & Hno & Hmax). destruct (check_url_text _ _ _ Hu) as (_ & _ & _ & _ & Hopt & _).
  unfold build_argv. destruct (sandbox_wrap _ _ _ _ _) as [cmd' argv'] eqn:Es. split_and!.
  - unfold effective_height in Hh. destruct requested as [r |]; [| injection Hh as <-; lia]. destruct (_ && _) eqn:E; [| done]. bool_props. injection Hh as <-. lia.
  - unfold effective_height in Hh. destruct requested as [r |]; [| injection Hh as <-; lia]. destruct (_ && _) eqn:E; [| done]. injection Hh as <-. lia.
  - apply list_elem_of_fmap. exists URL_ARG. by rewrite bool_decide_eq_true_2.
  - done.
  - apply Forall2_fmap_r, Forall_Forall2_diag, Forall_forall. intros t Ht. unfold compose. case_bool_decide as E; [by left |]. right. split; [by apply Hno | done].
  - unfold sandbox_wrap in Es. destruct (negb (bool_decide _)) eqn:Ea; [| destruct (negb usable) eqn:Eu]; injection Es as <- <-.
    + exists []. split; [done |]. intros E _. by rewrite bool_decide_eq_true_2 in Ea.
    + exists []. split; [done |]. intros _ ->. done.
    + eexists (_ :: _ ++ [_; _; _; _; _; _; _]). split; [cbn; by rewrite <- app_assoc |]. intros _ _. right. apply elem_of_app. right. do 4 right. left.
Qed.

(** ** Components of a link *)

Lemma not_in_rev (c : Z) l : c ∉ l -> c ∉ rev l.
Proof. intros H Hc. apply H, list_elem_of_In, in_rev. by apply list_elem_of_In. Qed.

Lemma rsplit_once_app c x y : c ∉ y -> rsplit_once c (x ++ c :: y) = Some (x, y).
Proof.
  intros Hy. unfold rsplit_once. rewrite rev_app_distr. cbn. rewrite <- app_assoc. cbn.
  rewrite split_once_app by (by apply not_in_rev). cbn. by rewrite !rev_involutive.
Qed.

Lemma rsplit_once_absent c l : c ∉ l -> rsplit_once c l = None.
Proof.
  intros Hl. unfold rsplit_once. assert (split_once c (rev l) = None) as -> by (by apply split_once_none, not_in_rev).
  done.
Qed.

Lemma until_app seps a tail : Forall (fun b => b ∉ seps) a -> match tail with [] => True | b :: _ => b ∈ seps end -> until seps (a ++ tail) = a.
Proof.
  induction 1 as [| b a Hb Ha IH]; intros Ht; cbn.
  - destruct tail as [| b t]; [done |]. cbn. by rewrite bool_decide_eq_true_2.
  - rewrite bool_decide_eq_false_2 by done. f_equal. by apply IH.
Qed.

Lemma split_once_str_scheme s rest : 58 ∉ s -> split_once_str (str "://") (s ++ str "://" ++ rest) = Some (s, rest).
Proof.
  induction s as [| b s IH]; intros Hs; [by cbn |]. apply not_elem_of_cons in Hs as [Hb Hs]. cbn [app split_once_str].
  assert (strip_prefix (str "://") (b :: s ++ str "://" ++ rest) = None) as ->.
  { apply eq_None_not_Some. intros [r Hr%strip_prefix_spec]. by injection Hr as -> _. }
  by rewrite IH.
Qed.

(** The optional parts of an authority. *)
Definition with_user (user : option bytes) (rest : bytes) : bytes := match user with Some u => u ++ 64 :: rest | None => rest end.
Definition with_port (host : bytes) (port : option bytes) : bytes := match port with Some p => host ++ 58 :: p | None => host end.

(** A link put together from a scheme, perhaps a user, a host, perhaps a port, and the rest
    parses to its scheme and its host in lower case: what is in front of the last at sign
    and what follows the authority cannot pass for the host. *)
Theorem parse_url_components (scheme host tail : bytes) (user port : option bytes) :
  let url := scheme ++ str "://" ++ with_user user (with_port host port) ++ tail in
  Forall is_graph url -> 92 ∉ url -> 58 ∉ scheme -> host <> [] -> Forall (fun b => b ∉ str "/?#@:[") host ->
  match user with Some u => Forall (fun b => b ∉ str "/?#") u | None => True end ->
  match port with Some p => Forall (fun b => 48 <= b <= 57) p | None => True end ->
  match tail with [] => True | b :: _ => b ∈ str "/?#" end ->
  parse_url url = Ok (to_ascii_lowercase scheme, to_ascii_lowercase host).
Proof.
  intros url Hg Hb Hs Hne Hh Hu Hp Ht.
  assert (Hhost : forall c, c ∈ str "/?#@:[" -> c ∉ host) by (intros c Hc Hin; by eapply Forall_forall in Hh).
  assert (Hport : forall c, ~ 48 <= c <= 57 -> match port with Some p => c ∉ p | None => True end).
  { intros c Hc. destruct port as [p |]; [| done]. intros Hin. by eapply Forall_forall in Hp. }
  assert (Hhp : forall c, c ∈ str "/?#@[" -> c ∉ with_port host port).
  { intros c Hc. assert (c ∈ str "/?#@:[" /\ ~ 48 <= c <= 57 /\ c <> 58) as (H1 & H2 & H3).
    { revert c Hc. apply Forall_forall. by_compute. }
    destruct port as [p |]; cbn; [| by apply Hhost]. rewrite elem_of_app, elem_of_cons. intros [? | [? | ?]]; [by apply (Hhost c) | done | by apply (Hport c)]. }
  assert (Hsub : forall c, c ∈ str "/?#" -> c ∈ str "/?#@[").
  { intros c Hc. change (str "/?#@[") with (str "/?#" ++ [64; 91]). apply elem_of_app. by left. }
  unfold parse_url. rewrite trim_graph by done. rewrite (proj2 (contains_char_false 92 url)) by done.
  unfold url at 1. rewrite split_once_str_scheme by done.
  rewrite until_app; [| | done].
  2: { apply Forall_forall. intros b Hin Hc. destruct user as [u |]; cbn in Hin; [| by apply (Hhp b); [apply Hsub |]].
       apply elem_of_app in Hin as [Hin | [-> | Hin]%elem_of_cons]; [by eapply Forall_forall in Hu | | by apply (Hhp b); [apply Hsub |]].
       revert Hc. by_compute. }
  assert (match rsplit_once 64 (with_user user (with_port host port)) with Some (_, h) => h | None => with_user user (with_port host port) end
          = with_port host port) as ->.
  { assert (64 ∉ with_port host port) by (apply Hhp; by_compute).
    destruct user as [u |]; cbn [with_user]; [by rewrite rsplit_once_app | by rewrite rsplit_once_absent]. }
  assert (url_host (with_port host port) = Ok host) as ->.
  { unfold url_host. assert (strip_prefix (str "[") (with_port host port) = None) as ->.
    { apply eq_None_not_Some. intros [r Hr%strip_prefix_spec]. apply (Hhp 91); [by_compute |]. rewrite Hr. by left. }
    assert (58 ∉ host) by (apply Hhost; by_compute).
    destruct port as [p |]; cbn [with_port]; [| by rewrite rsplit_once_absent].
    rewrite rsplit_once_app by (apply (Hport 58); lia). assert (forallb (in_rng 48 57) p = true) as ->; [| done].
    apply forallb_forall. intros b Hin%list_elem_of_In. eapply Forall_forall in Hp; [| done]. unfold in_rng. lia. }
  by destruct host.
Qed.

(** ** Examples *)

Example ex_reference_valid : validate_import (Some reference) [] = None.
Proof. vm_compute. reflexivity. Qed.

Example ex_urls :
  map (fun s => check_url (fun _ => Some [V4 (from_be32 93 184 216 34)]) (str s))
    ["https://YouTube.com/watch?v=1"; "http://10.1.2.3/x"; "http://[::ffff:192.168.0.1]/x"; "ftp://host/x"; "not a url"]%string =
  [Ok (str "youtube.com"); Err (UrlPrivate (V4 (from_be32 10 1 2 3))); Err (UrlPrivate (V6 (0xFFFF * 2 ^ 32 + from_be32 192 168 0 1)));
   Err (UrlScheme (str "ftp")); Err UrlNoScheme].
Proof. vm_compute. reflexivity. Qed.

Example ex_progress : map (fun s => parse_progress (str s)) ["xr-progress 42.5"; "  xr-progress 100"; "xr-progress 250"; "[download] 42%"]%string
  = [Some (425, 1); Some (100, 0); Some (100, 0); None].
Proof. vm_compute. reflexivity. Qed.

Definition ex_lookup : bytes -> option (list IpAddr) := fun _ => Some [V4 (from_be32 93 184 216 34)].
Definition ex_link : bytes := str "https://user@YouTube.com:443/watch?v=1&a=$(rm -rf /)".

Lemma gate_is_deny_list_witness : is_private_ip (V4 (from_be32 192 168 1 1)) = true <->
  exists r, r ∈ deny /\ CidrRange_contains r (unmapped (V4 (from_be32 192 168 1 1))) = true.
Proof. apply (gate_is_deny_list (V4 (from_be32 192 168 1 1))). vm_compute. split; [discriminate | reflexivity]. Defined.

Lemma import_url_gate_witness : exists addrs, addrs <> [] /\
  forall ip r, ip ∈ addrs -> r ∈ deny -> CidrRange_contains r (unmapped ip) = false.
Proof.
  destruct (import_url_gate ex_lookup ex_link (str "youtube.com")) as (_ & _ & addrs & H1 & _ & H2).
  - intros h ips [= <-]. constructor; [| constructor]. vm_compute. split; [discriminate | reflexivity].
  - vm_compute. reflexivity.
  - exists addrs. split; [exact H1 | exact H2].
Defined.

Lemma import_argv_witness :
  build_argv {| ip_name := []; ip_patterns := [str "*"]; ip_max_height := 1080; ip_cmd := str "dl"; ip_args := [str "h={height}"; URL_ARG] |} (trim ex_link) 720
    = (str "dl", [str "h=720"; ex_link]) /\ ex_link ∈ [str "h=720"; ex_link].
Proof.
  split; [vm_compute; reflexivity |].
  destruct (import_argv {| ic_timeout_min := 30; ic_max_total_mb := None; ic_sandbox := str "auto"; ic_queue_depth := 4;
      ic_plugins := [{| ip_name := []; ip_patterns := [str "*"]; ip_max_height := 1080; ip_cmd := str "dl"; ip_args := [str "h={height}"; URL_ARG] |}] |}
    [] {| ip_name := []; ip_patterns := [str "*"]; ip_max_height := 1080; ip_cmd := str "dl"; ip_args := [str "h={height}"; URL_ARG] |}
    ex_lookup ex_link (str "youtube.com") (Some 720) 720 true true) as (_ & H & _).
  - vm_compute. reflexivity.
  - left.
  - vm_compute. reflexivity.
  - vm_compute. reflexivity.
  - exact H.
Defined.

Lemma parse_url_components_witness : parse_url (str "http://u@Host.org:80/x") = Ok (str "http", str "host.org").
Proof.
  exact (parse_url_components (str "http") (str "Host.org") (str "/x") (Some (str "u")) (Some (str "80")) ltac:(by_compute) ltac:(by_compute)
    ltac:(by_compute) ltac:(discriminate) ltac:(by_compute) ltac:(by_compute) ltac:(by_compute) ltac:(by_compute)).
Defined.
