(* ===== verification/ImportJobs.v ===== *)
(** * The import jobs of the share agent (xr-share/src/import.rs, routes of server.rs)

    The table of jobs and its queue, the single runner that executes them one by one, the
    plugin it watches, and the publication of what the plugin left. The runner is a machine
    whose steps are the stretches between two [await]s; the plugin, the devices and the rest
    of the agent act between them. Times are milliseconds; ids and the names of job folders
    are random and taken as fresh. *)

From S2P Require Import Prelude Text Order SafePath Share Sync Mirror Fallback UserRule Routing Net ShareFiles Agent ImportGate.

Definition QUEUE_DEPTH : Z := 4.
Definition DONE_TTL : Z := 3600 * 1000.
Definition STDERR_TAIL : Z := 4096.
Definition PLUGIN_FILE : bytes := str ".xr-meta.tsv".

(** [String::from_utf8_lossy]: every maximal bad part becomes U+FFFD. *)
Definition FFFD : bytes := [0xEF; 0xBF; 0xBD].

Fixpoint lossy (l : bytes) : bytes :=
  match l with
  | [] => []
  | b0 :: r0 =>
      if in_rng 0 0x7F b0 then b0 :: lossy r0
      else if in_rng 0xC2 0xDF b0 then
        match r0 with b1 :: r1 => if cont b1 then b0 :: b1 :: lossy r1 else FFFD ++ lossy r0 | [] => FFFD end
      else if in_rng 0xE0 0xEF b0 then
        match r0 with
        | b1 :: r1 =>
            if second3 b0 b1 then match r1 with b2 :: r2 => if cont b2 then b0 :: b1 :: b2 :: lossy r2 else FFFD ++ lossy r1 | [] => FFFD end
            else FFFD ++ lossy r0
        | [] => FFFD
        end
      else if in_rng 0xF0 0xF4 b0 then
        match r0 with
        | b1 :: r1 =>
            if second4 b0 b1 then
              match r1 with
              | b2 :: r2 =>
                  if cont b2 then match r2 with b3 :: r3 => if cont b3 then b0 :: b1 :: b2 :: b3 :: lossy r3 else FFFD ++ lossy r2 | [] => FFFD end
                  else FFFD ++ lossy r1
              | [] => FFFD
              end
            else FFFD ++ lossy r0
        | [] => FFFD
        end
      else FFFD ++ lossy r0
  end.

(** ** The table *)

Inductive JobState := Queued | Running | Done | Failed.

#[global] Instance JobState_eq_dec : EqDecision JobState.
Proof. solve_decision. Defined.

Definition JobState_name (s : JobState) : bytes :=
  str (match s with Queued => "queued" | Running => "running" | Done => "done" | Failed => "failed" end).

Record JobSpec := {
  js_share_id : bytes; js_share_root : list bytes; js_dest_rel : bytes; js_url : bytes; js_height : Z; js_plugin : ImportPlugin;
  js_timeout : Z; js_max_total_bytes : option Z; js_max_file_bytes : option Z; js_sandbox : bytes
}.

(** The texts of the source. *)
Inductive JobError :=
| JeJobDir | JeDestDir | JeSpawn (plugin : bytes) | JeCancelled | JeTimeout (minutes : Z) | JeTooBig (mib : Z) | JeWait
| JePlugin (stderr : bytes) | JeReadDir | JeNoFiles | JePublish (name : bytes) (why : bytes) (published : list bytes).

Record Job := {
  jb_share_id : bytes; jb_state : JobState; jb_progress : option (Z * Z); jb_files : list bytes; jb_error : option JobError;
  jb_pid : option Z; jb_finished : option Z; jb_spec : option JobSpec
}.

Record JobStatusDto := { dto_state : bytes; dto_progress : option (Z * Z); dto_files : option (list bytes); dto_error : option JobError }.

Abbreviation Jobs := (gmap bytes Job).

(** [im_permit] is the permit of the [Notify]. *)
Record ImportManager := { im_config : option ImportConfig; im_jobs : Jobs; im_queue : list bytes; im_permit : bool }.

Definition manager_new (config : option ImportConfig) : ImportManager :=
  {| im_config := config; im_jobs := ∅; im_queue := []; im_permit := false |}.
Definition set_config (m : ImportManager) (config : option ImportConfig) : ImportManager :=
  {| im_config := config; im_jobs := im_jobs m; im_queue := im_queue m; im_permit := im_permit m |}.
Definition set_jobs (m : ImportManager) (jobs : Jobs) : ImportManager :=
  {| im_config := im_config m; im_jobs := jobs; im_queue := im_queue m; im_permit := im_permit m |}.
Definition set_permit (m : ImportManager) (p : bool) : ImportManager :=
  {| im_config := im_config m; im_jobs := im_jobs m; im_queue := im_queue m; im_permit := p |}.

Definition fresh_enough (now : Z) (j : Job) : bool := match jb_finished j with Some t => now - t <? DONE_TTL | None => true end.
Definition sweep_finished (now : Z) (jobs : Jobs) : Jobs := filter (fun x => fresh_enough now x.2 = true) jobs.

Definition waiting (jobs : Jobs) : Jobs := filter (fun x => jb_state x.2 = Queued) jobs.

Definition queued_job (spec : JobSpec) : Job :=
  {| jb_share_id := js_share_id spec; jb_state := Queued; jb_progress := None; jb_files := []; jb_error := None; jb_pid := None;
     jb_finished := None; jb_spec := Some spec |}.

Definition enqueue (now : Z) (m : ImportManager) (spec : JobSpec) (id : bytes) : ImportManager * option bytes :=
  let depth := match im_config m with Some c => ic_queue_depth c | None => QUEUE_DEPTH end in
  let jobs := sweep_finished now (im_jobs m) in
  if depth <=? Z.of_nat (size (waiting jobs)) then (set_jobs m jobs, None)
  else ({| im_config := im_config m; im_jobs := <[id := queued_job spec]> jobs; im_queue := im_queue m ++ [id]; im_permit := true |}, Some id).

Definition status (now : Z) (m : ImportManager) (share_id job_id : bytes) : ImportManager * option JobStatusDto :=
  let jobs := sweep_finished now (im_jobs m) in
  (set_jobs m jobs,
   match jobs !! job_id with
   | Some j =>
       if bool_decide (jb_share_id j = share_id)
       then Some {| dto_state := JobState_name (jb_state j); dto_progress := jb_progress j;
                    dto_files := if bool_decide (jb_state j = Done) then Some (jb_files j) else None; dto_error := jb_error j |}
       else None
   | None => None
   end).

(** With the process group that is killed. *)
Definition cancel (m : ImportManager) (share_id job_id : bytes) : ImportManager * bool * option Z :=
  match im_jobs m !! job_id with
  | Some j =>
      if bool_decide (jb_share_id j = share_id) then (set_jobs m (delete job_id (im_jobs m)), true, jb_pid j) else (m, false, None)
  | None => (m, false, None)
  end.

(** ** The runner *)

(** The plugin's process and who still holds the ends of its pipes. [ch_tail] is the kept
    end of its stderr. *)
Inductive ExitStatus := ExitOk | ExitFail.
Record Child := { ch_pid : Z; ch_exit : option ExitStatus; ch_out : bool; ch_err : bool; ch_tail : bytes }.

(** Where the runner is: waiting for a job; making the two folders; watching the plugin,
    measuring the job folder, killing the plugin; waiting for the ends of the pipes;
    publishing; removing the job folder. *)
Inductive RunnerPc :=
| RWait
| RMkJob (id : bytes) (spec : JobSpec) (dir : list bytes)
| RMkDest (id : bytes) (spec : JobSpec) (dir : list bytes)
| RWatch (id : bytes) (spec : JobSpec) (dir : list bytes) (started : Z) (kill : option JobError)
| RSize (id : bytes) (spec : JobSpec) (dir : list bytes) (started : Z) (cap : Z) (kill : option JobError)
| RKill (id : bytes) (spec : JobSpec) (dir : list bytes) (started : Z) (kill : option JobError)
| RDrain (id : bytes) (spec : JobSpec) (dir : list bytes) (exit : option ExitStatus) (kill : option JobError)
| RReadDir (id : bytes) (spec : JobSpec) (dir : list bytes)
| RPublish (id : bytes) (spec : JobSpec) (dir : list bytes) (plugin_meta : gmap bytes FileMeta) (todo : list bytes)
    (published : list bytes) (origins : list (bytes * FileMeta))
| RClean (id : bytes) (dir : list bytes) (outcome : result (list bytes) JobError).

(** A link that passed the gates and waits for its name to be resolved. *)
Record ImportStart := {
  st_share : bytes; st_root : list bytes; st_dest : bytes; st_link : bytes; st_want : option Z; st_cfg : ImportConfig
}.

(** What imports did: files that came into a share. *)
Record Published := { pb_id : bytes; pb_spec : JobSpec; pb_target : list bytes; pb_file : DFile }.

Record Importer := {
  i_mgr : ImportManager; i_world : World; i_pc : RunnerPc; i_child : option Child; i_starts : list ImportStart; i_log : list Published
}.

Definition i_with_mgr (s : Importer) (m : ImportManager) : Importer :=
  {| i_mgr := m; i_world := i_world s; i_pc := i_pc s; i_child := i_child s; i_starts := i_starts s; i_log := i_log s |}.
Definition i_with_world (s : Importer) (w : World) : Importer :=
  {| i_mgr := i_mgr s; i_world := w; i_pc := i_pc s; i_child := i_child s; i_starts := i_starts s; i_log := i_log s |}.
Definition i_with_pc (s : Importer) (pc : RunnerPc) : Importer :=
  {| i_mgr := i_mgr s; i_world := i_world s; i_pc := pc; i_child := i_child s; i_starts := i_starts s; i_log := i_log s |}.
Definition i_with_child (s : Importer) (c : option Child) : Importer :=
  {| i_mgr := i_mgr s; i_world := i_world s; i_pc := i_pc s; i_child := c; i_starts := i_starts s; i_log := i_log s |}.
Definition i_with_starts (s : Importer) (l : list ImportStart) : Importer :=
  {| i_mgr := i_mgr s; i_world := i_world s; i_pc := i_pc s; i_child := i_child s; i_starts := l; i_log := i_log s |}.
Definition i_published (s : Importer) (p : Published) : Importer :=
  {| i_mgr := i_mgr s; i_world := i_world s; i_pc := i_pc s; i_child := i_child s; i_starts := i_starts s; i_log := i_log s ++ [p] |}.

(** [with_job]. *)
Definition with_job (s : Importer) (id : bytes) (f : Job -> Job) : Importer :=
  i_with_mgr s (set_jobs (i_mgr s) (alter f id (im_jobs (i_mgr s)))).
Definition has_job (s : Importer) (id : bytes) : bool := bool_decide (is_Some (im_jobs (i_mgr s) !! id)).

Definition run_state (j : Job) : Job :=
  {| jb_share_id := jb_share_id j; jb_state := Running; jb_progress := jb_progress j; jb_files := jb_files j; jb_error := jb_error j;
     jb_pid := jb_pid j; jb_finished := jb_finished j; jb_spec := None |}.
Definition set_pid (pid : option Z) (j : Job) : Job :=
  {| jb_share_id := jb_share_id j; jb_state := jb_state j; jb_progress := jb_progress j; jb_files := jb_files j; jb_error := jb_error j;
     jb_pid := pid; jb_finished := jb_finished j; jb_spec := jb_spec j |}.
Definition set_progress (p : Z * Z) (j : Job) : Job :=
  {| jb_share_id := jb_share_id j; jb_state := jb_state j; jb_progress := Some p; jb_files := jb_files j; jb_error := jb_error j;
     jb_pid := jb_pid j; jb_finished := jb_finished j; jb_spec := jb_spec j |}.
Definition finish_job (now : Z) (outcome : result (list bytes) JobError) (j : Job) : Job :=
  {| jb_share_id := jb_share_id j; jb_state := match outcome with Ok _ => Done | Err _ => Failed end; jb_progress := jb_progress j;
     jb_files := match outcome with Ok files => files | Err _ => jb_files j end;
     jb_error := match outcome with Ok _ => jb_error j | Err e => Some e end;
     jb_pid := None; jb_finished := Some now; jb_spec := jb_spec j |}.

(** [pop_queued] and the beginning of [run_job]: the first id of the queue that is still in
    the table. [None] in the end is the wait for the next notification. *)
Fixpoint next_job (jobs : Jobs) (queue : list bytes) : Jobs * list bytes * option (bytes * JobSpec) :=
  match queue with
  | [] => (jobs, [], None)
  | id :: queue =>
      match jobs !! id with
      | None => next_job jobs queue
      | Some j =>
          let jobs := <[id := run_state j]> jobs in
          match jb_spec j with Some spec => (jobs, queue, Some (id, spec)) | None => next_job jobs queue end
      end
  end.

(** The loop of [spawn_runner], from the top. [suffix] names the folder of the next job. *)
Definition runner_loop (s : Importer) (suffix : bytes) : Importer :=
  let m := i_mgr s in
  let '(jobs, queue, next) := next_job (im_jobs m) (im_queue m) in
  let m := {| im_config := im_config m; im_jobs := jobs; im_queue := queue; im_permit := im_permit m |} in
  i_with_child
    (i_with_pc (i_with_mgr s m)
       (match next with
        | Some (id, spec) => RMkJob id spec (js_share_root spec ++ [JOB_DIR_PREFIX ++ suffix])
        | None => RWait
        end))
    None.

Definition dest_dir (spec : JobSpec) : list bytes :=
  if bool_decide (js_dest_rel spec = []) then js_share_root spec else js_share_root spec ++ split 47 (js_dest_rel spec).

Definition rel_path (dest_rel name : bytes) : bytes := if bool_decide (dest_rel = []) then name else dest_rel ++ 47 :: name.

(** ** Publication *)

Definition under (dir p : list bytes) : bool := match strip_path dir p with Some (_ :: _) => true | _ => false end.

(** Names of the regular files at the top of a folder, as the source sees them. *)
Definition top_names (d : Disk) (dir : list bytes) : list bytes :=
  omap (fun x : Found => match strip_path dir x.1 with Some [n] => Some (lossy n) | _ => None end) (map_to_list (d_files d)).

Definition job_names (d : Disk) (dir : list bytes) : list bytes :=
  isort bytes_leb (List.filter (fun n => negb (starts_with (str ".") n)) (top_names d dir)).

Definition dir_size (d : Disk) (dir : list bytes) (unreadable : list bytes -> bool) : Z :=
  foldr Z.add 0 (map (fun x : Found => zlen (df_data x.2)) (List.filter (fun x : Found => under dir x.1 && negb (unreadable x.1)) (map_to_list (d_files d)))).

Section publish.
Context (digest : bytes -> bytes).

(** [io] is an error of opening, hashing or syncing; [seen] that the stat after the rename works. *)
Definition publish_one (w : World) (spec : JobSpec) (dir : list bytes) (name : bytes) (io : option bytes) (seen : bool) : result (World * DFile) bytes :=
  let d := w_disk w in
  match d_files d !! (dir ++ [name]) with
  | None => Err (str "stat")
  | Some f =>
      if match js_max_file_bytes spec with Some cap => cap <? zlen (df_data f) | None => false end then Err (str "max_file_mb") else
      match io with
      | Some e => Err e
      | None =>
          let target := dest_dir spec ++ [name] in
          match rename_replace d (dir ++ [name]) target with
          | None => Err (str "rename")
          | Some d' =>
              let w := set_disk w d' in
              Ok (if seen then set_cache w (seed (w_cache w) target (zlen (df_data f)) (df_mtime f) (Mirror.sha256_hex digest (df_data f))) else w, f)
          end
      end
  end.

Definition origin_of (spec : JobSpec) (plugin_meta : gmap bytes FileMeta) (name : bytes) : FileMeta :=
  let o := default FileMeta_default (plugin_meta !! name) in
  if bool_decide (fm_url o = []) then {| fm_url := js_url spec; fm_source := fm_source o; fm_source_url := fm_source_url o;
                                         fm_published := fm_published o; fm_title := fm_title o |} else o.

Definition record_origins (w : World) (root : list bytes) (origins : list (bytes * FileMeta)) (written : bool) : World :=
  set_index w root (record (w_index w !! root) origins written).

(** The removal of a folder; [gone] says which of its files a failing one has removed. *)
Definition remove_dir_all (d : Disk) (dir : list bytes) (ok : bool) (gone : list bytes -> bool) : Disk :=
  let keep p := negb (under dir p || bool_decide (p = dir)) || negb (ok || gone p) in
  {| d_files := filter (fun x => keep x.1 = true) (d_files d); d_dirs := filter (fun p => keep p = true) (d_dirs d) |}.

(** ** The steps of the runner *)

Inductive RunnerIn :=
| InNotified (suffix : bytes)
| InMkdir (fail : option nat)
| InSpawn (fail : option nat) (pid : option Z)
| InExit (known : bool)
| InTick
| InSize (unreadable : list bytes -> bool)
| InKilled
| InDrained
| InReadDir (ok readable : bool)
| InPublish (io : option bytes) (seen written : bool)
| InRemoved (ok : bool) (gone : list bytes -> bool) (suffix : bytes).

Definition kill_child (s : Importer) : Importer :=
  i_with_child s ((fun c => {| ch_pid := ch_pid c; ch_exit := Some (default ExitFail (ch_exit c)); ch_out := ch_out c; ch_err := ch_err c;
                               ch_tail := ch_tail c |}) <$> i_child s).

(** The end of a turn of the watchdog. *)
Definition watched (s : Importer) (id : bytes) (spec : JobSpec) (dir : list bytes) (started : Z) (kill : option JobError) (cancelled : bool) : Importer :=
  if cancelled || (match kill with Some _ => true | None => false end)
  then i_with_pc (kill_child s) (RKill id spec dir started kill)
  else i_with_pc s (RWatch id spec dir started kill).

Definition runner_step (now : Z) (s : Importer) (inp : RunnerIn) : option Importer :=
  match i_pc s, inp with
  | RWait, InNotified suffix => if im_permit (i_mgr s) then Some (runner_loop (i_with_mgr s (set_permit (i_mgr s) false)) suffix) else None
  | RMkJob id spec dir, InMkdir fail =>
      let '(d, ok) := create_dir_all (w_disk (i_world s)) dir fail in
      let s := i_with_world s (set_disk (i_world s) d) in
      Some (i_with_pc s (if ok then RMkDest id spec dir else RClean id dir (Err JeJobDir)))
  | RMkDest id spec dir, InSpawn fail pid =>
      let '(d, ok) := create_dir_all (w_disk (i_world s)) (dest_dir spec) fail in
      let s := i_with_world s (set_disk (i_world s) d) in
      Some (if ok then
        match pid with
        | None => i_with_pc s (RClean id dir (Err (JeSpawn (ip_name (js_plugin spec)))))
        | Some p =>
            i_with_child (i_with_pc (with_job s id (set_pid (Some p))) (RWatch id spec dir now None))
              (Some {| ch_pid := p; ch_exit := None; ch_out := true; ch_err := true; ch_tail := [] |})
        end
      else i_with_pc s (RClean id dir (Err JeDestDir)))
  | RWatch id spec dir started kill, InExit known =>
      match i_child s ≫= ch_exit with
      | Some st => Some (i_with_pc s (RDrain id spec dir (if known then Some st else None) kill))
      | None => None
      end
  | RWatch id spec dir started kill, InTick =>
      if negb (has_job s id) then Some (watched s id spec dir started kill true)
      else if js_timeout spec <=? now - started then Some (watched s id spec dir started (Some (JeTimeout (js_timeout spec / 60000))) false)
      else match js_max_total_bytes spec with
           | Some cap => Some (i_with_pc s (RSize id spec dir started cap kill))
           | None => Some (watched s id spec dir started kill false)
           end
  | RSize id spec dir started cap kill, InSize unreadable =>
      let kill := if cap <? dir_size (w_disk (i_world s)) dir unreadable then Some (JeTooBig (cap / (1024 * 1024))) else kill in
      Some (watched s id spec dir started kill false)
  | RKill id spec dir started kill, InKilled => Some (i_with_pc (kill_child s) (RWatch id spec dir started kill))
  | RDrain id spec dir exit kill, InDrained =>
      match i_child s with
      | Some c =>
          if ch_out c || ch_err c then None else
          Some (i_with_pc s
            (if negb (has_job s id) then RClean id dir (Err JeCancelled) else
             match kill, exit with
             | Some e, _ => RClean id dir (Err e)
             | None, None => RClean id dir (Err JeWait)
             | None, Some ExitFail => RClean id dir (Err (JePlugin (trim (lossy (ch_tail c)))))
             | None, Some ExitOk => RReadDir id spec dir
             end))
      | None => None
      end
  | RReadDir id spec dir, InReadDir ok readable =>
      let d := w_disk (i_world s) in
      Some (i_with_pc s
        (if negb ok then RClean id dir (Err JeReadDir) else
         match job_names d dir with
         | [] => RClean id dir (Err JeNoFiles)
         | names =>
             let plugin_meta := match d_files d !! (dir ++ [PLUGIN_FILE]) with
                                | Some f => if readable then parse_plugin_output (lossy (df_data f)) else ∅ | None => ∅ end in
             RPublish id spec dir plugin_meta names [] []
         end))
  | RPublish id spec dir pm todo published origins, InPublish io seen written =>
      match todo with
      | [] => Some (i_with_pc (i_with_world s (record_origins (i_world s) (js_share_root spec) origins written)) (RClean id dir (Ok published)))
      | name :: todo =>
          match publish_one (i_world s) spec dir name io seen with
          | Err e => Some (i_with_pc (i_with_world s (record_origins (i_world s) (js_share_root spec) origins written))
                             (RClean id dir (Err (JePublish name e published))))
          | Ok (w, f) =>
              let rel := rel_path (js_dest_rel spec) name in
              Some (i_published
                (i_with_pc (i_with_world s w) (RPublish id spec dir pm todo (published ++ [rel]) (origins ++ [(rel, origin_of spec pm name)])))
                {| pb_id := id; pb_spec := spec; pb_target := dest_dir spec ++ [name]; pb_file := f |})
          end
      end
  | RClean id dir outcome, InRemoved ok gone suffix =>
      let s := i_with_world s (set_disk (i_world s) (remove_dir_all (w_disk (i_world s)) dir ok gone)) in
      Some (runner_loop (with_job s id (finish_job now outcome)) suffix)
  | _, _ => None
  end.

End publish.

(** ** The plugin *)

(** The ring buffer of the stderr reader. *)
Definition push_tail (tail b : bytes) : bytes := zdrop (zlen (tail ++ b) - STDERR_TAIL) (tail ++ b).

Inductive PluginEvent := PlLine (line : bytes) | PlStderr (b : bytes) | PlCloseOut | PlCloseErr | PlExit (st : ExitStatus).

(** The job whose plugin it is. *)
Definition pc_job (pc : RunnerPc) : option bytes :=
  match pc with
  | RWait => None
  | RMkJob id _ _ | RMkDest id _ _ | RWatch id _ _ _ _ | RSize id _ _ _ _ _ | RKill id _ _ _ _ | RDrain id _ _ _ _ | RReadDir id _ _
  | RPublish id _ _ _ _ _ _ | RClean id _ _ => Some id
  end.

(** Its folder. *)
Definition pc_dir (pc : RunnerPc) : option (list bytes) :=
  match pc with
  | RWait => None
  | RMkJob _ _ dir | RMkDest _ _ dir | RWatch _ _ dir _ _ | RSize _ _ dir _ _ _ | RKill _ _ dir _ _ | RDrain _ _ dir _ _ | RReadDir _ _ dir
  | RPublish _ _ dir _ _ _ _ | RClean _ dir _ => Some dir
  end.

Definition plugin_step (s : Importer) (ev : PluginEvent) : option Importer :=
  c ← i_child s;
  match ev with
  | PlLine line =>
      if ch_out c then
        match pc_job (i_pc s), parse_progress (trim_end (lossy line)) with
        | Some id, Some p => Some (with_job s id (set_progress p))
        | _, _ => Some s
        end
      else None
  | PlStderr b =>
      if ch_err c then Some (i_with_child s (Some {| ch_pid := ch_pid c; ch_exit := ch_exit c; ch_out := ch_out c; ch_err := true; ch_tail := push_tail (ch_tail c) b |}))
      else None
  | PlCloseOut => Some (i_with_child s (Some {| ch_pid := ch_pid c; ch_exit := ch_exit c; ch_out := false; ch_err := ch_err c; ch_tail := ch_tail c |}))
  | PlCloseErr => Some (i_with_child s (Some {| ch_pid := ch_pid c; ch_exit := ch_exit c; ch_out := ch_out c; ch_err := false; ch_tail := ch_tail c |}))
  | PlExit st =>
      match ch_exit c with
      | None => Some (i_with_child s (Some {| ch_pid := ch_pid c; ch_exit := Some st; ch_out := ch_out c; ch_err := ch_err c; ch_tail := ch_tail c |}))
      | Some _ => None
      end
  end.

(** ** The routes *)

Record ImportReq := { iq_url : bytes; iq_dest : bytes; iq_height : option Z }.

Section routes.
Context `{Base64} `{Ed25519}.
Context (url_decode : bytes -> option bytes) (token_of_json : bytes -> option ShareToken) (digest : bytes -> bytes).

Abbreviation check_token := (check_token url_decode token_of_json).

Definition import_gates (a : AgentState) (s : Importer) (share_id : bytes) (req : Request) (now : Z) : result (list bytes * ImportConfig) Refusal :=
  match w_shares (i_world s) !! share_id with
  | None => Err (404, str "no such share")
  | Some share =>
      let import_cfg := match im_config (i_mgr s) with Some c => if bool_decide (ic_plugins c = []) then None else Some c | None => None end in
      match sh_writable share, sh_import share, import_cfg with
      | true, true, Some cfg =>
          match check_token a share_id SCOPE_IMPORT req (now / 1000) with
          | Err e => Err e
          | Ok _ => Ok (sh_path share, cfg)
          end
      | _, _, _ => Err (403, str "import is off for this share")
      end
  end.

(** [start_import] up to the resolution of the name. *)
Definition import_begin (a : AgentState) (s : Importer) (share_id : bytes) (req : Request) (body : ImportReq) (now : Z) : result ImportStart Refusal :=
  match import_gates a s share_id req now with
  | Err e => Err e
  | Ok (root, cfg) =>
      match resolve_within (canonicalize_in (w_disk (i_world s))) root (iq_dest body) with
      | Some (Ok dest_abs) =>
          if is_file_on (w_disk (i_world s)) dest_abs then Err (409, str "dest is a file") else
          Ok {| st_share := share_id; st_root := root; st_dest := default [] (rel_key root dest_abs); st_link := iq_url body;
                st_want := iq_height body; st_cfg := cfg |}
      | _ => Err (403, str "path rejected")
      end
  end.

Inductive StartAnswer := Accepted (job_id : bytes) | StartRefused (status : Z).

Definition start_spec (a : AgentState) (st : ImportStart) (plugin : ImportPlugin) (height : Z) : JobSpec :=
  let cfg := st_cfg st in
  {| js_share_id := st_share st; js_share_root := st_root st; js_dest_rel := st_dest st; js_url := trim (st_link st); js_height := height;
     js_plugin := plugin; js_timeout := 1000 * Z.min U64_MAX (ic_timeout_min cfg * 60);
     js_max_total_bytes := (fun mb => Z.min U64_MAX (mb * (1024 * 1024))) <$> ic_max_total_mb cfg;
     js_max_file_bytes := cap_bytes a; js_sandbox := ic_sandbox cfg |}.

(** The rest of it, with what the resolver answers. [id] is the random id. *)
Definition import_finish (a : AgentState) (m : ImportManager) (st : ImportStart) (lookup : bytes -> option (list IpAddr)) (id : bytes) (now : Z) :
    ImportManager * StartAnswer :=
  match check_url lookup (st_link st) with
  | Err _ => (m, StartRefused 400)
  | Ok host =>
      match route_plugin (ic_plugins (st_cfg st)) host with
      | None => (m, StartRefused 422)
      | Some plugin =>
          match effective_height (st_want st) plugin with
          | None => (m, StartRefused 400)
          | Some height =>
              match enqueue now m (start_spec a st plugin height) id with
              | (m, Some id) => (m, Accepted id)
              | (m, None) => (m, StartRefused 429)
              end
          end
      end
  end.

Inductive PollAnswer := Found (dto : JobStatusDto) | PollRefused (status : Z).

Definition import_status (a : AgentState) (s : Importer) (share_id job_id : bytes) (req : Request) (now : Z) : Importer * PollAnswer :=
  match import_gates a s share_id req now with
  | Err e => (s, PollRefused e.1)
  | Ok _ =>
      let '(m, dto) := status now (i_mgr s) share_id job_id in
      (i_with_mgr s m, match dto with Some d => Found d | None => PollRefused 404 end)
  end.

(** The kill reaches the plugin only if it is still there. *)
Definition kill_group (s : Importer) (pid : Z) : Importer :=
  match i_child s with
  | Some c => if (ch_pid c =? pid) && bool_decide (ch_exit c = None) then kill_child s else s
  | None => s
  end.

Definition import_cancel (a : AgentState) (s : Importer) (share_id job_id : bytes) (req : Request) (now : Z) : Importer * Z :=
  match import_gates a s share_id req now with
  | Err e => (s, e.1)
  | Ok _ =>
      let '(m, done, pid) := cancel (i_mgr s) share_id job_id in
      let s := i_with_mgr s m in
      if done : bool then (match pid with Some p => kill_group s p | None => s end, 204) else (s, 404)
  end.

(** ** The start of the agent *)

Definition leftover (root p : list bytes) (dir : bool) : bool :=
  match strip_path root p with
  | Some rel =>
      existsb (starts_with JOB_DIR_PREFIX) (removelast rel) ||
      match last rel with
      | Some name => if dir then starts_with JOB_DIR_PREFIX name else starts_with UPLOAD_TEMP_PREFIX name
      | None => false
      end
  | None => false
  end.

(** [stuck] are the entries whose removal fails or that the walk cannot read. *)
Definition sweep_share_root (d : Disk) (root : list bytes) (stuck : list bytes -> bool) : Disk :=
  {| d_files := filter (fun x => leftover root x.1 false && negb (stuck x.1) = false) (d_files d);
     d_dirs := filter (fun p => leftover root p true && negb (stuck p) = false) (d_dirs d) |}.

(** ** The agent *)

(** A path inside some job folder, or one. *)
Definition in_job_dir (p : list bytes) : bool := existsb (starts_with JOB_DIR_PREFIX) p.

Definition same_outside (keep : list bytes -> bool) (d d' : Disk) : Prop :=
  forall p, keep p = true -> d_files d' !! p = d_files d !! p /\ (p ∈ d_dirs d' <-> p ∈ d_dirs d).

(** Devices and the owner change the shares, but nothing inside a job folder: such names
    are reserved. The plugin works in its folder. *)
Inductive import_step (a : AgentState) (now : Z) (s : Importer) : Importer -> Prop :=
| ip_begin share_id req body st : import_begin a s share_id req body now = Ok st -> import_step a now s (i_with_starts s (i_starts s ++ [st]))
| ip_finish st before after lookup id m ans : i_starts s = before ++ st :: after ->
    im_jobs (i_mgr s) !! id = None -> id ∉ im_queue (i_mgr s) -> pc_job (i_pc s) <> Some id ->
    import_finish a (i_mgr s) st lookup id now = (m, ans) ->
    import_step a now s (i_with_starts (i_with_mgr s m) (before ++ after))
| ip_status share_id job_id req s' ans : import_status a s share_id job_id req now = (s', ans) -> import_step a now s s'
| ip_cancel share_id job_id req s' ans : import_cancel a s share_id job_id req now = (s', ans) -> import_step a now s s'
| ip_config config : import_step a now s (i_with_mgr s (set_config (i_mgr s) config))
| ip_runner inp s' : runner_step digest now s inp = Some s' -> import_step a now s s'
| ip_plugin ev s' : plugin_step s ev = Some s' -> import_step a now s s'
| ip_plugin_writes d dir : i_child s <> None -> pc_dir (i_pc s) = Some dir ->
    same_outside (fun p => negb (under dir p)) (w_disk (i_world s)) d -> import_step a now s (i_with_world s (set_disk (i_world s) d))
| ip_others w : same_outside in_job_dir (w_disk (i_world s)) (w_disk w) -> import_step a now s (i_with_world s w)
| ip_restart config w stuck roots : w_disk w = foldl (fun d root => sweep_share_root d root stuck) (w_disk (i_world s)) roots ->
    import_step a now s {| i_mgr := manager_new config; i_world := w; i_pc := RWait; i_child := None; i_starts := []; i_log := i_log s |}.
Inductive import_reach (a : AgentState) : Importer -> Prop :=
| ir_start config w : import_reach a {| i_mgr := manager_new config; i_world := w; i_pc := RWait; i_child := None; i_starts := []; i_log := [] |}
| ir_next now s s' : import_reach a s -> import_step a now s s' -> import_reach a s'.

(** ** The table *)

(** A job of the table, given the queue and the job the runner is at. *)
Definition job_ok (queue : list bytes) (cur : option bytes) (id : bytes) (j : Job) : Prop :=
  match jb_state j with
  | Queued => id ∈ queue /\ is_Some (jb_spec j) /\ jb_finished j = None /\ jb_files j = [] /\ jb_error j = None
  | Running => cur = Some id /\ jb_spec j = None /\ jb_finished j = None /\ jb_files j = [] /\ jb_error j = None
  | Done => (id ∉ queue) /\ cur <> Some id /\ jb_spec j = None /\ is_Some (jb_finished j) /\ jb_error j = None
  | Failed => (id ∉ queue) /\ cur <> Some id /\ jb_spec j = None /\ is_Some (jb_finished j) /\ jb_files j = [] /\ is_Some (jb_error j)
  end.

Definition jobs_ok (jobs : Jobs) (queue : list bytes) (cur : option bytes) : Prop :=
  NoDup queue /\ (forall id, cur = Some id -> id ∉ queue) /\ map_Forall (job_ok queue cur) jobs.

Definition table_ok (s : Importer) : Prop :=
  jobs_ok (im_jobs (i_mgr s)) (im_queue (i_mgr s)) (pc_job (i_pc s)) /\
  (i_pc s = RWait -> im_permit (i_mgr s) = true \/ forall id, id ∈ im_queue (i_mgr s) -> im_jobs (i_mgr s) !! id = None).

Lemma jobs_ok_sub jobs jobs' queue cur : jobs' ⊆ jobs -> jobs_ok jobs queue cur -> jobs_ok jobs' queue cur.
Proof. intros Hs (H1 & H2 & H3). split_and!; [done | done |]. intros id j Hj. apply H3. by eapply lookup_weaken. Qed.

Lemma jobs_ok_alter f id jobs queue cur : (forall j, job_ok queue cur id j -> job_ok queue cur id (f j)) -> jobs_ok jobs queue cur ->
  jobs_ok (alter f id jobs) queue cur.
Proof.
  intros Hf (H1 & H2 & H3). split_and!; [done | done |]. intros id' j Hj. apply lookup_alter_Some in Hj as [(<- & j0 & Hj & ->) | [_ Hj]]; [by apply Hf, H3 | by apply H3].
Qed.

(** What the runner takes next: the first of the queue that is still there. *)
Lemma next_job_spec jobs queue : jobs_ok jobs queue None ->
  match next_job jobs queue with
  | (jobs', queue', Some (id, spec)) =>
      exists gone j, queue = gone ++ id :: queue' /\ (forall x, x ∈ gone -> jobs !! x = None) /\ jobs !! id = Some j /\ jb_state j = Queued /\
        jb_spec j = Some spec /\ jobs' = <[id := run_state j]> jobs
  | (jobs', queue', None) => jobs' = jobs /\ queue' = [] /\ forall x, x ∈ queue -> jobs !! x = None
  end.
Proof.
  intros (Hnd & _ & Hj). assert (Hq : forall id j, id ∈ queue -> jobs !! id = Some j -> jb_state j = Queued /\ is_Some (jb_spec j)).
  { intros id j Hin Hl. specialize (Hj _ _ Hl). unfold job_ok in Hj. destruct (jb_state j); [tauto | by destruct Hj | tauto | tauto]. }
  clear Hj Hnd. induction queue as [| id queue IH]; cbn [next_job]; [split_and!; [done | done | by intros x ?%elem_of_nil] |].
  destruct (jobs !! id) as [j |] eqn:El.
  - destruct (Hq id j ltac:(by left) El) as [Hst [spec Hs]]. rewrite Hs. exists [], j. split_and!; try done. by intros x ?%elem_of_nil.
  - specialize (IH ltac:(intros; eapply Hq; [by right | done])). destruct (next_job jobs queue) as [[jobs' queue'] [[id' spec] |]].
    + destruct IH as (gone & j & -> & Hg & Hr). exists (id :: gone), j. split_and!; try done; [| apply Hr ..]. by intros x [-> | ?]%elem_of_cons; [| apply Hg].
    + destruct IH as (-> & -> & Hr). split_and!; try done. by intros x [-> | ?]%elem_of_cons; [| apply Hr].
Qed.

Lemma runner_loop_ok s suffix : jobs_ok (im_jobs (i_mgr s)) (im_queue (i_mgr s)) None -> table_ok (runner_loop s suffix).
Proof.
  intros Hok. pose proof (next_job_spec _ _ Hok) as Hn. unfold runner_loop, table_ok. destruct Hok as (Hnd & _ & Hj).
  destruct (next_job _ _) as [[jobs' queue'] [[id spec] |]]; cbn.
  - destruct Hn as (gone & j & Hq & Hg & Hl & Hst & Hs & ->). split; [| done]. rewrite Hq in Hnd. apply NoDup_app in Hnd as (Hnd1 & Hdis & Hnd).
    apply NoDup_cons in Hnd as [Hid Hnd]. split_and!; [done | by intros ? [= <-] |].
    intros id' j' [[<- <-] | [Hne Hl']]%lookup_insert_Some.
    + specialize (Hj _ _ Hl). unfold job_ok in Hj. rewrite Hst in Hj. unfold job_ok. cbn. by split_and!; try apply Hj.
    + specialize (Hj _ _ Hl'). unfold job_ok in *. rewrite Hq in Hj. destruct (jb_state j') eqn:E'.
      * destruct Hj as (Hin & Hj). split; [| done]. apply elem_of_app in Hin as [Hin | [-> | Hin]%elem_of_cons]; [by rewrite (Hg _ Hin) in Hl' | done | done].
      * by destruct Hj.
      * destruct Hj as (Hin & _ & Hj). split_and!; [| congruence | apply Hj ..]. intros ?. apply Hin, elem_of_app. right. by right.
      * destruct Hj as (Hin & _ & Hj). split_and!; [| congruence | apply Hj ..]. intros ?. apply Hin, elem_of_app. right. by right.
  - destruct Hn as (-> & -> & Hn). split; [| right; by intros ? ?%elem_of_nil]. split_and!; [constructor | done |].
    intros id j Hl. specialize (Hj _ _ Hl). unfold job_ok in *. destruct (jb_state j).
    + destruct Hj as (Hin & _). by rewrite (Hn _ Hin) in Hl.
    + done.
    + split_and!; try apply Hj; by intros ?%elem_of_nil.
    + split_and!; try apply Hj; by intros ?%elem_of_nil.
Qed.

Lemma sweep_sub now jobs : sweep_finished now jobs ⊆ jobs.
Proof. apply map_filter_subseteq. Qed.

Lemma import_enqueue_ok now m spec id cur m' r : im_jobs m !! id = None -> id ∉ im_queue m -> cur <> Some id ->
  enqueue now m spec id = (m', r) -> jobs_ok (im_jobs m) (im_queue m) cur ->
  jobs_ok (im_jobs m') (im_queue m') cur /\ (im_permit m' = true \/ im_permit m' = im_permit m /\ im_queue m' = im_queue m /\ im_jobs m' ⊆ im_jobs m).
Proof.
  intros Hid Hq Hc He Hok. unfold enqueue in He. pose proof (sweep_sub now (im_jobs m)) as Hsub.
  destruct (_ <=? _); injection He as <- <-; cbn.
  - split; [by eapply jobs_ok_sub | by right].
  - split; [| by left]. apply (jobs_ok_sub _ _ _ _ Hsub) in Hok as (H1 & H2 & H3). split_and!.
    + apply NoDup_app. split_and!; [done | by intros x Hx ->%list_elem_of_singleton | by apply NoDup_singleton].
    + intros id' ->. rewrite elem_of_app, list_elem_of_singleton. intros [? | ->]; [by apply (H2 id') | done].
    + intros id' j [[<- <-] | [Hne Hl]]%lookup_insert_Some; [unfold job_ok; cbn; split_and!; try done; apply elem_of_app; right; by left |].
      specialize (H3 _ _ Hl). unfold job_ok in *. destruct (jb_state j); [| done | |].
      * destruct H3 as [? ?]. split; [apply elem_of_app; by left | done].
      * destruct H3 as [Hn ?]. split; [| done]. rewrite elem_of_app, list_elem_of_singleton. by intros [? | ->].
      * destruct H3 as [Hn ?]. split; [| done]. rewrite elem_of_app, list_elem_of_singleton. by intros [? | ->].
Qed.

Lemma table_same s s' : im_jobs (i_mgr s') = im_jobs (i_mgr s) -> im_queue (i_mgr s') = im_queue (i_mgr s) -> pc_job (i_pc s') = pc_job (i_pc s) ->
  (i_pc s' = RWait -> i_pc s = RWait /\ im_permit (i_mgr s') = im_permit (i_mgr s)) -> table_ok s -> table_ok s'.
Proof.
  intros Hj Hq Hp Hw [H1 H2]. unfold table_ok. rewrite Hj, Hq, Hp. split; [done |]. intros E. destruct (Hw E) as [E' ->]. by apply H2.
Qed.

(** Jobs that went out of the table. *)
Lemma table_sub s m : im_jobs m ⊆ im_jobs (i_mgr s) -> im_queue m = im_queue (i_mgr s) -> im_permit m = im_permit (i_mgr s) ->
  table_ok s -> table_ok (i_with_mgr s m).
Proof.
  intros Hj Hq Hp [H1 H2]. unfold table_ok. cbn. rewrite Hq, Hp. split; [by eapply jobs_ok_sub |].
  intros E. destruct (H2 E) as [? | Hn]; [by left | right]. intros id Hid. specialize (Hn id Hid). by eapply lookup_weaken_None.
Qed.

(** A change of a job that leaves its stage alone. *)
Definition keeps_stage (f : Job -> Job) : Prop :=
  forall queue cur id j, job_ok queue cur id j -> job_ok queue cur id (f j).

Lemma table_with_job s id f : keeps_stage f -> table_ok s -> table_ok (with_job s id f).
Proof.
  intros Hf [H1 H2]. unfold table_ok, with_job. cbn. split; [apply jobs_ok_alter; [apply Hf | done] |].
  intros E. destruct (H2 E) as [? | Hn]; [by left | right]. intros id' Hid. by rewrite lookup_alter_None, Hn.
Qed.

Lemma keeps_set_pid pid : keeps_stage (set_pid pid).
Proof. by intros queue cur id j. Qed.
Lemma keeps_set_progress p : keeps_stage (set_progress p).
Proof. by intros queue cur id j. Qed.

Lemma watched_stage s id spec dir started kill c :
  i_mgr (watched s id spec dir started kill c) = i_mgr s /\ i_world (watched s id spec dir started kill c) = i_world s /\
  i_log (watched s id spec dir started kill c) = i_log s /\ i_starts (watched s id spec dir started kill c) = i_starts s /\
  exists pc, i_pc (watched s id spec dir started kill c) = pc /\ (pc = RKill id spec dir started kill \/ pc = RWatch id spec dir started kill).
Proof. unfold watched. destruct (c || _); split_and!; try done; eexists; (split; [done |]); solve [by left | by right]. Qed.

Lemma finish_ok now outcome id jobs queue : jobs_ok jobs queue (Some id) -> jobs_ok (alter (finish_job now outcome) id jobs) queue None.
Proof.
  intros (H1 & H2 & H3). split_and!; [done | done |].
  intros id' j Hj. apply lookup_alter_Some in Hj as [(<- & j0 & Hj & ->) | [Hne Hj]]; specialize (H3 _ _ Hj); unfold job_ok in *.
  - assert (Hr : jb_state j0 = Running) by (destruct (jb_state j0); [by destruct H3 as [? _]; destruct (H2 id) | done | by destruct H3 as (_ & ? & _) | by destruct H3 as (_ & ? & _)]).
    rewrite Hr in H3. destruct H3 as (_ & Hs & Hf & Hfi & He). unfold finish_job. destruct outcome; cbn; rewrite ?Hs, ?Hfi, ?He; split_and!; try done; by apply H2.
  - destruct (jb_state j); [done | by destruct H3 as [[= ->] _] | |]; by destruct H3 as (? & _ & ?).
Qed.

Lemma runner_table_ok now s inp s' : runner_step digest now s inp = Some s' -> table_ok s -> table_ok s'.
Proof.
  intros Hs Hok. unfold runner_step in Hs.
  destruct (i_pc s) as [| id spec dir | id spec dir | id spec dir st k | id spec dir st cap k | id spec dir st k | id spec dir ex k | id spec dir
    | id spec dir pm todo pub ori | id dir out] eqn:Epc; destruct inp; try done.
  - destruct (im_permit _); [| done]. injection Hs as <-. apply runner_loop_ok. destruct Hok as [Hok _]. by rewrite Epc in Hok.
  - destruct (create_dir_all _ _ _) as [d ok]. injection Hs as <-. apply (table_same s); try done; cbn; rewrite ?Epc; by destruct ok.
  - destruct (create_dir_all _ _ _) as [d ok]. injection Hs as <-. destruct ok; [destruct pid |]; try (apply (table_same s); try done; cbn; by rewrite ?Epc).
    pose proof (table_with_job (i_with_world s (set_disk (i_world s) d)) id _ (keeps_set_pid (Some z))) as Hw.
    apply (table_same (with_job (i_with_world s (set_disk (i_world s) d)) id (set_pid (Some z)))); try done; [cbn; by rewrite Epc |].
    apply Hw. by apply (table_same s).
  - destruct (i_child s ≫= ch_exit); [| done]. injection Hs as <-. apply (table_same s); try done; cbn; by rewrite ?Epc.
  - assert (Hw : forall k c, table_ok (watched s id spec dir st k c)).
    { intros k' c. destruct (watched_stage s id spec dir st k' c) as (E1 & _ & _ & _ & pc & E2 & Hpc).
      apply (table_same s); rewrite ?E1, ?E2, ?Epc; try done; by destruct Hpc as [-> | ->]. }
    destruct (negb _); [injection Hs as <-; apply Hw |]. destruct (_ <=? _); [injection Hs as <-; apply Hw |].
    destruct (js_max_total_bytes spec); injection Hs as <-; [apply (table_same s); try done; cbn; by rewrite ?Epc | apply Hw].
  - injection Hs as <-. match goal with |- table_ok (watched _ _ _ _ _ ?k ?c) => destruct (watched_stage s id spec dir st k c) as (E1 & _ & _ & _ & pc & E2 & Hpc) end.
    apply (table_same s); rewrite ?E1, ?E2, ?Epc; try done; by destruct Hpc as [-> | ->].
  - injection Hs as <-. apply (table_same s); try done; cbn; by rewrite ?Epc.
  - destruct (i_child s) as [c |]; [| done]. destruct (_ || _); [done |]. injection Hs as <-.
    apply (table_same s); try done; cbn; rewrite ?Epc; repeat case_match; try done; by intros.
  - injection Hs as <-. apply (table_same s); try done; cbn; rewrite ?Epc; repeat case_match; try done; by intros.
  - destruct todo as [| name todo]; [injection Hs as <-; apply (table_same s); try done; cbn; by rewrite ?Epc |].
    destruct (publish_one _ _ _ _ _ _ _) as [[w f] | e]; injection Hs as <-; apply (table_same s); try done; cbn; by rewrite ?Epc.
  - injection Hs as <-. apply runner_loop_ok. cbn. apply finish_ok. destruct Hok as [Hok _]. by rewrite Epc in Hok.
Qed.

Lemma step_table_ok a now s s' : import_step a now s s' -> table_ok s -> table_ok s'.
Proof.
  intros Hs Hok. destruct Hs as [share_id req body st _ | st before after lookup id m ans Est Hid Hq Hc Hf | share_id job_id req s' ans Hs
    | share_id job_id req s' ans Hs | config | inp s' Hs | ev s' Hs | d dir _ _ _ | w _ | config w stuck roots _].
  - by apply (table_same s).
  - unfold import_finish in Hf. destruct (check_url lookup (st_link st)) as [host | e]; [| injection Hf as <- <-; by apply (table_same s)].
    destruct (route_plugin _ _) as [plugin |]; [| injection Hf as <- <-; by apply (table_same s)].
    destruct (effective_height _ _) as [h |]; [| injection Hf as <- <-; by apply (table_same s)].
    destruct (enqueue now (i_mgr s) (start_spec a st plugin h) id) as [m' r] eqn:Ee.
    assert (m = m') as -> by (destruct r; congruence). destruct Hok as [H1 H2].
    destruct (import_enqueue_ok _ _ _ _ (pc_job (i_pc s)) _ _ Hid Hq Hc Ee H1) as [H3 H4]. split; [done |]. cbn. intros E.
    destruct H4 as [? | (Ep & Eq & Ej)]; [by left |]. rewrite Ep, Eq. destruct (H2 E) as [? | Hn]; [by left | right]. intros x Hx. by eapply lookup_weaken_None, Ej; apply Hn.
  - unfold import_status in Hs. destruct (import_gates _ _ _ _ _); [| by injection Hs as <- <-]. cbn in Hs. injection Hs as <- <-.
    apply table_sub; [apply sweep_sub | done | done | done].
  - unfold import_cancel in Hs. destruct (import_gates _ _ _ _ _); [| by injection Hs as <- <-].
    destruct (cancel (i_mgr s) share_id job_id) as [[m done'] pid] eqn:Ec.
    assert (Hm : table_ok (i_with_mgr s m)).
    { unfold cancel in Ec. destruct (im_jobs (i_mgr s) !! job_id) as [j |] eqn:Ej; [case_bool_decide |]; injection Ec as <- <- <-; (apply table_sub; [| done | done | done]); cbn; try done.
      apply delete_subseteq. }
    destruct done'; injection Hs as <- <-; [| done]. destruct pid; [| done]. unfold kill_group. destruct (i_child _); [| done]. by destruct (_ && _).
  - by apply (table_same s).
  - by eapply runner_table_ok.
  - unfold plugin_step in Hs. destruct (i_child s) as [c |]; [| done]. cbn [mbind option_bind] in Hs. destruct ev.
    + destruct (ch_out c); [| done]. destruct (pc_job (i_pc s)) as [id |]; [| by injection Hs as <-]. destruct (parse_progress _); injection Hs as <-; [| done].
      by apply table_with_job; [apply keeps_set_progress |].
    + destruct (ch_err c); [| done]. injection Hs as <-. by apply (table_same s).
    + injection Hs as <-. by apply (table_same s).
    + injection Hs as <-. by apply (table_same s).
    + destruct (ch_exit c); [done |]. injection Hs as <-. by apply (table_same s).
  - by apply (table_same s).
  - by apply (table_same s).
  - split; [| right; by intros ? ?%elem_of_nil]. split_and!; [constructor | done | by intros ? ? ?].
Qed.

Lemma reach_table_ok a s : import_reach a s -> table_ok s.
Proof.
  induction 1 as [config w | now s s' _ IH Hs]; [| by eapply step_table_ok].
  split; [| right; by intros ? ?%elem_of_nil]. split_and!; [constructor | done | by intros ? ? ?].
Qed.

(** ** What a job may do *)

(** The request behind a job: it passed every gate. *)
Definition accepted (a : AgentState) (spec : JobSpec) : Prop :=
  exists s0 req body now0 st lookup host,
    import_begin a s0 (js_share_id spec) req body now0 = Ok st /\ check_url lookup (iq_url body) = Ok host /\
    route_plugin (ic_plugins (st_cfg st)) host = Some (js_plugin spec) /\ effective_height (iq_height body) (js_plugin spec) = Some (js_height spec) /\
    spec = start_spec a st (js_plugin spec) (js_height spec).

Definition start_ok (a : AgentState) (st : ImportStart) : Prop :=
  exists s0 req body now0, import_begin a s0 (st_share st) req body now0 = Ok st.

Definition log_ok (a : AgentState) (p : Published) : Prop :=
  accepted a (pb_spec p) /\ exists name, pb_target p = dest_dir (pb_spec p) ++ [name] /\ starts_with (str ".") name = false /\
    forall cap, js_max_file_bytes (pb_spec p) = Some cap -> zlen (df_data (pb_file p)) <= cap.

Definition pc_ok (a : AgentState) (pc : RunnerPc) : Prop :=
  (forall dir, pc_dir pc = Some dir -> exists root suffix, dir = root ++ [JOB_DIR_PREFIX ++ suffix]) /\
  match pc with
  | RWait | RClean _ _ _ => True
  | RMkJob _ spec _ | RMkDest _ spec _ | RWatch _ spec _ _ _ | RSize _ spec _ _ _ _ | RKill _ spec _ _ _ | RDrain _ spec _ _ _ | RReadDir _ spec _ => accepted a spec
  | RPublish _ spec _ _ todo _ _ => accepted a spec /\ Forall (fun n => starts_with (str ".") n = false) todo
  end.

Record import_ok (a : AgentState) (s : Importer) : Prop := {
  io_jobs : forall id j spec, im_jobs (i_mgr s) !! id = Some j -> jb_spec j = Some spec -> accepted a spec;
  io_pc : pc_ok a (i_pc s);
  io_starts : Forall (start_ok a) (i_starts s);
  io_log : Forall (log_ok a) (i_log s)
}.

Lemma import_same a s s' : im_jobs (i_mgr s') ⊆ im_jobs (i_mgr s) -> pc_ok a (i_pc s') -> i_starts s' = i_starts s -> i_log s' = i_log s -> import_ok a s -> import_ok a s'.
Proof.
  intros Hj Hp Hs Hl [H1 H2 H3 H4]. split; [| done | by rewrite Hs | by rewrite Hl]. intros id j spec Hid. eapply H1. by eapply lookup_weaken.
Qed.

Lemma with_job_ok a s id f : (forall j, jb_spec (f j) = jb_spec j) -> import_ok a s -> import_ok a (with_job s id f).
Proof.
  intros Hf [H1 H2 H3 H4]. split; [| done | done | done]. intros id' j spec Hid Hsp.
  cbn in Hid. apply lookup_alter_Some in Hid as [(<- & j0 & Hj & ->) | [_ Hj]]; [rewrite Hf in Hsp |]; by eapply H1.
Qed.

Lemma runner_loop_import_ok a s suffix : jobs_ok (im_jobs (i_mgr s)) (im_queue (i_mgr s)) None -> import_ok a s -> import_ok a (runner_loop s suffix).
Proof.
  intros Hok [H1 H2 H3 H4]. pose proof (next_job_spec _ _ Hok) as Hn. unfold runner_loop.
  destruct (next_job _ _) as [[jobs' queue'] [[id spec] |]]; split; cbn; try done.
  - destruct Hn as (gone & j & _ & _ & Hl & _ & Hs & ->). intros id' j' spec' [[<- <-] | [_ Hl']]%lookup_insert_Some Hs'; [done | by eapply H1].
  - destruct Hn as (gone & j & _ & _ & Hl & _ & Hs & ->). split; [| by eapply H1]. intros dir [= <-]. by eexists _, _.
  - destruct Hn as (-> & _). done.
Qed.

Lemma publish_one_shape w spec dir name io seen w' f : publish_one digest w spec dir name io seen = Ok (w', f) ->
  d_files (w_disk w) !! (dir ++ [name]) = Some f /\ (forall cap, js_max_file_bytes spec = Some cap -> zlen (df_data f) <= cap) /\
  rename_replace (w_disk w) (dir ++ [name]) (dest_dir spec ++ [name]) = Some (w_disk w') /\
  (seen = true -> w_cache w' = seed (w_cache w) (dest_dir spec ++ [name]) (zlen (df_data f)) (df_mtime f) (Mirror.sha256_hex digest (df_data f))).
Proof.
  unfold publish_one. destruct (d_files (w_disk w) !! _) as [f0 |] eqn:Ef; [| done].
  destruct (match js_max_file_bytes spec with Some cap => cap <? zlen (df_data f0) | None => false end) eqn:Ec; [done |].
  destruct io; [done |]. destruct (rename_replace _ _ _) as [d' |] eqn:Er; [| done]. intros [= <- <-]. split_and!; try done.
  - intros cap Hcap. rewrite Hcap in Ec. bool_props. lia.
  - by destruct seen.
  - by intros ->.
Qed.

Lemma runner_import_ok a now s inp s' : runner_step digest now s inp = Some s' -> table_ok s -> import_ok a s -> import_ok a s'.
Proof.
  intros Hs Htab Hok. pose proof (io_pc _ _ Hok) as [Hdir Hpc]. unfold runner_step in Hs.
  assert (Hsame : forall s1 pc, im_jobs (i_mgr s1) = im_jobs (i_mgr s) -> i_starts s1 = i_starts s -> i_log s1 = i_log s -> pc_ok a pc -> import_ok a (i_with_pc s1 pc)).
  { intros s1 pc E1 E2 E3 Hp. apply (import_same a s); try done. cbn. by rewrite E1. }
  destruct (i_pc s) as [| id spec dir | id spec dir | id spec dir st k | id spec dir st cap k | id spec dir st k | id spec dir ex k | id spec dir
    | id spec dir pm todo pub ori | id dir out] eqn:Epc; destruct inp; try done.
  - destruct (im_permit _); [| done]. injection Hs as <-. destruct Htab as [Htab _]. rewrite Epc in Htab. apply runner_loop_import_ok; [done |].
    apply (import_same a s); try done. cbn. by rewrite Epc.
  - destruct (create_dir_all _ _ _) as [d ok]. injection Hs as <-. apply Hsame; try done. by destruct ok.
  - destruct (create_dir_all _ _ _) as [d ok]. injection Hs as <-. destruct ok; [destruct pid as [p |] |]; try by apply Hsame.
    pose proof (with_job_ok a (i_with_world s (set_disk (i_world s) d)) id (set_pid (Some p)) ltac:(done)) as Hw.
    eapply import_same; [| | | | apply Hw; apply (import_same a s); try done; cbn; by rewrite Epc]; done.
  - destruct (i_child s ≫= ch_exit); [| done]. injection Hs as <-. by apply Hsame.
  - assert (Hw : forall k c, import_ok a (watched s id spec dir st k c)).
    { intros k' c. destruct (watched_stage s id spec dir st k' c) as (E1 & _ & E3 & E4 & pc & E2 & Hp).
      apply (import_same a s); rewrite ?E1, ?E2, ?E3, ?E4; try done; by destruct Hp as [-> | ->]. }
    destruct (negb _); [injection Hs as <-; apply Hw |]. destruct (_ <=? _); [injection Hs as <-; apply Hw |].
    destruct (js_max_total_bytes spec); injection Hs as <-; [by apply Hsame | apply Hw].
  - injection Hs as <-. match goal with |- import_ok _ (watched _ _ _ _ _ ?k ?c) => destruct (watched_stage s id spec dir st k c) as (E1 & _ & E3 & E4 & pc & E2 & Hp) end.
    apply (import_same a s); rewrite ?E1, ?E2, ?E3, ?E4; try done; by destruct Hp as [-> | ->].
  - injection Hs as <-. apply Hsame; try done; by destruct (i_child s).
  - destruct (i_child s) as [c |]; [| done]. destruct (_ || _); [done |]. injection Hs as <-. apply Hsame; try done. by repeat case_match.
  - injection Hs as <-. apply Hsame; try done. destruct ok; [| done]. cbn [negb].
    destruct (job_names (w_disk (i_world s)) dir) as [| n ns] eqn:En; [done |]. split; [done |]. split; [done |]. rewrite <- En.
    unfold job_names. rewrite isort_perm. apply Forall_forall. intros x Hx%list_elem_of_In. apply filter_In in Hx as [_ Hx]. by apply negb_true_iff in Hx.
  - destruct Hpc as [Hacc Htodo]. destruct todo as [| name todo]; [injection Hs as <-; by apply Hsame |].
    destruct (publish_one _ _ _ _ _ _ _) as [[w f] | e] eqn:Epub; injection Hs as <-; [| by apply Hsame].
    apply Forall_cons in Htodo as [Hn Htodo]. apply publish_one_shape in Epub as (_ & Hcap & _). destruct Hok as [H1 H2 H3 H4]. split; cbn; try done.
    apply Forall_app. split; [done |]. constructor; [| done]. split; [done |]. by exists name.
  - injection Hs as <-. apply runner_loop_import_ok.
    + cbn. apply finish_ok. destruct Htab as [Htab _]. by rewrite Epc in Htab.
    + apply with_job_ok; [by intros j; destruct out |]. apply (import_same a s); try done. cbn. by rewrite Epc.
Qed.

Lemma begin_shape a s share_id req body now st : import_begin a s share_id req body now = Ok st ->
  st_share st = share_id /\ st_link st = iq_url body /\ st_want st = iq_height body /\
  (exists share, w_shares (i_world s) !! share_id = Some share /\ sh_writable share = true /\ sh_import share = true /\ st_root st = sh_path share) /\
  im_config (i_mgr s) = Some (st_cfg st) /\ check_token a share_id SCOPE_IMPORT req (now / 1000) = Ok tt /\
  exists comps, Forall comp_ok comps /\ st_dest st = join [47] comps.
Proof.
  unfold import_begin, import_gates. destruct (w_shares (i_world s) !! share_id) as [share |] eqn:Esh; [| done].
  destruct (sh_writable share) eqn:Ew; [| done]. destruct (sh_import share) eqn:Ei; [| done].
  destruct (im_config (i_mgr s)) as [cfg |] eqn:Ec; [case_bool_decide; [done |] | done].
  destruct (check_token _ _ _ _ _) as [[] | e] eqn:Et; [| done].
  destruct (resolve_within _ _ _) as [[dest | e] |] eqn:Er; try done. destruct (is_file_on _ _); [done |]. intros [= <-].
  cbn. split_and!; try done; [by exists share |].
  unfold resolve_within in Er. destruct (contains_char 92 (iq_dest body)) eqn:E1; [done |]. destruct (contains_char 0 (iq_dest body)) eqn:E2; [done |].
  apply contains_char_false in E1, E2. cbn [orb] in Er.
  destruct (lexical_clean (iq_dest body) E1 E2) as [[(_ & _ & Hc) El] | [_ E]]; [| by rewrite E in Er]. rewrite El in Er.
  destruct (canonicalize_in _ (sh_path share)) as [cr |]; [| done]. destruct (probe_ancestors _ _ _ _) as [[? | ?] |]; cbn in Er; try done.
  injection Er as <-. exists (named (iq_dest body)). split; [done |]. by rewrite rel_key_app.
Qed.

Lemma dest_dir_comps a st plugin h comps : Forall comp_ok comps -> st_dest st = join [47] comps ->
  dest_dir (start_spec a st plugin h) = st_root st ++ comps.
Proof.
  intros Hc Hd. unfold dest_dir, start_spec. cbn. rewrite Hd. destruct comps as [| c cs]; [cbn; by rewrite app_nil_r |].
  rewrite bool_decide_eq_false_2.
  - rewrite split_join; [done | done |]. eapply Forall_impl; [exact Hc |]. by intros x (_ & _ & _ & ? & _).
  - intros E. apply Forall_cons in Hc as [(Hne & _) _]. destruct cs as [| c' cs]; [done |]. rewrite join_cons in E by done. by destruct c.
Qed.

Lemma step_import_ok a now s s' : import_step a now s s' -> table_ok s -> import_ok a s -> import_ok a s'.
Proof.
  intros Hs Htab Hok. destruct Hs as [share_id req body st Hb | st before after lookup id m ans Est Hid Hq Hc Hf | share_id job_id req s' ans Hs
    | share_id job_id req s' ans Hs | config | inp s' Hs | ev s' Hs | d dir _ _ _ | w _ | config w stuck roots _].
  - destruct Hok as [H1 H2 H3 H4]. split; cbn; try done. apply Forall_app. split; [done |]. constructor; [| done].
    destruct (begin_shape _ _ _ _ _ _ _ Hb) as (E & _). unfold start_ok. rewrite E. by exists s, req, body, now.
  - pose proof (io_starts _ _ Hok) as Hst. rewrite Est in Hst. apply Forall_app in Hst as [Hbef [Hst Haft]%Forall_cons].
    assert (Hrest : forall jobs queue permit cfg, (forall id j spec, jobs !! id = Some j -> jb_spec j = Some spec -> accepted a spec) ->
      import_ok a (i_with_starts (i_with_mgr s {| im_config := cfg; im_jobs := jobs; im_queue := queue; im_permit := permit |}) (before ++ after))).
    { intros jobs queue permit cfg Hj. destruct Hok as [H1 H2 H3 H4]. split; cbn; try done. by apply Forall_app. }
    unfold import_finish in Hf. assert (Hsame : import_ok a (i_with_starts (i_with_mgr s (i_mgr s)) (before ++ after))) by (destruct (i_mgr s) eqn:Em; apply Hrest; apply (f_equal im_jobs) in Em; cbn in Em; rewrite <- Em; apply Hok).
    destruct (check_url lookup (st_link st)) as [host | e] eqn:Eu; [| by injection Hf as <- <-].
    destruct (route_plugin _ _) as [plugin |] eqn:Er; [| by injection Hf as <- <-].
    destruct (effective_height _ _) as [h |] eqn:Eh; [| by injection Hf as <- <-].
    assert (m = (enqueue now (i_mgr s) (start_spec a st plugin h) id).1) as ->.
    { destruct (enqueue _ _ _ _) as [m' [r |]]; by injection Hf as <- <-. }
    unfold enqueue. destruct (_ <=? _); cbn [fst].
    + apply Hrest. intros x j spec Hx. eapply Hok. eapply lookup_weaken; [exact Hx | apply sweep_sub].
    + apply Hrest. intros x j spec [[<- <-] | [_ Hx]]%lookup_insert_Some Hsp; [| eapply Hok; [eapply lookup_weaken; [exact Hx | apply sweep_sub] | done]].
      injection Hsp as <-. destruct Hst as (s0 & req & body & now0 & Hb). exists s0, req, body, now0, st, lookup, host. cbn.
      destruct (begin_shape _ _ _ _ _ _ _ Hb) as (_ & El & Ew & _). rewrite <- El, <- Ew. by split_and!.
  - unfold import_status in Hs. destruct (import_gates _ _ _ _ _); [| by injection Hs as <- <-]. cbn in Hs. injection Hs as <- <-.
    apply (import_same a s); try done; [apply sweep_sub | apply Hok].
  - unfold import_cancel in Hs. destruct (import_gates _ _ _ _ _); [| by injection Hs as <- <-].
    destruct (cancel (i_mgr s) share_id job_id) as [[m done'] pid] eqn:Ec.
    assert (Hm : import_ok a (i_with_mgr s m)).
    { apply (import_same a s); try done; [| apply Hok].
      unfold cancel in Ec. destruct (im_jobs (i_mgr s) !! job_id) as [j |]; [case_bool_decide |]; injection Ec as <- <- <-; try done. apply delete_subseteq. }
    destruct done'; injection Hs as <- <-; [| done]. destruct pid; [| done]. unfold kill_group. destruct (i_child _); [| done].
    destruct (_ && _); [| done]. apply (import_same a (i_with_mgr s m)); try done. apply Hm.
  - apply (import_same a s); try done. apply Hok.
  - by eapply runner_import_ok.
  - unfold plugin_step in Hs. destruct (i_child s) as [c |]; [| done]. cbn [mbind option_bind] in Hs. destruct ev.
    + destruct (ch_out c); [| done]. destruct (pc_job (i_pc s)) as [id |]; [| by injection Hs as <-]. destruct (parse_progress _); injection Hs as <-; [| done].
      by apply with_job_ok.
    + destruct (ch_err c); [| done]. injection Hs as <-. apply (import_same a s); try done. apply Hok.
    + injection Hs as <-. apply (import_same a s); try done. apply Hok.
    + injection Hs as <-. apply (import_same a s); try done. apply Hok.
    + destruct (ch_exit c); [done |]. injection Hs as <-. apply (import_same a s); try done. apply Hok.
  - apply (import_same a s); try done. apply Hok.
  - apply (import_same a s); try done. apply Hok.
  - split; cbn; try done; apply Hok.
Qed.

Lemma reach_import_ok a s : import_reach a s -> import_ok a s.
Proof.
  induction 1 as [config w | now s s' Hr IH Hs]; [by split | by eapply step_import_ok; [done | eapply reach_table_ok |]].
Qed.

(** in every run of the agent, whatever requests, plugins, owners and restarts do: at
    most one job runs, and it is the one the runner is at; a job is queued exactly while it
    waits in the queue with its request; a finished one has its time, and its files if it is
    done or its error if it failed, never both; and while the runner waits and a live job is
    in the queue, a notification is under way, so no job is forgotten. *)
Theorem import_table a s : import_reach a s ->
  let m := i_mgr s in
  (forall id id' j j', im_jobs m !! id = Some j -> im_jobs m !! id' = Some j' -> jb_state j = Running -> jb_state j' = Running -> id = id') /\
  (forall id j, im_jobs m !! id = Some j ->
     (jb_state j = Running <-> pc_job (i_pc s) = Some id) /\ (jb_state j = Queued <-> id ∈ im_queue m) /\
     (is_Some (jb_spec j) <-> jb_state j = Queued) /\ (is_Some (jb_finished j) <-> jb_state j = Done \/ jb_state j = Failed) /\
     (is_Some (jb_error j) <-> jb_state j = Failed) /\ (jb_files j <> [] -> jb_state j = Done)) /\
  NoDup (im_queue m) /\
  (i_pc s = RWait -> im_permit m = true \/ forall id, id ∈ im_queue m -> im_jobs m !! id = None).
Proof.
  intros Hr. destruct (reach_table_ok _ _ Hr) as [(H1 & H2 & H3) H4]. intros m. split_and!; [| | done | done].
  - intros id id' j j' Hj Hj' Hs Hs'. apply H3 in Hj, Hj'. unfold job_ok in Hj, Hj'. rewrite Hs in Hj. rewrite Hs' in Hj'. destruct Hj, Hj'. congruence.
  - intros id j Hj. apply H3 in Hj. unfold job_ok in Hj. fold m in Hj. destruct (jb_state j).
    + destruct Hj as (Hq & Hs & Hf & Hfi & He). rewrite Hf, He. split_and!; try (by intros Hx; destruct (Hx Hfi)); (split; try done); try (by intros [? ?]); try (by intros [? | ?]).
      intros E. by destruct (H2 id E).
    + destruct Hj as (Hq & Hs & Hf & Hfi & He). rewrite Hs, Hf, He. split_and!; try (by intros Hx; destruct (Hx Hfi)); (split; try done); try (by intros [? ?]); try (by intros [? | ?]).
      intros E. by destruct (H2 id Hq).
    + destruct Hj as (Hq & Hc & Hs & Hf & He). rewrite Hs, He. split_and!; try done; (split; try done); try (by intros [? ?]); by left.
    + destruct Hj as (Hq & Hc & Hs & Hf & Hfi & He). rewrite Hs. split_and!; try (by intros Hx; destruct (Hx Hfi)); (split; try done); try (by intros [? ?]); by right.
Qed.


(** What the steps of the runner do to the disk. *)
Lemma create_dir_all_files d p fail : d_files (create_dir_all d p fail).1 = d_files d.
Proof. unfold create_dir_all. destruct (existsb _ _); [done |]. by destruct fail. Qed.

Lemma job_path_in root suffix q : in_job_dir ((root ++ [JOB_DIR_PREFIX ++ suffix]) ++ q) = true.
Proof.
  unfold in_job_dir. rewrite !existsb_app. cbn [existsb]. assert (starts_with JOB_DIR_PREFIX (JOB_DIR_PREFIX ++ suffix) = true) as ->.
  { apply starts_with_spec. by exists suffix. }
  by rewrite orb_true_r.
Qed.

Lemma removed_outside d root suffix ok gone path : in_job_dir path = false ->
  d_files (remove_dir_all d (root ++ [JOB_DIR_PREFIX ++ suffix]) ok gone) !! path = d_files d !! path.
Proof.
  intros Hp. unfold remove_dir_all. cbn [d_files]. destruct (d_files d !! path) as [f |] eqn:Ef.
  - apply map_lookup_filter_Some. split; [done |]. cbn [fst]. apply orb_true_iff. left. apply negb_true_iff, orb_false_iff. split.
    + unfold under. destruct (strip_path _ path) as [[| c q] |] eqn:E; try done. apply strip_path_spec in E as ->. by rewrite job_path_in in Hp.
    + apply bool_decide_eq_false. intros ->. pose proof (job_path_in root suffix []) as E. rewrite app_nil_r in E. by rewrite E in Hp.
  - by apply map_lookup_filter_None; left.
Qed.

(** The runner touches the files of the shares only by publishing: a step of it changes
    a file outside the job folders only when it logs that file as published, and then the
    whole file the plugin left takes the place of what was there, in one step. *)
Theorem import_writes_whole a s now inp s' path : import_reach a s -> runner_step digest now s inp = Some s' ->
  in_job_dir path = false ->
  d_files (w_disk (i_world s')) !! path = d_files (w_disk (i_world s)) !! path /\ i_log s' = i_log s \/
  (exists p, i_log s' = i_log s ++ [p] /\
     (pb_target p <> path -> d_files (w_disk (i_world s')) !! path = d_files (w_disk (i_world s)) !! path) /\
     (pb_target p = path -> d_files (w_disk (i_world s')) !! path = Some (pb_file p) /\
        exists dir name, pc_dir (i_pc s) = Some dir /\ d_files (w_disk (i_world s)) !! (dir ++ [name]) = Some (pb_file p))).
Proof.
  intros Hr Hs Hpath. pose proof (io_pc _ _ (reach_import_ok _ _ Hr)) as [Hdir _]. unfold runner_step in Hs.
  assert (Hloop : forall s1 suffix, i_world (runner_loop s1 suffix) = i_world s1 /\ i_log (runner_loop s1 suffix) = i_log s1).
  { intros s1 suffix. unfold runner_loop. by destruct (next_job _ _) as [[? ?] [[? ?] |]]. }
  assert (Hmk : forall d p fail, d_files (create_dir_all d p fail).1 !! path = d_files d !! path) by (intros; by rewrite create_dir_all_files).
  destruct (i_pc s) as [| id spec dir | id spec dir | id spec dir st k | id spec dir st cap k | id spec dir st k | id spec dir ex k | id spec dir
    | id spec dir pm todo pub ori | id dir out] eqn:Epc; destruct inp; try done.
  - left. destruct (im_permit _); [| done]. injection Hs as <-. by destruct (Hloop (i_with_mgr s (set_permit (i_mgr s) false)) suffix0) as [-> ->].
  - left. specialize (Hmk (w_disk (i_world s)) dir fail). destruct (create_dir_all _ _ _) as [d ok]. injection Hs as <-. by split.
  - left. specialize (Hmk (w_disk (i_world s)) (dest_dir spec) fail). destruct (create_dir_all _ _ _) as [d ok]. injection Hs as <-.
    destruct ok; [destruct pid |]; by split.
  - left. destruct (i_child s ≫= ch_exit); [| done]. by injection Hs as <-.
  - left. assert (Hw : forall k c, d_files (w_disk (i_world (watched s id spec dir st k c))) !! path = d_files (w_disk (i_world s)) !! path /\ i_log (watched s id spec dir st k c) = i_log s).
    { intros k' c. destruct (watched_stage s id spec dir st k' c) as (_ & E2 & E3 & _). by rewrite E2, E3. }
    destruct (negb _); [injection Hs as <-; apply Hw |]. destruct (_ <=? _); [injection Hs as <-; apply Hw |].
    destruct (js_max_total_bytes spec); injection Hs as <-; [by split | apply Hw].
  - left. injection Hs as <-. match goal with |- context [watched _ _ _ _ _ ?k ?c] => destruct (watched_stage s id spec dir st k c) as (_ & E2 & E3 & _) end.
    by rewrite E2, E3.
  - left. injection Hs as <-. by split.
  - left. destruct (i_child s) as [c |]; [| done]. destruct (_ || _); [done |]. injection Hs as <-. by split.
  - left. injection Hs as <-. by split.
  - destruct (Hdir dir eq_refl) as (root & suffix & ->).
    assert (Hrec : forall w r ori' wr, d_files (w_disk (record_origins w r ori' wr)) = d_files (w_disk w)) by done.
    destruct todo as [| name todo]; [left; injection Hs as <-; by split |].
    destruct (publish_one _ _ _ _ _ _ _) as [[w f] | e] eqn:Epub; injection Hs as <-; [| left; by split].
    right. eexists. split; [reflexivity |]. cbn. apply publish_one_shape in Epub as (Hf & _ & Hren & _).
    unfold rename_replace in Hren. rewrite Hf in Hren. cbn in Hren. destruct (_ || _); [done |]. injection Hren as Hw.
    assert (Hne : (root ++ [JOB_DIR_PREFIX ++ suffix]) ++ [name] <> path) by (intros <-; by rewrite job_path_in in Hpath).
    rewrite <- Hw. cbn. split.
    + intros Ht. by rewrite lookup_insert_ne, lookup_delete_ne.
    + intros <-. split; [by rewrite lookup_insert_eq |]. by eexists _, name.
  - left. injection Hs as <-. destruct (Hloop (with_job (i_with_world s (set_disk (i_world s) (remove_dir_all (w_disk (i_world s)) dir ok gone))) id (finish_job now out)) suffix0) as [-> ->].
    split; [| done]. destruct (Hdir dir eq_refl) as (root & sfx & ->). by apply removed_outside.
Qed.

(** ** Cancelling *)

(** Publication of the job has not begun, or is not its. *)
Definition not_publishing (id : bytes) (s : Importer) : Prop :=
  match i_pc s with RReadDir id' _ _ | RPublish id' _ _ _ _ _ _ => id' <> id | _ => True end.

(** Any steps during which the id is not given out again. *)
Definition id_unused (a : AgentState) (id : bytes) (s s' : Importer) : Prop :=
  (exists now, import_step a now s s') /\ im_jobs (i_mgr s') !! id = None.

Lemma runner_loop_other s suffix id : i_log (runner_loop s suffix) = i_log s /\ not_publishing id (runner_loop s suffix).
Proof. unfold runner_loop. by destruct (next_job _ _) as [[? ?] [[? ?] |]]. Qed.

Lemma cancelled_runner now s inp s' id : runner_step digest now s inp = Some s' -> im_jobs (i_mgr s) !! id = None -> not_publishing id s ->
  not_publishing id s' /\ exists l, i_log s' = i_log s ++ l /\ Forall (fun p => pb_id p <> id) l.
Proof.
  intros Hs Hid Hnp. unfold runner_step in Hs. unfold not_publishing in Hnp.
  assert (Hsame : forall s1 pc, i_log s1 = i_log s -> match pc with RReadDir id' _ _ | RPublish id' _ _ _ _ _ _ => id' <> id | _ => True end ->
    not_publishing id (i_with_pc s1 pc) /\ exists l, i_log (i_with_pc s1 pc) = i_log s ++ l /\ Forall (fun p => pb_id p <> id) l).
  { intros s1 pc E Hpc. split; [done |]. exists []. cbn. by rewrite app_nil_r. }
  assert (Hwat : forall s1 i spec dir st k c, i_log s1 = i_log s -> not_publishing id (watched s1 i spec dir st k c) /\
    exists l, i_log (watched s1 i spec dir st k c) = i_log s ++ l /\ Forall (fun p => pb_id p <> id) l).
  { intros s1 i spec dir st k c E. unfold watched. destruct (c || _); by apply Hsame. }
  destruct (i_pc s) as [| i spec dir | i spec dir | i spec dir st k | i spec dir st cap k | i spec dir st k | i spec dir ex k | i spec dir
    | i spec dir pm todo pub ori | i dir out] eqn:Epc; destruct inp; try done.
  - destruct (im_permit _); [| done]. injection Hs as <-. destruct (runner_loop_other (i_with_mgr s (set_permit (i_mgr s) false)) suffix0 id) as [-> ?].
    split; [done |]. exists []. by rewrite app_nil_r.
  - destruct (create_dir_all _ _ _) as [d ok]. injection Hs as <-. apply Hsame; [done | by destruct ok].
  - destruct (create_dir_all _ _ _) as [d ok]. injection Hs as <-. destruct ok; [destruct pid |]; [| by apply Hsame ..].
    split; [done |]. exists []. cbn. by rewrite app_nil_r.
  - destruct (i_child s ≫= ch_exit); [| done]. injection Hs as <-. by apply Hsame.
  - destruct (negb _); [injection Hs as <-; by apply Hwat |]. destruct (_ <=? _); [injection Hs as <-; by apply Hwat |].
    destruct (js_max_total_bytes spec); injection Hs as <-; [by apply Hsame | by apply Hwat].
  - injection Hs as <-. by apply Hwat.
  - injection Hs as <-. by apply Hsame.
  - destruct (i_child s) as [c |]; [| done]. destruct (_ || _); [done |]. injection Hs as <-. apply Hsame; [done |].
    unfold has_job. destruct (decide (i = id)) as [-> | Hne]; [rewrite Hid; rewrite bool_decide_eq_false_2 by (by intros [? ?]); done |].
    destruct (negb _); [done |]. destruct k; [done |]. by destruct ex as [[|] |].
  - injection Hs as <-. apply Hsame; [done |]. destruct ok; [| done]. cbn [negb]. by destruct (job_names _ _).
  - destruct todo as [| name todo]; [injection Hs as <-; by apply Hsame |].
    destruct (publish_one _ _ _ _ _ _ _) as [[w f] | e]; injection Hs as <-; [| by apply Hsame].
    split; [done |]. eexists. split; [reflexivity |]. by constructor.
  - injection Hs as <-. match goal with |- context [runner_loop ?s1 ?sfx] => destruct (runner_loop_other s1 sfx id) as [-> ?] end.
    split; [done |]. exists []. cbn. by rewrite app_nil_r.
Qed.

Lemma cancelled_step a now s s' id : import_step a now s s' -> im_jobs (i_mgr s) !! id = None -> not_publishing id s ->
  not_publishing id s' /\ exists l, i_log s' = i_log s ++ l /\ Forall (fun p => pb_id p <> id) l.
Proof.
  intros Hs Hid Hnp.
  assert (Hsame : forall s1, i_pc s1 = i_pc s -> i_log s1 = i_log s -> not_publishing id s1 /\ exists l, i_log s1 = i_log s ++ l /\ Forall (fun p => pb_id p <> id) l).
  { intros s1 E1 E2. unfold not_publishing. rewrite E1, E2. split; [done |]. exists []. by rewrite app_nil_r. }
  destruct Hs as [share_id req body st Hb | st before after lookup id' m ans Est _ Hq Hc Hf | share_id job_id req s' ans Hs
    | share_id job_id req s' ans Hs | config | inp s' Hs | ev s' Hs | d dir _ _ _ | w _ | config w stuck roots _]; try by apply Hsame.
  - unfold import_status in Hs. destruct (import_gates _ _ _ _ _); injection Hs as <- <-; by apply Hsame.
  - unfold import_cancel in Hs. destruct (import_gates _ _ _ _ _); [| injection Hs as <- <-; by apply Hsame].
    destruct (cancel (i_mgr s) share_id job_id) as [[m done'] pid]. destruct done'; injection Hs as <- <-; [| by apply Hsame].
    destruct pid; [| by apply Hsame]. unfold kill_group. destruct (i_child _); [| by apply Hsame]. destruct (_ && _); by apply Hsame.
  - by eapply cancelled_runner.
  - unfold plugin_step in Hs. destruct (i_child s) as [c |]; [| done]. cbn [mbind option_bind] in Hs. destruct ev.
    + destruct (ch_out c); [| done]. destruct (pc_job (i_pc s)); [| injection Hs as <-; by apply Hsame]. destruct (parse_progress _); injection Hs as <-; by apply Hsame.
    + destruct (ch_err c); [| done]. injection Hs as <-. by apply Hsame.
    + injection Hs as <-. by apply Hsame.
    + injection Hs as <-. by apply Hsame.
    + destruct (ch_exit c); [done |]. injection Hs as <-. by apply Hsame.
  - split; [done |]. exists []. cbn. by rewrite app_nil_r.
Qed.

Lemma gates_code a s share_id req now e : import_gates a s share_id req now = Err e -> e.1 = 401 \/ e.1 = 403 \/ e.1 = 404.
Proof.
  unfold import_gates. destruct (w_shares _ !! share_id) as [sh |]; [| intros [= <-]; cbn; tauto].
  destruct (sh_writable sh); [| intros [= <-]; cbn; tauto]. destruct (sh_import sh); [| intros [= <-]; cbn; tauto].
  destruct (im_config (i_mgr s)) as [c |]; [case_bool_decide; [intros [= <-]; cbn; tauto |] | intros [= <-]; cbn; tauto].
  unfold Agent.check_token. destruct (extract_token _ _ _) as [t |]; [| intros [= <-]; cbn; tauto].
  destruct (verify_share_token _ _ _ _ _); [done | intros [= <-]; cbn; tauto].
Qed.

(** A cancelled job whose publication had not begun never publishes anything, wherever
    the cancel hit it: queued, between the folders and the spawn, while the plugin ran or
    while its last output was read, and whatever happens afterwards. A cancel of a job of
    another share changes nothing and answers that there is none. *)
Theorem import_cancel_stops a s share_id job_id req now s1 code : import_cancel a s share_id job_id req now = (s1, code) ->
  (code = 204 -> not_publishing job_id s ->
     im_jobs (i_mgr s1) !! job_id = None /\
     forall s2, rtc (id_unused a job_id) s1 s2 -> exists l, i_log s2 = i_log s ++ l /\ Forall (fun p => pb_id p <> job_id) l) /\
  (forall j, im_jobs (i_mgr s) !! job_id = Some j -> jb_share_id j <> share_id -> code <> 204 /\ im_jobs (i_mgr s1) !! job_id = Some j).
Proof.
  intros Hc. split.
  - intros Hcode Hnp. unfold import_cancel in Hc. destruct (import_gates _ _ _ _ _) as [x | e] eqn:Eg.
    2: { injection Hc as _ Hc. apply gates_code in Eg. lia. }
    destruct (cancel (i_mgr s) share_id job_id) as [[m done'] pid] eqn:Ec.
    destruct done'; injection Hc as <- Hcode'; [| lia].
    assert (Hm : im_jobs m !! job_id = None).
    { unfold cancel in Ec. destruct (im_jobs (i_mgr s) !! job_id); [case_bool_decide |]; simplify_eq/=; try done. apply lookup_delete_eq. }
    set (s1 := match pid with Some p => kill_group (i_with_mgr s m) p | None => i_with_mgr s m end).
    assert (Hs1 : i_mgr s1 = m /\ i_log s1 = i_log s /\ i_pc s1 = i_pc s).
    { unfold s1. destruct pid; [| done]. unfold kill_group. destruct (i_child _); [| done]. by destruct (_ && _). }
    destruct Hs1 as (E1 & E2 & E3). split; [by rewrite E1 |].
    assert (Hnp1 : not_publishing job_id s1) by (unfold not_publishing; by rewrite E3).
    rewrite <- E2. assert (Hid : im_jobs (i_mgr s1) !! job_id = None) by (by rewrite E1). clearbody s1. clear -Hid Hnp1.
    intros s2 Hr. revert Hid Hnp1. induction Hr as [x | x s' s2 [[now Hs] Hid'] _ IH]; intros Hid Hnp; [exists []; by rewrite app_nil_r |].
    destruct (cancelled_step _ _ _ _ _ Hs Hid Hnp) as (Hnp' & l & El & Hl). destruct (IH Hid' Hnp') as (l' & El' & Hl').
    exists (l ++ l'). rewrite El', El, <- app_assoc. split; [done | by apply Forall_app].
  - intros j Hj Hne. unfold import_cancel, cancel in Hc. destruct (import_gates _ _ _ _ _) as [x | e] eqn:Eg.
    + rewrite Hj, bool_decide_eq_false_2 in Hc by done. injection Hc as <- <-. by split.
    + injection Hc as <- <-. apply gates_code in Eg. split; [lia | done].
Qed.

(** ** Order, limits, and what is not limited *)

(** Jobs start in the order they were accepted: the one the runner takes up is the first of
    the queue, those before it having been cancelled, and it is run with its own request. *)
Theorem import_fifo a s now inp s' id spec dir : import_reach a s -> runner_step digest now s inp = Some s' ->
  i_pc s' = RMkJob id spec dir -> pc_job (i_pc s) <> Some id ->
  exists gone j, im_queue (i_mgr s) = gone ++ id :: im_queue (i_mgr s') /\ (forall x, x ∈ gone -> im_jobs (i_mgr s) !! x = None) /\
    im_jobs (i_mgr s) !! id = Some j /\ jb_spec j = Some spec /\ accepted a spec.
Proof.
  intros Hr Hs Hpc Hne. destruct (reach_table_ok _ _ Hr) as [Hok _]. pose proof (reach_import_ok _ _ Hr) as Himp.
  assert (Hgen : forall m x sfx, (forall y, y ∈ im_queue m -> im_jobs m !! y = im_jobs (i_mgr s) !! y) -> im_queue m = im_queue (i_mgr s) ->
    jobs_ok (im_jobs m) (im_queue m) None -> i_mgr x = m -> runner_loop x sfx = s' ->
    exists gone j, im_queue (i_mgr s) = gone ++ id :: im_queue (i_mgr s') /\ (forall x, x ∈ gone -> im_jobs (i_mgr s) !! x = None) /\
      im_jobs (i_mgr s) !! id = Some j /\ jb_spec j = Some spec).
  { intros m x sfx Hj Hq Hm Ex <-. pose proof (next_job_spec _ _ Hm) as Hn. revert Hpc. unfold runner_loop. rewrite Ex.
    destruct (next_job _ _) as [[jobs' queue'] [[id' spec'] |]]; cbn; [| done]. intros [= -> -> _].
    destruct Hn as (gone & j & Hqq & Hg & Hl & _ & Hsp & _). exists gone, j. rewrite <- Hq. split_and!; try done.
    - intros y Hy. rewrite <- Hj; [by apply Hg |]. rewrite Hqq. apply elem_of_app. by left.
    - rewrite <- Hj; [done |]. rewrite Hqq. apply elem_of_app. right. by left. }
  assert (Hend : exists gone j, im_queue (i_mgr s) = gone ++ id :: im_queue (i_mgr s') /\ (forall x, x ∈ gone -> im_jobs (i_mgr s) !! x = None) /\
      im_jobs (i_mgr s) !! id = Some j /\ jb_spec j = Some spec).
  2: { destruct Hend as (gone & j & H1 & H2 & H3 & H4). exists gone, j. split_and!; try done. by eapply Himp. }
  unfold runner_step in Hs.
  destruct (i_pc s) as [| i sp d | i sp d | i sp d st k | i sp d st cap k | i sp d st k | i sp d ex k | i sp d
    | i sp d pm todo pub ori | i d out] eqn:Epc; destruct inp; try done.
  - destruct (im_permit _); [| done]. apply Some_inj in Hs. by refine (Hgen (set_permit (i_mgr s) false) _ _ _ _ Hok _ Hs).
  - exfalso. destruct (create_dir_all _ _ _) as [dd ok]. injection Hs as <-. by destruct ok.
  - exfalso. destruct (create_dir_all _ _ _) as [dd ok]. injection Hs as <-. destruct ok; [by destruct pid | done].
  - exfalso. destruct (i_child s ≫= ch_exit); [| done]. by injection Hs as <-.
  - exfalso. assert (Hw : forall k c, i_pc (watched s i sp d st k c) <> RMkJob id spec dir).
    { intros k' c. destruct (watched_stage s i sp d st k' c) as (_ & _ & _ & _ & pc & -> & Hp). by destruct Hp as [-> | ->]. }
    destruct (negb _); [injection Hs as <-; by eapply Hw |]. destruct (_ <=? _); [injection Hs as <-; by eapply Hw |].
    destruct (js_max_total_bytes sp); injection Hs as <-; [done | by eapply Hw].
  - exfalso. injection Hs as <-. revert Hpc. match goal with |- context [watched _ _ _ _ _ ?k ?c] => destruct (watched_stage s i sp d st k c) as (_ & _ & _ & _ & pc & -> & Hp) end.
    by destruct Hp as [-> | ->].
  - exfalso. by injection Hs as <-.
  - exfalso. destruct (i_child s) as [c |]; [| done]. destruct (_ || _); [done |]. injection Hs as <-. revert Hpc. cbn.
    destruct (negb _); [done |]. destruct k; [done |]. by destruct ex as [[|] |].
  - exfalso. injection Hs as <-. revert Hpc. cbn. destruct ok; [| done]. cbn [negb]. by destruct (job_names _ _).
  - exfalso. destruct todo as [| name todo]; [by injection Hs as <- |]. destruct (publish_one _ _ _ _ _ _ _) as [[w f] | e]; by injection Hs as <-.
  - apply Some_inj in Hs. pose proof (finish_ok now out i _ _ Hok) as Hf. refine (Hgen (set_jobs (i_mgr s) (alter (finish_job now out) i (im_jobs (i_mgr s)))) _ _ _ eq_refl Hf _ Hs); [| reflexivity].
    intros y Hy. cbn. apply lookup_alter_ne. intros ->. destruct Hok as (_ & Hq & _). by apply (Hq y).
Qed.

(** The time limit: a plugin that is over it, or a job that was cancelled, is dead after the
    next turn of the watchdog, and its job goes on to its end with that as its error. *)
Theorem import_watchdog now now1 now2 s id spec dir started kill c :
  i_pc s = RWatch id spec dir started kill -> i_child s = Some c ->
  has_job s id = false \/ js_timeout spec <= now - started ->
  exists s1 s2 s3 kill', runner_step digest now s InTick = Some s1 /\ (is_Some (i_child s1 ≫= ch_exit)) /\
    runner_step digest now1 s1 InKilled = Some s2 /\ runner_step digest now2 s2 (InExit true) = Some s3 /\
    i_pc s3 = RDrain id spec dir (Some (default ExitFail (ch_exit c))) kill' /\
    (has_job s id = true -> kill' = Some (JeTimeout (js_timeout spec / 60000))).
Proof.
  intros Hpc Hch Hover.
  assert (Ht : exists kill', runner_step digest now s InTick = Some (i_with_pc (kill_child s) (RKill id spec dir started kill')) /\
    (has_job s id = true -> kill' = Some (JeTimeout (js_timeout spec / 60000)))).
  { unfold runner_step. rewrite Hpc. destruct (has_job s id) eqn:Eh; cbn [negb]; [| by exists kill].
    destruct Hover as [? | Hover]; [done |]. rewrite (proj2 (Z.leb_le _ _) Hover). eexists. split; [reflexivity | done]. }
  destruct Ht as (kill' & Ht & Hk). eexists _, _, _, kill'. split; [exact Ht |]. split; [cbn; rewrite Hch; by eexists |].
  split; [reflexivity |]. split; [unfold runner_step; cbn; rewrite Hch; reflexivity |]. split; [first [done | cbn; by rewrite Hch] | done].
Qed.

(** A process that outlives the plugin and keeps its output open holds up all imports:
    while the runner waits for the pipes no time limit applies and no cancel helps, only the
    closing of the pipe or a restart of the agent. *)
Theorem orphan_blocks_imports a now s s' id spec dir ex kill c :
  import_step a now s s' -> i_pc s = RDrain id spec dir ex kill -> i_child s = Some c -> ch_out c = true ->
  (i_pc s' = i_pc s /\ exists c', i_child s' = Some c' /\ ch_out c' = true) \/
  plugin_step s PlCloseOut = Some s' \/ exists config, i_mgr s' = manager_new config.
Proof.
  intros Hs Hpc Hch Ho.
  assert (Hsame : forall s1, i_pc s1 = i_pc s -> (exists c', i_child s1 = Some c' /\ ch_out c' = true) ->
    (i_pc s1 = i_pc s /\ exists c', i_child s1 = Some c' /\ ch_out c' = true) \/ plugin_step s PlCloseOut = Some s1 \/ exists config, i_mgr s1 = manager_new config).
  { intros s1 E1 E2. by left. }
  assert (Hc0 : exists c', i_child s = Some c' /\ ch_out c' = true) by (by exists c).
  destruct Hs as [share_id req body st Hb | st before after lookup id' m ans Est _ Hq Hc Hf | share_id job_id req s' ans Hs
    | share_id job_id req s' ans Hs | config | inp s' Hs | ev s' Hs | d dir' _ _ _ | w _ | config w stuck roots _]; try by apply Hsame.
  - unfold import_status in Hs. destruct (import_gates _ _ _ _ _); injection Hs as <- <-; by apply Hsame.
  - unfold import_cancel in Hs. destruct (import_gates _ _ _ _ _); [| injection Hs as <- <-; by apply Hsame].
    destruct (cancel (i_mgr s) share_id job_id) as [[m done'] pid]. destruct done'; injection Hs as <- <-; [| by apply Hsame].
    destruct pid; [| by apply Hsame]. unfold kill_group. cbn. rewrite Hch. destruct (_ && _); [| by apply Hsame].
    apply Hsame; [done |]. unfold kill_child. cbn. rewrite Hch. by eexists.
  - unfold runner_step in Hs. rewrite Hpc in Hs. destruct inp; try done. by rewrite Hch, Ho in Hs.
  - assert (Hs0 := Hs). unfold plugin_step in Hs. rewrite Hch in Hs. cbn [mbind option_bind] in Hs. destruct ev.
    + rewrite Ho in Hs. destruct (pc_job (i_pc s)); [| injection Hs as <-; by apply Hsame]. destruct (parse_progress _); injection Hs as <-; by apply Hsame.
    + destruct (ch_err c); [| done]. injection Hs as <-. apply Hsame; [done |]. by eexists.
    + right. by left.
    + injection Hs as <-. apply Hsame; [done |]. by eexists.
    + destruct (ch_exit c); [done |]. injection Hs as <-. apply Hsame; [done |]. by eexists.
  - right. right. by exists config.
Qed.

End routes.

(** ** The sweep *)

(** The sweep at the start removes exactly the leftovers it can reach: what lies in a job
    folder of a former run, and upload temp files wherever they are; no other file. *)
Theorem sweep_exact d root stuck p f : d_files (sweep_share_root d root stuck) !! p = Some f <->
  d_files d !! p = Some f /\
  ~ (stuck p = false /\ exists rel, p = root ++ rel /\
       (Exists (fun c => starts_with JOB_DIR_PREFIX c = true) (removelast rel) \/ exists name, last rel = Some name /\ starts_with UPLOAD_TEMP_PREFIX name = true)).
Proof.
  cbn. rewrite map_lookup_filter_Some. cbn [fst].
  assert (Hl : leftover root p false = true <-> exists rel, p = root ++ rel /\
    (Exists (fun c => starts_with JOB_DIR_PREFIX c = true) (removelast rel) \/ exists name, last rel = Some name /\ starts_with UPLOAD_TEMP_PREFIX name = true)).
  { unfold leftover. destruct (strip_path root p) as [rel |] eqn:E.
    - apply strip_path_spec in E. rewrite orb_true_iff, existsb_exists. split.
      + intros Hx. exists rel. split; [done |]. destruct Hx as [(x & Hx & Hs) | Hx]; [left; apply Exists_exists; exists x; by rewrite list_elem_of_In |].
        right. destruct (last rel) as [name |]; [by exists name | done].
      + intros (rel' & E' & Hx). assert (rel' = rel) as -> by (rewrite E in E'; by apply app_inv_head in E').
        destruct Hx as [Hx | (name & -> & Hx)]; [left | by right]. apply Exists_exists in Hx as (x & Hx & Hs). exists x. by rewrite <- list_elem_of_In.
    - split; [done |]. intros (rel & -> & _). assert (strip_path root (root ++ rel) = Some rel) by (by apply strip_path_spec). congruence. }
  rewrite <- Hl. split; intros [Hf Hx]; (split; [done |]).
  - intros [Hs Hlo]. by rewrite Hs, Hlo in Hx.
  - apply andb_false_iff. destruct (leftover root p false); [right | by left]. destruct (stuck p); [done |]. by destruct Hx.
Qed.

(** ** Decoding the plugin's output *)

Lemma utf8_cons_ascii b l : in_rng 0 0x7F b = true -> utf8_valid (b :: l) = utf8_valid l.
Proof. intros E. cbn. by rewrite E. Qed.

Lemma fffd_valid l : utf8_valid (FFFD ++ l) = utf8_valid l.
Proof. by apply utf8_valid_app. Qed.

Lemma in_rng_disjoint a b c d x : b < c -> in_rng c d x = true -> in_rng a b x = false.
Proof. unfold in_rng. lia. Qed.

(** What the plugin prints is read as valid text whatever its bytes, and valid text is read
    as it is. *)
Theorem lossy_valid (l : bytes) : utf8_valid (lossy l) = true /\ (utf8_valid l = true -> lossy l = l).
Proof.
  remember (length l) as n eqn:En. assert (Hn : (length l <= n)%nat) by lia. clear En. revert l Hn.
  induction n as [| n IH]; intros [| b0 r0] Hn; cbn [length] in Hn; try lia; [done | done |].
  assert (IH0 := IH r0 ltac:(lia)). cbn [lossy utf8_valid].
  destruct (in_rng 0 0x7F b0) eqn:E0.
  { rewrite utf8_cons_ascii by done. split; [apply IH0 | intros H; f_equal; by apply IH0]. }
  assert (Hbad : forall x, utf8_valid (lossy x) = true -> utf8_valid (FFFD ++ lossy x) = true) by (intros x; by rewrite fffd_valid).
  destruct r0 as [| b1 r1]; cbn [length] in Hn.
  { destruct (in_rng 0xC2 0xDF b0), (in_rng 0xE0 0xEF b0), (in_rng 0xF0 0xF4 b0); done. }
  destruct (in_rng 0xC2 0xDF b0) eqn:E2.
  { destruct (cont b1) eqn:E1; [| split; [by apply Hbad, IH0 | done]]. cbn [andb].
    pose proof (IH r1 ltac:(lia)) as [V1 L1]. split; [cbn [utf8_valid]; by rewrite E0, E2, E1 | intros H; by rewrite L1]. }
  destruct (in_rng 0xE0 0xEF b0) eqn:E3.
  { destruct (second3 b0 b1) eqn:E1; [| split; [by apply Hbad, IH0 | by destruct r1]].
    destruct r1 as [| b2 r2]; [done |]. cbn [length] in Hn. destruct (cont b2) eqn:Ec; [| split; [apply Hbad, IH; cbn [length]; lia | done]].
    cbn [andb]. pose proof (IH r2 ltac:(lia)) as [V1 L1]. split; [cbn [utf8_valid]; by rewrite E0, E2, E3, E1, Ec | intros H; by rewrite L1]. }
  destruct (in_rng 0xF0 0xF4 b0) eqn:E4.
  - destruct (second4 b0 b1) eqn:E1; [| split; [by apply Hbad, IH0 | by destruct r1 as [| ? [| ? ?]]]].
    destruct r1 as [| b2 r2]; [done |]. cbn [length] in Hn. destruct (cont b2) eqn:Ec; [| split; [apply Hbad, IH; cbn [length]; lia | by destruct r2]].
    destruct r2 as [| b3 r3]; [done |]. cbn [length] in Hn. destruct (cont b3) eqn:Ec3; [| split; [apply Hbad, IH; cbn [length]; lia | done]].
    cbn [andb]. pose proof (IH r3 ltac:(lia)) as [V1 L1]. split; [cbn [utf8_valid]; by rewrite E0, E2, E3, E1, Ec, Ec3 | intros H; by rewrite L1].
  - split; [by apply Hbad, IH0 |]. destruct r1 as [| b2 [| b3 r3]]; try done. unfold second4. intros H. exfalso. revert H E4.
    unfold in_rng. repeat case_match; bool_props; lia.
Qed.

(** ** Runs *)

Inductive ICmd :=
| CBegin (share_id : bytes) (req : Request) (body : ImportReq)
| CFinish (lookup : bytes -> option (list IpAddr)) (id : bytes)
| CCancel (share_id job_id : bytes) (req : Request)
| CRunner (inp : RunnerIn)
| CPlugin (ev : PluginEvent)
| CWrites (name : bytes) (f : DFile).

Section exec.
Context (B : Base64) (E : Ed25519) (url_decode : bytes -> option bytes) (token_of_json : bytes -> option ShareToken) (digest : bytes -> bytes) (a : AgentState).

Definition iexec (now : Z) (s : Importer) (c : ICmd) : option Importer :=
  match c with
  | CBegin share_id req body =>
      match @import_begin B E url_decode token_of_json a s share_id req body now with Ok st => Some (i_with_starts s (i_starts s ++ [st])) | Err _ => None end
  | CFinish lookup id =>
      match i_starts s with
      | st :: after =>
          if bool_decide (im_jobs (i_mgr s) !! id = None) && bool_decide (id ∉ im_queue (i_mgr s)) && bool_decide (pc_job (i_pc s) <> Some id)
          then Some (i_with_starts (i_with_mgr s (import_finish a (i_mgr s) st lookup id now).1) after) else None
      | [] => None
      end
  | CCancel share_id job_id req => Some (@import_cancel B E url_decode token_of_json a s share_id job_id req now).1
  | CRunner inp => runner_step digest now s inp
  | CPlugin ev => plugin_step s ev
  | CWrites name f =>
      match i_child s, pc_dir (i_pc s) with
      | Some _, Some dir => Some (i_with_world s (set_disk (i_world s) (set_files (w_disk (i_world s)) (<[dir ++ [name] := f]> (d_files (w_disk (i_world s)))))))
      | _, _ => None
      end
  end.

Lemma iexec_sound now s c s' : iexec now s c = Some s' -> @import_step B E url_decode token_of_json digest a now s s'.
Proof.
  destruct c as [share_id req body | lookup id | share_id job_id req | inp | ev | name f]; cbn [iexec].
  - destruct (import_begin _ _ _ _ _ _ _ _) as [st | e] eqn:Eb; [| done]. intros [= <-]. by eapply ip_begin.
  - destruct (i_starts s) as [| st after] eqn:Est; [done |].
    destruct (bool_decide (_ = None)) eqn:E1; [| done]. destruct (bool_decide (_ ∉ _)) eqn:E2; [| done]. destruct (bool_decide (_ <> _)) eqn:E3; [| done].
    apply bool_decide_eq_true in E1, E2, E3. cbn [andb]. intros [= <-]. destruct (import_finish a (i_mgr s) st lookup id now) as [m ans] eqn:Ef.
    by apply (ip_finish _ _ _ _ _ _ st [] after lookup id m ans).
  - destruct (import_cancel _ _ _ _ _ _ _ _) as [s1 code] eqn:Ec. intros [= <-]. by eapply ip_cancel.
  - by intros; eapply ip_runner.
  - by intros; eapply ip_plugin.
  - destruct (i_child s) eqn:Ech; [| done]. destruct (pc_dir (i_pc s)) as [dir |] eqn:Ed; [| done]. intros [= <-].
    eapply ip_plugin_writes; [by rewrite Ech | done |]. intros p Hp. split; [| done]. apply lookup_insert_ne. intros <-.
    apply negb_true_iff in Hp. unfold under in Hp. assert (strip_path dir (dir ++ [name]) = Some [name]) as Es by (by apply strip_path_spec). by rewrite Es in Hp.
Qed.

Fixpoint irun (cs : list (Z * ICmd)) (s : Importer) : option Importer :=
  match cs with [] => Some s | (t, c) :: cs => s ← iexec t s c; irun cs s end.

Lemma irun_reach cs : forall s s', irun cs s = Some s' -> @import_reach B E url_decode token_of_json digest a s -> @import_reach B E url_decode token_of_json digest a s'.
Proof.
  induction cs as [| [t c] cs IH]; intros s s'; cbn [irun]; [by intros [= <-] |].
  destruct (iexec t s c) as [s1 |] eqn:Ex; [| done]. cbn [mbind option_bind]. intros Hr Hs. apply (IH s1); [done |]. eapply ir_next; [done |]. by eapply iexec_sound.
Qed.

End exec.

(** ** Examples: one import, from the request to the file in the share *)

Definition exi_token : ShareToken := @sign_share_token toy_base64 toy_ed25519 ex_hub (str "s") (str "share:import") 9.
Definition exi_json (b : bytes) : option ShareToken := if bool_decide (b = str "t") then Some exi_token else None.
Definition exi_agent : AgentState := {| ag_hub_key := ex_hub; ag_identity := None; ag_max_file_mb := Some 1 |}.
Definition exi_world : World :=
  {| w_disk := {| d_files := ∅; d_dirs := {[ []; [str "d"] ]} |}; w_cache := ∅; w_index := ∅;
     w_shares := {[str "s" := {| sh_path := [str "d"]; sh_is_file := false; sh_writable := true; sh_import := true |}]} |}.
Definition exi_start : Importer :=
  {| i_mgr := manager_new (Some reference); i_world := exi_world; i_pc := RWait; i_child := None; i_starts := []; i_log := [] |}.
Definition exi_req : Request := {| rq_headers := [(str "authorization", str "Bearer t")]; rq_query := None; rq_body := [] |}.
Definition exi_body : ImportReq := {| iq_url := str "https://youtu.be/x"; iq_dest := str "v"; iq_height := Some 720 |}.
Definition exi_id : bytes := str "j1".
Definition exi_file : DFile := {| df_data := [1; 2; 3]; df_mtime := 5 |}.

Definition exi_cmds : list (Z * ICmd) :=
  [(3000, CBegin (str "s") exi_req exi_body); (3100, CFinish ex_lookup exi_id); (3101, CRunner (InNotified (str "7")));
   (3102, CRunner (InMkdir None)); (3103, CRunner (InSpawn None (Some 42))); (3104, CRunner InTick); (3105, CRunner (InSize (fun _ => false)));
   (3200, CPlugin (PlLine (str "xr-progress 42.5"))); (3300, CWrites (str "clip.mp4") exi_file); (3301, CWrites (str ".part") exi_file);
   (3302, CWrites (str "b.mp4") exi_file); (3400, CPlugin (PlExit ExitOk)); (3400, CPlugin PlCloseOut); (3400, CPlugin PlCloseErr); (3401, CRunner (InExit true));
   (3402, CRunner InDrained); (3403, CRunner (InReadDir true true)); (3404, CRunner (InPublish None true true))].
Definition exi_rest : list (Z * ICmd) :=
  [(3405, CRunner (InPublish None true true)); (3406, CRunner (InPublish None true true)); (3407, CRunner (InRemoved true (fun _ => false) (str "8")))].

Abbreviation exi_run := (irun toy_base64 toy_ed25519 Some exi_json (fun d => d) exi_agent).
Abbreviation exi_reach := (@import_reach toy_base64 toy_ed25519 Some exi_json (fun d => d) exi_agent).

Definition exi_publishing : Importer := default exi_start (exi_run exi_cmds exi_start).
Definition exi_done : Importer := default exi_start (exi_run (exi_cmds ++ exi_rest) exi_start).

Lemma exi_reached cs s : exi_run cs exi_start = Some s -> exi_reach s.
Proof. intros Hr. eapply irun_reach; [exact Hr |]. exact (ir_start Some exi_json (fun d => d) exi_agent (Some reference) exi_world). Qed.

Lemma exi_done_reach : exi_reach exi_done.
Proof. apply (exi_reached (exi_cmds ++ exi_rest)). vm_compute. reflexivity. Qed.

Lemma exi_publishing_reach : exi_reach exi_publishing.
Proof. apply (exi_reached exi_cmds). vm_compute. reflexivity. Qed.

Definition ex_show (s : Importer) :=
  (i_pc s, im_jobs (i_mgr s) !! exi_id, map pb_target (i_log s), map fst (map_to_list (d_files (w_disk (i_world s))))).

Lemma import_table_witness :
  exists j, im_jobs (i_mgr exi_publishing) !! exi_id = Some j /\ jb_state j = Running /\ (jb_state j = Running <-> pc_job (i_pc exi_publishing) = Some exi_id).
Proof.
  destruct (@import_table toy_base64 toy_ed25519 Some exi_json (fun d => d) exi_agent exi_publishing exi_publishing_reach) as (_ & H & _).
  destruct (im_jobs (i_mgr exi_publishing) !! exi_id) as [j |] eqn:Ej; [| exfalso; vm_compute in Ej; discriminate Ej].
  exists j. split; [reflexivity |]. split; [| exact (proj1 (H exi_id j Ej))]. apply (proj1 (H exi_id j Ej)). vm_compute. reflexivity.
Defined.


Definition exi_next : Importer := default exi_start (runner_step (fun d => d) 3405 exi_publishing (InPublish None true true)).

Lemma import_writes_whole_witness :
  exists p, i_log exi_next = i_log exi_publishing ++ [p] /\ pb_target p = [str "d"; str "v"; str "clip.mp4"] /\
    d_files (w_disk (i_world exi_next)) !! [str "d"; str "v"; str "clip.mp4"] = Some (pb_file p).
Proof.
  destruct (@import_writes_whole toy_base64 toy_ed25519 Some exi_json (fun d => d) exi_agent exi_publishing 3405 (InPublish None true true) exi_next
    [str "d"; str "v"; str "clip.mp4"] exi_publishing_reach) as [[_ H] | (p & Hl & _ & H)].
  - vm_compute. reflexivity.
  - vm_compute. reflexivity.
  - exfalso. vm_compute in H. discriminate H.
  - exists p. split; [exact Hl |].
    assert (Ht : pb_target p = [str "d"; str "v"; str "clip.mp4"]).
    { apply (f_equal last) in Hl. rewrite last_snoc in Hl. transitivity (default [] (pb_target <$> last (i_log exi_next))); [rewrite Hl; reflexivity | vm_compute; reflexivity]. }
    split; [exact Ht | exact (proj1 (H Ht))].
Defined.

(** Cancelled while the plugin runs. *)
Definition exi_watching : Importer := default exi_start (exi_run (take 11 exi_cmds) exi_start).
Definition exi_cancelled : Importer := (@import_cancel toy_base64 toy_ed25519 Some exi_json exi_agent exi_watching (str "s") exi_id exi_req 3303).1.

Lemma import_cancel_stops_witness : im_jobs (i_mgr exi_cancelled) !! exi_id = None /\
  forall s2, rtc (@id_unused toy_base64 toy_ed25519 Some exi_json (fun d => d) exi_agent exi_id) exi_cancelled s2 ->
    exists l, i_log s2 = i_log exi_watching ++ l /\ Forall (fun p => pb_id p <> exi_id) l.
Proof.
  refine (proj1 (@import_cancel_stops toy_base64 toy_ed25519 Some exi_json (fun d => d) exi_agent exi_watching (str "s") exi_id exi_req 3303 exi_cancelled 204 _) _ _).
  - vm_compute. reflexivity.
  - reflexivity.
  - vm_compute. exact I.
Defined.

(** A cancel that hits the publication is answered with success, and the files that were
    left are published all the same; and the kill it sends goes to the number of a process
    that has ended and been waited for, which the system may have given to another. *)
Theorem cancel_during_publish :
  let s := exi_publishing in
  let '(m, ok, pid) := cancel (i_mgr s) (str "s") exi_id in
  ok = true /\ pid = Some 42 /\ (i_child s ≫= ch_exit) = Some ExitOk /\
  let s1 := (@import_cancel toy_base64 toy_ed25519 Some exi_json exi_agent s (str "s") exi_id exi_req 3405).1 in
  im_jobs (i_mgr s1) !! exi_id = None /\
  map pb_target (i_log (default s1 (runner_step (fun d => d) 3406 s1 (InPublish None true true)))) = [[str "d"; str "v"; str "b.mp4"]; [str "d"; str "v"; str "clip.mp4"]].
Proof. vm_compute. split_and!; reflexivity. Qed.

Definition exi_queued : Importer := default exi_start (exi_run (take 2 exi_cmds) exi_start).

Lemma import_fifo_witness : exists spec dir gone j,
  im_queue (i_mgr exi_queued) = gone ++ [exi_id] /\ im_jobs (i_mgr exi_queued) !! exi_id = Some j /\ jb_spec j = Some spec /\ last dir = Some (str ".xr-import-7").
Proof.
  assert (E : exists spec dir, i_pc (default exi_start (runner_step (fun d => d) 3101 exi_queued (InNotified (str "7")))) = RMkJob exi_id spec dir /\ last dir = Some (str ".xr-import-7")).
  { eexists _, _. split; vm_compute; reflexivity. }
  destruct E as (spec & dir & E & Ed).
  destruct (@import_fifo toy_base64 toy_ed25519 Some exi_json (fun d => d) exi_agent exi_queued 3101 (InNotified (str "7"))
    (default exi_start (runner_step (fun d => d) 3101 exi_queued (InNotified (str "7")))) exi_id spec dir) as (gone & j & H1 & _ & H3 & H4 & _).
  - apply (exi_reached (take 2 exi_cmds)). vm_compute. reflexivity.
  - vm_compute. reflexivity.
  - exact E.
  - vm_compute. discriminate.
  - exists spec, dir, gone, j. split; [exact H1 |]. split; [exact H3 |]. split; [exact H4 | exact Ed].
Defined.

Definition exi_spec : JobSpec := match i_pc exi_watching with RWatch _ spec _ _ _ => spec | _ => start_spec exi_agent {| st_share := []; st_root := []; st_dest := []; st_link := []; st_want := None; st_cfg := reference |} {| ip_name := []; ip_patterns := []; ip_max_height := 0; ip_cmd := []; ip_args := [] |} 0 end.

Lemma import_watchdog_witness : exists s1 s2 s3 kill',
  runner_step (fun d => d) 1803103 exi_watching InTick = Some s1 /\ runner_step (fun d => d) 1803104 s1 InKilled = Some s2 /\
  runner_step (fun d => d) 1803105 s2 (InExit true) = Some s3 /\ kill' = Some (JeTimeout 30).
Proof.
  destruct (import_watchdog (fun d => d) 1803103 1803104 1803105 exi_watching exi_id exi_spec [str "d"; str ".xr-import-7"] 3103 None
    {| ch_pid := 42; ch_exit := None; ch_out := true; ch_err := true; ch_tail := [] |}) as (s1 & s2 & s3 & kill' & H1 & _ & H3 & H4 & _ & H6).
  - vm_compute. reflexivity.
  - vm_compute. reflexivity.
  - right. vm_compute. discriminate.
  - exists s1, s2, s3, kill'. split; [exact H1 |]. split; [exact H3 |]. split; [exact H4 |]. rewrite H6; vm_compute; reflexivity.
Defined.

(** The plugin has ended well, but a process it left behind holds the pipe. *)
Definition exi_orphan : Importer := default exi_start (exi_run (take 12 exi_cmds ++ [(3401, CRunner (InExit true))]) exi_start).

Lemma orphan_blocks_imports_witness :
  let s' := (@import_cancel toy_base64 toy_ed25519 Some exi_json exi_agent exi_orphan (str "s") exi_id exi_req 9999999).1 in
  i_pc s' = i_pc exi_orphan.
Proof.
  cbv zeta.
  destruct (@orphan_blocks_imports toy_base64 toy_ed25519 Some exi_json (fun d => d) exi_agent 9999999 exi_orphan
    (@import_cancel toy_base64 toy_ed25519 Some exi_json exi_agent exi_orphan (str "s") exi_id exi_req 9999999).1 exi_id exi_spec [str "d"; str ".xr-import-7"]
    (Some ExitOk) None {| ch_pid := 42; ch_exit := Some ExitOk; ch_out := true; ch_err := true; ch_tail := [] |}) as [[H _] | [H | [config H]]].
  - eapply ip_cancel. exact (surjective_pairing _).
  - vm_compute. reflexivity.
  - vm_compute. reflexivity.
  - reflexivity.
  - exact H.
  - exfalso. vm_compute in H. discriminate H.
  - vm_compute. reflexivity.
Defined.
