(* ===== verification/Http.v ===== *)
(** * HTTP headers at the two ends of a publication

    The header map of the [http] crate and the URL-safe base64 engine are
    interfaces, stated as the sources use them: names are lower case, a name has
    its values in order, [insert] replaces them, [remove] drops them. Shared by the
    browser front (xr-web) and the gate of the agent (xr-share/src/expose.rs). *)

From S2P Require Import Prelude Text UserRule Share.

(** ** The interfaces *)

Class HeaderMap (M : Type) := {
  get_all : M -> bytes -> list bytes;
  hm_insert : bytes -> bytes -> M -> M;
  hm_remove : bytes -> M -> M;
  get_all_insert n v h m : get_all (hm_insert n v h) m = if decide (m = n) then [v] else get_all h m;
  get_all_remove n h m : get_all (hm_remove n h) m = if decide (m = n) then [] else get_all h m
}.

(** The characters a header value may hold as text: tab and the visible ASCII. *)
Definition is_text (b : Z) : Prop := b = 9 \/ 32 <= b < 127.

(** [HeaderValue::to_str] and [HeaderValue::from_str]. *)
Class HeaderText := {
  to_str : bytes -> option bytes;
  from_str : bytes -> option bytes;
  to_str_some v s : to_str v = Some s -> s = v /\ Forall is_text s;
  to_str_text v : Forall is_text v -> to_str v = Some v;
  from_str_some s v : from_str s = Some v -> v = s;
  from_str_text s : Forall is_text s -> from_str s = Some s
}.

(** The alphabet of the URL-safe engine without padding. *)
Definition url64_char (b : Z) : Prop := 65 <= b <= 90 \/ 97 <= b <= 122 \/ 48 <= b <= 57 \/ b = 45 \/ b = 95.

Class UrlBase64 := {
  url64_encode : bytes -> bytes;
  url64_decode : bytes -> option bytes;
  url64_roundtrip b : bytes_ok b -> url64_decode (url64_encode b) = Some b;
  url64_chars b : Forall url64_char (url64_encode b)
}.

Lemma is_text_ascii b : is_text b -> is_ascii b.
Proof. unfold is_text, is_ascii. lia. Qed.

Lemma text_ascii l : Forall is_text l -> Forall is_ascii l.
Proof. intros Hl. eapply Forall_impl; [exact Hl | exact is_text_ascii]. Qed.

Lemma url64_text b : url64_char b -> is_text b.
Proof. unfold url64_char, is_text. lia. Qed.

Lemma url64_graph b : url64_char b -> is_graph b.
Proof. unfold url64_char, is_graph. lia. Qed.

(** A decidable form of [is_text], for the constants. *)
Definition is_textb (b : Z) : bool := (b =? 9) || in_rng 32 126 b.

Lemma textb_spec l : forallb is_textb l = true -> Forall is_text l.
Proof.
  induction l as [| b l IH]; cbn [forallb]; [constructor |]. intros [Hb Hl]%andb_prop. constructor; [| by apply IH].
  unfold is_textb, in_rng in Hb. unfold is_text. lia.
Qed.

(** ** What the sources do with a header map *)

Section headers.
Context {M : Type} `{HeaderMap M} `{HeaderText}.
Implicit Types h : M.

(** [get]: the first value. *)
Definition hget h (n : bytes) : option bytes := head (get_all h n).

(** [get(n).and_then(|v| v.to_str().ok())] *)
Definition hget_str h (n : bytes) : option bytes := hget h n ≫= to_str.

Definition contains_key h (n : bytes) : bool := negb (bool_decide (get_all h n = [])).

(** [for name in names { headers.remove(name); }] *)
Definition remove_names (names : list bytes) h : M := foldl (fun h n => hm_remove n h) h names.

(** [if let Ok(value) = HeaderValue::from_str(s) { headers.insert(n, value); }] *)
Definition insert_str (n s : bytes) h : M := match from_str s with Some v => hm_insert n v h | None => h end.

(** [if let Some(v) = headers.remove(from) { headers.insert(to, v); }] *)
Definition move_header (n to : bytes) h : M :=
  let h' := hm_remove n h in match hget h n with Some v => hm_insert to v h' | None => h' end.

(** The upgrade a request asks for (xr-web/src/upgrade.rs, and the same test of
    xr-share/src/expose.rs): both headers, a token of [Connection] in any case. *)
Definition requested h : option bytes :=
  connection ← hget_str h (str "connection");
  if existsb (fun token => eq_ignore_ascii_case (trim token) (str "upgrade")) (split 44 connection) then
    upgrade ← hget_str h (str "upgrade");
    let proto := trim upgrade in
    if bool_decide (proto = []) then None else Some proto
  else None.

(** ** Lemmas *)

Lemma get_all_remove_names names h m :
  get_all (remove_names names h) m = if decide (m ∈ names) then [] else get_all h m.
Proof.
  revert h. induction names as [| n names IH]; intros h; cbn [remove_names foldl].
  - rewrite decide_False by apply not_elem_of_nil. done.
  - fold (remove_names names (hm_remove n h)). rewrite IH, get_all_remove.
    destruct (decide (m ∈ names)) as [Hin | Hin].
    + rewrite decide_True by (by right). done.
    + destruct (decide (m = n)) as [-> | Hne]; [rewrite decide_True by left; done |].
      rewrite decide_False; [done |]. by intros [? | ?]%elem_of_cons.
Qed.

Lemma get_all_insert_str n s h m :
  get_all (insert_str n s h) m = get_all h m \/ (m = n /\ get_all (insert_str n s h) m = [s]).
Proof.
  unfold insert_str. destruct (from_str s) as [v |] eqn:E; [| by left]. apply from_str_some in E as ->.
  rewrite get_all_insert. destruct (decide (m = n)); [by right | by left].
Qed.

Lemma get_all_insert_text n s h m :
  Forall is_text s -> get_all (insert_str n s h) m = if decide (m = n) then [s] else get_all h m.
Proof. intros Hs. unfold insert_str. rewrite from_str_text by done. apply get_all_insert. Qed.

Lemma get_all_insert_other n s h m : m <> n -> get_all (insert_str n s h) m = get_all h m.
Proof. intros Hne. by destruct (get_all_insert_str n s h m) as [E | [E _]]. Qed.

Lemma get_all_move n to h m : n <> to ->
  get_all (move_header n to h) m =
    if decide (m = n) then [] else if decide (m = to) then match hget h n with Some v => [v] | None => get_all h m end
    else get_all h m.
Proof.
  intros Hne. unfold move_header. destruct (hget h n) as [v |].
  - rewrite get_all_insert, get_all_remove. destruct (decide (m = to)) as [-> |].
    + by rewrite decide_False by done.
    + done.
  - rewrite get_all_remove. destruct (decide (m = n)); [done |]. by destruct (decide (m = to)).
Qed.

Lemma hget_str_some h n s : hget_str h n = Some s -> hget h n = Some s /\ Forall is_text s.
Proof.
  unfold hget_str. destruct (hget h n) as [v |]; [| done]. cbn. intros E.
  destruct (to_str_some v s E) as [-> Hs]. done.
Qed.

Lemma text_trim s : Forall is_text s -> Forall is_text (trim s).
Proof.
  intros Hs. unfold trim. destruct (trim_end_prefix (trim_start s)) as [p Hp].
  assert (Hst : Forall is_text (trim_start s)).
  { clear Hp p. induction Hs as [| b l Hb Hl IH]; [constructor |].
    rewrite trim_start_ascii by (by apply is_text_ascii). by destruct (ws1 b); [| constructor]. }
  rewrite Hp in Hst. by apply Forall_app in Hst as [? _].
Qed.

(** The protocol of an upgrade is text: both ends can declare it again. *)
Lemma requested_text h p : requested h = Some p -> Forall is_text p /\ p <> [] /\ trim p = p.
Proof.
  unfold requested. destruct (hget_str h (str "connection")) as [c |]; [| done]. cbn [mbind option_bind].
  destruct (existsb _ _); [| done]. destruct (hget_str h (str "upgrade")) as [u |] eqn:E; [| done]. cbn [mbind option_bind].
  case_bool_decide as Hne; [done |]. intros [= <-]. split_and!; [| done | apply trim_idem].
  apply text_trim. by apply hget_str_some in E as [_ ?].
Qed.
End headers.

(** ** A concrete header map, for the witnesses *)

Definition pairs_get (h : list (bytes * bytes)) (n : bytes) : list bytes :=
  map snd (filter (fun p => p.1 = n) h).
Definition pairs_remove (n : bytes) (h : list (bytes * bytes)) : list (bytes * bytes) :=
  filter (fun p => p.1 <> n) h.
Definition pairs_insert (n v : bytes) (h : list (bytes * bytes)) : list (bytes * bytes) := pairs_remove n h ++ [(n, v)].

Lemma pairs_get_remove n h m : pairs_get (pairs_remove n h) m = if decide (m = n) then [] else pairs_get h m.
Proof.
  unfold pairs_get, pairs_remove. induction h as [| [k v] h IH]; [by destruct (decide (m = n)) |].
  rewrite !filter_cons. cbn [fst]. destruct (decide (k <> n)) as [Hk | Hk].
  - rewrite filter_cons. cbn [fst]. destruct (decide (k = m)) as [-> | Hm].
    + cbn [map snd]. rewrite IH. by rewrite !decide_False by done.
    + apply IH.
  - apply dec_stable in Hk as ->. rewrite IH. destruct (decide (m = n)) as [-> | Hm]; [done |].
    by rewrite decide_False by done.
Qed.

Lemma pairs_get_insert n v h m : pairs_get (pairs_insert n v h) m = if decide (m = n) then [v] else pairs_get h m.
Proof.
  unfold pairs_insert, pairs_get. rewrite filter_app, map_app. fold (pairs_get (pairs_remove n h) m).
  rewrite pairs_get_remove. destruct (decide (m = n)) as [-> | Hm].
  - rewrite filter_cons_True by done. done.
  - rewrite filter_cons_False by (cbn; congruence). cbn. by rewrite app_nil_r.
Qed.

Definition pairs_headers : HeaderMap (list (bytes * bytes)) :=
  {| get_all := pairs_get; hm_insert := pairs_insert; hm_remove := pairs_remove;
     get_all_insert := pairs_get_insert; get_all_remove := pairs_get_remove |}.

Definition text_only (s : bytes) : option bytes := if forallb is_textb s then Some s else None.

Lemma text_only_some v s : text_only v = Some s -> s = v /\ Forall is_text s.
Proof. unfold text_only. destruct (forallb is_textb v) eqn:E; [| done]. intros [= <-]. by auto using textb_spec. Qed.

Lemma text_only_text s : Forall is_text s -> text_only s = Some s.
Proof.
  intros Hs. unfold text_only. replace (forallb is_textb s) with true; [done |]. symmetry. apply forallb_forall.
  intros b Hb%list_elem_of_In. rewrite Forall_forall in Hs. specialize (Hs b Hb). unfold is_text in Hs.
  unfold is_textb, in_rng. lia.
Qed.

Lemma text_only_eq s v : text_only s = Some v -> v = s.
Proof. intros E. by apply text_only_some in E as [-> _]. Qed.

Definition plain_text : HeaderText :=
  {| to_str := text_only; from_str := text_only; to_str_some := text_only_some; to_str_text := text_only_text; from_str_some := text_only_eq;
     from_str_text := text_only_text |}.

Lemma toy_url64_roundtrip b : bytes_ok b -> toy_decode (if bool_decide (bytes_ok b) then toy_encode b else []) = Some b.
Proof. exact (@b64_roundtrip toy_base64 b). Qed.

Lemma toy_url64_chars b : Forall url64_char (if bool_decide (bytes_ok b) then toy_encode b else []).
Proof.
  case_bool_decide as Hb; [| constructor]. induction Hb as [| x b Hx Hb IH]; [constructor |].
  unfold toy_encode, is_byte in *. cbn [map concat app].
  apply Forall_cons; split; [unfold url64_char; divmod |]. apply Forall_cons; split; [unfold url64_char; divmod | done].
Qed.

Definition toy_url64 : UrlBase64 :=
  {| url64_encode b := if bool_decide (bytes_ok b) then toy_encode b else []; url64_decode := toy_decode;
     url64_roundtrip := toy_url64_roundtrip; url64_chars := toy_url64_chars |}.
