(* ===== verification/WebSession.v ===== *)
(** * Sessions, login attempts and routes of the browser front
    (xr-web/src/session.rs, the counter of app.rs and the cache of hub.rs)

    The cookies a browser sends, the sessions kept in memory, the growing delay
    after wrong passwords and the cache of routes: the stores the front consults
    before a request reaches a machine. *)

From S2P Require Import Prelude Text UserRule Share Http.

(** ** Cookies *)

Definition COOKIE_NAME : bytes := str "xrweb".

Definition cookie_attrs (max_age_secs : Z) : bytes :=
  str "HttpOnly; Secure; SameSite=Lax; Path=/; Max-Age=" ++ show_dec max_age_secs.

Definition set_cookie (token : bytes) (ttl_secs : Z) : bytes :=
  COOKIE_NAME ++ str "=" ++ token ++ str "; " ++ cookie_attrs ttl_secs.

Definition clear_cookie : bytes := COOKIE_NAME ++ str "=; " ++ cookie_attrs 0.

Definition cookie_pair (raw : bytes) : option (bytes * option bytes) :=
  let pair := trim raw in
  if bool_decide (pair = []) then None
  else match split_once 61 pair with
       | Some (name, value) => Some (trim name, Some (trim value))
       | None => Some (pair, None)
       end.

Definition cookie_pairs (raw : bytes) : list (bytes * option bytes) := omap cookie_pair (split 59 raw).

Definition token_from_cookie_header (raw : bytes) : option bytes :=
  p ← List.find (fun p => bool_decide (p.1 = COOKIE_NAME)) (cookie_pairs raw); p.2.

Definition cookie_text (p : bytes * option bytes) : bytes :=
  match p.2 with Some value => p.1 ++ str "=" ++ value | None => p.1 end.

Definition cookie_header_without_session (raw : bytes) : option bytes :=
  let kept := map cookie_text (filter (fun p => p.1 <> COOKIE_NAME) (cookie_pairs raw)) in
  if bool_decide (kept = []) then None else Some (join (str "; ") kept).

(** *** Taking the session out keeps the rest *)

(** A pair as [cookie_pairs] yields it. *)
Definition pair_ok (p : bytes * option bytes) : Prop :=
  Forall is_text (cookie_text p) /\ (59 ∉ cookie_text p) /\ cookie_text p <> [] /\ (61 ∉ p.1) /\
  trim p.1 = p.1 /\ match p.2 with Some v => trim v = v | None => True end.

Lemma elem_of_trim b l : b ∈ trim l -> b ∈ l.
Proof.
  unfold trim. intros Hb. destruct (trim_end_prefix (trim_start l)) as [p Hp].
  assert (Hs : b ∈ trim_start l) by (rewrite Hp; by apply elem_of_app; left). clear p Hp Hb.
  assert (Hi : forall n l, (length l <= n)%nat -> b ∈ trim_start l -> b ∈ l); [| by apply (Hi (length l))].
  clear. induction n as [| n IH]; intros l Hl; [destruct l; [cbn; done | simpl in Hl; lia] |]. destruct l as [| b0 r0]; [done |].
  simpl in Hl. cbn [trim_start]. destruct (ws1 b0); [right; apply IH; [lia | done] |].
  destruct r0 as [| b1 r1]; [done |]. simpl in Hl.
  destruct (ws2 b0 b1); [right; right; apply IH; [lia | done] |].
  destruct r1 as [| b2 r2]; [done |]. simpl in Hl.
  destruct (ws3 b0 b1 b2); [right; right; right; apply IH; [lia | done] | done].
Qed.

Lemma cookie_pair_ok raw p : Forall is_text raw -> 59 ∉ raw -> cookie_pair raw = Some p -> pair_ok p.
Proof.
  intros Ha Hs. unfold cookie_pair. case_bool_decide as Hne; [done |].
  assert (Ht : Forall is_text (trim raw)) by (by apply text_trim).
  assert (H59 : 59 ∉ trim raw) by (intros Hin; by apply Hs, elem_of_trim).
  destruct (split_once 61 (trim raw)) as [[n v] |] eqn:E; intros Hp; apply Some_inj in Hp as <-.
  - apply split_once_spec in E as [E Hn]. rewrite E in Ht, H59. apply Forall_app in Ht as [Hna Hva].
    apply Forall_cons in Hva as [_ Hva]. unfold pair_ok, cookie_text. cbn [fst snd].
    change (str "=" ++ trim v) with (61 :: trim v). split_and!.
    + apply Forall_app. split; [by apply text_trim |]. constructor; [unfold is_text; lia | by apply text_trim].
    + intros [Hi | Hi]%elem_of_app; [apply H59; apply elem_of_app; left; by apply elem_of_trim |].
      apply elem_of_cons in Hi as [Hi | Hi]; [discriminate Hi |]. apply H59. apply elem_of_app. right. right. by apply elem_of_trim.
    + by destruct (trim n).
    + intros Hi. by apply Hn, elem_of_trim.
    + apply trim_idem.
    + apply trim_idem.
  - unfold pair_ok, cookie_text. cbn [fst snd]. split_and!; try done; [by apply split_once_none in E | apply trim_idem].
Qed.

Lemma trim_head_tail l b r : Forall is_ascii l -> l = b :: r -> ws1 b = false -> trim l = trim_end l.
Proof.
  intros Ha -> Hb. unfold trim. inversion Ha; subst. by rewrite trim_start_ascii, Hb.
Qed.

(** A trimmed text keeps its ends: none of them is white space. *)
Lemma trimmed_head b r : Forall is_ascii (b :: r) -> trim (b :: r) = b :: r -> ws1 b = false.
Proof.
  intros Ha Ht. destruct (ws1 b) eqn:E; [| done]. exfalso. inversion Ha as [| ? ? Hb Hr]; subst.
  unfold trim in Ht. rewrite trim_start_ascii, E in Ht by done.
  destruct (trim_end_prefix (trim_start r)) as [p Hp]. rewrite Ht in Hp.
  assert (Hle : (length (trim_start r) <= length r)%nat).
  { clear -Hr. induction Hr as [| x l Hx Hl IH]; [done |]. rewrite trim_start_ascii by done. destruct (ws1 x); simpl; lia. }
  rewrite Hp in Hle. rewrite length_app in Hle. simpl in Hle. lia.
Qed.

Lemma trim_end_rev_keeps l x : Forall is_ascii (l ++ [x]) -> ws1 x = false -> trim_end (l ++ [x]) = l ++ [x].
Proof.
  intros Ha Hx. unfold trim_end. rewrite rev_app_distr. cbn [rev app].
  rewrite trim_end_rev_ascii; [| apply Forall_app in Ha as [Hl Hy]; inversion Hy; subst; constructor; [done | by apply List.Forall_rev]].
  rewrite Hx. cbn [rev]. by rewrite rev_involutive.
Qed.

Lemma trimmed_last l x : Forall is_ascii (l ++ [x]) -> trim (l ++ [x]) = l ++ [x] -> ws1 x = false.
Proof.
  intros Ha Ht. destruct (ws1 x) eqn:E; [| done]. exfalso.
  assert (Hs : trim_start (l ++ [x]) = l ++ [x]).
  { rewrite <- Ht at 1. unfold trim. destruct (trim_end_prefix (trim_start (l ++ [x]))) as [p Hp].
    rewrite (trim_start_prefix _ p); [| by rewrite <- Hp, trim_start_idem]. fold (trim (l ++ [x])). done. }
  unfold trim in Ht. rewrite Hs in Ht. unfold trim_end in Ht. rewrite rev_app_distr in Ht. cbn [rev app] in Ht.
  rewrite trim_end_rev_ascii, E in Ht; [| apply Forall_app in Ha as [Hl Hy]; inversion Hy; subst; constructor; [done | by apply List.Forall_rev]].
  destruct (trim_end_rev_suffix (rev l)) as [p Hp]. apply (f_equal (@length Z)) in Ht, Hp.
  rewrite length_rev, length_app in Ht. rewrite length_app, length_rev in Hp. simpl in Ht. lia.
Qed.

Lemma trim_ends b m x : Forall is_ascii (b :: m ++ [x]) -> ws1 b = false -> ws1 x = false -> trim (b :: m ++ [x]) = b :: m ++ [x].
Proof.
  intros Ha Hb Hx. rewrite (trim_head_tail _ b (m ++ [x])); [| done..].
  rewrite app_comm_cons. apply trim_end_rev_keeps; [by rewrite <- app_comm_cons | done].
Qed.

(** A name and a value that were trimmed make a trimmed pair. *)
Lemma trim_pair n v :
  Forall is_ascii (n ++ 61 :: v) -> trim n = n -> trim v = v -> trim (n ++ 61 :: v) = n ++ 61 :: v.
Proof.
  intros Ha Hn Hv. pose proof Ha as Ha'. apply Forall_app in Ha' as [Hna Hva]. apply Forall_cons in Hva as [_ Hva].
  destruct n as [| b n]; (destruct v as [| y v' _] using rev_ind; [|]); cbn [app] in *.
  - apply trim_graph. constructor; [unfold is_graph; lia | constructor].
  - apply trim_ends; [done | done | by apply (trimmed_last v')].
  - apply trim_ends; [done | by apply (trimmed_head b n) | done].
  - replace (n ++ 61 :: v' ++ [y]) with ((n ++ 61 :: v') ++ [y]) in * by (by rewrite <- app_assoc).
    apply trim_ends; [done | by apply (trimmed_head b n) | by apply (trimmed_last v')].
Qed.

Lemma cookie_pair_text p : pair_ok p -> cookie_pair (cookie_text p) = Some p.
Proof.
  destruct p as [n [v |]]; unfold pair_ok, cookie_text; cbn [fst snd]; intros (Ha & _ & Hne & H61 & Hn & Hv); unfold cookie_pair.
  - change (str "=" ++ v) with (61 :: v) in *. apply text_ascii in Ha. rewrite trim_pair by done. rewrite bool_decide_false by done.
    rewrite split_once_app by done. by rewrite Hn, Hv.
  - rewrite Hn, bool_decide_false by done. rewrite (proj2 (split_once_none 61 n)) by done. done.
Qed.

Lemma cookie_pairs_space l : cookie_pairs (32 :: l) = cookie_pairs l.
Proof.
  unfold cookie_pairs. cbn [split]. destruct (Z.eqb_spec 32 59); [lia |].
  destruct (split 59 l) as [| w ws] eqn:E; [by destruct (split_nonempty 59 l) |]. done.
Qed.

Lemma cookie_pairs_cons w l : 59 ∉ w -> cookie_pairs (w ++ 59 :: l) = option_list (cookie_pair w) ++ cookie_pairs l.
Proof. intros Hw. unfold cookie_pairs. rewrite split_app_sep by done. cbn [omap list_omap]. by destruct (cookie_pair w). Qed.

Lemma cookie_pairs_join ps : Forall pair_ok ps -> cookie_pairs (join (str "; ") (map cookie_text ps)) = ps.
Proof.
  induction 1 as [| p ps Hp Hps IH]; [done |]. pose proof Hp as (_ & H59 & _). destruct ps as [| q ps]; cbn [map].
  - cbn [join]. unfold cookie_pairs. rewrite split_absent by done. cbn [omap list_omap]. by rewrite cookie_pair_text.
  - rewrite join_cons by done. change (str "; " ++ ?l) with (59 :: 32 :: l).
    rewrite cookie_pairs_cons, cookie_pairs_space, cookie_pair_text by done. cbn [option_list app].
    cbn [map] in IH. by rewrite IH.
Qed.

Lemma cookie_pairs_ok raw : Forall is_text raw -> Forall pair_ok (cookie_pairs raw).
Proof.
  intros Ha. apply Forall_forall. intros p Hp. unfold cookie_pairs in Hp. apply list_elem_of_omap in Hp as (w & Hw & Hp).
  apply (cookie_pair_ok w); [| by eapply split_no_sep | done].
  rewrite <- (join_split 59 raw) in Ha. clear Hp. induction (split 59 raw) as [| x ws IH]; [by apply elem_of_nil in Hw |].
  destruct ws as [| y ws]; cbn [join] in Ha.
  - by apply list_elem_of_singleton in Hw as ->.
  - apply Forall_app in Ha as [Hx Ha]. apply Forall_app in Ha as [_ Ha]. apply elem_of_cons in Hw as [-> | Hw]; auto.
Qed.

(** The cookies of the application reach it whole and in order, the session of
    the front does not. *)
Lemma stripped_pairs raw rest :
  Forall is_text raw -> cookie_header_without_session raw = Some rest ->
  cookie_pairs rest = filter (fun p => p.1 <> COOKIE_NAME) (cookie_pairs raw) /\ Forall is_text rest.
Proof.
  intros Ha. unfold cookie_header_without_session. case_bool_decide; [done |]. intros E. apply Some_inj in E as <-.
  assert (Hok : Forall pair_ok (filter (fun p => p.1 <> COOKIE_NAME) (cookie_pairs raw))).
  { apply Forall_forall. intros p [_ Hp]%list_elem_of_filter. pose proof (cookie_pairs_ok raw Ha) as Hf.
    rewrite Forall_forall in Hf. by apply Hf. }
  split; [by apply cookie_pairs_join |]. induction Hok as [| p ps Hp Hps IH]; [done |]. cbn [map].
  destruct ps as [| q ps]; [cbn [map join]; apply Hp |]. cbn [map] in *. rewrite join_cons by done.
  apply Forall_app. split; [apply Hp |]. apply Forall_app. split; [by apply textb_spec | by apply IH].
Qed.

Lemma stripped_none raw :
  cookie_header_without_session raw = None <-> filter (fun p => p.1 <> COOKIE_NAME) (cookie_pairs raw) = [].
Proof.
  unfold cookie_header_without_session. case_bool_decide as E; split; try done.
  - intros _. by apply map_eq_nil in E.
  - intros E'. by rewrite E' in E.
Qed.

Lemma find_filtered raw rest :
  cookie_pairs rest = filter (fun p => p.1 <> COOKIE_NAME) (cookie_pairs raw) -> token_from_cookie_header rest = None.
Proof.
  intros E. unfold token_from_cookie_header. rewrite E. clear E. induction (cookie_pairs raw) as [| p ps IH]; [done |].
  rewrite filter_cons. case_decide as Hd; [| done]. cbn [List.find]. by rewrite bool_decide_false.
Qed.

(** ** Sessions in memory *)

Record Session := { ws_publication : bytes; ws_username : bytes; ws_expires : Z }.

Record Sessions := { ttl_secs : Z; sess_inner : gmap bytes Session }.

Definition Sessions_new (ttl : Z) : Sessions := {| ttl_secs := ttl; sess_inner := ∅ |}.

Definition set_sess_inner (s : Sessions) (m : gmap bytes Session) : Sessions := {| ttl_secs := ttl_secs s; sess_inner := m |}.

Section sessions.
Context `{UrlBase64}.

(** The token is the encoding of 32 random bytes. *)
Definition Sessions_open (s : Sessions) (publication username : bytes) (now : Z) (random : bytes) :
    Sessions * bytes :=
  let token := url64_encode random in
  let kept := filter (fun e => now < ws_expires e.2) (sess_inner s) in
  (set_sess_inner s (<[token := {| ws_publication := publication; ws_username := username;
                                   ws_expires := sat_add U64_MAX now (ttl_secs s) |}]> kept), token).

Definition Sessions_touch (s : Sessions) (token publication : bytes) (now : Z) : Sessions * option bytes :=
  match sess_inner s !! token with
  | None => (s, None)
  | Some e =>
      if ws_expires e <=? now then (set_sess_inner s (delete token (sess_inner s)), None)
      else if bool_decide (ws_publication e = publication) then
        (set_sess_inner s (<[token := {| ws_publication := ws_publication e; ws_username := ws_username e;
                                         ws_expires := sat_add U64_MAX now (ttl_secs s) |}]> (sess_inner s)),
         Some (ws_username e))
      else (s, None)
  end.

Definition Sessions_close (s : Sessions) (token : bytes) : Sessions * bool :=
  (set_sess_inner s (delete token (sess_inner s)), bool_decide (is_Some (sess_inner s !! token))).

Definition Sessions_len (s : Sessions) : Z := Z.of_nat (size (sess_inner s)).

(** *** What a session is, without the store

    The events of one run, newest first; an opening carries its random bytes. *)
Inductive session_event :=
| SeOpen (random publication username : bytes) (now : Z)
| SeTouch (token publication : bytes) (now : Z)
| SeClose (token : bytes) (now : Z).

Definition event_time (e : session_event) : Z :=
  match e with SeOpen _ _ _ now | SeTouch _ _ now | SeClose _ now => now end.

(** The store after one event. *)
Definition session_act (s : Sessions) (e : session_event) : Sessions :=
  match e with
  | SeOpen random publication username now => (Sessions_open s publication username now random).1
  | SeTouch token publication now => (Sessions_touch s token publication now).1
  | SeClose token _ => (Sessions_close s token).1
  end.

Fixpoint sessions_after (ttl : Z) (h : list session_event) : Sessions :=
  match h with [] => Sessions_new ttl | e :: h => session_act (sessions_after ttl h) e end.

(** The owner of a token: who opened it and where, and its last activity. A visit
    from another publication, or one that comes too late, is no activity. *)
Fixpoint owner_of (ttl : Z) (h : list session_event) (t : bytes) : option (bytes * bytes * Z) :=
  match h with
  | [] => None
  | SeOpen random p u now :: h => if decide (t = url64_encode random) then Some (p, u, now) else owner_of ttl h t
  | SeTouch t' p' now :: h =>
      match owner_of ttl h t with
      | Some (p, u, last) =>
          if decide (t = t' /\ p = p' /\ now < sat_add U64_MAX last ttl) then Some (p, u, now) else Some (p, u, last)
      | None => None
      end
  | SeClose t' _ :: h => if decide (t = t') then None else owner_of ttl h t
  end.

(** A clock that does not run back. *)
Fixpoint timed (now : Z) (h : list session_event) : Prop :=
  match h with [] => True | e :: h => event_time e <= now /\ timed (event_time e) h end.

Lemma ttl_after ttl h : ttl_secs (sessions_after ttl h) = ttl.
Proof.
  induction h as [| e h IH]; [done |]. destruct e as [r p u now | t p now | t now]; cbn [sessions_after session_act]; try done.
  unfold Sessions_touch. destruct (_ !! t); [| done]. destruct (_ <=? _); [done |]. by case_bool_decide.
Qed.

(** The store agrees with the history, up to what has expired; that nothing is
    missing in it takes a condition [P] on the clock. *)
Definition stored (P : Prop) (ttl now : Z) (m : gmap bytes Session) (o : bytes -> option (bytes * bytes * Z)) : Prop :=
  (forall t e, m !! t = Some e -> exists last, o t = Some (ws_publication e, ws_username e, last) /\
                                               ws_expires e = sat_add U64_MAX last ttl) /\
  (P -> forall t p u last, o t = Some (p, u, last) -> now < sat_add U64_MAX last ttl -> is_Some (m !! t)).

Lemma stored_later P ttl now now' m o : (P -> now <= now') -> stored P ttl now m o -> stored P ttl now' m o.
Proof. intros Hle [H1 H2]. split; [done |]. intros HP t p u last Ho Hl. specialize (Hle HP). apply (H2 HP t p u last Ho). lia. Qed.

Lemma stored_open P ttl now h r p u :
  stored P ttl now (sess_inner (sessions_after ttl h)) (owner_of ttl h) ->
  stored P ttl now (sess_inner (sessions_after ttl (SeOpen r p u now :: h))) (owner_of ttl (SeOpen r p u now :: h)).
Proof.
  intros [H1 H2]. cbn [sessions_after session_act Sessions_open fst set_sess_inner sess_inner owner_of].
  rewrite ttl_after. set (t := url64_encode r). split.
  - intros t' e. destruct (decide (t' = t)) as [-> | Hne].
    + rewrite lookup_insert_eq. intros E. apply Some_inj in E as <-. by exists now.
    + rewrite lookup_insert_ne by done. intros [E _]%map_lookup_filter_Some. by apply H1.
  - intros HP t' p' u' last. specialize (H2 HP). destruct (decide (t' = t)) as [-> | Hne]; intros Ho Hl.
    + rewrite lookup_insert_eq. by eexists.
    + rewrite lookup_insert_ne by done. destruct (H2 t' p' u' last Ho Hl) as [e He]. exists e.
      apply map_lookup_filter_Some. split; [done |]. cbn. destruct (H1 t' e He) as (l' & Ho' & ->).
      rewrite Ho in Ho'. by simplify_eq.
Qed.

Lemma stored_touch P ttl now h t p :
  stored P ttl now (sess_inner (sessions_after ttl h)) (owner_of ttl h) ->
  stored P ttl now (sess_inner (sessions_after ttl (SeTouch t p now :: h))) (owner_of ttl (SeTouch t p now :: h)).
Proof.
  intros [H1 H2]. cbn [sessions_after session_act owner_of]. unfold Sessions_touch. rewrite ttl_after.
  destruct (sess_inner (sessions_after ttl h) !! t) as [e |] eqn:Et.
  - destruct (H1 t e Et) as (last & Ho & He). destruct (Z.leb_spec (ws_expires e) now) as [Hx | Hx].
    + cbn [fst set_sess_inner sess_inner]. split.
      * intros t' e' [Hne He']%lookup_delete_Some. destruct (H1 t' e' He') as (l' & -> & Hl'). exists l'.
        rewrite decide_False by (intros [? _]; congruence). done.
      * intros HP t' p' u' l' Ho' Hl'. specialize (H2 HP). destruct (decide (t' = t)) as [-> | Hne].
        -- rewrite Ho, decide_False in Ho' by (rewrite <- He; intros (_ & _ & ?); lia). simplify_eq. lia.
        -- rewrite lookup_delete_ne by done. destruct (owner_of ttl h t') as [[[a b] c] |] eqn:Eo; [| done].
           rewrite decide_False in Ho' by (intros [? _]; congruence). simplify_eq. by eapply H2.
    + case_bool_decide as Hp; cbn [fst set_sess_inner sess_inner]; split.
      * intros t' e'. destruct (decide (t' = t)) as [-> | Hne].
        -- rewrite lookup_insert_eq. intros E. apply Some_inj in E as <-. exists now. rewrite Ho, decide_True by (rewrite <- He; split_and!; [done | done | lia]).
           done.
        -- rewrite lookup_insert_ne by done. intros E. destruct (H1 t' e' E) as (l' & -> & Hl'). exists l'.
           by rewrite decide_False by (intros [? _]; congruence).
      * intros HP t' p' u' l' Ho' Hl'. specialize (H2 HP). destruct (decide (t' = t)) as [-> | Hne]; [rewrite lookup_insert_eq; by eexists |].
        rewrite lookup_insert_ne by done. destruct (owner_of ttl h t') as [[[a b] c] |] eqn:Eo; [| done].
        rewrite decide_False in Ho' by (intros [? _]; congruence). simplify_eq. by eapply H2.
      * intros t' e' E. destruct (H1 t' e' E) as (l' & Ho' & Hl'). exists l'. rewrite Ho'.
        rewrite decide_False; [done |]. intros (-> & ? & _). rewrite E in Et. simplify_eq.
      * intros HP t' p' u' l' Ho' Hl'. specialize (H2 HP). destruct (owner_of ttl h t') as [[[a b] c] |] eqn:Eo; [| done].
        destruct (decide (t' = t)) as [-> | Hne]; [by eexists |].
        rewrite decide_False in Ho' by (intros [? _]; congruence). simplify_eq. by eapply H2.
  - cbn [fst]. assert (Hq : P -> forall t' x, owner_of ttl h t' = Some x -> t' = t -> ¬ (now < sat_add U64_MAX x.2 ttl)).
    { intros HP t' [[a b] c] Ho -> Hl. destruct (H2 HP t a b c Ho Hl) as [? Hs]. by rewrite Et in Hs. }
    split.
    + intros t' e' E. destruct (H1 t' e' E) as (l' & Ho' & Hl'). exists l'. rewrite Ho'.
      rewrite decide_False; [done |]. intros (-> & _). by rewrite E in Et.
    + intros HP t' p' u' l' Ho' Hl'. specialize (H2 HP). specialize (Hq HP). destruct (owner_of ttl h t') as [[[a b] c] |] eqn:Eo; [| done].
      rewrite decide_False in Ho' by (intros (? & _ & ?); by eapply (Hq _ _ Eo)). simplify_eq. by eapply H2.
Qed.

Lemma stored_close P ttl now h t now' :
  stored P ttl now (sess_inner (sessions_after ttl h)) (owner_of ttl h) ->
  stored P ttl now (sess_inner (sessions_after ttl (SeClose t now' :: h))) (owner_of ttl (SeClose t now' :: h)).
Proof.
  intros [H1 H2]. cbn [sessions_after session_act Sessions_close fst set_sess_inner sess_inner owner_of]. split.
  - intros t' e [Hne E]%lookup_delete_Some. rewrite decide_False by congruence. by apply H1.
  - intros HP t' p u last. destruct (decide (t' = t)) as [| Hne]; [done |]. rewrite lookup_delete_ne by done. by apply H2.
Qed.

Lemma stored_after P ttl now h :
  (P -> timed now h) -> stored P ttl now (sess_inner (sessions_after ttl h)) (owner_of ttl h).
Proof.
  revert now. induction h as [| e h IH]; intros now Ht.
  - split; [intros t e; cbn [sessions_after Sessions_new sess_inner]; by rewrite lookup_empty | done].
  - apply (stored_later P ttl (event_time e)); [by intros HP; apply Ht in HP as [? _] |].
    assert (IH' := IH (event_time e) (fun HP => proj2 (Ht HP))).
    destruct e as [r p u n | t p n | t n]; cbn [event_time] in *.
    + by apply stored_open.
    + by apply stored_touch.
    + by apply stored_close.
Qed.

(** What is in the store is in the history, whatever the clock does. *)
Lemma admitted_owner ttl h t p now u :
  (Sessions_touch (sessions_after ttl h) t p now).2 = Some u ->
  exists last, owner_of ttl h t = Some (p, u, last) /\ now < sat_add U64_MAX last ttl.
Proof.
  destruct (stored_after False ttl now h) as [H1 _]; [done |]. unfold Sessions_touch.
  destruct (sess_inner (sessions_after ttl h) !! t) as [e |] eqn:E; [| done].
  destruct (Z.leb_spec (ws_expires e) now); [done |]. case_bool_decide as Hp; [| done]. cbn [snd]. intros Hu.
  apply Some_inj in Hu as <-. destruct (H1 t e E) as (last & Ho & He). exists last. rewrite <- Hp, <- He. split; [done | lia].
Qed.

(** C40: The sessions of the browser front: after any history of logins, visits and
    logouts under a clock that does not run back, a visit is admitted exactly when
    its token was opened on this very publication and not closed since, and its
    last activity is less than the lifetime ago; it is admitted as the user who
    logged in, and admission renews the session. Removing expired sessions on
    login never costs a live one. *)
Theorem sessions_admit ttl h t p now :
  timed now h ->
  (Sessions_touch (sessions_after ttl h) t p now).2 =
    (match owner_of ttl h t with
     | Some (p', u, last) => if decide (p = p' /\ now < sat_add U64_MAX last ttl) then Some u else None
     | None => None
     end).
Proof.
  intros Ht. destruct (stored_after True ttl now h (fun _ => Ht)) as [H1 H2]. specialize (H2 I). unfold Sessions_touch.
  destruct (sess_inner (sessions_after ttl h) !! t) as [e |] eqn:E.
  - destruct (H1 t e E) as (last & -> & He). rewrite <- He. destruct (Z.leb_spec (ws_expires e) now).
    + rewrite decide_False by lia. done.
    + case_bool_decide as Hp; cbn [snd].
      * by rewrite decide_True by (split; [done | lia]).
      * by rewrite decide_False by (intros [? _]; congruence).
  - cbn [snd]. destruct (owner_of ttl h t) as [[[p' u] last] |] eqn:Eo; [| done].
    rewrite decide_False; [done |]. intros [_ Hl]. destruct (H2 t p' u last Eo Hl) as [? Hs]. by rewrite E in Hs.
Qed.

End sessions.

(** ** Wrong passwords: a growing delay per address and publication *)

Definition FREE_ATTEMPTS : Z := 3.
Definition MAX_DELAY_MS : Z := 5 * 60 * 1000.

Record LoginAttempt := { la_failures : Z; la_blocked_until_ms : Z }.

Definition login_blocked_for (m : gmap bytes LoginAttempt) (key : bytes) (now_ms : Z) : option Z :=
  a ← m !! key;
  if now_ms <? la_blocked_until_ms a then Some (la_blocked_until_ms a - now_ms) else None.

(** The shift of a u64; the counter is capped before it. *)
Definition login_delay (failures : Z) : Z :=
  let over := sat_sub failures FREE_ATTEMPTS in
  if over =? 0 then 0 else Z.min (u64 (Z.shiftl 1000 (Z.min (over - 1) 20))) MAX_DELAY_MS.

Definition login_failed (m : gmap bytes LoginAttempt) (key : bytes) (now_ms : Z) : gmap bytes LoginAttempt :=
  let a := default {| la_failures := 0; la_blocked_until_ms := 0 |} (m !! key) in
  let failures := sat_add U32_MAX (la_failures a) 1 in
  <[key := {| la_failures := failures; la_blocked_until_ms := sat_add U64_MAX now_ms (login_delay failures) |}]> m.

Definition login_succeeded (m : gmap bytes LoginAttempt) (key : bytes) : gmap bytes LoginAttempt := delete key m.

(** The delay doubles from a second up to five minutes. *)
Lemma login_delay_eq k :
  0 <= k -> login_delay k = if decide (k <= 3) then 0 else Z.min (1000 * 2 ^ (k - 4)) 300000.
Proof.
  intros Hk. unfold login_delay, sat_sub, FREE_ATTEMPTS, MAX_DELAY_MS. destruct (decide (k <= 3)) as [Hle | Hgt].
  - by replace (Z.max 0 (k - 3)) with 0 by lia.
  - replace (Z.max 0 (k - 3)) with (k - 3) by lia. destruct (Z.eqb_spec (k - 3) 0) as [| Hne]; [lia |].
    replace (k - 3 - 1) with (k - 4) by lia. rewrite Z.shiftl_mul_pow2 by lia.
    destruct (Z_le_gt_dec (k - 4) 9) as [Hs | Hl].
    + assert (Hp : 0 < 2 ^ (k - 4) <= 2 ^ 9) by (split; [lia | apply Z.pow_le_mono_r; lia]).
      rewrite (Z.min_l (k - 4)) by lia. unfold u64. rewrite Z.mod_small by lia. lia.
    + assert (Hp : 2 ^ 9 <= 2 ^ Z.min (k - 4) 20 <= 2 ^ 20) by (split; apply Z.pow_le_mono_r; lia).
      assert (Hq : 2 ^ 9 <= 2 ^ (k - 4)) by (apply Z.pow_le_mono_r; lia).
      unfold u64. rewrite Z.mod_small by lia. lia.
Qed.

(** The counter after a run of verdicts on one key. *)
Lemma login_delays_double m key now_ms (k : nat) times :
  m !! key = None -> length times = S k -> Z.of_nat (length times) <= U32_MAX -> last times = Some now_ms -> 0 <= now_ms <= U64_MAX - 300000 ->
  forall at_ms, login_blocked_for (foldl (fun m t => login_failed m key t) m times) key at_ms =
    let d := if decide (length times <= 3)%nat then 0 else Z.min (1000 * 2 ^ (Z.of_nat (length times) - 4)) 300000 in
    if at_ms <? now_ms + d then Some (now_ms + d - at_ms) else None.
Proof.
  intros Hm Hk Hmax Hl Hnow at_ms.
  assert (Hf : forall ts, Z.of_nat (length ts) <= U32_MAX ->
            la_failures <$> (foldl (fun m t => login_failed m key t) m ts !! key) =
              match ts with [] => None | _ => Some (Z.of_nat (length ts)) end).
  { intros ts. induction ts as [| t ts IH] using rev_ind; [cbn [foldl]; by rewrite Hm |]. rewrite length_app, foldl_app. cbn [foldl length].
    intros Hb. specialize (IH ltac:(lia)). set (m' := foldl _ m ts) in *. unfold login_failed; cbv zeta. rewrite lookup_insert_eq. cbn [fmap option_fmap option_map la_failures].
    replace (ts ++ [t]) with (ts ++ t :: []) by done. destruct (m' !! key) as [a |]; destruct ts as [| t' ts]; cbn in *; simplify_eq.
    - f_equal. unfold sat_add. unfold U32_MAX in *. lia.
    - done. }
  destruct (exists_last (l := times)) as (ts & t & ->); [by destruct times |]. rewrite last_snoc in Hl. apply Some_inj in Hl as ->.
  rewrite length_app in *. cbn [length] in *. rewrite foldl_app. cbn [foldl]. specialize (Hf ts ltac:(lia)).
  set (m' := foldl _ m ts) in *. unfold login_blocked_for, login_failed; cbv zeta. rewrite lookup_insert_eq. cbn [mbind option_bind la_blocked_until_ms].
  assert (Hc : sat_add U32_MAX (la_failures (default {| la_failures := 0; la_blocked_until_ms := 0 |} (m' !! key))) 1 = Z.of_nat (length ts + 1)).
  { destruct (m' !! key) as [a |]; destruct ts; cbn in *; simplify_eq; unfold sat_add, U32_MAX in *; lia. }
  rewrite Hc, login_delay_eq by lia.
  destruct (decide (Z.of_nat (length ts + 1) <= 3)), (decide (length ts + 1 <= 3)%nat); try lia.
  - unfold sat_add, U64_MAX in *. rewrite Z.min_r by lia. done.
  - assert (0 < 2 ^ (Z.of_nat (length ts + 1) - 4)) by (apply Z.pow_pos_nonneg; lia).
    unfold sat_add, U64_MAX in *. rewrite Z.min_r by lia. done.
Qed.

(** ** The cache of routes (hub.rs) *)

Definition CACHE_MARGIN_SECS : Z := 60.

Inductive HubError := HubNotFound | HubUnavailable (why : bytes).

(** [HttpHub::route] on what the hub answered: a status, the route its body is,
    the texts of the refusals. *)
Definition hub_route_answer (sent : result (Z * option WebRoute * bytes) bytes) : result WebRoute HubError :=
  match sent with
  | Err why => Err (HubUnavailable why)
  | Ok (status, body, text) =>
      if status =? 404 then Err HubNotFound
      else if negb (in_rng 200 299 status) then Err (HubUnavailable text)
      else match body with Some route => Ok route | None => Err (HubUnavailable text) end
  end.

Definition hub_verdict_answer (sent : result (Z * option bool * bytes) bytes) : result bool HubError :=
  match sent with
  | Err why => Err (HubUnavailable why)
  | Ok (status, body, text) =>
      if negb (in_rng 200 299 status) then Err (HubUnavailable text)
      else match body with Some ok => Ok ok | None => Err (HubUnavailable text) end
  end.

Definition route_fresh (c : gmap bytes WebRoute) (publication : bytes) (now : Z) : option WebRoute :=
  route ← c !! publication;
  if now <? sat_sub (wr_exp route) CACHE_MARGIN_SECS then Some route else None.

(** The two halves of [get] around the request to the hub. *)
Definition route_got (c : gmap bytes WebRoute) (publication : bytes) (answer : result WebRoute HubError) :
    gmap bytes WebRoute * result WebRoute HubError :=
  match answer with Ok route => (<[publication := route]> c, Ok route) | Err e => (c, Err e) end.

Definition route_forget (c : gmap bytes WebRoute) (publication : bytes) : gmap bytes WebRoute := delete publication c.

(** The time a cached route was asked for cannot be the last minute of it. *)
Lemma route_fresh_margin c publication now route :
  0 <= now -> route_fresh c publication now = Some route -> c !! publication = Some route /\ now + 60 < wr_exp route.
Proof.
  intros Hn. unfold route_fresh. destruct (c !! publication) as [r |]; [| done]. cbn [mbind option_bind].
  destruct (Z.ltb_spec now (sat_sub (wr_exp r) CACHE_MARGIN_SECS)) as [Hl | _]; [| done]. intros [= <-].
  split; [done |]. unfold sat_sub, CACHE_MARGIN_SECS in Hl. lia.
Qed.

Definition ex_web_token : bytes := @url64_encode toy_url64 [1; 2].

Definition ex_sessions : list session_event :=
  [SeTouch ex_web_token (str "notes") 180; SeOpen [3] (str "notes") (str "guest") 150;
   SeTouch ex_web_token (str "dash") 99; SeOpen [1; 2] (str "dash") (str "owner") 0].

Lemma sessions_admit_witness :
  timed 198 ex_sessions /\
  (Sessions_touch (@sessions_after toy_url64 100 ex_sessions) ex_web_token (str "dash") 198).2 = Some (str "owner").
Proof.
  assert (Ht : timed 198 ex_sessions) by (cbn; lia). split; [exact Ht |].
  rewrite (@sessions_admit toy_url64 100 ex_sessions ex_web_token (str "dash") 198 Ht). vm_compute. reflexivity.
Defined.
