(* ===== verification/WebSplice.v ===== *)
(** * The splice of an upgraded connection (xr-web/src/upgrade.rs)

    The deadline before the limit of the relay, the boundaries of WebSocket frames
    and one direction of the splice as a step relation. Times are nanoseconds of
    the monotonic clock. *)

From S2P Require Import Prelude Text.

Definition SECOND : Z := 10 ^ 9.
Definition SERVER_CLOSE_GOING_AWAY : bytes := [0x88; 0x02; 0x03; 0xE9].
Definition CLOSE_MARGIN : Z := 60 * SECOND.
Definition BOUNDARY_GRACE : Z := 5 * SECOND.
Definition LINGER : Z := 3 * SECOND.

Definition is_websocket (proto : bytes) : bool := eq_ignore_ascii_case proto (str "websocket").

(** The close of a client: masked, with the same code. [mask] is random. *)
Definition masked_close (m0 m1 m2 m3 : Z) : bytes :=
  [0x88; 0x82; m0; m1; m2; m3; Z.lxor 0x03 m0; Z.lxor 0xE9 m1].

Definition close_after (splice_lifetime_secs age : Z) : option Z :=
  if splice_lifetime_secs =? 0 then None
  else
    let cap := splice_lifetime_secs * SECOND in
    let margin := Z.min CLOSE_MARGIN (cap / 5) in
    let left := sat_sub (sat_sub cap age) margin in
    Some (Z.max left (SECOND / 10)).

(** ** Frame boundaries *)

Inductive FrameState := Header (buf : bytes) | Payload (remaining : Z).

Record Framing := { fr_enabled : bool; fr_state : FrameState }.

Definition Framing_new (enabled : bool) : Framing := {| fr_enabled := enabled; fr_state := Header [] |}.

Definition at_boundary (f : Framing) : bool :=
  if negb (fr_enabled f) then true else match fr_state f with Header [] => true | _ => false end.

Definition header_len (buf : bytes) : option Z :=
  if zlen buf <? 2 then None
  else
    let masked := negb (Z.land (at_ buf 1) 0x80 =? 0) in
    let code := Z.land (at_ buf 1) 0x7F in
    let extended := if code =? 126 then 2 else if code =? 127 then 8 else 0 in
    Some (2 + extended + (if masked then 4 else 0)).

Definition payload_len (buf : bytes) : Z :=
  let code := Z.land (at_ buf 1) 0x7F in
  if code =? 126 then from_be16 (at_ buf 2) (at_ buf 3)
  else if code =? 127 then
    of_be [at_ buf 2; at_ buf 3; at_ buf 4; at_ buf 5; at_ buf 6; at_ buf 7; at_ buf 8; at_ buf 9]
  else code.

(** One turn of the loop of [feed]: the new state and what is left of the chunk. *)
Definition feed_turn (st : FrameState) (b : Z) (rest : bytes) : FrameState * bytes :=
  match st with
  | Payload remaining =>
      let l := b :: rest in
      let n := Z.min remaining (zlen l) in
      (if remaining - n =? 0 then Header [] else Payload (remaining - n), zdrop n l)
  | Header buf =>
      let buf := buf ++ [b] in
      (match header_len buf with
       | Some len => if zlen buf =? len then (if payload_len buf =? 0 then Header [] else Payload (payload_len buf)) else Header buf
       | None => Header buf
       end, rest)
  end.

(** [fuel] is the length of the chunk: every turn takes a byte at least. *)
Fixpoint feed_loop (fuel : nat) (st : FrameState) (l : bytes) : FrameState :=
  match fuel, l with
  | S fuel, b :: rest => let (st', l') := feed_turn st b rest in feed_loop fuel st' l'
  | _, _ => st
  end.

Definition feed (f : Framing) (l : bytes) : Framing :=
  if negb (fr_enabled f) then f else {| fr_enabled := true; fr_state := feed_loop (length l) (fr_state f) l |}.

(** *** The state after any cut of the stream

    The same, a byte at a time: the reference the chunks are compared with. *)
Definition feed_byte (st : FrameState) (b : Z) : FrameState :=
  match st with
  | Payload remaining => if remaining - 1 =? 0 then Header [] else Payload (remaining - 1)
  | Header buf => (feed_turn (Header buf) b []).1
  end.

Definition state_ok (st : FrameState) : Prop :=
  match st with Payload remaining => 0 < remaining | Header buf => bytes_ok buf end.

Lemma payload_len_nonneg buf : bytes_ok buf -> 0 <= payload_len buf.
Proof.
  intros Hb. unfold payload_len. pose proof (fun i => at_byte buf i Hb) as Ha.
  destruct (_ =? 126); [pose proof (from_be16_range _ _ (Ha 2) (Ha 3)); lia |].
  destruct (_ =? 127); [| apply Z.land_nonneg; by right].
  apply of_be_bound. repeat (apply bytes_ok_cons; split; [apply Ha |]). constructor.
Qed.

Lemma feed_byte_ok st b : is_byte b -> state_ok st -> state_ok (feed_byte st b).
Proof.
  intros Hb Hst. destruct st as [buf | n]; cbn [feed_byte feed_turn fst].
  - assert (Hok : bytes_ok (buf ++ [b])) by (apply bytes_ok_app; split; [done | apply bytes_ok_cons; split; [done | constructor]]).
    destruct (header_len _) as [len |]; [| done]. destruct (_ =? len); [| done].
    pose proof (payload_len_nonneg _ Hok). destruct (Z.eqb_spec (payload_len (buf ++ [b])) 0); [constructor | cbn; lia].
  - cbn in Hst. destruct (Z.eqb_spec (n - 1) 0); cbn; [constructor | lia].
Qed.

Lemma feed_bytes_ok st l : bytes_ok l -> state_ok st -> state_ok (foldl feed_byte st l).
Proof.
  revert st. induction l as [| b l IH]; intros st Hl Hst; [done |]. apply bytes_ok_cons in Hl as [Hb Hl].
  apply IH; [done |]. by apply feed_byte_ok.
Qed.

(** A payload is taken in one piece or byte by byte alike. *)
Lemma feed_payload n l : 0 < n -> l <> [] ->
  foldl feed_byte (Payload n) (ztake (Z.min n (zlen l)) l) = if n - Z.min n (zlen l) =? 0 then Header [] else Payload (n - Z.min n (zlen l)).
Proof.
  revert n. induction l as [| b l IH]; intros n Hn Hne; [done |]. rewrite zlen_cons. pose proof (zlen_nonneg l).
  unfold ztake. replace (Z.to_nat (Z.min n (1 + zlen l))) with (S (Z.to_nat (Z.min (n - 1) (zlen l)))) by lia. cbn [take foldl feed_byte].
  destruct (Z.eqb_spec (n - 1) 0) as [E | E].
  - assert (n = 1) as -> by lia. replace (Z.to_nat (Z.min (1 - 1) (zlen l))) with 0%nat by lia. cbn [take foldl].
    by replace (Z.min 1 (1 + zlen l)) with 1 by lia.
  - destruct l as [| c l].
    + rewrite take_nil. cbn [foldl]. rewrite zlen_nil. replace (Z.min n (1 + 0)) with 1 by lia.
      by destruct (Z.eqb_spec (n - 1) 0).
    + change (take (Z.to_nat (Z.min (n - 1) (zlen (c :: l)))) (c :: l)) with (ztake (Z.min (n - 1) (zlen (c :: l))) (c :: l)).
      rewrite IH by (done || lia). replace (n - 1 - Z.min (n - 1) (zlen (c :: l))) with (n - Z.min n (1 + zlen (c :: l))) by lia. done.
Qed.

Lemma feed_loop_bytes fuel st l :
  (length l <= fuel)%nat -> bytes_ok l -> state_ok st -> feed_loop fuel st l = foldl feed_byte st l.
Proof.
  revert st l. induction fuel as [| fuel IH]; intros st l Hf Hl Hst; [by destruct l; [| simpl in Hf; lia] |].
  destruct l as [| b l]; [done |]. cbn [feed_loop]. simpl in Hf. destruct st as [buf | n].
  - cbn [feed_turn]. apply bytes_ok_cons in Hl as [Hb Hl]. rewrite IH; [done | lia | done |]. by apply (feed_byte_ok (Header buf) b).
  - cbn [feed_turn]. cbn in Hst. set (k := Z.min n (zlen (b :: l))). assert (Hk : 1 <= k <= zlen (b :: l)).
    { unfold k. rewrite zlen_cons. pose proof (zlen_nonneg l). lia. }
    transitivity (foldl feed_byte (foldl feed_byte (Payload n) (ztake k (b :: l))) (zdrop k (b :: l)));
      [| by rewrite <- foldl_app, ztake_zdrop].
    pose proof (feed_payload n (b :: l) Hst ltac:(done)) as Ep. fold k in Ep. rewrite Ep. apply IH.
    + pose proof (zlen_drop k (b :: l) ltac:(lia)) as Hd. unfold zlen in *. simpl in *. lia.
    + unfold zdrop. by apply Forall_drop.
    + destruct (Z.eqb_spec (n - k) 0); cbn; [constructor | unfold k in *; lia].
Qed.

Lemma feed_enabled f l : fr_enabled f = true -> fr_enabled (feed f l) = true.
Proof. intros E. unfold feed. by rewrite E. Qed.

Lemma feed_chunks chunks : Forall bytes_ok chunks ->
  foldl feed (Framing_new true) chunks =
    {| fr_enabled := true; fr_state := foldl feed_byte (Header []) (concat chunks) |}.
Proof.
  induction chunks as [| c chunks IH] using rev_ind; intros Hc; [done |]. apply Forall_app in Hc as [Hcs Hc].
  inversion Hc as [| ? ? Hb _]; subst. rewrite foldl_app. cbn [foldl]. rewrite IH by done. rewrite concat_app, foldl_app.
  unfold feed. cbn [fr_enabled negb fr_state concat]. rewrite app_nil_r. f_equal. apply feed_loop_bytes; [done | done |].
  apply feed_bytes_ok; [by apply Forall_concat | constructor].
Qed.

(** A frame: a whole header and the payload it announces (RFC 6455, 5.2). *)
Definition ws_frame (f : bytes) : Prop :=
  exists hd body, f = hd ++ body /\ header_len hd = Some (zlen hd) /\ zlen body = payload_len hd.

Lemma header_len_short buf : zlen buf < 2 -> header_len buf = None.
Proof. intros Hl. unfold header_len. by destruct (Z.ltb_spec (zlen buf) 2); [| lia]. Qed.

Lemma header_len_prefix p q : 2 <= zlen p -> header_len (p ++ q) = header_len p.
Proof.
  intros Hp. unfold header_len. rewrite zlen_app. pose proof (zlen_nonneg q).
  destruct (Z.ltb_spec (zlen p + zlen q) 2), (Z.ltb_spec (zlen p) 2); try lia.
  unfold at_. by rewrite index_app_l by lia.
Qed.

Lemma feed_header_part hd p q :
  header_len hd = Some (zlen hd) -> hd = p ++ q -> q <> [] -> foldl feed_byte (Header []) p = Header p.
Proof.
  intros Hh. revert q. induction p as [| b p IH] using rev_ind; intros q E Hq; [done |].
  rewrite foldl_app. cbn [foldl]. rewrite (IH (b :: q)) by (done || by rewrite E, <- app_assoc). cbn [feed_byte feed_turn fst].
  destruct (Z_lt_le_dec (zlen (p ++ [b])) 2) as [Hs | Hl]; [by rewrite header_len_short |].
  rewrite E, header_len_prefix in Hh by done. rewrite Hh. rewrite (zlen_app (p ++ [b]) q). destruct q as [| c q]; [done |].
  rewrite zlen_cons. pose proof (zlen_nonneg q). by destruct (Z.eqb_spec (zlen (p ++ [b])) (zlen (p ++ [b]) + (1 + zlen q))); [lia |].
Qed.

Lemma feed_header hd : header_len hd = Some (zlen hd) ->
  foldl feed_byte (Header []) hd = if payload_len hd =? 0 then Header [] else Payload (payload_len hd).
Proof.
  intros Hh. destruct hd as [| b p _] using rev_ind; [done |]. rewrite foldl_app. cbn [foldl].
  rewrite (feed_header_part (p ++ [b]) p [b]) by done. cbn [feed_byte feed_turn fst]. rewrite Hh.
  by rewrite Z.eqb_refl.
Qed.

Lemma feed_ws_frame f : ws_frame f -> bytes_ok f -> foldl feed_byte (Header []) f = Header [].
Proof.
  intros (hd & body & -> & Hh & Hl) Hok. apply bytes_ok_app in Hok as [Hok _]. pose proof (payload_len_nonneg hd Hok).
  rewrite foldl_app, feed_header by done. destruct (Z.eqb_spec (payload_len hd) 0) as [E | E].
  - rewrite E in Hl. by apply zlen_0_nil in Hl as ->.
  - pose proof (feed_payload (payload_len hd) body ltac:(lia)) as Hp.
    rewrite Hl, Z.min_id, Z.sub_diag, ztake_ge in Hp by lia. apply Hp. intros ->. by rewrite zlen_nil in Hl.
Qed.

(** The state says how far into which frame the stream is. *)
Lemma feed_position x : bytes_ok x ->
  match foldl feed_byte (Header []) x with
  | Header buf => exists fs, x = concat fs ++ buf /\ Forall ws_frame fs
  | Payload n => exists fs hd body, x = concat fs ++ hd ++ body /\ Forall ws_frame fs /\ header_len hd = Some (zlen hd) /\
                   zlen body + n = payload_len hd
  end.
Proof.
  induction x as [| b x IH] using rev_ind; intros Hx; [by exists [] |]. apply bytes_ok_app in Hx as [Hx Hb].
  specialize (IH Hx). rewrite foldl_app. cbn [foldl]. destruct (foldl feed_byte (Header []) x) as [buf | n].
  - destruct IH as (fs & -> & Hfs). cbn [feed_byte feed_turn fst]. destruct (header_len (buf ++ [b])) as [len |] eqn:Eh.
    + destruct (Z.eqb_spec (zlen (buf ++ [b])) len) as [<- |]; [| exists fs; by rewrite app_assoc].
      destruct (Z.eqb_spec (payload_len (buf ++ [b])) 0) as [E0 |].
      * exists (fs ++ [buf ++ [b]]). rewrite concat_app. cbn [concat]. rewrite !app_nil_r, app_assoc. split; [done |].
        apply Forall_app. split; [done |]. constructor; [| constructor]. exists (buf ++ [b]), []. by rewrite app_nil_r, E0.
      * exists fs, (buf ++ [b]), []. by rewrite app_nil_r, app_assoc.
    + exists fs. by rewrite app_assoc.
  - destruct IH as (fs & hd & body & -> & Hfs & Hh & Hn). cbn [feed_byte]. destruct (Z.eqb_spec (n - 1) 0).
    + exists (fs ++ [hd ++ body ++ [b]]). rewrite concat_app. cbn [concat]. rewrite !app_nil_r, <- !app_assoc. split; [done |].
      apply Forall_app. split; [done |]. constructor; [| constructor]. exists hd, (body ++ [b]). rewrite zlen_app. split_and!; [done | done |].
      change (zlen [b]) with 1. lia.
    + exists fs, hd, (body ++ [b]). rewrite <- !app_assoc, zlen_app. split_and!; [done | done | done |]. change (zlen [b]) with 1. lia.
Qed.

Lemma feed_frames fs : Forall ws_frame fs -> bytes_ok (concat fs) -> foldl feed_byte (Header []) (concat fs) = Header [].
Proof.
  induction 1 as [| f fs Hf Hfs IH]; intros Hok; [done |]. cbn [concat] in *. apply bytes_ok_app in Hok as [H1 H2].
  rewrite foldl_app, feed_ws_frame by done. by apply IH.
Qed.

(** The bytes are a whole number of frames. *)
Definition whole_frames (x : bytes) : Prop := exists fs, x = concat fs /\ Forall ws_frame fs.

Lemma boundary_whole x : bytes_ok x ->
  at_boundary {| fr_enabled := true; fr_state := foldl feed_byte (Header []) x |} = true <-> whole_frames x.
Proof.
  intros Hok. unfold at_boundary. cbn [fr_enabled negb fr_state]. pose proof (feed_position _ Hok) as Hp. split.
  - destruct (foldl _ _ _) as [buf | n]; [| done]. destruct buf; [| done]. intros _. destruct Hp as (fs & E & Hfs).
    exists fs. by rewrite app_nil_r in E.
  - intros (fs & -> & Hfs). by rewrite feed_frames.
Qed.

(** Frame boundaries: however the stream is cut into reads, the counter of
    frames stands on a boundary exactly when what was read is a whole number of
    WebSocket frames. *)
Theorem framing_boundaries chunks :
  Forall bytes_ok chunks ->
  (at_boundary (foldl feed (Framing_new true) chunks) = true <-> whole_frames (concat chunks)).
Proof. intros Hc. rewrite feed_chunks by done. apply boundary_whole. by apply Forall_concat. Qed.

Definition ex_frame : bytes := [0x81; 0xFE; 0; 126; 1; 2; 3; 4] ++ repeat 7 126.

Lemma framing_boundaries_witness :
  at_boundary (foldl feed (Framing_new true) [take 5 ex_frame; drop 5 ex_frame; [0x89; 0x00]]) = true.
Proof.
  apply (framing_boundaries [take 5 ex_frame; drop 5 ex_frame; [0x89; 0x00]]).
  - apply Forall_forall. intros c Hc. apply Forall_forall. intros b Hb. revert b Hb.
    apply (proj1 (Forall_forall is_byte c)). revert c Hc. apply (proj1 (Forall_forall bytes_ok _)).
    repeat (apply Forall_cons_2; [unfold bytes_ok; apply (bool_decide_unpack _); vm_compute; exact I |]). apply Forall_nil_2.
  - exists [ex_frame; [0x89; 0x00]]. split; [reflexivity |]. apply Forall_cons_2; [| apply Forall_cons_2; [| apply Forall_nil_2]].
    + exists [0x81; 0xFE; 0; 126; 1; 2; 3; 4], (repeat 7 126). split_and!; reflexivity.
    + exists [0x89; 0x00], []. split_and!; reflexivity.
Defined.

(** ** One direction of the splice

    [PuWriting]: inside [write_all], where the timer is not looked at. *)

Inductive End := EndEof | EndDeadline | EndBroken.
Inductive PumpStage := PuSelect | PuWriting (data : bytes) | PuClosed (e : End) (closed_at : Z).

(** [pu_read]: the bytes taken from the reader so far, [pu_due]: the first time
    the timer was found due. *)
Record Pump := {
  pu_stage : PumpStage; pu_frames : Framing; pu_deadline : option Z; pu_closing : bool; pu_read : bytes; pu_written : bytes;
  pu_due : option Z
}.

Inductive PumpEvent :=
| PvTimer (close_sent : Z)
| PvRead (r : option bytes)
| PvWritten (close_sent : Z)
| PvWriteFailed (sent : Z).

Definition Pump_new (deadline : option Z) (close_frame : option bytes) : Pump :=
  {| pu_stage := PuSelect; pu_frames := Framing_new (bool_decide (is_Some close_frame)); pu_deadline := deadline;
     pu_closing := false; pu_read := []; pu_written := []; pu_due := None |}.

Definition pump_stage (p : Pump) (st : PumpStage) (read written : bytes) (frames : Framing) : Pump :=
  {| pu_stage := st; pu_frames := frames; pu_deadline := pu_deadline p; pu_closing := pu_closing p; pu_read := read;
     pu_written := written; pu_due := pu_due p |}.

(** The close frame goes out after the last byte; it may be cut short by an error nobody looks at. *)
Definition pump_deadline_end (close_frame : option bytes) (close_sent now : Z) (p : Pump) (frames : Framing) (written : bytes) : Pump :=
  pump_stage p (PuClosed EndDeadline now) (pu_read p) (written ++ ztake close_sent (default [] close_frame)) frames.

Definition pump_close_begins (p : Pump) (now : Z) : Pump :=
  {| pu_stage := PuSelect; pu_frames := pu_frames p; pu_deadline := Some (now + BOUNDARY_GRACE); pu_closing := true;
     pu_read := pu_read p; pu_written := pu_written p; pu_due := Some now |}.

Definition timer_due (p : Pump) (now : Z) : bool :=
  match pu_deadline p with Some d => d <=? now | None => false end.

(** One event; an event the code does not wait for changes nothing. The timer is polled first. *)
Definition pump_turn (close_frame : option bytes) (now : Z) (ev : PumpEvent) (p : Pump) : Pump :=
  match pu_stage p, ev with
  | PuSelect, PvTimer close_sent =>
      if timer_due p now then
        if pu_closing p || at_boundary (pu_frames p) then pump_deadline_end close_frame close_sent now p (pu_frames p) (pu_written p)
        else pump_close_begins p now
      else p
  | PuSelect, PvRead r =>
      if timer_due p now then p
      else match r with
           | None => pump_stage p (PuClosed EndBroken now) (pu_read p) (pu_written p) (pu_frames p)
           | Some [] => pump_stage p (PuClosed EndEof now) (pu_read p) (pu_written p) (pu_frames p)
           | Some data => pump_stage p (PuWriting data) (pu_read p ++ data) (pu_written p) (pu_frames p)
           end
  | PuWriting data, PvWritten close_sent =>
      let frames := feed (pu_frames p) data in
      if pu_closing p && at_boundary frames then pump_deadline_end close_frame close_sent now p frames (pu_written p ++ data)
      else pump_stage p PuSelect (pu_read p) (pu_written p ++ data) frames
  | PuWriting data, PvWriteFailed sent =>
      pump_stage p (PuClosed EndBroken now) (pu_read p) (pu_written p ++ ztake sent data) (pu_frames p)
  | _, _ => p
  end.

(** A read gives at most the 16 KiB of the buffer. *)
Definition event_ok (ev : PumpEvent) : Prop :=
  match ev with PvRead (Some data) => bytes_ok data /\ zlen data <= 16 * 1024 | _ => True end.

Inductive pump_reach (deadline : option Z) (close_frame : option bytes) : Z -> Pump -> Prop :=
| pump_start now : pump_reach deadline close_frame now (Pump_new deadline close_frame)
| pump_more now now' ev p :
    pump_reach deadline close_frame now p -> now <= now' -> event_ok ev ->
    pump_reach deadline close_frame now' (pump_turn close_frame now' ev p).

(** Why a direction was closed by the front. *)
Definition closed_well (deadline : option Z) (close_frame : option bytes) (closed_at : Z) (p : Pump) : Prop :=
  exists d, deadline = Some d /\ d <= closed_at /\
    (close_frame = None \/ whole_frames (pu_read p) \/
     exists t, pu_due p = Some t /\ d <= t /\ t + BOUNDARY_GRACE <= closed_at).

Definition pump_copied (close_frame : option bytes) (p : Pump) : Prop :=
  match pu_stage p with
  | PuSelect | PuClosed EndEof _ => pu_written p = pu_read p
  | PuWriting data => pu_read p = pu_written p ++ data
  | PuClosed EndDeadline _ => exists n, pu_written p = pu_read p ++ ztake n (default [] close_frame)
  | PuClosed EndBroken _ => exists lost, pu_read p = pu_written p ++ lost
  end.

Record pump_inv (deadline : option Z) (close_frame : option bytes) (now : Z) (p : Pump) : Prop := {
  pi_bytes : bytes_ok (pu_read p);
  pi_copied : pump_copied close_frame p;
  pi_enabled : fr_enabled (pu_frames p) = bool_decide (is_Some close_frame);
  pi_frames : forall x, (pu_stage p = PuSelect /\ x = pu_read p \/ exists d, pu_stage p = PuWriting d /\ x = pu_written p) ->
                bytes_ok x /\ (fr_enabled (pu_frames p) = true -> fr_state (pu_frames p) = foldl feed_byte (Header []) x);
  pi_timer : if pu_closing p
             then exists d t, deadline = Some d /\ pu_due p = Some t /\ d <= t <= now /\ pu_deadline p = Some (t + BOUNDARY_GRACE)
             else pu_deadline p = deadline;
  pi_closed : forall t, pu_stage p = PuClosed EndDeadline t -> closed_well deadline close_frame t p
}.

Section pump.
Context (deadline : option Z) (close_frame : option bytes).
Abbreviation inv := (pump_inv deadline close_frame).

Lemma pump_inv_later now now' p : now <= now' -> inv now p -> inv now' p.
Proof.
  intros Hle []. constructor; try done. destruct (pu_closing p); [| done].
  destruct pi_timer0 as (d & t & ? & ? & ? & ?). exists d, t. split_and!; done || lia.
Qed.

Lemma due_deadline now p : inv now p -> timer_due p now = true ->
  exists d, deadline = Some d /\ d <= now /\
    (pu_closing p = true -> exists t, pu_due p = Some t /\ d <= t /\ t + BOUNDARY_GRACE <= now).
Proof.
  intros Hi. pose proof (pi_timer _ _ _ _ Hi) as Ht. unfold timer_due. destruct (pu_closing p).
  - destruct Ht as (d & t & -> & Hd & Hr & ->). intros Hle. apply Z.leb_le in Hle. exists d. split_and!; [done | lia |].
    intros _. exists t. split_and!; [done | lia | lia].
  - rewrite Ht. destruct deadline as [d |]; [| done]. intros Hle. apply Z.leb_le in Hle. exists d. by split_and!.
Qed.

(** What the counter says at a stop in the loop. *)
Lemma counted_whole frames x :
  fr_enabled frames = bool_decide (is_Some close_frame) ->
  bytes_ok x -> (fr_enabled frames = true -> fr_state frames = foldl feed_byte (Header []) x) ->
  at_boundary frames = true -> close_frame = None \/ whole_frames x.
Proof.
  intros He Hx Hs Hb. destruct close_frame as [c |]; [right | by left].
  rewrite bool_decide_true in He by done. specialize (Hs He). apply boundary_whole; [done |].
  destruct frames as [en st]. cbn [fr_enabled fr_state] in *. by subst.
Qed.

Lemma feed_state frames x data : bytes_ok x -> bytes_ok data ->
  (fr_enabled frames = true -> fr_state frames = foldl feed_byte (Header []) x) ->
  fr_enabled (feed frames data) = fr_enabled frames /\
  (fr_enabled (feed frames data) = true -> fr_state (feed frames data) = foldl feed_byte (Header []) (x ++ data)).
Proof.
  intros Hx Hd Hs. unfold feed. destruct (fr_enabled frames) eqn:E; cbn [negb]; [| by rewrite E].
  cbn [fr_enabled fr_state]. split; [done |]. intros _. rewrite Hs, foldl_app by done. apply feed_loop_bytes; [done | done |].
  apply feed_bytes_ok; [done | constructor].
Qed.

Lemma timer_inv now sent p : inv now p -> pu_stage p = PuSelect -> inv now (pump_turn close_frame now (PvTimer sent) p).
Proof.
  intros Hi Hst. unfold pump_turn. rewrite Hst. destruct (timer_due p now) eqn:Ed; [| done].
  destruct (due_deadline now p Hi Ed) as (d & Hd & Hle & Hc). pose proof Hi as [Hb Hcp He Hf Ht Hcl].
  unfold pump_copied in Hcp. rewrite Hst in Hcp. destruct (Hf (pu_read p)) as [_ Hs]; [by left |].
  destruct (pu_closing p || at_boundary (pu_frames p)) eqn:Ec; constructor; cbn; try done.
  - rewrite Hcp. by exists sent.
  - intros x [[? _] | (? & ? & _)]; done.
  - intros t [= <-]. exists d. split_and!; [done | done |]. cbn [pu_read pump_deadline_end pump_stage pu_due].
    apply orb_true_iff in Ec as [Ec | Ec]; [right; right; by apply Hc |].
    destruct (counted_whole (pu_frames p) (pu_read p) He Hb Hs Ec); auto.
  - intros x [[_ ->] | (? & ? & _)]; [by split | done].
  - by exists d, now.
Qed.

Lemma read_inv now r p : event_ok (PvRead r) -> inv now p -> pu_stage p = PuSelect -> inv now (pump_turn close_frame now (PvRead r) p).
Proof.
  intros Hev Hi Hst. unfold pump_turn. rewrite Hst. destruct (timer_due p now); [done |]. pose proof Hi as [Hb Hcp He Hf Ht Hcl].
  unfold pump_copied in Hcp. rewrite Hst in Hcp. destruct (Hf (pu_read p)) as [_ Hs]; [by left |].
  destruct r as [[| b data] |]; constructor; cbn; try done.
  - intros x [[? _] | (? & ? & _)]; done.
  - destruct Hev as [Hd _]. apply bytes_ok_app. by split.
  - by rewrite Hcp.
  - intros x [[? _] | (d & [= <-] & ->)]; [done |]. rewrite Hcp. by split.
  - exists []. by rewrite Hcp, app_nil_r.
  - intros x [[? _] | (? & ? & _)]; done.
Qed.

Lemma written_inv now sent data p :
  inv now p -> pu_stage p = PuWriting data -> inv now (pump_turn close_frame now (PvWritten sent) p).
Proof.
  intros Hi Hst. unfold pump_turn. rewrite Hst. pose proof Hi as [Hb Hcp He Hf Ht Hcl].
  unfold pump_copied in Hcp. rewrite Hst in Hcp. destruct (Hf (pu_written p)) as [Hw Hs]; [right; by exists data |].
  pose proof Hb as Hb'. rewrite Hcp in Hb'. apply bytes_ok_app in Hb' as [_ Hd].
  destruct (feed_state _ _ _ Hw Hd Hs) as [He' Hs']. rewrite He in He'.
  destruct (pu_closing p && at_boundary (feed (pu_frames p) data)) eqn:Ec; constructor; cbn; try done.
  - rewrite Hcp. by exists sent.
  - intros x [[? _] | (? & ? & _)]; done.
  - intros t [= <-]. apply andb_true_iff in Ec as [Ec Ea]. rewrite Ec in Ht. destruct Ht as (d & t & Hdl & _ & Hr & _).
    exists d. split_and!; [done | lia |]. cbn [pu_read pump_deadline_end pump_stage pu_due]. rewrite Hcp.
    destruct (counted_whole (feed (pu_frames p) data) (pu_written p ++ data) He'); auto. rewrite <- Hcp. done.
  - intros x [[_ ->] | (? & ? & _)]; [| done]. rewrite Hcp. split; [by rewrite <- Hcp | done].
Qed.

Lemma failed_inv now sent data p :
  inv now p -> pu_stage p = PuWriting data -> inv now (pump_turn close_frame now (PvWriteFailed sent) p).
Proof.
  intros Hi Hst. unfold pump_turn. rewrite Hst. pose proof Hi as [Hb Hcp He Hf Ht Hcl].
  unfold pump_copied in Hcp. rewrite Hst in Hcp. constructor; cbn; try done.
  - exists (zdrop sent data). by rewrite <- app_assoc, ztake_zdrop.
  - intros x [[? _] | (? & ? & _)]; done.
Qed.

Lemma pump_reach_inv now p : pump_reach deadline close_frame now p -> inv now p.
Proof.
  induction 1 as [now | now now' ev p Hr IH Hle Hev].
  - constructor; cbn; try done; [constructor |]. intros x [[_ ->] | (? & ? & _)]; [| done]. by split; [constructor |].
  - apply (pump_inv_later _ now') in IH; [| done]. destruct (pu_stage p) as [| data | e t] eqn:Hst.
    + destruct ev; [by apply timer_inv | by apply read_inv | by unfold pump_turn; rewrite Hst | by unfold pump_turn; rewrite Hst].
    + destruct ev; [by unfold pump_turn; rewrite Hst | by unfold pump_turn; rewrite Hst | by eapply written_inv | by eapply failed_inv].
    + unfold pump_turn. by rewrite Hst.
Qed.


(** Two looks at the timer close a direction that is not stuck in a write. *)
Lemma splice_closes now1 now2 sent1 sent2 p :
  pu_stage p = PuSelect -> timer_due p now1 = true -> now1 + BOUNDARY_GRACE <= now2 ->
  exists t, pu_stage (pump_turn close_frame now2 (PvTimer sent2) (pump_turn close_frame now1 (PvTimer sent1) p)) = PuClosed EndDeadline t.
Proof.
  intros Hst Hd Hle. unfold pump_turn at 2. rewrite Hst, Hd. destruct (_ || _); [by exists now1 |].
  unfold pump_turn, pump_close_begins, timer_due. cbn [pu_stage pu_deadline pu_closing].
  destruct (Z.leb_spec (now1 + BOUNDARY_GRACE) now2); [| lia]. by exists now2.
Qed.

(** A write that does not finish hides the deadline: the timer is looked at only
    between reads. *)
Lemma stalled_write_outlives_deadline p data timers :
  pu_stage p = PuWriting data ->
  foldl (fun p '(now, sent) => pump_turn close_frame now (PvTimer sent) p) p timers = p.
Proof.
  intros Hst. induction timers as [| [now sent] ts IH]; [done |]. cbn [foldl].
  assert (E : pump_turn close_frame now (PvTimer sent) p = p) by (unfold pump_turn; by rewrite Hst). by rewrite E.
Qed.
End pump.

(** ** The close frames

    Both ends of the splice get a whole frame with code 1001, the agent a masked one. *)
Lemma close_frames m0 m1 m2 m3 : is_byte m0 -> is_byte m1 ->
  ws_frame SERVER_CLOSE_GOING_AWAY /\ ws_frame (masked_close m0 m1 m2 m3) /\
  from_be16 (Z.lxor (at_ (masked_close m0 m1 m2 m3) 6) (at_ (masked_close m0 m1 m2 m3) 2))
            (Z.lxor (at_ (masked_close m0 m1 m2 m3) 7) (at_ (masked_close m0 m1 m2 m3) 3)) = 1001 /\
  from_be16 (at_ SERVER_CLOSE_GOING_AWAY 2) (at_ SERVER_CLOSE_GOING_AWAY 3) = 1001.
Proof.
  intros H0 H1. split_and!.
  - exists [0x88; 0x02], [0x03; 0xE9]. split_and!; reflexivity.
  - exists [0x88; 0x82; m0; m1; m2; m3], [Z.lxor 0x03 m0; Z.lxor 0xE9 m1]. split_and!; reflexivity.
  - change (at_ (masked_close m0 m1 m2 m3) 6) with (Z.lxor 0x03 m0). change (at_ (masked_close m0 m1 m2 m3) 2) with m0.
    change (at_ (masked_close m0 m1 m2 m3) 7) with (Z.lxor 0xE9 m1). change (at_ (masked_close m0 m1 m2 m3) 3) with m1.
    by rewrite !lxor_cancel.
  - reflexivity.
Qed.

(** ** The deadline and the limit of the relay *)

(** From a limit of 25 seconds up the front has closed, the open frame waited for,
    before the relay cuts the connection, which is [age] old when it is upgraded. *)
Lemma closed_before_cap lifetime age d :
  25 <= lifetime -> 0 <= age -> age + Z.min CLOSE_MARGIN (lifetime * SECOND / 5) + SECOND / 10 <= lifetime * SECOND ->
  close_after lifetime age = Some d -> age + d + BOUNDARY_GRACE <= lifetime * SECOND.
Proof.
  intros Hl Ha Hr. unfold close_after. destruct (Z.eqb_spec lifetime 0); [lia |]. intros E. apply Some_inj in E as <-.
  revert Hr. unfold CLOSE_MARGIN, BOUNDARY_GRACE, SECOND, sat_sub. change (10 ^ 9) with 1000000000.
  change (1000000000 / 10) with 100000000. assert (E : lifetime * 1000000000 / 5 = lifetime * 200000000) by (symmetry; apply Z.div_unique with 0; lia).
  rewrite E. lia.
Qed.

(** A limit of ten seconds leaves a margin of two, and the wait for the end of a
    frame is five: the relay cuts first. *)
Lemma short_cap_cut_by_relay : exists d,
  close_after 10 0 = Some d /\ 10 * SECOND < d + BOUNDARY_GRACE /\ d < 10 * SECOND.
Proof. exists (8 * SECOND). split_and!; reflexivity. Qed.

Definition run_pump (deadline : option Z) (close_frame : option bytes) (evs : list (Z * PumpEvent)) : Pump :=
  foldl (fun p '(now, ev) => pump_turn close_frame now ev p) (Pump_new deadline close_frame) evs.

Fixpoint events_ok (start : Z) (evs : list (Z * PumpEvent)) : Prop :=
  match evs with [] => True | (now, ev) :: evs => start <= now /\ event_ok ev /\ events_ok now evs end.

Lemma pump_run_reach deadline close_frame start evs p :
  pump_reach deadline close_frame start p -> events_ok start evs ->
  exists now, pump_reach deadline close_frame now (foldl (fun p '(now, ev) => pump_turn close_frame now ev p) p evs).
Proof.
  revert start p. induction evs as [| [now ev] evs IH]; intros start p Hp Hok; [by exists start |].
  destruct Hok as (Hle & Hev & Hok). cbn [foldl]. apply (IH now); [by apply (pump_more _ _ start) | done].
Qed.

(** A frame is open at the deadline and ends ten ticks later. *)
Definition ex_pump : Pump :=
  run_pump (Some 100) (Some SERVER_CLOSE_GOING_AWAY)
    [(10, PvRead (Some [0x81])); (11, PvWritten 0); (100, PvTimer 0); (110, PvRead (Some [1; 7])); (111, PvWritten 4)].

Lemma ex_pump_reach : exists now, pump_reach (Some 100) (Some SERVER_CLOSE_GOING_AWAY) now ex_pump.
Proof.
  apply (pump_run_reach _ _ 0); [constructor |]. cbn. unfold bytes_ok, is_byte, zlen. cbn. split_and!; try lia; repeat constructor; lia.
Qed.


Example ex_pump_closed : pu_written ex_pump = [0x81; 1; 7] ++ SERVER_CLOSE_GOING_AWAY /\ pu_stage ex_pump = PuClosed EndDeadline 111.
Proof. split; reflexivity. Qed.
