(* ===== verification/WebFront.v ===== *)
(** * The browser front (xr-web/src/app.rs, xr-web/src/pool.rs)

    Addressing by [Host], the gate of the session, the request the agent gets, the
    pool of connections to agents, and the handlers as a machine: one step is one
    handler up to its next await, so requests interleave as the runtime lets them. *)

From S2P Require Import Prelude Text UserRule Share Http WebSession WebSplice.

(** ** Addressing *)

Definition SERVICE_PREFIX : bytes := str "/.xr-web/".
Definition SHARE_LABEL : bytes := str "s".

Definition HOP_BY_HOP : list bytes :=
  [str "connection"; str "keep-alive"; str "proxy-authenticate"; str "proxy-authorization"; str "te"; str "trailer";
   str "transfer-encoding"; str "upgrade"].
Definition CLIENT_ADDR_HEADERS : list bytes := [str "x-forwarded-for"; str "x-real-ip"; str "forwarded"].

Definition EXPOSE_HEADER : bytes := str "x-xr-expose".
Definition FORWARDED_AUTH_HEADER : bytes := str "x-xr-forwarded-authorization".

Fixpoint strip_char (c : Z) (l : bytes) : bytes :=
  match l with [] => [] | b :: r => if b =? c then strip_char c r else l end.

(** [trim_start_matches(c)] and [trim_end_matches(c)] of a character. *)
Definition trim_start_char (c : Z) (l : bytes) : bytes := strip_char c l.
Definition trim_end_char (c : Z) (l : bytes) : bytes := rev (strip_char c (rev l)).

Definition web_domain (raw : bytes) : bytes := to_ascii_lowercase (trim_start_char 46 (trim raw)).

Definition publication_of (host domain : bytes) : option bytes :=
  let host := to_ascii_lowercase (trim host) in
  let host := trim_end_char 46 (hd [] (split 58 host)) in
  name ← strip_suffix (str "." ++ domain) host;
  if valid_publication_name name && negb (bool_decide (name = SHARE_LABEL)) then Some name else None.

(** A path the front keeps: [/.xr-web] itself and all under it. *)
Definition service_path (path : bytes) : bool :=
  starts_with SERVICE_PREFIX path || bool_decide (path = trim_end_char 47 SERVICE_PREFIX).

(** The routes of [router]; another method on a service route is refused by the framework. *)
Inductive Handler := HHealthz | HLogin | HLogout | HMethodNotAllowed | HEntry.

Definition front_route (method path : bytes) : Handler :=
  if bool_decide (path = str "/.xr-web/healthz") then
    (if bool_decide (method = str "GET") || bool_decide (method = str "HEAD") then HHealthz else HMethodNotAllowed)
  else if bool_decide (path = str "/.xr-web/login") then (if bool_decide (method = str "POST") then HLogin else HMethodNotAllowed)
  else if bool_decide (path = str "/.xr-web/logout") then (if bool_decide (method = str "POST") then HLogout else HMethodNotAllowed)
  else HEntry.

(** ** Requests and answers *)

Section front.
Context {M : Type} `{HeaderMap M} `{HeaderText} `{UrlBase64}.

(** serde's JSON of a mandate. *)
Variable expose_json : ExposeToken -> bytes.

(** [wq_peer]: the address the listener put into the request; [wq_on_upgrade]:
    the handle of its own side of an upgrade. *)
Record WebRequest := {
  wq_method : bytes; wq_path : bytes; wq_query : option bytes; wq_headers : M; wq_body : bytes; wq_peer : option bytes;
  wq_on_upgrade : bool
}.

Record WebResponse := { wp_status : Z; wp_headers : M; wp_body : bytes }.

Definition with_headers (req : WebRequest) (h : M) : WebRequest :=
  {| wq_method := wq_method req; wq_path := wq_path req; wq_query := wq_query req; wq_headers := h; wq_body := wq_body req;
     wq_peer := wq_peer req; wq_on_upgrade := wq_on_upgrade req |}.

(** The upgrade handle goes to the front before the request leaves. *)
Definition take_upgrade (req : WebRequest) : WebRequest :=
  {| wq_method := wq_method req; wq_path := wq_path req; wq_query := wq_query req; wq_headers := wq_headers req;
     wq_body := wq_body req; wq_peer := wq_peer req; wq_on_upgrade := false |}.

Definition host_of (h : M) : bytes := default [] (hget_str h (str "host")).

Definition peer_of (req : WebRequest) : bytes :=
  let forwarded := (hget_str (wq_headers req) (str "x-forwarded-for")) ≫= (fun v => Some (trim (hd [] (split 44 v)))) in
  match forwarded with
  | Some p => if bool_decide (p = []) then default (str "-") (wq_peer req) else p
  | None => default (str "-") (wq_peer req)
  end.

Definition session_token (h : M) : option bytes := hget_str h (str "cookie") ≫= token_from_cookie_header.

Definition wants_json (h : M) : bool :=
  contains_key h (str "x-requested-with") ||
  match hget_str h (str "accept") with Some v => contains (str "application/json") (to_ascii_lowercase v) | None => false end.

Definition encode_expose_mandate (token : ExposeToken) : bytes := url64_encode (expose_json token).

Definition upstream_headers (h : M) (route : WebRoute) (host publication : bytes) (upgrade : option bytes) : M :=
  let h := remove_names HOP_BY_HOP h in
  let h := remove_names CLIENT_ADDR_HEADERS h in
  let h := match upgrade with
           | Some proto => match from_str proto with
                           | Some value => hm_insert (str "connection") (str "upgrade") (hm_insert (str "upgrade") value h)
                           | None => h
                           end
           | None => h
           end in
  let h := move_header (str "authorization") FORWARDED_AUTH_HEADER h in
  let h := insert_str (str "authorization") (str "Bearer " ++ encode_expose_mandate (wr_expose_token route)) h in
  let h := insert_str EXPOSE_HEADER publication h in
  let h := hm_insert (str "x-forwarded-proto") (str "https") h in
  let h := insert_str (str "x-forwarded-host") host h in
  match hget_str h (str "cookie") with
  | Some raw => match cookie_header_without_session raw with
                | Some rest => insert_str (str "cookie") rest h
                | None => hm_remove (str "cookie") h
                end
  | None => h
  end.

Definition upstream_request (req : WebRequest) (route : WebRoute) (host publication : bytes) (upgrade : option bytes) :
    WebRequest := with_headers req (upstream_headers (wq_headers req) route host publication upgrade).

(** ** The pool of connections (pool.rs)

    A connection is a number, given when it is dialled; whether its sender is ready
    is told by the HTTP library. *)

Definition IDLE_TTL : Z := 90 * SECOND.
Definition MAX_IDLE_PER_PUBLICATION : nat := 8.

Record Idle := { id_conn : nat; id_since : Z; id_opened_at : Z }.

Record Lease := { ls_publication : bytes; ls_conn : nat; ls_opened_at : Z }.

(** [while let Some(idle) = queue.pop()], on the reversed queue. *)
Fixpoint pop_idle (ready : nat -> bool) (inst : Z) (rq : list Idle) : list Idle * option Idle :=
  match rq with
  | [] => ([], None)
  | i :: rest => if (inst - id_since i <? IDLE_TTL) && ready (id_conn i) then (rest, Some i) else pop_idle ready inst rest
  end.

Definition take_idle (pool : gmap bytes (list Idle)) (publication : bytes) (ready : nat -> bool) (inst : Z) :
    gmap bytes (list Idle) * option Lease :=
  match pool !! publication with
  | None => (pool, None)
  | Some queue =>
      let (rest, o) := pop_idle ready inst (rev queue) in
      (<[publication := rev rest]> pool,
       (fun i => {| ls_publication := publication; ls_conn := id_conn i; ls_opened_at := id_opened_at i |}) <$> o)
  end.

(** [Drop for Lease]. *)
Definition put_idle (pool : gmap bytes (list Idle)) (l : Lease) (ready : nat -> bool) (inst : Z) : gmap bytes (list Idle) :=
  if negb (ready (ls_conn l)) then pool
  else
    let queue := filter (fun i => inst - id_since i < IDLE_TTL) (default [] (pool !! ls_publication l)) in
    let queue := if (length queue <? MAX_IDLE_PER_PUBLICATION)%nat
                 then queue ++ [{| id_conn := ls_conn l; id_since := inst; id_opened_at := ls_opened_at l |}] else queue in
    <[ls_publication l := queue]> pool.

Definition idle_count (pool : gmap bytes (list Idle)) (publication : bytes) : nat := length (default [] (pool !! publication)).

(** The endpoints of the dialer: one live multiplexer to the relay per publication,
    replaced when the route is. [from_grant] opens one (relay_client.rs). *)
Definition dialer_endpoint {E} (from_grant : RelayGrant -> result E bytes) (endpoints : gmap bytes (Z * E)) (route : WebRoute) :
    gmap bytes (Z * E) * result E bytes :=
  let fresh :=
    match from_grant {| rgr_addr := rd_addr (wr_relay route); rgr_port := rd_port (wr_relay route); rgr_obf := rd_obf (wr_relay route);
                        rgr_relay_token := wr_relay_token route |} with
    | Ok e => (<[wr_publication route := (wr_exp route, e)]> endpoints, Ok e)
    | Err why => (endpoints, Err why)
    end in
  match endpoints !! wr_publication route with
  | Some (exp, e) => if exp =? wr_exp route then (endpoints, Ok e) else fresh
  | None => fresh
  end.

(** ** The handlers *)

(** The pages, without their text. *)
Inductive LoginError := LeBadForm | LeTooMany (secs : Z) | LeWrong.
Inductive FailurePage :=
| FpUnknownHost (share : bool) | FpServicePath | FpNoPublication | FpNoRoute (why : bytes) | FpAgentOffline | FpNoChannel (why : bytes)
| FpBroken (why : bytes) | FpStraySwitch | FpLoginUnavailable (why : HubError).

Inductive WebReply :=
| WpLogin (status : Z) (publication : bytes) (e : option LoginError)
| WpFailure (status : Z) (page : FailurePage)
| WpUnauthenticated
| WpRedirect (cookie : bytes)
| WpOk
| WpMethodNotAllowed
| WpAgent (response : WebResponse).

(** What the runtime keeps of a handler that awaits: the verdict of the hub, the
    route, the connection, the answer of the agent, the end of its body. *)
Inductive WebTask :=
| WtVerify (publication username key : bytes)
| WtRoute (publication host : bytes) (req : WebRequest)
| WtDial (publication host : bytes) (req : WebRequest) (route : WebRoute) (opened_at : Z)
| WtSend (publication : bytes) (route : WebRoute) (lease : Lease) (browser_upgrade : bool)
| WtBody (lease : Lease)
| WtSplice (conn : nat) (proto : bytes) (close_in : option Z).

Inductive WebEffect :=
| WeReply (id : nat) (r : WebReply)
| WeVerify (id : nat) (username password : bytes)
| WeAskRoute (id : nat) (publication : bytes)
| WeDial (id : nat) (route : WebRoute)
| WeSend (id : nat) (conn : nat) (req : WebRequest)
| WeClose (conn : nat)
| WeSplice (conn : nat) (proto : bytes) (close_in : option Z).

(** The clocks an action reads: the wall clock in milliseconds, the monotonic one. *)
Record Clock := { ck_ms : Z; ck_inst : Z }.
Definition now_unix (c : Clock) : Z := ck_ms c / 1000.

(** [fr_log] is the history of the sessions, kept by no code. *)
Record Front := {
  fr_domain : bytes; fr_sessions : Sessions; fr_attempts : gmap bytes LoginAttempt; fr_routes : gmap bytes WebRoute;
  fr_pool : gmap bytes (list Idle); fr_tasks : gmap nat WebTask; fr_log : list session_event
}.

Definition Front_new (domain : bytes) (session_ttl : Z) : Front :=
  {| fr_domain := web_domain domain; fr_sessions := Sessions_new session_ttl; fr_attempts := ∅; fr_routes := ∅; fr_pool := ∅;
     fr_tasks := ∅; fr_log := [] |}.

Definition set_sessions (s : Front) (ss : Sessions) (log : list session_event) : Front :=
  {| fr_domain := fr_domain s; fr_sessions := ss; fr_attempts := fr_attempts s; fr_routes := fr_routes s; fr_pool := fr_pool s;
     fr_tasks := fr_tasks s; fr_log := log |}.
Definition set_attempts (s : Front) (m : gmap bytes LoginAttempt) : Front :=
  {| fr_domain := fr_domain s; fr_sessions := fr_sessions s; fr_attempts := m; fr_routes := fr_routes s; fr_pool := fr_pool s;
     fr_tasks := fr_tasks s; fr_log := fr_log s |}.
Definition set_routes (s : Front) (m : gmap bytes WebRoute) : Front :=
  {| fr_domain := fr_domain s; fr_sessions := fr_sessions s; fr_attempts := fr_attempts s; fr_routes := m; fr_pool := fr_pool s;
     fr_tasks := fr_tasks s; fr_log := fr_log s |}.
Definition set_pool (s : Front) (m : gmap bytes (list Idle)) : Front :=
  {| fr_domain := fr_domain s; fr_sessions := fr_sessions s; fr_attempts := fr_attempts s; fr_routes := fr_routes s; fr_pool := m;
     fr_tasks := fr_tasks s; fr_log := fr_log s |}.
Definition set_tasks (s : Front) (m : gmap nat WebTask) : Front :=
  {| fr_domain := fr_domain s; fr_sessions := fr_sessions s; fr_attempts := fr_attempts s; fr_routes := fr_routes s;
     fr_pool := fr_pool s; fr_tasks := m; fr_log := fr_log s |}.

Definition await (s : Front) (id : nat) (t : WebTask) : Front := set_tasks s (<[id := t]> (fr_tasks s)).
Definition done_task (s : Front) (id : nat) : Front := set_tasks s (delete id (fr_tasks s)).

Definition unknown_host (host domain : bytes) : WebReply :=
  WpFailure 404 (FpUnknownHost (bool_decide (hd [] (split 58 host) = SHARE_LABEL ++ str "." ++ domain))).

Definition login_key (peer publication : bytes) : bytes := peer ++ str "|" ++ publication.

(** *** login *)
Definition login (s : Front) (id : nat) (req : WebRequest) (form : option (bytes * bytes)) (c : Clock) : Front * list WebEffect :=
  let host := host_of (wq_headers req) in
  let peer := peer_of req in
  match publication_of host (fr_domain s) with
  | None => (s, [WeReply id (unknown_host host (fr_domain s))])
  | Some publication =>
      match form with
      | None => (s, [WeReply id (WpLogin 400 publication (Some LeBadForm))])
      | Some (username, password) =>
          let key := login_key peer publication in
          match login_blocked_for (fr_attempts s) key (ck_ms c) with
          | Some wait_ms => (s, [WeReply id (WpLogin 429 publication (Some (LeTooMany ((wait_ms + 999) / 1000))))])
          | None => (await s id (WtVerify publication username key), [WeVerify id username password])
          end
      end
  end.

Definition login_verdict (s : Front) (id : nat) (publication username key : bytes) (verdict : result bool HubError) (c : Clock)
    (random : bytes) : Front * list WebEffect :=
  let s := done_task s id in
  match verdict with
  | Ok true =>
      let s := set_attempts s (login_succeeded (fr_attempts s) key) in
      let (ss, token) := Sessions_open (fr_sessions s) publication username (now_unix c) random in
      (set_sessions s ss (SeOpen random publication username (now_unix c) :: fr_log s),
       [WeReply id (WpRedirect (set_cookie token (ttl_secs ss)))])
  | Ok false =>
      (set_attempts s (login_failed (fr_attempts s) key (ck_ms c)), [WeReply id (WpLogin 401 publication (Some LeWrong))])
  | Err e => (s, [WeReply id (WpFailure 503 (FpLoginUnavailable e))])
  end.

(** *** logout *)
Definition logout (s : Front) (id : nat) (h : M) (c : Clock) : Front * list WebEffect :=
  let s := match session_token h with
           | Some token => set_sessions s (Sessions_close (fr_sessions s) token).1 (SeClose token (now_unix c) :: fr_log s)
           | None => s
           end in
  (s, [WeReply id (WpRedirect clear_cookie)]).

(** *** The way of a request to the agent *)

(** From the lease to [send_request]. *)
Definition send_to_agent (s : Front) (id : nat) (publication host : bytes) (req : WebRequest) (route : WebRoute) (lease : Lease) :
    Front * list WebEffect :=
  let asked := requested (wq_headers req) in
  let browser := bool_decide (is_Some asked) && wq_on_upgrade req in
  (await s id (WtSend publication route lease browser),
   [WeSend id (ls_conn lease) (upstream_request (take_upgrade req) route host publication asked)]).

(** From the route to the connection: [checkout] up to its await. *)
Definition with_route (s : Front) (id : nat) (publication host : bytes) (req : WebRequest) (route : WebRoute)
    (ready : nat -> bool) (c : Clock) : Front * list WebEffect :=
  let (pool, lease) := take_idle (fr_pool s) (wr_publication route) ready (ck_inst c) in
  let s := set_pool s pool in
  match lease with
  | Some lease => send_to_agent s id publication host req route lease
  | None => (await s id (WtDial publication host req route (ck_inst c)), [WeDial id route])
  end.

Definition serve_publication (s : Front) (id : nat) (publication host : bytes) (req : WebRequest) (ready : nat -> bool) (c : Clock) :
    Front * list WebEffect :=
  let '(s, session) :=
    match session_token (wq_headers req) with
    | None => (s, None)
    | Some token =>
        let (ss, user) := Sessions_touch (fr_sessions s) token publication (now_unix c) in
        (set_sessions s ss (SeTouch token publication (now_unix c) :: fr_log s), user)
    end in
  match session with
  | None => (s, [WeReply id (if wants_json (wq_headers req) then WpUnauthenticated else WpLogin 200 publication None)])
  | Some _ =>
      match route_fresh (fr_routes s) publication (now_unix c) with
      | Some route => with_route s id publication host req route ready c
      | None => (await s id (WtRoute publication host req), [WeAskRoute id publication])
      end
  end.

Definition entry (s : Front) (id : nat) (req : WebRequest) (ready : nat -> bool) (c : Clock) : Front * list WebEffect :=
  let host := host_of (wq_headers req) in
  match publication_of host (fr_domain s) with
  | None => (s, [WeReply id (unknown_host host (fr_domain s))])
  | Some publication =>
      if service_path (wq_path req) then (s, [WeReply id (WpFailure 404 FpServicePath)])
      else serve_publication s id publication host req ready c
  end.

(** The answer of the hub: [get] stores it, a refusal is not stored. *)
Definition route_answered (s : Front) (id : nat) (publication host : bytes) (req : WebRequest) (answer : result WebRoute HubError)
    (ready : nat -> bool) (c : Clock) : Front * list WebEffect :=
  let s := done_task s id in
  let (routes, got) := route_got (fr_routes s) publication answer in
  let s := set_routes s routes in
  match got with
  | Ok route => with_route s id publication host req route ready c
  | Err HubNotFound => (s, [WeReply id (WpFailure 404 FpNoPublication)])
  | Err (HubUnavailable why) => (s, [WeReply id (WpFailure 502 (FpNoRoute why))])
  end.

Definition RELAY_ERR_AGENT_OFFLINE : bytes := str "relay: agent offline".

Definition dialed (s : Front) (id : nat) (publication host : bytes) (req : WebRequest) (route : WebRoute) (opened_at : Z)
    (conn : result nat bytes) : Front * list WebEffect :=
  let s := done_task s id in
  match conn with
  | Ok conn => send_to_agent s id publication host req route
                 {| ls_publication := wr_publication route; ls_conn := conn; ls_opened_at := opened_at |}
  | Err e => (s, [WeReply id (WpFailure 502 (if bool_decide (e = RELAY_ERR_AGENT_OFFLINE) then FpAgentOffline else FpNoChannel e))])
  end.

Definition switch_protocols (s : Front) (id : nat) (route : WebRoute) (lease : Lease) (resp : WebResponse) (browser_upgrade : bool)
    (c : Clock) : Front * list WebEffect :=
  if negb browser_upgrade then (s, [WeReply id (WpFailure 502 FpStraySwitch); WeClose (ls_conn lease)])
  else
    let proto := default (str "unknown") (hget_str (wp_headers resp) (str "upgrade")) in
    let close_in := close_after (wr_splice_lifetime_secs route) (sat_sub (ck_inst c) (ls_opened_at lease)) in
    (await s id (WtSplice (ls_conn lease) proto close_in),
     [WeReply id (WpAgent {| wp_status := wp_status resp; wp_headers := wp_headers resp; wp_body := [] |});
      WeSplice (ls_conn lease) proto close_in]).

Definition agent_answered (s : Front) (id : nat) (publication : bytes) (route : WebRoute) (lease : Lease) (browser_upgrade : bool)
    (answer : result WebResponse bytes) (ready : nat -> bool) (c : Clock) : Front * list WebEffect :=
  let s := done_task s id in
  match answer with
  | Ok resp =>
      if wp_status resp =? 101 then switch_protocols s id route lease resp browser_upgrade c
      else
        let resp := {| wp_status := wp_status resp; wp_headers := remove_names HOP_BY_HOP (wp_headers resp); wp_body := wp_body resp |} in
        let s := if wp_status resp =? 403 then set_routes s (route_forget (fr_routes s) publication) else s in
        (await s id (WtBody lease), [WeReply id (WpAgent resp)])
  | Err e => (set_pool s (put_idle (fr_pool s) lease ready (ck_inst c)), [WeReply id (WpFailure 502 (FpBroken e))])
  end.

(** The body ended, broke off or was dropped with the connection of the browser. *)
Definition body_ended (s : Front) (id : nat) (lease : Lease) (ready : nat -> bool) (c : Clock) : Front * list WebEffect :=
  let s := done_task s id in (set_pool s (put_idle (fr_pool s) lease ready (ck_inst c)), []).

(** ** The front as a machine *)

Inductive WebAct :=
| WaRequest (id : nat) (req : WebRequest) (form : option (bytes * bytes)) (c : Clock)
| WaVerdict (id : nat) (verdict : result bool HubError) (random : bytes) (c : Clock)
| WaRoute (id : nat) (answer : result WebRoute HubError) (c : Clock)
| WaDialed (id : nat) (conn : result nat bytes)
| WaAnswer (id : nat) (answer : result WebResponse bytes) (c : Clock)
| WaBodyEnd (id : nat) (c : Clock)
| WaSpliceEnd (id : nat)
| WaGone (id : nat) (c : Clock).

(** [WaGone]: a browser that goes away drops the handler at its await, and the lease
    with it; a splice is a task of its own. *)
Definition front_act (ready : nat -> bool) (a : WebAct) (s : Front) : Front * list WebEffect :=
  match a with
  | WaRequest id req form c =>
      match front_route (wq_method req) (wq_path req) with
      | HHealthz => (s, [WeReply id WpOk])
      | HLogin => login s id req form c
      | HLogout => logout s id (wq_headers req) c
      | HMethodNotAllowed => (s, [WeReply id WpMethodNotAllowed])
      | HEntry => entry s id req ready c
      end
  | WaVerdict id verdict random c =>
      match fr_tasks s !! id with
      | Some (WtVerify publication username key) => login_verdict s id publication username key verdict c random
      | _ => (s, [])
      end
  | WaRoute id answer c =>
      match fr_tasks s !! id with
      | Some (WtRoute publication host req) => route_answered s id publication host req answer ready c
      | _ => (s, [])
      end
  | WaDialed id conn =>
      match fr_tasks s !! id with
      | Some (WtDial publication host req route opened_at) => dialed s id publication host req route opened_at conn
      | _ => (s, [])
      end
  | WaAnswer id answer c =>
      match fr_tasks s !! id with
      | Some (WtSend publication route lease browser) => agent_answered s id publication route lease browser answer ready c
      | _ => (s, [])
      end
  | WaBodyEnd id c =>
      match fr_tasks s !! id with
      | Some (WtBody lease) => body_ended s id lease ready c
      | _ => (s, [])
      end
  | WaSpliceEnd id =>
      match fr_tasks s !! id with
      | Some (WtSplice conn _ _) => (done_task s id, [WeClose conn])
      | _ => (s, [])
      end
  | WaGone id c =>
      match fr_tasks s !! id with
      | Some (WtSend _ _ lease _ | WtBody lease) => body_ended s id lease ready c
      | Some (WtSplice _ _ _) | None => (s, [])
      | Some _ => (done_task s id, [])
      end
  end.

(** A trace, newest first: the actions and what they made the front do. *)
Definition web_trace : Type := list (WebAct * list WebEffect).

Definition used_id (tr : web_trace) (id : nat) : Prop := exists req form c es, (WaRequest id req form c, es) ∈ tr.
Definition used_conn (tr : web_trace) (conn : nat) : Prop := exists id es, (WaDialed id (Ok conn), es) ∈ tr.

(** A request is new, and so is a connection. *)
Definition act_ok (tr : web_trace) (a : WebAct) : Prop :=
  match a with
  | WaRequest id _ _ _ => ~ used_id tr id
  | WaDialed _ (Ok conn) => ~ used_conn tr conn
  | _ => True
  end.

Inductive front_reach (domain : bytes) (ttl : Z) : web_trace -> Front -> Prop :=
| front_start : front_reach domain ttl [] (Front_new domain ttl)
| front_step tr s ready a :
    front_reach domain ttl tr s -> act_ok tr a ->
    front_reach domain ttl ((a, (front_act ready a s).2) :: tr) (front_act ready a s).1.

(** ** Who reaches an agent *)

Section reach.
Context (domain : bytes) (ttl : Z).
Abbreviation reach := (front_reach domain ttl).

(** The login behind a token: the hub accepted a password given on this publication. *)
Definition logged_in (tr : web_trace) (random publication username : bytes) : Prop :=
  exists id req password c c' es es',
    (WaVerdict id (Ok true) random c', es') ∈ tr /\ WeReply id (WpRedirect (set_cookie (url64_encode random) ttl)) ∈ es' /\
    (WaRequest id req (Some (username, password)) c, es) ∈ tr /\ WeVerify id username password ∈ es /\
    publication_of (host_of (wq_headers req)) (web_domain domain) = Some publication.

(** The moment the request [id] passed the gate. *)
Definition admitted (tr : web_trace) (id : nat) (req : WebRequest) (publication : bytes) : Prop :=
  exists tr1 tr2 s form c es random username last,
    tr = tr1 ++ (WaRequest id req form c, es) :: tr2 /\ reach tr2 s /\
    publication_of (host_of (wq_headers req)) (web_domain domain) = Some publication /\ service_path (wq_path req) = false /\
    session_token (wq_headers req) = Some (url64_encode random) /\
    owner_of ttl (fr_log s) (url64_encode random) = Some (publication, username, last) /\
    now_unix c < sat_add U64_MAX last ttl /\ logged_in tr2 random publication username.

(** The hub gave the route when it was asked for this publication. *)
Definition from_hub (tr : web_trace) (publication : bytes) (route : WebRoute) : Prop :=
  exists id a es c es', (a, es) ∈ tr /\ WeAskRoute id publication ∈ es /\ (WaRoute id (Ok route) c, es') ∈ tr.

Lemma logged_in_cons e tr r p u : logged_in tr r p u -> logged_in (e :: tr) r p u.
Proof. intros (id & req & pw & c & c' & es & es' & Hx1 & Hx2 & Hx3 & Hx4 & Hx5). exists id, req, pw, c, c', es, es'. split_and!; try done; by right. Qed.

Lemma admitted_cons e tr id req p : admitted tr id req p -> admitted (e :: tr) id req p.
Proof.
  intros (tr1 & tr2 & s & form & c & es & r & u & last & -> & Hr). exists (e :: tr1), tr2, s, form, c, es, r, u, last. by split.
Qed.

Lemma from_hub_cons e tr p r : from_hub tr p r -> from_hub (e :: tr) p r.
Proof. intros (id & a & es & c & es' & Hx1 & Hx2 & Hx3). exists id, a, es, c, es'. split_and!; try done; by right. Qed.

Definition task_ok (tr : web_trace) (id : nat) (t : WebTask) : Prop :=
  match t with
  | WtVerify publication username _ =>
      exists req password c es, (WaRequest id req (Some (username, password)) c, es) ∈ tr /\ WeVerify id username password ∈ es /\
        publication_of (host_of (wq_headers req)) (web_domain domain) = Some publication
  | WtRoute publication host req =>
      admitted tr id req publication /\ host = host_of (wq_headers req) /\
      exists a es, (a, es) ∈ tr /\ WeAskRoute id publication ∈ es
  | WtDial publication host req route _ =>
      admitted tr id req publication /\ host = host_of (wq_headers req) /\ from_hub tr publication route
  | _ => True
  end.

Record gate_inv (tr : web_trace) (s : Front) : Prop := {
  gi_domain : fr_domain s = web_domain domain;
  gi_sessions : fr_sessions s = sessions_after ttl (fr_log s);
  gi_logins : forall r p u now, SeOpen r p u now ∈ fr_log s -> logged_in tr r p u;
  gi_routes : forall p route, fr_routes s !! p = Some route -> from_hub tr p route;
  gi_tasks : forall id t, fr_tasks s !! id = Some t -> task_ok tr id t
}.

(** What a request to an agent is made of. *)
Definition send_ok (tr : web_trace) (id : nat) (out : WebRequest) : Prop :=
  exists req publication route, admitted tr id req publication /\ from_hub tr publication route /\
    out = upstream_request (take_upgrade req) route (host_of (wq_headers req)) publication (requested (wq_headers req)).

Lemma task_ok_cons e tr id t : task_ok tr id t -> task_ok (e :: tr) id t.
Proof.
  destruct t as [p u k | p h req | p h req route o | | |]; cbn; try done.
  - intros (req & pw & c & es & Hx1 & Hx2 & Hx3). exists req, pw, c, es. split_and!; [by right | done | done].
  - intros (Hx1 & Hx2 & a & es & Hx3 & Hx4). split_and!; [by apply admitted_cons | done |]. exists a, es. split; [by right | done].
  - intros (Hx1 & Hx2 & Hx3). split_and!; [by apply admitted_cons | done | by apply from_hub_cons].
Qed.

Lemma gate_inv_cons e tr s : gate_inv tr s -> gate_inv (e :: tr) s.
Proof.
  intros []. constructor; try done.
  - intros r p u now Hin. eapply logged_in_cons, gi_logins0, Hin.
  - intros p route Hp. by apply from_hub_cons, gi_routes0.
  - intros id t Ht. by apply task_ok_cons, gi_tasks0.
Qed.

Lemma owner_opened h t p u last : owner_of ttl h t = Some (p, u, last) -> exists r now, SeOpen r p u now ∈ h /\ t = url64_encode r.
Proof.
  revert last. induction h as [| e h IH]; intros last; [done |]. destruct e as [r p' u' now | t' p' now | t' now]; cbn [owner_of].
  - destruct (decide (t = url64_encode r)) as [-> |]; [intros [= -> -> ->]; exists r, last; split; [by left | done] |].
    intros Ho. destruct (IH _ Ho) as (r' & at0 & Hin & ->). exists r', at0. split; [by right | done].
  - destruct (owner_of ttl h t) as [[[p0 u0] l0] |]; [| done]. intros Ho.
    assert (p0 = p /\ u0 = u) as [-> ->] by (destruct (decide _); by simplify_eq).
    destruct (IH l0 eq_refl) as (r' & at0 & Hin & ->). exists r', at0. split; [by right | done].
  - destruct (decide (t = t')); [done |]. intros Ho. destruct (IH _ Ho) as (r' & at0 & Hin & ->). exists r', at0. split; [by right | done].
Qed.

(** *** The pieces of a step keep the invariant

    [pool] and [await] touch no session and no route. *)
Lemma gate_pool tr s m : gate_inv tr s -> gate_inv tr (set_pool s m).
Proof. by intros []. Qed.

Lemma gate_attempts tr s m : gate_inv tr s -> gate_inv tr (set_attempts s m).
Proof. by intros []. Qed.

Lemma gate_done tr s id : gate_inv tr s -> gate_inv tr (done_task s id).
Proof. intros []. constructor; try done. cbn. intros id' t [_ Ht]%lookup_delete_Some. by apply gi_tasks0. Qed.

Lemma gate_await tr s id t : gate_inv tr s -> task_ok tr id t -> gate_inv tr (await s id t).
Proof.
  intros [] Ht. constructor; try done. cbn. intros id' t'. destruct (decide (id = id')) as [<- | Hne].
  - rewrite lookup_insert_eq. by intros [= <-].
  - rewrite lookup_insert_ne by done. apply gi_tasks0.
Qed.

Lemma gate_routes tr s m :
  gate_inv tr s -> (forall p route, m !! p = Some route -> from_hub tr p route) -> gate_inv tr (set_routes s m).
Proof. intros [] Hm. by constructor. Qed.

(** A step from [s]: the invariant after, with every request to an agent accounted for. *)
Definition step_ok (tr : web_trace) (s' : Front) (es : list WebEffect) : Prop :=
  gate_inv tr s' /\ forall id conn out, WeSend id conn out ∈ es -> send_ok tr id out.

Lemma step_reply tr s id r : gate_inv tr s -> step_ok tr s [WeReply id r].
Proof. intros Hg. split; [done |]. intros id' conn out Hin. by apply list_elem_of_singleton in Hin. Qed.

Lemma send_step tr s id p req route lease :
  gate_inv tr s -> admitted tr id req p -> from_hub tr p route ->
  step_ok tr (send_to_agent s id p (host_of (wq_headers req)) req route lease).1 (send_to_agent s id p (host_of (wq_headers req)) req route lease).2.
Proof.
  intros Hg Ha Hf. unfold send_to_agent. cbn [fst snd]. split; [by apply gate_await |].
  intros id' conn out [= -> -> ->]%list_elem_of_singleton. by exists req, p, route.
Qed.

Lemma route_step tr s id p req route ready c :
  gate_inv tr s -> admitted tr id req p -> from_hub tr p route ->
  step_ok tr (with_route s id p (host_of (wq_headers req)) req route ready c).1 (with_route s id p (host_of (wq_headers req)) req route ready c).2.
Proof.
  intros Hg Ha Hf. unfold with_route. destruct (take_idle _ _ _ _) as [pool [lease |]].
  - apply send_step; [by apply gate_pool | done | done].
  - cbn [fst snd]. split; [| by intros ? ? ? Hin%list_elem_of_singleton]. apply gate_await; [by apply gate_pool | done].
Qed.

Lemma gate_log tr s e :
  gate_inv tr s -> (forall r p u now, e = SeOpen r p u now -> logged_in tr r p u) ->
  gate_inv tr (set_sessions s (session_act (fr_sessions s) e) (e :: fr_log s)).
Proof.
  intros [] He. constructor; try done.
  - cbn [set_sessions fr_sessions fr_log sessions_after]. by rewrite gi_sessions0.
  - cbn. intros r p u now [Hin | Hin]%elem_of_cons; [by eapply He | by eapply gi_logins0].
Qed.

Lemma gate_touch tr s token p now ss user :
  gate_inv tr s -> Sessions_touch (fr_sessions s) token p now = (ss, user) ->
  gate_inv tr (set_sessions s ss (SeTouch token p now :: fr_log s)).
Proof. intros Hg Ht. assert (ss = session_act (fr_sessions s) (SeTouch token p now)) as -> by (cbn; by rewrite Ht). by apply gate_log. Qed.

Lemma admitted_now tr s id req form c es p token user :
  gate_inv tr s -> reach tr s -> publication_of (host_of (wq_headers req)) (web_domain domain) = Some p ->
  service_path (wq_path req) = false -> session_token (wq_headers req) = Some token ->
  (Sessions_touch (fr_sessions s) token p (now_unix c)).2 = Some user ->
  admitted ((WaRequest id req form c, es) :: tr) id req p.
Proof.
  intros Hg Hr Hp Hs Ht Hu. rewrite (gi_sessions _ _ Hg) in Hu. apply admitted_owner in Hu as (last & Ho & Hl).
  destruct (owner_opened _ _ _ _ _ Ho) as (r & at0 & Hin & ->). exists [], tr, s, form, c, es, r, user, last.
  split_and!; try done. by eapply gi_logins.
Qed.

Lemma entry_step tr s id req form ready c :
  gate_inv tr s -> reach tr s ->
  step_ok ((WaRequest id req form c, (entry s id req ready c).2) :: tr) (entry s id req ready c).1 (entry s id req ready c).2.
Proof.
  intros Hg Hr. unfold entry. rewrite (gi_domain _ _ Hg). destruct (publication_of _ _) as [p |] eqn:Ep; [| by apply step_reply, gate_inv_cons].
  destruct (service_path (wq_path req)) eqn:Es; [by apply step_reply, gate_inv_cons |]. unfold serve_publication.
  destruct (session_token (wq_headers req)) as [token |] eqn:Et; [| by apply step_reply, gate_inv_cons].
  destruct (Sessions_touch _ _ _ _) as [ss user] eqn:Eu. pose proof (gate_touch _ _ _ _ _ _ _ Hg Eu) as Hg'.
  set (s' := set_sessions _ _ _) in *. destruct user as [user |]; [| by apply step_reply, gate_inv_cons].
  assert (Ha : forall es, admitted ((WaRequest id req form c, es) :: tr) id req p).
  { intros es. eapply (admitted_now tr s); try done. by rewrite Eu. }
  destruct (route_fresh _ _ _) as [route |] eqn:Ef.
  - apply route_step; [by apply gate_inv_cons | done |]. apply from_hub_cons, (gi_routes _ _ Hg').
    revert Ef. unfold route_fresh. destruct (fr_routes s' !! p) as [r |]; [| done]. cbn [mbind option_bind]. case_match; [| done]. by intros [= ->].
  - cbn [fst snd]. split; [| by intros ? ? ? Hin%list_elem_of_singleton]. apply gate_await; [by apply gate_inv_cons |].
    split_and!; [done | done |]. exists (WaRequest id req form c), [WeAskRoute id p]. split; by left.
Qed.

Lemma login_step tr s id req form c :
  gate_inv tr s -> step_ok ((WaRequest id req form c, (login s id req form c).2) :: tr) (login s id req form c).1 (login s id req form c).2.
Proof.
  intros Hg. unfold login. rewrite (gi_domain _ _ Hg). destruct (publication_of _ _) as [p |] eqn:Ep; [| by apply step_reply, gate_inv_cons].
  destruct form as [[u pw] |]; [| by apply step_reply, gate_inv_cons].
  destruct (login_blocked_for _ _ _) as [w |]; [by apply step_reply, gate_inv_cons |].
  cbn [fst snd]. split; [| by intros ? ? ? Hin%list_elem_of_singleton]. apply gate_await; [by apply gate_inv_cons |].
  exists req, pw, c, [WeVerify id u pw]. split_and!; [by left | by left | done].
Qed.

Lemma verdict_step tr s id p u key verdict c r :
  gate_inv tr s -> fr_tasks s !! id = Some (WtVerify p u key) ->
  step_ok ((WaVerdict id verdict r c, (login_verdict s id p u key verdict c r).2) :: tr)
    (login_verdict s id p u key verdict c r).1 (login_verdict s id p u key verdict c r).2.
Proof.
  intros Hg Ht. pose proof (gi_tasks _ _ Hg _ _ Ht) as (req & pw & c0 & es0 & Hx1 & Hx2 & Hx3).
  apply (gate_done _ _ id) in Hg. unfold login_verdict. set (s1 := done_task s id) in *. destruct verdict as [[|] | e].
  - destruct (Sessions_open _ _ _ _ _) as [ss token] eqn:Eo. cbn [fst snd].
    set (s2 := set_attempts s1 _) in *.
    assert (ss = session_act (fr_sessions s2) (SeOpen r p u (now_unix c)) /\ token = url64_encode r) as [-> ->].
    { cbn [session_act]. rewrite Eo. split; [done |]. unfold Sessions_open in Eo. by injection Eo as _ <-. }
    assert (Hg2 : gate_inv tr s2) by (by apply gate_attempts).
    assert (Httl : ttl_secs (session_act (fr_sessions s2) (SeOpen r p u (now_unix c))) = ttl).
    { rewrite (gi_sessions _ _ Hg2). apply (ttl_after ttl (SeOpen r p u (now_unix c) :: fr_log s2)). }
    rewrite Httl. apply step_reply. apply gate_log; [by apply gate_inv_cons |]. intros r' p' u' now' [= <- <- <- <-].
    eexists id, req, pw, c0, c, es0, _. split_and!; [by left | by left | by right | done | done].
  - cbn [fst snd]. apply step_reply. by apply gate_attempts, gate_inv_cons.
  - cbn [fst snd]. apply step_reply. by apply gate_inv_cons.
Qed.

Lemma logout_step tr s id h c e : gate_inv tr s -> step_ok (e :: tr) (logout s id h c).1 (logout s id h c).2.
Proof.
  intros Hg. unfold logout. cbn [fst snd]. apply step_reply. apply gate_inv_cons. destruct (session_token h) as [token |]; [| done].
  by apply (gate_log tr s (SeClose token (now_unix c))).
Qed.

Lemma answered_step tr s id p host req answer ready c :
  gate_inv tr s -> fr_tasks s !! id = Some (WtRoute p host req) ->
  step_ok ((WaRoute id answer c, (route_answered s id p host req answer ready c).2) :: tr)
    (route_answered s id p host req answer ready c).1 (route_answered s id p host req answer ready c).2.
Proof.
  intros Hg Ht. pose proof (gi_tasks _ _ Hg _ _ Ht) as (Ha & -> & a & es & Hin & Hask).
  apply (gate_done _ _ id) in Hg. unfold route_answered. set (s1 := done_task s id) in *. destruct answer as [route | [| why]]; cbn [route_got].
  - set (es' := (with_route _ _ _ _ _ _ _ _).2).
    assert (Hf : from_hub ((WaRoute id (Ok route) c, es') :: tr) p route).
    { exists id, a, es, c, es'. split_and!; [by right | done | by left]. }
    apply route_step; [| by apply admitted_cons | done]. apply gate_routes; [by apply gate_inv_cons |].
    intros p' route'. destruct (decide (p' = p)) as [-> | Hne]; [rewrite lookup_insert_eq; by intros [= <-] |].
    rewrite lookup_insert_ne by done. intros Hp. by apply from_hub_cons, (gi_routes _ _ Hg).
  - apply step_reply. by apply gate_inv_cons.
  - apply step_reply. by apply gate_inv_cons.
Qed.

Lemma dialed_step tr s id p host req route o conn e :
  gate_inv tr s -> fr_tasks s !! id = Some (WtDial p host req route o) ->
  step_ok (e :: tr) (dialed s id p host req route o conn).1 (dialed s id p host req route o conn).2.
Proof.
  intros Hg Ht. pose proof (gi_tasks _ _ Hg _ _ Ht) as (Ha & -> & Hf). apply (gate_done _ _ id) in Hg. unfold dialed. destruct conn as [conn | e'].
  - apply send_step; [by apply gate_inv_cons | by apply admitted_cons | by apply from_hub_cons].
  - apply step_reply. by apply gate_inv_cons.
Qed.

Lemma forget_gate tr s p : gate_inv tr s -> gate_inv tr (set_routes s (route_forget (fr_routes s) p)).
Proof. intros Hg. apply gate_routes; [done |]. unfold route_forget. intros p' route [_ Hp]%lookup_delete_Some. by apply (gi_routes _ _ Hg). Qed.

Lemma agent_step tr s id p route lease b answer ready c e :
  gate_inv tr s -> step_ok (e :: tr) (agent_answered s id p route lease b answer ready c).1 (agent_answered s id p route lease b answer ready c).2.
Proof.
  intros Hg. apply (gate_done _ _ id), (gate_inv_cons e) in Hg. unfold agent_answered. destruct answer as [resp | why].
  - destruct (_ =? 101).
    + unfold switch_protocols. destruct b; cbn [negb fst snd].
      * split; [by apply gate_await | by intros ? ? ? [Hin | Hin%list_elem_of_singleton]%elem_of_cons].
      * split; [done | by intros ? ? ? [Hin | Hin%list_elem_of_singleton]%elem_of_cons].
    + cbn [fst snd]. split; [| by intros ? ? ? Hin%list_elem_of_singleton]. apply gate_await; [| done].
      cbn [wp_status]. destruct (_ =? 403); [by apply forget_gate | done].
  - apply step_reply. by apply gate_pool.
Qed.

Lemma ended_step tr s id lease ready c e : gate_inv tr s -> step_ok (e :: tr) (body_ended s id lease ready c).1 (body_ended s id lease ready c).2.
Proof.
  intros Hg. unfold body_ended. cbn [fst snd]. split; [| by intros ? ? ? ?%elem_of_nil]. by apply gate_pool, gate_inv_cons, gate_done.
Qed.

Lemma step_idle tr s e : gate_inv tr s -> step_ok (e :: tr) s [].
Proof. intros Hg. split; [by apply gate_inv_cons | by intros ? ? ? ?%elem_of_nil]. Qed.

Lemma front_step_ok tr s ready a :
  gate_inv tr s -> reach tr s -> step_ok ((a, (front_act ready a s).2) :: tr) (front_act ready a s).1 (front_act ready a s).2.
Proof.
  intros Hg Hr. destruct a as [id req form c | id verdict r c | id answer c | id conn | id answer c | id c | id | id c]; cbn [front_act].
  - destruct (front_route _ _); [by apply step_reply, gate_inv_cons | by apply login_step | by apply logout_step | by apply step_reply, gate_inv_cons |].
    by apply entry_step.
  - destruct (fr_tasks s !! id) as [[] |] eqn:Et; try (by apply step_idle). by apply verdict_step.
  - destruct (fr_tasks s !! id) as [[] |] eqn:Et; try (by apply step_idle). by apply answered_step.
  - destruct (fr_tasks s !! id) as [[] |] eqn:Et; try (by apply step_idle). by apply dialed_step.
  - destruct (fr_tasks s !! id) as [[] |] eqn:Et; try (by apply step_idle). by apply agent_step.
  - destruct (fr_tasks s !! id) as [[] |] eqn:Et; try (by apply step_idle). by apply ended_step.
  - destruct (fr_tasks s !! id) as [[] |] eqn:Et; try (by apply step_idle). cbn [fst snd].
    split; [by apply gate_inv_cons, gate_done | by intros ? ? ? Hin%list_elem_of_singleton].
  - destruct (fr_tasks s !! id) as [[] |] eqn:Et; try (by apply step_idle); try (by apply ended_step);
      (split; [by apply gate_inv_cons, gate_done | by intros ? ? ? ?%elem_of_nil]).
Qed.

Lemma front_reach_gate tr s : reach tr s -> gate_inv tr s.
Proof.
  induction 1 as [| tr s ready a Hr IH Ha]; [| by apply front_step_ok].
  constructor; try done; cbn. by intros ? ? ? ? ?%elem_of_nil.
Qed.

Lemma send_ok_cons e tr id out : send_ok tr id out -> send_ok (e :: tr) id out.
Proof. intros (req & p & route & Ha & Hf & ->). exists req, p, route. split_and!; [by apply admitted_cons | by apply from_hub_cons | done]. Qed.

(** C36: The gate of the browser front: whatever the order of requests, answers of
    the hub and failures, a request reaches a machine only if it came to the host
    of a publication, outside the service paths, with the token of a session that
    was opened on this very publication by a login the hub approved, was not
    closed and did not run out; it carries a route the hub gave for this
    publication and is the browser's own request with the headers of
    [upstream_request]. *)
Theorem front_gate tr s a es id conn out :
  reach tr s -> (a, es) ∈ tr -> WeSend id conn out ∈ es -> send_ok tr id out.
Proof.
  intros Hr. revert a es. induction Hr as [| tr s ready a0 Hr IH Ha]; intros a es; [by intros ?%elem_of_nil |].
  intros [[= -> ->] | Hin]%elem_of_cons Hw.
  - pose proof (front_reach_gate tr s Hr) as Hg. destruct (front_step_ok tr s ready a0 Hg Hr) as [_ Hs]. by eapply Hs.
  - by eapply send_ok_cons, IH.
Qed.

(** ** Who holds which connection *)

Definition task_lease (t : WebTask) : option Lease :=
  match t with WtSend _ _ l _ | WtBody l => Some l | _ => None end.

Definition task_conn (t : WebTask) : option nat :=
  match t with WtSend _ _ l _ | WtBody l => Some (ls_conn l) | WtSplice conn _ _ => Some conn | _ => None end.

Definition holds (s : Front) (id conn : nat) : Prop := exists t, fr_tasks s !! id = Some t /\ task_conn t = Some conn.

Definition at_idle (pool : gmap bytes (list Idle)) (conn : nat) (p : bytes) : Prop :=
  exists q, pool !! p = Some q /\ conn ∈ map id_conn q.

Definition asked_dial (tr : web_trace) (id : nat) (p : bytes) : Prop :=
  exists a es route, (a, es) ∈ tr /\ WeDial id route ∈ es /\ wr_publication route = p.

(** The connection was opened on a route of this publication. *)
Definition dialed_for (tr : web_trace) (conn : nat) (p : bytes) : Prop :=
  exists id es, (WaDialed id (Ok conn), es) ∈ tr /\ asked_dial tr id p.

Record idle_ok (pool : gmap bytes (list Idle)) : Prop := {
  io_queue : forall p q, pool !! p = Some q -> NoDup (map id_conn q) /\ (length q <= MAX_IDLE_PER_PUBLICATION)%nat;
  io_apart : forall conn p p', at_idle pool conn p -> at_idle pool conn p' -> p = p'
}.

Record pool_inv (tr : web_trace) (s : Front) : Prop := {
  pv_idle : idle_ok (fr_pool s);
  pv_held : forall id conn p, holds s id conn -> ~ at_idle (fr_pool s) conn p;
  pv_one : forall id id' conn, holds s id conn -> holds s id' conn -> id = id';
  pv_home : forall conn p, at_idle (fr_pool s) conn p -> dialed_for tr conn p;
  pv_lease : forall id t l, fr_tasks s !! id = Some t -> task_lease t = Some l -> dialed_for tr (ls_conn l) (ls_publication l);
  pv_used : forall id conn, holds s id conn -> used_conn tr conn;
  pv_dial : forall id p h req route o, fr_tasks s !! id = Some (WtDial p h req route o) -> asked_dial tr id (wr_publication route)
}.

Definition free (s : Front) (conn : nat) : Prop := (forall id, ~ holds s id conn) /\ forall p, ~ at_idle (fr_pool s) conn p.

Lemma asked_dial_cons e tr id p : asked_dial tr id p -> asked_dial (e :: tr) id p.
Proof. intros (a & es & route & Hx1 & Hx2 & Hx3). exists a, es, route. split_and!; [by right | done | done]. Qed.

Lemma dialed_for_cons e tr conn p : dialed_for tr conn p -> dialed_for (e :: tr) conn p.
Proof. intros (id & es & Hx1 & Hx2). exists id, es. split; [by right | by apply asked_dial_cons]. Qed.

Lemma pool_inv_cons e tr s : pool_inv tr s -> pool_inv (e :: tr) s.
Proof.
  intros []. constructor; try done.
  - intros conn p Hx. by apply dialed_for_cons, pv_home0.
  - intros id t l Hx Hy. by eapply dialed_for_cons, pv_lease0.
  - intros id conn Hx. destruct (pv_used0 id conn Hx) as (id' & es & Hy). exists id', es. by right.
  - intros id p h req route o Hx. by eapply asked_dial_cons, pv_dial0.
Qed.

Lemma pop_idle_spec ready inst rq rest o :
  pop_idle ready inst rq = (rest, o) ->
  exists dropped, rq = dropped ++ option_list o ++ rest /\
    forall i, o = Some i -> inst - id_since i < IDLE_TTL /\ ready (id_conn i) = true.
Proof.
  induction rq as [| i rq IH]; cbn [pop_idle]; [intros [= <- <-]; by exists [] |].
  destruct (_ && _) eqn:E.
  - intros [= <- <-]. exists []. split; [done |]. intros i' [= <-]. apply andb_true_iff in E as [E1 E2]. split; [by apply Z.ltb_lt | done].
  - intros Hp. destruct (IH Hp) as (d & -> & Hi). exists (i :: d). by split.
Qed.

Lemma at_idle_insert pool p q conn p' :
  at_idle (<[p := q]> pool) conn p' <-> (p' = p /\ conn ∈ map id_conn q \/ p' <> p /\ at_idle pool conn p').
Proof.
  unfold at_idle. destruct (decide (p' = p)) as [-> | Hne].
  - rewrite lookup_insert_eq. split; [intros (q' & [= <-] & Hin); auto | intros [[_ Hin] | [? _]]; [by exists q | done]].
  - rewrite lookup_insert_ne by done. split; [auto | intros [[? _] | [_ Hi]]; done].
Qed.

(** A queue that lost some of its connections. *)
Lemma idle_ok_sub pool p q q' :
  idle_ok pool -> pool !! p = Some q -> map id_conn q' `sublist_of` map id_conn q ->
  idle_ok (<[p := q']> pool) /\ forall conn p', at_idle (<[p := q']> pool) conn p' -> at_idle pool conn p'.
Proof.
  intros [Hq Ha] Hp Hsub.
  assert (Hin : forall conn p', at_idle (<[p := q']> pool) conn p' -> at_idle pool conn p').
  { intros conn p' [[-> Hc] | [_ Hc]]%at_idle_insert; [| done]. exists q. split; [done |]. by eapply elem_of_sublist. }
  split; [| done]. constructor.
  - intros p' q''. destruct (decide (p' = p)) as [-> | Hne].
    + rewrite lookup_insert_eq. intros [= <-]. destruct (Hq p q Hp) as [Hn Hl]. split; [by eapply sublist_NoDup |].
      apply sublist_length in Hsub. rewrite !length_map in Hsub. lia.
    + rewrite lookup_insert_ne by done. apply Hq.
  - intros conn p1 p2 Hx1%Hin Hx2%Hin. by eapply Ha.
Qed.

Lemma take_idle_ok pool p ready inst pool' o :
  idle_ok pool -> take_idle pool p ready inst = (pool', o) ->
  idle_ok pool' /\ (forall conn p', at_idle pool' conn p' -> at_idle pool conn p') /\
  forall l, o = Some l -> ls_publication l = p /\ at_idle pool (ls_conn l) p /\ forall p', ~ at_idle pool' (ls_conn l) p'.
Proof.
  intros Hok. unfold take_idle. destruct (pool !! p) as [q |] eqn:Hp; [| intros [= <- <-]; split_and!; try done].
  destruct (pop_idle ready inst (rev q)) as [rest o'] eqn:E. intros [= <- <-]. apply pop_idle_spec in E as (d & Ed & _).
  assert (Hq : q = rev rest ++ option_list o' ++ rev d).
  { rewrite <- (rev_involutive q), Ed, !rev_app_distr, <- app_assoc. by destruct o'. }
  assert (Hsub : map id_conn (rev rest) `sublist_of` map id_conn q).
  { rewrite Hq, map_app. by apply sublist_inserts_r. }
  destruct (idle_ok_sub pool p q (rev rest) Hok Hp Hsub) as [Hok' Hin]. split_and!; [done | done |].
  intros l Hl. destruct o' as [i |]; [| done]. apply Some_inj in Hl as <-. cbn [ls_publication ls_conn].
  assert (Hi : at_idle pool (id_conn i) p).
  { exists q. split; [done |]. rewrite Hq, !map_app. apply elem_of_app. right. left. }
  split_and!; [done | done |]. intros p' Hc. pose proof (Hin _ _ Hc) as Hc'.
  assert (p' = p) as -> by (by eapply (io_apart _ Hok)). apply at_idle_insert in Hc as [[_ Hc] | [? _]]; [| done].
  destruct (io_queue _ Hok p q Hp) as [Hn _]. rewrite Hq, map_app in Hn. apply NoDup_app in Hn as (_ & Hn & _).
  apply (Hn _ Hc). by left.
Qed.

Lemma put_idle_ok pool l ready inst :
  idle_ok pool -> (forall p, ~ at_idle pool (ls_conn l) p) ->
  idle_ok (put_idle pool l ready inst) /\
  forall conn p, at_idle (put_idle pool l ready inst) conn p -> at_idle pool conn p \/ conn = ls_conn l /\ p = ls_publication l.
Proof.
  intros Hok Hf. unfold put_idle. destruct (ready _); cbn [negb]; [| split; [done | by left]].
  set (p := ls_publication l). set (kept := filter _ (default [] (pool !! p))).
  set (queue := if (_ <? _)%nat then _ else kept).
  assert (Hsub : map id_conn kept `sublist_of` map id_conn (default [] (pool !! p))) by (apply fmap_sublist, sublist_filter).
  assert (Hkept : forall conn, conn ∈ map id_conn kept -> at_idle pool conn p).
  { intros conn Hc. destruct (pool !! p) as [q |] eqn:Hp; [| by apply elem_of_nil in Hc]. exists q. split; [done |]. by eapply elem_of_sublist. }
  assert (Hqueue : forall conn, conn ∈ map id_conn queue -> at_idle pool conn p \/ conn = ls_conn l).
  { intros conn. unfold queue. destruct (_ <? _)%nat; [| auto]. rewrite map_app. intros [Hc | Hc%list_elem_of_singleton]%elem_of_app; auto. }
  assert (Hin : forall conn p', at_idle (<[p := queue]> pool) conn p' -> at_idle pool conn p' \/ conn = ls_conn l /\ p' = p).
  { intros conn p' [[-> Hc] | [_ Hc]]%at_idle_insert; [| by left]. destruct (Hqueue conn Hc); auto. }
  split; [| done]. constructor.
  - intros p' q'. destruct (decide (p' = p)) as [-> | Hne]; [| rewrite lookup_insert_ne by done; apply (io_queue _ Hok)].
    rewrite lookup_insert_eq. intros [= <-].
    assert (Hn : NoDup (map id_conn kept) /\ (length kept <= MAX_IDLE_PER_PUBLICATION)%nat).
    { destruct (pool !! p) as [q |] eqn:Hp; [| split; [constructor | cbn; lia]]. destruct (io_queue _ Hok p q Hp) as [Hn Hl].
      cbn [default from_option id] in *. split; [by eapply sublist_NoDup |].
      apply sublist_length in Hsub. rewrite !length_map in Hsub. lia. }
    unfold queue. destruct (Nat.ltb_spec (length kept) MAX_IDLE_PER_PUBLICATION); [| done]. rewrite map_app, length_app.
    split; [| cbn [length]; lia]. apply NoDup_app. split_and!; [apply Hn | | apply NoDup_singleton].
    intros conn Hc ->%list_elem_of_singleton. by apply (Hf p), Hkept.
  - intros conn p1 p2 Hx1 Hx2. destruct (Hin _ _ Hx1) as [Ha1 | [-> ->]], (Hin _ _ Hx2) as [Ha2 | [? ->]]; [| subst | | done].
    + by eapply (io_apart _ Hok).
    + by apply Hf in Ha1.
    + by apply Hf in Ha2.
Qed.

Lemma pool_same tr s s' : fr_pool s' = fr_pool s -> fr_tasks s' = fr_tasks s -> pool_inv tr s -> pool_inv tr s'.
Proof. intros E1 E2 []. constructor; unfold holds; rewrite ?E1, ?E2; done. Qed.

Lemma holds_done s id id' conn : holds (done_task s id) id' conn -> id' <> id /\ holds s id' conn.
Proof. intros (t & Ht & Hc). cbn in Ht. apply lookup_delete_Some in Ht as [Hne Ht]. split; [done |]. by exists t. Qed.

Lemma pool_done tr s id : pool_inv tr s -> pool_inv tr (done_task s id).
Proof.
  intros []. constructor; try done.
  - intros id' conn p [_ Hh]%holds_done. by eapply pv_held0.
  - intros id1 id2 conn [_ Hx1]%holds_done [_ Hx2]%holds_done. by eapply pv_one0.
  - cbn. intros id' t l [_ Ht]%lookup_delete_Some. by eapply pv_lease0.
  - intros id' conn [_ Hh]%holds_done. by eapply pv_used0.
  - cbn. intros id' p h req route o [_ Ht]%lookup_delete_Some. by eapply pv_dial0.
Qed.

(** Finishing the task that holds a connection frees it. *)
Lemma done_free tr s id t conn : pool_inv tr s -> fr_tasks s !! id = Some t -> task_conn t = Some conn -> free (done_task s id) conn.
Proof.
  intros Hv Ht Hc. assert (Hh : holds s id conn) by (by exists t). split.
  - intros id' [Hne Hx]%holds_done. apply Hne. by eapply (pv_one _ _ Hv).
  - intros p. cbn. by apply (pv_held _ _ Hv id).
Qed.

Lemma holds_await s id t id' conn : holds (await s id t) id' conn -> id' = id /\ task_conn t = Some conn \/ id' <> id /\ holds s id' conn.
Proof.
  intros (t' & Ht & Hc). cbn in Ht. destruct (decide (id = id')) as [<- | Hne].
  - rewrite lookup_insert_eq in Ht. apply Some_inj in Ht as ->. by left.
  - rewrite lookup_insert_ne in Ht by done. right. split; [done |]. by exists t'.
Qed.

(** A handler waits: what it takes along was free, and opened for its publication. *)
Lemma pool_await tr s id t :
  pool_inv tr s ->
  (forall conn, task_conn t = Some conn -> free s conn /\ used_conn tr conn) ->
  (forall l, task_lease t = Some l -> dialed_for tr (ls_conn l) (ls_publication l)) ->
  (forall p h req route o, t = WtDial p h req route o -> asked_dial tr id (wr_publication route)) ->
  pool_inv tr (await s id t).
Proof.
  intros Hv Hc Hl Hd. pose proof Hv as []. constructor; try done.
  - intros id' conn p [[-> Ht] | [_ Hh]]%holds_await; [| by eapply pv_held0]. destruct (Hc _ Ht) as [[_ Hf] _]. apply Hf.
  - intros id1 id2 conn [[-> Ht1] | [Hn1 Hx1]]%holds_await [[-> Ht2] | [Hn2 Hx2]]%holds_await; [done | | | by eapply pv_one0].
    + destruct (Hc _ Ht1) as [[Hf _] _]. by destruct (Hf id2).
    + destruct (Hc _ Ht2) as [[Hf _] _]. by destruct (Hf id1).
  - cbn. intros id' t' l. destruct (decide (id = id')) as [<- | Hne].
    + rewrite lookup_insert_eq. intros [= <-]. apply Hl.
    + rewrite lookup_insert_ne by done. apply pv_lease0.
  - intros id' conn [[-> Ht] | [_ Hh]]%holds_await; [by apply Hc | by eapply pv_used0].
  - cbn. intros id' p h req route o. destruct (decide (id = id')) as [<- | Hne].
    + rewrite lookup_insert_eq. intros [= ->]. by eapply Hd.
    + rewrite lookup_insert_ne by done. apply pv_dial0.
Qed.

Lemma pool_put tr s l ready inst :
  pool_inv tr s -> free s (ls_conn l) -> dialed_for tr (ls_conn l) (ls_publication l) ->
  pool_inv tr (set_pool s (put_idle (fr_pool s) l ready inst)).
Proof.
  intros Hv [Hf1 Hf2] Hd. destruct (put_idle_ok (fr_pool s) l ready inst (pv_idle _ _ Hv) Hf2) as [Hok Hin]. pose proof Hv as [].
  constructor; try done.
  - intros id conn p Hh [Hi | [-> ->]]%Hin; [by eapply pv_held0 | by apply (Hf1 id)].
  - intros conn p [Hi | [-> ->]]%Hin; [by apply pv_home0 | done].
Qed.

Lemma dialed_used tr conn p : dialed_for tr conn p -> used_conn tr conn.
Proof. intros (id & es & Hx & _). by exists id, es. Qed.

(** *** The handlers *)
Lemma send_pool tr s id p h req route lease :
  pool_inv tr s -> free s (ls_conn lease) -> dialed_for tr (ls_conn lease) (ls_publication lease) ->
  pool_inv tr (send_to_agent s id p h req route lease).1.
Proof.
  intros Hv Hf Hd. unfold send_to_agent. cbn [fst]. apply pool_await; [done | | by intros l [= <-] | done].
  intros conn [= <-]. split; [done | by eapply dialed_used].
Qed.

(** Taking a connection out of the pool, or asking for a new one. *)
Lemma route_pool tr s id p h req route ready c a :
  pool_inv tr s ->
  pool_inv ((a, (with_route s id p h req route ready c).2) :: tr) (with_route s id p h req route ready c).1.
Proof.
  intros Hv. unfold with_route. destruct (take_idle _ _ _ _) as [pool o] eqn:Et.
  destruct (take_idle_ok _ _ _ _ _ _ (pv_idle _ _ Hv) Et) as (Hok & Hin & Hl). pose proof Hv as [].
  assert (Hv' : pool_inv tr (set_pool s pool)).
  { constructor; try done. - intros id' conn p' Hh Hi%Hin. by eapply pv_held0. - intros conn p' Hi%Hin. by apply pv_home0. }
  destruct o as [lease |].
  - destruct (Hl lease eq_refl) as (Ep & Hi & Hn). apply send_pool; [by apply pool_inv_cons | | by apply dialed_for_cons; rewrite Ep; apply pv_home0].
    split; [| done]. intros id' Hh. by eapply pv_held0.
  - cbn [fst snd]. apply pool_await; [by apply pool_inv_cons | done | done |].
    intros p' h' req' route' o' [= <- <- <- <- <-]. eexists a, [WeDial id route], route. split_and!; [by left | by left | done].
Qed.

Lemma serve_pool tr s id p h req ready c a :
  pool_inv tr s -> pool_inv ((a, (serve_publication s id p h req ready c).2) :: tr) (serve_publication s id p h req ready c).1.
Proof.
  intros Hv. unfold serve_publication. destruct (session_token _) as [token |]; [| by apply pool_inv_cons].
  destruct (Sessions_touch _ _ _ _) as [ss user].
  assert (Hs : forall log, pool_inv tr (set_sessions s ss log)) by (intros log; by apply (pool_same tr s)).
  destruct user; [| by apply pool_inv_cons, Hs]. destruct (route_fresh _ _ _); [by apply route_pool, Hs |].
  apply pool_await; [by apply pool_inv_cons, Hs | done..].
Qed.

Lemma agent_pool tr s id p route lease b answer ready c e :
  pool_inv tr s -> fr_tasks s !! id = Some (WtSend p route lease b) ->
  pool_inv (e :: tr) (agent_answered s id p route lease b answer ready c).1.
Proof.
  intros Hv Ht. pose proof (done_free _ _ _ _ _ Hv Ht eq_refl) as Hf.
  pose proof (dialed_for_cons e _ _ _ (pv_lease _ _ Hv _ _ _ Ht eq_refl)) as Hd.
  apply (pool_done _ _ id), (pool_inv_cons e) in Hv. unfold agent_answered. set (s1 := done_task s id) in *.
  destruct answer as [resp | why]; [destruct (_ =? 101) |].
  - unfold switch_protocols. destruct b; cbn [negb fst]; [| done]. apply pool_await; [done | | done | done].
    intros conn [= <-]. split; [done | by eapply dialed_used].
  - cbn [fst wp_status]. set (s2 := if _ =? 403 then _ else s1).
    assert (Hs : fr_pool s2 = fr_pool s1 /\ fr_tasks s2 = fr_tasks s1) by (unfold s2; by destruct (_ =? 403)). destruct Hs as [E1 E2].
    apply pool_await; [by apply (pool_same _ s1) | | by intros l [= <-] | done]. intros conn [= <-].
    split; [| by eapply dialed_used]. unfold free, holds. rewrite E1, E2. apply Hf.
  - cbn [fst]. by apply pool_put.
Qed.

Lemma ended_pool tr s id t lease ready c e :
  pool_inv tr s -> fr_tasks s !! id = Some t -> task_lease t = Some lease -> task_conn t = Some (ls_conn lease) ->
  pool_inv (e :: tr) (body_ended s id lease ready c).1.
Proof.
  intros Hv Ht Hl Hc. unfold body_ended. cbn [fst]. apply pool_put; [by apply pool_inv_cons, pool_done | by eapply done_free |].
  eapply dialed_for_cons, (pv_lease _ _ Hv); done.
Qed.

Lemma dialed_pool tr s id p h req route o conn :
  pool_inv tr s -> fr_tasks s !! id = Some (WtDial p h req route o) -> act_ok tr (WaDialed id conn) ->
  pool_inv ((WaDialed id conn, (dialed s id p h req route o conn).2) :: tr) (dialed s id p h req route o conn).1.
Proof.
  intros Hv Ht Hfresh. pose proof (pv_dial _ _ Hv _ _ _ _ _ _ Ht) as Ha. unfold dialed. destruct conn as [conn | why].
  - apply send_pool; [by apply pool_inv_cons, pool_done | |].
    + split; cbn [ls_conn].
      * intros id' [_ Hh]%holds_done. by eapply Hfresh, (pv_used _ _ Hv).
      * intros p' Hi. by eapply Hfresh, dialed_used, (pv_home _ _ Hv).
    + eexists id, _. split; [by left | by apply asked_dial_cons].
  - by apply pool_inv_cons, pool_done.
Qed.

Lemma front_step_pool tr s ready a :
  pool_inv tr s -> act_ok tr a -> pool_inv ((a, (front_act ready a s).2) :: tr) (front_act ready a s).1.
Proof.
  intros Hv Ha. destruct a as [id req form c | id verdict r c | id answer c | id conn | id answer c | id c | id | id c]; cbn [front_act].
  - destruct (front_route _ _); try (by apply pool_inv_cons).
    + unfold login. destruct (publication_of _ _); [| by apply pool_inv_cons]. destruct form as [[u pw] |]; [| by apply pool_inv_cons].
      destruct (login_blocked_for _ _ _); [by apply pool_inv_cons |]. apply pool_await; [by apply pool_inv_cons | done..].
    + unfold logout. cbn [fst snd]. apply pool_inv_cons. by destruct (session_token _); [apply (pool_same tr s) |].
    + unfold entry. destruct (publication_of _ _); [| by apply pool_inv_cons]. destruct (service_path _); [by apply pool_inv_cons |].
      by apply serve_pool.
  - destruct (fr_tasks s !! id) as [[] |] eqn:Et; try (by apply pool_inv_cons). apply pool_inv_cons.
    unfold login_verdict. destruct verdict as [[|] |]; cbn [fst snd].
    + destruct (Sessions_open _ _ _ _ _). cbn [fst]. by apply (pool_same tr (done_task s id)), pool_done.
    + by apply (pool_same tr (done_task s id)), pool_done.
    + by apply pool_done.
  - destruct (fr_tasks s !! id) as [[] |] eqn:Et; try (by apply pool_inv_cons). unfold route_answered.
    destruct answer as [route | [| why]]; cbn [route_got].
    + apply route_pool. by apply (pool_same tr (done_task s id)), pool_done.
    + by apply pool_inv_cons, (pool_same tr (done_task s id)), pool_done.
    + by apply pool_inv_cons, (pool_same tr (done_task s id)), pool_done.
  - destruct (fr_tasks s !! id) as [[] |] eqn:Et; try (by apply pool_inv_cons). by apply dialed_pool.
  - destruct (fr_tasks s !! id) as [[] |] eqn:Et; try (by apply pool_inv_cons). by apply agent_pool.
  - destruct (fr_tasks s !! id) as [[] |] eqn:Et; try (by apply pool_inv_cons). by eapply ended_pool.
  - destruct (fr_tasks s !! id) as [[] |] eqn:Et; try (by apply pool_inv_cons). by apply pool_inv_cons, pool_done.
  - destruct (fr_tasks s !! id) as [[] |] eqn:Et; try (by apply pool_inv_cons); try (by eapply ended_pool); by apply pool_inv_cons, pool_done.
Qed.

Lemma front_reach_pool tr s : reach tr s -> pool_inv tr s.
Proof.
  induction 1 as [| tr s ready a Hr IH Ha]; [| by apply front_step_pool].
  assert (Hno : forall id conn, ~ holds (Front_new domain ttl) id conn) by (by intros id conn (? & ? & _)).
  constructor; try done.
  - constructor; [done | by intros ? ? ? (? & ? & _)].
  - intros id conn p Hh. by destruct (Hno id conn).
  - intros id id' conn Hh. by destruct (Hno id conn).
  - by intros ? ? (? & ? & _).
  - intros id conn Hh. by destruct (Hno id conn).
Qed.


(** *** Where the limit of attempts does not hold *)

(** The key of the limit is what the browser writes into [X-Forwarded-For]: with a
    value not used before the password goes to the hub, however many attempts the
    address has behind it. *)
Lemma forwarded_for_evades_limit s id req u pw c v p :
  publication_of (host_of (wq_headers req)) (fr_domain s) = Some p ->
  hget_str (wq_headers req) (str "x-forwarded-for") = Some v -> trim (hd [] (split 44 v)) <> [] ->
  fr_attempts s !! login_key (trim (hd [] (split 44 v))) p = None ->
  (login s id req (Some (u, pw)) c).2 = [WeVerify id u pw].
Proof.
  intros Hp Hv Hne Hm. unfold login. rewrite Hp.
  assert (E : peer_of req = trim (hd [] (split 44 v))).
  { unfold peer_of. rewrite Hv. cbn [mbind option_bind]. by rewrite bool_decide_false. }
  rewrite E. unfold login_blocked_for. by rewrite Hm.
Qed.

(** Attempts that wait for the verdict are not counted yet: sent together, they all pass. *)
Lemma parallel_guesses s req c p (guesses : list (nat * bytes * bytes)) :
  publication_of (host_of (wq_headers req)) (fr_domain s) = Some p ->
  login_blocked_for (fr_attempts s) (login_key (peer_of req) p) (ck_ms c) = None ->
  (foldl (fun r '(id, u, pw) => let r' := login r.1 id req (Some (u, pw)) c in (r'.1, r.2 ++ r'.2)) (s, []) guesses).2 =
    map (fun '(id, u, pw) => WeVerify id u pw) guesses.
Proof.
  intros Hp Hb. assert (G : forall gs s es, publication_of (host_of (wq_headers req)) (fr_domain s) = Some p ->
    login_blocked_for (fr_attempts s) (login_key (peer_of req) p) (ck_ms c) = None ->
    (foldl (fun r '(id, u, pw) => let r' := login r.1 id req (Some (u, pw)) c in (r'.1, r.2 ++ r'.2)) (s, es) gs).2 =
      es ++ map (fun '(id, u, pw) => WeVerify id u pw) gs); [| exact (G guesses s [] Hp Hb)].
  clear. induction gs as [| [[id u] pw] gs IH]; intros s es Hp Hb; [by rewrite app_nil_r |]. cbn [foldl map fst snd].
  assert (E : login s id req (Some (u, pw)) c = (await s id (WtVerify p u (login_key (peer_of req) p)), [WeVerify id u pw])).
  { unfold login. by rewrite Hp, Hb. }
  rewrite E. cbn [fst snd]. rewrite IH; [by rewrite <- app_assoc | exact Hp | exact Hb].
Qed.

(** ** Runs *)

Definition req_ids (tr : web_trace) : list nat := omap (fun e => match e.1 with WaRequest id _ _ _ => Some id | _ => None end) tr.
Definition dial_ids (tr : web_trace) : list nat := omap (fun e => match e.1 with WaDialed _ (Ok conn) => Some conn | _ => None end) tr.

Definition act_okb (tr : web_trace) (a : WebAct) : bool :=
  match a with
  | WaRequest id _ _ _ => negb (existsb (Nat.eqb id) (req_ids tr))
  | WaDialed _ (Ok conn) => negb (existsb (Nat.eqb conn) (dial_ids tr))
  | _ => true
  end.

Definition front_run (ready : nat -> bool) (acts : list WebAct) : web_trace * Front :=
  foldl (fun r a => ((a, (front_act ready a r.2).2) :: r.1, (front_act ready a r.2).1)) ([], Front_new domain ttl) acts.

Fixpoint acts_ok (ready : nat -> bool) (tr : web_trace) (s : Front) (acts : list WebAct) : bool :=
  match acts with
  | [] => true
  | a :: acts => act_okb tr a && acts_ok ready ((a, (front_act ready a s).2) :: tr) (front_act ready a s).1 acts
  end.

Lemma act_okb_ok tr a : act_okb tr a = true -> act_ok tr a.
Proof.
  destruct a as [id req form c | | | id [conn | e] | | | |]; cbn; try done; intros Hn%negb_true_iff.
  - intros (req' & form' & c' & es & Hin). apply not_true_iff_false in Hn. apply Hn, existsb_exists. exists id.
    split; [| apply Nat.eqb_refl]. apply list_elem_of_In, list_elem_of_omap. eexists. split; [exact Hin | done].
  - intros (id' & es & Hin). apply not_true_iff_false in Hn. apply Hn, existsb_exists. exists conn.
    split; [| apply Nat.eqb_refl]. apply list_elem_of_In, list_elem_of_omap. eexists. split; [exact Hin | done].
Qed.

Lemma front_run_reach ready acts :
  acts_ok ready [] (Front_new domain ttl) acts = true -> reach (front_run ready acts).1 (front_run ready acts).2.
Proof.
  unfold front_run. assert (G : forall acts r, reach r.1 r.2 -> acts_ok ready r.1 r.2 acts = true ->
    let r' := foldl (fun r a => ((a, (front_act ready a r.2).2) :: r.1, (front_act ready a r.2).1)) r acts in reach r'.1 r'.2).
  { clear. induction acts as [| a acts IH]; intros r Hr Hok; [done |]. cbn [acts_ok] in Hok. apply andb_true_iff in Hok as [Ha Hok].
    cbn [foldl]. apply IH; [| done]. cbn [fst snd]. apply front_step; [done | by apply act_okb_ok]. }
  apply (G acts ([], Front_new domain ttl)). constructor.
Qed.
End reach.
End front.

(** ** Witnesses: a login and the first request after it *)

Abbreviation Pairs := (list (bytes * bytes)).

Definition ex_web_request (method path : bytes) (h : Pairs) : @WebRequest Pairs :=
  {| wq_method := method; wq_path := path; wq_query := None; wq_headers := (str "host", str "dash.web.example.com") :: h;
     wq_body := []; wq_peer := Some (str "198.51.100.9"); wq_on_upgrade := false |}.

Definition ex_clock (secs : Z) : Clock := {| ck_ms := secs * 1000; ck_inst := secs * SECOND |}.

Definition ex_web_key : bytes := repeat 42 32.

Definition ex_web_route : WebRoute :=
  {| wr_publication := str "dash"; wr_agent_pubkey := str "QUJD";
     wr_relay := {| rd_addr := str "198.51.100.1"; rd_port := 8443; rd_obf := {| ro_key := []; ro_modifier := []; ro_salt := 0; ro_padding_min := 0; ro_padding_max := 0 |} |};
     wr_relay_token := @sign_relay_token toy_base64 toy_ed25519 ex_web_key (str "web:dash") (str "QUJD") 5000;
     wr_expose_token := @sign_expose_token toy_base64 toy_ed25519 ex_web_key (str "dash") (str "QUJD") 5000; wr_exp := 5000;
     wr_splice_lifetime_secs := 3600 |}.

Definition ex_expose_json (t : ExposeToken) : bytes := et_publication t.

Definition ex_web_cookie : bytes := str "theme=dark; xrweb=" ++ @url64_encode toy_url64 [1; 2] ++ str "; sid=7".

Definition ex_web_acts : list (@WebAct Pairs) :=
  [WaRequest 1 (ex_web_request (str "POST") (str "/.xr-web/login") []) (Some (str "owner", str "pw")) (ex_clock 1000);
   WaVerdict 1 (Ok true) [1; 2] (ex_clock 1001);
   WaRequest 2 (ex_web_request (str "GET") (str "/") [(str "cookie", ex_web_cookie)]) None (ex_clock 1002);
   WaRoute 2 (Ok ex_web_route) (ex_clock 1003); WaDialed 2 (Ok 7%nat)].

Abbreviation ex_web_run :=
  (@front_run Pairs pairs_headers plain_text toy_url64 ex_expose_json (str "web.example.com") 3600 (fun _ => true) ex_web_acts).

Abbreviation ex_web_reach := (@front_reach Pairs pairs_headers plain_text toy_url64 ex_expose_json (str "web.example.com") 3600).

Lemma ex_web_reached : ex_web_reach ex_web_run.1 ex_web_run.2.
Proof. apply front_run_reach. vm_compute. reflexivity. Qed.

Lemma front_gate_witness : exists out,
  @send_ok Pairs pairs_headers plain_text toy_url64 ex_expose_json (str "web.example.com") 3600 ex_web_run.1 2 out.
Proof.
  exists (@upstream_request Pairs pairs_headers plain_text toy_url64 ex_expose_json
            (ex_web_request (str "GET") (str "/") [(str "cookie", ex_web_cookie)]) ex_web_route (str "dash.web.example.com") (str "dash") None).
  refine (front_gate ex_expose_json (str "web.example.com") 3600 ex_web_run.1 ex_web_run.2 _ _ 2 7%nat _ ex_web_reached _ _).
  - exact (list_elem_of_here _ _).
  - vm_compute. exact (list_elem_of_here _ _).
Defined.

