(* ===== verification/Expose.v ===== *)
(** * The gate of a publication (xr-share/src/expose.rs) and the way from the browser to the local service

    The agent's side of a publication: the mandate, the choice of the local address
    and the headers the local service sees; then the hub, the front and the gate
    together. *)

From S2P Require Import Prelude Text UserRule Share Hub Http WebSession WebSplice WebFront Fallback ShareFiles Presets.

(** serde's JSON of a mandate, on the strings of Rust. *)
Definition mandate_ok (t : ExposeToken) : Prop :=
  Forall (fun s => bytes_ok s /\ utf8_valid s = true) [et_publication t; et_agent_pubkey t; et_signature t] /\ 0 <= et_exp t <= U64_MAX.

Class MandateJson := {
  expose_json : ExposeToken -> bytes;
  expose_of_json : bytes -> option ExposeToken;
  expose_json_bytes t : bytes_ok (expose_json t);
  expose_json_back t : mandate_ok t -> expose_of_json (expose_json t) = Some t
}.

(** ** The publications of the configuration (xr-share/src/config.rs) *)

Record ExposeEntry := { ee_name : bytes; ee_upstream : bytes }.

Inductive ExposeConfigError := EcName (name : bytes) | EcTwice (name : bytes) | EcNoPort (name : bytes) | EcUpstream (name : bytes).

Definition upstream_ok (upstream : bytes) : option bool :=
  match rsplit_once 58 upstream with
  | None => None
  | Some (host, port) =>
      Some (negb (bool_decide (trim host = [])) && match parse_u16 port with Some p => negb (p =? 0) | None => false end)
  end.

Fixpoint validate_expose_from (seen : list bytes) (exposes : list ExposeEntry) : result unit ExposeConfigError :=
  match exposes with
  | [] => Ok tt
  | e :: rest =>
      if negb (valid_publication_name (ee_name e)) then Err (EcName (ee_name e))
      else if existsb (fun s => bool_decide (s = ee_name e)) seen then Err (EcTwice (ee_name e))
      else match upstream_ok (ee_upstream e) with
           | None => Err (EcNoPort (ee_name e))
           | Some false => Err (EcUpstream (ee_name e))
           | Some true => validate_expose_from (seen ++ [ee_name e]) rest
           end
  end.

Definition validate_expose (exposes : list ExposeEntry) : result unit ExposeConfigError := validate_expose_from [] exposes.

(** The configuration after [expose add] and [expose rm]. *)
Fixpoint put_expose (name upstream : bytes) (exposes : list ExposeEntry) : list ExposeEntry :=
  match exposes with
  | [] => [{| ee_name := name; ee_upstream := upstream |}]
  | e :: rest => if bool_decide (ee_name e = name) then {| ee_name := name; ee_upstream := upstream |} :: rest
                 else e :: put_expose name upstream rest
  end.

Definition drop_expose_entry (name : bytes) (exposes : list ExposeEntry) : list ExposeEntry :=
  filter (fun e => ee_name e <> name) exposes.

Definition find_expose (name : bytes) (exposes : list ExposeEntry) : option ExposeEntry :=
  List.find (fun e => bool_decide (ee_name e = name)) exposes.

(** ** The gate *)

Record ExposeGate := { eg_hub_key : bytes; eg_agent_pubkey : option bytes; eg_publications : list ExposeEntry }.

Definition publication (gate : ExposeGate) (name : bytes) : option ExposeEntry := find_expose name (eg_publications gate).

Definition FORWARDED_HOST_HEADER : bytes := str "x-forwarded-host".

(** The list of the agent: shorter than the list of the front by [keep-alive]. *)
Definition AGENT_HOP_BY_HOP : list bytes :=
  [str "connection"; str "proxy-authenticate"; str "proxy-authorization"; str "te"; str "trailer"; str "transfer-encoding";
   str "upgrade"].

(** What the handler does with a request: a refusal, or a request to the local service. *)
Inductive ServeOutcome {M} :=
| SvForbidden
| SvNotServed
| SvProxied (upstream : bytes) (req : @WebRequest M) (from_consumer : bool).
Arguments ServeOutcome : clear implicits.

Inductive ProxyAnswer {M} :=
| PaResponse (resp : @WebResponse M)
| PaSwitched (resp : @WebResponse M)
| PaUpstreamDown (why : bytes).
Arguments ProxyAnswer : clear implicits.

Section gate.
Context `{Base64} `{Ed25519} {M : Type} `{HeaderMap M} `{HeaderText} `{UrlBase64} `{MandateJson}.

Definition requested_publication (h : M) : option bytes :=
  raw ← hget_str h EXPOSE_HEADER;
  let raw := trim raw in if valid_publication_name raw then Some raw else None.

Definition mandate_from_headers (h : M) : option ExposeToken :=
  v ← hget_str h (str "authorization");
  blob ← strip_prefix (str "Bearer ") v;
  json ← url64_decode (trim blob);
  expose_of_json json.

Definition check_mandate (gate : ExposeGate) (name : bytes) (h : M) (now : Z) : bool :=
  match eg_agent_pubkey gate with
  | None => false
  | Some agent_pubkey =>
      match mandate_from_headers h with
      | None => false
      | Some token => is_ok (verify_expose_token token (eg_hub_key gate) name agent_pubkey now)
      end
  end.

(** The same test as [requested] of the front. *)
Definition upgrade_proto (h : M) : option bytes :=
  connection ← hget_str h (str "connection");
  if negb (existsb (fun token => eq_ignore_ascii_case (trim token) (str "upgrade")) (split 44 connection)) then None
  else
    upgrade ← hget_str h (str "upgrade");
    let proto := trim upgrade in
    if bool_decide (proto = []) then None else Some proto.

Definition local_headers (h : M) (upstream : bytes) (upgrade : option bytes) (from_consumer : bool) : M :=
  let h := hm_remove EXPOSE_HEADER h in
  let h := hm_remove (str "authorization") h in
  let h := move_header FORWARDED_AUTH_HEADER (str "authorization") h in
  let h := remove_names AGENT_HOP_BY_HOP h in
  let h := match upgrade, from_consumer with
           | Some proto, true => match from_str proto with
                                 | Some value => hm_insert (str "connection") (str "upgrade") (hm_insert (str "upgrade") value h)
                                 | None => h
                                 end
           | _, _ => h
           end in
  let h := match hget h (str "host") with
           | Some outer => let h := hm_remove (str "host") h in
                           if contains_key h FORWARDED_HOST_HEADER then h else hm_insert FORWARDED_HOST_HEADER outer h
           | None => h
           end in
  insert_str (str "host") upstream h.

Definition proxy_request (upstream : bytes) (req : @WebRequest M) : @WebRequest M * bool :=
  let upgrade := upgrade_proto (wq_headers req) in
  let from_consumer := bool_decide (is_Some upgrade) && wq_on_upgrade req in
  (with_headers (if bool_decide (is_Some upgrade) then take_upgrade req else req)
     (local_headers (wq_headers req) upstream upgrade from_consumer), from_consumer).

Definition serve (gate : ExposeGate) (name : bytes) (req : @WebRequest M) (now : Z) : ServeOutcome M :=
  if negb (check_mandate gate name (wq_headers req) now) then SvForbidden
  else match publication gate name with
       | None => SvNotServed
       | Some entry => let (out, from_consumer) := proxy_request (ee_upstream entry) req in SvProxied (ee_upstream entry) out from_consumer
       end.

(** What the local service answers, or why it does not. *)
Definition proxy_answer (from_consumer : bool) (answer : result (@WebResponse M) bytes) : ProxyAnswer M :=
  match answer with
  | Err e => PaUpstreamDown e
  | Ok resp =>
      if wp_status resp =? 101 then
        if from_consumer then PaSwitched {| wp_status := wp_status resp; wp_headers := wp_headers resp; wp_body := [] |}
        else PaUpstreamDown (str "switched without an upgrade")
      else PaResponse {| wp_status := wp_status resp; wp_headers := remove_names AGENT_HOP_BY_HOP (wp_headers resp); wp_body := wp_body resp |}
  end.

(** The forwarder of [expose open]: the headers it puts in place of the front. *)
Definition harness_headers (h : M) (name : bytes) (mandate : option bytes) : M :=
  let h := hm_insert EXPOSE_HEADER name h in
  let h := match mandate with
           | Some blob => hm_insert (str "authorization") (default (str "Bearer -") (from_str (str "Bearer " ++ blob))) h
           | None => hm_remove (str "authorization") h
           end in
  hm_insert (str "x-forwarded-proto") (str "http") h.

Definition harness_serve (gate : ExposeGate) (name : bytes) (mandate : option bytes) (req : @WebRequest M) (now : Z) : ServeOutcome M :=
  serve gate name (with_headers req (harness_headers (wq_headers req) name mandate)) now.

(** ** The headers, name by name *)

(** Decides equalities and memberships of constant names. *)
Ltac names := repeat match goal with
  | |- context [decide (?a = ?a)] => rewrite (decide_True (P := a = a)) by reflexivity
  | |- context [decide (?a = ?b)] =>
      rewrite (decide_False (P := a = b)) by (apply (bool_decide_unpack (a <> b)); vm_compute; exact I)
  | |- context [decide (?a = ?b \/ ?c = ?d)] =>
      first [ rewrite (decide_True (P := a = b \/ c = d)) by (apply (bool_decide_unpack (a = b \/ c = d)); vm_compute; exact I)
            | rewrite (decide_False (P := a = b \/ c = d)) by (apply (bool_decide_unpack (~ (a = b \/ c = d))); vm_compute; exact I) ]
  | |- context [decide (?a ∈ ?l)] =>
      first [ rewrite (decide_True (P := a ∈ l)) by (apply (bool_decide_unpack (a ∈ l)); vm_compute; exact I)
            | rewrite (decide_False (P := a ∈ l)) by (apply (bool_decide_unpack (~ (a ∈ l))); vm_compute; exact I) ]
  end.

(** The upgrade as an end declares it anew. *)
Definition announced (upgrade : option bytes) (n : bytes) : list bytes :=
  match upgrade with
  | Some proto => if decide (n = str "connection") then [str "upgrade"] else [proto]
  | None => []
  end.

Definition front_cookie (h : M) : list bytes :=
  match hget_str h (str "cookie") with
  | Some raw => option_list (cookie_header_without_session raw)
  | None => get_all h (str "cookie")
  end.

Definition first_of (h : M) (n : bytes) : list bytes := option_list (hget h n).

(** What the agent gets under each name. *)
Definition upstream_values (h : M) (route : WebRoute) (host name : bytes) (upgrade : option bytes) (n : bytes) : list bytes :=
  if decide (n = str "cookie") then front_cookie h
  else if decide (n = str "x-forwarded-host") then [host]
  else if decide (n = str "x-forwarded-proto") then [str "https"]
  else if decide (n = EXPOSE_HEADER) then [name]
  else if decide (n = str "authorization") then [str "Bearer " ++ encode_expose_mandate expose_json (wr_expose_token route)]
  else if decide (n = FORWARDED_AUTH_HEADER) then
    match hget h (str "authorization") with Some v => [v] | None => get_all h FORWARDED_AUTH_HEADER end
  else if decide (n = str "connection" \/ n = str "upgrade") then announced upgrade n
  else if decide (n ∈ HOP_BY_HOP ++ CLIENT_ADDR_HEADERS) then []
  else get_all h n.

Lemma text_str s : forallb is_textb (str s) = true -> Forall is_text (str s).
Proof. apply textb_spec. Qed.

Lemma mandate_text t : Forall is_text (str "Bearer " ++ encode_expose_mandate expose_json t).
Proof.
  apply Forall_app. split; [by apply text_str |]. eapply Forall_impl; [apply url64_chars |]. intros b. apply url64_text.
Qed.

Lemma hget_same (h1 h2 : M) n : get_all h1 n = get_all h2 n -> hget h1 n = hget h2 n.
Proof. unfold hget. by intros ->. Qed.

Lemma hget_str_same (h1 h2 : M) n : get_all h1 n = get_all h2 n -> hget_str h1 n = hget_str h2 n.
Proof. intros E. unfold hget_str. by rewrite (hget_same h1 h2). Qed.

(** The announcement of an upgrade, at both ends. *)
Lemma announce_get (h : M) upgrade n :
  (forall p, upgrade = Some p -> Forall is_text p) -> (upgrade = None -> get_all h (str "connection") = [] /\ get_all h (str "upgrade") = []) ->
  get_all (match upgrade with
           | Some proto => match from_str proto with
                           | Some value => hm_insert (str "connection") (str "upgrade") (hm_insert (str "upgrade") value h)
                           | None => h
                           end
           | None => h
           end) n =
    if decide (n = str "connection" \/ n = str "upgrade") then announced upgrade n else get_all h n.
Proof.
  intros Ht Hn. destruct upgrade as [proto |].
  - rewrite from_str_text by (by apply Ht). rewrite !get_all_insert. unfold announced.
    destruct (decide (n = str "connection")) as [-> | Hc]; [by rewrite decide_True by (by left) |].
    destruct (decide (n = str "upgrade")) as [-> | Hu]; [by rewrite decide_True by (by right) |].
    by rewrite decide_False by (by intros [? | ?]).
  - destruct (Hn eq_refl) as [E1 E2]. destruct (decide _) as [[-> | ->] |]; done.
Qed.

Lemma upstream_headers_get h route host name upgrade n :
  Forall is_text host -> Forall is_text name -> (forall p, upgrade = Some p -> Forall is_text p) ->
  get_all (upstream_headers expose_json h route host name upgrade) n = upstream_values h route host name upgrade n.
Proof.
  intros Hh Hp Hu. unfold upstream_headers. set (h1 := remove_names CLIENT_ADDR_HEADERS _). set (h2 := match upgrade with Some _ => _ | None => _ end).
  set (h3 := move_header _ _ h2). set (h4 := insert_str (str "authorization") _ h3).
  set (h5 := insert_str (str "x-forwarded-host") host _).
  assert (E1 : forall m, get_all h1 m = if decide (m ∈ HOP_BY_HOP ++ CLIENT_ADDR_HEADERS) then [] else get_all h m).
  { intros m. unfold h1. rewrite !get_all_remove_names. destruct (decide (m ∈ HOP_BY_HOP ++ CLIENT_ADDR_HEADERS)) as [Hi | Hi].
    - apply elem_of_app in Hi as [Hi | Hi]; destruct (decide (m ∈ CLIENT_ADDR_HEADERS)); try done; by rewrite decide_True.
    - rewrite !decide_False; [done | |]; intros Hx; apply Hi, elem_of_app; auto. }
  assert (E2 : forall m, get_all h2 m = if decide (m = str "connection" \/ m = str "upgrade") then announced upgrade m else get_all h1 m).
  { intros m. apply announce_get; [done |]. intros _. rewrite !E1. split; by names. }
  assert (E3 : forall m, get_all h3 m = if decide (m = str "authorization") then [] else if decide (m = FORWARDED_AUTH_HEADER) then
            match hget h (str "authorization") with Some v => [v] | None => get_all h FORWARDED_AUTH_HEADER end else get_all h2 m).
  { intros m. unfold h3. rewrite get_all_move by (apply (bool_decide_unpack (_ <> _)); vm_compute; exact I).
    rewrite (hget_same h2 h (str "authorization")) by (rewrite E2, decide_False by (intros [? | ?]; done); rewrite E1; by names).
    destruct (decide (m = str "authorization")); [done |]. destruct (decide (m = FORWARDED_AUTH_HEADER)) as [-> |]; [| done].
    destruct (hget h _); [done |]. rewrite E2, decide_False by (intros [? | ?]; done). rewrite E1. by names. }
  assert (E5 : forall m, get_all h5 m = if decide (m = str "x-forwarded-host") then [host] else if decide (m = str "x-forwarded-proto") then [str "https"]
            else if decide (m = EXPOSE_HEADER) then [name]
            else if decide (m = str "authorization") then [str "Bearer " ++ encode_expose_mandate expose_json (wr_expose_token route)] else get_all h3 m).
  { intros m. unfold h5. rewrite get_all_insert_text, get_all_insert, get_all_insert_text by done. unfold h4.
    by rewrite get_all_insert_text by apply mandate_text. }
  assert (Ec : hget_str h5 (str "cookie") = hget_str h (str "cookie")).
  { apply hget_str_same. rewrite E5. names. rewrite E3. names. rewrite E2, decide_False by (intros [? | ?]; done). rewrite E1. by names. }
  assert (Hmid : n <> str "cookie" -> get_all h5 n = upstream_values h route host name upgrade n).
  { intros Hne. unfold upstream_values. rewrite (decide_False (P := n = str "cookie")) by done. rewrite E5.
    destruct (decide (n = str "x-forwarded-host")); [done |]. destruct (decide (n = str "x-forwarded-proto")); [done |].
    destruct (decide (n = EXPOSE_HEADER)); [done |]. rewrite E3. destruct (decide (n = str "authorization")); [done |].
    destruct (decide (n = FORWARDED_AUTH_HEADER)); [done |]. rewrite E2. destruct (decide (_ \/ _)); [done | apply E1]. }
  rewrite Ec. destruct (decide (n = str "cookie")) as [-> | Hne].
  - unfold upstream_values, front_cookie. rewrite decide_True by done. destruct (hget_str h (str "cookie")) as [raw |] eqn:Er.
    + apply hget_str_some in Er as [_ Hr]. destruct (cookie_header_without_session raw) as [rest |] eqn:Es; cbn [option_list].
      * rewrite get_all_insert_text by (by eapply stripped_pairs). by rewrite decide_True.
      * rewrite get_all_remove. by rewrite decide_True.
    + rewrite E5. names. rewrite E3. names. rewrite E2, decide_False by (intros [? | ?]; done). rewrite E1. by names.
  - rewrite <- Hmid by done. destruct (hget_str h (str "cookie")) as [raw |]; [| done].
    destruct (cookie_header_without_session raw); [by rewrite get_all_insert_other | rewrite get_all_remove; by rewrite decide_False].
Qed.

(** What the local service gets under each name. *)
Definition local_values (h : M) (upstream : bytes) (upgrade : option bytes) (from_consumer : bool) (n : bytes) : list bytes :=
  if decide (n = str "host") then [upstream]
  else if decide (n = FORWARDED_HOST_HEADER) then
    (if decide (get_all h FORWARDED_HOST_HEADER = []) then first_of h (str "host") else get_all h FORWARDED_HOST_HEADER)
  else if decide (n = EXPOSE_HEADER \/ n = FORWARDED_AUTH_HEADER) then []
  else if decide (n = str "authorization") then first_of h FORWARDED_AUTH_HEADER
  else if decide (n = str "connection" \/ n = str "upgrade") then (if from_consumer then announced upgrade n else [])
  else if decide (n ∈ AGENT_HOP_BY_HOP) then []
  else get_all h n.

Lemma first_of_nil h n : get_all h n = [] -> first_of h n = [].
Proof. intros E. unfold first_of, hget. by rewrite E. Qed.

Lemma local_headers_get h upstream upgrade fc n :
  Forall is_text upstream -> (forall p, upgrade = Some p -> Forall is_text p) ->
  get_all (local_headers h upstream upgrade fc) n = local_values h upstream upgrade fc n.
Proof.
  intros Ht Hu. unfold local_headers. set (h1 := move_header _ _ _). set (h2 := remove_names AGENT_HOP_BY_HOP h1).
  assert (E1 : forall m, get_all h1 m = if decide (m = EXPOSE_HEADER \/ m = FORWARDED_AUTH_HEADER) then []
            else if decide (m = str "authorization") then first_of h FORWARDED_AUTH_HEADER else get_all h m).
  { intros m. unfold h1. rewrite get_all_move by (apply (bool_decide_unpack (_ <> _)); vm_compute; exact I).
    rewrite (hget_same (hm_remove (str "authorization") (hm_remove EXPOSE_HEADER h)) h FORWARDED_AUTH_HEADER) by (rewrite !get_all_remove; by names).
    destruct (decide (m = FORWARDED_AUTH_HEADER)) as [-> | Hf]; [by rewrite (decide_True (P := _ \/ _)) by (by right) |].
    destruct (decide (m = str "authorization")) as [-> | Ha].
    - names. unfold first_of. destruct (hget h FORWARDED_AUTH_HEADER); [done |]. rewrite !get_all_remove. by names.
    - rewrite !get_all_remove, (decide_False (P := m = str "authorization")) by done.
      destruct (decide (m = EXPOSE_HEADER)) as [-> | He]; [by rewrite decide_True by (by left) |].
      by rewrite decide_False by (intros [? | ?]; done). }
  assert (E2 : forall m, get_all h2 m = if decide (m ∈ AGENT_HOP_BY_HOP) then [] else get_all h1 m) by (intros m; apply get_all_remove_names).
  set (h3 := match upgrade with Some _ => _ | None => _ end).
  assert (E3 : forall m, get_all h3 m = if decide (m = str "connection" \/ m = str "upgrade") then (if fc then announced upgrade m else []) else get_all h2 m).
  { intros m. assert (Hn : get_all h2 (str "connection") = [] /\ get_all h2 (str "upgrade") = []) by (rewrite !E2; split; by names).
    destruct fc; [apply (announce_get h2 upgrade m Hu (fun _ => Hn)) |].
    replace h3 with h2 by (unfold h3; by destruct upgrade). destruct (decide _) as [[-> | ->] |]; [apply Hn.. | done]. }
  assert (Eh : get_all h3 (str "host") = get_all h (str "host")).
  { rewrite E3. names. rewrite E2. names. rewrite E1. by names. }
  assert (Ef : get_all h3 FORWARDED_HOST_HEADER = get_all h FORWARDED_HOST_HEADER).
  { rewrite E3. names. rewrite E2. names. rewrite E1. by names. }
  set (h4 := match hget h3 (str "host") with Some _ => _ | None => _ end).
  assert (E4 : forall m, m <> str "host" -> get_all h4 m = if decide (m = FORWARDED_HOST_HEADER) then
            (if decide (get_all h FORWARDED_HOST_HEADER = []) then first_of h (str "host") else get_all h FORWARDED_HOST_HEADER) else get_all h3 m).
  { intros m Hm. unfold h4. unfold first_of. rewrite (hget_same h3 h (str "host")) by done. destruct (hget h (str "host")) as [outer |].
    - unfold contains_key. rewrite get_all_remove. names. rewrite Ef. case_bool_decide as Hk; cbn [negb].
      + rewrite get_all_insert, get_all_remove, (decide_False (P := m = str "host")) by done. by rewrite (decide_True (P := get_all h _ = [])).
      + rewrite get_all_remove, (decide_False (P := m = str "host")) by done. rewrite (decide_False (P := get_all h _ = [])) by done.
        destruct (decide (m = FORWARDED_HOST_HEADER)) as [-> |]; done.
    - destruct (decide (m = FORWARDED_HOST_HEADER)) as [-> |]; [| done]. rewrite Ef. by destruct (decide _) as [-> |]. }
  rewrite get_all_insert_text by done. unfold local_values. destruct (decide (n = str "host")) as [| Hne]; [done |]. rewrite E4 by done.
  destruct (decide (n = FORWARDED_HOST_HEADER)); [done |]. rewrite E3, E2, E1.
  destruct (decide (n = EXPOSE_HEADER \/ n = FORWARDED_AUTH_HEADER)) as [[-> | ->] |].
  - rewrite decide_False by (intros [? | ?]; done). by names.
  - rewrite decide_False by (intros [? | ?]; done). by names.
  - destruct (decide (n = str "authorization")) as [-> |]; [| done]. rewrite decide_False by (intros [? | ?]; done). by names.
Qed.

(** ** The hub, the front and the gate together *)

Lemma upgrade_proto_eq h : upgrade_proto h = requested h.
Proof. unfold upgrade_proto, requested. destruct (hget_str h (str "connection")); [| done]. cbn [mbind option_bind]. by destruct (existsb _ _). Qed.

Lemma hget_str_single h n v : get_all h n = [v] -> Forall is_text v -> hget_str h n = Some v.
Proof. intros E Hv. unfold hget_str, hget. rewrite E. cbn. by apply to_str_text. Qed.

Lemma requested_announced h h' :
  (forall n, n = str "connection" \/ n = str "upgrade" -> get_all h' n = announced (requested h) n) -> requested h' = requested h.
Proof.
  intros Ha. pose proof (Ha (str "connection") (or_introl eq_refl)) as Hc. pose proof (Ha (str "upgrade") (or_intror eq_refl)) as Hu.
  unfold announced in Hc, Hu. revert Hc Hu. names. intros Hc Hu. destruct (requested h) as [p |] eqn:Er.
  - destruct (requested_text h p Er) as (Ht & Hne & Htr). unfold requested.
    rewrite (hget_str_single _ _ _ Hc) by (by apply text_str). cbn [mbind option_bind].
    replace (existsb _ (split 44 (str "upgrade"))) with true by (vm_compute; reflexivity).
    rewrite (hget_str_single _ _ _ Hu) by done. cbn [mbind option_bind]. by rewrite Htr, bool_decide_false.
  - unfold requested, hget_str, hget. by rewrite Hc.
Qed.

(** What the hub's answer to the front is made of. *)
Lemma hub_route_mandate cfg key hs presented raw now hs' route :
  hc_signing cfg = Some key -> 0 <= now -> web_route cfg hs presented raw now = (hs', Ok route) ->
  valid_publication_name (wr_publication route) = true /\
  wr_expose_token route = sign_expose_token key (wr_publication route) (wr_agent_pubkey route) (wr_exp route) /\ 0 <= wr_exp route <= U64_MAX.
Proof.
  intros Hk Hn. unfold web_route. destruct (require_web_secret cfg presented); [| done]. unfold with_signing. rewrite Hk.
  destruct (hc_relay cfg); [| done]. unfold checked_name. destruct (valid_publication_name (trim raw)) eqn:Ev; [| done].
  destruct (exposes hs !! trim raw) as [rec |]; [| done]. intros [= _ <-]. cbn. split_and!; [done | done | |]; unfold sat_add, U64_MAX, WEB_ROUTE_TTL; lia.
Qed.

Lemma valid_name_chars name : valid_publication_name name = true -> Forall (fun b => 97 <= b <= 122 \/ 48 <= b <= 57 \/ b = 45) name.
Proof.
  unfold valid_publication_name. rewrite !andb_true_iff. intros [[[_ Hc] _] _]. rewrite forallb_forall in Hc. apply Forall_forall.
  intros b Hb%list_elem_of_In%Hc. unfold in_rng in Hb. lia.
Qed.

Lemma valid_name_text name : valid_publication_name name = true -> Forall is_text name /\ Forall is_graph name /\ bytes_ok name /\ utf8_valid name = true.
Proof.
  intros Hv%valid_name_chars. unfold bytes_ok. split_and!; [..| apply utf8_valid_ascii];
    (eapply Forall_impl; [exact Hv |]; intros b Hb; cbn beta in Hb; unfold is_text, is_graph, is_byte, is_ascii; lia).
Qed.

Lemma b64_text_utf8 b : bytes_ok (b64_encode b) /\ utf8_valid (b64_encode b) = true.
Proof.
  pose proof (b64_graph b) as Hg. unfold bytes_ok. split; [| apply utf8_valid_ascii];
    (eapply Forall_impl; [exact Hg |]; intros x Hx; unfold is_graph, is_byte, is_ascii in *; lia).
Qed.

(** The agent's end of the connection: the request as its own listener hands it over. *)
Definition received (out : @WebRequest M) (handle : bool) : @WebRequest M :=
  {| wq_method := wq_method out; wq_path := wq_path out; wq_query := wq_query out; wq_headers := wq_headers out; wq_body := wq_body out;
     wq_peer := None; wq_on_upgrade := handle |}.

(** What a request of the browser has become at the local service. *)
Definition delivered_values (h : M) (host upstream : bytes) (handle : bool) (n : bytes) : list bytes :=
  if decide (n = str "host") then [upstream]
  else if decide (n = FORWARDED_HOST_HEADER) then [host]
  else if decide (n = str "x-forwarded-proto") then [str "https"]
  else if decide (n = EXPOSE_HEADER \/ n = FORWARDED_AUTH_HEADER) then []
  else if decide (n = str "authorization") then
    match hget h (str "authorization") with Some v => [v] | None => first_of h FORWARDED_AUTH_HEADER end
  else if decide (n = str "cookie") then front_cookie h
  else if decide (n = str "connection" \/ n = str "upgrade") then (if handle then announced (requested h) n else [])
  else if decide (n ∈ HOP_BY_HOP ++ CLIENT_ADDR_HEADERS) then []
  else get_all h n.

Lemma delivered_get h route host name upstream handle n :
  Forall is_text host -> Forall is_text name ->
  local_values (upstream_headers expose_json h route host name (requested h)) upstream (requested h)
      (bool_decide (is_Some (requested h)) && handle) n = delivered_values h host upstream handle n.
Proof.
  intros Hh Hp.
  assert (Hu : forall p, requested h = Some p -> Forall is_text p) by (intros p Er; by apply requested_text in Er as [? _]).
  assert (E : forall m, get_all (upstream_headers expose_json h route host name (requested h)) m = upstream_values h route host name (requested h) m)
    by (intros m; by apply upstream_headers_get).
  unfold local_values, delivered_values, first_of, hget. rewrite !E. fold (hget h (str "authorization")).
  destruct (decide (n = str "host")); [done |]. destruct (decide (n = FORWARDED_HOST_HEADER)).
  { unfold upstream_values. names. first [done | by rewrite decide_False]. }
  destruct (decide (n = str "x-forwarded-proto")) as [-> |]; [names; unfold upstream_values; by names |].
  destruct (decide (n = EXPOSE_HEADER \/ n = FORWARDED_AUTH_HEADER)); [done |].
  destruct (decide (n = str "authorization")).
  { unfold upstream_values. names. fold (hget h (str "authorization")). by destruct (hget h (str "authorization")). }
  destruct (decide (n = str "cookie")) as [-> |]; [names; unfold upstream_values; by names |].
  destruct (decide (n = str "connection" \/ n = str "upgrade")) as [Hc |].
  { destruct (requested h); cbn [bool_decide]; [rewrite bool_decide_true by done | rewrite bool_decide_false by (by intros [? ?])]; cbn [andb]; [done |].
    by destruct handle. }
  unfold upstream_values. rewrite !(decide_False (P := n = _)) by (done || (intros ->; by auto)).
  rewrite (decide_False (P := n = str "connection" \/ _)) by done.
  destruct (decide (n ∈ AGENT_HOP_BY_HOP)) as [Hi |]; [| done].
  rewrite decide_True; [done |]. apply elem_of_app. left.
  assert (Hs : Forall (fun m => m ∈ HOP_BY_HOP) AGENT_HOP_BY_HOP) by (apply (bool_decide_unpack _); vm_compute; exact I).
  rewrite Forall_forall in Hs. by apply Hs.
Qed.

(** The mandate of the hub, put into the header by the front, is what the gate reads. *)
Lemma mandate_read h route host name upgrade key :
  Forall is_text host -> valid_publication_name name = true -> (forall p, upgrade = Some p -> Forall is_text p) ->
  wr_expose_token route = sign_expose_token key name (wr_agent_pubkey route) (wr_exp route) -> 0 <= wr_exp route <= U64_MAX ->
  bytes_ok (wr_agent_pubkey route) -> utf8_valid (wr_agent_pubkey route) = true ->
  mandate_from_headers (upstream_headers expose_json h route host name upgrade) = Some (wr_expose_token route).
Proof.
  intros Hh Hv Hu Et He Ha1 Ha2. destruct (valid_name_text name Hv) as (Ht & Hg & Hb & H8). unfold mandate_from_headers.
  rewrite (hget_str_single _ (str "authorization") (str "Bearer " ++ encode_expose_mandate expose_json (wr_expose_token route)));
    [| rewrite upstream_headers_get by done; unfold upstream_values; by names | apply mandate_text].
  cbn [mbind option_bind]. rewrite strip_prefix_app. cbn [mbind option_bind]. unfold encode_expose_mandate.
  rewrite trim_graph by (eapply Forall_impl; [apply url64_chars | intros b; apply url64_graph]).
  rewrite url64_roundtrip by apply expose_json_bytes. cbn [mbind option_bind]. apply expose_json_back.
  rewrite Et. unfold mandate_ok, sign_expose_token. cbn [et_publication et_agent_pubkey et_signature et_exp]. split; [| done].
  repeat constructor; try done; apply b64_text_utf8.
Qed.

Lemma gate_accepts gate key name agent exp now :
  eg_hub_key gate = verifying_key key -> now < exp ->
  verify_expose_token (sign_expose_token key name agent exp) (eg_hub_key gate) name agent now = Ok tt.
Proof.
  intros -> Hn. unfold verify_expose_token, sign_expose_token. cbn [et_publication et_agent_pubkey et_exp et_signature].
  rewrite !bool_decide_true by done. cbn [negb]. destruct (Z.leb_spec exp now); [lia |]. apply check_signed.
Qed.

(** C37: From the browser to the local service: with a route the hub gave for a
    publication, the request the front sends is recognised by the agent as a request
    to that publication, its gate accepts the mandate until the route runs out, and
    the service gets the method, path, query and body of the browser under the
    address the agent's own configuration names for the publication. Of the headers
    it gets the browser's, with these differences: Host is its own address and the
    outer name is in X-Forwarded-Host, the scheme in X-Forwarded-Proto; the browser's
    own Authorization is back in its place and the mandate is gone; the session of
    the front is out of the cookies; nothing tells the browser's address; the
    hop-by-hop headers are gone, but for an upgrade, which is announced as the browser asked. *)
Theorem publication_path cfg key hs presented raw now0 hs' route gate entry req now host name handle :
  hc_signing cfg = Some key -> 0 <= now0 -> web_route cfg hs presented raw now0 = (hs', Ok route) -> name = wr_publication route ->
  bytes_ok (wr_agent_pubkey route) -> utf8_valid (wr_agent_pubkey route) = true ->
  eg_hub_key gate = verifying_key key -> eg_agent_pubkey gate = Some (wr_agent_pubkey route) ->
  publication gate name = Some entry -> Forall is_text (ee_upstream entry) ->
  hget_str (wq_headers req) (str "host") = Some host -> now < wr_exp route ->
  let out := received (upstream_request expose_json (take_upgrade req) route host name (requested (wq_headers req))) handle in
  requested_publication (wq_headers out) = Some name /\
  exists local consumer, serve gate name out now = SvProxied (ee_upstream entry) local consumer /\
    wq_method local = wq_method req /\ wq_path local = wq_path req /\ wq_query local = wq_query req /\ wq_body local = wq_body req /\
    forall n, get_all (wq_headers local) n = delivered_values (wq_headers req) host (ee_upstream entry) handle n.
Proof.
  intros Hk Hn0 Hw -> Ha1 Ha2 Hg1 Hg2 Hp Ht Hhost Hnow out.
  destruct (hub_route_mandate cfg key hs presented raw now0 hs' route Hk Hn0 Hw) as (Hv & Et & He).
  apply hget_str_some in Hhost as [_ Hh]. destruct (valid_name_text _ Hv) as (Hpt & Hpg & _ & _).
  assert (Hu : forall p, requested (wq_headers req) = Some p -> Forall is_text p) by (intros p Er; by apply requested_text in Er as [? _]).
  assert (Eh : wq_headers out = upstream_headers expose_json (wq_headers req) route host (wr_publication route) (requested (wq_headers req))) by done.
  split.
  - unfold requested_publication. rewrite Eh, (hget_str_single _ _ (wr_publication route)); [| rewrite upstream_headers_get by done; unfold upstream_values; by names | done].
    cbn [mbind option_bind]. by rewrite trim_graph, Hv.
  - unfold serve, check_mandate. rewrite Hg2, Eh, (mandate_read _ _ _ _ _ key) by done. rewrite Et, (gate_accepts gate key) by done. cbn [is_ok negb].
    rewrite Hp. unfold proxy_request. rewrite upgrade_proto_eq, Eh.
    rewrite (requested_announced (wq_headers req)).
    + eexists _, _. split; [done |]. unfold with_headers. cbn [wq_method wq_path wq_query wq_body wq_headers]. split_and!; [by destruct (bool_decide _)..|].
      intros n. rewrite local_headers_get by done. by apply delivered_get.
    + intros n Hc. rewrite upstream_headers_get by done. unfold upstream_values.
      destruct Hc as [-> | ->]; names; done.
Qed.

(** Nothing reaches a local service without a mandate that verifies for this very
    publication and this agent, and the service is the one the configuration names. *)
Lemma gate_closed gate name req now upstream local consumer :
  serve gate name req now = SvProxied upstream local consumer ->
  exists token agent entry, mandate_from_headers (wq_headers req) = Some token /\ eg_agent_pubkey gate = Some agent /\
    verify_expose_token token (eg_hub_key gate) name agent now = Ok tt /\
    publication gate name = Some entry /\ upstream = ee_upstream entry.
Proof.
  unfold serve, check_mandate. destruct (eg_agent_pubkey gate) as [agent |]; [| done]. destruct (mandate_from_headers _) as [token |]; [| done].
  destruct (verify_expose_token _ _ _ _ _) as [[] | e] eqn:Ev; [| done]. cbn [is_ok negb].
  destruct (publication gate name) as [entry |] eqn:Ep; [| done]. destruct (proxy_request _ _) as [out fc]. intros [= <- <- <-].
  by exists token, agent, entry.
Qed.

(** *** The configuration *)

Lemma seen_spec (n : bytes) (seen : list bytes) : existsb (fun s => bool_decide (s = n)) seen = true <-> n ∈ seen.
Proof.
  rewrite existsb_exists. split; [intros (x & Hx & E%bool_decide_eq_true) | intros Hn; exists n; split; [by apply list_elem_of_In | by apply bool_decide_true]].
  subst. by apply list_elem_of_In.
Qed.

Lemma validate_expose_spec_from exposes : forall seen, validate_expose_from seen exposes = Ok tt -> NoDup seen ->
  NoDup (seen ++ map ee_name exposes) /\
  Forall (fun e => valid_publication_name (ee_name e) = true /\ upstream_ok (ee_upstream e) = Some true) exposes.
Proof.
  induction exposes as [| e rest IH]; intros seen Hok Hs; [by rewrite app_nil_r |]. cbn [validate_expose_from] in Hok.
  destruct (valid_publication_name (ee_name e)) eqn:Ev; [| done]. cbn [negb] in Hok.
  destruct (existsb _ seen) eqn:Es; [done |]. destruct (upstream_ok (ee_upstream e)) as [[|] |] eqn:Eu; try done.
  assert (Hn : ee_name e ∉ seen) by (intros Hin%seen_spec; by rewrite Hin in Es).
  destruct (IH (seen ++ [ee_name e]) Hok) as [Hd Hf].
  - apply NoDup_app. split_and!; [done | | apply NoDup_singleton]. intros x Hx ->%list_elem_of_singleton. done.
  - split; [| by constructor]. cbn [map]. by rewrite <- app_assoc in Hd.
Qed.

(** An accepted configuration names every publication once, each a DNS label with
    an address that has a port. *)
Lemma validate_expose_spec exposes : validate_expose exposes = Ok tt ->
  NoDup (map ee_name exposes) /\
  Forall (fun e => valid_publication_name (ee_name e) = true /\ upstream_ok (ee_upstream e) = Some true) exposes.
Proof. intros Hok. apply (validate_expose_spec_from exposes [] Hok). constructor. Qed.

(** [expose add] and [expose rm] change the entry of their name and no other. *)
Lemma put_expose_find name upstream exposes n :
  ee_upstream <$> find_expose n (put_expose name upstream exposes) =
    if decide (n = name) then Some upstream else ee_upstream <$> find_expose n exposes.
Proof.
  unfold find_expose. induction exposes as [| e rest IH]; cbn [put_expose].
  - cbn [List.find ee_name]. case_bool_decide; destruct (decide (n = name)); simplify_eq; done.
  - case_bool_decide as He; cbn [List.find ee_name].
    + subst. case_bool_decide; destruct (decide (n = ee_name e)); simplify_eq; done.
    + case_bool_decide; [| exact IH]. rewrite decide_False by congruence. done.
Qed.

Lemma drop_expose_find name exposes n :
  find_expose n (drop_expose_entry name exposes) = if decide (n = name) then None else find_expose n exposes.
Proof.
  unfold find_expose, drop_expose_entry. induction exposes as [| e rest IH]; [by destruct (decide _) |]. rewrite filter_cons.
  destruct (decide (ee_name e <> name)) as [He | He]; cbn [List.find].
  - case_bool_decide; [| exact IH]. rewrite decide_False by congruence. done.
  - apply dec_stable in He. rewrite IH. destruct (decide (n = name)); [done |]. by rewrite bool_decide_false by congruence.
Qed.
End gate.

(** ** Witness *)

Definition toy_expose_json (t : ExposeToken) : bytes := bits (encode (et_publication t, et_agent_pubkey t, et_exp t, et_signature t)).

Definition toy_expose_of_json (b : bytes) : option ExposeToken :=
  (fun '(p, a, e, s) => {| et_publication := p; et_agent_pubkey := a; et_exp := e; et_signature := s |}) <$>
    (decode (A := bytes * bytes * Z * bytes) (unbits b)).

#[refine] Definition toy_mandates : MandateJson := {| expose_json := toy_expose_json; expose_of_json := toy_expose_of_json |}.
Proof.
  - intros t. unfold toy_expose_json. generalize (encode (et_publication t, et_agent_pubkey t, et_exp t, et_signature t)).
    intros p. induction p; cbn [bits]; [| | constructor]; (apply bytes_ok_cons; split; [unfold is_byte; lia | done]).
  - intros t _. unfold toy_expose_of_json, toy_expose_json. rewrite unbits_bits, decode_encode. by destruct t.
Defined.

Definition ex_front_cfg : HubConfig :=
  {| hc_signing := Some ex_hub;
     hc_relay := Some {| hr_addr := str "198.51.100.1"; hr_port := 8443;
                         hr_obf := {| ro_key := []; ro_salt := 0; ro_modifier := []; ro_padding_min := 0; ro_padding_max := 0 |};
                         hr_splice_lifetime_secs := 3600 |};
     hc_web_secret := Some (str "s3cret"); hc_dev_mode := false; hc_default_ttl := 3600; hc_max_ttl := 7200;
     hc_defaults := hc_defaults ex_cfg |}.

Definition ex_published : HubState :=
  let rec := {| er_name := str "dash"; er_agent_pubkey := str "QUJD"; er_created := [] |} in
  upd_exposes Hub_new {[str "dash" := rec]} {[str "dash" := rec]} [(str "dash", str "QUJD")].

Definition ex_hub_answer : HubState * reply WebRoute :=
  @web_route toy_base64 toy_ed25519 ex_front_cfg ex_published (str "s3cret") (str "dash") 1000.

Definition ex_hub_route : WebRoute := match ex_hub_answer.2 with Ok r => r | Err _ => ex_web_route end.

Definition ex_gate : ExposeGate :=
  {| eg_hub_key := ex_hub; eg_agent_pubkey := Some (str "QUJD");
     eg_publications := [{| ee_name := str "dash"; ee_upstream := str "127.0.0.1:8765" |}] |}.

Definition ex_browser : @WebRequest Pairs :=
  ex_web_request (str "GET") (str "/") [(str "cookie", ex_web_cookie); (str "authorization", str "Basic dTpw"); (str "x-real-ip", str "10.0.0.1")].

Definition ex_at_agent : @WebRequest Pairs :=
  received (@upstream_request Pairs pairs_headers plain_text toy_url64 (@expose_json toy_mandates)
              (take_upgrade ex_browser) ex_hub_route (str "dash.web.example.com") (str "dash")
              (@requested Pairs pairs_headers plain_text (wq_headers ex_browser))) true.

Lemma publication_path_witness : exists local consumer,
  @serve toy_base64 toy_ed25519 Pairs pairs_headers plain_text toy_url64 toy_mandates ex_gate (str "dash") ex_at_agent 2000 =
    SvProxied (str "127.0.0.1:8765") local consumer /\
  @get_all Pairs pairs_headers (wq_headers local) (str "authorization") = [str "Basic dTpw"] /\
  @get_all Pairs pairs_headers (wq_headers local) (str "x-real-ip") = [].
Proof.
  assert (Hw : @web_route toy_base64 toy_ed25519 ex_front_cfg ex_published (str "s3cret") (str "dash") 1000 = (ex_hub_answer.1, Ok ex_hub_route))
    by (vm_compute; reflexivity).
  destruct (@publication_path toy_base64 toy_ed25519 Pairs pairs_headers plain_text toy_url64 toy_mandates ex_front_cfg ex_hub ex_published
              (str "s3cret") (str "dash") 1000 ex_hub_answer.1 ex_hub_route ex_gate
              {| ee_name := str "dash"; ee_upstream := str "127.0.0.1:8765" |} ex_browser 2000 (str "dash.web.example.com") (str "dash") true
              eq_refl ltac:(lia) Hw ltac:(vm_compute; reflexivity) (str_bytes "QUJD") eq_refl eq_refl eq_refl ltac:(vm_compute; reflexivity)
              (textb_spec (str "127.0.0.1:8765") eq_refl) ltac:(vm_compute; reflexivity) ltac:(vm_compute; reflexivity))
    as [_ (local & consumer & Hs & _ & _ & _ & _ & Hn)].
  exists local, consumer. split_and!; [exact Hs | rewrite (Hn (str "authorization")); vm_compute; reflexivity | rewrite (Hn (str "x-real-ip")); vm_compute; reflexivity].
Defined.
